(* ===== verification/_CoqProject ===== *)
-Q . S2P
Prelude.v
RtDef.v
SortedList.v
Mem.v
Kernel.v
KService.v
KMemory.v
KPrintf.v
Cpuport.v
Scheduler.v
RtList.v
Object.v
Timer.v
Invariant.v
Thread.v
Clock.v
Ipc.v
Demo.v
KernelSpec.v
Semaphore.v
Mutex.v
System.v
Event.v
Mailbox.v
MsgQueue.v
Device.v
Idle.v
Mempool.v
DataQueue.v
Completion.v
Heap.v
HeapSpec.v
FinshDef.v
FinshHeap.v
FinshNode.v
FinshVm.v
FinshCompiler.v
FinshToken.v
FinshParser.v
FinshRun.v
FinshDemo.v
FinshVmSpec.v
FinshTree.v
FinshExpr.v
FinshEval.v
FinshProgram.v
FinshText.v
FinshGrammar.v
FinshLine.v
Shell.v
ShellEditor.v
ShellSpec.v
ShellLine.v
ShellComplete.v
Rtc.v
RtcSpec.v
DfsPath.v
Dfs.v
DfsFile.v
DfsMount.v
DfsPosix.v
DfsLookup.v
DfsFdSpec.v
DfsPosixSpec.v
DfsCalls.v
DfsDemo.v
DfsNames.v
DfsMountSpec.v
Serial.v
SerialSpec.v
Sfud.v
SfudSpec.v
SfudBlock.v
SfudErrors.v
Spi.v
SpiSpec.v
FlashStack.v
DfsLfs.v
DfsLfsSpec.v
DfsLfsCalls.v
