(* ===== verification/Prelude.v ===== *)
(** * Verification of the RT-Thread firmware of a GD32F207 board

    The program is the firmware of a GD32F207 board (Cortex-M3, one core): the
    RT-Thread 2.1.0 kernel under [src/rtthread], and under [src/components]
    the shell, the file system layer, the serial devices, the flash memory with
    its bus, and the clock.  This library models them as the project configures them ([src/rtconfig.h]) and
    states what makes them correct.

    ** The parts of the program, and the files

    Foundations
    - [Prelude]: integers of the machine, the state and error monad [M S A]
      with its notations ([let!], [;;;], [when]), faults, shared lemmas and
      hint databases.
    - [RtDef]: constants and structures of [rtdef.h]; the build configuration
      as the class [RTConfig], with [gd32_config] the instance of this firmware.
    - [SortedList]: stable insertion into a sorted list.
    - [Kernel]: the state of the kernel, its primitives and the hooks.
    - [KService], [KMemory], [KPrintf] ([kservice.c]): bit search, strings,
      the routines on memory, formatted output.
    - [RtList] ([rtservice.h]): the doubly linked lists at the level of pointers.
    - [Cpuport] ([cpuport.c]): the stack frame a new thread starts from.

    Threads and time
    - [Scheduler] ([scheduler.c]), [Object] ([object.c]), [Timer] ([timer.c]),
      [Thread] ([thread.c]), [Clock] ([clock.c], [irq.c] and the SysTick handler
      of [startup.c]), [Idle] ([idle.c]), [Device] ([device.c]).
    - [Invariant]: the invariant [kinv] that relates them.
    - [KernelSpec]: the properties of scheduler, timers, threads and clock.

    Communication between threads
    - [Ipc] (common part of [ipc.c]), [Semaphore], [Mutex], [Event], [Mailbox],
      [MsgQueue] ([ipc.c]), [DataQueue] ([dataqueue.c]), [Completion]
      ([completion.c]).
    - [System]: threads that interleave kernel calls, with clock interrupts
      between them.
    - [Demo]: a concrete system on which the theorems are evaluated.

    Memory
    - [Mem] ([mem.c]): the operations of the small memory heap; [Heap]: its
      representation as a list of blocks; [HeapSpec]: what it promises.
    - [Mempool] ([mempool.c]): pools of blocks of one size.

    The shell ([components/finsh])
    - [FinshDef] ([finsh.h], [finsh_node.h], [finsh_error.c], [finsh_var.c]),
      [FinshHeap] ([finsh_heap.c]), [FinshNode] ([finsh_node.c]): data,
      variables, strings, nodes.
    - [FinshToken] ([finsh_token.c]), [FinshParser] ([finsh_parser.c]),
      [FinshCompiler] ([finsh_compiler.c]), [FinshVm] ([finsh_ops.c],
      [finsh_vm.c]), [FinshRun] ([finsh_init.c], [finsh_run_line]): the
      interpreter; [FinshDemo] is a concrete shell.
    - [FinshVmSpec], [FinshTree], [FinshExpr], [FinshEval], [FinshProgram]:
      instructions as a step relation, the compiler on trees, the meaning of
      expressions, and the proof that the code computes it.
    - [FinshText], [FinshGrammar], [FinshLine]: tokens and expressions as text,
      and that the tokenizer and the parser read them back.
    - [Shell] ([shell.c], [list_prefix] of [cmd.c]): the line editor, the
      history and the completion of names; [ShellEditor] is the abstract
      editor, [ShellSpec] the simulation, [ShellLine] and [ShellComplete] the
      theorems.

    The file system layer ([components/dfs])
    - [DfsPath] ([dfs_normalize_path], [dfs_subdir] of [dfs.c]): paths.
    - [Dfs] ([dfs.c], [dfs_fs.c]): the tables of types, mounted file systems
      and descriptors; [DfsFile] ([dfs_file.c]), [DfsMount] ([dfs_fs.c]),
      [DfsPosix] ([dfs_posix.c]): the operations.
    - [DfsLookup]: the meaning of a lookup.  [DfsFdSpec]: the invariant of the
      table of descriptors.  [DfsPosixSpec], [DfsCalls]: single calls and runs
      of them.  [DfsNames], [DfsMountSpec]: the theorems.  [DfsDemo]: a small
      driver.
    - [DfsLfs] ([dfs_lfs.c]): the driver for littlefs; [DfsLfsSpec]: its calls
      and their structures; [DfsLfsCalls]: the theorems, with a small littlefs.

    Devices
    - [Serial] ([serial.c]), [SerialSpec]: serial devices and their receive
      buffer.
    - [Spi] ([spi_core.c], [rt_gd32f20x_spi.c]): the bus and its controller;
      [SpiSpec]: a transfer is one frame to the device.
    - [Sfud] ([sfud.c], block device of [spi_flash_sfud.c]): the driver of
      flash memories; [SfudSpec]: what the memory promises and what the driver
      does with it; [SfudBlock]: the block device, with a simulated memory;
      [SfudErrors]: the driver on a bus that fails.
    - [FlashStack] ([spi_write_read] of [spi_flash_sfud.c]): the driver on the
      bus, and the theorem on the whole stack, with a simulated serial memory.
    - [Rtc] ([ds1302z_rtc.c]), [RtcSpec]: the clock on the board.

    ** How the state corresponds to the code

    [Kernel.kstate] has a field per global variable of the kernel and a finite
    map per kind of structure, keyed by address.  A structure is a record with
    the fields of the C structure.  The linked lists of threads are a map from
    list heads ([Kernel.qid]: a ready queue, the waiting list of an object) to
    lists of threads; [RtList] proves that the pointer operations of the code
    implement the operations on that map.  The skip list of timers is a list
    of rows.  Memory that the code treats as bytes or words is a finite map by
    address ([mem_words], [mem_blocks], and the memory arguments of [KMemory]
    and [KPrintf]).

    An operation of the code is a definition of the same name in the monad
    [K] (or [HM], [P], [B] for the heap, the formatter and raw memory): a
    function from the state to a result and a state, or to a fault.  A fault
    is a failed [RT_ASSERT], a null or wild pointer, an index out of bounds, a
    list node that is linked twice, a wait outside of a thread, or fuel that
    runs out; the theorems show that none occurs.  Calls that leave the kernel
    (hooks, context switches, functions of applications) are events of the
    [trace], or parameters of the operation.

    A call that blocks ends in [rt_schedule].  Its result is an
    [Ipc.outcome]: either the call returned, or it [Blocked] and carries what
    the thread needs when it runs again; the code behind the switch is the
    definition with the suffix [_return].

    The shell has a state of its own, [Shell.sstate] with the state of the
    interpreter in it: node table, variables, stack and text segment are
    fields, a node pointer is an index or [None], and memory behind pointers
    is a map of bytes.  Its device is the list of the characters that were
    received, its console the list of what was printed.  The file system layer
    keeps its tables as lists and the descriptors as a map by address; a
    driver changes of a descriptor only its [Dfs.cursor] (flags, size,
    position, private data).  A serial device has the characters that wait in
    the receiver and the list of those that were sent.

    ** How the parts rely on each other

    The clock tick runs the time-out functions of timers.  [Timer] does not
    know them: it is proved against the class [Timer.TimeoutHandler], which
    says that a time-out function keeps an invariant and the running timers;
    [Thread] and [System] give its instances.  The calls of [ipc.c] are proved
    with the records [Ipc.waits], [Ipc.wakes], [Ipc.wakes_all] and [Ipc.gives]:
    what suspending and resuming a thread promises to a semaphore, a mutex, a
    mailbox.  [HeapSpec] uses [Mem] only through [Heap.heap_is].

    A line of the shell goes from [Shell] through [FinshRun] to the tokenizer,
    the parser, the compiler and the machine; the theorem on typed lines
    composes the proofs of all of them.  What a system call of the shell does
    is the parameter [call_function]: a change of memory and a result.  File
    system drivers, the allocator and the devices below are the class
    [Dfs.Drivers], and what the layer needs of them its laws,
    [Dfs.DriversOk]; [DfsDemo] is an instance.  The driver for littlefs is
    proved by itself: littlefs, allocator and flash are the class
    [DfsLfs.Littlefs], its laws [DfsLfsSpec.LittlefsOk] and
    [DfsLfsCalls.LfsDirOk], and [DfsLfsSpec.legal] is what the layer above
    respects.  The pins of the clock are the
    class [Rtc.Ds1302] with the laws [RtcSpec.Ds1302Ok], of which [RtcSpec] has an
    instance: a chip whose clock runs on between the transfers.

    The flash driver talks to the class [Sfud.FlashPort], and is proved from
    the promises of a flash memory, the classes [SfudSpec.NorFlash] and
    [SfudSpec.NorFlashOk].  The bus talks to the class [Spi.SpiSlave], a device
    that is selected and exchanges words.  [FlashStack] joins the two: the bus is
    an instance of the port, and the promises of a memory to which a transfer
    is one frame hold behind the bus.

    ** What the theorems show

    - [System]: from a system at rest, every interleaving of semaphore and
      mutex calls, sleeps, yields and clock ticks runs without a fault and
      keeps the invariant; one thread at a time holds a mutex; a semaphore
      hands out no more units than it has; while no mutex is released, the
      running thread stays of the highest ready priority
      ([release_does_not_schedule] shows the gap).
    - [KernelSpec]: [rt_schedule] picks the first thread of the highest ready
      priority and changes nothing else; a tick wakes exactly the threads whose time has come; a thread
      that sleeps wakes after its ticks and not before; timers are kept in
      order; yielding, suspension and change of priority.
    - [Semaphore], [Mutex], [Mailbox], [MsgQueue], [Event], [DataQueue]: each
      call refines a step of an abstract object (a counter with waiting
      threads, a recursive lock, bounded queues).  [Completion]: an event
      reaches the thread that waits for it, in either order.
    - [HeapSpec]: the blocks that [rt_malloc] hands out are disjoint, aligned
      and inside the heap, keep their data, and are given back completely, for
      single calls and for every sequence of calls; [rt_malloc] fails only
      when nothing fits.
    - [Mempool]: blocks are handed out and given back one by one.
    - [RtList]: pointers refine lists.  [KMemory]: word-wise routines agree
      with byte-wise ones.  [KPrintf]: the formatter stays in its buffer while
      the text that it puts ends below the top of the address space (the output
      position is a 32-bit pointer that moves on behind the buffer and wraps
      around), and what it prints for a number is that number.

    - [FinshProgram]: what the compiler writes for a program has the value and
      the effect of the program, in the low bits of its type, after a type pass
      that computes the rule by which the operations are selected.
      [FinshLine]: an expression that is printed without parentheses and parsed
      is the same expression.
    - [ShellLine], [ShellComplete]: the keys edit the line as the abstract
      editor does and the terminal shows it; a typed line is evaluated and its
      value is printed; the tabulator key completes to the longest text that
      is common to all candidates.
    - [DfsPath]: a normalised path stands for what the path was written for.
      [DfsNames]: [open] gives the lowest descriptor that is free or changes
      nothing; a run of calls on files, below a file system at the root, keeps
      the tables; a file that is open is not unlinked.  [DfsMountSpec]: a lookup
      finds the deepest file system above the path; mounting does all of its
      work or none, but for one path that is lost when the directory of the
      check cannot be closed.  [DfsLfsCalls]: in legal sequences of calls the
      littlefs driver has exactly the structures of the open files and gives its
      lock back; it lists directories completely.
    - [SerialSpec]: the receive buffer is a queue that forgets its oldest
      characters.  [SpiSpec]: a transfer of words is one frame with the parameters of
      its device.  [FlashStack]: the block device is an array of sectors;
      [SfudErrors]: the calls end with the lock given back, whatever fails.
      [RtcSpec]: the clock gives the time back that was set, when no second ends
      while it is set.

    ** Fuel

    Loops of the code whose recursion is not structural take fuel, and the
    callers supply enough: [Timer.timer_fuel] is one more than the number of
    running timers, of which every round removes one; [Mem.loop_fuel] is one
    more than the number of headers, which the search visits once; loops over
    memory take one more than the number of bytes; the formatter takes the
    length of the format; a loop over a waiting list takes one more than its
    length.  The shell: the parser takes twice the length of the line
    ([FinshParser.parser_fuel]), as every round consumes a token; lists of
    nodes take [FINSH_NODE_MAX]; the machine takes [FINSH_TEXT_MAX],
    the length of its text segment; the editor takes the number of received characters.  Paths take
    their length and two more.  The receive interrupt takes one more than the
    number of characters that wait.  Listing a
    directory takes more fuel than entries are left.  The flash driver: erasing and writing take
    three more than the size divided by the block, as every round but the
    first and the last does a whole block; a wait takes the number of retries.
    That the fuel is enough is part of the theorems, whose
    conclusion is that the call returns a result.

    ** What is not modelled

    Interrupts come between kernel calls, not inside of them.  Signed
    arithmetic wraps around.  A system call of the shell changes only memory.
    The lock of the file system layer is a hold count of one caller.  Output
    to the log is left out.

    Not modelled are, of the shell, the second command interpreter ([msh.c]),
    the change of its device, the disassembler and the listings of [cmd.c];
    of the file systems, the shell commands, the table of mounts at start-up,
    select and poll, littlefs and the other file systems; of the serial devices,
    sending by interrupt and by DMA and the registration; of the bus and the
    flash, the registration of devices, the flags of the controller on which
    the driver waits, DMA, four data lines and the tables of a chip, of which
    the project configures none.  Loadable modules, [memheap.c] and [slab.c]
    are not compiled into the firmware.  The other drivers (USART, Ethernet)
    read and write registers; lwIP, littlefs and the peripheral
    library are third-party code. *)

From stdpp Require Export base tactics numbers countable option gmap list.

#[export] Set Default Goal Selector "!".
Open Scope Z_scope.

(** ** Machine integers

    The firmware runs on a 32-bit Cortex-M3.  A C integer is a [Z]; the
    functions below are the conversions the C types of [rtdef.h] perform. *)
Definition wrap (w x : Z) : Z := x mod 2 ^ w.
Definition u8 (x : Z) : Z := wrap 8 x.
Definition u16 (x : Z) : Z := wrap 16 x.
Definition u32 (x : Z) : Z := wrap 32 x.
Definition swrap (w x : Z) : Z := (x + 2 ^ (w - 1)) mod 2 ^ w - 2 ^ (w - 1).
Definition s8 (x : Z) : Z := swrap 8 x.
Definition s16 (x : Z) : Z := swrap 16 x.
Definition s32 (x : Z) : Z := swrap 32 x.

(** ** Faults

    What ends an execution that C leaves undefined, or that the firmware ends
    by a reset. *)
Inductive fault : Type :=
  | AssertFailed      (* RT_ASSERT with RT_DEBUG: prints and reboots *)
  | NullDeref         (* dereference of a null or wild pointer *)
  | OutOfBounds       (* array access out of range *)
  | BadList           (* relinking a node that is already linked *)
  | Reboot            (* reboot() *)
  | WouldBlock        (* a wait outside a thread *)
  | Undefined         (* a value that C leaves undefined *)
  | OutOfFuel.        (* the fuel of a loop is exhausted *)

#[export] Instance fault_eq_dec : EqDecision fault.
Proof. solve_decision. Defined.

(** ** State and error monad *)
Inductive res (S A : Type) : Type :=
  | Ok (a : A) (s : S)
  | Fault (f : fault).
Arguments Ok {S A} a s.
Arguments Fault {S A} f.

Definition M (S A : Type) : Type := S → res S A.
Definition ret {S A} (a : A) : M S A := λ s, Ok a s.
Definition bind {S A B} (m : M S A) (k : A → M S B) : M S B := λ s,
  match m s with
  | Ok a s' => k a s'
  | Fault f => Fault f
  end.
Definition fail {S A} (f : fault) : M S A := λ _, Fault f.
Definition gets {S A} (f : S → A) : M S A := λ s, Ok (f s) s.
Definition modify {S} (f : S → S) : M S unit := λ s, Ok tt (f s).
Definition from_option {S A} (f : fault) (o : option A) : M S A :=
  match o with Some a => ret a | None => fail f end.

Declare Scope rt_scope.
Delimit Scope rt_scope with rt.
Notation "'let!' x ':=' m 'in' k" := (bind m (λ x, k))
  (at level 10, x pattern, m at level 100, k at level 200,
   format "'[v' 'let!'  x  ':='  m  'in' '/' k ']'") : rt_scope.
Notation "m ';;;' k" := (bind m (λ _, k))
  (at level 100, right associativity,
   format "'[v' m ';;;' '/' k ']'") : rt_scope.
Notation "'when' b 'then' m" := (if (b : bool) then m else ret tt)
  (at level 99, b at level 200, m at level 99) : rt_scope.
Notation "'read' f" := (gets (λ s, f s)) (at level 10, f at level 9) : rt_scope.
Open Scope rt_scope.

(** [wp m Q s]: [m] runs from [s] without a fault and ends in a result and a
    state that satisfy [Q]. *)
Definition wp {S A} (m : M S A) (Q : A → S → Prop) (s : S) : Prop :=
  match m s with
  | Ok a s' => Q a s'
  | Fault _ => False
  end.

Section wp_rules.
Context {S : Type}.

Lemma wp_ret {A} (a : A) Q (s : S) : wp (ret a) Q s ↔ Q a s.
Proof. done. Qed.

Lemma wp_bind {A B} (m : M S A) (k : A → M S B) Q s :
  wp (bind m k) Q s ↔ wp m (λ a, wp (k a) Q) s.
Proof. unfold wp, bind. by destruct (m s). Qed.

Lemma wp_gets {A} (f : S → A) Q s : wp (gets f) Q s ↔ Q (f s) s.
Proof. done. Qed.

Lemma wp_modify (f : S → S) Q s : wp (modify f) Q s ↔ Q tt (f s).
Proof. done. Qed.

Lemma wp_mono {A} (m : M S A) (Q Q' : A → S → Prop) s :
  wp m Q s → (∀ a s', Q a s' → Q' a s') → wp m Q' s.
Proof. unfold wp. destruct (m s); naive_solver. Qed.

Lemma wp_eq {A} (m : M S A) Q s a s' : m s = Ok a s' → Q a s' → wp m Q s.
Proof. unfold wp. by intros ->. Qed.

Lemma wp_run {A} (m : M S A) Q s : wp m Q s → ∃ a s', m s = Ok a s' ∧ Q a s'.
Proof. unfold wp. destruct (m s); naive_solver. Qed.

Lemma bind_ok {A B} (m : M S A) (k : A → M S B) s a s' :
  m s = Ok a s' → bind m k s = k a s'.
Proof. unfold bind. by intros ->. Qed.

Lemma bind_ret {A B} (a : A) (k : A → M S B) s : bind (ret a) k s = k a s.
Proof. done. Qed.

Lemma bind_gets {A B} (f : S → A) (k : A → M S B) s : bind (gets f) k s = k (f s) s.
Proof. done. Qed.

Lemma bind_modify {B} (f : S → S) (k : unit → M S B) s : bind (modify f) k s = k tt (f s).
Proof. done. Qed.

Lemma bind_assoc {A B C} (m : M S A) (k : A → M S B) (h : B → M S C) s :
  bind (bind m k) h s = bind m (λ a, bind (k a) h) s.
Proof. unfold bind. by destruct (m s). Qed.
End wp_rules.

(** [autorewrite with run] executes the monad's own operations. *)
Create HintDb run.
#[export] Hint Rewrite @bind_ret @bind_gets @bind_modify @bind_assoc : run.

(** ** Bounds through bits *)
Lemma testbit_bound w x :
  0 ≤ w → (∀ j, w ≤ j → Z.testbit x j = false) → 0 ≤ x < 2 ^ w.
Proof.
  intros Hw Hb. assert (x = x mod 2 ^ w) as ->; [|apply Z.mod_pos_bound; lia].
  apply Z.bits_inj'. intros j Hj. destruct (Z.ltb_spec j w).
  - by rewrite Z.mod_pow2_bits_low.
  - rewrite Z.mod_pow2_bits_high by lia. apply Hb. lia.
Qed.

Lemma testbit_high w x j : 0 ≤ x < 2 ^ w → w ≤ j → Z.testbit x j = false.
Proof.
  intros Hx Hj. destruct (Z.ltb_spec w 0); [rewrite Z.pow_neg_r in Hx; lia|].
  rewrite <- (Z.mod_small x (2 ^ w)) by done. apply Z.mod_pow2_bits_high. lia.
Qed.

Lemma wrap_range w x : 0 ≤ w → 0 ≤ wrap w x < 2 ^ w.
Proof. intros. apply Z.mod_pos_bound. lia. Qed.

Lemma wrap_small w x : 0 ≤ x < 2 ^ w → wrap w x = x.
Proof. apply Z.mod_small. Qed.

Lemma u32_small x : 0 ≤ x < 2 ^ 32 → u32 x = x.
Proof. apply wrap_small. Qed.

Lemma s32_small n : 0 ≤ n < 2 ^ 31 → s32 n = n.
Proof. intros. unfold s32, swrap. rewrite Z.mod_small; lia. Qed.

Lemma lor_range w x y : 0 ≤ w →
  0 ≤ x < 2 ^ w → 0 ≤ y < 2 ^ w → 0 ≤ Z.lor x y < 2 ^ w.
Proof.
  intros Hw Hx Hy. apply testbit_bound; [done|]. intros j Hj.
  by rewrite Z.lor_spec, (testbit_high w x), (testbit_high w y).
Qed.

Lemma land_range w x y : 0 ≤ w → 0 ≤ x < 2 ^ w → 0 ≤ Z.land x y < 2 ^ w.
Proof.
  intros Hw Hx. apply testbit_bound; [done|]. intros j Hj.
  by rewrite Z.land_spec, (testbit_high w x).
Qed.

(** Ranges of machine integers. *)
Create HintDb range.
#[export] Hint Resolve wrap_range wrap_small u32_small lor_range land_range testbit_high : range.

(** ** Chains of pointers in memory

    A list that is linked through the first words of its blocks. *)
(** From [h] the [next] pointers lead through [l] to the null pointer. *)
Fixpoint chain (words : gmap Z Z) (h : Z) (l : list Z) : Prop :=
  match l with
  | [] => h = 0
  | a :: l => h = a ∧ a ≠ 0 ∧ ∃ next, words !! a = Some next ∧ chain words next l
  end.

Lemma chain_update words a v h l : a ∉ l → chain words h l → chain (<[a := v]> words) h l.
Proof.
  revert h. induction l as [|b l IH]; intros h; simpl; [done|].
  intros [Hne Hn]%not_elem_of_cons (-> & Hb & next & Hw & Hc). split_and!; [done..|].
  exists next. by rewrite lookup_insert_ne by done; auto.
Qed.

Lemma chain_nonzero words h l : chain words h l → (h =? 0) = bool_decide (l = []).
Proof.
  destruct l as [|a l]; simpl.
  - by intros ->.
  - intros (-> & Ha & _). lia.
Qed.

Lemma chain_snoc words h l t m : m ≠ 0 → m ∉ l ++ [t] → t ∉ l →
  chain words h (l ++ [t]) → chain (<[t := m]> (<[m := 0]> words)) h (l ++ [t; m]).
Proof.
  intros Hm. revert h. induction l as [|a l IH]; intros h; simpl.
  - intros Hn _ (-> & Ht & next & _ & _). split_and!; [done..|]. exists m.
    rewrite lookup_insert_eq. split_and!; [done..|]. exists 0.
    rewrite lookup_insert_ne by set_solver. by rewrite lookup_insert_eq.
  - intros [Hma Hn]%not_elem_of_cons [Hta Htl]%not_elem_of_cons (-> & Ha & next & Hw & Hc).
    split_and!; [done..|]. exists next. rewrite !lookup_insert_ne by done.
    split; [done|]. by apply IH.
Qed.

(** ** Slots of a ring *)
Lemma ring_slot_ne out i n size : 0 ≤ i < n → n < size →
  (out + i) mod size ≠ (out + n) mod size.
Proof.
  intros Hi Hn E.
  pose proof (Z.div_mod (out + i) size ltac:(lia)). pose proof (Z.div_mod (out + n) size ltac:(lia)).
  assert (n - i = size * ((out + n) / size - (out + i) / size)) by (rewrite Z.mul_sub_distr_l; lia).
  generalize dependent ((out + n) / size - (out + i) / size). intros k Hk.
  destruct (Z.le_gt_cases k 0); nia.
Qed.
