(* ===== verification/RtDef.v ===== *)
(** * Constants and data of the kernel ([rtdef.h], [rtconfig.h])

    Constants of the headers, the structures of the kernel objects, and the
    build configuration as a type class. *)

From S2P Require Import Prelude.

(** ** Build configuration

    [RT_DEBUG] decides whether [RT_ASSERT] and the context checks exist;
    [rtconfig.h] does not define it.  The skip list level and mask of the
    timer lists have defaults in [rtdef.h].  [object_size] is the
    [object_size] field of [rt_object_container], the [sizeof] of the
    structure of each class, which depends on the options, and
    [rt_thread_exit_address] where the linker puts [rt_thread_exit].  All
    theorems hold for every configuration. *)
Class RTConfig := {
  RT_DEBUG : bool;
  RT_TIMER_SKIP_LIST_LEVEL : nat;
  RT_TIMER_SKIP_LIST_MASK : Z;
  object_size : Z → Z;
  rt_thread_exit_address : Z
}.

(** The sizes of a thread, a semaphore, a mutex, a mailbox, a device and a
    timer. *)
Definition gd32_object_size (type : Z) : Z :=
  match type with
  | 0 => 120 | 1 => 32 | 2 => 36 | 3 => 48 | 4 => 64 | 5 => 44 | _ => 0
  end.

Definition gd32_config : RTConfig := {|
  RT_DEBUG := false;
  RT_TIMER_SKIP_LIST_LEVEL := 1;
  RT_TIMER_SKIP_LIST_MASK := 3;
  object_size := gd32_object_size;
  rt_thread_exit_address := 0x08002001
|}.

(** ** Constants *)
Definition RT_NAME_MAX : Z := 8.
Definition RT_ALIGN_SIZE : Z := 8.
Definition RT_THREAD_PRIORITY_MAX : Z := 32.
Definition RT_TICK_PER_SECOND : Z := 1000.
Definition RT_TICK_MAX : Z := 0xffffffff.

Definition RT_EOK : Z := 0.
Definition RT_ERROR : Z := 1.
Definition RT_ETIMEOUT : Z := 2.
Definition RT_EFULL : Z := 3.
Definition RT_EEMPTY : Z := 4.
Definition RT_ENOMEM : Z := 5.
Definition RT_ENOSYS : Z := 6.
Definition RT_EBUSY : Z := 7.
Definition RT_EIO : Z := 8.

Definition RT_THREAD_INIT : Z := 0.
Definition RT_THREAD_READY : Z := 1.
Definition RT_THREAD_SUSPEND : Z := 2.
Definition RT_THREAD_CLOSE : Z := 4.

Definition RT_THREAD_CTRL_STARTUP : Z := 0.
Definition RT_THREAD_CTRL_CLOSE : Z := 1.
Definition RT_THREAD_CTRL_CHANGE_PRIORITY : Z := 2.

Definition RT_TIMER_FLAG_ACTIVATED : Z := 1.
Definition RT_TIMER_FLAG_ONE_SHOT : Z := 0.
Definition RT_TIMER_FLAG_PERIODIC : Z := 2.
Definition RT_TIMER_CTRL_SET_TIME : Z := 0.
Definition RT_TIMER_CTRL_GET_TIME : Z := 1.
Definition RT_TIMER_CTRL_SET_ONESHOT : Z := 2.
Definition RT_TIMER_CTRL_SET_PERIODIC : Z := 3.

Definition RT_IPC_FLAG_FIFO : Z := 0.
Definition RT_IPC_FLAG_PRIO : Z := 1.
Definition RT_IPC_CMD_RESET : Z := 1.
Definition RT_WAITING_FOREVER : Z := -1.

Definition RT_EVENT_FLAG_AND : Z := 1.
Definition RT_EVENT_FLAG_OR : Z := 2.
Definition RT_EVENT_FLAG_CLEAR : Z := 4.

(** [enum rt_object_class_type] of the configured build, followed by the
    classes that only exist when their component is compiled in; those keep
    distinct numbers after the configured ones. *)
Definition RT_Object_Class_Thread : Z := 0.
Definition RT_Object_Class_Semaphore : Z := 1.
Definition RT_Object_Class_Mutex : Z := 2.
Definition RT_Object_Class_MailBox : Z := 3.
Definition RT_Object_Class_Device : Z := 4.
Definition RT_Object_Class_Timer : Z := 5.
Definition RT_Object_Class_Unknown : Z := 6.
Definition RT_Object_Class_Event : Z := 7.
Definition RT_Object_Class_MessageQueue : Z := 8.
Definition RT_Object_Class_MemPool : Z := 9.
Definition RT_Object_Class_Static : Z := 0x80.

(** [RT_ALIGN(size, align)] and [RT_ALIGN_DOWN(size, align)] on 32-bit
    unsigned operands. *)
Definition RT_ALIGN (size align : Z) : Z :=
  Z.land (u32 (size + align - 1)) (u32 (Z.lnot (align - 1))).
Definition RT_ALIGN_DOWN (size align : Z) : Z :=
  Z.land size (u32 (Z.lnot (align - 1))).

(** The two macros on the alignment of the configuration. *)
Lemma align_eq x : RT_ALIGN x 8 = 8 * (u32 (x + 7) / 8).
Proof.
  unfold RT_ALIGN. replace (x + 8 - 1) with (x + 7) by lia.
  transitivity (Z.ldiff (u32 (x + 7)) (Z.ones 3)).
  - apply Z.bits_inj'. intros j Hj. rewrite Z.land_spec, Z.ldiff_spec.
    change (8 - 1) with (Z.ones 3). unfold u32, wrap. destruct (Z.ltb_spec j 32).
    + rewrite !Z.mod_pow2_bits_low by lia. by rewrite Z.lnot_spec.
    + by rewrite !Z.mod_pow2_bits_high by lia.
  - rewrite Z.ldiff_ones_r by lia. rewrite Z.shiftl_mul_pow2, Z.shiftr_div_pow2 by lia. change (2 ^ 3) with 8. lia.
Qed.

Lemma align_mod x : RT_ALIGN x 8 mod 8 = 0.
Proof. rewrite align_eq, Z.mul_comm. apply Z.mod_mul. lia. Qed.

Lemma align_range x : 0 ≤ RT_ALIGN x 8 < 2 ^ 32.
Proof.
  rewrite align_eq. pose proof (wrap_range 32 (x + 7)). fold (u32 (x + 7)) in *.
  pose proof (Z.mul_div_le (u32 (x + 7)) 8). pose proof (Z.div_pos (u32 (x + 7)) 8). lia.
Qed.

Lemma align_ge x : 0 ≤ x ≤ 2 ^ 32 - 8 → x ≤ RT_ALIGN x 8 < x + 8.
Proof.
  intros Hx. rewrite align_eq, u32_small by lia.
  pose proof (Z.div_mod (x + 7) 8). pose proof (Z.mod_pos_bound (x + 7) 8). lia.
Qed.

Lemma align_down_8 a : 0 ≤ a < 2 ^ 32 → RT_ALIGN_DOWN a 8 = 8 * (a / 8).
Proof.
  intros Ha. unfold RT_ALIGN_DOWN. change (u32 (Z.lnot (8 - 1))) with (Z.shiftl (Z.ones 29) 3).
  apply Z.bits_inj'. intros j Hj. rewrite Z.land_spec.
  replace (8 * (a / 8)) with (Z.shiftl (Z.shiftr a 3) 3)
    by (rewrite Z.shiftl_mul_pow2, Z.shiftr_div_pow2 by lia; change (2 ^ 3) with 8; lia).
  destruct (Z.ltb_spec j 3).
  - rewrite !(Z.shiftl_spec_low _ 3 j) by lia. apply andb_false_r.
  - rewrite !(Z.shiftl_spec _ 3 j) by lia. rewrite Z.shiftr_spec by lia.
    replace (j - 3 + 3) with j by lia. destruct (Z.ltb_spec j 32).
    + rewrite Z.ones_spec_low by lia. apply andb_true_r.
    + by rewrite (testbit_high 32 a j) by lia.
Qed.

(** ** Addresses and structures

    An address is a [Z]; [0] is the null pointer. *)
#[local] Set Primitive Projections.

Record rt_object := mk_object {
  obj_name : list Z;      (* RT_NAME_MAX bytes *)
  obj_type : Z;
  obj_flag : Z
}.

(** A timer is the one built into a thread, or one of its own. *)
Inductive tmr : Type :=
  | ThreadTimer (t : Z)
  | Timer (p : Z).

#[export] Instance tmr_eq_dec : EqDecision tmr.
Proof. solve_decision. Defined.
#[export] Program Instance tmr_countable : Countable tmr :=
  inj_countable' (λ x, match x with ThreadTimer t => inl t | Timer p => inr p end)
                 (λ y, match y with inl t => ThreadTimer t | inr p => Timer p end) _.
Next Obligation. by intros []. Qed.

(** What a [timeout_func] pointer designates. *)
Inductive timeout_fn : Type :=
  | fn_rt_thread_timeout
  | fn_user (f : Z).

#[export] Instance timeout_fn_eq_dec : EqDecision timeout_fn.
Proof. solve_decision. Defined.

Record rt_timer := mk_timer {
  tm_parent : rt_object;
  tm_timeout_func : timeout_fn;
  tm_parameter : Z;
  tm_init_tick : Z;
  tm_timeout_tick : Z
}.

Record rt_thread := mk_thread {
  th_parent : rt_object;
  th_sp : Z;
  th_entry : Z;
  th_parameter : Z;
  th_stack_addr : Z;
  th_stack_size : Z;
  th_stack : list Z;            (* the stack_size bytes at stack_addr *)
  th_error : Z;
  th_stat : Z;
  th_current_priority : Z;
  th_init_priority : Z;
  th_number_mask : Z;
  th_event_set : Z;
  th_event_info : Z;
  th_init_tick : Z;
  th_remaining_tick : Z;
  th_cleanup : option Z;
  th_user_data : Z
}.

Record rt_semaphore := mk_sem {
  sem_parent : rt_object;
  sem_value : Z                 (* rt_uint16_t *)
}.

Record rt_mutex := mk_mutex {
  mtx_parent : rt_object;
  mtx_value : Z;                (* rt_uint16_t *)
  mtx_original_priority : Z;    (* rt_uint8_t *)
  mtx_hold : Z;                 (* rt_uint8_t *)
  mtx_owner : option Z
}.

Record rt_event := mk_event {
  evt_parent : rt_object;
  evt_set : Z                   (* rt_uint32_t *)
}.

Record rt_mailbox := mk_mailbox {
  mb_parent : rt_object;
  mb_msg_pool : Z;              (* address of the buffer of mails *)
  mb_size : Z;                  (* rt_uint16_t, as the next three *)
  mb_entry : Z;
  mb_in_offset : Z;
  mb_out_offset : Z
}.

(** The pool, the head, the tail and the free list of a message queue are
    addresses of [struct rt_mq_message]. *)
Record rt_messagequeue := mk_mq {
  mq_parent : rt_object;
  mq_msg_pool : Z;
  mq_msg_size : Z;              (* rt_uint16_t, as the next two *)
  mq_max_msgs : Z;
  mq_entry : Z;
  mq_queue_head : Z;
  mq_queue_tail : Z;
  mq_queue_free : Z
}.

Record rt_mempool := mk_mempool {
  mp_parent : rt_object;
  mp_start_address : Z;
  mp_size : Z;
  mp_block_size : Z;
  mp_block_list : Z;
  mp_block_total_count : Z;
  mp_block_free_count : Z;
  mp_suspend_thread_count : Z
}.
