(* ===== verification/SortedList.v ===== *)
(** * Lists sorted by an integer key

    Stable insertion into a sorted list, the abstract operation that the timer
    rows and the waiting lists implement: the new element goes behind every
    element whose key is not greater. *)

From S2P Require Import Prelude.
From stdpp Require Import sorting.
Open Scope Z_scope.

Lemma filter_nil {A} (P : A → Prop) `{!∀ x, Decision (P x)} (l : list A) :
  Forall (λ x, ¬ P x) l → filter P l = [].
Proof. induction 1; [done|]. by rewrite filter_cons_False. Qed.

Lemma filter_ext_in {A} (P Q : A → Prop) `{!∀ x, Decision (P x), !∀ x, Decision (Q x)}
    (l : list A) :
  (∀ x, x ∈ l → P x ↔ Q x) → filter P l = filter Q l.
Proof.
  induction l as [|y l IH]; intros He; [done|]. rewrite !filter_cons.
  rewrite IH by set_solver. pose proof (He y ltac:(left)). repeat case_decide; naive_solver.
Qed.

Section sorted_list.
Context {A : Type} (key : A → Z).

Definition sorted_by (l : list A) : Prop := StronglySorted (λ x y, key x ≤ key y) l.
Definition upto (k : Z) (l : list A) : list A := filter (λ x, key x ≤ k) l.
Definition beyond (k : Z) (l : list A) : list A := filter (λ x, k < key x) l.
Definition sorted_insert (k : Z) (x : A) (l : list A) : list A :=
  upto k l ++ x :: beyond k l.

Lemma elem_of_upto k l y : y ∈ upto k l ↔ key y ≤ k ∧ y ∈ l.
Proof. unfold upto. by rewrite list_elem_of_filter. Qed.
Lemma elem_of_beyond k l y : y ∈ beyond k l ↔ k < key y ∧ y ∈ l.
Proof. unfold beyond. by rewrite list_elem_of_filter. Qed.

Lemma sorted_sublist l l' : l `sublist_of` l' → sorted_by l' → sorted_by l.
Proof.
  induction 1 as [|y l l' Hs IH|y l l' Hs IH]; intros Hl; [done|..];
    apply StronglySorted_cons in Hl as [Hf Hl'].
  - apply StronglySorted_cons. split; [|by apply IH].
    eapply Forall_forall. intros z Hz. rewrite Forall_forall in Hf.
    apply Hf. by eapply sublist_subseteq.
  - by apply IH.
Qed.

Lemma sorted_split k l : sorted_by l → l = upto k l ++ beyond k l.
Proof.
  unfold upto, beyond. induction l as [|y l IH]; intros Hl; [done|].
  apply StronglySorted_cons in Hl as [Hf Hl].
  destruct (Z_le_gt_dec (key y) k) as [Hy|Hy].
  - rewrite (filter_cons_True (λ x, key x ≤ k)), (filter_cons_False (λ x, k < key x)) by lia.
    simpl. f_equal. by apply IH.
  - rewrite (filter_cons_False (λ x, key x ≤ k)), (filter_cons_True (λ x, k < key x)) by lia.
    assert (filter (λ x, key x ≤ k) l = []) as ->.
    { apply filter_nil. eapply Forall_impl; [exact Hf|]. simpl. intros. lia. }
    simpl. f_equal. rewrite IH at 1 by done.
    assert (filter (λ x, key x ≤ k) l = []) as ->; [|done].
    apply filter_nil. eapply Forall_impl; [exact Hf|]. simpl. intros. lia.
Qed.

Lemma sorted_insert_sorted k x l :
  key x = k → sorted_by l → sorted_by (sorted_insert k x l).
Proof.
  intros Hx Hl. unfold sorted_insert. apply StronglySorted_app_2.
  - intros y z Hy Hz. apply elem_of_upto in Hy as [Hy _].
    apply elem_of_cons in Hz as [->|[Hz _]%elem_of_beyond]; lia.
  - eapply sorted_sublist; [apply sublist_filter|done].
  - apply StronglySorted_cons. split.
    + apply Forall_forall. intros z [Hz _]%elem_of_beyond. lia.
    + eapply sorted_sublist; [apply sublist_filter|done].
Qed.

Lemma upto_beyond_perm k l : upto k l ++ beyond k l ≡ₚ l.
Proof.
  unfold upto, beyond. induction l as [|y l IH]; [done|].
  destruct (Z_le_gt_dec (key y) k) as [Hy|Hy].
  - rewrite (filter_cons_True (λ x, key x ≤ k)), (filter_cons_False (λ x, k < key x)) by lia.
    simpl. by rewrite IH.
  - rewrite (filter_cons_False (λ x, key x ≤ k)), (filter_cons_True (λ x, k < key x)) by lia.
    by rewrite <- Permutation_middle, IH.
Qed.

Lemma sorted_insert_perm k x l : sorted_insert k x l ≡ₚ x :: l.
Proof. unfold sorted_insert. by rewrite <- Permutation_middle, upto_beyond_perm. Qed.

Lemma filter_sublist P `{!∀ x : A, Decision (P x)} l l' :
  l `sublist_of` l' → filter P l `sublist_of` filter P l'.
Proof.
  induction 1 as [|y l l' Hs IH|y l l' Hs IH]; [done|..].
  - rewrite !filter_cons. case_decide; [by apply sublist_skip|done].
  - rewrite (filter_cons _ y l'). case_decide; [by apply sublist_cons|done].
Qed.

Lemma sorted_insert_sublist k x l l' :
  l `sublist_of` l' → sorted_insert k x l `sublist_of` sorted_insert k x l'.
Proof.
  intros. apply sublist_app; [by apply filter_sublist|].
  apply sublist_skip. by apply filter_sublist.
Qed.

Lemma sorted_insert_sublist_r k x l :
  sorted_by l → l `sublist_of` sorted_insert k x l.
Proof.
  intros Hl. rewrite (sorted_split k l) at 1 by done.
  apply sublist_app; [done|]. by apply sublist_cons.
Qed.

Lemma upto_sorted_insert k' k x l :
  k' < k → k' < key x → upto k' (sorted_insert k x l) = upto k' l.
Proof.
  intros Hk Hx. unfold sorted_insert, upto, beyond.
  rewrite filter_app, filter_cons_False by lia.
  rewrite list_filter_filter_l by (intros; lia).
  rewrite list_filter_filter. rewrite (filter_nil (λ y, key y ≤ k' ∧ k < key y)).
  - apply app_nil_r.
  - apply Forall_forall. intros y _. lia.
Qed.
End sorted_list.

(** Keys that agree on the elements of the list. *)
Lemma sorted_by_ext {A} (key key' : A → Z) l :
  (∀ x, x ∈ l → key x = key' x) → sorted_by key l → sorted_by key' l.
Proof.
  induction l as [|y l IH]; intros He Hl; [constructor|].
  apply StronglySorted_cons in Hl as [Hf Hl]. apply StronglySorted_cons. split.
  - apply Forall_forall. intros z Hz. rewrite Forall_forall in Hf.
    rewrite <- !He by set_solver. by apply Hf.
  - apply IH; [|done]. intros z Hz. apply He. by right.
Qed.

Lemma sorted_insert_ext {A} (key key' : A → Z) k x l :
  (∀ y, y ∈ l → key y = key' y) → sorted_insert key k x l = sorted_insert key' k x l.
Proof.
  intros He. unfold sorted_insert, upto, beyond. f_equal; [|f_equal];
    apply filter_ext_in; intros y Hy; by rewrite He.
Qed.

(** A shift of every key. *)
Lemma sorted_by_mono {A} (key key' : A → Z) l :
  (∀ x y, x ∈ l → y ∈ l → key x ≤ key y → key' x ≤ key' y) →
  sorted_by key l → sorted_by key' l.
Proof.
  induction l as [|y l IH]; intros He Hl; [constructor|].
  apply StronglySorted_cons in Hl as [Hf Hl]. apply StronglySorted_cons. split.
  - apply Forall_forall. intros z Hz. rewrite Forall_forall in Hf.
    apply He; [set_solver..|]. by apply Hf.
  - apply IH; [|done]. intros u v Hu Hv. apply He; by right.
Qed.
