(* ===== verification/Kernel.v ===== *)
(** * The kernel state and the primitives on it

    One record holds the global variables of the kernel and the objects in
    memory.  This file gives typed access to the objects, the interrupt mask,
    the hooks, and the lists that [rt_thread.tlist] links threads into. *)

From S2P Require Import Prelude RtDef Mem.

(** ** Identifiers *)

(** The heads of the lists a thread's [tlist] node can be linked into: the
    ready queue of a priority, the [suspend_thread] list of an object, the
    [suspend_sender_thread] list of a mailbox, and [rt_thread_defunct]. *)
Inductive qid : Type :=
  | QReady (prio : Z)
  | QSuspend (p : Z)
  | QSender (p : Z)
  | QDefunct.

#[export] Instance qid_eq_dec : EqDecision qid.
Proof. solve_decision. Defined.
#[export] Program Instance qid_countable : Countable qid :=
  inj_countable'
    (λ x, match x with
          | QReady p => inl (inl p) | QSuspend p => inl (inr p)
          | QSender p => inr (inl p) | QDefunct => inr (inr tt) end)
    (λ y, match y with
          | inl (inl p) => QReady p | inl (inr p) => QSuspend p
          | inr (inl p) => QSender p | inr (inr _) => QDefunct end) _.
Next Obligation. by intros []. Qed.

(** Kernel objects, by the structure that embeds the [rt_object]. *)
Inductive oid : Type :=
  | OThread (t : Z)
  | OTimer (x : tmr)
  | OIpc (p : Z).

#[export] Instance oid_eq_dec : EqDecision oid.
Proof. solve_decision. Defined.

(** The hook variables. *)
Inductive hook : Type :=
  | rt_scheduler_hook | rt_thread_suspend_hook | rt_thread_resume_hook
  | rt_timer_timeout_hook | rt_object_attach_hook | rt_object_detach_hook
  | rt_object_trytake_hook | rt_object_take_hook | rt_object_put_hook
  | rt_mp_alloc_hook | rt_mp_free_hook | rt_interrupt_enter_hook
  | rt_interrupt_leave_hook | rt_thread_idle_hook.

#[export] Instance hook_eq_dec : EqDecision hook.
Proof. solve_decision. Defined.
#[export] Instance hook_countable : Countable hook.
Proof.
  refine (inj_countable'
    (λ h, match h with
          | rt_scheduler_hook => 0 | rt_thread_suspend_hook => 1
          | rt_thread_resume_hook => 2 | rt_timer_timeout_hook => 3
          | rt_object_attach_hook => 4 | rt_object_detach_hook => 5
          | rt_object_trytake_hook => 6 | rt_object_take_hook => 7
          | rt_object_put_hook => 8 | rt_mp_alloc_hook => 9
          | rt_mp_free_hook => 10 | rt_interrupt_enter_hook => 11
          | rt_interrupt_leave_hook => 12 | rt_thread_idle_hook => 13 end)
    (λ n : Z, match n with
          | 0 => rt_scheduler_hook | 1 => rt_thread_suspend_hook
          | 2 => rt_thread_resume_hook | 3 => rt_timer_timeout_hook
          | 4 => rt_object_attach_hook | 5 => rt_object_detach_hook
          | 6 => rt_object_trytake_hook | 7 => rt_object_take_hook
          | 8 => rt_object_put_hook | 9 => rt_mp_alloc_hook
          | 10 => rt_mp_free_hook | 11 => rt_interrupt_enter_hook
          | 12 => rt_interrupt_leave_hook | _ => rt_thread_idle_hook end) _).
  by intros [].
Defined.

(** Arguments of a hook call. *)
Inductive hook_arg : Type :=
  | arg_none
  | arg_object (o : oid)
  | arg_switch (from to : Z)
  | arg_block (mp block : Z).

(** What leaves the kernel: calls of hook functions, the three assembly
    routines that switch contexts, and calls of callbacks owned by others. *)
Inductive kevent : Type :=
  | ev_hook (h : hook) (f : Z) (a : hook_arg)
  | ev_context_switch (from to : Z)
  | ev_context_switch_interrupt (from to : Z)
  | ev_context_switch_to (to : Z)
  | ev_thread_cleanup (f t : Z)
  | ev_kprintf_stack_warning (t : Z)
  | ev_callback (f a b : Z).

#[local] Set Primitive Projections.

(** A registered device: its driver entry points are addresses of functions
    of the driver, [None] for [RT_NULL]. *)
Record rt_device := mk_device {
  dev_parent : rt_object;
  dev_flag : Z;
  dev_open_flag : Z;
  dev_ref_count : Z;
  dev_rx_indicate : option Z;
  dev_tx_complete : option Z;
  dev_init : option Z;
  dev_open : option Z;
  dev_close : option Z;
  dev_read : option Z;
  dev_write : option Z;
  dev_control : option Z
}.

(** [struct rt_data_queue]; [dq_items] is the address of the array, whose
    entries are two words each. *)
Record rt_data_queue := mk_data_queue {
  dq_size : Z;
  dq_lwm : Z;
  dq_get_index : Z;
  dq_put_index : Z;
  dq_queue : Z;
  dq_evt_notify : option Z
}.

(** [struct rt_completion] of [rtdevice.h] without its list of threads. *)
Record rt_completion := mk_completion { comp_flag : Z }.

Inductive kobj : Type :=
  | KSem (o : rt_semaphore)
  | KMutex (o : rt_mutex)
  | KEvent (o : rt_event)
  | KMailbox (o : rt_mailbox)
  | KMq (o : rt_messagequeue)
  | KMempool (o : rt_mempool)
  | KDevice (o : rt_device)
  | KDataQueue (o : rt_data_queue)
  | KCompletion (o : rt_completion).

(** ** The state *)
Record kstate := mk_kstate {
  primask : Z;   (* 1 while interrupts are masked *)
  rt_interrupt_nest : Z;
  rt_scheduler_lock_nest : Z;
  rt_current_priority : Z;
  rt_current_thread : option Z;
  rt_thread_ready_priority_group : Z;
  rt_tick : Z;
  random_nr : Z;   (* static of rt_timer_start *)
  sys_errno : Z;   (* static _errno of kservice.c *)
  threads : gmap Z rt_thread;
  timers : gmap tmr rt_timer;
  objs : gmap Z kobj;
  tlists : gmap qid (list Z);   (* the lists that thread->tlist links into *)
  rt_timer_list : list (list tmr);   (* one row per skip list level *)
  rt_object_container : gmap Z (list oid);   (* object_list of each class *)
  mem_words : gmap Z Z;   (* 32-bit words by address: pools and links *)
  mem_blocks : gmap Z (list Z);   (* payload bytes by address *)
  heap : Mem.heap_state;
  hooks : gmap hook Z;
  trace : list kevent   (* calls that leave the kernel, oldest first *)
}.

(** Field updates. *)
Definition set_primask (v : Z) (s : kstate) : kstate :=
  mk_kstate v (rt_interrupt_nest s) (rt_scheduler_lock_nest s) (rt_current_priority s)
    (rt_current_thread s) (rt_thread_ready_priority_group s) (rt_tick s) (random_nr s)
    (sys_errno s) (threads s) (timers s) (objs s) (tlists s) (rt_timer_list s)
    (rt_object_container s) (mem_words s) (mem_blocks s) (heap s) (hooks s) (trace s).
Definition set_rt_interrupt_nest (v : Z) (s : kstate) : kstate :=
  mk_kstate (primask s) v (rt_scheduler_lock_nest s) (rt_current_priority s) (rt_current_thread
    s) (rt_thread_ready_priority_group s) (rt_tick s) (random_nr s) (sys_errno s)
    (threads s) (timers s) (objs s) (tlists s) (rt_timer_list s) (rt_object_container s)
    (mem_words s) (mem_blocks s) (heap s) (hooks s) (trace s).
Definition set_rt_scheduler_lock_nest (v : Z) (s : kstate) : kstate :=
  mk_kstate (primask s) (rt_interrupt_nest s) v (rt_current_priority s) (rt_current_thread s)
    (rt_thread_ready_priority_group s) (rt_tick s) (random_nr s) (sys_errno s) (threads
    s) (timers s) (objs s) (tlists s) (rt_timer_list s) (rt_object_container s)
    (mem_words s) (mem_blocks s) (heap s) (hooks s) (trace s).
Definition set_rt_current_priority (v : Z) (s : kstate) : kstate :=
  mk_kstate (primask s) (rt_interrupt_nest s) (rt_scheduler_lock_nest s) v (rt_current_thread s)
    (rt_thread_ready_priority_group s) (rt_tick s) (random_nr s) (sys_errno s) (threads
    s) (timers s) (objs s) (tlists s) (rt_timer_list s) (rt_object_container s)
    (mem_words s) (mem_blocks s) (heap s) (hooks s) (trace s).
Definition set_rt_current_thread (v : option Z) (s : kstate) : kstate :=
  mk_kstate (primask s) (rt_interrupt_nest s) (rt_scheduler_lock_nest s) (rt_current_priority s)
    v (rt_thread_ready_priority_group s) (rt_tick s) (random_nr s) (sys_errno s)
    (threads s) (timers s) (objs s) (tlists s) (rt_timer_list s) (rt_object_container s)
    (mem_words s) (mem_blocks s) (heap s) (hooks s) (trace s).
Definition set_rt_thread_ready_priority_group (v : Z) (s : kstate) : kstate :=
  mk_kstate (primask s) (rt_interrupt_nest s) (rt_scheduler_lock_nest s) (rt_current_priority s)
    (rt_current_thread s) v (rt_tick s) (random_nr s) (sys_errno s) (threads s) (timers
    s) (objs s) (tlists s) (rt_timer_list s) (rt_object_container s) (mem_words s)
    (mem_blocks s) (heap s) (hooks s) (trace s).
Definition set_rt_tick (v : Z) (s : kstate) : kstate :=
  mk_kstate (primask s) (rt_interrupt_nest s) (rt_scheduler_lock_nest s) (rt_current_priority s)
    (rt_current_thread s) (rt_thread_ready_priority_group s) v (random_nr s) (sys_errno
    s) (threads s) (timers s) (objs s) (tlists s) (rt_timer_list s) (rt_object_container
    s) (mem_words s) (mem_blocks s) (heap s) (hooks s) (trace s).
Definition set_random_nr (v : Z) (s : kstate) : kstate :=
  mk_kstate (primask s) (rt_interrupt_nest s) (rt_scheduler_lock_nest s) (rt_current_priority s)
    (rt_current_thread s) (rt_thread_ready_priority_group s) (rt_tick s) v (sys_errno s)
    (threads s) (timers s) (objs s) (tlists s) (rt_timer_list s) (rt_object_container s)
    (mem_words s) (mem_blocks s) (heap s) (hooks s) (trace s).
Definition set_sys_errno (v : Z) (s : kstate) : kstate :=
  mk_kstate (primask s) (rt_interrupt_nest s) (rt_scheduler_lock_nest s) (rt_current_priority s)
    (rt_current_thread s) (rt_thread_ready_priority_group s) (rt_tick s) (random_nr s) v
    (threads s) (timers s) (objs s) (tlists s) (rt_timer_list s) (rt_object_container s)
    (mem_words s) (mem_blocks s) (heap s) (hooks s) (trace s).
Definition set_threads (v : gmap Z rt_thread) (s : kstate) : kstate :=
  mk_kstate (primask s) (rt_interrupt_nest s) (rt_scheduler_lock_nest s) (rt_current_priority s)
    (rt_current_thread s) (rt_thread_ready_priority_group s) (rt_tick s) (random_nr s)
    (sys_errno s) v (timers s) (objs s) (tlists s) (rt_timer_list s)
    (rt_object_container s) (mem_words s) (mem_blocks s) (heap s) (hooks s) (trace s).
Definition set_timers (v : gmap tmr rt_timer) (s : kstate) : kstate :=
  mk_kstate (primask s) (rt_interrupt_nest s) (rt_scheduler_lock_nest s) (rt_current_priority s)
    (rt_current_thread s) (rt_thread_ready_priority_group s) (rt_tick s) (random_nr s)
    (sys_errno s) (threads s) v (objs s) (tlists s) (rt_timer_list s)
    (rt_object_container s) (mem_words s) (mem_blocks s) (heap s) (hooks s) (trace s).
Definition set_objs (v : gmap Z kobj) (s : kstate) : kstate :=
  mk_kstate (primask s) (rt_interrupt_nest s) (rt_scheduler_lock_nest s) (rt_current_priority s)
    (rt_current_thread s) (rt_thread_ready_priority_group s) (rt_tick s) (random_nr s)
    (sys_errno s) (threads s) (timers s) v (tlists s) (rt_timer_list s)
    (rt_object_container s) (mem_words s) (mem_blocks s) (heap s) (hooks s) (trace s).
Definition set_tlists (v : gmap qid (list Z)) (s : kstate) : kstate :=
  mk_kstate (primask s) (rt_interrupt_nest s) (rt_scheduler_lock_nest s) (rt_current_priority s)
    (rt_current_thread s) (rt_thread_ready_priority_group s) (rt_tick s) (random_nr s)
    (sys_errno s) (threads s) (timers s) (objs s) v (rt_timer_list s)
    (rt_object_container s) (mem_words s) (mem_blocks s) (heap s) (hooks s) (trace s).
Definition set_rt_timer_list (v : list (list tmr)) (s : kstate) : kstate :=
  mk_kstate (primask s) (rt_interrupt_nest s) (rt_scheduler_lock_nest s) (rt_current_priority s)
    (rt_current_thread s) (rt_thread_ready_priority_group s) (rt_tick s) (random_nr s)
    (sys_errno s) (threads s) (timers s) (objs s) (tlists s) v (rt_object_container s)
    (mem_words s) (mem_blocks s) (heap s) (hooks s) (trace s).
Definition set_rt_object_container (v : gmap Z (list oid)) (s : kstate) : kstate :=
  mk_kstate (primask s) (rt_interrupt_nest s) (rt_scheduler_lock_nest s) (rt_current_priority s)
    (rt_current_thread s) (rt_thread_ready_priority_group s) (rt_tick s) (random_nr s)
    (sys_errno s) (threads s) (timers s) (objs s) (tlists s) (rt_timer_list s) v
    (mem_words s) (mem_blocks s) (heap s) (hooks s) (trace s).
Definition set_mem_words (v : gmap Z Z) (s : kstate) : kstate :=
  mk_kstate (primask s) (rt_interrupt_nest s) (rt_scheduler_lock_nest s) (rt_current_priority s)
    (rt_current_thread s) (rt_thread_ready_priority_group s) (rt_tick s) (random_nr s)
    (sys_errno s) (threads s) (timers s) (objs s) (tlists s) (rt_timer_list s)
    (rt_object_container s) v (mem_blocks s) (heap s) (hooks s) (trace s).
Definition set_mem_blocks (v : gmap Z (list Z)) (s : kstate) : kstate :=
  mk_kstate (primask s) (rt_interrupt_nest s) (rt_scheduler_lock_nest s) (rt_current_priority s)
    (rt_current_thread s) (rt_thread_ready_priority_group s) (rt_tick s) (random_nr s)
    (sys_errno s) (threads s) (timers s) (objs s) (tlists s) (rt_timer_list s)
    (rt_object_container s) (mem_words s) v (heap s) (hooks s) (trace s).
Definition set_heap (v : Mem.heap_state) (s : kstate) : kstate :=
  mk_kstate (primask s) (rt_interrupt_nest s) (rt_scheduler_lock_nest s) (rt_current_priority s)
    (rt_current_thread s) (rt_thread_ready_priority_group s) (rt_tick s) (random_nr s)
    (sys_errno s) (threads s) (timers s) (objs s) (tlists s) (rt_timer_list s)
    (rt_object_container s) (mem_words s) (mem_blocks s) v (hooks s) (trace s).
Definition set_hooks (v : gmap hook Z) (s : kstate) : kstate :=
  mk_kstate (primask s) (rt_interrupt_nest s) (rt_scheduler_lock_nest s) (rt_current_priority s)
    (rt_current_thread s) (rt_thread_ready_priority_group s) (rt_tick s) (random_nr s)
    (sys_errno s) (threads s) (timers s) (objs s) (tlists s) (rt_timer_list s)
    (rt_object_container s) (mem_words s) (mem_blocks s) (heap s) v (trace s).
Definition set_trace (v : list kevent) (s : kstate) : kstate :=
  mk_kstate (primask s) (rt_interrupt_nest s) (rt_scheduler_lock_nest s) (rt_current_priority s)
    (rt_current_thread s) (rt_thread_ready_priority_group s) (rt_tick s) (random_nr s)
    (sys_errno s) (threads s) (timers s) (objs s) (tlists s) (rt_timer_list s)
    (rt_object_container s) (mem_words s) (mem_blocks s) (heap s) (hooks s) v.

Abbreviation K := (M kstate).

(** Reduces projections of updated states. *)
Ltac ks := cbn [
    primask rt_interrupt_nest rt_scheduler_lock_nest rt_current_priority
    rt_current_thread rt_thread_ready_priority_group rt_tick random_nr sys_errno threads
    timers objs tlists rt_timer_list rt_object_container mem_words mem_blocks heap hooks
    trace set_primask set_rt_interrupt_nest set_rt_scheduler_lock_nest
    set_rt_current_priority set_rt_current_thread set_rt_thread_ready_priority_group
    set_rt_tick set_random_nr set_sys_errno set_threads set_timers set_objs set_tlists
    set_rt_timer_list set_rt_object_container set_mem_words set_mem_blocks set_heap
    set_hooks set_trace ] in *.
Ltac ksg := cbn [
    primask rt_interrupt_nest rt_scheduler_lock_nest rt_current_priority
    rt_current_thread rt_thread_ready_priority_group rt_tick random_nr sys_errno threads
    timers objs tlists rt_timer_list rt_object_container mem_words mem_blocks heap hooks
    trace set_primask set_rt_interrupt_nest set_rt_scheduler_lock_nest
    set_rt_current_priority set_rt_current_thread set_rt_thread_ready_priority_group
    set_rt_tick set_random_nr set_sys_errno set_threads set_timers set_objs set_tlists
    set_rt_timer_list set_rt_object_container set_mem_words set_mem_blocks set_heap
    set_hooks set_trace ].

(** ** Interrupt mask ([context_rvds.S]) *)
Definition rt_hw_interrupt_disable : K Z := λ s, Ok (primask s) (set_primask 1 s).
Definition rt_hw_interrupt_enable (level : Z) : K unit := modify (set_primask level).

(** ** Context switches

    The three routines of [context_rvds.S] record the two stack pointers and
    pend the PendSV exception, which saves the registers of the one thread and
    restores those of the other.  Registers are not part of the state: the
    request is recorded. *)
Definition emit (e : kevent) : K unit := modify (λ s, set_trace (trace s ++ [e]) s).
Definition rt_hw_context_switch (from to : Z) : K unit :=
  emit (ev_context_switch from to).
Definition rt_hw_context_switch_interrupt (from to : Z) : K unit :=
  emit (ev_context_switch_interrupt from to).
Definition rt_hw_context_switch_to (to : Z) : K unit :=
  emit (ev_context_switch_to to).

(** ** Hooks

    A hook is user code that must be simple and never block; its effect on the
    kernel is the call itself. *)
Definition hook_events (h : hook) (a : hook_arg) (s : kstate) : list kevent :=
  match hooks s !! h with Some f => [ev_hook h f a] | None => [] end.
Definition RT_OBJECT_HOOK_CALL (h : hook) (a : hook_arg) : K unit :=
  modify (λ s, set_trace (trace s ++ hook_events h a s) s).
Definition set_hook (h : hook) (f : option Z) : K unit := modify (λ s,
  set_hooks (match f with Some f => <[h := f]> (hooks s) | None => delete h (hooks s) end) s).

Definition rt_scheduler_sethook := set_hook rt_scheduler_hook.
Definition rt_thread_suspend_sethook := set_hook rt_thread_suspend_hook.
Definition rt_thread_resume_sethook := set_hook rt_thread_resume_hook.
Definition rt_timer_timeout_sethook := set_hook rt_timer_timeout_hook.
Definition rt_object_attach_sethook := set_hook rt_object_attach_hook.
Definition rt_object_detach_sethook := set_hook rt_object_detach_hook.
Definition rt_object_trytake_sethook := set_hook rt_object_trytake_hook.
Definition rt_object_take_sethook := set_hook rt_object_take_hook.
Definition rt_object_put_sethook := set_hook rt_object_put_hook.
Definition rt_mp_alloc_sethook := set_hook rt_mp_alloc_hook.
Definition rt_mp_free_sethook := set_hook rt_mp_free_hook.
Definition rt_interrupt_enter_sethook := set_hook rt_interrupt_enter_hook.
Definition rt_interrupt_leave_sethook := set_hook rt_interrupt_leave_hook.
Definition rt_thread_idle_sethook := set_hook rt_thread_idle_hook.

(** ** Assertions and context checks ([rtdebug.h]) *)
Section debug.
Context {cfg : RTConfig}.

Definition RT_ASSERT (b : bool) : K unit :=
  when RT_DEBUG && negb b then fail AssertFailed.
Definition RT_DEBUG_NOT_IN_INTERRUPT : K unit :=
  let! n := read rt_interrupt_nest in RT_ASSERT (n =? 0).
Definition RT_DEBUG_IN_THREAD_CONTEXT : K unit :=
  let! t := read rt_current_thread in
  RT_ASSERT (bool_decide (is_Some t)) ;;;
  RT_DEBUG_NOT_IN_INTERRUPT.
End debug.

(** ** Access to the structures *)
Definition get_thread (t : Z) : K rt_thread :=
  let! m := read threads in from_option NullDeref (m !! t).
Definition put_thread (t : Z) (th : rt_thread) : K unit :=
  modify (λ s, set_threads (<[t := th]> (threads s)) s).
Definition upd_thread (t : Z) (f : rt_thread → rt_thread) : K unit :=
  let! th := get_thread t in put_thread t (f th).
Definition get_timer (x : tmr) : K rt_timer :=
  let! m := read timers in from_option NullDeref (m !! x).
Definition put_timer (x : tmr) (tm : rt_timer) : K unit :=
  modify (λ s, set_timers (<[x := tm]> (timers s)) s).
Definition get_obj (p : Z) : K kobj :=
  let! m := read objs in from_option NullDeref (m !! p).
Definition put_obj (p : Z) (o : kobj) : K unit :=
  modify (λ s, set_objs (<[p := o]> (objs s)) s).

(** The current thread, dereferenced. *)
Definition rt_thread_self : K (option Z) := read rt_current_thread.
Definition self : K Z :=
  let! c := rt_thread_self in from_option NullDeref c.

Definition get_sem (p : Z) : K rt_semaphore :=
  let! o := get_obj p in match o with KSem x => ret x | _ => fail NullDeref end.
Definition get_mutex (p : Z) : K rt_mutex :=
  let! o := get_obj p in match o with KMutex x => ret x | _ => fail NullDeref end.
Definition get_event (p : Z) : K rt_event :=
  let! o := get_obj p in match o with KEvent x => ret x | _ => fail NullDeref end.
Definition get_mb (p : Z) : K rt_mailbox :=
  let! o := get_obj p in match o with KMailbox x => ret x | _ => fail NullDeref end.
Definition get_mq (p : Z) : K rt_messagequeue :=
  let! o := get_obj p in match o with KMq x => ret x | _ => fail NullDeref end.
Definition get_mp (p : Z) : K rt_mempool :=
  let! o := get_obj p in match o with KMempool x => ret x | _ => fail NullDeref end.
Definition get_device (p : Z) : K rt_device :=
  let! o := get_obj p in match o with KDevice x => ret x | _ => fail NullDeref end.
Definition get_dq (p : Z) : K rt_data_queue :=
  let! o := get_obj p in match o with KDataQueue x => ret x | _ => fail NullDeref end.
Definition get_completion (p : Z) : K rt_completion :=
  let! o := get_obj p in match o with KCompletion x => ret x | _ => fail NullDeref end.

(** Words of memory outside the structures. *)
Definition load (a : Z) : K Z :=
  let! m := read mem_words in from_option NullDeref (m !! a).
Definition store (a v : Z) : K unit :=
  modify (λ s, set_mem_words (<[a := v]> (mem_words s)) s).

(** A call of the heap. *)
Definition in_heap {A} (m : M Mem.heap_state A) : K A := λ s,
  match m (heap s) with
  | Ok a h => Ok a (set_heap h s)
  | Fault f => Fault f
  end.

(** ** Fields of a thread *)
Definition th_set_error (v : Z) (th : rt_thread) : rt_thread :=
  mk_thread (th_parent th) (th_sp th) (th_entry th) (th_parameter th) (th_stack_addr th)
    (th_stack_size th) (th_stack th) v (th_stat th) (th_current_priority th)
    (th_init_priority th) (th_number_mask th) (th_event_set th) (th_event_info th)
    (th_init_tick th) (th_remaining_tick th) (th_cleanup th) (th_user_data th).
Definition th_set_stat (v : Z) (th : rt_thread) : rt_thread :=
  mk_thread (th_parent th) (th_sp th) (th_entry th) (th_parameter th) (th_stack_addr th)
    (th_stack_size th) (th_stack th) (th_error th) v (th_current_priority th)
    (th_init_priority th) (th_number_mask th) (th_event_set th) (th_event_info th)
    (th_init_tick th) (th_remaining_tick th) (th_cleanup th) (th_user_data th).
Definition th_set_prio (p m : Z) (th : rt_thread) : rt_thread :=
  mk_thread (th_parent th) (th_sp th) (th_entry th) (th_parameter th) (th_stack_addr th)
    (th_stack_size th) (th_stack th) (th_error th) (th_stat th) p
    (th_init_priority th) m (th_event_set th) (th_event_info th)
    (th_init_tick th) (th_remaining_tick th) (th_cleanup th) (th_user_data th).
Definition th_set_event (set info : Z) (th : rt_thread) : rt_thread :=
  mk_thread (th_parent th) (th_sp th) (th_entry th) (th_parameter th) (th_stack_addr th)
    (th_stack_size th) (th_stack th) (th_error th) (th_stat th) (th_current_priority th)
    (th_init_priority th) (th_number_mask th) set info
    (th_init_tick th) (th_remaining_tick th) (th_cleanup th) (th_user_data th).
Definition th_set_remaining (v : Z) (th : rt_thread) : rt_thread :=
  mk_thread (th_parent th) (th_sp th) (th_entry th) (th_parameter th) (th_stack_addr th)
    (th_stack_size th) (th_stack th) (th_error th) (th_stat th) (th_current_priority th)
    (th_init_priority th) (th_number_mask th) (th_event_set th) (th_event_info th)
    (th_init_tick th) v (th_cleanup th) (th_user_data th).
Definition th_set_parent (v : rt_object) (th : rt_thread) : rt_thread :=
  mk_thread v (th_sp th) (th_entry th) (th_parameter th) (th_stack_addr th)
    (th_stack_size th) (th_stack th) (th_error th) (th_stat th) (th_current_priority th)
    (th_init_priority th) (th_number_mask th) (th_event_set th) (th_event_info th)
    (th_init_tick th) (th_remaining_tick th) (th_cleanup th) (th_user_data th).

(** ** Lists of threads

    [rtservice.h]'s circular lists, seen as the list of threads linked from a
    head (RtList.v proves that the pointer code implements this view).  A
    node can be on one list only: linking a linked node, which would corrupt
    the list it is on, is the fault [BadList], and so is reading the entry of
    an empty list. *)
Definition unlinked (t : Z) (m : gmap qid (list Z)) : Prop :=
  map_Forall (λ _ l, t ∉ l) m.
Definition tl_remove (t : Z) (m : gmap qid (list Z)) : gmap qid (list Z) :=
  filter (λ x, x ≠ t) <$> m.

Definition tl_get (q : qid) : K (list Z) :=
  let! m := read tlists in from_option NullDeref (m !! q).
Definition tl_put (q : qid) (l : list Z) : K unit :=
  modify (λ s, set_tlists (<[q := l]> (tlists s)) s).
Definition check_unlinked (t : Z) : K unit := λ s,
  if decide (unlinked t (tlists s)) then Ok tt s else Fault BadList.

Definition tl_isempty (q : qid) : K bool :=
  let! l := tl_get q in ret (bool_decide (l = [])).
(** [rt_list_init] of a head. *)
Definition tl_init (q : qid) : K unit := tl_put q [].
(** [rt_list_init] of a thread's node. *)
Definition tl_init_node (t : Z) : K unit := check_unlinked t.
(** [rt_list_entry(head.next, struct rt_thread, tlist)] *)
Definition tl_first (q : qid) : K Z :=
  let! l := tl_get q in from_option BadList (head l).
(** [rt_list_remove(&thread->tlist)] *)
Definition tl_unlink (t : Z) : K unit :=
  modify (λ s, set_tlists (tl_remove t (tlists s)) s).
(** [rt_list_insert_before(&head, &thread->tlist)]: at the end of the list. *)
Definition tl_insert_before (q : qid) (t : Z) : K unit :=
  check_unlinked t ;;; let! l := tl_get q in tl_put q (l ++ [t]).
(** [rt_list_insert_after(&head, &thread->tlist)]: at its beginning. *)
Definition tl_insert_after (q : qid) (t : Z) : K unit :=
  check_unlinked t ;;; let! l := tl_get q in tl_put q (t :: l).
(** [rt_list_insert_before(&sthread->tlist, &thread->tlist)], [sthread] being
    the node after the prefix [pre] of the list of [q]. *)
Definition tl_insert_at (q : qid) (pre post : list Z) (t : Z) : K unit :=
  check_unlinked t ;;; tl_put q (pre ++ t :: post).

(** Symbolic execution: unfolds the monad and the primitive accesses. *)
Ltac krun :=
  unfold get_thread, put_thread, get_timer, put_timer, get_obj, put_obj, emit,
    RT_OBJECT_HOOK_CALL, rt_hw_interrupt_disable, rt_hw_interrupt_enable,
    rt_hw_context_switch, rt_hw_context_switch_interrupt, rt_hw_context_switch_to, load, store, self, rt_thread_self,
    bind, ret, fail, gets, modify, from_option;
  ksg; cbn [head negb andb orb]; cbn beta iota.
