(* ===== verification/KService.v ===== *)
(** * Kernel services ([rtthread/kernel/src/kservice.c])

    The find-first-set routine of the scheduler and the string routines that
    the object system uses. *)

From S2P Require Import Prelude RtDef.

(** ** [__rt_ffs] *)
Module Ffs.

Definition row_of (b : Z) : list Z := [b; 0; 1; 0; 2; 0; 1; 0; 3; 0; 1; 0; 2; 0; 1; 0].

(** The table of the source: sixteen rows that differ in their first entry. *)
Definition __lowest_bit_bitmap : list Z :=
  row_of 0 ++ row_of 4 ++ row_of 5 ++ row_of 4 ++
  row_of 6 ++ row_of 4 ++ row_of 5 ++ row_of 4 ++
  row_of 7 ++ row_of 4 ++ row_of 5 ++ row_of 4 ++
  row_of 6 ++ row_of 4 ++ row_of 5 ++ row_of 4.

Definition lowest_bit (b : Z) : Z := nth (Z.to_nat b) __lowest_bit_bitmap 0.

Definition __rt_ffs (value : Z) : Z :=
  if value =? 0 then 0
  else if negb (Z.land value 0xff =? 0) then lowest_bit (Z.land value 0xff) + 1
  else if negb (Z.land value 0xff00 =? 0)
  then lowest_bit (Z.shiftr (Z.land value 0xff00) 8) + 9
  else if negb (Z.land value 0xff0000 =? 0)
  then lowest_bit (Z.shiftr (Z.land value 0xff0000) 16) + 17
  else lowest_bit (Z.shiftr (Z.land value 0xff000000) 24) + 25.

(** [is_lowest v k]: bit [k] is the least significant bit set in [v]. *)
Definition is_lowest (v k : Z) : Prop :=
  0 ≤ k ∧ Z.testbit v k = true ∧ ∀ j, 0 ≤ j < k → Z.testbit v j = false.

Definition lowest_ok (b : Z) : bool :=
  let k := lowest_bit b in
  Z.testbit b k && (0 <=? k) && (k <? 8) &&
  forallb (λ j, negb (Z.testbit b (Z.of_nat j)) || (k <=? Z.of_nat j)) (seq 0 8).

Lemma lowest_ok_all : forallb (λ n, lowest_ok (Z.of_nat n)) (seq 1 255) = true.
Proof. vm_compute. reflexivity. Qed.

Lemma lowest_bit_spec b : 0 < b < 256 → is_lowest b (lowest_bit b) ∧ lowest_bit b < 8.
Proof.
  intros Hb. pose proof lowest_ok_all as Hall.
  rewrite forallb_forall in Hall. specialize (Hall (Z.to_nat b)).
  rewrite Z2Nat.id in Hall by lia. unfold lowest_ok in Hall.
  apply andb_prop in Hall as [Hall Hj]; [|apply in_seq; lia].
  rewrite forallb_forall in Hj.
  apply andb_prop in Hall as [[Ht H0]%andb_prop H8].
  split; [|lia]. split; [lia|]. split; [done|]. intros j Hjk.
  specialize (Hj (Z.to_nat j)). rewrite Z2Nat.id in Hj by lia.
  destruct (Z.testbit b j); [|done]. apply orb_prop in Hj; [|apply in_seq; lia].
  simpl in Hj. destruct Hj; [done|lia].
Qed.

(** The [i]-th byte of [v], as the source extracts it. *)
Lemma byte_testbit v i j : 0 ≤ i → 0 ≤ j →
  Z.testbit (Z.shiftr (Z.land v (Z.shiftl 0xff i)) i) j = Z.testbit v (i + j) && (j <? 8).
Proof.
  intros Hi Hj. rewrite Z.shiftr_spec, Z.land_spec, Z.shiftl_spec by lia.
  replace (j + i - i) with j by lia. rewrite (Z.add_comm j i). f_equal.
  change 255 with (Z.ones 8). destruct (Z.ltb_spec j 8).
  - by apply Z.ones_spec_low.
  - by apply Z.ones_spec_high.
Qed.

Lemma byte_range v i : 0 ≤ i → 0 ≤ Z.shiftr (Z.land v (Z.shiftl 0xff i)) i < 256.
Proof.
  intros Hi. set (b := Z.shiftr _ _).
  assert (b = b mod 2 ^ 8) as ->; [|apply Z.mod_pos_bound; lia].
  symmetry. apply Z.bits_inj'. intros j Hj. destruct (Z.ltb_spec j 8).
  - by rewrite Z.mod_pow2_bits_low.
  - rewrite Z.mod_pow2_bits_high by lia. subst b.
    rewrite byte_testbit by lia. replace (j <? 8) with false by lia.
    by rewrite andb_false_r.
Qed.

Lemma byte_zero v i : 0 ≤ i → Z.land v (Z.shiftl 0xff i) = 0 →
  ∀ j, i ≤ j < i + 8 → Z.testbit v j = false.
Proof.
  intros Hi Hz j Hj. pose proof (byte_testbit v i (j - i) Hi ltac:(lia)) as Ht.
  rewrite Hz, Z.shiftr_0_l, Z.bits_0 in Ht.
  replace (i + (j - i)) with j in Ht by lia.
  replace (j - i <? 8) with true in Ht by lia. by rewrite andb_true_r in Ht.
Qed.

Lemma byte_lowest v i : 0 ≤ i → Z.land v (Z.shiftl 0xff i) ≠ 0 →
  (∀ j, 0 ≤ j < i → Z.testbit v j = false) →
  let k := lowest_bit (Z.shiftr (Z.land v (Z.shiftl 0xff i)) i) in
  is_lowest v (i + k) ∧ 0 ≤ k < 8.
Proof.
  intros Hi Hnz Hlow k. pose proof (byte_range v i Hi) as Hr.
  assert (Z.shiftr (Z.land v (Z.shiftl 255 i)) i ≠ 0) as Hb.
  { intros Hz. apply Hnz. apply Z.bits_inj'. intros j Hj. rewrite Z.bits_0.
    destruct (Z.ltb_spec j i).
    - rewrite Z.land_spec, Z.shiftl_spec_low by lia. by rewrite andb_false_r.
    - pose proof (f_equal (λ b, Z.testbit b (j - i)) Hz) as Hz'. simpl in Hz'.
      rewrite Z.shiftr_spec, Z.bits_0 in Hz' by lia.
      by replace (j - i + i) with j in Hz' by lia. }
  assert (0 < Z.shiftr (Z.land v (Z.shiftl 255 i)) i < 256) as Hr' by lia.
  destruct (lowest_bit_spec _ Hr') as [(H0 & Ht & Hl) H8].
  fold k in H0, Ht, Hl, H8. split; [|lia]. split; [lia|].
  rewrite byte_testbit in Ht by lia. apply andb_prop in Ht as [Ht _]. split; [done|].
  intros j Hj. destruct (Z.ltb_spec j i); [by apply Hlow; lia|].
  specialize (Hl (j - i) ltac:(lia)). rewrite byte_testbit in Hl by lia.
  replace (i + (j - i)) with j in Hl by lia.
  replace (j - i <? 8) with true in Hl by lia. by rewrite andb_true_r in Hl.
Qed.

Lemma ffs_zero : __rt_ffs 0 = 0.
Proof. reflexivity. Qed.

Lemma ffs_lowest v : 0 < v < 2 ^ 32 → is_lowest v (__rt_ffs v - 1) ∧ __rt_ffs v ≤ 32.
Proof.
  intros Hv. unfold __rt_ffs.
  destruct (Z.eqb_spec v 0); [lia|].
  pose proof (byte_lowest v 0 ltac:(lia)) as B0.
  pose proof (byte_lowest v 8 ltac:(lia)) as B1.
  pose proof (byte_lowest v 16 ltac:(lia)) as B2.
  pose proof (byte_lowest v 24 ltac:(lia)) as B3.
  pose proof (byte_zero v 0 ltac:(lia)) as Z0.
  pose proof (byte_zero v 8 ltac:(lia)) as Z1.
  pose proof (byte_zero v 16 ltac:(lia)) as Z2.
  pose proof (byte_zero v 24 ltac:(lia)) as Z3.
  change (Z.shiftl 255 0) with 0xff in B0, Z0. change (Z.shiftl 255 8) with 0xff00 in B1, Z1.
  change (Z.shiftl 255 16) with 0xff0000 in B2, Z2.
  change (Z.shiftl 255 24) with 0xff000000 in B3, Z3.
  rewrite Z.shiftr_0_r in B0. cbv zeta in *.
  destruct (Z.eqb_spec (Z.land v 0xff) 0) as [E0|E0]; simpl negb; cbv iota.
  2:{ destruct B0 as [B0 ?]; [done|intros; lia|]. split; [|lia].
      by replace (lowest_bit (Z.land v 255) + 1 - 1)
        with (0 + lowest_bit (Z.land v 255)) by lia. }
  specialize (Z0 E0).
  destruct (Z.eqb_spec (Z.land v 0xff00) 0) as [E1|E1]; simpl negb; cbv iota.
  2:{ destruct B1 as [B1 ?]; [done|intros; apply Z0; lia|]. split; [|lia].
      by match goal with |- is_lowest _ (?x + 9 - 1) =>
        replace (x + 9 - 1) with (8 + x) by lia end. }
  specialize (Z1 E1).
  destruct (Z.eqb_spec (Z.land v 0xff0000) 0) as [E2|E2]; simpl negb; cbv iota.
  2:{ destruct B2 as [B2 ?]; [done| |].
      { intros j Hj. destruct (Z.ltb_spec j 8); [apply Z0; lia|apply Z1; lia]. }
      split; [|lia].
      by match goal with |- is_lowest _ (?x + 17 - 1) =>
        replace (x + 17 - 1) with (16 + x) by lia end. }
  specialize (Z2 E2).
  assert (∀ j, 0 ≤ j < 24 → Z.testbit v j = false) as Z012.
  { intros j Hj. destruct (Z.ltb_spec j 8); [apply Z0; lia|].
    destruct (Z.ltb_spec j 16); [apply Z1; lia|apply Z2; lia]. }
  destruct (Z.eqb_spec (Z.land v 0xff000000) 0) as [E3|E3].
  { exfalso. specialize (Z3 E3). assert (v = 0); [|lia].
    apply Z.bits_inj'. intros j Hj. rewrite Z.bits_0.
    destruct (Z.ltb_spec j 24); [by apply Z012|].
    destruct (Z.ltb_spec j 32); [apply Z3; lia|].
    rewrite <- (Z.mod_small v (2 ^ 32)) by lia. apply Z.mod_pow2_bits_high. lia. }
  destruct B3 as [B3 ?]; [done|done|]. split; [|lia].
  by match goal with |- is_lowest _ (?x + 25 - 1) =>
    replace (x + 25 - 1) with (24 + x) by lia end.
Qed.

Lemma is_lowest_unique v k k' : is_lowest v k → is_lowest v k' → k = k'.
Proof.
  intros (Hk & Ht & Hl) (Hk' & Ht' & Hl').
  destruct (Z.lt_trichotomy k k') as [?|[?|?]]; [|done|].
  - rewrite Hl' in Ht by lia. done.
  - rewrite Hl in Ht' by lia. done.
Qed.

End Ffs.

(** ** Strings

    A string pointer is the list of bytes from its address to the end of the
    memory object; [None] is a read beyond it. *)
Module Str.

Fixpoint rt_strncpy (src : list Z) (n : nat) {struct n} : option (list Z) :=
  match n with
  | O => Some []
  | S n =>
    match src with
    | [] => None
    | c :: src =>
      if c =? 0 then Some (0 :: replicate n 0)
      else l ← rt_strncpy src n; Some (c :: l)
    end
  end.

Fixpoint rt_strncmp (cs ct : list Z) (count : nat) {struct count} : option Z :=
  match count with
  | O => Some 0
  | S count =>
    match cs, ct with
    | c :: cs, d :: ct =>
      let res := s8 (c - d) in
      if negb (res =? 0) || (c =? 0) then Some res else rt_strncmp cs ct count
    | _, _ => None
    end
  end.

(** The string read from memory, at most [n] characters. *)
Fixpoint cstr (m : list Z) (n : nat) {struct n} : list Z :=
  match n, m with
  | S n, c :: m => if c =? 0 then [] else c :: cstr m n
  | _, _ => []
  end.

Definition byte (c : Z) : Prop := 0 ≤ c < 256.

Lemma s8_diff c d : byte c → byte d → s8 (c - d) = 0 ↔ c = d.
Proof.
  unfold byte, s8, swrap. intros Hc Hd.
  change (2 ^ (8 - 1)) with 128. change (2 ^ 8) with 256.
  split; [|intros ->; by rewrite Z.sub_diag].
  intros Heq. pose proof (Z.div_mod (c - d + 128) 256). lia.
Qed.

Lemma strncmp_zero n : ∀ cs ct r, Forall byte cs → Forall byte ct →
  rt_strncmp cs ct n = Some r → (r = 0 ↔ cstr cs n = cstr ct n).
Proof.
  induction n as [|n IH]; intros cs ct r Hcs Hct; simpl.
  { intros ?; by simplify_eq. }
  destruct cs as [|c cs], ct as [|d ct]; try done.
  inversion_clear Hcs as [|?? Hc Hcs']. inversion_clear Hct as [|?? Hd Hct'].
  destruct (Z.eqb_spec (s8 (c - d)) 0) as [E|E]; simpl.
  - apply s8_diff in E as ->; [|done..].
    destruct (Z.eqb_spec d 0); [|].
    + intros [= <-]. rewrite Z.sub_diag. done.
    + intros Hr. rewrite (IH _ _ _ Hcs' Hct' Hr). split; [by intros ->|by intros [= ->]].
  - intros [= <-]. split; [done|]. intros Heq. exfalso. apply E.
    apply s8_diff; [done..|].
    destruct (Z.eqb_spec c 0), (Z.eqb_spec d 0); simplify_eq; done.
Qed.

Lemma strncpy_length n : ∀ src l, rt_strncpy src n = Some l → length l = n.
Proof.
  induction n as [|n IH]; intros src l; simpl; [by intros [= <-]|].
  destruct src as [|c src]; [done|]. case_match.
  - intros [= <-]. simpl. by rewrite length_replicate.
  - intros (l' & Hl & [= <-])%bind_Some. simpl. by rewrite (IH _ _ Hl).
Qed.

Lemma cstr_replicate n m : cstr (replicate m 0) n = [].
Proof. by destruct n, m. Qed.

Lemma strncpy_cstr n : ∀ src l, rt_strncpy src n = Some l → cstr l n = cstr src n.
Proof.
  induction n as [|n IH]; intros src l; simpl; [done|].
  destruct src as [|c src]; [done|]. destruct (Z.eqb_spec c 0) as [->|Hc].
  - intros [= <-]. done.
  - intros (l' & Hl & [= <-])%bind_Some. rewrite (proj2 (Z.eqb_neq c 0)) by done.
    by rewrite (IH _ _ Hl).
Qed.

Lemma strncpy_bytes n : ∀ src l, Forall byte src → rt_strncpy src n = Some l → Forall byte l.
Proof.
  induction n as [|n IH]; intros src l Hs; simpl; [by intros [= <-]|].
  destruct src as [|c src]; [done|]. inversion_clear Hs. case_match.
  - intros [= <-]. constructor; [unfold byte; lia|]. by apply Forall_replicate.
  - intros (l' & Hl & [= <-])%bind_Some. constructor; [done|]. by eapply IH.
Qed.

Lemma strncpy_some n : ∀ src, (n ≤ length src)%nat → is_Some (rt_strncpy src n).
Proof.
  induction n as [|n IH]; intros src Hl; simpl; [by eexists|].
  destruct src as [|c src]; simpl in Hl; [lia|]. case_match; [by eexists|].
  destruct (IH src) as [l ->]; [lia|]. by eexists.
Qed.

End Str.
