(* ===== verification/KMemory.v ===== *)
(** * Memory and strings ([rtthread/kernel/src/kservice.c])

    The routines that copy, fill and compare memory, word by word where the
    addresses allow it, and the string routines on memory, with the proof that
    they agree with byte-wise definitions. *)

From S2P Require Import Prelude RtDef Mem.

(** Memory is a map of bytes; an access to an address that is not mapped is a
    fault. *)
Abbreviation bytes := (gmap Z Z).
Abbreviation B := (M bytes).

Definition load8 (a : Z) : B Z := let! m := gets (λ m, m) in from_option OutOfBounds (m !! a).
Definition store8 (a v : Z) : B unit := load8 a ;;; modify (λ m, <[a := u8 v]> m).

(** [*(rt_int32_t * )a], little endian. *)
Definition load32 (a : Z) : B Z :=
  let! b0 := load8 a in
  let! b1 := load8 (a + 1) in
  let! b2 := load8 (a + 2) in
  let! b3 := load8 (a + 3) in
  ret (s32 (b0 + 2 ^ 8 * b1 + 2 ^ 16 * b2 + 2 ^ 24 * b3)).
Definition store32 (a v : Z) : B unit :=
  store8 a v ;;;
  store8 (a + 1) (Z.shiftr v 8) ;;;
  store8 (a + 2) (Z.shiftr v 16) ;;;
  store8 (a + 3) (Z.shiftr v 24).

(** ** Operations *)
Definition LBLOCKSIZE : Z := 4.
Definition UNALIGNED (x : Z) : bool := negb (Z.land x (LBLOCKSIZE - 1) =? 0).

(** The loops; [fuel] bounds their iterations.  Each returns where it stopped
    and what is left. *)
Fixpoint memset_words4 (fuel : nat) (a buffer count : Z) : B (Z * Z) :=
  match fuel with
  | O => fail OutOfFuel
  | S fuel =>
    if LBLOCKSIZE * 4 <=? count then
      store32 a buffer ;;; store32 (a + 4) buffer ;;;
      store32 (a + 8) buffer ;;; store32 (a + 12) buffer ;;;
      memset_words4 fuel (a + 16) buffer (count - 4 * LBLOCKSIZE)
    else ret (a, count)
  end.
Fixpoint memset_words (fuel : nat) (a buffer count : Z) : B (Z * Z) :=
  match fuel with
  | O => fail OutOfFuel
  | S fuel =>
    if LBLOCKSIZE <=? count then
      store32 a buffer ;;; memset_words fuel (a + 4) buffer (count - LBLOCKSIZE)
    else ret (a, count)
  end.
Fixpoint memset_bytes (fuel : nat) (a d count : Z) : B unit :=
  match fuel with
  | O => fail OutOfFuel
  | S fuel =>
    if count =? 0 then ret tt else store8 a d ;;; memset_bytes fuel (a + 1) d (count - 1)
  end.

Definition memset_buffer (d : Z) : Z :=
  let buffer := u32 (Z.lor (Z.shiftl d 8) d) in
  Z.lor buffer (u32 (Z.shiftl buffer 16)).

Definition rt_memset (s c count : Z) : B Z :=
  let fuel := S (Z.to_nat count) in
  let d := Z.land (u32 c) 0xff in
  let! (m, count) :=
    (if negb (count <? LBLOCKSIZE) && negb (UNALIGNED s) then
       let buffer := memset_buffer d in
       let! (a, count) := memset_words4 fuel s buffer count in
       memset_words fuel a buffer count
     else ret (s, count)) in
  memset_bytes fuel m d count ;;;
  ret s.

Definition BIGBLOCKSIZE : Z := 16.
Definition LITTLEBLOCKSIZE : Z := 4.

Definition copy_word (dst src : Z) : B unit := let! v := load32 src in store32 dst v.
Definition copy_byte (dst src : Z) : B unit := let! v := load8 src in store8 dst v.

Fixpoint memcpy_words4 (fuel : nat) (dst src len : Z) : B (Z * Z * Z) :=
  match fuel with
  | O => fail OutOfFuel
  | S fuel =>
    if BIGBLOCKSIZE <=? u32 len then
      copy_word dst src ;;; copy_word (dst + 4) (src + 4) ;;;
      copy_word (dst + 8) (src + 8) ;;; copy_word (dst + 12) (src + 12) ;;;
      memcpy_words4 fuel (dst + 16) (src + 16) (len - BIGBLOCKSIZE)
    else ret (dst, src, len)
  end.
Fixpoint memcpy_words (fuel : nat) (dst src len : Z) : B (Z * Z * Z) :=
  match fuel with
  | O => fail OutOfFuel
  | S fuel =>
    if LITTLEBLOCKSIZE <=? u32 len then
      copy_word dst src ;;; memcpy_words fuel (dst + 4) (src + 4) (len - LITTLEBLOCKSIZE)
    else ret (dst, src, len)
  end.
(** [while (len--) *dst_ptr++ = *src_ptr++;] *)
Fixpoint memcpy_bytes (fuel : nat) (dst src len : Z) : B unit :=
  match fuel with
  | O => fail OutOfFuel
  | S fuel =>
    if len =? 0 then ret tt
    else copy_byte dst src ;;; memcpy_bytes fuel (dst + 1) (src + 1) (len - 1)
  end.

Definition rt_memcpy (dst src count : Z) : B Z :=
  let fuel := S (Z.to_nat count) in
  let len := s32 count in
  let! (dst_ptr, src_ptr, len) :=
    (if negb (u32 len <? BIGBLOCKSIZE) && negb (UNALIGNED src || UNALIGNED dst) then
       let! (d, s, len) := memcpy_words4 fuel dst src len in
       memcpy_words fuel d s len
     else ret (dst, src, len)) in
  memcpy_bytes fuel dst_ptr src_ptr len ;;;
  ret dst.

(** [while (n--) *(--tmp) = *(--s);] *)
Fixpoint memmove_back (fuel : nat) (tmp s n : Z) : B unit :=
  match fuel with
  | O => fail OutOfFuel
  | S fuel =>
    if n =? 0 then ret tt
    else copy_byte (tmp - 1) (s - 1) ;;; memmove_back fuel (tmp - 1) (s - 1) (n - 1)
  end.

Definition rt_memmove (dest src n : Z) : B Z :=
  let fuel := S (Z.to_nat n) in
  (if (src <? dest) && (dest <? u32 (src + n)) then memmove_back fuel (dest + n) (src + n) n
   else memcpy_bytes fuel dest src n) ;;;
  ret dest.

Fixpoint memcmp_loop (fuel : nat) (su1 su2 count : Z) : B Z :=
  match fuel with
  | O => fail OutOfFuel
  | S fuel =>
    if 0 <? count then
      let! a := load8 su1 in
      let! b := load8 su2 in
      let res := a - b in
      if negb (res =? 0) then ret res else memcmp_loop fuel (su1 + 1) (su2 + 1) (count - 1)
    else ret 0
  end.
Definition rt_memcmp (cs ct count : Z) : B Z := memcmp_loop (S (Z.to_nat count)) cs ct count.

(** [for (sc = s; *sc != '\0'; ++sc)] *)
Fixpoint strlen_loop (fuel : nat) (s sc : Z) : B Z :=
  match fuel with
  | O => fail OutOfFuel
  | S fuel =>
    let! c := load8 sc in
    if negb (c =? 0) then strlen_loop fuel s (sc + 1) else ret (sc - s)
  end.
(** The memory has at most as many bytes as [fuel] says. *)
Definition rt_strlen (s : Z) : B Z :=
  let! fuel := gets (λ m, S (size m)) in strlen_loop fuel s s.

Fixpoint strnlen_loop (fuel : nat) (s sc maxlen : Z) : B Z :=
  match fuel with
  | O => fail OutOfFuel
  | S fuel =>
    let! c := load8 sc in
    if negb (c =? 0) && (sc - s <? maxlen) then strnlen_loop fuel s (sc + 1) maxlen
    else ret (sc - s)
  end.
Definition rt_strnlen (s maxlen : Z) : B Z :=
  let! fuel := gets (λ m, S (size m)) in strnlen_loop fuel s s maxlen.

Fixpoint strstr_loop (fuel : nat) (s1 s2 l1 l2 : Z) : B (option Z) :=
  match fuel with
  | O => fail OutOfFuel
  | S fuel =>
    if l2 <=? l1 then
      let! r := rt_memcmp s1 s2 l2 in
      if r =? 0 then ret (Some s1) else strstr_loop fuel (s1 + 1) s2 (l1 - 1) l2
    else ret None
  end.
Definition rt_strstr (s1 s2 : Z) : B (option Z) :=
  let! l2 := rt_strlen s2 in
  if l2 =? 0 then ret (Some s1) else
  let! l1 := rt_strlen s1 in
  strstr_loop (S (Z.to_nat l1)) s1 s2 l1 l2.

Fixpoint strcmp_loop (fuel : nat) (cs ct : Z) : B Z :=
  match fuel with
  | O => fail OutOfFuel
  | S fuel =>
    let! c := load8 cs in
    if c =? 0 then (let! d := load8 ct in ret (c - d)) else
    let! d := load8 ct in
    if c =? d then strcmp_loop fuel (cs + 1) (ct + 1) else ret (c - d)
  end.
Definition rt_strcmp (cs ct : Z) : B Z :=
  let! fuel := gets (λ m, S (size m)) in strcmp_loop fuel cs ct.

Definition to_lower (c : Z) : Z := if (65 <=? c) && (c <=? 90) then c + 32 else c.
Fixpoint strcasecmp_loop (fuel : nat) (a b : Z) : B Z :=
  match fuel with
  | O => fail OutOfFuel
  | S fuel =>
    let! ca := load8 a in
    let! cb := load8 b in
    let ca := to_lower (Z.land ca 0xff) in
    let cb := to_lower (Z.land cb 0xff) in
    if (ca =? cb) && negb (ca =? 0) then strcasecmp_loop fuel (a + 1) (b + 1)
    else ret (u32 (ca - cb))
  end.
Definition rt_strcasecmp (a b : Z) : B Z :=
  let! fuel := gets (λ m, S (size m)) in strcasecmp_loop fuel a b.

(** ** Copies *)
Definition bytes_ok (m : bytes) : Prop := map_Forall (λ _ v, 0 ≤ v < 256) m.
Definition mapped (m : bytes) (a n : Z) : Prop := ∀ i, a ≤ i < a + n → is_Some (m !! i).

(** In [m'] the bytes at [dst] are those that were at [src] in [m]. *)
Definition moved (m : bytes) (dst src n : Z) (m' : bytes) : Prop :=
  ∀ a, m' !! a = if bool_decide (dst ≤ a < dst + n) then m !! (src + (a - dst)) else m !! a.

(** Memory that a copy keeps usable. *)
Record copyable (m : bytes) (dst src n : Z) : Prop := {
  cp_ok : bytes_ok m;
  cp_dst : mapped m dst n;
  cp_src : mapped m src n
}.

Lemma moved_in m dst src n m' a : moved m dst src n m' → dst ≤ a < dst + n →
  m' !! a = m !! (src + (a - dst)).
Proof. intros Hm Ha. rewrite Hm. by rewrite bool_decide_eq_true_2. Qed.
Lemma moved_out m dst src n m' a : moved m dst src n m' → ¬ (dst ≤ a < dst + n) → m' !! a = m !! a.
Proof. intros Hm Ha. rewrite Hm. by rewrite bool_decide_eq_false_2. Qed.

Lemma moved_zero m dst src : moved m dst src 0 m.
Proof. intros a. rewrite bool_decide_eq_false_2 by lia. done. Qed.

(** The result is determined. *)
Lemma moved_unique m dst src n m1 m2 : moved m dst src n m1 → moved m dst src n m2 → m1 = m2.
Proof. intros H1 H2. apply map_eq. intros a. by rewrite H1, H2. Qed.

(** A front part, and then the rest. *)
Lemma moved_app m dst src k n m1 m2 :
  0 ≤ k → 0 ≤ n → dst ≤ src ∨ src + (k + n) ≤ dst →
  moved m dst src k m1 → moved m1 (dst + k) (src + k) n m2 → moved m dst src (k + n) m2.
Proof.
  intros Hk Hn Hd H1 H2 a. rewrite H2. repeat case_bool_decide; try lia.
  - rewrite (moved_out _ _ _ _ _ _ H1) by lia. f_equal. lia.
  - rewrite (moved_in _ _ _ _ _ _ H1) by lia. done.
  - by rewrite (moved_out _ _ _ _ _ _ H1) by lia.
Qed.

(** A back part, and then the rest. *)
Lemma moved_app_back m dst src k n m1 m2 :
  0 ≤ k → 0 ≤ n → src ≤ dst →
  moved m (dst + n) (src + n) k m1 → moved m1 dst src n m2 → moved m dst src (n + k) m2.
Proof.
  intros Hk Hn Hd H1 H2 a. rewrite H2. repeat case_bool_decide; try lia.
  - rewrite (moved_out _ _ _ _ _ _ H1) by lia. done.
  - rewrite (moved_in _ _ _ _ _ _ H1) by lia. f_equal. lia.
  - by rewrite (moved_out _ _ _ _ _ _ H1) by lia.
Qed.

Lemma moved_some m dst src n m' a :
  moved m dst src n m' → mapped m src n → is_Some (m !! a) → is_Some (m' !! a).
Proof. intros Hm Hs Ha. rewrite Hm. case_bool_decide; [apply Hs; lia|done]. Qed.

Lemma moved_ok m dst src n m' : moved m dst src n m' → bytes_ok m → bytes_ok m'.
Proof. intros Hm Hok a v. rewrite Hm. case_bool_decide; apply Hok. Qed.

(** What is left of a copy after a front or a back part. *)
Lemma copyable_after m dst src n m1 d1 s1 k d2 s2 n2 :
  copyable m dst src n → moved m d1 s1 k m1 → mapped m s1 k →
  dst ≤ d2 → d2 + n2 ≤ dst + n → src ≤ s2 → s2 + n2 ≤ src + n → copyable m1 d2 s2 n2.
Proof.
  intros [Hok Hd Hs] Hm Hk ? ? ? ?. split; [by eapply moved_ok|..]; intros i Hi;
    (eapply moved_some; [done..|]); [apply Hd|apply Hs]; lia.
Qed.

Lemma load8_run m a v : m !! a = Some v → load8 a m = Ok v m.
Proof. intros Ha. unfold load8, bind, gets, from_option. by rewrite Ha. Qed.
Lemma store8_run m a v : is_Some (m !! a) → store8 a v m = Ok tt (<[a := u8 v]> m).
Proof. intros [x Ha]. unfold store8. by rewrite (bind_ok _ _ _ _ _ (load8_run m a x Ha)). Qed.

Lemma u8_small v : 0 ≤ v < 256 → u8 v = v.
Proof. apply (wrap_small 8). Qed.

Lemma copy_byte_run m dst src :
  copyable m dst src 1 → ∃ m', copy_byte dst src m = Ok tt m' ∧ moved m dst src 1 m'.
Proof.
  intros [Hok Hd Hs]. destruct (Hs src) as [v Hv]; [lia|].
  exists (<[dst := v]> m). split.
  - unfold copy_byte. rewrite (bind_ok _ _ _ _ _ (load8_run m src v Hv)).
    rewrite store8_run by (apply Hd; lia). by rewrite (u8_small v) by (by eapply Hok).
  - intros a. rewrite lookup_insert. case_decide; case_bool_decide; try lia; [|done].
    rewrite <- Hv. f_equal. lia.
Qed.

(** The four bytes of a word. *)
Definition word_of (b0 b1 b2 b3 : Z) : Z := s32 (b0 + 2 ^ 8 * b1 + 2 ^ 16 * b2 + 2 ^ 24 * b3).

Lemma u8_shift_s32 x k : 0 ≤ k ≤ 24 → u8 (Z.shiftr (s32 x) k) = u8 (Z.shiftr x k).
Proof.
  intros Hk. unfold u8, wrap. apply Z.bits_inj'. intros j Hj.
  destruct (Z.ltb_spec j 8); [|by rewrite !Z.mod_pow2_bits_high by lia].
  rewrite !Z.mod_pow2_bits_low, !Z.shiftr_spec by lia.
  assert (s32 x = x + (- ((x + 2 ^ 31) / 2 ^ 32)) * 2 ^ 32) as ->.
  { unfold s32, swrap. change (2 ^ (32 - 1)) with (2 ^ 31).
    pose proof (Z.div_mod (x + 2 ^ 31) (2 ^ 32) ltac:(lia)). lia. }
  generalize (- ((x + 2 ^ 31) / 2 ^ 32)). intros q.
  rewrite <- (Z.mod_pow2_bits_low (x + q * 2 ^ 32) 32) by lia.
  rewrite Z.mod_add by lia. by rewrite Z.mod_pow2_bits_low by lia.
Qed.

Lemma word_bytes_of b0 b1 b2 b3 :
  0 ≤ b0 < 256 → 0 ≤ b1 < 256 → 0 ≤ b2 < 256 → 0 ≤ b3 < 256 →
  let w := word_of b0 b1 b2 b3 in
  u8 w = b0 ∧ u8 (Z.shiftr w 8) = b1 ∧ u8 (Z.shiftr w 16) = b2 ∧ u8 (Z.shiftr w 24) = b3.
Proof.
  intros H0 H1 H2 H3 w.
  pose proof (u8_shift_s32 (b0 + 2 ^ 8 * b1 + 2 ^ 16 * b2 + 2 ^ 24 * b3)) as Hw.
  fold (word_of b0 b1 b2 b3) in Hw. fold w in Hw.
  rewrite <- (Z.shiftr_0_r w), !Hw by lia. rewrite !Z.shiftr_div_pow2 by lia.
  unfold u8, wrap. change (2 ^ 0) with 1. change (2 ^ 8) with 256. change (2 ^ 16) with 65536.
  change (2 ^ 24) with 16777216. Z.to_euclidean_division_equations; lia.
Qed.

Lemma mapped_insert m a v b n : mapped m b n → mapped (<[a := v]> m) b n.
Proof.
  intros Hm i Hi. rewrite lookup_insert. case_decide; [by eexists|by apply Hm].
Qed.

Definition put_word (a b0 b1 b2 b3 : Z) (m : bytes) : bytes :=
  <[a + 3 := b3]> (<[a + 2 := b2]> (<[a + 1 := b1]> (<[a := b0]> m))).

Lemma store32_run m a v : mapped m a 4 →
  store32 a v m = Ok tt (put_word a (u8 v) (u8 (Z.shiftr v 8)) (u8 (Z.shiftr v 16))
    (u8 (Z.shiftr v 24)) m).
Proof.
  intros Hm. unfold store32.
  rewrite (bind_ok _ _ _ _ _ (store8_run m a v ltac:(apply Hm; lia))).
  erewrite bind_ok by (apply store8_run; apply (mapped_insert _ _ _ a 4 Hm); lia).
  erewrite bind_ok.
  2:{ apply store8_run. apply (mapped_insert _ _ _ a 4); [by apply mapped_insert|lia]. }
  rewrite store8_run; [done|]. apply (mapped_insert _ _ _ a 4); [by do 2 apply mapped_insert|lia].
Qed.

Lemma put_word_lookup a b0 b1 b2 b3 m i :
  put_word a b0 b1 b2 b3 m !! i =
    if decide (i = a + 3) then Some b3 else if decide (i = a + 2) then Some b2
    else if decide (i = a + 1) then Some b1 else if decide (i = a) then Some b0 else m !! i.
Proof. unfold put_word. rewrite !lookup_insert. repeat case_decide; congruence || lia. Qed.

Lemma copy_word_run m dst src :
  copyable m dst src 4 → ∃ m', copy_word dst src m = Ok tt m' ∧ moved m dst src 4 m'.
Proof.
  intros [Hok Hd Hs].
  destruct (Hs src) as [b0 H0]; [lia|]. destruct (Hs (src + 1)) as [b1 H1]; [lia|].
  destruct (Hs (src + 2)) as [b2 H2]; [lia|]. destruct (Hs (src + 3)) as [b3 H3]; [lia|].
  exists (put_word dst b0 b1 b2 b3 m). split.
  - unfold copy_word, load32. rewrite bind_assoc, (bind_ok _ _ _ _ _ (load8_run m _ _ H0)).
    rewrite bind_assoc, (bind_ok _ _ _ _ _ (load8_run m _ _ H1)).
    rewrite bind_assoc, (bind_ok _ _ _ _ _ (load8_run m _ _ H2)).
    rewrite bind_assoc, (bind_ok _ _ _ _ _ (load8_run m _ _ H3)). rewrite bind_ret.
    rewrite store32_run by done.
    destruct (word_bytes_of b0 b1 b2 b3) as (E0 & E1 & E2 & E3); [by eapply Hok..|].
    fold (word_of b0 b1 b2 b3). by rewrite E0, E1, E2, E3.
  - intros a. rewrite put_word_lookup. case_bool_decide; repeat case_decide; subst; try lia; try done.
    + rewrite <- H3. f_equal. lia.
    + rewrite <- H2. f_equal. lia.
    + rewrite <- H1. f_equal. lia.
    + rewrite <- H0. f_equal. lia.
Qed.

(** A forward copy: it may overlap only if it goes down. *)
Definition forward (dst src n : Z) : Prop := dst ≤ src ∨ src + n ≤ dst.

Lemma memcpy_bytes_run fuel : ∀ m dst src n,
  copyable m dst src n → forward dst src n → 0 ≤ n → n < Z.of_nat fuel →
  ∃ m', memcpy_bytes fuel dst src n m = Ok tt m' ∧ moved m dst src n m'.
Proof.
  induction fuel as [|fuel IH]; intros m dst src n Hc Hf Hn Hlt; [lia|]. cbn [memcpy_bytes].
  destruct (Z.eqb_spec n 0) as [->|Hz]; [exists m; split; [done|apply moved_zero]|].
  destruct (copy_byte_run m dst src) as (m1 & E1 & Hm1).
  { destruct Hc as [? Hd Hs]. split; [done|..]; intros i Hi; [apply Hd|apply Hs]; lia. }
  destruct (IH m1 (dst + 1) (src + 1) (n - 1)) as (m2 & E2 & Hm2);
    [|unfold forward in *; lia|lia|lia|].
  { eapply (copyable_after m dst src n); [done..| |lia|lia|lia|lia].
    intros i Hi. apply (cp_src _ _ _ _ Hc). lia. }
  exists m2. rewrite (bind_ok _ _ _ _ _ E1). split; [done|].
  replace n with (1 + (n - 1)) by lia. eapply moved_app; [lia|lia|unfold forward in Hf; lia|done..].
Qed.

(** One word of a longer copy. *)
Lemma copy_word_step m dst src n :
  copyable m dst src n → 4 ≤ n →
  ∃ m', copy_word dst src m = Ok tt m' ∧ moved m dst src 4 m' ∧
    copyable m' (dst + 4) (src + 4) (n - 4).
Proof.
  intros Hc Hn. destruct (copy_word_run m dst src) as (m1 & E1 & Hm1).
  { destruct Hc as [? Hd Hs]. split; [done|..]; intros i Hi; [apply Hd|apply Hs]; lia. }
  exists m1. split_and!; [done..|].
  eapply (copyable_after m dst src n); [done..| |lia|lia|lia|lia].
  intros i Hi. apply (cp_src _ _ _ _ Hc). lia.
Qed.

Lemma u32_pos n : 0 ≤ n < 2 ^ 31 → u32 n = n.
Proof. intros. apply u32_small. lia. Qed.

Lemma memcpy_words_run fuel : ∀ m dst src n,
  copyable m dst src n → forward dst src n → 0 ≤ n < 2 ^ 31 → n < Z.of_nat fuel →
  ∃ m' k, memcpy_words fuel dst src n m = Ok (dst + k, src + k, n - k) m' ∧ 0 ≤ k ≤ n ∧
    moved m dst src k m' ∧ copyable m' (dst + k) (src + k) (n - k).
Proof.
  unfold forward. induction fuel as [|fuel IH]; intros m dst src n Hc Hf Hn Hlt; [lia|].
  cbn [memcpy_words]. rewrite u32_pos by done. unfold LITTLEBLOCKSIZE.
  destruct (Z.leb_spec 4 n) as [Hle|Hgt].
  - destruct (copy_word_step m dst src n Hc Hle) as (m1 & E1 & Hm1 & Hc1).
    destruct (IH m1 (dst + 4) (src + 4) (n - 4)) as (m2 & k & E2 & Hk & Hm2 & Hc2); [done|lia..|].
    exists m2, (4 + k). rewrite (bind_ok _ _ _ _ _ E1), E2.
    replace (dst + 4 + k) with (dst + (4 + k)) in * by lia.
    replace (src + 4 + k) with (src + (4 + k)) in * by lia.
    replace (n - 4 - k) with (n - (4 + k)) in * by lia. split_and!; [done|lia|lia| |done].
    eapply moved_app; [..|done|done]; lia.
  - exists m, 0. rewrite !Z.add_0_r, Z.sub_0_r. split_and!; [done|lia|lia|apply moved_zero|done].
Qed.

Lemma memcpy_words4_run fuel : ∀ m dst src n,
  copyable m dst src n → forward dst src n → 0 ≤ n < 2 ^ 31 → n < Z.of_nat fuel →
  ∃ m' k, memcpy_words4 fuel dst src n m = Ok (dst + k, src + k, n - k) m' ∧ 0 ≤ k ≤ n ∧
    moved m dst src k m' ∧ copyable m' (dst + k) (src + k) (n - k).
Proof.
  unfold forward. induction fuel as [|fuel IH]; intros m dst src n Hc Hf Hn Hlt; [lia|].
  cbn [memcpy_words4]. rewrite u32_pos by done. unfold BIGBLOCKSIZE.
  destruct (Z.leb_spec 16 n) as [Hle|Hgt].
  - destruct (copy_word_step m dst src n Hc) as (m1 & E1 & Hm1 & Hc1); [lia|].
    destruct (copy_word_step m1 (dst + 4) (src + 4) (n - 4) Hc1) as (m2 & E2 & Hm2 & Hc2); [lia|].
    rewrite <- !Z.add_assoc, <- Z.sub_add_distr in Hc2. change (4 + 4) with 8 in Hc2.
    destruct (copy_word_step m2 (dst + 8) (src + 8) (n - 8) Hc2) as (m3 & E3 & Hm3 & Hc3); [lia|].
    rewrite <- !Z.add_assoc, <- Z.sub_add_distr in Hc3. change (8 + 4) with 12 in Hc3.
    destruct (copy_word_step m3 (dst + 12) (src + 12) (n - 12) Hc3) as (m4 & E4 & Hm4 & Hc4); [lia|].
    rewrite <- !Z.add_assoc, <- Z.sub_add_distr in Hc4. change (12 + 4) with 16 in Hc4.
    destruct (IH m4 (dst + 16) (src + 16) (n - 16)) as (m5 & k & E5 & Hk & Hm5 & Hc5); [done|lia..|].
    assert (moved m dst src (4 + (4 + (4 + (4 + k)))) m5) as Hm.
    { eapply moved_app; [lia|lia|lia|exact Hm1|].
      eapply moved_app; [lia|lia|lia|exact Hm2|].
      eapply moved_app; [lia|lia|lia|rewrite <- !Z.add_assoc; exact Hm3|].
      eapply moved_app; [lia|lia|lia|rewrite <- !Z.add_assoc; exact Hm4|].
      rewrite <- !Z.add_assoc. exact Hm5. }
    replace (4 + (4 + (4 + (4 + k)))) with (16 + k) in Hm by lia.
    exists m5, (16 + k). rewrite (bind_ok _ _ _ _ _ E1), (bind_ok _ _ _ _ _ E2),
      (bind_ok _ _ _ _ _ E3), (bind_ok _ _ _ _ _ E4), E5.
    rewrite !Z.add_assoc, Z.sub_add_distr. split_and!; [done|lia|lia|done|done].
  - exists m, 0. rewrite !Z.add_0_r, Z.sub_0_r. split_and!; [done|lia|lia|apply moved_zero|done].
Qed.

Lemma memcpy_run m dst src n :
  copyable m dst src n → forward dst src n → 0 ≤ n < 2 ^ 31 →
  ∃ m', rt_memcpy dst src n m = Ok dst m' ∧ moved m dst src n m'.
Proof.
  intros Hc Hf Hn. unfold rt_memcpy.
  assert (s32 n = n) as ->.
  { unfold s32, swrap. rewrite Z.mod_small; lia. }
  set (fuel := S (Z.to_nat n)). assert (n < Z.of_nat fuel) as Hfu by lia.
  assert (∃ m1 k, (if negb (u32 n <? BIGBLOCKSIZE) && negb (UNALIGNED src || UNALIGNED dst) then
       let! (d, s, len) := memcpy_words4 fuel dst src n in memcpy_words fuel d s len
     else ret (dst, src, n)) m = Ok (dst + k, src + k, n - k) m1 ∧ 0 ≤ k ≤ n ∧
    moved m dst src k m1 ∧ copyable m1 (dst + k) (src + k) (n - k)) as (m1 & k & E & Hk & Hm1 & Hc1).
  { case_match; [|exists m, 0; rewrite !Z.add_0_r, Z.sub_0_r; split_and!;
      [done|lia|lia|apply moved_zero|done]].
    destruct (memcpy_words4_run fuel m dst src n) as (m1 & k & E1 & Hk & Hm1 & Hc1); [done..|].
    destruct (memcpy_words_run fuel m1 (dst + k) (src + k) (n - k))
      as (m2 & j & E2 & Hj & Hm2 & Hc2); [done|unfold forward in *; lia|lia|lia|].
    exists m2, (k + j). rewrite (bind_ok _ _ _ _ _ E1), E2. rewrite !Z.add_assoc, Z.sub_add_distr.
    split_and!; [done|lia|lia| |done].
    eapply moved_app; [..|done|done]; unfold forward in Hf; lia. }
  rewrite (bind_ok _ _ _ _ _ E).
  destruct (memcpy_bytes_run fuel m1 (dst + k) (src + k) (n - k)) as (m2 & E2 & Hm2);
    [done|unfold forward in *; lia|lia|lia|].
  exists m2. rewrite (bind_ok _ _ _ _ _ E2). split; [done|].
  replace n with (k + (n - k)) by lia.
  eapply moved_app; [..|done|done]; unfold forward in Hf; lia.
Qed.

Lemma memmove_back_run fuel : ∀ m dst src n,
  copyable m dst src n → src ≤ dst → 0 ≤ n → n < Z.of_nat fuel →
  ∃ m', memmove_back fuel (dst + n) (src + n) n m = Ok tt m' ∧ moved m dst src n m'.
Proof.
  induction fuel as [|fuel IH]; intros m dst src n Hc Hf Hn Hlt; [lia|]. cbn [memmove_back].
  destruct (Z.eqb_spec n 0) as [->|Hz]; [exists m; split; [done|apply moved_zero]|].
  replace (dst + n - 1) with (dst + (n - 1)) by lia. replace (src + n - 1) with (src + (n - 1)) by lia.
  destruct (copy_byte_run m (dst + (n - 1)) (src + (n - 1))) as (m1 & E1 & Hm1).
  { destruct Hc as [? Hd Hs]. split; [done|..]; intros i Hi; [apply Hd|apply Hs]; lia. }
  destruct (IH m1 dst src (n - 1)) as (m2 & E2 & Hm2); [|lia..|].
  { eapply (copyable_after m dst src n); [done..| |lia|lia|lia|lia].
    intros i Hi. apply (cp_src _ _ _ _ Hc). lia. }
  exists m2. rewrite (bind_ok _ _ _ _ _ E1). split; [done|].
  replace n with ((n - 1) + 1) by lia. eapply moved_app_back; [lia|lia|done|done|done].
Qed.

Lemma memmove_run m dst src n :
  copyable m dst src n → 0 ≤ n → 0 ≤ src → src + n < 2 ^ 32 →
  ∃ m', rt_memmove dst src n m = Ok dst m' ∧ moved m dst src n m'.
Proof.
  intros Hc Hn Hs He. unfold rt_memmove. rewrite (u32_small (src + n)) by lia.
  destruct (Z.ltb_spec src dst); [destruct (Z.ltb_spec dst (src + n))|]; cbn [andb].
  - destruct (memmove_back_run (S (Z.to_nat n)) m dst src n) as (m' & E & Hm); [done|lia..|].
    exists m'. by rewrite (bind_ok _ _ _ _ _ E).
  - destruct (memcpy_bytes_run (S (Z.to_nat n)) m dst src n) as (m' & E & Hm);
      [done|unfold forward; lia|lia..|].
    exists m'. by rewrite (bind_ok _ _ _ _ _ E).
  - destruct (memcpy_bytes_run (S (Z.to_nat n)) m dst src n) as (m' & E & Hm);
      [done|unfold forward; lia|lia..|].
    exists m'. by rewrite (bind_ok _ _ _ _ _ E).
Qed.

(** ** Fills *)
Definition filled (m : bytes) (a d n : Z) (m' : bytes) : Prop :=
  ∀ i, m' !! i = if bool_decide (a ≤ i < a + n) then Some d else m !! i.

Lemma filled_zero m a d : filled m a d 0 m.
Proof. intros i. rewrite bool_decide_eq_false_2 by lia. done. Qed.
Lemma filled_app m a d k n m1 m2 : 0 ≤ k → 0 ≤ n →
  filled m a d k m1 → filled m1 (a + k) d n m2 → filled m a d (k + n) m2.
Proof.
  intros Hk Hn H1 H2 i. rewrite H2, H1. repeat case_bool_decide; done || lia.
Qed.
Lemma filled_unique m a d n m1 m2 : filled m a d n m1 → filled m a d n m2 → m1 = m2.
Proof. intros H1 H2. apply map_eq. intros i. by rewrite H1, H2. Qed.
Lemma filled_mapped m a d n m1 b k : filled m a d n m1 → mapped m b k → mapped m1 b k.
Proof. intros Hf Hm i Hi. rewrite Hf. case_bool_decide; [by eexists|by apply Hm]. Qed.

(** Each byte of the buffer is [d]. *)
Definition buffer_ok (d : Z) : bool :=
  let w := memset_buffer d in
  (u8 w =? d) && (u8 (Z.shiftr w 8) =? d) && (u8 (Z.shiftr w 16) =? d) && (u8 (Z.shiftr w 24) =? d).
Lemma buffer_ok_all : forallb (λ n, buffer_ok (Z.of_nat n)) (seq 0 256) = true.
Proof. vm_compute. reflexivity. Qed.

Lemma store_buffer_run m a d : mapped m a 4 → 0 ≤ d < 256 →
  ∃ m', store32 a (memset_buffer d) m = Ok tt m' ∧ filled m a d 4 m'.
Proof.
  intros Hm Hd. pose proof buffer_ok_all as Hall. rewrite forallb_forall in Hall.
  specialize (Hall (Z.to_nat d) ltac:(apply in_seq; lia)). rewrite Z2Nat.id in Hall by lia.
  unfold buffer_ok in Hall. rewrite !andb_true_iff, !Z.eqb_eq in Hall.
  destruct Hall as [[[E0 E1] E2] E3]. eexists. split; [by apply store32_run|].
  rewrite E0, E1, E2, E3. intros i. rewrite put_word_lookup.
  case_bool_decide; repeat case_decide; done || lia.
Qed.

Lemma mapped_sub m a n b k : mapped m a n → a ≤ b → b + k ≤ a + n → mapped m b k.
Proof. intros Hm ? ? i Hi. apply Hm. lia. Qed.

Lemma memset_bytes_run fuel : ∀ m a d n,
  mapped m a n → 0 ≤ d < 256 → 0 ≤ n → n < Z.of_nat fuel →
  ∃ m', memset_bytes fuel a d n m = Ok tt m' ∧ filled m a d n m'.
Proof.
  induction fuel as [|fuel IH]; intros m a d n Hm Hd Hn Hlt; [lia|]. cbn [memset_bytes].
  destruct (Z.eqb_spec n 0) as [->|Hz]; [exists m; split; [done|apply filled_zero]|].
  assert (filled m a d 1 (<[a := d]> m)) as Hf.
  { intros i. rewrite lookup_insert. case_decide; case_bool_decide; done || lia. }
  destruct (IH (<[a := d]> m) (a + 1) d (n - 1)) as (m' & E & Hf'); [|lia..|].
  { eapply mapped_sub; [by eapply filled_mapped|lia|lia]. }
  exists m'. rewrite (bind_ok _ _ _ _ _ (store8_run m a d ltac:(apply Hm; lia))), u8_small by lia.
  split; [done|]. replace n with (1 + (n - 1)) by lia. eapply filled_app; [lia|lia|done|done].
Qed.

Lemma memset_words_run fuel : ∀ m a d n,
  mapped m a n → 0 ≤ d < 256 → 0 ≤ n → n < Z.of_nat fuel →
  ∃ m' k, memset_words fuel a (memset_buffer d) n m = Ok (a + k, n - k) m' ∧ 0 ≤ k ≤ n ∧
    filled m a d k m'.
Proof.
  induction fuel as [|fuel IH]; intros m a d n Hm Hd Hn Hlt; [lia|]. cbn [memset_words].
  unfold LBLOCKSIZE. destruct (Z.leb_spec 4 n) as [Hle|Hgt].
  - destruct (store_buffer_run m a d) as (m1 & E1 & Hf1); [eapply mapped_sub; [done|lia|lia]|done|].
    destruct (IH m1 (a + 4) d (n - 4)) as (m2 & k & E2 & Hk & Hf2); [|lia..|].
    { eapply mapped_sub; [by eapply filled_mapped|lia|lia]. }
    exists m2, (4 + k). rewrite (bind_ok _ _ _ _ _ E1), E2. rewrite Z.add_assoc, Z.sub_add_distr.
    split_and!; [done|lia|lia|]. eapply filled_app; [lia|lia|done|done].
  - exists m, 0. rewrite Z.add_0_r, Z.sub_0_r. split_and!; [done|lia|lia|apply filled_zero].
Qed.

Lemma memset_words4_run fuel : ∀ m a d n,
  mapped m a n → 0 ≤ d < 256 → 0 ≤ n → n < Z.of_nat fuel →
  ∃ m' k, memset_words4 fuel a (memset_buffer d) n m = Ok (a + k, n - k) m' ∧ 0 ≤ k ≤ n ∧
    filled m a d k m'.
Proof.
  induction fuel as [|fuel IH]; intros m a d n Hm Hd Hn Hlt; [lia|]. cbn [memset_words4].
  unfold LBLOCKSIZE. destruct (Z.leb_spec (4 * 4) n) as [Hle|Hgt].
  - assert (∀ m1 k, filled m a d k m1 → k + 4 ≤ n → 0 ≤ k → mapped m1 (a + k) 4) as Hmap.
    { intros m1 k Hf ? ?. eapply mapped_sub; [by eapply filled_mapped|lia|lia]. }
    destruct (store_buffer_run m a d) as (m1 & E1 & Hf1); [eapply mapped_sub; [done|lia|lia]|done|].
    destruct (store_buffer_run m1 (a + 4) d) as (m2 & E2 & Hf2); [apply Hmap; done || lia|done|].
    assert (filled m a d 8 m2) as Hf8 by (apply (filled_app m a d 4 4 m1); done || lia).
    destruct (store_buffer_run m2 (a + 8) d) as (m3 & E3 & Hf3); [apply Hmap; done || lia|done|].
    assert (filled m a d 12 m3) as Hf12 by (apply (filled_app m a d 8 4 m2); done || lia).
    destruct (store_buffer_run m3 (a + 12) d) as (m4 & E4 & Hf4); [apply Hmap; done || lia|done|].
    assert (filled m a d 16 m4) as Hf16 by (apply (filled_app m a d 12 4 m3); done || lia).
    destruct (IH m4 (a + 16) d (n - 4 * 4)) as (m5 & k & E5 & Hk & Hf5); [|lia..|].
    { eapply mapped_sub; [by eapply filled_mapped|lia|lia]. }
    exists m5, (16 + k). rewrite (bind_ok _ _ _ _ _ E1), (bind_ok _ _ _ _ _ E2),
      (bind_ok _ _ _ _ _ E3), (bind_ok _ _ _ _ _ E4), E5. rewrite Z.add_assoc, Z.sub_add_distr.
    split_and!; [done|lia|lia|]. eapply filled_app; [lia|lia|done|done].
  - exists m, 0. rewrite Z.add_0_r, Z.sub_0_r. split_and!; [done|lia|lia|apply filled_zero].
Qed.

Lemma land_255 c : Z.land (u32 c) 0xff = u8 c.
Proof.
  change 0xff with (Z.ones 8). rewrite Z.land_ones by lia. unfold u32, u8, wrap.
  apply Z.bits_inj'. intros j Hj. destruct (Z.ltb_spec j 8).
  - by rewrite !Z.mod_pow2_bits_low by lia.
  - by rewrite !Z.mod_pow2_bits_high by lia.
Qed.

Lemma memset_run m s c n :
  mapped m s n → 0 ≤ n → ∃ m', rt_memset s c n m = Ok s m' ∧ filled m s (u8 c) n m'.
Proof.
  intros Hm Hn. unfold rt_memset. rewrite land_255.
  assert (0 ≤ u8 c < 256) as Hd by (apply (wrap_range 8); lia). generalize dependent (u8 c). intros d Hd.
  set (fuel := S (Z.to_nat n)). assert (n < Z.of_nat fuel) as Hfu by lia.
  assert (∃ m1 k, (if negb (n <? LBLOCKSIZE) && negb (UNALIGNED s) then
      let! (a, count) := memset_words4 fuel s (memset_buffer d) n in
      memset_words fuel a (memset_buffer d) count
     else ret (s, n)) m = Ok (s + k, n - k) m1 ∧ 0 ≤ k ≤ n ∧ filled m s d k m1)
    as (m1 & k & E & Hk & Hf).
  { case_match; [|exists m, 0; rewrite Z.add_0_r, Z.sub_0_r; split_and!;
      [done|lia|lia|apply filled_zero]].
    destruct (memset_words4_run fuel m s d n) as (m1 & k & E1 & Hk & Hf1); [done..|].
    destruct (memset_words_run fuel m1 (s + k) d (n - k)) as (m2 & j & E2 & Hj & Hf2); [|lia..|].
    { eapply mapped_sub; [by eapply filled_mapped|lia|lia]. }
    exists m2, (k + j). rewrite (bind_ok _ _ _ _ _ E1), E2. rewrite Z.add_assoc, Z.sub_add_distr.
    split_and!; [done|lia|lia|]. eapply filled_app; [lia|lia|done|done]. }
  rewrite (bind_ok _ _ _ _ _ E).
  destruct (memset_bytes_run fuel m1 (s + k) d (n - k)) as (m2 & E2 & Hf2); [|lia..|].
  { eapply mapped_sub; [by eapply filled_mapped|lia|lia]. }
  exists m2. rewrite (bind_ok _ _ _ _ _ E2). split; [done|].
  replace n with (k + (n - k)) by lia. eapply filled_app; [lia|lia|done|done].
Qed.

(** ** The byte-wise definitions of the heap *)
Lemma copy_bytes_moved n : ∀ m dst src,
  mapped m src (Z.of_nat n) → forward dst src (Z.of_nat n) →
  moved m dst src (Z.of_nat n) (Mem.copy_bytes n dst src m).
Proof.
  unfold forward. induction n as [|n IH]; intros m dst src Hs Hf; [apply moved_zero|].
  cbn [Mem.copy_bytes]. destruct (Hs src) as [v Hv]; [lia|]. rewrite Hv.
  replace (Z.of_nat (S n)) with (1 + Z.of_nat n) by lia.
  eapply (moved_app _ _ _ _ _ (<[dst := v]> m)); [lia..| |].
  - intros a. rewrite lookup_insert. case_decide; case_bool_decide; try lia; [|done].
    rewrite <- Hv. f_equal. lia.
  - apply IH; [|lia]. apply mapped_insert. eapply mapped_sub; [done|lia|lia].
Qed.

Lemma byte_loop_filled n : ∀ m a d, filled m a d (Z.of_nat n) (Mem.fill_bytes n a d m).
Proof.
  induction n as [|n IH]; intros m a d; [apply filled_zero|]. cbn [Mem.fill_bytes].
  replace (Z.of_nat (S n)) with (1 + Z.of_nat n) by lia.
  eapply (filled_app _ _ _ _ _ (<[a := d]> m)); [lia|lia| |apply IH].
  intros i. rewrite lookup_insert. case_decide; case_bool_decide; done || lia.
Qed.

(** ** Comparison *)

(** The first [n] bytes agree; [k] is the first place where two areas differ. *)
Definition same (m : bytes) (a b n : Z) : Prop := ∀ i, 0 ≤ i < n → m !! (a + i) = m !! (b + i).
Definition differ_at (m : bytes) (a b n k r : Z) : Prop :=
  0 ≤ k < n ∧ same m a b k ∧
  ∃ x y, m !! (a + k) = Some x ∧ m !! (b + k) = Some y ∧ x ≠ y ∧ r = x - y.

Lemma same_cons m a b n : m !! a = m !! b → same m (a + 1) (b + 1) n → same m a b (n + 1).
Proof.
  intros H0 Hs i Hi. destruct (decide (i = 0)) as [->|]; [by rewrite !Z.add_0_r|].
  specialize (Hs (i - 1) ltac:(lia)). by rewrite <- !Z.add_assoc, Z.add_sub_assoc, Z.add_simpl_l in Hs.
Qed.

Lemma memcmp_loop_run fuel : ∀ m a b n,
  mapped m a n → mapped m b n → 0 ≤ n < Z.of_nat fuel →
  ∃ r, memcmp_loop fuel a b n m = Ok r m ∧
    ((r = 0 ∧ same m a b n) ∨ ∃ k, differ_at m a b n k r).
Proof.
  induction fuel as [|fuel IH]; intros m a b n Ha Hb Hlt; [lia|].
  cbn [memcmp_loop]. destruct (Z.ltb_spec 0 n) as [Hp|Hz].
  2:{ exists 0. split; [done|]. left. split; [done|]. intros i Hi. lia. }
  destruct (Ha a) as [x Hx]; [lia|]. destruct (Hb b) as [y Hy]; [lia|].
  rewrite (bind_ok _ _ _ _ _ (load8_run m a x Hx)), (bind_ok _ _ _ _ _ (load8_run m b y Hy)).
  destruct (Z.eqb_spec (x - y) 0) as [E|Hne]; cbn [negb].
  - assert (m !! a = m !! b) as Hab by (rewrite Hx, Hy; f_equal; lia).
    destruct (IH m (a + 1) (b + 1) (n - 1)) as (r & Er & Hr);
      [by apply (mapped_sub m a n); [|lia|lia]|by apply (mapped_sub m b n); [|lia|lia]|lia|].
    exists r. split; [done|]. destruct Hr as [[-> Hr]|(k & Hk & Hs & x' & y' & H1 & H2 & H3)].
    + left. split; [done|]. replace n with (n - 1 + 1) by lia. by apply same_cons.
    + right. exists (k + 1). split_and!; [lia|lia|by apply same_cons|]. exists x', y'.
      by rewrite !(Z.add_comm k 1), !Z.add_assoc.
  - exists (x - y). split; [done|]. right. exists 0. split_and!; [lia|lia|intros i ?; lia|].
    exists x, y. rewrite !Z.add_0_r. split_and!; [done|done|lia|done].
Qed.

(** ** Strings in memory *)

(** The [n] bytes at [s], none of them null, are followed by a null byte. *)
Definition cstring (m : bytes) (s n : Z) : Prop :=
  0 ≤ n ∧ m !! (s + n) = Some 0 ∧ ∀ i, 0 ≤ i < n → ∃ c, m !! (s + i) = Some c ∧ c ≠ 0.

Lemma cstring_mapped m s n : cstring m s n → mapped m s (n + 1).
Proof.
  intros (Hn & Hz & Hc) i Hi. destruct (decide (i = s + n)) as [->|]; [by eexists|].
  destruct (Hc (i - s)) as (c & Hi' & _); [lia|]. replace (s + (i - s)) with i in Hi' by lia.
  by eexists.
Qed.

(** A mapped area is not longer than the memory. *)
Lemma mapped_size m a n : mapped m a n → n ≤ Z.of_nat (size m).
Proof.
  intros Hm. rewrite <- (size_dom (D := gset Z)).
  destruct (Z.le_gt_cases n 0); [lia|].
  set (X := list_to_set (C := gset Z) (seqZ a n)).
  assert (X ⊆ dom m) as Hsub.
  { intros i. unfold X. rewrite elem_of_list_to_set, elem_of_seqZ, elem_of_dom. apply Hm. }
  apply subseteq_size in Hsub. unfold X in Hsub.
  rewrite size_list_to_set in Hsub by apply NoDup_seqZ. rewrite length_seqZ in Hsub. lia.
Qed.

Lemma strlen_loop_run fuel : ∀ m s k n, cstring m s n → 0 ≤ k ≤ n → n - k < Z.of_nat fuel →
  strlen_loop fuel s (s + k) m = Ok n m.
Proof.
  induction fuel as [|fuel IH]; intros m s k n Hc Hk Hf; [lia|]. cbn [strlen_loop].
  pose proof Hc as (Hn & Hz & Hall). destruct (decide (k = n)) as [->|].
  - rewrite (bind_ok _ _ _ _ _ (load8_run m _ _ Hz)). change (negb (0 =? 0)) with false. cbv iota.
    unfold ret. f_equal. lia.
  - destruct (Hall k) as (c & Hck & Hc0); [lia|].
    rewrite (bind_ok _ _ _ _ _ (load8_run m _ _ Hck)). replace (c =? 0) with false by lia.
    cbn [negb]. replace (s + k + 1) with (s + (k + 1)) by lia. apply IH; [done|lia|lia].
Qed.

Lemma strlen_run m s n : cstring m s n → rt_strlen s m = Ok n m.
Proof.
  intros Hc. unfold rt_strlen. rewrite bind_gets. rewrite <- (Z.add_0_r s) at 2.
  pose proof (mapped_size _ _ _ (cstring_mapped m s n Hc)).
  apply strlen_loop_run; [done|destruct Hc; lia|lia].
Qed.

(** A prefix of bytes that are not null, and a limit. *)
Lemma strnlen_loop_run fuel : ∀ m s k n maxlen,
  (∀ i, 0 ≤ i < n → ∃ c, m !! (s + i) = Some c ∧ c ≠ 0) → 0 ≤ k ≤ n → n - k < Z.of_nat fuel →
  (m !! (s + n) = Some 0 ∧ n ≤ maxlen) ∨ (is_Some (m !! (s + n)) ∧ n = maxlen) →
  strnlen_loop fuel s (s + k) maxlen m = Ok n m.
Proof.
  induction fuel as [|fuel IH]; intros m s k n maxlen Hall Hk Hf Hend; [lia|]. cbn [strnlen_loop].
  assert (∀ c, m !! (s + n) = Some c → negb (c =? 0) && (s + n - s <? maxlen) = false) as Hstop.
  { intros c Hc. destruct Hend as [[Hz Hle]|[_ ->]]; [|by rewrite andb_comm, (proj2 (Z.ltb_ge _ _)) by lia].
    by simplify_eq. }
  destruct (decide (k = n)) as [->|].
  - assert (is_Some (m !! (s + n))) as [c Hc] by (destruct Hend as [[-> _]|[? _]]; [by eexists|done]).
    rewrite (bind_ok _ _ _ _ _ (load8_run m _ _ Hc)), (Hstop c Hc). unfold ret. f_equal. lia.
  - destruct (Hall k) as (c & Hck & Hc0); [lia|].
    rewrite (bind_ok _ _ _ _ _ (load8_run m _ _ Hck)). replace (c =? 0) with false by lia.
    assert (n ≤ maxlen) by (destruct Hend as [[_ ?]|[_ ->]]; lia).
    replace (s + k - s <? maxlen) with true by lia. cbn [negb andb].
    replace (s + k + 1) with (s + (k + 1)) by lia. apply IH; [done|lia|lia|done].
Qed.

Lemma strstr_loop_run fuel : ∀ m s1 s2 l1 l2,
  cstring m s1 l1 → cstring m s2 l2 → 0 < l2 → l1 < Z.of_nat fuel →
  ∃ r, strstr_loop fuel s1 s2 l1 l2 m = Ok r m ∧
    match r with
    | Some p => ∃ k, p = s1 + k ∧ 0 ≤ k ∧ k + l2 ≤ l1 ∧ same m (s1 + k) s2 l2 ∧
        ∀ j, 0 ≤ j < k → ¬ same m (s1 + j) s2 l2
    | None => ∀ j, 0 ≤ j → j + l2 ≤ l1 → ¬ same m (s1 + j) s2 l2
    end.
Proof.
  induction fuel as [|fuel IH]; intros m s1 s2 l1 l2 H1 H2 Hl2 Hf; [destruct H1; lia|].
  cbn [strstr_loop]. destruct (Z.leb_spec l2 l1) as [Hle|Hgt].
  2:{ exists None. split; [done|]. intros j Hj ?. lia. }
  destruct (memcmp_loop_run (S (Z.to_nat l2)) m s1 s2 l2) as (r & E & Hr).
  { apply (mapped_sub m s1 (l1 + 1)); [by apply cstring_mapped|lia|lia]. }
  { apply (mapped_sub m s2 (l2 + 1)); [by apply cstring_mapped|lia|lia]. }
  { lia. }
  unfold rt_memcmp. rewrite (bind_ok _ _ _ _ _ E).
  destruct Hr as [[-> Hs]|(k & Hk & Hsk & x & y & Hx & Hy & Hne & ->)].
  { change (0 =? 0) with true. cbv iota. exists (Some s1). split; [done|]. exists 0.
    rewrite !Z.add_0_r. split_and!; [done|lia|lia|done|lia]. }
  replace (x - y =? 0) with false by lia.
  assert (¬ same m (s1 + 0) s2 l2) as Hno.
  { intros Hs. specialize (Hs k Hk). rewrite Z.add_0_r, Hx, Hy in Hs. congruence. }
  destruct (IH m (s1 + 1) s2 (l1 - 1) l2) as (r & Er & Hr); [|done|done|lia|].
  { destruct H1 as (Hn & Hz & Hc). split_and!; [lia|by replace (s1 + 1 + (l1 - 1)) with (s1 + l1) by lia|].
    intros i Hi. destruct (Hc (1 + i)) as (c & ? & ?); [lia|]. exists c. by rewrite <- Z.add_assoc. }
  exists r. split; [done|]. destruct r as [p|].
  - destruct Hr as (j & -> & Hj & Hjl & Hs & Hlow). exists (1 + j).
    rewrite Z.add_assoc. split_and!; [lia|lia|lia|done|]. intros i Hi.
    destruct (decide (i = 0)) as [->|]; [done|].
    replace (s1 + i) with (s1 + 1 + (i - 1)) by lia. apply Hlow. lia.
  - intros i Hi ?. destruct (decide (i = 0)) as [->|]; [done|].
    replace (s1 + i) with (s1 + 1 + (i - 1)) by lia. apply Hr; lia.
Qed.

(** ** What the routines promise *)

(** [rt_memset] and [rt_memcpy], which work word by word on aligned areas,
    give the same memory as the byte-wise definitions that the heap uses; the
    copy needs areas that do not overlap, or a destination below the source. *)
Theorem memcpy_memset_bytewise (m : bytes) (dst src n : Z) :
  copyable m dst src n → 0 ≤ n < 2 ^ 31 →
  (∀ c, rt_memset dst c n m = Ok dst (Mem.fill_bytes (Z.to_nat n) dst (u8 c) m)) ∧
  (forward dst src n →
   rt_memcpy dst src n m = Ok dst (Mem.copy_bytes (Z.to_nat n) dst src m) ∧
   moved m dst src n (Mem.copy_bytes (Z.to_nat n) dst src m)).
Proof.
  intros Hc Hn. split.
  - intros c. destruct (memset_run m dst c n) as (m' & -> & Hf); [apply Hc|lia|]. f_equal.
    eapply filled_unique; [exact Hf|]. pose proof (byte_loop_filled (Z.to_nat n) m dst (u8 c)) as H.
    by rewrite Z2Nat.id in H by lia.
  - intros Hf. destruct (memcpy_run m dst src n Hc Hf Hn) as (m' & -> & Hm).
    pose proof (copy_bytes_moved (Z.to_nat n) m dst src) as H. rewrite Z2Nat.id in H by lia.
    specialize (H (cp_src _ _ _ _ Hc) Hf). split; [|done]. f_equal. by eapply moved_unique.
Qed.

(** [rt_memmove] copies whatever the areas' overlap: the destination has the
    bytes the source had before, and no other byte changes. *)
Theorem memmove_correct (m : bytes) (dest src n : Z) :
  copyable m dest src n → 0 ≤ n → 0 ≤ src → src + n < 2 ^ 32 →
  ∃ m', rt_memmove dest src n m = Ok dest m' ∧
    (∀ i, 0 ≤ i < n → m' !! (dest + i) = m !! (src + i)) ∧
    (∀ a, ¬ (dest ≤ a < dest + n) → m' !! a = m !! a).
Proof.
  intros Hc Hn Hs He. destruct (memmove_run m dest src n Hc Hn Hs He) as (m' & E & Hm).
  exists m'. split_and!; [done| |].
  - intros i Hi. rewrite (moved_in _ _ _ _ _ _ Hm) by lia. f_equal. lia.
  - intros a Ha. by apply (moved_out _ _ _ _ _ _ Hm).
Qed.

(** [rt_strstr] returns the first place where the second string occurs in the
    first one, and null when there is none. *)
Theorem strstr_correct (m : bytes) (s1 s2 l1 l2 : Z) :
  cstring m s1 l1 → cstring m s2 l2 →
  ∃ r, rt_strstr s1 s2 m = Ok r m ∧
    match r with
    | Some p => ∃ k, p = s1 + k ∧ 0 ≤ k ∧ k + l2 ≤ l1 ∧ same m (s1 + k) s2 l2 ∧
        ∀ j, 0 ≤ j < k → ¬ same m (s1 + j) s2 l2
    | None => ∀ j, 0 ≤ j → j + l2 ≤ l1 → ¬ same m (s1 + j) s2 l2
    end.
Proof.
  intros H1 H2. unfold rt_strstr. rewrite (bind_ok _ _ _ _ _ (strlen_run m s2 l2 H2)).
  destruct (Z.eqb_spec l2 0) as [->|Hne].
  - exists (Some s1). split; [done|]. exists 0. rewrite Z.add_0_r. destruct H1.
    split_and!; [done|lia|lia|intros i ?; lia|lia].
  - rewrite (bind_ok _ _ _ _ _ (strlen_run m s1 l1 H1)).
    destruct H2 as (? & ? & ?). apply strstr_loop_run; [done| |lia|destruct H1; lia].
    by split_and!.
Qed.

(** ** Examples *)
Definition text (a : Z) (l : list Z) : bytes :=
  list_to_map (zip (seqZ a (Z.of_nat (length l))) l).

(** A decision procedure for [copyable], for evaluation. *)
Definition mappedb (m : bytes) (a n : Z) : bool :=
  forallb (λ i, bool_decide (is_Some (m !! i))) (seqZ a n).
Lemma mappedb_spec m a n : mappedb m a n = true → mapped m a n.
Proof.
  unfold mappedb. rewrite forallb_forall. intros H i Hi. specialize (H i).
  rewrite <- list_elem_of_In, elem_of_seqZ, bool_decide_eq_true in H. by apply H.
Qed.
Lemma copyable_check m dst src n :
  bool_decide (map_Forall (λ _ v, 0 ≤ v < 256) m) && mappedb m dst n && mappedb m src n = true →
  copyable m dst src n.
Proof.
  rewrite !andb_true_iff, bool_decide_eq_true. intros [[? ?%mappedb_spec] ?%mappedb_spec].
  by split.
Qed.

Definition area : bytes := text 0x1000 (Z.of_nat <$> seq 1 60).

Lemma memcpy_memset_bytewise_witness :
  rt_memcpy 0x1000 0x1018 23 area = Ok 0x1000 (Mem.copy_bytes 23 0x1000 0x1018 area) ∧
  rt_memset 0x1000 0x123 23 area = Ok 0x1000 (Mem.fill_bytes 23 0x1000 0x23 area).
Proof.
  destruct (memcpy_memset_bytewise area 0x1000 0x1018 23) as [Hs Hc].
  - apply copyable_check. vm_compute. reflexivity.
  - lia.
  - split; [|apply (Hs 0x123)]. apply Hc. unfold forward. lia.
Defined.

Lemma memmove_correct_witness :
  ∃ m', rt_memmove 0x1005 0x1000 20 area = Ok 0x1005 m' ∧ m' !! 0x1005 = Some 1 ∧
    m' !! (0x1005 + 19) = Some 20.
Proof.
  destruct (memmove_correct area 0x1005 0x1000 20) as (m' & E & Hin & _).
  - apply copyable_check. vm_compute. reflexivity.
  - lia.
  - lia.
  - lia.
  - exists m'. split; [exact E|]. rewrite (Hin 19) by lia.
    specialize (Hin 0 ltac:(lia)). rewrite !Z.add_0_r in Hin. rewrite Hin. by split.
Defined.

(** "kernel" and "ne". *)
Lemma strstr_correct_witness : ∃ r,
  rt_strstr 0x100 0x200 (text 0x100 [107; 101; 114; 110; 101; 108; 0] ∪ text 0x200 [110; 101; 0]) =
  Ok r (text 0x100 [107; 101; 114; 110; 101; 108; 0] ∪ text 0x200 [110; 101; 0]).
Proof.
  set (m := text 0x100 [107; 101; 114; 110; 101; 108; 0] ∪ text 0x200 [110; 101; 0]).
  destruct (strstr_correct m 0x100 0x200 6 2) as (r & E & _).
  - split_and!; [lia|reflexivity|]. intros i Hi.
    assert (i = 0 ∨ i = 1 ∨ i = 2 ∨ i = 3 ∨ i = 4 ∨ i = 5) as Hd by lia.
    repeat destruct Hd as [-> | Hd]; subst; by eexists.
  - split_and!; [lia|reflexivity|]. intros i Hi.
    assert (i = 0 ∨ i = 1) as Hd by lia. repeat destruct Hd as [-> | Hd]; subst; by eexists.
  - by exists r.
Defined.

(** [rt_strnlen] reads the byte after the first [maxlen] ones. *)
Example strnlen_reads_beyond :
  rt_strnlen 0x100 3 (text 0x100 [97; 98; 99]) = Fault OutOfBounds ∧
  rt_strnlen 0x100 3 (text 0x100 [97; 98; 99; 100]) = Ok 3 (text 0x100 [97; 98; 99; 100]).
Proof. split; vm_compute; reflexivity. Qed.
