(* ===== verification/KPrintf.v ===== *)
(** * Formatted output ([rtthread/kernel/src/kservice.c])

    [rt_vsnprintf] and what it calls, as the firmware configures them: without
    [RT_PRINTF_PRECISION], [RT_PRINTF_LONGLONG] and [RT_PRINTF_SPECIAL]. *)

From S2P Require Import Prelude RtDef Mem KService KMemory.

(** ** Operations *)

(** The output position [str] (or [buf], in [print_number]), the memory of the
    buffer, and the arguments that are left. *)
Record pstate := mk_pstate { p_str : Z; p_mem : gmap Z Z; p_va : list Z }.
Abbreviation P := (M pstate).

(** [++ str]: the arithmetic of the output position, which moves on also where
    nothing is written.  [rt_vsnprintf] runs with [pointer], the 32-bit
    addresses of the source, which wrap around; [unbounded] counts on, and
    serves to say how many characters a call puts. *)
Class Advance : Type := advance : Z → Z.
Definition pointer : Advance := λ str, u32 (str + 1).
Definition unbounded : Advance := λ str, str + 1.

Section operations.
Context {adv : Advance}.

(** [if (str <= end) *str = c; ++ str;] *)
Definition put (end_ c : Z) : P unit := λ s,
  if p_str s <=? end_ then
    match store8 (p_str s) c (p_mem s) with
    | Ok _ m => Ok tt (mk_pstate (advance (p_str s)) m (p_va s))
    | Fault f => Fault f
    end
  else Ok tt (mk_pstate (advance (p_str s)) (p_mem s) (p_va s)).

Definition va_arg : P Z := λ s,
  match p_va s with
  | a :: l => Ok a (mk_pstate (p_str s) (p_mem s) l)
  | [] => Fault OutOfBounds
  end.

Definition isdigit (c : Z) : bool := u32 (c - 48) <? 10.

(** The remainder and the new value of [*n]. *)
Definition divide (n base : Z) : Z * Z :=
  if base =? 10 then (u32 n mod 10, s32 (u32 n / 10)) else (u32 n mod 16, s32 (u32 n / 16)).

(** A format is the list of the bytes from the pointer on. *)
Fixpoint skip_atoi_loop (s : list Z) (i : Z) : P (Z * list Z) :=
  match s with
  | [] => fail OutOfBounds
  | c :: s' => if isdigit c then skip_atoi_loop s' (s32 (i * 10 + c - 48)) else ret (i, s)
  end.
Definition skip_atoi (s : list Z) : P (Z * list Z) := skip_atoi_loop s 0.

Definition ZEROPAD : Z := Z.shiftl 1 0.
Definition SIGN : Z := Z.shiftl 1 1.
Definition PLUS : Z := Z.shiftl 1 2.
Definition SPACE : Z := Z.shiftl 1 3.
Definition LEFT : Z := Z.shiftl 1 4.
Definition SPECIAL : Z := Z.shiftl 1 5.
Definition LARGE : Z := Z.shiftl 1 6.
Definition has (type flag : Z) : bool := negb (Z.land type flag =? 0).

(** [small_digits[d]] and [large_digits[d]] *)
Definition digit_char (large : bool) (d : Z) : Z :=
  if d <? 10 then 48 + d else (if large then 65 else 97) + (d - 10).

(** [while (num != 0) tmp[i++] = digits[divide(&num, base)];] on [tmp], the
    first [i] of its 16 characters. *)
Fixpoint digits_loop (fuel : nat) (large : bool) (num base : Z) (tmp : list Z) : P (list Z) :=
  match fuel with
  | O => fail OutOfFuel
  | S fuel =>
    if num =? 0 then ret tmp
    else if Z.of_nat (length tmp) <? 16 then
      let (d, num) := divide num base in
      digits_loop fuel large num base (tmp ++ [digit_char large d])
    else fail OutOfBounds
  end.

(** [while (size-- > 0) put(c)], with [size] after it. *)
Fixpoint pad_loop (fuel : nat) (end_ c size : Z) : P Z :=
  match fuel with
  | O => fail OutOfFuel
  | S fuel =>
    if 0 <? size then put end_ c ;;; pad_loop fuel end_ c (size - 1) else ret (size - 1)
  end.
Definition pad (end_ c size : Z) : P Z := pad_loop (S (Z.to_nat size)) end_ c size.

(** [while (i-- > 0) put(tmp[i])] *)
Fixpoint put_all (end_ : Z) (l : list Z) : P unit :=
  match l with
  | [] => ret tt
  | c :: l => put end_ c ;;; put_all end_ l
  end.

Definition print_number (end_ num base s type : Z) : P unit :=
  let large := has type LARGE in
  let type := if has type LEFT then Z.land type (Z.lnot ZEROPAD) else type in
  let c := if has type ZEROPAD then 48 else 32 in
  let '(sign, num) :=
    if has type SIGN then
      if num <? 0 then (45, s32 (- num))
      else if has type PLUS then (43, num)
      else if has type SPACE then (32, num) else (0, num)
    else (0, num) in
  let! tmp := (if num =? 0 then ret [48] else digits_loop 17 large num base []) in
  let size := s - Z.of_nat (length tmp) in
  let! size :=
    (if negb (has type (Z.lor ZEROPAD LEFT)) then
       pad end_ 32 (if negb (sign =? 0) && (0 <? size) then size - 1 else size)
     else ret size) in
  let! size :=
    (if negb (sign =? 0) then
       let! str := gets p_str in
       put end_ sign ;;;
       ret (if str <=? end_ then size - 1 else size)
     else ret size) in
  let! size := (if negb (has type LEFT) then pad end_ c size else ret size) in
  put_all end_ (rev tmp) ;;;
  pad end_ 32 size ;;;
  ret tt.

Fixpoint parse_flags (fmt : list Z) (flags : Z) : P (Z * list Z) :=
  match fmt with
  | [] => fail OutOfBounds
  | c :: rest =>
    if c =? 45 then parse_flags rest (Z.lor flags LEFT)
    else if c =? 43 then parse_flags rest (Z.lor flags PLUS)
    else if c =? 32 then parse_flags rest (Z.lor flags SPACE)
    else if c =? 35 then parse_flags rest (Z.lor flags SPECIAL)
    else if c =? 48 then parse_flags rest (Z.lor flags ZEROPAD)
    else ret (flags, fmt)
  end.

(** The first character of a format, and the others. *)
Definition deref (fmt : list Z) : P (Z * list Z) :=
  match fmt with [] => fail OutOfBounds | c :: rest => ret (c, rest) end.

(** The field width, and the flags and the format after it. *)
Definition parse_width (fmt : list Z) (flags : Z) : P (Z * Z * list Z) :=
  let! (c, rest) := deref fmt in
  if isdigit c then
    let! (w, fmt) := skip_atoi fmt in ret (w, flags, fmt)
  else if c =? 42 then
    let! w := va_arg in
    ret (if w <? 0 then (s32 (- w), Z.lor flags LEFT, rest) else (w, flags, rest))
  else ret (-1, flags, fmt).

Definition parse_qualifier (fmt : list Z) : P (Z * list Z) :=
  let! (c, rest) := deref fmt in
  ret (if (c =? 104) || (c =? 108) then (c, rest) else (0, fmt)).

(** The number that an integer conversion reads. *)
Definition get_number (qualifier flags : Z) : P Z :=
  let! a := va_arg in
  ret (if qualifier =? 104 then
         (let num := u16 a in if has flags SIGN then u32 (s16 num) else num)
       else u32 a).

(** The bytes at an address, for the arguments of [%s]; they are not in the buffer. *)
Context (string_at : Z → list Z).

Definition null_string : list Z := [40; 78; 85; 76; 76; 41; 0].
Fixpoint string_chars (s : list Z) : option (list Z) :=
  match s with
  | [] => None
  | c :: s => if c =? 0 then Some [] else l ← string_chars s; Some (c :: l)
  end.

(** [while (--field_width > 0)] tests what is left before each character. *)
Definition conversion_c (end_ width flags : Z) : P unit :=
  let! width :=
    (if negb (has flags LEFT) then let! w := pad end_ 32 (width - 1) in ret (w + 1)
     else ret width) in
  let! a := va_arg in
  put end_ (u8 a) ;;;
  pad end_ 32 (width - 1) ;;;
  ret tt.

(** [while (len < field_width--)] runs [field_width - len] times. *)
Definition conversion_s (end_ width flags : Z) : P unit :=
  let! a := va_arg in
  let! s := from_option OutOfBounds (string_chars (if a =? 0 then null_string else string_at a)) in
  let len := Z.of_nat (length s) in
  let! rest := (if negb (has flags LEFT) then pad end_ 32 (width - len) else ret (width - len)) in
  put_all end_ s ;;;
  pad end_ 32 rest ;;;
  ret tt.

Definition conversion_number (end_ base width qualifier flags : Z) : P unit :=
  let! num := get_number qualifier flags in
  print_number end_ (s32 num) base width flags.

(** A conversion, from the character after the [%]; the result is the format
    from which the loop goes on. *)
Definition conversion (end_ : Z) (fmt : list Z) : P (list Z) :=
  let! (flags, fmt) := parse_flags fmt 0 in
  let! (width, flags, fmt) := parse_width fmt flags in
  let! (qualifier, fmt) := parse_qualifier fmt in
  let! (c, rest) := deref fmt in
  if c =? 99 then conversion_c end_ width flags ;;; ret rest
  else if c =? 115 then conversion_s end_ width flags ;;; ret rest
  else if c =? 112 then
    let! a := va_arg in
    (if width =? -1 then print_number end_ (s32 a) 16 8 (Z.lor flags ZEROPAD)
     else print_number end_ (s32 a) 16 width flags) ;;;
    ret rest
  else if c =? 37 then put end_ 37 ;;; ret rest
  else if c =? 111 then conversion_number end_ 8 width qualifier flags ;;; ret rest
  else if c =? 88 then conversion_number end_ 16 width qualifier (Z.lor flags LARGE) ;;; ret rest
  else if c =? 120 then conversion_number end_ 16 width qualifier flags ;;; ret rest
  else if (c =? 100) || (c =? 105) then
    conversion_number end_ 10 width qualifier (Z.lor flags SIGN) ;;; ret rest
  else if c =? 117 then conversion_number end_ 10 width qualifier flags ;;; ret rest
  else
    put end_ 37 ;;;
    if negb (c =? 0) then put end_ c ;;; ret rest else ret fmt.

Fixpoint format_loop (fuel : nat) (end_ : Z) (fmt : list Z) : P unit :=
  match fuel with
  | O => fail OutOfFuel
  | S fuel =>
    let! (c, rest) := deref fmt in
    if c =? 0 then ret tt
    else if negb (c =? 37) then put end_ c ;;; format_loop fuel end_ rest
    else let! fmt := conversion end_ rest in format_loop fuel end_ fmt
  end.

End operations.

Section vsnprintf.
Context (string_at : Z → list Z).

(** Each turn of the loop consumes a character. *)
Definition rt_vsnprintf (buf size : Z) (fmt args : list Z) : B Z := λ m,
  let end_ := u32 (buf + size - 1) in
  let end_ := if end_ <? buf then 2 ^ 32 - 1 else end_ in
  match format_loop (adv := pointer) string_at (S (length fmt)) end_ fmt (mk_pstate buf m args) with
  | Ok _ s =>
    let str := p_str s in
    (store8 (if str <=? end_ then str else end_) 0 ;;; ret (s32 (str - buf))) (p_mem s)
  | Fault f => Fault f
  end.

Definition rt_snprintf (buf size : Z) (fmt args : list Z) : B Z := rt_vsnprintf buf size fmt args.
(** [rt_vsnprintf] with the size [(rt_size_t)-1] *)
Definition rt_vsprintf (buf : Z) (format args : list Z) : B Z :=
  rt_vsnprintf buf (2 ^ 32 - 1) format args.
Definition rt_sprintf (buf : Z) (format args : list Z) : B Z := rt_vsprintf buf format args.
End vsnprintf.

(** ** Runs below the top of the address space *)
Section counting.
Context (string_at : Z → list Z).

(** The number of characters that a call puts, also those that are cut off:
    those of the same run where the output position does not wrap. *)
Definition text_length (buf size : Z) (fmt args : list Z) (m : gmap Z Z) : option Z :=
  match format_loop (adv := unbounded) string_at (S (length fmt)) (buf + size - 1) fmt
    (mk_pstate buf m args) with
  | Ok _ s => Some (p_str s - buf)
  | Fault _ => None
  end.

(** The output position only grows; where it is below [2^32] at the end of the
    run, the pointer did not wrap. *)
Definition same_run {A} (c1 c2 : P A) : Prop := ∀ s r s',
  0 ≤ p_str s → c1 s = Ok r s' → p_str s ≤ p_str s' ∧ (p_str s' < 2 ^ 32 → c2 s = Ok r s').

Lemma same_bind {A C} (c1 c2 : P A) (k1 k2 : A → P C) :
  same_run c1 c2 → (∀ a, same_run (k1 a) (k2 a)) → same_run (bind c1 k1) (bind c2 k2).
Proof.
  intros Hc Hk s r s' Hs E. unfold bind in E. destruct (c1 s) as [a s1|] eqn:E1; [|done].
  destruct (Hc _ _ _ Hs E1) as [Hle1 H1]. destruct (Hk a s1 r s' ltac:(lia) E) as [Hle2 H2].
  split; [lia|]. intros Hlt. rewrite (bind_ok _ _ _ _ _ (H1 ltac:(lia))). by apply H2.
Qed.
(** A step that does not move the position. *)
Lemma same_still {A} (c : P A) : (∀ s r s', c s = Ok r s' → p_str s' = p_str s) → same_run c c.
Proof. intros Hc s r s' _ E. rewrite (Hc _ _ _ E). done. Qed.
Lemma same_ret {A} (a : A) : same_run (ret a) (ret a).
Proof. apply same_still. by intros s r s' [= <- <-]. Qed.
Lemma same_gets {A} (f : pstate → A) : same_run (gets f) (gets f).
Proof. apply same_still. by intros s r s' [= <- <-]. Qed.
Lemma same_fail {A} f : same_run (fail f : P A) (fail f).
Proof. by intros s r s' _ E. Qed.
Lemma same_from_option {A} f (o : option A) : same_run (from_option f o : P A) (from_option f o).
Proof. destruct o; [apply same_ret|apply same_fail]. Qed.
Lemma same_va_arg : same_run va_arg va_arg.
Proof. apply same_still. intros [str m [|a va]] r s'; [done|]. by intros [= <- <-]. Qed.

Lemma same_put end_ c : same_run (put (adv := unbounded) end_ c) (put (adv := pointer) end_ c).
Proof.
  intros s r s' Hs. unfold put, advance, unbounded, pointer.
  case_match; [destruct (store8 _ _ _); [|done]|]; intros [= <- <-]; cbn;
    (split; [lia|]; intros; by rewrite u32_small by lia).
Qed.

Create HintDb same_run.
#[local] Hint Resolve same_ret same_gets same_fail same_from_option same_va_arg same_put : same_run.
(** Along the structure of an operation. *)
Ltac same := repeat first
  [ solve [auto with same_run] | apply same_bind; intros
  | match goal with |- same_run (match ?x with _ => _ end) _ => destruct x end ].

Lemma same_pad end_ c size :
  same_run (pad (adv := unbounded) end_ c size) (pad (adv := pointer) end_ c size).
Proof.
  unfold pad. generalize (S (Z.to_nat size)) as fuel. intros fuel. revert size.
  induction fuel as [|fuel IH]; intros size; cbn [pad_loop]; same.
Qed.
Lemma same_put_all end_ l :
  same_run (put_all (adv := unbounded) end_ l) (put_all (adv := pointer) end_ l).
Proof. induction l; cbn [put_all]; same. Qed.
Lemma same_digits large base fuel : ∀ num tmp,
  same_run (digits_loop fuel large num base tmp) (digits_loop fuel large num base tmp).
Proof. induction fuel as [|fuel IH]; intros num tmp; cbn [digits_loop]; same. Qed.
#[local] Hint Resolve same_pad same_put_all same_digits : same_run.

Lemma same_number end_ num base s type :
  same_run (print_number (adv := unbounded) end_ num base s type)
    (print_number (adv := pointer) end_ num base s type).
Proof. unfold print_number. cbv zeta. same. Qed.
Lemma same_flags fmt : ∀ flags, same_run (parse_flags fmt flags) (parse_flags fmt flags).
Proof. induction fmt as [|c fmt IH]; intros flags; cbn [parse_flags]; same. Qed.
Lemma same_deref fmt : same_run (deref fmt) (deref fmt).
Proof. unfold deref. same. Qed.
Lemma same_atoi fmt : ∀ i, same_run (skip_atoi_loop fmt i) (skip_atoi_loop fmt i).
Proof. induction fmt as [|c fmt IH]; intros i; cbn [skip_atoi_loop]; same. Qed.
#[local] Hint Resolve same_number same_flags same_deref same_atoi : same_run.

Lemma same_width fmt flags : same_run (parse_width fmt flags) (parse_width fmt flags).
Proof. unfold parse_width, skip_atoi. same. Qed.
Lemma same_qualifier fmt : same_run (parse_qualifier fmt) (parse_qualifier fmt).
Proof. unfold parse_qualifier. same. Qed.
Lemma same_get_number qualifier flags :
  same_run (get_number qualifier flags) (get_number qualifier flags).
Proof. unfold get_number. same. Qed.
#[local] Hint Resolve same_width same_qualifier same_get_number : same_run.

Lemma same_conversion end_ fmt :
  same_run (conversion (adv := unbounded) string_at end_ fmt)
    (conversion (adv := pointer) string_at end_ fmt).
Proof.
  unfold conversion, conversion_c, conversion_s, conversion_number. cbv zeta. same.
Qed.
#[local] Hint Resolve same_conversion : same_run.

Lemma same_format end_ fuel : ∀ fmt,
  same_run (format_loop (adv := unbounded) string_at fuel end_ fmt)
    (format_loop (adv := pointer) string_at fuel end_ fmt).
Proof. induction fuel as [|fuel IH]; intros fmt; cbn [format_loop]; same. Qed.
End counting.

(** ** Output into a buffer *)
#[local] Existing Instance unbounded.

Section output.
Context (m0 : gmap Z Z) (buf end_ : Z).

(** The characters [out] were put so far; those that fit are in the buffer. *)
Definition written (out : list Z) (s : pstate) : Prop :=
  p_str s = buf + Z.of_nat (length out) ∧
  ∀ a, p_mem s !! a =
    if bool_decide (buf ≤ a ≤ end_) then
      match out !! Z.to_nat (a - buf) with Some c => Some (u8 c) | None => m0 !! a end
    else m0 !! a.

Hypothesis Hmap : mapped m0 buf (end_ - buf + 1).

Lemma written_nil va : written [] (mk_pstate buf m0 va).
Proof.
  split; [cbn; lia|]. intros a. cbn. by case_bool_decide.
Qed.

Lemma put_run c out s : written out s →
  ∃ s', put end_ c s = Ok tt s' ∧ written (out ++ [c]) s' ∧ p_va s' = p_va s.
Proof.
  intros [Hs Hm]. unfold put, advance, unbounded. destruct (Z.leb_spec (p_str s) end_) as [Hle|Hgt].
  - rewrite store8_run.
    2:{ rewrite Hm, bool_decide_eq_true_2 by lia. case_match; [by eexists|]. apply Hmap. lia. }
    eexists. split; [done|]. split; [|done]. split; cbn; [rewrite length_app; cbn; lia|].
    intros a. rewrite lookup_insert, Hm. case_decide as E; case_bool_decide; try lia; try done.
    + rewrite <- E, Hs. replace (Z.to_nat (buf + Z.of_nat (length out) - buf)) with (length out) by lia.
      by rewrite lookup_app_r, Nat.sub_diag by lia.
    + destruct (decide (Z.to_nat (a - buf) < length out)%nat).
      * by rewrite lookup_app_l.
      * rewrite lookup_app_r by lia. rewrite (lookup_ge_None_2 out) by lia.
        rewrite (lookup_ge_None_2 [c]); [done|]. cbn. lia.
  - eexists. split; [done|]. split; [|done]. split; cbn; [rewrite length_app; cbn; lia|].
    intros a. rewrite Hm. case_bool_decide; [|done]. by rewrite lookup_app_l by lia.
Qed.

(** A run that puts the characters [l]. *)
Definition puts {A} (c : P A) (r : A) (l : list Z) : Prop :=
  ∀ out s, written out s → ∃ s', c s = Ok r s' ∧ written (out ++ l) s' ∧ p_va s' = p_va s.

Lemma puts_ret {A} (a : A) : puts (ret a) a [].
Proof. intros out s Hw. exists s. by rewrite app_nil_r. Qed.
Lemma puts_bind {A C} (c : P A) (k : A → P C) a b l1 l2 :
  puts c a l1 → puts (k a) b l2 → puts (bind c k) b (l1 ++ l2).
Proof.
  intros H1 H2 out s Hw. destruct (H1 out s Hw) as (s1 & E1 & Hw1 & Hv1).
  destruct (H2 _ s1 Hw1) as (s2 & E2 & Hw2 & Hv2). exists s2.
  rewrite (bind_ok _ _ _ _ _ E1), app_assoc. split_and!; [done|done|congruence].
Qed.
Lemma puts_eq {A} (c : P A) r l l' : puts c r l → l = l' → puts c r l'.
Proof. by intros ? <-. Qed.
Lemma puts_put c : puts (put end_ c) tt [c].
Proof. intros out s. apply put_run. Qed.

Lemma puts_pad c size :
  puts (pad end_ c size) (if 0 <? size then -1 else size - 1) (replicate (Z.to_nat size) c).
Proof.
  unfold pad. assert (∀ fuel size, (Z.to_nat size < fuel)%nat →
    puts (pad_loop fuel end_ c size) (if 0 <? size then -1 else size - 1)
      (replicate (Z.to_nat size) c)) as H; [|apply H; lia].
  induction fuel as [|fuel IH]; intros n Hn; [lia|]. cbn [pad_loop].
  destruct (Z.ltb_spec 0 n) as [Hp|Hp].
  - replace (Z.to_nat n) with (S (Z.to_nat (n - 1))) by lia. cbn [replicate].
    apply (puts_bind _ _ tt (-1) [c]); [apply puts_put|].
    specialize (IH (n - 1) ltac:(lia)). destruct (Z.ltb_spec 0 (n - 1)); [done|].
    by replace (n - 1 - 1) with (-1) in IH by lia.
  - replace (Z.to_nat n) with 0%nat by lia. apply puts_ret.
Qed.

Lemma puts_all l : puts (put_all end_ l) tt l.
Proof.
  induction l as [|c l IH]; [apply puts_ret|]. apply (puts_bind _ _ tt tt [c]); [apply puts_put|done].
Qed.

(** ** Digits *)
Fixpoint le_digits (fuel : nat) (b n : Z) : list Z :=
  match fuel with
  | O => []
  | S fuel => if n =? 0 then [] else n mod b :: le_digits fuel b (n / b)
  end.
(** The radix that [divide] uses. *)
Definition radix (base : Z) : Z := if base =? 10 then 10 else 16.

Lemma radix_cases base : radix base = 10 ∨ radix base = 16.
Proof. unfold radix. case_match; auto. Qed.

Lemma u32_s32 n : u32 (s32 n) = u32 n.
Proof.
  unfold u32, wrap, s32, swrap. rewrite Zminus_mod_idemp_l. f_equal. lia.
Qed.

Lemma divide_eq n base :
  divide n base = (u32 n mod radix base, u32 n / radix base) ∧
  0 ≤ u32 n / radix base < 2 ^ 31 ∧ u32 (u32 n / radix base) = u32 n / radix base.
Proof.
  pose proof (wrap_range 32 n ltac:(lia)) as Hr. fold (u32 n) in Hr.
  assert (0 ≤ u32 n / radix base < 2 ^ 31) as Hq.
  { destruct (radix_cases base) as [-> | ->]; Z.to_euclidean_division_equations; lia. }
  split_and!; [|lia|lia|apply u32_small; lia].
  unfold divide, radix in *. destruct (base =? 10); by rewrite s32_small by lia.
Qed.

Lemma digits_loop_run k : ∀ large num base tmp s,
  u32 num < radix base ^ Z.of_nat k → (length tmp + k ≤ 16)%nat →
  (num = 0 ↔ u32 num = 0) →
  digits_loop (S k) large num base tmp s =
    Ok (tmp ++ (digit_char large <$> le_digits k (radix base) (u32 num))) s.
Proof.
  induction k as [|k IH]; intros large num base tmp s Hn Hl Hz.
  - pose proof (wrap_range 32 num ltac:(lia)) as Hr. fold (u32 num) in Hr.
    change (radix base ^ Z.of_nat 0) with 1 in Hn. rewrite (proj2 Hz) by lia.
    cbn. by rewrite app_nil_r.
  - change (digits_loop (S (S k)) large num base tmp s) with
      ((if num =? 0 then ret tmp else if Z.of_nat (length tmp) <? 16 then
          let (d, num) := divide num base in
          digits_loop (S k) large num base (tmp ++ [digit_char large d])
        else fail OutOfBounds) s).
    cbn [le_digits]. destruct (Z.eqb_spec num 0) as [->|Hne].
    { change (u32 0 =? 0) with true. cbn. by rewrite app_nil_r. }
    replace (u32 num =? 0) with false by (symmetry; apply Z.eqb_neq; tauto).
    replace (Z.of_nat (length tmp) <? 16) with true by lia.
    destruct (divide_eq num base) as (-> & Hq & Eu).
    rewrite IH; rewrite ?Eu.
    + cbn. by rewrite <- app_assoc.
    + rewrite Nat2Z.inj_succ, Z.pow_succ_r in Hn by lia.
      apply Z.div_lt_upper_bound; [destruct (radix_cases base); lia|done].
    + rewrite length_app. cbn. lia.
    + done.
Qed.

Lemma digits_run large num base s : - 2 ^ 31 ≤ num < 2 ^ 31 →
  (if num =? 0 then ret [48] else digits_loop 17 large num base []) s =
    Ok (if num =? 0 then [48]
        else digit_char large <$> le_digits 16 (radix base) (u32 num)) s.
Proof.
  intros Hr. destruct (Z.eqb_spec num 0); [done|].
  pose proof (wrap_range 32 num ltac:(lia)) as Hu. fold (u32 num) in Hu.
  apply digits_loop_run; [|done|].
  - destruct (radix_cases base) as [-> | ->]; cbn; lia.
  - split; [by intros ->|]. unfold u32, wrap. intros E.
    apply Z.mod_divide in E as [k E]; [|lia]. lia.
Qed.

(** ** Numbers *)

(** The sign character and the magnitude; the digits, most significant first. *)
Definition number_sign (num type : Z) : list Z :=
  if has type SIGN then
    if num <? 0 then [45] else if has type PLUS then [43] else if has type SPACE then [32] else []
  else [].
Definition magnitude (num type : Z) : Z :=
  if has type SIGN && (num <? 0) then s32 (- num) else num.
Definition number_digits (num base type : Z) : list Z :=
  rev (if magnitude num type =? 0 then [48]
       else digit_char (has type LARGE) <$>
         le_digits 16 (radix base) (u32 (magnitude num type))).

(** A number in a field of [width] characters: on the left, filled with zeros
    after the sign, or on the right. *)
Definition field_fill (sign digits : list Z) (width : Z) : nat :=
  Z.to_nat (width - Z.of_nat (length digits) - Z.of_nat (length sign)).
Definition field_chars (sign digits : list Z) (width type : Z) : list Z :=
  let fill := field_fill sign digits width in
  if has type LEFT then sign ++ digits ++ replicate fill 32
  else if has type ZEROPAD then sign ++ replicate fill 48 ++ digits
  else replicate fill 32 ++ sign ++ digits.
Definition number_chars (num base width type : Z) : list Z :=
  field_chars (number_sign num type) (number_digits num base type) width type.

(** The flags without [ZEROPAD] where [LEFT] is set. *)
Lemma has_left_type type :
  let type' := if has type LEFT then Z.land type (Z.lnot ZEROPAD) else type in
  has type' LEFT = has type LEFT ∧ has type' ZEROPAD = has type ZEROPAD && negb (has type LEFT) ∧
  has type' (Z.lor ZEROPAD LEFT) = has type ZEROPAD || has type LEFT ∧
  has type' SIGN = has type SIGN ∧ has type' PLUS = has type PLUS ∧ has type' SPACE = has type SPACE.
Proof.
  unfold has. assert (∀ x k, 0 ≤ k → (Z.land x (Z.shiftl 1 k) =? 0) = negb (Z.testbit x k)) as Hb.
  { intros x k Hk. rewrite Z.shiftl_1_l. destruct (Z.testbit x k) eqn:E.
    - apply Z.eqb_neq. intros H. pose proof (f_equal (λ y, Z.testbit y k) H) as H'. cbn beta in H'.
      rewrite Z.land_spec, Z.pow2_bits_true, E, Z.bits_0 in H' by done. done.
    - apply Z.eqb_eq. apply Z.bits_inj'. intros j Hj. rewrite Z.land_spec, Z.bits_0.
      destruct (decide (j = k)) as [->|]; [by rewrite E|].
      rewrite Z.pow2_bits_false by done. apply andb_false_r. }
  assert (∀ x, (Z.land x (Z.lor ZEROPAD LEFT) =? 0) = negb (Z.testbit x 0 || Z.testbit x 4)) as Hb2.
  { intros x. rewrite Z.land_lor_distr_r. rewrite negb_orb, <- !Hb by lia.
    unfold ZEROPAD, LEFT. destruct (Z.eqb_spec (Z.lor (Z.land x (Z.shiftl 1 0)) (Z.land x (Z.shiftl 1 4))) 0) as [E|E].
    - apply Z.lor_eq_0_iff in E as [-> ->]. done.
    - rewrite Z.lor_eq_0_iff in E. destruct (Z.eqb_spec (Z.land x (Z.shiftl 1 0)) 0); [|done].
      destruct (Z.eqb_spec (Z.land x (Z.shiftl 1 4)) 0); tauto. }
  unfold LEFT, SIGN, PLUS, SPACE in *. rewrite !Hb2. unfold ZEROPAD in *. rewrite !Hb by lia.
  destruct (Z.testbit type 4) eqn:E4; cbn [negb]; rewrite ?Z.land_spec;
    change (Z.testbit (Z.lnot (Z.shiftl 1 0)) 0) with false;
    change (Z.testbit (Z.lnot (Z.shiftl 1 0)) 1) with true;
    change (Z.testbit (Z.lnot (Z.shiftl 1 0)) 2) with true;
    change (Z.testbit (Z.lnot (Z.shiftl 1 0)) 3) with true;
    change (Z.testbit (Z.lnot (Z.shiftl 1 0)) 4) with true;
    rewrite ?andb_true_r, ?andb_false_r, ?negb_involutive, ?E4, ?orb_true_r; by split_and!.
Qed.

Lemma s32_range x : - 2 ^ 31 ≤ s32 x < 2 ^ 31.
Proof.
  unfold s32, swrap. pose proof (Z.mod_pos_bound (x + 2 ^ (32 - 1)) (2 ^ 32) ltac:(lia)).
  change (2 ^ (32 - 1)) with (2 ^ 31) in *. lia.
Qed.

(** The part of [print_number] after the digits. *)
Definition print_digits (sign : Z) (tmp : list Z) (s type c : Z) : P unit :=
  let size := s - Z.of_nat (length tmp) in
  let! size :=
    (if negb (has type (Z.lor ZEROPAD LEFT)) then
       pad end_ 32 (if negb (sign =? 0) && (0 <? size) then size - 1 else size)
     else ret size) in
  let! size :=
    (if negb (sign =? 0) then
       let! str := gets p_str in
       put end_ sign ;;;
       ret (if str <=? end_ then size - 1 else size)
     else ret size) in
  let! size := (if negb (has type LEFT) then pad end_ c size else ret size) in
  put_all end_ (rev tmp) ;;;
  pad end_ 32 size ;;;
  ret tt.

(** The sign takes a place of the field only when it fits into the buffer. *)
Lemma puts_sign sign size out s : written out s → sign ≠ 0 → ∃ s' size',
  (let! str := gets p_str in
   put end_ sign ;;; ret (if str <=? end_ then size - 1 else size)) s = Ok size' s' ∧
  written (out ++ [sign]) s' ∧ p_va s' = p_va s ∧ size' ≤ size ∧
  (buf + Z.of_nat (length out) ≤ end_ → size' = size - 1).
Proof.
  intros Hw Hn. destruct (put_run sign out s Hw) as (s' & E & Hw' & Hv). exists s'.
  rewrite bind_gets, (bind_ok _ _ _ _ _ E). eexists. split; [done|]. split_and!; [done|done|case_match; lia|].
  intros Hle. destruct Hw as [-> _]. by replace (_ <=? end_) with true by lia.
Qed.

Lemma puts_if {A} (b : bool) (c : P A) a (r1 : A) l1 :
  puts c r1 l1 → puts (if b then c else ret a) (if b then r1 else a) (if b then l1 else []).
Proof. destruct b; [done|]. intros _. apply puts_ret. Qed.

(** What comes before and after the sign, [size] being what is left then. *)
Lemma puts_tail type c tmp size :
  puts (let! size := (if negb (has type LEFT) then pad end_ c size else ret size) in
        put_all end_ (rev tmp) ;;; pad end_ 32 size ;;; ret tt) tt
    (if has type LEFT then rev tmp ++ replicate (Z.to_nat size) 32
     else replicate (Z.to_nat size) c ++ rev tmp).
Proof.
  assert (∀ n, puts (pad end_ 32 n ;;; ret tt) tt (replicate (Z.to_nat n) 32)) as Hp.
  { intros n. rewrite <- (app_nil_r (replicate _ _)).
    eapply puts_bind; [apply puts_pad|apply puts_ret]. }
  destruct (has type LEFT); cbn [negb].
  - apply (puts_bind _ _ size tt []); [apply puts_ret|].
    eapply puts_bind; [apply puts_all|apply Hp].
  - eapply puts_bind; [apply puts_pad|].
    eapply puts_eq; [eapply (puts_bind _ _ tt tt _ []); [apply puts_all|]|apply app_nil_r].
    set (n := if 0 <? size then -1 else size - 1).
    change [] with (replicate 0 32). replace 0%nat with (Z.to_nat n); [apply Hp|].
    unfold n. destruct (Z.ltb_spec 0 size); lia.
Qed.

Lemma print_digits_run sign tmp width type c out s :
  written out s →
  ∃ s' l, print_digits sign tmp width type c s = Ok tt s' ∧ written (out ++ l) s' ∧
    p_va s' = p_va s ∧
    (has type (Z.lor ZEROPAD LEFT) = has type ZEROPAD || has type LEFT →
     (has type ZEROPAD = true → c = 48) →
     let text := field_chars (if sign =? 0 then [] else [sign]) (rev tmp) width type in
     buf + Z.of_nat (length out + length text) ≤ end_ + 1 → l = text).
Proof.
  intros Hw. unfold print_digits. set (size := width - Z.of_nat (length tmp)).
  set (size1 := if negb (sign =? 0) && (0 <? size) then size - 1 else size).
  set (wide := negb (has type (Z.lor ZEROPAD LEFT))).
  destruct (puts_if wide _ size _ _ (puts_pad 32 size1) out s Hw) as (s1 & E1 & Hw1 & Hv1).
  set (size2 := if wide then if 0 <? size1 then -1 else size1 - 1 else size) in *.
  set (l1 := if wide then replicate (Z.to_nat size1) 32 else []) in *.
  rewrite (bind_ok _ _ _ _ _ E1).
  assert (∃ s2 size3 l2, (if negb (sign =? 0) then
       let! str := gets p_str in put end_ sign ;;; ret (if str <=? end_ then size2 - 1 else size2)
     else ret size2) s1 = Ok size3 s2 ∧ written (out ++ l1 ++ l2) s2 ∧ p_va s2 = p_va s1 ∧
     l2 = (if sign =? 0 then [] else [sign]) ∧ size3 ≤ size2 ∧
     (sign = 0 ∨ buf + Z.of_nat (length (out ++ l1)) ≤ end_ →
      size3 = size2 - Z.of_nat (length l2))) as (s2 & size3 & l2 & E2 & Hw2 & Hv2 & El2 & Hle & Hs3).
  { destruct (Z.eqb_spec sign 0) as [->|Hne]; cbn [negb].
    - exists s1, size2, []. rewrite app_nil_r. split_and!; [done|done|done|done|done|]. cbn. lia.
    - destruct (puts_sign sign size2 (out ++ l1) s1 Hw1 Hne) as (s2 & size3 & E & Hw2 & Hv2 & Hle & Hsz).
      exists s2, size3, [sign]. rewrite app_assoc. split_and!; [done..|]. intros [?|?]; [done|].
      by apply Hsz. }
  rewrite (bind_ok _ _ _ _ _ E2).
  destruct (puts_tail type c tmp size3 _ s2 Hw2) as (s3 & E3 & Hw3 & Hv3).
  exists s3. eexists (l1 ++ l2 ++ _). split; [exact E3|]. rewrite <- !app_assoc in Hw3.
  split; [exact Hw3|]. split; [congruence|].
  intros Ht Hz Hroom. rewrite El2. set (sg := if sign =? 0 then [] else [sign]) in *.
  unfold field_chars in *. set (fill := field_fill sg (rev tmp) width) in *.
  rewrite El2, length_app in Hs3.
  assert (Z.of_nat (length sg) = 0 ∧ sign = 0 ∨ Z.of_nat (length sg) = 1 ∧ sign ≠ 0) as Hlen.
  { unfold sg. destruct (Z.eqb_spec sign 0); auto. }
  assert (Z.of_nat fill = Z.max 0 (size - Z.of_nat (length sg))) as Efill.
  { unfold fill, field_fill, size. rewrite length_rev. lia. }
  assert (wide = negb (has type ZEROPAD || has type LEFT)) as Ew by (unfold wide; by rewrite Ht).
  clear E1 E2 E3 Hw Hw1 Hw2 Hw3 Hv1 Hv2 Hv3 El2 Ht. unfold l1, size2 in *. clear l1 size2.
  clearbody wide. subst wide.
  destruct (has type LEFT), (has type ZEROPAD); cbn [orb negb] in *;
    cbn [app length] in *; rewrite ?length_app in Hroom.
  - rewrite Hs3 by lia. by replace (Z.to_nat (size - Z.of_nat (length sg))) with fill by lia.
  - rewrite Hs3 by lia. by replace (Z.to_nat (size - Z.of_nat (length sg))) with fill by lia.
  - rewrite Hs3, Hz by (done || lia). by replace (Z.to_nat (size - Z.of_nat (length sg))) with fill by lia.
  - rewrite length_replicate in *.
    replace (Z.to_nat size3) with 0%nat by (destruct (Z.ltb_spec 0 size1); lia).
    replace (Z.to_nat size1) with fill; [done|]. unfold size1.
    destruct (Z.eqb_spec sign 0), (Z.ltb_spec 0 size); cbn [negb andb]; lia.
Qed.

Lemma print_number_run num base width type out s :
  written out s → - 2 ^ 31 ≤ num < 2 ^ 31 →
  ∃ s' l, print_number end_ num base width type s = Ok tt s' ∧ written (out ++ l) s' ∧
    p_va s' = p_va s ∧
    (buf + Z.of_nat (length out + length (number_chars num base width type)) ≤ end_ + 1 →
     l = number_chars num base width type).
Proof.
  intros Hw Hr. pose proof (has_left_type type) as Ht. cbv zeta in Ht.
  set (type' := if has type LEFT then Z.land type (Z.lnot ZEROPAD) else type) in *.
  destruct Ht as (HL & HZ & HZL & HS & HP & HSp).
  set (sign := if has type SIGN then if num <? 0 then 45 else if has type PLUS then 43
    else if has type SPACE then 32 else 0 else 0).
  set (tmp := if magnitude num type =? 0 then [48] else digit_char (has type LARGE) <$>
    le_digits 16 (radix base) (u32 (magnitude num type))).
  assert (- 2 ^ 31 ≤ magnitude num type < 2 ^ 31) as Hm.
  { unfold magnitude. case_match; [apply s32_range|done]. }
  assert (print_number end_ num base width type s =
    print_digits sign tmp width type' (if has type' ZEROPAD then 48 else 32) s) as ->.
  { unfold print_number. fold type'. rewrite HS, HP, HSp.
    assert ((if has type SIGN then if num <? 0 then (45, s32 (- num))
        else if has type PLUS then (43, num) else if has type SPACE then (32, num) else (0, num)
      else (0, num)) = (sign, magnitude num type)) as ->.
    { unfold sign, magnitude. destruct (has type SIGN), (num <? 0), (has type PLUS), (has type SPACE);
        done. }
    by rewrite (bind_ok _ _ _ _ _ (digits_run (has type LARGE) (magnitude num type) base s Hm)). }
  destruct (print_digits_run sign tmp width type' (if has type' ZEROPAD then 48 else 32) out s Hw)
    as (s' & l & E & Hw' & Hv & Hl).
  exists s', l. split_and!; [done..|]. intros Hroom.
  assert (field_chars (if sign =? 0 then [] else [sign]) (rev tmp) width type' =
    number_chars num base width type) as Ec.
  { unfold number_chars.
    replace (if sign =? 0 then [] else [sign]) with (number_sign num type).
    2:{ unfold sign, number_sign. by destruct (has type SIGN), (num <? 0), (has type PLUS), (has type SPACE). }
    unfold number_digits. fold tmp. unfold field_chars. rewrite HL, HZ.
    by destruct (has type LEFT), (has type ZEROPAD). }
  rewrite <- Ec in *. apply Hl; [|by intros ->|done]. rewrite HZL, HZ, HL.
  by destruct (has type LEFT), (has type ZEROPAD).
Qed.

(** ** Conversions *)

(** A run that puts some characters and takes at most [n] arguments. *)
Definition outputs {A} (c : P A) (n : nat) (Q : A → Prop) : Prop := ∀ out s,
  written out s → (n ≤ length (p_va s))%nat →
  ∃ r s' l k, c s = Ok r s' ∧ Q r ∧ written (out ++ l) s' ∧ (k ≤ n)%nat ∧
    p_va s' = drop k (p_va s).

Lemma outputs_ret {A} (a : A) (Q : A → Prop) : Q a → outputs (ret a) 0 Q.
Proof. intros Hq out s Hw _. exists a, s, [], 0%nat. by rewrite app_nil_r. Qed.
Lemma outputs_puts {A} (c : P A) r l (Q : A → Prop) : puts c r l → Q r → outputs c 0 Q.
Proof.
  intros Hc Hq out s Hw _. destruct (Hc out s Hw) as (s' & E & Hw' & Hv).
  exists r, s', l, 0%nat. by rewrite Hv.
Qed.
Lemma outputs_bind {A C} (c : P A) (k : A → P C) n1 n2 Q R :
  outputs c n1 Q → (∀ a, Q a → outputs (k a) n2 R) → outputs (bind c k) (n1 + n2) R.
Proof.
  intros H1 H2 out s Hw Hn. destruct (H1 out s Hw) as (a & s1 & l1 & k1 & E1 & Hq & Hw1 & Hk1 & Hv1);
    [lia|].
  destruct (H2 a Hq (out ++ l1) s1 Hw1) as (b & s2 & l2 & k2 & E2 & Hr & Hw2 & Hk2 & Hv2).
  { rewrite Hv1, length_drop. lia. }
  exists b, s2, (l1 ++ l2), (k1 + k2)%nat. rewrite (bind_ok _ _ _ _ _ E1), app_assoc.
  split_and!; [done..|lia|]. by rewrite Hv2, Hv1, drop_drop.
Qed.
Lemma outputs_weaken {A} (c : P A) n n' (Q Q' : A → Prop) :
  outputs c n Q → (n ≤ n')%nat → (∀ a, Q a → Q' a) → outputs c n' Q'.
Proof.
  intros Hc Hn Hq out s Hw Hl. destruct (Hc out s Hw) as (r & s' & l & k & E & ? & ? & ? & ?); [lia|].
  exists r, s', l, k. split_and!; [done|by apply Hq|done|lia|done].
Qed.
Lemma outputs_number num base width type : - 2 ^ 31 ≤ num < 2 ^ 31 →
  outputs (print_number end_ num base width type) 0 (λ _, True).
Proof.
  intros Hr out s Hw _. destruct (print_number_run num base width type out s Hw Hr)
    as (s' & l & E & Hw' & Hv & _). exists tt, s', l, 0%nat. by rewrite Hv.
Qed.

Lemma outputs_va_arg : outputs va_arg 1 (λ _, True).
Proof.
  intros out s Hw Hn. destruct s as [str mem [|a va]]; cbn in Hn; [lia|].
  exists a, (mk_pstate str mem va), [], 1%nat. rewrite app_nil_r. split_and!; done.
Qed.

(** A format is what is left of another one, up to its null character. *)
Definition rest_of (fmt rest : list Z) : Prop := 0 ∈ rest ∧ (length rest ≤ length fmt)%nat.

Lemma rest_of_refl fmt : 0 ∈ fmt → rest_of fmt fmt.
Proof. by split. Qed.
Lemma rest_of_trans fmt r1 r2 : rest_of fmt r1 → rest_of r1 r2 → rest_of fmt r2.
Proof. intros [? ?] [? ?]. split; [done|lia]. Qed.
Lemma rest_of_cons c fmt : 0 ∈ c :: fmt → c ≠ 0 → rest_of (c :: fmt) fmt.
Proof. intros [?|Hin]%elem_of_cons ?; [done|]. split; [done|cbn; lia]. Qed.

Lemma outputs_deref fmt : 0 ∈ fmt →
  outputs (deref fmt) 0 (λ r, fmt = r.1 :: r.2).
Proof. destruct fmt as [|c fmt]; [by intros ?%elem_of_nil|]. intros _. by apply outputs_ret. Qed.

Lemma outputs_flags fmt : ∀ flags, 0 ∈ fmt →
  outputs (parse_flags fmt flags) 0 (λ r, rest_of fmt r.2).
Proof.
  induction fmt as [|c fmt IH]; intros flags Hin; [by apply elem_of_nil in Hin|].
  cbn [parse_flags].
  assert (c ≠ 0 → ∀ f, outputs (parse_flags fmt f) 0 (λ r, rest_of (c :: fmt) r.2)) as Hrec.
  { intros Hc f. pose proof (rest_of_cons c fmt Hin Hc) as Hr.
    eapply outputs_weaken; [by apply IH, Hr|done|]. intros a Ha. by eapply rest_of_trans. }
  destruct (Z.eqb_spec c 45); [apply Hrec; lia|]. destruct (Z.eqb_spec c 43); [apply Hrec; lia|].
  destruct (Z.eqb_spec c 32); [apply Hrec; lia|]. destruct (Z.eqb_spec c 35); [apply Hrec; lia|].
  destruct (Z.eqb_spec c 48); [apply Hrec; lia|].
  apply outputs_ret. by apply rest_of_refl.
Qed.

Lemma outputs_atoi fmt : ∀ i, 0 ∈ fmt → outputs (skip_atoi_loop fmt i) 0 (λ r, rest_of fmt r.2).
Proof.
  induction fmt as [|c fmt IH]; intros i Hin; [by apply elem_of_nil in Hin|].
  cbn [skip_atoi_loop]. destruct (isdigit c) eqn:Ed; [|apply outputs_ret; by apply rest_of_refl].
  pose proof (rest_of_cons c fmt Hin ltac:(by intros ->)) as Hr.
  eapply outputs_weaken; [by apply IH, Hr|done|]. intros a Ha. by eapply rest_of_trans.
Qed.

Lemma outputs_width fmt flags : 0 ∈ fmt →
  outputs (parse_width fmt flags) 1 (λ r, rest_of fmt r.2).
Proof.
  intros Hin. unfold parse_width. apply (outputs_bind _ _ 0 1 _ _ (outputs_deref fmt Hin)).
  intros [c rest] ->. cbn [fst snd] in *. destruct (isdigit c).
  - apply (outputs_weaken _ (0 + 0) _ (λ r, rest_of (c :: rest) r.2)); [|lia|done].
    apply (outputs_bind _ _ 0 0 _ _ (outputs_atoi _ 0 Hin)). intros [w fmt] Hr. by apply outputs_ret.
  - destruct (Z.eqb_spec c 42) as [->|].
    + apply (outputs_bind _ _ 1 0 _ _ outputs_va_arg). intros w _. apply outputs_ret.
      case_match; by apply rest_of_cons.
    + apply (outputs_weaken _ 0 _ (λ r, rest_of (c :: rest) r.2) _); [|lia|done].
      apply outputs_ret. by apply rest_of_refl.
Qed.

Lemma outputs_qualifier fmt : 0 ∈ fmt → outputs (parse_qualifier fmt) 0 (λ r, rest_of fmt r.2).
Proof.
  intros Hin. apply (outputs_bind _ _ 0 0 _ _ (outputs_deref fmt Hin)). intros [c rest] ->.
  cbn [fst snd] in *. apply outputs_ret.
  destruct (Z.eqb_spec c 104), (Z.eqb_spec c 108); cbn [orb snd];
    [lia| | |by apply rest_of_refl]; (apply rest_of_cons; [done|lia]).
Qed.

Lemma outputs_pad c n : outputs (pad end_ c n) 0 (λ _, True).
Proof. by eapply outputs_puts; [apply puts_pad|]. Qed.
Lemma outputs_put c : outputs (put end_ c) 0 (λ _, True).
Proof. by eapply outputs_puts; [apply puts_put|]. Qed.
Lemma outputs_unit {A} (c : P A) n : outputs c n (λ _, True) → outputs (c ;;; ret tt) n (λ _, True).
Proof.
  intros Hc. apply (outputs_weaken _ (n + 0) _ (λ _, True)); [|lia|done].
  eapply outputs_bind; [exact Hc|]. intros _ _. by apply outputs_ret.
Qed.

Section strings.
Context (string_at : Z → list Z).
Hypothesis Hstr : ∀ a, a ≠ 0 → 0 ∈ string_at a.

Lemma string_chars_some l : 0 ∈ l → is_Some (string_chars l).
Proof.
  induction l as [|c l IH]; [by intros ?%elem_of_nil|]. intros Hin. cbn [string_chars].
  destruct (Z.eqb_spec c 0) as [|Hc]; [by eexists|].
  apply elem_of_cons in Hin as [?|Hin]; [done|]. destruct (IH Hin) as [l' ->]. by eexists.
Qed.

Lemma outputs_c width flags : outputs (conversion_c end_ width flags) 1 (λ _, True).
Proof.
  unfold conversion_c. eapply (outputs_bind _ _ 0 1 (λ _, True)).
  - case_match; [|by apply outputs_ret]. apply (outputs_bind _ _ 0 0 _ _ (outputs_pad _ _)).
    intros w _. by apply outputs_ret.
  - intros w _. apply (outputs_bind _ _ 1 0 _ _ outputs_va_arg). intros a _.
    apply (outputs_bind _ _ 0 0 _ _ (outputs_put _)). intros [] _. apply outputs_unit, outputs_pad.
Qed.

Lemma outputs_s width flags : outputs (conversion_s string_at end_ width flags) 1 (λ _, True).
Proof.
  unfold conversion_s. apply (outputs_bind _ _ 1 0 _ _ outputs_va_arg). intros a _.
  assert (is_Some (string_chars (if a =? 0 then null_string else string_at a))) as [l El].
  { apply string_chars_some. destruct (Z.eqb_spec a 0); [|by apply Hstr].
    unfold null_string. set_solver. }
  rewrite El. cbn [from_option].
  apply (outputs_bind _ _ 0 0 (λ _, True)); [by apply outputs_ret|]. intros s _.
  apply (outputs_bind _ _ 0 0 (λ _, True)).
  { destruct (has flags LEFT); [by apply outputs_ret|apply outputs_pad]. }
  intros r _. apply (outputs_bind _ _ 0 0 (λ _, True)).
  { by eapply outputs_puts; [apply puts_all|]. }
  intros [] _. apply outputs_unit, outputs_pad.
Qed.

Lemma outputs_conversion_number base width qualifier flags :
  outputs (conversion_number end_ base width qualifier flags) 1 (λ _, True).
Proof.
  unfold conversion_number. apply (outputs_bind _ _ 1 0 (λ _, True)).
  - apply (outputs_bind _ _ 1 0 _ _ outputs_va_arg). intros a _. by apply outputs_ret.
  - intros n _. apply outputs_number, s32_range.
Qed.

(** A conversion puts characters, takes at most two arguments, and stays
    within the format. *)
Lemma outputs_conversion fmt : 0 ∈ fmt →
  outputs (conversion string_at end_ fmt) 2 (λ r, rest_of fmt r).
Proof.
  intros Hin. unfold conversion. apply (outputs_bind _ _ 0 2 _ _ (outputs_flags fmt 0 Hin)).
  intros [flags f1] Hr1. cbn [snd] in Hr1.
  apply (outputs_bind _ _ 1 1 _ _ (outputs_width f1 flags (proj1 Hr1))).
  intros [[width flags'] f2] Hr2. cbn [snd] in Hr2.
  apply (outputs_bind _ _ 0 1 _ _ (outputs_qualifier f2 (proj1 Hr2))).
  intros [qual f3] Hr3. cbn [snd] in Hr3.
  apply (outputs_bind _ _ 0 1 _ _ (outputs_deref f3 (proj1 Hr3))).
  intros [c rest] E. cbn [fst snd] in E. subst f3.
  assert (rest_of fmt (c :: rest)) as Hr by (do 2 (eapply rest_of_trans; [done|]); done).
  assert (c ≠ 0 → rest_of fmt rest) as Hrest.
  { intros Hc. eapply rest_of_trans; [exact Hr|]. apply rest_of_cons; [apply Hr|done]. }
  assert (∀ (p : P unit) n, c ≠ 0 → outputs p n (λ _, True) → (n ≤ 1)%nat →
    outputs (p ;;; ret rest) 1 (λ r, rest_of fmt r)) as Hp.
  { intros p n Hc Hp Hn. apply (outputs_weaken _ (n + 0) _ (λ r, rest_of fmt r)); [|lia|done].
    eapply outputs_bind; [exact Hp|]. intros _ _. by apply outputs_ret, Hrest. }
  destruct (Z.eqb_spec c 99); [by eapply Hp; [lia|apply outputs_c|]|].
  destruct (Z.eqb_spec c 115); [by eapply Hp; [lia|apply outputs_s|]|].
  destruct (Z.eqb_spec c 112).
  { apply (outputs_bind _ _ 1 0 _ _ outputs_va_arg). intros a _.
    apply (outputs_bind _ _ 0 0 (λ _, True)).
    - case_match; apply outputs_number, s32_range.
    - intros _ _. apply outputs_ret, Hrest. lia. }
  destruct (Z.eqb_spec c 37); [by eapply Hp; [lia|apply outputs_put|lia]|].
  destruct (Z.eqb_spec c 111); [by eapply Hp; [lia|apply outputs_conversion_number|]|].
  destruct (Z.eqb_spec c 88); [by eapply Hp; [lia|apply outputs_conversion_number|]|].
  destruct (Z.eqb_spec c 120); [by eapply Hp; [lia|apply outputs_conversion_number|]|].
  destruct ((c =? 100) || (c =? 105)) eqn:Edi;
    [eapply Hp; [destruct (Z.eqb_spec c 0); [by subst|done]|apply outputs_conversion_number|done]|].
  destruct (Z.eqb_spec c 117); [by eapply Hp; [lia|apply outputs_conversion_number|]|].
  apply (outputs_bind _ _ 0 1 _ _ (outputs_put 37)). intros [] _.
  destruct (Z.eqb_spec c 0); cbn [negb].
  - apply (outputs_weaken _ 0 _ (λ r, rest_of fmt r)); [|lia|done]. by apply outputs_ret.
  - by eapply Hp; [done|apply outputs_put|lia].
Qed.

Lemma format_loop_run fuel : ∀ fmt out s,
  written out s → 0 ∈ fmt → (length fmt < fuel)%nat → (2 * length fmt ≤ length (p_va s))%nat →
  ∃ s' l, format_loop string_at fuel end_ fmt s = Ok tt s' ∧ written (out ++ l) s'.
Proof.
  induction fuel as [|fuel IH]; intros fmt out s Hw Hin Hf Hva; [lia|]. cbn [format_loop].
  destruct fmt as [|c rest]; [by apply elem_of_nil in Hin|]. cbn [deref]. rewrite bind_ret.
  destruct (Z.eqb_spec c 0) as [|Hc]; [exists s, []; by rewrite app_nil_r|].
  destruct (rest_of_cons c rest Hin Hc) as [Hin' _]. cbn [length] in *.
  destruct (Z.eqb_spec c 37) as [|Hp]; cbn [negb].
  - destruct (outputs_conversion rest Hin' out s Hw) as (r & s1 & l & k & E & Hr & Hw1 & Hk & Hv); [lia|].
    rewrite (bind_ok _ _ _ _ _ E).
    destruct (IH r (out ++ l) s1 Hw1 (proj1 Hr)) as (s2 & l2 & E2 & Hw2).
    { destruct Hr. lia. }
    { rewrite Hv, length_drop. destruct Hr. lia. }
    exists s2, (l ++ l2). by rewrite app_assoc.
  - destruct (put_run c out s Hw) as (s1 & E & Hw1 & Hv). rewrite (bind_ok _ _ _ _ _ E).
    destruct (IH rest (out ++ [c]) s1 Hw1 Hin') as (s2 & l2 & E2 & Hw2); [lia|rewrite Hv; lia|].
    exists s2, ([c] ++ l2). by rewrite app_assoc.
Qed.
End strings.
End output.

(** ** The decimal round trip *)
Definition undigit (i d : Z) : Z := i * 10 + d.

Lemma le_digits_value k : ∀ n, 0 ≤ n < 10 ^ Z.of_nat k →
  foldr (λ d i, undigit i d) 0 (le_digits k 10 n) = n.
Proof.
  induction k as [|k IH]; intros n Hn; [cbn in *; lia|]. cbn [le_digits].
  destruct (Z.eqb_spec n 0) as [->|]; [done|]. cbn [foldr].
  rewrite Nat2Z.inj_succ, Z.pow_succ_r in Hn by lia.
  rewrite IH; unfold undigit; Z.to_euclidean_division_equations; lia.
Qed.

Lemma le_digits_digit k : ∀ n, 0 ≤ n → Forall (λ d, 0 ≤ d < 10) (le_digits k 10 n).
Proof.
  induction k as [|k IH]; intros n Hn; [constructor|]. cbn [le_digits].
  case_match; [constructor|]. constructor; [Z.to_euclidean_division_equations; lia|].
  apply IH. Z.to_euclidean_division_equations; lia.
Qed.

Lemma undigit_ge ds : ∀ i, 0 ≤ i → Forall (λ d, 0 ≤ d < 10) ds → i ≤ fold_left undigit ds i.
Proof.
  induction ds as [|d ds IH]; intros i Hi Hd; [done|]. apply Forall_cons in Hd as [? Hd].
  cbn [fold_left]. etrans; [|apply IH; [|done]]; unfold undigit; lia.
Qed.

Lemma skip_atoi_digits ds : ∀ i rest, 0 ≤ i → Forall (λ d, 0 ≤ d < 10) ds →
  fold_left undigit ds i < 2 ^ 31 →
  skip_atoi_loop (((λ d, 48 + d) <$> ds) ++ rest) i = skip_atoi_loop rest (fold_left undigit ds i).
Proof.
  induction ds as [|d ds IH]; intros i rest Hi Hd Hlt; [done|].
  apply Forall_cons in Hd as [Hd Hds]. cbn [fold_left] in *.
  assert (0 ≤ undigit i d) as Hu by (unfold undigit; lia).
  pose proof (undigit_ge ds _ Hu Hds).
  cbn [fmap list_fmap app skip_atoi_loop]. unfold isdigit. rewrite u32_small by lia.
  replace (48 + d - 48 <? 10) with true by lia.
  rewrite <- IH by done. f_equal. rewrite s32_small; unfold undigit in *; lia.
Qed.

(** A nonnegative number, as [print_number] writes it for a signed decimal
    conversion without a width. *)
Definition decimal (n : Z) : list Z := number_chars n 10 (-1) SIGN.

Lemma decimal_is n : 0 ≤ n < 2 ^ 31 → ∃ ds,
  decimal n = (λ d, 48 + d) <$> ds ∧ Forall (λ d, 0 ≤ d < 10) ds ∧ fold_left undigit ds 0 = n.
Proof.
  intros Hn. exists (if n =? 0 then [0] else rev (le_digits 16 10 n)).
  unfold decimal, number_chars, field_chars. change (has SIGN LEFT) with false.
  change (has SIGN ZEROPAD) with false. cbv zeta. cbn [negb].
  unfold number_sign, number_digits, magnitude. replace (n <? 0) with false by lia.
  rewrite andb_false_r. change (has SIGN SIGN) with true. change (has SIGN PLUS) with false.
  change (has SIGN SPACE) with false. cbn [app]. unfold field_fill.
  match goal with |- context [replicate ?k 32] => replace k with 0%nat by (cbn [length]; lia) end.
  cbn [replicate app]. rewrite u32_small by lia. change (radix 10) with 10.
  change (has SIGN LARGE) with false.
  pose proof (le_digits_digit 16 n ltac:(lia)) as Hd. destruct (Z.eqb_spec n 0) as [->|Hne].
  - split_and!; [done| |done]. repeat constructor; lia.
  - split_and!.
    + etrans; [|symmetry; apply map_rev]. f_equal. apply list_fmap_ext. intros i d Hi.
      apply (Forall_lookup_1 _ _ _ _ Hd) in Hi. unfold digit_char. by replace (d <? 10) with true by lia.
    + by apply Forall_rev.
    + rewrite <- fold_left_rev_right, rev_involutive. apply le_digits_value. cbn. lia.
Qed.

(** ** The buffer after a call *)

(** [m'] is [m] with the characters [out], cut to [size - 1], and a null
    character at [buf]. *)
Definition formatted (m : gmap Z Z) (buf size : Z) (out : list Z) (m' : gmap Z Z) : Prop :=
  ∀ a, m' !! a =
    let i := a - buf in
    let n := Z.min (Z.of_nat (length out)) (size - 1) in
    if bool_decide (0 ≤ i < n) then u8 <$> out !! Z.to_nat i
    else if bool_decide (i = n) then Some 0 else m !! a.

Lemma vsnprintf_end string_at buf size fmt args m out s :
  1 ≤ size → 0 < buf → buf + size ≤ 2 ^ 32 → mapped m buf size →
  format_loop string_at (S (length fmt)) (buf + size - 1) fmt (mk_pstate buf m args) = Ok tt s →
  written m buf (buf + size - 1) out s → buf + Z.of_nat (length out) < 2 ^ 32 →
  ∃ m', rt_vsnprintf string_at buf size fmt args m = Ok (s32 (Z.of_nat (length out))) m' ∧
    formatted m buf size out m'.
Proof.
  intros Hs Hb Htop Hmap E [Hp Hm] Hlow. unfold rt_vsnprintf. rewrite u32_small by lia.
  replace (buf + size - 1 <? buf) with false by lia.
  apply same_format in E as [_ E]; [|cbn; lia]. rewrite E, Hp by lia.
  set (n := Z.min (Z.of_nat (length out)) (size - 1)).
  replace (if buf + Z.of_nat (length out) <=? buf + size - 1 then buf + Z.of_nat (length out)
    else buf + size - 1) with (buf + n) by (unfold n; destruct (Z.leb_spec (buf + Z.of_nat (length out)) (buf + size - 1)); lia).
  eexists. split.
  - erewrite bind_ok.
    2:{ apply store8_run. rewrite Hm, bool_decide_eq_true_2 by lia.
        case_match; [by eexists|]. apply Hmap. lia. }
    replace (buf + Z.of_nat (length out) - buf) with (Z.of_nat (length out)) by lia. done.
  - intros a. cbv zeta. fold n. rewrite lookup_insert, Hm.
    destruct (decide (buf + n = a)) as [<-|Hne].
    { rewrite bool_decide_eq_false_2 by lia. by rewrite bool_decide_eq_true_2 by lia. }
    destruct (decide (0 ≤ a - buf < n)).
    + rewrite !bool_decide_eq_true_2 by lia.
      destruct (lookup_lt_is_Some_2 out (Z.to_nat (a - buf))) as [c Ec]; [lia|]. by rewrite Ec.
    + rewrite (bool_decide_eq_false_2 (0 ≤ a - buf < n)) by done.
      rewrite (bool_decide_eq_false_2 (a - buf = n)) by lia.
      case_bool_decide; [|done]. by rewrite lookup_ge_None_2 by lia.
Qed.

(** The bytes of the buffer, as a list. *)
Definition read_bytes (m : gmap Z Z) (buf : Z) (n : nat) : list Z :=
  (λ i, default 0 (m !! (buf + Z.of_nat i))) <$> seq 0 n.

Lemma formatted_read m buf size out m' :
  formatted m buf size out m' → Z.of_nat (length out) < size → Forall (λ c, 0 ≤ c < 256) out →
  read_bytes m' buf (S (length out)) = out ++ [0].
Proof.
  intros Hf Hs Hc. apply list_eq. intros i. unfold read_bytes. rewrite list_lookup_fmap.
  destruct (decide (i < S (length out))%nat) as [Hi|Hi].
  2:{ rewrite (lookup_ge_None_2 (seq _ _)) by (rewrite length_seq; lia).
      symmetry. apply lookup_ge_None_2. rewrite length_app. cbn. lia. }
  rewrite lookup_seq_lt by lia. cbn. rewrite Hf. cbv zeta.
  replace (buf + Z.of_nat i - buf) with (Z.of_nat i) by lia. rewrite Nat2Z.id.
  rewrite Z.min_l by lia. destruct (decide (i < length out)%nat) as [Hl|Hl].
  - rewrite bool_decide_eq_true_2 by lia. rewrite lookup_app_l by done.
    destruct (lookup_lt_is_Some_2 out i Hl) as [c E]. rewrite E. cbn. f_equal.
    apply u8_small. by eapply Forall_lookup_1 in Hc.
  - replace i with (length out) by lia. rewrite bool_decide_eq_false_2 by lia.
    rewrite bool_decide_eq_true_2 by lia. rewrite lookup_app_r, Nat.sub_diag by lia. done.
Qed.

Lemma le_digits_length fuel : ∀ k n, 0 ≤ n < 10 ^ Z.of_nat k →
  (length (le_digits fuel 10 n) ≤ k)%nat.
Proof.
  induction fuel as [|fuel IH]; intros k n Hn; [cbn; lia|]. cbn [le_digits].
  destruct (Z.eqb_spec n 0); [cbn; lia|]. destruct k as [|k]; [cbn in Hn; lia|].
  cbn [length]. rewrite Nat2Z.inj_succ, Z.pow_succ_r in Hn by lia.
  apply le_n_S, IH. Z.to_euclidean_division_equations; lia.
Qed.

Lemma decimal_length n : 0 ≤ n < 2 ^ 31 → (length (decimal n) ≤ 10)%nat.
Proof.
  intros Hn. assert (length (le_digits 16 10 n) ≤ 10)%nat as Hl.
  { apply le_digits_length. change (10 ^ Z.of_nat 10) with (10 ^ 10). lia. }
  unfold decimal, number_chars, field_chars. change (has SIGN LEFT) with false.
  change (has SIGN ZEROPAD) with false. cbv zeta. unfold field_fill, number_sign, number_digits, magnitude.
  replace (n <? 0) with false by lia. rewrite andb_false_r. change (has SIGN SIGN) with true.
  change (has SIGN PLUS) with false. change (has SIGN SPACE) with false.
  rewrite !length_app, length_replicate. rewrite u32_small by lia. change (radix 10) with 10.
  rewrite length_rev. cbn [length]. destruct (n =? 0); [cbn; lia|]. rewrite length_fmap. lia.
Qed.

Definition fmt_d : list Z := [37; 100; 0].

(** The format ["%d"] puts one number. *)
Lemma format_d_run string_at buf size n va m :
  0 ≤ n < 2 ^ 31 → 11 ≤ size → mapped m buf size →
  ∃ s, format_loop string_at (S (length fmt_d)) (buf + size - 1) fmt_d (mk_pstate buf m (n :: va)) = Ok tt s ∧
    written m buf (buf + size - 1) (decimal n) s.
Proof.
  intros Hn Hs Hm.
  assert (mapped m buf (buf + size - 1 - buf + 1)) as Hm' by (by replace (buf + size - 1 - buf + 1) with size by lia).
  pose proof (decimal_length n Hn) as Hlen.
  destruct (print_number_run m buf (buf + size - 1) Hm' n 10 (-1) SIGN [] (mk_pstate buf m va))
    as (s & l & E & Hw & _ & Hl); [apply written_nil|lia|].
  rewrite Hl in Hw. 2:{ fold (decimal n). cbn [length]. lia. }
  exists s. split; [|exact Hw].
  assert (conversion string_at (buf + size - 1) [100; 0] (mk_pstate buf m (n :: va)) = Ok [0] s) as Ec.
  { transitivity ((print_number (buf + size - 1) (s32 (u32 n)) 10 (-1) SIGN ;;; ret [0]) (mk_pstate buf m va)); [done|].
    rewrite u32_small, s32_small by lia. by rewrite (bind_ok _ _ _ _ _ E). }
  change (format_loop string_at (S (length fmt_d)) (buf + size - 1) fmt_d (mk_pstate buf m (n :: va)))
    with ((let! fmt := conversion string_at (buf + size - 1) [100; 0] in
           format_loop string_at (length fmt_d) (buf + size - 1) fmt) (mk_pstate buf m (n :: va))).
  by rewrite (bind_ok _ _ _ _ _ Ec).
Qed.

(** ** Properties *)

(** C40: [rt_vsnprintf] with a size of at least one, a format and string
    arguments that end with a null character, and two arguments for each
    character of the format (a conversion takes at most two) puts a definite
    text [out], of [text_length] characters.  Where the end of that text, as
    far as it were written behind [buf], is below the top [2^32] of the address
    space, the call returns the number of its characters, also of those that
    were cut off; the buffer holds the first [size - 1] of them followed by a
    null character, and no address outside the [size] bytes of the buffer is
    written.  (Behind the top the output position wraps around, and the call
    may write before the buffer: [wrap_writes_below].) *)
Theorem vsnprintf_bounded string_at buf size fmt args m :
  1 ≤ size → 0 < buf → buf + size ≤ 2 ^ 32 → mapped m buf size →
  0 ∈ fmt → (2 * length fmt ≤ length args)%nat → (∀ a, a ≠ 0 → 0 ∈ string_at a) →
  ∃ out, text_length string_at buf size fmt args m = Some (Z.of_nat (length out)) ∧
    (buf + Z.of_nat (length out) < 2 ^ 32 → ∃ m',
      rt_vsnprintf string_at buf size fmt args m = Ok (s32 (Z.of_nat (length out))) m' ∧
      formatted m buf size out m' ∧
      (∀ a, ¬ (buf ≤ a < buf + size) → m' !! a = m !! a)).
Proof.
  intros Hs Hb Htop Hmap Hin Hargs Hstr.
  assert (mapped m buf (buf + size - 1 - buf + 1)) as Hm' by
    (by replace (buf + size - 1 - buf + 1) with size by lia).
  destruct (format_loop_run m buf (buf + size - 1) Hm' string_at Hstr (S (length fmt)) fmt []
    (mk_pstate buf m args)) as (s & out & E & Hw); [apply written_nil|done|lia|done|].
  exists out. split.
  - unfold text_length. rewrite E. destruct Hw as [-> _]. cbn [app]. f_equal. lia.
  - intros Hlow. destruct (vsnprintf_end string_at buf size fmt args m out s Hs Hb Htop Hmap E Hw Hlow)
      as (m' & Er & Hf).
    exists m'. split_and!; [done|done|]. intros a Ha. rewrite Hf. cbv zeta.
    rewrite !bool_decide_eq_false_2 by lia. done.
Qed.

(** [print_number], where the field fits into the buffer, puts the sign
    and the digits of the number in the radix of [divide] (10, and 16 for every
    other base), most significant first, in a field of at least [s] characters
    filled on the right with blanks ([LEFT]), between the sign and the digits
    with zeros ([ZEROPAD]) or on the left with blanks; it changes nothing
    else. *)
Theorem print_number_correct end_ num base s type buf m va :
  - 2 ^ 31 ≤ num < 2 ^ 31 → mapped m buf (end_ - buf + 1) →
  buf + Z.of_nat (length (number_chars num base s type)) ≤ end_ + 1 → 0 ≤ buf → end_ + 1 < 2 ^ 32 →
  ∃ m', print_number (adv := pointer) end_ num base s type (mk_pstate buf m va) =
    Ok tt (mk_pstate (buf + Z.of_nat (length (number_chars num base s type))) m' va) ∧
    ∀ a, m' !! a = if bool_decide (buf ≤ a < buf + Z.of_nat (length (number_chars num base s type)))
      then u8 <$> number_chars num base s type !! Z.to_nat (a - buf) else m !! a.
Proof.
  intros Hn Hmap Hroom Hb Htop. destruct (print_number_run m buf end_ Hmap num base s type []
    (mk_pstate buf m va)) as (st & l & E & [Hp Hm] & Hv & Hl); [apply written_nil|done|].
  rewrite Hl in Hp, Hm by done. set (text := number_chars num base s type) in *. cbn [app] in *.
  exists (p_mem st). split.
  - apply same_number in E as [_ E]; [|cbn; lia]. rewrite E by lia.
    f_equal. destruct st as [str mem va']; cbn in *. by subst.
  - intros a. rewrite Hm. case_bool_decide as H1; case_bool_decide as H2; try lia; try done.
    + destruct (lookup_lt_is_Some_2 text (Z.to_nat (a - buf))) as [c ->]; [lia|done].
    + by rewrite lookup_ge_None_2 by lia.
Qed.

(** a number below [2^31] that [rt_snprintf] writes with ["%d"] into a
    buffer of at least eleven bytes is the one that [skip_atoi] reads back
    from the buffer, where it stops at the null character. *)
Theorem decimal_roundtrip string_at buf size n va m :
  0 ≤ n < 2 ^ 31 → 11 ≤ size → 0 < buf → buf + size ≤ 2 ^ 32 → mapped m buf size →
  ∃ k m', rt_snprintf string_at buf size fmt_d (n :: va) m = Ok (Z.of_nat k) m' ∧
    Z.of_nat k < size ∧
    ∀ s, skip_atoi (read_bytes m' buf (S k)) s = Ok (n, [0]) s.
Proof.
  intros Hn Hs Hb Htop Hmap.
  destruct (format_d_run string_at buf size n va m Hn Hs Hmap) as (st & E & Hw).
  pose proof (decimal_length n Hn) as Hlen.
  destruct (vsnprintf_end string_at buf size fmt_d (n :: va) m (decimal n) st) as (m' & Er & Hf);
    [lia|done..|lia|].
  exists (length (decimal n)), m'. rewrite s32_small in Er by lia.
  split_and!; [exact Er|lia|]. intros s.
  destruct (decimal_is n Hn) as (ds & Ed & Hd & Ev).
  rewrite (formatted_read m buf size (decimal n) m' Hf); [|lia|].
  2:{ rewrite Ed. apply Forall_fmap. eapply Forall_impl; [exact Hd|]. cbn. lia. }
  unfold skip_atoi. rewrite Ed, skip_atoi_digits; [|lia|done|lia]. by rewrite Ev.
Qed.

(** ** Instances *)
Definition blank_ram (n : nat) : gmap Z Z := list_to_map ((λ i, (Z.of_nat i, 170)) <$> seq 0 n).

Lemma blank_ram_mapped : mapped (blank_ram 64) 16 32.
Proof. apply mappedb_spec. vm_compute. reflexivity. Qed.

(** A string is ["ok"] wherever it is. *)
Definition ok_string (a : Z) : list Z := [111; 107; 0].
(** ["%+5d|%s"] *)
Definition demo_format : list Z := [37; 43; 53; 100; 124; 37; 115; 0].

Lemma vsnprintf_bounded_witness :
  text_length ok_string 16 32 demo_format (replicate 16 42) (blank_ram 64) = Some 8 ∧
  ∃ out, text_length ok_string 16 32 demo_format (replicate 16 42) (blank_ram 64) =
      Some (Z.of_nat (length out)) ∧
    (16 + Z.of_nat (length out) < 2 ^ 32 → ∃ m',
      rt_vsnprintf ok_string 16 32 demo_format (replicate 16 42) (blank_ram 64) =
        Ok (s32 (Z.of_nat (length out))) m' ∧
      formatted (blank_ram 64) 16 32 out m' ∧
      (∀ a, ¬ (16 ≤ a < 16 + 32) → m' !! a = blank_ram 64 !! a)).
Proof.
  split; [vm_compute; reflexivity|].
  apply (vsnprintf_bounded ok_string 16 32 demo_format (replicate 16 42) (blank_ram 64));
    [lia|lia|lia|exact blank_ram_mapped| | |].
  - unfold demo_format. set_solver.
  - cbn. lia.
  - intros a _. unfold ok_string. set_solver.
Defined.

Lemma print_number_correct_witness :
  number_chars 42 10 5 (Z.lor SIGN PLUS) = [32; 32; 43; 52; 50] ∧
  ∃ m', print_number (adv := pointer) 47 42 10 5 (Z.lor SIGN PLUS) (mk_pstate 16 (blank_ram 64) []) =
    Ok tt (mk_pstate 21 m' []) ∧
    ∀ a, m' !! a = if bool_decide (16 ≤ a < 21)
      then u8 <$> number_chars 42 10 5 (Z.lor SIGN PLUS) !! Z.to_nat (a - 16) else blank_ram 64 !! a.
Proof.
  split; [vm_compute; reflexivity|].
  apply (print_number_correct 47 42 10 5 (Z.lor SIGN PLUS) 16 (blank_ram 64) []);
    [lia|exact blank_ram_mapped|vm_compute; discriminate|lia|lia].
Defined.

Lemma decimal_roundtrip_witness :
  ∃ k m', rt_snprintf ok_string 16 32 fmt_d [2016] (blank_ram 64) = Ok (Z.of_nat k) m' ∧
    Z.of_nat k < 32 ∧ ∀ s, skip_atoi (read_bytes m' 16 (S k)) s = Ok (2016, [0]) s.
Proof.
  apply (decimal_roundtrip ok_string 16 32 2016 [] (blank_ram 64));
    [lia|lia|lia|lia|exact blank_ram_mapped].
Defined.

(** What a call leaves at address 16, and its result. *)
Definition printed (size : Z) (fmt args : list Z) (n : nat) : option (Z * list Z) :=
  match rt_snprintf ok_string 16 size fmt args (blank_ram 64) with
  | Ok r m => Some (r, read_bytes m 16 n)
  | Fault _ => None
  end.

(** ["%+5d|%s"] with 42 and a string is ["  +42|ok"]. *)
Example demo_printed :
  printed 32 demo_format [42; 4096] 9 = Some (8, [32; 32; 43; 52; 50; 124; 111; 107; 0]).
Proof. vm_compute. reflexivity. Qed.

(** ["%o"] with 8 is ["8"]: base 8 is divided by 16. *)
Example octal_is_hexadecimal : printed 32 [37; 111; 0] [8] 2 = Some (1, [56; 0]).
Proof. vm_compute. reflexivity. Qed.

(** With size 0 the end wraps to the last address and the text is written in
    full: six characters and a null character. *)
Example size_zero_writes :
  printed 0 [104; 101; 108; 108; 111; 33; 0] [] 7 = Some (6, [104; 101; 108; 108; 111; 33; 0]).
Proof. vm_compute. reflexivity. Qed.

(** ["aa%03d"] with -5 is ["aa-05"], five characters, where the sign fits into
    the buffer; where it is cut off it does not count for the field, and the
    result is 6. *)
Example length_depends_on_size :
  (fst <$> printed 32 [97; 97; 37; 48; 51; 100; 0] [2 ^ 32 - 5] 1,
   fst <$> printed 2 [97; 97; 37; 48; 51; 100; 0] [2 ^ 32 - 5] 1) = (Some 5, Some 6).
Proof. vm_compute. reflexivity. Qed.

(** A buffer of four bytes, sixteen bytes below the top of the address space,
    and the first byte of the address space. *)
Definition top_ram : gmap Z Z :=
  list_to_map ((λ a, (a, 170)) <$> [0; 2 ^ 32 - 16; 2 ^ 32 - 15; 2 ^ 32 - 14; 2 ^ 32 - 13]).

(** ["%16d"] into that buffer: the output position wraps to address 0, which is
    below the end of the buffer, and the null character is written there.  With
    ["%15d"] it does not wrap; with ["%17d"] the last digit goes to address 0 and
    the null character to address 1, where this memory ends. *)
Example wrap_writes_below :
  (match rt_snprintf ok_string (2 ^ 32 - 16) 4 [37; 49; 54; 100; 0] [7] top_ram with
   | Ok _ m => m !! 0
   | Fault _ => None
   end,
   match rt_snprintf ok_string (2 ^ 32 - 16) 4 [37; 49; 53; 100; 0] [7] top_ram with
   | Ok _ m => m !! 0
   | Fault _ => None
   end,
   match rt_snprintf ok_string (2 ^ 32 - 16) 4 [37; 49; 55; 100; 0] [7] top_ram with
   | Ok _ m => None
   | Fault f => Some f
   end) = (Some 0, Some 170, Some OutOfBounds).
Proof. vm_compute. reflexivity. Qed.
