(* ===== verification/Cpuport.v ===== *)
(** * Initial stack of a thread ([rtthread/libcpu/arm/cortex-m3/cpuport.c])

    [rt_hw_stack_init] builds, at the top of a stack, the frame that the first
    switch to the thread restores: [r4]-[r11] and the eight registers of an
    exception frame. *)

From S2P Require Import Prelude RtDef.

(** [struct stack_frame], as its sixteen words. *)
Definition SIZEOF_STACK_FRAME : Z := 64.

Definition rt_hw_stack_init (tentry parameter stack_addr texit : Z) : Z * list Z :=
  let stk := u32 (stack_addr + 4) in
  let stk := RT_ALIGN_DOWN stk 8 in
  let stk := u32 (stk - SIZEOF_STACK_FRAME) in
  (stk, replicate 8 0xdeadbeef ++
        [parameter; 0; 0; 0; 0; texit; tentry; 0x01000000]).

(** The bytes of a word, little endian. *)
Definition word_bytes (w : Z) : list Z :=
  [u8 w; u8 (Z.shiftr w 8); u8 (Z.shiftr w 16); u8 (Z.shiftr w 24)].

(** The stack filled with ['#'] by [rt_memset] and the frame stored at its
    address; [None] when the frame does not fit into the stack. *)
Definition init_stack_bytes (stack_addr stack_size sp : Z) (frame : list Z) : option (list Z) :=
  if (stack_addr <=? sp) && (sp + SIZEOF_STACK_FRAME <=? stack_addr + stack_size) then
    Some (list_inserts (Z.to_nat (sp - stack_addr)) (concat (word_bytes <$> frame))
            (replicate (Z.to_nat stack_size) 35))
  else None.

(** The frame fits, below the top and above the first byte, in a stack of at
    least 72 bytes. *)
Lemma stack_init_range stack_addr stack_size tentry parameter texit :
  72 ≤ stack_size → 0 ≤ stack_addr → stack_addr + stack_size < 2 ^ 32 →
  let sp := (rt_hw_stack_init tentry parameter (stack_addr + stack_size - 4) texit).1 in
  stack_addr < sp ∧ sp + SIZEOF_STACK_FRAME ≤ stack_addr + stack_size ∧ sp mod 8 = 0.
Proof.
  intros Hs Ha Ht. cbn. replace (stack_addr + stack_size - 4 + 4) with (stack_addr + stack_size) by lia.
  unfold u32. rewrite (wrap_small 32 (stack_addr + stack_size)) by lia.
  rewrite align_down_8 by lia. unfold SIZEOF_STACK_FRAME.
  pose proof (Z.div_mod (stack_addr + stack_size) 8). pose proof (Z.mod_pos_bound (stack_addr + stack_size) 8).
  rewrite wrap_small by lia. split_and!; [lia..|].
  replace (8 * ((stack_addr + stack_size) / 8) - 64)
    with (((stack_addr + stack_size) / 8 - 8) * 8) by lia. apply Z.mod_mul. lia.
Qed.

Lemma init_stack_head stack_addr stack_size sp frame l :
  init_stack_bytes stack_addr stack_size sp frame = Some l → stack_addr < sp → 0 < stack_size →
  head l = Some 35.
Proof.
  unfold init_stack_bytes. case_match; [|done]. intros [= <-] Hsp Hs.
  rewrite head_lookup, list_lookup_inserts_lt by lia.
  apply lookup_replicate. lia.
Qed.
