(* ===== verification/Scheduler.v ===== *)
(** * The scheduler ([rtthread/kernel/src/scheduler.c])

    The operations on the ready queues and their invariant [sched_wf]: which
    thread is on which list, and what the ready bitmap says.  [X] is a set of
    threads in transit, that an operation has taken off every list. *)

From S2P Require Import Prelude RtDef Mem KService Kernel.

(** ** Operations *)
Section ops.
Context {cfg : RTConfig}.

(** The loop of [rt_system_scheduler_init] over the priority table. *)
Fixpoint init_priority_table (n : nat) : K unit :=
  match n with
  | O => ret tt
  | S n => init_priority_table n ;;; tl_init (QReady (Z.of_nat n))
  end.

Definition rt_system_scheduler_init : K unit :=
  modify (set_rt_scheduler_lock_nest 0) ;;;
  init_priority_table (Z.to_nat RT_THREAD_PRIORITY_MAX) ;;;
  modify (set_rt_current_priority (RT_THREAD_PRIORITY_MAX - 1)) ;;;
  modify (set_rt_current_thread None) ;;;
  modify (set_rt_thread_ready_priority_group 0) ;;;
  tl_init QDefunct.

(** A thread whose first stack byte is no longer ['#'], or whose stack pointer
    left its stack, ends in [reboot()]; the message and the list of threads
    printed before it are output only. *)
Definition stack_overflow (th : rt_thread) : bool :=
  negb (bool_decide (head (th_stack th) = Some 35)) ||
  (th_sp th <=? th_stack_addr th) ||
  (u32 (th_stack_addr th + th_stack_size th) <? th_sp th).

Definition _rt_scheduler_stack_check (t : Z) : K unit :=
  let! th := get_thread t in
  if stack_overflow th then fail Reboot
  else when th_sp th <=? u32 (th_stack_addr th + 32) then emit (ev_kprintf_stack_warning t).

(** [highest_ready_priority = __rt_ffs(group) - 1] and the first thread of its
    queue. *)
Definition top_prio (g : Z) : Z := u32 (Ffs.__rt_ffs g - 1).
Definition highest_ready : K (Z * Z) :=
  let! g := read rt_thread_ready_priority_group in
  let! t := tl_first (QReady (top_prio g)) in
  ret (top_prio g, t).

Definition rt_system_scheduler_start : K unit :=
  let! (_, to) := highest_ready in
  modify (set_rt_current_thread (Some to)) ;;;
  rt_hw_context_switch_to to.

(** [&from_thread->sp] is an address even when there is no current thread. *)
Definition rt_schedule : K unit :=
  let! level := rt_hw_interrupt_disable in
  let! nest := read rt_scheduler_lock_nest in
  (if nest =? 0 then
     let! (prio, to) := highest_ready in
     let! cur := read rt_current_thread in
     if negb (bool_decide (cur = Some to)) then
       let from := default 0 cur in
       modify (set_rt_current_priority (u8 prio)) ;;;
       modify (set_rt_current_thread (Some to)) ;;;
       RT_OBJECT_HOOK_CALL rt_scheduler_hook (arg_switch from to) ;;;
       _rt_scheduler_stack_check to ;;;
       let! inest := read rt_interrupt_nest in
       if inest =? 0 then rt_hw_context_switch from to
       else rt_hw_context_switch_interrupt from to
     else ret tt
   else ret tt) ;;;
  rt_hw_interrupt_enable level.

Definition rt_schedule_insert_thread (t : Z) : K unit :=
  let! temp := rt_hw_interrupt_disable in
  upd_thread t (th_set_stat RT_THREAD_READY) ;;;
  let! th := get_thread t in
  tl_insert_before (QReady (th_current_priority th)) t ;;;
  modify (λ s, set_rt_thread_ready_priority_group
    (Z.lor (rt_thread_ready_priority_group s) (th_number_mask th)) s) ;;;
  rt_hw_interrupt_enable temp.

Definition rt_schedule_remove_thread (t : Z) : K unit :=
  let! temp := rt_hw_interrupt_disable in
  let! th := get_thread t in
  tl_unlink t ;;;
  let! e := tl_isempty (QReady (th_current_priority th)) in
  (when e then (modify (λ s, set_rt_thread_ready_priority_group
    (Z.land (rt_thread_ready_priority_group s) (u32 (Z.lnot (th_number_mask th)))) s))) ;;;
  rt_hw_interrupt_enable temp.

Definition rt_enter_critical : K unit :=
  let! level := rt_hw_interrupt_disable in
  modify (λ s, set_rt_scheduler_lock_nest (s16 (rt_scheduler_lock_nest s + 1)) s) ;;;
  rt_hw_interrupt_enable level.

Definition rt_exit_critical : K unit :=
  let! level := rt_hw_interrupt_disable in
  modify (λ s, set_rt_scheduler_lock_nest (s16 (rt_scheduler_lock_nest s - 1)) s) ;;;
  let! nest := read rt_scheduler_lock_nest in
  if nest <=? 0 then
    modify (set_rt_scheduler_lock_nest 0) ;;;
    rt_hw_interrupt_enable level ;;;
    rt_schedule
  else rt_hw_interrupt_enable level.

Definition rt_critical_level : K Z := gets (λ s, u16 (rt_scheduler_lock_nest s)).

End ops.

(** ** Which list a thread is on *)
Definition linked (L : gmap qid (list Z)) (q : qid) (t : Z) : Prop :=
  ∃ l, L !! q = Some l ∧ t ∈ l.

(** What being on the list of [q] says about a thread. *)
Definition stat_on (q : qid) (th : rt_thread) : Prop :=
  match q with
  | QReady p => th_stat th = RT_THREAD_READY ∧ th_current_priority th = p
  | QSuspend _ | QSender _ => th_stat th = RT_THREAD_SUSPEND
  | QDefunct => th_stat th = RT_THREAD_CLOSE
  end.

Definition prio_ok (th : rt_thread) : Prop :=
  0 ≤ th_current_priority th < RT_THREAD_PRIORITY_MAX ∧
  th_number_mask th = 2 ^ th_current_priority th.

Definition started (th : rt_thread) : Prop :=
  th_stat th = RT_THREAD_READY ∨ th_stat th = RT_THREAD_SUSPEND.

Record sched_wf (X : gset Z) (ths : gmap Z rt_thread) (L : gmap qid (list Z)) (g : Z)
    : Prop := {
  sw_table : ∀ p, is_Some (L !! QReady p) ↔ 0 ≤ p < RT_THREAD_PRIORITY_MAX;
  sw_nodup : ∀ q l, L !! q = Some l → NoDup l;
  sw_uniq : ∀ q q' t, linked L q t → linked L q' t → q = q';
  sw_stat : ∀ q t, linked L q t → t ∉ X ∧ ∃ th, ths !! t = Some th ∧ stat_on q th;
  sw_ready : ∀ t th, ths !! t = Some th → t ∉ X → th_stat th = RT_THREAD_READY →
    linked L (QReady (th_current_priority th)) t;
  sw_prio : ∀ t th, ths !! t = Some th → t ∉ X → started th → prio_ok th;
  sw_group : ∀ p, 0 ≤ p → Z.testbit g p = true ↔ ∃ t, linked L (QReady p) t;
  sw_range : 0 ≤ g < 2 ^ 32
}.

Abbreviation swf X s :=
  (sched_wf X (threads s) (tlists s) (rt_thread_ready_priority_group s)).

(** ** Links *)
Lemma linked_remove L q t u : linked (tl_remove u L) q t ↔ linked L q t ∧ t ≠ u.
Proof.
  unfold linked, tl_remove. setoid_rewrite lookup_fmap_Some. split.
  - intros (l & (l0 & <- & Hl) & Ht). apply list_elem_of_filter in Ht. naive_solver.
  - intros ((l & Hl & Ht) & Hne). eexists; split; [eauto|].
    by apply list_elem_of_filter.
Qed.

Lemma linked_insert L q l l0 q' t u :
  L !! q = Some l0 → (∀ x, x ∈ l ↔ x = u ∨ x ∈ l0) →
  linked (<[q := l]> L) q' t ↔ linked L q' t ∨ (q' = q ∧ t = u).
Proof.
  intros Hq Hl. unfold linked. destruct (decide (q' = q)) as [->|Hne].
  - setoid_rewrite lookup_insert_eq. split.
    + intros (? & [= <-] & Ht). apply Hl in Ht as [->|Ht]; eauto.
    + intros [(l' & ? & ?)|[_ ->]]; simplify_eq; eexists; (split; [done|]);
        apply Hl; eauto.
  - setoid_rewrite lookup_insert_ne; [|done]. naive_solver.
Qed.

Lemma unlinked_spec t L : unlinked t L ↔ ∀ q, ¬ linked L q t.
Proof.
  unfold unlinked, linked. rewrite map_Forall_lookup. naive_solver.
Qed.

Lemma unlinked_remove t L : unlinked t (tl_remove t L).
Proof. apply unlinked_spec. intros q [_ ?]%linked_remove. done. Qed.

Lemma tl_remove_lookup t L q : tl_remove t L !! q = filter (λ x, x ≠ t) <$> L !! q.
Proof. apply lookup_fmap. Qed.

Lemma tl_remove_Some t L q l :
  L !! q = Some l → tl_remove t L !! q = Some (filter (λ x, x ≠ t) l).
Proof. intros Hl. by rewrite tl_remove_lookup, Hl. Qed.

Lemma linked_nil L q l : L !! q = Some l → l = [] ↔ ∀ t, ¬ linked L q t.
Proof.
  intros Hq. unfold linked. split.
  - intros Hnil t (l' & Hl & Ht). simplify_eq. by apply elem_of_nil in Ht.
  - intros Hn. destruct l as [|t l]; [done|]. exfalso. apply (Hn t).
    eexists; split; [done|]. left.
Qed.

(** ** Bits of the ready group *)
Lemma group_set_bit g p q : 0 ≤ p → 0 ≤ q →
  Z.testbit (Z.lor g (2 ^ p)) q = Z.testbit g q || bool_decide (q = p).
Proof.
  intros Hp Hq. rewrite Z.lor_spec, Z.pow2_bits_eqb by lia. f_equal.
  case_bool_decide; lia.
Qed.

Lemma group_clear_bit g p q : 0 ≤ p < 32 → 0 ≤ q → 0 ≤ g < 2 ^ 32 →
  Z.testbit (Z.land g (u32 (Z.lnot (2 ^ p)))) q = Z.testbit g q && negb (bool_decide (q = p)).
Proof.
  intros Hp Hq Hg. rewrite Z.land_spec. unfold u32, wrap.
  destruct (Z.ltb_spec q 32).
  - rewrite Z.mod_pow2_bits_low, Z.lnot_spec, Z.pow2_bits_eqb by lia. f_equal. f_equal.
    case_bool_decide; lia.
  - by rewrite (testbit_high 32 g q).
Qed.

Lemma group_set_range g p : 0 ≤ p < 32 → 0 ≤ g < 2 ^ 32 → 0 ≤ Z.lor g (2 ^ p) < 2 ^ 32.
Proof.
  intros Hp Hg. apply lor_range; [lia|done|]. split; [lia|].
  apply Z.pow_lt_mono_r; lia.
Qed.

Lemma group_set_id g p : 0 ≤ p → Z.testbit g p = true → Z.lor g (2 ^ p) = g.
Proof.
  intros Hp Hg. apply Z.bits_inj'. intros q Hq. rewrite group_set_bit by done.
  case_bool_decide; [by subst; rewrite Hg|apply orb_false_r].
Qed.

Lemma list_filter_all_id {A} (P : A → Prop) `{!∀ x, Decision (P x)} (l : list A) :
  (∀ x, x ∈ l → P x) → filter P l = l.
Proof.
  induction l as [|y l IH]; intros Hl; [done|].
  rewrite filter_cons_True by (apply Hl; left). f_equal. apply IH. intros. apply Hl. by right.
Qed.

Lemma filter_ne_perm (t : Z) (l : list Z) : NoDup l → t ∈ l → filter (λ x, x ≠ t) l ++ [t] ≡ₚ l.
Proof.
  intros Hn Ht. induction l as [|y l IH]; [by apply elem_of_nil in Ht|].
  apply NoDup_cons in Hn as [Hy Hn]. destruct (decide (y = t)) as [->|Hne].
  - rewrite filter_cons_False by tauto. rewrite list_filter_all_id by naive_solver.
    by rewrite Permutation_app_comm.
  - rewrite filter_cons_True by done. simpl. rewrite IH; [done|done|]. set_solver.
Qed.

(** ** How the invariant moves *)
Section moves.
Context (X : gset Z) (ths : gmap Z rt_thread) (L : gmap qid (list Z)) (g : Z).
Hypothesis Hwf : sched_wf X ths L g.

Lemma swf_transit_unlinked t : t ∈ X → unlinked t L.
Proof. intros Ht. apply unlinked_spec. intros q Hq. by apply (sw_stat _ _ _ _ Hwf) in Hq as [? _]. Qed.

(** The group after thread [t] of record [th] left the lists. *)
Definition remove_group (t : Z) (th : rt_thread) : Z :=
  if decide (tl_remove t L !! QReady (th_current_priority th) = Some [])
  then Z.land g (u32 (Z.lnot (th_number_mask th))) else g.

Lemma swf_remove t th :
  ths !! t = Some th → prio_ok th →
  sched_wf ({[t]} ∪ X) ths (tl_remove t L) (remove_group t th).
Proof.
  intros Ht [Hp Hm]. destruct Hwf as [Htab Hnd Hun Hst Hrd Hpr Hg Hr].
  split.
  - intros p. rewrite tl_remove_lookup, fmap_is_Some. apply Htab.
  - intros q l. rewrite tl_remove_lookup. intros (l0 & ? & ->)%fmap_Some.
    apply NoDup_filter. eauto.
  - intros q q' u [? _]%linked_remove [? _]%linked_remove. eauto.
  - intros q u [Hu Hne]%linked_remove. apply Hst in Hu as [? ?]. set_solver.
  - intros u th' ? ? ?. apply linked_remove. split; [apply Hrd; set_solver|set_solver].
  - intros u th' ? ?. apply (Hpr u); set_solver.
  - intros p Hp0. unfold remove_group. rewrite Hm. unfold RT_THREAD_PRIORITY_MAX in Hp.
    destruct (decide (p = th_current_priority th)) as [->|Hne].
    + destruct (proj2 (Htab (th_current_priority th)) Hp) as [l0 Hl0].
      case_decide as Hd.
      * rewrite group_clear_bit, bool_decide_eq_true_2 by done. rewrite andb_false_r.
        pose proof (proj1 (linked_nil _ _ _ Hd) eq_refl). naive_solver.
      * rewrite Hg by lia. rewrite tl_remove_lookup, Hl0 in Hd. simpl in Hd.
        destruct (filter (λ x, x ≠ t) l0) as [|u l] eqn:Hf; [done|]. clear Hd.
        assert (u ∈ filter (λ x, x ≠ t) l0) as Hu by (rewrite Hf; left).
        apply list_elem_of_filter in Hu as [? ?].
        split; intros _; exists u; [apply linked_remove; split; [|done]|]; by exists l0.
    + assert (Z.testbit (if decide (tl_remove t L !! QReady (th_current_priority th) = Some [])
        then Z.land g (u32 (Z.lnot (2 ^ th_current_priority th))) else g) p = Z.testbit g p)
        as ->.
      { case_decide; [|done].
        rewrite group_clear_bit, bool_decide_eq_false_2 by done. apply andb_true_r. }
      rewrite Hg by done. split; intros [u Hu]; exists u.
      * apply linked_remove. split; [done|]. intros ->. apply Hne.
        destruct (Hst _ _ Hu) as (_ & th' & ? & _ & ?). by simplify_eq.
      * by apply linked_remove in Hu as [? _].
  - unfold remove_group. case_decide; [|done]. apply land_range; [lia|done].
Qed.

(** A thread that is not ready leaves its list. *)
Lemma swf_unlink t :
  (∀ p, ¬ linked L (QReady p) t) → (∀ th, ths !! t = Some th → th_stat th ≠ RT_THREAD_READY) →
  sched_wf ({[t]} ∪ X) ths (tl_remove t L) g.
Proof.
  intros Ht Hs. destruct Hwf as [Htab Hnd Hun Hst Hrd Hpr Hg Hr]. split.
  - intros p. rewrite tl_remove_lookup, fmap_is_Some. apply Htab.
  - intros q l. rewrite tl_remove_lookup. intros (l0 & ? & ->)%fmap_Some.
    apply NoDup_filter. eauto.
  - intros q q' u [? _]%linked_remove [? _]%linked_remove. eauto.
  - intros q u [Hu Hne]%linked_remove. apply Hst in Hu as [? ?]. set_solver.
  - intros u th' ? ? ?. apply linked_remove. split; [apply Hrd; set_solver|set_solver].
  - intros u th' ? ?. apply (Hpr u); set_solver.
  - intros p Hp. rewrite Hg by done. split; intros [u Hu]; exists u.
    + apply linked_remove. split; [done|]. intros ->. by apply (Ht p).
    + by apply linked_remove in Hu as [? _].
  - done.
Qed.

(** A thread on no list can be taken in transit. *)
Lemma swf_enter t :
  unlinked t L → (∀ th, ths !! t = Some th → th_stat th ≠ RT_THREAD_READY) →
  sched_wf ({[t]} ∪ X) ths L g.
Proof.
  intros Ht Hs. rewrite unlinked_spec in Ht.
  destruct Hwf as [Htab Hnd Hun Hst Hrd Hpr Hg Hr]. split; try done.
  - intros q u Hu. pose proof Hu as Hu'. apply Hst in Hu as [? ?].
    split; [|done]. assert (u ≠ t) by (intros ->; by apply (Ht q)). set_solver.
  - intros u th' ? ? ?. apply Hrd; set_solver.
  - intros u th' ? ?. apply (Hpr u); set_solver.
Qed.

Lemma swf_not_ready_unlinked t th :
  ths !! t = Some th → th_stat th ≠ RT_THREAD_READY → ∀ p, ¬ linked L (QReady p) t.
Proof.
  intros Ht Hs p Hl. apply (sw_stat _ _ _ _ Hwf) in Hl as (_ & th' & ? & ? & _). by simplify_eq.
Qed.

Lemma swf_inactive_unlinked t th :
  ths !! t = Some th → th_stat th = RT_THREAD_INIT → unlinked t L.
Proof.
  intros Ht Hs. apply unlinked_spec. intros q Hl.
  apply (sw_stat _ _ _ _ Hwf) in Hl as (_ & th' & ? & Hq). simplify_eq.
  destruct q; simpl in Hq; rewrite Hs in Hq; [by destruct Hq|done..].
Qed.

Lemma swf_ready_queue p : 0 ≤ p < RT_THREAD_PRIORITY_MAX → is_Some (L !! QReady p).
Proof. apply (sw_table _ _ _ _ Hwf). Qed.

Lemma swf_transit_update t th : t ∈ X → sched_wf X (<[t := th]> ths) L g.
Proof.
  intros Ht. destruct Hwf as [Htab Hnd Hun Hst Hrd Hpr Hg Hr]. split; try done.
  - intros q u Hu. apply Hst in Hu as (HuX & th' & ? & ?). split; [done|].
    exists th'. rewrite lookup_insert_ne by set_solver. done.
  - intros u th' Hu ? ?. rewrite lookup_insert_ne in Hu by set_solver. eauto.
  - intros u th' Hu ? ?. rewrite lookup_insert_ne in Hu by set_solver. eauto.
Qed.

(** A field the scheduler does not look at. *)
Lemma swf_update t th th' :
  ths !! t = Some th → th_stat th' = th_stat th →
  th_current_priority th' = th_current_priority th →
  th_number_mask th' = th_number_mask th →
  sched_wf X (<[t := th']> ths) L g.
Proof.
  intros Ht Es Ep Em. destruct Hwf as [Htab Hnd Hun Hst Hrd Hpr Hg Hr]. split; try done.
  - intros q u Hu. apply Hst in Hu as (HuX & th0 & Hu & Hq). split; [done|].
    destruct (decide (t = u)) as [->|].
    + exists th'. rewrite lookup_insert_eq. simplify_eq. split; [done|].
      destruct q; simpl in *; rewrite ?Es, ?Ep; done.
    + exists th0. by rewrite lookup_insert_ne.
  - intros u th0 [[-> <-]|[? ?]]%lookup_insert_Some; [|eauto].
    rewrite Es, Ep. eauto.
  - intros u th0 [[-> <-]|[? ?]]%lookup_insert_Some; [|eauto].
    unfold started, prio_ok. rewrite Es, Ep, Em. intros. eapply Hpr; eauto.
Qed.

(** A queue in another order. *)
Lemma swf_permute q l l' :
  L !! q = Some l → l' ≡ₚ l → sched_wf X ths (<[q := l']> L) g.
Proof.
  intros Hl Hp.
  assert (∀ q' u, linked (<[q := l']> L) q' u ↔ linked L q' u) as Hlk.
  { intros q' u. unfold linked. destruct (decide (q = q')) as [<-|].
    - rewrite lookup_insert_eq, Hl. split; intros (? & [= <-] & ?); eexists; (split; [done|]);
        [by rewrite <- Hp|by rewrite Hp].
    - by rewrite lookup_insert_ne. }
  destruct Hwf as [Htab Hnd Hun Hst Hrd Hpr Hg Hr]. split; try done.
  - intros p. rewrite <- Htab, lookup_insert. case_decide; [|done]. subst. rewrite Hl. naive_solver.
  - intros q0 l0 [[-> <-]|[? ?]]%lookup_insert_Some; [rewrite Hp|]; eauto.
  - intros q1 q2 u ?%Hlk ?%Hlk. eauto.
  - intros q' u ?%Hlk. eauto.
  - intros. apply Hlk. eauto.
  - intros p Hp0. rewrite Hg by done. by setoid_rewrite Hlk.
Qed.

(** A thread is on one list only: taking it off concerns that list. *)
Lemma tl_remove_queue q l t :
  L !! q = Some l → t ∈ l → tl_remove t L = <[q := filter (λ x, x ≠ t) l]> L.
Proof.
  intros Hl Ht. apply map_eq. intros q'. rewrite tl_remove_lookup, lookup_insert.
  case_decide as Hq; [subst; by rewrite Hl|].
  destruct (L !! q') as [l'|] eqn:E; [|done]. simpl. f_equal. apply list_filter_all_id.
  intros u Hu ->. apply Hq. eapply (sw_uniq _ _ _ _ Hwf); by eexists.
Qed.

(** The priority of a thread that is not ready. *)
Lemma swf_set_prio t th p m :
  ths !! t = Some th → th_stat th ≠ RT_THREAD_READY →
  (started th → 0 ≤ p < RT_THREAD_PRIORITY_MAX ∧ m = 2 ^ p) →
  sched_wf X (<[t := th_set_prio p m th]> ths) L g.
Proof.
  intros Ht Hs Hp. destruct Hwf as [Htab Hnd Hun Hst Hrd Hpr Hg Hr]. split; try done.
  - intros q u Hu. apply Hst in Hu as (HuX & th0 & Hu & Hq). split; [done|].
    destruct (decide (t = u)) as [->|].
    + eexists. rewrite lookup_insert_eq. simplify_eq. split; [done|].
      destruct q; simpl in *; naive_solver.
    + exists th0. by rewrite lookup_insert_ne.
  - intros u th0 [[-> <-]|[? ?]]%lookup_insert_Some; [|eauto]. done.
  - intros u th0 [[-> <-]|[? ?]]%lookup_insert_Some; [|eauto]. intros _ Hst'. by apply Hp.
Qed.

Lemma swf_insert q l l' t th :
  t ∈ X → ths !! t = Some th → stat_on q th → (started th → prio_ok th) →
  L !! q = Some l → l' ≡ₚ t :: l →
  sched_wf (X ∖ {[t]}) ths (<[q := l']> L)
    (match q with QReady _ => Z.lor g (th_number_mask th) | _ => g end).
Proof.
  intros HX Ht Hq Hpo Hl Hl'. pose proof (proj1 (unlinked_spec _ _) (swf_transit_unlinked _ HX)) as Hu.
  assert (∀ q' u, linked (<[q := l']> L) q' u ↔ linked L q' u ∨ (q' = q ∧ u = t)) as Hlk.
  { intros q' u. eapply linked_insert; [done|]. intros x. rewrite Hl'. apply elem_of_cons. }
  destruct Hwf as [Htab Hnd Hun Hst Hrd Hpr Hg Hr]. split.
  - intros p. rewrite <- Htab, lookup_insert. case_decide; [|done].
    subst. rewrite Hl. naive_solver.
  - intros q0 l0 [[-> <-]|[? ?]]%lookup_insert_Some; [|eauto].
    rewrite Hl'. apply NoDup_cons. split; [|eauto].
    intros ?. apply (Hu q0). by exists l.
  - intros q1 q2 u [?|[-> ->]]%Hlk [?|[-> ?]]%Hlk; subst; try done; eauto; naive_solver.
  - intros q' u [Hlu|[-> ->]]%Hlk.
    + apply Hst in Hlu as [? ?]. set_solver.
    + split; [set_solver|]. eauto.
  - intros u th' Hu' HuX Hs. apply Hlk. destruct (decide (u = t)) as [->|].
    + right. simplify_eq. destruct q; simpl in Hq;
        [by destruct Hq as [? <-]|rewrite Hs in Hq; discriminate..].
    + left. apply Hrd; set_solver.
  - intros u th' Hu' HuX Hs. destruct (decide (u = t)) as [->|].
    + simplify_eq. auto.
    + apply (Hpr u); set_solver.
  - intros p Hp. destruct q as [p0|p0|p0|].
    + simpl in Hq. destruct Hq as [Hs <-]. destruct Hpo as [Hp1 Hm]; [by left|].
      rewrite Hm, group_set_bit by (unfold RT_THREAD_PRIORITY_MAX in *; lia).
      rewrite orb_true_iff, Hg, bool_decide_eq_true by lia. split.
      * intros [[u Hlu]| ->]; [exists u|exists t]; apply Hlk; eauto.
      * intros [u [?|[Heq ->]]%Hlk]; [left; eauto|right]. by simplify_eq.
    + rewrite Hg by lia. split; intros [u Hlu]; exists u;
        [apply Hlk; eauto|apply Hlk in Hlu as [?|[? _]]; [done|discriminate]].
    + rewrite Hg by lia. split; intros [u Hlu]; exists u;
        [apply Hlk; eauto|apply Hlk in Hlu as [?|[? _]]; [done|discriminate]].
    + rewrite Hg by lia. split; intros [u Hlu]; exists u;
        [apply Hlk; eauto|apply Hlk in Hlu as [?|[? _]]; [done|discriminate]].
  - destruct q; try done. simpl in Hq. destruct Hpo as [Hp1 Hm]; [by left; destruct Hq|].
    rewrite Hm. apply group_set_range; done.
Qed.

(** A thread in transit that stays off every list. *)
Lemma swf_drop t :
  (∀ th, ths !! t = Some th → th_stat th ≠ RT_THREAD_READY ∧ (started th → prio_ok th)) →
  sched_wf (X ∖ {[t]}) ths L g.
Proof.
  intros Ht. destruct Hwf as [Htab Hnd Hun Hst Hrd Hpr Hg Hr]. split; try done.
  - intros q u Hu. apply Hst in Hu as [? ?]. set_solver.
  - intros u th Hu ? ?. destruct (decide (u = t)) as [->|].
    + by apply Ht in Hu as [? _].
    + apply Hrd; set_solver.
  - intros u th Hu ? ?. destruct (decide (u = t)) as [->|].
    + apply Ht in Hu as [_ ?]. auto.
    + apply (Hpr u); set_solver.
Qed.

Lemma swf_prio_of t th :
  ths !! t = Some th → t ∉ X → started th → prio_ok th.
Proof. intros. by eapply (sw_prio _ _ _ _ Hwf). Qed.
End moves.

(** ** What the two queue operations do *)
Definition sched_remove (t : Z) (th : rt_thread) (s : kstate) : kstate :=
  set_rt_thread_ready_priority_group
    (remove_group (tlists s) (rt_thread_ready_priority_group s) t th)
    (set_tlists (tl_remove t (tlists s)) s).

Definition sched_insert (t : Z) (th : rt_thread) (l : list Z) (s : kstate) : kstate :=
  set_rt_thread_ready_priority_group
    (Z.lor (rt_thread_ready_priority_group s) (th_number_mask th))
    (set_tlists (<[QReady (th_current_priority th) := l ++ [t]]> (tlists s))
      (set_threads (<[t := th_set_stat RT_THREAD_READY th]> (threads s)) s)).

Section runs.
Context {cfg : RTConfig}.

Lemma remove_thread_run s t th l :
  threads s !! t = Some th → tlists s !! QReady (th_current_priority th) = Some l →
  rt_schedule_remove_thread t s = Ok tt (sched_remove t th s).
Proof.
  intros Ht Hl. unfold rt_schedule_remove_thread, tl_isempty, tl_get, tl_unlink. krun.
  rewrite Ht. krun. rewrite (tl_remove_Some _ _ _ _ Hl). krun.
  unfold sched_remove, remove_group. rewrite (tl_remove_Some _ _ _ _ Hl).
  destruct (filter (λ x, x ≠ t) l); reflexivity.
Qed.

Lemma insert_thread_run s t th l :
  threads s !! t = Some th → unlinked t (tlists s) →
  tlists s !! QReady (th_current_priority th) = Some l →
  rt_schedule_insert_thread t s = Ok tt (sched_insert t th l s).
Proof.
  intros Ht Hu Hl.
  unfold rt_schedule_insert_thread, upd_thread, tl_insert_before, check_unlinked, tl_get, tl_put.
  krun. rewrite Ht. krun. rewrite lookup_insert_eq. krun.
  rewrite decide_True by done. krun.
  change (th_current_priority (th_set_stat RT_THREAD_READY th)) with (th_current_priority th).
  rewrite Hl. reflexivity.
Qed.


(** ** What [rt_schedule] does *)

(** The switch that is due: its priority and its thread. *)
Definition schedule_to (s : kstate) : option (Z * Z) :=
  if rt_scheduler_lock_nest s =? 0 then
    match tlists s !! QReady (top_prio (rt_thread_ready_priority_group s)) with
    | Some (to :: _) =>
      if decide (rt_current_thread s = Some to) then None
      else Some (top_prio (rt_thread_ready_priority_group s), to)
    | _ => None
    end
  else None.

Definition schedule_events (s : kstate) : list kevent :=
  match schedule_to s with
  | None => []
  | Some (_, to) =>
    let from := default 0 (rt_current_thread s) in
    hook_events rt_scheduler_hook (arg_switch from to) s ++
    (if (match threads s !! to with
         | Some th => th_sp th <=? u32 (th_stack_addr th + 32) | None => false end)
     then [ev_kprintf_stack_warning to] else []) ++
    [if rt_interrupt_nest s =? 0 then ev_context_switch from to
     else ev_context_switch_interrupt from to]
  end.

Definition schedule_state (s : kstate) : kstate :=
  set_rt_current_priority
    (match schedule_to s with Some (p, _) => u8 p | None => rt_current_priority s end)
    (set_rt_current_thread
      (match schedule_to s with Some (_, t) => Some t | None => rt_current_thread s end)
      (set_trace (trace s ++ schedule_events s) s)).

(** The scheduler is locked, or the thread it will choose exists and its stack
    is intact. *)
Definition can_schedule (s : kstate) : Prop :=
  rt_scheduler_lock_nest s = 0 →
  ∃ to l th, tlists s !! QReady (top_prio (rt_thread_ready_priority_group s)) = Some (to :: l) ∧
             threads s !! to = Some th ∧ stack_overflow th = false.

Lemma schedule_run s : can_schedule s → rt_schedule s = Ok tt (schedule_state s).
Proof.
  intros Hc. unfold rt_schedule, schedule_state, schedule_events, schedule_to.
  krun. destruct (Z.eqb_spec (rt_scheduler_lock_nest s) 0) as [Hn|Hn].
  2:{ by rewrite app_nil_r. }
  destruct (Hc Hn) as (to & l & th & Hl & Ht & Hs).
  unfold highest_ready, tl_first, tl_get. krun. rewrite Hl. krun.
  destruct (decide (rt_current_thread s = Some to)) as [Hcur|Hcur].
  { rewrite bool_decide_eq_true_2 by done. krun. by rewrite app_nil_r. }
  rewrite bool_decide_eq_false_2 by done. krun.
  unfold _rt_scheduler_stack_check. krun. rewrite Ht. krun. rewrite Hs. krun.
  destruct (th_sp th <=? u32 (th_stack_addr th + 32)); krun;
    destruct (rt_interrupt_nest s =? 0); krun; by rewrite <- !app_assoc.
Qed.

End runs.

(** ** What is always schedulable *)

Lemma group_top X ths L g :
  sched_wf X ths L g → (∃ p t, linked L (QReady p) t) →
  Ffs.is_lowest g (top_prio g) ∧ 0 ≤ top_prio g < 32.
Proof.
  intros Hwf (p & t & Ht).
  assert (0 ≤ p < RT_THREAD_PRIORITY_MAX) as Hp.
  { apply (sw_table _ _ _ _ Hwf). destruct Ht as (l & Hl & _). by exists l. }
  assert (g ≠ 0) as Hg.
  { intros ->. pose proof (proj2 (sw_group _ _ _ _ Hwf p ltac:(lia)) ltac:(eauto)) as Hb.
    by rewrite Z.bits_0 in Hb. }
  pose proof (sw_range _ _ _ _ Hwf) as Hr.
  destruct (Ffs.ffs_lowest g ltac:(lia)) as [Hl H32].
  unfold top_prio, u32. rewrite wrap_small; [split; [done|]|]; destruct Hl; lia.
Qed.

(** The highest ready priority has a first thread. *)
Lemma top_queue X ths L g :
  sched_wf X ths L g → (∃ p t, linked L (QReady p) t) →
  ∃ to l th, L !! QReady (top_prio g) = Some (to :: l) ∧ to ∉ X ∧ ths !! to = Some th ∧
    th_stat th = RT_THREAD_READY ∧ th_current_priority th = top_prio g.
Proof.
  intros Hwf Hex. destruct (group_top _ _ _ _ Hwf Hex) as [(Hk & Ht & _) ?].
  apply (sw_group _ _ _ _ Hwf) in Ht as (u & l & Hl & Hu); [|done].
  destruct l as [|to l]; [by apply elem_of_nil in Hu|].
  assert (linked L (QReady (top_prio g)) to) as Hlk by (eexists; split; [done|left]).
  apply (sw_stat _ _ _ _ Hwf) in Hlk as (? & th & ? & ? & ?). by exists to, l, th.
Qed.

Lemma can_schedule_wf X s :
  swf X s → (∃ p t, linked (tlists s) (QReady p) t) →
  (∀ t th, threads s !! t = Some th → t ∉ X → started th → stack_overflow th = false) →
  can_schedule s.
Proof.
  intros Hwf Hex Hst _.
  destruct (top_queue _ _ _ _ Hwf Hex) as (to & l & th & ? & ? & ? & Hr & _).
  exists to, l, th. split_and!; [done..|]. eapply Hst; [done..|]. by left.
Qed.

(** Unless the scheduler is locked, the current thread is the first of the
    highest ready priority. *)
Definition highest_runs (s : kstate) : Prop :=
  rt_scheduler_lock_nest s = 0 →
  ∃ t l, rt_current_thread s = Some t ∧
         tlists s !! QReady (top_prio (rt_thread_ready_priority_group s)) = Some (t :: l).

Lemma schedule_highest s : can_schedule s → highest_runs (schedule_state s).
Proof.
  intros Hc Hn. change (rt_scheduler_lock_nest (schedule_state s)) with
    (rt_scheduler_lock_nest s) in Hn.
  destruct (Hc Hn) as (to & l & th & Hl & _). exists to, l. split; [|exact Hl].
  unfold schedule_state, schedule_to. ksg. rewrite Hn, Hl. cbn.
  by case_decide.
Qed.
