(* ===== verification/RtList.v ===== *)
(** * Circular doubly linked lists ([rtthread/kernel/include/rtservice.h])

    The inline list functions of the kernel on nodes in memory, and the proof
    that they implement the view the other files have of the lists of threads:
    a finite map from list heads to lists of threads ([Kernel.tlists]). *)

From S2P Require Import Prelude RtDef SortedList Mem KService Kernel Cpuport Scheduler.

(** ** Operations *)

(** [struct rt_list_node], and the nodes in memory by their addresses. *)
Record rt_list_node := mk_node { next : Z; prev : Z }.
Abbreviation nodes := (gmap Z rt_list_node).

Definition get_node (a : Z) : M nodes rt_list_node :=
  let! m := gets (λ m, m) in from_option NullDeref (m !! a).
Definition set_next (a v : Z) (m : nodes) : nodes := alter (λ n, mk_node v (prev n)) a m.
Definition set_prev (a v : Z) (m : nodes) : nodes := alter (λ n, mk_node (next n) v) a m.
(** [a->next = v] and [a->prev = v] *)
Definition put_next (a v : Z) : M nodes unit := get_node a ;;; modify (set_next a v).
Definition put_prev (a v : Z) : M nodes unit := get_node a ;;; modify (set_prev a v).

(** [a->next] and [a->prev] *)
Definition get_next (a : Z) : M nodes Z := let! x := get_node a in ret (next x).
Definition get_prev (a : Z) : M nodes Z := let! x := get_node a in ret (prev x).

Definition rt_list_init (l : Z) : M nodes unit :=
  put_prev l l ;;; put_next l l.

Definition rt_list_insert_after (l n : Z) : M nodes unit :=
  let! x := get_next l in put_prev x n ;;;
  let! x := get_next l in put_next n x ;;;
  put_next l n ;;;
  put_prev n l.

Definition rt_list_insert_before (l n : Z) : M nodes unit :=
  let! x := get_prev l in put_next x n ;;;
  let! x := get_prev l in put_prev n x ;;;
  put_prev l n ;;;
  put_next n l.

Definition rt_list_remove (n : Z) : M nodes unit :=
  let! x := get_next n in let! p := get_prev n in put_prev x p ;;;
  let! p := get_prev n in let! x := get_next n in put_next p x ;;;
  put_prev n n ;;;
  put_next n n.

Definition rt_list_isempty (l : Z) : M nodes bool :=
  let! x := get_next l in ret (x =? l).

(** [rt_list_entry(node, type, member)], [offset] being that of the member. *)
Definition rt_list_entry (node offset : Z) : Z := node - offset.

(** ** Segments of lists *)

(** [a->next == b] and [b->prev == a] *)
Definition link (m : nodes) (a b : Z) : Prop :=
  (next <$> m !! a) = Some b ∧ (prev <$> m !! b) = Some a.

(** From [a] the pointers lead through the nodes [l] to [b], and back. *)
Fixpoint dlseg (m : nodes) (a : Z) (l : list Z) (b : Z) : Prop :=
  match l with
  | [] => link m a b
  | x :: l => link m a x ∧ dlseg m x l b
  end.

(** The circular list through [h] and then the nodes [l]. *)
Definition circle (m : nodes) (h : Z) (l : list Z) : Prop := dlseg m h l h ∧ NoDup (h :: l).

Section segments.
Context (m : nodes).

Lemma dlseg_app a l1 x l2 b : dlseg m a (l1 ++ x :: l2) b ↔ dlseg m a l1 x ∧ dlseg m x l2 b.
Proof.
  revert a. induction l1 as [|y l1 IH]; intros a; simpl; [done|]. rewrite IH. tauto.
Qed.

Lemma dlseg_snoc a l x b : dlseg m a (l ++ [x]) b ↔ dlseg m a l x ∧ link m x b.
Proof. apply (dlseg_app a l x []). Qed.

(** A circle may be entered at any of its nodes. *)
Lemma circle_rotate h l1 x l2 : circle m h (l1 ++ x :: l2) ↔ circle m x (l2 ++ h :: l1).
Proof.
  unfold circle. rewrite !dlseg_app.
  assert (h :: l1 ++ x :: l2 ≡ₚ x :: l2 ++ h :: l1) as ->; [|tauto].
  rewrite <- !Permutation_middle, (Permutation_app_comm l1). by rewrite Permutation_swap.
Qed.

Lemma link_nodes a b : link m a b → is_Some (m !! a) ∧ is_Some (m !! b).
Proof. intros [(x & -> & _)%fmap_Some (y & -> & _)%fmap_Some]. by split; eexists. Qed.

Lemma dlseg_frame_next a l b y v : dlseg m a l b → y ∉ a :: l → dlseg (set_next y v m) a l b.
Proof.
  revert a. induction l as [|x l IH]; intros a; cbn [dlseg]; unfold link, set_next.
  - intros [Hn Hp] Hy. rewrite lookup_alter_ne by set_solver. split; [done|].
    rewrite lookup_alter. case_decide; [|done]. subst. destruct (m !! b); by simplify_eq.
  - intros [[Hn Hp] Hd] Hy. split; [|apply IH; [done|set_solver]].
    rewrite !lookup_alter_ne by set_solver. done.
Qed.

Lemma dlseg_frame_prev a l b y v : dlseg m a l b → y ∉ l ++ [b] → dlseg (set_prev y v m) a l b.
Proof.
  revert a. induction l as [|x l IH]; intros a; cbn [dlseg app]; unfold link, set_prev.
  - intros [Hn Hp] Hy. rewrite (lookup_alter_ne _ _ _ b) by set_solver. split; [|done].
    rewrite lookup_alter. case_decide; [|done]. subst. destruct (m !! a); by simplify_eq.
  - intros [[Hn Hp] Hd] Hy. split; [|apply IH; [done|set_solver]].
    rewrite (lookup_alter_ne _ _ _ x) by set_solver. split; [|done].
    rewrite lookup_alter. case_decide; [|done]. subst. destruct (m !! a); by simplify_eq.
Qed.
End segments.

Section accesses.
Context (m : nodes).

Lemma next_set_next a v b :
  (next <$> set_next a v m !! b) = if decide (b = a) then (λ _, v) <$> m !! a else next <$> m !! b.
Proof.
  unfold set_next. rewrite lookup_alter. do 2 case_decide; subst; try done. by destruct (m !! b).
Qed.
Lemma next_set_prev a v b : (next <$> set_prev a v m !! b) = next <$> m !! b.
Proof.
  unfold set_prev. rewrite lookup_alter. case_decide; [subst|done]. by destruct (m !! b).
Qed.
Lemma prev_set_prev a v b :
  (prev <$> set_prev a v m !! b) = if decide (b = a) then (λ _, v) <$> m !! a else prev <$> m !! b.
Proof.
  unfold set_prev. rewrite lookup_alter. do 2 case_decide; subst; try done. by destruct (m !! b).
Qed.
Lemma prev_set_next a v b : (prev <$> set_next a v m !! b) = prev <$> m !! b.
Proof.
  unfold set_next. rewrite lookup_alter. case_decide; [subst|done]. by destruct (m !! b).
Qed.
Lemma set_next_some a v b : is_Some (set_next a v m !! b) ↔ is_Some (m !! b).
Proof. unfold set_next. rewrite lookup_alter_is_Some. done. Qed.
Lemma set_prev_some a v b : is_Some (set_prev a v m !! b) ↔ is_Some (m !! b).
Proof. unfold set_prev. rewrite lookup_alter_is_Some. done. Qed.

Lemma put_next_run {A} a v (k : unit → M nodes A) :
  is_Some (m !! a) → bind (put_next a v) k m = k tt (set_next a v m).
Proof. intros [x Hx]. unfold put_next, get_node, bind, gets, from_option. by rewrite Hx. Qed.
Lemma put_prev_run {A} a v (k : unit → M nodes A) :
  is_Some (m !! a) → bind (put_prev a v) k m = k tt (set_prev a v m).
Proof. intros [x Hx]. unfold put_prev, get_node, bind, gets, from_option. by rewrite Hx. Qed.
Lemma get_next_run {A} a v (k : Z → M nodes A) :
  (next <$> m !! a) = Some v → bind (get_next a) k m = k v m.
Proof.
  intros (x & Hx & ->)%fmap_Some.
  unfold get_next, get_prev, get_node, bind, gets, from_option. by rewrite Hx.
Qed.
Lemma get_prev_run {A} a v (k : Z → M nodes A) :
  (prev <$> m !! a) = Some v → bind (get_prev a) k m = k v m.
Proof.
  intros (x & Hx & ->)%fmap_Some.
  unfold get_next, get_prev, get_node, bind, gets, from_option. by rewrite Hx.
Qed.
End accesses.

Lemma bind_unit {S} (m : M S unit) s : m s = bind m (λ _, ret tt) s.
Proof. unfold bind. by destruct (m s) as [[]|]. Qed.

(** ** Circles *)
Lemma dlseg_ext m m' a l b :
  dlseg m a l b → (∀ y, y ∈ a :: l ++ [b] → m' !! y = m !! y) → dlseg m' a l b.
Proof.
  revert a. induction l as [|x l IH]; intros a; cbn [dlseg app]; unfold link.
  - intros [H1 H2] Heq. rewrite !Heq by set_solver. done.
  - intros [[H1 H2] Hd] Heq. rewrite !Heq by set_solver. split; [done|].
    apply IH; [done|]. intros y Hy. apply Heq. set_solver.
Qed.

Lemma circle_ext m m' h l :
  circle m h l → (∀ y, y ∈ h :: l → m' !! y = m !! y) → circle m' h l.
Proof.
  intros [Hd Hn] Heq. split; [|done]. eapply dlseg_ext; [exact Hd|].
  intros y Hy. apply Heq. set_solver.
Qed.

(** The nodes next to the head. *)
Lemma circle_next m h l : circle m h l → (next <$> m !! h) = Some (default h (head l)).
Proof. intros [Hd _]. destruct l; simpl in Hd; [apply Hd|apply Hd]. Qed.
Lemma circle_prev m h l : circle m h l → (prev <$> m !! h) = Some (default h (last l)).
Proof.
  intros [Hd _]. destruct l as [|x l _] using rev_ind; [apply Hd|].
  apply dlseg_snoc in Hd as [_ Hl]. rewrite last_snoc. apply Hl.
Qed.
Lemma circle_nodes m h l x : circle m h l → x ∈ h :: l → is_Some (m !! x).
Proof.
  intros Hc [->|Hx]%elem_of_cons.
  - apply circle_next in Hc. rewrite <- (fmap_is_Some next), Hc. by eexists.
  - apply list_elem_of_split in Hx as (l1 & l2 & ->). apply circle_rotate, circle_next in Hc.
    rewrite <- (fmap_is_Some next), Hc. by eexists.
Qed.

(** The memory after an operation on the nodes [l]. *)
Definition only (l : list Z) (m m' : nodes) : Prop :=
  (∀ y, y ∉ l → m' !! y = m !! y) ∧ ∀ y, is_Some (m' !! y) ↔ is_Some (m !! y).

Lemma only_refl l m : only l m m.
Proof. by split. Qed.
Lemma only_next l m m' a v : only l m m' → a ∈ l → only l m (set_next a v m').
Proof.
  intros [H1 H2] Ha. split.
  - intros y Hy. unfold set_next. rewrite lookup_alter_ne by (by intros ->). auto.
  - intros y. by rewrite set_next_some.
Qed.
Lemma only_prev l m m' a v : only l m m' → a ∈ l → only l m (set_prev a v m').
Proof.
  intros [H1 H2] Ha. split.
  - intros y Hy. unfold set_prev. rewrite lookup_alter_ne by (by intros ->). auto.
  - intros y. by rewrite set_prev_some.
Qed.

(** [n] enters the circle between [a] and the node after it. *)
Definition spliced (a n x : Z) (m : nodes) : nodes :=
  set_prev n a (set_next a n (set_next n x (set_prev x n m))).

Lemma spliced_circle m h l n :
  circle m h l → is_Some (m !! n) → n ∉ h :: l →
  circle (spliced h n (default h (head l)) m) h (n :: l).
Proof.
  intros [Hd Hn] Hs Hni. pose proof (circle_nodes m h l h ltac:(by split) ltac:(left)) as Hh.
  assert (NoDup (h :: n :: l)) as Hn'.
  { constructor; [inversion Hn; set_solver|]. constructor; [set_solver|by inversion Hn]. }
  split; [|done].
  set (x := default h (head l)). unfold spliced. cbn [dlseg].
  assert (link (set_prev n h (set_next h n (set_next n x (set_prev x n m)))) h n) as Hhn.
  { split.
    - rewrite next_set_prev, next_set_next, decide_True by done.
      destruct Hh as [y Hy]. assert (is_Some (set_next n x (set_prev x n m) !! h)) as [z ->]; [|done].
      rewrite set_next_some, set_prev_some. by exists y.
    - rewrite prev_set_prev, decide_True by done.
      assert (is_Some (set_next h n (set_next n x (set_prev x n m)) !! n)) as [z ->]; [|done].
      by rewrite !set_next_some, set_prev_some. }
  split; [exact Hhn|].
  assert (link (set_prev n h (set_next h n (set_next n x (set_prev x n m)))) n x) as Hnx.
  { assert (is_Some (m !! x)) as Hx.
    { apply (circle_nodes m h l); [by split|]. unfold x. destruct l; simpl; set_solver. }
    assert (n ≠ h ∧ n ≠ x) as [??].
    { unfold x. destruct l; simpl; set_solver. }
    split.
    - rewrite next_set_prev, next_set_next, decide_False by done.
      rewrite next_set_next, decide_True by done.
      assert (is_Some (set_prev x n m !! n)) as [z ->]; [|done]. by rewrite set_prev_some.
    - rewrite prev_set_prev, decide_False by done. rewrite !prev_set_next.
      rewrite prev_set_prev, decide_True by done. by destruct Hx as [z ->]. }
  destruct l as [|y l]; [exact Hnx|]. cbn [dlseg default head] in *. split; [exact Hnx|].
  destruct Hd as [_ Hd]. inversion_clear Hn as [|?? Hhl Hnl]. inversion_clear Hnl as [|?? Hyl _].
  apply dlseg_frame_prev; [|set_solver]. apply dlseg_frame_next; [|set_solver].
  apply dlseg_frame_next; [|set_solver]. apply dlseg_frame_prev; [done|].
  unfold x. simpl. set_solver.
Qed.

Lemma insert_after_run m h l n :
  circle m h l → is_Some (m !! n) → n ∉ h :: l →
  rt_list_insert_after h n m = Ok tt (spliced h n (default h (head l)) m).
Proof.
  intros Hc Hs Hn. pose proof (circle_next m h l Hc) as Hx.
  pose proof (λ x, circle_nodes m h l x Hc) as Hsome. set (x := default h (head l)) in *.
  assert (is_Some (m !! x)) as Hsx.
  { apply Hsome. unfold x. destruct l; simpl; set_solver. }
  unfold rt_list_insert_after. rewrite (get_next_run _ _ _ _ Hx), put_prev_run by done.
  rewrite (get_next_run _ _ x) by by rewrite next_set_prev.
  rewrite put_next_run by by rewrite set_prev_some.
  rewrite put_next_run by (rewrite set_next_some, set_prev_some; apply Hsome; left).
  rewrite bind_unit, put_prev_run by by rewrite !set_next_some, set_prev_some.
  reflexivity.
Qed.

Lemma set_next_prev a v b w m : set_next a v (set_prev b w m) = set_prev b w (set_next a v m).
Proof.
  unfold set_next, set_prev. destruct (decide (a = b)) as [->|]; [|by apply alter_alter_ne].
  by rewrite !alter_alter_eq.
Qed.

Lemma set_prev_prev a v b w m : a ≠ b → set_prev a v (set_prev b w m) = set_prev b w (set_prev a v m).
Proof. apply alter_alter_ne. Qed.
Lemma set_next_next a v b w m : a ≠ b → set_next a v (set_next b w m) = set_next b w (set_next a v m).
Proof. apply alter_alter_ne. Qed.

Lemma insert_before_run m h l n :
  circle m h l → is_Some (m !! n) → n ∉ h :: l →
  rt_list_insert_before h n m = Ok tt (spliced (default h (last l)) n h m).
Proof.
  intros Hc Hs Hn. pose proof (circle_prev m h l Hc) as Hx.
  pose proof (λ x, circle_nodes m h l x Hc) as Hsome. set (x := default h (last l)) in *.
  assert (is_Some (m !! x) ∧ x ≠ n) as [Hsx Hne].
  { assert (x ∈ h :: l); [|split; [by apply Hsome|by intros ->]].
    unfold x. destruct l as [|z l _] using rev_ind; [left|]. rewrite last_snoc. set_solver. }
  unfold rt_list_insert_before. rewrite (get_prev_run _ _ _ _ Hx), put_next_run by done.
  rewrite (get_prev_run _ _ x) by by rewrite prev_set_next.
  rewrite put_prev_run by by rewrite set_next_some.
  rewrite put_prev_run by (rewrite set_prev_some, set_next_some; apply Hsome; left).
  rewrite bind_unit, put_next_run by by rewrite !set_prev_some, set_next_some.
  unfold ret, spliced. f_equal. rewrite !set_next_prev.
  rewrite (set_prev_prev n x h), (set_next_next n h x) by set_solver. done.
Qed.

Lemma spliced_before m h l n :
  circle m h l → is_Some (m !! n) → n ∉ h :: l →
  circle (spliced (default h (last l)) n h m) h (l ++ [n]).
Proof.
  intros Hc Hs Hn. destruct l as [|x l _] using rev_ind; [exact (spliced_circle m h [] n Hc Hs Hn)|].
  rewrite last_snoc. cbn [default]. rewrite <- app_assoc. apply circle_rotate.
  apply circle_rotate in Hc. apply (spliced_circle m x (h :: l) n Hc Hs). set_solver.
Qed.

(** [n] leaves the circle. *)
Definition unspliced (p n x : Z) (m : nodes) : nodes :=
  set_next n n (set_prev n n (set_next p x (set_prev x p m))).

Lemma remove_run m n l :
  circle m n l →
  rt_list_remove n m = Ok tt (unspliced (default n (last l)) n (default n (head l)) m).
Proof.
  intros Hc. pose proof (circle_prev m n l Hc) as Hp. pose proof (circle_next m n l Hc) as Hx.
  pose proof (λ x, circle_nodes m n l x Hc) as Hsome.
  set (p := default n (last l)) in *. set (x := default n (head l)) in *.
  assert (is_Some (m !! p) ∧ is_Some (m !! x) ∧ is_Some (m !! n)) as (? & ? & ?).
  { split_and!; apply Hsome; [unfold p|unfold x|left].
    - destruct l as [|z l _] using rev_ind; [left|]. rewrite last_snoc. set_solver.
    - destruct l; simpl; set_solver. }
  unfold rt_list_remove. rewrite (get_next_run _ _ _ _ Hx), (get_prev_run _ _ _ _ Hp).
  rewrite put_prev_run by done.
  rewrite (get_prev_run _ _ p).
  2:{ rewrite prev_set_prev. case_decide; [|done].
      by match goal with H : is_Some (m !! x) |- _ => destruct H as [? ->] end. }
  rewrite (get_next_run _ _ x) by by rewrite next_set_prev.
  rewrite put_next_run by by rewrite set_prev_some.
  rewrite put_prev_run by by rewrite set_next_some, set_prev_some.
  rewrite bind_unit, put_next_run by by rewrite set_prev_some, set_next_some, set_prev_some.
  done.
Qed.

Lemma unspliced_circle m n y l :
  circle m n (y :: l) →
  circle (unspliced (default n (last (y :: l))) n y m) y l.
Proof.
  intros Hc. pose proof (λ x, circle_nodes m n _ x Hc) as Hsome. destruct Hc as [Hd Hn].
  apply NoDup_cons in Hn as [Hnl Hn]. split; [|done]. cbn [dlseg] in Hd. destruct Hd as [Hny Hd].
  set (p := default n (last (y :: l))).
  assert (p ∈ y :: l) as Hp.
  { unfold p. destruct l as [|z l _] using rev_ind; [left|]. rewrite app_comm_cons, last_snoc. set_solver. }
  assert (link (unspliced p n y m) p y) as Hpy.
  { assert (n ≠ p) by (intros E; by rewrite E in Hnl). assert (n ≠ y) by set_solver.
    unfold unspliced.
    destruct (Hsome p ltac:(by right)) as [a Ha]. destruct (Hsome y ltac:(set_solver)) as [b Hb]. split.
    - rewrite next_set_next, decide_False, next_set_prev, next_set_next, decide_True by done.
      assert (is_Some (set_prev y p m !! p)) as [? ->]; [|done]. rewrite set_prev_some. by exists a.
    - rewrite prev_set_next, prev_set_prev, decide_False, prev_set_next, prev_set_prev,
        decide_True by done. by rewrite Hb. }
  destruct l as [|z l _] using rev_ind; [exact Hpy|].
  assert (p = z) as Epz by (unfold p; by rewrite app_comm_cons, last_snoc). rewrite Epz in *.
  apply dlseg_snoc in Hd as [Hd _]. apply dlseg_snoc. split; [|exact Hpy].
  apply NoDup_cons in Hn as [Hyl Hn]. apply NoDup_app in Hn as (_ & Hlz & _).
  apply dlseg_frame_next; [|set_solver]. apply dlseg_frame_prev; [|set_solver].
  apply dlseg_frame_next; [|set_solver]. apply dlseg_frame_prev; [done|set_solver].
Qed.

Lemma unspliced_self m p n x : is_Some (m !! n) → circle (unspliced p n x m) n [].
Proof.
  intros Hn. split; [|apply NoDup_singleton]. unfold unspliced. split.
  - rewrite next_set_next, decide_True by done.
    assert (is_Some (set_prev n n (set_next p x (set_prev x p m)) !! n)) as [? ->]; [|done].
    by rewrite set_prev_some, set_next_some, set_prev_some.
  - rewrite prev_set_next, prev_set_prev, decide_True by done.
    assert (is_Some (set_next p x (set_prev x p m) !! n)) as [? ->]; [|done].
    by rewrite set_next_some, set_prev_some.
Qed.

Lemma isempty_run m h l : circle m h l → rt_list_isempty h m = Ok (bool_decide (l = [])) m.
Proof.
  intros Hc. unfold rt_list_isempty.
  rewrite (get_next_run m h _ _ (circle_next m h l Hc)). unfold ret. f_equal.
  destruct Hc as [_ Hn]. destruct l as [|x l]; [change (default h (head [])) with h|change (default h (head (x :: l))) with x].
  - rewrite Z.eqb_refl. symmetry. by apply bool_decide_eq_true_2.
  - rewrite bool_decide_eq_false_2 by done. apply Z.eqb_neq. intros ->. inversion Hn. set_solver.
Qed.

Lemma init_run m h : is_Some (m !! h) →
  ∃ m', rt_list_init h m = Ok tt m' ∧ circle m' h [] ∧ only [h] m m'.
Proof.
  intros Hh. exists (set_next h h (set_prev h h m)). split_and!.
  - unfold rt_list_init. rewrite put_prev_run by done.
    by rewrite bind_unit, put_next_run by by rewrite set_prev_some.
  - split; [|apply NoDup_singleton]. split.
    + rewrite next_set_next, decide_True by done.
      assert (is_Some (set_prev h h m !! h)) as [? ->]; [|done]. by rewrite set_prev_some.
    + rewrite prev_set_next, prev_set_prev, decide_True by done. by destruct Hh as [? ->].
  - apply only_next; [|left]. apply only_prev; [|left]. apply only_refl.
Qed.

(** Leaving a circle entered at [h]. *)
Lemma unspliced_rotated m h l1 n l2 : circle m h (l1 ++ n :: l2) →
  circle (unspliced (default n (last (l2 ++ h :: l1))) n (default n (head (l2 ++ h :: l1))) m) h (l1 ++ l2).
Proof.
  intros Hc%circle_rotate. destruct l2 as [|z l2].
  - rewrite app_nil_r. by apply unspliced_circle.
  - apply circle_rotate. exact (unspliced_circle m n z (l2 ++ h :: l1) Hc).
Qed.

Lemma spliced_only a n x m : only [a; n; x] m (spliced a n x m).
Proof.
  unfold spliced. apply only_prev; [|set_solver]. apply only_next; [|set_solver].
  apply only_next; [|set_solver]. apply only_prev; [|set_solver]. apply only_refl.
Qed.
Lemma unspliced_only p n x m : only [p; n; x] m (unspliced p n x m).
Proof.
  unfold unspliced. apply only_next; [|set_solver]. apply only_prev; [|set_solver].
  apply only_next; [|set_solver]. apply only_prev; [|set_solver]. apply only_refl.
Qed.
Lemma head_in (h : Z) l : default h (head l) ∈ h :: l.
Proof. destruct l; simpl; set_solver. Qed.
Lemma last_in (h : Z) l : default h (last l) ∈ h :: l.
Proof. destruct l as [|x l _] using rev_ind; [left|]. rewrite last_snoc. cbn. set_solver. Qed.
Lemma only_weaken l l' m m' : only l m m' → l ⊆ l' → only l' m m'.
Proof. intros [H1 H2] Hs. split; [|done]. intros y Hy. apply H1. set_solver. Qed.

(** ** The lists of threads *)

(** A call of the list functions, in the view of the kernel files and in memory. *)
Inductive list_call : Type :=
  | CInit (q : qid)
  | CRemove (t : Z)
  | CInsertBefore (q : qid) (t : Z)
  | CInsertAfter (q : qid) (t : Z)
  | CInsertAt (q : qid) (pre post : list Z) (t : Z).

Definition spec_call (c : list_call) : K unit :=
  match c with
  | CInit q => tl_init q
  | CRemove t => tl_unlink t
  | CInsertBefore q t => tl_insert_before q t
  | CInsertAfter q t => tl_insert_after q t
  | CInsertAt q pre post t => tl_insert_at q pre post t
  end.

Section refinement.
(** The addresses of the heads of the lists, and those of the nodes of the threads. *)
Context (hd : qid → Z) (nd : Z → Z).

Definition real_call (c : list_call) : M nodes unit :=
  match c with
  | CInit q => rt_list_init (hd q)
  | CRemove t => rt_list_remove (nd t)
  | CInsertBefore q t => rt_list_insert_before (hd q) (nd t)
  | CInsertAfter q t => rt_list_insert_after (hd q) (nd t)
  | CInsertAt q pre post t =>
    rt_list_insert_before (match post with [] => hd q | u :: _ => nd u end) (nd t)
  end.

Hypothesis hd_inj : ∀ q q', hd q = hd q' → q = q'.
Hypothesis nd_inj : ∀ t t', nd t = nd t' → t = t'.
Hypothesis hd_nd : ∀ q t, hd q ≠ nd t.

(** The nodes in memory represent the lists [L] of the threads [T]: each list
    is a circle through its head, and a thread on no list is a circle of its
    own. *)
Record lists_rep (m : nodes) (L : gmap qid (list Z)) (T : gset Z) : Prop := {
  lr_circle : ∀ q l, L !! q = Some l → circle m (hd q) (nd <$> l);
  lr_alone : ∀ t, t ∈ T → unlinked t L → circle m (nd t) [];
  lr_known : ∀ q l t, L !! q = Some l → t ∈ l → t ∈ T;
  lr_uniq : ∀ q q' l l' t, L !! q = Some l → L !! q' = Some l' → t ∈ l → t ∈ l' → q = q'
}.

(** What the callers respect: threads are known, a list is initialised before
    it is used and when it is empty, and a position is one of the list. *)
Definition call_ok (m : nodes) (L : gmap qid (list Z)) (T : gset Z) (c : list_call) : Prop :=
  match c with
  | CInit q => is_Some (m !! hd q) ∧ (L !! q = None ∨ L !! q = Some [])
  | CRemove t | CInsertBefore _ t | CInsertAfter _ t => t ∈ T
  | CInsertAt q pre post t => t ∈ T ∧ L !! q = Some (pre ++ post)
  end.

Lemma elem_nd t (l : list Z) : nd t ∈ nd <$> l ↔ t ∈ l.
Proof.
  rewrite list_elem_of_fmap. split; [|by eauto]. intros (u & E & Hu). by apply nd_inj in E as ->.
Qed.
Lemma hd_not_nd q (l : list Z) : hd q ∉ nd <$> l.
Proof. rewrite list_elem_of_fmap. intros (u & E & _). by apply hd_nd in E. Qed.

(** An operation within one circle and at one thread leaves the other circles alone. *)
Lemma rep_update m m' L T q l l' t :
  lists_rep m L T → L !! q = Some l → t ∈ T → (∀ q' l', L !! q' = Some l' → t ∈ l' → q' = q) →
  circle m' (hd q) (nd <$> l') → (t ∉ l' → circle m' (nd t) []) → (∀ u, u ≠ t → u ∈ l' ↔ u ∈ l) →
  only (hd q :: nd t :: (nd <$> l)) m m' →
  lists_rep m' (<[q := l']> L) T.
Proof.
  intros [Hc Ha Hk Hu] Hl Ht Hq Hc' Ht' Hp [Ho _]. split.
  - intros q' l1. rewrite lookup_insert. case_decide as E; [intros [= <-]; by subst|].
    intros Hl1. eapply circle_ext; [by apply Hc|]. intros y Hy. apply Ho.
    apply elem_of_cons in Hy as [->|Hy].
    + rewrite !not_elem_of_cons. split_and!; [|apply hd_nd|apply hd_not_nd].
      intros ?%hd_inj. by subst.
    + apply list_elem_of_fmap in Hy as (u & -> & Hu1). rewrite !not_elem_of_cons, elem_nd.
      split_and!; [by intros ?%eq_sym%hd_nd|intros ->%nd_inj|]; [by eapply E, eq_sym, Hq|].
      intros Hul. by eapply E, (Hu q q').
  - intros u HuT Hun. destruct (decide (u = t)) as [->|Hne].
    { apply Ht'. by eapply (Hun q), lookup_insert_eq. }
    assert (u ∉ l) as Hul.
    { rewrite <- Hp by done. eapply (Hun q), lookup_insert_eq. }
    eapply circle_ext; [apply Ha; [done|]|].
    + intros q' l1 Hl1. destruct (decide (q' = q)) as [->|]; [by simplify_eq|].
      eapply (Hun q'). by rewrite lookup_insert_ne.
    + intros y Hy. apply list_elem_of_singleton in Hy as ->. apply Ho.
      rewrite !not_elem_of_cons, elem_nd. split_and!; [by intros ?%eq_sym%hd_nd| |done].
      by intros ?%nd_inj.
  - intros q' l1 u. rewrite lookup_insert. case_decide; [|by apply Hk]. intros [= <-] Hin.
    destruct (decide (u = t)) as [->|]; [done|]. eapply Hk; [done|]. by apply Hp.
  - intros q1 q2 l1 l2 u. rewrite !lookup_insert. 
    assert (∀ q' l0, L !! q' = Some l0 → u ∈ l0 → u ∈ l' → q = q') as Hx.
    { intros q' l0 Hl0 Hu0 Hu'. destruct (decide (u = t)) as [->|]; [by eapply eq_sym, Hq|].
      eapply (Hu q q'); [done..| |done]. by apply Hp. }
    repeat case_decide; intros; simplify_eq; [done|by eapply Hx|by eapply eq_sym, Hx|by eapply Hu].
Qed.

(** A thread on no list enters the circle of [q] before or after a node of it. *)
Lemma rep_enter m m' L T q l l' t c :
  lists_rep m L T → L !! q = Some l → t ∈ T → unlinked t L → l' ≡ₚ t :: l →
  circle m' (hd q) (nd <$> l') → only c m m' → c ⊆ hd q :: nd t :: (nd <$> l) →
  lists_rep m' (<[q := l']> L) T.
Proof.
  intros Hr Hl Ht Hun Hp Hc Ho Hsub. eapply rep_update; try done.
  - intros q' l0 Hl0 Hin. by destruct (Hun q' l0 Hl0).
  - intros Hn. destruct Hn. rewrite Hp. left.
  - intros u Hu. rewrite Hp. set_solver.
  - by eapply only_weaken.
Qed.

(** The node a thread enters is known, and not on the circle. *)
Lemma rep_node m L T q l t :
  lists_rep m L T → L !! q = Some l → t ∈ T → unlinked t L →
  is_Some (m !! nd t) ∧ nd t ∉ hd q :: (nd <$> l) ∧ circle m (hd q) (nd <$> l).
Proof.
  intros Hr Hl Ht Hun. split_and!.
  - apply (circle_nodes m (nd t) []); [by apply (lr_alone _ _ _ Hr)|left].
  - rewrite not_elem_of_cons, elem_nd. split; [by intros ?%eq_sym%hd_nd|].
    by apply (Hun q).
  - by apply (lr_circle _ _ _ Hr).
Qed.

(** A thread enters before the node of the first of [post], the head if there is none. *)
Lemma rep_insert_at m L T q pre post t :
  lists_rep m L T → L !! q = Some (pre ++ post) → t ∈ T → unlinked t L →
  ∃ m', rt_list_insert_before (match post with [] => hd q | u :: _ => nd u end) (nd t) m = Ok tt m' ∧
    lists_rep m' (<[q := pre ++ t :: post]> L) T.
Proof.
  intros Hr Hl Ht Hun. destruct (rep_node m L T q _ t Hr Hl Ht Hun) as (Hs & Hn & Hc).
  assert (pre ++ t :: post ≡ₚ t :: pre ++ post) as Hp by by rewrite Permutation_middle.
  destruct post as [|u post]; rewrite fmap_app in Hc, Hn; cbn in Hc, Hn.
  - rewrite app_nil_r in Hc, Hn.
    eexists. split; [by apply (insert_before_run m (hd q) (nd <$> pre))|].
    refine (rep_enter m _ L T q _ _ t _ Hr Hl Ht Hun Hp _ (spliced_only _ _ _ _) _).
    + rewrite fmap_app. by apply spliced_before.
    + pose proof (last_in (hd q) (nd <$> pre)). rewrite fmap_app. set_solver.
  - assert (circle m (nd u) ((nd <$> post) ++ hd q :: (nd <$> pre))) as Hcu by by apply circle_rotate.
    assert (nd t ∉ nd u :: (nd <$> post) ++ hd q :: (nd <$> pre)) as Hnu by set_solver.
    eexists. split; [by apply (insert_before_run m (nd u) _ (nd t) Hcu)|].
    refine (rep_enter m _ L T q _ _ t _ Hr Hl Ht Hun Hp _ (spliced_only _ _ _ _) _).
    + pose proof (spliced_before m (nd u) _ (nd t) Hcu Hs Hnu) as Hc'.
      rewrite <- app_assoc in Hc'. apply circle_rotate in Hc'. rewrite <- app_assoc in Hc'.
      by rewrite fmap_app.
    + pose proof (last_in (nd u) ((nd <$> post) ++ hd q :: (nd <$> pre))).
      rewrite fmap_app. cbn. set_solver.
Qed.

Lemma rep_insert_after m L T q l t :
  lists_rep m L T → L !! q = Some l → t ∈ T → unlinked t L →
  ∃ m', rt_list_insert_after (hd q) (nd t) m = Ok tt m' ∧ lists_rep m' (<[q := t :: l]> L) T.
Proof.
  intros Hr Hl Ht Hun. destruct (rep_node m L T q _ t Hr Hl Ht Hun) as (Hs & Hn & Hc).
  eexists. split; [by apply (insert_after_run m (hd q) (nd <$> l))|].
  refine (rep_enter m _ L T q _ _ t _ Hr Hl Ht Hun _ _ (spliced_only _ _ _ _) _); [done| |].
  - by apply spliced_circle.
  - pose proof (head_in (hd q) (nd <$> l)). set_solver.
Qed.

Lemma remove_linked m L T q l t :
  lists_rep m L T → L !! q = Some l → t ∈ l →
  ∃ m', rt_list_remove (nd t) m = Ok tt m' ∧ lists_rep m' (tl_remove t L) T.
Proof.
  intros Hr Hl Hin. pose proof (lr_circle _ _ _ Hr q l Hl) as Hc.
  pose proof (lr_known _ _ _ Hr q l t Hl Hin) as Ht.
  apply list_elem_of_split in Hin as (pre & post & ->).
  rewrite fmap_app in Hc. cbn in Hc. pose proof (proj2 Hc) as Hnd.
  assert (circle m (nd t) ((nd <$> post) ++ hd q :: (nd <$> pre))) as Hct by by apply circle_rotate.
  assert (t ∉ pre ++ post) as Hnin.
  { intros Hin. apply NoDup_cons in Hnd as [_ Hnd]. rewrite <- Permutation_middle in Hnd.
    apply NoDup_cons in Hnd as [Hnd _]. apply Hnd. rewrite <- fmap_app. by apply elem_nd. }
  assert (tl_remove t L = <[q := pre ++ post]> L) as ->.
  { apply map_eq. intros q'. rewrite lookup_insert. case_decide as E.
    - subst. rewrite (tl_remove_Some _ _ _ _ Hl), filter_app, filter_cons_False by tauto.
      rewrite <- filter_app, list_filter_all_id; [done|]. naive_solver.
    - rewrite tl_remove_lookup. destruct (L !! q') as [l'|] eqn:El; [|done]. cbn. f_equal.
      apply list_filter_all_id. intros x Hx ->. apply E.
      by apply (lr_uniq _ _ _ Hr q q' _ _ t Hl El); [set_solver|]. }
  eexists. split; [by apply remove_run|].
  eapply (rep_update m _ L T q _ _ t Hr Hl Ht).
  - intros q' l' Hl' Hin. symmetry.
    by apply (lr_uniq _ _ _ Hr q q' _ _ t Hl Hl'); [set_solver|].
  - rewrite fmap_app. by apply unspliced_rotated.
  - intros _. apply unspliced_self. eapply circle_nodes; [exact Hct|left].
  - intros u Hu. set_solver.
  - eapply only_weaken; [apply unspliced_only|].
    pose proof (last_in (nd t) ((nd <$> post) ++ hd q :: (nd <$> pre))).
    pose proof (head_in (nd t) ((nd <$> post) ++ hd q :: (nd <$> pre))).
    rewrite fmap_app. cbn. set_solver.
Qed.

Lemma remove_alone m L T t :
  lists_rep m L T → t ∈ T → unlinked t L →
  ∃ m', rt_list_remove (nd t) m = Ok tt m' ∧ lists_rep m' (tl_remove t L) T.
Proof.
  intros Hr Ht Hun. pose proof (lr_alone _ _ _ Hr t Ht Hun) as Hc.
  assert (tl_remove t L = L) as ->.
  { apply map_eq. intros q. rewrite tl_remove_lookup. destruct (L !! q) as [l|] eqn:El; [|done].
    cbn. f_equal. apply list_filter_all_id. intros x Hx ->. exact (Hun q l El Hx). }
  eexists. split; [by apply remove_run|]. cbn [head last default].
  assert (only [nd t] m (unspliced (nd t) (nd t) (nd t) m)) as [Ho _].
  { eapply only_weaken; [apply unspliced_only|]. set_solver. }
  destruct Hr as [Hcs Ha Hk Hu]. split; try done.
  - intros q l Hl. eapply circle_ext; [by apply Hcs|]. intros y Hy. apply Ho.
    apply elem_of_cons in Hy as [->|Hy]; [rewrite list_elem_of_singleton; apply hd_nd|].
    rewrite list_elem_of_singleton. intros ->. rewrite elem_nd in Hy. exact (Hun q l Hl Hy).
  - intros u Hu' Hun'. destruct (decide (u = t)) as [->|Hne].
    + apply unspliced_self. eapply circle_nodes; [exact Hc|left].
    + eapply circle_ext; [by apply Ha|]. intros y ->%list_elem_of_singleton. apply Ho.
      rewrite list_elem_of_singleton. by intros ?%nd_inj.
Qed.

Lemma rep_init m L T q :
  lists_rep m L T → is_Some (m !! hd q) → L !! q = None ∨ L !! q = Some [] →
  ∃ m', rt_list_init (hd q) m = Ok tt m' ∧ lists_rep m' (<[q := []]> L) T.
Proof.
  intros [Hcs Ha Hk Hu] Hq Hl. destruct (init_run m (hd q) Hq) as (m' & E & Hc & Ho & _).
  exists m'. split; [exact E|]. split.
  - intros q' l. rewrite lookup_insert. case_decide as Eq; [by intros [= <-]; subst|].
    intros Hl'. eapply circle_ext; [by apply Hcs|]. intros y Hy. apply Ho.
    rewrite list_elem_of_singleton. intros ->.
    apply elem_of_cons in Hy as [?%hd_inj|Hy]; [done|]. by apply hd_not_nd in Hy.
  - intros t Ht Hun. eapply circle_ext; [apply Ha; [done|]|].
    + intros q' l' Hl'. destruct (decide (q = q')) as [->|Hne].
      * destruct Hl as [?|?]; simplify_eq. set_solver.
      * apply (Hun q'). by rewrite lookup_insert_ne.
    + intros y ->%list_elem_of_singleton. apply Ho. rewrite list_elem_of_singleton.
      by intros ?%eq_sym%hd_nd.
  - intros q' l t. rewrite lookup_insert. case_decide; [intros [= <-]; set_solver|apply Hk].
  - intros q1 q2 l1 l2 t. rewrite !lookup_insert.
    repeat case_decide; intros; simplify_eq; try done; try set_solver.
Qed.

Lemma check_unlinked_ok t s s' : check_unlinked t s = Ok tt s' → unlinked t (tlists s) ∧ s' = s.
Proof. unfold check_unlinked. case_decide; [by intros [= <-]|done]. Qed.

Lemma spec_insert_inv q t l' s s' :
  (check_unlinked t ;;; tl_put q l') s = Ok tt s' →
  unlinked t (tlists s) ∧ tlists s' = <[q := l']> (tlists s).
Proof.
  unfold bind. destruct (check_unlinked t s) as [[] s1|] eqn:E; [|done].
  apply check_unlinked_ok in E as [Hun ->]. by intros [= <-].
Qed.

Lemma spec_insert_get_inv q t (f : list Z → list Z) s s' :
  (check_unlinked t ;;; let! l := tl_get q in tl_put q (f l)) s = Ok tt s' →
  ∃ l, tlists s !! q = Some l ∧ unlinked t (tlists s) ∧ tlists s' = <[q := f l]> (tlists s).
Proof.
  unfold bind. destruct (check_unlinked t s) as [[] s1|] eqn:E; [|done].
  apply check_unlinked_ok in E as [Hun ->]. unfold tl_get, bind, gets, from_option.
  destruct (tlists s !! q) as [l|] eqn:El; [|done]. intros [= <-]. by exists l.
Qed.

(** C39: Every call on lists the kernel files make is implemented by the pointer
    code: in nodes that represent the lists before the call it runs without a
    null pointer, and the nodes represent the lists after it. *)
Theorem list_calls_refine (m : nodes) (T : gset Z) (s s' : kstate) (c : list_call) :
  lists_rep m (tlists s) T → call_ok m (tlists s) T c → spec_call c s = Ok tt s' →
  ∃ m', real_call c m = Ok tt m' ∧ lists_rep m' (tlists s') T.
Proof.
  intros Hr Hok E. destruct c as [q|t|q t|q t|q pre post t]; cbn [real_call].
  - destruct Hok as [Hq Hl]. injection E as <-. by apply rep_init.
  - injection E as <-. cbn [set_tlists tlists].
    destruct (decide (unlinked t (tlists s))) as [Hun|Hun]; [by apply remove_alone|].
    apply map_not_Forall in Hun as (q & l & Hl & Hin); [|apply _].
    apply (remove_linked m _ T q l); [done..|]. by apply dec_stable.
  - apply spec_insert_get_inv in E as (l & Hl & Hun & ->).
    apply (rep_insert_at m _ T q l []); [done|by rewrite app_nil_r|done..].
  - apply spec_insert_get_inv in E as (l & Hl & Hun & ->). by apply rep_insert_after.
  - apply spec_insert_inv in E as [Hun ->]. destruct Hok as [Ht Hl]. by apply rep_insert_at.
Qed.

(** The emptiness test and the first entry of a list are read off its head. *)
Theorem list_reads_refine (m : nodes) (T : gset Z) (s : kstate) (q : qid) :
  lists_rep m (tlists s) T →
  (∀ b s', tl_isempty q s = Ok b s' → rt_list_isempty (hd q) m = Ok b m) ∧
  (∀ t s', tl_first q s = Ok t s' →
     (let! n := get_next (hd q) in ret (rt_list_entry n (nd t - t))) m = Ok t m).
Proof.
  intros Hr. split; intros x s'; unfold tl_isempty, tl_first, tl_get, bind, gets, from_option;
    destruct (tlists s !! q) as [l|] eqn:El; try done; pose proof (lr_circle _ _ _ Hr q l El) as Hc.
  - intros [= <- <-]. rewrite (isempty_run m (hd q) _ Hc). f_equal. by destruct l.
  - destruct l as [|t l]; [done|]. intros [= -> <-]. change (bind (get_next (hd q))
      (λ n, ret (rt_list_entry n (nd x - x))) m = Ok x m).
    rewrite (get_next_run m _ _ _ (circle_next m (hd q) _ Hc)). unfold ret, rt_list_entry. cbn.
    f_equal. unfold id. lia.
Qed.
End refinement.

(** ** Examples

    Heads at even addresses, the nodes of threads at odd ones; the list of
    [QDefunct] has the threads 1 and 2, and thread 3 is on no list. *)
Definition demo_hd (q : qid) : Z := 2 * Z.pos (encode q).
Definition demo_nd (t : Z) : Z := 2 * t + 1.
Definition demo_nodes : nodes := list_to_map
  [(demo_hd QDefunct, mk_node 3 5); (3, mk_node 5 (demo_hd QDefunct));
   (5, mk_node (demo_hd QDefunct) 3); (7, mk_node 7 7)].
Definition demo_tlists : gmap qid (list Z) := {[QDefunct := [1; 2]]}.

Lemma demo_hd_inj q q' : demo_hd q = demo_hd q' → q = q'.
Proof. unfold demo_hd. intros E. apply (inj encode). lia. Qed.
Lemma demo_nd_inj t t' : demo_nd t = demo_nd t' → t = t'.
Proof. unfold demo_nd. lia. Qed.
Lemma demo_hd_nd q t : demo_hd q ≠ demo_nd t.
Proof. unfold demo_hd, demo_nd. lia. Qed.

Lemma demo_lists_rep : lists_rep demo_hd demo_nd demo_nodes demo_tlists {[1; 2; 3]}.
Proof.
  assert (∀ q l, demo_tlists !! q = Some l → q = QDefunct ∧ l = [1; 2]) as Hl.
  { intros q l. unfold demo_tlists. rewrite lookup_singleton_Some. naive_solver. }
  split.
  - intros q l [-> ->]%Hl. split; [by vm_compute|]. apply (bool_decide_unpack _). by vm_compute.
  - intros t Ht Hun. specialize (Hun QDefunct [1; 2] eq_refl). cbn in Hun.
    assert (t = 3) as -> by set_solver. split; [by vm_compute|apply NoDup_singleton].
  - intros q l t [-> ->]%Hl. set_solver.
  - by intros q q' l l' t [-> ->]%Hl [-> ->]%Hl.
Qed.

Lemma list_calls_refine_witness :
  ∃ m', rt_list_insert_before (demo_nd 2) (demo_nd 3) demo_nodes = Ok tt m' ∧
    lists_rep demo_hd demo_nd m' {[QDefunct := [1; 3; 2]]} {[1; 2; 3]}.
Proof.
  set (s := mk_kstate 0 0 0 0 None 0 0 0 0 ∅ ∅ ∅ demo_tlists [] ∅ ∅ ∅
    (Mem.mk_heap 0 0 0 0 0 0 0 ∅ ∅ None None []) ∅ []).
  destruct (list_calls_refine demo_hd demo_nd demo_hd_inj demo_nd_inj demo_hd_nd demo_nodes
    {[1; 2; 3]} s (set_tlists (<[QDefunct := [1; 3; 2]]> demo_tlists) s)
    (CInsertAt QDefunct [1] [2] 3)) as (m' & E & Hr).
  - apply demo_lists_rep.
  - split; [set_solver|reflexivity].
  - vm_compute. reflexivity.
  - exists m'. split; [exact E|exact Hr].
Defined.

Lemma list_reads_refine_witness :
  rt_list_isempty (demo_hd QDefunct) demo_nodes = Ok false demo_nodes.
Proof.
  set (s := mk_kstate 0 0 0 0 None 0 0 0 0 ∅ ∅ ∅ demo_tlists [] ∅ ∅ ∅
    (Mem.mk_heap 0 0 0 0 0 0 0 ∅ ∅ None None []) ∅ []).
  destruct (list_reads_refine demo_hd demo_nd demo_nodes {[1; 2; 3]} s QDefunct demo_lists_rep)
    as [He _].
  apply (He false s). reflexivity.
Defined.
