(* ===== verification/Object.v ===== *)
(** * The object system ([rtthread/kernel/src/object.c])

    Every kernel object is linked into the container of its class.  An object
    is designated by the structure that embeds it ([oid]); its [rt_object] part
    is the [parent] field of that structure. *)

From S2P Require Import Prelude RtDef Mem KService Kernel Scheduler.

(** ** The [rt_object] part of a structure *)
Definition kobj_parent (o : kobj) : option rt_object :=
  match o with
  | KSem x => Some (sem_parent x)
  | KMutex x => Some (mtx_parent x)
  | KEvent x => Some (evt_parent x)
  | KMailbox x => Some (mb_parent x)
  | KMq x => Some (mq_parent x)
  | KMempool x => Some (mp_parent x)
  | KDevice x => Some (dev_parent x)
  | KDataQueue _ | KCompletion _ => None
  end.

Definition kobj_set_parent (p : rt_object) (o : kobj) : kobj :=
  match o with
  | KSem x => KSem (mk_sem p (sem_value x))
  | KMutex x => KMutex (mk_mutex p (mtx_value x) (mtx_original_priority x) (mtx_hold x)
                                 (mtx_owner x))
  | KEvent x => KEvent (mk_event p (evt_set x))
  | KMailbox x => KMailbox (mk_mailbox p (mb_msg_pool x) (mb_size x) (mb_entry x)
                                       (mb_in_offset x) (mb_out_offset x))
  | KMq x => KMq (mk_mq p (mq_msg_pool x) (mq_msg_size x) (mq_max_msgs x) (mq_entry x)
                        (mq_queue_head x) (mq_queue_tail x) (mq_queue_free x))
  | KMempool x => KMempool (mk_mempool p (mp_start_address x) (mp_size x) (mp_block_size x)
                              (mp_block_list x) (mp_block_total_count x)
                              (mp_block_free_count x) (mp_suspend_thread_count x))
  | KDevice x => KDevice (mk_device p (dev_flag x) (dev_open_flag x) (dev_ref_count x)
                            (dev_rx_indicate x) (dev_tx_complete x) (dev_init x) (dev_open x)
                            (dev_close x) (dev_read x) (dev_write x) (dev_control x))
  | KDataQueue x => KDataQueue x
  | KCompletion x => KCompletion x
  end.

Definition tm_set_parent (p : rt_object) (tm : rt_timer) : rt_timer :=
  mk_timer p (tm_timeout_func tm) (tm_parameter tm) (tm_init_tick tm) (tm_timeout_tick tm).

Definition parent_of (o : oid) (s : kstate) : option rt_object :=
  match o with
  | OThread t => th_parent <$> threads s !! t
  | OTimer x => tm_parent <$> timers s !! x
  | OIpc p => objs s !! p ≫= kobj_parent
  end.

Definition set_parent (o : oid) (p : rt_object) (s : kstate) : kstate :=
  match o with
  | OThread t => set_threads (alter (th_set_parent p) t (threads s)) s
  | OTimer x => set_timers (alter (tm_set_parent p) x (timers s)) s
  | OIpc a => set_objs (alter (kobj_set_parent p) a (objs s)) s
  end.

(** The structure in a block that [rt_object_allocate] has just obtained: the
    bytes found there, read as the structure of the class. *)
Inductive raw : Type :=
  | RawThread (th : rt_thread) (tm : rt_timer)
  | RawTimer (tm : rt_timer)
  | RawObj (o : kobj).

Definition raw_oid (r : raw) (a : Z) : oid :=
  match r with
  | RawThread _ _ => OThread a
  | RawTimer _ => OTimer (Timer a)
  | RawObj _ => OIpc a
  end.

Definition place (r : raw) (a : Z) (s : kstate) : kstate :=
  match r with
  | RawThread th tm =>
    set_timers (<[ThreadTimer a := tm]> (timers s)) (set_threads (<[a := th]> (threads s)) s)
  | RawTimer tm => set_timers (<[Timer a := tm]> (timers s)) s
  | RawObj o => set_objs (<[a := o]> (objs s)) s
  end.

(** The address of an object, and its structure gone with its memory. *)
Definition oid_addr (o : oid) : Z :=
  match o with
  | OThread t => t | OTimer (Timer p) => p | OTimer (ThreadTimer t) => t | OIpc p => p
  end.
Definition unplace (o : oid) (s : kstate) : kstate :=
  match o with
  | OThread t =>
    set_timers (delete (ThreadTimer t) (timers s)) (set_threads (delete t (threads s)) s)
  | OTimer x => set_timers (delete x (timers s)) s
  | OIpc p => set_objs (delete p (objs s)) s
  end.

(** ** Operations *)
Section ops.
Context {cfg : RTConfig}.

Definition get_object (o : oid) : K rt_object :=
  let! p := gets (parent_of o) in from_option NullDeref p.
Definition put_object (o : oid) (p : rt_object) : K unit := modify (set_parent o p).

(** [rt_object_get_information(type)->object_list], read. *)
Definition rt_object_get_information (type : Z) : K (list oid) :=
  let! m := read rt_object_container in from_option OutOfBounds (m !! type).

(** [rt_list_insert_after(&information->object_list, &object->list)] *)
Definition container_insert (type : Z) (o : oid) : K unit :=
  let! l := rt_object_get_information type in
  modify (λ s, set_rt_object_container (<[type := o :: l]> (rt_object_container s)) s).
Definition check_detached (o : oid) : K unit := λ s,
  if decide (map_Forall (λ _ l, o ∉ l) (rt_object_container s)) then Ok tt s else Fault BadList.

(** [rt_list_remove(&object->list)] *)
Definition container_remove (o : oid) : K unit :=
  modify (λ s, set_rt_object_container (filter (λ x, x ≠ o) <$> rt_object_container s) s).

Definition rt_object_init (o : oid) (type : Z) (name : list Z) : K unit :=
  let! p := get_object o in
  let! n := from_option OutOfBounds (Str.rt_strncpy name (Z.to_nat RT_NAME_MAX)) in
  put_object o (mk_object n (Z.lor type RT_Object_Class_Static) (obj_flag p)) ;;;
  RT_OBJECT_HOOK_CALL rt_object_attach_hook (arg_object o) ;;;
  let! temp := rt_hw_interrupt_disable in
  check_detached o ;;;
  container_insert type o ;;;
  rt_hw_interrupt_enable temp.

Definition rt_object_detach (o : oid) : K unit :=
  let! _ := get_object o in
  RT_OBJECT_HOOK_CALL rt_object_detach_hook (arg_object o) ;;;
  let! temp := rt_hw_interrupt_disable in
  container_remove o ;;;
  rt_hw_interrupt_enable temp.

(** [RT_KERNEL_MALLOC] and [RT_KERNEL_FREE] are [rt_malloc] and [rt_free]. *)
Definition rt_object_allocate (type : Z) (name : list Z) (r : raw) : K (option oid) :=
  RT_DEBUG_NOT_IN_INTERRUPT ;;;
  let! _ := rt_object_get_information type in
  let! a := in_heap (Mem.rt_malloc (object_size type)) in
  if a =? 0 then ret None else
  let o := raw_oid r a in
  modify (place r a) ;;;
  let! n := from_option OutOfBounds (Str.rt_strncpy name (Z.to_nat RT_NAME_MAX)) in
  put_object o (mk_object n type 0) ;;;
  RT_OBJECT_HOOK_CALL rt_object_attach_hook (arg_object o) ;;;
  let! temp := rt_hw_interrupt_disable in
  container_insert type o ;;;
  rt_hw_interrupt_enable temp ;;;
  ret (Some o).

Definition rt_object_is_systemobject (o : oid) : K bool :=
  let! p := get_object o in
  ret (negb (Z.land (obj_type p) RT_Object_Class_Static =? 0)).

Definition rt_object_delete (o : oid) : K unit :=
  let! p := get_object o in
  RT_ASSERT (Z.land (obj_type p) RT_Object_Class_Static =? 0) ;;;
  RT_OBJECT_HOOK_CALL rt_object_detach_hook (arg_object o) ;;;
  let! temp := rt_hw_interrupt_disable in
  container_remove o ;;;
  rt_hw_interrupt_enable temp ;;;
  modify (unplace o) ;;;
  in_heap (Mem.rt_free (oid_addr o)).

(** The loop over [object_list] of the two find functions. *)
Fixpoint find_loop (name : list Z) (l : list oid) : K (option oid) :=
  match l with
  | [] => ret None
  | o :: l =>
    let! p := get_object o in
    let! c := from_option OutOfBounds
                (Str.rt_strncmp (obj_name p) name (Z.to_nat RT_NAME_MAX)) in
    if c =? 0 then ret (Some o) else find_loop name l
  end.

Definition rt_object_find (name : option (list Z)) (type : Z) : K (option oid) :=
  match name with
  | None => ret None
  | Some name =>
    if RT_Object_Class_Unknown <? type then ret None else
    RT_DEBUG_NOT_IN_INTERRUPT ;;;
    rt_enter_critical ;;;
    let! l := rt_object_get_information type in
    let! r := find_loop name l in
    rt_exit_critical ;;;
    ret r
  end.

End ops.

(** ** What the operations do *)
Definition object_detach_state (o : oid) (s : kstate) : kstate :=
  set_rt_object_container (filter (λ x, x ≠ o) <$> rt_object_container s)
    (set_trace (trace s ++ hook_events rt_object_detach_hook (arg_object o) s) s).

Definition object_init_state (o : oid) (type : Z) (n : list Z) (flag : Z) (l : list oid)
    (s : kstate) : kstate :=
  set_rt_object_container (<[type := o :: l]> (rt_object_container s))
    (set_trace (trace s ++ hook_events rt_object_attach_hook (arg_object o) s)
      (set_parent o (mk_object n (Z.lor type RT_Object_Class_Static) flag) s)).

Section runs.
Context {cfg : RTConfig}.

Lemma object_detach_run o s :
  is_Some (parent_of o s) → rt_object_detach o s = Ok tt (object_detach_state o s).
Proof.
  intros [p Hp]. unfold rt_object_detach, get_object, container_remove. krun. rewrite Hp.
  krun. done.
Qed.

Lemma object_init_run o type name n p l s :
  parent_of o s = Some p → Str.rt_strncpy name (Z.to_nat RT_NAME_MAX) = Some n →
  map_Forall (λ _ l, o ∉ l) (rt_object_container s) → rt_object_container s !! type = Some l →
  rt_object_init o type name s = Ok tt (object_init_state o type n (obj_flag p) l s).
Proof.
  intros Hp Hn Hd Hl.
  unfold rt_object_init, get_object, put_object, check_detached, container_insert,
    rt_object_get_information. krun. rewrite Hp. krun. rewrite Hn. krun.
  assert (∀ v, rt_object_container (set_parent o v s) = rt_object_container s) as Hc.
  { intros v. by destruct o. }
  unfold object_init_state. rewrite !Hc, decide_True by done. krun. rewrite Hc, Hl. krun.
  by destruct o.
Qed.

Lemma alter_lookup {A B} `{Countable A} (f : B → B) (m : gmap A B) i x :
  m !! i = Some x → alter f i m = <[i := f x]> m.
Proof.
  intros Hi. apply map_eq. intros j. rewrite lookup_alter, lookup_insert.
  case_decide; [subst; by rewrite Hi|done].
Qed.
End runs.
