(* ===== verification/Timer.v ===== *)
(** * Timers ([rtthread/kernel/src/timer.c])

    The list of running timers is a skip list of [RT_TIMER_SKIP_LIST_LEVEL]
    rows; the last row holds every running timer.  This file holds the
    operations, the invariant [timers_wf], and the refinement of
    [rt_timer_start] to insertion into a sorted list. *)

From stdpp Require Import sorting.
From S2P Require Import Prelude RtDef SortedList Mem KService Kernel Scheduler Object.
Open Scope Z_scope.

(** ** Fields of a timer *)
Definition obj_set_flag (v : Z) (p : rt_object) : rt_object :=
  mk_object (obj_name p) (obj_type p) v.
Definition tm_flag (tm : rt_timer) : Z := obj_flag (tm_parent tm).
Definition tm_set_flag (v : Z) (tm : rt_timer) : rt_timer :=
  tm_set_parent (obj_set_flag v (tm_parent tm)) tm.
Definition tm_set_init (v : Z) (tm : rt_timer) : rt_timer :=
  mk_timer (tm_parent tm) (tm_timeout_func tm) (tm_parameter tm) v (tm_timeout_tick tm).
Definition tm_set_timeout (v : Z) (tm : rt_timer) : rt_timer :=
  mk_timer (tm_parent tm) (tm_timeout_func tm) (tm_parameter tm) (tm_init_tick tm) v.

(** [flag &= ~bit] on an 8-bit field. *)
Definition flag_clear (bit flag : Z) : Z := Z.land flag (u8 (Z.lnot bit)).
Definition tm_deactivate (tm : rt_timer) : rt_timer :=
  tm_set_flag (flag_clear RT_TIMER_FLAG_ACTIVATED (tm_flag tm)) tm.
Definition tm_activate (tm : rt_timer) : rt_timer :=
  tm_set_flag (Z.lor (tm_flag tm) RT_TIMER_FLAG_ACTIVATED) tm.
Definition tm_active (tm : rt_timer) : bool :=
  negb (Z.land (tm_flag tm) RT_TIMER_FLAG_ACTIVATED =? 0).
Definition tm_periodic (tm : rt_timer) : bool :=
  negb (Z.land (tm_flag tm) RT_TIMER_FLAG_PERIODIC =? 0).

(** ** Operations *)
Section ops.
Context {cfg : RTConfig}.

Definition upd_timer (x : tmr) (f : rt_timer → rt_timer) : K unit :=
  let! tm := get_timer x in put_timer x (f tm).

(** [rt_list_remove] of the node of every row. *)
Definition _rt_timer_remove (x : tmr) : K unit :=
  modify (λ s, set_rt_timer_list (filter (λ y, y ≠ x) <$> rt_timer_list s) s).

Definition check_stopped (x : tmr) : K unit := λ s,
  if decide (Forall (λ r, x ∉ r) (rt_timer_list s)) then Ok tt s else Fault BadList.

(** [rt_list_init] of every row's node relinks it to itself. *)
Definition _rt_timer_init (x : tmr) (timeout : timeout_fn) (parameter time flag : Z) : K unit :=
  let! tm := get_timer x in
  put_timer x (mk_timer
    (obj_set_flag (flag_clear RT_TIMER_FLAG_ACTIVATED flag) (tm_parent tm))
    timeout parameter time 0) ;;;
  check_stopped x.

(** The last row, where the first timer to expire is first. *)
Definition last_row : K (list tmr) :=
  let! rows := read rt_timer_list in from_option OutOfBounds (last rows).

Definition rt_timer_list_next_timeout : K Z :=
  let! l := last_row in
  match l with
  | [] => ret RT_TICK_MAX
  | x :: _ => let! tm := get_timer x in ret (tm_timeout_tick tm)
  end.
Definition rt_timer_next_timeout_tick : K Z := rt_timer_list_next_timeout.

Definition rt_timer_init (x : tmr) (name : list Z) (timeout : timeout_fn)
    (parameter time flag : Z) : K unit :=
  rt_object_init (OTimer x) RT_Object_Class_Timer name ;;;
  _rt_timer_init x timeout parameter time flag.

Definition rt_timer_detach (x : tmr) : K Z :=
  let! level := rt_hw_interrupt_disable in
  _rt_timer_remove x ;;;
  rt_hw_interrupt_enable level ;;;
  rt_object_detach (OTimer x) ;;;
  ret (- RT_EOK).

Definition rt_timer_create (name : list Z) (timeout : timeout_fn) (parameter time flag : Z)
    (raw_tm : rt_timer) : K (option tmr) :=
  let! o := rt_object_allocate RT_Object_Class_Timer name (RawTimer raw_tm) in
  match o with
  | Some (OTimer x) => _rt_timer_init x timeout parameter time flag ;;; ret (Some x)
  | _ => ret None
  end.

Definition rt_timer_delete (x : tmr) : K Z :=
  let! level := rt_hw_interrupt_disable in
  _rt_timer_remove x ;;;
  rt_hw_interrupt_enable level ;;;
  rt_object_delete (OTimer x) ;;;
  ret (- RT_EOK).

(** *** [rt_timer_start] *)

(** A node of a row: [None] is the row's head, [Some x] the node of [x].  The
    nodes that follow it; a timer that is not linked in the row has none. *)
Fixpoint after (x : tmr) (row : list tmr) : option (list tmr) :=
  match row with
  | [] => None
  | y :: row => if decide (y = x) then Some row else after x row
  end.
Definition row_after (h : option tmr) (row : list tmr) : K (list tmr) :=
  match h with
  | None => ret row
  | Some x => from_option BadList (after x row)
  end.

(** The loop over one row: [row_head] moves on while the next timer does not
    expire after [timeout_tick]. *)
Fixpoint row_walk (timeout_tick : Z) (h : option tmr) (suffix : list tmr) : K (option tmr) :=
  match suffix with
  | [] => ret h
  | p :: suffix =>
    let! t := get_timer p in
    if u32 (tm_timeout_tick t - timeout_tick) =? 0
    then row_walk timeout_tick (Some p) suffix
    else if u32 (tm_timeout_tick t - timeout_tick) <? RT_TICK_MAX / 2
    then ret h
    else row_walk timeout_tick (Some p) suffix
  end.

(** [row_head[]], row by row; a row is entered at the node found in the row
    above. *)
Fixpoint row_heads (timeout_tick : Z) (h : option tmr) (rows : list (list tmr))
    : K (list (option tmr)) :=
  match rows with
  | [] => ret []
  | row :: rows =>
    let! suffix := row_after h row in
    let! h := row_walk timeout_tick h suffix in
    let! hs := row_heads timeout_tick h rows in
    ret (h :: hs)
  end.

(** [rt_list_insert_after] of a row. *)
Fixpoint row_insert (h : option tmr) (x : tmr) (row : list tmr) : list tmr :=
  match h with
  | None => x :: row
  | Some y =>
    match row with
    | [] => []
    | z :: row => if decide (z = y) then z :: x :: row else z :: row_insert h x row
    end
  end.

(** How many rows the timer is inserted into: the last one, and the one above
    while the tested bits of [tst_nr] are all zero. *)
Fixpoint height (n : nat) (tst_nr : Z) : nat :=
  match n with
  | O => O
  | S n =>
    if Z.land tst_nr RT_TIMER_SKIP_LIST_MASK =? 0
    then S (height n (Z.shiftr tst_nr (Z.shiftr (RT_TIMER_SKIP_LIST_MASK + 1) 1)))
    else O
  end.
Definition insert_rows (skip : nat) (hs : list (option tmr)) (x : tmr) (rows : list (list tmr))
    : list (list tmr) :=
  take skip rows ++ zip_with (λ h row, row_insert h x row) (drop skip hs) (drop skip rows).

Definition rt_tick_get : K Z := read rt_tick.

Definition rt_timer_start (x : tmr) : K Z :=
  let! level := rt_hw_interrupt_disable in
  _rt_timer_remove x ;;;
  upd_timer x tm_deactivate ;;;
  rt_hw_interrupt_enable level ;;;
  RT_OBJECT_HOOK_CALL rt_object_take_hook (arg_object (OTimer x)) ;;;
  let! tm := get_timer x in
  RT_ASSERT (tm_init_tick tm <? RT_TICK_MAX / 2) ;;;
  let! now := rt_tick_get in
  let timeout_tick := u32 (now + tm_init_tick tm) in
  put_timer x (tm_set_timeout timeout_tick tm) ;;;
  let! level := rt_hw_interrupt_disable in
  let! rows := read rt_timer_list in
  let! hs := row_heads timeout_tick None rows in
  modify (λ s, set_random_nr (u32 (random_nr s + 1)) s) ;;;
  let! tst_nr := read random_nr in
  let skip := (length rows - 1 - height (length rows - 1) tst_nr)%nat in
  check_stopped x ;;;
  modify (λ s, set_rt_timer_list (insert_rows skip hs x rows) s) ;;;
  upd_timer x tm_activate ;;;
  rt_hw_interrupt_enable level ;;;
  ret (- RT_EOK).

Definition rt_timer_stop (x : tmr) : K Z :=
  let! tm := get_timer x in
  if negb (tm_active tm) then ret (- RT_ERROR) else
  RT_OBJECT_HOOK_CALL rt_object_put_hook (arg_object (OTimer x)) ;;;
  let! level := rt_hw_interrupt_disable in
  _rt_timer_remove x ;;;
  rt_hw_interrupt_enable level ;;;
  upd_timer x tm_deactivate ;;;
  ret RT_EOK.

(** The word [arg] points to is an argument, and a result. *)
Definition rt_timer_control (x : tmr) (cmd arg : Z) : K (Z * Z) :=
  (if cmd =? RT_TIMER_CTRL_GET_TIME then
     let! tm := get_timer x in ret (RT_EOK, tm_init_tick tm)
   else if cmd =? RT_TIMER_CTRL_SET_TIME then
     upd_timer x (tm_set_init arg) ;;; ret (RT_EOK, arg)
   else if cmd =? RT_TIMER_CTRL_SET_ONESHOT then
     upd_timer x (λ tm, tm_set_flag (flag_clear RT_TIMER_FLAG_PERIODIC (tm_flag tm)) tm) ;;;
     ret (RT_EOK, arg)
   else if cmd =? RT_TIMER_CTRL_SET_PERIODIC then
     upd_timer x (λ tm, tm_set_flag (Z.lor (tm_flag tm) RT_TIMER_FLAG_PERIODIC) tm) ;;;
     ret (RT_EOK, arg)
   else ret (RT_EOK, arg)).

(** [rt_timer_check]: [call] runs a timeout function. *)
Definition fire (call : timeout_fn → Z → K unit) (x : tmr) : K unit :=
  RT_OBJECT_HOOK_CALL rt_timer_timeout_hook (arg_object (OTimer x)) ;;;
  _rt_timer_remove x ;;;
  let! tm := get_timer x in
  call (tm_timeout_func tm) (tm_parameter tm) ;;;
  let! tm := get_timer x in
  if tm_periodic tm && tm_active tm then
    put_timer x (tm_deactivate tm) ;;;
    rt_timer_start x ;;;
    ret tt
  else put_timer x (tm_deactivate tm).

Fixpoint check_loop (call : timeout_fn → Z → K unit) (fuel : nat) (current_tick : Z) : K unit :=
  match fuel with
  | O => fail OutOfFuel
  | S fuel =>
    let! l := last_row in
    match l with
    | [] => ret tt
    | x :: _ =>
      let! tm := get_timer x in
      if u32 (current_tick - tm_timeout_tick tm) <? RT_TICK_MAX / 2 then
        fire call x ;;;
        let! current_tick := rt_tick_get in
        check_loop call fuel current_tick
      else ret tt
    end
  end.

Definition rt_timer_check (call : timeout_fn → Z → K unit) (fuel : nat) : K unit :=
  let! current_tick := rt_tick_get in
  let! level := rt_hw_interrupt_disable in
  check_loop call fuel current_tick ;;;
  rt_hw_interrupt_enable level.

(** Enough fuel for every timer of the list. *)
Definition timer_fuel (s : kstate) : nat := S (length (default [] (last (rt_timer_list s)))).

(** The loop over the rows of [rt_timer_list]. *)
Definition rt_system_timer_init : K unit :=
  modify (set_rt_timer_list (replicate RT_TIMER_SKIP_LIST_LEVEL [])).

End ops.

(** ** Expiry relative to a base tick

    Ticks wrap around.  The order of the list is that of the distance from a
    base tick not later than any deadline of the list. *)
Definition tkey (tms : gmap tmr rt_timer) (b : Z) (x : tmr) : Z :=
  match tms !! x with Some tm => u32 (tm_timeout_tick tm - b) | None => 0 end.

(** The largest distance that the comparison by differences supports,
    [RT_TICK_MAX / 2]. *)
Definition half : Z := 0x7fffffff.

Lemma u32_diff a c b : u32 (a - c) = u32 (u32 (a - b) - u32 (c - b)).
Proof.
  unfold u32, wrap. rewrite <- Zminus_mod. f_equal. lia.
Qed.

Lemma tick_compare ta tc b :
  let ka := u32 (ta - b) in let kc := u32 (tc - b) in
  ka ≤ half → kc ≤ half → (ka < half ∨ 0 < kc) →
  (u32 (ta - tc) =? 0) = (ka =? kc) ∧
  (ka ≠ kc → (u32 (ta - tc) <? RT_TICK_MAX / 2) = (kc <? ka)).
Proof.
  intros ka kc Ha Hc Hw. rewrite (u32_diff ta tc b). fold ka kc.
  assert (0 ≤ ka) by (apply wrap_range; lia). assert (0 ≤ kc) by (apply wrap_range; lia).
  change (RT_TICK_MAX / 2) with half. unfold half, u32, wrap in *.
  change (2 ^ 32) with 4294967296 in *.
  destruct (Z.leb_spec kc ka).
  - rewrite Z.mod_small by lia. split; [lia|]. intros. destruct (Z.ltb_spec kc ka); lia.
  - assert ((ka - kc) mod 4294967296 = ka - kc + 4294967296) as ->.
    { symmetry. apply Z.mod_unique with (-1); lia. }
    split; [lia|]. intros. destruct (Z.ltb_spec kc ka); lia.
Qed.

(** ** The invariant of the timer list *)

(** Every row is a sublist of the next. *)
Fixpoint rows_chain {A} (rows : list (list A)) : Prop :=
  match rows with
  | [] => True
  | r :: rows => match rows with [] => True | r' :: _ => r `sublist_of` r' end ∧ rows_chain rows
  end.

(** [b] is the base tick, [W] the widest distance.  Only the last row counts:
    it holds the running timers, whose flags say so.  (The flag of a timer that
    is being fired, or that was detached while it ran, is still set.) *)
Record timers_wf (b W : Z) (tms : gmap tmr rt_timer) (rows : list (list tmr)) : Prop := {
  tw_chain : rows_chain rows;
  tw_last : is_Some (last rows);
  tw_nodup : ∀ l, last rows = Some l → NoDup l;
  tw_active : ∀ l x, last rows = Some l → x ∈ l →
    ∃ tm, tms !! x = Some tm ∧ tm_active tm = true;
  tw_sorted : ∀ l, last rows = Some l → sorted_by (tkey tms b) l;
  tw_window : ∀ l x, last rows = Some l → x ∈ l → tkey tms b x ≤ W;
  tw_W : W ≤ half
}.

Definition running (x : tmr) (rows : list (list tmr)) : Prop :=
  ∃ l, last rows = Some l ∧ x ∈ l.

(** ** Rows *)
Lemma chain_sublist {A} (rows : list (list A)) r l :
  rows_chain rows → last rows = Some l → r ∈ rows → r `sublist_of` l.
Proof.
  revert r. induction rows as [|r0 rows IH]; intros r Hc Hl Hr; [by apply elem_of_nil in Hr|].
  destruct Hc as [H0 Hc]. destruct rows as [|r1 rows].
  - apply list_elem_of_singleton in Hr as ->. by injection Hl as ->.
  - rewrite last_cons_cons in Hl. apply elem_of_cons in Hr as [->|Hr]; [|by apply IH].
    etrans; [exact H0|]. apply IH; [done..|left].
Qed.

Lemma chain_map {A} (f : list A → list A) rows :
  (∀ r r', r `sublist_of` r' → f r `sublist_of` f r') → rows_chain rows → rows_chain (f <$> rows).
Proof.
  intros Hf. induction rows as [|r rows IH]; [done|]. intros [Hr Hc]. simpl.
  split; [|by apply IH]. destruct rows; simpl; auto.
Qed.

(** The last rows replaced by larger ones. *)
Lemma chain_insert {A} (f : list A → list A) skip rows :
  (∀ r r', r' ∈ rows → r `sublist_of` r' → f r `sublist_of` f r') →
  (∀ r, r ∈ rows → r `sublist_of` f r) →
  rows_chain rows → rows_chain (take skip rows ++ (f <$> drop skip rows)).
Proof.
  revert skip. induction rows as [|r rows IH]; intros skip Hf Hg Hc.
  { by rewrite take_nil, drop_nil. }
  destruct Hc as [Hr Hc]. destruct skip as [|skip]; simpl.
  - split.
    + destruct rows; simpl; [done|]. apply Hf; [set_solver|done].
    + specialize (IH 0%nat). rewrite take_0, drop_0 in IH. apply IH; set_solver.
  - split; [|apply IH; set_solver].
    destruct rows as [|r1 rows], skip as [|skip]; simpl; try done.
    etrans; [exact Hr|]. apply Hg. set_solver.
Qed.

Lemma last_insert {A} (f : A → A) skip rows :
  (skip < length rows)%nat → last (take skip rows ++ (f <$> drop skip rows)) = f <$> last rows.
Proof.
  intros Hs. rewrite <- (take_drop skip rows) at 3. rewrite !last_app.
  rewrite fmap_last. destruct (last (drop skip rows)) eqn:E; [done|].
  apply last_None in E. apply (f_equal length) in E. rewrite length_drop in E. simpl in E. lia.
Qed.

Lemma upto_app {A} (key : A → Z) k l l' : upto key k (l ++ l') = upto key k l ++ upto key k l'.
Proof. apply filter_app. Qed.
Lemma upto_cons_le {A} (key : A → Z) k x l : key x ≤ k → upto key k (x :: l) = x :: upto key k l.
Proof. intros. by apply filter_cons_True. Qed.
Lemma upto_nil {A} (key : A → Z) k l : Forall (λ x, k < key x) l → upto key k l = [].
Proof. intros H. apply filter_nil. eapply Forall_impl; [exact H|]. simpl. intros. lia. Qed.

Lemma after_split x row suf : after x row = Some suf → ∃ pre, row = pre ++ x :: suf ∧ x ∉ pre.
Proof.
  induction row as [|y row IH]; simpl; [done|]. case_decide as Hy.
  - intros [= <-]. subst. exists []. split; [done|]. apply not_elem_of_nil.
  - intros (pre & -> & Hn)%IH. exists (y :: pre). split; [done|]. set_solver.
Qed.

Lemma after_elem x row : x ∈ row → ∃ suf, after x row = Some suf.
Proof.
  induction row as [|y row IH]; intros Hx; [by apply elem_of_nil in Hx|]. simpl.
  case_decide; [eauto|]. apply IH. set_solver.
Qed.

Lemma row_insert_app l x y r : x ∉ l → row_insert (Some x) y (l ++ x :: r) = l ++ x :: y :: r.
Proof.
  induction l as [|z l IH]; intros Hx; simpl.
  - by rewrite decide_True by done.
  - rewrite decide_False by set_solver. f_equal. apply IH. set_solver.
Qed.

Lemma row_insert_sorted key k x r :
  sorted_by key r → NoDup r → row_insert (last (upto key k r)) x r = sorted_insert key k x r.
Proof.
  intros Hs Hn. rewrite (sorted_split key k r) in Hn |- * at 2 by done.
  unfold sorted_insert. destruct (last (upto key k r)) as [y|] eqn:E.
  - apply last_Some in E as [l E]. rewrite E in Hn |- *. rewrite <- !app_assoc in *. simpl.
    apply row_insert_app. apply NoDup_app in Hn as (_ & Hn & _).
    intros Hy. apply (Hn y Hy). left.
  - apply last_None in E as ->. simpl. by destruct (beyond key k r).
Qed.

Section start.
Context {cfg : RTConfig}.
Context (s : kstate) (T b : Z).
Abbreviation key := (tkey (timers s) b).
Abbreviation k := (u32 (T - b)).

(** The timers whose deadline [T] can be compared with. *)
Definition comparable (y : tmr) : Prop :=
  is_Some (timers s !! y) ∧ key y ≤ half ∧ (key y < half ∨ 0 < k).
Hypothesis Hk : k ≤ half.

Lemma row_walk_run h suf :
  sorted_by key suf → Forall comparable suf →
  row_walk T h suf s = Ok (match last (upto key k suf) with Some y => Some y | None => h end) s.
Proof.
  revert h. induction suf as [|y suf IH]; intros h Hs Hc; [done|].
  apply StronglySorted_cons in Hs as [Hy Hs]. apply Forall_cons in Hc as [([t Ht] & Hh & Hw) Hc].
  cbn [row_walk]. krun.
  rewrite Ht. krun. assert (key y = u32 (tm_timeout_tick t - b)) as Ey.
  { unfold tkey. by rewrite Ht. }
  destruct (tick_compare (tm_timeout_tick t) T b) as [E1 E2]; [by rewrite <- ?Ey..|].
  rewrite E1, <- Ey. destruct (Z.eqb_spec (key y) k) as [E|E].
  - rewrite IH by done. rewrite upto_cons_le by lia. rewrite last_cons.
    by destruct (last (upto _ _ _)).
  - rewrite E2, <- Ey by (by rewrite <- Ey). destruct (Z.ltb_spec k (key y)).
    + rewrite upto_nil; [done|]. constructor; [done|].
      eapply Forall_impl; [exact Hy|]. simpl. intros. lia.
    + rewrite IH by done. rewrite upto_cons_le by lia. rewrite last_cons.
      by destruct (last (upto _ _ _)).
Qed.

Definition enters (h : option tmr) (rows : list (list tmr)) : Prop :=
  match h, rows with Some y, r :: _ => y ∈ r ∧ key y ≤ k | _, _ => True end.

Lemma row_heads_run h rows :
  rows_chain rows → (∀ r, r ∈ rows → sorted_by key r ∧ Forall comparable r) → enters h rows →
  row_heads T h rows s = Ok ((λ r, last (upto key k r)) <$> rows) s.
Proof.
  revert h. induction rows as [|r rows IH]; intros h Hc Hr Hh; [done|].
  destruct Hc as [Hsub Hc]. destruct (Hr r ltac:(left)) as [Hrs Hrc].
  assert (∃ suf, row_after h r s = Ok suf s ∧ row_walk T h suf s = Ok (last (upto key k r)) s)
    as (suf & Ea & Ew).
  { destruct h as [y|].
    - destruct Hh as [Hy Hyk]. destruct (after_elem y r Hy) as [suf Hsuf].
      exists suf. unfold row_after. rewrite Hsuf. split; [done|].
      apply after_split in Hsuf as (pre & -> & _).
      apply StronglySorted_app in Hrs as (_ & _ & [_ Hrs]%StronglySorted_cons).
      apply Forall_app in Hrc as [_ [_ Hrc]%Forall_cons].
      rewrite row_walk_run by done. rewrite upto_app, upto_cons_le by done.
      rewrite last_app_cons, last_cons. by destruct (last (upto key k suf)).
    - exists r. split; [done|]. rewrite row_walk_run by done. by destruct (last _). }
  cbn [row_heads fmap list_fmap]. rewrite (bind_ok _ _ _ _ _ Ea), (bind_ok _ _ _ _ _ Ew).
  assert (enters (last (upto key k r)) rows) as He.
  { unfold enters. destruct (last (upto key k r)) as [y|] eqn:E; [|done].
    destruct rows as [|r' rows]; [done|]. apply last_Some_elem_of, elem_of_upto in E as [? Hy].
    split; [|done]. by eapply sublist_subseteq. }
  by rewrite (bind_ok _ _ _ _ _ (IH _ Hc ltac:(set_solver) He)).
Qed.

Lemma insert_rows_run skip x rows :
  (∀ r, r ∈ rows → sorted_by key r ∧ NoDup r) →
  insert_rows skip ((λ r, last (upto key k r)) <$> rows) x rows =
  take skip rows ++ (sorted_insert key k x <$> drop skip rows).
Proof.
  intros Hr. unfold insert_rows. f_equal. rewrite <- fmap_drop.
  assert (∀ r, r ∈ drop skip rows → sorted_by key r ∧ NoDup r) as Hd.
  { intros r Hin. apply Hr. eapply sublist_subseteq; [apply sublist_drop|done]. }
  induction (drop skip rows) as [|r l IH]; [done|]. simpl. f_equal.
  - apply row_insert_sorted; apply Hd; left.
  - apply IH. intros. apply Hd. by right.
Qed.
End start.

(** ** Flags *)
Lemma deactivate_inactive tm : tm_active (tm_deactivate tm) = false.
Proof.
  unfold tm_active, tm_deactivate, tm_set_flag, tm_set_parent, obj_set_flag, tm_flag, flag_clear.
  cbn. rewrite <- Z.land_assoc. by rewrite Z.land_0_r.
Qed.

Lemma activate_active tm : tm_active (tm_activate tm) = true.
Proof.
  unfold tm_active, tm_activate, tm_set_flag, tm_set_parent, obj_set_flag, tm_flag. cbn.
  rewrite negb_true_iff, Z.eqb_neq. intros H.
  apply (f_equal (λ v, Z.testbit v 0)) in H. revert H.
  rewrite Z.land_spec, Z.lor_spec, Z.bits_0. unfold RT_TIMER_FLAG_ACTIVATED.
  rewrite (Z.bit0_odd 1). simpl. by rewrite orb_true_r.
Qed.

Lemma deactivate_periodic tm : tm_periodic (tm_deactivate tm) = tm_periodic tm.
Proof.
  unfold tm_periodic, tm_deactivate, tm_set_flag, tm_set_parent, obj_set_flag, tm_flag, flag_clear.
  cbn. by rewrite <- Z.land_assoc.
Qed.

Lemma activate_periodic tm : tm_periodic (tm_activate tm) = tm_periodic tm.
Proof.
  unfold tm_periodic, tm_activate, tm_set_flag, tm_set_parent, obj_set_flag, tm_flag. cbn.
  rewrite Z.land_lor_distr_l. by rewrite Z.lor_0_r.
Qed.

(** ** How the invariant moves *)
Definition without (x : tmr) (rows : list (list tmr)) : list (list tmr) :=
  filter (λ y, y ≠ x) <$> rows.

Lemma last_without x rows l : last (without x rows) = Some l →
  ∃ l0, last rows = Some l0 ∧ l = filter (λ y, y ≠ x) l0.
Proof. unfold without. rewrite fmap_last. intros (l0 & ? & ->)%fmap_Some. eauto. Qed.

Lemma without_none x rows : Forall (λ r, x ∉ r) (without x rows).
Proof.
  apply Forall_forall. intros r (r0 & -> & _)%list_elem_of_fmap.
  intros [? _]%list_elem_of_filter. done.
Qed.

Lemma tkey_insert_ne tms b x y tm : x ≠ y → tkey (<[x := tm]> tms) b y = tkey tms b y.
Proof. intros. unfold tkey. by rewrite lookup_insert_ne. Qed.

Lemma running_without x y rows : running y (without x rows) ↔ running y rows ∧ y ≠ x.
Proof.
  unfold running, without. rewrite fmap_last. split.
  - intros (l & (l0 & ? & ->)%fmap_Some & [? ?]%list_elem_of_filter). eauto.
  - intros [(l & Hl & ?) ?]. exists (filter (λ y, y ≠ x) l). rewrite Hl.
    split; [done|]. by apply list_elem_of_filter.
Qed.

Section moves.
Context (b W : Z) (tms : gmap tmr rt_timer) (rows : list (list tmr)).
Hypothesis Hwf : timers_wf b W tms rows.

(** A timer is taken off the list. *)
Lemma tw_without x : timers_wf b W tms (without x rows).
Proof.
  destruct Hwf as [Hc [l0 Hl] Hn Ha Hs Hw HW]. split.
  - apply chain_map; [|done]. intros. by apply filter_sublist.
  - exists (filter (λ y, y ≠ x) l0). unfold without. by rewrite fmap_last, Hl.
  - intros l (l1 & ? & ->)%last_without. simplify_eq. apply NoDup_filter. eauto.
  - intros l y (l1 & ? & ->)%last_without [? ?]%list_elem_of_filter. simplify_eq. eauto.
  - intros l (l1 & ? & ->)%last_without. simplify_eq.
    eapply sorted_sublist; [apply sublist_filter|eauto].
  - intros l y (l1 & ? & ->)%last_without [? ?]%list_elem_of_filter. simplify_eq. eauto.
  - done.
Qed.

(** A timer that does not run is written. *)
Lemma tw_off x tm : ¬ running x rows → timers_wf b W (<[x := tm]> tms) rows.
Proof.
  intros Hx. destruct Hwf as [Hc [l0 Hl] Hn Ha Hs Hw HW].
  assert (∀ l y, last rows = Some l → y ∈ l → x ≠ y) as Hne.
  { intros l y ? ? ->. apply Hx. by exists l. }
  split; try done.
  - intros l y ? ?. rewrite lookup_insert_ne by eauto. eauto.
  - intros l ?. apply (sorted_by_ext (tkey tms b)); [|eauto].
    intros y Hy. rewrite tkey_insert_ne; eauto.
  - intros l y ? ?. rewrite tkey_insert_ne; eauto.
Qed.

Lemma not_running_without x : ¬ running x (without x rows).
Proof. by intros [_ ?]%running_without. Qed.

(** Fields other than the deadline and the activation. *)
Lemma tw_update x tm tm' : tms !! x = Some tm → tm_active tm' = tm_active tm →
  tm_timeout_tick tm' = tm_timeout_tick tm → timers_wf b W (<[x := tm']> tms) rows.
Proof.
  intros Hx Ea Et. destruct Hwf as [Hc [l0 Hl] Hn Ha Hs Hw HW].
  assert (∀ y, tkey (<[x := tm']> tms) b y = tkey tms b y) as Hk.
  { intros y. unfold tkey. destruct (decide (x = y)) as [->|].
    - by rewrite lookup_insert_eq, Hx, Et.
    - by rewrite lookup_insert_ne. }
  split; try done.
  - intros l y ? Hy. destruct (Ha _ _ H Hy) as (tm0 & ? & ?). destruct (decide (x = y)) as [->|].
    + rewrite lookup_insert_eq. naive_solver congruence.
    + rewrite lookup_insert_ne by done. eauto.
  - intros l ?. apply (sorted_by_ext (tkey tms b)); [|eauto]. done.
  - intros l y ? Hy. rewrite Hk. eauto.
Qed.

(** A timer inserted at its place into the rows from [skip] on. *)
Lemma tw_start x tm skip : ¬ running x rows → tm_active tm = true →
  u32 (tm_timeout_tick tm - b) ≤ half → (skip < length rows)%nat →
  let k := u32 (tm_timeout_tick tm - b) in
  timers_wf b (Z.max W k) (<[x := tm]> tms)
    (take skip rows ++ (sorted_insert (tkey tms b) k x <$> drop skip rows)).
Proof.
  intros Hx' Ht Hk Hskip k. destruct Hwf as [Hc [l0 Hl] Hn Ha Hs Hw HW].
  assert (x ∉ l0) as Hx. { intros ?. apply Hx'. by exists l0. }
  set (f := sorted_insert _ _ _).
  assert (∀ r, r ∈ rows → r `sublist_of` l0) as Hsub by (intros; by eapply chain_sublist).
  assert (last (take skip rows ++ (f <$> drop skip rows)) = Some (f l0)) as Hlast.
  { rewrite last_insert by done. by rewrite Hl. }
  assert (tkey (<[x := tm]> tms) b x = k) as Hkx by (unfold tkey; by rewrite lookup_insert_eq).
  assert (∀ y, y ∈ l0 → tkey tms b y = tkey (<[x := tm]> tms) b y) as Hke.
  { intros y Hy. rewrite tkey_insert_ne; [done|]. naive_solver. }
  split.
  - apply chain_insert; [| |done].
    + intros r r' _ ?. by apply sorted_insert_sublist.
    + intros r Hr. apply sorted_insert_sublist_r.
      apply (sorted_sublist _ _ l0); auto.
  - by eexists.
  - intros l E. rewrite Hlast in E. simplify_eq. unfold f. rewrite sorted_insert_perm.
    apply NoDup_cons. eauto.
  - intros l y E. rewrite Hlast in E. simplify_eq. unfold f.
    rewrite sorted_insert_perm, elem_of_cons. intros [->|Hy].
    + rewrite lookup_insert_eq. eauto.
    + rewrite lookup_insert_ne by naive_solver. eauto.
  - intros l E. rewrite Hlast in E. simplify_eq. unfold f.
    rewrite (sorted_insert_ext _ (tkey (<[x := tm]> tms) b)) by done.
    apply sorted_insert_sorted; [done|]. eapply sorted_by_ext; eauto.
  - intros l y E. rewrite Hlast in E. simplify_eq. unfold f.
    rewrite sorted_insert_perm, elem_of_cons. intros [->|Hy]; [lia|].
    rewrite <- Hke by done. specialize (Hw _ _ Hl Hy). lia.
  - lia.
Qed.
End moves.

(** ** What the operations do *)
Definition stopped (tm : rt_timer) : rt_timer := if tm_active tm then tm_deactivate tm else tm.

Definition timer_stop_state (x : tmr) (tm : rt_timer) (s : kstate) : kstate :=
  set_timers (<[x := stopped tm]> (timers s))
    (set_rt_timer_list (without x (rt_timer_list s))
      (set_trace (trace s ++ if tm_active tm
                             then hook_events rt_object_put_hook (arg_object (OTimer x)) s
                             else []) s)).

Definition deadline (s : kstate) (tm : rt_timer) : Z := u32 (rt_tick s + tm_init_tick tm).
Definition armed (s : kstate) (tm : rt_timer) : rt_timer :=
  tm_activate (tm_set_timeout (deadline s tm) (tm_deactivate tm)).

(** The rows after the insertion of a timer with deadline [T]: the height of
    the timer in the skip list depends on [random_nr]. *)
Definition start_skip {cfg : RTConfig} (s : kstate) : nat :=
  let n := (length (rt_timer_list s) - 1)%nat in
  (n - height n (u32 (random_nr s + 1)))%nat.
Definition start_rows {cfg : RTConfig} (b T : Z) (x : tmr) (s : kstate) : list (list tmr) :=
  let rows := without x (rt_timer_list s) in
  take (start_skip s) rows ++
  (sorted_insert (tkey (timers s) b) (u32 (T - b)) x <$> drop (start_skip s) rows).

Definition timer_start_state {cfg : RTConfig} (b : Z) (x : tmr) (tm : rt_timer) (s : kstate)
    : kstate :=
  set_timers (<[x := armed s tm]> (timers s))
    (set_rt_timer_list (start_rows b (deadline s tm) x s)
      (set_random_nr (u32 (random_nr s + 1))
        (set_trace (trace s ++ hook_events rt_object_take_hook (arg_object (OTimer x)) s) s))).

Lemma stopped_inactive tm : tm_active (stopped tm) = false.
Proof. unfold stopped. destruct (tm_active tm) eqn:E; [apply deactivate_inactive|done]. Qed.

Lemma without_id b W tms rows x :
  timers_wf b W tms rows → ¬ running x rows → without x rows = rows.
Proof.
  intros [Hc [l Hl] _ _ _ _ _] Hx'. assert (x ∉ l) as Hx by (intros ?; apply Hx'; by exists l).
  unfold without.
  rewrite <- (list_fmap_id rows) at 2. apply list_fmap_ext. intros i r Hr.
  apply list_filter_all_id. intros y Hy ->. apply Hx.
  eapply sublist_subseteq; [eapply chain_sublist|]; eauto using list_elem_of_lookup_2.
Qed.

Lemma inactive_not_running b W tms rows x tm :
  timers_wf b W tms rows → tms !! x = Some tm → tm_active tm = false → ¬ running x rows.
Proof.
  intros Hwf Hx Ht (l & Hl & Hin).
  destruct (tw_active _ _ _ _ Hwf _ _ Hl Hin) as (? & ? & ?). congruence.
Qed.

Lemma not_running_rows b W tms rows x :
  timers_wf b W tms rows → ¬ running x rows → Forall (λ r, x ∉ r) rows.
Proof.
  intros [Hc [l Hl] _ _ _ _ _] Hx. apply Forall_forall. intros r Hr Hin. apply Hx.
  exists l. split; [done|]. eapply sublist_subseteq; [by eapply chain_sublist|done].
Qed.

Section runs.
Context {cfg : RTConfig}.

Lemma stop_run b W s x tm :
  timers_wf b W (timers s) (rt_timer_list s) → timers s !! x = Some tm →
  rt_timer_stop x s =
    Ok (if tm_active tm then RT_EOK else - RT_ERROR) (timer_stop_state x tm s).
Proof.
  intros Hwf Hx. unfold rt_timer_stop, timer_stop_state, stopped, upd_timer, _rt_timer_remove.
  krun. rewrite Hx. krun. destruct (tm_active tm) eqn:E; krun.
  - rewrite Hx. krun. done.
  - rewrite insert_id, app_nil_r by done.
    rewrite (without_id _ _ _ _ _ Hwf); [done|]. by eapply inactive_not_running.
Qed.

Lemma height_le n v : (height n v ≤ n)%nat.
Proof. revert v. induction n as [|n IH]; intros v; simpl; [done|]. case_match; [specialize (IH (Z.shiftr v (Z.shiftr (RT_TIMER_SKIP_LIST_MASK + 1) 1)))|]; lia. Qed.

Lemma start_skip_lt s l : last (rt_timer_list s) = Some l →
  (start_skip s < length (rt_timer_list s))%nat.
Proof.
  intros Hl. unfold start_skip. destruct (rt_timer_list s); [done|]. simpl. lia.
Qed.

Lemma check_stopped_run x s :
  Forall (λ r, x ∉ r) (rt_timer_list s) → check_stopped x s = Ok tt s.
Proof. intros. unfold check_stopped. by rewrite decide_True. Qed.

(** A time below half of the tick range, and a distance the comparisons of
    the list support. *)
Definition startable (b W : Z) (s : kstate) (tm : rt_timer) : Prop :=
  0 ≤ tm_init_tick tm < half ∧ u32 (deadline s tm - b) ≤ half ∧
  (W < half ∨ 0 < u32 (deadline s tm - b)).

Lemma ext_without x tm b k n (tms : gmap tmr rt_timer) rows :
  sorted_insert (tkey (<[x:=tm]> tms) b) k x <$> drop n (without x rows) =
  sorted_insert (tkey tms b) k x <$> drop n (without x rows).
Proof.
  apply list_fmap_ext. intros i r Hi. apply sorted_insert_ext. intros y Hy.
  apply tkey_insert_ne. intros <-.
  pose proof (without_none x rows) as Hn. rewrite Forall_forall in Hn.
  eapply Hn; [|done]. eapply sublist_subseteq; [apply sublist_drop|].
  by eapply list_elem_of_lookup_2.
Qed.

Lemma wf_row b W s T rows r :
  timers_wf b W (timers s) rows → r ∈ rows → W < half ∨ 0 < u32 (T - b) →
  sorted_by (tkey (timers s) b) r ∧ NoDup r ∧ Forall (comparable s T b) r.
Proof.
  intros [Hc [l Hl] Hn Ha Hs Hw HW] Hr HT.
  assert (r `sublist_of` l) as Hsub by by eapply chain_sublist.
  split_and!; [eapply sorted_sublist; eauto|eapply sublist_NoDup; eauto|].
  apply Forall_forall. intros y Hy.
  assert (y ∈ l) as Hyl by by eapply sublist_subseteq.
  pose proof (Hw _ _ Hl Hyl). apply (Ha _ _ Hl) in Hyl as (t & Ht & _).
  split; [by exists t|]. lia.
Qed.

Lemma start_run b W s x tm :
  timers_wf b W (timers s) (rt_timer_list s) → timers s !! x = Some tm →
  startable b W s tm →
  rt_timer_start x s = Ok (- RT_EOK) (timer_start_state b x tm s).
Proof.
  intros Hwf Hx (Hi & Hk & Hw). unfold rt_timer_start, upd_timer, _rt_timer_remove.
  krun. rewrite Hx. krun. rewrite lookup_insert_eq. unfold RT_ASSERT.
  change (tm_init_tick (tm_deactivate tm)) with (tm_init_tick tm).
  change (RT_TICK_MAX / 2) with half. replace (tm_init_tick tm <? half) with true by lia.
  cbn [negb]. rewrite andb_false_r. unfold rt_tick_get. krun.
  fold (deadline s tm). fold (without x (rt_timer_list s)).
  rewrite insert_insert_eq. set (tm1 := tm_set_timeout _ _).
  match goal with |- context [row_heads _ _ _ ?t] => set (s1 := t) end.
  assert (timers_wf b W (timers s1) (without x (rt_timer_list s))) as Hwf1.
  { apply tw_off; [by apply tw_without|]. by eapply not_running_without. }
  assert (∀ r, r ∈ without x (rt_timer_list s) → sorted_by (tkey (timers s1) b) r ∧ NoDup r ∧
            Forall (comparable s1 (deadline s tm) b) r) as Hr.
  { intros r Hr. eapply wf_row; [done|done|lia]. }
  rewrite (row_heads_run s1 (deadline s tm) b); [|done|apply Hwf1|naive_solver|done].
  assert (∀ skip, insert_rows skip ((λ r, last (upto (tkey (<[x:=tm1]> (timers s)) b)
      (u32 (deadline s tm - b)) r)) <$> without x (rt_timer_list s)) x
      (without x (rt_timer_list s)) = take skip (without x (rt_timer_list s)) ++
      (sorted_insert (tkey (<[x:=tm1]> (timers s)) b) (u32 (deadline s tm - b)) x <$>
         drop skip (without x (rt_timer_list s)))) as Hins.
  { intros skip. apply (insert_rows_run s1). intros r Hin. by apply Hr in Hin as (? & ? & _). }
  clear Hwf1 Hr. subst s1. krun. rewrite check_stopped_run by (ksg; apply without_none). krun.
  rewrite lookup_insert_eq. krun. rewrite insert_insert_eq.
  unfold timer_start_state, start_rows, start_skip, armed. fold tm1.
  assert (length (without x (rt_timer_list s)) = length (rt_timer_list s)) as ->
    by apply length_fmap.
  rewrite Hins, ext_without. reflexivity.
Qed.

Lemma start_wf b W s x tm :
  timers_wf b W (timers s) (rt_timer_list s) → timers s !! x = Some tm → startable b W s tm →
  timers_wf b (Z.max W (u32 (deadline s tm - b)))
    (timers (timer_start_state b x tm s)) (rt_timer_list (timer_start_state b x tm s)).
Proof.
  intros Hwf Hx (Hi & Hk & Hw). unfold timer_start_state. ksg.
  destruct (tw_last _ _ _ _ Hwf) as [l Hl].
  assert (timers_wf b W (<[x := tm_deactivate tm]> (timers s)) (without x (rt_timer_list s)))
    as Hwf1 by (apply tw_off; [by apply tw_without|]; by eapply not_running_without).
  rewrite <- (insert_insert_eq _ x (armed s tm) (tm_deactivate tm)).
  unfold start_rows. rewrite <- (ext_without x (tm_deactivate tm)).
  assert (tm_timeout_tick (armed s tm) = deadline s tm) as Et by reflexivity.
  rewrite <- Et in Hk |- *.
  apply (tw_start _ _ _ _ Hwf1); [|apply activate_active|done|].
  - by eapply not_running_without.
  - unfold without. rewrite length_fmap. by eapply start_skip_lt.
Qed.

(** The last row after a start. *)
Lemma start_last b s x tm l :
  last (rt_timer_list s) = Some l →
  last (rt_timer_list (timer_start_state b x tm s)) =
    Some (sorted_insert (tkey (timers s) b) (u32 (deadline s tm - b)) x (filter (λ y, y ≠ x) l)).
Proof.
  intros Hl. unfold timer_start_state, start_rows. ksg. rewrite last_insert.
  - unfold without. by rewrite fmap_last, Hl.
  - unfold without. rewrite length_fmap. by eapply start_skip_lt.
Qed.

(** The base tick moves. *)
Lemma tw_rebase b W tms rows : timers_wf b W tms rows →
  (∀ l x, last rows = Some l → x ∈ l → 1 ≤ tkey tms b x) → timers_wf (b + 1) (W - 1) tms rows.
Proof.
  intros Hwf H1.
  assert (∀ l x, last rows = Some l → x ∈ l → tkey tms (b + 1) x = tkey tms b x - 1) as Hk.
  { intros l x Hl Hx. specialize (H1 _ _ Hl Hx). apply (tw_active _ _ _ _ Hwf _ _ Hl) in Hx
      as (tm & Hx & _). revert H1. unfold tkey, u32, wrap. rewrite Hx. intros H1.
    replace (tm_timeout_tick tm - (b + 1)) with (tm_timeout_tick tm - b - 1) by lia.
    rewrite Zminus_mod. rewrite (Z.mod_small 1) by lia.
    apply Z.mod_small. pose proof (Z.mod_pos_bound (tm_timeout_tick tm - b) (2 ^ 32)). lia. }
  destruct Hwf as [Hc [l0 Hl] Hn Ha Hs Hw HW]. split; try done; [..|lia].
  - intros l E. apply (sorted_by_mono (tkey tms b)); [|auto].
    intros x y Hx Hy ?. rewrite !(Hk l) by done. lia.
  - intros l x E Hx. rewrite (Hk l) by done. specialize (Hw _ _ E Hx). lia.
Qed.

(** A base tick counts modulo the range of ticks. *)
Lemma tw_base b b' W tms rows :
  timers_wf b W tms rows → u32 b = u32 b' → timers_wf b' W tms rows.
Proof.
  intros [Hc Hl Hn Ha Hs Hw HW] Hb.
  assert (∀ x, tkey tms b x = tkey tms b' x) as Hk.
  { intros x. unfold tkey. destruct (tms !! x) as [tm|]; [|done].
    unfold u32, wrap in *. rewrite (Zminus_mod _ b), (Zminus_mod _ b'). by rewrite Hb. }
  split; try done.
  - intros l E. apply (sorted_by_ext (tkey tms b)); [|auto]. intros. apply Hk.
  - intros l x E Hx. rewrite <- Hk. eauto.
Qed.

Lemma tw_widen b W W' tms rows :
  timers_wf b W tms rows → W ≤ W' ≤ half → timers_wf b W' tms rows.
Proof.
  intros [Hc Hl Hn Ha Hs Hw HW] H. split; try done; [|lia].
  intros l x E Hx. specialize (Hw _ _ E Hx). lia.
Qed.

(** *** [rt_timer_check] *)

(** Times that the comparisons support; a periodic timer has a period. *)
Definition time_ok (tm : rt_timer) : Prop :=
  0 ≤ tm_init_tick tm < half ∧ (tm_periodic tm = true → 0 < tm_init_tick tm).
Definition times_ok (tms : gmap tmr rt_timer) (rows : list (list tmr)) : Prop :=
  ∀ x tm, running x rows → tms !! x = Some tm → time_ok tm.

Definition same_timers (s s' : kstate) : Prop :=
  timers s' = timers s ∧ rt_timer_list s' = rt_timer_list s ∧ rt_tick s' = rt_tick s.

Definition fire_state (x : tmr) (s : kstate) : kstate :=
  set_rt_timer_list (without x (rt_timer_list s))
    (set_trace (trace s ++ hook_events rt_timer_timeout_hook (arg_object (OTimer x)) s) s).
Definition done_state (x : tmr) (tm : rt_timer) (s : kstate) : kstate :=
  set_timers (<[x := tm_deactivate tm]> (timers s)) s.

Lemma restart_key now init : 0 ≤ init < 0xfffffffe →
  u32 (u32 (now + init) - (now - 1)) = 1 + init.
Proof.
  intros Hi. unfold u32, wrap. rewrite Zminus_mod_idemp_l.
  replace (now + init - (now - 1)) with (1 + init) by lia. apply Z.mod_small. lia.
Qed.

Lemma periodic_startable W b s tm :
  rt_tick s = b + 1 → 0 < tm_init_tick tm < half → W ≤ half → startable b W s tm.
Proof.
  intros Hb Hi HW. unfold startable, deadline.
  assert (u32 (u32 (rt_tick s + tm_init_tick tm) - b) = 1 + tm_init_tick tm) as ->.
  { replace b with (rt_tick s - 1) by lia. apply restart_key. unfold half in *. lia. }
  unfold half in *. lia.
Qed.

(** What [rt_timer_check] asks of the timeout functions, and of an invariant
    [J] of the system; the base tick is the previous tick.  A timeout function
    leaves the timers as they are. *)
Class TimeoutHandler (call : timeout_fn → Z → K unit) (J : kstate → Prop) : Prop := {
  handler_wf s : J s →
    timers_wf (rt_tick s - 1) half (timers s) (rt_timer_list s) ∧
    times_ok (timers s) (rt_timer_list s);
  handler_call x tm s : J s → running x (rt_timer_list s) → timers s !! x = Some tm →
    ∃ s', call (tm_timeout_func tm) (tm_parameter tm) (fire_state x s) = Ok tt s' ∧
      same_timers (fire_state x s) s' ∧ J (done_state x tm s') ∧
      (tm_periodic tm = true →
       J (timer_start_state (rt_tick s - 1) x (tm_deactivate tm) (done_state x tm s')))
}.

(** One timer after the other. *)
Fixpoint fires (call : timeout_fn → Z → K unit) (xs : list tmr) : K unit :=
  match xs with
  | [] => ret tt
  | x :: xs => fire call x ;;; fires call xs
  end.

(** The timers due at the current tick, in the order of the list. *)
Definition due (s : kstate) (l : list tmr) : list tmr :=
  upto (tkey (timers s) (rt_tick s - 1)) 1 l.

Lemma due_compare now T : u32 (T - (now - 1)) ≤ half →
  (u32 (now - T) <? RT_TICK_MAX / 2) = (u32 (T - (now - 1)) <=? 1).
Proof.
  intros Hk. rewrite (u32_diff now T (now - 1)).
  assert (0 ≤ u32 (T - (now - 1))) by (apply wrap_range; lia).
  replace (now - (now - 1)) with 1 by lia. change (RT_TICK_MAX / 2) with half.
  set (k := u32 (T - (now - 1))) in *. unfold half, u32, wrap in *.
  change (2 ^ 32) with 4294967296 in *. rewrite (Z.mod_small 1) by lia.
  destruct (Z.leb_spec k 1).
  - rewrite Z.mod_small by lia. lia.
  - assert ((1 - k) mod 4294967296 = 1 - k + 4294967296) as ->; [|lia].
    symmetry. apply Z.mod_unique with (-1); lia.
Qed.

Lemma due_ext s s' l :
  rt_tick s' = rt_tick s → (∀ x, x ∈ l → timers s' !! x = timers s !! x) → due s' l = due s l.
Proof.
  intros Et Hx. unfold due, upto. apply SortedList.filter_ext_in. intros x Hin.
  unfold tkey. by rewrite Hx, Et.
Qed.

Section check.
Context (call : timeout_fn → Z → K unit) (J : kstate → Prop).
Context `{!TimeoutHandler call J}.

(** What one firing of the first timer does. *)
Lemma fire_exec s x l tm :
  J s → last (rt_timer_list s) = Some (x :: l) → timers s !! x = Some tm →
  ∃ s2 s', call (tm_timeout_func tm) (tm_parameter tm) (fire_state x s) = Ok tt s2 ∧
    fire call x s = Ok tt s' ∧ J s' ∧
    s' = (if tm_periodic tm
          then timer_start_state (rt_tick s - 1) x (tm_deactivate tm) (done_state x tm s2)
          else done_state x tm s2) ∧
    timers s2 = timers s ∧ rt_tick s2 = rt_tick s ∧ last (rt_timer_list s2) = Some l.
Proof.
  intros HJ Hl Hx. destruct (handler_wf _ HJ) as [Hwf Ht].
  assert (running x (rt_timer_list s)) as Hrun by (eexists; split; [done|left]).
  destruct (tw_active _ _ _ _ Hwf _ x Hl ltac:(left)) as (? & ? & Hact). simplify_eq.
  pose proof (tw_nodup _ _ _ _ Hwf _ Hl) as [Hxl _]%NoDup_cons.
  destruct (handler_call _ _ _ HJ Hrun Hx) as (s2 & Ec & (Et2 & El2 & Ek2) & HJ3 & HJ4).
  change (timers (fire_state x s)) with (timers s) in Et2.
  change (rt_tick (fire_state x s)) with (rt_tick s) in Ek2.
  assert (timers s2 !! x = Some tm) as Hx2 by by rewrite Et2.
  eexists s2, _. split_and!; [exact Ec| | |done|done|done|].
  - unfold fire, _rt_timer_remove. krun. rewrite Hx. krun.
    unfold fire_state, without in Ec. rewrite Ec. krun. rewrite Hx2. krun. rewrite Hact.
    destruct (tm_periodic tm) eqn:Hp; [|done]. krun.
    destruct (handler_wf _ HJ3) as [Hwf3 _].
    assert (timers (done_state x tm s2) !! x = Some (tm_deactivate tm)) as Hx3.
    { cbn. by rewrite lookup_insert_eq. }
    assert (rt_tick (done_state x tm s2) = rt_tick s) as Ek3 by exact Ek2.
    rewrite Ek3 in Hwf3. fold (done_state x tm s2).
    erewrite (start_run (rt_tick s - 1)); [done|exact Hwf3|exact Hx3|].
    destruct (Ht _ _ Hrun Hx) as [Hi Hpos].
    apply (periodic_startable half); [lia|split; [by apply Hpos|cbn; lia]|lia].
  - destruct (tm_periodic tm) eqn:Hp; [|done]. by apply HJ4.
  - rewrite El2. cbn. unfold without. rewrite fmap_last, Hl. cbn [fmap option_fmap option_map].
    rewrite filter_cons_False by naive_solver. f_equal. apply list_filter_all_id. naive_solver.
Qed.

(** A restarted timer is not due, and leaves the due ones as they are. *)
Lemma restart_due s x tm l :
  x ∉ l → 0 < tm_init_tick tm < half →
  let s' := timer_start_state (rt_tick s - 1) x tm s in
  due s' (sorted_insert (tkey (timers s) (rt_tick s - 1))
            (u32 (deadline s tm - (rt_tick s - 1))) x l) = due s l.
Proof.
  intros Hxl Hi s'. unfold deadline. rewrite restart_key by (unfold half in *; lia).
  assert (∀ y, y ∈ l → timers s' !! y = timers s !! y) as Hy.
  { intros y Hy. unfold s'. cbn. by rewrite lookup_insert_ne by naive_solver. }
  rewrite <- (due_ext s s' l) by done. unfold due.
  change (rt_tick s') with (rt_tick s).
  rewrite (sorted_insert_ext _ (tkey (timers s') (rt_tick s - 1))).
  - apply upto_sorted_insert; [lia|]. unfold tkey, s'. cbn. rewrite lookup_insert_eq.
    cbn. unfold deadline. rewrite restart_key by (unfold half in *; lia). lia.
  - intros y Hyl. unfold tkey. by rewrite Hy.
Qed.

(** One firing takes the first due timer, and only it, off the due ones. *)
Lemma fire_run s x l :
  J s → last (rt_timer_list s) = Some (x :: l) →
  ∃ s' l', fire call x s = Ok tt s' ∧ J s' ∧ rt_tick s' = rt_tick s ∧
    last (rt_timer_list s') = Some l' ∧ due s' l' = due s l.
Proof.
  intros HJ Hl. destruct (handler_wf _ HJ) as [Hwf Ht].
  destruct (tw_active _ _ _ _ Hwf _ x Hl ltac:(left)) as (tm & Hx & Hact).
  pose proof (tw_nodup _ _ _ _ Hwf _ Hl) as [Hxl _]%NoDup_cons.
  destruct (fire_exec s x l tm) as (s2 & s' & _ & Ef & HJ' & -> & Et2 & Ek2 & El2); [done..|].
  set (s3 := done_state x tm s2) in *.
  assert (rt_tick s3 = rt_tick s) as Ek3 by exact Ek2.
  assert (due s3 l = due s l) as Ed.
  { apply due_ext; [done|]. intros y Hy. cbn. rewrite lookup_insert_ne by naive_solver.
    by rewrite Et2. }
  destruct (tm_periodic tm) eqn:Hp.
  - eexists _, _. split_and!; [done|done|done|apply start_last; exact El2|].
    rewrite (list_filter_all_id (λ y, y ≠ x)) by naive_solver. rewrite <- Ed, <- Ek3.
    destruct (Ht x tm ltac:(by eexists; split; [done|left]) Hx) as [Hi Hpos].
    apply restart_due; [done|].
    change (tm_init_tick (tm_deactivate tm)) with (tm_init_tick tm). naive_solver lia.
  - exists s3, l. by split_and!.
Qed.

(** The loop fires the due timers one after the other, and no other. *)
Lemma check_loop_run n : ∀ s l fuel,
  J s → last (rt_timer_list s) = Some l → length (due s l) = n → (n < fuel)%nat →
  ∃ s' l', fires call (due s l) s = Ok tt s' ∧ check_loop call fuel (rt_tick s) s = Ok tt s' ∧
    J s' ∧ rt_tick s' = rt_tick s ∧ last (rt_timer_list s') = Some l' ∧ due s' l' = [].
Proof.
  induction n as [|n IH]; intros s l fuel HJ Hl Hn Hf;
    (destruct fuel as [|fuel]; [lia|]); cbn [check_loop]; unfold last_row; krun; rewrite Hl; krun.
  all: destruct (handler_wf _ HJ) as [Hwf Ht].
  all: assert (∀ x tm, x ∈ l → timers s !! x = Some tm →
    (u32 (rt_tick s - tm_timeout_tick tm) <? RT_TICK_MAX / 2) =
    (tkey (timers s) (rt_tick s - 1) x <=? 1)) as Hdue by
    (intros x tm Hin Hx; pose proof (tw_window _ _ _ _ Hwf _ _ Hl Hin) as Hw; unfold tkey in *;
     rewrite Hx in *; by apply due_compare).
  - apply nil_length_inv in Hn. rewrite Hn. exists s, l. split_and!; try done.
    destruct l as [|x l]; [done|].
    destruct (tw_active _ _ _ _ Hwf _ x Hl ltac:(left)) as (tm & Hx & _).
    rewrite Hx. krun. rewrite (Hdue x) by (by try left). unfold due, upto in Hn.
    destruct (Z.leb_spec (tkey (timers s) (rt_tick s - 1) x) 1); [|done].
    by rewrite filter_cons_True in Hn by lia.
  - destruct l as [|x l]; [done|].
    destruct (tw_active _ _ _ _ Hwf _ x Hl ltac:(left)) as (tm & Hx & _).
    rewrite Hx. krun. rewrite (Hdue x) by (by try left).
    assert (tkey (timers s) (rt_tick s - 1) x ≤ 1) as Hk.
    { destruct (Z_le_gt_dec (tkey (timers s) (rt_tick s - 1) x) 1) as [|Hgt]; [done|].
      pose proof (tw_sorted _ _ _ _ Hwf _ Hl) as [Hall _]%StronglySorted_cons.
      unfold due in Hn. rewrite upto_nil in Hn; [done|]. constructor; [lia|].
      eapply Forall_impl; [exact Hall|]. simpl. intros. lia. }
    replace (_ <=? 1) with true by lia.
    assert (due s (x :: l) = x :: due s l) as Ed by by apply upto_cons_le.
    rewrite Ed in *. destruct (fire_run s x l HJ Hl) as (s1 & l1 & Ef & HJ1 & Ek1 & El1 & Ed1).
    rewrite Ef. cbn [fires]. rewrite (bind_ok _ _ _ _ _ Ef). unfold rt_tick_get. krun.
    rewrite <- Ed1. destruct (IH s1 l1 fuel) as (s' & l' & E1 & E2 & HJ' & Ek' & Hl' & Hd');
      [done|done|rewrite Ed1; simpl in Hn; lia|lia|].
    exists s', l'. rewrite Ek' in *. by rewrite Ek1 in *.
Qed.

(** When the loop ends the timers left are due at a later tick. *)
Lemma not_due_later s l x :
  J s → last (rt_timer_list s) = Some l → due s l = [] → x ∈ l →
  1 < tkey (timers s) (rt_tick s - 1) x.
Proof.
  intros HJ Hl Hd Hx. destruct (Z_lt_le_dec 1 (tkey (timers s) (rt_tick s - 1) x)); [done|].
  exfalso. assert (x ∈ due s l) as Hin by (by apply elem_of_upto).
  rewrite Hd in Hin. by apply elem_of_nil in Hin.
Qed.
End check.
End runs.

(** ** Initialisation *)
Definition timer_init_state (x : tmr) (n : list Z) (tm : rt_timer) (timeout : timeout_fn)
    (parameter time flag : Z) (l : list oid) (s : kstate) : kstate :=
  set_timers (<[x := mk_timer
      (mk_object n (Z.lor RT_Object_Class_Timer RT_Object_Class_Static)
         (flag_clear RT_TIMER_FLAG_ACTIVATED flag))
      timeout parameter time 0]> (timers s))
    (set_rt_object_container (<[RT_Object_Class_Timer := OTimer x :: l]> (rt_object_container s))
      (set_trace (trace s ++ hook_events rt_object_attach_hook (arg_object (OTimer x)) s) s)).

Lemma timer_init_run {cfg : RTConfig} b W x name n tm timeout parameter time flag l s :
  timers_wf b W (timers s) (rt_timer_list s) → ¬ running x (rt_timer_list s) →
  timers s !! x = Some tm → Str.rt_strncpy name (Z.to_nat RT_NAME_MAX) = Some n →
  map_Forall (λ _ l, OTimer x ∉ l) (rt_object_container s) →
  rt_object_container s !! RT_Object_Class_Timer = Some l →
  rt_timer_init x name timeout parameter time flag s =
    Ok tt (timer_init_state x n tm timeout parameter time flag l s).
Proof.
  intros Hwf Hr Hx Hn Hd Hl. unfold rt_timer_init.
  rewrite (bind_ok _ _ _ _ _ (object_init_run (OTimer x) RT_Object_Class_Timer name n
    (tm_parent tm) l s ltac:(cbn; by rewrite Hx) Hn Hd Hl)).
  unfold object_init_state. cbn [set_parent]. rewrite (alter_lookup _ _ _ _ Hx).
  unfold _rt_timer_init. krun. rewrite lookup_insert_eq. krun. rewrite insert_insert_eq.
  rewrite check_stopped_run; [done|]. ksg. by eapply not_running_rows.
Qed.
