(* ===== verification/Invariant.v ===== *)
(** * The invariant of the kernel state

    [kinv] relates the ready queues, the thread records and the timer list.
    [X] is the set of threads in transit, [b] and [W] the base tick and the window of the timer list, [idle] the
    idle thread, which is always ready. *)

From S2P Require Import Prelude RtDef SortedList Mem KService Kernel Scheduler Object.
From S2P Require Import Timer.

(** The timer built into a thread calls [rt_thread_timeout] once; any other
    timer calls a function of its user. *)
Definition tm_ok (x : tmr) (tm : rt_timer) : Prop :=
  match x with
  | ThreadTimer t =>
    tm_timeout_func tm = fn_rt_thread_timeout ∧ tm_parameter tm = t ∧ tm_periodic tm = false
  | Timer _ => ∃ f, tm_timeout_func tm = fn_user f
  end.

Lemma tm_ok_ext x tm tm' :
  tm_timeout_func tm' = tm_timeout_func tm → tm_parameter tm' = tm_parameter tm →
  tm_periodic tm' = tm_periodic tm → tm_ok x tm → tm_ok x tm'.
Proof. intros Ef Ep Ed. destruct x; simpl; rewrite Ef, ?Ep, ?Ed; done. Qed.

Lemma tm_ok_stopped x tm : tm_ok x tm → tm_ok x (stopped tm).
Proof.
  apply tm_ok_ext; unfold stopped; destruct (tm_active tm); try done. apply deactivate_periodic.
Qed.

Lemma armed_periodic s tm : tm_periodic (armed s tm) = tm_periodic tm.
Proof.
  unfold armed. rewrite activate_periodic.
  change (tm_periodic (tm_set_timeout ?T ?t)) with (tm_periodic t). apply deactivate_periodic.
Qed.

Record kinv (idle : Z) (X : gset Z) (b W : Z) (ths : gmap Z rt_thread)
    (L : gmap qid (list Z)) (g : Z) (tms : gmap tmr rt_timer) (rows : list (list tmr)) : Prop := {
  ki_sched : sched_wf X ths L g;
  ki_timers : timers_wf b W tms rows;
  ki_times : times_ok tms rows;
  ki_active : ∀ x tm, running x rows → tms !! x = Some tm → tm_ok x tm;
  ki_stacks : ∀ t th, ths !! t = Some th → t ∉ X → started th → stack_overflow th = false;
  ki_builtin : ∀ t th, ths !! t = Some th → t ∉ X → started th →
    ∃ tm, tms !! ThreadTimer t = Some tm ∧ tm_ok (ThreadTimer t) tm;
  ki_wait : ∀ t, running (ThreadTimer t) rows → t ∉ X →
    ∃ th, ths !! t = Some th ∧ th_stat th = RT_THREAD_SUSPEND;
  ki_idle : idle ∉ X ∧ ∃ th, ths !! idle = Some th ∧ th_stat th = RT_THREAD_READY;
  ki_defunct : is_Some (L !! QDefunct)
}.

Abbreviation kwf idle X b W s :=
  (kinv idle X b W (threads s) (tlists s) (rt_thread_ready_priority_group s) (timers s)
     (rt_timer_list s)).

(** The invariant between two operations. *)
Abbreviation kok idle s := (kwf idle ∅ (rt_tick s) (half - 1) s).

Section moves.
Context (idle : Z) (X : gset Z) (b W : Z) (ths : gmap Z rt_thread)
  (L : gmap qid (list Z)) (g : Z) (tms : gmap tmr rt_timer) (rows : list (list tmr)).
Hypothesis Hk : kinv idle X b W ths L g tms rows.

Lemma ki_some_ready : ∃ p t, linked L (QReady p) t.
Proof.
  destruct (ki_idle _ _ _ _ _ _ _ _ _ Hk) as (Hx & th & Ht & Hs).
  exists (th_current_priority th), idle. by apply (sw_ready _ _ _ _ (ki_sched _ _ _ _ _ _ _ _ _ Hk)).
Qed.

(** A thread leaves its list. *)
Lemma ki_remove t th : ths !! t = Some th → prio_ok th → t ≠ idle →
  kinv idle ({[t]} ∪ X) b W ths (tl_remove t L) (remove_group L g t th) tms rows.
Proof.
  intros Ht Hp Hne. destruct Hk as [Hs Htm Hti Ha Hst Hb Hw [Hi1 Hi2] Hdf]. split; try done.
  - by apply swf_remove.
  - intros. eapply Hst; set_solver.
  - intros. eapply Hb; set_solver.
  - intros. eapply Hw; set_solver.
  - split; [set_solver|done].
  - by rewrite tl_remove_lookup, fmap_is_Some.
Qed.

(** A thread that is not ready leaves the list it waits in, if any. *)
Lemma ki_unlink t th : ths !! t = Some th → th_stat th ≠ RT_THREAD_READY →
  kinv idle ({[t]} ∪ X) b W ths (tl_remove t L) g tms rows.
Proof.
  intros Ht Hn. destruct Hk as [Hs Htm Hti Ha Hst Hb Hw [Hi1 (thi & Hi2 & Hi3)] Hdf]. split; try done.
  - apply swf_unlink; [done| |naive_solver]. by eapply swf_not_ready_unlinked.
  - intros. eapply Hst; set_solver.
  - intros. eapply Hb; set_solver.
  - intros. eapply Hw; set_solver.
  - split; [|eauto]. intros [?%elem_of_singleton|?]%elem_of_union; [|done]. naive_solver.
  - by rewrite tl_remove_lookup, fmap_is_Some.
Qed.

(** A thread on no list is taken in transit. *)
Lemma ki_enter t : unlinked t L → (∀ th, ths !! t = Some th → th_stat th ≠ RT_THREAD_READY) →
  kinv idle ({[t]} ∪ X) b W ths L g tms rows.
Proof.
  intros Ht Hn. destruct Hk as [Hs Htm Hti Ha Hst Hb Hw [Hi1 (thi & Hi2 & Hi3)] Hdf]. split; try done.
  - by apply swf_enter.
  - intros. eapply Hst; set_solver.
  - intros. eapply Hb; set_solver.
  - intros. eapply Hw; set_solver.
  - split; [|eauto]. intros [?%elem_of_singleton|?]%elem_of_union; [|done]. naive_solver.
Qed.

Lemma ki_transit_update t th : t ∈ X → kinv idle X b W (<[t := th]> ths) L g tms rows.
Proof.
  intros Ht. destruct Hk as [Hs Htm Hti Ha Hst Hb Hw [Hi1 Hi2] Hdf]. split; try done.
  - by apply swf_transit_update.
  - intros u th' Hu ? ?. rewrite lookup_insert_ne in Hu by set_solver. eauto.
  - intros u th' Hu ? ?. rewrite lookup_insert_ne in Hu by set_solver. eauto.
  - intros u ? ?. rewrite lookup_insert_ne by set_solver. eauto.
  - split; [done|]. rewrite lookup_insert_ne by set_solver. done.
Qed.

(** Fields the invariant does not look at. *)
Lemma ki_update t th th' :
  ths !! t = Some th → th_stat th' = th_stat th →
  th_current_priority th' = th_current_priority th →
  th_number_mask th' = th_number_mask th → stack_overflow th' = stack_overflow th →
  kinv idle X b W (<[t := th']> ths) L g tms rows.
Proof.
  intros Ht Es Ep Em Eo. destruct Hk as [Hs Htm Hti Ha Hst Hb Hw [Hi1 [thi [Hi2 Hi3]]] Hdf].
  split; try done.
  - by eapply swf_update.
  - intros u th0 [[-> <-]|[? ?]]%lookup_insert_Some; [|eauto].
    unfold started. rewrite Es, Eo. eauto.
  - intros u th0 [[-> <-]|[? ?]]%lookup_insert_Some; [|eauto].
    unfold started. rewrite Es. eauto.
  - intros u Hu ?. destruct (Hw u) as (th0 & ? & ?); [done..|].
    destruct (decide (t = u)) as [->|].
    + exists th'. rewrite lookup_insert_eq. simplify_eq. by rewrite Es.
    + exists th0. by rewrite lookup_insert_ne.
  - split; [done|]. destruct (decide (t = idle)) as [->|].
    + exists th'. rewrite lookup_insert_eq. simplify_eq. by rewrite Es.
    + exists thi. by rewrite lookup_insert_ne.
Qed.

(** A queue in another order. *)
Lemma ki_permute q l l' :
  L !! q = Some l → l' ≡ₚ l → kinv idle X b W ths (<[q := l']> L) g tms rows.
Proof.
  intros Hl Hp. destruct Hk as [Hs Htm Hti Ha Hst Hb Hw Hi Hdf]. split; try done.
  - by eapply swf_permute.
  - rewrite lookup_insert. case_decide; [by eexists|done].
Qed.

(** The priority of a thread that is not ready. *)
Lemma ki_set_prio t th p m :
  ths !! t = Some th → th_stat th ≠ RT_THREAD_READY →
  (started th → 0 ≤ p < RT_THREAD_PRIORITY_MAX ∧ m = 2 ^ p) →
  kinv idle X b W (<[t := th_set_prio p m th]> ths) L g tms rows.
Proof.
  intros Ht Hs Hp. destruct Hk as [Hsw Htm Hti Ha Hst Hb Hw [Hi1 [thi [Hi2 Hi3]]] Hdf].
  split; try done.
  - by apply swf_set_prio.
  - intros u th0 [[-> <-]|[? ?]]%lookup_insert_Some; [|eauto]. intros. by apply (Hst u th).
  - intros u th0 [[-> <-]|[? ?]]%lookup_insert_Some; [|eauto]. intros. by apply (Hb u th).
  - intros u Hu ?. destruct (Hw u) as (th0 & ? & ?); [done..|].
    destruct (decide (t = u)) as [->|].
    + eexists. rewrite lookup_insert_eq. by simplify_eq.
    + exists th0. by rewrite lookup_insert_ne.
  - split; [done|]. exists thi. rewrite lookup_insert_ne; [done|]. intros ->. by simplify_eq.
Qed.

(** A thread in transit joins the end or the middle of a list. *)
Lemma ki_insert q l l' t th tm :
  t ∈ X → ths !! t = Some th → stat_on q th → (started th → prio_ok th) →
  (started th → stack_overflow th = false) →
  tms !! ThreadTimer t = Some tm → (started th → tm_ok (ThreadTimer t) tm) →
  (running (ThreadTimer t) rows → th_stat th = RT_THREAD_SUSPEND) →
  L !! q = Some l → l' ≡ₚ t :: l →
  kinv idle (X ∖ {[t]}) b W ths (<[q := l']> L)
    (match q with QReady _ => Z.lor g (th_number_mask th) | _ => g end) tms rows.
Proof.
  intros HX Ht Hq Hpo Hso Htt Hok Hac Hl Hp.
  destruct Hk as [Hs Htm Hti Ha Hst Hb Hw [Hi1 [thi [Hi2 Hi3]]] Hdf]. split; try done.
  - by eapply swf_insert.
  - intros u th' Hu ? ?. destruct (decide (u = t)) as [->|]; [simplify_eq; auto|].
    eapply Hst; set_solver.
  - intros u th' Hu ? ?. destruct (decide (u = t)) as [->|].
    + simplify_eq. exists tm. auto.
    + eapply Hb; set_solver.
  - intros u Hu ?. destruct (decide (u = t)) as [->|].
    + exists th. auto.
    + eapply Hw; set_solver.
  - split; [set_solver|eauto].
  - rewrite lookup_insert. case_decide; [by eexists|done].
Qed.

(** A thread in transit stays off the lists. *)
Lemma ki_drop t th tm :
  ths !! t = Some th → th_stat th ≠ RT_THREAD_READY → (started th → prio_ok th) →
  (started th → stack_overflow th = false) →
  tms !! ThreadTimer t = Some tm → (started th → tm_ok (ThreadTimer t) tm) →
  (running (ThreadTimer t) rows → th_stat th = RT_THREAD_SUSPEND) →
  kinv idle (X ∖ {[t]}) b W ths L g tms rows.
Proof.
  intros Ht Hnr Hpo Hso Htt Hok Hac.
  destruct Hk as [Hs Htm Hti Ha Hst Hb Hw [Hi1 [thi [Hi2 Hi3]]] Hdf]. split; try done.
  - apply swf_drop; [done|]. intros ? ?. by simplify_eq.
  - intros u th' Hu ? ?. destruct (decide (u = t)) as [->|]; [simplify_eq; auto|].
    eapply Hst; set_solver.
  - intros u th' Hu ? ?. destruct (decide (u = t)) as [->|].
    + simplify_eq. exists tm. auto.
    + eapply Hb; set_solver.
  - intros u Hu ?. destruct (decide (u = t)) as [->|].
    + exists th. auto.
    + eapply Hw; set_solver.
  - split; [set_solver|eauto].
Qed.

(** A timer is taken off the list. *)
Lemma ki_without x : kinv idle X b W ths L g tms (without x rows).
Proof.
  destruct Hk as [Hs Htm Hti Ha Hst Hb Hw Hi Hdf]. split; try done.
  - by apply tw_without.
  - intros y tm [? _]%running_without. eauto.
  - intros y tm [? _]%running_without. eauto.
  - intros u [? _]%running_without. eauto.
Qed.

(** A timer that does not run is written. *)
Lemma ki_timer_put x tm' : ¬ running x rows →
  (∀ t th, x = ThreadTimer t → ths !! t = Some th → t ∉ X → started th → tm_ok x tm') →
  kinv idle X b W ths L g (<[x := tm']> tms) rows.
Proof.
  intros Hr Hok. destruct Hk as [Hs Htm Hti Ha Hst Hb Hw Hi Hdf]. split; try done.
  - by apply tw_off.
  - intros y tm0 Hy [[-> <-]|[? ?]]%lookup_insert_Some; [done|eauto].
  - intros y tm0 Hy [[-> <-]|[? ?]]%lookup_insert_Some; [done|eauto].
  - intros u th Hu ? ?. destruct (decide (x = ThreadTimer u)) as [->|].
    + exists tm'. rewrite lookup_insert_eq. eauto.
    + rewrite lookup_insert_ne by done. eauto.
Qed.

(** The same with its function as before. *)
Lemma ki_timer_off x tm tm' : tms !! x = Some tm → ¬ running x rows →
  tm_timeout_func tm' = tm_timeout_func tm → tm_parameter tm' = tm_parameter tm →
  tm_periodic tm' = tm_periodic tm →
  kinv idle X b W ths L g (<[x := tm']> tms) rows.
Proof.
  intros Hx Hr Ef Ep Epe. apply ki_timer_put; [done|]. intros t th -> Ht ? ?.
  destruct (ki_builtin _ _ _ _ _ _ _ _ _ Hk t th) as (? & ? & ?); [done..|]. simplify_eq.
  by eapply tm_ok_ext.
Qed.

(** A timer changes in a field that does not say whether and when it runs. *)
Lemma ki_timer_update x tm tm' : tms !! x = Some tm → tm_active tm' = tm_active tm →
  tm_timeout_tick tm' = tm_timeout_tick tm →
  tm_timeout_func tm' = tm_timeout_func tm → tm_parameter tm' = tm_parameter tm →
  (tm_ok x tm → tm_periodic tm = false → tm_periodic tm' = false ∨ ∃ p, x = Timer p) →
  time_ok tm' →
  kinv idle X b W ths L g (<[x := tm']> tms) rows.
Proof.
  intros Hx Ea Et Ef Ep Epe Ei. destruct Hk as [Hs Htm Hti Ha Hst Hb Hw Hi Hdf].
  assert (tm_ok x tm → tm_ok x tm') as Hok.
  { intros Hok. specialize (Epe Hok). destruct x; simpl in *; rewrite Ef, ?Ep; [|done].
    destruct Hok as (? & ? & ?). split_and!; [done..|]. naive_solver. }
  split; try done.
  - by eapply tw_update.
  - intros y tm0 ? [[-> <-]|[? ?]]%lookup_insert_Some; [done|eauto].
  - intros y tm0 Hy [[-> <-]|[? ?]]%lookup_insert_Some; eauto.
  - intros u th Hu ? ?. destruct (Hb u th) as (tm0 & ? & ?); [done..|].
    destruct (decide (x = ThreadTimer u)) as [->|].
    + exists tm'. rewrite lookup_insert_eq. simplify_eq. auto.
    + exists tm0. by rewrite lookup_insert_ne.
Qed.
End moves.

(** A timer is stopped. *)
Lemma ki_stop idle X b W ths L g tms rows x tm :
  kinv idle X b W ths L g tms rows → tms !! x = Some tm →
  kinv idle X b W ths L g (<[x := stopped tm]> tms) (without x rows).
Proof.
  intros Hk Hx. eapply ki_timer_off; [by apply ki_without|exact Hx|by apply not_running_without|..];
    unfold stopped; destruct (tm_active tm); try done. apply deactivate_periodic.
Qed.

(** Which timers run after a start. *)
Lemma running_start {cfg : RTConfig} b W s x tm y :
  timers_wf b W (timers s) (rt_timer_list s) →
  running y (rt_timer_list (timer_start_state b x tm s)) → x = y ∨ running y (rt_timer_list s).
Proof.
  intros Hwf (l & Hl & Hy). destruct (tw_last _ _ _ _ Hwf) as [l0 Hl0].
  rewrite (start_last _ _ _ _ _ Hl0) in Hl. simplify_eq.
  rewrite sorted_insert_perm, elem_of_cons in Hy. destruct Hy as [->|[_ Hy]%list_elem_of_filter].
  - by left.
  - right. by exists l0.
Qed.

(** A timer is started. *)
Lemma ki_start {cfg : RTConfig} idle X b W s x tm :
  kwf idle X b W s → timers s !! x = Some tm → startable b W s tm → time_ok tm → tm_ok x tm →
  (∀ t, x = ThreadTimer t →
    t ∈ X ∨ ∃ th, threads s !! t = Some th ∧ th_stat th = RT_THREAD_SUSPEND) →
  kwf idle X b (Z.max W (u32 (deadline s tm - b))) (timer_start_state b x tm s).
Proof.
  intros Hk Hx Hst Hto Hok Hsu.
  pose proof (start_wf _ _ _ _ _ (ki_timers _ _ _ _ _ _ _ _ _ Hk) Hx Hst) as Hwf.
  destruct Hk as [Hs Htm Hti Ha Hstk Hb Hw Hi Hdf]. split; try done; unfold timer_start_state; ksg.
  - intros y tm0 Hy [[-> <-]|[Hne ?]]%lookup_insert_Some.
    + destruct Hto. split; [done|]. by rewrite armed_periodic.
    + apply (running_start b W s x tm) in Hy as [?|?]; [done| |done]. eauto.
  - intros y tm0 Hy [[-> <-]|[Hne ?]]%lookup_insert_Some.
    + eapply tm_ok_ext; [..|done]; [done..|]. apply armed_periodic.
    + apply (running_start b W s x tm) in Hy as [?|?]; [done| |done]. eauto.
  - intros u th Hu ? ?. destruct (Hb u th) as (tm0 & ? & ?); [done..|].
    destruct (decide (x = ThreadTimer u)) as [->|].
    + eexists. rewrite lookup_insert_eq. split; [done|]. simplify_eq.
      eapply tm_ok_ext; [..|done]; [done..|]. apply armed_periodic.
    + exists tm0. by rewrite lookup_insert_ne.
  - intros u Hu ?. apply (running_start b W s x tm) in Hu as [Heq|?]; [|eauto|done].
    destruct (Hsu u Heq); done.
Qed.

(** A change of the window of the timer list. *)
Lemma ki_window idle X b W b' W' ths L g tms rows :
  kinv idle X b W ths L g tms rows → timers_wf b' W' tms rows →
  kinv idle X b' W' ths L g tms rows.
Proof. intros [Hs Htm Hti Ha Hst Hb Hw Hi Hdf] Hwf. by split. Qed.

Lemma ki_ready_not_running idle X b W ths L g tms rows t th :
  kinv idle X b W ths L g tms rows → ths !! t = Some th → t ∉ X → th_stat th = RT_THREAD_READY →
  ¬ running (ThreadTimer t) rows.
Proof.
  intros Hk Ht Hx Hs Hr. destruct (ki_wait _ _ _ _ _ _ _ _ _ Hk t Hr Hx) as (th' & ? & Hs').
  simplify_eq. by rewrite Hs in Hs'.
Qed.

Lemma k_can_schedule idle X b W s : kwf idle X b W s → can_schedule s.
Proof.
  intros Hk. pose proof (ki_some_ready _ _ _ _ _ _ _ _ _ Hk) as Hr.
  destruct Hk as [Hs Htm Hti Ha Hst Hb Hw Hi Hdf]. by eapply can_schedule_wf.
Qed.

(** [rt_schedule] runs, and only changes the current thread and the trace. *)
Lemma k_schedule {cfg : RTConfig} idle X b W s :
  kwf idle X b W s → rt_schedule s = Ok tt (schedule_state s).
Proof. intros Hk. apply schedule_run. by eapply k_can_schedule. Qed.

(** A thread runs. *)
Definition runs (s : kstate) : Prop :=
  ∃ t, rt_current_thread s = Some t ∧ is_Some (threads s !! t).

Lemma schedule_runs idle X b W s : kwf idle X b W s → runs s → runs (schedule_state s).
Proof.
  intros Hk (t & Ht & Hth). unfold runs, schedule_state, schedule_to. ksg.
  assert (runs s) as Hr by by exists t.
  destruct (rt_scheduler_lock_nest s =? 0); [|done].
  destruct (tlists s !! QReady (top_prio (rt_thread_ready_priority_group s))) as [[|to l]|] eqn:El;
    try done.
  case_decide as Hc; [done|]. exists to. split; [done|].
  destruct (sw_stat _ _ _ _ (ki_sched _ _ _ _ _ _ _ _ _ Hk)
    (QReady (top_prio (rt_thread_ready_priority_group s))) to) as (_ & th & ? & _); [|by exists th].
  exists (to :: l). split; [done|left].
Qed.

(** The running thread is ready. *)
Definition running_ready (s : kstate) : Prop :=
  ∃ t th, rt_current_thread s = Some t ∧ threads s !! t = Some th ∧ th_stat th = RT_THREAD_READY.

Lemma highest_running_ready idle b W s :
  kwf idle ∅ b W s → rt_scheduler_lock_nest s = 0 → highest_runs s → running_ready s.
Proof.
  intros Hk Hn Hh. destruct (Hh Hn) as (t & l & Hc & Hl).
  destruct (sw_stat _ _ _ _ (ki_sched _ _ _ _ _ _ _ _ _ Hk)
    (QReady (top_prio (rt_thread_ready_priority_group s))) t) as (_ & th & Ht & Hst & _);
    [exists (t :: l); split; [exact Hl|left]|].
  by exists t, th.
Qed.

Lemma schedule_ready idle b W s :
  kwf idle ∅ b W s → running_ready s → running_ready (schedule_state s).
Proof.
  intros Hk Hr. destruct (decide (rt_scheduler_lock_nest s = 0)) as [Hn|Hn].
  - eapply highest_running_ready; [exact Hk|done|].
    apply schedule_highest. by eapply k_can_schedule.
  - unfold schedule_state, schedule_to.
    replace (rt_scheduler_lock_nest s =? 0) with false by lia. exact Hr.
Qed.
