(* ===== verification/Thread.v ===== *)
(** * Threads ([rtthread/kernel/src/thread.c])

    Creation, start, suspension, resumption, time-out, yielding, sleeping,
    priority change and deletion of threads, and the proofs that they keep the
    kernel invariant.  An operation that gives up the processor is the part up
    to its [rt_schedule()]; what the thread does when it runs again is a
    definition of its own. *)

From S2P Require Import Prelude RtDef SortedList Mem KService Kernel Cpuport Scheduler.
From S2P Require Import Object Timer Invariant.

(** ** Fields *)
Definition th_set_init (entry parameter stack_addr stack_size : Z) (stack : list Z)
    (sp priority tick : Z) (th : rt_thread) : rt_thread :=
  mk_thread (th_parent th) sp entry parameter stack_addr stack_size stack RT_EOK
    RT_THREAD_INIT priority priority (th_number_mask th) (th_event_set th) (th_event_info th)
    tick tick None 0.

(** [1L << priority] on 32 bits, for a priority below 32. *)
Definition priority_mask (priority : Z) : Z := u32 (Z.shiftl 1 priority).

(** ** Operations *)
Section ops.
Context {cfg : RTConfig}.

Definition rt_thread_exit : K unit :=
  let! thread := self in
  let! level := rt_hw_interrupt_disable in
  rt_schedule_remove_thread thread ;;;
  upd_thread thread (th_set_stat RT_THREAD_CLOSE) ;;;
  rt_timer_detach (ThreadTimer thread) ;;;
  let! sys := rt_object_is_systemobject (OThread thread) in
  let! th := get_thread thread in
  (if sys && bool_decide (th_cleanup th = None) then rt_object_detach (OThread thread)
   else tl_insert_after QDefunct thread) ;;;
  rt_hw_interrupt_enable level ;;;
  rt_schedule.

(** [number_mask] is not initialised here. *)
Definition _rt_thread_init (thread entry parameter stack_start stack_size priority tick : Z)
    : K Z :=
  tl_init_node thread ;;;
  let '(sp, frame) :=
    rt_hw_stack_init entry parameter (stack_start + stack_size - 4) rt_thread_exit_address in
  let! stack := from_option OutOfBounds (init_stack_bytes stack_start stack_size sp frame) in
  RT_ASSERT (priority <? RT_THREAD_PRIORITY_MAX) ;;;
  upd_thread thread (th_set_init entry parameter stack_start stack_size stack sp priority tick) ;;;
  let! th := get_thread thread in
  rt_timer_init (ThreadTimer thread) (obj_name (th_parent th)) fn_rt_thread_timeout thread 0
    RT_TIMER_FLAG_ONE_SHOT ;;;
  ret RT_EOK.

Definition rt_thread_init (thread : Z) (name : list Z)
    (entry parameter stack_start stack_size priority tick : Z) : K Z :=
  rt_object_init (OThread thread) RT_Object_Class_Thread name ;;;
  _rt_thread_init thread entry parameter stack_start stack_size priority tick.

Definition rt_thread_resume (thread : Z) : K Z :=
  let! th := get_thread thread in
  if negb (th_stat th =? RT_THREAD_SUSPEND) then ret (- RT_ERROR) else
  let! temp := rt_hw_interrupt_disable in
  tl_unlink thread ;;;
  rt_timer_stop (ThreadTimer thread) ;;;
  rt_hw_interrupt_enable temp ;;;
  rt_schedule_insert_thread thread ;;;
  RT_OBJECT_HOOK_CALL rt_thread_resume_hook (arg_object (OThread thread)) ;;;
  ret RT_EOK.

Definition rt_thread_startup (thread : Z) : K Z :=
  let! th := get_thread thread in
  RT_ASSERT (th_stat th =? RT_THREAD_INIT) ;;;
  upd_thread thread (λ th,
    th_set_prio (th_init_priority th) (priority_mask (th_init_priority th)) th) ;;;
  upd_thread thread (th_set_stat RT_THREAD_SUSPEND) ;;;
  rt_thread_resume thread ;;;
  let! cur := rt_thread_self in
  (when bool_decide (is_Some cur) then rt_schedule) ;;;
  ret RT_EOK.

Definition rt_thread_detach (thread : Z) : K Z :=
  rt_schedule_remove_thread thread ;;;
  rt_timer_detach (ThreadTimer thread) ;;;
  upd_thread thread (th_set_stat RT_THREAD_CLOSE) ;;;
  rt_object_detach (OThread thread) ;;;
  let! th := get_thread thread in
  (if bool_decide (is_Some (th_cleanup th)) then
     let! lock := rt_hw_interrupt_disable in
     tl_insert_after QDefunct thread ;;;
     rt_hw_interrupt_enable lock
   else ret tt) ;;;
  ret RT_EOK.

(** [raw_th] and [raw_tm] are what the allocated memory holds. *)
Definition rt_thread_create (name : list Z) (entry parameter stack_size priority tick : Z)
    (raw_th : rt_thread) (raw_tm : rt_timer) : K (option Z) :=
  let! o := rt_object_allocate RT_Object_Class_Thread name (RawThread raw_th raw_tm) in
  match o with
  | Some (OThread thread) =>
    let! stack_start := in_heap (Mem.rt_malloc stack_size) in
    if stack_start =? 0 then
      rt_object_delete (OThread thread) ;;;
      ret None
    else
      _rt_thread_init thread entry parameter stack_start stack_size priority tick ;;;
      ret (Some thread)
  | _ => ret None
  end.

Definition rt_thread_delete (thread : Z) : K Z :=
  rt_schedule_remove_thread thread ;;;
  rt_timer_detach (ThreadTimer thread) ;;;
  upd_thread thread (th_set_stat RT_THREAD_CLOSE) ;;;
  let! lock := rt_hw_interrupt_disable in
  tl_insert_after QDefunct thread ;;;
  rt_hw_interrupt_enable lock ;;;
  ret RT_EOK.

(** [tlist.next != tlist.prev] for a thread in a list: another thread is in
    it. *)
Definition not_alone (thread : Z) : K bool :=
  let! m := read tlists in
  ret (bool_decide (map_Exists (λ _ l, thread ∈ l ∧ l ≠ [thread]) m)).

Definition rt_thread_yield : K Z :=
  let! level := rt_hw_interrupt_disable in
  let! thread := self in
  let! th := get_thread thread in
  let! more := not_alone thread in
  if (th_stat th =? RT_THREAD_READY) && more then
    tl_unlink thread ;;;
    tl_insert_before (QReady (th_current_priority th)) thread ;;;
    rt_hw_interrupt_enable level ;;;
    rt_schedule ;;;
    ret RT_EOK
  else
    rt_hw_interrupt_enable level ;;;
    ret RT_EOK.

Definition rt_thread_suspend (thread : Z) : K Z :=
  let! th := get_thread thread in
  if negb (th_stat th =? RT_THREAD_READY) then ret (- RT_ERROR) else
  let! temp := rt_hw_interrupt_disable in
  upd_thread thread (th_set_stat RT_THREAD_SUSPEND) ;;;
  rt_schedule_remove_thread thread ;;;
  rt_timer_stop (ThreadTimer thread) ;;;
  rt_hw_interrupt_enable temp ;;;
  RT_OBJECT_HOOK_CALL rt_thread_suspend_hook (arg_object (OThread thread)) ;;;
  ret RT_EOK.

(** [rt_timer_control(SET_TIME)] and [rt_timer_start] of a thread's timer. *)
Definition start_thread_timer (thread tick : Z) : K unit :=
  rt_timer_control (ThreadTimer thread) RT_TIMER_CTRL_SET_TIME tick ;;;
  rt_timer_start (ThreadTimer thread) ;;;
  ret tt.

(** Up to the switch; the result is the thread that sleeps. *)
Definition rt_thread_sleep (tick : Z) : K Z :=
  let! temp := rt_hw_interrupt_disable in
  let! thread := self in
  rt_thread_suspend thread ;;;
  start_thread_timer thread tick ;;;
  rt_hw_interrupt_enable temp ;;;
  rt_schedule ;;;
  ret thread.
Definition rt_thread_delay := rt_thread_sleep.

(** After the switch back. *)
Definition rt_thread_sleep_return (thread : Z) : K Z :=
  let! th := get_thread thread in
  (when th_error th =? - RT_ETIMEOUT then upd_thread thread (th_set_error RT_EOK)) ;;;
  ret RT_EOK.

(** [arg] is the priority that [arg] points to. *)
Definition rt_thread_control (thread cmd arg : Z) : K Z :=
  if cmd =? RT_THREAD_CTRL_CHANGE_PRIORITY then
    let! temp := rt_hw_interrupt_disable in
    let! th := get_thread thread in
    (if th_stat th =? RT_THREAD_READY then
       rt_schedule_remove_thread thread ;;;
       upd_thread thread (th_set_prio (u8 arg) (priority_mask (u8 arg))) ;;;
       rt_schedule_insert_thread thread
     else
       upd_thread thread (th_set_prio (u8 arg) (priority_mask (u8 arg)))) ;;;
    rt_hw_interrupt_enable temp ;;;
    ret RT_EOK
  else if cmd =? RT_THREAD_CTRL_STARTUP then rt_thread_startup thread
  else if cmd =? RT_THREAD_CTRL_CLOSE then rt_thread_delete thread
  else ret RT_EOK.

Definition rt_thread_timeout (thread : Z) : K unit :=
  let! th := get_thread thread in
  RT_ASSERT (th_stat th =? RT_THREAD_SUSPEND) ;;;
  upd_thread thread (th_set_error (- RT_ETIMEOUT)) ;;;
  tl_unlink thread ;;;
  rt_schedule_insert_thread thread ;;;
  rt_schedule.

(** The function a [timeout_func] designates.  A user's function is called
    with its parameter. *)
Definition timeout_call (f : timeout_fn) (parameter : Z) : K unit :=
  match f with
  | fn_rt_thread_timeout => rt_thread_timeout parameter
  | fn_user f => emit (ev_callback f parameter 0)
  end.

Definition rt_thread_find (name : list Z) : K (option oid) :=
  let! cur := rt_thread_self in
  (when bool_decide (is_Some cur) then rt_enter_critical) ;;;
  let! l := rt_object_get_information RT_Object_Class_Thread in
  let! r := find_loop name l in
  let! cur := rt_thread_self in
  (when bool_decide (is_Some cur) then rt_exit_critical) ;;;
  ret r.

End ops.

(** ** What the operations do *)
Definition suspend_state (t : Z) (th : rt_thread) (tm : rt_timer) (s : kstate) : kstate :=
  let s := timer_stop_state (ThreadTimer t) tm (sched_remove t th
    (set_threads (<[t := th_set_stat RT_THREAD_SUSPEND th]> (threads s)) s)) in
  set_trace (trace s ++ hook_events rt_thread_suspend_hook (arg_object (OThread t)) s) s.

(** [l] is the queue that the thread joins. *)
Definition resume_state (t : Z) (th : rt_thread) (tm : rt_timer) (l : list Z) (s : kstate)
    : kstate :=
  let s := sched_insert t th l (timer_stop_state (ThreadTimer t) tm
    (set_tlists (tl_remove t (tlists s)) s)) in
  set_trace (trace s ++ hook_events rt_thread_resume_hook (arg_object (OThread t)) s) s.

Definition timeout_state (t : Z) (th : rt_thread) (l : list Z) (s : kstate) : kstate :=
  schedule_state (sched_insert t (th_set_error (- RT_ETIMEOUT) th) l
    (set_tlists (tl_remove t (tlists s)) s)).

Lemma transit_back (t : Z) (X : gset Z) : t ∉ X → ({[t]} ∪ X) ∖ {[t]} = X.
Proof. set_solver. Qed.

Section runs.
Context {cfg : RTConfig} (idle : Z) (X : gset Z) (b W : Z).

(** What is known of a thread that is ready or suspended. *)
Lemma k_started s t th :
  kwf idle X b W s → threads s !! t = Some th → t ∉ X → started th →
  prio_ok th ∧ stack_overflow th = false ∧
  (∃ tm, timers s !! ThreadTimer t = Some tm ∧ tm_ok (ThreadTimer t) tm) ∧
  is_Some (tlists s !! QReady (th_current_priority th)).
Proof.
  intros Hk Ht Hx Hs.
  assert (prio_ok th) as Hp by by eapply (sw_prio _ _ _ _ (ki_sched _ _ _ _ _ _ _ _ _ Hk)).
  split_and!; [done| | |].
  - by eapply (ki_stacks _ _ _ _ _ _ _ _ _ Hk).
  - by eapply (ki_builtin _ _ _ _ _ _ _ _ _ Hk).
  - destruct Hp. by eapply (swf_ready_queue _ _ _ _ (ki_sched _ _ _ _ _ _ _ _ _ Hk)).
Qed.

Lemma suspend_run s t th tm :
  kwf idle X b W s → threads s !! t = Some th → t ∉ X → th_stat th = RT_THREAD_READY →
  timers s !! ThreadTimer t = Some tm →
  rt_thread_suspend t s = Ok RT_EOK (suspend_state t th tm s).
Proof.
  intros Hk Ht Hx Hs Htm.
  destruct (k_started s t th Hk Ht Hx ltac:(by left)) as (Hp & _ & _ & [l Hl]).
  unfold rt_thread_suspend, upd_thread. krun. rewrite Ht. krun. rewrite Hs. krun.
  change (RT_THREAD_READY =? RT_THREAD_READY) with true. krun. rewrite Ht. krun.
  erewrite (remove_thread_run _ _ _ l); [|ksg; by rewrite lookup_insert_eq|exact Hl].
  erewrite stop_run; [|exact (ki_timers _ _ _ _ _ _ _ _ _ Hk)|exact Htm]. reflexivity.
Qed.

Lemma suspend_kwf s t th tm :
  kwf idle X b W s → threads s !! t = Some th → t ∉ X → th_stat th = RT_THREAD_READY →
  timers s !! ThreadTimer t = Some tm → t ≠ idle →
  kwf idle X b W (suspend_state t th tm s).
Proof.
  intros Hk Ht Hx Hs Htm Hi.
  destruct (k_started s t th Hk Ht Hx ltac:(by left)) as (Hp & Hst & (? & ? & Hok) & _). simplify_eq.
  unfold suspend_state, timer_stop_state, sched_remove. ksg.
  rewrite <- (transit_back t X) by done.
  eapply ki_drop with (th := th_set_stat RT_THREAD_SUSPEND th) (tm := stopped tm).
  - apply ki_stop; [|done]. apply ki_transit_update; [|set_solver]. by apply ki_remove.
  - by rewrite lookup_insert_eq.
  - done.
  - done.
  - done.
  - by rewrite lookup_insert_eq.
  - intros _. by apply tm_ok_stopped.
  - by intros [_ ?]%running_without.
Qed.

(** A suspended thread is on no ready queue, and the queue of its priority
    exists. *)
Lemma resume_queue s t th :
  kwf idle X b W s → threads s !! t = Some th → t ∉ X → th_stat th = RT_THREAD_SUSPEND →
  ∃ l, tlists s !! QReady (th_current_priority th) = Some l ∧
       tl_remove t (tlists s) !! QReady (th_current_priority th) = Some l.
Proof.
  intros Hk Ht Hx Hs. destruct (k_started s t th Hk Ht Hx ltac:(by right)) as (_ & _ & _ & [l Hl]).
  exists l. split; [done|]. erewrite tl_remove_Some by done. f_equal. apply list_filter_all_id.
  intros u Hu ->.
  eapply (swf_not_ready_unlinked _ _ _ _ (ki_sched _ _ _ _ _ _ _ _ _ Hk) t); [done| |by exists l].
  by rewrite Hs.
Qed.

Lemma resume_run s t th tm l :
  kwf idle X b W s → threads s !! t = Some th → th_stat th = RT_THREAD_SUSPEND →
  timers s !! ThreadTimer t = Some tm →
  tl_remove t (tlists s) !! QReady (th_current_priority th) = Some l →
  rt_thread_resume t s = Ok RT_EOK (resume_state t th tm l s).
Proof.
  intros Hk Ht Hs Htm Hl.
  unfold rt_thread_resume, tl_unlink. krun. rewrite Ht. krun. rewrite Hs. krun.
  change (RT_THREAD_SUSPEND =? RT_THREAD_SUSPEND) with true. krun.
  erewrite stop_run; [|exact (ki_timers _ _ _ _ _ _ _ _ _ Hk)|exact Htm].
  unfold resume_state. cbv zeta.
  erewrite insert_thread_run; [|exact Ht|apply unlinked_remove|exact Hl]. reflexivity.
Qed.

Lemma resume_kwf s t th tm l :
  kwf idle X b W s → threads s !! t = Some th → t ∉ X → th_stat th = RT_THREAD_SUSPEND →
  timers s !! ThreadTimer t = Some tm →
  tl_remove t (tlists s) !! QReady (th_current_priority th) = Some l →
  kwf idle X b W (resume_state t th tm l s).
Proof.
  intros Hk Ht Hx Hs Htm Hl.
  destruct (k_started s t th Hk Ht Hx ltac:(by right)) as (Hp & Hst & (? & ? & Hok) & _). simplify_eq.
  unfold resume_state, timer_stop_state, sched_insert. ksg.
  rewrite <- (transit_back t X) by done.
  apply (ki_insert idle ({[t]} ∪ X) b W _ _ _ _ _) with
    (q := QReady (th_current_priority th)) (th := th_set_stat RT_THREAD_READY th)
    (l := l) (tm := stopped tm).
  - apply ki_transit_update; [|set_solver]. apply ki_stop; [|done].
    eapply ki_unlink; [done..|]. by rewrite Hs.
  - set_solver.
  - by rewrite lookup_insert_eq.
  - done.
  - done.
  - done.
  - by rewrite lookup_insert_eq.
  - intros _. by apply tm_ok_stopped.
  - by intros [_ ?]%running_without.
  - done.
  - by rewrite Permutation_app_comm.
Qed.

Lemma timeout_run s t th l :
  kwf idle X b W s → threads s !! t = Some th → t ∉ X → th_stat th = RT_THREAD_SUSPEND →
  ¬ running (ThreadTimer t) (rt_timer_list s) →
  tl_remove t (tlists s) !! QReady (th_current_priority th) = Some l →
  rt_thread_timeout t s = Ok tt (timeout_state t th l s) ∧
  kwf idle X b W (timeout_state t th l s).
Proof.
  intros Hk Ht Hx Hs HF Hl.
  destruct (k_started s t th Hk Ht Hx ltac:(by right)) as (Hp & Hst & (tm & Htm & Hok) & _).
  set (th' := th_set_error (- RT_ETIMEOUT) th).
  set (s1 := sched_insert t th' l (set_tlists (tl_remove t (tlists s)) s)).
  assert (kwf idle X b W s1) as Hk1.
  { unfold s1, sched_insert. ksg. rewrite <- (transit_back t X) by done.
    apply (ki_insert idle ({[t]} ∪ X) b W _ _ _ _ _) with
      (q := QReady (th_current_priority th)) (th := th_set_stat RT_THREAD_READY th')
      (l := l) (tm := tm); try done.
    - apply ki_transit_update; [|set_solver]. eapply ki_unlink; [exact Hk|exact Ht|]. by rewrite Hs.
    - set_solver.
    - by rewrite lookup_insert_eq.
    - by rewrite Permutation_app_comm. }
  split; [|exact Hk1].
  unfold rt_thread_timeout, upd_thread, RT_ASSERT, tl_unlink. krun. rewrite Ht. krun.
  rewrite Hs. change (RT_THREAD_SUSPEND =? RT_THREAD_SUSPEND) with true. cbn [negb].
  rewrite andb_false_r. krun. rewrite Ht. krun.
  erewrite (insert_thread_run _ t th' l); [|ksg; by rewrite lookup_insert_eq
    |apply unlinked_remove|exact Hl].
  unfold sched_insert. ksg. rewrite insert_insert_eq. by eapply k_schedule.
Qed.
End runs.

(** The kernel invariant during the clock interrupt, [rt_thread_timeout] and
    the users' functions satisfy what [rt_timer_check] asks. *)
Section handler.
Context {cfg : RTConfig} (idle : Z).
Abbreviation J s := (kwf idle ∅ (rt_tick s - 1) half s).

(** What the expiry of a timer does to the threads. *)
Definition timed_out (th : rt_thread) : rt_thread :=
  th_set_stat RT_THREAD_READY (th_set_error (- RT_ETIMEOUT) th).
Definition expire (x : tmr) (ths : gmap Z rt_thread) : gmap Z rt_thread :=
  match x with ThreadTimer t => alter timed_out t ths | Timer _ => ths end.

(** The call itself. *)
Lemma timeout_call_run s x tm :
  J s → running x (rt_timer_list s) → timers s !! x = Some tm →
  ∃ s', timeout_call (tm_timeout_func tm) (tm_parameter tm) (fire_state x s) = Ok tt s' ∧
    same_timers (fire_state x s) s' ∧ J s' ∧ threads s' = expire x (threads s) ∧
    (runs s → runs s').
Proof.
  intros Hk Hr Hx. pose proof (ki_active _ _ _ _ _ _ _ _ _ Hk _ _ Hr Hx) as Hok.
  pose proof (ki_without _ _ _ _ _ _ _ _ _ Hk x) as Hk1. destruct x as [t|p].
  - destruct Hok as (-> & -> & _). simpl.
    destruct (ki_wait _ _ _ _ _ _ _ _ _ Hk t Hr) as (th & Ht & Hs); [set_solver..|].
    destruct (resume_queue idle ∅ _ _ s t th Hk Ht) as (l & _ & Hl); [set_solver|done|].
    destruct (timeout_run idle ∅ (rt_tick s - 1) half (fire_state (ThreadTimer t) s) t th l)
      as [Hc Hk2]; [done..|set_solver|done|by apply not_running_without|done|].
    eexists. split_and!; [exact Hc|done|exact Hk2| |].
    + unfold expire. by rewrite (alter_lookup _ _ _ _ Ht).
    + intros (u & Hu & Hth). eapply schedule_runs; [exact Hk2|]. exists u. split; [exact Hu|].
      cbn. rewrite lookup_insert. by case_decide.
  - destruct Hok as [f ->]. simpl. eexists. split_and!; [done|done|exact Hk1|done|done].
Qed.

Lemma thread_timeout_call s x tm :
  J s → running x (rt_timer_list s) → timers s !! x = Some tm →
  ∃ s', timeout_call (tm_timeout_func tm) (tm_parameter tm) (fire_state x s) = Ok tt s' ∧
    same_timers (fire_state x s) s' ∧ J (done_state x tm s') ∧
    (tm_periodic tm = true →
     J (timer_start_state (rt_tick s - 1) x (tm_deactivate tm) (done_state x tm s'))) ∧
    threads s' = expire x (threads s) ∧ (runs s → runs s').
Proof.
  intros Hk Hr Hx.
  destruct (timeout_call_run s x tm Hk Hr Hx) as (s' & Hc & Hsame & Hk' & Hth & Hrn).
  pose proof Hsame as (Et & El & Ek).
  pose proof (ki_active _ _ _ _ _ _ _ _ _ Hk _ _ Hr Hx) as Hok.
  destruct (ki_times _ _ _ _ _ _ _ _ _ Hk _ _ Hr Hx) as [Hi Hpos].
  set (s1 := done_state x tm s'). set (tm1 := tm_deactivate tm).
  assert (rt_tick s1 = rt_tick s) as Ek1 by exact Ek.
  assert (J s1) as Hk1.
  { eapply ki_timer_off; [exact Hk'|by rewrite Et| |done..|apply deactivate_periodic].
    assert (rt_timer_list s1 = without x (rt_timer_list s)) as -> by exact El.
    apply not_running_without. }
  assert (timers s1 !! x = Some tm1) as Hx1 by apply lookup_insert_eq.
  exists s'. split_and!; [exact Hc|done|exact Hk1| |exact Hth|exact Hrn]. intros Hp.
  rewrite Ek1 in Hk1.
  assert (u32 (deadline s1 tm1 - (rt_tick s - 1)) = 1 + tm_init_tick tm) as Ed.
  { unfold deadline. rewrite Ek1. apply restart_key.
    change (tm_init_tick tm1) with (tm_init_tick tm). unfold half in *. lia. }
  assert (startable (rt_tick s - 1) half s1 tm1) as Hst.
  { apply (periodic_startable half); [lia| |lia].
    change (tm_init_tick tm1) with (tm_init_tick tm). naive_solver lia. }
  pose proof (ki_start _ _ _ _ _ _ _ Hk1 Hx1 Hst) as Hk2. rewrite Ed in Hk2.
  rewrite Z.max_l in Hk2 by (unfold half in *; lia).
  rewrite <- Ek1 in Hk2 |- *. apply Hk2.
  - split; [done|]. unfold tm1. by rewrite deactivate_periodic.
  - eapply tm_ok_ext; [..|exact Hok]; try done. apply deactivate_periodic.
  - intros t ->. destruct Hok as (_ & _ & Hp'). congruence.
Qed.

#[export] Instance thread_timeout_handler : TimeoutHandler timeout_call (λ s, J s).
Proof.
  split.
  - intros s Hk. split; [apply Hk|apply (ki_times _ _ _ _ _ _ _ _ _ Hk)].
  - intros x tm s Hk Hr Hx.
    destruct (thread_timeout_call s x tm Hk Hr Hx) as (s' & ? & ? & ? & ? & _). by exists s'.
Qed.

(** The threads whose timers are due are timed out, and no other. *)
Lemma fire_threads s x l :
  J s → last (rt_timer_list s) = Some (x :: l) →
  ∃ s' l', fire timeout_call x s = Ok tt s' ∧ J s' ∧ threads s' = expire x (threads s) ∧
    (runs s → runs s') ∧
    last (rt_timer_list s') = Some l' ∧ due s' l' = due s l.
Proof.
  intros HJ Hl.
  assert (running x (rt_timer_list s)) as Hr by (eexists; split; [done|left]).
  destruct (tw_active _ _ _ _ (ki_timers _ _ _ _ _ _ _ _ _ HJ) _ x Hl ltac:(left)) as (tm & Hx & _).
  destruct (fire_run timeout_call (λ s, J s) s x l HJ Hl) as (s' & l' & Ef & HJ' & _ & Hl' & Hd).
  destruct (fire_exec timeout_call (λ s, J s) s x l tm HJ Hl Hx)
    as (s2 & s1 & Ec & Ef' & _ & -> & _).
  destruct (thread_timeout_call s x tm HJ Hr Hx) as (s3 & Ec' & _ & _ & _ & Hth & Hrn).
  rewrite Ec in Ec'. injection Ec' as <-. rewrite Ef in Ef'. injection Ef' as Es'.
  exists s', l'. split_and!; [exact Ef|exact HJ'| | |done|done]; rewrite Es'.
  - rewrite <- Hth. by case_match.
  - intros Hs. apply Hrn in Hs. by case_match.
Qed.

(** If any timer is due the first one is. *)
Lemma due_cons s x l n : J s → last (rt_timer_list s) = Some (x :: l) →
  length (due s (x :: l)) = S n → due s (x :: l) = x :: due s l.
Proof.
  intros HJ Hl Hn. unfold due, upto in *. rewrite filter_cons in *. case_decide as Hle; [done|].
  exfalso. pose proof (tw_sorted _ _ _ _ (ki_timers _ _ _ _ _ _ _ _ _ HJ) _ Hl) as Hsr.
  unfold sorted_by in Hsr. inversion_clear Hsr as [|?? _ Hall].
  rewrite filter_nil in Hn; [done|]. eapply Forall_impl; [exact Hall|]. simpl. intros. lia.
Qed.

Lemma fires_threads n : ∀ s l s',
  J s → last (rt_timer_list s) = Some l → length (due s l) = n →
  fires timeout_call (due s l) s = Ok tt s' →
  threads s' = foldl (λ ths x, expire x ths) (threads s) (due s l) ∧ (runs s → runs s').
Proof.
  induction n as [|n IH]; intros s l s' HJ Hl Hn Hf.
  { apply nil_length_inv in Hn. rewrite Hn in *. simpl in *. unfold ret in Hf. by injection Hf as <-. }

  destruct l as [|x l]; [done|].
  assert (due s (x :: l) = x :: due s l) as Ed by (by eapply due_cons).
  rewrite Ed in *. destruct (fire_threads s x l HJ Hl) as (s1 & l1 & Ef & HJ1 & Et & Hr1 & Hl1 & Hd1).
  cbn [fires] in Hf. rewrite (bind_ok _ _ _ _ _ Ef), <- Hd1 in Hf.
  destruct (IH s1 l1 s' HJ1 Hl1 ltac:(rewrite Hd1; simpl in Hn; lia) Hf) as [-> Hr2].
  rewrite Hd1, Et. auto.
Qed.
End handler.

(** ** The other operations *)
Lemma tm_ok_not_periodic t tm : tm_ok (ThreadTimer t) tm → tm_periodic tm = false.
Proof. by intros (_ & _ & ?). Qed.

(** The state after [start_thread_timer]. *)
Definition thread_timer_state {cfg : RTConfig} (t tick : Z) (tm : rt_timer) (s : kstate) : kstate :=
  timer_start_state (rt_tick s) (ThreadTimer t) (tm_set_init tick tm)
    (set_timers (<[ThreadTimer t := tm_set_init tick tm]> (timers s)) s).

Section runs2.
Context {cfg : RTConfig} (idle : Z).

Lemma thread_timer_run X s t tm tick :
  kwf idle X (rt_tick s) (half - 1) s → timers s !! ThreadTimer t = Some tm →
  tm_ok (ThreadTimer t) tm → 0 ≤ tick < half →
  (t ∈ X ∨ ∃ th, threads s !! t = Some th ∧ th_stat th = RT_THREAD_SUSPEND) →
  start_thread_timer t tick s = Ok tt (thread_timer_state t tick tm s) ∧
  kwf idle X (rt_tick s) (half - 1) (thread_timer_state t tick tm s).
Proof.
  intros Hk Hx Hok Hi Hsu.
  set (s1 := set_timers (<[ThreadTimer t := tm_set_init tick tm]> (timers s)) s).
  assert (kwf idle X (rt_tick s) (half - 1) s1) as Hk1.
  { eapply ki_timer_update; try done.
    - intros ? Hp. left. exact Hp.
    - split; [done|]. change (tm_periodic (tm_set_init tick tm)) with (tm_periodic tm).
      by rewrite (tm_ok_not_periodic _ _ Hok). }
  assert (timers s1 !! ThreadTimer t = Some (tm_set_init tick tm)) as Hx1 by apply lookup_insert_eq.
  assert (u32 (deadline s1 (tm_set_init tick tm) - rt_tick s) = tick) as Ed.
  { unfold deadline, u32, wrap. cbn. rewrite Zminus_mod_idemp_l.
    replace (rt_tick s + tick - rt_tick s) with tick by lia. apply Z.mod_small.
    unfold half in *. lia. }
  assert (startable (rt_tick s) (half - 1) s1 (tm_set_init tick tm)) as Hst.
  { unfold startable. rewrite Ed. cbn. lia. }
  split.
  - unfold start_thread_timer, rt_timer_control, upd_timer.
    cbn [Z.eqb RT_TIMER_CTRL_SET_TIME RT_TIMER_CTRL_GET_TIME].
    change (RT_TIMER_CTRL_SET_TIME =? RT_TIMER_CTRL_GET_TIME) with false.
    change (RT_TIMER_CTRL_SET_TIME =? RT_TIMER_CTRL_SET_TIME) with true.
    krun. rewrite Hx. krun. fold s1.
    by rewrite (start_run _ _ _ _ _ (ki_timers _ _ _ _ _ _ _ _ _ Hk1) Hx1 Hst).
  - pose proof (ki_start _ _ _ _ _ _ _ Hk1 Hx1 Hst) as Hk2. rewrite Ed in Hk2.
    rewrite Z.max_l in Hk2 by lia.
    apply Hk2; [|exact Hok|by intros ? [= <-]]. split; [done|].
    change (tm_periodic (tm_set_init tick tm)) with (tm_periodic tm).
    by rewrite (tm_ok_not_periodic _ _ Hok).
Qed.

(** [rt_thread_sleep] by the current thread. *)
Definition sleep_state (t tick : Z) (th : rt_thread) (tm : rt_timer) (s : kstate) : kstate :=
  let s1 := suspend_state t th tm s in
  schedule_state (thread_timer_state t tick (stopped tm) s1).

Lemma sleep_run s t th tm tick :
  kok idle s → rt_current_thread s = Some t → threads s !! t = Some th →
  th_stat th = RT_THREAD_READY → timers s !! ThreadTimer t = Some tm → t ≠ idle →
  0 ≤ tick < half →
  rt_thread_sleep tick s = Ok t (sleep_state t tick th tm s) ∧
  kok idle (sleep_state t tick th tm s).
Proof.
  intros Hk Hc Ht Hs Htm Hi Htick.
  destruct (k_started idle ∅ _ _ s t th Hk Ht) as (_ & _ & (? & ? & Hok) & _);
    [set_solver|by left|]. simplify_eq.
  pose proof (suspend_kwf idle ∅ _ _ s t th tm Hk Ht ltac:(set_solver) Hs Htm Hi) as Hk1.
  set (s1 := suspend_state t th tm s) in *.
  assert (timers s1 !! ThreadTimer t = Some (stopped tm)) as Hx1 by apply lookup_insert_eq.
  destruct (thread_timer_run ∅ s1 t (stopped tm) tick Hk1 Hx1) as [Hr Hk2];
    [by apply tm_ok_stopped|done| |].
  { right. eexists. split; [apply lookup_insert_eq|done]. }
  split; [|exact Hk2].
  unfold rt_thread_sleep. krun. rewrite Hc. krun.
  rewrite (suspend_run idle ∅ (rt_tick s) (half - 1) (set_primask 1 s) t th tm) by
    (done || set_solver).
  change (suspend_state t th tm (set_primask 1 s)) with (set_primask 1 s1).
  assert (start_thread_timer t tick (set_primask 1 s1) =
    Ok tt (set_primask 1 (thread_timer_state t tick (stopped tm) s1))) as ->.
  { destruct (thread_timer_run ∅ (set_primask 1 s1) t (stopped tm) tick Hk1 Hx1) as [-> _];
      [by apply tm_ok_stopped|done| |done].
    right. eexists. split; [apply lookup_insert_eq|done]. }
  ksg. change (set_primask (primask s) (set_primask 1 ?x)) with x.
  rewrite (k_schedule _ _ _ _ _ Hk2). done.
Qed.
End runs2.

(** *** Close *)
Definition timer_detach_state (x : tmr) (s : kstate) : kstate :=
  object_detach_state (OTimer x) (set_rt_timer_list (without x (rt_timer_list s)) s).

Definition close_state (t : Z) (th : rt_thread) (s : kstate) : kstate :=
  let s := sched_remove t th s in
  let s := timer_detach_state (ThreadTimer t) s in
  set_threads (<[t := th_set_stat RT_THREAD_CLOSE th]> (threads s)) s.

(** The thread waits for the idle thread to free it. *)
Definition defunct_state (t : Z) (l : list Z) (s : kstate) : kstate :=
  set_tlists (<[QDefunct := t :: l]> (tlists s)) s.

Definition delete_state (t : Z) (th : rt_thread) (l : list Z) (s : kstate) : kstate :=
  defunct_state t l (close_state t th s).

Definition yield_state (t : Z) (th : rt_thread) (l : list Z) (s : kstate) : kstate :=
  set_tlists (<[QReady (th_current_priority th) := filter (λ x, x ≠ t) l ++ [t]]>
    (tl_remove t (tlists s))) s.

Definition set_priority_state (t : Z) (th : rt_thread) (p : Z) (l : list Z) (s : kstate)
    : kstate :=
  sched_insert t (th_set_prio p (priority_mask p) th) l (sched_remove t th s).

Definition startup_state (t : Z) (th : rt_thread) (tm : rt_timer) (l : list Z) (s : kstate)
    : kstate :=
  let th' := th_set_stat RT_THREAD_SUSPEND
    (th_set_prio (th_init_priority th) (priority_mask (th_init_priority th)) th) in
  resume_state t th' tm l (set_threads (<[t := th']> (threads s)) s).

Lemma priority_mask_pow p : 0 ≤ p < RT_THREAD_PRIORITY_MAX → priority_mask p = 2 ^ p.
Proof.
  intros Hp. unfold priority_mask, u32, RT_THREAD_PRIORITY_MAX in *.
  rewrite Z.shiftl_mul_pow2, Z.mul_1_l by lia. apply wrap_small.
  split; [lia|]. apply Z.pow_lt_mono_r; lia.
Qed.

Lemma closed_not_started th : ¬ started (th_set_stat RT_THREAD_CLOSE th).
Proof. by intros [?|?]. Qed.

Section runs3.
Context {cfg : RTConfig} (idle : Z) (b W : Z).

Lemma timer_detach_run x s :
  is_Some (timers s !! x) → rt_timer_detach x s = Ok (- RT_EOK) (timer_detach_state x s).
Proof.
  intros [tm Hx]. unfold rt_timer_detach, _rt_timer_remove. krun.
  rewrite object_detach_run by (cbn; rewrite Hx; by eexists). done.
Qed.

(** A started thread leaves the scheduler and the timer list. *)
Lemma close_kwf s t th :
  kwf idle ∅ b W s → threads s !! t = Some th → started th → t ≠ idle →
  kwf idle {[t]} b W (close_state t th s).
Proof.
  intros Hk Ht Hs Hi.
  destruct (k_started idle ∅ b W s t th Hk Ht) as (Hp & _); [set_solver|done|].
  unfold close_state, timer_detach_state, object_detach_state, sched_remove. ksg.
  apply ki_transit_update; [|set_solver]. apply ki_without.
  rewrite <- (union_empty_r_L {[t]}). by apply ki_remove.
Qed.

Lemma delete_run s t th tm l :
  kwf idle ∅ b W s → threads s !! t = Some th → started th →
  timers s !! ThreadTimer t = Some tm → tl_remove t (tlists s) !! QDefunct = Some l →
  rt_thread_delete t s = Ok RT_EOK (delete_state t th l s).
Proof.
  intros Hk Ht Hs Htm Hl.
  destruct (k_started idle ∅ b W s t th Hk Ht) as (_ & _ & _ & [lr Hlr]); [set_solver|done|].
  unfold rt_thread_delete, upd_thread.
  rewrite (bind_ok _ _ _ _ _ (remove_thread_run s t th lr Ht Hlr)).
  rewrite (bind_ok _ _ _ _ _ (timer_detach_run (ThreadTimer t) (sched_remove t th s)
    ltac:(by exists tm))).
  krun. change (threads (timer_detach_state ?x (sched_remove t th s))) with (threads s).
  rewrite Ht. krun. unfold tl_insert_after, check_unlinked, tl_get, tl_put. krun.
  change (tlists (timer_detach_state ?x (sched_remove t th s))) with (tl_remove t (tlists s)).
  rewrite decide_True by apply unlinked_remove. krun.
  change (tlists (timer_detach_state ?x (sched_remove t th s))) with (tl_remove t (tlists s)).
  rewrite Hl. krun. done.
Qed.

Lemma delete_kwf s t th tm l :
  kwf idle ∅ b W s → threads s !! t = Some th → started th → t ≠ idle →
  timers s !! ThreadTimer t = Some tm → tl_remove t (tlists s) !! QDefunct = Some l →
  kwf idle ∅ b W (delete_state t th l s).
Proof.
  intros Hk Ht Hs Hi Htm Hl. pose proof (close_kwf s t th Hk Ht Hs Hi) as Hk1.
  rewrite <- (difference_diag_L {[t]}).
  apply (ki_insert _ _ _ _ _ _ _ _ _ Hk1) with (q := QDefunct) (l := l) (tm := tm)
    (th := th_set_stat RT_THREAD_CLOSE th); try done.
  - set_solver.
  - apply lookup_insert_eq.
  - by intros ?%closed_not_started.
  - by intros ?%closed_not_started.
  - by intros ?%closed_not_started.
  - by intros ?%not_running_without.
Qed.

(** The queue of a ready thread. *)
Lemma ready_queue s t th :
  kwf idle ∅ b W s → threads s !! t = Some th → th_stat th = RT_THREAD_READY →
  ∃ l, tlists s !! QReady (th_current_priority th) = Some l ∧ t ∈ l ∧ NoDup l.
Proof.
  intros Hk Ht Hs. pose proof (ki_sched _ _ _ _ _ _ _ _ _ Hk) as Hw.
  destruct (sw_ready _ _ _ _ Hw t th) as (l & Hl & Hin); [done|set_solver|done|].
  exists l. split_and!; [done..|]. by eapply (sw_nodup _ _ _ _ Hw).
Qed.

Lemma not_alone_run s t th l :
  kwf idle ∅ b W s → threads s !! t = Some th → th_stat th = RT_THREAD_READY →
  tlists s !! QReady (th_current_priority th) = Some l →
  not_alone t s = Ok (bool_decide (l ≠ [t])) s.
Proof.
  intros Hk Ht Hs Hl. unfold not_alone. krun. do 2 f_equal. apply bool_decide_ext.
  destruct (ready_queue s t th Hk Ht Hs) as (l' & Hl' & Hin & _). simplify_eq.
  unfold map_Exists. split.
  - intros (q & l' & Hq & Hin' & Hne).
    assert (q = QReady (th_current_priority th)) as ->; [|by simplify_eq].
    eapply (sw_uniq _ _ _ _ (ki_sched _ _ _ _ _ _ _ _ _ Hk)); [by exists l'|by exists l].
  - intros Hne. by exists (QReady (th_current_priority th)), l.
Qed.

Lemma yield_kwf s t th l :
  kwf idle ∅ b W s → threads s !! t = Some th → th_stat th = RT_THREAD_READY →
  tlists s !! QReady (th_current_priority th) = Some l →
  kwf idle ∅ b W (yield_state t th l s).
Proof.
  intros Hk Ht Hs Hl. destruct (ready_queue s t th Hk Ht Hs) as (l' & Hl' & Hin & Hnd). simplify_eq.
  unfold yield_state. ksg.
  rewrite (tl_remove_queue _ _ _ _ (ki_sched _ _ _ _ _ _ _ _ _ Hk) _ _ _ Hl Hin).
  rewrite insert_insert_eq. eapply ki_permute; [exact Hk|exact Hl|]. by apply filter_ne_perm.
Qed.

Lemma yield_run s t th l :
  kwf idle ∅ b W s → rt_current_thread s = Some t → threads s !! t = Some th →
  th_stat th = RT_THREAD_READY →
  tlists s !! QReady (th_current_priority th) = Some l →
  rt_thread_yield s = Ok RT_EOK (if decide (l = [t]) then s
                                 else schedule_state (yield_state t th l s)).
Proof.
  intros Hk Hc Ht Hs Hl. unfold rt_thread_yield. krun. rewrite Hc. krun. rewrite Ht. krun.
  rewrite (not_alone_run (set_primask 1 s) t th l) by done. krun. rewrite Hs.
  change (RT_THREAD_READY =? RT_THREAD_READY) with true. krun.
  destruct (decide (l = [t])) as [->|Hne].
  { rewrite bool_decide_eq_false_2 by tauto. krun. done. }
  rewrite bool_decide_eq_true_2 by done. krun.
  unfold tl_unlink, tl_insert_before, check_unlinked, tl_get, tl_put. krun.
  rewrite decide_True by apply unlinked_remove. krun.
  rewrite tl_remove_lookup, Hl. cbn [fmap option_fmap option_map]. krun.
  pose proof (yield_kwf s t th l Hk Ht Hs Hl) as Hk1.
  unfold yield_state in *. rewrite (k_schedule idle ∅ b W); [done|exact Hk1].
Qed.

(** A thread that is not ready does not yield. *)
(** The other lists stay as they are. *)
Lemma yield_queues s t th l q :
  kwf idle ∅ b W s → threads s !! t = Some th → th_stat th = RT_THREAD_READY →
  q ≠ QReady (th_current_priority th) →
  tlists (schedule_state (yield_state t th l s)) !! q = tlists s !! q.
Proof.
  intros Hk Ht Hs Hq. cbn. rewrite lookup_insert_ne by done. rewrite tl_remove_lookup.
  destruct (tlists s !! q) as [l'|] eqn:E; [|done]. cbn. f_equal. apply list_filter_all_id.
  intros x Hx ->. destruct (ready_queue s t th Hk Ht Hs) as (l0 & Hl & Hin & _). apply Hq.
  eapply (sw_uniq _ _ _ _ (ki_sched _ _ _ _ _ _ _ _ _ Hk)); [by exists l'|by exists l0].
Qed.

Lemma yield_not_ready s t th :
  rt_current_thread s = Some t → threads s !! t = Some th → th_stat th ≠ RT_THREAD_READY →
  rt_thread_yield s = Ok RT_EOK s.
Proof.
  intros Hc Ht Hs. unfold rt_thread_yield, not_alone. krun. rewrite Hc. krun. rewrite Ht. krun.
  replace (th_stat th =? RT_THREAD_READY) with false by lia. krun. done.
Qed.

(** *** Start and priority *)
Lemma startup_kwf s t th tm l :
  kwf idle ∅ b W s → threads s !! t = Some th → th_stat th = RT_THREAD_INIT →
  0 ≤ th_init_priority th < RT_THREAD_PRIORITY_MAX → stack_overflow th = false →
  timers s !! ThreadTimer t = Some tm → tm_ok (ThreadTimer t) tm →
  tlists s !! QReady (th_init_priority th) = Some l →
  rt_thread_startup t s = Ok RT_EOK (
    let s' := startup_state t th tm l s in
    match rt_current_thread s with Some _ => schedule_state s' | None => s' end) ∧
  kwf idle ∅ b W (startup_state t th tm l s).
Proof.
  intros Hk Ht Hs Hp Hst Htm Hok Hl. unfold startup_state.
  set (th0 := th_set_prio (th_init_priority th) (priority_mask (th_init_priority th)) th).
  set (th' := th_set_stat RT_THREAD_SUSPEND th0).
  set (s1 := set_threads (<[t := th']> (threads s)) s).
  assert (unlinked t (tlists s)) as Hu by
    (by eapply (swf_inactive_unlinked _ _ _ _ (ki_sched _ _ _ _ _ _ _ _ _ Hk))).
  assert (kwf idle ∅ b W s1) as Hk1.
  { rewrite <- (difference_diag_L {[t]}).
    apply (ki_drop idle {[t]}) with (th := th') (tm := tm); try done.
    - apply ki_transit_update; [|set_solver]. rewrite <- (union_empty_r_L {[t]}).
      apply ki_enter; [exact Hk|done|]. intros. simplify_eq. by rewrite Hs.
    - apply lookup_insert_eq.
    - intros _. split; [done|]. by apply priority_mask_pow. }
  assert (threads s1 !! t = Some th') as Ht1 by apply lookup_insert_eq.
  assert (tl_remove t (tlists s1) !! QReady (th_current_priority th') = Some l) as Hl1.
  { destruct (resume_queue idle ∅ b W s1 t th' Hk1 Ht1) as (l' & Hl' & Hr'); [set_solver|done|].
    rewrite Hr', <- Hl'. exact Hl. }
  pose proof (resume_kwf idle ∅ b W s1 t th' tm l Hk1 Ht1 ltac:(set_solver) eq_refl Htm Hl1) as Hk2.
  split; [|exact Hk2].
  unfold rt_thread_startup, upd_thread, RT_ASSERT. krun. rewrite Ht. krun. rewrite Hs.
  change (RT_THREAD_INIT =? RT_THREAD_INIT) with true. cbn [negb]. rewrite andb_false_r. krun.
  rewrite Ht. krun. rewrite lookup_insert_eq. krun. rewrite insert_insert_eq.
  match goal with |- context [rt_thread_resume t ?x] => change x with s1 end.
  rewrite (resume_run idle ∅ b W s1 t th' tm l) by done.
  assert (rt_current_thread (resume_state t th' tm l s1) = rt_current_thread s) as -> by done.
  destruct (rt_current_thread s) eqn:E.
  - rewrite bool_decide_eq_true_2 by by eexists. by rewrite (k_schedule _ _ _ _ _ Hk2).
  - by rewrite bool_decide_eq_false_2 by by intros [??].
Qed.

(** [RT_THREAD_CTRL_CHANGE_PRIORITY] of a ready thread. *)
Lemma set_priority_ready s t th p :
  kwf idle ∅ b W s → threads s !! t = Some th → th_stat th = RT_THREAD_READY → t ≠ idle →
  0 ≤ p < RT_THREAD_PRIORITY_MAX →
  ∃ l, tl_remove t (tlists s) !! QReady p = Some l ∧
    rt_thread_control t RT_THREAD_CTRL_CHANGE_PRIORITY p s =
      Ok RT_EOK (set_priority_state t th p l s) ∧
    kwf idle ∅ b W (set_priority_state t th p l s).
Proof.
  intros Hk Ht Hs Hi Hp.
  destruct (k_started idle ∅ b W s t th Hk Ht) as (Hpo & Hst & (tm & Htm & Hok) & [lq Hlq]);
    [set_solver|by left|].
  pose proof (ki_remove _ _ _ _ _ _ _ _ _ Hk t th Ht Hpo Hi) as Hk1.
  rewrite union_empty_r_L in Hk1.
  destruct (swf_ready_queue _ _ _ _ (ki_sched _ _ _ _ _ _ _ _ _ Hk1) p Hp) as [l Hl].
  assert (u8 p = p) as Hu8. { unfold RT_THREAD_PRIORITY_MAX in *. apply wrap_small. lia. }
  exists l. split_and!; [done| |].
  - unfold rt_thread_control, upd_thread.
    change (RT_THREAD_CTRL_CHANGE_PRIORITY =? RT_THREAD_CTRL_CHANGE_PRIORITY) with true.
    krun. rewrite Ht. krun. rewrite Hs, Hu8.
    change (RT_THREAD_READY =? RT_THREAD_READY) with true. krun.
    rewrite (remove_thread_run (set_primask 1 s) t th lq) by done.
    change (threads (sched_remove t th (set_primask 1 s))) with (threads s).
    rewrite Ht. krun. unfold set_priority_state.
    erewrite (insert_thread_run _ t (th_set_prio p (priority_mask p) th) l);
      [|ksg; by rewrite lookup_insert_eq|apply unlinked_remove|exact Hl].
    unfold sched_insert. ksg. by rewrite insert_insert_eq.
  - unfold set_priority_state, sched_insert. ksg. rewrite <- (difference_diag_L {[t]}).
    apply (ki_insert idle {[t]} b W) with (q := QReady p)
      (th := th_set_stat RT_THREAD_READY (th_set_prio p (priority_mask p) th)) (l := l) (tm := tm);
      try done.
    + apply ki_transit_update; [exact Hk1|set_solver].
    + set_solver.
    + apply lookup_insert_eq.
    + intros _. split; [done|]. by apply priority_mask_pow.
    + intros Hr. exfalso.
      eapply ki_ready_not_running; [exact Hk|exact Ht|set_solver|exact Hs|exact Hr].
    + by rewrite Permutation_app_comm.
Qed.

(** The same of a thread that is not ready: it stays where it is in the list
    it waits in. *)
Lemma set_priority_other s t th p :
  kwf idle ∅ b W s → threads s !! t = Some th → th_stat th ≠ RT_THREAD_READY →
  0 ≤ p < RT_THREAD_PRIORITY_MAX →
  let s' := set_threads (<[t := th_set_prio p (priority_mask p) th]> (threads s)) s in
  rt_thread_control t RT_THREAD_CTRL_CHANGE_PRIORITY p s = Ok RT_EOK s' ∧ kwf idle ∅ b W s'.
Proof.
  intros Hk Ht Hs Hp.
  assert (u8 p = p) as Hu8. { unfold RT_THREAD_PRIORITY_MAX in *. apply wrap_small. lia. }
  split.
  - unfold rt_thread_control, upd_thread.
    change (RT_THREAD_CTRL_CHANGE_PRIORITY =? RT_THREAD_CTRL_CHANGE_PRIORITY) with true.
    krun. rewrite Ht. krun. replace (th_stat th =? RT_THREAD_READY) with false by lia.
    krun. rewrite Ht. krun. by rewrite Hu8.
  - eapply ki_set_prio; [exact Hk|done..|]. intros _. split; [done|]. by apply priority_mask_pow.
Qed.
End runs3.


(** *** Initialisation *)
Section init.
Context {cfg : RTConfig} (idle : Z) (b W : Z).

(** A record of no thread that runs or waits is overwritten. *)
Lemma fresh_kwf ths L g tms rows t th tm :
  kinv idle ∅ b W ths L g tms rows → unlinked t L → ths !! t = Some th → ¬ started th →
  tms !! ThreadTimer t = Some tm → ¬ running (ThreadTimer t) rows →
  ∀ th', ¬ started th' → kinv idle ∅ b W (<[t := th']> ths) L g tms rows.
Proof.
  intros Hk Hu Ht Hs Htm Hr th' Hs'. rewrite <- (difference_diag_L {[t]}).
  apply (ki_drop idle {[t]}) with (th := th') (tm := tm); try done.
  - apply ki_transit_update; [|set_solver]. rewrite <- (union_empty_r_L {[t]}).
    apply ki_enter; [done..|]. intros. simplify_eq. intros ?. apply Hs. by left.
  - apply lookup_insert_eq.
  - intros ?. apply Hs'. by left.
Qed.

(** The memory [rt_thread_init] may be given: a thread record that is on no
    list, and is not an object yet. *)
Record fresh_thread (t : Z) (th : rt_thread) (tm : rt_timer) (s : kstate) : Prop := {
  fr_thread : threads s !! t = Some th;
  fr_timer : timers s !! ThreadTimer t = Some tm;
  fr_stat : ¬ started th;
  fr_unlinked : unlinked t (tlists s);
  fr_stopped : ¬ running (ThreadTimer t) (rt_timer_list s);
  fr_detached : map_Forall (λ _ l, OThread t ∉ l ∧ OTimer (ThreadTimer t) ∉ l)
                  (rt_object_container s)
}.

Lemma init_not_started e p sa sz st sp pr tick th :
  ¬ started (th_set_init e p sa sz st sp pr tick th).
Proof. by intros [?|?]. Qed.

Lemma fresh_stack e p sa sz :
  72 ≤ sz → 0 ≤ sa → sa + sz < 2 ^ 32 →
  ∃ sp frame st, rt_hw_stack_init e p (sa + sz - 4) rt_thread_exit_address = (sp, frame) ∧
    init_stack_bytes sa sz sp frame = Some st ∧
    ∀ pr tick th, stack_overflow (th_set_init e p sa sz st sp pr tick th) = false.
Proof.
  intros Hz Ha Ht. pose proof (stack_init_range sa sz e p rt_thread_exit_address Hz Ha Ht) as Hr.
  destruct (rt_hw_stack_init e p (sa + sz - 4) rt_thread_exit_address) as [sp frame]. cbn in Hr.
  destruct Hr as (Hr1 & Hr2 & _). exists sp, frame.
  destruct (init_stack_bytes sa sz sp frame) as [st|] eqn:Es.
  2:{ unfold init_stack_bytes in Es.
      replace (sa <=? sp) with true in Es by lia.
      replace (sp + SIZEOF_STACK_FRAME <=? sa + sz) with true in Es by lia. done. }
  exists st. split_and!; [done..|]. intros pr tick th. unfold stack_overflow. cbn.
  rewrite (init_stack_head _ _ _ _ _ Es) by lia.
  rewrite bool_decide_eq_true_2 by done. unfold u32, SIZEOF_STACK_FRAME in *.
  rewrite wrap_small by lia. cbn. lia.
Qed.

(** The state after [rt_thread_init]: [n] is the copied name, [sp] and [st] the
    initial stack, [lt] and [lm] the containers of threads and timers. *)
Definition init_thread (n : list Z) (th : rt_thread) (e p sa sz sp : Z) (st : list Z)
    (pr tick : Z) : rt_thread :=
  th_set_init e p sa sz st sp pr tick (th_set_parent
    (mk_object n (Z.lor RT_Object_Class_Thread RT_Object_Class_Static)
       (obj_flag (th_parent th))) th).

Definition thread_attach_state (t : Z) (th : rt_thread) (lt : list oid) (s : kstate) : kstate :=
  set_threads (<[t := th]> (threads s))
    (set_rt_object_container (<[RT_Object_Class_Thread := OThread t :: lt]> (rt_object_container s))
      (set_trace (trace s ++ hook_events rt_object_attach_hook (arg_object (OThread t)) s) s)).

Lemma thread_init_run s t th tm name n e p sa sz pr tick lt lm :
  kwf idle ∅ b W s → fresh_thread t th tm s →
  rt_object_container s !! RT_Object_Class_Thread = Some lt →
  rt_object_container s !! RT_Object_Class_Timer = Some lm →
  Str.rt_strncpy name (Z.to_nat RT_NAME_MAX) = Some n →
  72 ≤ sz → 0 ≤ sa → sa + sz < 2 ^ 32 → 0 ≤ pr < RT_THREAD_PRIORITY_MAX →
  ∃ sp st n', let th' := init_thread n th e p sa sz sp st pr tick in
    let s' := timer_init_state (ThreadTimer t) n' tm fn_rt_thread_timeout t 0 0 lm
                (thread_attach_state t th' lt s) in
    rt_thread_init t name e p sa sz pr tick s = Ok RT_EOK s' ∧
    stack_overflow th' = false ∧ kwf idle ∅ b W s'.
Proof.
  intros Hk [Ht Htm Hs Hu Hr Hd] Hlt Hlm Hn Hz Ha Hsz Hp.
  destruct (fresh_stack e p sa sz Hz Ha Hsz) as (sp & frame & st & Est & Ebytes & Hover).
  pose proof (Str.strncpy_length _ _ _ Hn) as Hlen.
  destruct (Str.strncpy_some (Z.to_nat RT_NAME_MAX) n ltac:(lia)) as [n' Hn'].
  exists sp, st, n'. cbv zeta. split; [|split; [by apply Hover|]].
  - unfold rt_thread_init.
    assert (map_Forall (λ _ l, OThread t ∉ l) (rt_object_container s)) as Hd1.
    { intros i l Hl. by apply Hd in Hl as [? _]. }
    rewrite (bind_ok _ _ _ _ _ (object_init_run (OThread t) RT_Object_Class_Thread name n
      (th_parent th) lt s ltac:(cbn; by rewrite Ht) Hn Hd1 Hlt)).
    unfold object_init_state. cbn [set_parent]. rewrite (alter_lookup _ _ _ _ Ht).
    unfold _rt_thread_init, tl_init_node, check_unlinked, upd_thread, RT_ASSERT. krun.
    rewrite decide_True by done. krun. rewrite Est. krun. rewrite Ebytes. krun.
    replace (pr <? RT_THREAD_PRIORITY_MAX) with true by lia. cbn [negb].
    rewrite andb_false_r. krun. rewrite lookup_insert_eq. krun. rewrite lookup_insert_eq. krun.
    rewrite insert_insert_eq.
    erewrite (timer_init_run b W _ _ n'); [reflexivity|exact (ki_timers _ _ _ _ _ _ _ _ _ Hk)
      |exact Hr|exact Htm|exact Hn'| |].
    + ksg. intros i l. intros [[<- <-]|[? Hl]]%lookup_insert_Some; [|by apply Hd in Hl as [_ ?]].
      apply not_elem_of_cons. split; [done|]. by apply Hd in Hlt as [_ ?].
    + ksg. by rewrite lookup_insert_ne.
  - unfold timer_init_state, thread_attach_state. ksg.
    apply ki_timer_put; [|exact Hr|].
    + eapply (fresh_kwf _ _ _ _ _ t th tm); try done. apply init_not_started.
    + intros u th' [= <-]. rewrite lookup_insert_eq. intros [= <-] _ Hst.
      exfalso. by eapply init_not_started.
Qed.
End init.

(** *** Priority change, summed up *)

(** From [s] to [s'] only the priority of [u] changed. *)
Record reprioritized (u p : Z) (th : rt_thread) (s s' : kstate) : Prop := {
  rp_thread : threads s' !! u = Some (th_set_prio p (priority_mask p) th);
  rp_others : ∀ v, v ≠ u → threads s' !! v = threads s !! v;
  rp_lists : ∀ q, match q with QSuspend _ | QSender _ => True | _ => False end →
    tlists s' !! q = tlists s !! q;
  rp_objs : objs s' = objs s;
  rp_words : mem_words s' = mem_words s;
  rp_blocks : mem_blocks s' = mem_blocks s;
  rp_mask : primask s' = primask s;
  rp_nest : rt_interrupt_nest s' = rt_interrupt_nest s;
  rp_lock : rt_scheduler_lock_nest s' = rt_scheduler_lock_nest s;
  rp_current : rt_current_thread s' = rt_current_thread s;
  rp_tick : rt_tick s' = rt_tick s;
  rp_timers : same_timers s s'
}.

Lemma reprioritized_refl u th s : threads s !! u = Some th → prio_ok th →
  reprioritized u (th_current_priority th) th s s.
Proof.
  intros Ht [Hp Hm]. split; try done. rewrite Ht, priority_mask_pow, <- Hm by done. done.
Qed.

Lemma ready_stat th p m : th_stat th = RT_THREAD_READY →
  th_set_stat RT_THREAD_READY (th_set_prio p m th) = th_set_prio p m th.
Proof. intros <-. done. Qed.

Lemma set_priority_run {cfg : RTConfig} idle b W s t th p :
  kwf idle ∅ b W s → threads s !! t = Some th → t ≠ idle → 0 ≤ p < RT_THREAD_PRIORITY_MAX →
  ∃ s', rt_thread_control t RT_THREAD_CTRL_CHANGE_PRIORITY p s = Ok RT_EOK s' ∧
    kwf idle ∅ b W s' ∧ reprioritized t p th s s'.
Proof.
  intros Hk Ht Hi Hp. destruct (decide (th_stat th = RT_THREAD_READY)) as [Hs|Hs].
  - destruct (set_priority_ready idle b W s t th p Hk Ht Hs Hi Hp) as (l & Hl & E & Hk').
    eexists. split; [exact E|]. split; [exact Hk'|]. split; try done.
    + cbn. by rewrite lookup_insert_eq, ready_stat.
    + intros v Hv. cbn. by rewrite lookup_insert_ne.
    + intros q Hq. cbn. rewrite lookup_insert_ne by by destruct q.
      rewrite tl_remove_lookup. destruct (tlists s !! q) as [l'|] eqn:El; [|done].
      cbn. f_equal. apply list_filter_all_id. intros x Hx ->.
      destruct (sw_stat _ _ _ _ (ki_sched _ _ _ _ _ _ _ _ _ Hk) q t) as (_ & th' & ? & Hst);
        [by exists l'|]. simplify_eq. destruct q; simpl in *; try done; by rewrite Hs in Hst.
  - destruct (set_priority_other idle b W s t th p Hk Ht Hs Hp) as [E Hk'].
    eexists. split; [exact E|]. split; [exact Hk'|]. split; try done.
    + cbn. by rewrite lookup_insert_eq.
    + intros v Hv. cbn. by rewrite lookup_insert_ne.
Qed.
