(* ===== verification/Clock.v ===== *)
(** * Clock and interrupts ([clock.c], [irq.c], [SysTick_Handler])

    The tick counter, the time slice, and the nesting of interrupts. *)

From S2P Require Import Prelude RtDef SortedList Mem KService Kernel Scheduler Object.
From S2P Require Import Timer Invariant Thread.

(** ** Operations *)
Section ops.
Context {cfg : RTConfig}.

Definition rt_tick_set (tick : Z) : K unit :=
  let! level := rt_hw_interrupt_disable in
  modify (set_rt_tick tick) ;;;
  rt_hw_interrupt_enable level.

(** The time slice: the current thread goes behind its equals when it is used
    up. *)
Definition check_time_slice : K unit :=
  let! thread := self in
  upd_thread thread (λ th, th_set_remaining (u32 (th_remaining_tick th - 1)) th) ;;;
  let! th := get_thread thread in
  if th_remaining_tick th =? 0 then
    put_thread thread (th_set_remaining (th_init_tick th) th) ;;;
    rt_thread_yield ;;;
    ret tt
  else ret tt.

Definition rt_tick_increase : K unit :=
  modify (λ s, set_rt_tick (u32 (rt_tick s + 1)) s) ;;;
  check_time_slice ;;;
  let! fuel := gets timer_fuel in
  rt_timer_check timeout_call fuel.

(** [(RT_TICK_PER_SECOND * ms + 999) / 1000] on 32 bits. *)
Definition rt_tick_from_millisecond (ms : Z) : Z := u32 (RT_TICK_PER_SECOND * ms + 999) / 1000.

Definition rt_interrupt_enter : K unit :=
  let! level := rt_hw_interrupt_disable in
  modify (λ s, set_rt_interrupt_nest (u8 (rt_interrupt_nest s + 1)) s) ;;;
  RT_OBJECT_HOOK_CALL rt_interrupt_enter_hook arg_none ;;;
  rt_hw_interrupt_enable level.

Definition rt_interrupt_leave : K unit :=
  let! level := rt_hw_interrupt_disable in
  modify (λ s, set_rt_interrupt_nest (u8 (rt_interrupt_nest s - 1)) s) ;;;
  RT_OBJECT_HOOK_CALL rt_interrupt_leave_hook arg_none ;;;
  rt_hw_interrupt_enable level.

Definition rt_interrupt_get_nest : K Z := read rt_interrupt_nest.

Definition SysTick_Handler : K unit :=
  rt_interrupt_enter ;;;
  rt_tick_increase ;;;
  rt_interrupt_leave.

End ops.

(** ** The tick *)
Section tick.
Context {cfg : RTConfig} (idle : Z).
Abbreviation J s := (kwf idle ∅ (rt_tick s - 1) half s).

(** The invariant of the interrupt: the base tick is the previous one. *)
Lemma tick_enter s : kok idle s → J (set_rt_tick (u32 (rt_tick s + 1)) s).
Proof.
  intros Hk. eapply ki_window; [exact Hk|]. ksg.
  eapply tw_base; [eapply tw_widen; [exact (ki_timers _ _ _ _ _ _ _ _ _ Hk)|unfold half; lia]|].
  unfold u32, wrap. rewrite Zminus_mod_idemp_l. f_equal. lia.
Qed.

(** [rt_timer_check] fires the due timers in order, and ends with none due; it
    keeps any invariant [I] of the interrupt that the timeout functions keep. *)
Lemma timer_check_keeps (I : kstate → Prop) `{!TimeoutHandler timeout_call I} s fuel l :
  (∀ s, I s → J s) → I (set_primask 1 s) → last (rt_timer_list s) = Some l →
  (length (due s l) < fuel)%nat →
  ∃ s', fires timeout_call (due s l) (set_primask 1 s) = Ok tt s' ∧
    rt_timer_check timeout_call fuel s = Ok tt (set_primask (primask s) s') ∧
    rt_tick s' = rt_tick s ∧ kok idle s' ∧ I s'.
Proof.
  intros HIJ HI Hl Hf.
  destruct (check_loop_run timeout_call I _ (set_primask 1 s) l fuel HI Hl eq_refl Hf)
    as (s' & l' & Ef & Ec & HI' & Ek & Hl' & Hd).
  change (due (set_primask 1 s) l) with (due s l) in Ef. pose proof (HIJ s' HI') as HJ'.
  exists s'. split_and!; [exact Ef| |exact Ek| |exact HI'].
  - unfold rt_timer_check, rt_tick_get. krun.
    change (rt_tick (set_primask 1 s)) with (rt_tick s) in Ec. by rewrite Ec.
  - assert (timers_wf (rt_tick s' - 1 + 1) (half - 1) (timers s') (rt_timer_list s')) as Hwf.
    { apply tw_rebase; [apply (ki_timers _ _ _ _ _ _ _ _ _ HJ')|].
      intros l0 x El Hx. rewrite Hl' in El. simplify_eq.
      pose proof (not_due_later (λ s, J s) s' l0 x HJ' Hl' Hd Hx). lia. }
    replace (rt_tick s' - 1 + 1) with (rt_tick s') in Hwf by lia.
    eapply ki_window; [exact HJ'|exact Hwf].
Qed.

Lemma due_length s l : (length (due s l) < S (length l))%nat.
Proof.
  unfold due, upto. pose proof (length_filter (λ x, tkey (timers s) (rt_tick s - 1) x ≤ 1) l). lia.
Qed.

(** What the time slice leaves as it is. *)
Record slice_frame (s s' : kstate) : Prop := {
  sf_objs : objs s' = objs s;
  sf_lock : rt_scheduler_lock_nest s' = rt_scheduler_lock_nest s;
  sf_waiting : ∀ p, tlists s' !! QSuspend p = tlists s !! QSuspend p;
  sf_ready : running_ready s → running_ready s';
  sf_highest : highest_runs s → highest_runs s'
}.

(** The time slice keeps the invariant. *)
Lemma slice_run b W s t th :
  kwf idle ∅ b W s → rt_current_thread s = Some t → threads s !! t = Some th →
  ∃ s', check_time_slice s = Ok tt s' ∧ kwf idle ∅ b W s' ∧ rt_tick s' = rt_tick s ∧
    primask s' = primask s ∧ rt_interrupt_nest s' = rt_interrupt_nest s ∧
    same_timers s s' ∧ (∃ r, threads s' = <[t := th_set_remaining r th]> (threads s)) ∧ runs s' ∧
    slice_frame s s'.
Proof.
  intros Hk Hc Ht. set (th1 := th_set_remaining (u32 (th_remaining_tick th - 1)) th).
  set (s1 := set_threads (<[t := th1]> (threads s)) s).
  assert (kwf idle ∅ b W s1) as Hk1 by (by eapply ki_update).
  unfold check_time_slice, upd_thread. krun. rewrite Hc. krun. rewrite Ht. krun.
  rewrite lookup_insert_eq. krun. fold th1.
  destruct (Z.eqb_spec (th_remaining_tick th1) 0) as [Hz|Hz].
  2:{ exists s1. split_and!; try done; [by eexists| |].
      - exists t. split; [exact Hc|]. exists th1. apply lookup_insert_eq.
      - split; try done. intros (u & thu & Hu & Htu & ?). exists t, th1.
        split_and!; [exact Hc|apply lookup_insert_eq|]. by simplify_eq. }
  krun. rewrite insert_insert_eq. set (th2 := th_set_remaining (th_init_tick th1) th1).
  match goal with |- context [rt_thread_yield ?x] => set (s2 := x) end.
  assert (kwf idle ∅ b W s2) as Hk2 by (by eapply ki_update).
  assert (threads s2 !! t = Some th2) as Ht2 by apply lookup_insert_eq.
  assert (runs s2) as Hr2 by (exists t; split; [exact Hc|by exists th2]).
  assert (∃ r, threads s2 = <[t := th_set_remaining r th]> (threads s)) as Hr by by eexists.
  assert (running_ready s → running_ready s2) as Hry.
  { intros (u & thu & Hu & Htu & ?). exists t, th2. split_and!; [exact Hc|exact Ht2|].
    by simplify_eq. }
  destruct (decide (th_stat th2 = RT_THREAD_READY)) as [Hrd|Hrd].
  - destruct (ready_queue idle b W s2 t th2 Hk2 Ht2 Hrd) as (l & Hl & _).
    rewrite (yield_run idle b W s2 t th2 l) by done. eexists. split; [done|].
    pose proof (yield_kwf idle b W s2 t th2 l Hk2 Ht2 Hrd Hl) as Hk3.
    case_decide; split_and!; try done; [by eapply schedule_runs|].
    split; try done.
    + intros p. by apply (yield_queues idle b W s2).
    + intros Hs. apply (schedule_ready idle b W); [exact Hk3|]. by apply Hry in Hs.
    + intros _. apply schedule_highest. by eapply (k_can_schedule idle ∅).
  - rewrite (yield_not_ready s2 t th2) by done. exists s2. by split_and!.
Qed.

(** One tick: the time slice, then the due timers. *)
Lemma tick_run s t th l :
  kok idle s → rt_current_thread s = Some t → threads s !! t = Some th →
  last (rt_timer_list s) = Some l →
  ∃ s1 s2, check_time_slice (set_rt_tick (u32 (rt_tick s + 1)) s) = Ok tt s1 ∧
    fires timeout_call (due s1 l) (set_primask 1 s1) = Ok tt s2 ∧
    rt_tick_increase s = Ok tt (set_primask (primask s) s2) ∧
    rt_tick s2 = u32 (rt_tick s + 1) ∧ kok idle s2 ∧
    timers s1 = timers s ∧ rt_timer_list s1 = rt_timer_list s ∧
    J s1 ∧ rt_tick s1 = u32 (rt_tick s + 1) ∧
    (∃ r, threads s1 = <[t := th_set_remaining r th]> (threads s)) ∧ runs s1.
Proof.
  intros Hk Hc Ht Hl. pose proof (tick_enter s Hk) as HJ.
  destruct (slice_run _ _ (set_rt_tick (u32 (rt_tick s + 1)) s) t th HJ Hc Ht)
    as (s1 & Es & HJ1 & Ek & Ep & En & (Et & El & _) & Hth & Hrn & _).
  cbn in Ek, Ep, En, Et, El. rewrite <- Ek in HJ1.
  destruct (timer_check_keeps (λ s, J s) s1 (timer_fuel s1) l) as (s2 & Ef & Ec & Ek2 & Hk2 & _);
    [done|exact HJ1|..].
  { by rewrite El. }
  { unfold timer_fuel. rewrite El, Hl. apply due_length. }
  exists s1, s2. split_and!; try done.
  - unfold rt_tick_increase. krun. unfold bind in *. rewrite Es. krun. rewrite Ec. by rewrite Ep.
  - by rewrite Ek2.
Qed.

End tick.
