(* ===== verification/Ipc.v ===== *)
(** * Waiting lists of IPC objects ([rtthread/kernel/src/ipc.c], common part)

    The inline functions that suspend a thread on the list of an object, in
    FIFO or priority order, and that resume the first or every thread of a
    list; and the result type of the operations that may block. *)

From S2P Require Import Prelude RtDef SortedList Mem KService Kernel Cpuport Scheduler.
From S2P Require Import Object Timer Invariant Thread.

(** A call that may give up the processor either returns, or is inside its
    [rt_schedule()] with what it needs to go on. *)
Inductive outcome (A C : Type) : Type :=
  | Returned (a : A)
  | Blocked (c : C).
Arguments Returned {A C} a.
Arguments Blocked {A C} c.

(** ** Operations *)
Section ops.
Context {cfg : RTConfig}.

Definition rt_ipc_object_init (p : Z) : K Z := tl_init (QSuspend p) ;;; ret RT_EOK.

(** The position in a list in priority order: the nodes before the first
    thread of a lower priority, and the others. *)
Fixpoint find_position (priority : Z) (l : list Z) : K (list Z * list Z) :=
  match l with
  | [] => ret ([], [])
  | u :: l =>
    let! sthread := get_thread u in
    if priority <? th_current_priority sthread then ret ([], u :: l)
    else let! (pre, post) := find_position priority l in ret (u :: pre, post)
  end.

Definition rt_ipc_list_suspend (q : qid) (thread flag : Z) : K Z :=
  rt_thread_suspend thread ;;;
  (if flag =? RT_IPC_FLAG_FIFO then tl_insert_before q thread
   else if flag =? RT_IPC_FLAG_PRIO then
     let! th := get_thread thread in
     let! l := tl_get q in
     let! (pre, post) := find_position (th_current_priority th) l in
     tl_insert_at q pre post thread
   else ret tt) ;;;
  ret RT_EOK.

Definition rt_ipc_list_resume (q : qid) : K Z :=
  let! thread := tl_first q in
  rt_thread_resume thread ;;;
  ret RT_EOK.

Fixpoint resume_all_loop (fuel : nat) (q : qid) : K unit :=
  match fuel with
  | O => fail OutOfFuel
  | S fuel =>
    let! e := tl_isempty q in
    if e then ret tt else
      let! temp := rt_hw_interrupt_disable in
      let! thread := tl_first q in
      upd_thread thread (th_set_error (- RT_ERROR)) ;;;
      rt_thread_resume thread ;;;
      rt_hw_interrupt_enable temp ;;;
      resume_all_loop fuel q
  end.

(** One iteration per waiting thread. *)
Definition rt_ipc_list_resume_all (q : qid) : K Z :=
  let! l := tl_get q in
  resume_all_loop (S (length l)) q ;;;
  ret RT_EOK.

(** What follows the decision to wait, when the time is not needed later:
    [rt_ipc_list_suspend], and the timer when there is a time limit. *)
Definition ipc_wait (q : qid) (thread flag time : Z) : K unit :=
  rt_ipc_list_suspend q thread flag ;;;
  (when 0 <? time then start_thread_timer thread time).

(** The same where the tick at which the wait starts is kept: the value of
    [tick_delta] after it. *)
Definition timed_wait (q : qid) (thread flag timeout tick_delta : Z) : K Z :=
  rt_ipc_list_suspend q thread flag ;;;
  if 0 <? timeout then
    let! tick_delta := rt_tick_get in
    start_thread_timer thread timeout ;;;
    ret tick_delta
  else ret tick_delta.

(** The rest of a timeout after a wait that began at [tick_delta]: unsigned
    ticks, a signed timeout. *)
Definition remaining_timeout (timeout tick_delta : Z) : K Z :=
  if 0 <? timeout then
    let! now := rt_tick_get in
    let timeout := s32 (timeout - u32 (now - tick_delta)) in
    ret (if timeout <? 0 then 0 else timeout)
  else ret timeout.

End ops.

(** ** Order of the waiting threads *)
Definition prio_of (ths : gmap Z rt_thread) (t : Z) : Z :=
  match ths !! t with Some th => th_current_priority th | None => 0 end.

Fixpoint prio_insert (ths : gmap Z rt_thread) (p t : Z) (l : list Z) : list Z :=
  match l with
  | [] => [t]
  | u :: l => if p <? prio_of ths u then t :: u :: l else u :: prio_insert ths p t l
  end.

Definition wait_insert (flag : Z) (ths : gmap Z rt_thread) (p t : Z) (l : list Z) : list Z :=
  if flag =? RT_IPC_FLAG_FIFO then l ++ [t] else prio_insert ths p t l.

Lemma prio_insert_perm ths p t l : prio_insert ths p t l ≡ₚ t :: l.
Proof.
  induction l as [|u l IH]; simpl; [done|]. case_match; [done|]. rewrite IH. by constructor.
Qed.

Lemma wait_insert_perm flag ths p t l : wait_insert flag ths p t l ≡ₚ t :: l.
Proof.
  unfold wait_insert. case_match; [by rewrite Permutation_app_comm|apply prio_insert_perm].
Qed.

(** On a list in priority order it is the stable insertion. *)
Lemma prio_insert_sorted ths p t l :
  sorted_by (prio_of ths) l → prio_insert ths p t l = sorted_insert (prio_of ths) p t l.
Proof.
  unfold sorted_insert, upto, beyond. induction l as [|u l IH]; intros Hs; [done|].
  inversion_clear Hs as [|?? Hl Hf]. simpl. destruct (Z.ltb_spec p (prio_of ths u)).
  - rewrite (filter_cons_False (λ x, prio_of ths x ≤ p)), (filter_cons_True (λ x, p < prio_of ths x))
      by lia.
    rewrite (filter_nil (λ x, prio_of ths x ≤ p)).
    + simpl. f_equal. f_equal. symmetry. apply list_filter_all_id. intros x Hx.
      rewrite Forall_forall in Hf. specialize (Hf x Hx). lia.
    + eapply Forall_impl; [exact Hf|]. simpl. intros. lia.
  - rewrite (filter_cons_True (λ x, prio_of ths x ≤ p)), (filter_cons_False (λ x, p < prio_of ths x))
      by lia.
    simpl. f_equal. by apply IH.
Qed.

Lemma find_position_run s p t l :
  Forall (λ u, is_Some (threads s !! u)) l →
  ∃ pre post, find_position p l s = Ok (pre, post) s ∧
    pre ++ t :: post = prio_insert (threads s) p t l.
Proof.
  induction 1 as [|u l [th Hu] Hl (pre & post & E & Ei)]; cbn [find_position prio_insert].
  { by exists [], []. }
  unfold prio_of. krun. rewrite Hu. krun. destruct (p <? th_current_priority th).
  { by exists [], (u :: l). }
  exists (u :: pre), post. rewrite E. split; [done|]. simpl. by rewrite Ei.
Qed.

(** ** Waiting *)
Definition wait_queue (q : qid) : Prop :=
  match q with QSuspend _ | QSender _ => True | _ => False end.

(** The head of a waiting list of a new object: it was never initialised, or
    nobody waits in it. *)
Definition new_queue (q : qid) (L : gmap qid (list Z)) : Prop :=
  wait_queue q ∧ (L !! q = None ∨ L !! q = Some []).

Lemma linked_new_queue q L q' t :
  new_queue q L → linked (<[q := []]> L) q' t ↔ linked L q' t.
Proof.
  intros [_ Hl]. unfold linked. rewrite lookup_insert. case_decide; [|done]. subst.
  split; intros (l & Hq & Hin).
  - injection Hq as <-. by apply elem_of_nil in Hin.
  - destruct Hl; simplify_eq. by apply elem_of_nil in Hin.
Qed.

(** [rt_list_init] of such a head. *)
Lemma ki_new_queue idle X b W ths L g tms rows q :
  kinv idle X b W ths L g tms rows → new_queue q L →
  kinv idle X b W ths (<[q := []]> L) g tms rows.
Proof.
  intros [[H1 H2 H3 H4 H5 H6 H7 H8] Htm Hti Ha Hst Hb Hw Hi Hdf] Hq.
  pose proof (linked_new_queue q L) as Hlk. split; try done.
  - split; try done.
    + intros p. rewrite <- H1, lookup_insert_ne; [done|]. destruct Hq as [Hq _]. by destruct q.
    + intros q' l. rewrite lookup_insert. case_decide; [|by apply H2].
      intros [= <-]. constructor.
    + intros q1 q2 t. rewrite !Hlk by done. apply H3.
    + intros q' t. rewrite Hlk by done. apply H4.
    + intros t th. rewrite Hlk by done. apply H5.
    + intros p Hp. setoid_rewrite (λ t, Hlk (QReady p) t Hq). by apply H7.
  - rewrite lookup_insert_ne; [done|]. destruct Hq as [Hq _]. by destruct q.
Qed.

(** The state after the thread [t] is suspended and linked into the list of [q],
    which becomes [l'], and after its timer is started too. *)
Definition queue_state (q : qid) (l' : list Z) (t : Z) (th : rt_thread) (tm : rt_timer)
    (s : kstate) : kstate :=
  let s1 := suspend_state t th tm s in set_tlists (<[q := l']> (tlists s1)) s1.

Definition wait_state {cfg : RTConfig} (q : qid) (l' : list Z) (t time : Z) (th : rt_thread)
    (tm : rt_timer) (s : kstate) : kstate :=
  let s1 := queue_state q l' t th tm s in
  if 0 <? time then thread_timer_state t time (stopped tm) s1 else s1.

Section runs.
Context {cfg : RTConfig} (idle : Z) (b W : Z).

(** A thread that is on a list of another kind is not on this one. *)
Lemma other_queue s t th q l :
  kwf idle ∅ b W s → threads s !! t = Some th → th_stat th = RT_THREAD_READY →
  wait_queue q → tlists s !! q = Some l → tl_remove t (tlists s) !! q = Some l ∧ t ∉ l.
Proof.
  intros Hk Ht Hs Hq Hl. assert (t ∉ l) as Hn.
  { intros Hin. destruct (sw_stat _ _ _ _ (ki_sched _ _ _ _ _ _ _ _ _ Hk) q t) as (_ & th' & ? & Hst);
      [by exists l|]. simplify_eq. destruct q; simpl in *; try done; by rewrite Hs in Hst. }
  split; [|done]. rewrite (tl_remove_Some _ _ _ _ Hl). f_equal.
  apply list_filter_all_id. naive_solver.
Qed.

(** Every thread of a list exists. *)
Lemma queue_threads X s q l :
  kwf idle X b W s → tlists s !! q = Some l → Forall (λ u, is_Some (threads s !! u)) l.
Proof.
  intros Hk Hl. apply Forall_forall. intros u Hu.
  destruct (sw_stat _ _ _ _ (ki_sched _ _ _ _ _ _ _ _ _ Hk) q u) as (_ & th & ? & _);
    [by exists l|]. by exists th.
Qed.

Lemma prio_insert_ext ths ths' p t l :
  Forall (λ u, prio_of ths u = prio_of ths' u) l → prio_insert ths p t l = prio_insert ths' p t l.
Proof. induction 1 as [|u l Hu Hl IH]; simpl; [done|]. by rewrite Hu, IH. Qed.

(** A suspended thread on no list is linked into a waiting list. *)
Lemma link_kwf ths L g tms rows t th q l l' :
  kinv idle ∅ b W ths L g tms rows → ths !! t = Some th → th_stat th = RT_THREAD_SUSPEND →
  unlinked t L → wait_queue q → L !! q = Some l → l' ≡ₚ t :: l →
  kinv idle ∅ b W ths (<[q := l']> L) g tms rows.
Proof.
  intros Hk Ht Hs Hu Hq Hl Hp.
  assert (started th) as Hst by by right.
  assert (prio_ok th ∧ stack_overflow th = false ∧
    ∃ tm, tms !! ThreadTimer t = Some tm ∧ tm_ok (ThreadTimer t) tm) as (? & ? & tm & Htm & Hok).
  { split_and!.
    - by eapply (sw_prio _ _ _ _ (ki_sched _ _ _ _ _ _ _ _ _ Hk)).
    - by eapply (ki_stacks _ _ _ _ _ _ _ _ _ Hk).
    - by eapply (ki_builtin _ _ _ _ _ _ _ _ _ Hk). }
  assert (kinv idle {[t]} b W ths L g tms rows) as Hk1.
  { rewrite <- (union_empty_r_L {[t]}). apply ki_enter; [done..|]. intros. simplify_eq.
    by rewrite Hs. }
  rewrite <- (difference_diag_L {[t]}).
  replace g with (match q with QReady _ => Z.lor g (th_number_mask th) | _ => g end)
    by (by destruct q).
  eapply ki_insert; try done; [set_solver|]. by destruct q.
Qed.

(** A ready thread is suspended and linked. *)
Lemma queue_kwf s t th tm q l l' :
  kwf idle ∅ b W s → threads s !! t = Some th → th_stat th = RT_THREAD_READY → t ≠ idle →
  timers s !! ThreadTimer t = Some tm → wait_queue q → tlists s !! q = Some l → l' ≡ₚ t :: l →
  kwf idle ∅ b W (queue_state q l' t th tm s).
Proof.
  intros Hk Ht Hs Hi Htm Hq Hl Hp.
  pose proof (suspend_kwf idle ∅ b W s t th tm Hk Ht ltac:(set_solver) Hs Htm Hi) as Hk1.
  destruct (other_queue s t th q l Hk Ht Hs Hq Hl) as [Hl1 _].
  unfold queue_state. ksg. eapply link_kwf; [exact Hk1|apply lookup_insert_eq|done| |done| |done].
  - apply unlinked_remove.
  - exact Hl1.
Qed.

Lemma ipc_suspend_run s t th tm q flag l :
  kwf idle ∅ b W s → threads s !! t = Some th → th_stat th = RT_THREAD_READY → t ≠ idle →
  timers s !! ThreadTimer t = Some tm → wait_queue q → tlists s !! q = Some l →
  flag = RT_IPC_FLAG_FIFO ∨ flag = RT_IPC_FLAG_PRIO →
  rt_ipc_list_suspend q t flag s =
    Ok RT_EOK (queue_state q (wait_insert flag (threads s) (th_current_priority th) t l) t th tm s).
Proof.
  intros Hk Ht Hs Hi Htm Hq Hl Hf.
  pose proof (suspend_run idle ∅ b W s t th tm Hk Ht ltac:(set_solver) Hs Htm) as Hr.
  pose proof (suspend_kwf idle ∅ b W s t th tm Hk Ht ltac:(set_solver) Hs Htm Hi) as Hk1.
  destruct (other_queue s t th q l Hk Ht Hs Hq Hl) as [Hl1 Hn].
  assert (threads (suspend_state t th tm s) !! t = Some (th_set_stat RT_THREAD_SUSPEND th)) as Ht1
    by apply lookup_insert_eq.
  assert (tlists (suspend_state t th tm s) = tl_remove t (tlists s)) as El by done.
  unfold rt_ipc_list_suspend. rewrite (bind_ok _ _ _ _ _ Hr).
  unfold queue_state, wait_insert. cbv zeta. rewrite El.
  destruct Hf as [-> | ->].
  - change (RT_IPC_FLAG_FIFO =? RT_IPC_FLAG_FIFO) with true.
    unfold tl_insert_before, check_unlinked, tl_get, tl_put. krun.
    rewrite El, decide_True by apply unlinked_remove. krun. by rewrite El, Hl1.
  - change (RT_IPC_FLAG_PRIO =? RT_IPC_FLAG_FIFO) with false.
    change (RT_IPC_FLAG_PRIO =? RT_IPC_FLAG_PRIO) with true.
    unfold tl_insert_at, check_unlinked, tl_get, tl_put. krun. rewrite Ht1. krun.
    rewrite El, Hl1. krun.
    destruct (find_position_run (suspend_state t th tm s) (th_current_priority th) t l)
      as (pre & post & E & Ei).
    { eapply queue_threads; [exact Hk1|]. by rewrite El. }
    change (th_current_priority (th_set_stat RT_THREAD_SUSPEND th)) with (th_current_priority th).
    rewrite E. krun. rewrite El, decide_True by apply unlinked_remove. krun.
    rewrite Ei, El, (prio_insert_ext _ (threads s)); [done|].
    apply Forall_forall. intros u Hu.
    unfold prio_of. change (threads (suspend_state t th tm s)) with
      (<[t := th_set_stat RT_THREAD_SUSPEND th]> (threads s)).
    rewrite lookup_insert_ne by naive_solver. done.
Qed.

(** Waiting with or without a time limit. *)
Lemma time_limit_run s t th tm time :
  kok idle s → threads s !! t = Some th → th_stat th = RT_THREAD_SUSPEND →
  timers s !! ThreadTimer t = Some tm → tm_ok (ThreadTimer t) tm → time < half →
  let s' := if 0 <? time then thread_timer_state t time tm s else s in
  (when 0 <? time then start_thread_timer t time) s = Ok tt s' ∧ kok idle s'.
Proof.
  intros Hk Ht Hs Htm Hok Hti. destruct (Z.ltb_spec 0 time); [|done].
  destruct (thread_timer_run idle ∅ s t tm time Hk Htm Hok) as [Hr Hk1]; [lia| |].
  { right. by exists th. }
  split; [exact Hr|exact Hk1].
Qed.

(** A thread of a waiting list is resumed. *)
Lemma wake_run s q u l :
  kwf idle ∅ b W s → wait_queue q → tlists s !! q = Some l → u ∈ l →
  ∃ th tm lq, threads s !! u = Some th ∧ th_stat th = RT_THREAD_SUSPEND ∧
    timers s !! ThreadTimer u = Some tm ∧
    tlists s !! QReady (th_current_priority th) = Some lq ∧
    rt_thread_resume u s = Ok RT_EOK (resume_state u th tm lq s) ∧
    kwf idle ∅ b W (resume_state u th tm lq s).
Proof.
  intros Hk Hq Hl Hu.
  destruct (sw_stat _ _ _ _ (ki_sched _ _ _ _ _ _ _ _ _ Hk) q u) as (_ & th & Ht & Hst);
    [by exists l|].
  assert (th_stat th = RT_THREAD_SUSPEND) as Hs by by destruct q.
  destruct (k_started idle ∅ b W s u th Hk Ht) as (_ & _ & (tm & Htm & _) & _);
    [set_solver|by right|].
  destruct (resume_queue idle ∅ b W s u th Hk Ht) as (lq & Hlq & Hlq'); [set_solver|done|].
  exists th, tm, lq. split_and!; try done.
  - by eapply resume_run.
  - by apply resume_kwf.
Qed.

(** The first of a list leaves it. *)
Lemma queue_tail s q u l :
  kwf idle ∅ b W s → tlists s !! q = Some (u :: l) → tl_remove u (tlists s) !! q = Some l.
Proof.
  intros Hk Hl. rewrite (tl_remove_Some _ _ _ _ Hl). f_equal.
  pose proof (sw_nodup _ _ _ _ (ki_sched _ _ _ _ _ _ _ _ _ Hk) _ _ Hl) as [Hn _]%NoDup_cons.
  rewrite filter_cons_False by tauto. apply list_filter_all_id. naive_solver.
Qed.

End runs.

Section wait_runs.
Context {cfg : RTConfig} (idle : Z).

(** The timer of a thread that was linked. *)
Lemma queue_time_run s t th tm q time l l' :
  kok idle s → threads s !! t = Some th → th_stat th = RT_THREAD_READY → t ≠ idle →
  timers s !! ThreadTimer t = Some tm → wait_queue q → tlists s !! q = Some l → l' ≡ₚ t :: l →
  time < half →
  (when 0 <? time then start_thread_timer t time) (queue_state q l' t th tm s) =
    Ok tt (wait_state q l' t time th tm s) ∧
  kok idle (wait_state q l' t time th tm s).
Proof.
  intros Hk Ht Hs Hi Htm Hq Hl Hp Hti.
  destruct (k_started idle ∅ _ _ s t th Hk Ht) as (_ & _ & (? & ? & Hok) & _);
    [set_solver|by left|]. simplify_eq.
  pose proof (queue_kwf idle (rt_tick s) (half - 1) s t th tm q l l' Hk Ht Hs Hi Htm Hq Hl Hp) as Hk1.
  exact (time_limit_run idle (queue_state q l' t th tm s) t (th_set_stat RT_THREAD_SUSPEND th)
    (stopped tm) time Hk1 (lookup_insert_eq _ _ _) eq_refl (lookup_insert_eq _ _ _)
    (tm_ok_stopped _ _ Hok) Hti).
Qed.

(** [ipc_wait] by a ready thread. *)
Lemma ipc_wait_run s t th tm q flag time l :
  kok idle s → threads s !! t = Some th → th_stat th = RT_THREAD_READY → t ≠ idle →
  timers s !! ThreadTimer t = Some tm → wait_queue q → tlists s !! q = Some l →
  flag = RT_IPC_FLAG_FIFO ∨ flag = RT_IPC_FLAG_PRIO → time < half →
  ipc_wait q t flag time s =
    Ok tt (wait_state q (wait_insert flag (threads s) (th_current_priority th) t l) t time th tm s).
Proof.
  intros Hk Ht Hs Hi Htm Hq Hl Hf Hti. unfold ipc_wait.
  rewrite (bind_ok _ _ _ _ _ (ipc_suspend_run idle (rt_tick s) (half - 1) s t th tm q flag l
    Hk Ht Hs Hi Htm Hq Hl Hf)).
  by eapply queue_time_run; try done; [apply wait_insert_perm|..].
Qed.

Lemma timed_wait_run q t flag timeout d s s1 :
  (∀ r s2, rt_ipc_list_suspend q t flag s = Ok r s2 → rt_tick s2 = rt_tick s) →
  ipc_wait q t flag timeout s = Ok tt s1 →
  timed_wait q t flag timeout d s = Ok (if 0 <? timeout then rt_tick s else d) s1.
Proof.
  unfold ipc_wait, timed_wait, bind. intros Ht.
  destruct (rt_ipc_list_suspend q t flag s) as [r s2|] eqn:E; [|done].
  rewrite <- (Ht r s2 eq_refl). destruct (0 <? timeout); unfold rt_tick_get, gets, ret; [|by intros [= ->]].
  destruct (start_thread_timer t timeout s2) as [[] ?|]; [|done]. by intros [= ->].
Qed.
End wait_runs.

(** What [wait_state] says of the thread and of the list. *)
Section wait_facts.
Context {cfg : RTConfig} (q : qid) (l' : list Z) (t time : Z) (th : rt_thread) (tm : rt_timer)
  (s : kstate).
Abbreviation s' := (wait_state q l' t time th tm s).

Lemma wait_thread : threads s' !! t = Some (th_set_stat RT_THREAD_SUSPEND th).
Proof. unfold wait_state. case_match; apply lookup_insert_eq. Qed.

Lemma wait_list : tlists s' !! q = Some l'.
Proof. unfold wait_state. case_match; apply lookup_insert_eq. Qed.

Lemma wait_objs : objs s' = objs s.
Proof. unfold wait_state. by case_match. Qed.

Lemma wait_primask v :
  set_primask v (wait_state q l' t time th tm (set_primask 1 s)) = set_primask v s'.
Proof. unfold wait_state. by case_match. Qed.

Lemma wait_frame : primask s' = primask s ∧ rt_tick s' = rt_tick s ∧
  rt_scheduler_lock_nest s' = rt_scheduler_lock_nest s ∧
  rt_interrupt_nest s' = rt_interrupt_nest s.
Proof. unfold wait_state. by case_match. Qed.

(** The timer runs exactly when there is a limit, to the tick [time] ticks
    from now. *)
Lemma wait_timer W :
  timers_wf (rt_tick s) W (timers s) (rt_timer_list s) →
  if 0 <? time then
    running (ThreadTimer t) (rt_timer_list s') ∧
    ∃ tm', timers s' !! ThreadTimer t = Some tm' ∧ tm_timeout_tick tm' = u32 (rt_tick s + time)
  else ¬ running (ThreadTimer t) (rt_timer_list s').
Proof.
  intros Hwf. destruct (tw_last _ _ _ _ Hwf) as [l0 Hl0]. unfold wait_state.
  destruct (0 <? time); [|apply not_running_without].
  split.
  - unfold running, thread_timer_state. erewrite start_last.
    2:{ cbn. unfold without. by rewrite fmap_last, Hl0. }
    eexists. split; [done|]. rewrite sorted_insert_perm. left.
  - eexists. split; [apply lookup_insert_eq|]. done.
Qed.
End wait_facts.

(** ** Blocking *)

(** The current thread runs, is not the idle thread, and is not interrupted. *)
Record caller (idle : Z) (s : kstate) (t : Z) (th : rt_thread) : Prop := {
  cl_self : rt_current_thread s = Some t;
  cl_thread : threads s !! t = Some th;
  cl_ready : th_stat th = RT_THREAD_READY;
  cl_idle : t ≠ idle;
  cl_context : rt_interrupt_nest s = 0
}.

(** From [s] to [s'] the thread [t], whose record is [th], starts to wait in
    the list of [q], which becomes [l], and gives up the processor. *)
Record waits (idle : Z) (q : qid) (t time : Z) (l : list Z) (th : rt_thread) (s s' : kstate)
    : Prop := {
  w_ok : kok idle s';
  w_mask : primask s' = primask s;
  w_tick : rt_tick s' = rt_tick s;
  w_nest : rt_interrupt_nest s' = rt_interrupt_nest s;
  w_lock : rt_scheduler_lock_nest s' = rt_scheduler_lock_nest s;
  w_thread : threads s' !! t = Some (th_set_stat RT_THREAD_SUSPEND th);
  w_others : ∀ u, u ≠ t → threads s' !! u = threads s !! u;
  w_list : tlists s' !! q = Some l;
  w_lists : ∀ q', wait_queue q' → q' ≠ q → tlists s' !! q' = tlists s !! q';
  w_objs : objs s' = objs s;
  w_words : mem_words s' = mem_words s;
  w_blocks : mem_blocks s' = mem_blocks s;
  w_timer : if 0 <? time then
      running (ThreadTimer t) (rt_timer_list s') ∧
      ∃ tm, timers s' !! ThreadTimer t = Some tm ∧ tm_timeout_tick tm = u32 (rt_tick s + time)
    else ¬ running (ThreadTimer t) (rt_timer_list s');
  w_runs : highest_runs s'
}.

Section blocking.
Context {cfg : RTConfig} (idle : Z).

Lemma in_thread_run s t th : caller idle s t th → RT_DEBUG_IN_THREAD_CONTEXT s = Ok tt s.
Proof.
  intros Hc. unfold RT_DEBUG_IN_THREAD_CONTEXT, RT_DEBUG_NOT_IN_INTERRUPT, RT_ASSERT. krun.
  rewrite (cl_self _ _ _ _ Hc). rewrite bool_decide_eq_true_2 by by eexists. cbn [negb].
  rewrite andb_false_r. krun. rewrite (cl_context _ _ _ _ Hc), andb_false_r. done.
Qed.

Lemma not_in_interrupt_run s : rt_interrupt_nest s = 0 → RT_DEBUG_NOT_IN_INTERRUPT s = Ok tt s.
Proof.
  intros Hn. unfold RT_DEBUG_NOT_IN_INTERRUPT, RT_ASSERT. krun. rewrite Hn.
  by rewrite andb_false_r.
Qed.

(** The waiting lists do not have a ready thread. *)
Lemma ready_elsewhere b W s t th q :
  kwf idle ∅ b W s → threads s !! t = Some th → th_stat th = RT_THREAD_READY → wait_queue q →
  tl_remove t (tlists s) !! q = tlists s !! q.
Proof.
  intros Hk Ht Hs Hq. destruct (tlists s !! q) as [l'|] eqn:E.
  - by destruct (other_queue idle b W s t th q l' Hk Ht Hs Hq E).
  - by rewrite tl_remove_lookup, E.
Qed.

Lemma wait_done s t th tm q time l l' p :
  kok idle s → threads s !! t = Some th → th_stat th = RT_THREAD_READY → t ≠ idle →
  timers s !! ThreadTimer t = Some tm → wait_queue q → tlists s !! q = Some l → l' ≡ₚ t :: l →
  time < half →
  let s1 := set_primask p (wait_state q l' t time th tm s) in
  rt_schedule s1 = Ok tt (schedule_state s1) ∧
  waits idle q t time l' th (set_primask p s) (schedule_state s1).
Proof.
  intros Hk Ht Hs Hi Htm Hq Hl Hpe Hti s1.
  destruct (queue_time_run idle s t th tm q time l l' Hk Ht Hs Hi Htm Hq Hl Hpe Hti) as [_ Hk1].
  destruct (wait_frame q l' t time th tm s) as (Hp & Htk & Hln & Hin).
  assert (kok idle s1) as Hk2 by exact Hk1.
  split; [by eapply k_schedule|]. split; try done.
  - exact (wait_thread q l' t time th tm s).
  - intros u Hu. cbn. unfold wait_state. case_match; cbn; by rewrite lookup_insert_ne.
  - exact (wait_list q l' t time th tm s).
  - intros q' Hq' Hne. cbn. rewrite <- (ready_elsewhere _ _ s t th q' Hk Ht Hs Hq').
    unfold wait_state. case_match; cbn; by rewrite lookup_insert_ne.
  - cbn. unfold wait_state. by case_match.
  - cbn. unfold wait_state. by case_match.
  - cbn. unfold wait_state. by case_match.
  - exact (wait_timer q l' t time th tm s _ (ki_timers _ _ _ _ _ _ _ _ _ Hk)).
  - apply schedule_highest. by eapply k_can_schedule.
Qed.

Lemma prio_of_insert ths t th1 u : u ≠ t → prio_of (<[t := th1]> ths) u = prio_of ths u.
Proof. intros Hu. unfold prio_of. by rewrite lookup_insert_ne. Qed.

Lemma wait_insert_ext flag ths t th1 p l :
  t ∉ l → wait_insert flag (<[t := th1]> ths) p t l = wait_insert flag ths p t l.
Proof.
  intros Hn. unfold wait_insert. case_match; [done|]. apply prio_insert_ext, Forall_forall.
  intros u Hu. apply prio_of_insert. naive_solver.
Qed.

Lemma wait_insert_prio flag ths ths' p t l :
  (∀ u, prio_of ths u = prio_of ths' u) → wait_insert flag ths p t l = wait_insert flag ths' p t l.
Proof.
  intros Hp. unfold wait_insert. case_match; [done|].
  apply prio_insert_ext, Forall_forall. auto.
Qed.

(** The record [th1] differs from [th] in fields the scheduler does not read. *)
Definition same_sched (th th1 : rt_thread) : Prop :=
  th_stat th1 = th_stat th ∧ th_current_priority th1 = th_current_priority th ∧
  th_number_mask th1 = th_number_mask th ∧ stack_overflow th1 = stack_overflow th.

(** The caller writes its record, and waits. *)
Lemma block_run s t th th1 q flag time l tr p :
  kok idle s → caller idle s t th → same_sched th th1 →
  wait_queue q → tlists s !! q = Some l →
  flag = RT_IPC_FLAG_FIFO ∨ flag = RT_IPC_FLAG_PRIO → time < half →
  let s0 := set_threads (<[t := th1]> (threads s)) (set_primask 1 (set_trace tr s)) in
  ∃ s1 s', ipc_wait q t flag time s0 = Ok tt s1 ∧
    (∀ d, timed_wait q t flag time d s0 = Ok (if 0 <? time then rt_tick s else d) s1) ∧
    rt_schedule (set_primask p s1) = Ok tt s' ∧
    waits idle q t time (wait_insert flag (threads s) (th_current_priority th) t l) th1
      (set_primask p s) s'.
Proof.
  intros Hk [Hc Ht Hr Hi Hn] (Es & Ep & Em & Eo) Hq Hl Hf Hti s0.
  destruct (k_started idle ∅ _ _ s t th Hk Ht) as (_ & _ & (tm & Htm & _) & _);
    [set_solver|by left|].
  assert (kok idle s0) as Hk0 by (eapply ki_update; [exact Hk|done..]).
  assert (threads s0 !! t = Some th1) as Ht0 by apply lookup_insert_eq.
  assert (th_stat th1 = RT_THREAD_READY) as Hr1 by by rewrite Es.
  pose proof (ipc_wait_run idle s0 t th1 tm q flag time l Hk0 Ht0 Hr1 Hi Htm Hq Hl Hf Hti) as E.
  pose proof (ipc_suspend_run idle (rt_tick s0) (half - 1) s0 t th1 tm q flag l Hk0 Ht0 Hr1 Hi Htm Hq Hl Hf)
    as Esus.
  set (l' := wait_insert flag (threads s) (th_current_priority th) t l).
  assert (wait_insert flag (threads s0) (th_current_priority th1) t l = l') as El'.
  { destruct (other_queue idle _ _ s t th q l Hk Ht Hr Hq Hl) as [_ Hnin].
    rewrite Ep. by apply wait_insert_ext. }
  rewrite El' in E, Esus.
  destruct (wait_done s0 t th1 tm q time l l' p) as [Esch Hw];
    [done || by apply wait_insert_perm..|].
  do 2 eexists. split; [exact E|]. split; [|split; [exact Esch|]].
  { intros d. change (rt_tick s) with (rt_tick s0). apply timed_wait_run; [|exact E].
    rewrite Esus. by intros ? ? [= <- <-]. }
  destruct Hw. split; try done. intros u Hu. rewrite w_others0 by done. cbn.
  by rewrite lookup_insert_ne.
Qed.
End blocking.

(** ** Waking *)

(** From [s] to [s'] the thread [u], the first of the list of [q], becomes
    ready; [l] are the others. *)
Record wakes (idle : Z) (q : qid) (u : Z) (l : list Z) (th : rt_thread) (s s' : kstate)
    : Prop := {
  k_ok : kok idle s';
  k_mask : primask s' = primask s;
  k_tick : rt_tick s' = rt_tick s;
  k_nest : rt_interrupt_nest s' = rt_interrupt_nest s;
  k_lock : rt_scheduler_lock_nest s' = rt_scheduler_lock_nest s;
  k_was : threads s !! u = Some th ∧ th_stat th = RT_THREAD_SUSPEND;
  k_thread : threads s' !! u = Some (th_set_stat RT_THREAD_READY th);
  k_others : ∀ v, v ≠ u → threads s' !! v = threads s !! v;
  k_list : tlists s' !! q = Some l;
  k_lists : ∀ q', wait_queue q' → q' ≠ q → tlists s' !! q' = tlists s !! q';
  k_ready : linked (tlists s') (QReady (th_current_priority th)) u;
  k_objs : objs s' = objs s;
  k_heap : heap s' = heap s;
  k_words : mem_words s' = mem_words s;
  k_blocks : mem_blocks s' = mem_blocks s;
  k_timer : ¬ running (ThreadTimer u) (rt_timer_list s')
}.

Section waking.
Context {cfg : RTConfig} (idle : Z).

(** A suspended thread is on the list it waits in only. *)
Lemma waiting_elsewhere b W s u q q' l :
  kwf idle ∅ b W s → tlists s !! q = Some l → u ∈ l → q' ≠ q →
  tl_remove u (tlists s) !! q' = tlists s !! q'.
Proof.
  intros Hk Hl Hu Hne. rewrite tl_remove_lookup.
  destruct (tlists s !! q') as [l'|] eqn:E; [|done]. cbn. f_equal.
  apply list_filter_all_id. intros x Hx ->. apply Hne.
  eapply (sw_uniq _ _ _ _ (ki_sched _ _ _ _ _ _ _ _ _ Hk)); [by exists l'|by exists l].
Qed.

(** A thread of the list is resumed. *)
Lemma resume_member_run s q u l :
  kok idle s → wait_queue q → tlists s !! q = Some l → u ∈ l →
  ∃ th s', rt_thread_resume u s = Ok RT_EOK s' ∧
    wakes idle q u (filter (λ x, x ≠ u) l) th s s' ∧
    rt_current_thread s' = rt_current_thread s.
Proof.
  intros Hk Hq Hl Hu.
  destruct (wake_run idle _ _ s q u l Hk Hq Hl Hu) as (th & tm & lq & Ht & Hs & Htm & Hlq & E & Hk1).
  exists th, (resume_state u th tm lq s). split; [exact E|]. split; [|done].
  assert (q ≠ QReady (th_current_priority th)) as Hqr by by destruct q.
  split; try done.
  - apply lookup_insert_eq.
  - intros v Hv. cbn. by rewrite lookup_insert_ne.
  - cbn. rewrite lookup_insert_ne by done. by apply tl_remove_Some.
  - intros q' Hq' Hne. cbn. rewrite lookup_insert_ne by by destruct q'.
    by eapply (waiting_elsewhere _ _ s u q q' l).
  - cbn. eexists. split; [apply lookup_insert_eq|]. set_solver.
  - apply not_running_without.
Qed.

Lemma resume_first_run s q u l :
  kok idle s → wait_queue q → tlists s !! q = Some (u :: l) →
  ∃ th s', rt_ipc_list_resume q s = Ok RT_EOK s' ∧ wakes idle q u l th s s' ∧
    rt_current_thread s' = rt_current_thread s.
Proof.
  intros Hk Hq Hl.
  destruct (resume_member_run s q u (u :: l) Hk Hq Hl) as (th & s' & E & Hw & Hc); [left|].
  exists th, s'. split; [|split; [|done]].
  { unfold rt_ipc_list_resume, tl_first, tl_get. krun. rewrite Hl. krun. by rewrite E. }
  pose proof (queue_tail idle _ _ s q u l Hk Hl) as Ht. rewrite (tl_remove_Some _ _ _ _ Hl) in Ht.
  injection Ht as Ht. by rewrite Ht in Hw.
Qed.

(** The scheduler runs after a thread was woken. *)
Lemma wakes_schedule q u l th s s1 p :
  wakes idle q u l th s s1 →
  rt_schedule (set_primask p s1) = Ok tt (schedule_state (set_primask p s1)) ∧
  wakes idle q u l th (set_primask p s) (schedule_state (set_primask p s1)) ∧
  highest_runs (schedule_state (set_primask p s1)).
Proof.
  intros Hw. pose proof (k_ok _ _ _ _ _ _ _ Hw) as Hk.
  assert (kok idle (set_primask p s1)) as Hk1 by exact Hk.
  split; [by eapply k_schedule|]. split.
  - destruct Hw. by split.
  - apply schedule_highest. by eapply k_can_schedule.
Qed.

(** From [s] to [s'] all the threads [l] of the list of [q] become ready, their
    call failing with [-RT_ERROR]. *)
Record wakes_all (q : qid) (l : list Z) (s s' : kstate) : Prop := {
  wa_ok : kok idle s';
  wa_mask : primask s' = primask s;
  wa_nest : rt_interrupt_nest s' = rt_interrupt_nest s;
  wa_current : rt_current_thread s' = rt_current_thread s;
  wa_woken : ∀ t, t ∈ l → ∃ th, threads s !! t = Some th ∧
    threads s' !! t = Some (th_set_stat RT_THREAD_READY (th_set_error (- RT_ERROR) th));
  wa_others : ∀ t, t ∉ l → threads s' !! t = threads s !! t;
  wa_list : tlists s' !! q = Some [];
  wa_lists : ∀ q', wait_queue q' → q' ≠ q → tlists s' !! q' = tlists s !! q';
  wa_objs : objs s' = objs s;
  wa_heap : heap s' = heap s;
  wa_words : mem_words s' = mem_words s
}.

Lemma resume_all_loop_run q : wait_queue q → ∀ l s fuel,
  kok idle s → tlists s !! q = Some l → (length l < fuel)%nat →
  ∃ s', resume_all_loop fuel q s = Ok tt s' ∧ wakes_all q l s s'.
Proof.
  intros Hq. induction l as [|u l IH]; intros s fuel Hk Hl Hf;
    (destruct fuel as [|fuel]; [simpl in Hf; lia|]); cbn [resume_all_loop].
  { exists s. unfold tl_isempty, tl_get. krun. rewrite Hl. krun. split; [done|].
    split; try done. set_solver. }
  destruct (sw_stat _ _ _ _ (ki_sched _ _ _ _ _ _ _ _ _ Hk) q u) as (_ & th & Ht & _);
    [exists (u :: l); split; [done|left]|].
  set (th1 := th_set_error (- RT_ERROR) th).
  set (s1 := set_threads (<[u := th1]> (threads s)) (set_primask 1 s)).
  assert (kok idle s1) as Hk1 by (by eapply ki_update).
  destruct (resume_member_run s1 q u (u :: l)) as (th' & s2 & E & Hw & Hc); [done..|left|].
  pose proof (sw_nodup _ _ _ _ (ki_sched _ _ _ _ _ _ _ _ _ Hk) _ _ Hl) as Hnd.
  assert (u ∉ l) as Hnin by by inversion Hnd.
  assert (filter (λ x, x ≠ u) (u :: l) = l) as Hfil.
  { rewrite filter_cons_False by tauto. apply list_filter_all_id. naive_solver. }
  rewrite Hfil in Hw. pose proof Hw as [].
  assert (th' = th1) as ->.
  { destruct k_was0 as [Ht' _]. unfold s1 in Ht'. cbn in Ht'. rewrite lookup_insert_eq in Ht'.
    by simplify_eq. }
  destruct (IH (set_primask (primask s) s2) fuel) as (s' & E' & Hw'); [exact k_ok0|exact k_list0
    |simpl in Hf; lia|].
  exists s'. split.
  { unfold tl_isempty, tl_first, tl_get, upd_thread. krun. rewrite Hl. krun.
    rewrite bool_decide_eq_false_2 by done. krun. rewrite Hl. krun. krun. rewrite Ht. krun.
    match goal with |- context [rt_thread_resume u ?x] => change x with s1 end.
    rewrite E. krun. done. }
  assert (∀ v, v ≠ u → threads s2 !! v = threads s !! v) as Hoth.
  { intros v Hv. rewrite k_others0 by done. cbn. by rewrite lookup_insert_ne. }
  destruct Hw'. split; try done.
  - by rewrite wa_nest0.
  - by rewrite wa_current0.
  - intros t [->|Hin]%elem_of_cons.
    + exists th. split; [done|]. rewrite wa_others0 by done. exact k_thread0.
    + destruct (wa_woken0 t Hin) as (tht & Ht1 & Ht2). exists tht. split; [|done].
      rewrite <- Hoth; [exact Ht1|]. by intros ->.
  - intros t [Hne Hnin']%not_elem_of_cons. rewrite wa_others0 by done. by apply Hoth.
  - intros q' Hq' Hne. rewrite wa_lists0 by done. cbn. by rewrite k_lists0.
  - by rewrite wa_objs0.
  - by rewrite wa_heap0.
  - by rewrite wa_words0.
Qed.

Lemma resume_all_run q l s :
  wait_queue q → kok idle s → tlists s !! q = Some l →
  ∃ s', rt_ipc_list_resume_all q s = Ok RT_EOK s' ∧ wakes_all q l s s'.
Proof.
  intros Hq Hk Hl. destruct (resume_all_loop_run q Hq l s (S (length l)) Hk Hl) as (s' & E & Hw);
    [lia|].
  exists s'. split; [|done]. unfold rt_ipc_list_resume_all, tl_get. krun. rewrite Hl. krun.
  by rewrite E.
Qed.
End waking.

(** ** The end of a transfer

    A list of waiting threads gets an object: the first of them, if any, is
    resumed and the scheduler runs. *)
Record gives (idle : Z) (q : qid) (l : list Z) (s s' : kstate) : Prop := {
  gv_ok : kok idle s';
  gv_mask : primask s' = primask s;
  gv_tick : rt_tick s' = rt_tick s;
  gv_list : tlists s' !! q = Some (tail l);
  gv_lists : ∀ q', wait_queue q' → q' ≠ q → tlists s' !! q' = tlists s !! q';
  gv_objs : objs s' = objs s;
  gv_heap : heap s' = heap s;
  gv_words : mem_words s' = mem_words s;
  gv_blocks : mem_blocks s' = mem_blocks s;
  gv_others : ∀ v, head l ≠ Some v → threads s' !! v = threads s !! v;
  gv_woken : ∀ u, head l = Some u → highest_runs s' ∧ ∃ th, threads s !! u = Some th ∧
    threads s' !! u = Some (th_set_stat RT_THREAD_READY th) ∧
    ¬ running (ThreadTimer u) (rt_timer_list s')
}.

(** Code that only calls a hook. *)
Definition only_traces (h : K unit) : Prop := ∀ s, ∃ tr, h s = Ok tt (set_trace tr s).
Lemma only_traces_ret : only_traces (ret tt).
Proof. intros s. by exists (trace s). Qed.
Lemma only_traces_hook h a : only_traces (RT_OBJECT_HOOK_CALL h a).
Proof. intros s. by eexists. Qed.

Lemma give_run {cfg : RTConfig} {A} idle q l s p (h : K unit) (r : A) :
  kok idle s → wait_queue q → tlists s !! q = Some l → only_traces h →
  ∃ s', (let! e := tl_isempty q in
      if negb e then
        rt_ipc_list_resume q ;;; rt_hw_interrupt_enable p ;;; h ;;; rt_schedule ;;; ret r
      else rt_hw_interrupt_enable p ;;; h ;;; ret r) s = Ok r s' ∧
    gives idle q l (set_primask p s) s'.
Proof.
  intros Hk Hq Hl Hh. destruct l as [|u l].
  - destruct (Hh (set_primask p s)) as [tr E]. eexists. split.
    + unfold tl_isempty, tl_get. krun. rewrite Hl. krun. rewrite bool_decide_eq_true_2 by done.
      krun. by rewrite E.
    + split; try done.
  - destruct (resume_first_run idle s q u l Hk Hq Hl) as (th & s1 & E & Hw & _).
    destruct (Hh (set_primask p s1)) as [tr E1].
    destruct (wakes_schedule idle q u l th s (set_trace tr s1) p) as (E2 & Hw2 & Hr).
    { destruct Hw. by split. }
    eexists. split.
    + unfold tl_isempty, tl_get. krun. rewrite Hl. krun. rewrite bool_decide_eq_false_2 by done.
      krun. rewrite E. krun. rewrite E1. krun.
      change (set_trace tr (set_primask p s1)) with (set_primask p (set_trace tr s1)).
      rewrite E2. done.
    + destruct Hw2 as [? ? ? ? ? [? ?]]. split; try done.
      * cbn. intros v Hv. apply k_others0. congruence.
      * cbn. intros v [= <-]. split; [done|]. by exists th.
Qed.
