(* ===== verification/Demo.v ===== *)
(** * A decision procedure for the kernel invariant, and a small system

    [kinv_check] decides [kok] on a concrete state whose timer list has one
    row, which is what the configured [RT_TIMER_SKIP_LIST_LEVEL] gives.
    [demo] is a running system of an idle thread and four others, used to
    evaluate the theorems on concrete inputs. *)

From S2P Require Import Prelude RtDef SortedList Mem KService Kernel Scheduler Object.
From S2P Require Import Timer Invariant.

(** ** Decisions *)
#[export] Instance stat_on_dec q th : Decision (stat_on q th).
Proof. destruct q; simpl; apply _. Defined.
#[export] Instance started_dec th : Decision (started th).
Proof. unfold started. apply _. Defined.
#[export] Instance prio_ok_dec th : Decision (prio_ok th).
Proof. unfold prio_ok. apply _. Defined.
#[export] Instance time_ok_dec tm : Decision (time_ok tm).
Proof. unfold time_ok. apply _. Defined.

Definition is_user (f : timeout_fn) : bool := match f with fn_user _ => true | _ => false end.
Definition tm_okb (x : tmr) (tm : rt_timer) : bool :=
  match x with
  | ThreadTimer t => bool_decide (tm_timeout_func tm = fn_rt_thread_timeout ∧
      tm_parameter tm = t ∧ tm_periodic tm = false)
  | Timer _ => is_user (tm_timeout_func tm)
  end.

Lemma tm_okb_spec x tm : tm_okb x tm = true → tm_ok x tm.
Proof.
  destruct x; simpl; [by intros ?%bool_decide_eq_true|].
  destruct (tm_timeout_func tm) as [|f]; [done|by exists f].
Qed.

Fixpoint sortedb {A} (key : A → Z) (l : list A) : bool :=
  match l with
  | [] => true
  | x :: l => forallb (λ y, key x <=? key y) l && sortedb key l
  end.

Lemma sortedb_spec {A} (key : A → Z) l : sortedb key l = true → sorted_by key l.
Proof.
  induction l as [|x l IH]; simpl; [constructor|].
  intros [Hf Hs]%andb_true_iff. constructor; [by apply IH|].
  apply Forall_forall. intros y Hy. rewrite forallb_forall in Hf.
  specialize (Hf y). rewrite <- list_elem_of_In in Hf. specialize (Hf Hy). lia.
Qed.

(** ** The checks *)
Section check.
Context (ths : gmap Z rt_thread) (L : gmap qid (list Z)) (g : Z).

Definition head_of (q : qid) : Prop :=
  match q with QReady p => 0 ≤ p < RT_THREAD_PRIORITY_MAX | _ => True end.
#[export] Instance head_of_dec q : Decision (head_of q).
Proof. destruct q; simpl; apply _. Defined.

Definition thread_on (q : qid) (t : Z) : Prop :=
  match ths !! t with Some th => stat_on q th | None => False end.
#[export] Instance thread_on_dec q t : Decision (thread_on q t).
Proof. unfold thread_on. destruct (ths !! t); apply _. Defined.

Definition in_queue (p t : Z) : Prop :=
  match L !! QReady p with Some l => t ∈ l | None => False end.
#[export] Instance in_queue_dec p t : Decision (in_queue p t).
Proof. unfold in_queue. destruct (L !! QReady p); apply _. Defined.

Definition queue_nonempty (p : Z) : bool :=
  match L !! QReady p with Some (_ :: _) => true | _ => false end.

Definition sched_check : bool :=
  forallb (λ p, bool_decide (is_Some (L !! QReady p)) && eqb (Z.testbit g p) (queue_nonempty p))
    (seqZ 0 RT_THREAD_PRIORITY_MAX) &&
  bool_decide (map_Forall (λ q l, head_of q ∧ NoDup l ∧ Forall (thread_on q) l ∧
    Forall (λ t, map_Forall (λ q' l', t ∈ l' → q = q') L) l) L) &&
  bool_decide (map_Forall (λ t th, (th_stat th = RT_THREAD_READY → in_queue (th_current_priority th) t) ∧
    (started th → prio_ok th)) ths) &&
  (0 <=? g) && (g <? 2 ^ 32).

Lemma sched_check_spec : sched_check = true → sched_wf ∅ ths L g.
Proof.
  unfold sched_check. rewrite !andb_true_iff.
  intros [[[[Hp HL%bool_decide_eq_true] Ht%bool_decide_eq_true] Hg0] Hg1].
  assert (∀ p, 0 ≤ p < RT_THREAD_PRIORITY_MAX →
    is_Some (L !! QReady p) ∧ Z.testbit g p = queue_nonempty p) as Hp'.
  { intros p Hr. rewrite forallb_forall in Hp. specialize (Hp p).
    rewrite <- list_elem_of_In, elem_of_seqZ, andb_true_iff, bool_decide_eq_true, eqb_true_iff in Hp.
    apply Hp. lia. }
  assert (∀ p, queue_nonempty p = true ↔ ∃ t, linked L (QReady p) t) as Hne.
  { intros p. unfold queue_nonempty, linked. destruct (L !! QReady p) as [[|u l]|]; split; try done.
    - intros (t & l & ? & Hin). simplify_eq. by apply elem_of_nil in Hin.
    - intros _. exists u, (u :: l). split; [done|left].
    - by intros (t & l & ? & _). }
  split.
  - intros p. split; [intros [l Hl]; by apply HL in Hl as (? & _)|intros; by apply Hp'].
  - intros q l Hl. by apply HL in Hl as (_ & ? & _).
  - intros q q' t (l & Hl & Hin) (l' & Hl' & Hin'). apply HL in Hl as (_ & _ & _ & Hu).
    rewrite Forall_forall in Hu. by apply (Hu t Hin q' l').
  - intros q t (l & Hl & Hin). split; [set_solver|]. apply HL in Hl as (_ & _ & Hu & _).
    rewrite Forall_forall in Hu. specialize (Hu t Hin). unfold thread_on in Hu.
    destruct (ths !! t) as [th|]; [by exists th|done].
  - intros t th Hth _ Hs. apply Ht in Hth as [Hin _]. specialize (Hin Hs). unfold in_queue in Hin.
    destruct (L !! QReady (th_current_priority th)) as [l|] eqn:E; [by exists l|done].
  - intros t th Hth _ Hs. apply Ht in Hth as [_ ?]. auto.
  - intros p Hp0. destruct (Z.lt_ge_cases p RT_THREAD_PRIORITY_MAX).
    + destruct (Hp' p) as [_ ->]; [lia|apply Hne].
    + unfold RT_THREAD_PRIORITY_MAX in *. rewrite (testbit_high 32) by lia. split; [done|].
      rewrite <- Hne. unfold queue_nonempty. destruct (L !! QReady p) as [l|] eqn:E; [|done].
      apply HL in E as [Hh _]. simpl in Hh. unfold RT_THREAD_PRIORITY_MAX in *. lia.
  - lia.
Qed.
End check.

Definition timers_check (b W : Z) (tms : gmap tmr rt_timer) (row : list tmr) : bool :=
  bool_decide (NoDup row) && sortedb (tkey tms b) row && (W <=? half) &&
  forallb (λ x, (tkey tms b x <=? W) &&
    match tms !! x with
    | Some tm => tm_active tm && bool_decide (time_ok tm) && tm_okb x tm
    | None => false
    end) row.

Lemma timers_check_spec b W tms row : timers_check b W tms row = true →
  timers_wf b W tms [row] ∧ times_ok tms [row] ∧
  (∀ x tm, running x [row] → tms !! x = Some tm → tm_ok x tm).
Proof.
  unfold timers_check. rewrite !andb_true_iff.
  intros [[[Hn%bool_decide_eq_true Hs%sortedb_spec] HW] Hf].
  assert (∀ x, x ∈ row → tkey tms b x ≤ W ∧ ∃ tm, tms !! x = Some tm ∧ tm_active tm = true ∧
    time_ok tm ∧ tm_ok x tm) as Hx.
  { intros x Hx. rewrite forallb_forall in Hf. specialize (Hf x).
    rewrite <- list_elem_of_In in Hf. specialize (Hf Hx). apply andb_true_iff in Hf as [Hk Hm].
    split; [lia|]. destruct (tms !! x) as [tm|]; [|done]. exists tm.
    rewrite !andb_true_iff, bool_decide_eq_true in Hm. destruct Hm as [[? ?] ?%tm_okb_spec]. done. }
  split_and!.
  - split.
    + by split.
    + by eexists.
    + by intros ? [= <-].
    + intros ? x [= <-] Hin. destruct (Hx x Hin) as (_ & tm & ? & ? & _). by exists tm.
    + by intros ? [= <-].
    + intros ? x [= <-] Hin. by apply Hx.
    + lia.
  - intros x tm (? & [= <-] & Hin) Htm. destruct (Hx x Hin) as (_ & ? & ? & _ & ? & _). by simplify_eq.
  - intros x tm (? & [= <-] & Hin) Htm. destruct (Hx x Hin) as (_ & ? & ? & _ & _ & ?). by simplify_eq.
Qed.

Definition kinv_check (idle : Z) (s : kstate) : bool :=
  sched_check (threads s) (tlists s) (rt_thread_ready_priority_group s) &&
  match rt_timer_list s with
  | [row] => timers_check (rt_tick s) (half - 1) (timers s) row &&
    forallb (λ x, match x with
      | ThreadTimer t => match threads s !! t with
        | Some th => th_stat th =? RT_THREAD_SUSPEND | None => false end
      | Timer _ => true end) row
  | _ => false
  end &&
  bool_decide (map_Forall (λ t th, started th →
    stack_overflow th = false ∧
    match timers s !! ThreadTimer t with Some tm => tm_okb (ThreadTimer t) tm | None => false end = true)
    (threads s)) &&
  match threads s !! idle with Some th => th_stat th =? RT_THREAD_READY | None => false end &&
  bool_decide (is_Some (tlists s !! QDefunct)).

Lemma kinv_check_spec idle s : kinv_check idle s = true → kok idle s.
Proof.
  unfold kinv_check. rewrite !andb_true_iff.
  intros [[[[Hs%sched_check_spec Hr] Ht%bool_decide_eq_true] Hi] Hd%bool_decide_eq_true].
  destruct (rt_timer_list s) as [|row [|]] eqn:E; try done.
  apply andb_true_iff in Hr as [(Htw & Hto & Hok)%timers_check_spec Hw].
  split; try done; rewrite ?E; try done.
  - intros t th Hth _ Hst. apply Ht in Hth. tauto.
  - intros t th Hth _ Hst. apply Ht in Hth. destruct (Hth Hst) as [_ Hm].
    destruct (timers s !! ThreadTimer t) as [tm|]; [|done].
    exists tm. split; [done|]. by apply tm_okb_spec.
  - intros t (? & [= <-] & Hin) _. rewrite forallb_forall in Hw. specialize (Hw (ThreadTimer t)).
    rewrite <- list_elem_of_In in Hw. specialize (Hw Hin). simpl in Hw.
    destruct (threads s !! t) as [th|]; [|done]. exists th. split; [done|].
    unfold RT_THREAD_SUSPEND in *. lia.
  - split; [set_solver|]. destruct (threads s !! idle) as [th|]; [|done]. exists th.
    split; [done|]. unfold RT_THREAD_READY in *. lia.
Qed.

(** ** A small system *)
Definition demo_obj (type : Z) : rt_object := mk_object (replicate 8 0) type 0.

(** A thread with a stack of 64 bytes at [4096 * t], its stack pointer in the
    middle. *)
Definition demo_thread (t stat prio : Z) : rt_thread :=
  mk_thread (demo_obj 128) (4096 * t + 48) 0 0 (4096 * t) 64 (replicate 64 0x23) 0 stat prio prio
    (2 ^ prio) 0 0 10 10 None 0.

Definition demo_timer (t : Z) (flag time timeout : Z) : rt_timer :=
  mk_timer (mk_object (replicate 8 0) 133 flag) fn_rt_thread_timeout t time timeout.

(** Thread 1 is the idle thread, 2 runs, 4 is its equal, 3 and 5, of higher
    and of lower priority, wait in the list of the object at 100, thread 3 for
    20 ticks, and 6 has not been started. *)
Definition demo_lists (extra : list (qid * list Z)) : gmap qid (list Z) :=
  list_to_map (extra ++
    [(QSuspend 100, [3; 5]); (QReady 31, [1]); (QReady 10, [2; 4]); (QDefunct, [])]) ∪
  list_to_map ((λ p, (QReady p, [])) <$> seqZ 0 32).

Definition demo (extra : list (qid * list Z)) (os : list (Z * kobj)) : kstate := {|
  primask := 0;
  rt_interrupt_nest := 0;
  rt_scheduler_lock_nest := 0;
  rt_current_priority := 10;
  rt_current_thread := Some 2;
  rt_thread_ready_priority_group := 2 ^ 10 + 2 ^ 31;
  rt_tick := 0xfffffff8;
  random_nr := 0;
  sys_errno := 0;
  threads := list_to_map [(1, demo_thread 1 RT_THREAD_READY 31);
    (2, demo_thread 2 RT_THREAD_READY 10); (3, demo_thread 3 RT_THREAD_SUSPEND 5);
    (4, demo_thread 4 RT_THREAD_READY 10); (5, demo_thread 5 RT_THREAD_SUSPEND 20);
    (6, demo_thread 6 RT_THREAD_INIT 7)];
  timers := list_to_map [(ThreadTimer 1, demo_timer 1 0 0 0); (ThreadTimer 2, demo_timer 2 0 0 0);
    (ThreadTimer 3, demo_timer 3 1 20 0xc); (ThreadTimer 4, demo_timer 4 0 0 0);
    (ThreadTimer 5, demo_timer 5 0 0 0); (ThreadTimer 6, demo_timer 6 0 0 0);
    (Timer 200, mk_timer (mk_object (replicate 8 0) 133 3) (fn_user 500) 7 9 1)];
  objs := list_to_map os;
  tlists := demo_lists extra;
  rt_timer_list := [[Timer 200; ThreadTimer 3]];
  rt_object_container := list_to_map ((λ c, (c, [])) <$> seqZ 0 10);
  mem_words := ∅;
  mem_blocks := ∅;
  heap := Mem.mk_heap 0 0 0 0 0 0 0 ∅ ∅ None None [];
  hooks := ∅;
  trace := []
|}.

Lemma demo_ok os : kok 1 (demo [] os).
Proof. apply kinv_check_spec. vm_compute. reflexivity. Qed.
