(* ===== verification/KernelSpec.v ===== *)
(** * Properties of the scheduler, the timers and the clock

    The theorems on [scheduler.c], [timer.c], [thread.c] and [clock.c], on top
    of the lemmas of the component files. *)

From S2P Require Import Prelude RtDef SortedList Mem KService Kernel Cpuport Scheduler.
From S2P Require Import Object Timer Invariant Thread Clock Ipc Demo.

(** ** The scheduler *)

(** The running thread is ready, and no ready thread is more urgent. *)
Definition most_urgent (s : kstate) (t : Z) (th : rt_thread) : Prop :=
  rt_current_thread s = Some t ∧ threads s !! t = Some th ∧ th_stat th = RT_THREAD_READY ∧
  ∀ u thu, threads s !! u = Some thu → th_stat thu = RT_THREAD_READY →
    th_current_priority th ≤ th_current_priority thu.

Lemma highest_most_urgent idle b W s :
  kwf idle ∅ b W s → rt_scheduler_lock_nest s = 0 → highest_runs s →
  ∃ t th, most_urgent s t th.
Proof.
  intros Hk Hn Hh. pose proof (ki_sched _ _ _ _ _ _ _ _ _ Hk) as Hs.
  destruct (Hh Hn) as (t & l & Hc & Hl).
  destruct (group_top _ _ _ _ Hs (ki_some_ready _ _ _ _ _ _ _ _ _ Hk)) as [(_ & _ & Hlow) Hr].
  destruct (sw_stat _ _ _ _ Hs (QReady (top_prio (rt_thread_ready_priority_group s))) t)
    as (_ & th & Ht & Hst & Hp); [exists (t :: l); split; [done|left]|].
  exists t, th. split_and!; [done..|]. intros u thu Hu Hsu. rewrite Hp.
  destruct (Z.le_gt_cases (top_prio (rt_thread_ready_priority_group s)) (th_current_priority thu))
    as [|Hlt]; [done|].
  pose proof (sw_ready _ _ _ _ Hs u thu Hu ltac:(set_solver) Hsu) as Hlk.
  pose proof (sw_prio _ _ _ _ Hs u thu Hu ltac:(set_solver) ltac:(by left)) as [Hpu _].
  assert (Z.testbit (rt_thread_ready_priority_group s) (th_current_priority thu) = true) as Hb.
  { apply (sw_group _ _ _ _ Hs); [lia|by exists u]. }
  rewrite Hlow in Hb; [done|lia].
Qed.

(** *** Timers relative to now *)

(** Ticks until the timer expires. *)
Definition ticks_left (s : kstate) (x : tmr) : Z := tkey (timers s) (rt_tick s) x.

Lemma sorted_insert_split {A} (key : A → Z) k x l :
  sorted_by key l → ∃ l1 l2, l = l1 ++ l2 ∧ sorted_insert key k x l = l1 ++ x :: l2 ∧
    Forall (λ y, key y ≤ k) l1 ∧ Forall (λ y, k < key y) l2.
Proof.
  intros Hs. exists (upto key k l), (beyond key k l). split_and!; [by apply sorted_split|done| |].
  - apply Forall_forall. by intros y [? _]%elem_of_upto.
  - apply Forall_forall. by intros y [? _]%elem_of_beyond.
Qed.

(** *** The tick *)
Lemma foldl_expire t xs : ∀ ths, NoDup xs →
  foldl (λ ths x, expire x ths) ths xs !! t =
    (if decide (ThreadTimer t ∈ xs) then timed_out <$> ths !! t else ths !! t).
Proof.
  induction xs as [|x xs IH]; intros ths Hn; cbn [foldl].
  { by rewrite decide_False by (by intros ?%elem_of_nil). }
  apply NoDup_cons in Hn as [Hx Hn]. rewrite IH by done.
  destruct (decide (x = ThreadTimer t)) as [->|Hne].
  - rewrite decide_False by done. rewrite decide_True by left. by simpl; rewrite lookup_alter_eq.
  - assert (expire x ths !! t = ths !! t) as ->.
    { destruct x; simpl; [|done]. apply lookup_alter_ne. congruence. }
    destruct (decide (ThreadTimer t ∈ xs)).
    + by rewrite decide_True by by right.
    + rewrite decide_False; [done|]. intros [?|?]%elem_of_cons; congruence.
Qed.

(** The timers that are not due stay as they are. *)
Section stay.
Context {cfg : RTConfig} (idle : Z).
Abbreviation J s := (kwf idle ∅ (rt_tick s - 1) half s).

Definition same_timer (y : tmr) (s s' : kstate) : Prop :=
  timers s' !! y = timers s !! y ∧ (running y (rt_timer_list s) → running y (rt_timer_list s')).

Lemma fire_stays s x l y :
  J s → last (rt_timer_list s) = Some (x :: l) → y ≠ x →
  ∀ s', fire timeout_call x s = Ok tt s' → same_timer y s s'.
Proof.
  intros HJ Hl Hne s' Hf.
  destruct (tw_active _ _ _ _ (ki_timers _ _ _ _ _ _ _ _ _ HJ) _ x Hl ltac:(left)) as (tm & Hx & _).
  destruct (fire_exec timeout_call (λ s, J s) s x l tm HJ Hl Hx)
    as (s2 & s1 & _ & Hf' & _ & Es & Et2 & Ek2 & El2).
  rewrite Hf in Hf'. injection Hf' as <-.
  assert (timers (done_state x tm s2) !! y = timers s !! y) as Ed.
  { cbn. by rewrite lookup_insert_ne, Et2. }
  assert (running y (rt_timer_list s) → y ∈ l) as Hyl.
  { intros (l0 & Hl0 & Hy). simplify_eq. by apply elem_of_cons in Hy as [?|?]. }
  rewrite Es. destruct (tm_periodic tm).
  - split; [cbn; by rewrite lookup_insert_ne|]. intros Hy%Hyl.
    eexists. split; [apply start_last; exact El2|]. rewrite sorted_insert_perm. right.
    by apply list_elem_of_filter.
  - split; [done|]. intros Hy%Hyl. by exists l.
Qed.

Lemma fires_stay n y : ∀ s l s',
  J s → last (rt_timer_list s) = Some l → length (due s l) = n → y ∉ due s l →
  fires timeout_call (due s l) s = Ok tt s' → same_timer y s s'.
Proof.
  induction n as [|n IH]; intros s l s' HJ Hl Hn Hy Hf.
  { apply nil_length_inv in Hn. rewrite Hn in *. simpl in *. unfold ret in Hf.
    by injection Hf as <-. }
  destruct l as [|x l]; [done|].
  assert (due s (x :: l) = x :: due s l) as Ed by (by eapply due_cons).
  rewrite Ed in *. apply not_elem_of_cons in Hy as [Hyx Hy].
  destruct (fire_threads idle s x l HJ Hl) as (s1 & l1 & Ef & HJ1 & _ & _ & Hl1 & Hd1).
  cbn [fires] in Hf. rewrite (bind_ok _ _ _ _ _ Ef), <- Hd1 in Hf.
  destruct (fire_stays s x l y HJ Hl Hyx s1 Ef) as [E1 R1].
  destruct (IH s1 l1 s' HJ1 Hl1 ltac:(rewrite Hd1; simpl in Hn; lia) ltac:(by rewrite Hd1) Hf)
    as [E2 R2].
  split; [by rewrite E2|auto].
Qed.
End stay.

(** *** One tick, summed up *)

(** The timers that the next tick fires, in their order. *)
Definition expiring (s : kstate) : list tmr :=
  upto (ticks_left s) 1 (default [] (last (rt_timer_list s))).

Lemma tick_base (T k : Z) : u32 (T - (u32 (k + 1) - 1)) = u32 (T - k).
Proof.
  unfold u32, wrap. replace (T - ((k + 1) mod 2 ^ 32 - 1)) with (T + 1 - (k + 1) mod 2 ^ 32) by lia.
  rewrite Zminus_mod_idemp_r. f_equal. lia.
Qed.

Section one_tick.
Context {cfg : RTConfig} (idle : Z).

Lemma due_expiring s s1 l :
  last (rt_timer_list s) = Some l → timers s1 = timers s → rt_tick s1 = u32 (rt_tick s + 1) →
  due s1 l = expiring s.
Proof.
  intros Hl Et Ek. unfold due, expiring, upto. rewrite Hl. cbn. apply filter_ext_in.
  intros x _. unfold ticks_left, tkey. rewrite Et, Ek. destruct (timers s !! x); [|done].
  by rewrite tick_base.
Qed.

Lemma tick_facts s t0 th0 :
  kok idle s → rt_current_thread s = Some t0 → threads s !! t0 = Some th0 →
  ∃ s' r, rt_tick_increase s = Ok tt s' ∧ rt_tick s' = u32 (rt_tick s + 1) ∧ kok idle s' ∧
    primask s' = primask s ∧ runs s' ∧
    threads s' = foldl (λ ths x, expire x ths)
      (<[t0 := th_set_remaining r th0]> (threads s)) (expiring s) ∧
    (∀ y, y ∉ expiring s → same_timer y s s').
Proof.
  intros Hk Hc Ht. destruct (tw_last _ _ _ _ (ki_timers _ _ _ _ _ _ _ _ _ Hk)) as [l Hl].
  destruct (tick_run idle s t0 th0 l Hk Hc Ht Hl)
    as (s1 & s2 & Es & Ef & Et & Ek & Hk2 & Etm & Erow & HJ & Ek1 & (r & Eth) & Hr).
  rewrite <- Erow in Hl. set (s1m := set_primask 1 s1) in *.
  assert (due s1m l = due s1 l) as Ed by done.
  assert (due s1 l = expiring s) as Ex by (apply due_expiring; [by rewrite <- Erow|done..]).
  rewrite <- Ed in Ef.
  destruct (fires_threads idle _ s1m l s2 HJ Hl eq_refl Ef) as [Hth Hr2].
  exists (set_primask (primask s) s2), r. split_and!; [exact Et|exact Ek|exact Hk2|done| | |].
  - by apply Hr2.
  - cbn. rewrite Hth, Ed, Ex. change (threads s1m) with (threads s1). by rewrite Eth.
  - intros y Hy. rewrite <- Ex, <- Ed in Hy.
    destruct (fires_stay idle _ y s1m l s2 HJ Hl eq_refl Hy Ef) as [E1 R1].
    unfold same_timer in *. change (timers s1m) with (timers s1) in E1.
    change (rt_timer_list s1m) with (rt_timer_list s1) in R1.
    rewrite <- Etm, <- Erow. done.
Qed.

Lemma expiring_nodup s : kok idle s → NoDup (expiring s).
Proof.
  intros Hk. destruct (tw_last _ _ _ _ (ki_timers _ _ _ _ _ _ _ _ _ Hk)) as [l Hl].
  unfold expiring. rewrite Hl. apply NoDup_filter.
  by eapply (tw_nodup _ _ _ _ (ki_timers _ _ _ _ _ _ _ _ _ Hk)).
Qed.

Lemma elem_of_expiring s x :
  x ∈ expiring s ↔ running x (rt_timer_list s) ∧ ticks_left s x ≤ 1.
Proof.
  unfold expiring, running. rewrite elem_of_upto. destruct (last (rt_timer_list s)) as [l|]; simpl.
  - naive_solver.
  - split; [intros [_ ?%elem_of_nil]|naive_solver]; done.
Qed.
End one_tick.

(** *** Sleeping *)

(** The thread sleeps and is to wake up in [r] ticks. *)
Definition asleep (s : kstate) (t r : Z) : Prop :=
  (∃ th, threads s !! t = Some th ∧ th_stat th = RT_THREAD_SUSPEND) ∧
  running (ThreadTimer t) (rt_timer_list s) ∧
  (∃ tm, timers s !! ThreadTimer t = Some tm ∧ u32 (tm_timeout_tick tm - rt_tick s) = r).

(** It was woken by the timer. *)
Definition awake (s : kstate) (t : Z) : Prop :=
  ∃ th, threads s !! t = Some th ∧ th_stat th = RT_THREAD_READY ∧ th_error th = - RT_ETIMEOUT.

(** [n] clock ticks. *)
Fixpoint ticks {cfg : RTConfig} (n : nat) : K unit :=
  match n with
  | O => ret tt
  | S n => rt_tick_increase ;;; ticks n
  end.

Lemma ticks_snoc {cfg : RTConfig} n : ∀ s s1 s2,
  ticks n s = Ok tt s1 → rt_tick_increase s1 = Ok tt s2 → ticks (S n) s = Ok tt s2.
Proof.
  induction n as [|n IH]; intros s s1 s2 E1 E2.
  - cbn [ticks] in *. unfold ret in E1. injection E1 as ->. by rewrite (bind_ok _ _ _ _ _ E2).
  - cbn [ticks] in E1. unfold bind at 1 in E1. destruct (rt_tick_increase s) as [[] s0|] eqn:E; [|done].
    change (ticks (S (S n))) with (rt_tick_increase ;;; ticks (S n)).
    rewrite (bind_ok _ _ _ _ _ E). by eapply IH.
Qed.

Section sleep.
Context {cfg : RTConfig} (idle : Z).

Lemma tick_asleep s t r :
  kok idle s → runs s → asleep s t r →
  ∃ s', rt_tick_increase s = Ok tt s' ∧ kok idle s' ∧ runs s' ∧
    (r ≤ 1 → awake s' t) ∧ (1 < r → asleep s' t (r - 1)).
Proof.
  intros Hk (t0 & Hc & th0 & Ht0) ((th & Ht & Hs) & Hrun & tm & Htm & Hr).
  destruct (tick_facts idle s t0 th0 Hk Hc Ht0)
    as (s' & rem & E & Ek & Hk' & _ & Hr' & Eth & Hstay).
  assert (ticks_left s (ThreadTimer t) = r) as Hleft.
  { unfold ticks_left, tkey. by rewrite Htm. }
  assert (∃ th1, <[t0 := th_set_remaining rem th0]> (threads s) !! t = Some th1 ∧
    th_stat th1 = RT_THREAD_SUSPEND) as (th1 & Ht1 & Hs1).
  { destruct (decide (t = t0)) as [->|].
    - rewrite lookup_insert_eq. simplify_eq. eauto.
    - rewrite lookup_insert_ne by done. eauto. }
  exists s'. split_and!; [done..| |].
  - intros Hle. exists (timed_out th1). rewrite Eth, foldl_expire by by eapply expiring_nodup.
    rewrite decide_True by (apply elem_of_expiring; split; [done|lia]). by rewrite Ht1.
  - intros Hgt. assert (ThreadTimer t ∉ expiring s) as Hn.
    { rewrite elem_of_expiring. intros [_ ?]. lia. }
    destruct (Hstay _ Hn) as [Etm Hrn]. split_and!.
    + exists th1. rewrite Eth, foldl_expire by by eapply expiring_nodup.
      by rewrite decide_False.
    + by apply Hrn.
    + exists tm. rewrite Etm. split; [done|]. rewrite Ek.
      unfold u32, wrap in *. rewrite Zminus_mod_idemp_r.
      replace (tm_timeout_tick tm - (rt_tick s + 1)) with (tm_timeout_tick tm - rt_tick s - 1) by lia.
      rewrite <- Zminus_mod_idemp_l, Hr. apply Z.mod_small.
      pose proof (wrap_range 32 (tm_timeout_tick tm - rt_tick s)) as Hw. unfold wrap in Hw. lia.
Qed.

Lemma ticks_asleep n : ∀ s t r,
  kok idle s → runs s → asleep s t r → (Z.of_nat n < r) →
  ∃ s', ticks n s = Ok tt s' ∧ kok idle s' ∧ runs s' ∧ asleep s' t (r - Z.of_nat n).
Proof.
  induction n as [|n IH]; intros s t r Hk Hr Ha Hlt.
  { exists s. rewrite Z.sub_0_r. done. }
  destruct (tick_asleep s t r Hk Hr Ha) as (s1 & E & Hk1 & Hr1 & _ & Ha1).
  destruct (IH s1 t (r - 1) Hk1 Hr1) as (s' & E' & ? & ? & ?); [apply Ha1; lia|lia|].
  exists s'. cbn [ticks]. rewrite (bind_ok _ _ _ _ _ E).
  replace (r - Z.of_nat (S n)) with (r - 1 - Z.of_nat n) by lia. done.
Qed.
End sleep.

(** ** Properties *)
Section properties.
Context {cfg : RTConfig}.

(** A switch of the context to another thread. *)
Definition is_switch (e : kevent) : bool :=
  match e with
  | ev_context_switch _ _ | ev_context_switch_interrupt _ _ | ev_context_switch_to _ => true
  | _ => false
  end.

(** The thread that runs after [rt_schedule] is the first of its queue. *)
Lemma first_chosen idle s t th :
  kok idle s → rt_scheduler_lock_nest s = 0 → most_urgent (schedule_state s) t th →
  ∃ l, tlists s !! QReady (th_current_priority th) = Some (t :: l) ∧
    schedule_to s = (if decide (rt_current_thread s = Some t) then None
                     else Some (th_current_priority th, t)) ∧
    u8 (th_current_priority th) = th_current_priority th.
Proof.
  intros Hk Hn (Hc & Ht & _ & _). pose proof (ki_sched _ _ _ _ _ _ _ _ _ Hk) as Hs.
  pose proof (ki_some_ready _ _ _ _ _ _ _ _ _ Hk) as Hr.
  destruct (top_queue _ _ _ _ Hs Hr) as (to & l & th' & Hl & _ & Hth & _ & Hp).
  destruct (group_top _ _ _ _ Hs Hr) as [_ Htop].
  assert (schedule_to s = if decide (rt_current_thread s = Some to) then None
    else Some (th_current_priority th', to)) as Eto.
  { unfold schedule_to. rewrite Hn, Hl, Hp. done. }
  assert (t = to) as ->.
  { unfold schedule_state in Hc. rewrite Eto in Hc. cbn in Hc. case_decide; congruence. }
  assert (th' = th) as -> by (cbn in Ht; congruence).
  exists l. rewrite Hp. split_and!; [done|by rewrite <- Hp|]. apply wrap_small. lia.
Qed.

(** C5: [rt_schedule], unless the scheduler is locked, chooses the first thread
    in the ready queue of the most urgent ready priority.  When it runs already
    nothing changes.  Otherwise it becomes the current thread, its priority the
    current priority, and there is exactly one context switch, from the previous
    current thread to it, after the calls of the hook and the warning of a stack
    that is nearly full; nothing else in the kernel changes. *)
Theorem schedule_most_urgent (idle : Z) (s : kstate) :
  kok idle s → rt_scheduler_lock_nest s = 0 →
  ∃ s' t th l, rt_schedule s = Ok tt s' ∧ kok idle s' ∧ most_urgent s' t th ∧
    tlists s !! QReady (th_current_priority th) = Some (t :: l) ∧
    (rt_current_thread s = Some t → s' = s) ∧
    (rt_current_thread s ≠ Some t → ∃ es,
       forallb (λ e, negb (is_switch e)) es ∧
       let from := default 0 (rt_current_thread s) in
       let switch := if rt_interrupt_nest s =? 0 then ev_context_switch from t
                     else ev_context_switch_interrupt from t in
       s' = set_rt_current_priority (th_current_priority th)
              (set_rt_current_thread (Some t) (set_trace (trace s ++ es ++ [switch]) s))).
Proof.
  intros Hk Hn. pose proof (k_schedule idle ∅ _ _ s Hk) as E.
  pose proof (schedule_highest s (k_can_schedule _ _ _ _ _ Hk)) as Hh.
  destruct (highest_most_urgent idle _ _ (schedule_state s) Hk Hn Hh) as (t & th & Hu).
  destruct (first_chosen idle s t th Hk Hn Hu) as (l & Hl & Hto & Hp).
  exists (schedule_state s), t, th, l. split_and!; [done..| |].
  - intros Hc. unfold schedule_state, schedule_events. rewrite Hto, decide_True by done.
    by rewrite app_nil_r.
  - intros Hc. unfold schedule_state, schedule_events. rewrite Hto, decide_False by done.
    rewrite Hp, (app_assoc (hook_events _ _ _)). eexists. split; [|reflexivity].
    rewrite forallb_app. unfold hook_events. by repeat case_match.
Qed.

(** [rt_timer_start] puts a timer behind all running timers that expire
    before it or with it, and before those that expire later, whatever its
    previous place; it will expire [init_tick] ticks from now. *)
Theorem timer_start_sorted (idle : Z) (s : kstate) (p : Z) (tm : rt_timer) (l : list tmr) :
  kok idle s → timers s !! Timer p = Some tm → tm_ok (Timer p) tm → time_ok tm →
  last (rt_timer_list s) = Some l →
  ∃ s' l1 l2, rt_timer_start (Timer p) s = Ok (- RT_EOK) s' ∧ kok idle s' ∧
    filter (λ y, y ≠ Timer p) l = l1 ++ l2 ∧
    last (rt_timer_list s') = Some (l1 ++ Timer p :: l2) ∧
    Forall (λ y, ticks_left s y ≤ tm_init_tick tm) l1 ∧
    Forall (λ y, tm_init_tick tm < ticks_left s y) l2 ∧
    ticks_left s' (Timer p) = tm_init_tick tm ∧
    ∀ y, y ≠ Timer p → timers s' !! y = timers s !! y.
Proof.
  intros Hk Hx Hok Hto Hl. destruct Hto as [Hi Hpos].
  assert (u32 (deadline s tm - rt_tick s) = tm_init_tick tm) as Ed.
  { unfold deadline, u32, wrap. rewrite Zminus_mod_idemp_l.
    replace (rt_tick s + tm_init_tick tm - rt_tick s) with (tm_init_tick tm) by lia.
    apply Z.mod_small. unfold half in *. lia. }
  assert (startable (rt_tick s) (half - 1) s tm) as Hst.
  { unfold startable. rewrite Ed. lia. }
  pose proof (start_run _ _ _ _ _ (ki_timers _ _ _ _ _ _ _ _ _ Hk) Hx Hst) as E.
  pose proof (ki_start idle ∅ _ _ s _ _ Hk Hx Hst ltac:(done) Hok ltac:(done)) as Hk'.
  rewrite Ed, Z.max_l in Hk' by lia.
  assert (sorted_by (ticks_left s) (filter (λ y, y ≠ Timer p) l)) as Hs.
  { eapply sorted_sublist; [|by eapply (tw_sorted _ _ _ _ (ki_timers _ _ _ _ _ _ _ _ _ Hk))].
    apply sublist_filter. }
  destruct (sorted_insert_split (ticks_left s) (tm_init_tick tm) (Timer p) _ Hs)
    as (l1 & l2 & E1 & E2 & H1 & H2).
  exists (timer_start_state (rt_tick s) (Timer p) tm s), l1, l2.
  split_and!; try done.
  - rewrite (start_last _ _ _ _ _ Hl), Ed. by rewrite <- E2.
  - unfold ticks_left, tkey. cbn. by rewrite lookup_insert_eq.
  - intros y Hy. cbn. by rewrite lookup_insert_ne.
Qed.

(** C25: a clock tick counts the tick, and times out exactly the threads whose
    timers expire at it: each of them becomes ready with the error
    [-RT_ETIMEOUT], and no other thread but the running one, whose time slice
    is counted, is touched; the timers that do not expire stay. *)
Theorem tick_correct (idle : Z) (s : kstate) (t0 : Z) (th0 : rt_thread) :
  kok idle s → rt_current_thread s = Some t0 → threads s !! t0 = Some th0 →
  ∃ s', rt_tick_increase s = Ok tt s' ∧ rt_tick s' = u32 (rt_tick s + 1) ∧ kok idle s' ∧
    primask s' = primask s ∧
    (∀ t, t ≠ t0 → threads s' !! t =
       (if decide (ThreadTimer t ∈ expiring s) then timed_out <$> threads s !! t
        else threads s !! t)) ∧
    (∀ y, y ∉ expiring s → timers s' !! y = timers s !! y ∧
       (running y (rt_timer_list s) → running y (rt_timer_list s'))).
Proof.
  intros Hk Hc Ht. destruct (tick_facts idle s t0 th0 Hk Hc Ht)
    as (s' & r & E & Ek & Hk' & Hp & _ & Eth & Hstay).
  exists s'. split_and!; try done. intros t Hne.
  rewrite Eth, foldl_expire by by eapply expiring_nodup.
  by rewrite lookup_insert_ne.
Qed.

(** C34: a thread that sleeps for [n] ticks is woken by the [n]th clock tick and
    not before, whatever other timers expire meanwhile. *)
Theorem sleep_wakes_on_time (idle : Z) (s : kstate) (t : Z) (th : rt_thread) (n : nat) :
  kok idle s → caller idle s t th → 0 < Z.of_nat n < half →
  ∃ s1, rt_thread_sleep (Z.of_nat n) s = Ok t s1 ∧ kok idle s1 ∧
    (∀ k, (k < n)%nat → ∃ s', ticks k s1 = Ok tt s' ∧ asleep s' t (Z.of_nat n - Z.of_nat k)) ∧
    ∃ s2, ticks n s1 = Ok tt s2 ∧ kok idle s2 ∧ awake s2 t.
Proof.
  intros Hk [Hc Ht Hs Hi _] Hn.
  destruct (k_started idle ∅ _ _ s t th Hk Ht) as (_ & _ & (tm & Htm & _) & _);
    [set_solver|by left|].
  destruct (sleep_run idle s t th tm (Z.of_nat n) Hk Hc Ht Hs Htm Hi) as [E Hk1]; [lia|].
  set (s1 := sleep_state t (Z.of_nat n) th tm s) in *.
  assert (runs s1) as Hr1.
  { eapply schedule_runs; [exact Hk1|]. exists t. split; [exact Hc|].
    eexists. apply lookup_insert_eq. }
  assert (asleep s1 t (Z.of_nat n)) as Ha.
  { split_and!.
    - eexists. split; [apply lookup_insert_eq|done].
    - destruct (tw_last _ _ _ _ (ki_timers _ _ _ _ _ _ _ _ _ Hk)) as [l Hl].
      unfold running. change (rt_timer_list s1) with (rt_timer_list
        (thread_timer_state t (Z.of_nat n) (stopped tm) (suspend_state t th tm s))).
      unfold thread_timer_state. erewrite start_last.
      2:{ cbn. unfold without. by rewrite fmap_last, Hl. }
      eexists. split; [done|]. rewrite sorted_insert_perm. left.
    - eexists. split; [apply lookup_insert_eq|]. cbn. unfold deadline, u32, wrap. cbn.
      rewrite Zminus_mod_idemp_l. replace (rt_tick s + Z.of_nat n - rt_tick s) with (Z.of_nat n) by lia.
      apply Z.mod_small. unfold half in *. lia. }
  exists s1. split_and!; [done..| |].
  - intros k Hlt. destruct (ticks_asleep idle k s1 t (Z.of_nat n) Hk1 Hr1 Ha) as (s' & ? & _ & _ & ?);
      [lia|eauto].
  - destruct n as [|n]; [lia|].
    destruct (ticks_asleep idle n s1 t (Z.of_nat (S n)) Hk1 Hr1 Ha) as (s' & E1 & Hk' & Hr' & Ha'); [lia|].
    destruct (tick_asleep idle s' t _ Hk' Hr' Ha') as (s2 & E2 & Hk2 & _ & Haw & _).
    exists s2. split_and!; [|done|apply Haw; lia].
    by eapply ticks_snoc.
Qed.

(** [rt_thread_yield] by a ready thread moves it behind the other threads of
    its priority, and the first of them runs unless a more urgent thread is
    ready: the threads of one priority run in turn. *)
Theorem yield_round_robin (idle : Z) (s : kstate) (t : Z) (th : rt_thread) (rest : list Z) :
  kok idle s → rt_current_thread s = Some t → threads s !! t = Some th →
  th_stat th = RT_THREAD_READY → tlists s !! QReady (th_current_priority th) = Some (t :: rest) →
  rest ≠ [] →
  ∃ s', rt_thread_yield s = Ok RT_EOK s' ∧ kok idle s' ∧ highest_runs s' ∧
    tlists s' !! QReady (th_current_priority th) = Some (rest ++ [t]) ∧
    (∀ q, q ≠ QReady (th_current_priority th) → tlists s' !! q = tlists s !! q) ∧
    threads s' = threads s.
Proof.
  intros Hk Hc Ht Hs Hl Hne.
  pose proof (yield_run idle _ _ s t th _ Hk Hc Ht Hs Hl) as E.
  rewrite decide_False in E by congruence.
  pose proof (yield_kwf idle _ _ s t th _ Hk Ht Hs Hl) as Hk'.
  pose proof (sw_nodup _ _ _ _ (ki_sched _ _ _ _ _ _ _ _ _ Hk) _ _ Hl) as [Hn _]%NoDup_cons.
  eexists. split; [exact E|]. split_and!; [exact Hk'| | | |done].
  - apply schedule_highest. by eapply k_can_schedule.
  - assert (filter (λ x, x ≠ t) (t :: rest) = rest) as Ef.
    { rewrite filter_cons_False by tauto. apply list_filter_all_id. naive_solver. }
    rewrite <- Ef at 2. apply lookup_insert_eq.
  - intros q Hq. cbn. rewrite lookup_insert_ne by done. rewrite tl_remove_lookup.
    destruct (tlists s !! q) as [l'|] eqn:E'; [|done]. cbn. f_equal. apply list_filter_all_id.
    intros x Hx ->. apply Hq.
    eapply (sw_uniq _ _ _ _ (ki_sched _ _ _ _ _ _ _ _ _ Hk)); [by exists l'|].
    eexists. split; [exact Hl|left].
Qed.

(** a thread that is ready or suspended and is resumed after a suspension
    is ready again: [rt_thread_suspend] takes it off its ready queue and stops
    its timer, [rt_thread_resume] puts it at the end of the queue of its
    priority; both keep the kernel invariant, and either refuses a thread in
    the other state. *)
Theorem suspend_resume (idle : Z) (s : kstate) (t : Z) (th : rt_thread) :
  kok idle s → threads s !! t = Some th → th_stat th = RT_THREAD_READY → t ≠ idle →
  ∃ s1 s2 l, rt_thread_suspend t s = Ok RT_EOK s1 ∧ kok idle s1 ∧
    unlinked t (tlists s1) ∧ ¬ running (ThreadTimer t) (rt_timer_list s1) ∧
    rt_thread_suspend t s1 = Ok (- RT_ERROR) s1 ∧
    rt_thread_resume t s1 = Ok RT_EOK s2 ∧ kok idle s2 ∧ threads s2 = threads s ∧
    tlists s2 !! QReady (th_current_priority th) = Some (l ++ [t]) ∧
    rt_thread_resume t s2 = Ok (- RT_ERROR) s2.
Proof.
  intros Hk Ht Hs Hi.
  destruct (k_started idle ∅ _ _ s t th Hk Ht) as (_ & _ & (tm & Htm & _) & _);
    [set_solver|by left|].
  pose proof (suspend_run idle ∅ _ _ s t th tm Hk Ht ltac:(set_solver) Hs Htm) as E1.
  pose proof (suspend_kwf idle ∅ _ _ s t th tm Hk Ht ltac:(set_solver) Hs Htm Hi) as Hk1.
  set (s1 := suspend_state t th tm s) in *.
  set (th1 := th_set_stat RT_THREAD_SUSPEND th).
  assert (threads s1 !! t = Some th1) as Ht1 by apply lookup_insert_eq.
  assert (timers s1 !! ThreadTimer t = Some (stopped tm)) as Htm1 by apply lookup_insert_eq.
  destruct (resume_queue idle ∅ _ _ s1 t th1 Hk1 Ht1) as (l & _ & Hl); [set_solver|done|].
  pose proof (resume_run idle ∅ _ _ s1 t th1 (stopped tm) l Hk1 Ht1 eq_refl Htm1 Hl) as E2.
  pose proof (resume_kwf idle ∅ _ _ s1 t th1 (stopped tm) l Hk1 Ht1 ltac:(set_solver) eq_refl Htm1 Hl)
    as Hk2.
  set (s2 := resume_state t th1 (stopped tm) l s1) in *.
  assert (threads s2 = threads s) as Eth.
  { cbn. rewrite !insert_insert_eq. rewrite insert_id; [done|]. rewrite Ht. f_equal.
    unfold th1. rewrite <- Hs. done. }
  exists s1, s2, l. split_and!; try done.
  - apply unlinked_remove.
  - apply not_running_without.
  - unfold rt_thread_suspend. krun. by rewrite Ht1.
  - cbn. apply lookup_insert_eq.
  - unfold rt_thread_resume. krun. rewrite Eth, Ht. krun. by rewrite Hs.
Qed.

(** [rt_thread_control] with [RT_THREAD_CTRL_CHANGE_PRIORITY] sets the
    priority and the mask bit that goes with it, keeps the ready queues and
    the priority group in step, and changes no other thread. *)
Theorem change_priority_correct (idle : Z) (s : kstate) (t p : Z) (th : rt_thread) :
  kok idle s → threads s !! t = Some th → t ≠ idle → 0 ≤ p < RT_THREAD_PRIORITY_MAX →
  ∃ s' th', rt_thread_control t RT_THREAD_CTRL_CHANGE_PRIORITY p s = Ok RT_EOK s' ∧ kok idle s' ∧
    threads s' !! t = Some th' ∧ th_current_priority th' = p ∧ th_number_mask th' = 2 ^ p ∧
    th_stat th' = th_stat th ∧ (∀ u, u ≠ t → threads s' !! u = threads s !! u) ∧
    (th_stat th = RT_THREAD_READY → linked (tlists s') (QReady p) t ∧
       Z.testbit (rt_thread_ready_priority_group s') p = true).
Proof.
  intros Hk Ht Hi Hp. destruct (set_priority_run idle _ _ s t th p Hk Ht Hi Hp) as (s' & E & Hk' & Hr).
  assert (kok idle s') as Hk2 by (by rewrite (rp_tick _ _ _ _ _ Hr)).
  exists s'. eexists. split_and!; [exact E|exact Hk2|apply Hr|done|by apply priority_mask_pow|done
    |apply Hr|].
  intros Hs. pose proof (ki_sched _ _ _ _ _ _ _ _ _ Hk2) as Hw.
  assert (linked (tlists s') (QReady p) t) as Hlk.
  { exact (sw_ready _ _ _ _ Hw t _ (rp_thread _ _ _ _ _ Hr) ltac:(set_solver) Hs). }
  split; [done|]. apply (sw_group _ _ _ _ Hw); [lia|by exists t].
Qed.

(** [rt_thread_startup] of an initialised thread makes it ready at its
    initial priority with the right mask bit, and the highest ready thread
    runs once the scheduler has been started. *)
Theorem startup_correct (idle : Z) (s : kstate) (t : Z) (th : rt_thread) (tm : rt_timer) :
  kok idle s → threads s !! t = Some th → th_stat th = RT_THREAD_INIT →
  0 ≤ th_init_priority th < RT_THREAD_PRIORITY_MAX → stack_overflow th = false →
  timers s !! ThreadTimer t = Some tm → tm_ok (ThreadTimer t) tm →
  ∃ s', rt_thread_startup t s = Ok RT_EOK s' ∧ kok idle s' ∧
    (∃ th', threads s' !! t = Some th' ∧ th_stat th' = RT_THREAD_READY ∧
       th_current_priority th' = th_init_priority th ∧ th_number_mask th' = 2 ^ th_init_priority th) ∧
    linked (tlists s') (QReady (th_init_priority th)) t ∧
    (rt_current_thread s ≠ None → highest_runs s').
Proof.
  intros Hk Ht Hs Hp Hst Htm Hok.
  destruct (swf_ready_queue _ _ _ _ (ki_sched _ _ _ _ _ _ _ _ _ Hk) _ Hp) as [l Hl].
  destruct (startup_kwf idle _ _ s t th tm l Hk Ht Hs Hp Hst Htm Hok Hl) as [E Hk1].
  set (s1 := startup_state t th tm l s) in *.
  assert (∃ th', threads s1 !! t = Some th' ∧ th_stat th' = RT_THREAD_READY ∧
    th_current_priority th' = th_init_priority th ∧ th_number_mask th' = 2 ^ th_init_priority th) as Hth.
  { eexists. split; [apply lookup_insert_eq|]. split_and!; try done. by apply priority_mask_pow. }
  assert (linked (tlists s1) (QReady (th_init_priority th)) t) as Hlk.
  { exists (l ++ [t]). split; [apply lookup_insert_eq|set_solver]. }
  destruct (rt_current_thread s) as [c|]; (eexists; split; [exact E|]); split_and!; try done.
  intros _. apply schedule_highest. by eapply k_can_schedule.
Qed.
End properties.

(** ** Examples *)
Lemma schedule_most_urgent_witness :
  ∃ s' t th, rt_schedule (demo [] []) = Ok tt s' ∧ most_urgent s' t th.
Proof.
  destruct (schedule_most_urgent (cfg := gd32_config) 1 (demo [] [])) as (s' & t & th & l & E & _ & Hu & _).
  - apply demo_ok.
  - reflexivity.
  - by exists s', t, th.
Defined.

Definition demo_timer_200 : rt_timer :=
  mk_timer (mk_object (replicate 8 0) 133 3) (fn_user 500) 7 9 1.

Lemma timer_start_sorted_witness :
  ∃ s', rt_timer_start (cfg := gd32_config) (Timer 200) (demo [] []) = Ok 0 s' ∧ kok 1 s'.
Proof.
  destruct (timer_start_sorted (cfg := gd32_config) 1 (demo [] []) 200 demo_timer_200
    [Timer 200; ThreadTimer 3]) as (s' & l1 & l2 & E & Hk & _).
  - apply demo_ok.
  - reflexivity.
  - by exists 500.
  - split; [unfold half; simpl; lia|]. intros _. simpl. lia.
  - reflexivity.
  - by exists s'.
Defined.

(** The next tick fires timer 200. *)
Definition demo_tick : kstate := set_rt_tick 0 (demo [] []).
Lemma demo_tick_ok : kok 1 demo_tick.
Proof. apply kinv_check_spec. vm_compute. reflexivity. Qed.

Lemma tick_correct_witness :
  expiring demo_tick = [Timer 200] ∧
  ∃ s', rt_tick_increase (cfg := gd32_config) demo_tick = Ok tt s' ∧ kok 1 s'.
Proof.
  split; [vm_compute; reflexivity|].
  destruct (tick_correct (cfg := gd32_config) 1 demo_tick 2 (demo_thread 2 RT_THREAD_READY 10))
    as (s' & E & _ & Hk & _).
  - apply demo_tick_ok.
  - reflexivity.
  - reflexivity.
  - by exists s'.
Defined.

Lemma sleep_wakes_on_time_witness :
  ∃ s1 s2, rt_thread_sleep (cfg := gd32_config) 30 (demo [] []) = Ok 2 s1 ∧
    ticks (cfg := gd32_config) 30 s1 = Ok tt s2 ∧ awake s2 2.
Proof.
  destruct (sleep_wakes_on_time (cfg := gd32_config) 1 (demo [] []) 2
    (demo_thread 2 RT_THREAD_READY 10) 30) as (s1 & E1 & _ & _ & s2 & E2 & _ & Ha).
  - apply demo_ok.
  - by split.
  - unfold half. lia.
  - by exists s1, s2.
Defined.

Lemma yield_round_robin_witness :
  ∃ s', rt_thread_yield (demo [] []) = Ok RT_EOK s' ∧ tlists s' !! QReady 10 = Some [4; 2].
Proof.
  destruct (yield_round_robin (cfg := gd32_config) 1 (demo [] []) 2
    (demo_thread 2 RT_THREAD_READY 10) [4]) as (s' & E & _ & _ & Hl & _).
  - apply demo_ok.
  - reflexivity.
  - reflexivity.
  - reflexivity.
  - reflexivity.
  - discriminate.
  - by exists s'.
Defined.

Lemma suspend_resume_witness :
  ∃ s1 s2, rt_thread_suspend 4 (demo [] []) = Ok RT_EOK s1 ∧
    rt_thread_resume 4 s1 = Ok RT_EOK s2 ∧ threads s2 = threads (demo [] []).
Proof.
  destruct (suspend_resume 1 (demo [] []) 4 (demo_thread 4 RT_THREAD_READY 10))
    as (s1 & s2 & l & E1 & _ & _ & _ & _ & E2 & _ & Eth & _).
  - apply demo_ok.
  - reflexivity.
  - reflexivity.
  - lia.
  - by exists s1, s2.
Defined.

Lemma change_priority_correct_witness :
  ∃ s', rt_thread_control (cfg := gd32_config) 4 RT_THREAD_CTRL_CHANGE_PRIORITY 3 (demo [] []) =
    Ok RT_EOK s' ∧ kok 1 s'.
Proof.
  destruct (change_priority_correct (cfg := gd32_config) 1 (demo [] []) 4 3
    (demo_thread 4 RT_THREAD_READY 10)) as (s' & th' & E & Hk & _).
  - apply demo_ok.
  - reflexivity.
  - lia.
  - unfold RT_THREAD_PRIORITY_MAX. lia.
  - by exists s'.
Defined.

Lemma startup_correct_witness :
  ∃ s', rt_thread_startup (cfg := gd32_config) 6 (demo [] []) = Ok RT_EOK s' ∧ highest_runs s'.
Proof.
  destruct (startup_correct (cfg := gd32_config) 1 (demo [] []) 6 (demo_thread 6 RT_THREAD_INIT 7)
    (demo_timer 6 0 0 0)) as (s' & E & _ & _ & _ & Hh).
  - apply demo_ok.
  - reflexivity.
  - reflexivity.
  - unfold RT_THREAD_PRIORITY_MAX. simpl. lia.
  - reflexivity.
  - reflexivity.
  - by split_and!.
  - exists s'. split; [done|]. by apply Hh.
Defined.
