(* ===== verification/Semaphore.v ===== *)
(** * Semaphores ([rtthread/kernel/src/ipc.c], [rt_sem_*])

    The operations, and their refinement of a counting semaphore: a value and
    a list of waiting threads of which at most one is not empty. *)

From S2P Require Import Prelude RtDef SortedList Mem KService Kernel Cpuport Scheduler.
From S2P Require Import Object Timer Invariant Thread Clock Ipc Demo.

(** ** Operations *)
Section ops.
Context {cfg : RTConfig}.

Definition put_sem (p : Z) (o : rt_semaphore) : K unit := put_obj p (KSem o).
Definition sem_set_value (v : Z) (o : rt_semaphore) : rt_semaphore := mk_sem (sem_parent o) v.
Definition sem_flag (o : rt_semaphore) : Z := obj_flag (sem_parent o).

(** The assignments that follow the initialisation of the object: the value is
    converted to 16 bits. *)
Definition sem_setup (sem value flag : Z) : K unit :=
  rt_ipc_object_init sem ;;;
  let! o := get_sem sem in
  put_sem sem (mk_sem (obj_set_flag flag (sem_parent o)) (u16 value)).

Definition rt_sem_init (sem : Z) (name : list Z) (value flag : Z) : K Z :=
  rt_object_init (OIpc sem) RT_Object_Class_Semaphore name ;;;
  sem_setup sem value flag ;;;
  ret RT_EOK.

Definition rt_sem_detach (sem : Z) : K Z :=
  rt_ipc_list_resume_all (QSuspend sem) ;;;
  rt_object_detach (OIpc sem) ;;;
  ret RT_EOK.

Definition rt_sem_create (name : list Z) (value flag : Z) (raw_sem : rt_semaphore)
    : K (option Z) :=
  RT_DEBUG_NOT_IN_INTERRUPT ;;;
  let! o := rt_object_allocate RT_Object_Class_Semaphore name (RawObj (KSem raw_sem)) in
  match o with
  | Some (OIpc sem) => sem_setup sem value flag ;;; ret (Some sem)
  | _ => ret None
  end.

Definition rt_sem_delete (sem : Z) : K Z :=
  RT_DEBUG_NOT_IN_INTERRUPT ;;;
  rt_ipc_list_resume_all (QSuspend sem) ;;;
  rt_object_delete (OIpc sem) ;;;
  ret RT_EOK.

(** A blocked taker keeps the semaphore and the thread. *)
Definition rt_sem_take (sem time : Z) : K (outcome Z (Z * Z)) :=
  RT_OBJECT_HOOK_CALL rt_object_trytake_hook (arg_object (OIpc sem)) ;;;
  let! temp := rt_hw_interrupt_disable in
  let! o := get_sem sem in
  if 0 <? sem_value o then
    put_sem sem (sem_set_value (sem_value o - 1) o) ;;;
    rt_hw_interrupt_enable temp ;;;
    RT_OBJECT_HOOK_CALL rt_object_take_hook (arg_object (OIpc sem)) ;;;
    ret (Returned RT_EOK)
  else if time =? 0 then
    rt_hw_interrupt_enable temp ;;;
    ret (Returned (- RT_ETIMEOUT))
  else
    RT_DEBUG_IN_THREAD_CONTEXT ;;;
    let! thread := self in
    upd_thread thread (th_set_error RT_EOK) ;;;
    ipc_wait (QSuspend sem) thread (sem_flag o) time ;;;
    rt_hw_interrupt_enable temp ;;;
    rt_schedule ;;;
    ret (Blocked (sem, thread)).

(** After the [rt_schedule()] of a blocked take. *)
Definition rt_sem_take_return (c : Z * Z) : K Z :=
  let '(sem, thread) := c in
  let! th := get_thread thread in
  if negb (th_error th =? RT_EOK) then ret (th_error th)
  else
    RT_OBJECT_HOOK_CALL rt_object_take_hook (arg_object (OIpc sem)) ;;;
    ret RT_EOK.

Definition rt_sem_trytake (sem : Z) : K (outcome Z (Z * Z)) := rt_sem_take sem 0.

Definition rt_sem_release (sem : Z) : K Z :=
  RT_OBJECT_HOOK_CALL rt_object_put_hook (arg_object (OIpc sem)) ;;;
  let! temp := rt_hw_interrupt_disable in
  let! e := tl_isempty (QSuspend sem) in
  let! need_schedule :=
    (if e then
       let! o := get_sem sem in
       put_sem sem (sem_set_value (u16 (sem_value o + 1)) o) ;;;
       ret false
     else
       rt_ipc_list_resume (QSuspend sem) ;;;
       ret true) in
  rt_hw_interrupt_enable temp ;;;
  (when need_schedule then rt_schedule) ;;;
  ret RT_EOK.

(** [arg] is the pointer converted to an integer. *)
Definition rt_sem_control (sem cmd arg : Z) : K Z :=
  if cmd =? RT_IPC_CMD_RESET then
    let! level := rt_hw_interrupt_disable in
    rt_ipc_list_resume_all (QSuspend sem) ;;;
    let! o := get_sem sem in
    put_sem sem (sem_set_value (u16 arg) o) ;;;
    rt_hw_interrupt_enable level ;;;
    rt_schedule ;;;
    ret RT_EOK
  else ret (- RT_ERROR).

End ops.

(** ** The counting semaphore *)

(** What a semaphore is: its flag, its value and the threads that wait, in the order in
    which they will get it. *)
Definition sem_is (s : kstate) (sem flag v : Z) (waiters : list Z) : Prop :=
  ∃ o, objs s !! sem = Some (KSem o) ∧ sem_flag o = flag ∧ sem_value o = v ∧
       tlists s !! QSuspend sem = Some waiters ∧
       (sem_flag o = RT_IPC_FLAG_FIFO ∨ sem_flag o = RT_IPC_FLAG_PRIO).

(** No thread waits for a semaphore that is available. *)
Definition sem_ok (v : Z) (waiters : list Z) : Prop :=
  0 ≤ v < 2 ^ 16 ∧ (waiters = [] ∨ v = 0).

Section runs.
Context {cfg : RTConfig} (idle : Z).

Lemma get_sem_run s sem o : objs s !! sem = Some (KSem o) → get_sem sem s = Ok o s.
Proof. intros Ho. unfold get_sem. krun. by rewrite Ho. Qed.

Lemma sem_take_available s sem o time :
  objs s !! sem = Some (KSem o) → 0 < sem_value o →
  ∃ tr, rt_sem_take sem time s = Ok (Returned RT_EOK)
    (set_trace tr (set_objs (<[sem := KSem (sem_set_value (sem_value o - 1) o)]> (objs s)) s)).
Proof.
  intros Ho Hv. unfold rt_sem_take, put_sem. krun. rewrite (get_sem_run _ sem o) by done.
  replace (0 <? sem_value o) with true by lia. krun. by eexists.
Qed.

Lemma sem_take_no_wait s sem o :
  objs s !! sem = Some (KSem o) → sem_value o = 0 →
  ∃ tr, rt_sem_take sem 0 s = Ok (Returned (- RT_ETIMEOUT)) (set_trace tr s).
Proof.
  intros Ho Hv. unfold rt_sem_take. krun. rewrite (get_sem_run _ sem o) by done.
  rewrite Hv. change (0 <? 0) with false. change (0 =? 0) with true. krun. by eexists.
Qed.

Lemma sem_take_blocks s t th sem o time l :
  kok idle s → caller idle s t th → objs s !! sem = Some (KSem o) → sem_value o = 0 →
  sem_flag o = RT_IPC_FLAG_FIFO ∨ sem_flag o = RT_IPC_FLAG_PRIO →
  tlists s !! QSuspend sem = Some l → time ≠ 0 → time < half →
  ∃ s', rt_sem_take sem time s = Ok (Blocked (sem, t)) s' ∧
    waits idle (QSuspend sem) t time
      (wait_insert (sem_flag o) (threads s) (th_current_priority th) t l)
      (th_set_error RT_EOK th) s s'.
Proof.
  intros Hk Hc Ho Hv Hf Hl Htz Hti.
  destruct (block_run idle s t th (th_set_error RT_EOK th) (QSuspend sem) (sem_flag o) time l
    (trace s ++ hook_events rt_object_trytake_hook (arg_object (OIpc sem)) s) (primask s))
    as (s1 & s' & E1 & _ & E2 & Hw); [done..|].
  exists s'. split; [|exact Hw].
  unfold rt_sem_take, upd_thread. krun. rewrite (get_sem_run _ sem o) by done.
  rewrite Hv. change (0 <? 0) with false. replace (time =? 0) with false by lia. krun.
  rewrite (in_thread_run idle _ t th) by (destruct Hc; done). krun.
  rewrite (cl_self _ _ _ _ Hc). krun. rewrite (cl_thread _ _ _ _ Hc). krun.
  unfold bind in E1. rewrite E1. by rewrite E2.
Qed.

Lemma sem_release_wakes s sem u l :
  kok idle s → tlists s !! QSuspend sem = Some (u :: l) →
  ∃ th s', rt_sem_release sem s = Ok RT_EOK s' ∧
    wakes idle (QSuspend sem) u l th s s' ∧ highest_runs s'.
Proof.
  intros Hk Hl.
  set (s0 := set_primask 1 (set_trace (trace s ++
    hook_events rt_object_put_hook (arg_object (OIpc sem)) s) s)).
  destruct (resume_first_run idle s0 (QSuspend sem) u l) as (th & s1 & E & Hw & _); [done..|].
  destruct (wakes_schedule idle _ _ _ _ s0 s1 (primask s) Hw) as (E2 & Hw2 & Hh).
  exists th. eexists. split; [|split; [|exact Hh]].
  - unfold rt_sem_release, tl_isempty, tl_get. krun. rewrite Hl. krun.
    rewrite bool_decide_eq_false_2 by done. krun. fold s0. rewrite E. krun. by rewrite E2.
  - destruct Hw2. by split.
Qed.

Lemma sem_release_counts s sem o :
  objs s !! sem = Some (KSem o) → tlists s !! QSuspend sem = Some [] →
  ∃ tr, rt_sem_release sem s = Ok RT_EOK
    (set_trace tr (set_objs (<[sem := KSem (sem_set_value (u16 (sem_value o + 1)) o)]> (objs s)) s)).
Proof.
  intros Ho Hl. unfold rt_sem_release, tl_isempty, tl_get, put_sem. krun. rewrite Hl. krun.
  rewrite bool_decide_eq_true_2 by done. krun. rewrite (get_sem_run _ sem o) by done. krun.
  by eexists.
Qed.
End runs.

(** ** The specification of a counting semaphore

    [sem_step ins (v, ws) a (v', ws')]: a step of the semaphore of value [v]
    with the waiting threads [ws]; [ins] says where a thread joins them. *)
Inductive sem_action : Type :=
  | SemTake            (* the taker goes on *)
  | SemBusy            (* the taker does not wait *)
  | SemWait (t : Z)    (* the taker waits *)
  | SemPut             (* nobody waits: the value is counted up *)
  | SemWake (t : Z).   (* the first one gets it *)

Inductive sem_step (ins : Z → list Z → list Z) : Z * list Z → sem_action → Z * list Z → Prop :=
  | step_take v : 0 < v → sem_step ins (v, []) SemTake (v - 1, [])
  | step_busy ws : sem_step ins (0, ws) SemBusy (0, ws)
  | step_wait t ws : sem_step ins (0, ws) (SemWait t) (0, ins t ws)
  | step_put v : v + 1 < 2 ^ 16 → sem_step ins (v, []) SemPut (v + 1, [])
  | step_wake t ws : sem_step ins (0, t :: ws) (SemWake t) (0, ws).

Lemma sem_step_ok ins v ws a v' ws' :
  sem_ok v ws → sem_step ins (v, ws) a (v', ws') → sem_ok v' ws'.
Proof. intros [Hv Hw]. inversion_clear 1; split; try lia; auto. Qed.

(** The position of a new waiting thread in state [s]. *)
Definition sem_ins (s : kstate) (flag : Z) (t : Z) (ws : list Z) : list Z :=
  wait_insert flag (threads s) (prio_of (threads s) t) t ws.

Section refinement.
Context {cfg : RTConfig}.

(** C26: [rt_sem_take] called by a thread refines the counting semaphore.  It
    takes the semaphore when its value is positive; with no time to wait it
    fails with [-RT_ETIMEOUT] and changes nothing; otherwise the thread joins
    the waiting threads in the order of the semaphore's flag, its timer runs
    for exactly the given time, and the highest ready thread runs.  The kernel
    invariant and the interrupt mask are kept. *)
Theorem sem_take_refines (idle : Z) (s : kstate) (t sem v time flag : Z) (th : rt_thread)
    (ws : list Z) :
  kok idle s → caller idle s t th → sem_is s sem flag v ws → sem_ok v ws → time < half →
  ∃ a r s' v' ws', rt_sem_take sem time s = Ok r s' ∧
    sem_step (sem_ins s flag) (v, ws) a (v', ws') ∧ sem_is s' sem flag v' ws' ∧
    kok idle s' ∧ primask s' = primask s ∧
    ((a = SemTake ∧ r = Returned RT_EOK) ∨
     (a = SemBusy ∧ r = Returned (- RT_ETIMEOUT) ∧ time = 0) ∨
     (a = SemWait t ∧ r = Blocked (sem, t) ∧ time ≠ 0 ∧
      waits idle (QSuspend sem) t time ws' (th_set_error RT_EOK th) s s')).
Proof.
  intros Hk Hc (o & Ho & <- & <- & Hl & Hf) [Hv Hw] Hti.
  destruct (decide (0 < sem_value o)) as [Hp|Hp].
  - destruct Hw as [->|Hw]; [|lia].
    destruct (sem_take_available s sem o time Ho Hp) as [tr E].
    exists SemTake. do 4 eexists. split; [exact E|]. split; [by apply step_take|].
    split_and!; [|exact Hk|done|by left].
    eexists. split; [apply lookup_insert_eq|done].
  - assert (sem_value o = 0) as E0 by lia. rewrite E0. destruct (decide (time = 0)) as [->|Hz].
    + destruct (sem_take_no_wait s sem o Ho E0) as [tr E].
      exists SemBusy. do 4 eexists. split; [exact E|]. split; [apply step_busy|].
      split_and!; [|exact Hk|done|by auto]. by exists o.
    + destruct (sem_take_blocks idle s t th sem o time ws Hk Hc Ho E0 Hf Hl Hz Hti) as (s' & E & Hws).
      exists (SemWait t). do 4 eexists. split; [exact E|]. split; [apply step_wait|].
      replace (wait_insert (sem_flag o) (threads s) (th_current_priority th) t ws)
        with (sem_ins s (sem_flag o) t ws) in Hws
        by (unfold sem_ins, prio_of at 1; by rewrite (cl_thread _ _ _ _ Hc)).
      split_and!; [|apply Hws|apply Hws|do 2 right; by split_and!].
      exists o. rewrite (w_objs _ _ _ _ _ _ _ _ Hws). split_and!; try done. apply Hws.
Qed.

(** C29: [rt_sem_release] refines the counting semaphore.  When threads wait,
    the first of them becomes ready, its timer is stopped, the value stays 0
    and the highest ready thread runs; otherwise the value is counted up,
    provided it is not 65535. *)
Theorem sem_release_refines (idle : Z) (s : kstate) (sem flag v : Z) (ws : list Z) :
  kok idle s → sem_is s sem flag v ws → sem_ok v ws → v < 0xffff →
  ∃ a s' v' ws', rt_sem_release sem s = Ok RT_EOK s' ∧
    sem_step (sem_ins s flag) (v, ws) a (v', ws') ∧ sem_is s' sem flag v' ws' ∧
    kok idle s' ∧ primask s' = primask s ∧
    ((a = SemPut ∧ threads s' = threads s) ∨
     ∃ u th, a = SemWake u ∧ wakes idle (QSuspend sem) u ws' th s s' ∧ highest_runs s').
Proof.
  intros Hk (o & Ho & <- & <- & Hl & Hf) [Hv Hw] Hmax. destruct ws as [|u ws].
  - destruct (sem_release_counts s sem o Ho Hl) as [tr E].
    exists SemPut. do 3 eexists. split; [exact E|]. split; [apply step_put; lia|].
    split_and!; [|exact Hk|done|by left].
    eexists. split; [apply lookup_insert_eq|]. split_and!; try done.
    unfold sem_set_value, u16. cbn. rewrite wrap_small by lia. done.
  - destruct Hw as [?|Hw]; [done|]. rewrite Hw.
    destruct (sem_release_wakes idle s sem u ws Hk Hl) as (th & s' & E & Hws & Hh).
    exists (SemWake u). do 3 eexists. split; [exact E|]. split; [apply step_wake|].
    split_and!; [|apply Hws|apply Hws|right; by exists u, th].
    exists o. rewrite (k_objs _ _ _ _ _ _ _ Hws). split_and!; try done. apply Hws.
Qed.

End refinement.

(** ** Examples *)
Definition demo_sem (v flag : Z) : kobj := KSem (mk_sem (mk_object (replicate 8 0) 129 flag) v).

Lemma demo_caller os : caller 1 (demo [] os) 2 (demo_thread 2 RT_THREAD_READY 10).
Proof. by split. Qed.

Lemma sem_take_refines_witness :
  ∃ r s', rt_sem_take (cfg := gd32_config) 100 50 (demo [] [(100, demo_sem 0 RT_IPC_FLAG_PRIO)])
    = Ok r s' ∧ kok 1 s'.
Proof.
  destruct (sem_take_refines (cfg := gd32_config) 1
    (demo [] [(100, demo_sem 0 RT_IPC_FLAG_PRIO)]) 2 100 0 50
    RT_IPC_FLAG_PRIO (demo_thread 2 RT_THREAD_READY 10) [3; 5])
    as (a & r & s' & v' & ws' & E & _ & _ & Hk & _).
  - apply demo_ok.
  - apply demo_caller.
  - eexists. split; [reflexivity|]. split_and!; try reflexivity. by right.
  - split; [lia|by right].
  - reflexivity.
  - by exists r, s'.
Defined.

Lemma sem_release_refines_witness :
  ∃ s', rt_sem_release 100 (demo [] [(100, demo_sem 0 RT_IPC_FLAG_PRIO)])
    = Ok RT_EOK s' ∧ kok 1 s'.
Proof.
  destruct (sem_release_refines (cfg := gd32_config) 1
    (demo [] [(100, demo_sem 0 RT_IPC_FLAG_PRIO)]) 100 RT_IPC_FLAG_PRIO 0 [3; 5])
    as (a & s' & v' & ws' & E & _ & _ & Hk & _).
  - apply demo_ok.
  - eexists. split; [reflexivity|]. split_and!; try reflexivity. by right.
  - split; [lia|by right].
  - lia.
  - by exists s'.
Defined.
