(* ===== verification/Mutex.v ===== *)
(** * Mutexes ([rtthread/kernel/src/ipc.c], [rt_mutex_*])

    The operations with their priority inheritance, and their refinement of a
    recursive lock with a queue. *)

From S2P Require Import Prelude RtDef SortedList Mem KService Kernel Cpuport Scheduler.
From S2P Require Import Object Timer Invariant Thread Clock Ipc Demo.

(** ** Operations *)
Section ops.
Context {cfg : RTConfig}.

Definition put_mutex (p : Z) (o : rt_mutex) : K unit := put_obj p (KMutex o).
Definition upd_mutex (p : Z) (f : rt_mutex → rt_mutex) : K unit :=
  let! o := get_mutex p in put_mutex p (f o).
Definition mtx_flag (o : rt_mutex) : Z := obj_flag (mtx_parent o).

Definition mtx_set_hold (v : Z) (o : rt_mutex) : rt_mutex :=
  mk_mutex (mtx_parent o) (mtx_value o) (mtx_original_priority o) v (mtx_owner o).
Definition mtx_set_value (v : Z) (o : rt_mutex) : rt_mutex :=
  mk_mutex (mtx_parent o) v (mtx_original_priority o) (mtx_hold o) (mtx_owner o).
Definition mtx_set_owner (owner : option Z) (priority : Z) (o : rt_mutex) : rt_mutex :=
  mk_mutex (mtx_parent o) (mtx_value o) priority (mtx_hold o) owner.
(** [mutex->hold ++] and [mutex->hold --] on 8 bits. *)
Definition mtx_inc_hold (o : rt_mutex) : rt_mutex := mtx_set_hold (u8 (mtx_hold o + 1)) o.
Definition mtx_dec_hold (o : rt_mutex) : rt_mutex := mtx_set_hold (u8 (mtx_hold o - 1)) o.

Definition mutex_setup (mutex flag : Z) : K unit :=
  rt_ipc_object_init mutex ;;;
  upd_mutex mutex (λ o, mk_mutex (obj_set_flag flag (mtx_parent o)) 1 0xff 0 None).

Definition rt_mutex_init (mutex : Z) (name : list Z) (flag : Z) : K Z :=
  rt_object_init (OIpc mutex) RT_Object_Class_Mutex name ;;;
  mutex_setup mutex flag ;;;
  ret RT_EOK.

Definition rt_mutex_detach (mutex : Z) : K Z :=
  rt_ipc_list_resume_all (QSuspend mutex) ;;;
  rt_object_detach (OIpc mutex) ;;;
  ret RT_EOK.

Definition rt_mutex_create (name : list Z) (flag : Z) (raw_mutex : rt_mutex) : K (option Z) :=
  RT_DEBUG_NOT_IN_INTERRUPT ;;;
  let! o := rt_object_allocate RT_Object_Class_Mutex name (RawObj (KMutex raw_mutex)) in
  match o with
  | Some (OIpc mutex) => mutex_setup mutex flag ;;; ret (Some mutex)
  | _ => ret None
  end.

Definition rt_mutex_delete (mutex : Z) : K Z :=
  RT_DEBUG_NOT_IN_INTERRUPT ;;;
  rt_ipc_list_resume_all (QSuspend mutex) ;;;
  rt_object_delete (OIpc mutex) ;;;
  ret RT_EOK.

(** The owner gets the priority of a more important waiting thread. *)
Definition raise_owner (mutex thread : Z) : K unit :=
  let! o := get_mutex mutex in
  let! owner := from_option NullDeref (mtx_owner o) in
  let! th := get_thread thread in
  let! tho := get_thread owner in
  if th_current_priority th <? th_current_priority tho then
    rt_thread_control owner RT_THREAD_CTRL_CHANGE_PRIORITY (th_current_priority th) ;;;
    ret tt
  else ret tt.

Definition rt_mutex_take (mutex time : Z) : K (outcome Z (Z * Z)) :=
  RT_DEBUG_IN_THREAD_CONTEXT ;;;
  let! temp := rt_hw_interrupt_disable in
  let! thread := self in
  RT_OBJECT_HOOK_CALL rt_object_trytake_hook (arg_object (OIpc mutex)) ;;;
  upd_thread thread (th_set_error RT_EOK) ;;;
  let! o := get_mutex mutex in
  let! th := get_thread thread in
  let taken :=
    rt_hw_interrupt_enable temp ;;;
    RT_OBJECT_HOOK_CALL rt_object_take_hook (arg_object (OIpc mutex)) ;;;
    ret (Returned RT_EOK) in
  if bool_decide (mtx_owner o = Some thread) then
    put_mutex mutex (mtx_inc_hold o) ;;;
    taken
  else if 0 <? mtx_value o then
    put_mutex mutex (mtx_inc_hold (mtx_set_owner (Some thread) (th_current_priority th)
      (mtx_set_value (u16 (mtx_value o - 1)) o))) ;;;
    taken
  else if time =? 0 then
    upd_thread thread (th_set_error (- RT_ETIMEOUT)) ;;;
    rt_hw_interrupt_enable temp ;;;
    ret (Returned (- RT_ETIMEOUT))
  else
    raise_owner mutex thread ;;;
    ipc_wait (QSuspend mutex) thread (mtx_flag o) time ;;;
    rt_hw_interrupt_enable temp ;;;
    rt_schedule ;;;
    ret (Blocked (mutex, thread)).

(** After the [rt_schedule()] of a blocked take. *)
Definition rt_mutex_take_return (c : Z * Z) : K Z :=
  let '(mutex, thread) := c in
  let! th := get_thread thread in
  if negb (th_error th =? RT_EOK) then ret (th_error th)
  else
    let! temp := rt_hw_interrupt_disable in
    rt_hw_interrupt_enable temp ;;;
    RT_OBJECT_HOOK_CALL rt_object_take_hook (arg_object (OIpc mutex)) ;;;
    ret RT_EOK.

(** The owner gets its original priority back. *)
Definition restore_owner (mutex : Z) : K unit :=
  let! o := get_mutex mutex in
  let! owner := from_option NullDeref (mtx_owner o) in
  let! tho := get_thread owner in
  if negb (mtx_original_priority o =? th_current_priority tho) then
    rt_thread_control owner RT_THREAD_CTRL_CHANGE_PRIORITY (mtx_original_priority o) ;;;
    ret tt
  else ret tt.

(** The mutex goes to the first waiting thread, or becomes free.  The result
    is [need_schedule]. *)
Definition pass_mutex (mutex : Z) : K bool :=
  let! e := tl_isempty (QSuspend mutex) in
  if negb e then
    let! thread := tl_first (QSuspend mutex) in
    let! th := get_thread thread in
    upd_mutex mutex (λ o,
      mtx_inc_hold (mtx_set_owner (Some thread) (th_current_priority th) o)) ;;;
    rt_ipc_list_resume (QSuspend mutex) ;;;
    ret true
  else
    upd_mutex mutex (λ o, mtx_set_owner None 0xff (mtx_set_value (u16 (mtx_value o + 1)) o)) ;;;
    ret false.

Definition rt_mutex_release (mutex : Z) : K Z :=
  RT_DEBUG_IN_THREAD_CONTEXT ;;;
  let! thread := self in
  let! temp := rt_hw_interrupt_disable in
  RT_OBJECT_HOOK_CALL rt_object_put_hook (arg_object (OIpc mutex)) ;;;
  let! o := get_mutex mutex in
  if negb (bool_decide (mtx_owner o = Some thread)) then
    upd_thread thread (th_set_error (- RT_ERROR)) ;;;
    rt_hw_interrupt_enable temp ;;;
    ret (- RT_ERROR)
  else
    put_mutex mutex (mtx_dec_hold o) ;;;
    let! need_schedule :=
      (if mtx_hold (mtx_dec_hold o) =? 0 then
         restore_owner mutex ;;;
         pass_mutex mutex
       else ret false) in
    rt_hw_interrupt_enable temp ;;;
    (when need_schedule then rt_schedule) ;;;
    ret RT_EOK.

Definition rt_mutex_control (mutex cmd arg : Z) : K Z := ret (- RT_ERROR).

End ops.

(** ** What a mutex is *)
Definition mutex_is (s : kstate) (m flag : Z) (owner : option Z) (orig hold : Z) (ws : list Z)
    : Prop :=
  ∃ o, objs s !! m = Some (KMutex o) ∧ mtx_flag o = flag ∧ mtx_owner o = owner ∧
    mtx_original_priority o = orig ∧ mtx_hold o = hold ∧
    mtx_value o = (match owner with Some _ => 0 | None => 1 end) ∧
    tlists s !! QSuspend m = Some ws ∧
    (flag = RT_IPC_FLAG_FIFO ∨ flag = RT_IPC_FLAG_PRIO).

(** A free mutex is not held and nobody waits for it; an owner is a thread of
    the scheduler, other than the idle thread, that holds it at least once. *)
Definition mutex_ok (idle : Z) (s : kstate) (owner : option Z) (orig hold : Z) (ws : list Z)
    : Prop :=
  match owner with
  | None => hold = 0 ∧ ws = []
  | Some u => 0 < hold < 2 ^ 8 ∧ 0 ≤ orig < RT_THREAD_PRIORITY_MAX ∧ u ≠ idle ∧
      ∃ th, threads s !! u = Some th ∧ started th
  end.

Section runs.
Context {cfg : RTConfig} (idle : Z).

Lemma get_mutex_run s m o : objs s !! m = Some (KMutex o) → get_mutex m s = Ok o s.
Proof. intros Ho. unfold get_mutex. krun. by rewrite Ho. Qed.

(** The state in which [rt_mutex_take] looks at the mutex. *)
Definition take_entry (t m : Z) (th : rt_thread) (s : kstate) : kstate :=
  set_threads (<[t := th_set_error RT_EOK th]> (threads s))
    (set_trace (trace s ++ hook_events rt_object_trytake_hook (arg_object (OIpc m)) s)
       (set_primask 1 s)).

Lemma take_entry_kok s t m th : kok idle s → threads s !! t = Some th →
  kok idle (take_entry t m th s).
Proof. intros Hk Ht. by eapply ki_update. Qed.

Lemma raise_owner_run s t th m o u thu :
  kok idle s → objs s !! m = Some (KMutex o) → mtx_owner o = Some u →
  threads s !! t = Some th → prio_ok th → threads s !! u = Some thu → started thu → u ≠ idle →
  ∃ s', raise_owner m t s = Ok tt s' ∧ kok idle s' ∧
    reprioritized u (Z.min (th_current_priority th) (th_current_priority thu)) thu s s'.
Proof.
  intros Hk Ho Hu Ht [Hp _] Htu Hs Hi. unfold raise_owner.
  rewrite (bind_ok _ _ _ _ _ (get_mutex_run s m o Ho)). krun. rewrite Hu. krun.
  rewrite Ht. krun. rewrite Htu. krun.
  destruct (Z.ltb_spec (th_current_priority th) (th_current_priority thu)) as [Hlt|Hge].
  - destruct (set_priority_run idle _ _ s u thu (th_current_priority th) Hk Htu Hi Hp)
      as (s' & E & Hk' & Hr).
    rewrite E. exists s'. split; [done|]. rewrite Z.min_l by lia.
    rewrite (rp_tick _ _ _ _ _ Hr). done.
  - exists s. rewrite Z.min_r by lia. split_and!; [done..|]. apply reprioritized_refl; [done|].
    by eapply (sw_prio _ _ _ _ (ki_sched _ _ _ _ _ _ _ _ _ Hk)).
Qed.

Lemma mutex_take_again s t th m o time :
  caller idle s t th → objs s !! m = Some (KMutex o) → mtx_owner o = Some t →
  ∃ tr, rt_mutex_take m time s = Ok (Returned RT_EOK)
    (set_objs (<[m := KMutex (mtx_inc_hold o)]> (objs s))
      (set_threads (<[t := th_set_error RT_EOK th]> (threads s)) (set_trace tr s))).
Proof.
  intros Hc Ho Hw. unfold rt_mutex_take, upd_thread, put_mutex.
  rewrite (bind_ok _ _ _ _ _ (in_thread_run idle s t th Hc)). krun.
  rewrite (cl_self _ _ _ _ Hc). krun. rewrite (cl_thread _ _ _ _ Hc). krun.
  rewrite (get_mutex_run _ m o) by done. krun. rewrite lookup_insert_eq. krun.
  rewrite bool_decide_eq_true_2 by done. krun. by eexists.
Qed.

Lemma mutex_take_free s t th m o time :
  caller idle s t th → objs s !! m = Some (KMutex o) → mtx_owner o = None → 0 < mtx_value o →
  ∃ tr, rt_mutex_take m time s = Ok (Returned RT_EOK)
    (set_objs (<[m := KMutex (mtx_inc_hold (mtx_set_owner (Some t) (th_current_priority th)
        (mtx_set_value (u16 (mtx_value o - 1)) o)))]> (objs s))
      (set_threads (<[t := th_set_error RT_EOK th]> (threads s)) (set_trace tr s))).
Proof.
  intros Hc Ho Hw Hv. unfold rt_mutex_take, upd_thread, put_mutex.
  rewrite (bind_ok _ _ _ _ _ (in_thread_run idle s t th Hc)). krun.
  rewrite (cl_self _ _ _ _ Hc). krun. rewrite (cl_thread _ _ _ _ Hc). krun.
  rewrite (get_mutex_run _ m o) by done. krun. rewrite lookup_insert_eq. krun.
  rewrite bool_decide_eq_false_2 by (by rewrite Hw). krun.
  replace (0 <? mtx_value o) with true by lia. krun. by eexists.
Qed.

Lemma mutex_take_no_wait s t th m o u :
  caller idle s t th → objs s !! m = Some (KMutex o) → mtx_owner o = Some u → u ≠ t →
  mtx_value o = 0 →
  ∃ tr, rt_mutex_take m 0 s = Ok (Returned (- RT_ETIMEOUT))
    (set_threads (<[t := th_set_error (- RT_ETIMEOUT) th]> (threads s)) (set_trace tr s)).
Proof.
  intros Hc Ho Hw Hu Hv. unfold rt_mutex_take, upd_thread, put_mutex.
  rewrite (bind_ok _ _ _ _ _ (in_thread_run idle s t th Hc)). krun.
  rewrite (cl_self _ _ _ _ Hc). krun. rewrite (cl_thread _ _ _ _ Hc). krun.
  rewrite (get_mutex_run _ m o) by done. krun. rewrite lookup_insert_eq. krun.
  rewrite bool_decide_eq_false_2 by (rewrite Hw; congruence). krun. rewrite Hv.
  change (0 <? 0) with false. change (0 =? 0) with true. krun. rewrite lookup_insert_eq. krun.
  rewrite insert_insert_eq. 
  by exists (trace s ++ hook_events rt_object_trytake_hook (arg_object (OIpc m)) s).
Qed.

Lemma mutex_take_blocks s t th m o u thu time l :
  kok idle s → caller idle s t th → objs s !! m = Some (KMutex o) → mtx_owner o = Some u →
  u ≠ t → mtx_value o = 0 → threads s !! u = Some thu → started thu → u ≠ idle →
  mtx_flag o = RT_IPC_FLAG_FIFO ∨ mtx_flag o = RT_IPC_FLAG_PRIO →
  tlists s !! QSuspend m = Some l → time ≠ 0 → time < half →
  ∃ s2 s', rt_mutex_take m time s = Ok (Blocked (m, t)) s' ∧
    reprioritized u (Z.min (th_current_priority th) (th_current_priority thu)) thu
      (take_entry t m th s) s2 ∧
    waits idle (QSuspend m) t time
      (wait_insert (mtx_flag o) (threads s2) (th_current_priority th) t l)
      (th_set_error RT_EOK th) (set_primask (primask s) s2) s'.
Proof.
  intros Hk Hc Ho Hw Hu Hv Htu Hstu Hiu Hf Hl Hz Hti.
  set (s1 := take_entry t m th s). set (th1 := th_set_error RT_EOK th).
  pose proof (cl_thread _ _ _ _ Hc) as Ht.
  assert (kok idle s1) as Hk1 by by apply take_entry_kok.
  assert (threads s1 !! t = Some th1) as Ht1 by apply lookup_insert_eq.
  destruct (k_started idle ∅ _ _ s t th Hk Ht) as (Hpo & _ & (tm & Htm & _) & _);
    [set_solver|left; apply Hc|].
  destruct (raise_owner_run s1 t th1 m o u thu) as (s2 & E1 & Hk2 & Hr); try done.
  { cbn. by rewrite lookup_insert_ne. }
  assert (threads s2 !! t = Some th1) as Ht2 by by rewrite (rp_others _ _ _ _ _ Hr).
  assert (timers s2 !! ThreadTimer t = Some tm) as Htm2.
  { by destruct (rp_timers _ _ _ _ _ Hr) as (-> & _). }
  assert (tlists s2 !! QSuspend m = Some l) as Hl2 by by rewrite (rp_lists _ _ _ _ _ Hr).
  assert (th_stat th1 = RT_THREAD_READY) as Hs1 by apply Hc.
  assert (t ≠ idle) as Hi by apply Hc.
  pose proof (ipc_wait_run idle s2 t th1 tm (QSuspend m) (mtx_flag o) time l Hk2 Ht2 Hs1 Hi Htm2 I
    Hl2 Hf Hti) as E2.
  destruct (wait_done idle s2 t th1 tm (QSuspend m) time l
    (wait_insert (mtx_flag o) (threads s2) (th_current_priority th1) t l) (primask s)) as [E3 Hws];
    [done || by apply wait_insert_perm..|].
  exists s2. eexists. split; [|split; [exact Hr|exact Hws]].
  unfold rt_mutex_take, upd_thread.
  rewrite (bind_ok _ _ _ _ _ (in_thread_run idle s t th Hc)). krun.
  rewrite (cl_self _ _ _ _ Hc). krun. rewrite Ht. krun.
  match goal with |- context [get_mutex m ?x] => change x with s1 end.
  rewrite (get_mutex_run _ m o) by done. krun. rewrite Ht1. krun.
  rewrite bool_decide_eq_false_2 by (rewrite Hw; congruence). krun. rewrite Hv.
  change (0 <? 0) with false. replace (time =? 0) with false by lia. krun.
  rewrite E1. krun. rewrite E2. krun. by rewrite E3.
Qed.

Lemma restore_owner_run s t th m o :
  kok idle s → objs s !! m = Some (KMutex o) → mtx_owner o = Some t →
  threads s !! t = Some th → started th → t ≠ idle →
  0 ≤ mtx_original_priority o < RT_THREAD_PRIORITY_MAX →
  ∃ s', restore_owner m s = Ok tt s' ∧ kok idle s' ∧
    reprioritized t (mtx_original_priority o) th s s'.
Proof.
  intros Hk Ho Hw Ht Hs Hi Hp. unfold restore_owner.
  rewrite (bind_ok _ _ _ _ _ (get_mutex_run s m o Ho)). krun. rewrite Hw. krun. rewrite Ht. krun.
  destruct (Z.eqb_spec (mtx_original_priority o) (th_current_priority th)) as [E|Hne]; krun.
  - exists s. rewrite E. split_and!; [done..|]. apply reprioritized_refl; [done|].
    by eapply (sw_prio _ _ _ _ (ki_sched _ _ _ _ _ _ _ _ _ Hk)).
  - destruct (set_priority_run idle _ _ s t th (mtx_original_priority o) Hk Ht Hi Hp)
      as (s' & E & Hk' & Hr).
    rewrite E. exists s'. rewrite (rp_tick _ _ _ _ _ Hr). done.
Qed.

Definition free_mutex (o : rt_mutex) : rt_mutex :=
  mtx_set_owner None 0xff (mtx_set_value (u16 (mtx_value o + 1)) o).

Lemma pass_mutex_free s m o :
  objs s !! m = Some (KMutex o) → tlists s !! QSuspend m = Some [] →
  pass_mutex m s = Ok false (set_objs (<[m := KMutex (free_mutex o)]> (objs s)) s).
Proof.
  intros Ho Hl. unfold pass_mutex, tl_isempty, tl_get, upd_mutex, put_mutex. krun. rewrite Hl. krun.
  rewrite bool_decide_eq_true_2 by done. krun. by rewrite (get_mutex_run _ m o).
Qed.

Lemma pass_mutex_next s m o u l :
  kok idle s → objs s !! m = Some (KMutex o) → tlists s !! QSuspend m = Some (u :: l) →
  ∃ thu s', let o' := mtx_inc_hold (mtx_set_owner (Some u) (th_current_priority thu) o) in
    pass_mutex m s = Ok true s' ∧
    wakes idle (QSuspend m) u l thu (set_objs (<[m := KMutex o']> (objs s)) s) s'.
Proof.
  intros Hk Ho Hl.
  destruct (wake_run idle _ _ s (QSuspend m) u (u :: l) Hk I Hl) as (thu & _ & _ & Htu & _);
    [left|].
  set (o' := mtx_inc_hold (mtx_set_owner (Some u) (th_current_priority thu) o)).
  set (s1 := set_objs (<[m := KMutex o']> (objs s)) s).
  destruct (resume_first_run idle s1 (QSuspend m) u l) as (th & s' & E & Hw & _); [done..|].
  pose proof (k_was _ _ _ _ _ _ _ Hw) as [Ht' _].
  assert (th = thu) as -> by (change (threads s1) with (threads s) in Ht'; congruence).
  exists thu, s'. split; [|exact Hw].
  unfold pass_mutex, tl_isempty, tl_first, tl_get, upd_mutex, put_mutex. krun. rewrite Hl. krun.
  rewrite bool_decide_eq_false_2 by done. krun. rewrite Hl. krun. rewrite Htu. krun.
  rewrite (get_mutex_run _ m o) by done. krun. fold o'. fold s1. by rewrite E.
Qed.

(** The state in which [rt_mutex_release] has counted the hold down. *)
Definition release_entry (m : Z) (o : rt_mutex) (s : kstate) : kstate :=
  set_objs (<[m := KMutex (mtx_dec_hold o)]> (objs s))
    (set_trace (trace s ++ hook_events rt_object_put_hook (arg_object (OIpc m)) s)
       (set_primask 1 s)).

(** [rt_mutex_release] of a mutex held once, up to what becomes of it. *)
Lemma mutex_release_run s t th m o :
  kok idle s → caller idle s t th → objs s !! m = Some (KMutex o) → mtx_owner o = Some t →
  u8 (mtx_hold o - 1) = 0 → 0 ≤ mtx_original_priority o < RT_THREAD_PRIORITY_MAX →
  ∃ s2, kok idle s2 ∧ reprioritized t (mtx_original_priority o) th (release_entry m o s) s2 ∧
    rt_mutex_release m s = (let! need_schedule := pass_mutex m in
      rt_hw_interrupt_enable (primask s) ;;;
      (when need_schedule then rt_schedule) ;;; ret RT_EOK) s2.
Proof.
  intros Hk Hc Ho Hw Hh Hp. set (s1 := release_entry m o s).
  destruct (restore_owner_run s1 t th m (mtx_dec_hold o)) as (s2 & E & Hk2 & Hr); try done.
  { apply lookup_insert_eq. }
  { apply Hc. }
  { left. apply Hc. }
  { apply Hc. }
  exists s2. split_and!; [done..|].
  unfold rt_mutex_release, put_mutex.
  rewrite (bind_ok _ _ _ _ _ (in_thread_run idle s t th Hc)). krun.
  rewrite (cl_self _ _ _ _ Hc). krun.
  rewrite (get_mutex_run _ m o) by done. krun. rewrite bool_decide_eq_true_2 by done. krun.
  change (mtx_hold (mtx_dec_hold o)) with (u8 (mtx_hold o - 1)). rewrite Hh.
  change (0 =? 0) with true. krun.
  match goal with |- context [restore_owner m ?x] => change x with s1 end.
  rewrite E. done.
Qed.

Lemma mutex_release_held s t th m o :
  caller idle s t th → objs s !! m = Some (KMutex o) → mtx_owner o = Some t →
  u8 (mtx_hold o - 1) ≠ 0 →
  ∃ tr, rt_mutex_release m s = Ok RT_EOK
    (set_objs (<[m := KMutex (mtx_dec_hold o)]> (objs s)) (set_trace tr s)).
Proof.
  intros Hc Ho Hw Hh. unfold rt_mutex_release, put_mutex.
  rewrite (bind_ok _ _ _ _ _ (in_thread_run idle s t th Hc)). krun.
  rewrite (cl_self _ _ _ _ Hc). krun.
  rewrite (get_mutex_run _ m o) by done. krun. rewrite bool_decide_eq_true_2 by done. krun.
  change (mtx_hold (mtx_dec_hold o)) with (u8 (mtx_hold o - 1)).
  replace (u8 (mtx_hold o - 1) =? 0) with false by lia. krun.
  by exists (trace s ++ hook_events rt_object_put_hook (arg_object (OIpc m)) s).
Qed.

Lemma mutex_release_denied s t th m o :
  caller idle s t th → objs s !! m = Some (KMutex o) → mtx_owner o ≠ Some t →
  ∃ tr, rt_mutex_release m s = Ok (- RT_ERROR)
    (set_threads (<[t := th_set_error (- RT_ERROR) th]> (threads s)) (set_trace tr s)).
Proof.
  intros Hc Ho Hw. unfold rt_mutex_release, upd_thread.
  rewrite (bind_ok _ _ _ _ _ (in_thread_run idle s t th Hc)). krun.
  rewrite (cl_self _ _ _ _ Hc). krun.
  rewrite (get_mutex_run _ m o) by done. krun. rewrite bool_decide_eq_false_2 by done. krun. krun.
  rewrite (cl_thread _ _ _ _ Hc). krun.
  by exists (trace s ++ hook_events rt_object_put_hook (arg_object (OIpc m)) s).
Qed.
End runs.

(** ** The specification of a recursive lock

    A lock is its owner, how often the owner holds it, and the threads that
    wait for it. *)
Inductive mutex_action : Type :=
  | MLock (t : Z)        (* a free lock is taken *)
  | MRelock (t : Z)      (* the owner takes it again *)
  | MBusy                (* the taker does not wait *)
  | MWait (t : Z)        (* the taker waits *)
  | MUnlock (t : Z)      (* the owner still holds it *)
  | MFree (t : Z)        (* the lock becomes free *)
  | MPass (t u : Z)      (* the lock passes to the first waiting thread *)
  | MDeny.               (* a thread that is not the owner *)

Inductive mutex_step (ins : Z → list Z → list Z)
    : option Z * Z * list Z → mutex_action → option Z * Z * list Z → Prop :=
  | step_lock t : mutex_step ins (None, 0, []) (MLock t) (Some t, 1, [])
  | step_relock t h ws : h + 1 < 2 ^ 8 →
      mutex_step ins (Some t, h, ws) (MRelock t) (Some t, h + 1, ws)
  | step_mbusy u h ws : mutex_step ins (Some u, h, ws) MBusy (Some u, h, ws)
  | step_mwait t u h ws : u ≠ t →
      mutex_step ins (Some u, h, ws) (MWait t) (Some u, h, ins t ws)
  | step_unlock t h ws : 1 < h → mutex_step ins (Some t, h, ws) (MUnlock t) (Some t, h - 1, ws)
  | step_free t : mutex_step ins (Some t, 1, []) (MFree t) (None, 0, [])
  | step_pass t u ws : mutex_step ins (Some t, 1, u :: ws) (MPass t u) (Some u, 1, ws)
  | step_deny l : mutex_step ins l MDeny l.

(** The current priority of [t] in [s'] is [p]. *)
Definition has_priority (s' : kstate) (t p : Z) : Prop :=
  ∃ th, threads s' !! t = Some th ∧ th_current_priority th = p.

Section refinement.
Context {cfg : RTConfig}.

(** C27: [rt_mutex_take] refines the recursive lock: a free lock is taken, with
    the taker's priority saved; the owner may take it again; otherwise the
    call fails at once, or the thread joins the waiting threads and the owner
    runs at a priority at least as urgent as the waiting thread's (priority
    inheritance).  The kernel invariant and the interrupt mask are kept. *)
Theorem mutex_take_refines (idle : Z) (s : kstate) (t m flag orig hold time : Z) (th : rt_thread)
    (owner : option Z) (ws : list Z) :
  kok idle s → caller idle s t th → mutex_is s m flag owner orig hold ws →
  mutex_ok idle s owner orig hold ws → hold < 0xff → time < half →
  ∃ a r s' owner' orig' hold' ws', rt_mutex_take m time s = Ok r s' ∧
    mutex_step (wait_insert flag (threads s') (th_current_priority th))
      (owner, hold, ws) a (owner', hold', ws') ∧
    mutex_is s' m flag owner' orig' hold' ws' ∧ kok idle s' ∧ primask s' = primask s ∧
    ((a = MLock t ∧ r = Returned RT_EOK ∧ orig' = th_current_priority th) ∨
     (a = MRelock t ∧ r = Returned RT_EOK ∧ orig' = orig) ∨
     (a = MBusy ∧ r = Returned (- RT_ETIMEOUT) ∧ time = 0 ∧ orig' = orig) ∨
     (a = MWait t ∧ r = Blocked (m, t) ∧ time ≠ 0 ∧ orig' = orig ∧ highest_runs s' ∧
      threads s' !! t = Some (th_set_stat RT_THREAD_SUSPEND (th_set_error RT_EOK th)) ∧
      ∃ u thu, owner = Some u ∧ threads s !! u = Some thu ∧
        has_priority s' u (Z.min (th_current_priority th) (th_current_priority thu)))).
Proof.
  intros Hk Hc (o & Ho & <- & <- & <- & <- & Hv & Hl & Hf) Hok Hh Hti.
  destruct (mtx_owner o) as [u|] eqn:Hw.
  2:{ destruct Hok as [Hz ->]. destruct (mutex_take_free idle s t th m o time) as [tr E]; [done..|lia|].
    exists (MLock t). do 6 eexists. split; [exact E|].
    split; [rewrite Hz; apply step_lock|]. split_and!; [|apply (take_entry_kok idle s t m th); [done|apply Hc]|done|by left].
    eexists. split; [apply lookup_insert_eq|]. unfold mtx_inc_hold. cbn. rewrite Hz, Hv.
    by split_and!. }
  destruct Hok as (Hr & Ho8 & Hui & thu & Htu & Hsu).
  destruct (decide (u = t)) as [->|Hne].
  { destruct (mutex_take_again idle s t th m o time) as [tr E]; [done..|].
    exists (MRelock t). do 6 eexists. split; [exact E|].
    split; [apply step_relock; lia|]. split_and!; [|apply (take_entry_kok idle s t m th); [done|apply Hc]|done|by auto].
    eexists. split; [apply lookup_insert_eq|]. unfold mtx_inc_hold. cbn. rewrite Hw.
    split_and!; try done. apply wrap_small. lia. }
  destruct (decide (time = 0)) as [->|Hz].
  { destruct (mutex_take_no_wait idle s t th m o u) as [tr E]; [done..|].
    exists MBusy. do 6 eexists. split; [exact E|].
    split; [apply step_mbusy|]. split_and!; [| |done|by do 2 right; left].
    - exists o. rewrite Hw. by split_and!.
    - eapply ki_update; [exact Hk|apply Hc|done..]. }
  destruct (mutex_take_blocks idle s t th m o u thu time ws) as (s2 & s' & E & Hr2 & Hws); [done..|].
  exists (MWait t), (Blocked (m, t)), s', (Some u), (mtx_original_priority o), (mtx_hold o).
  assert (wait_insert (mtx_flag o) (threads s2) (th_current_priority th) t ws =
    wait_insert (mtx_flag o) (threads s') (th_current_priority th) t ws) as Hins.
  { apply wait_insert_prio. intros v. unfold prio_of. destruct (decide (v = t)) as [->|].
    - rewrite (w_thread _ _ _ _ _ _ _ _ Hws), (rp_others _ _ _ _ _ Hr2) by done.
      cbn. by rewrite lookup_insert_eq.
    - by rewrite (w_others _ _ _ _ _ _ _ _ Hws). }
  rewrite Hins in Hws.
  eexists. split; [exact E|]. split; [by apply step_mwait|].
  split_and!; [|apply Hws|exact (w_mask _ _ _ _ _ _ _ _ Hws)|].
  - exists o. rewrite (w_objs _ _ _ _ _ _ _ _ Hws), Hw. cbn. rewrite (rp_objs _ _ _ _ _ Hr2).
    split_and!; try done. apply Hws.
  - do 3 right. split_and!; try done; [apply Hws..|].
    exists u, thu. split_and!; [done..|]. eexists.
    rewrite (w_others _ _ _ _ _ _ _ _ Hws) by done. cbn. rewrite (rp_thread _ _ _ _ _ Hr2). done.
Qed.

(** C28: [rt_mutex_release] refines the recursive lock: only the owner releases
    it; at the last release the owner returns to the priority it had when it
    took the lock, and the lock becomes free or passes to the first waiting
    thread, which becomes ready and whose priority is saved; then the highest
    ready thread runs. *)
Theorem mutex_release_refines (idle : Z) (s : kstate) (t m flag orig hold : Z) (th : rt_thread)
    (owner : option Z) (ws : list Z) :
  kok idle s → caller idle s t th → mutex_is s m flag owner orig hold ws →
  mutex_ok idle s owner orig hold ws →
  ∃ a r s' owner' orig' hold' ws', rt_mutex_release m s = Ok r s' ∧
    mutex_step (wait_insert flag (threads s') (th_current_priority th))
      (owner, hold, ws) a (owner', hold', ws') ∧
    mutex_is s' m flag owner' orig' hold' ws' ∧ kok idle s' ∧ primask s' = primask s ∧
    ((a = MDeny ∧ r = - RT_ERROR ∧ owner ≠ Some t) ∨
     (a = MUnlock t ∧ r = RT_EOK ∧ orig' = orig) ∨
     (a = MFree t ∧ r = RT_EOK ∧ has_priority s' t orig) ∨
     (∃ u thu, a = MPass t u ∧ r = RT_EOK ∧ has_priority s' t orig ∧ highest_runs s' ∧
        threads s' !! u = Some (th_set_stat RT_THREAD_READY thu) ∧
        orig' = th_current_priority thu)).
Proof.
  intros Hk Hc (o & Ho & <- & <- & <- & <- & Hv & Hl & Hf) Hok.
  destruct (decide (mtx_owner o = Some t)) as [Hw|Hw].
  2:{ destruct (mutex_release_denied idle s t th m o) as [tr E]; [done..|].
    exists MDeny. do 6 eexists. split; [exact E|]. split; [apply step_deny|].
    split_and!; [by exists o| |done|by left].
    eapply ki_update; [exact Hk|apply Hc|done..]. }
  rewrite Hw in Hok, Hv |- *. destruct Hok as (Hr & Ho8 & _).
  assert (u8 (mtx_hold o - 1) = mtx_hold o - 1) as Hh by (apply wrap_small; lia).
  destruct (decide (mtx_hold o = 1)) as [H1|H1].
  2:{ destruct (mutex_release_held idle s t th m o) as [tr E]; [done..|lia|].
    exists (MUnlock t). do 6 eexists. split; [exact E|]. split; [apply step_unlock; lia|].
    split_and!; [|exact Hk|done|by auto].
    eexists. split; [apply lookup_insert_eq|]. unfold mtx_dec_hold. cbn. by rewrite Hh, Hw. }
  rewrite H1. destruct (mutex_release_run idle s t th m o) as (s2 & Hk2 & Hr2 & E); [done..|lia|done|].
  assert (objs s2 !! m = Some (KMutex (mtx_dec_hold o))) as Ho2.
  { rewrite (rp_objs _ _ _ _ _ Hr2). apply lookup_insert_eq. }
  assert (tlists s2 !! QSuspend m = Some ws) as Hl2 by by rewrite (rp_lists _ _ _ _ _ Hr2).
  assert (has_priority s2 t (mtx_original_priority o)) as Hp2.
  { eexists. rewrite (rp_thread _ _ _ _ _ Hr2). done. }
  destruct ws as [|u ws].
  - rewrite (bind_ok _ _ _ _ _ (pass_mutex_free s2 m _ Ho2 Hl2)) in E.
    exists (MFree t). do 6 eexists. split; [exact E|]. split; [apply step_free|].
    split_and!; [|exact Hk2|done|by do 2 right; left].
    eexists. split; [apply lookup_insert_eq|]. unfold free_mutex, mtx_dec_hold. cbn.
    rewrite Hh, Hv, H1. by split_and!.
  - destruct (pass_mutex_next idle s2 m _ u ws Hk2 Ho2 Hl2) as (thu & s3 & Ep & Hws).
    destruct (wakes_schedule idle _ _ _ _ _ s3 (primask s) Hws) as (Es & Hws' & Hrun).
    exists (MPass t u), RT_EOK, (schedule_state (set_primask (primask s) s3)), (Some u),
      (th_current_priority thu), 1, ws.
    pose proof (k_was _ _ _ _ _ _ _ Hws) as [Htu Hsu].
    split; [|split; [apply step_pass|split_and!; [|apply Hws'|done|]]].
    + rewrite E, (bind_ok _ _ _ _ _ Ep). krun. by rewrite Es.
    + eexists. rewrite (k_objs _ _ _ _ _ _ _ Hws'). split; [apply lookup_insert_eq|].
      unfold mtx_inc_hold, mtx_dec_hold. cbn. rewrite Hh, Hv, H1. split_and!; try done. apply Hws'.
    + do 3 right. exists u, thu. split_and!; try done; [|apply Hws'].
      assert (u ≠ t) as Hne.
      { intros ->. cbn in Htu. rewrite (rp_thread _ _ _ _ _ Hr2) in Htu. simplify_eq.
        cbn in Hsu. by rewrite (cl_ready _ _ _ _ Hc) in Hsu. }
      destruct Hp2 as (th' & Ht' & ?). exists th'. split; [|done].
      rewrite (k_others _ _ _ _ _ _ _ Hws') by done. exact Ht'.
Qed.
End refinement.

(** ** Examples *)
Definition demo_mutex (owner : option Z) (orig hold flag : Z) : kobj :=
  KMutex (mk_mutex (mk_object (replicate 8 0) 130 flag)
    (match owner with Some _ => 0 | None => 1 end) orig hold owner).

(** Thread 2 asks for a mutex of thread 5, which has priority 20: the owner is
    raised to priority 10. *)
Definition demo_waits : kstate := demo [(QSuspend 101, [])] [(101, demo_mutex (Some 5) 20 1 0)].
Lemma demo_waits_ok : kok 1 demo_waits.
Proof. apply kinv_check_spec. vm_compute. reflexivity. Qed.

Lemma mutex_take_refines_witness :
  ∃ r s', rt_mutex_take (cfg := gd32_config) 101 (-1) demo_waits = Ok r s' ∧ kok 1 s'.
Proof.
  destruct (mutex_take_refines (cfg := gd32_config) 1 demo_waits 2 101 0 20 1 (-1)
    (demo_thread 2 RT_THREAD_READY 10) (Some 5) []) as (a & r & s' & ? & ? & ? & ? & E & _ & _ & Hk & _).
  - apply demo_waits_ok.
  - by split.
  - eexists. split; [reflexivity|]. split_and!; try reflexivity. by left.
  - split_and!; try done. exists (demo_thread 5 RT_THREAD_SUSPEND 20). split; [reflexivity|by right].
  - lia.
  - reflexivity.
  - by exists r, s'.
Defined.

(** Thread 2, raised from priority 15, releases a mutex that 3 and 5 wait for. *)
Definition demo_owner : kstate := demo [] [(100, demo_mutex (Some 2) 15 1 1)].

Lemma mutex_release_refines_witness :
  ∃ r s', rt_mutex_release (cfg := gd32_config) 100 demo_owner = Ok r s' ∧ kok 1 s'.
Proof.
  destruct (mutex_release_refines (cfg := gd32_config) 1 demo_owner 2 100 1 15 1
    (demo_thread 2 RT_THREAD_READY 10) (Some 2) [3; 5])
    as (a & r & s' & ? & ? & ? & ? & E & _ & _ & Hk & _).
  - apply demo_ok.
  - by split.
  - eexists. split; [reflexivity|]. split_and!; try reflexivity. by right.
  - split_and!; try done. exists (demo_thread 2 RT_THREAD_READY 10). split; [reflexivity|by left].
  - by exists r, s'.
Defined.
