(* ===== verification/System.v ===== *)
(** * Threads, interrupts and their interleavings

    A system of threads that share semaphores and mutexes: the running thread
    makes a kernel call or goes on after one that blocked, and the clock
    interrupt comes between any two of these steps.  A step is one call of the
    kernel, so an interrupt inside a call, where the code enables interrupts,
    is not considered.

    The theorems are about every interleaving: no legal step faults, at most
    one thread is between taking and releasing a mutex, no more threads pass a
    semaphore than it has units, and the running thread is of the highest
    ready priority. *)

From S2P Require Import Prelude RtDef SortedList Mem KService Kernel Cpuport Scheduler.
From S2P Require Import Object Timer Invariant Thread Clock Ipc Demo KernelSpec Semaphore Mutex.

(** ** Steps *)

(** Where a thread goes on when it runs again. *)
Inductive cont : Type :=
  | InSemTake (c : Z * Z)
  | InMutexTake (c : Z * Z)
  | InSleep (t : Z).

#[export] Instance cont_eq_dec : EqDecision cont.
Proof. solve_decision. Defined.

(** The kernel, the calls that have not returned yet by their threads, and what
    the threads have seen so far: how often each holds each mutex, and how often
    each semaphore was taken and released. *)
Record system := mk_system {
  kern : kstate;
  pend : gmap Z cont;
  held : gmap (Z * Z) Z;
  passed : gmap Z Z;
  posted : gmap Z Z
}.

Inductive act : Type :=
  | ATick
  | AYield
  | ASleep (tick : Z)
  | ASemTake (sem time : Z)
  | ASemRelease (sem : Z)
  | AMutexTake (mutex time : Z)
  | AMutexRelease (mutex : Z)
  | AReturn.

Definition tally {A} `{Countable A} (k : A) (m : gmap A Z) : Z := default 0 (m !! k).
Definition add {A} `{Countable A} (k : A) (d : Z) (m : gmap A Z) : gmap A Z :=
  <[k := tally k m + d]> m.

Definition lift {A} (c : K A) : M system A := λ σ,
  match c (kern σ) with
  | Ok a s => Ok a (mk_system s (pend σ) (held σ) (passed σ) (posted σ))
  | Fault f => Fault f
  end.
Definition set_pend (f : gmap Z cont → gmap Z cont) : M system unit :=
  modify (λ σ, mk_system (kern σ) (f (pend σ)) (held σ) (passed σ) (posted σ)).
Definition add_held (t m d : Z) : M system unit :=
  modify (λ σ, mk_system (kern σ) (pend σ) (add (t, m) d (held σ)) (passed σ) (posted σ)).
Definition add_passed (sem : Z) : M system unit :=
  modify (λ σ, mk_system (kern σ) (pend σ) (held σ) (add sem 1 (passed σ)) (posted σ)).
Definition add_posted (sem : Z) : M system unit :=
  modify (λ σ, mk_system (kern σ) (pend σ) (held σ) (passed σ) (add sem 1 (posted σ))).

Section steps.
Context {cfg : RTConfig}.

Definition go_on (t : Z) (c : cont) : M system unit :=
  set_pend (delete t) ;;;
  match c with
  | InSemTake c => let! r := lift (rt_sem_take_return c) in when r =? RT_EOK then add_passed (fst c)
  | InMutexTake c =>
    let! r := lift (rt_mutex_take_return c) in when r =? RT_EOK then add_held t (fst c) 1
  | InSleep u => lift (rt_thread_sleep_return u) ;;; ret tt
  end.

Definition step (a : act) : M system unit :=
  match a with
  | ATick => lift SysTick_Handler
  | AYield => lift rt_thread_yield ;;; ret tt
  | ASleep tick =>
    let! t := lift self in
    let! u := lift (rt_thread_sleep tick) in set_pend (insert t (InSleep u))
  | ASemTake sem time =>
    let! t := lift self in
    let! r := lift (rt_sem_take sem time) in
    match r with
    | Returned r => when r =? RT_EOK then add_passed sem
    | Blocked c => set_pend (insert t (InSemTake c))
    end
  | ASemRelease sem => lift (rt_sem_release sem) ;;; add_posted sem
  | AMutexTake mutex time =>
    let! t := lift self in
    let! r := lift (rt_mutex_take mutex time) in
    match r with
    | Returned r => when r =? RT_EOK then add_held t mutex 1
    | Blocked c => set_pend (insert t (InMutexTake c))
    end
  | AMutexRelease mutex =>
    let! t := lift self in
    let! r := lift (rt_mutex_release mutex) in
    when r =? RT_EOK then add_held t mutex (-1)
  | AReturn =>
    let! t := lift self in
    let! p := gets (λ σ, pend σ !! t) in
    let! c := from_option BadList p in
    go_on t c
  end.

(** Steps that the threads may make: one that is in a call returns from it
    first; a call is on an object of its kind; the idle thread, which has to be
    ready, does not block; a limit of time is below half of the ticks; and a
    count does not exceed its width. *)
Definition legal (idle : Z) (σ : system) (a : act) : Prop :=
  ∃ t, rt_current_thread (kern σ) = Some t ∧
  match a with
  | ATick => True
  | AYield => pend σ !! t = None
  | ASleep tick => pend σ !! t = None ∧ t ≠ idle ∧ 0 ≤ tick < half
  | ASemTake sem time =>
    pend σ !! t = None ∧ t ≠ idle ∧ time < half ∧ ∃ o, objs (kern σ) !! sem = Some (KSem o)
  | ASemRelease sem =>
    pend σ !! t = None ∧ ∃ o, objs (kern σ) !! sem = Some (KSem o) ∧ sem_value o < 0xffff
  | AMutexTake mutex time =>
    pend σ !! t = None ∧ t ≠ idle ∧ time < half ∧
    ∃ o, objs (kern σ) !! mutex = Some (KMutex o) ∧ mtx_hold o < 0xff
  | AMutexRelease mutex =>
    pend σ !! t = None ∧ t ≠ idle ∧ ∃ o, objs (kern σ) !! mutex = Some (KMutex o)
  | AReturn => is_Some (pend σ !! t)
  end.

(** The states that legal steps lead to. *)
Inductive reachable (idle : Z) (σ0 : system) : system → Prop :=
  | reach_start : reachable idle σ0 σ0
  | reach_step σ a σ' :
      reachable idle σ0 σ → legal idle σ a → step a σ = Ok tt σ' → reachable idle σ0 σ'.

End steps.

(** ** The invariant *)

(** The thread is resumed, with the error [e]. *)
Definition resumed (s : kstate) (u e : Z) : Prop :=
  ∃ th, threads s !! u = Some th ∧ th_stat th = RT_THREAD_READY ∧ th_error th = e.
(** It waits in the list of an object, or was resumed: it got the object or its
    time is over. *)
Definition waiting (s : kstate) (p u : Z) : Prop :=
  linked (tlists s) (QSuspend p) u ∧
  ∃ th, threads s !! u = Some th ∧ th_error th = RT_EOK.
Definition in_call (s : kstate) (p u : Z) : Prop :=
  waiting s p u ∨ resumed s u RT_EOK ∨ resumed s u (- RT_ETIMEOUT).

Definition cont_ok (s : kstate) (u : Z) (c : cont) : Prop :=
  match c with
  | InSemTake (p, t) => t = u ∧ in_call s p u ∧ ∃ o, objs s !! p = Some (KSem o)
  | InMutexTake (p, t) => t = u ∧ in_call s p u ∧
      ∃ o, objs s !! p = Some (KMutex o) ∧ (mtx_owner o = Some u ↔ resumed s u RT_EOK)
  | InSleep t => t = u ∧ is_Some (threads s !! u)
  end.

Section invariant.
Context (idle : Z) (v0 : Z → Z).

Definition sem_inv (pd : gmap Z cont) (s : kstate) (p : Z) (o : rt_semaphore) : Prop :=
  ∃ ws, sem_is s p (sem_flag o) (sem_value o) ws ∧ sem_ok (sem_value o) ws ∧
    ∀ u, u ∈ ws → pd !! u = Some (InSemTake (p, u)).
Definition mutex_inv (pd : gmap Z cont) (s : kstate) (p : Z) (o : rt_mutex) : Prop :=
  ∃ ws, mutex_is s p (mtx_flag o) (mtx_owner o) (mtx_original_priority o) (mtx_hold o) ws ∧
    mutex_ok idle s (mtx_owner o) (mtx_original_priority o) (mtx_hold o) ws ∧
    ∀ u, u ∈ ws → pd !! u = Some (InMutexTake (p, u)).

(** How often a thread is between taking and releasing a mutex: the owner's
    holds, but for the one that a call has not returned with. *)
Definition holds (pd : gmap Z cont) (s : kstate) (t p : Z) : Z :=
  match objs s !! p with
  | Some (KMutex o) =>
    if decide (mtx_owner o = Some t)
    then mtx_hold o - (if decide (pd !! t = Some (InMutexTake (p, t))) then 1 else 0) else 0
  | _ => 0
  end.

(** [gr]: the threads that were given a semaphore and have not returned yet.
    [h] says whether the scheduler has seen all changes. *)
Record sys_inv (n : Z) (h : bool) (pd : gmap Z cont) (hd : gmap (Z * Z) Z) (ps po gr : gmap Z Z)
    (s : kstate) : Prop := {
  si_run : running_ready s;
  si_lock : rt_scheduler_lock_nest s = 0;
  si_nest : rt_interrupt_nest s = n;
  si_high : h = true → highest_runs s;
  si_sem : ∀ p o, objs s !! p = Some (KSem o) → sem_inv pd s p o;
  si_mutex : ∀ p o, objs s !! p = Some (KMutex o) → mutex_inv pd s p o;
  si_cont : ∀ u c, pd !! u = Some c → cont_ok s u c;
  si_held : ∀ t p, tally (t, p) hd = holds pd s t p;
  si_given : ∀ u p, gr !! u = Some p ↔ pd !! u = Some (InSemTake (p, u)) ∧ resumed s u RT_EOK;
  si_count : ∀ p o, objs s !! p = Some (KSem o) →
    tally p ps + sem_value o + Z.of_nat (size (filter (λ x, x.2 = p) gr)) = v0 p + tally p po
}.
End invariant.

(** The invariant between two steps. *)
Definition sys_ok (idle : Z) (v0 : Z → Z) (h : bool) (σ : system) : Prop :=
  kok idle (kern σ) ∧
  ∃ gr, sys_inv idle v0 0 h (pend σ) (held σ) (passed σ) (posted σ) gr (kern σ).

(** ** Frames *)

(** From [s] to [s'] the thread [u] stays as it is for the waiting calls. *)
Record same_call (s s' : kstate) (u : Z) : Prop := {
  sc_thread : ∀ th, threads s !! u = Some th → ∃ th', threads s' !! u = Some th' ∧
    th_stat th' = th_stat th ∧ th_error th' = th_error th;
  sc_queue : ∀ p, linked (tlists s) (QSuspend p) u → linked (tlists s') (QSuspend p) u
}.

(** Objects keep their kinds, and whether [u] owns them. *)
Definition same_owner (s s' : kstate) (u : Z) : Prop :=
  ∀ p, match objs s !! p with
       | Some (KSem _) => ∃ o', objs s' !! p = Some (KSem o')
       | Some (KMutex o) => ∃ o', objs s' !! p = Some (KMutex o') ∧
           (mtx_owner o' = Some u ↔ mtx_owner o = Some u)
       | _ => True
       end.

Lemma resumed_same s s' u e : same_call s s' u → resumed s u e → resumed s' u e.
Proof.
  intros Hs (th & Ht & Hst & He). destruct (sc_thread _ _ _ Hs th Ht) as (th' & ? & ? & ?).
  exists th'. split_and!; congruence.
Qed.
Lemma resumed_back s s' u e : same_call s s' u → is_Some (threads s !! u) →
  resumed s' u e → resumed s u e.
Proof.
  intros Hs [th Ht] (th1 & Ht1 & Hst & He). destruct (sc_thread _ _ _ Hs th Ht) as (th' & ? & ? & ?).
  exists th. split_and!; congruence.
Qed.
Lemma waiting_same s s' p u : same_call s s' u → waiting s p u → waiting s' p u.
Proof.
  intros Hs (Hl & th & Ht & He). split; [by apply (sc_queue _ _ _ Hs)|].
  destruct (sc_thread _ _ _ Hs th Ht) as (th' & ? & ? & ?). exists th'. split; congruence.
Qed.
Lemma in_call_same s s' p u : same_call s s' u → in_call s p u → in_call s' p u.
Proof.
  intros Hs [?|[?|?]]; [left; by eapply waiting_same|right; left|do 2 right]; by eapply resumed_same.
Qed.
Lemma in_call_thread s p u : in_call s p u → is_Some (threads s !! u).
Proof. intros [(_ & th & ? & _)|[(th & ? & _)|(th & ? & _)]]; by exists th. Qed.

Lemma cont_ok_thread s u c : cont_ok s u c → is_Some (threads s !! u).
Proof.
  destruct c as [[p t]|[p t]|t]; cbn; [intros (_ & ? & _)|intros (_ & ? & _)|by intros [_ ?]];
    by eapply in_call_thread.
Qed.

Lemma cont_ok_same s s' u c :
  same_call s s' u → same_owner s s' u → cont_ok s u c → cont_ok s' u c.
Proof.
  intros Hs Ho. destruct c as [[p t]|[p t]|t]; cbn.
  - intros (-> & Hi & o & Hp). split_and!; [done|by eapply in_call_same|].
    specialize (Ho p). by rewrite Hp in Ho.
  - intros (-> & Hi & o & Hp & Hw). split_and!; [done|by eapply in_call_same|].
    specialize (Ho p). rewrite Hp in Ho. destruct Ho as (o' & Hp' & Ho). exists o'. split; [done|].
    rewrite Ho, Hw. split; [by eapply resumed_same|].
    eapply resumed_back; [done|by eapply in_call_thread].
  - intros [-> [th Ht]]. destruct (sc_thread _ _ _ Hs th Ht) as (th' & ? & _). split; [done|by exists th'].
Qed.

Lemma holds_same pd pd' s s' t p :
  objs s' !! p = objs s !! p →
  (pd !! t = Some (InMutexTake (p, t)) ↔ pd' !! t = Some (InMutexTake (p, t))) →
  holds pd' s' t p = holds pd s t p.
Proof.
  intros Eo Hpd. unfold holds. rewrite Eo. destruct (objs s !! p) as [[]|]; try done.
  case_decide; [|done]. destruct (decide (pd !! t = _)), (decide (pd' !! t = _)); tauto.
Qed.

(** ** The parts of the invariant under a change of the state *)
Section parts.
Context (idle : Z) (v0 : Z → Z).

(** Started threads stay so. *)
Definition keeps_started (s s' : kstate) : Prop := ∀ u th,
  threads s !! u = Some th → started th → ∃ th', threads s' !! u = Some th' ∧ started th'.

Lemma sem_inv_same (pd pd' : gmap Z cont) s s' p o :
  sem_inv pd s p o → objs s' !! p = objs s !! p →
  tlists s' !! QSuspend p = tlists s !! QSuspend p →
  (∀ u, pd !! u = Some (InSemTake (p, u)) → pd' !! u = Some (InSemTake (p, u))) →
  sem_inv pd' s' p o.
Proof.
  intros (ws & (o' & Ho & ? & ? & Hl & ?) & Hok & Hw) Eo El Hpd.
  exists ws. split_and!; [|done|auto]. exists o'. rewrite Eo, El. by split_and!.
Qed.

Lemma mutex_ok_started s s' owner orig hold ws :
  keeps_started s s' → mutex_ok idle s owner orig hold ws → mutex_ok idle s' owner orig hold ws.
Proof.
  intros Hs. destruct owner as [u|]; [|done]. intros (? & ? & ? & th & Ht & Hst).
  cbn. split_and!; [lia..|done|]. by eapply Hs.
Qed.

Lemma mutex_inv_same (pd pd' : gmap Z cont) s s' p o :
  mutex_inv idle pd s p o → objs s' !! p = objs s !! p →
  tlists s' !! QSuspend p = tlists s !! QSuspend p → keeps_started s s' →
  (∀ u, pd !! u = Some (InMutexTake (p, u)) → pd' !! u = Some (InMutexTake (p, u))) →
  mutex_inv idle pd' s' p o.
Proof.
  intros (ws & (o' & Ho & ? & ? & ? & ? & ? & Hl & ?) & Hok & Hw) Eo El Hs Hpd.
  exists ws. split_and!; [|by eapply mutex_ok_started|auto]. exists o'. rewrite Eo, El. by split_and!.
Qed.

(** The threads that are not in a call change, or time out of the lists. *)
Lemma sys_inv_frame n h h' pd hd ps po gr s s' :
  sys_inv idle v0 n h pd hd ps po gr s →
  running_ready s' →
  rt_scheduler_lock_nest s' = 0 → (h' = true → highest_runs s') →
  objs s' = objs s → keeps_started s s' →
  (∀ p l, tlists s !! QSuspend p = Some l → ∃ l', tlists s' !! QSuspend p = Some l' ∧ l' ⊆ l) →
  (∀ u c, pd !! u = Some c → cont_ok s u c → cont_ok s' u c) →
  (∀ u, is_Some (pd !! u) → resumed s' u RT_EOK ↔ resumed s u RT_EOK) →
  sys_inv idle v0 (rt_interrupt_nest s') h' pd hd ps po gr s'.
Proof.
  intros Hi Hrun Hlock Hh Eo Hst Hl Hc Hr.
  split; try done; rewrite ?Eo.
  - intros p o Hp. destruct (si_sem _ _ _ _ _ _ _ _ _ _ Hi p o Hp) as (ws & (o' & Ho & ? & ? & Hws & ?) & [? Hok] & Hw).
    destruct (Hl _ _ Hws) as (l' & Hl' & Hsub). exists l'. split_and!.
    + exists o'. by rewrite Eo.
    + split; [done|]. destruct Hok as [->|]; [|by right]. left. by apply list_nil_subseteq.
    + intros u Hu. apply Hw. by apply Hsub.
  - intros p o Hp. destruct (si_mutex _ _ _ _ _ _ _ _ _ _ Hi p o Hp)
      as (ws & (o' & Ho & ? & ? & ? & ? & ? & Hws & ?) & Hok & Hw).
    destruct (Hl _ _ Hws) as (l' & Hl' & Hsub). exists l'. split_and!.
    + exists o'. by rewrite Eo.
    + apply (mutex_ok_started s s') in Hok; [|done]. destruct (mtx_owner o); [done|].
      destruct Hok as [? ->]. split; [done|]. by apply list_nil_subseteq.
    + intros u Hu. apply Hw. by apply Hsub.
  - intros u c Hp. apply Hc; [done|]. by eapply (si_cont _ _ _ _ _ _ _ _ _ _ Hi).
  - intros t p. rewrite (si_held _ _ _ _ _ _ _ _ _ _ Hi). symmetry. by apply holds_same; rewrite ?Eo.
  - intros u p. rewrite (si_given _ _ _ _ _ _ _ _ _ _ Hi). split; intros [Hp ?]; (split; [done|]);
      by apply Hr; try (by eexists).
  - apply Hi.
Qed.

(** What the invariant reads of the kernel state. *)
Definition same_sys (s s' : kstate) : Prop :=
  rt_current_thread s' = rt_current_thread s ∧ threads s' = threads s ∧
  tlists s' = tlists s ∧ objs s' = objs s ∧
  rt_thread_ready_priority_group s' = rt_thread_ready_priority_group s ∧
  rt_scheduler_lock_nest s' = rt_scheduler_lock_nest s.

Lemma highest_runs_same s s' : same_sys s s' → highest_runs s → highest_runs s'.
Proof.
  intros (Ec & _ & El & _ & Eg & En) H. unfold highest_runs in *. by rewrite Ec, El, Eg, En.
Qed.

Lemma resumed_threads s s' u e : threads s' = threads s → resumed s' u e ↔ resumed s u e.
Proof. intros E. unfold resumed. by rewrite E. Qed.

Lemma same_call_eq s s' u : threads s' !! u = threads s !! u →
  (∀ p, tlists s' !! QSuspend p = tlists s !! QSuspend p) → same_call s s' u.
Proof.
  intros Et El. split.
  - intros th Ht. exists th. by rewrite Et.
  - intros p (l & Hl & Hu). exists l. by rewrite El.
Qed.

Lemma same_owner_eq s s' u : objs s' = objs s → same_owner s s' u.
Proof. intros Eo p. rewrite Eo. destruct (objs s !! p) as [[]|]; by eauto. Qed.

Lemma keeps_started_eq s s' : threads s' = threads s → keeps_started s s'.
Proof. intros E u th Ht Hs. exists th. by rewrite E. Qed.

Lemma sys_inv_same n h pd hd ps po gr s s' :
  same_sys s s' → sys_inv idle v0 n h pd hd ps po gr s →
  sys_inv idle v0 (rt_interrupt_nest s') h pd hd ps po gr s'.
Proof.
  intros Hs Hi. pose proof Hs as (Ec & Et & El & Eo & Eg & En). eapply sys_inv_frame; [exact Hi|..].
  - unfold running_ready. rewrite Ec, Et. apply Hi.
  - rewrite En. apply Hi.
  - intros Hh. eapply highest_runs_same; [done|]. by apply Hi.
  - done.
  - by apply keeps_started_eq.
  - intros p l Hl. exists l. by rewrite El.
  - intros u c _. apply cont_ok_same; [|by apply same_owner_eq].
    apply same_call_eq; [by rewrite Et|by intros p; rewrite El].
  - intros u _. by apply resumed_threads.
Qed.

(** The lists stay, and the threads in a call keep their state and error. *)
Definition same_state (s s' : kstate) (u : Z) : Prop := ∀ th, threads s !! u = Some th →
  ∃ th', threads s' !! u = Some th' ∧ th_stat th' = th_stat th ∧ th_error th' = th_error th.

Lemma sys_inv_calm n h h' pd hd ps po gr s s' :
  sys_inv idle v0 n h pd hd ps po gr s →
  running_ready s' → rt_scheduler_lock_nest s' = 0 → (h' = true → highest_runs s') →
  objs s' = objs s → keeps_started s s' →
  (∀ p, tlists s' !! QSuspend p = tlists s !! QSuspend p) →
  (∀ u, is_Some (pd !! u) → same_state s s' u) →
  sys_inv idle v0 (rt_interrupt_nest s') h' pd hd ps po gr s'.
Proof.
  intros Hi Hrun Hlock Hh Eo Hst El Hs.
  assert (∀ u, is_Some (pd !! u) → same_call s s' u) as Hc.
  { intros u Hu. split; [by apply Hs|]. intros p (l & Hl & Hin). exists l. by rewrite El. }
  eapply sys_inv_frame; [exact Hi|done..| | |].
  - intros p l Hl. exists l. by rewrite El.
  - intros u c Hu. apply cont_ok_same; [apply Hc; by eexists|by apply same_owner_eq].
  - intros u Hu. split; [|by apply resumed_same, Hc].
    apply resumed_back; [by apply Hc|]. destruct Hu as [c Hu].
    eapply cont_ok_thread. by eapply (si_cont _ _ _ _ _ _ _ _ _ _ Hi).
Qed.
End parts.

(** ** The clock interrupt *)
Section tick.
Context {cfg : RTConfig} (idle : Z) (v0 : Z → Z).

(** A waiting or sleeping thread times out. *)
Lemma sys_timeout b W n h pd hd ps po gr s t th l :
  kwf idle ∅ b W (timeout_state t th l s) →
  sys_inv idle v0 n h pd hd ps po gr s → threads s !! t = Some th →
  th_stat th = RT_THREAD_SUSPEND → highest_runs (timeout_state t th l s) →
  sys_inv idle v0 (rt_interrupt_nest (timeout_state t th l s)) h pd hd ps po gr
    (timeout_state t th l s).
Proof.
  intros Hk Hi Ht Hs Hh. set (s' := timeout_state t th l s) in *.
  assert (threads s' !! t = Some (timed_out th)) as Ht' by apply lookup_insert_eq.
  assert (∀ u, u ≠ t → threads s' !! u = threads s !! u) as Hne.
  { intros u Hu. cbn. by rewrite lookup_insert_ne. }
  assert (∀ p, tlists s' !! QSuspend p = filter (λ x, x ≠ t) <$> tlists s !! QSuspend p) as Hq.
  { intros p. cbn. rewrite lookup_insert_ne by done. apply tl_remove_lookup. }
  assert (∀ u, u ≠ t → same_call s s' u) as Hsame.
  { intros u Hu. split.
    - intros th' Htu. exists th'. by rewrite Hne.
    - intros p (l' & Hl' & Hin). eexists. rewrite Hq, Hl'. split; [done|]. by apply list_elem_of_filter. }
  assert (rt_scheduler_lock_nest s' = 0) as Hlock by apply Hi.
  eapply sys_inv_frame; [exact Hi|by eapply highest_running_ready|done|done|done|..].
  - intros u thu Hu Hsu. destruct (decide (u = t)) as [->|]; [|exists thu; by rewrite Hne].
    exists (timed_out th). split; [done|by left].
  - intros p l' Hl'. eexists. rewrite Hq, Hl'. split; [done|]. apply list_subseteq_filter.
  - intros u c Hu Hc. destruct (decide (u = t)) as [->|]; [|by apply (cont_ok_same s); [auto|apply same_owner_eq|]].
    assert (¬ resumed s t RT_EOK) as Hn by (intros (th' & ? & Hst & _); simplify_eq; by rewrite Hs in Hst).
    assert (¬ resumed s' t RT_EOK) as Hn' by (intros (th' & ? & ? & ?); by simplify_eq).
    assert (∀ p, in_call s' p t) as Hin by (intros p; do 2 right; by exists (timed_out th)).
    destruct c as [[p v]|[p v]|v]; cbn in *.
    + destruct Hc as (-> & _ & ?). by split_and!.
    + destruct Hc as (-> & _ & o & ? & Hw). split_and!; [done..|]. exists o. split; [done|]. tauto.
    + destruct Hc as [-> _]. by split.
  - intros u Hu. destruct (decide (u = t)) as [->|Hne'].
    + split; intros (th' & E & Hst & He); rewrite ?Ht, ?Ht' in E; injection E as <-;
        [done|by rewrite Hs in Hst].
    + destruct Hu as [c Hu]. pose proof (si_cont _ _ _ _ _ _ _ _ _ _ Hi u c Hu) as Hc.
      split; [apply resumed_back; [by auto|]|apply resumed_same; auto]. by eapply cont_ok_thread.
Qed.

(** The invariant while the interrupt runs. *)
Abbreviation J s := (kwf idle ∅ (rt_tick s - 1) half s).
Definition tick_inv n h pd hd ps po gr (s : kstate) : Prop :=
  J s ∧ sys_inv idle v0 n h pd hd ps po gr s.

(** States of the interrupt that differ in what the invariant does not read. *)
Lemma sys_inv_nest n n' h pd hd ps po gr s s' :
  same_sys s s' → rt_interrupt_nest s' = n' → sys_inv idle v0 n h pd hd ps po gr s →
  sys_inv idle v0 n' h pd hd ps po gr s'.
Proof. intros Hs <- Hi. by eapply sys_inv_same. Qed.

#[export] Instance tick_handler n h pd hd ps po gr :
  TimeoutHandler timeout_call (tick_inv n h pd hd ps po gr).
Proof.
  split.
  - intros s [Hk _]. split; [apply Hk|apply (ki_times _ _ _ _ _ _ _ _ _ Hk)].
  - intros x tm s [Hk Hi] Hr Hx.
    destruct (thread_timeout_call idle s x tm Hk Hr Hx) as (s' & E & Hsame & HJ & Hp & _ & _).
    assert (sys_inv idle v0 n h pd hd ps po gr s') as Hi'.
    { pose proof (ki_active _ _ _ _ _ _ _ _ _ Hk _ _ Hr Hx) as Hok.
      pose proof (ki_without _ _ _ _ _ _ _ _ _ Hk x) as Hk1. destruct x as [t|p].
      - destruct Hok as (Ef & Ep & _). rewrite Ef, Ep in E.
        destruct (ki_wait _ _ _ _ _ _ _ _ _ Hk t Hr) as (th & Ht & Hs); [set_solver..|].
        destruct (resume_queue idle ∅ _ _ s t th Hk Ht) as (l & _ & Hl); [set_solver|done|].
        destruct (timeout_run idle ∅ (rt_tick s - 1) half (fire_state (ThreadTimer t) s) t th l)
          as [Hc Hk2]; [done..|set_solver|done|by apply not_running_without|done|].
        cbn in E. rewrite Hc in E. injection E as <-.
        pose proof (sys_inv_nest n n h pd hd ps po gr s (fire_state (ThreadTimer t) s)) as Hi1.
        pose proof (sys_timeout _ _ n h pd hd ps po gr (fire_state (ThreadTimer t) s) t th l Hk2) as Hi2.
        cbn in Hi2. rewrite (si_nest _ _ _ _ _ _ _ _ _ _ Hi) in Hi2. apply Hi2; [by apply Hi1; [|apply Hi|]|done..|].
        apply schedule_highest. by eapply (k_can_schedule idle ∅).
      - destruct Hok as [f Ef]. rewrite Ef in E. injection E as <-.
        by apply (sys_inv_nest n n h pd hd ps po gr s); [|apply Hi|]. }
    exists s'. split_and!; [done|done|split; [done|]|].
    + by apply (sys_inv_nest n n h pd hd ps po gr s'); [|apply Hi'|].
    + intros Hpe. split; [by apply Hp|]. by apply (sys_inv_nest n n h pd hd ps po gr s'); [|apply Hi'|].
Qed.

Lemma sys_tick h pd hd ps po gr s :
  kok idle s → sys_inv idle v0 0 h pd hd ps po gr s →
  ∃ s', SysTick_Handler s = Ok tt s' ∧ kok idle s' ∧ sys_inv idle v0 0 h pd hd ps po gr s'.
Proof.
  intros Hk Hi. pose proof (si_nest _ _ _ _ _ _ _ _ _ _ Hi) as Hn.
  destruct (si_run _ _ _ _ _ _ _ _ _ _ Hi) as (t & th & Hc & Ht & Hs).
  set (s1 := set_primask (primask s) (set_trace
    (trace s ++ hook_events rt_interrupt_enter_hook arg_none s)
    (set_rt_interrupt_nest 1 (set_primask 1 s)))).
  set (s2 := set_rt_tick (u32 (rt_tick s1 + 1)) s1).
  assert (rt_interrupt_enter s = Ok tt s1) as E1.
  { unfold rt_interrupt_enter. krun. by rewrite Hn. }
  assert (sys_inv idle v0 1 h pd hd ps po gr s2) as Hi2.
  { by apply (sys_inv_nest 0 1 h pd hd ps po gr s). }
  pose proof (tick_enter idle s1 Hk) as HJ.
  destruct (slice_run idle _ _ s2 t th HJ Hc Ht)
    as (s3 & Es & HJ3 & Ek & Ep & En & (Et & El & _) & (r & Hth) & _ & Hf).
  assert (sys_inv idle v0 1 h pd hd ps po gr s3) as Hi3.
  { rewrite <- (si_nest _ _ _ _ _ _ _ _ _ _ Hi2), <- En. eapply sys_inv_calm; [exact Hi2|..].
    - apply Hf, Hi2.
    - rewrite (sf_lock _ _ Hf). apply Hi2.
    - intros Hh. apply Hf. by apply Hi2.
    - apply Hf.
    - intros u thu Hu Hsu. rewrite Hth. destruct (decide (u = t)) as [->|].
      + eexists. rewrite lookup_insert_eq. split; [done|]. left. exact Hs.
      + exists thu. by rewrite lookup_insert_ne.
    - apply Hf.
    - intros u _ thu Hu. rewrite Hth. destruct (decide (u = t)) as [->|].
      + eexists. rewrite lookup_insert_eq. split; [done|]. change (threads s2) with (threads s) in Hu.
        by simplify_eq.
      + exists thu. by rewrite lookup_insert_ne. }
  destruct (tw_last _ _ _ _ (ki_timers _ _ _ _ _ _ _ _ _ Hk)) as [l Hl].
  destruct (timer_check_keeps idle (tick_inv 1 h pd hd ps po gr) s3 (timer_fuel s3) l)
    as (s4 & _ & Ec & Ek4 & Hk4 & _ & Hi4).
  { by intros ? [? _]. }
  { split; [change (kwf idle ∅ (rt_tick s3 - 1) half s3); rewrite Ek; exact HJ3|]. by apply (sys_inv_nest 1 1 h pd hd ps po gr s3). }
  { by rewrite El. }
  { unfold timer_fuel. rewrite El. change (rt_timer_list s2) with (rt_timer_list s). rewrite Hl.
    apply due_length. }
  eexists. split_and!.
  - unfold SysTick_Handler. rewrite (bind_ok _ _ _ _ _ E1). unfold rt_tick_increase.
    rewrite bind_assoc. rewrite bind_modify. fold s2. rewrite bind_assoc, (bind_ok _ _ _ _ _ Es).
    krun. rewrite Ec. unfold rt_interrupt_leave. krun.
    rewrite (si_nest _ _ _ _ _ _ _ _ _ _ Hi4). done.
  - exact Hk4.
  - by apply (sys_inv_nest 1 0 h pd hd ps po gr s4).
Qed.
End tick.

(** ** Objects change *)
Section objects.
Context (idle : Z) (v0 : Z → Z).
Context (n : Z) (h : bool) (pd : gmap Z cont) (hd : gmap (Z * Z) Z) (ps po gr : gmap Z Z).
Context (s : kstate).
Hypothesis Hi : sys_inv idle v0 n h pd hd ps po gr s.

Lemma cont_ok_objs s' u c : threads s' = threads s → tlists s' = tlists s →
  same_owner s s' u → pd !! u = Some c → cont_ok s' u c.
Proof.
  intros Et El Ho Hu. apply (cont_ok_same s); [|done|by eapply (si_cont _ _ _ _ _ _ _ _ _ _ Hi)].
  apply same_call_eq; [by rewrite Et|by rewrite El].
Qed.

(** The value of a semaphore for which nobody waits changes; [ps'] and [po']
    account for it. *)
Lemma sys_sem_put p o v tr ps' po' :
  objs s !! p = Some (KSem o) → tlists s !! QSuspend p = Some [] → 0 ≤ v < 2 ^ 16 →
  tally p ps' + v - tally p po' = tally p ps + sem_value o - tally p po →
  (∀ q, q ≠ p → tally q ps' = tally q ps ∧ tally q po' = tally q po) →
  sys_inv idle v0 n h pd hd ps' po' gr
    (set_trace tr (set_objs (<[p := KSem (sem_set_value v o)]> (objs s)) s)).
Proof.
  intros Hp Hl Hv Hc Hq. set (s' := set_trace _ _).
  assert (∀ q, q ≠ p → objs s' !! q = objs s !! q) as Hne by (intros; by apply lookup_insert_ne).
  assert (objs s' !! p = Some (KSem (sem_set_value v o))) as Hp' by apply lookup_insert_eq.
  split; try apply Hi.
  - intros q o' Ho'. destruct (decide (q = p)) as [->|].
    + rewrite Hp' in Ho'. injection Ho' as <-.
      destruct (si_sem _ _ _ _ _ _ _ _ _ _ Hi p o Hp) as (ws & (o1 & Ho1 & _ & _ & Hws & Hf) & _).
      exists []. split_and!; [|split; [done|by left]|by intros u ?%elem_of_nil].
      eexists. split; [exact Hp'|]. split_and!; [done..|]. by simplify_eq.
    + rewrite Hne in Ho' by done. apply (sem_inv_same pd pd s); auto. by apply Hi.
  - intros q o' Ho'. destruct (decide (q = p)) as [->|]; [by rewrite Hp' in Ho'|].
    rewrite Hne in Ho' by done. apply (mutex_inv_same idle pd pd s); auto; [by apply Hi|].
    by apply keeps_started_eq.
  - intros u c Hu. apply cont_ok_objs; [done|done| |done]. intros q.
    destruct (decide (q = p)) as [->|]; [rewrite Hp; by eexists|]. rewrite Hne by done.
    destruct (objs s !! q) as [[]|]; by eauto.
  - intros t q. rewrite (si_held _ _ _ _ _ _ _ _ _ _ Hi). unfold holds.
    destruct (decide (q = p)) as [->|]; [by rewrite Hp, Hp'|by rewrite Hne].
  - intros q o' Ho'. destruct (decide (q = p)) as [->|].
    + rewrite Hp' in Ho'. injection Ho' as <-. cbn.
      pose proof (si_count _ _ _ _ _ _ _ _ _ _ Hi p o Hp). lia.
    + rewrite Hne in Ho' by done. destruct (Hq q) as [-> ->]; [done|]. by apply Hi.
Qed.

(** A mutex changes; [hd'] accounts for it. *)
Lemma sys_mutex_put p o o' hd' tr :
  let s' := set_objs (<[p := KMutex o']> (objs s)) (set_trace tr s) in
  objs s !! p = Some (KMutex o) → mutex_inv idle pd s' p o' →
  (∀ u, is_Some (pd !! u) → mtx_owner o' = Some u ↔ mtx_owner o = Some u) →
  (∀ t q, tally (t, q) hd' = if decide (q = p) then holds pd s' t p else tally (t, q) hd) →
  sys_inv idle v0 n h pd hd' ps po gr s'.
Proof.
  intros s' Hp Hm Hu Hh.
  assert (∀ q, q ≠ p → objs s' !! q = objs s !! q) as Hne by (intros; by apply lookup_insert_ne).
  assert (objs s' !! p = Some (KMutex o')) as Hp' by apply lookup_insert_eq.
  split; try apply Hi.
  - intros q o1 Ho1. destruct (decide (q = p)) as [->|]; [by rewrite Hp' in Ho1|].
    rewrite Hne in Ho1 by done. apply (sem_inv_same pd pd s); auto. by apply Hi.
  - intros q o1 Ho1. destruct (decide (q = p)) as [->|].
    + rewrite Hp' in Ho1. by injection Ho1 as <-.
    + rewrite Hne in Ho1 by done. apply (mutex_inv_same idle pd pd s); auto; [by apply Hi|].
      by apply keeps_started_eq.
  - intros u c Hc. apply cont_ok_objs; [done|done| |done]. intros q.
    destruct (decide (q = p)) as [->|].
    + rewrite Hp. exists o'. split; [exact Hp'|]. apply Hu. by exists c.
    + rewrite Hne by done. destruct (objs s !! q) as [[]|]; by eauto.
  - intros t q. rewrite Hh. case_decide as Hq; [by subst|].
    rewrite (si_held _ _ _ _ _ _ _ _ _ _ Hi). unfold holds. by rewrite Hne.
  - intros q o1 Ho1. destruct (decide (q = p)) as [->|]; [by rewrite Hp' in Ho1|].
    rewrite Hne in Ho1 by done. by apply Hi.
Qed.

Lemma tally_add {A} `{Countable A} (k j : A) d (m : gmap A Z) :
  tally j (add k d m) = tally j m + (if decide (j = k) then d else 0).
Proof.
  unfold tally, add. rewrite lookup_insert. case_decide as E; case_decide; subst; try done; cbn; lia.
Qed.

(** A thread of a list is suspended, so it was not resumed. *)
Lemma not_resumed b W q u e : kwf idle ∅ b W s → linked (tlists s) (QSuspend q) u → ¬ resumed s u e.
Proof.
  intros Hk Hl (th & Ht & Hs & _).
  destruct (sw_stat _ _ _ _ (ki_sched _ _ _ _ _ _ _ _ _ Hk) _ _ Hl) as (_ & th' & Ht' & Hs').
  simplify_eq. cbn in Hs'. by rewrite Hs in Hs'.
Qed.

(** What the other threads see when the first thread of a list is resumed. *)
Section wake.
Context (b W : Z) (p u : Z) (ws : list Z) (s' : kstate).
Hypothesis Hk : kwf idle ∅ b W s.
Hypothesis Hl : tlists s !! QSuspend p = Some (u :: ws).
Hypothesis Hl' : tlists s' !! QSuspend p = Some ws.
Hypothesis Hls : ∀ q, q ≠ p → tlists s' !! QSuspend q = tlists s !! QSuspend q.
Hypothesis Hth : ∀ v, v ≠ u → same_state s s' v.

Lemma wake_others v : v ≠ u → same_call s s' v.
Proof.
  intros Hv. split; [by apply Hth|]. intros q (l & Hq & Hin). destruct (decide (q = p)) as [->|].
  - exists ws. split; [done|]. simplify_eq. by apply elem_of_cons in Hin as [?|?].
  - exists l. by rewrite Hls.
Qed.

Lemma wake_linked : linked (tlists s) (QSuspend p) u.
Proof. exists (u :: ws). split; [done|left]. Qed.
End wake.

Lemma filter_insert_size u p (m : gmap Z Z) q : m !! u = None →
  Z.of_nat (size (filter (λ x : Z * Z, x.2 = q) (<[u := p]> m))) =
    Z.of_nat (size (filter (λ x : Z * Z, x.2 = q) m)) + (if decide (q = p) then 1 else 0).
Proof.
  intros Hu. case_decide as E.
  - subst. rewrite map_filter_insert_True by done. rewrite map_size_insert_None; [lia|].
    apply map_lookup_filter_None. by left.
  - rewrite map_filter_insert_False by (cbn; congruence). rewrite delete_id by done. lia.
Qed.

(** A release gives the semaphore to the first waiting thread. *)
Lemma sys_wake_sem b W p o u ws th s' :
  kwf idle ∅ b W s → objs s !! p = Some (KSem o) → tlists s !! QSuspend p = Some (u :: ws) →
  wakes idle (QSuspend p) u ws th s s' → highest_runs s' →
  sys_inv idle v0 n true pd hd ps (add p 1 po) (<[u := p]> gr) s'.
Proof.
  intros Hk Hp Hl Hw Hh. pose proof Hw as [].
  destruct k_was as [Htu Hsu].
  destruct (si_sem _ _ _ _ _ _ _ _ _ _ Hi p o Hp) as (ws0 & Hsem & Hok & Hpd).
  assert (ws0 = u :: ws) as -> by (destruct Hsem as (? & ? & ? & ? & ? & ?); congruence).
  assert (pd !! u = Some (InSemTake (p, u))) as Hpu by (apply Hpd; left).
  assert (∀ q, q ≠ p → tlists s' !! QSuspend q = tlists s !! QSuspend q) as Hls.
  { intros q Hq. apply k_lists; [done|congruence]. }
  assert (∀ v, v ≠ u → same_state s s' v) as Hth.
  { intros v Hv thv Hthv. exists thv. by rewrite k_others. }
  pose proof (wake_others p u ws s' Hl k_list Hls Hth) as Hsame.
  pose proof (not_resumed b W p u RT_EOK Hk (wake_linked p u ws Hl)) as Hnr.
  assert (th_error th = RT_EOK) as He.
  { destruct (si_cont _ _ _ _ _ _ _ _ _ _ Hi u _ Hpu) as (_ & [(_ & th' & ? & ?)|[?|Hr]] & _); [congruence|done|].
    by destruct (not_resumed b W p u (- RT_ETIMEOUT) Hk (wake_linked p u ws Hl)). }
  assert (resumed s' u RT_EOK) as Hr' by (eexists; split; [exact k_thread|done]).
  assert (gr !! u = None) as Hgu.
  { apply eq_None_not_Some. intros [q Hq]. apply Hnr. by apply (si_given _ _ _ _ _ _ _ _ _ _ Hi) in Hq as [_ ?]. }
  assert (keeps_started s s') as Hst.
  { intros v thv Hv Hsv. destruct (decide (v = u)) as [->|]; [|exists thv; by rewrite k_others].
    eexists. split; [exact k_thread|by left]. }
  split.
  - apply (highest_running_ready idle (rt_tick s') (half - 1)); [exact k_ok|rewrite k_lock; apply Hi|done].
  - rewrite k_lock. apply Hi.
  - rewrite k_nest. apply Hi.
  - done.
  - intros q o' Ho'. rewrite k_objs in Ho'. destruct (decide (q = p)) as [->|].
    + simplify_eq. exists ws. split_and!.
      * destruct Hsem as (o1 & ? & ? & ? & ? & ?). exists o1. by rewrite k_objs.
      * destruct Hok as [? [?|?]]; [done|]. split; [done|by right].
      * intros v Hv. apply Hpd. by right.
    + apply (sem_inv_same pd pd s); [by apply Hi|by rewrite k_objs|by apply Hls|done].
  - intros q o' Ho'. rewrite k_objs in Ho'. assert (q ≠ p) by congruence.
    apply (mutex_inv_same idle pd pd s); [by apply Hi|by rewrite k_objs|by apply Hls|done|done].
  - intros v c Hv. destruct (decide (v = u)) as [->|].
    + simplify_eq. cbn. split_and!; [done|by right; left|]. exists o. by rewrite k_objs.
    + apply (cont_ok_same s); [by apply Hsame|by apply same_owner_eq|by apply Hi].
  - intros t q. rewrite (si_held _ _ _ _ _ _ _ _ _ _ Hi). unfold holds. by rewrite k_objs.
  - intros v q. rewrite lookup_insert_Some. destruct (decide (v = u)) as [->|Hv].
    + rewrite Hpu. split; [intros [[_ <-]|[? _]]; done|]. intros [? _]. left. by simplify_eq.
    + rewrite (si_given _ _ _ _ _ _ _ _ _ _ Hi). split.
      * intros [[? _]|(_ & ? & ?)]; [done|]. split; [done|]. by eapply resumed_same; [apply Hsame|].
      * intros [Hpv ?]. right. split_and!; [done|done|]. eapply resumed_back; [by apply Hsame| |done].
        eapply cont_ok_thread. by apply (si_cont _ _ _ _ _ _ _ _ _ _ Hi v _ Hpv).
  - intros q o' Ho'. rewrite k_objs in Ho'. rewrite filter_insert_size, tally_add by done.
    pose proof (si_count _ _ _ _ _ _ _ _ _ _ Hi q o' Ho'). case_decide; lia.
Qed.

(** A release by [t] passes the mutex to the first waiting thread. *)
Lemma sys_wake_mutex b W p o o' t u ws th' s' :
  kwf idle ∅ b W s → kok idle s' → highest_runs s' →
  objs s !! p = Some (KMutex o) → mtx_owner o = Some t → mtx_hold o = 1 → pd !! t = None →
  tlists s !! QSuspend p = Some (u :: ws) → tlists s' !! QSuspend p = Some ws →
  (∀ q, q ≠ p → tlists s' !! QSuspend q = tlists s !! QSuspend q) →
  objs s' = <[p := KMutex o']> (objs s) →
  mtx_flag o' = mtx_flag o → mtx_owner o' = Some u → mtx_hold o' = 1 → mtx_value o' = 0 →
  0 ≤ mtx_original_priority o' < RT_THREAD_PRIORITY_MAX →
  threads s' !! u = Some th' → th_stat th' = RT_THREAD_READY →
  (∀ th, threads s !! u = Some th → th_error th' = th_error th) →
  (∀ v, v ≠ u → same_state s s' v) → keeps_started s s' →
  rt_scheduler_lock_nest s' = 0 → rt_interrupt_nest s' = n →
  sys_inv idle v0 n true pd (add (t, p) (-1) hd) ps po gr s'.
Proof.
  intros Hk Hk' Hh Hp How Hho Hpt Hl Hl' Hls Eo Ef Eow Eho Ev Hor Htu Hsu Heu Hth Hst Hlock Hnest.
  destruct (si_mutex _ _ _ _ _ _ _ _ _ _ Hi p o Hp) as (ws0 & Hm & Hok & Hpd).
  assert (ws0 = u :: ws) as -> by (destruct Hm as (? & ? & ? & ? & ? & ? & ? & ? & ?); congruence).
  assert (pd !! u = Some (InMutexTake (p, u))) as Hpu by (apply Hpd; left).
  assert (u ≠ t) as Hut by congruence.
  pose proof (wake_others p u ws s' Hl Hl' Hls Hth) as Hsame.
  pose proof (wake_linked p u ws Hl) as Hlu.
  assert (∀ e, ¬ resumed s u e) as Hnr by (intros e; by eapply not_resumed).
  assert (resumed s' u RT_EOK) as Hr'.
  { exists th'. split_and!; [done..|].
    destruct (si_cont _ _ _ _ _ _ _ _ _ _ Hi u _ Hpu) as (_ & [(_ & th & Ht & He)|[?|?]] & _).
    - by rewrite (Heu th Ht).
    - by destruct (Hnr RT_EOK).
    - by destruct (Hnr (- RT_ETIMEOUT)). }
  assert (∀ q, q ≠ p → objs s' !! q = objs s !! q) as Hne by (intros; rewrite Eo; by apply lookup_insert_ne).
  assert (objs s' !! p = Some (KMutex o')) as Hp' by (rewrite Eo; apply lookup_insert_eq).
  assert (∀ v, pd !! v ≠ None → v ≠ u → same_owner s s' v) as Hown.
  { intros v Hv Hvu q. destruct (decide (q = p)) as [->|].
    - rewrite Hp. exists o'. split; [done|]. rewrite Eow, How. split; congruence.
    - rewrite Hne by done. destruct (objs s !! q) as [[]|]; by eauto. }
  split; try done.
  - by apply (highest_running_ready idle (rt_tick s') (half - 1)).
  - intros q o1 Ho1. assert (q ≠ p) by congruence. rewrite Hne in Ho1 by done.
    apply (sem_inv_same pd pd s); auto. by apply Hi.
  - intros q o1 Ho1. destruct (decide (q = p)) as [->|].
    + rewrite Hp' in Ho1. injection Ho1 as <-. exists ws. split_and!.
      * destruct Hm as (o1 & Ho1 & ? & ? & ? & ? & ? & ? & ?). exists o'. rewrite Eow. split_and!; try done.
        by rewrite Ef.
      * rewrite Eow, Eho. cbn. split_and!; [lia|lia|lia|lia| |exists th'; split; [done|by left]].
        intros ->. destruct (ki_idle _ _ _ _ _ _ _ _ _ Hk) as (_ & thi & Hti & Hsi).
        apply (Hnr (th_error thi)). by exists thi.
      * intros v Hv. apply Hpd. by right.
    + rewrite Hne in Ho1 by done. apply (mutex_inv_same idle pd pd s); auto. by apply Hi.
  - intros v c Hv. destruct (decide (v = u)) as [->|].
    + simplify_eq. cbn. split_and!; [done|by right; left|]. by exists o'.
    + apply (cont_ok_same s); [by apply Hsame|by apply Hown; [rewrite Hv|]|by apply Hi].
  - intros v q. rewrite tally_add, (si_held _ _ _ _ _ _ _ _ _ _ Hi).
    destruct (decide (q = p)) as [->|Hq].
    + unfold holds. rewrite Hp, Hp', How, Eow, Hho, Eho. repeat case_decide; congruence || lia.
    + rewrite decide_False by congruence. unfold holds. rewrite Hne by done. lia.
  - intros v q. rewrite (si_given _ _ _ _ _ _ _ _ _ _ Hi). destruct (decide (v = u)) as [->|Hv].
    + split; intros [? ?]; congruence.
    + split; intros [Hpv ?]; (split; [done|]); [by eapply resumed_same; [apply Hsame|]|].
      eapply resumed_back; [by apply Hsame| |done].
      eapply cont_ok_thread. by apply (si_cont _ _ _ _ _ _ _ _ _ _ Hi v _ Hpv).
  - intros q o1 Ho1. assert (q ≠ p) by congruence. rewrite Hne in Ho1 by done. by apply Hi.
Qed.

(** The list of [p] gets [t], the others stay. *)
Definition queued (s' : kstate) (p t : Z) : Prop :=
  (∃ l l', tlists s !! QSuspend p = Some l ∧ tlists s' !! QSuspend p = Some l' ∧ l' ≡ₚ t :: l) ∧
  ∀ q, q ≠ p → tlists s' !! QSuspend q = tlists s !! QSuspend q.
Definition blocks_on (s' : kstate) (t : Z) (c : cont) : Prop :=
  match c with
  | InSemTake (p, u) => u = t ∧ queued s' p t ∧ ∃ o, objs s !! p = Some (KSem o) ∧ sem_value o = 0
  | InMutexTake (p, u) => u = t ∧ queued s' p t ∧
      ∃ o w, objs s !! p = Some (KMutex o) ∧ mtx_owner o = Some w ∧ w ≠ t
  | InSleep u => u = t ∧ ∀ q, tlists s' !! QSuspend q = tlists s !! QSuspend q
  end.

(** The lists of the objects that the call is not about stay. *)
Lemma blocks_other s' t c q : blocks_on s' t c →
  c ≠ InSemTake (q, t) → c ≠ InMutexTake (q, t) →
  tlists s' !! QSuspend q = tlists s !! QSuspend q.
Proof.
  destruct c as [[p u]|[p u]|u]; cbn.
  - intros (-> & [_ Hl] & _) Hc _. apply Hl. congruence.
  - intros (-> & [_ Hl] & _) _ Hc. apply Hl. congruence.
  - by intros [_ Hl].
Qed.

Lemma blocks_linked s' t c q u : blocks_on s' t c →
  linked (tlists s) (QSuspend q) u → linked (tlists s') (QSuspend q) u.
Proof.
  intros Hb (l & Hl & Hu). destruct (decide (c = InSemTake (q, t) ∨ c = InMutexTake (q, t))) as [Hc|Hc].
  - assert (queued s' q t) as [(l0 & l' & Hl0 & Hl' & Hp) _].
    { destruct Hc as [-> | ->]; cbn in Hb; by destruct Hb as (_ & ? & _). }
    simplify_eq. exists l'. split; [done|]. rewrite Hp. by right.
  - exists l. split; [|done]. by rewrite (blocks_other s' t c q) by tauto.
Qed.

(** The running thread starts to wait. *)
Lemma sys_block t c th1 s' :
  pd !! t = None → kok idle s' → highest_runs s' → blocks_on s' t c → objs s' = objs s →
  threads s' !! t = Some th1 → th_stat th1 = RT_THREAD_SUSPEND →
  (∀ p u, c = InSemTake (p, u) ∨ c = InMutexTake (p, u) → th_error th1 = RT_EOK) →
  (∀ u, u ≠ t → threads s' !! u = threads s !! u) → keeps_started s s' →
  rt_scheduler_lock_nest s' = 0 → rt_interrupt_nest s' = n →
  sys_inv idle v0 n true (<[t := c]> pd) hd ps po gr s'.
Proof.
  intros Hpt Hk' Hh Hb Eo Ht Hs He Hne Hst Hlock Hnest.
  assert (∀ e, ¬ resumed s' t e) as Hnr.
  { intros e (th & Hth & Hsr & _). simplify_eq. by rewrite Hs in Hsr. }
  assert (∀ u, u ≠ t → same_call s s' u) as Hsame.
  { intros u Hu. split; [intros th Hth; exists th; by rewrite Hne|].
    intros q Hl. by apply (blocks_linked s' t c). }
  assert (∀ u c', u ≠ t → pd !! u = Some c' → (<[t := c]> pd) !! u = Some c') as Hpd.
  { intros u c' Hu ?. by rewrite lookup_insert_ne. }
  assert (∀ u c', pd !! u = Some c' → (<[t := c]> pd) !! u = Some c') as Hpd'.
  { intros u c' Hu. apply Hpd; congruence. }
  split; try done; rewrite ?Eo.
  - by apply (highest_running_ready idle (rt_tick s') (half - 1)).
  - intros p o Hp. pose proof (si_sem _ _ _ _ _ _ _ _ _ _ Hi p o Hp) as Hsem.
    destruct (decide (c = InSemTake (p, t))) as [->|Hc].
    + destruct Hb as (_ & [(l & l' & Hl & Hl' & Hperm) _] & o1 & Ho1 & Hv).
      destruct Hsem as (ws & (o2 & ? & ? & ? & ? & ?) & [? Hok] & Hw).
      exists l'. simplify_eq. split_and!.
      * eexists. rewrite Eo. by split_and!.
      * split; [done|by right].
      * intros u Hu. rewrite Hperm in Hu. apply elem_of_cons in Hu as [->|Hu];
          [by rewrite lookup_insert_eq|auto].
    + apply (sem_inv_same pd _ s); [done|by rewrite Eo| |auto].
      apply (blocks_other s' t c); [done|done|]. intros ->.
      destruct Hb as (_ & _ & ? & ? & ? & _). congruence.
  - intros p o Hp. pose proof (si_mutex _ _ _ _ _ _ _ _ _ _ Hi p o Hp) as Hm.
    destruct (decide (c = InMutexTake (p, t))) as [->|Hc].
    + destruct Hb as (_ & [(l & l' & Hl & Hl' & Hperm) _] & o1 & w & Ho1 & Hv & Hw).
      destruct Hm as (ws & (o2 & ? & ? & ? & ? & ? & ? & ? & ?) & Hok & Hws).
      exists l'. simplify_eq. split_and!.
      * eexists. rewrite Eo. by split_and!.
      * apply (mutex_ok_started idle s s') in Hok; [|done]. by rewrite Hv in *.
      * intros u Hu. rewrite Hperm in Hu. apply elem_of_cons in Hu as [->|Hu];
          [by rewrite lookup_insert_eq|auto].
    + apply (mutex_inv_same idle pd _ s); [done|by rewrite Eo| |done|auto].
      apply (blocks_other s' t c); [done| |done]. intros ->.
      destruct Hb as (_ & _ & ? & ? & _). congruence.
  - intros u c'. rewrite lookup_insert_Some. intros [[<- <-]|[Hu Hc']].
    + destruct c as [[p u]|[p u]|u]; cbn in *.
      * destruct Hb as (-> & [(l & l' & _ & Hl' & Hperm) _] & o & Ho & _).
        split_and!; [done| |exists o; by rewrite Eo]. left. split; [|exists th1; eauto].
        exists l'. split; [done|]. rewrite Hperm. left.
      * destruct Hb as (-> & [(l & l' & _ & Hl' & Hperm) _] & o & w & Ho & Hw & Hwt).
        split_and!; [done| |exists o; rewrite Eo; split; [done|]].
        -- left. split; [|exists th1; eauto]. exists l'. split; [done|]. rewrite Hperm. left.
        -- rewrite Hw. split; [congruence|]. intros ?. by destruct (Hnr RT_EOK).
      * destruct Hb as [-> _]. by split.
    + apply (cont_ok_same s); [by apply Hsame|by apply same_owner_eq|by apply Hi].
  - intros u p. rewrite (si_held _ _ _ _ _ _ _ _ _ _ Hi). unfold holds. rewrite Eo.
    destruct (objs s !! p) as [[]|] eqn:Ep; try done. destruct (decide (mtx_owner o = Some u)) as [Ho|]; [|done].
    destruct (decide (u = t)) as [->|]; [|by rewrite lookup_insert_ne].
    rewrite lookup_insert_eq, Hpt. rewrite (decide_False (P := None = _)) by done.
    rewrite decide_False; [done|]. intros [= ->]. destruct Hb as (_ & _ & o1 & w & ? & ? & ?). congruence.
  - intros u p. rewrite (si_given _ _ _ _ _ _ _ _ _ _ Hi). destruct (decide (u = t)) as [->|Hu].
    + rewrite Hpt. split; [by intros [? _]|]. intros [_ Hr]. by destruct (Hnr RT_EOK).
    + rewrite lookup_insert_ne by done. split; intros [Hpv ?]; (split; [done|]);
        [by eapply resumed_same; [apply Hsame|]|].
      eapply resumed_back; [by apply Hsame| |done].
      eapply cont_ok_thread. by apply (si_cont _ _ _ _ _ _ _ _ _ _ Hi u _ Hpv).
  - apply Hi.
Qed.

(** A call returns; what is counted follows. *)
Lemma sys_forget t hd' ps' gr' :
  (∀ q, ¬ linked (tlists s) (QSuspend q) t) →
  (∀ u p, tally (u, p) hd' = holds (delete t pd) s u p) →
  (∀ u p, gr' !! u = Some p ↔ delete t pd !! u = Some (InSemTake (p, u)) ∧ resumed s u RT_EOK) →
  (∀ p o, objs s !! p = Some (KSem o) →
     tally p ps' + sem_value o + Z.of_nat (size (filter (λ x, x.2 = p) gr')) = v0 p + tally p po) →
  sys_inv idle v0 n h (delete t pd) hd' ps' po gr' s.
Proof.
  intros Hl Hhd Hgr Hcount.
  assert (∀ q ws u c, tlists s !! QSuspend q = Some ws → u ∈ ws → pd !! u = Some c →
    delete t pd !! u = Some c) as Hpd.
  { intros q ws u c Hws Hu Hc. rewrite lookup_delete_ne; [done|]. intros ->. apply (Hl q). by exists ws. }
  split; try done; try apply Hi.
  - intros p o Hp. destruct (si_sem _ _ _ _ _ _ _ _ _ _ Hi p o Hp) as (ws & Hs & Hok & Hw).
    pose proof Hs as (? & _ & _ & _ & Hws & _). exists ws. split_and!; [done|done|].
    intros u Hu. eapply Hpd; eauto.
  - intros p o Hp. destruct (si_mutex _ _ _ _ _ _ _ _ _ _ Hi p o Hp) as (ws & Hs & Hok & Hw).
    pose proof Hs as (? & _ & _ & _ & _ & _ & _ & Hws & _). exists ws. split_and!; [done|done|].
    intros u Hu. eapply Hpd; eauto.
  - intros u c [Hu Hc]%lookup_delete_Some. by apply Hi.
Qed.

(** [sys_forget] for a call that returns without the object. *)
Lemma sys_forget_none t c :
  pd !! t = Some c → (∀ q, ¬ linked (tlists s) (QSuspend q) t) →
  (∀ p u, c = InSemTake (p, u) ∨ c = InMutexTake (p, u) → ¬ resumed s t RT_EOK) →
  sys_inv idle v0 n h (delete t pd) hd ps po gr s.
Proof.
  intros Hc Hl Hn. pose proof (si_cont _ _ _ _ _ _ _ _ _ _ Hi t c Hc) as Hok.
  apply sys_forget; [done|..|apply Hi].
  - intros u p. rewrite (si_held _ _ _ _ _ _ _ _ _ _ Hi). unfold holds.
    destruct (objs s !! p) as [[]|] eqn:Ep; try done.
    destruct (decide (mtx_owner o = Some u)) as [Ho|]; [|done].
    destruct (decide (u = t)) as [->|]; [|by rewrite lookup_delete_ne].
    rewrite lookup_delete_eq, Hc. rewrite (decide_False (P := None = _)) by done.
    rewrite decide_False; [done|]. intros [= ->]. cbn in Hok.
    destruct Hok as (_ & _ & o' & Ho' & Hw). apply (Hn p t); [by right|]. apply Hw. congruence.
  - intros u p. rewrite (si_given _ _ _ _ _ _ _ _ _ _ Hi), lookup_delete_Some.
    split; [|tauto]. intros [Hp Hr]. split_and!; [|done|done]. intros ->. simplify_eq.
    apply (Hn p u); [by left|done].
Qed.

Lemma sys_forget_sem t p :
  pd !! t = Some (InSemTake (p, t)) → (∀ q, ¬ linked (tlists s) (QSuspend q) t) →
  resumed s t RT_EOK → sys_inv idle v0 n h (delete t pd) hd (add p 1 ps) po (delete t gr) s.
Proof.
  intros Hc Hl Hr. apply sys_forget; [done|..].
  - intros u q. rewrite (si_held _ _ _ _ _ _ _ _ _ _ Hi). symmetry. apply holds_same; [done|].
    rewrite lookup_delete_Some. split; [|tauto]. intros ?. split; congruence.
  - intros u q. rewrite !lookup_delete_Some, (si_given _ _ _ _ _ _ _ _ _ _ Hi). tauto.
  - intros q o Ho. pose proof (si_count _ _ _ _ _ _ _ _ _ _ Hi q o Ho) as Hcount.
    assert (gr !! t = Some p) as Hg by (by apply (si_given _ _ _ _ _ _ _ _ _ _ Hi)).
    rewrite <- (insert_delete_id gr t p Hg), filter_insert_size in Hcount by apply lookup_delete_eq.
    rewrite tally_add. repeat case_decide; congruence || lia.
Qed.

Lemma sys_forget_mutex t p :
  pd !! t = Some (InMutexTake (p, t)) → (∀ q, ¬ linked (tlists s) (QSuspend q) t) →
  resumed s t RT_EOK → sys_inv idle v0 n h (delete t pd) (add (t, p) 1 hd) ps po gr s.
Proof.
  intros Hc Hl Hr. destruct (si_cont _ _ _ _ _ _ _ _ _ _ Hi t _ Hc) as (_ & _ & o & Ho & Hw).
  apply sys_forget; [done|..|apply Hi].
  - intros u q. rewrite tally_add, (si_held _ _ _ _ _ _ _ _ _ _ Hi).
    destruct (decide ((u, q) = (t, p))) as [[= -> ->]|Hne].
    + unfold holds. rewrite Ho, lookup_delete_eq, Hc. rewrite (proj2 Hw) by done.
      rewrite !decide_True, decide_False by done. lia.
    + rewrite Z.add_0_r. symmetry. apply holds_same; [done|]. rewrite lookup_delete_Some.
      split; [|tauto]. intros Hu. split; [|done]. intros ->. apply Hne. congruence.
  - intros u q. rewrite (si_given _ _ _ _ _ _ _ _ _ _ Hi), lookup_delete_Some.
    split; [|tauto]. intros [Hp ?]. split_and!; [congruence|done|done].
Qed.
End objects.

Lemma sys_inv_weaken idle v0 n h h' pd hd ps po gr s :
  sys_inv idle v0 n h pd hd ps po gr s → (h' = true → h = true) →
  sys_inv idle v0 n h' pd hd ps po gr s.
Proof. intros Hi Hh. split; try apply Hi. intros ?. by apply Hi, Hh. Qed.

(** ** Steps keep the invariant *)
Section steps_ok.
Context {cfg : RTConfig} (idle : Z) (v0 : Z → Z) (h : bool) (σ : system).
Hypothesis Hok : sys_ok idle v0 h σ.

Lemma lift_run {A} (c : K A) a s : c (kern σ) = Ok a s →
  lift c σ = Ok a (mk_system s (pend σ) (held σ) (passed σ) (posted σ)).
Proof. intros E. unfold lift. by rewrite E. Qed.

Lemma lift_self t : rt_current_thread (kern σ) = Some t → lift self σ = Ok t σ.
Proof. intros Hc. unfold lift, self. krun. rewrite Hc. by destruct σ. Qed.

Lemma the_thread t : rt_current_thread (kern σ) = Some t →
  ∃ th, threads (kern σ) !! t = Some th ∧ th_stat th = RT_THREAD_READY.
Proof.
  intros Hc. destruct Hok as (_ & gr & Hi).
  destruct (si_run _ _ _ _ _ _ _ _ _ _ Hi) as (t' & th & Hc' & ? & ?). exists th. by simplify_eq.
Qed.

Lemma the_caller t : rt_current_thread (kern σ) = Some t → t ≠ idle →
  ∃ th, caller idle (kern σ) t th.
Proof.
  intros Hc Hi. destruct (the_thread t Hc) as (th & ? & ?). destruct Hok as (_ & gr & Hinv).
  exists th. split; try done. apply Hinv.
Qed.

(** The running thread is in no list of an object. *)
Lemma running_unlinked t q : rt_current_thread (kern σ) = Some t →
  ¬ linked (tlists (kern σ)) (QSuspend q) t.
Proof.
  intros Hc Hl. destruct (the_thread t Hc) as (th & Ht & Hs).
  eapply not_resumed; [apply Hok|exact Hl|by exists th].
Qed.

Lemma step_tick_ok : ∃ σ', step ATick σ = Ok tt σ' ∧ sys_ok idle v0 h σ'.
Proof.
  destruct Hok as (Hk & gr & Hi).
  destruct (sys_tick idle v0 h _ _ _ _ gr _ Hk Hi) as (s' & E & Hk' & Hi').
  eexists. split; [by apply lift_run|]. split; [exact Hk'|by exists gr].
Qed.

Lemma step_yield_ok t : rt_current_thread (kern σ) = Some t →
  ∃ σ', step AYield σ = Ok tt σ' ∧ sys_ok idle v0 h σ'.
Proof.
  intros Hc. destruct (the_thread t Hc) as (th & Ht & Hs). destruct Hok as (Hk & gr & Hi).
  destruct (ready_queue idle _ _ (kern σ) t th Hk Ht Hs) as (l & Hl & _).
  pose proof (yield_run idle _ _ (kern σ) t th l Hk Hc Ht Hs Hl) as E.
  pose proof (yield_kwf idle _ _ (kern σ) t th l Hk Ht Hs Hl) as Hk1.
  eexists. split.
  { cbn. rewrite (bind_ok _ _ _ _ _ (lift_run _ _ _ E)). done. }
  case_decide; [by split; [|exists gr]|].
  split; [exact Hk1|]. exists gr. cbn [kern pend held passed posted].
  rewrite <- (si_nest _ _ _ _ _ _ _ _ _ _ Hi).
  change (rt_interrupt_nest (kern σ)) with
    (rt_interrupt_nest (schedule_state (yield_state t th l (kern σ)))).
  eapply sys_inv_calm; [exact Hi|..]; try done.
  - eapply schedule_ready; [exact Hk1|]. by exists t, th.
  - apply Hi.
  - intros _. apply schedule_highest. by eapply (k_can_schedule idle ∅).
  - by apply keeps_started_eq.
  - intros p. by eapply yield_queues.
  - intros u _ thu Hu. by exists thu.
Qed.

Lemma step_sleep_ok t tick : rt_current_thread (kern σ) = Some t → pend σ !! t = None →
  t ≠ idle → 0 ≤ tick < half →
  ∃ σ', step (ASleep tick) σ = Ok tt σ' ∧ sys_ok idle v0 h σ'.
Proof.
  intros Hc Hp Hn Hti. destruct (the_thread t Hc) as (th & Ht & Hs). destruct Hok as (Hk & gr & Hi).
  destruct (k_started idle ∅ _ _ (kern σ) t th Hk Ht) as (_ & _ & (tm & Htm & _) & _);
    [set_solver|by left|].
  destruct (sleep_run idle (kern σ) t th tm tick Hk Hc Ht Hs Htm Hn Hti) as [E Hk'].
  set (s' := sleep_state t tick th tm (kern σ)) in *.
  eexists. split.
  { cbn. rewrite (bind_ok _ _ _ _ _ (lift_self t Hc)), (bind_ok _ _ _ _ _ (lift_run _ _ _ E)). done. }
  split; [exact Hk'|]. exists gr. cbn [kern pend held passed posted].
  apply (sys_inv_weaken _ _ _ true); [|done].
  eapply sys_block with (th1 := th_set_stat RT_THREAD_SUSPEND th); try done.
  - apply schedule_highest. by eapply (k_can_schedule idle ∅).
  - split; [done|]. intros q. cbn. by eapply ready_elsewhere.
  - apply lookup_insert_eq.
  - intros p u [?|?]; done.
  - intros u Hu. cbn. by rewrite lookup_insert_ne.
  - intros u thu Hu Hsu. destruct (decide (u = t)) as [->|].
    + eexists. split; [apply lookup_insert_eq|by right].
    + exists thu. split; [|done]. cbn. by rewrite lookup_insert_ne.
  - apply Hi.
  - apply Hi.
Qed.

(** A call that blocks its thread in the list of [p]. *)
Lemma block_ok t c p time l l' th th1 gr s0 s' pd :
  sys_inv idle v0 0 false pd (held σ) (passed σ) (posted σ) gr s0 →
  pd !! t = None → waits idle (QSuspend p) t time l' (th_set_error RT_EOK th) s0 s' →
  tlists s0 !! QSuspend p = Some l → l' ≡ₚ t :: l → threads s0 !! t = Some th1 →
  (c = InSemTake (p, t) ∧ ∃ o, objs s0 !! p = Some (KSem o) ∧ sem_value o = 0) ∨
  (c = InMutexTake (p, t) ∧ ∃ o w, objs s0 !! p = Some (KMutex o) ∧ mtx_owner o = Some w ∧ w ≠ t) →
  sys_ok idle v0 h (mk_system s' (<[t := c]> pd) (held σ) (passed σ) (posted σ)).
Proof.
  intros Hi Hpt Hw Hl Hp Ht Hc. destruct Hw. split; [done|]. exists gr.
  cbn [kern pend held passed posted]. apply (sys_inv_weaken _ _ _ true); [|done].
  assert (queued s0 s' p t) as Hq.
  { split; [by exists l, l'|]. intros q Hq. apply w_lists; [done|congruence]. }
  eapply sys_block with (th1 := th_set_stat RT_THREAD_SUSPEND (th_set_error RT_EOK th));
    [exact Hi|done..| |done|done|done|done|done| | |].
  - by destruct Hc as [[-> ?]|[-> ?]].
  - intros u thu Hu Hsu. destruct (decide (u = t)) as [->|].
    + eexists. split; [exact w_thread|by right].
    + exists thu. by rewrite w_others.
  - rewrite w_lock. apply Hi.
  - rewrite w_nest. apply Hi.
Qed.

Lemma step_sem_take_ok t p time o : rt_current_thread (kern σ) = Some t → pend σ !! t = None →
  t ≠ idle → time < half → objs (kern σ) !! p = Some (KSem o) →
  ∃ σ', step (ASemTake p time) σ = Ok tt σ' ∧ sys_ok idle v0 h σ'.
Proof.
  intros Hc Hpt Hn Hti Ho. destruct (the_caller t Hc Hn) as [th Hcl]. destruct Hok as (Hk & gr & Hi).
  destruct (si_sem _ _ _ _ _ _ _ _ _ _ Hi p o Ho)
    as (ws & (o' & Ho' & _ & _ & Hl & Hf) & [Hv Hws] & _). simplify_eq.
  cbn. rewrite (bind_ok _ _ _ _ _ (lift_self t Hc)).
  destruct (decide (0 < sem_value o)) as [Hpos|Hpos].
  - destruct Hws as [->|Hws]; [|lia]. destruct (sem_take_available (kern σ) p o time Ho Hpos) as [tr E].
    eexists. split; [by rewrite (bind_ok _ _ _ _ _ (lift_run _ _ _ E))|]. split; [exact Hk|].
    exists gr. eapply sys_sem_put; [exact Hi|done|done|lia| |].
    + cbn. rewrite tally_add, decide_True by done. lia.
    + intros q Hq. cbn. by rewrite tally_add, decide_False, Z.add_0_r.
  - assert (sem_value o = 0) as E0 by lia. destruct (decide (time = 0)) as [->|Hz].
    + destruct (sem_take_no_wait (kern σ) p o Ho E0) as [tr E].
      eexists. split; [by rewrite (bind_ok _ _ _ _ _ (lift_run _ _ _ E))|]. split; [exact Hk|].
      exists gr. eapply (sys_inv_nest idle v0 0 0 h); [| |exact Hi]; [done|apply Hi].
    + destruct (sem_take_blocks idle (kern σ) t th p o time ws Hk Hcl Ho E0 Hf Hl Hz Hti) as (s' & E & Hw).
      eexists. split; [by rewrite (bind_ok _ _ _ _ _ (lift_run _ _ _ E))|].
      eapply block_ok; [by eapply sys_inv_weaken|done|exact Hw|exact Hl|apply wait_insert_perm
        |apply Hcl|left; eauto].
Qed.

Lemma step_sem_release_ok p o : objs (kern σ) !! p = Some (KSem o) → sem_value o < 0xffff →
  ∃ σ', step (ASemRelease p) σ = Ok tt σ' ∧ sys_ok idle v0 h σ'.
Proof.
  intros Ho Hmax. destruct Hok as (Hk & gr & Hi).
  destruct (si_sem _ _ _ _ _ _ _ _ _ _ Hi p o Ho)
    as (ws & (o' & Ho' & _ & _ & Hl & Hf) & [Hv Hws] & _). simplify_eq.
  cbn. destruct ws as [|u ws].
  - destruct (sem_release_counts (kern σ) p o Ho Hl) as [tr E].
    eexists. split; [by rewrite (bind_ok _ _ _ _ _ (lift_run _ _ _ E))|]. split; [exact Hk|].
    assert (u16 (sem_value o + 1) = sem_value o + 1) as Eu by (apply wrap_small; lia).
    rewrite Eu. exists gr. eapply sys_sem_put; [exact Hi|done|done|lia| |].
    + cbn. rewrite tally_add, decide_True by done. lia.
    + intros q Hq. cbn. by rewrite tally_add, decide_False, Z.add_0_r.
  - destruct (sem_release_wakes idle (kern σ) p u ws Hk Hl) as (th & s' & E & Hw & Hh).
    eexists. split; [by rewrite (bind_ok _ _ _ _ _ (lift_run _ _ _ E))|]. split; [apply Hw|].
    eexists. cbn. eapply sys_inv_weaken; [by eapply sys_wake_sem|done].
Qed.

Lemma sem_return_run s p t th : threads s !! t = Some th →
  ∃ tr, rt_sem_take_return (p, t) s = Ok (th_error th) (set_trace tr s).
Proof.
  intros Ht. unfold rt_sem_take_return. krun. rewrite Ht. krun.
  destruct (Z.eqb_spec (th_error th) RT_EOK) as [->|]; krun; [by eexists|by exists (trace s)].
Qed.

Lemma mutex_return_run s p t th : threads s !! t = Some th →
  ∃ tr, rt_mutex_take_return (p, t) s = Ok (th_error th) (set_trace tr s).
Proof.
  intros Ht. unfold rt_mutex_take_return. krun. rewrite Ht. krun.
  destruct (Z.eqb_spec (th_error th) RT_EOK) as [->|]; krun; [by eexists|by exists (trace s)].
Qed.

Lemma sleep_return_run s t th : threads s !! t = Some th →
  ∃ e, rt_thread_sleep_return t s =
    Ok RT_EOK (set_threads (<[t := th_set_error e th]> (threads s)) s).
Proof.
  intros Ht. unfold rt_thread_sleep_return, upd_thread. krun. rewrite Ht. krun.
  destruct (Z.eqb_spec (th_error th) (- RT_ETIMEOUT)) as [E|]; krun.
  - rewrite Ht. krun. by eexists.
  - exists (th_error th). rewrite insert_id; [done|]. exact Ht.
Qed.

Lemma step_return_ok t : rt_current_thread (kern σ) = Some t → is_Some (pend σ !! t) →
  ∃ σ', step AReturn σ = Ok tt σ' ∧ sys_ok idle v0 h σ'.
Proof.
  intros Hc [c Hp]. destruct (the_thread t Hc) as (th & Ht & Hs).
  pose proof (λ q, running_unlinked t q Hc) as Hu. destruct Hok as (Hk & gr & Hi).
  pose proof (si_cont _ _ _ _ _ _ _ _ _ _ Hi t c Hp) as Hcont.
  assert (resumed (kern σ) t RT_EOK ↔ th_error th = RT_EOK) as Hr.
  { split; [intros (th' & ? & _ & <-); by simplify_eq|]. by exists th. }
  assert (∀ tr pd hd ps gr, sys_inv idle v0 0 h pd hd ps (posted σ) gr (kern σ) →
    sys_ok idle v0 h (mk_system (set_trace tr (kern σ)) pd hd ps (posted σ))) as Htr.
  { intros tr pd' hd' ps' gr' Hi'. split; [exact Hk|]. exists gr'.
    eapply (sys_inv_nest idle v0 0 0 h); [| |exact Hi']; [done|apply Hi']. }
  cbn. rewrite (bind_ok _ _ _ _ _ (lift_self t Hc)). rewrite bind_gets, Hp. cbn [from_option].
  rewrite bind_ret. unfold go_on, set_pend. rewrite bind_modify.
  destruct c as [[p v]|[p v]|v]; cbn in Hcont.
  - destruct Hcont as (-> & _ & _). destruct (sem_return_run (kern σ) p t th Ht) as [tr E].
    unfold bind, lift. cbn [kern]. rewrite E. destruct (Z.eqb_spec (th_error th) RT_EOK) as [He|He].
    + eexists. split; [done|]. eapply Htr, sys_forget_sem; [exact Hi|done..|tauto].
    + eexists. split; [done|]. eapply Htr, sys_forget_none; [exact Hi|exact Hp|done|]. tauto.
  - destruct Hcont as (-> & _ & _). destruct (mutex_return_run (kern σ) p t th Ht) as [tr E].
    unfold bind, lift. cbn [kern]. rewrite E. destruct (Z.eqb_spec (th_error th) RT_EOK) as [He|He].
    + eexists. split; [done|]. eapply Htr, sys_forget_mutex; [exact Hi|done..|tauto].
    + eexists. split; [done|]. eapply Htr, sys_forget_none; [exact Hi|exact Hp|done|]. tauto.
  - destruct Hcont as (-> & _). destruct (sleep_return_run (kern σ) t th Ht) as [e E].
    unfold bind, lift. cbn [kern]. rewrite E. eexists. split; [done|].
    split; [by eapply ki_update|]. exists gr. cbn [kern pend held passed posted].
    rewrite <- (si_nest _ _ _ _ _ _ _ _ _ _ Hi).
    assert (sys_inv idle v0 0 h (delete t (pend σ)) (held σ) (passed σ) (posted σ) gr (kern σ)) as Hi'.
    { eapply sys_forget_none; [exact Hi|exact Hp|done|]. by intros ? ? [?|?]. }
    set (s' := set_threads _ _). change (rt_interrupt_nest (kern σ)) with (rt_interrupt_nest s').
    eapply sys_inv_calm; [exact Hi'|..]; try done.
    + exists t. eexists. split_and!; [exact Hc|apply lookup_insert_eq|done].
    + apply Hi.
    + apply Hi.
    + intros u thu Hu' Hsu. destruct (decide (u = t)) as [->|].
      * eexists. split; [apply lookup_insert_eq|by left].
      * exists thu. split; [|done]. cbn. by rewrite lookup_insert_ne.
    + intros u Hu' thu Hthu. destruct (decide (u = t)) as [->|].
      * rewrite lookup_delete_eq in Hu'. by destruct Hu'.
      * exists thu. split; [|done]. cbn. by rewrite lookup_insert_ne.
Qed.

(** The running thread, which is in no call, gets another error number. *)
Lemma error_ok gr t th e : rt_current_thread (kern σ) = Some t → pend σ !! t = None →
  threads (kern σ) !! t = Some th → th_stat th = RT_THREAD_READY →
  sys_inv idle v0 0 h (pend σ) (held σ) (passed σ) (posted σ) gr (kern σ) →
  sys_inv idle v0 0 h (pend σ) (held σ) (passed σ) (posted σ) gr
    (set_threads (<[t := th_set_error e th]> (threads (kern σ))) (kern σ)).
Proof.
  intros Hc Hp Ht Hs Hi. set (s' := set_threads _ _).
  assert (∀ u, u ≠ t → threads s' !! u = threads (kern σ) !! u) as Hne.
  { intros u Hu. cbn. by rewrite lookup_insert_ne. }
  rewrite <- (si_nest _ _ _ _ _ _ _ _ _ _ Hi).
  change (rt_interrupt_nest (kern σ)) with (rt_interrupt_nest s').
  eapply sys_inv_calm; [exact Hi|..]; try done; try apply Hi.
  - exists t. eexists. split_and!; [exact Hc|apply lookup_insert_eq|done].
  - intros u thu Hu Hsu. destruct (decide (u = t)) as [->|].
    + eexists. split; [apply lookup_insert_eq|by left].
    + exists thu. by rewrite Hne.
  - intros u [c Hu] thu Hthu. exists thu. rewrite Hne by congruence. done.
Qed.

(** A thread gets another priority; the scheduler has not run. *)
Lemma prio_ok' gr pd hd ps po s s' u p thu :
  reprioritized u p thu s s' → threads s !! u = Some thu →
  sys_inv idle v0 0 h pd hd ps po gr s → sys_inv idle v0 0 false pd hd ps po gr s'.
Proof.
  intros Hr Hu Hi. destruct Hr.
  assert (∀ v, same_state s s' v) as Hsame.
  { intros v thv Hv. destruct (decide (v = u)) as [->|].
    - eexists. split; [exact rp_thread|]. by simplify_eq.
    - exists thv. by rewrite rp_others. }
  rewrite <- (si_nest _ _ _ _ _ _ _ _ _ _ Hi), <- rp_nest.
  eapply sys_inv_calm; [exact Hi|..]; try done.
  - destruct (si_run _ _ _ _ _ _ _ _ _ _ Hi) as (t & th & Hc & Ht & Hs).
    destruct (Hsame t th Ht) as (th' & ? & ? & _). exists t, th'. split_and!; congruence.
  - rewrite rp_lock. apply Hi.
  - intros v thv Hv Hs. destruct (Hsame v thv Hv) as (th' & ? & Hst & _). exists th'.
    split; [done|]. unfold started. by rewrite Hst.
  - intros q. by apply (rp_lists (QSuspend q)).
Qed.

(** What a mutex counts for the thread [t], which is in no call. *)
Definition count_of (t : Z) (o : rt_mutex) : Z :=
  if decide (mtx_owner o = Some t) then mtx_hold o else 0.
Definition owned_by (t : Z) (o : rt_mutex) : Prop := mtx_owner o = None ∨ mtx_owner o = Some t.

(** The thread [t] takes or releases a mutex that no other thread owns. *)
Lemma mutex_put_ok gr hb s0 s' t p o o' ws d :
  sys_inv idle v0 0 hb (pend σ) (held σ) (passed σ) (posted σ) gr s0 →
  objs s0 !! p = Some (KMutex o) → tlists s0 !! QSuspend p = Some ws → pend σ !! t = None →
  same_sys (set_objs (<[p := KMutex o']> (objs s0)) s0) s' → rt_interrupt_nest s' = 0 →
  mtx_flag o' = mtx_flag o → mtx_value o' = (match mtx_owner o' with Some _ => 0 | None => 1 end) →
  mutex_ok idle s0 (mtx_owner o') (mtx_original_priority o') (mtx_hold o') ws →
  owned_by t o → owned_by t o' → count_of t o' = count_of t o + d →
  sys_inv idle v0 0 hb (pend σ) (add (t, p) d (held σ)) (passed σ) (posted σ) gr s'.
Proof.
  intros Hi Ho Hl Hpt Hs Hn Hf Hv Hmo Hby Hby' Hd. set (s1 := set_objs (<[p := KMutex o']> (objs s0)) s0) in *.
  destruct (si_mutex _ _ _ _ _ _ _ _ _ _ Hi p o Ho)
    as (ws' & (o1 & Ho1 & _ & _ & _ & _ & _ & Hl1 & Hf1) & _ & Hws). simplify_eq.
  assert (objs s1 !! p = Some (KMutex o')) as Hp1 by apply lookup_insert_eq.
  eapply (sys_inv_nest idle v0 0 0 hb _ _ _ _ gr s1); [exact Hs|exact Hn|].
  change s1 with (set_objs (<[p := KMutex o']> (objs s0)) (set_trace (trace s0) s0)).
  eapply sys_mutex_put; [exact Hi|exact Ho|..].
  - exists ws. split_and!; [|exact Hmo|exact Hws]. exists o'. rewrite Hf. by split_and!.
  - intros u [c Hu]. assert (u ≠ t) by congruence.
    destruct Hby as [-> | ->], Hby' as [-> | ->]; split; congruence.
  - intros u q. rewrite tally_add, (si_held _ _ _ _ _ _ _ _ _ _ Hi).
    change (set_trace (trace s0) s0) with s0. fold s1.
    destruct (decide (q = p)) as [->|Hq]; [|rewrite decide_False by congruence; lia].
    unfold holds. rewrite Ho, Hp1. unfold count_of in Hd.
    destruct (decide (u = t)) as [->|Hu].
    + rewrite (decide_True (P := (t, p) = (t, p))) by done.
      assert (pend σ !! t ≠ Some (InMutexTake (p, t))) by congruence.
      rewrite !(decide_False (P := pend σ !! t = _)) by done. rewrite !Z.sub_0_r. lia.
    + rewrite (decide_False (P := (u, p) = (t, p))) by congruence.
      destruct Hby as [-> | ->], Hby' as [-> | ->]; rewrite !decide_False by congruence; lia.
Qed.

Lemma step_mutex_take_ok t p time o : rt_current_thread (kern σ) = Some t → pend σ !! t = None →
  t ≠ idle → time < half → objs (kern σ) !! p = Some (KMutex o) → mtx_hold o < 0xff →
  ∃ σ', step (AMutexTake p time) σ = Ok tt σ' ∧ sys_ok idle v0 h σ'.
Proof.
  intros Hc Hpt Hn Hti Ho Hmax. destruct (the_caller t Hc Hn) as [th Hcl].
  destruct Hok as (Hk & gr & Hi). pose proof Hcl as [_ Ht Hs _ _].
  pose proof (error_ok gr t th RT_EOK Hc Hpt Ht Hs Hi) as Hi1.
  assert (∀ e, kok idle (set_threads (<[t := th_set_error e th]> (threads (kern σ))) (kern σ))) as Hk1.
  { intros e. by eapply ki_update. }
  destruct (si_mutex _ _ _ _ _ _ _ _ _ _ Hi p o Ho)
    as (ws & (o' & Ho' & _ & _ & _ & _ & Hv & Hl & Hf) & Hmok & Hws). simplify_eq.
  cbn. rewrite (bind_ok _ _ _ _ _ (lift_self t Hc)).
  destruct (mtx_owner o) as [w|] eqn:How.
  2:{ destruct Hmok as [Hh ->].
      destruct (mutex_take_free idle (kern σ) t th p o time Hcl Ho How) as [tr E]; [lia|].
      eexists. split; [by rewrite (bind_ok _ _ _ _ _ (lift_run _ _ _ E))|].
      split; [apply Hk1|]. exists gr.
      destruct (k_started idle ∅ _ _ (kern σ) t th Hk Ht) as ([Hpo _] & _); [set_solver|by left|].
      eapply (mutex_put_ok gr h _ _ t p o _ []); [exact Hi1|exact Ho|exact Hl|exact Hpt|done|apply Hi|..].
      - done.
      - unfold mtx_inc_hold, mtx_set_owner, mtx_set_value. cbn. by rewrite Hv.
      - unfold mtx_inc_hold, mtx_set_owner, mtx_set_value. cbn. rewrite Hh.
        split_and!; [done|done|apply Hpo|apply Hpo|done|].
        eexists. split; [apply lookup_insert_eq|by left].
      - by left.
      - by right.
      - unfold count_of, mtx_inc_hold. cbn. rewrite decide_True, How, decide_False, Hh by done. done. }
  destruct Hmok as (Hh & Hor & Hwi & thw & Htw & Hsw).
  destruct (decide (w = t)) as [->|Hwt].
  { destruct (mutex_take_again idle (kern σ) t th p o time Hcl Ho How) as [tr E].
    eexists. split; [by rewrite (bind_ok _ _ _ _ _ (lift_run _ _ _ E))|].
    split; [apply Hk1|]. exists gr.
    assert (u8 (mtx_hold o + 1) = mtx_hold o + 1) as Eu by (apply wrap_small; lia).
    eapply (mutex_put_ok gr h _ _ t p o _ ws); [exact Hi1|exact Ho|exact Hl|exact Hpt|done|apply Hi|..].
    - done.
    - unfold mtx_inc_hold. cbn. by rewrite How.
    - unfold mtx_inc_hold. cbn. rewrite How, Eu. split_and!; [lia|lia|apply Hor|apply Hor|done|].
      eexists. split; [apply lookup_insert_eq|by left].
    - by right.
    - right. exact How.
    - unfold count_of, mtx_inc_hold. cbn. rewrite How, Eu. by rewrite !decide_True. }
  destruct (decide (time = 0)) as [->|Hz].
  { destruct (mutex_take_no_wait idle (kern σ) t th p o w Hcl Ho How Hwt Hv) as [tr E].
    eexists. split; [by rewrite (bind_ok _ _ _ _ _ (lift_run _ _ _ E))|].
    split; [apply Hk1|]. exists gr. pose proof (error_ok gr t th (- RT_ETIMEOUT) Hc Hpt Ht Hs Hi) as Hi2.
    eapply (sys_inv_nest idle v0 0 0 h); [| |exact Hi2]; [done|apply Hi2]. }
  destruct (mutex_take_blocks idle (kern σ) t th p o w thw time ws Hk Hcl Ho How Hwt Hv Htw Hsw Hwi Hf Hl Hz Hti)
    as (s2 & s' & E & Hr & Hw).
  eexists. split; [by rewrite (bind_ok _ _ _ _ _ (lift_run _ _ _ E))|].
  assert (sys_inv idle v0 0 h (pend σ) (held σ) (passed σ) (posted σ) gr (take_entry t p th (kern σ))) as Hi2.
  { eapply (sys_inv_nest idle v0 0 0 h); [| |exact Hi1]; [done|apply Hi1]. }
  assert (threads (take_entry t p th (kern σ)) !! w = Some thw) as Htw2.
  { cbn. by rewrite lookup_insert_ne. }
  pose proof (prio_ok' gr _ _ _ _ _ s2 w _ thw Hr Htw2 Hi2) as Hi3.
  eapply block_ok; [|exact Hpt|exact Hw| |apply wait_insert_perm| |right; split; [done|]].
  - eapply (sys_inv_nest idle v0 0 0 false); [| |exact Hi3]; [done|apply Hi3].
  - cbn. rewrite (rp_lists _ _ _ _ _ Hr (QSuspend p)) by done. exact Hl.
  - cbn. rewrite (rp_others _ _ _ _ _ Hr) by done. apply lookup_insert_eq.
  - exists o, w. split_and!; [|done|done]. cbn. rewrite (rp_objs _ _ _ _ _ Hr). exact Ho.
Qed.

(** The last release by the owner. *)
Lemma step_mutex_pass_ok gr t th p o ws :
  sys_inv idle v0 0 h (pend σ) (held σ) (passed σ) (posted σ) gr (kern σ) →
  caller idle (kern σ) t th → pend σ !! t = None →
  objs (kern σ) !! p = Some (KMutex o) → tlists (kern σ) !! QSuspend p = Some ws →
  mtx_owner o = Some t → mtx_hold o = 1 → mtx_value o = 0 →
  0 ≤ mtx_original_priority o < RT_THREAD_PRIORITY_MAX →
  ∃ s', rt_mutex_release p (kern σ) = Ok RT_EOK s' ∧
    sys_ok idle v0 false (mk_system s' (pend σ) (add (t, p) (-1) (held σ)) (passed σ) (posted σ)).
Proof.
  intros Hi Hcl Hpt Ho Hl How Hh Hv Hor. destruct Hok as [Hk _].
  pose proof Hcl as [Hc Ht Hs Hti _].
  assert (u8 (mtx_hold o - 1) = 0) as H0 by by rewrite Hh.
  destruct (mutex_release_run idle (kern σ) t th p o Hk Hcl Ho How H0 Hor) as (s2 & Hk2 & Hr & E).
  assert (objs s2 = <[p := KMutex (mtx_dec_hold o)]> (objs (kern σ))) as Eo2 by apply (rp_objs _ _ _ _ _ Hr).
  assert (∀ q, tlists s2 !! QSuspend q = tlists (kern σ) !! QSuspend q) as Hq2.
  { intros q. by apply (rp_lists _ _ _ _ _ Hr (QSuspend q)). }
  assert (objs s2 !! p = Some (KMutex (mtx_dec_hold o))) as Ho2 by (rewrite Eo2; apply lookup_insert_eq).
  pose proof (Hq2 p) as Hl2. rewrite Hl in Hl2.
  set (s2' := set_objs (objs (kern σ)) s2).
  assert (reprioritized t (mtx_original_priority o) th (set_primask (primask s2) (kern σ)) s2') as Hr'.
  { destruct Hr. by split. }
  assert (sys_inv idle v0 0 false (pend σ) (held σ) (passed σ) (posted σ) gr s2') as Hi2.
  { eapply prio_ok'; [exact Hr'|exact Ht|].
    eapply (sys_inv_nest idle v0 0 0 h); [| |exact Hi]; [done|apply Hi]. }
  assert (rt_interrupt_nest s2 = 0) as Hn2 by (rewrite (rp_nest _ _ _ _ _ Hr); apply Hi).
  destruct ws as [|u ws].
  - rewrite (bind_ok _ _ _ _ _ (pass_mutex_free s2 p _ Ho2 Hl2)) in E.
    eexists. split; [exact E|]. split; [exact Hk2|]. exists gr. cbn [kern pend held passed posted].
    eapply (mutex_put_ok gr false s2' _ t p o (free_mutex (mtx_dec_hold o)) []);
      [exact Hi2|exact Ho|exact Hl2|exact Hpt| |exact Hn2|..].
    + split_and!; try done. cbn. by rewrite Eo2, insert_insert_eq.
    + done.
    + unfold free_mutex, mtx_dec_hold. cbn. by rewrite Hv.
    + unfold free_mutex, mtx_dec_hold. cbn. by rewrite H0.
    + by right.
    + by left.
    + unfold count_of, free_mutex. cbn. by rewrite How, decide_False, decide_True, Hh.
  - destruct (pass_mutex_next idle s2 p _ u ws Hk2 Ho2 Hl2) as (thu & s3 & Ep & Hws).
    destruct (wakes_schedule idle _ _ _ _ _ s3 (primask (kern σ)) Hws) as (Es & Hws' & Hrun).
    rewrite (bind_ok _ _ _ _ _ Ep) in E.
    eexists. split; [rewrite E; krun; by rewrite Es|]. split; [apply Hws'|]. exists gr.
    cbn [kern pend held passed posted]. pose proof Hws' as []. destruct k_was as [Htu Hsu].
    change (threads s2 !! u = Some thu) in Htu.
    set (s' := schedule_state _) in *.
    assert (∀ v, v ≠ u → threads s' !! v = threads s2 !! v) as Hoth by exact k_others.
    assert (0 ≤ th_current_priority thu < RT_THREAD_PRIORITY_MAX) as Hpu.
    { apply (k_started idle ∅ _ _ s2 u thu Hk2 Htu); [set_solver|by right]. }
    apply (sys_inv_weaken _ _ _ true); [|done].
    eapply (sys_wake_mutex idle v0 0 false _ _ _ _ gr s2' Hi2 _ _ p o) with (u := u) (ws := ws);
      [exact Hk2|exact k_ok|exact Hrun|exact Ho|exact How|exact Hh|exact Hpt|exact Hl2|exact k_list|..].
    + intros q Hq. apply k_lists; [done|congruence].
    + rewrite k_objs. cbn. by rewrite Eo2, insert_insert_eq.
    + done.
    + done.
    + unfold mtx_inc_hold, mtx_dec_hold. cbn. by rewrite H0.
    + exact Hv.
    + exact Hpu.
    + exact k_thread.
    + done.
    + intros th' Hth'. change (threads s2') with (threads s2) in Hth'. by simplify_eq.
    + intros v Hvu thv Hthv. exists thv. by rewrite Hoth.
    + intros v thv Hthv Hsv. destruct (decide (v = u)) as [->|Hvu].
      * eexists. split; [exact k_thread|by left].
      * exists thv. by rewrite Hoth.
    + rewrite k_lock. cbn. rewrite (rp_lock _ _ _ _ _ Hr). apply Hi.
    + rewrite k_nest. exact Hn2.
Qed.

Lemma step_mutex_release_ok t p o : rt_current_thread (kern σ) = Some t → pend σ !! t = None →
  t ≠ idle → objs (kern σ) !! p = Some (KMutex o) →
  ∃ σ', step (AMutexRelease p) σ = Ok tt σ' ∧ sys_ok idle v0 false σ'.
Proof.
  intros Hc Hpt Hn Ho. destruct (the_caller t Hc Hn) as [th Hcl]. pose proof Hok as (Hk & gr & Hi).
  pose proof Hcl as [_ Ht Hs _ _].
  destruct (si_mutex _ _ _ _ _ _ _ _ _ _ Hi p o Ho)
    as (ws & (o' & Ho' & _ & _ & _ & _ & Hv & Hl & Hf) & Hmok & Hws). simplify_eq.
  cbn. rewrite (bind_ok _ _ _ _ _ (lift_self t Hc)).
  assert (∀ s', sys_inv idle v0 0 h (pend σ) (held σ) (passed σ) (posted σ) gr s' → kok idle s' →
    sys_ok idle v0 false (mk_system s' (pend σ) (held σ) (passed σ) (posted σ))) as Hsame.
  { intros s' Hi' Hk'. split; [done|]. exists gr. by eapply sys_inv_weaken. }
  destruct (decide (mtx_owner o = Some t)) as [How|How].
  2:{ destruct (mutex_release_denied idle (kern σ) t th p o Hcl Ho How) as [tr E].
      eexists. split; [by rewrite (bind_ok _ _ _ _ _ (lift_run _ _ _ E))|].
      pose proof (error_ok gr t th (- RT_ERROR) Hc Hpt Ht Hs Hi) as Hi2. apply Hsame.
      - eapply (sys_inv_nest idle v0 0 0 h); [| |exact Hi2]; [done|apply Hi2].
      - by eapply ki_update. }
  rewrite How in Hmok, Hv. destruct Hmok as (Hh & Hor & Hmok).
  destruct (decide (mtx_hold o = 1)) as [H1|H1].
  - destruct (step_mutex_pass_ok gr t th p o ws) as (s' & E & Hs'); try done.
    eexists. split; [by rewrite (bind_ok _ _ _ _ _ (lift_run _ _ _ E))|]. exact Hs'.
  - assert (u8 (mtx_hold o - 1) = mtx_hold o - 1) as Eu by (apply wrap_small; lia).
    destruct (mutex_release_held idle (kern σ) t th p o Hcl Ho How) as [tr E]; [lia|].
    eexists. split; [by rewrite (bind_ok _ _ _ _ _ (lift_run _ _ _ E))|]. split; [exact Hk|].
    exists gr. cbn [kern pend held passed posted].
    eapply (mutex_put_ok gr false (kern σ) _ t p o (mtx_dec_hold o) ws);
      [by eapply sys_inv_weaken|exact Ho|exact Hl|exact Hpt|done|apply Hi|..].
    + done.
    + unfold mtx_dec_hold. cbn. by rewrite How.
    + unfold mtx_dec_hold. cbn. rewrite How, Eu. split_and!; [lia|lia|apply Hor|apply Hor|apply Hmok..].
    + by right.
    + right. exact How.
    + unfold count_of, mtx_dec_hold. cbn. rewrite How, Eu, !decide_True by done. lia.
Qed.
End steps_ok.

(** ** Properties *)

(** A system in which no thread is in a call: nobody waits for a semaphore, and
    the mutexes are free. *)
Record start (idle : Z) (s : kstate) : Prop := {
  st_kok : kok idle s;
  st_run : running_ready s;
  st_lock : rt_scheduler_lock_nest s = 0;
  st_nest : rt_interrupt_nest s = 0;
  st_sem : ∀ p o, objs s !! p = Some (KSem o) →
    sem_is s p (sem_flag o) (sem_value o) [] ∧ 0 ≤ sem_value o < 2 ^ 16;
  st_mutex : ∀ p o, objs s !! p = Some (KMutex o) →
    mutex_is s p (mtx_flag o) None (mtx_original_priority o) 0 []
}.

Definition boot (s : kstate) : system := mk_system s ∅ ∅ ∅ ∅.
Definition units (s : kstate) (p : Z) : Z :=
  match objs s !! p with Some (KSem o) => sem_value o | _ => 0 end.

Definition is_release (a : act) : bool := match a with AMutexRelease _ => true | _ => false end.

Section reach.
Context {cfg : RTConfig} (idle : Z).

Lemma start_ok s : start idle s → sys_ok idle (units s) false (boot s).
Proof.
  intros []. split; [done|]. exists ∅. split; try done.
  - intros p o Hp. destruct (st_sem0 p o Hp) as [Hs Hv]. exists []. split_and!; [done| |].
    + split; [done|by left].
    + by intros u ?%elem_of_nil.
  - intros p o Hp. change (objs s !! p = Some (KMutex o)) in Hp.
    pose proof (st_mutex0 p o Hp) as Hm.
    pose proof Hm as (o' & Ho & _ & How & _ & Hh & _). simplify_eq.
    exists []. rewrite How, Hh. split_and!; [done|done|]. by intros u ?%elem_of_nil.
  - intros t p. change (tally (t, p) (held (boot s))) with 0. unfold holds. cbn.
    destruct (objs s !! p) as [[]|] eqn:Hp; try done.
    destruct (st_mutex0 p _ Hp) as (o' & Ho & _ & How & _). simplify_eq. by rewrite How, decide_False.
  - intros u p. rewrite !lookup_empty. split; [done|by intros [? _]].
  - intros p o Hp. change (objs s !! p = Some (KSem o)) in Hp. unfold units. rewrite Hp.
    rewrite map_filter_empty. done.
Qed.

Lemma step_ok v0 h σ a : sys_ok idle v0 h σ → legal idle σ a →
  ∃ σ', step a σ = Ok tt σ' ∧ sys_ok idle v0 (h && negb (is_release a)) σ'.
Proof.
  intros Hok (t & Hc & Hl). destruct a; cbn [is_release negb]; rewrite ?andb_true_r, ?andb_false_r.
  - by apply step_tick_ok.
  - by eapply step_yield_ok.
  - destruct Hl as (? & ? & ?). by eapply step_sleep_ok.
  - destruct Hl as (? & ? & ? & o & ?). by eapply step_sem_take_ok.
  - destruct Hl as (? & o & ? & ?). by eapply step_sem_release_ok.
  - destruct Hl as (? & ? & ? & o & ? & ?). by eapply step_mutex_take_ok.
  - destruct Hl as (? & ? & o & ?). by eapply step_mutex_release_ok.
  - by eapply step_return_ok.
Qed.

Lemma sys_ok_weaken v0 h σ : sys_ok idle v0 h σ → sys_ok idle v0 false σ.
Proof. intros (Hk & gr & Hi). split; [done|]. exists gr. by eapply sys_inv_weaken. Qed.

Lemma reachable_ok s σ : start idle s → reachable idle (boot s) σ → sys_ok idle (units s) false σ.
Proof.
  intros Hs. induction 1 as [|σ a σ' Hr IH Hl E]; [by apply start_ok|].
  destruct (step_ok _ _ σ a IH Hl) as (σ1 & E1 & Hok). rewrite E in E1. by injection E1 as <-.
Qed.

(** C1: from a system in which no thread is in a call, whatever legal steps the
    threads and the clock interrupt make, in any order, every next legal step
    runs without a fault, the invariant of the kernel holds, the running
    thread is ready, and the clock may tick. *)
Theorem system_safe (s : kstate) (σ : system) :
  start idle s → reachable idle (boot s) σ →
  (∀ a, legal idle σ a → ∃ σ', step a σ = Ok tt σ' ∧ reachable idle (boot s) σ') ∧
  kok idle (kern σ) ∧ running_ready (kern σ) ∧ legal idle σ ATick.
Proof.
  intros Hs Hr. pose proof (reachable_ok s σ Hs Hr) as Hok. pose proof Hok as (Hk & gr & Hi).
  split_and!; [|done|apply Hi|].
  - intros a Hl. destruct (step_ok _ _ σ a Hok Hl) as (σ' & E & _). exists σ'. split; [done|].
    by eapply reach_step.
  - destruct (si_run _ _ _ _ _ _ _ _ _ _ Hi) as (t & _ & Hc & _). by exists t.
Qed.

(** C2: at any time at most one thread has taken a mutex more often than it
    released it, counting the calls that returned [RT_EOK]; it is the owner of
    the mutex. *)
Theorem mutual_exclusion (s : kstate) (σ : system) (m t u : Z) :
  start idle s → reachable idle (boot s) σ →
  0 < tally (t, m) (held σ) → 0 < tally (u, m) (held σ) →
  t = u ∧ ∃ o, objs (kern σ) !! m = Some (KMutex o) ∧ mtx_owner o = Some t.
Proof.
  intros Hs Hr Ht Hu. destruct (reachable_ok s σ Hs Hr) as (_ & gr & Hi).
  rewrite (si_held _ _ _ _ _ _ _ _ _ _ Hi) in Ht, Hu. unfold holds in *.
  destruct (objs (kern σ) !! m) as [[]|] eqn:Hm; try lia.
  destruct (decide (mtx_owner o = Some t)); [|lia].
  destruct (decide (mtx_owner o = Some u)); [|lia].
  split; [congruence|]. by exists o.
Qed.

(** C4: the calls of [rt_sem_take] that returned [RT_EOK] and the value of the
    semaphore together never exceed its initial value and the releases, and no
    thread waits for a semaphore whose value is positive. *)
Theorem semaphore_conservation (s : kstate) (σ : system) (p : Z) (o : rt_semaphore) :
  start idle s → reachable idle (boot s) σ → objs (kern σ) !! p = Some (KSem o) →
  tally p (passed σ) + sem_value o ≤ units s p + tally p (posted σ) ∧
  ∃ ws, tlists (kern σ) !! QSuspend p = Some ws ∧ (0 < sem_value o → ws = []) ∧
    ∀ u, u ∈ ws → pend σ !! u = Some (InSemTake (p, u)).
Proof.
  intros Hs Hr Ho. destruct (reachable_ok s σ Hs Hr) as (_ & gr & Hi).
  pose proof (si_count _ _ _ _ _ _ _ _ _ _ Hi p o Ho). split; [lia|].
  destruct (si_sem _ _ _ _ _ _ _ _ _ _ Hi p o Ho) as (ws & (? & _ & _ & _ & Hl & _) & [_ Hok] & Hw).
  exists ws. split_and!; [done| |done]. intros ?. destruct Hok; [done|lia].
Qed.

(** A run that stops at a fault. *)
Fixpoint run_acts (l : list act) (σ : system) : system :=
  match l with
  | [] => σ
  | a :: l => match step a σ with Ok _ σ' => run_acts l σ' | Fault _ => σ end
  end.
Fixpoint legal_acts (l : list act) (σ : system) : Prop :=
  match l with
  | [] => True
  | a :: l => legal idle σ a ∧
      match step a σ with Ok _ σ' => legal_acts l σ' | Fault _ => False end
  end.

Lemma legal_reachable l : ∀ σ0 σ,
  reachable idle σ0 σ → legal_acts l σ → reachable idle σ0 (run_acts l σ).
Proof.
  induction l as [|a l IH]; intros σ0 σ Hr Hl; [done|]. destruct Hl as [Ha Hl]. cbn [run_acts].
  destruct (step a σ) as [[] σ'|] eqn:E; [|done]. apply IH; [|done]. by eapply reach_step.
Qed.

(** The most urgent thread runs on while no mutex is released. *)
Lemma quiet_acts_ok un l : ∀ σ, sys_ok idle un true σ → legal_acts l σ →
  Forall (λ a, is_release a = false) l → sys_ok idle un true (run_acts l σ).
Proof.
  induction l as [|a l IH]; intros σ Hok Hl Ha; [done|]. destruct Hl as [Hla Hl].
  apply Forall_cons in Ha as [Ha Has]. cbn [run_acts].
  destruct (step_ok _ _ σ a Hok Hla) as (σ1 & E & Hok1). rewrite E in *. rewrite Ha in Hok1.
  by apply IH.
Qed.

(** C3: from any reachable point at which the running thread is the first of the
    most urgent ready priority, it is so after every sequence of legal steps of
    the threads and of the clock in which no mutex is released, whoever runs
    then.  (After the release of a mutex it need not be so:
    [release_does_not_schedule].) *)
Theorem most_urgent_runs (s : kstate) (σ : system) (l : list act) :
  start idle s → reachable idle (boot s) σ → highest_runs (kern σ) →
  legal_acts l σ → Forall (λ a, is_release a = false) l →
  let σ' := run_acts l σ in
  highest_runs (kern σ') ∧ ∃ t th, most_urgent (kern σ') t th.
Proof.
  intros Hs Hr Hh Hl Ha. destruct (reachable_ok s σ Hs Hr) as (Hk & gr & Hi).
  assert (sys_ok idle (units s) true σ) as Hok.
  { split; [done|]. exists gr. split; try apply Hi. done. }
  destruct (quiet_acts_ok (units s) l σ Hok Hl Ha) as (Hk' & gr' & Hi').
  assert (highest_runs (kern (run_acts l σ))) as Hh' by by apply Hi'.
  split; [done|]. eapply highest_most_urgent; [exact Hk'|apply Hi'|done].
Qed.
End reach.

(** ** Instances *)

(** Two objects nobody waits for: a semaphore of one unit and a mutex. *)
Definition demo_shared : kstate :=
  demo [(QSuspend 102, []); (QSuspend 103, [])]
    [(102, demo_sem 1 RT_IPC_FLAG_PRIO); (103, demo_mutex None 0xff 0 RT_IPC_FLAG_PRIO)].

Lemma demo_shared_start : start 1 demo_shared.
Proof.
  assert (objs demo_shared = <[102 := demo_sem 1 RT_IPC_FLAG_PRIO]>
    (<[103 := demo_mutex None 0xff 0 RT_IPC_FLAG_PRIO]> ∅)) as Eo by reflexivity.
  split; [apply kinv_check_spec; vm_compute; reflexivity
    |by exists 2, (demo_thread 2 RT_THREAD_READY 10)|done|done| |];
    rewrite Eo; intros p o [[<- Hp]|[_ [[<- Hp]|[_ Hp]]%lookup_insert_Some]]%lookup_insert_Some;
    try done; injection Hp as <-.
  - split; [|done]. eexists. split; [reflexivity|]. split_and!; [done|done|reflexivity|by right].
  - eexists. split; [reflexivity|]. split_and!; [done..|reflexivity|by right].
Qed.

(** Thread 2 takes the mutex and the semaphore, and the clock ticks. *)
Definition demo_acts : list act := [AMutexTake 103 (-1); ASemTake 102 5; ATick].
Definition demo_run : system := run_acts (cfg := gd32_config) demo_acts (boot demo_shared).

Lemma demo_legal : legal_acts (cfg := gd32_config) 1 demo_acts (boot demo_shared).
Proof.
  cbn [legal_acts demo_acts]. split.
  { exists 2. split; [reflexivity|]. split_and!; [reflexivity|lia|reflexivity|].
    eexists. split; [reflexivity|done]. }
  vm_compute. split.
  { exists 2. split_and!; [reflexivity|reflexivity|lia|reflexivity|]. eexists. reflexivity. }
  split; [|exact I]. exists 2. by split.
Qed.
Lemma demo_reachable : reachable (cfg := gd32_config) 1 (boot demo_shared) demo_run.
Proof. apply legal_reachable; [apply reach_start|exact demo_legal]. Qed.

Lemma system_safe_witness :
  (∀ a, legal 1 demo_run a → ∃ σ', step (cfg := gd32_config) a demo_run = Ok tt σ' ∧
     reachable (cfg := gd32_config) 1 (boot demo_shared) σ') ∧ kok 1 (kern demo_run).
Proof.
  destruct (system_safe (cfg := gd32_config) 1 demo_shared demo_run demo_shared_start demo_reachable)
    as (Hs & Hk & _).
  by split.
Defined.

Lemma mutual_exclusion_witness :
  ∃ o, objs (kern demo_run) !! 103 = Some (KMutex o) ∧ mtx_owner o = Some 2.
Proof.
  apply (mutual_exclusion (cfg := gd32_config) 1 demo_shared demo_run 103 2 2 demo_shared_start demo_reachable);
    vm_compute; reflexivity.
Defined.

Lemma semaphore_conservation_witness :
  ∃ o, objs (kern demo_run) !! 102 = Some (KSem o) ∧
    tally 102 (passed demo_run) + sem_value o ≤ units demo_shared 102 + tally 102 (posted demo_run).
Proof.
  eexists. split; [vm_compute; reflexivity|].
  apply (semaphore_conservation (cfg := gd32_config) 1 demo_shared demo_run 102 _ demo_shared_start demo_reachable).
  vm_compute. reflexivity.
Defined.

Lemma most_urgent_runs_witness :
  ∃ t th, most_urgent (kern demo_run) t th.
Proof.
  apply (most_urgent_runs (cfg := gd32_config) 1 demo_shared (boot demo_shared) demo_acts
    demo_shared_start).
  - apply reach_start.
  - intros _. exists 2, [4]. split; vm_compute; reflexivity.
  - exact demo_legal.
  - repeat constructor.
Defined.

(** Thread 3, of priority 5, waits 5 ticks for the mutex of thread 2, which gets
    its priority.  After the wait is over thread 2 releases the mutex: it goes
    back to priority 10 and runs on, although thread 3 is ready. *)
Example release_does_not_schedule :
  let σ := run_acts (cfg := gd32_config) ([AMutexTake 103 (-1)] ++ replicate 20 ATick ++
    [AMutexTake 103 5] ++ replicate 5 ATick ++ [AMutexRelease 103]) (boot demo_shared) in
  rt_current_thread (kern σ) = Some 2 ∧
  (th_current_priority <$> threads (kern σ) !! 2) = Some 10 ∧
  (th_stat <$> threads (kern σ) !! 3) = Some RT_THREAD_READY ∧
  (th_current_priority <$> threads (kern σ) !! 3) = Some 5.
Proof. vm_compute. split_and!; reflexivity. Qed.
