(* ===== verification/Event.v ===== *)
(** * Events ([rtthread/kernel/src/ipc.c], [rt_event_*])

    The operations, and what a send does to the threads that wait: a pure scan
    of the waiting list. *)

From S2P Require Import Prelude RtDef SortedList Mem KService Kernel Cpuport Scheduler.
From S2P Require Import Object Timer Invariant Thread Clock Ipc Demo.

(** ** Operations *)
Section ops.
Context {cfg : RTConfig}.

Definition put_event (p : Z) (o : rt_event) : K unit := put_obj p (KEvent o).
Definition evt_flag (o : rt_event) : Z := obj_flag (evt_parent o).
Definition evt_put_set (event v : Z) : K unit :=
  let! o := get_event event in put_event event (mk_event (evt_parent o) v).
(** [flags & bit] as a condition. *)
Definition has_flag (flags bit : Z) : bool := negb (Z.land flags bit =? 0).
(** [set & ~got] on 32 bits. *)
Definition clear_set (set got : Z) : Z := Z.land set (u32 (Z.lnot got)).

Definition event_setup (event flag : Z) : K unit :=
  let! o := get_event event in
  put_event event (mk_event (obj_set_flag flag (evt_parent o)) (evt_set o)) ;;;
  rt_ipc_object_init event ;;;
  evt_put_set event 0.

Definition rt_event_init (event : Z) (name : list Z) (flag : Z) : K Z :=
  rt_object_init (OIpc event) RT_Object_Class_Event name ;;;
  event_setup event flag ;;;
  ret RT_EOK.

Definition rt_event_detach (event : Z) : K Z :=
  rt_ipc_list_resume_all (QSuspend event) ;;;
  rt_object_detach (OIpc event) ;;;
  ret RT_EOK.

Definition rt_event_create (name : list Z) (flag : Z) (raw_event : rt_event) : K (option Z) :=
  RT_DEBUG_NOT_IN_INTERRUPT ;;;
  let! o := rt_object_allocate RT_Object_Class_Event name (RawObj (KEvent raw_event)) in
  match o with
  | Some (OIpc event) => event_setup event flag ;;; ret (Some event)
  | _ => ret None
  end.

Definition rt_event_delete (event : Z) : K Z :=
  RT_DEBUG_NOT_IN_INTERRUPT ;;;
  rt_ipc_list_resume_all (QSuspend event) ;;;
  rt_object_delete (OIpc event) ;;;
  ret RT_EOK.

(** The status that decides whether the waiting [thread] is resumed, and the
    iteration of the loop over the waiting threads. *)
Definition send_status (event thread : Z) : K bool :=
  let! o := get_event event in
  let! th := get_thread thread in
  if has_flag (th_event_info th) RT_EVENT_FLAG_AND then
    ret (Z.land (th_event_set th) (evt_set o) =? th_event_set th)
  else if has_flag (th_event_info th) RT_EVENT_FLAG_OR then
    if negb (Z.land (th_event_set th) (evt_set o) =? 0) then
      put_thread thread
        (th_set_event (Z.land (th_event_set th) (evt_set o)) (th_event_info th) th) ;;;
      ret true
    else ret false
  else ret false.

Definition send_one (event thread : Z) : K bool :=
  let! status := send_status event thread in
  (when status then
     let! th := get_thread thread in
     let! o := get_event event in
     (when has_flag (th_event_info th) RT_EVENT_FLAG_CLEAR then
        evt_put_set event (clear_set (evt_set o) (th_event_set th))) ;;;
     rt_thread_resume thread ;;;
     ret tt) ;;;
  ret status.

(** The loop; [n->next] is read before a thread is resumed, and only [n] leaves
    the list, so it goes over the list as it was.  The result is
    [need_schedule]. *)
Fixpoint send_loop (event : Z) (l : list Z) : K bool :=
  match l with
  | [] => ret false
  | thread :: l =>
    let! resumed := send_one event thread in
    let! need_schedule := send_loop event l in
    ret (resumed || need_schedule)
  end.

Definition rt_event_send (event set : Z) : K Z :=
  if set =? 0 then ret (- RT_ERROR) else
  RT_OBJECT_HOOK_CALL rt_object_put_hook (arg_object (OIpc event)) ;;;
  let! level := rt_hw_interrupt_disable in
  let! o := get_event event in
  evt_put_set event (Z.lor (evt_set o) set) ;;;
  let! e := tl_isempty (QSuspend event) in
  let! need_schedule :=
    (if negb e then let! l := tl_get (QSuspend event) in send_loop event l else ret false) in
  rt_hw_interrupt_enable level ;;;
  (when need_schedule then rt_schedule) ;;;
  ret RT_EOK.

(** The three ways to go on, once the status is known. *)
Definition recv_decided (event thread set option timeout : Z) (o : rt_event) (level : Z)
    (status : bool) : K (outcome (Z * (Datatypes.option Z)) (Z * Z)) :=
  if status then
    (when has_flag option RT_EVENT_FLAG_CLEAR then
       evt_put_set event (clear_set (evt_set o) set)) ;;;
    rt_hw_interrupt_enable level ;;;
    RT_OBJECT_HOOK_CALL rt_object_take_hook (arg_object (OIpc event)) ;;;
    let! th := get_thread thread in
    ret (Returned (th_error th, Some (Z.land (evt_set o) set)))
  else if timeout =? 0 then
    upd_thread thread (th_set_error (- RT_ETIMEOUT)) ;;;
    rt_hw_interrupt_enable level ;;;
    RT_OBJECT_HOOK_CALL rt_object_take_hook (arg_object (OIpc event)) ;;;
    let! th := get_thread thread in
    ret (Returned (th_error th, None))
  else
    upd_thread thread (th_set_event set option) ;;;
    ipc_wait (QSuspend event) thread (evt_flag o) timeout ;;;
    rt_hw_interrupt_enable level ;;;
    rt_schedule ;;;
    ret (Blocked (event, thread)).

(** The result is the error and what is written to [*recved], if anything. *)
Definition rt_event_recv (event set option timeout : Z) : K (outcome (Z * (Datatypes.option Z)) (Z * Z)) :=
  RT_DEBUG_IN_THREAD_CONTEXT ;;;
  if set =? 0 then ret (Returned (- RT_ERROR, None)) else
  let! thread := self in
  upd_thread thread (th_set_error RT_EOK) ;;;
  RT_OBJECT_HOOK_CALL rt_object_trytake_hook (arg_object (OIpc event)) ;;;
  let! level := rt_hw_interrupt_disable in
  let! o := get_event event in
  let! status :=
    (if has_flag option RT_EVENT_FLAG_AND then ret (Z.land (evt_set o) set =? set)
     else if has_flag option RT_EVENT_FLAG_OR then ret (negb (Z.land (evt_set o) set =? 0))
     else RT_ASSERT false ;;; ret false) in
  recv_decided event thread set option timeout o level status.

(** After the [rt_schedule()] of a blocked receive. *)
Definition rt_event_recv_return (c : Z * Z) : K (Z * Datatypes.option Z) :=
  let '(event, thread) := c in
  let! th := get_thread thread in
  if negb (th_error th =? RT_EOK) then ret (th_error th, None)
  else
    let! level := rt_hw_interrupt_disable in
    rt_hw_interrupt_enable level ;;;
    RT_OBJECT_HOOK_CALL rt_object_take_hook (arg_object (OIpc event)) ;;;
    let! th' := get_thread thread in
    ret (th_error th', Some (th_event_set th)).

Definition rt_event_control (event cmd arg : Z) : K Z :=
  if cmd =? RT_IPC_CMD_RESET then
    let! level := rt_hw_interrupt_disable in
    rt_ipc_list_resume_all (QSuspend event) ;;;
    evt_put_set event 0 ;;;
    rt_hw_interrupt_enable level ;;;
    rt_schedule ;;;
    ret RT_EOK
  else ret (- RT_ERROR).

End ops.

(** ** The specification *)

(** What a thread that waits for [want] with [info] gets from [set]. *)
Definition evt_match (info want set : Z) : option Z :=
  if has_flag info RT_EVENT_FLAG_AND then
    if Z.land want set =? want then Some want else None
  else if has_flag info RT_EVENT_FLAG_OR then
    if negb (Z.land want set =? 0) then Some (Z.land want set) else None
  else None.

Definition evt_left (info got set : Z) : Z :=
  if has_flag info RT_EVENT_FLAG_CLEAR then clear_set set got else set.

(** A send looks at the waiting threads in order: the bits left at the end, and
    the threads that go on with what they get. *)
Fixpoint evt_scan (ths : gmap Z rt_thread) (set : Z) (l : list Z) : Z * list (Z * Z) :=
  match l with
  | [] => (set, [])
  | t :: l =>
    let th := ths !! t in
    match th ≫= λ th, (λ got, (got, evt_left (th_event_info th) got set)) <$>
      evt_match (th_event_info th) (th_event_set th) set with
    | Some (got, rest) => let '(set', w) := evt_scan ths rest l in (set', (t, got) :: w)
    | None => evt_scan ths set l
    end
  end.

(** The waiting threads that stay. *)
Definition stay (w : list (Z * Z)) (l : list Z) : list Z := filter (λ t, t ∉ w.*1) l.

Lemma evt_scan_ext ths ths' set l :
  Forall (λ t, ths !! t = ths' !! t) l → evt_scan ths set l = evt_scan ths' set l.
Proof.
  intros Hl. revert set. induction Hl as [|t l Ht Hl IH]; intros set; simpl; [done|].
  rewrite Ht. case_match; [|done]. destruct p. by rewrite IH.
Qed.

Lemma evt_scan_elem ths l set set' w t got :
  evt_scan ths set l = (set', w) → (t, got) ∈ w → t ∈ l.
Proof.
  revert set set' w. induction l as [|u l IH]; intros set set' w; simpl; [naive_solver set_solver|].
  repeat case_match; intros ? ?; simplify_eq; set_solver.
Qed.

Section runs.
Context {cfg : RTConfig} (idle : Z).

Lemma get_event_run s p o : objs s !! p = Some (KEvent o) → get_event p s = Ok o s.
Proof. intros Ho. unfold get_event. krun. by rewrite Ho. Qed.

(** What the loop leaves when [w] are the threads it woke. *)
Record sends (event : Z) (o : rt_event) (set : Z) (w : list (Z * Z)) (l : list Z)
    (s s' : kstate) : Prop := {
  sd_ok : kok idle s';
  sd_mask : primask s' = primask s;
  sd_objs : objs s' = <[event := KEvent (mk_event (evt_parent o) set)]> (objs s);
  sd_woken : ∀ t got, (t, got) ∈ w → ∃ th, threads s !! t = Some th ∧
    threads s' !! t = Some (th_set_stat RT_THREAD_READY (th_set_event got (th_event_info th) th));
  sd_others : ∀ t, t ∉ w.*1 → threads s' !! t = threads s !! t;
  sd_list : tlists s' !! QSuspend event = Some (stay w l)
}.

Lemma send_status_run s event o t th :
  objs s !! event = Some (KEvent o) → threads s !! t = Some th →
  send_status event t s =
    match evt_match (th_event_info th) (th_event_set th) (evt_set o) with
    | Some got => Ok true (if has_flag (th_event_info th) RT_EVENT_FLAG_AND then s else
        set_threads (<[t := th_set_event got (th_event_info th) th]> (threads s)) s)
    | None => Ok false s
    end.
Proof.
  intros Ho Ht. unfold send_status, evt_match. rewrite (bind_ok _ _ _ _ _ (get_event_run s event o Ho)).
  krun. rewrite Ht. krun. repeat case_match; try done; congruence.
Qed.

Lemma match_and info want set got :
  evt_match info want set = Some got → has_flag info RT_EVENT_FLAG_AND = true → got = want.
Proof. unfold evt_match. intros Hm Hf. rewrite Hf in Hm. case_match; by simplify_eq. Qed.

(** The thread [u], which is satisfied, is taken off the list. *)
Lemma send_one_run s event o u th got l0 :
  kok idle s → objs s !! event = Some (KEvent o) → tlists s !! QSuspend event = Some l0 → u ∈ l0 →
  threads s !! u = Some th →
  evt_match (th_event_info th) (th_event_set th) (evt_set o) = Some got →
  ∃ s', send_one event u s = Ok true s' ∧
    sends event o (evt_left (th_event_info th) got (evt_set o)) [(u, got)] l0 s s'.
Proof.
  intros Hk Ho Hl Hu Ht Hm. set (th1 := th_set_event got (th_event_info th) th).
  set (s1 := if has_flag (th_event_info th) RT_EVENT_FLAG_AND then s else
    set_threads (<[u := th1]> (threads s)) s).
  assert (send_status event u s = Ok true s1) as E1.
  { rewrite (send_status_run s event o u th) by done. by rewrite Hm. }
  assert (threads s1 !! u = Some th1) as Ht1.
  { unfold s1, th1. case_match; [|apply lookup_insert_eq].
    by rewrite (match_and _ _ _ _ Hm). }
  assert (∀ v, v ≠ u → threads s1 !! v = threads s !! v) as Hoth.
  { intros v Hv. unfold s1. case_match; [done|]. cbn. by rewrite lookup_insert_ne. }
  assert (kok idle s1) as Hk1.
  { unfold s1. case_match; [done|]. by eapply ki_update. }
  set (s2 := if has_flag (th_event_info th) RT_EVENT_FLAG_CLEAR then
    set_objs (<[event := KEvent (mk_event (evt_parent o) (clear_set (evt_set o) got))]> (objs s1)) s1
    else s1).
  assert (objs s1 = objs s ∧ tlists s1 = tlists s ∧ primask s1 = primask s) as (Eo & El & Em)
    by (unfold s1; by case_match).
  assert (kok idle s2) as Hk2 by (unfold s2; by case_match).
  assert (tlists s2 !! QSuspend event = Some l0) as Hl2 by (unfold s2; case_match; cbn; by rewrite El).
  destruct (resume_member_run idle s2 (QSuspend event) u l0 Hk2 I Hl2 Hu) as (th' & s' & E3 & Hw & _).
  exists s'. split.
  - unfold send_one. rewrite (bind_ok _ _ _ _ _ E1). krun. rewrite Ht1. krun.
    rewrite (get_event_run s1 event o) by by rewrite Eo. krun.
    change (th_event_info th1) with (th_event_info th). change (th_event_set th1) with got.
    unfold s2 in E3. destruct (has_flag (th_event_info th) RT_EVENT_FLAG_CLEAR); krun.
    + unfold evt_put_set, put_event. krun. rewrite (get_event_run s1 event o) by by rewrite Eo.
      krun. by rewrite E3.
    + by rewrite E3.
  - assert (threads s2 = threads s1) as Et2 by (unfold s2; by case_match).
    destruct Hw. rewrite Et2 in *.
    destruct k_was as [Hu' _]. simplify_eq. split; try done.
    + rewrite k_mask. unfold s2. by case_match.
    + rewrite k_objs. unfold s2, evt_left. case_match; cbn; rewrite Eo; [done|].
      rewrite insert_id; [done|]. exact Ho.
    + intros t g Hin%list_elem_of_singleton. simplify_eq. by exists th.
    + cbn. intros t Hn. rewrite k_others by set_solver. apply Hoth. set_solver.
    + rewrite k_list. f_equal. apply filter_ext_in. set_solver.
Qed.

Lemma sends_cons event o set1 set2 u got w l0 s s1 s2 :
  sends event o set1 [(u, got)] l0 s s1 →
  sends event (mk_event (evt_parent o) set1) set2 w (stay [(u, got)] l0) s1 s2 → u ∉ w.*1 →
  sends event o set2 ((u, got) :: w) l0 s s2.
Proof.
  intros [Hk1 Hm1 Ho1 Hw1 Hn1 Hl1] [Hk2 Hm2 Ho2 Hw2 Hn2 Hl2] Hu. split; try done.
  - by rewrite Hm2.
  - by rewrite Ho2, Ho1, insert_insert_eq.
  - intros t g [?|Hin]%elem_of_cons.
    + simplify_eq. rewrite Hn2 by done. apply Hw1. left.
    + destruct (Hw2 t g Hin) as (th & Ht & ?). exists th. rewrite <- Hn1; [done|]. cbn.
      intros ->%list_elem_of_singleton. apply Hu. by apply (list_elem_of_fmap_2 fst) in Hin.
  - cbn. intros t [? ?]%not_elem_of_cons. rewrite Hn2, Hn1; [done|set_solver|done].
  - rewrite Hl2. unfold stay. f_equal. rewrite list_filter_filter. apply filter_ext_in.
    cbn. set_solver.
Qed.

Lemma send_loop_run event : ∀ l l0 s o set' w,
  kok idle s → objs s !! event = Some (KEvent o) → tlists s !! QSuspend event = Some l0 →
  Forall (λ t, t ∈ l0) l → NoDup l → evt_scan (threads s) (evt_set o) l = (set', w) →
  ∃ s', send_loop event l s = Ok (negb (bool_decide (w = []))) s' ∧
    sends event o set' w l0 s s'.
Proof.
  induction l as [|u l IH]; intros l0 s o set' w Hk Ho Hl Hin Hnd Hs; simpl in Hs.
  { simplify_eq. exists s. split; [done|]. split; try done.
    - rewrite insert_id; [done|]. exact Ho.
    - set_solver.
    - rewrite Hl. f_equal. symmetry. apply list_filter_all_id. set_solver. }
  inversion_clear Hin as [|?? Hu Hin']. inversion_clear Hnd as [|?? Hnu Hnd'].
  destruct (proj1 (Forall_forall _ _) (queue_threads idle _ _ ∅ s (QSuspend event) l0 Hk Hl) u Hu)
    as [th Ht].
  rewrite Ht in Hs. cbn in Hs. cbn [send_loop].
  destruct (evt_match (th_event_info th) (th_event_set th) (evt_set o)) as [got|] eqn:Hm; cbn in Hs.
  - destruct (evt_scan (threads s) (evt_left (th_event_info th) got (evt_set o)) l) as [set1 w1] eqn:Hs1.
    simplify_eq.
    destruct (send_one_run s event o u th got l0) as (s1 & E1 & Hs1'); [done..|].
    rewrite (bind_ok _ _ _ _ _ E1).
    assert (Forall (λ t, threads s1 !! t = threads s !! t) l) as Hsame.
    { apply Forall_forall. intros t Hin. apply (sd_others _ _ _ _ _ _ _ Hs1'). cbn. set_solver. }
    destruct (IH (stay [(u, got)] l0) s1
      (mk_event (evt_parent o) (evt_left (th_event_info th) got (evt_set o))) set' w1)
      as (s' & E2 & Hs2).
    + apply Hs1'.
    + rewrite (sd_objs _ _ _ _ _ _ _ Hs1'). apply lookup_insert_eq.
    + apply Hs1'.
    + rewrite Forall_forall in *. intros t Hin. apply list_elem_of_filter. cbn. set_solver.
    + done.
    + cbn. by rewrite (evt_scan_ext _ (threads s)).
    + exists s'. split; [by rewrite (bind_ok _ _ _ _ _ E2)|]. 
      eapply sends_cons; [exact Hs1'|exact Hs2|].
      intros ([t g] & -> & Hin)%list_elem_of_fmap. apply Hnu. by eapply evt_scan_elem.
  - destruct (IH l0 s o set' w) as (s' & E2 & Hs2); [done..|].
    exists s'. split; [|done].
    assert (send_one event u s = Ok false s) as E1.
    { unfold send_one. unfold bind at 1. rewrite (send_status_run s event o u th) by done.
      by rewrite Hm. }
    by rewrite (bind_ok _ _ _ _ _ E1), (bind_ok _ _ _ _ _ E2).
Qed.
End runs.

(** What an event is. *)
Definition event_is (s : kstate) (event flag set : Z) (ws : list Z) : Prop :=
  ∃ o, objs s !! event = Some (KEvent o) ∧ evt_flag o = flag ∧ evt_set o = set ∧
    tlists s !! QSuspend event = Some ws ∧
    (flag = RT_IPC_FLAG_FIFO ∨ flag = RT_IPC_FLAG_PRIO).

(** Clearing all the bits asked for clears those that were received. *)
Lemma clear_set_land set want : 0 ≤ set < 2 ^ 32 →
  clear_set set want = clear_set set (Z.land want set).
Proof.
  intros Hs. unfold clear_set, u32, wrap. apply Z.bits_inj'. intros i Hi. rewrite !Z.land_spec.
  destruct (Z.lt_ge_cases i 32).
  - rewrite !Z.mod_pow2_bits_low, !Z.lnot_spec, Z.land_spec by lia.
    by destruct (Z.testbit set i), (Z.testbit want i).
  - by rewrite (testbit_high 32 set).
Qed.

Lemma match_land info want set got :
  evt_match info want set = Some got → got = Z.land want set.
Proof. unfold evt_match. intros Hm. repeat case_match; simplify_eq; lia. Qed.

Section recv.
Context {cfg : RTConfig} (idle : Z).

Definition recv_entry (t event : Z) (th : rt_thread) (s : kstate) : kstate :=
  set_trace (trace s ++ hook_events rt_object_trytake_hook (arg_object (OIpc event)) s)
    (set_threads (<[t := th_set_error RT_EOK th]> (threads s)) s).

(** The status in [rt_event_recv]. *)
Lemma recv_status option set v s :
  has_flag option RT_EVENT_FLAG_AND = true ∨ has_flag option RT_EVENT_FLAG_OR = true →
  (if has_flag option RT_EVENT_FLAG_AND then ret (Z.land v set =? set)
   else if has_flag option RT_EVENT_FLAG_OR then ret (negb (Z.land v set =? 0))
   else RT_ASSERT false ;;; ret false) s =
  Ok (bool_decide (is_Some (evt_match option set v))) s.
Proof.
  intros Hf. unfold evt_match. rewrite (Z.land_comm v set).
  destruct (has_flag option RT_EVENT_FLAG_AND); [|destruct Hf as [?|Hf]; [done|]; rewrite Hf].
  - destruct (Z.land set v =? set); by rewrite ?bool_decide_true by by eexists.
  - destruct (Z.land set v =? 0); by rewrite ?bool_decide_true by by eexists.
Qed.

(** The three ways it goes on. *)
Lemma recv_hit s t event th set option timeout o p :
  kok idle s → threads s !! t = Some th → objs s !! event = Some (KEvent o) →
  ∃ tr, recv_decided event t set option timeout o p true s =
    Ok (Returned (th_error th, Some (Z.land (evt_set o) set)))
      (set_trace tr (set_primask p (set_objs (<[event := KEvent (mk_event (evt_parent o)
        (evt_left option set (evt_set o)))]> (objs s)) s))).
Proof.
  intros Hk Ht Ho. unfold recv_decided, evt_left, evt_put_set, put_event.
  exists (trace s ++ hook_events rt_object_take_hook (arg_object (OIpc event)) s).
  destruct (has_flag option RT_EVENT_FLAG_CLEAR); krun.
  - rewrite (get_event_run _ event o) by done. krun. by rewrite Ht.
  - rewrite Ht. krun. by rewrite insert_id.
Qed.

Lemma recv_no_wait s t event th set option o p :
  threads s !! t = Some th →
  ∃ tr, recv_decided event t set option 0 o p false s = Ok (Returned (- RT_ETIMEOUT, None))
    (set_trace tr (set_primask p
      (set_threads (<[t := th_set_error (- RT_ETIMEOUT) th]> (threads s)) s))).
Proof.
  intros Ht. unfold recv_decided, upd_thread. change (0 =? 0) with true.
  exists (trace s ++ hook_events rt_object_take_hook (arg_object (OIpc event)) s).
  krun. rewrite Ht. krun. by rewrite lookup_insert_eq.
Qed.

Lemma recv_blocks s t event th set option timeout o ws p :
  kok idle s → caller idle s t th →
  evt_flag o = RT_IPC_FLAG_FIFO ∨ evt_flag o = RT_IPC_FLAG_PRIO →
  tlists s !! QSuspend event = Some ws → timeout ≠ 0 → timeout < half →
  ∃ s', recv_decided event t set option timeout o p false (set_primask 1 s) =
      Ok (Blocked (event, t)) s' ∧
    waits idle (QSuspend event) t timeout
      (wait_insert (evt_flag o) (threads s) (th_current_priority th) t ws)
      (th_set_event set option th) (set_primask p s) s'.
Proof.
  intros Hk Hc Hf Hl Hz Hti.
  destruct (block_run idle s t th (th_set_event set option th) (QSuspend event) (evt_flag o)
    timeout ws (trace s) p) as (s1 & s' & E1 & _ & E2 & Hw); [done..|].
  exists s'. split; [|exact Hw]. unfold recv_decided, upd_thread.
  replace (timeout =? 0) with false by lia. krun. rewrite (cl_thread _ _ _ _ Hc). krun.
  change (set_trace (trace s) s) with s in E1. by rewrite E1, E2.
Qed.
End recv.

Section correctness.
Context {cfg : RTConfig}.

(** [rt_event_send] adds the bits and scans the waiting threads in order:
    exactly the threads whose condition (all bits, or any bit) holds of the
    bits then set become ready with what they received, a thread that asked
    for it clears what it received before the next one is looked at, and the
    others stay in their order; the highest ready thread runs when one was
    woken. *)
Theorem event_send_correct (idle : Z) (s : kstate) (event flag v set set' : Z) (ws : list Z)
    (w : list (Z * Z)) :
  kok idle s → event_is s event flag v ws → set ≠ 0 →
  evt_scan (threads s) (Z.lor v set) ws = (set', w) →
  ∃ s', rt_event_send event set s = Ok RT_EOK s' ∧ kok idle s' ∧ primask s' = primask s ∧
    event_is s' event flag set' (stay w ws) ∧
    (∀ t got, (t, got) ∈ w → ∃ th, threads s !! t = Some th ∧
       threads s' !! t = Some (th_set_stat RT_THREAD_READY (th_set_event got (th_event_info th) th))) ∧
    (∀ t, t ∉ w.*1 → threads s' !! t = threads s !! t) ∧
    (w ≠ [] → highest_runs s').
Proof.
  intros Hk (o & Ho & <- & <- & Hl & Hf) Hset Hscan.
  set (o1 := mk_event (evt_parent o) (Z.lor (evt_set o) set)).
  set (s1 := set_objs (<[event := KEvent o1]> (objs s)) (set_primask 1 (set_trace (trace s ++
    hook_events rt_object_put_hook (arg_object (OIpc event)) s) s))).
  assert (objs s1 !! event = Some (KEvent o1)) as Ho1 by apply lookup_insert_eq.
  destruct (send_loop_run idle event ws ws s1 o1 set' w) as (s2 & E & [Hk2 Hm2 Hos Hw Hn Hls]);
    [exact Hk|exact Ho1|exact Hl|by apply Forall_forall| |exact Hscan|].
  { eapply (sw_nodup _ _ _ _ (ki_sched _ _ _ _ _ _ _ _ _ Hk)). exact Hl. }
  set (s3 := set_primask (primask s) s2).
  assert (rt_event_send event set s = (
    (when negb (bool_decide (w = [])) then rt_schedule) ;;; ret RT_EOK) s3) as ->.
  { unfold rt_event_send, evt_put_set, put_event, tl_isempty, tl_get.
    replace (set =? 0) with false by lia. krun. rewrite (get_event_run _ event o) by done. krun.
    rewrite (get_event_run _ event o) by done. krun. rewrite Hl. krun.
    destruct (decide (ws = [])) as [->|Hne].
    - rewrite bool_decide_eq_true_2 by done. krun. simpl in Hscan. simplify_eq.
      injection E as E. unfold s3. by rewrite <- E.
    - rewrite bool_decide_eq_false_2 by done. krun. krun. rewrite Hl. krun.
      match goal with |- context [send_loop event ws ?x] => change x with s1 end. by rewrite E. }
  assert (kok idle s3) as Hk3 by exact Hk2.
  assert (event_is s3 event (evt_flag o) set' (stay w ws)) as Hev.
  { eexists. split; [cbn; rewrite Hos; apply lookup_insert_eq|]. by split_and!. }
  destruct (decide (w = [])) as [->|Hne].
  - exists s3. by split_and!.
  - rewrite bool_decide_eq_false_2 by done. krun. rewrite (k_schedule idle _ _ _ _ Hk3). krun.
    eexists. split; [done|]. split_and!; try done. intros _. apply schedule_highest.
    by eapply k_can_schedule.
Qed.

(** [rt_event_recv] returns at once with the received bits when the
    condition holds, clearing them if asked to; fails with [-RT_ETIMEOUT] when
    it is not to wait; and otherwise makes the thread wait for its bits. *)
Theorem event_recv_correct (idle : Z) (s : kstate) (t event flag v set option timeout : Z)
    (th : rt_thread) (ws : list Z) :
  kok idle s → caller idle s t th → event_is s event flag v ws → 0 ≤ v < 2 ^ 32 →
  set ≠ 0 → timeout < half →
  has_flag option RT_EVENT_FLAG_AND = true ∨ has_flag option RT_EVENT_FLAG_OR = true →
  ∃ r s', rt_event_recv event set option timeout s = Ok r s' ∧ kok idle s' ∧
    primask s' = primask s ∧
    match evt_match option set v with
    | Some got => r = Returned (RT_EOK, Some got) ∧
        event_is s' event flag (evt_left option got v) ws
    | None => 
      if timeout =? 0 then r = Returned (- RT_ETIMEOUT, None) ∧ event_is s' event flag v ws
      else r = Blocked (event, t) ∧
        event_is s' event flag v (wait_insert flag (threads s) (th_current_priority th) t ws) ∧
        waits idle (QSuspend event) t timeout
          (wait_insert flag (threads s) (th_current_priority th) t ws)
          (th_set_event set option (th_set_error RT_EOK th)) s s'
    end.
Proof.
  intros Hk Hc (o & Ho & <- & <- & Hl & Hf) Hv Hset Hti Hopt.
  pose proof (cl_thread _ _ _ _ Hc) as Ht.
  set (s1 := recv_entry t event th s).
  assert (rt_event_recv event set option timeout s =
    recv_decided event t set option timeout o (primask s)
      (bool_decide (is_Some (evt_match option set (evt_set o)))) (set_primask 1 s1)) as ->.
  { unfold rt_event_recv, upd_thread. rewrite (bind_ok _ _ _ _ _ (in_thread_run idle s t th Hc)).
    replace (set =? 0) with false by lia. krun. rewrite (cl_self _ _ _ _ Hc). krun. rewrite Ht. krun.
    match goal with |- context [get_event event ?x] => change x with (set_primask 1 s1) end.
    rewrite (get_event_run _ event o) by done. krun.
    pose proof (recv_status option set (evt_set o) (set_primask 1 s1) Hopt) as E.
    unfold bind, ret in E. rewrite E. done. }
  assert (kok idle s1) as Hk1 by (by eapply ki_update).
  destruct (evt_match option set (evt_set o)) as [got|] eqn:Hm; [|destruct (Z.eqb_spec timeout 0)].
  - destruct (recv_hit idle (set_primask 1 s1) t event (th_set_error RT_EOK th) set option timeout o
      (primask s)) as [tr E]; [exact Hk1|apply lookup_insert_eq|exact Ho|].
    rewrite bool_decide_eq_true_2 by by eexists. do 2 eexists. split; [exact E|].
    split_and!; [exact Hk1|done|do 3 f_equal; rewrite (match_land _ _ _ _ Hm); apply Z.land_comm|].
    eexists. split; [apply lookup_insert_eq|]. split_and!; try done.
    unfold evt_left. cbn. case_match; [|done].
    by rewrite (match_land _ _ _ _ Hm), (clear_set_land (evt_set o) set).
  - destruct (recv_no_wait (set_primask 1 s1) t event (th_set_error RT_EOK th) set option o
      (primask s)) as [tr E]; [apply lookup_insert_eq|].
    rewrite bool_decide_eq_false_2 by by intros []. subst timeout. do 2 eexists.
    split; [exact E|]. split_and!; [|done|done|by exists o].
    eapply ki_update; [exact Hk1|apply lookup_insert_eq|done..].
  - assert (caller idle s1 t (th_set_error RT_EOK th)) as Hc1.
    { destruct Hc. split; try done. apply lookup_insert_eq. }
    destruct (recv_blocks idle s1 t event _ set option timeout o ws (primask s) Hk1 Hc1 Hf Hl)
      as (s' & E & Hw); [done..|].
    rewrite bool_decide_eq_false_2 by by intros [].
    change (threads s1) with (<[t := th_set_error RT_EOK th]> (threads s)) in Hw.
    rewrite wait_insert_ext in Hw.
    2:{ by destruct (other_queue idle _ _ s t th (QSuspend event) ws Hk Ht (cl_ready _ _ _ _ Hc) I Hl). }
    exists (Blocked (event, t)), s'. split; [exact E|].
    split_and!; [apply Hw|apply Hw|done| |].
    + exists o. rewrite (w_objs _ _ _ _ _ _ _ _ Hw). split_and!; try done. apply Hw.
    + destruct Hw. split; try done. intros u Hu. rewrite w_others by done. cbn.
      by rewrite lookup_insert_ne.
Qed.
End correctness.

(** ** Examples *)
Definition demo_event (set flag : Z) : kobj :=
  KEvent (mk_event (mk_object (replicate 8 0) 135 flag) set).

(** Thread 3 waits for all of the bits 0 and 1, and clears them. *)
Definition demo_waiter : kstate :=
  let s := demo [] [(100, demo_event 1 0)] in
  set_threads (<[3 := th_set_event 3 (RT_EVENT_FLAG_AND + RT_EVENT_FLAG_CLEAR)
                        (demo_thread 3 RT_THREAD_SUSPEND 5)]> (threads s)) s.
Lemma demo_waiter_ok : kok 1 demo_waiter.
Proof. apply kinv_check_spec. vm_compute. reflexivity. Qed.

Lemma event_send_correct_witness :
  ∃ s', rt_event_send 100 6 demo_waiter = Ok RT_EOK s' ∧ event_is s' 100 0 4 [5].
Proof.
  destruct (event_send_correct (cfg := gd32_config) 1 demo_waiter 100 0 1 6 4 [3; 5] [(3, 3)])
    as (s' & E & _ & _ & He & _).
  - apply demo_waiter_ok.
  - eexists. split; [reflexivity|]. split_and!; try reflexivity. by left.
  - lia.
  - vm_compute. reflexivity.
  - by exists s'.
Defined.

Lemma event_recv_correct_witness :
  ∃ s', rt_event_recv (cfg := gd32_config) 100 5 RT_EVENT_FLAG_OR 7 demo_waiter =
    Ok (Returned (RT_EOK, Some 1)) s'.
Proof.
  destruct (event_recv_correct (cfg := gd32_config) 1 demo_waiter 2 100 0 1 5 RT_EVENT_FLAG_OR 7
    (demo_thread 2 RT_THREAD_READY 10) [3; 5]) as (r & s' & E & _ & _ & Hr & _).
  - apply demo_waiter_ok.
  - by split.
  - eexists. split; [reflexivity|]. split_and!; try reflexivity. by left.
  - lia.
  - lia.
  - reflexivity.
  - by right.
  - rewrite Hr in E. by exists s'.
Defined.
