(* ===== verification/Mailbox.v ===== *)
(** * Mailboxes ([rtthread/kernel/src/ipc.c], [rt_mb_*])

    The operations on the ring buffer of mails, and their refinement of a
    bounded first-in first-out queue. *)

From S2P Require Import Prelude RtDef SortedList Mem KService Kernel Cpuport Scheduler.
From S2P Require Import Object Timer Invariant Thread Clock Ipc Demo.

(** ** Operations *)
Section ops.
Context {cfg : RTConfig}.

Definition put_mb (p : Z) (o : rt_mailbox) : K unit := put_obj p (KMailbox o).
Definition upd_mb (p : Z) (f : rt_mailbox → rt_mailbox) : K unit :=
  let! o := get_mb p in put_mb p (f o).
Definition mb_flag (o : rt_mailbox) : Z := obj_flag (mb_parent o).

Definition mb_set_flag (flag : Z) (o : rt_mailbox) : rt_mailbox :=
  mk_mailbox (obj_set_flag flag (mb_parent o)) (mb_msg_pool o) (mb_size o) (mb_entry o)
    (mb_in_offset o) (mb_out_offset o).
Definition mb_set_pool (pool : Z) (o : rt_mailbox) : rt_mailbox :=
  mk_mailbox (mb_parent o) pool (mb_size o) (mb_entry o) (mb_in_offset o) (mb_out_offset o).
Definition mb_set_size (size : Z) (o : rt_mailbox) : rt_mailbox :=
  mk_mailbox (mb_parent o) (mb_msg_pool o) size (mb_entry o) (mb_in_offset o) (mb_out_offset o).
Definition mb_reset (o : rt_mailbox) : rt_mailbox :=
  mk_mailbox (mb_parent o) (mb_msg_pool o) (mb_size o) 0 0 0.

(** [++ offset; if (offset >= size) offset = 0], on 16 bits. *)
Definition next_offset (offset size : Z) : Z :=
  if size <=? u16 (offset + 1) then 0 else u16 (offset + 1).

Definition rt_mb_init (mb : Z) (name : list Z) (msgpool size flag : Z) : K Z :=
  rt_object_init (OIpc mb) RT_Object_Class_MailBox name ;;;
  upd_mb mb (mb_set_flag flag) ;;;
  rt_ipc_object_init mb ;;;
  upd_mb mb (λ o, mb_reset (mb_set_size (u16 size) (mb_set_pool msgpool o))) ;;;
  tl_init (QSender mb) ;;;
  ret RT_EOK.

Definition rt_mb_detach (mb : Z) : K Z :=
  rt_ipc_list_resume_all (QSuspend mb) ;;;
  rt_ipc_list_resume_all (QSender mb) ;;;
  rt_object_detach (OIpc mb) ;;;
  ret RT_EOK.

Definition rt_mb_create (name : list Z) (size flag : Z) (raw_mb : rt_mailbox) : K (option Z) :=
  RT_DEBUG_NOT_IN_INTERRUPT ;;;
  let! o := rt_object_allocate RT_Object_Class_MailBox name (RawObj (KMailbox raw_mb)) in
  match o with
  | Some (OIpc mb) =>
    upd_mb mb (mb_set_flag flag) ;;;
    rt_ipc_object_init mb ;;;
    upd_mb mb (mb_set_size (u16 size)) ;;;
    let! pool := in_heap (Mem.rt_malloc (u32 (u16 size * 4))) in
    upd_mb mb (mb_set_pool pool) ;;;
    if pool =? 0 then
      rt_object_delete (OIpc mb) ;;;
      ret None
    else
      upd_mb mb mb_reset ;;;
      tl_init (QSender mb) ;;;
      ret (Some mb)
  | _ => ret None
  end.

Definition rt_mb_delete (mb : Z) : K Z :=
  RT_DEBUG_NOT_IN_INTERRUPT ;;;
  rt_ipc_list_resume_all (QSuspend mb) ;;;
  rt_ipc_list_resume_all (QSender mb) ;;;
  let! o := get_mb mb in
  in_heap (Mem.rt_free (mb_msg_pool o)) ;;;
  rt_object_delete (OIpc mb) ;;;
  ret RT_EOK.

(** What a blocked sender or receiver keeps: its thread, the timeout and
    [tick_delta]. *)
Record mb_blocked := mk_mb_blocked {
  bk_thread : Z;
  bk_timeout : Z;
  bk_tick_delta : Z
}.

(** The body of the loop [while (full)] or [while (empty)] up to its
    [rt_schedule()]: the thread waits in the list of [q]. *)
Definition mb_wait (q : qid) (flag timeout tick_delta temp : Z) : K mb_blocked :=
  let! thread := self in
  RT_DEBUG_IN_THREAD_CONTEXT ;;;
  let! tick_delta := timed_wait q thread flag timeout tick_delta in
  rt_hw_interrupt_enable temp ;;;
  rt_schedule ;;;
  ret (mk_mb_blocked thread timeout tick_delta).

(** The mail is stored, and the first waiting receiver resumed. *)
Definition mb_put (mb value temp : Z) : K Z :=
  let! o := get_mb mb in
  store (mb_msg_pool o + 4 * mb_in_offset o) value ;;;
  upd_mb mb (λ o, mk_mailbox (mb_parent o) (mb_msg_pool o) (mb_size o) (u16 (mb_entry o + 1))
    (next_offset (mb_in_offset o) (mb_size o)) (mb_out_offset o)) ;;;
  let! e := tl_isempty (QSuspend mb) in
  if negb e then
    rt_ipc_list_resume (QSuspend mb) ;;;
    rt_hw_interrupt_enable temp ;;;
    rt_schedule ;;;
    ret RT_EOK
  else
    rt_hw_interrupt_enable temp ;;;
    ret RT_EOK.

(** The loop of [rt_mb_send_wait], entered with interrupts masked, and what
    follows it. *)
Definition mb_send_loop (mb value timeout tick_delta temp : Z) : K (outcome Z mb_blocked) :=
  let! o := get_mb mb in
  if mb_entry o =? mb_size o then
    let! thread := self in
    upd_thread thread (th_set_error RT_EOK) ;;;
    if timeout =? 0 then
      rt_hw_interrupt_enable temp ;;;
      ret (Returned (- RT_EFULL))
    else
      let! c := mb_wait (QSender mb) (mb_flag o) timeout tick_delta temp in
      ret (Blocked c)
  else
    let! r := mb_put mb value temp in
    ret (Returned r).

Definition rt_mb_send_wait (mb value timeout : Z) : K (outcome Z mb_blocked) :=
  RT_OBJECT_HOOK_CALL rt_object_put_hook (arg_object (OIpc mb)) ;;;
  let! temp := rt_hw_interrupt_disable in
  let! o := get_mb mb in
  if (mb_entry o =? mb_size o) && (timeout =? 0) then
    rt_hw_interrupt_enable temp ;;;
    ret (Returned (- RT_EFULL))
  else mb_send_loop mb value timeout 0 temp.

(** After the [rt_schedule()] of a blocked sender: it may block again. *)
Definition rt_mb_send_wait_return (mb value : Z) (c : mb_blocked) : K (outcome Z mb_blocked) :=
  let! th := get_thread (bk_thread c) in
  if negb (th_error th =? RT_EOK) then ret (Returned (th_error th))
  else
    let! temp := rt_hw_interrupt_disable in
    let! timeout := remaining_timeout (bk_timeout c) (bk_tick_delta c) in
    mb_send_loop mb value timeout (bk_tick_delta c) temp.

Definition rt_mb_send (mb value : Z) : K (outcome Z mb_blocked) := rt_mb_send_wait mb value 0.

(** The result is the error and what is written to [*value]. *)
Definition mb_get (mb temp : Z) : K (Z * option Z) :=
  let! o := get_mb mb in
  let! value := load (mb_msg_pool o + 4 * mb_out_offset o) in
  upd_mb mb (λ o, mk_mailbox (mb_parent o) (mb_msg_pool o) (mb_size o) (u16 (mb_entry o - 1))
    (mb_in_offset o) (next_offset (mb_out_offset o) (mb_size o))) ;;;
  let! e := tl_isempty (QSender mb) in
  if negb e then
    rt_ipc_list_resume (QSender mb) ;;;
    rt_hw_interrupt_enable temp ;;;
    RT_OBJECT_HOOK_CALL rt_object_take_hook (arg_object (OIpc mb)) ;;;
    rt_schedule ;;;
    ret (RT_EOK, Some value)
  else
    rt_hw_interrupt_enable temp ;;;
    RT_OBJECT_HOOK_CALL rt_object_take_hook (arg_object (OIpc mb)) ;;;
    ret (RT_EOK, Some value).

Definition mb_recv_loop (mb timeout tick_delta temp : Z) : K (outcome (Z * option Z) mb_blocked) :=
  let! o := get_mb mb in
  if mb_entry o =? 0 then
    let! thread := self in
    upd_thread thread (th_set_error RT_EOK) ;;;
    if timeout =? 0 then
      rt_hw_interrupt_enable temp ;;;
      upd_thread thread (th_set_error (- RT_ETIMEOUT)) ;;;
      ret (Returned (- RT_ETIMEOUT, None))
    else
      let! c := mb_wait (QSuspend mb) (mb_flag o) timeout tick_delta temp in
      ret (Blocked c)
  else
    let! r := mb_get mb temp in
    ret (Returned r).

Definition rt_mb_recv (mb timeout : Z) : K (outcome (Z * option Z) mb_blocked) :=
  RT_OBJECT_HOOK_CALL rt_object_trytake_hook (arg_object (OIpc mb)) ;;;
  let! temp := rt_hw_interrupt_disable in
  let! o := get_mb mb in
  if (mb_entry o =? 0) && (timeout =? 0) then
    rt_hw_interrupt_enable temp ;;;
    ret (Returned (- RT_ETIMEOUT, None))
  else mb_recv_loop mb timeout 0 temp.

Definition rt_mb_recv_return (mb : Z) (c : mb_blocked) : K (outcome (Z * option Z) mb_blocked) :=
  let! th := get_thread (bk_thread c) in
  if negb (th_error th =? RT_EOK) then ret (Returned (th_error th, None))
  else
    let! temp := rt_hw_interrupt_disable in
    let! timeout := remaining_timeout (bk_timeout c) (bk_tick_delta c) in
    mb_recv_loop mb timeout (bk_tick_delta c) temp.

Definition rt_mb_control (mb cmd arg : Z) : K Z :=
  if cmd =? RT_IPC_CMD_RESET then
    let! level := rt_hw_interrupt_disable in
    rt_ipc_list_resume_all (QSuspend mb) ;;;
    rt_ipc_list_resume_all (QSender mb) ;;;
    upd_mb mb mb_reset ;;;
    rt_hw_interrupt_enable level ;;;
    rt_schedule ;;;
    ret RT_EOK
  else ret (- RT_ERROR).

End ops.

(** ** The ring buffer *)

(** The words of the pool hold the mails, from the output offset on. *)
Definition ring (words : gmap Z Z) (pool size out : Z) (mails : list Z) : Prop :=
  ∀ i m, mails !! i = Some m → words !! (pool + 4 * ((out + Z.of_nat i) mod size)) = Some m.

(** What a mailbox is: its capacity, the mails in it, the receivers and the
    senders that wait. *)
Record mailbox_is (s : kstate) (mb flag size : Z) (mails receivers senders : list Z) : Prop := {
  mi_obj : ∃ o, objs s !! mb = Some (KMailbox o) ∧ mb_flag o = flag ∧ mb_size o = size ∧
    mb_entry o = Z.of_nat (length mails) ∧ 0 ≤ mb_out_offset o < size ∧
    mb_in_offset o = (mb_out_offset o + Z.of_nat (length mails)) mod size ∧
    ring (mem_words s) (mb_msg_pool o) size (mb_out_offset o) mails;
  mi_size : 0 < size < 2 ^ 16 ∧ Z.of_nat (length mails) ≤ size;
  mi_receivers : tlists s !! QSuspend mb = Some receivers;
  mi_senders : tlists s !! QSender mb = Some senders;
  mi_flag : flag = RT_IPC_FLAG_FIFO ∨ flag = RT_IPC_FLAG_PRIO
}.

Lemma next_offset_mod offset size : 0 ≤ offset < size → size < 2 ^ 16 →
  next_offset offset size = (offset + 1) mod size.
Proof.
  intros Ho Hs. unfold next_offset, u16. rewrite wrap_small by lia.
  destruct (Z.leb_spec size (offset + 1)).
  - replace (offset + 1) with size by lia. by rewrite Z.mod_same by lia.
  - by rewrite Z.mod_small by lia.
Qed.

Lemma ring_push words pool size out mails v : 0 < size →
  Z.of_nat (length mails) < size → ring words pool size out mails →
  ring (<[pool + 4 * ((out + Z.of_nat (length mails)) mod size) := v]> words) pool size out
    (mails ++ [v]).
Proof.
  intros Hs Hl Hr i m. rewrite lookup_app_Some. intros [Hi|[Hge Hi]].
  - pose proof (lookup_lt_Some _ _ _ Hi). rewrite lookup_insert_ne; [by apply Hr|].
    pose proof (ring_slot_ne out (Z.of_nat i) (Z.of_nat (length mails)) size
      ltac:(lia) ltac:(lia)). lia.
  - apply list_lookup_singleton_Some in Hi as [? ->].
    replace i with (length mails) by lia. apply lookup_insert_eq.
Qed.

Lemma ring_pop words pool size out m mails : 0 < size →
  ring words pool size out (m :: mails) → ring words pool size ((out + 1) mod size) mails.
Proof.
  intros Hs Hr i x Hi. specialize (Hr (S i) x Hi). rewrite Zplus_mod_idemp_l.
  replace (out + 1 + Z.of_nat i) with (out + Z.of_nat (S i)) by lia. done.
Qed.

Section runs.
Context {cfg : RTConfig} (idle : Z).

Lemma get_mb_run s p o : objs s !! p = Some (KMailbox o) → get_mb p s = Ok o s.
Proof. intros Ho. unfold get_mb. krun. by rewrite Ho. Qed.


(** The object and the pool after a mail was stored, or taken. *)
Definition put_state (mb v : Z) (o : rt_mailbox) (s : kstate) : kstate :=
  set_objs (<[mb := KMailbox (mk_mailbox (mb_parent o) (mb_msg_pool o) (mb_size o)
      (u16 (mb_entry o + 1)) (next_offset (mb_in_offset o) (mb_size o)) (mb_out_offset o))]> (objs s))
    (set_mem_words (<[mb_msg_pool o + 4 * mb_in_offset o := v]> (mem_words s)) s).
Definition get_state (mb : Z) (o : rt_mailbox) (s : kstate) : kstate :=
  set_objs (<[mb := KMailbox (mk_mailbox (mb_parent o) (mb_msg_pool o) (mb_size o)
      (u16 (mb_entry o - 1)) (mb_in_offset o) (next_offset (mb_out_offset o) (mb_size o)))]> (objs s)) s.

Lemma mb_put_run s mb v p o l :
  kok idle s → objs s !! mb = Some (KMailbox o) → tlists s !! QSuspend mb = Some l →
  ∃ s', mb_put mb v p s = Ok RT_EOK s' ∧
    gives idle (QSuspend mb) l (set_primask p (put_state mb v o s)) s'.
Proof.
  intros Hk Ho Hl.
  destruct (give_run idle (QSuspend mb) l (put_state mb v o s) p (ret tt) RT_EOK) as (s' & E & Hg);
    [exact Hk|done|exact Hl|apply only_traces_ret|].
  exists s'. split; [|exact Hg]. rewrite <- E. unfold mb_put.
  rewrite (bind_ok _ _ _ _ _ (get_mb_run s mb o Ho)). unfold upd_mb, put_mb. krun.
  by rewrite (get_mb_run _ mb o).
Qed.

Lemma mb_get_run s mb p o l v :
  kok idle s → objs s !! mb = Some (KMailbox o) → tlists s !! QSender mb = Some l →
  mem_words s !! (mb_msg_pool o + 4 * mb_out_offset o) = Some v →
  ∃ s', mb_get mb p s = Ok (RT_EOK, Some v) s' ∧
    gives idle (QSender mb) l (set_primask p (get_state mb o s)) s'.
Proof.
  intros Hk Ho Hl Hv.
  destruct (give_run idle (QSender mb) l (get_state mb o s) p
    (RT_OBJECT_HOOK_CALL rt_object_take_hook (arg_object (OIpc mb))) (RT_EOK, Some v))
    as (s' & E & Hg); [exact Hk|done|exact Hl|apply only_traces_hook|].
  exists s'. split; [|exact Hg]. rewrite <- E. unfold mb_get.
  rewrite (bind_ok _ _ _ _ _ (get_mb_run s mb o Ho)). unfold upd_mb, put_mb. krun. rewrite Hv. krun.
  by rewrite (get_mb_run _ mb o).
Qed.

(** The mails afterwards. *)
Lemma put_state_is s s' mb v o p flag size mails rcv snd :
  mailbox_is s mb flag size mails rcv snd → objs s !! mb = Some (KMailbox o) →
  Z.of_nat (length mails) < size →
  gives idle (QSuspend mb) rcv (set_primask p (put_state mb v o s)) s' →
  mailbox_is s' mb flag size (mails ++ [v]) (tail rcv) snd.
Proof.
  intros [(o' & Ho' & Hf & Hs & He & Hr & Hi & Hring) Hsz Hrc Hsn Hfl] Ho Hlt Hg. simplify_eq.
  split; try done.
  - eexists. rewrite (gv_objs _ _ _ _ _ Hg), (gv_words _ _ _ _ _ Hg).
    split; [apply lookup_insert_eq|]. cbn [mb_flag mb_parent mb_size mb_entry mb_out_offset mb_in_offset mb_msg_pool].
    rewrite length_app, He, Hi. simpl length. split_and!; try done; try apply Hr.
    + unfold u16. rewrite wrap_small by lia. lia.
    + rewrite next_offset_mod by (try apply Z.mod_pos_bound; lia). rewrite Zplus_mod_idemp_l.
      f_equal. lia.
    + cbn. rewrite Hi. apply ring_push; [lia|lia|done].
  - rewrite length_app. simpl. lia.
  - by rewrite (gv_list _ _ _ _ _ Hg).
  - by rewrite (gv_lists _ _ _ _ _ Hg).
Qed.

Lemma get_state_is s s' mb o p flag size v mails rcv snd :
  mailbox_is s mb flag size (v :: mails) rcv snd → objs s !! mb = Some (KMailbox o) →
  gives idle (QSender mb) snd (set_primask p (get_state mb o s)) s' →
  mailbox_is s' mb flag size mails rcv (tail snd).
Proof.
  intros [(o' & Ho' & Hf & Hs & He & Hr & Hi & Hring) Hsz Hrc Hsn Hfl] Ho Hg. simplify_eq.
  simpl length in *.
  split; try done.
  - eexists. rewrite (gv_objs _ _ _ _ _ Hg), (gv_words _ _ _ _ _ Hg).
    split; [apply lookup_insert_eq|]. cbn [mb_flag mb_parent mb_size mb_entry mb_out_offset mb_in_offset mb_msg_pool].
    rewrite He, Hi, next_offset_mod by lia. split_and!; try done.
    + unfold u16. rewrite wrap_small by lia. lia.
    + apply Z.mod_pos_bound. lia.
    + apply Z.mod_pos_bound. lia.
    + rewrite Zplus_mod_idemp_l. f_equal. lia.
    + eapply ring_pop; [lia|exact Hring].
  - lia.
  - by rewrite (gv_lists _ _ _ _ _ Hg).
  - by rewrite (gv_list _ _ _ _ _ Hg).
Qed.

(** The first mail. *)
Lemma ring_head words pool size out v mails : 0 ≤ out < size →
  ring words pool size out (v :: mails) → words !! (pool + 4 * out) = Some v.
Proof.
  intros Ho Hr. specialize (Hr 0%nat v eq_refl). rewrite Z.add_0_r, Z.mod_small in Hr by lia. done.
Qed.
End runs.

Section waiting.
Context {cfg : RTConfig} (idle : Z).

(** The caller writes its error and waits in a list of the mailbox. *)
Lemma mb_wait_run s t th q flag timeout d p l tr :
  kok idle s → caller idle s t th → wait_queue q → tlists s !! q = Some l →
  flag = RT_IPC_FLAG_FIFO ∨ flag = RT_IPC_FLAG_PRIO → timeout < half →
  ∃ s', (upd_thread t (th_set_error RT_EOK) ;;; mb_wait q flag timeout d p)
      (set_primask 1 (set_trace tr s)) =
      Ok (mk_mb_blocked t timeout (if 0 <? timeout then rt_tick s else d)) s' ∧
    waits idle q t timeout (wait_insert flag (threads s) (th_current_priority th) t l)
      (th_set_error RT_EOK th) (set_primask p s) s'.
Proof.
  intros Hk Hc Hq Hl Hf Hti.
  destruct (block_run idle s t th (th_set_error RT_EOK th) q flag timeout l tr p)
    as (s1 & s' & _ & E1 & E2 & Hw); [done..|].
  exists s'. split; [|exact Hw]. unfold mb_wait, upd_thread. krun.
  rewrite (cl_thread _ _ _ _ Hc). krun. rewrite (cl_self _ _ _ _ Hc). krun.
  rewrite (in_thread_run idle _ t (th_set_error RT_EOK th)).
  2:{ destruct Hc. split; try done. apply lookup_insert_eq. }
  rewrite E1. by rewrite E2.
Qed.

(** [mailbox_is] only looks at the mailbox, the pool and its two lists. *)
Lemma mailbox_frame s s' mb flag size mails rcv snd rcv' snd' :
  mailbox_is s mb flag size mails rcv snd → objs s' = objs s → mem_words s' = mem_words s →
  tlists s' !! QSuspend mb = Some rcv' → tlists s' !! QSender mb = Some snd' →
  mailbox_is s' mb flag size mails rcv' snd'.
Proof. intros [Ho Hs Hr Hd Hf] Eo Ew Er Es. split; try done. by rewrite Eo, Ew. Qed.
End waiting.

Section refinement.
Context {cfg : RTConfig}.

(** C36: [rt_mb_send_wait] appends the mail when there is room, and the first
    waiting receiver becomes ready; on a full mailbox it fails with
    [-RT_EFULL] when it is not to wait, and otherwise the calling thread waits
    among the senders.  The mailbox is always a queue of its capacity. *)
Theorem mb_send_refines (idle : Z) (s : kstate) (t mb flag size v timeout : Z) (th : rt_thread)
    (mails rcv snd : list Z) :
  kok idle s → caller idle s t th → mailbox_is s mb flag size mails rcv snd → timeout < half →
  ∃ r s', rt_mb_send_wait mb v timeout s = Ok r s' ∧ kok idle s' ∧ primask s' = primask s ∧
    if Z.of_nat (length mails) <? size then
      r = Returned RT_EOK ∧ mailbox_is s' mb flag size (mails ++ [v]) (tail rcv) snd ∧
      ∀ u, head rcv = Some u → highest_runs s' ∧
        ∃ thu, threads s' !! u = Some (th_set_stat RT_THREAD_READY thu)
    else if timeout =? 0 then
      r = Returned (- RT_EFULL) ∧ mailbox_is s' mb flag size mails rcv snd
    else
      let snd' := wait_insert flag (threads s) (th_current_priority th) t snd in
      (∃ d, r = Blocked (mk_mb_blocked t timeout d)) ∧
      mailbox_is s' mb flag size mails rcv snd' ∧
      waits idle (QSender mb) t timeout snd' (th_set_error RT_EOK th) s s'.
Proof.
  intros Hk Hc Hm Hti. pose proof Hm as [(o & Ho & Hf & Hs & He & Hr & Hi & Hring) Hsz Hrc Hsn Hfl].
  set (s1 := set_primask 1 (set_trace (trace s ++
    hook_events rt_object_put_hook (arg_object (OIpc mb)) s) s)).
  assert (rt_mb_send_wait mb v timeout s =
    (if (mb_entry o =? mb_size o) && (timeout =? 0) then
       rt_hw_interrupt_enable (primask s) ;;; ret (Returned (- RT_EFULL))
     else mb_send_loop mb v timeout 0 (primask s)) s1) as ->.
  { unfold rt_mb_send_wait. krun. by rewrite (get_mb_run _ mb o). }
  unfold mb_send_loop. rewrite He, Hs. destruct (Z.ltb_spec (Z.of_nat (length mails)) size) as [Hlt|Hge].
  - replace (Z.of_nat (length mails) =? size) with false by lia. krun.
    rewrite (get_mb_run _ mb o) by done. rewrite He, Hs.
    replace (Z.of_nat (length mails) =? size) with false by lia.
    destruct (mb_put_run idle s1 mb v (primask s) o rcv) as (s' & E & Hg); [done..|].
    rewrite E. do 2 eexists. split; [done|]. split_and!; [apply Hg|apply Hg|done| |].
    + eapply (put_state_is idle s1); [|exact Ho|exact Hlt|exact Hg]. by eapply mailbox_frame.
    + intros u Hu. destruct (gv_woken _ _ _ _ _ Hg u Hu) as (? & thu & _ & ? & _). eauto.
  - replace (Z.of_nat (length mails) =? size) with true by lia.
    destruct (Z.eqb_spec timeout 0) as [->|Hz]; krun.
    + do 2 eexists. split; [done|]. split_and!; try done. by eapply mailbox_frame.
    + rewrite (get_mb_run _ mb o) by done. rewrite He, Hs.
      replace (Z.of_nat (length mails) =? size) with true by lia.
      krun. replace (timeout =? 0) with false by lia.
      change (rt_current_thread s1) with (rt_current_thread s). rewrite (cl_self _ _ _ _ Hc). krun.
      destruct (mb_wait_run idle s t th (QSender mb) flag timeout 0 (primask s) snd
        (trace s ++ hook_events rt_object_put_hook (arg_object (OIpc mb)) s)) as (s' & E & Hw);
        [done..|].
      change (set_primask 1 _) with s1 in E. rewrite Hf. unfold bind in E.
      destruct (upd_thread t (th_set_error RT_EOK) s1); [|done]. rewrite E.
      do 2 eexists. split; [done|]. split_and!; [apply Hw|apply Hw|by eexists| |].
      * eapply mailbox_frame; [exact Hm|apply Hw|apply Hw| |apply Hw].
        by rewrite (w_lists _ _ _ _ _ _ _ _ Hw).
      * destruct Hw. by split.
Qed.

(** [rt_mb_recv] takes the oldest mail, and the first waiting sender
    becomes ready; on an empty mailbox it fails with [-RT_ETIMEOUT] when it is
    not to wait, and otherwise the calling thread waits among the receivers. *)
Theorem mb_recv_refines (idle : Z) (s : kstate) (t mb flag size timeout : Z) (th : rt_thread)
    (mails rcv snd : list Z) :
  kok idle s → caller idle s t th → mailbox_is s mb flag size mails rcv snd → timeout < half →
  ∃ r s', rt_mb_recv mb timeout s = Ok r s' ∧ kok idle s' ∧ primask s' = primask s ∧
    match mails with
    | v :: mails =>
      r = Returned (RT_EOK, Some v) ∧ mailbox_is s' mb flag size mails rcv (tail snd) ∧
      ∀ u, head snd = Some u → highest_runs s' ∧
        ∃ thu, threads s' !! u = Some (th_set_stat RT_THREAD_READY thu)
    | [] =>
      if timeout =? 0 then
        r = Returned (- RT_ETIMEOUT, None) ∧ mailbox_is s' mb flag size [] rcv snd
      else
        let rcv' := wait_insert flag (threads s) (th_current_priority th) t rcv in
        (∃ d, r = Blocked (mk_mb_blocked t timeout d)) ∧
        mailbox_is s' mb flag size [] rcv' snd ∧
        waits idle (QSuspend mb) t timeout rcv' (th_set_error RT_EOK th) s s'
    end.
Proof.
  intros Hk Hc Hm Hti. pose proof Hm as [(o & Ho & Hf & Hs & He & Hr & Hi & Hring) Hsz Hrc Hsn Hfl].
  set (s1 := set_primask 1 (set_trace (trace s ++
    hook_events rt_object_trytake_hook (arg_object (OIpc mb)) s) s)).
  assert (rt_mb_recv mb timeout s =
    (if (mb_entry o =? 0) && (timeout =? 0) then
       rt_hw_interrupt_enable (primask s) ;;; ret (Returned (- RT_ETIMEOUT, None))
     else mb_recv_loop mb timeout 0 (primask s)) s1) as ->.
  { unfold rt_mb_recv. krun. by rewrite (get_mb_run _ mb o). }
  assert (mailbox_is s1 mb flag size mails rcv snd) as Hm1 by by eapply mailbox_frame.
  unfold mb_recv_loop. rewrite He. destruct mails as [|v mails].
  - change (Z.of_nat (length []) =? 0) with true. destruct (Z.eqb_spec timeout 0) as [->|Hz]; krun.
    + do 2 eexists. split; [done|]. split_and!; try done. by eapply mailbox_frame.
    + rewrite (get_mb_run _ mb o) by done. rewrite He. change (Z.of_nat (length []) =? 0) with true.
      krun. replace (timeout =? 0) with false by lia.
      change (rt_current_thread s1) with (rt_current_thread s). rewrite (cl_self _ _ _ _ Hc). krun.
      destruct (mb_wait_run idle s t th (QSuspend mb) flag timeout 0 (primask s) rcv
        (trace s ++ hook_events rt_object_trytake_hook (arg_object (OIpc mb)) s)) as (s' & E & Hw);
        [done..|].
      change (set_primask 1 _) with s1 in E. rewrite Hf. unfold bind in E.
      destruct (upd_thread t (th_set_error RT_EOK) s1); [|done]. rewrite E.
      do 2 eexists. split; [done|]. split_and!; [apply Hw|apply Hw|by eexists| |].
      * eapply mailbox_frame; [exact Hm|apply Hw|apply Hw|apply Hw|].
        by rewrite (w_lists _ _ _ _ _ _ _ _ Hw).
      * destruct Hw. by split.
  - change (Z.of_nat (length (v :: mails)) =? 0) with false. krun.
    rewrite (get_mb_run _ mb o) by done. rewrite He.
    change (Z.of_nat (length (v :: mails)) =? 0) with false.
    destruct (mb_get_run idle s1 mb (primask s) o snd v) as (s' & E & Hg); [done..| |].
    { eapply ring_head; [exact Hr|exact Hring]. }
    rewrite E. do 2 eexists. split; [done|]. split_and!; [apply Hg|apply Hg|done| |].
    + eapply (get_state_is idle s1); [exact Hm1|exact Ho|exact Hg].
    + intros u Hu. destruct (gv_woken _ _ _ _ _ Hg u Hu) as (? & thu & _ & ? & _). eauto.
Qed.
End refinement.

(** ** Examples

    A mailbox of two mails in the object at 100, with a pool at 0x2000. *)
Definition demo_mb (entry inp out : Z) : kobj :=
  KMailbox (mk_mailbox (mk_object (replicate 8 0) 131 0) 0x2000 2 entry inp out).
Definition demo_mailbox (entry inp out : Z) (words : list (Z * Z)) : kstate :=
  set_mem_words (list_to_map words) (demo [(QSender 100, [])] [(100, demo_mb entry inp out)]).
Lemma demo_mailbox_ok entry inp out words : kok 1 (demo_mailbox entry inp out words).
Proof. apply kinv_check_spec. vm_compute. reflexivity. Qed.

Lemma mb_send_refines_witness :
  ∃ s', rt_mb_send_wait (cfg := gd32_config) 100 77 0 (demo_mailbox 0 1 1 []) =
      Ok (Returned RT_EOK) s' ∧ mailbox_is s' 100 0 2 [77] [5] [].
Proof.
  destruct (mb_send_refines (cfg := gd32_config) 1 (demo_mailbox 0 1 1 []) 2 100 0 2 77 0
    (demo_thread 2 RT_THREAD_READY 10) [] [3; 5] []) as (r & s' & E & _ & _ & -> & Hm & _).
  - apply demo_mailbox_ok.
  - by split.
  - split; try reflexivity; [|simpl; lia|by left].
    eexists. split; [reflexivity|]. split_and!; try reflexivity; simpl; try lia. by intros i m.
  - reflexivity.
  - by exists s'.
Defined.

Lemma mb_recv_refines_witness :
  ∃ s', rt_mb_recv (cfg := gd32_config) 100 0 (demo_mailbox 2 1 1 [(0x2004, 8); (0x2000, 9)]) =
      Ok (Returned (RT_EOK, Some 8)) s' ∧ mailbox_is s' 100 0 2 [9] [3; 5] [].
Proof.
  destruct (mb_recv_refines (cfg := gd32_config) 1
    (demo_mailbox 2 1 1 [(0x2004, 8); (0x2000, 9)]) 2 100 0 2 0
    (demo_thread 2 RT_THREAD_READY 10) [8; 9] [3; 5] []) as (r & s' & E & _ & _ & -> & Hm & _).
  - apply demo_mailbox_ok.
  - by split.
  - split; try reflexivity; [|simpl; lia|by left].
    eexists. split; [reflexivity|]. split_and!; try reflexivity; simpl; try lia.
    intros [|[|i]] m; simpl; intros; by simplify_eq.
  - reflexivity.
  - by exists s'.
Defined.
