(* ===== verification/MsgQueue.v ===== *)
(** * Message queues ([rtthread/kernel/src/ipc.c], [rt_mq_*])

    The operations on the linked lists of messages of a queue, and their
    refinement of a bounded first-in first-out queue of blocks of bytes, with
    urgent messages put in front.  A message is a node at an address [a] of
    the pool: the word at [a] is its [next] pointer, the bytes at [a + 4] its
    content. *)

From S2P Require Import Prelude RtDef SortedList Mem KService Kernel Cpuport Scheduler.
From S2P Require Import Object Timer Invariant Thread Clock Ipc Demo Mailbox.

Definition SIZEOF_MQ_MESSAGE : Z := 4.

(** ** Operations *)
Section ops.
Context {cfg : RTConfig}.

Definition put_mq (p : Z) (o : rt_messagequeue) : K unit := put_obj p (KMq o).
Definition upd_mq (p : Z) (f : rt_messagequeue → rt_messagequeue) : K unit :=
  let! o := get_mq p in put_mq p (f o).
Definition mq_flag (o : rt_messagequeue) : Z := obj_flag (mq_parent o).

Definition mq_set_flag (flag : Z) (o : rt_messagequeue) : rt_messagequeue :=
  mk_mq (obj_set_flag flag (mq_parent o)) (mq_msg_pool o) (mq_msg_size o) (mq_max_msgs o)
    (mq_entry o) (mq_queue_head o) (mq_queue_tail o) (mq_queue_free o).
Definition mq_set_pool (pool msg_size max_msgs : Z) (o : rt_messagequeue) : rt_messagequeue :=
  mk_mq (mq_parent o) pool msg_size max_msgs (mq_entry o) (mq_queue_head o) (mq_queue_tail o)
    (mq_queue_free o).
Definition mq_set_entry (v : Z) (o : rt_messagequeue) : rt_messagequeue :=
  mk_mq (mq_parent o) (mq_msg_pool o) (mq_msg_size o) (mq_max_msgs o) v (mq_queue_head o)
    (mq_queue_tail o) (mq_queue_free o).
Definition mq_set_queue (head tail : Z) (o : rt_messagequeue) : rt_messagequeue :=
  mk_mq (mq_parent o) (mq_msg_pool o) (mq_msg_size o) (mq_max_msgs o) (mq_entry o) head tail
    (mq_queue_free o).
Definition mq_set_free (v : Z) (o : rt_messagequeue) : rt_messagequeue :=
  mk_mq (mq_parent o) (mq_msg_pool o) (mq_msg_size o) (mq_max_msgs o) (mq_entry o)
    (mq_queue_head o) (mq_queue_tail o) v.

(** The content of a message, whose bytes exist before they are written. *)
Definition get_block (a : Z) : K (list Z) :=
  let! m := read mem_blocks in from_option OutOfBounds (m !! a).
Definition put_block (a : Z) (l : list Z) : K unit :=
  modify (λ s, set_mem_blocks (<[a := l]> (mem_blocks s)) s).
(** [rt_memcpy(msg + 1, buffer, size)] and [rt_memcpy(buffer, msg + 1, size)] *)
Definition copy_in (msg : Z) (buffer : list Z) (size : Z) : K unit :=
  let! old := get_block (msg + SIZEOF_MQ_MESSAGE) in
  if (size <=? Z.of_nat (length buffer)) && (size <=? Z.of_nat (length old)) then
    put_block (msg + SIZEOF_MQ_MESSAGE) (take (Z.to_nat size) buffer ++ drop (Z.to_nat size) old)
  else fail OutOfBounds.
Definition copy_out (msg size : Z) : K (list Z) :=
  let! l := get_block (msg + SIZEOF_MQ_MESSAGE) in
  if size <=? Z.of_nat (length l) then ret (take (Z.to_nat size) l) else fail OutOfBounds.

(** A node goes to the free list. *)
Definition mq_free_message (mq msg : Z) : K unit :=
  let! o := get_mq mq in
  store msg (mq_queue_free o) ;;;
  upd_mq mq (mq_set_free msg).

(** The loop that fills the free list, [n] messages from the number [temp] on. *)
Fixpoint mq_fill (mq pool stride temp : Z) (n : nat) : K unit :=
  match n with
  | O => ret tt
  | S n => mq_free_message mq (pool + temp * stride) ;;; mq_fill mq pool stride (temp + 1) n
  end.

Definition mq_lists_init (mq : Z) : K unit :=
  upd_mq mq (λ o, mq_set_free 0 (mq_set_queue 0 0 o)) ;;;
  let! o := get_mq mq in
  mq_fill mq (mq_msg_pool o) (mq_msg_size o + SIZEOF_MQ_MESSAGE) 0 (Z.to_nat (mq_max_msgs o)) ;;;
  upd_mq mq (mq_set_entry 0).

Definition rt_mq_init (mq : Z) (name : list Z) (msgpool msg_size pool_size flag : Z) : K Z :=
  rt_object_init (OIpc mq) RT_Object_Class_MessageQueue name ;;;
  upd_mq mq (mq_set_flag flag) ;;;
  rt_ipc_object_init mq ;;;
  let msg_size := u16 (RT_ALIGN msg_size RT_ALIGN_SIZE) in
  upd_mq mq (mq_set_pool msgpool msg_size (u16 (pool_size / (msg_size + SIZEOF_MQ_MESSAGE)))) ;;;
  mq_lists_init mq ;;;
  ret RT_EOK.

Definition rt_mq_detach (mq : Z) : K Z :=
  rt_ipc_list_resume_all (QSuspend mq) ;;;
  rt_object_detach (OIpc mq) ;;;
  ret RT_EOK.

Definition rt_mq_delete (mq : Z) : K Z :=
  RT_DEBUG_NOT_IN_INTERRUPT ;;;
  rt_ipc_list_resume_all (QSuspend mq) ;;;
  let! o := get_mq mq in
  in_heap (Mem.rt_free (mq_msg_pool o)) ;;;
  rt_object_delete (OIpc mq) ;;;
  ret RT_EOK.

(** [raw_bytes] gives what the allocated pool holds in each message. *)
Definition rt_mq_create (name : list Z) (msg_size max_msgs flag : Z) (raw_mq : rt_messagequeue)
    (raw_bytes : Z → list Z) : K (option Z) :=
  RT_DEBUG_NOT_IN_INTERRUPT ;;;
  let! o := rt_object_allocate RT_Object_Class_MessageQueue name (RawObj (KMq raw_mq)) in
  match o with
  | Some (OIpc mq) =>
    upd_mq mq (mq_set_flag flag) ;;;
    rt_ipc_object_init mq ;;;
    let msg_size := u16 (RT_ALIGN msg_size RT_ALIGN_SIZE) in
    let max_msgs := u16 max_msgs in
    let! pool := in_heap (Mem.rt_malloc (u32 ((msg_size + SIZEOF_MQ_MESSAGE) * max_msgs))) in
    upd_mq mq (mq_set_pool pool msg_size max_msgs) ;;;
    if pool =? 0 then
      rt_mq_delete mq ;;;
      ret None
    else
      modify (λ s, set_mem_blocks (foldr (λ i m,
        let a := pool + i * (msg_size + SIZEOF_MQ_MESSAGE) + SIZEOF_MQ_MESSAGE in <[a := raw_bytes a]> m)
        (mem_blocks s) (seqZ 0 max_msgs)) s) ;;;
      mq_lists_init mq ;;;
      ret (Some mq)
  | _ => ret None
  end.

(** The first critical section of a send: a message is taken off the free
    list, [None] when the queue is full. *)
Definition mq_alloc_message (mq : Z) : K (option Z) :=
  let! temp := rt_hw_interrupt_disable in
  let! o := get_mq mq in
  let msg := mq_queue_free o in
  if msg =? 0 then
    rt_hw_interrupt_enable temp ;;;
    ret None
  else
    let! next := load msg in
    upd_mq mq (mq_set_free next) ;;;
    rt_hw_interrupt_enable temp ;;;
    ret (Some msg).

(** The end of the second one: the entry is counted, and the first waiting
    thread resumed. *)
Definition mq_sent (mq temp : Z) : K Z :=
  upd_mq mq (λ o, mq_set_entry (u16 (mq_entry o + 1)) o) ;;;
  let! e := tl_isempty (QSuspend mq) in
  if negb e then
    rt_ipc_list_resume (QSuspend mq) ;;;
    rt_hw_interrupt_enable temp ;;;
    rt_schedule ;;;
    ret RT_EOK
  else
    rt_hw_interrupt_enable temp ;;;
    ret RT_EOK.

Definition rt_mq_send (mq : Z) (buffer : list Z) (size : Z) : K Z :=
  RT_ASSERT (negb (size =? 0)) ;;;
  let! o := get_mq mq in
  if mq_msg_size o <? size then ret (- RT_ERROR) else
  RT_OBJECT_HOOK_CALL rt_object_put_hook (arg_object (OIpc mq)) ;;;
  let! m := mq_alloc_message mq in
  match m with
  | None => ret (- RT_EFULL)
  | Some msg =>
    store msg 0 ;;;
    copy_in msg buffer size ;;;
    let! temp := rt_hw_interrupt_disable in
    let! o := get_mq mq in
    (when negb (mq_queue_tail o =? 0) then store (mq_queue_tail o) msg) ;;;
    put_mq mq (mq_set_queue (if mq_queue_head o =? 0 then msg else mq_queue_head o) msg o) ;;;
    mq_sent mq temp
  end.

Definition rt_mq_urgent (mq : Z) (buffer : list Z) (size : Z) : K Z :=
  RT_ASSERT (negb (size =? 0)) ;;;
  let! o := get_mq mq in
  if mq_msg_size o <? size then ret (- RT_ERROR) else
  RT_OBJECT_HOOK_CALL rt_object_put_hook (arg_object (OIpc mq)) ;;;
  let! m := mq_alloc_message mq in
  match m with
  | None => ret (- RT_EFULL)
  | Some msg =>
    copy_in msg buffer size ;;;
    let! temp := rt_hw_interrupt_disable in
    let! o := get_mq mq in
    store msg (mq_queue_head o) ;;;
    put_mq mq (mq_set_queue msg (if mq_queue_tail o =? 0 then msg else mq_queue_tail o) o) ;;;
    mq_sent mq temp
  end.

(** The head leaves the queue. *)
Definition mq_take_head (mq : Z) : K Z :=
  let! o := get_mq mq in
  let msg := mq_queue_head o in
  let! next := load msg in
  put_mq mq (mq_set_queue next (if mq_queue_tail o =? msg then 0 else mq_queue_tail o) o) ;;;
  ret msg.

(** The loop of [rt_mq_recv], entered with interrupts masked, and what follows
    it.  The result is the error and the bytes written to the buffer. *)
Definition mq_recv_loop (mq size timeout tick_delta temp : Z)
    : K (outcome (Z * option (list Z)) mb_blocked) :=
  let! o := get_mq mq in
  if mq_entry o =? 0 then
    RT_DEBUG_IN_THREAD_CONTEXT ;;;
    let! thread := self in
    upd_thread thread (th_set_error RT_EOK) ;;;
    if timeout =? 0 then
      rt_hw_interrupt_enable temp ;;;
      upd_thread thread (th_set_error (- RT_ETIMEOUT)) ;;;
      ret (Returned (- RT_ETIMEOUT, None))
    else
      let! tick_delta := timed_wait (QSuspend mq) thread (mq_flag o) timeout tick_delta in
      rt_hw_interrupt_enable temp ;;;
      rt_schedule ;;;
      ret (Blocked (mk_mb_blocked thread timeout tick_delta))
  else
    let! msg := mq_take_head mq in
    upd_mq mq (λ o, mq_set_entry (u16 (mq_entry o - 1)) o) ;;;
    rt_hw_interrupt_enable temp ;;;
    let! o := get_mq mq in
    let! bytes := copy_out msg (if mq_msg_size o <? size then mq_msg_size o else size) in
    let! temp := rt_hw_interrupt_disable in
    mq_free_message mq msg ;;;
    rt_hw_interrupt_enable temp ;;;
    RT_OBJECT_HOOK_CALL rt_object_take_hook (arg_object (OIpc mq)) ;;;
    ret (Returned (RT_EOK, Some bytes)).

Definition rt_mq_recv (mq size timeout : Z) : K (outcome (Z * option (list Z)) mb_blocked) :=
  RT_ASSERT (negb (size =? 0)) ;;;
  RT_OBJECT_HOOK_CALL rt_object_trytake_hook (arg_object (OIpc mq)) ;;;
  let! temp := rt_hw_interrupt_disable in
  let! o := get_mq mq in
  if (mq_entry o =? 0) && (timeout =? 0) then
    rt_hw_interrupt_enable temp ;;;
    ret (Returned (- RT_ETIMEOUT, None))
  else mq_recv_loop mq size timeout 0 temp.

(** After the [rt_schedule()] of a blocked receiver. *)
Definition rt_mq_recv_return (mq size : Z) (c : mb_blocked)
    : K (outcome (Z * option (list Z)) mb_blocked) :=
  let! th := get_thread (bk_thread c) in
  if negb (th_error th =? RT_EOK) then ret (Returned (th_error th, None))
  else
    let! temp := rt_hw_interrupt_disable in
    let! timeout := remaining_timeout (bk_timeout c) (bk_tick_delta c) in
    mq_recv_loop mq size timeout (bk_tick_delta c) temp.

(** The loop of a reset: every message goes to the free list. *)
Fixpoint mq_drain (fuel : nat) (mq : Z) : K unit :=
  match fuel with
  | O => fail OutOfFuel
  | S fuel =>
    let! o := get_mq mq in
    if mq_queue_head o =? 0 then ret tt
    else
      let! msg := mq_take_head mq in
      mq_free_message mq msg ;;;
      mq_drain fuel mq
  end.

(** A queue has at most [max_msgs] messages. *)
Definition mq_drain_fuel (o : rt_messagequeue) : nat := S (Z.to_nat (mq_max_msgs o)).

Definition rt_mq_control (mq cmd arg : Z) : K Z :=
  if cmd =? RT_IPC_CMD_RESET then
    let! level := rt_hw_interrupt_disable in
    rt_ipc_list_resume_all (QSuspend mq) ;;;
    let! o := get_mq mq in
    mq_drain (mq_drain_fuel o) mq ;;;
    upd_mq mq (mq_set_entry 0) ;;;
    rt_hw_interrupt_enable level ;;;
    rt_schedule ;;;
    ret RT_EOK
  else ret (- RT_ERROR).

End ops.

(** ** The lists of messages *)

(** The content of the message at [a]. *)
Definition slot (blocks : gmap Z (list Z)) (size a : Z) (m : list Z) : Prop :=
  blocks !! (a + SIZEOF_MQ_MESSAGE) = Some m ∧ Z.of_nat (length m) = size.

(** The lists [free] and [queue] represent the queue of the contents [msgs]. *)
Record mq_rep (o : rt_messagequeue) (words : gmap Z Z) (blocks : gmap Z (list Z))
    (free queue : list Z) (msgs : list (list Z)) : Prop := {
  rq_free : chain words (mq_queue_free o) free;
  rq_queue : chain words (mq_queue_head o) queue;
  rq_tail : mq_queue_tail o = default 0 (last queue);
  rq_nodup : NoDup (free ++ queue);
  rq_msgs : Forall2 (slot blocks (mq_msg_size o)) queue msgs;
  rq_slots : Forall (λ a, ∃ m, slot blocks (mq_msg_size o) a m) free
}.

Lemma slot_insert blocks size f m a m' : a ≠ f →
  slot blocks size a m' → slot (<[f + SIZEOF_MQ_MESSAGE := m]> blocks) size a m'.
Proof.
  intros Hne [Hs Hl]. split; [|done]. rewrite lookup_insert_ne; [done|].
  unfold SIZEOF_MQ_MESSAGE. lia.
Qed.

Lemma slots_insert blocks size f m queue msgs : f ∉ queue →
  Forall2 (slot blocks size) queue msgs →
  Forall2 (slot (<[f + SIZEOF_MQ_MESSAGE := m]> blocks) size) queue msgs.
Proof.
  intros Hf Hq. induction Hq as [|a b q ms Ha Hq IH]; [constructor|].
  apply not_elem_of_cons in Hf as [? ?]. constructor; [by apply slot_insert|auto].
Qed.

Lemma free_slots_insert blocks size f m free : f ∉ free →
  Forall (λ a, ∃ m, slot blocks size a m) free →
  Forall (λ a, ∃ m', slot (<[f + SIZEOF_MQ_MESSAGE := m]> blocks) size a m') free.
Proof.
  intros Hf. rewrite !Forall_forall. intros Hs a Ha. destruct (Hs a Ha) as [m' ?].
  exists m'. apply slot_insert; [|done]. by intros ->.
Qed.

Section rep.
Context (o : rt_messagequeue) (words : gmap Z Z) (blocks : gmap Z (list Z)).

(** The first free message, with the content [m], becomes the last one. *)
Lemma rep_push f free queue msgs next m :
  mq_rep o words blocks (f :: free) queue msgs → words !! f = Some next →
  Z.of_nat (length m) = mq_msg_size o →
  mq_rep
    (mq_set_queue (if mq_queue_head o =? 0 then f else mq_queue_head o) f (mq_set_free next o))
    (if negb (mq_queue_tail o =? 0) then <[mq_queue_tail o := f]> (<[f := 0]> words)
     else <[f := 0]> words)
    (<[f + SIZEOF_MQ_MESSAGE := m]> blocks) free (queue ++ [f]) (msgs ++ [m]).
Proof.
  intros [Hf Hq Ht Hnd Hm Hs] Hn Hl.
  destruct Hf as (_ & Hf0 & next' & Hn' & Hf). simplify_eq.
  inversion_clear Hnd as [|?? Hnf Hnd']. apply not_elem_of_app in Hnf as [Hnf Hnq].
  apply Forall_cons in Hs as [_ Hs]. apply NoDup_app in Hnd' as (Hn1 & Hn2 & Hn3).
  assert (∀ a, a ∈ free → mq_queue_tail o ≠ a ∨ queue = []) as Htf.
  { intros a Ha. destruct queue as [|x q _] using rev_ind; [by right|left].
    rewrite Ht, last_snoc. cbn. intros <-. eapply Hn2; [exact Ha|]. set_solver. }
  split; cbn [mq_set_queue mq_set_free mq_queue_free mq_queue_head mq_queue_tail mq_msg_size].
  - assert (chain (<[f := 0]> words) next' free) as Hc by by apply chain_update.
    destruct (Z.eqb_spec (mq_queue_tail o) 0) as [|Hz]; cbn; [done|]. apply chain_update; [|done].
    intros Hin. destruct (Htf _ Hin) as [?| ->]; done.
  - rewrite (chain_nonzero _ _ _ Hq), Ht. destruct queue as [|x q _] using rev_ind.
    + cbn. split_and!; [done..|]. exists 0. by rewrite lookup_insert_eq.
    + rewrite bool_decide_eq_false_2 by by destruct q. rewrite last_snoc. cbn.
      assert (x ≠ 0) as Hx.
      { clear -Hq. revert Hq. generalize (mq_queue_head o). induction q as [|a q IH]; simpl.
        - by intros ? (-> & ? & _).
        - intros ? (_ & _ & next & _ & ?). eauto. }
      replace (x =? 0) with false by lia. cbn. rewrite <- app_assoc. cbn.
      apply NoDup_app in Hn3 as (_ & Hxq & _). apply chain_snoc; [done..| |done].
      intros Hin. eapply Hxq; [exact Hin|]. left.
  - by rewrite last_snoc.
  - rewrite app_assoc. apply NoDup_app. split_and!; [by apply NoDup_app| |apply NoDup_singleton].
    set_solver.
  - apply Forall2_app; [by apply slots_insert|]. constructor; [|constructor].
    split; [apply lookup_insert_eq|done].
  - by apply free_slots_insert.
Qed.

(** The first free message becomes the first one. *)
Lemma rep_push_front f free queue msgs next m :
  mq_rep o words blocks (f :: free) queue msgs → words !! f = Some next →
  Z.of_nat (length m) = mq_msg_size o →
  mq_rep
    (mq_set_queue f (if mq_queue_tail o =? 0 then f else mq_queue_tail o) (mq_set_free next o))
    (<[f := mq_queue_head o]> words) (<[f + SIZEOF_MQ_MESSAGE := m]> blocks)
    free (f :: queue) (m :: msgs).
Proof.
  intros [Hf Hq Ht Hnd Hm Hs] Hn Hl.
  destruct Hf as (_ & Hf0 & next' & Hn' & Hf). simplify_eq.
  inversion_clear Hnd as [|?? Hnf Hnd']. pose proof Hnf as [Hnf1 Hnq]%not_elem_of_app.
  apply Forall_cons in Hs as [_ Hs].
  split; cbn [mq_set_queue mq_set_free mq_queue_free mq_queue_head mq_queue_tail mq_msg_size].
  - by apply chain_update.
  - split_and!; [done..|]. eexists. rewrite lookup_insert_eq. split; [done|]. by apply chain_update.
  - rewrite last_cons, Ht. destruct (last queue) as [x|] eqn:E; [|done]. cbn.
    assert (x ≠ 0) as Hx.
    { clear -Hq E. revert Hq E. generalize (mq_queue_head o). induction queue as [|a q IH]; [done|].
      intros ? (_ & ? & next & _ & Hc). rewrite last_cons. destruct (last q) eqn:El; [|naive_solver].
      intros [= ->]. by eapply IH. }
    by replace (x =? 0) with false by lia.
  - rewrite <- Permutation_middle. by constructor.
  - constructor; [|by apply slots_insert]. split; [apply lookup_insert_eq|done].
  - by apply free_slots_insert.
Qed.

(** The first message leaves the queue, and then becomes the first free one. *)
Lemma rep_pop q free queue msgs m next :
  mq_rep o words blocks free (q :: queue) (m :: msgs) → words !! q = Some next →
  mq_rep
    (mq_set_free q (mq_set_queue next (if mq_queue_tail o =? q then 0 else mq_queue_tail o) o))
    (<[q := mq_queue_free o]> words) blocks (q :: free) queue msgs.
Proof.
  intros [Hf Hq Ht Hnd Hm Hs] Hn.
  destruct Hq as (_ & Hq0 & next' & Hn' & Hq). simplify_eq.
  rewrite <- Permutation_middle in Hnd. inversion_clear Hnd as [|?? Hnq Hnd'].
  pose proof Hnq as [Hnf1 Hnq1]%not_elem_of_app.
  inversion_clear Hm as [|???? Hsl Hm'].
  split; cbn [mq_set_queue mq_set_free mq_queue_free mq_queue_head mq_queue_tail mq_msg_size].
  - split_and!; [done..|]. eexists. rewrite lookup_insert_eq. split; [done|]. by apply chain_update.
  - by apply chain_update.
  - rewrite Ht, last_cons. destruct (last queue) as [x|] eqn:E; cbn.
    + apply last_Some_elem_of in E. destruct (Z.eqb_spec x q) as [->|]; done.
    + by rewrite Z.eqb_refl.
  - by constructor.
  - done.
  - constructor; [by exists m|done].
Qed.
End rep.

(** The representation does not depend on the count of entries. *)
Lemma mq_rep_entry v o words blocks free queue msgs :
  mq_rep o words blocks free queue msgs → mq_rep (mq_set_entry v o) words blocks free queue msgs.
Proof. intros [? ? ? ? ? ?]. by split. Qed.

(** ** What a message queue is

    Its flag, the size of a message, the capacity, the contents of the messages
    in it and the receivers that wait. *)
Definition mq_is (s : kstate) (mq flag size max : Z) (msgs : list (list Z)) (ws : list Z) : Prop :=
  ∃ o free queue, objs s !! mq = Some (KMq o) ∧ mq_flag o = flag ∧ mq_msg_size o = size ∧
    mq_entry o = Z.of_nat (length msgs) ∧
    mq_rep o (mem_words s) (mem_blocks s) free queue msgs ∧
    Z.of_nat (length free + length msgs) = max ∧ max < 2 ^ 16 ∧
    tlists s !! QSuspend mq = Some ws ∧
    (flag = RT_IPC_FLAG_FIFO ∨ flag = RT_IPC_FLAG_PRIO).

Section runs.
Context {cfg : RTConfig} (idle : Z).

Lemma get_mq_run s p o : objs s !! p = Some (KMq o) → get_mq p s = Ok o s.
Proof. intros Ho. unfold get_mq. krun. by rewrite Ho. Qed.

Lemma upd_mq_run s p o f : objs s !! p = Some (KMq o) →
  upd_mq p f s = Ok tt (set_objs (<[p := KMq (f o)]> (objs s)) s).
Proof. intros Ho. unfold upd_mq, put_mq. by rewrite (bind_ok _ _ _ _ _ (get_mq_run s p o Ho)). Qed.

Lemma alloc_run s mq o f next :
  objs s !! mq = Some (KMq o) → mq_queue_free o = f → f ≠ 0 → mem_words s !! f = Some next →
  mq_alloc_message mq s =
    Ok (Some f) (set_objs (<[mq := KMq (mq_set_free next o)]> (objs s)) s).
Proof.
  intros Ho Hf Hf0 Hn. unfold mq_alloc_message. krun. rewrite (get_mq_run _ mq o) by done. rewrite Hf.
  replace (f =? 0) with false by lia. krun. rewrite Hn. krun. by rewrite (upd_mq_run _ mq o).
Qed.

Lemma alloc_full s mq o :
  objs s !! mq = Some (KMq o) → mq_queue_free o = 0 → mq_alloc_message mq s = Ok None s.
Proof.
  intros Ho Hf. unfold mq_alloc_message. krun. rewrite (get_mq_run _ mq o) by done. by rewrite Hf.
Qed.

Lemma copy_in_run s msg buffer size old :
  mem_blocks s !! (msg + SIZEOF_MQ_MESSAGE) = Some old → size <= Z.of_nat (length buffer) →
  size <= Z.of_nat (length old) →
  copy_in msg buffer size s = Ok tt (set_mem_blocks (<[msg + SIZEOF_MQ_MESSAGE :=
    take (Z.to_nat size) buffer ++ drop (Z.to_nat size) old]> (mem_blocks s)) s).
Proof.
  intros Ho Hb Hl. unfold copy_in, get_block, put_block. krun. rewrite Ho. krun.
  replace (size <=? Z.of_nat (length buffer)) with true by lia.
  by replace (size <=? Z.of_nat (length old)) with true by lia.
Qed.

Lemma mq_sent_run s mq o ws p :
  kok idle s → objs s !! mq = Some (KMq o) → tlists s !! QSuspend mq = Some ws →
  ∃ s', mq_sent mq p s = Ok RT_EOK s' ∧
    gives idle (QSuspend mq) ws (set_primask p
      (set_objs (<[mq := KMq (mq_set_entry (u16 (mq_entry o + 1)) o)]> (objs s)) s)) s'.
Proof.
  intros Hk Ho Hl. set (s1 := set_objs (<[mq := KMq _]> (objs s)) s).
  destruct (give_run idle (QSuspend mq) ws s1 p (ret tt) RT_EOK) as (s' & E & Hg);
    [exact Hk|done|exact Hl|apply only_traces_ret|].
  exists s'. split; [|exact Hg]. rewrite <- E. unfold mq_sent.
  by rewrite (bind_ok _ _ _ _ _ (upd_mq_run s mq o _ Ho)).
Qed.

(** The bytes of a message that was sent with [size] bytes of [buffer] into a
    node that held [old]. *)
Definition sent_bytes (buffer : list Z) (size : Z) (old : list Z) : list Z :=
  take (Z.to_nat size) buffer ++ drop (Z.to_nat size) old.

Lemma sent_length buffer size old : 0 ≤ size ≤ Z.of_nat (length buffer) →
  size ≤ Z.of_nat (length old) → length (sent_bytes buffer size old) = length old.
Proof. intros. unfold sent_bytes. rewrite length_app, length_take, length_drop. lia. Qed.

(** What a send leaves, besides waking a thread. *)
Definition stored (s : kstate) (mq : Z) (o : rt_messagequeue) (words : gmap Z Z)
    (blocks : gmap Z (list Z)) (s' : kstate) : Prop :=
  objs s' !! mq = Some (KMq o) ∧ mem_words s' = words ∧ mem_blocks s' = blocks ∧
  primask s' = primask s ∧ tlists s' = tlists s ∧ threads s' = threads s ∧
  rt_interrupt_nest s' = rt_interrupt_nest s.

Lemma mq_send_run s mq o f next old buffer size ws :
  kok idle s → objs s !! mq = Some (KMq o) → mq_queue_free o = f → f ≠ 0 →
  mem_words s !! f = Some next → mem_blocks s !! (f + SIZEOF_MQ_MESSAGE) = Some old →
  0 < size ≤ mq_msg_size o → size ≤ Z.of_nat (length buffer) → size ≤ Z.of_nat (length old) →
  tlists s !! QSuspend mq = Some ws →
  ∃ s4 s', rt_mq_send mq buffer size s = Ok RT_EOK s' ∧
    stored s mq (mq_set_entry (u16 (mq_entry o + 1))
      (mq_set_queue (if mq_queue_head o =? 0 then f else mq_queue_head o) f (mq_set_free next o)))
      (if negb (mq_queue_tail o =? 0) then <[mq_queue_tail o := f]> (<[f := 0]> (mem_words s))
       else <[f := 0]> (mem_words s))
      (<[f + SIZEOF_MQ_MESSAGE := sent_bytes buffer size old]> (mem_blocks s)) s4 ∧
    gives idle (QSuspend mq) ws s4 s'.
Proof.
  intros Hk Ho Hf Hf0 Hn Hold Hsz Hb Hlo Hl.
  set (o2 := mq_set_queue (if mq_queue_head o =? 0 then f else mq_queue_head o) f
    (mq_set_free next o)).
  set (words := if negb (mq_queue_tail o =? 0)
    then <[mq_queue_tail o := f]> (<[f := 0]> (mem_words s)) else <[f := 0]> (mem_words s)).
  set (s1 := set_trace (trace s ++ hook_events rt_object_put_hook (arg_object (OIpc mq)) s) s).
  set (s3 := set_objs (<[mq := KMq o2]> (<[mq := KMq (mq_set_free next o)]> (objs s)))
    (set_mem_words words (set_mem_blocks
      (<[f + SIZEOF_MQ_MESSAGE := sent_bytes buffer size old]> (mem_blocks s)) (set_primask 1 s1)))).
  destruct (mq_sent_run s3 mq o2 ws (primask s)) as (s' & E & Hg);
    [exact Hk|apply lookup_insert_eq|exact Hl|].
  eexists _, s'. split; [|split; [|exact Hg]].
  2:{ unfold stored. split_and!; try done. apply lookup_insert_eq. }
  unfold rt_mq_send, RT_ASSERT. replace (size =? 0) with false by lia. cbn [negb].
  rewrite andb_false_r. krun. rewrite (get_mq_run _ mq o) by done.
  replace (mq_msg_size o <? size) with false by lia. krun. fold s1.
  rewrite (alloc_run s1 mq o f next) by done. krun.
  rewrite (copy_in_run _ f buffer size old) by done. krun.
  rewrite (get_mq_run _ mq (mq_set_free next o)) by apply lookup_insert_eq.
  change (mq_queue_tail (mq_set_free next o)) with (mq_queue_tail o).
  change (mq_queue_head (mq_set_free next o)) with (mq_queue_head o).
  rewrite <- E. unfold s3, words. destruct (mq_queue_tail o =? 0); unfold put_mq; krun; done.
Qed.

Lemma mq_urgent_run s mq o f next old buffer size ws :
  kok idle s → objs s !! mq = Some (KMq o) → mq_queue_free o = f → f ≠ 0 →
  mem_words s !! f = Some next → mem_blocks s !! (f + SIZEOF_MQ_MESSAGE) = Some old →
  0 < size ≤ mq_msg_size o → size ≤ Z.of_nat (length buffer) → size ≤ Z.of_nat (length old) →
  tlists s !! QSuspend mq = Some ws →
  ∃ s4 s', rt_mq_urgent mq buffer size s = Ok RT_EOK s' ∧
    stored s mq (mq_set_entry (u16 (mq_entry o + 1))
      (mq_set_queue f (if mq_queue_tail o =? 0 then f else mq_queue_tail o) (mq_set_free next o)))
      (<[f := mq_queue_head o]> (mem_words s))
      (<[f + SIZEOF_MQ_MESSAGE := sent_bytes buffer size old]> (mem_blocks s)) s4 ∧
    gives idle (QSuspend mq) ws s4 s'.
Proof.
  intros Hk Ho Hf Hf0 Hn Hold Hsz Hb Hlo Hl.
  set (o2 := mq_set_queue f (if mq_queue_tail o =? 0 then f else mq_queue_tail o)
    (mq_set_free next o)).
  set (s1 := set_trace (trace s ++ hook_events rt_object_put_hook (arg_object (OIpc mq)) s) s).
  set (s3 := set_objs (<[mq := KMq o2]> (<[mq := KMq (mq_set_free next o)]> (objs s)))
    (set_mem_words (<[f := mq_queue_head o]> (mem_words s)) (set_mem_blocks
      (<[f + SIZEOF_MQ_MESSAGE := sent_bytes buffer size old]> (mem_blocks s)) (set_primask 1 s1)))).
  destruct (mq_sent_run s3 mq o2 ws (primask s)) as (s' & E & Hg);
    [exact Hk|apply lookup_insert_eq|exact Hl|].
  eexists _, s'. split; [|split; [|exact Hg]].
  2:{ unfold stored. split_and!; try done. apply lookup_insert_eq. }
  unfold rt_mq_urgent, RT_ASSERT. replace (size =? 0) with false by lia. cbn [negb].
  rewrite andb_false_r. krun. rewrite (get_mq_run _ mq o) by done.
  replace (mq_msg_size o <? size) with false by lia. krun. fold s1.
  rewrite (alloc_run s1 mq o f next) by done. krun.
  rewrite (copy_in_run _ f buffer size old) by done. krun.
  rewrite (get_mq_run _ mq (mq_set_free next o)) by apply lookup_insert_eq.
  rewrite <- E. unfold put_mq. krun. done.
Qed.

(** A receive from a queue that is not empty. *)
Lemma mq_get_run s mq o q next bytes size timeout d p :
  kok idle s → objs s !! mq = Some (KMq o) → mq_entry o ≠ 0 → mq_queue_head o = q →
  mem_words s !! q = Some next → mem_blocks s !! (q + SIZEOF_MQ_MESSAGE) = Some bytes →
  Z.of_nat (length bytes) = mq_msg_size o →
  ∃ s', mq_recv_loop mq size timeout d p s =
      Ok (Returned (RT_EOK, Some (take (Z.to_nat (Z.min size (mq_msg_size o))) bytes))) s' ∧
    stored (set_primask p s) mq (mq_set_entry (u16 (mq_entry o - 1)) (mq_set_free q
      (mq_set_queue next (if mq_queue_tail o =? q then 0 else mq_queue_tail o) o)))
      (<[q := mq_queue_free o]> (mem_words s)) (mem_blocks s) s' ∧ kok idle s'.
Proof.
  intros Hk Ho He Hq Hn Hb Hl. unfold mq_recv_loop, mq_take_head, put_mq.
  rewrite (bind_ok _ _ _ _ _ (get_mq_run s mq o Ho)). replace (mq_entry o =? 0) with false by lia.
  krun. rewrite (get_mq_run s mq o) by done. rewrite Hq. krun. rewrite Hn. krun.
  erewrite upd_mq_run by apply lookup_insert_eq. krun.
  erewrite get_mq_run by apply lookup_insert_eq. cbn [mq_msg_size mq_set_entry mq_set_queue].
  replace (if mq_msg_size o <? size then mq_msg_size o else size) with (Z.min size (mq_msg_size o))
    by (destruct (Z.ltb_spec (mq_msg_size o) size); lia).
  unfold copy_out, get_block, mq_free_message. krun. rewrite Hb. krun.
  replace (Z.min size (mq_msg_size o) <=? Z.of_nat (length bytes)) with true by lia. krun.
  erewrite get_mq_run by apply lookup_insert_eq. krun.
  erewrite upd_mq_run by apply lookup_insert_eq. krun.
  eexists. split; [done|]. split; [|exact Hk]. unfold stored. split_and!; try done.
  cbn. by rewrite lookup_insert_eq.
Qed.

(** A receive that waits. *)
Lemma mq_wait_run s t th mq o size timeout d p ws tr :
  kok idle s → caller idle s t th → objs s !! mq = Some (KMq o) → mq_entry o = 0 →
  mq_flag o = RT_IPC_FLAG_FIFO ∨ mq_flag o = RT_IPC_FLAG_PRIO →
  tlists s !! QSuspend mq = Some ws → timeout ≠ 0 → timeout < half →
  ∃ s', mq_recv_loop mq size timeout d p (set_primask 1 (set_trace tr s)) =
      Ok (Blocked (mk_mb_blocked t timeout (if 0 <? timeout then rt_tick s else d))) s' ∧
    waits idle (QSuspend mq) t timeout
      (wait_insert (mq_flag o) (threads s) (th_current_priority th) t ws)
      (th_set_error RT_EOK th) (set_primask p s) s'.
Proof.
  intros Hk Hc Ho He Hf Hl Hz Hti.
  destruct (block_run idle s t th (th_set_error RT_EOK th) (QSuspend mq) (mq_flag o) timeout ws tr p)
    as (s1 & s' & _ & E1 & E2 & Hw); [done..|].
  exists s'. split; [|exact Hw]. unfold mq_recv_loop, upd_thread.
  rewrite (bind_ok _ _ _ _ _ (get_mq_run (set_primask 1 (set_trace tr s)) mq o Ho)). rewrite He. change (0 =? 0) with true. cbv iota.
  rewrite (bind_ok _ _ _ _ _ (in_thread_run idle (set_primask 1 (set_trace tr s)) t th
    ltac:(by destruct Hc))).
  replace (timeout =? 0) with false by lia. krun. rewrite (cl_self _ _ _ _ Hc). krun.
  rewrite (cl_thread _ _ _ _ Hc). krun. rewrite E1. by rewrite E2.
Qed.
End runs.

Section refinement.
Context {cfg : RTConfig}.

(** The representation after a send, and after a receive. *)
Lemma stored_is s s4 s' mq o4 words blocks free queue msgs flag size max ws l :
  stored s mq o4 words blocks s4 → gives l (QSuspend mq) ws s4 s' →
  mq_rep o4 words blocks free queue msgs → mq_flag o4 = flag → mq_msg_size o4 = size →
  mq_entry o4 = Z.of_nat (length msgs) → Z.of_nat (length free + length msgs) = max → max < 2 ^ 16 →
  (flag = RT_IPC_FLAG_FIFO ∨ flag = RT_IPC_FLAG_PRIO) →
  mq_is s' mq flag size max msgs (tail ws).
Proof.
  intros (Ho & Ew & Eb & _) Hg Hr Hf Hs He Hm Hm16 Hff. exists o4, free, queue.
  rewrite (gv_objs _ _ _ _ _ Hg), (gv_words _ _ _ _ _ Hg), (gv_blocks _ _ _ _ _ Hg), Ew, Eb.
  split_and!; try done. apply Hg.
Qed.

(** What the first free message holds. *)
Lemma free_slot o words blocks f free queue msgs :
  mq_rep o words blocks (f :: free) queue msgs →
  mq_queue_free o = f ∧ f ≠ 0 ∧ (∃ next, words !! f = Some next) ∧
  ∃ old, blocks !! (f + SIZEOF_MQ_MESSAGE) = Some old ∧ Z.of_nat (length old) = mq_msg_size o.
Proof.
  intros [(? & ? & next & ? & _) _ _ _ _ Hs]. apply Forall_cons in Hs as [(old & ? & ?) _].
  split_and!; eauto.
Qed.

(** The waiting thread that a send wakes. *)
Definition woken (s' : kstate) (ws : list Z) : Prop :=
  ∀ u, head ws = Some u → highest_runs s' ∧
    ∃ thu, threads s' !! u = Some (th_set_stat RT_THREAD_READY thu).

(** C37: [rt_mq_send] appends a message whose first [size] bytes are those of
    the buffer, and the first waiting thread becomes ready; a message larger
    than the size of the queue is refused with [-RT_ERROR], and on a full queue
    it fails with [-RT_EFULL]; in both cases the queue is unchanged. *)
Theorem mq_send_refines (idle : Z) (s : kstate) (mq flag msize max size : Z) (buffer : list Z)
    (msgs : list (list Z)) (ws : list Z) :
  kok idle s → mq_is s mq flag msize max msgs ws → 0 < size ≤ Z.of_nat (length buffer) →
  ∃ r s', rt_mq_send mq buffer size s = Ok r s' ∧ kok idle s' ∧ primask s' = primask s ∧
    if msize <? size then r = - RT_ERROR ∧ mq_is s' mq flag msize max msgs ws
    else if Z.of_nat (length msgs) =? max then r = - RT_EFULL ∧ mq_is s' mq flag msize max msgs ws
    else ∃ rest, r = RT_EOK ∧
      mq_is s' mq flag msize max (msgs ++ [take (Z.to_nat size) buffer ++ rest]) (tail ws) ∧
      woken s' ws.
Proof.
  intros Hk Hm Hsz. pose proof Hm as (o & free & queue & Ho & Hf & Hs & He & Hr & Hl & Hmx & Hws & Hfl).
  destruct (Z.ltb_spec msize size) as [Hbig|Hfit].
  { exists (- RT_ERROR), s. split_and!; try done.
    unfold rt_mq_send, RT_ASSERT. replace (size =? 0) with false by lia. cbn [negb].
    rewrite andb_false_r. krun. rewrite (get_mq_run _ mq o) by done.
    by replace (mq_msg_size o <? size) with true by lia. }
  destruct free as [|f free].
  { simpl in Hl. replace (Z.of_nat (length msgs) =? max) with true by lia.
    exists (- RT_EFULL), (set_trace (trace s ++
      hook_events rt_object_put_hook (arg_object (OIpc mq)) s) s). split_and!; [|exact Hk|done|done|].
    - unfold rt_mq_send, RT_ASSERT. replace (size =? 0) with false by lia. cbn [negb].
      rewrite andb_false_r. krun. rewrite (get_mq_run _ mq o) by done.
      replace (mq_msg_size o <? size) with false by lia. krun.
      rewrite (alloc_full _ mq o); [done|done|]. apply Hr.
    - by exists o, [], queue. }
  simpl in Hl. replace (Z.of_nat (length msgs) =? max) with false by lia.
  destruct (free_slot _ _ _ _ _ _ _ Hr) as (Ef & Hf0 & [next Hn] & old & Hold & Hlo).
  destruct (mq_send_run idle s mq o f next old buffer size ws) as (s4 & s' & E & Hst & Hg);
    try done; [lia..|].
  exists RT_EOK, s'. split; [exact E|]. pose proof Hst as (_ & _ & _ & Ep & _).
  split_and!; [apply Hg|by rewrite (gv_mask _ _ _ _ _ Hg)|].
  exists (drop (Z.to_nat size) old). split_and!; [done| |].
  - eapply stored_is; [exact Hst|exact Hg|eapply mq_rep_entry, rep_push; [exact Hr|exact Hn|]|done..| | |done|done].
    + fold (sent_bytes buffer size old). rewrite sent_length; lia.
    + cbn. rewrite He, length_app. unfold u16. rewrite wrap_small; simpl; lia.
    + rewrite length_app. simpl. lia.
  - intros u Hu. destruct (gv_woken _ _ _ _ _ Hg u Hu) as (? & thu & _ & ? & _). eauto.
Qed.

(** [rt_mq_urgent] is [rt_mq_send] with the message put in front of the
    others. *)
Theorem mq_urgent_refines (idle : Z) (s : kstate) (mq flag msize max size : Z) (buffer : list Z)
    (msgs : list (list Z)) (ws : list Z) :
  kok idle s → mq_is s mq flag msize max msgs ws → 0 < size ≤ Z.of_nat (length buffer) →
  size ≤ msize → Z.of_nat (length msgs) < max →
  ∃ s' rest, rt_mq_urgent mq buffer size s = Ok RT_EOK s' ∧ kok idle s' ∧ primask s' = primask s ∧
    mq_is s' mq flag msize max ((take (Z.to_nat size) buffer ++ rest) :: msgs) (tail ws) ∧
    woken s' ws.
Proof.
  intros Hk Hm Hsz Hfit Hlt.
  pose proof Hm as (o & free & queue & Ho & Hf & Hs & He & Hr & Hl & Hmx & Hws & Hfl).
  destruct free as [|f free]; [simpl in Hl; lia|]. simpl in Hl.
  destruct (free_slot _ _ _ _ _ _ _ Hr) as (Ef & Hf0 & [next Hn] & old & Hold & Hlo).
  destruct (mq_urgent_run idle s mq o f next old buffer size ws) as (s4 & s' & E & Hst & Hg);
    try done; [lia..|].
  exists s', (drop (Z.to_nat size) old). split; [exact E|]. pose proof Hst as (_ & _ & _ & Ep & _).
  split_and!; [apply Hg|by rewrite (gv_mask _ _ _ _ _ Hg)| |].
  - eapply stored_is; [exact Hst|exact Hg
      |eapply mq_rep_entry, rep_push_front; [exact Hr|exact Hn|]|done..| | |done|done].
    + fold (sent_bytes buffer size old). rewrite sent_length; lia.
    + cbn. rewrite He. unfold u16. rewrite wrap_small; lia.
    + simpl. lia.
  - intros u Hu. destruct (gv_woken _ _ _ _ _ Hg u Hu) as (? & thu & _ & ? & _). eauto.
Qed.

(** C30: [rt_mq_recv] delivers the first message, as many bytes as fit in the
    buffer and the message has, and puts its node back to the free ones; on
    an empty queue it fails with [-RT_ETIMEOUT] when it is not to wait, and
    otherwise the calling thread waits. *)
Theorem mq_recv_refines (idle : Z) (s : kstate) (t mq flag msize max size timeout : Z)
    (th : rt_thread) (msgs : list (list Z)) (ws : list Z) :
  kok idle s → caller idle s t th → mq_is s mq flag msize max msgs ws → 0 < size →
  timeout < half →
  ∃ r s', rt_mq_recv mq size timeout s = Ok r s' ∧ kok idle s' ∧ primask s' = primask s ∧
    match msgs with
    | m :: msgs =>
      r = Returned (RT_EOK, Some (take (Z.to_nat (Z.min size msize)) m)) ∧
      mq_is s' mq flag msize max msgs ws
    | [] =>
      if timeout =? 0 then
        r = Returned (- RT_ETIMEOUT, None) ∧ mq_is s' mq flag msize max [] ws
      else
        let ws' := wait_insert flag (threads s) (th_current_priority th) t ws in
        (∃ d, r = Blocked (mk_mb_blocked t timeout d)) ∧ mq_is s' mq flag msize max [] ws' ∧
        waits idle (QSuspend mq) t timeout ws' (th_set_error RT_EOK th) s s'
    end.
Proof.
  intros Hk Hc Hm Hsz Hti.
  pose proof Hm as (o & free & queue & Ho & Hf & Hs & He & Hr & Hl & Hmx & Hws & Hfl).
  set (tr := trace s ++ hook_events rt_object_trytake_hook (arg_object (OIpc mq)) s).
  set (s1 := set_primask 1 (set_trace tr s)).
  assert (rt_mq_recv mq size timeout s =
    (if (mq_entry o =? 0) && (timeout =? 0) then
       rt_hw_interrupt_enable (primask s) ;;; ret (Returned (- RT_ETIMEOUT, None))
     else mq_recv_loop mq size timeout 0 (primask s)) s1) as ->.
  { unfold rt_mq_recv, RT_ASSERT. replace (size =? 0) with false by lia. cbn [negb].
    rewrite andb_false_r. krun. by rewrite (get_mq_run _ mq o). }
  destruct msgs as [|m msgs].
  - rewrite He. change (Z.of_nat (length []) =? 0) with true.
    destruct (Z.eqb_spec timeout 0) as [->|Hz]; krun.
    + do 2 eexists. split; [done|]. split_and!; try done.
    + destruct (mq_wait_run idle s t th mq o size timeout 0 (primask s) ws tr) as (s' & E & Hw);
        try done; [by rewrite Hf|].
      rewrite Hf in Hw. fold s1 in E. rewrite E. do 2 eexists. split; [done|].
      split_and!; [apply Hw|apply Hw|by eexists| |].
      * exists o, free, queue. rewrite (w_objs _ _ _ _ _ _ _ _ Hw), (w_words _ _ _ _ _ _ _ _ Hw),
          (w_blocks _ _ _ _ _ _ _ _ Hw). split_and!; try done. apply Hw.
      * destruct Hw. by split.
  - replace (mq_entry o =? 0) with false by (rewrite He; simpl; lia). cbn [andb].
    destruct queue as [|q queue]; [pose proof (rq_msgs _ _ _ _ _ _ Hr) as Hq; by inversion Hq|].
    destruct (rq_queue _ _ _ _ _ _ Hr) as (Eq & _ & next & Hn & _).
    pose proof (rq_msgs _ _ _ _ _ _ Hr) as [[Hb Hbl] _]%Forall2_cons.
    destruct (mq_get_run idle s1 mq o q next m size timeout 0 (primask s)) as (s' & E & Hst & Hk');
      try done; [rewrite He; simpl; lia|].
    rewrite E, Hs. pose proof Hst as (Ho' & Ew & Eb & Ep & El & _).
    do 2 eexists. split; [done|]. split_and!; [done..|].
    eexists _, (q :: free), queue. rewrite Ho', Ew, Eb, El.
    split_and!; [done|done|done| |eapply mq_rep_entry, rep_pop; [exact Hr|exact Hn]|
      |done|done|done].
    + cbn. rewrite He. unfold u16. simpl in Hl |- *. rewrite wrap_small; lia.
    + simpl in *. lia.
Qed.
End refinement.

(** ** Examples

    A queue of two messages of 8 bytes, at 0x3000 and 0x300c; the second one
    is free or holds the bytes 1 to 8. *)
Definition demo_mq (entry head tail free : Z) : kobj :=
  KMq (mk_mq (mk_object (replicate 8 0) 136 0) 0x3000 8 2 entry head tail free).
Definition demo_queue (entry head tail free next : Z) : kstate :=
  set_mem_words (list_to_map [(0x3000, next); (0x300c, 0)])
    (set_mem_blocks (list_to_map [(0x3004, replicate 8 255); (0x3010, [1;2;3;4;5;6;7;8])])
      (demo [] [(100, demo_mq entry head tail free)])).
Lemma demo_queue_ok entry head tail free next : kok 1 (demo_queue entry head tail free next).
Proof. apply kinv_check_spec. vm_compute. reflexivity. Qed.

(** Both messages are free. *)
Lemma demo_queue_empty : mq_is (demo_queue 0 0 0 0x3000 0x300c) 100 0 8 2 [] [3; 5].
Proof.
  exists (mk_mq (mk_object (replicate 8 0) 136 0) 0x3000 8 2 0 0 0 0x3000), [0x3000; 0x300c], [].
  split_and!; try reflexivity; [|by left]. split; try done.
  - simpl. split_and!; try lia. exists 0x300c. split_and!; try done. by exists 0.
  - apply (bool_decide_unpack _). vm_compute. exact I.
  - repeat constructor; by eexists.
Qed.

(** The second one is in the queue. *)
Lemma demo_queue_one : mq_is (demo_queue 1 0x300c 0x300c 0x3000 0) 100 0 8 2
  [[1;2;3;4;5;6;7;8]] [3; 5].
Proof.
  exists (mk_mq (mk_object (replicate 8 0) 136 0) 0x3000 8 2 1 0x300c 0x300c 0x3000), [0x3000], [0x300c].
  split_and!; try reflexivity; [|by left]. split; try done.
  - simpl. split_and!; try lia. by exists 0.
  - simpl. split_and!; try lia. by exists 0.
  - apply (bool_decide_unpack _). vm_compute. exact I.
  - repeat constructor.
  - repeat constructor; by eexists.
Qed.

Lemma mq_send_refines_witness :
  ∃ s', rt_mq_send (cfg := gd32_config) 100 [7; 8; 9] 3 (demo_queue 0 0 0 0x3000 0x300c) =
    Ok RT_EOK s' ∧ kok 1 s'.
Proof.
  destruct (mq_send_refines (cfg := gd32_config) 1 (demo_queue 0 0 0 0x3000 0x300c) 100 0 8 2 3
    [7; 8; 9] [] [3; 5]) as (r & s' & E & Hk & _ & rest & -> & _).
  - apply demo_queue_ok.
  - apply demo_queue_empty.
  - simpl. lia.
  - by exists s'.
Defined.

Lemma mq_urgent_refines_witness :
  ∃ s', rt_mq_urgent (cfg := gd32_config) 100 [7; 8; 9] 3 (demo_queue 1 0x300c 0x300c 0x3000 0) =
    Ok RT_EOK s' ∧ kok 1 s'.
Proof.
  destruct (mq_urgent_refines (cfg := gd32_config) 1 (demo_queue 1 0x300c 0x300c 0x3000 0) 100 0 8 2 3
    [7; 8; 9] [[1;2;3;4;5;6;7;8]] [3; 5]) as (s' & rest & E & Hk & _).
  - apply demo_queue_ok.
  - apply demo_queue_one.
  - simpl. lia.
  - lia.
  - simpl. lia.
  - by exists s'.
Defined.

Lemma mq_recv_refines_witness :
  ∃ s', rt_mq_recv (cfg := gd32_config) 100 3 0 (demo_queue 1 0x300c 0x300c 0x3000 0) =
    Ok (Returned (RT_EOK, Some [1; 2; 3])) s'.
Proof.
  destruct (mq_recv_refines (cfg := gd32_config) 1 (demo_queue 1 0x300c 0x300c 0x3000 0) 2 100 0 8 2
    3 0 (demo_thread 2 RT_THREAD_READY 10) [[1;2;3;4;5;6;7;8]] [3; 5]) as (r & s' & E & _ & _ & -> & _).
  - apply demo_queue_ok.
  - by split.
  - apply demo_queue_one.
  - lia.
  - reflexivity.
  - by exists s'.
Defined.
