(* ===== verification/Device.v ===== *)
(** * Errno and devices ([kservice.c], [device.c])

    The per-thread error number, and the registration, reference counting and
    dispatch of devices.  The entry points of a driver are functions of the
    driver, which the operations receive as a parameter. *)

From S2P Require Import Prelude RtDef SortedList Mem KService Kernel Scheduler Object.
From S2P Require Import Timer Invariant Thread Clock Demo.

(** ** Errno *)
Definition rt_get_errno : K Z :=
  let! nest := rt_interrupt_get_nest in
  if negb (nest =? 0) then read sys_errno else
  let! tid := rt_thread_self in
  match tid with
  | None => read sys_errno
  | Some t => let! th := get_thread t in ret (th_error th)
  end.

Definition rt_set_errno (error : Z) : K unit :=
  let! nest := rt_interrupt_get_nest in
  if negb (nest =? 0) then modify (set_sys_errno error) else
  let! tid := rt_thread_self in
  match tid with
  | None => modify (set_sys_errno error)
  | Some t => upd_thread t (th_set_error error)
  end.

(** Where the error number is: [None] for the static variable. *)
Definition _rt_errno : K (option Z) :=
  let! nest := rt_interrupt_get_nest in
  if negb (nest =? 0) then ret None else rt_thread_self.

(** ** Devices *)
Definition RT_DEVICE_FLAG_STANDALONE : Z := 0x008.
Definition RT_DEVICE_FLAG_ACTIVATED : Z := 0x010.
Definition RT_DEVICE_OFLAG_CLOSE : Z := 0x000.
Definition RT_DEVICE_OFLAG_OPEN : Z := 0x008.

Definition put_device (p : Z) (d : rt_device) : K unit := put_obj p (KDevice d).
Definition upd_device (p : Z) (f : rt_device → rt_device) : K unit :=
  let! d := get_device p in put_device p (f d).

Definition dev_set_flag (v : Z) (d : rt_device) : rt_device :=
  mk_device (dev_parent d) v (dev_open_flag d) (dev_ref_count d) (dev_rx_indicate d)
    (dev_tx_complete d) (dev_init d) (dev_open d) (dev_close d) (dev_read d) (dev_write d)
    (dev_control d).
Definition dev_set_open (v : Z) (d : rt_device) : rt_device :=
  mk_device (dev_parent d) (dev_flag d) v (dev_ref_count d) (dev_rx_indicate d)
    (dev_tx_complete d) (dev_init d) (dev_open d) (dev_close d) (dev_read d) (dev_write d)
    (dev_control d).
Definition dev_set_ref (v : Z) (d : rt_device) : rt_device :=
  mk_device (dev_parent d) (dev_flag d) (dev_open_flag d) v (dev_rx_indicate d)
    (dev_tx_complete d) (dev_init d) (dev_open d) (dev_close d) (dev_read d) (dev_write d)
    (dev_control d).
Definition dev_set_callbacks (rx tx : option Z) (d : rt_device) : rt_device :=
  mk_device (dev_parent d) (dev_flag d) (dev_open_flag d) (dev_ref_count d) rx tx (dev_init d)
    (dev_open d) (dev_close d) (dev_read d) (dev_write d) (dev_control d).

Section ops.
Context {cfg : RTConfig}.

(** [call f args] runs the driver function at the address [f]. *)
Context (call : Z → list Z → K Z).

Definition rt_device_find (name : list Z) : K (option Z) :=
  let! cur := rt_thread_self in
  (when bool_decide (is_Some cur) then rt_enter_critical) ;;;
  let! l := rt_object_get_information RT_Object_Class_Device in
  let! r := find_loop name l in
  let! cur := rt_thread_self in
  (when bool_decide (is_Some cur) then rt_exit_critical) ;;;
  ret (oid_addr <$> r).

Definition rt_device_register (dev : option Z) (name : list Z) (flags : Z) : K Z :=
  match dev with
  | None => ret (- RT_ERROR)
  | Some dev =>
    let! found := rt_device_find name in
    if bool_decide (is_Some found) then ret (- RT_ERROR)
    else
      rt_object_init (OIpc dev) RT_Object_Class_Device name ;;;
      upd_device dev (λ d, dev_set_open 0 (dev_set_ref 0 (dev_set_flag flags d))) ;;;
      ret RT_EOK
  end.

Definition rt_device_unregister (dev : Z) : K Z :=
  rt_object_detach (OIpc dev) ;;;
  ret RT_EOK.

Definition rt_device_init_all : K Z := ret RT_EOK.

(** The message printed when the driver fails is output only. *)
Definition rt_device_init (dev : Z) : K Z :=
  let! d := get_device dev in
  match dev_init d with
  | None => ret RT_EOK
  | Some init =>
    if Z.land (dev_flag d) RT_DEVICE_FLAG_ACTIVATED =? 0 then
      let! result := call init [dev] in
      (when result =? RT_EOK then
         upd_device dev (λ d, dev_set_flag (Z.lor (dev_flag d) RT_DEVICE_FLAG_ACTIVATED) d)) ;;;
      ret result
    else ret RT_EOK
  end.

(** The first part of an open: the device is initialised if it is not yet. *)
Definition device_activate (dev : Z) : K Z :=
  let! d := get_device dev in
  if Z.land (dev_flag d) RT_DEVICE_FLAG_ACTIVATED =? 0 then
    let! result := match dev_init d with None => ret RT_EOK | Some init => call init [dev] end in
    if result =? RT_EOK then
      upd_device dev (λ d, dev_set_flag (Z.lor (dev_flag d) RT_DEVICE_FLAG_ACTIVATED) d) ;;;
      ret RT_EOK
    else ret result
  else ret RT_EOK.

Definition rt_device_open (dev oflag : Z) : K Z :=
  let! result := device_activate dev in
  if negb (result =? RT_EOK) then ret result else
  let! d := get_device dev in
  if negb (Z.land (dev_flag d) RT_DEVICE_FLAG_STANDALONE =? 0) &&
     negb (Z.land (dev_open_flag d) RT_DEVICE_OFLAG_OPEN =? 0) then ret (- RT_EBUSY) else
  let! result := match dev_open d with None => ret RT_EOK | Some f => call f [dev; oflag] end in
  (when (result =? RT_EOK) || (result =? - RT_ENOSYS) then
     upd_device dev (λ d, dev_set_ref (u8 (dev_ref_count d + 1))
       (dev_set_open (Z.lor oflag RT_DEVICE_OFLAG_OPEN) d)) ;;;
     let! d := get_device dev in
     RT_ASSERT (negb (dev_ref_count d =? 0))) ;;;
  ret result.

Definition rt_device_close (dev : Z) : K Z :=
  let! d := get_device dev in
  if dev_ref_count d =? 0 then ret (- RT_ERROR) else
  put_device dev (dev_set_ref (u8 (dev_ref_count d - 1)) d) ;;;
  if negb (u8 (dev_ref_count d - 1) =? 0) then ret RT_EOK else
  let! result := match dev_close d with None => ret RT_EOK | Some f => call f [dev] end in
  (when (result =? RT_EOK) || (result =? - RT_ENOSYS) then
     upd_device dev (dev_set_open RT_DEVICE_OFLAG_CLOSE)) ;;;
  ret result.

(** [buffer] is an address. *)
Definition rt_device_read (dev pos buffer size : Z) : K Z :=
  let! d := get_device dev in
  if dev_ref_count d =? 0 then rt_set_errno (- RT_ERROR) ;;; ret 0 else
  match dev_read d with
  | Some f => call f [dev; pos; buffer; size]
  | None => rt_set_errno (- RT_ENOSYS) ;;; ret 0
  end.

Definition rt_device_write (dev pos buffer size : Z) : K Z :=
  let! d := get_device dev in
  if dev_ref_count d =? 0 then rt_set_errno (- RT_ERROR) ;;; ret 0 else
  match dev_write d with
  | Some f => call f [dev; pos; buffer; size]
  | None => rt_set_errno (- RT_ENOSYS) ;;; ret 0
  end.

Definition rt_device_control (dev cmd arg : Z) : K Z :=
  let! d := get_device dev in
  match dev_control d with
  | Some f => call f [dev; cmd; arg]
  | None => ret RT_EOK
  end.

Definition rt_device_set_rx_indicate (dev : Z) (rx_ind : option Z) : K Z :=
  upd_device dev (λ d, dev_set_callbacks rx_ind (dev_tx_complete d) d) ;;;
  ret RT_EOK.

Definition rt_device_set_tx_complete (dev : Z) (tx_done : option Z) : K Z :=
  upd_device dev (λ d, dev_set_callbacks (dev_rx_indicate d) tx_done d) ;;;
  ret RT_EOK.

End ops.
