(* ===== verification/Idle.v ===== *)
(** * The idle thread ([rtthread/kernel/src/idle.c])

    The clean-up of terminated threads, and the initialisation of the idle
    thread. *)

From S2P Require Import Prelude RtDef SortedList Mem KService Kernel Cpuport Scheduler.
From S2P Require Import Object Timer Invariant Thread Demo.

Section ops.
Context {cfg : RTConfig}.

Definition IDLE_THREAD_STACK_SIZE : Z := 256.

Definition _has_defunct_thread : K bool :=
  let! e := tl_isempty QDefunct in ret (negb e).

(** One iteration of the loop; the result says whether it goes on. *)
Definition idle_cleanup_one : K bool :=
  RT_DEBUG_NOT_IN_INTERRUPT ;;;
  let! lock := rt_hw_interrupt_disable in
  let! more := _has_defunct_thread in
  if negb more then
    rt_hw_interrupt_enable lock ;;;
    ret false
  else
    let! thread := tl_first QDefunct in
    tl_unlink thread ;;;
    let! th := get_thread thread in
    match th_cleanup th with
    | Some f => emit (ev_thread_cleanup f thread)
    | None => ret tt
    end ;;;
    let! sys := rt_object_is_systemobject (OThread thread) in
    if sys then
      rt_hw_interrupt_enable lock ;;;
      ret false
    else
      rt_hw_interrupt_enable lock ;;;
      in_heap (Mem.rt_free (th_stack_addr th)) ;;;
      rt_object_delete (OThread thread) ;;;
      ret true.

Fixpoint idle_loop (fuel : nat) : K unit :=
  match fuel with
  | O => fail OutOfFuel
  | S fuel =>
    let! more := _has_defunct_thread in
    if more then
      let! go := idle_cleanup_one in
      (when go then idle_loop fuel)
    else ret tt
  end.

(** One iteration per terminated thread. *)
Definition rt_thread_idle_excute : K unit :=
  let! l := tl_get QDefunct in
  idle_loop (S (length l)).

(** One iteration of the endless loop of the idle thread. *)
Definition rt_thread_idle_entry : K unit :=
  RT_OBJECT_HOOK_CALL rt_thread_idle_hook arg_none ;;;
  rt_thread_idle_excute.

(** [idle] and [stack] are the addresses of the static variables [idle] and
    [rt_thread_stack], [entry] that of [rt_thread_idle_entry]. *)
Definition tidle : list Z := [116; 105; 100; 108; 101; 0].
Definition rt_thread_idle_init (idle stack entry : Z) : K unit :=
  rt_thread_init idle tidle entry 0 stack IDLE_THREAD_STACK_SIZE (RT_THREAD_PRIORITY_MAX - 1) 32 ;;;
  rt_thread_startup idle ;;;
  ret tt.

Definition rt_thread_idle_gethandler (idle : Z) : Z := idle.

End ops.
