(* ===== verification/Mempool.v ===== *)
(** * Memory pools ([rtthread/kernel/src/mempool.c])

    Blocks of one size, linked through their first word while they are free;
    the first word of an allocated block is the address of its pool. *)

From S2P Require Import Prelude RtDef SortedList Mem KService Kernel Cpuport Scheduler.
From S2P Require Import Object Timer Invariant Thread Clock Ipc Demo Mailbox MsgQueue.
From S2P Require Import Device.

(** [sizeof(rt_uint8_t * )] *)
Definition SIZEOF_PTR : Z := 4.

(** ** Operations *)
Section ops.
Context {cfg : RTConfig}.

Definition put_mp (p : Z) (o : rt_mempool) : K unit := put_obj p (KMempool o).
Definition upd_mp (p : Z) (f : rt_mempool → rt_mempool) : K unit :=
  let! o := get_mp p in put_mp p (f o).

Definition mp_set_pool (start size block_size : Z) (o : rt_mempool) : rt_mempool :=
  mk_mempool (mp_parent o) start size block_size (mp_block_list o) (mp_block_total_count o)
    (mp_block_free_count o) (mp_suspend_thread_count o).
Definition mp_set_counts (total free suspended : Z) (o : rt_mempool) : rt_mempool :=
  mk_mempool (mp_parent o) (mp_start_address o) (mp_size o) (mp_block_size o) (mp_block_list o)
    total free suspended.
Definition mp_set_list (list : Z) (o : rt_mempool) : rt_mempool :=
  mk_mempool (mp_parent o) (mp_start_address o) (mp_size o) (mp_block_size o) list
    (mp_block_total_count o) (mp_block_free_count o) (mp_suspend_thread_count o).
Definition mp_set_free (v : Z) (o : rt_mempool) : rt_mempool :=
  mp_set_counts (mp_block_total_count o) v (mp_suspend_thread_count o) o.
Definition mp_set_suspended (v : Z) (o : rt_mempool) : rt_mempool :=
  mp_set_counts (mp_block_total_count o) (mp_block_free_count o) v o.

(** The loop that links the blocks, [n] from number [offset] on, and the store
    that ends the list, which goes below the pool when there is no block. *)
Fixpoint mp_link (block_ptr stride offset : Z) (n : nat) : K unit :=
  match n with
  | O => ret tt
  | S n =>
    store (u32 (block_ptr + offset * stride)) (u32 (block_ptr + (offset + 1) * stride)) ;;;
    mp_link block_ptr stride (offset + 1) n
  end.
Definition mp_init_list (mp block_size : Z) : K unit :=
  let! o := get_mp mp in
  let block_ptr := mp_start_address o in
  let stride := block_size + SIZEOF_PTR in
  let total := mp_block_total_count o in
  mp_link block_ptr stride 0 (Z.to_nat total) ;;;
  store (u32 (block_ptr + (total - 1) * stride)) 0 ;;;
  upd_mp mp (mp_set_list block_ptr).

Definition rt_mp_init (mp : Z) (name : list Z) (start size block_size : Z) : K Z :=
  rt_object_init (OIpc mp) RT_Object_Class_MemPool name ;;;
  let size := RT_ALIGN_DOWN size RT_ALIGN_SIZE in
  let block_size := RT_ALIGN block_size RT_ALIGN_SIZE in
  let total := size / u32 (block_size + SIZEOF_PTR) in
  upd_mp mp (mp_set_pool start size block_size) ;;;
  upd_mp mp (mp_set_counts total total 0) ;;;
  tl_init (QSuspend mp) ;;;
  mp_init_list mp block_size ;;;
  ret RT_EOK.

(** The loop of [rt_mp_detach] and [rt_mp_delete]. *)
Fixpoint mp_resume_loop (fuel : nat) (mp : Z) : K unit :=
  match fuel with
  | O => fail OutOfFuel
  | S fuel =>
    let! e := tl_isempty (QSuspend mp) in
    if e then ret tt else
      let! temp := rt_hw_interrupt_disable in
      let! thread := tl_first (QSuspend mp) in
      upd_thread thread (th_set_error (- RT_ERROR)) ;;;
      rt_thread_resume thread ;;;
      upd_mp mp (λ o, mp_set_suspended (u32 (mp_suspend_thread_count o - 1)) o) ;;;
      rt_hw_interrupt_enable temp ;;;
      mp_resume_loop fuel mp
  end.
Definition mp_resume_all (mp : Z) : K unit :=
  let! l := tl_get (QSuspend mp) in mp_resume_loop (S (length l)) mp.

Definition rt_mp_detach (mp : Z) : K Z :=
  mp_resume_all mp ;;;
  rt_object_detach (OIpc mp) ;;;
  ret RT_EOK.

Definition rt_mp_create (name : list Z) (block_count block_size : Z) (raw_mp : rt_mempool)
    : K (option Z) :=
  RT_DEBUG_NOT_IN_INTERRUPT ;;;
  let! o := rt_object_allocate RT_Object_Class_MemPool name (RawObj (KMempool raw_mp)) in
  match o with
  | Some (OIpc mp) =>
    let block_size := RT_ALIGN block_size RT_ALIGN_SIZE in
    let size := u32 ((block_size + SIZEOF_PTR) * block_count) in
    let! start := in_heap (Mem.rt_malloc size) in
    upd_mp mp (mp_set_pool start size block_size) ;;;
    if start =? 0 then
      rt_object_delete (OIpc mp) ;;;
      ret None
    else
      upd_mp mp (mp_set_counts block_count block_count 0) ;;;
      tl_init (QSuspend mp) ;;;
      mp_init_list mp block_size ;;;
      ret (Some mp)
  | _ => ret None
  end.

Definition rt_mp_delete (mp : Z) : K Z :=
  RT_DEBUG_NOT_IN_INTERRUPT ;;;
  mp_resume_all mp ;;;
  let! o := get_mp mp in
  in_heap (Mem.rt_free (mp_start_address o)) ;;;
  rt_object_delete (OIpc mp) ;;;
  ret RT_EOK.

(** What a blocked call keeps: its thread, the time, and [before_sleep]. *)
Record mp_blocked := mk_mp_blocked {
  mpb_thread : Z;
  mpb_time : Z;
  mpb_before_sleep : Z
}.

(** The loop of [rt_mp_alloc], entered with interrupts masked, and what
    follows it.  The result is the address of the block, 0 for none. *)
Definition mp_alloc_loop (mp time before_sleep level : Z) : K (outcome Z mp_blocked) :=
  let! o := get_mp mp in
  if mp_block_free_count o =? 0 then
    if time =? 0 then
      rt_hw_interrupt_enable level ;;;
      rt_set_errno (- RT_ETIMEOUT) ;;;
      ret (Returned 0)
    else
      RT_DEBUG_NOT_IN_INTERRUPT ;;;
      let! thread := self in
      upd_thread thread (th_set_error RT_EOK) ;;;
      rt_thread_suspend thread ;;;
      tl_insert_after (QSuspend mp) thread ;;;
      upd_mp mp (λ o, mp_set_suspended (u32 (mp_suspend_thread_count o + 1)) o) ;;;
      let! before_sleep :=
        (if 0 <? time then
           let! now := rt_tick_get in
           start_thread_timer thread time ;;;
           ret now
         else ret before_sleep) in
      rt_hw_interrupt_enable level ;;;
      rt_schedule ;;;
      ret (Blocked (mk_mp_blocked thread time before_sleep))
  else
    upd_mp mp (λ o, mp_set_free (u32 (mp_block_free_count o - 1)) o) ;;;
    let block_ptr := mp_block_list o in
    RT_ASSERT (negb (block_ptr =? 0)) ;;;
    let! next := load block_ptr in
    upd_mp mp (mp_set_list next) ;;;
    store block_ptr mp ;;;
    rt_hw_interrupt_enable level ;;;
    RT_OBJECT_HOOK_CALL rt_mp_alloc_hook (arg_block mp (block_ptr + SIZEOF_PTR)) ;;;
    ret (Returned (block_ptr + SIZEOF_PTR)).

Definition rt_mp_alloc (mp time : Z) : K (outcome Z mp_blocked) :=
  let! level := rt_hw_interrupt_disable in
  mp_alloc_loop mp time 0 level.

(** After the [rt_schedule()] of a blocked call. *)
Definition rt_mp_alloc_return (mp : Z) (c : mp_blocked) : K (outcome Z mp_blocked) :=
  let! th := get_thread (mpb_thread c) in
  if negb (th_error th =? RT_EOK) then ret (Returned 0)
  else
    let! time := remaining_timeout (mpb_time c) (mpb_before_sleep c) in
    let! level := rt_hw_interrupt_disable in
    mp_alloc_loop mp time (mpb_before_sleep c) level.

Definition rt_mp_free (block : Z) : K unit :=
  let block_ptr := block - SIZEOF_PTR in
  let! mp := load block_ptr in
  RT_OBJECT_HOOK_CALL rt_mp_free_hook (arg_block mp block) ;;;
  let! level := rt_hw_interrupt_disable in
  upd_mp mp (λ o, mp_set_free (u32 (mp_block_free_count o + 1)) o) ;;;
  let! o := get_mp mp in
  store block_ptr (mp_block_list o) ;;;
  upd_mp mp (mp_set_list block_ptr) ;;;
  if 0 <? mp_suspend_thread_count o then
    let! thread := tl_first (QSuspend mp) in
    upd_thread thread (th_set_error RT_EOK) ;;;
    rt_thread_resume thread ;;;
    upd_mp mp (λ o, mp_set_suspended (u32 (mp_suspend_thread_count o - 1)) o) ;;;
    rt_hw_interrupt_enable level ;;;
    rt_schedule
  else
    rt_hw_interrupt_enable level.

End ops.

(** ** The pool as lists of blocks *)

(** The places of the blocks, header included. *)
Definition pool_blocks (start stride : Z) (n : nat) : list Z :=
  (λ i, start + Z.of_nat i * stride) <$> seq 0 n.

(** The pool at [mp]: the blocks [free] in the order in which they will be taken,
    the blocks [used], and the threads [ws] that wait for one. *)
Record pool_is (s : kstate) (mp start block_size total : Z) (free used ws : list Z) : Prop := {
  po_obj : ∃ o, objs s !! mp = Some (KMempool o) ∧ mp_start_address o = start ∧
    mp_block_size o = block_size ∧ mp_block_total_count o = total ∧
    mp_block_free_count o = Z.of_nat (length free) ∧
    mp_suspend_thread_count o = Z.of_nat (length ws) ∧
    chain (mem_words s) (mp_block_list o) free;
  po_used : Forall (λ b, mem_words s !! b = Some mp) used;
  po_blocks : free ++ used ≡ₚ pool_blocks start (block_size + SIZEOF_PTR) (Z.to_nat total);
  po_size : 0 < start ∧ 0 ≤ block_size ∧ 0 ≤ total ∧
    start + total * (block_size + SIZEOF_PTR) ≤ 2 ^ 32;
  po_wait : tlists s !! QSuspend mp = Some ws
}.

(** The bytes of the block at [a] belong to the pool and not to the block at [b]. *)
Definition apart (stride a b : Z) : Prop := a + stride ≤ b ∨ b + stride ≤ a.

Section blocks.
Context (start stride : Z) (n : nat).

Lemma pool_blocks_spec a :
  a ∈ pool_blocks start stride n ↔ ∃ i, 0 ≤ i < Z.of_nat n ∧ a = start + i * stride.
Proof.
  unfold pool_blocks. rewrite list_elem_of_fmap. split.
  - intros (i & -> & Hi%elem_of_seq). exists (Z.of_nat i). lia.
  - intros (i & Hi & ->). exists (Z.to_nat i). rewrite elem_of_seq, Z2Nat.id by lia. lia.
Qed.

Lemma pool_blocks_nodup : 0 < stride → NoDup (pool_blocks start stride n).
Proof.
  intros Hs. unfold pool_blocks. apply NoDup_fmap_2; [|apply NoDup_seq].
  intros i j Hij. nia.
Qed.

Lemma pool_blocks_range a : 0 < stride → a ∈ pool_blocks start stride n →
  start ≤ a ∧ a + stride ≤ start + Z.of_nat n * stride.
Proof. rewrite pool_blocks_spec. intros Hs (i & Hi & ->). nia. Qed.

Lemma pool_blocks_apart a b : 0 < stride →
  a ∈ pool_blocks start stride n → b ∈ pool_blocks start stride n → a ≠ b → apart stride a b.
Proof.
  rewrite !pool_blocks_spec. intros Hs (i & Hi & ->) (j & Hj & ->) Hne. unfold apart.
  destruct (Z.lt_trichotomy i j) as [?|[->|?]]; [left; nia|done|right; nia].
Qed.
End blocks.

Section runs.
Context {cfg : RTConfig} (idle : Z).

Lemma get_mp_run s mp o : objs s !! mp = Some (KMempool o) → get_mp mp s = Ok o s.
Proof. intros Ho. unfold get_mp. krun. by rewrite Ho. Qed.

Lemma upd_mp_run s mp o f : objs s !! mp = Some (KMempool o) →
  upd_mp mp f s = Ok tt (set_objs (<[mp := KMempool (f o)]> (objs s)) s).
Proof. intros Ho. unfold upd_mp, put_mp. by rewrite (bind_ok _ _ _ _ _ (get_mp_run s mp o Ho)). Qed.

Lemma pool_nodup s mp start bs total free used ws :
  pool_is s mp start bs total free used ws → NoDup (free ++ used).
Proof.
  intros [_ _ Hp (? & ? & _) _]. rewrite Hp. apply pool_blocks_nodup. unfold SIZEOF_PTR. lia.
Qed.

(** A new block lies in the pool and apart from those in use. *)
Lemma pool_safe s mp start bs total b free used ws :
  pool_is s mp start bs total (b :: free) used ws →
  let stride := bs + SIZEOF_PTR in
  start ≤ b ∧ b + stride ≤ start + total * stride ∧ Forall (apart stride b) used.
Proof.
  intros Hp stride. pose proof (pool_nodup _ _ _ _ _ _ _ _ Hp) as Hn.
  destruct Hp as [_ _ Hp (? & ? & ? & _) _].
  assert (0 < stride) by (unfold stride, SIZEOF_PTR; lia).
  assert (∀ a, a ∈ (b :: free) ++ used → a ∈ pool_blocks start stride (Z.to_nat total)) as Hin.
  { intros a. by rewrite Hp. }
  destruct (pool_blocks_range start stride (Z.to_nat total) b) as [? Hr]; [done|apply Hin; left|].
  rewrite Z2Nat.id in Hr by done. split_and!; [done..|]. apply Forall_forall. intros a Ha.
  eapply pool_blocks_apart; [done|apply Hin; left|apply Hin; set_solver|].
  intros ->. inversion_clear Hn. set_solver.
Qed.

(** The first free block is taken. *)
Definition taken (mp next : Z) (o : rt_mempool) (b : Z) (tr : list kevent) (s : kstate) : kstate :=
  set_trace tr (set_mem_words (<[b := mp]> (mem_words s))
    (set_objs (<[mp := KMempool (mp_set_list next
      (mp_set_free (u32 (mp_block_free_count o - 1)) o))]> (objs s)) s)).

Lemma mp_take_run s mp start bs total b free used ws time d :
  pool_is s mp start bs total (b :: free) used ws →
  ∃ o next tr, let s' := taken mp next o b tr s in
    (∀ p, mp_alloc_loop mp time d p (set_primask 1 s) =
      Ok (Returned (b + SIZEOF_PTR)) (set_primask p s')) ∧
    pool_is s' mp start bs total free (b :: used) ws.
Proof.
  intros Hp. pose proof (pool_nodup _ _ _ _ _ _ _ _ Hp) as Hn.
  pose proof (Permutation_length (po_blocks _ _ _ _ _ _ _ _ Hp)) as Hlen.
  unfold pool_blocks in Hlen. rewrite length_fmap, length_seq, length_app in Hlen. cbn in Hlen.
  destruct Hp as [(o & Ho & <- & <- & <- & Hf & Hc & Hch) Hu Hpe Hsz Hw].
  destruct Hch as (Hb & Hb0 & next & Hnext & Hch). cbn [length] in Hf.
  exists o, next, (trace s ++ hook_events rt_mp_alloc_hook (arg_block mp (b + SIZEOF_PTR)) s). split.
  - intros p. unfold mp_alloc_loop, upd_mp, put_mp.
    rewrite (bind_ok _ _ _ _ _ (get_mp_run (set_primask 1 s) mp o Ho)).
    replace (mp_block_free_count o =? 0) with false by lia. krun.
    rewrite (get_mp_run _ mp o) by done. krun. rewrite Hb.
    unfold RT_ASSERT. replace (b =? 0) with false by lia. cbn [negb]. rewrite andb_false_r. krun.
    rewrite Hnext. krun.
    rewrite (get_mp_run _ mp (mp_set_free (u32 (mp_block_free_count o - 1)) o))
      by apply lookup_insert_eq.
    krun. rewrite insert_insert_eq. reflexivity.
  - rewrite <- app_comm_cons in Hn. apply NoDup_cons in Hn as [[Hnf Hnu]%not_elem_of_app _].
    split; cbn [taken objs mem_words tlists set_trace set_mem_words set_objs]; [..|done|done].
    + eexists. split; [apply lookup_insert_eq|]. cbn. split_and!; try done.
      * assert (mp_block_total_count o < 2 ^ 32) by (unfold SIZEOF_PTR in *; nia).
        rewrite u32_small by lia. lia.
      * by apply chain_update.
    + constructor; [apply lookup_insert_eq|]. apply Forall_forall. intros a Ha.
      rewrite lookup_insert_ne by (by intros ->). rewrite Forall_forall in Hu. by apply Hu.
    + rewrite <- Hpe. cbn. by rewrite Permutation_middle.
Qed.

(** The caller waits in front of the list, and is counted. *)
Definition mp_count (d : Z) (mp : Z) (o : rt_mempool) (s : kstate) : kstate :=
  set_objs (<[mp := KMempool (mp_set_suspended (u32 (mp_suspend_thread_count o + d)) o)]> (objs s)) s.

Lemma mp_block_run s t th mp o ws time d :
  kok idle s → caller idle s t th → objs s !! mp = Some (KMempool o) →
  mp_block_free_count o = 0 → tlists s !! QSuspend mp = Some ws → time ≠ 0 → time < half →
  ∃ r s', mp_alloc_loop mp time d (primask s) (set_primask 1 s) = Ok (Blocked r) s' ∧
    mpb_thread r = t ∧ mpb_time r = time ∧
    waits idle (QSuspend mp) t time (t :: ws) (th_set_error RT_EOK th) (mp_count 1 mp o s) s'.
Proof.
  intros Hk [Hc Ht Hr Hi Hn] Ho Hf Hl Hz Hti.
  destruct (k_started idle ∅ _ _ s t th Hk Ht) as (_ & _ & (tm & Htm & _) & _);
    [set_solver|by left|].
  set (th1 := th_set_error RT_EOK th).
  set (s0 := set_threads (<[t := th1]> (threads s)) (set_primask 1 s)).
  set (s1 := mp_count 1 mp o s0).
  assert (kok idle s0) as Hk0 by (eapply ki_update; [exact Hk|done..]).
  assert (kok idle s1) as Hk1 by exact Hk0.
  assert (threads s1 !! t = Some th1) as Ht1 by apply lookup_insert_eq.
  destruct (other_queue idle _ _ s t th (QSuspend mp) ws Hk Ht Hr I Hl) as [Hl1 _].
  destruct (queue_time_run idle s1 t th1 tm (QSuspend mp) time ws (t :: ws)) as [E2 _]; [done..|].
  destruct (wait_done idle s1 t th1 tm (QSuspend mp) time ws (t :: ws) (primask s)) as [E3 Hw];
    [done..|].
  exists (mk_mp_blocked t time (if 0 <? time then rt_tick s else d)). eexists.
  split; [|split_and!; [done..|]].
  - unfold mp_alloc_loop. rewrite (bind_ok _ _ _ _ _ (get_mp_run (set_primask 1 s) mp o Ho)).
    rewrite Hf. replace (time =? 0) with false by lia. cbn [Z.eqb].
    rewrite (bind_ok _ _ _ _ _ (not_in_interrupt_run (set_primask 1 s) Hn)).
    unfold upd_thread. krun. rewrite Hc. krun. rewrite Ht. krun.
    match goal with |- context [rt_thread_suspend t ?x] => change x with s0 end.
    rewrite (suspend_run idle ∅ (rt_tick s) (half - 1) s0 t th1 tm Hk0 Ht1
      ltac:(set_solver) Hr Htm).
    unfold tl_insert_after, check_unlinked, tl_get, tl_put. krun.
    change (tlists (suspend_state t th1 tm s0)) with (tl_remove t (tlists s)).
    rewrite decide_True by apply unlinked_remove. krun.
    change (tlists (suspend_state t th1 tm s0)) with (tl_remove t (tlists s)). rewrite Hl1. krun.
    rewrite (upd_mp_run _ mp o) by done.
    match goal with |- context [set_objs ?a ?b] =>
      change (set_objs a b) with (queue_state (QSuspend mp) (t :: ws) t th1 tm s1) end.
    destruct (0 <? time).
    + unfold rt_tick_get. krun. krun. rewrite E2. krun. rewrite E3. reflexivity.
    + injection E2 as E2. krun. rewrite E2. krun. rewrite E3. reflexivity.
  - pose proof (w_others _ _ _ _ _ _ _ _ Hw) as Hoth. destruct Hw. split; try done.
    intros u Hu. rewrite Hoth by done. cbn. by rewrite lookup_insert_ne.
Qed.

(** A block in use becomes the first free one. *)
Definition given_back (mp : Z) (o : rt_mempool) (b : Z) (tr : list kevent) (s : kstate) : kstate :=
  set_mem_words (<[b := mp_block_list o]> (mem_words s))
    (set_objs (<[mp := KMempool (mp_set_list b (mp_set_free (u32 (mp_block_free_count o + 1)) o))]>
      (objs s)) (set_trace tr s)).

Lemma given_back_is s mp o start bs total b free used used' ws tr :
  objs s !! mp = Some (KMempool o) → pool_is s mp start bs total free used ws →
  used ≡ₚ b :: used' →
  pool_is (given_back mp o b tr s) mp start bs total (b :: free) used' ws.
Proof.
  intros Ho Hp Hu'. pose proof (pool_nodup _ _ _ _ _ _ _ _ Hp) as Hn.
  pose proof (Permutation_length (po_blocks _ _ _ _ _ _ _ _ Hp)) as Hlen.
  unfold pool_blocks in Hlen. rewrite length_fmap, length_seq, length_app in Hlen.
  destruct Hp as [(? & ? & <- & <- & <- & Hf & Hc & Hch) Hu Hpe Hsz Hw]. simplify_eq.
  rewrite Hu' in Hu, Hpe, Hn, Hlen. apply Forall_cons in Hu as [_ Hu].
  rewrite <- Permutation_middle in Hn. apply NoDup_cons in Hn as [[Hnf Hnu]%not_elem_of_app _].
  assert (b ∈ free ++ b :: used') as Hin by set_solver.
  rewrite Hpe, pool_blocks_spec in Hin. destruct Hin as (i & Hi & Hb).
  assert (mp_block_total_count o < 2 ^ 32) by (unfold SIZEOF_PTR in *; nia).
  split; cbn [given_back objs mem_words tlists set_mem_words set_objs set_trace]; [..|done|done].
  - eexists. split; [apply lookup_insert_eq|]. cbn in Hlen |- *. split_and!; try done.
    + rewrite u32_small by lia. lia.
    + unfold SIZEOF_PTR in *. nia.
    + eexists. rewrite lookup_insert_eq. split; [done|]. by apply chain_update.
  - apply Forall_forall. intros a Ha. rewrite lookup_insert_ne by (by intros ->).
    rewrite Forall_forall in Hu. by apply Hu.
  - rewrite <- Hpe. cbn. by rewrite Permutation_middle.
Qed.

(** The first waiting thread is woken. *)
Definition mp_wake (mp : Z) (level : Z) : K unit :=
  let! thread := tl_first (QSuspend mp) in
  upd_thread thread (th_set_error RT_EOK) ;;;
  rt_thread_resume thread ;;;
  upd_mp mp (λ o, mp_set_suspended (u32 (mp_suspend_thread_count o - 1)) o) ;;;
  rt_hw_interrupt_enable level ;;;
  rt_schedule.

Lemma mp_wake_run s mp o u ws p :
  kok idle s → objs s !! mp = Some (KMempool o) → tlists s !! QSuspend mp = Some (u :: ws) →
  ∃ th s', mp_wake mp p s = Ok tt s' ∧ threads s !! u = Some th ∧
    wakes idle (QSuspend mp) u ws (th_set_error RT_EOK th)
      (set_primask p (set_threads (<[u := th_set_error RT_EOK th]> (threads s)) (mp_count (-1) mp o s)))
      s' ∧ highest_runs s'.
Proof.
  intros Hk Ho Hl.
  destruct (sw_stat _ _ _ _ (ki_sched _ _ _ _ _ _ _ _ _ Hk) (QSuspend mp) u) as (_ & th & Ht & _);
    [exists (u :: ws); split; [done|left]|].
  set (th1 := th_set_error RT_EOK th).
  set (s1 := set_threads (<[u := th1]> (threads s)) s).
  assert (kok idle s1) as Hk1 by (by eapply ki_update).
  destruct (resume_member_run idle s1 (QSuspend mp) u (u :: ws) Hk1 I Hl) as (th' & s2 & E & Hw & _);
    [left|].
  assert (th' = th1) as ->.
  { destruct (k_was _ _ _ _ _ _ _ Hw) as [Ht' _]. unfold s1 in Ht'. cbn in Ht'.
    rewrite lookup_insert_eq in Ht'. by simplify_eq. }
  pose proof (sw_nodup _ _ _ _ (ki_sched _ _ _ _ _ _ _ _ _ Hk) _ _ Hl) as [Hnd _]%NoDup_cons.
  rewrite filter_cons_False, list_filter_all_id in Hw by (naive_solver || tauto).
  set (o' := mp_set_suspended (u32 (mp_suspend_thread_count o - 1)) o).
  set (s3 := set_objs (<[mp := KMempool o']> (objs s2)) s2).
  assert (wakes idle (QSuspend mp) u ws th1 (mp_count (-1) mp o s1) s3) as Hw3.
  { pose proof (k_objs _ _ _ _ _ _ _ Hw) as Eo. destruct Hw. split; try done. cbn. by rewrite Eo. }
  destruct (wakes_schedule idle _ _ _ _ _ s3 p Hw3) as (E4 & Hw4 & Hh).
  exists th. eexists. split; [|split_and!; [done|exact Hw4|exact Hh]].
  unfold mp_wake, tl_first, tl_get, upd_thread. krun. rewrite Hl. krun. rewrite Ht. krun.
  match goal with |- context [rt_thread_resume u ?x] => change x with s1 end.
  rewrite E. krun. rewrite (upd_mp_run _ mp o) by (by rewrite (k_objs _ _ _ _ _ _ _ Hw)). krun.
  exact E4.
Qed.

Lemma mp_free_eq s mp o b :
  objs s !! mp = Some (KMempool o) → mem_words s !! b = Some mp →
  ∃ tr, rt_mp_free (b + SIZEOF_PTR) s =
    (if 0 <? mp_suspend_thread_count o then mp_wake mp (primask s)
     else rt_hw_interrupt_enable (primask s)) (set_primask 1 (given_back mp o b tr s)).
Proof.
  intros Ho Hb. eexists. unfold rt_mp_free, upd_mp, put_mp.
  replace (b + SIZEOF_PTR - SIZEOF_PTR) with b by lia. krun. rewrite Hb. krun.
  rewrite (get_mp_run _ mp o) by done. krun.
  rewrite (get_mp_run _ mp (mp_set_free (u32 (mp_block_free_count o + 1)) o))
    by apply lookup_insert_eq. krun.
  rewrite (get_mp_run _ mp (mp_set_free (u32 (mp_block_free_count o + 1)) o))
    by apply lookup_insert_eq. krun.
  rewrite insert_insert_eq. cbn [mp_set_free mp_set_counts mp_suspend_thread_count].
  reflexivity.
Qed.
End runs.

(** ** Initialisation *)
Section init.
Context {cfg : RTConfig} (idle : Z).

(** The links the loop writes, and nothing else. *)
Lemma mp_link_run p stride n : ∀ off s, 0 < stride → 0 ≤ off → 0 < p →
  p + (off + Z.of_nat n) * stride ≤ 2 ^ 32 →
  ∃ w, mp_link p stride off n s = Ok tt (set_mem_words w s) ∧
    (∀ i, off ≤ i < off + Z.of_nat n → w !! (p + i * stride) = Some (u32 (p + (i + 1) * stride))) ∧
    (∀ a, a < p + off * stride → w !! a = mem_words s !! a).
Proof.
  induction n as [|n IH]; intros off s Hs Ho Hp Hb; cbn [mp_link].
  { exists (mem_words s). split_and!; [done|lia|done]. }
  unfold store. rewrite bind_modify, (u32_small (p + off * stride)) by nia.
  destruct (IH (off + 1) (set_mem_words (<[p + off * stride := u32 (p + (off + 1) * stride)]>
    (mem_words s)) s)) as (w & E & Hw & Hlow); [lia..|].
  exists w. split_and!; [exact E| |].
  - intros i Hi. destruct (decide (i = off)) as [->|]; [|apply Hw; lia].
    rewrite Hlow by nia. cbn. by rewrite lookup_insert_eq.
  - intros a Ha. rewrite Hlow by nia. cbn. by rewrite lookup_insert_ne by lia.
Qed.

(** Blocks linked in a row, the last one to nothing. *)
Lemma pool_chain w p stride n : 0 < p → 0 < stride →
  (∀ i, 0 ≤ i < Z.of_nat n - 1 → w !! (p + i * stride) = Some (p + (i + 1) * stride)) →
  w !! (p + (Z.of_nat n - 1) * stride) = Some 0 → (0 < n)%nat →
  chain w p (pool_blocks p stride n).
Proof.
  intros Hp Hs Hw Hl Hn.
  assert (∀ k m, (0 < m)%nat → (k + m = n)%nat →
    chain w (p + Z.of_nat k * stride) ((λ i, p + Z.of_nat i * stride) <$> seq k m)) as Hc.
  { intros k m. revert k. induction m as [|m IH]; intros k Hm Hk; [lia|]. cbn. split_and!; [done|nia|].
    destruct m as [|m].
    - exists 0. replace (Z.of_nat k) with (Z.of_nat n - 1) by lia. done.
    - eexists. rewrite Hw by lia. split; [done|].
      replace (Z.of_nat k + 1) with (Z.of_nat (S k)) by lia. apply IH; lia. }
  specialize (Hc 0%nat n Hn ltac:(lia)). by rewrite Z.mul_0_l, Z.add_0_r in Hc.
Qed.

Lemma mp_init_list_run s mp o bs :
  objs s !! mp = Some (KMempool o) → 0 < mp_start_address o → 0 ≤ bs →
  0 < mp_block_total_count o →
  mp_start_address o + mp_block_total_count o * (bs + SIZEOF_PTR) ≤ 2 ^ 32 →
  ∃ w, mp_init_list mp bs s =
      Ok tt (set_objs (<[mp := KMempool (mp_set_list (mp_start_address o) o)]> (objs s))
        (set_mem_words w s)) ∧
    chain w (mp_start_address o)
      (pool_blocks (mp_start_address o) (bs + SIZEOF_PTR) (Z.to_nat (mp_block_total_count o))).
Proof.
  intros Ho Hp Hb Ht He. set (p := mp_start_address o) in *. set (stride := bs + SIZEOF_PTR) in *.
  assert (0 < stride) as Hs by (unfold stride, SIZEOF_PTR; lia).
  destruct (mp_link_run p stride (Z.to_nat (mp_block_total_count o)) 0 s) as (w & E & Hw & _);
    [lia..|nia|].
  set (last := p + (mp_block_total_count o - 1) * stride).
  exists (<[last := 0]> w). split.
  - unfold mp_init_list. rewrite (bind_ok _ _ _ _ _ (get_mp_run s mp o Ho)). fold p. fold stride.
    rewrite (bind_ok _ _ _ _ _ E). unfold store. rewrite bind_modify.
    fold last. rewrite (u32_small last) by (unfold last; nia).
    by rewrite (upd_mp_run _ mp o).
  - apply pool_chain; [done..| | |lia]; rewrite Z2Nat.id by lia.
    + intros i Hi. rewrite lookup_insert_ne by (unfold last; nia).
      rewrite Hw by lia. rewrite u32_small by nia. done.
    + apply lookup_insert_eq.
Qed.
End init.

(** ** What the operations promise *)
Section theorems.
Context {cfg : RTConfig}.

(** [rt_mp_init] on memory of [size] bytes at [start] makes a pool of
    [total] free blocks, each with room for [block_size] bytes rounded up to 8,
    in the order of their addresses. *)
Theorem mp_init_correct (idle : Z) (s : kstate) (mp start size block_size : Z) (name n : list Z)
    (raw : rt_mempool) (cl : list oid) :
  kok idle s → objs s !! mp = Some (KMempool raw) → new_queue (QSuspend mp) (tlists s) →
  Str.rt_strncpy name (Z.to_nat RT_NAME_MAX) = Some n →
  map_Forall (λ _ l, OIpc mp ∉ l) (rt_object_container s) →
  rt_object_container s !! RT_Object_Class_MemPool = Some cl →
  0 < start → 0 ≤ size → start + size ≤ 2 ^ 32 → 0 ≤ block_size ≤ 2 ^ 32 - 16 →
  let bs := RT_ALIGN block_size RT_ALIGN_SIZE in
  let total := 8 * (size / 8) / (bs + SIZEOF_PTR) in
  0 < total →
  ∃ s', rt_mp_init mp name start size block_size s = Ok RT_EOK s' ∧ kok idle s' ∧
    primask s' = primask s ∧ block_size ≤ bs ∧ bs mod 8 = 0 ∧
    pool_is s' mp start bs total (pool_blocks start (bs + SIZEOF_PTR) (Z.to_nat total)) [] [].
Proof.
  intros Hk Ho Hq Hn Hd Hc Hst Hsz Hend Hbs bs total Ht.
  destruct (align_ge block_size) as [Hge Hlt]; [lia|]. fold bs in Hge, Hlt.
  change (RT_ALIGN block_size 8) with bs in Hge, Hlt.
  set (s1 := object_init_state (OIpc mp) RT_Object_Class_MemPool n (obj_flag (mp_parent raw)) cl s).
  set (o1 := mk_mempool (mk_object n (Z.lor RT_Object_Class_MemPool RT_Object_Class_Static)
    (obj_flag (mp_parent raw))) (mp_start_address raw) (mp_size raw) (mp_block_size raw)
    (mp_block_list raw) (mp_block_total_count raw) (mp_block_free_count raw)
    (mp_suspend_thread_count raw)).
  assert (objs s1 !! mp = Some (KMempool o1)) as Ho1.
  { unfold s1, object_init_state. cbn. by rewrite lookup_alter_eq, Ho. }
  set (o2 := mp_set_counts total total 0 (mp_set_pool start (8 * (size / 8)) bs o1)).
  set (s2 := set_tlists (<[QSuspend mp := []]> (tlists s))
    (set_objs (<[mp := KMempool o2]> (objs s1)) s1)).
  assert (total * (bs + SIZEOF_PTR) ≤ size) as Hfit.
  { unfold total, SIZEOF_PTR. pose proof (Z.mul_div_le (8 * (size / 8)) (bs + 4)). 
    pose proof (Z.mul_div_le size 8). nia. }
  destruct (mp_init_list_run s2 mp o2 bs) as (w & E & Hch);
    [apply lookup_insert_eq|exact Hst|lia|exact Ht|cbn; lia|].
  eexists. split; [|split_and!].
  - unfold rt_mp_init.
    rewrite (bind_ok _ _ _ _ _ (object_init_run (OIpc mp) RT_Object_Class_MemPool name n
      (mp_parent raw) cl s ltac:(cbn; by rewrite Ho) Hn Hd Hc)). fold s1.
    change RT_ALIGN_SIZE with 8. rewrite align_down_8 by lia.
    change (RT_ALIGN block_size 8) with bs. rewrite (u32_small (bs + SIZEOF_PTR))
      by (unfold SIZEOF_PTR; lia).
    rewrite (bind_ok _ _ _ _ _ (upd_mp_run s1 mp o1 _ Ho1)).
    erewrite bind_ok by (apply upd_mp_run, lookup_insert_eq).
    ksg. rewrite insert_insert_eq. unfold tl_init, tl_put. rewrite bind_modify.
    match goal with |- context [bind (mp_init_list mp bs) _ ?x] => change x with s2 end.
    rewrite (bind_ok _ _ _ _ _ E). reflexivity.
  - by apply ki_new_queue.
  - done.
  - done.
  - apply align_mod.
  - split; cbn; [..|apply lookup_insert_eq]; [|done| |by split_and!; lia].
    + eexists. split; [apply lookup_insert_eq|]. split_and!; try done.
      unfold pool_blocks. rewrite length_fmap, length_seq. cbn. lia.
    + by rewrite app_nil_r.
Qed.

(** [rt_mp_alloc] takes the first free block, which lies in the pool and apart
    from all blocks in use; on an empty pool it returns null with the error
    [-RT_ETIMEOUT] when it is not to wait, and otherwise the thread waits in
    front of the others. *)
Theorem mp_alloc_correct (idle : Z) (s : kstate) (t mp start bs total time : Z) (th : rt_thread)
    (free used ws : list Z) :
  kok idle s → caller idle s t th → pool_is s mp start bs total free used ws → time < half →
  Z.of_nat (length ws) < 2 ^ 32 - 1 →
  ∃ r s', rt_mp_alloc mp time s = Ok r s' ∧ kok idle s' ∧ primask s' = primask s ∧
    match free with
    | b :: free => r = Returned (b + SIZEOF_PTR) ∧ pool_is s' mp start bs total free (b :: used) ws ∧
      start ≤ b ∧ b + (bs + SIZEOF_PTR) ≤ start + total * (bs + SIZEOF_PTR) ∧
      Forall (apart (bs + SIZEOF_PTR) b) used
    | [] =>
      if time =? 0 then r = Returned 0 ∧ pool_is s' mp start bs total [] used ws ∧
        threads s' = <[t := th_set_error (- RT_ETIMEOUT) th]> (threads s)
      else
        pool_is s' mp start bs total [] used (t :: ws) ∧
        (∃ c, r = Blocked c ∧ mpb_thread c = t ∧ mpb_time c = time) ∧
        waits idle (QSuspend mp) t time (t :: ws) (th_set_error RT_EOK th)
          (set_objs (objs s') s) s'
    end.
Proof.
  intros Hk Hc Hp Hti Hlen. unfold rt_mp_alloc, rt_hw_interrupt_disable at 1. unfold bind at 1.
  destruct free as [|b free].
  - pose proof Hp as [(o & Ho & Es & Eb & Et & Ef & Ew & Ech) Hu Hpe Hsz Hw].
    destruct (Z.eqb_spec time 0) as [->|Hz].
    + unfold mp_alloc_loop. rewrite (bind_ok _ _ _ _ _ (get_mp_run (set_primask 1 s) mp o Ho)).
      rewrite Ef. change (Z.of_nat (length []) =? 0) with true. change (0 =? 0) with true.
      cbv iota. do 2 eexists. split.
      { unfold rt_set_errno, rt_interrupt_get_nest, upd_thread. krun. krun.
        rewrite (cl_context _ _ _ _ Hc). change (0 =? 0) with true. krun. krun.
        rewrite (cl_self _ _ _ _ Hc). krun. rewrite (cl_thread _ _ _ _ Hc). reflexivity. }
      split_and!; [|done|done| |done].
      { eapply ki_update; [exact Hk|apply Hc|done..]. }
      split; try done. by exists o.
    + destruct (mp_block_run idle s t th mp o ws time 0) as (c & s' & E & Et' & Eti & Hws); [done..|].
      exists (Blocked c), s'. split; [exact E|].
      split; [apply Hws|]. split; [apply Hws|].
      pose proof (w_objs _ _ _ _ _ _ _ _ Hws) as Eo. pose proof (w_words _ _ _ _ _ _ _ _ Hws) as Ewd.
      split_and!; [|by eexists|].
      * split; try done; [| |apply Hws].
        { eexists. rewrite Eo. split; [apply lookup_insert_eq|]. split_and!; try done.
          cbn. rewrite Ew, u32_small by lia. lia. }
        by rewrite Ewd.
      * destruct Hws. by split.
  - destruct (mp_take_run s mp start bs total b free used ws time 0 Hp) as (o & next & tr & E & Hp').
    destruct (pool_safe _ _ _ _ _ _ _ _ _ Hp) as (? & ? & ?).
    do 2 eexists. split; [apply E|]. split_and!; try done.
Qed.

(** [rt_mp_free] gives a block in use back: it becomes the first free block,
    and the first waiting thread, if any, becomes ready without an error. *)
Theorem mp_free_correct (idle : Z) (s : kstate) (mp start bs total b : Z)
    (free used used' ws : list Z) :
  kok idle s → pool_is s mp start bs total free used ws → used ≡ₚ b :: used' →
  Z.of_nat (length ws) < 2 ^ 32 →
  ∃ s', rt_mp_free (b + SIZEOF_PTR) s = Ok tt s' ∧ kok idle s' ∧ primask s' = primask s ∧
    pool_is s' mp start bs total (b :: free) used' (tail ws) ∧
    (∀ v, head ws ≠ Some v → threads s' !! v = threads s !! v) ∧
    (∀ u, head ws = Some u → highest_runs s' ∧ ∃ th, threads s !! u = Some th ∧
      threads s' !! u = Some (th_set_stat RT_THREAD_READY (th_set_error RT_EOK th)) ∧
      ¬ running (ThreadTimer u) (rt_timer_list s')).
Proof.
  intros Hk Hp Hu Hlen. pose proof Hp as [(o & Ho & _ & _ & _ & _ & Ew & _) Hus _ _ _].
  assert (mem_words s !! b = Some mp) as Hb.
  { rewrite Hu in Hus. by inversion Hus. }
  destruct (mp_free_eq s mp o b Ho Hb) as [tr ->].
  pose proof (given_back_is s mp o start bs total b free used used' ws tr Ho Hp Hu) as Hp1.
  set (s1 := set_primask 1 (given_back mp o b tr s)).
  assert (pool_is s1 mp start bs total (b :: free) used' ws) as Hp2 by (destruct Hp1; by split).
  destruct ws as [|u ws].
  - rewrite Ew. cbn. eexists. split; [done|]. split_and!; try done.
  - rewrite Ew. change (0 <? Z.of_nat (length (u :: ws))) with true.
    destruct Hp2 as [(o2 & Ho2 & E1 & E2 & E3 & E4 & E5 & E6) Hus2 Hpe2 Hsz2 Hw2].
    destruct (mp_wake_run idle s1 mp o2 u ws (primask s)) as (th & s' & E & Ht & Hwk & Hh); [done..|].
    pose proof (k_objs _ _ _ _ _ _ _ Hwk) as Eo. pose proof (k_words _ _ _ _ _ _ _ Hwk) as Ewd.
    exists s'. split; [exact E|]. split; [apply Hwk|]. split; [apply Hwk|]. split_and!.
    + split; try done; [| |apply Hwk].
      * eexists. rewrite Eo, Ewd. split; [apply lookup_insert_eq|]. split_and!; try done.
        cbn. rewrite E5. cbn [length] in *. rewrite u32_small by lia. lia.
      * by rewrite Ewd.
    + intros v Hv. rewrite (k_others _ _ _ _ _ _ _ Hwk) by (intros ->; by apply Hv).
      cbn. rewrite lookup_insert_ne; [done|]. intros ->. by apply Hv.
    + intros v [= <-]. split; [done|]. exists th. split; [exact Ht|].
      split; apply Hwk.
Qed.
End theorems.

(** ** Examples

    A pool of three blocks of 8 bytes at 0x2000, in the object at 100. *)
Definition demo_mp (first free suspended : Z) : kobj :=
  KMempool (mk_mempool (mk_object (replicate 8 0) 137 0) 0x2000 40 8 first 3 free suspended).
Definition demo_pool (first free suspended : Z) (words : list (Z * Z)) : kstate :=
  set_mem_words (list_to_map words) (demo [] [(100, demo_mp first free suspended); (300, demo_mp 0 0 0)]).

Lemma demo_pool_ok first free suspended words : kok 1 (demo_pool first free suspended words).
Proof. apply kinv_check_spec. vm_compute. reflexivity. Qed.

Lemma mp_init_correct_witness :
  ∃ s', rt_mp_init 300 [112; 0; 0; 0; 0; 0; 0; 0] 0x4000 41 5 (demo_pool 0 0 0 []) = Ok RT_EOK s' ∧
    pool_is s' 300 0x4000 8 3 [0x4000; 0x400c; 0x4018] [] [].
Proof.
  destruct (mp_init_correct 1 (demo_pool 0 0 0 []) 300 0x4000 41 5 [112; 0; 0; 0; 0; 0; 0; 0]
    [112; 0; 0; 0; 0; 0; 0; 0] (mk_mempool (mk_object (replicate 8 0) 137 0) 0x2000 40 8 0 3 0 0) [])
    as (s' & E & _ & _ & _ & _ & Hp).
  - apply demo_pool_ok.
  - reflexivity.
  - split; [exact I|]. left. reflexivity.
  - reflexivity.
  - apply (bool_decide_eq_true (map_Forall (λ _ l, OIpc 300 ∉ l) _)). vm_compute. reflexivity.
  - reflexivity.
  - lia.
  - lia.
  - lia.
  - lia.
  - vm_compute. reflexivity.
  - exists s'. split; [exact E|exact Hp].
Defined.

Lemma mp_alloc_correct_witness :
  ∃ s', rt_mp_alloc (cfg := gd32_config) 100 0
      (demo_pool 0x2000 2 2 [(0x2000, 0x200c); (0x200c, 0); (0x2018, 100)]) =
      Ok (Returned 0x2004) s' ∧
    pool_is s' 100 0x2000 8 3 [0x200c] [0x2000; 0x2018] [3; 5].
Proof.
  destruct (mp_alloc_correct (cfg := gd32_config) 1
    (demo_pool 0x2000 2 2 [(0x2000, 0x200c); (0x200c, 0); (0x2018, 100)]) 2 100 0x2000 8 3 0
    (demo_thread 2 RT_THREAD_READY 10) [0x2000; 0x200c] [0x2018] [3; 5])
    as (r & s' & E & _ & _ & -> & Hp & _).
  - apply demo_pool_ok.
  - by split.
  - split; [| |reflexivity|unfold SIZEOF_PTR; lia|reflexivity].
    + eexists. split; [reflexivity|]. split_and!; try reflexivity.
      cbn. split_and!; try lia. eexists. split; [reflexivity|]. split_and!; try lia.
      eexists. by split.
    + constructor; [reflexivity|constructor].
  - reflexivity.
  - reflexivity.
  - exists s'. split; [exact E|exact Hp].
Defined.

Lemma mp_free_correct_witness :
  ∃ s', rt_mp_free 0x2010
      (demo_pool 0 0 2 [(0x2000, 100); (0x200c, 100); (0x2018, 100)]) = Ok tt s' ∧
    pool_is s' 100 0x2000 8 3 [0x200c] [0x2000; 0x2018] [5].
Proof.
  destruct (mp_free_correct (cfg := gd32_config) 1
    (demo_pool 0 0 2 [(0x2000, 100); (0x200c, 100); (0x2018, 100)]) 100 0x2000 8 3 0x200c
    [] [0x2000; 0x200c; 0x2018] [0x2000; 0x2018] [3; 5]) as (s' & E & _ & _ & Hp & _).
  - apply demo_pool_ok.
  - split; [| |reflexivity|unfold SIZEOF_PTR; lia|reflexivity].
    + eexists. split; [reflexivity|]. split_and!; reflexivity.
    + repeat (constructor; [reflexivity|]). constructor.
  - apply perm_swap.
  - reflexivity.
  - exists s'. split; [exact E|exact Hp].
Defined.

(** A thread whose wait times out stays counted in [suspend_thread_count]: the next
    [rt_mp_free] takes the first thread of an empty list. *)
Definition lonely_pool : kstate :=
  set_mem_words (list_to_map [(0x2000, 100); (0x200c, 100); (0x2018, 100)])
    (demo [(QSuspend 100, [])] [(100, demo_mp 0 0 0)]).

Definition timed_out_alloc {cfg : RTConfig} : K (outcome Z mp_blocked) :=
  let! r := rt_mp_alloc 100 1 in
  rt_tick_increase ;;;
  match r with
  | Blocked c => rt_mp_alloc_return 100 c
  | Returned a => ret (Returned a)
  end.

Example mp_timeout_stays_counted : let cfg := gd32_config in
  match timed_out_alloc lonely_pool with Ok r s => r = Returned 0 | Fault _ => False end ∧
  (timed_out_alloc ;;; rt_mp_free 0x2004) lonely_pool = Fault BadList.
Proof. vm_compute. by split. Qed.
