(* ===== verification/DataQueue.v ===== *)
(** * Data queues ([components/finsh/dataqueue.c])

    A ring of (pointer, size) pairs between producers and consumers, with
    free-running 16-bit indices, and its refinement of a bounded queue as
    long as the indices do not wrap around. *)

From S2P Require Import Prelude RtDef SortedList Mem KService Kernel Cpuport Scheduler.
From S2P Require Import Object Timer Invariant Thread Clock Ipc Demo.

Definition RT_DATAQUEUE_EVENT_POP : Z := 0x01.
Definition RT_DATAQUEUE_EVENT_PUSH : Z := 0x02.
Definition RT_DATAQUEUE_EVENT_LWM : Z := 0x03.
Definition SIZEOF_DATA_ITEM : Z := 8.

(** ** Operations

    The push list of the queue at [q] is the list of [QSender q], its pop list
    that of [QSuspend q]. *)
Section ops.
Context {cfg : RTConfig}.

Definition put_dq (p : Z) (o : rt_data_queue) : K unit := put_obj p (KDataQueue o).
Definition upd_dq (p : Z) (f : rt_data_queue → rt_data_queue) : K unit :=
  let! o := get_dq p in put_dq p (f o).
Definition dq_set_index (get put : Z) (o : rt_data_queue) : rt_data_queue :=
  mk_data_queue (dq_size o) (dq_lwm o) get put (dq_queue o) (dq_evt_notify o).
(** [queue->queue[index % queue->size]] *)
Definition dq_slot (o : rt_data_queue) (index : Z) : Z :=
  dq_queue o + SIZEOF_DATA_ITEM * (index mod dq_size o).
(** [queue->evt_notify(queue, event)], when there is one. *)
Definition dq_notify (queue event : Z) : K unit :=
  let! o := get_dq queue in
  match dq_evt_notify o with
  | Some f => emit (ev_callback f queue event)
  | None => ret tt
  end.

Definition rt_data_queue_init (queue size lwm : Z) (evt_notify : option Z) : K Z :=
  upd_dq queue (λ o, mk_data_queue (u16 size) (u16 lwm) 0 0 (dq_queue o) evt_notify) ;;;
  tl_init (QSender queue) ;;;
  tl_init (QSuspend queue) ;;;
  let! items := in_heap (Mem.rt_malloc (SIZEOF_DATA_ITEM * u16 size)) in
  upd_dq queue (λ o, mk_data_queue (dq_size o) (dq_lwm o) (dq_get_index o) (dq_put_index o) items
    (dq_evt_notify o)) ;;;
  if items =? 0 then ret (- RT_ENOMEM) else ret RT_EOK.

(** The body of the loops up to their [rt_schedule()]: the current thread waits
    at the end of the list of [q]. *)
Definition dq_wait (q : qid) (timeout level : Z) : K Z :=
  RT_DEBUG_NOT_IN_INTERRUPT ;;;
  let! thread := self in
  upd_thread thread (th_set_error RT_EOK) ;;;
  rt_thread_suspend thread ;;;
  tl_insert_before q thread ;;;
  (when 0 <? timeout then start_thread_timer thread timeout) ;;;
  rt_hw_interrupt_enable level ;;;
  rt_schedule ;;;
  ret thread.

(** The loop of a push, entered with interrupts masked, and what follows it; a
    blocked call keeps its thread. *)
Definition dq_push_loop (queue data_ptr data_size timeout level : Z) : K (outcome Z Z) :=
  let! o := get_dq queue in
  if dq_put_index o - dq_get_index o =? dq_size o then
    if timeout =? 0 then
      rt_hw_interrupt_enable level ;;;
      ret (Returned (- RT_ETIMEOUT))
    else
      let! thread := dq_wait (QSender queue) timeout level in
      ret (Blocked thread)
  else
    store (dq_slot o (dq_put_index o)) data_ptr ;;;
    store (dq_slot o (dq_put_index o) + 4) data_size ;;;
    upd_dq queue (λ o, dq_set_index (dq_get_index o) (u16 (dq_put_index o + 1)) o) ;;;
    let! e := tl_isempty (QSuspend queue) in
    if negb e then
      let! thread := tl_first (QSuspend queue) in
      rt_thread_resume thread ;;;
      rt_hw_interrupt_enable level ;;;
      rt_schedule ;;;
      ret (Returned RT_EOK)
    else
      rt_hw_interrupt_enable level ;;;
      dq_notify queue RT_DATAQUEUE_EVENT_PUSH ;;;
      ret (Returned RT_EOK).

Definition rt_data_queue_push (queue data_ptr data_size timeout : Z) : K (outcome Z Z) :=
  let! level := rt_hw_interrupt_disable in
  dq_push_loop queue data_ptr data_size timeout level.

Definition rt_data_queue_push_return (queue data_ptr data_size timeout thread : Z)
    : K (outcome Z Z) :=
  let! th := get_thread thread in
  let! level := rt_hw_interrupt_disable in
  if negb (th_error th =? RT_EOK) then
    rt_hw_interrupt_enable level ;;;
    ret (Returned (th_error th))
  else dq_push_loop queue data_ptr data_size timeout level.

(** The result is the error and what is written to [*data_ptr] and [*size]. *)
Definition dq_pop_loop (queue timeout level : Z) : K (outcome (Z * option (Z * Z)) Z) :=
  let! o := get_dq queue in
  if dq_get_index o =? dq_put_index o then
    if timeout =? 0 then
      rt_hw_interrupt_enable level ;;;
      ret (Returned (- RT_ETIMEOUT, None))
    else
      let! thread := dq_wait (QSuspend queue) timeout level in
      ret (Blocked thread)
  else
    let! data_ptr := load (dq_slot o (dq_get_index o)) in
    let! size := load (dq_slot o (dq_get_index o) + 4) in
    upd_dq queue (λ o, dq_set_index (u16 (dq_get_index o + 1)) (dq_put_index o) o) ;;;
    let! o := get_dq queue in
    if dq_put_index o - dq_get_index o <=? dq_lwm o then
      let! e := tl_isempty (QSender queue) in
      (if negb e then
         let! thread := tl_first (QSender queue) in
         rt_thread_resume thread ;;;
         rt_hw_interrupt_enable level ;;;
         rt_schedule
       else rt_hw_interrupt_enable level) ;;;
      dq_notify queue RT_DATAQUEUE_EVENT_LWM ;;;
      ret (Returned (RT_EOK, Some (data_ptr, size)))
    else
      rt_hw_interrupt_enable level ;;;
      dq_notify queue RT_DATAQUEUE_EVENT_POP ;;;
      ret (Returned (RT_EOK, Some (data_ptr, size))).

Definition rt_data_queue_pop (queue timeout : Z) : K (outcome (Z * option (Z * Z)) Z) :=
  let! level := rt_hw_interrupt_disable in
  dq_pop_loop queue timeout level.

Definition rt_data_queue_pop_return (queue timeout thread : Z)
    : K (outcome (Z * option (Z * Z)) Z) :=
  let! th := get_thread thread in
  let! level := rt_hw_interrupt_disable in
  if negb (th_error th =? RT_EOK) then
    rt_hw_interrupt_enable level ;;;
    ret (Returned (th_error th, None))
  else dq_pop_loop queue timeout level.

Definition rt_data_queue_peak (queue : Z) : K (Z * option (Z * Z)) :=
  let! level := rt_hw_interrupt_disable in
  let! o := get_dq queue in
  if dq_get_index o =? dq_put_index o then
    rt_hw_interrupt_enable level ;;;
    ret (- RT_EEMPTY, None)
  else
    let! data_ptr := load (dq_slot o (dq_get_index o)) in
    let! size := load (dq_slot o (dq_get_index o) + 4) in
    rt_hw_interrupt_enable level ;;;
    ret (RT_EOK, Some (data_ptr, size)).

(** The two loops are those of [rt_ipc_list_resume_all]. *)
Definition rt_data_queue_reset (queue : Z) : K unit :=
  rt_enter_critical ;;;
  let! l := tl_get (QSuspend queue) in
  resume_all_loop (S (length l)) (QSuspend queue) ;;;
  let! l := tl_get (QSender queue) in
  resume_all_loop (S (length l)) (QSender queue) ;;;
  rt_exit_critical ;;;
  rt_schedule.

End ops.

(** ** The ring of entries *)

(** The entry in slot [k] of the ring at [base]: a pointer and a size. *)
Definition entry_at (words : gmap Z Z) (base k : Z) (e : Z * Z) : Prop :=
  words !! (base + SIZEOF_DATA_ITEM * k) = Some e.1 ∧
  words !! (base + SIZEOF_DATA_ITEM * k + 4) = Some e.2.
Definition entries (words : gmap Z Z) (base size get : Z) (items : list (Z * Z)) : Prop :=
  ∀ i e, items !! i = Some e → entry_at words base ((get + Z.of_nat i) mod size) e.

(** What a data queue is: its capacity, its low water mark, the number of
    entries ever pushed, the entries in it, and the threads that wait to pop
    and to push. *)
Record dq_is (s : kstate) (q size lwm put : Z) (items : list (Z * Z)) (rcv snd : list Z) : Prop := {
  di_obj : ∃ o, objs s !! q = Some (KDataQueue o) ∧ dq_size o = size ∧ dq_lwm o = lwm ∧
    dq_put_index o = put ∧ dq_get_index o = put - Z.of_nat (length items) ∧
    entries (mem_words s) (dq_queue o) size (dq_get_index o) items;
  di_size : 0 < size < 2 ^ 16 ∧ Z.of_nat (length items) ≤ size;
  di_index : Z.of_nat (length items) ≤ put < 2 ^ 16;
  di_rcv : tlists s !! QSuspend q = Some rcv;
  di_snd : tlists s !! QSender q = Some snd
}.

Lemma entries_push words base size get items e : 0 < size →
  Z.of_nat (length items) < size → entries words base size get items →
  let k := (get + Z.of_nat (length items)) mod size in
  entries (<[base + SIZEOF_DATA_ITEM * k + 4 := e.2]> (<[base + SIZEOF_DATA_ITEM * k := e.1]> words))
    base size get (items ++ [e]).
Proof.
  intros Hs Hl Hr k i x. unfold entry_at, SIZEOF_DATA_ITEM in *. rewrite lookup_app_Some.
  intros [Hi|[Hge Hi]].
  - pose proof (lookup_lt_Some _ _ _ Hi).
    pose proof (ring_slot_ne get (Z.of_nat i) (Z.of_nat (length items)) size ltac:(lia) ltac:(lia)).
    fold k in H0. rewrite !lookup_insert_ne by lia. by apply Hr.
  - apply list_lookup_singleton_Some in Hi as [? <-]. replace i with (length items) by lia. fold k.
    rewrite lookup_insert_eq, lookup_insert_ne by lia. by rewrite lookup_insert_eq.
Qed.

Lemma entries_pop words base size get e items : 
  entries words base size get (e :: items) → entries words base size (get + 1) items.
Proof.
  intros Hr i x Hi. specialize (Hr (S i) x Hi).
  by replace (get + 1 + Z.of_nat i) with (get + Z.of_nat (S i)) by lia.
Qed.

Section runs.
Context {cfg : RTConfig} (idle : Z).

Lemma get_dq_run s q o : objs s !! q = Some (KDataQueue o) → get_dq q s = Ok o s.
Proof. intros Ho. unfold get_dq. krun. by rewrite Ho. Qed.

Lemma upd_dq_run s q o f : objs s !! q = Some (KDataQueue o) →
  upd_dq q f s = Ok tt (set_objs (<[q := KDataQueue (f o)]> (objs s)) s).
Proof. intros Ho. unfold upd_dq, put_dq. by rewrite (bind_ok _ _ _ _ _ (get_dq_run s q o Ho)). Qed.

(** A notification is only recorded. *)
Lemma notify_run q ev s : is_Some (objs s !! q ≫= λ o, match o with KDataQueue o => Some o | _ => None end) →
  ∃ tr, dq_notify q ev s = Ok tt (set_trace tr s).
Proof.
  intros [o Ho]. destruct (objs s !! q) as [[]|] eqn:E; try done. simplify_eq.
  unfold dq_notify. rewrite (bind_ok _ _ _ _ _ (get_dq_run s q _ E)).
  destruct (dq_evt_notify _); [by eexists|by exists (trace s)].
Qed.

(** The end of a transfer that wakes the first thread of the list of [q]. *)
Lemma wake_first_run q u l s p :
  kok idle s → wait_queue q → tlists s !! q = Some (u :: l) →
  ∃ s', (let! thread := tl_first q in
         rt_thread_resume thread ;;; rt_hw_interrupt_enable p ;;; rt_schedule) s = Ok tt s' ∧
    gives idle q (u :: l) (set_primask p s) s'.
Proof.
  intros Hk Hq Hl.
  destruct (resume_first_run idle s q u l Hk Hq Hl) as (th & s1 & E & Hw & _).
  destruct (wakes_schedule idle q u l th s s1 p Hw) as (E2 & Hw2 & Hr).
  eexists. split.
  - unfold rt_ipc_list_resume, tl_first, tl_get in *. revert E. krun. rewrite Hl. krun.
    destruct (rt_thread_resume u s) as [r s1'|]; [|done]. intros [= ->]. krun. exact E2.
  - destruct Hw2 as [? ? ? ? ? [? ?]]. split; try done.
    + intros v Hv. cbn in *. match goal with H : ∀ v, v ≠ u → _ |- _ => apply H end. congruence.
    + intros v [= <-]. split; [done|]. by exists th.
Qed.

Lemma dq_wait_run s t th q timeout p l :
  kok idle s → caller idle s t th → wait_queue q → tlists s !! q = Some l → timeout < half →
  ∃ s', dq_wait q timeout p (set_primask 1 s) = Ok t s' ∧
    waits idle q t timeout (l ++ [t]) (th_set_error RT_EOK th) (set_primask p s) s'.
Proof.
  intros Hk Hc Hq Hl Hti.
  destruct (block_run idle s t th (th_set_error RT_EOK th) q RT_IPC_FLAG_FIFO timeout l (trace s) p)
    as (s1 & s' & E1 & _ & E2 & Hw); [done..|by left|done|].
  exists s'. split; [|exact Hw]. unfold dq_wait, upd_thread.
  rewrite (bind_ok _ _ _ _ _ (not_in_interrupt_run (set_primask 1 s) (cl_context _ _ _ _ Hc))). krun.
  rewrite (cl_self _ _ _ _ Hc). krun. rewrite (cl_thread _ _ _ _ Hc). krun.
  revert E1. unfold ipc_wait, rt_ipc_list_suspend.
  change (RT_IPC_FLAG_FIFO =? RT_IPC_FLAG_FIFO) with true. krun.
  match goal with |- context [rt_thread_suspend t ?a] => set (s0 := a) end.
  change (rt_thread_suspend t (set_threads _ _)) with (rt_thread_suspend t s0).
  destruct (rt_thread_suspend t s0) as [r s2|]; [|done].
  destruct (tl_insert_before q t s2) as [r2 s3|]; [|done].
  intros ->. by rewrite E2.
Qed.

(** The state after an entry was stored, and after one was taken. *)
Definition pushed (q : Z) (o : rt_data_queue) (e : Z * Z) (s : kstate) : kstate :=
  let a := dq_slot o (dq_put_index o) in
  set_objs (<[q := KDataQueue (dq_set_index (dq_get_index o) (u16 (dq_put_index o + 1)) o)]> (objs s))
    (set_mem_words (<[a + 4 := e.2]> (<[a := e.1]> (mem_words s))) s).
Definition popped (q : Z) (o : rt_data_queue) (s : kstate) : kstate :=
  set_objs (<[q := KDataQueue (dq_set_index (u16 (dq_get_index o + 1)) (dq_put_index o) o)]> (objs s)) s.

Lemma pushed_is s q o size lwm put items rcv snd e :
  objs s !! q = Some (KDataQueue o) → dq_is s q size lwm put items rcv snd →
  Z.of_nat (length items) < size → put + 1 < 2 ^ 16 →
  dq_is (pushed q o e s) q size lwm (put + 1) (items ++ [e]) rcv snd.
Proof.
  intros Ho [(? & ? & <- & <- & Hp & Hg & He) Hs Hi Hr Hn] Hl Hput. simplify_eq.
  split; try done; rewrite ?length_app; cbn [length]; [|lia|lia].
  eexists. split; [apply lookup_insert_eq|]. split_and!; try done.
  - cbn. unfold u16. rewrite wrap_small by lia. lia.
  - cbn. lia.
  - change (entries (<[dq_slot o (dq_put_index o) + 4 := e.2]>
      (<[dq_slot o (dq_put_index o) := e.1]> (mem_words s))) (dq_queue o) (dq_size o)
      (dq_get_index o) (items ++ [e])). unfold dq_slot.
    replace (dq_put_index o) with (dq_get_index o + Z.of_nat (length items)) by lia.
    apply entries_push; [lia|done|done].
Qed.

Lemma popped_is s q o size lwm put e items rcv snd :
  objs s !! q = Some (KDataQueue o) → dq_is s q size lwm put (e :: items) rcv snd →
  dq_is (popped q o s) q size lwm put items rcv snd ∧
  mem_words s !! dq_slot o (dq_get_index o) = Some e.1 ∧
  mem_words s !! (dq_slot o (dq_get_index o) + 4) = Some e.2 ∧
  dq_put_index o - u16 (dq_get_index o + 1) = Z.of_nat (length items).
Proof.
  intros Ho [(? & ? & <- & <- & Hp & Hg & He) Hs Hi Hr Hn]. simplify_eq. cbn [length] in *.
  assert (u16 (dq_get_index o + 1) = dq_get_index o + 1) as Eu.
  { unfold u16. rewrite wrap_small by lia. done. }
  split.
  - split; try done; [|lia..]. eexists. split; [apply lookup_insert_eq|]. split_and!; try done.
    + cbn. lia.
    + cbn. rewrite Eu. by eapply entries_pop.
  - destruct (He 0%nat e eq_refl) as [H1 H2]. rewrite Z.add_0_r in H1, H2. split_and!; [done..|lia].
Qed.

(** [dq_is] looks at the queue, the ring and the two lists. *)
Lemma dq_frame s s' q size lwm put items rcv snd rcv' snd' :
  dq_is s q size lwm put items rcv snd → objs s' = objs s → mem_words s' = mem_words s →
  tlists s' !! QSuspend q = Some rcv' → tlists s' !! QSender q = Some snd' →
  dq_is s' q size lwm put items rcv' snd'.
Proof. intros [Ho Hs Hi Hr Hn] Eo Ew Er Es. split; try done. by rewrite Eo, Ew. Qed.

Lemma notified s q ev size lwm put items rcv snd :
  dq_is s q size lwm put items rcv snd → ∃ tr, dq_notify q ev s = Ok tt (set_trace tr s).
Proof. intros [(o & Ho & _) _ _ _ _]. apply notify_run. rewrite Ho. by eexists. Qed.

Lemma push_room_run s q size lwm put items rcv snd e timeout p :
  kok idle s → dq_is s q size lwm put items rcv snd → Z.of_nat (length items) < size →
  put + 1 < 2 ^ 16 →
  ∃ s', dq_push_loop q e.1 e.2 timeout p s = Ok (Returned RT_EOK) s' ∧
    dq_is s' q size lwm (put + 1) (items ++ [e]) (tail rcv) snd ∧
    ∃ o, gives idle (QSuspend q) rcv (set_primask p (pushed q o e s)) s'.
Proof.
  intros Hk Hq Hl Hput. pose proof Hq as [(o & Ho & Es & _ & Ep & Eg & _) Hs Hi Hr Hn].
  pose proof (pushed_is s q o size lwm put items rcv snd e Ho Hq Hl Hput) as Hq1.
  set (s1 := pushed q o e s) in *. assert (kok idle s1) as Hk1 by exact Hk.
  assert (dq_push_loop q e.1 e.2 timeout p s =
    (let! b := tl_isempty (QSuspend q) in
     if negb b then
       let! thread := tl_first (QSuspend q) in
       rt_thread_resume thread ;;; rt_hw_interrupt_enable p ;;; rt_schedule ;;; ret (Returned RT_EOK)
     else rt_hw_interrupt_enable p ;;; dq_notify q RT_DATAQUEUE_EVENT_PUSH ;;; ret (Returned RT_EOK))
    s1) as ->.
  { unfold dq_push_loop. rewrite (bind_ok _ _ _ _ _ (get_dq_run s q o Ho)).
    replace (dq_put_index o - dq_get_index o =? dq_size o) with false by lia.
    unfold store. rewrite !bind_modify.
    by erewrite bind_ok by (apply upd_dq_run; exact Ho). }
  assert (tl_isempty (QSuspend q) s1 = Ok (bool_decide (rcv = [])) s1) as Ee.
  { unfold tl_isempty, tl_get. krun.
    by rewrite (Hr : tlists s1 !! QSuspend q = Some rcv). }
  rewrite (bind_ok _ _ _ _ _ Ee). destruct rcv as [|u rcv].
  - rewrite bool_decide_eq_true_2 by done. cbn [negb].
    destruct (notified (set_primask p s1) q RT_DATAQUEUE_EVENT_PUSH size lwm (put + 1)
      (items ++ [e]) [] snd) as [tr E]; [by eapply dq_frame|].
    eexists. split; [|split].
    + unfold rt_hw_interrupt_enable. rewrite bind_modify, (bind_ok _ _ _ _ _ E). reflexivity.
    + by eapply dq_frame.
    + exists o. by split.
  - rewrite bool_decide_eq_false_2 by done. cbn [negb].
    destruct (wake_first_run (QSuspend q) u rcv s1 p Hk1 I Hr) as (s' & E & Hg).
    exists s'. split; [|split; [|by exists o]].
    + revert E. unfold bind. destruct (tl_first _ _) as [t s2|]; [|done].
      destruct (rt_thread_resume t s2) as [r s3|]; [|done].
      destruct (rt_hw_interrupt_enable p s3) as [r4 s4|]; [|done]. by intros ->.
    + eapply dq_frame; [exact Hq1|apply Hg|apply Hg|apply Hg|]. by rewrite (gv_lists _ _ _ _ _ Hg).
Qed.

(** After a pop, the first sender is woken when few entries are left. *)
Definition woken_senders (lwm : Z) (items : list (Z * Z)) (snd : list Z) : list Z :=
  if Z.of_nat (length items) <=? lwm then snd else [].

Lemma pop_item_run s q size lwm put e items rcv snd timeout p :
  kok idle s → dq_is s q size lwm put (e :: items) rcv snd →
  ∃ s', dq_pop_loop q timeout p s = Ok (Returned (RT_EOK, Some e)) s' ∧
    kok idle s' ∧ primask s' = p ∧
    dq_is s' q size lwm put items rcv (if Z.of_nat (length items) <=? lwm then tail snd else snd) ∧
    ∀ u, head (woken_senders lwm items snd) = Some u → highest_runs s' ∧
      ∃ thu, threads s' !! u = Some (th_set_stat RT_THREAD_READY thu).
Proof.
  intros Hk Hq. pose proof Hq as [(o & Ho & Es & El & Ep & Eg & _) Hs Hi Hr Hn].
  destruct (popped_is s q o size lwm put e items rcv snd Ho Hq) as (Hq1 & H1 & H2 & Ed).
  set (s1 := popped q o s) in *. assert (kok idle s1) as Hk1 by exact Hk.
  assert (∀ s2 ev rcv2 snd2, dq_is s2 q size lwm put items rcv2 snd2 → ∃ tr,
    (dq_notify q ev ;;; ret (Returned (A := Z * option (Z * Z)) (C := Z) (RT_EOK, Some (e.1, e.2)))) s2 =
      Ok (Returned (RT_EOK, Some e)) (set_trace tr s2)) as Hnot.
  { intros s2 ev rcv2 snd2 H. destruct (notified s2 q ev _ _ _ _ _ _ H) as [tr E]. exists tr.
    rewrite (bind_ok _ _ _ _ _ E). by destruct e. }
  assert (dq_pop_loop q timeout p s =
    (if Z.of_nat (length items) <=? lwm then
       let! b := tl_isempty (QSender q) in
       (if negb b then
          let! thread := tl_first (QSender q) in
          rt_thread_resume thread ;;; rt_hw_interrupt_enable p ;;; rt_schedule
        else rt_hw_interrupt_enable p) ;;;
       dq_notify q RT_DATAQUEUE_EVENT_LWM ;;; ret (Returned (RT_EOK, Some (e.1, e.2)))
     else rt_hw_interrupt_enable p ;;; dq_notify q RT_DATAQUEUE_EVENT_POP ;;;
       ret (Returned (RT_EOK, Some (e.1, e.2)))) s1) as ->.
  { unfold dq_pop_loop. rewrite (bind_ok _ _ _ _ _ (get_dq_run s q o Ho)).
    cbn [length] in *. replace (dq_get_index o =? dq_put_index o) with false by lia.
    unfold load, from_option. krun. rewrite H1. krun. rewrite H2. krun.
    rewrite (upd_dq_run _ q o) by done.
    rewrite (get_dq_run _ q (dq_set_index (u16 (dq_get_index o + 1)) (dq_put_index o) o))
      by apply lookup_insert_eq.
    cbn [dq_put_index dq_get_index dq_set_index dq_lwm]. by rewrite Ed, El. }
  unfold woken_senders. destruct (Z.leb_spec (Z.of_nat (length items)) lwm).
  - assert (tl_isempty (QSender q) s1 = Ok (bool_decide (snd = [])) s1) as Ee.
    { unfold tl_isempty, tl_get. krun.
      by rewrite (Hn : tlists s1 !! QSender q = Some snd). }
    rewrite (bind_ok _ _ _ _ _ Ee). destruct snd as [|u snd].
    + rewrite bool_decide_eq_true_2 by done. cbn [negb]. unfold rt_hw_interrupt_enable.
      rewrite bind_modify.
      destruct (Hnot (set_primask p s1) RT_DATAQUEUE_EVENT_LWM rcv []) as [tr E];
        [by eapply dq_frame|].
      eexists. split; [exact E|]. split_and!; [exact Hk|done| |done]. by eapply dq_frame.
    + rewrite bool_decide_eq_false_2 by done. cbn [negb].
      destruct (wake_first_run (QSender q) u snd s1 p Hk1 I Hn) as (s' & E & Hg).
      rewrite (bind_ok _ _ _ _ _ E).
      assert (dq_is s' q size lwm put items rcv snd) as Hq2.
      { eapply dq_frame; [exact Hq1|apply Hg|apply Hg| |apply Hg]. by rewrite (gv_lists _ _ _ _ _ Hg). }
      destruct (Hnot s' RT_DATAQUEUE_EVENT_LWM rcv snd Hq2) as [tr E2].
      eexists. split; [exact E2|]. split_and!; [apply Hg|apply Hg| |].
      * by eapply dq_frame; [exact Hq2|..]; try apply Hq2.
      * intros v Hv. destruct (gv_woken _ _ _ _ _ Hg v Hv) as (Hh & thu & _ & ? & _).
        split; [exact Hh|by exists thu].
  - unfold rt_hw_interrupt_enable. rewrite bind_modify.
    destruct (Hnot (set_primask p s1) RT_DATAQUEUE_EVENT_POP rcv snd) as [tr E]; [by eapply dq_frame|].
    eexists. split; [exact E|]. split_and!; [exact Hk|done| |done]. by eapply dq_frame.
Qed.
End runs.

(** ** What the operations promise *)
Section theorems.
Context {cfg : RTConfig}.

(** C38: [rt_data_queue_push] appends an entry while there is room, and the first
    thread that waits to pop becomes ready; on a full queue it fails with
    [-RT_ETIMEOUT] when it is not to wait, and otherwise the thread waits at
    the end of the list.  This holds until the 16-bit put index wraps around. *)
Theorem dq_push_correct (idle : Z) (s : kstate) (t q size lwm put data_ptr data_size timeout : Z)
    (th : rt_thread) (items : list (Z * Z)) (rcv snd : list Z) :
  kok idle s → caller idle s t th → dq_is s q size lwm put items rcv snd →
  put + 1 < 2 ^ 16 → timeout < half →
  ∃ r s', rt_data_queue_push q data_ptr data_size timeout s = Ok r s' ∧ kok idle s' ∧
    primask s' = primask s ∧
    if Z.of_nat (length items) <? size then
      r = Returned RT_EOK ∧
      dq_is s' q size lwm (put + 1) (items ++ [(data_ptr, data_size)]) (tail rcv) snd ∧
      ∀ u, head rcv = Some u → highest_runs s' ∧
        ∃ thu, threads s' !! u = Some (th_set_stat RT_THREAD_READY thu)
    else if timeout =? 0 then
      r = Returned (- RT_ETIMEOUT) ∧ dq_is s' q size lwm put items rcv snd
    else
      r = Blocked t ∧ dq_is s' q size lwm put items rcv (snd ++ [t]) ∧
      waits idle (QSender q) t timeout (snd ++ [t]) (th_set_error RT_EOK th) s s'.
Proof.
  intros Hk Hc Hq Hput Hti. unfold rt_data_queue_push, rt_hw_interrupt_disable at 1. unfold bind at 1.
  set (s1 := set_primask 1 s).
  assert (dq_is s1 q size lwm put items rcv snd) as Hq1 by (destruct Hq; by split).
  destruct (Z.ltb_spec (Z.of_nat (length items)) size) as [Hlt|Hge].
  - destruct (push_room_run idle s1 q size lwm put items rcv snd (data_ptr, data_size) timeout
      (primask s)) as (s' & E & Hq' & o & Hg); [done..|].
    do 2 eexists. split; [exact E|]. split_and!; [apply Hg|apply Hg|done|exact Hq'|].
    intros u Hu. destruct (gv_woken _ _ _ _ _ Hg u Hu) as (Hh & thu & _ & ? & _).
    split; [exact Hh|by exists thu].
  - pose proof Hq as [(o & Ho & Es & _ & Ep & Eg & _) Hs Hi Hr Hn].
    unfold dq_push_loop. rewrite (bind_ok _ _ _ _ _ (get_dq_run s1 q o Ho)).
    replace (dq_put_index o - dq_get_index o =? dq_size o) with true by lia.
    destruct (Z.eqb_spec timeout 0) as [->|Hz].
    + do 2 eexists. split; [reflexivity|]. split_and!; [exact Hk|done..|]. by eapply dq_frame.
    + destruct (dq_wait_run idle s t th (QSender q) timeout (primask s) snd) as (s' & E & Hw);
        [done..|].
      rewrite (bind_ok _ _ _ _ _ E). do 2 eexists. split; [reflexivity|].
      split_and!; [apply Hw|apply Hw|done| |destruct Hw; by split].
      eapply dq_frame; [exact Hq|apply Hw|apply Hw| |apply Hw]. by rewrite (w_lists _ _ _ _ _ _ _ _ Hw).
Qed.

(** [rt_data_queue_pop] takes the oldest entry, and when no more entries than
    the low water mark are left the first thread that waits to push becomes
    ready; on an empty queue it fails with [-RT_ETIMEOUT] when it is not to
    wait, and otherwise the thread waits at the end of the list. *)
Theorem dq_pop_correct (idle : Z) (s : kstate) (t q size lwm put timeout : Z)
    (th : rt_thread) (items : list (Z * Z)) (rcv snd : list Z) :
  kok idle s → caller idle s t th → dq_is s q size lwm put items rcv snd → timeout < half →
  ∃ r s', rt_data_queue_pop q timeout s = Ok r s' ∧ kok idle s' ∧ primask s' = primask s ∧
    match items with
    | e :: items =>
      r = Returned (RT_EOK, Some e) ∧
      dq_is s' q size lwm put items rcv (if Z.of_nat (length items) <=? lwm then tail snd else snd) ∧
      ∀ u, head (woken_senders lwm items snd) = Some u → highest_runs s' ∧
        ∃ thu, threads s' !! u = Some (th_set_stat RT_THREAD_READY thu)
    | [] =>
      if timeout =? 0 then
        r = Returned (- RT_ETIMEOUT, None) ∧ dq_is s' q size lwm put [] rcv snd
      else
        r = Blocked t ∧ dq_is s' q size lwm put [] (rcv ++ [t]) snd ∧
        waits idle (QSuspend q) t timeout (rcv ++ [t]) (th_set_error RT_EOK th) s s'
    end.
Proof.
  intros Hk Hc Hq Hti. unfold rt_data_queue_pop, rt_hw_interrupt_disable at 1. unfold bind at 1.
  set (s1 := set_primask 1 s).
  assert (dq_is s1 q size lwm put items rcv snd) as Hq1 by (destruct Hq; by split).
  destruct items as [|e items].
  - pose proof Hq as [(o & Ho & Es & _ & Ep & Eg & _) Hs Hi Hr Hn]. cbn [length] in *.
    unfold dq_pop_loop. rewrite (bind_ok _ _ _ _ _ (get_dq_run s1 q o Ho)).
    replace (dq_get_index o =? dq_put_index o) with true by lia.
    destruct (Z.eqb_spec timeout 0) as [->|Hz].
    + do 2 eexists. split; [reflexivity|]. split_and!; [exact Hk|done..|]. by eapply dq_frame.
    + destruct (dq_wait_run idle s t th (QSuspend q) timeout (primask s) rcv) as (s' & E & Hw);
        [done..|].
      rewrite (bind_ok _ _ _ _ _ E). do 2 eexists. split; [reflexivity|].
      split_and!; [apply Hw|apply Hw|done| |destruct Hw; by split].
      eapply dq_frame; [exact Hq|apply Hw|apply Hw|apply Hw|]. by rewrite (w_lists _ _ _ _ _ _ _ _ Hw).
  - destruct (pop_item_run idle s1 q size lwm put e items rcv snd timeout (primask s))
      as (s' & E & Hk' & Hp & Hq' & Hw); [done..|].
    do 2 eexists. split; [exact E|]. by split_and!.
Qed.
End theorems.

(** ** Examples

    A queue of two entries in the object at 100, its ring at 0x2000. *)
Definition demo_dq (get put : Z) : kobj := KDataQueue (mk_data_queue 2 1 get put 0x2000 (Some 900)).
Definition demo_queue (get put : Z) (words : list (Z * Z)) : kstate :=
  set_mem_words (list_to_map words) (demo [(QSender 100, [])] [(100, demo_dq get put)]).
Lemma demo_queue_dq get put words : kok 1 (demo_queue get put words).
Proof. apply kinv_check_spec. vm_compute. reflexivity. Qed.

Lemma dq_push_correct_witness :
  ∃ s', rt_data_queue_push (cfg := gd32_config) 100 77 4 0
      (demo_queue 6 7 [(0x2000, 8); (0x2004, 9)]) = Ok (Returned RT_EOK) s' ∧
    dq_is s' 100 2 1 8 [(8, 9); (77, 4)] [5] [].
Proof.
  destruct (dq_push_correct (cfg := gd32_config) 1 (demo_queue 6 7 [(0x2000, 8); (0x2004, 9)])
    2 100 2 1 7 77 4 0 (demo_thread 2 RT_THREAD_READY 10) [(8, 9)] [3; 5] [])
    as (r & s' & E & _ & _ & -> & Hq & _).
  - apply demo_queue_dq.
  - by split.
  - split; try reflexivity; [|simpl; lia|simpl; lia].
    eexists. split; [reflexivity|]. split_and!; try reflexivity.
    intros [|i] e; simpl; intros; by simplify_eq.
  - lia.
  - reflexivity.
  - by exists s'.
Defined.

Lemma dq_pop_correct_witness :
  ∃ s', rt_data_queue_pop (cfg := gd32_config) 100 0
      (demo_queue 6 7 [(0x2000, 8); (0x2004, 9)]) = Ok (Returned (RT_EOK, Some (8, 9))) s' ∧
    dq_is s' 100 2 1 7 [] [3; 5] [].
Proof.
  destruct (dq_pop_correct (cfg := gd32_config) 1 (demo_queue 6 7 [(0x2000, 8); (0x2004, 9)])
    2 100 2 1 7 0 (demo_thread 2 RT_THREAD_READY 10) [(8, 9)] [3; 5] [])
    as (r & s' & E & _ & _ & -> & Hq & _).
  - apply demo_queue_dq.
  - by split.
  - split; try reflexivity; [|simpl; lia|simpl; lia].
    eexists. split; [reflexivity|]. split_and!; try reflexivity.
    intros [|i] e; simpl; intros; by simplify_eq.
  - reflexivity.
  - by exists s'.
Defined.

(** When the put index wraps to 0, the difference of the indices is negative:
    a full queue accepts a third entry, which overwrites the first. *)
Example dq_index_wraps : let cfg := gd32_config in
  match (rt_data_queue_push 100 1 1 0 ;;; rt_data_queue_push 100 2 2 0 ;;;
         rt_data_queue_push 100 3 3 0)
        (set_tlists (<[QSuspend 100 := []]> (demo_lists [(QSender 100, [])]))
          (demo_queue 65534 65534 [])) with
  | Ok r s => r = Returned RT_EOK ∧ mem_words s !! 0x2000 = Some 3
  | Fault _ => False
  end.
Proof. vm_compute. by split. Qed.
