(* ===== verification/Completion.v ===== *)
(** * Completions ([components/finsh/completion.c])

    One thread waits until an event, usually an interrupt, has come; an event
    that comes first is remembered in a flag. *)

From S2P Require Import Prelude RtDef SortedList Mem KService Kernel Cpuport Scheduler.
From S2P Require Import Object Timer Invariant Thread Clock Ipc Demo.

Definition RT_COMPLETED : Z := 1.
Definition RT_UNCOMPLETED : Z := 0.

(** ** Operations *)
Section ops.
Context {cfg : RTConfig}.

Definition set_comp_flag (p v : Z) : K unit :=
  let! _ := get_completion p in put_obj p (KCompletion (mk_completion v)).

Definition rt_completion_init (completion : Z) : K unit :=
  let! level := rt_hw_interrupt_disable in
  set_comp_flag completion RT_UNCOMPLETED ;;;
  tl_init (QSuspend completion) ;;;
  rt_hw_interrupt_enable level.

(** A blocked call keeps the completion and the thread. *)
Definition rt_completion_wait (completion timeout : Z) : K (outcome Z (Z * Z)) :=
  let! thread := rt_thread_self in
  let! level := rt_hw_interrupt_disable in
  let! o := get_completion completion in
  if negb (comp_flag o =? RT_COMPLETED) then
    let! e := tl_isempty (QSuspend completion) in
    RT_ASSERT e ;;;
    if timeout =? 0 then
      rt_hw_interrupt_enable level ;;;
      ret (Returned (- RT_ETIMEOUT))
    else
      let! thread := from_option NullDeref thread in
      upd_thread thread (th_set_error RT_EOK) ;;;
      rt_thread_suspend thread ;;;
      tl_insert_before (QSuspend completion) thread ;;;
      RT_DEBUG_NOT_IN_INTERRUPT ;;;
      (when 0 <? timeout then start_thread_timer thread timeout) ;;;
      rt_hw_interrupt_enable level ;;;
      rt_schedule ;;;
      ret (Blocked (completion, thread))
  else
    set_comp_flag completion RT_UNCOMPLETED ;;;
    rt_hw_interrupt_enable level ;;;
    ret (Returned RT_EOK).

(** After the [rt_schedule()] of a blocked wait. *)
Definition rt_completion_wait_return (c : Z * Z) : K Z :=
  let '(completion, thread) := c in
  let! th := get_thread thread in
  let! level := rt_hw_interrupt_disable in
  set_comp_flag completion RT_UNCOMPLETED ;;;
  rt_hw_interrupt_enable level ;;;
  ret (th_error th).

Definition rt_completion_done (completion : Z) : K unit :=
  let! o := get_completion completion in
  if comp_flag o =? RT_COMPLETED then ret tt
  else
    let! level := rt_hw_interrupt_disable in
    set_comp_flag completion RT_COMPLETED ;;;
    let! e := tl_isempty (QSuspend completion) in
    if negb e then
      let! thread := tl_first (QSuspend completion) in
      rt_thread_resume thread ;;;
      rt_hw_interrupt_enable level ;;;
      rt_schedule
    else rt_hw_interrupt_enable level.
End ops.

(** ** The specification

    A flag and at most one waiting thread.  A thread that is woken finds the
    flag set, and clears it when it runs again. *)
Definition comp_is (s : kstate) (c flag : Z) (ws : list Z) : Prop :=
  objs s !! c = Some (KCompletion (mk_completion flag)) ∧ tlists s !! QSuspend c = Some ws.

Inductive comp_action : Type :=
  | CompTake            (* the event has come: the thread goes on *)
  | CompBusy            (* it has not, and the thread does not wait *)
  | CompWait (t : Z)    (* it has not, and the thread waits *)
  | CompAgain           (* the event had come before *)
  | CompNote            (* it comes before a thread waits *)
  | CompWake (t : Z).   (* it comes to the waiting thread *)

Inductive comp_step : Z * list Z → comp_action → Z * list Z → Prop :=
  | comp_take ws : comp_step (RT_COMPLETED, ws) CompTake (RT_UNCOMPLETED, ws)
  | comp_busy : comp_step (RT_UNCOMPLETED, []) CompBusy (RT_UNCOMPLETED, [])
  | comp_wait t : comp_step (RT_UNCOMPLETED, []) (CompWait t) (RT_UNCOMPLETED, [t])
  | comp_again ws : comp_step (RT_COMPLETED, ws) CompAgain (RT_COMPLETED, ws)
  | comp_note : comp_step (RT_UNCOMPLETED, []) CompNote (RT_COMPLETED, [])
  | comp_wake t : comp_step (RT_UNCOMPLETED, [t]) (CompWake t) (RT_COMPLETED, []).

Section runs.
Context {cfg : RTConfig} (idle : Z).

Lemma get_completion_run s c o : objs s !! c = Some (KCompletion o) → get_completion c s = Ok o s.
Proof. intros Ho. unfold get_completion. krun. by rewrite Ho. Qed.

Lemma set_comp_flag_run s c o v : objs s !! c = Some (KCompletion o) →
  set_comp_flag c v s = Ok tt (set_objs (<[c := KCompletion (mk_completion v)]> (objs s)) s).
Proof.
  intros Ho. unfold set_comp_flag. rewrite (bind_ok _ _ _ _ _ (get_completion_run _ _ _ Ho)). by krun.
Qed.

Lemma comp_flag_set s c flag v ws : comp_is s c flag ws →
  comp_is (set_objs (<[c := KCompletion (mk_completion v)]> (objs s)) s) c v ws.
Proof. intros [_ Hl]. split; [apply lookup_insert_eq|done]. Qed.

Lemma suspended_empty_run s q l : tlists s !! q = Some l → tl_isempty q s = Ok (bool_decide (l = [])) s.
Proof. intros Hl. unfold tl_isempty, tl_get. krun. rewrite Hl. by krun. Qed.

Lemma assert_true_run s : RT_ASSERT true s = Ok tt s.
Proof. unfold RT_ASSERT. rewrite andb_false_r. done. Qed.

(** The event has come. *)
Lemma wait_completed s c ws timeout : comp_is s c RT_COMPLETED ws →
  rt_completion_wait c timeout s =
    Ok (Returned RT_EOK) (set_objs (<[c := KCompletion (mk_completion RT_UNCOMPLETED)]> (objs s)) s).
Proof.
  intros [Ho Hl]. unfold rt_completion_wait. krun.
  rewrite (get_completion_run (set_primask 1 s) c _ Ho).
  change (comp_flag _ =? RT_COMPLETED) with true. krun.
  by rewrite (set_comp_flag_run (set_primask 1 s) c _ _ Ho).
Qed.

Lemma wait_no_time s c : comp_is s c RT_UNCOMPLETED [] →
  rt_completion_wait c 0 s = Ok (Returned (- RT_ETIMEOUT)) s.
Proof.
  intros [Ho Hl]. unfold rt_completion_wait. krun.
  rewrite (get_completion_run (set_primask 1 s) c _ Ho).
  change (comp_flag _ =? RT_COMPLETED) with false. krun.
  rewrite (suspended_empty_run (set_primask 1 s) _ [] Hl). krun.
  rewrite bool_decide_eq_true_2, (assert_true_run (set_primask 1 s)) by done. krun. by destruct s.
Qed.

(** The calls from the suspension on, as [ipc_wait] has them. *)
Lemma suspend_and_wait s0 t q time s1 :
  ipc_wait q t RT_IPC_FLAG_FIFO time s0 = Ok tt s1 →
  (∀ r s2, rt_ipc_list_suspend q t RT_IPC_FLAG_FIFO s0 = Ok r s2 → rt_interrupt_nest s2 = 0) →
  (rt_thread_suspend t ;;; tl_insert_before q t ;;; RT_DEBUG_NOT_IN_INTERRUPT ;;;
   when 0 <? time then start_thread_timer t time) s0 = Ok tt s1.
Proof.
  unfold ipc_wait, rt_ipc_list_suspend. change (RT_IPC_FLAG_FIFO =? RT_IPC_FLAG_FIFO) with true.
  unfold bind, ret. destruct (rt_thread_suspend t s0) as [r s2|]; [|done].
  destruct (tl_insert_before q t s2) as [r2 s3|]; [|done].
  intros E Hn. by rewrite (not_in_interrupt_run s3 (Hn RT_EOK s3 eq_refl)).
Qed.

Lemma wait_blocks s t th c timeout :
  kok idle s → caller idle s t th → comp_is s c RT_UNCOMPLETED [] → timeout ≠ 0 → timeout < half →
  ∃ s', rt_completion_wait c timeout s = Ok (Blocked (c, t)) s' ∧
    waits idle (QSuspend c) t timeout [t] (th_set_error RT_EOK th) s s'.
Proof.
  intros Hk Hc [Ho Hl] Hz Hti.
  set (th1 := th_set_error RT_EOK th).
  set (s0 := set_threads (<[t := th1]> (threads s)) (set_primask 1 s)).
  destruct (block_run idle s t th th1 (QSuspend c) RT_IPC_FLAG_FIFO timeout []
    (trace s) (primask s) Hk Hc) as (s1 & s' & E1 & _ & E2 & Hw); [done|done|done|by left|done|].
  exists s'. split; [|exact Hw].
  assert (kok idle s0) as Hk0 by (eapply ki_update; [exact Hk|apply Hc|done..]).
  destruct (k_started idle ∅ _ _ s t th Hk (cl_thread _ _ _ _ Hc)) as (_ & _ & (tm & Htm & _) & _);
    [set_solver|by left; apply Hc|].
  pose proof (ipc_suspend_run idle (rt_tick s0) (half - 1) s0 t th1 tm (QSuspend c) RT_IPC_FLAG_FIFO []
    Hk0 (lookup_insert_eq _ _ _) (cl_ready _ _ _ _ Hc) (cl_idle _ _ _ _ Hc) Htm I Hl (or_introl eq_refl))
    as Esus.
  unfold rt_completion_wait, upd_thread. krun. rewrite (cl_self _ _ _ _ Hc).
  rewrite (get_completion_run (set_primask 1 s) c _ Ho).
  change (comp_flag _ =? RT_COMPLETED) with false. krun.
  rewrite (suspended_empty_run (set_primask 1 s) _ [] Hl). krun.
  rewrite bool_decide_eq_true_2, (assert_true_run (set_primask 1 s)) by done. krun.
  rewrite (proj2 (Z.eqb_neq _ _) Hz). krun. rewrite (cl_thread _ _ _ _ Hc). krun.
  assert (∀ r s2, rt_ipc_list_suspend (QSuspend c) t RT_IPC_FLAG_FIFO s0 = Ok r s2 →
    rt_interrupt_nest s2 = 0) as Hn.
  { rewrite Esus. intros ? ? [= <- <-]. apply (cl_context _ _ _ _ Hc). }
  pose proof (suspend_and_wait s0 t (QSuspend c) timeout s1 E1 Hn) as Ew. revert Ew.
  change (rt_thread_suspend t (set_threads _ _)) with (rt_thread_suspend t s0). unfold bind, ret.
  destruct (rt_thread_suspend t s0) as [r s2|]; [|done].
  destruct (tl_insert_before (QSuspend c) t s2) as [r2 s3|]; [|done].
  destruct (RT_DEBUG_NOT_IN_INTERRUPT s3) as [r3 s4|]; [|done].
  intros ->. by rewrite E2.
Qed.

(** The event comes. *)
Lemma done_again s c ws : comp_is s c RT_COMPLETED ws → rt_completion_done c s = Ok tt s.
Proof.
  intros [Ho Hl]. unfold rt_completion_done. by rewrite (bind_ok _ _ _ _ _ (get_completion_run _ _ _ Ho)).
Qed.

Lemma done_notes s c : comp_is s c RT_UNCOMPLETED [] →
  rt_completion_done c s =
    Ok tt (set_objs (<[c := KCompletion (mk_completion RT_COMPLETED)]> (objs s)) s).
Proof.
  intros [Ho Hl]. unfold rt_completion_done. rewrite (bind_ok _ _ _ _ _ (get_completion_run _ _ _ Ho)).
  change (comp_flag _ =? RT_COMPLETED) with false. krun.
  rewrite (set_comp_flag_run (set_primask 1 s) c _ _ Ho).
  rewrite (suspended_empty_run _ (QSuspend c) []) by done. rewrite bool_decide_eq_true_2 by done. krun.
  by destruct s.
Qed.

Lemma done_wakes s c u : kok idle s → comp_is s c RT_UNCOMPLETED [u] →
  ∃ th s1 s', s1 = set_objs (<[c := KCompletion (mk_completion RT_COMPLETED)]> (objs s)) s ∧
    rt_completion_done c s = Ok tt s' ∧ wakes idle (QSuspend c) u [] th s1 s' ∧ highest_runs s'.
Proof.
  intros Hk [Ho Hl].
  set (s0 := set_objs (<[c := KCompletion (mk_completion RT_COMPLETED)]> (objs s)) (set_primask 1 s)).
  destruct (resume_first_run idle s0 (QSuspend c) u []) as (th & s1 & E & Hw & _); [done..|].
  destruct (wakes_schedule idle _ _ _ _ s0 s1 (primask s) Hw) as (E2 & Hw2 & Hh).
  exists th. do 2 eexists. split; [done|]. split; [|split; [|exact Hh]].
  - unfold rt_completion_done. rewrite (bind_ok _ _ _ _ _ (get_completion_run _ _ _ Ho)).
    change (comp_flag _ =? RT_COMPLETED) with false. krun.
    rewrite (set_comp_flag_run (set_primask 1 s) c _ _ Ho).
    change (set_objs _ (set_primask 1 s)) with s0.
    rewrite (suspended_empty_run s0 (QSuspend c) [u]) by done. rewrite bool_decide_eq_false_2 by done.
    revert E. unfold rt_ipc_list_resume. krun.
    destruct (tl_first (QSuspend c) s0) as [v s2|]; [|done].
    destruct (rt_thread_resume v s2) as [r s3|]; [|done]. intros [= <-]. exact E2.
  - destruct Hw2. by split.
Qed.

Lemma wait_return s c o t th : objs s !! c = Some (KCompletion o) → threads s !! t = Some th →
  rt_completion_wait_return (c, t) s =
    Ok (th_error th) (set_objs (<[c := KCompletion (mk_completion RT_UNCOMPLETED)]> (objs s)) s).
Proof.
  intros Ho Ht. unfold rt_completion_wait_return. krun. rewrite Ht. krun.
  rewrite (set_comp_flag_run (set_primask 1 s) c _ _ Ho). krun. by destruct s.
Qed.
End runs.

Section refinement.
Context {cfg : RTConfig}.

(** [rt_completion_wait] refines the abstract completion: it takes an event
    that has come; with no time to wait it fails and changes nothing; otherwise
    the thread waits, its timer runs for exactly the given time, and the
    highest ready thread runs. *)
Theorem completion_wait_refines (idle : Z) (s : kstate) (t c timeout flag : Z) (th : rt_thread)
    (ws : list Z) :
  kok idle s → caller idle s t th → comp_is s c flag ws →
  (flag = RT_COMPLETED ∨ flag = RT_UNCOMPLETED ∧ ws = []) → timeout < half →
  ∃ a r s' flag' ws', rt_completion_wait c timeout s = Ok r s' ∧
    comp_step (flag, ws) a (flag', ws') ∧ comp_is s' c flag' ws' ∧ kok idle s' ∧
    ((a = CompTake ∧ r = Returned RT_EOK) ∨
     (a = CompBusy ∧ r = Returned (- RT_ETIMEOUT) ∧ timeout = 0 ∧ s' = s) ∨
     (a = CompWait t ∧ r = Blocked (c, t) ∧ timeout ≠ 0 ∧
      waits idle (QSuspend c) t timeout ws' (th_set_error RT_EOK th) s s')).
Proof.
  intros Hk Hc Hi [-> | [-> ->]] Hti.
  - exists CompTake. do 4 eexists. split; [by apply wait_completed with ws|]. split; [constructor|].
    split; [by eapply comp_flag_set|]. split; [exact Hk|by left].
  - destruct (decide (timeout = 0)) as [->|Hz].
    + exists CompBusy. do 4 eexists. split; [by apply wait_no_time|]. split; [constructor|].
      split; [done|]. split; [exact Hk|by right; left].
    + destruct (wait_blocks idle s t th c timeout Hk Hc Hi Hz Hti) as (s' & E & Hw).
      exists (CompWait t). do 4 eexists. split; [exact E|]. split; [constructor|].
      split; [|split; [apply Hw|by do 2 right]].
      split; [|apply Hw]. rewrite (w_objs _ _ _ _ _ _ _ _ Hw). apply Hi.
Qed.

(** [rt_completion_done] refines the abstract completion: a second event
    changes nothing, an event without a waiting thread is noted, and a waiting
    thread becomes ready. *)
Theorem completion_done_refines (idle : Z) (s : kstate) (c flag : Z) (ws : list Z) :
  kok idle s → comp_is s c flag ws →
  (flag = RT_COMPLETED ∨ flag = RT_UNCOMPLETED ∧ (length ws ≤ 1)%nat) →
  ∃ a s' flag' ws', rt_completion_done c s = Ok tt s' ∧
    comp_step (flag, ws) a (flag', ws') ∧ comp_is s' c flag' ws' ∧ kok idle s' ∧
    ((a = CompAgain ∧ s' = s) ∨ (a = CompNote ∧ threads s' = threads s) ∨
     ∃ u th, a = CompWake u ∧ threads s !! u = Some th ∧
       threads s' !! u = Some (th_set_stat RT_THREAD_READY th) ∧ highest_runs s').
Proof.
  intros Hk Hi [-> | [-> Hl]].
  - exists CompAgain. do 3 eexists. split; [by eapply done_again|]. split; [constructor|].
    split; [done|]. split; [exact Hk|by left].
  - destruct ws as [|u [|v ws]]; [| |simpl in Hl; lia].
    + exists CompNote. do 3 eexists. split; [by apply done_notes|]. split; [constructor|].
      split; [by eapply comp_flag_set|]. split; [exact Hk|by right; left].
    + destruct (done_wakes idle s c u Hk Hi) as (th & s1 & s' & -> & E & Hw & Hh).
      exists (CompWake u). do 3 eexists. split; [exact E|]. split; [constructor|].
      split; [split; [rewrite (k_objs _ _ _ _ _ _ _ Hw); apply lookup_insert_eq|apply Hw]|].
      split; [apply Hw|]. do 2 right. exists u, th. split_and!; [done|apply Hw|apply Hw|exact Hh].
Qed.

(** C35: An event reaches the thread that waits for it, in either order: a thread
    that waits first is suspended, made ready by the event, and its call
    returns [RT_EOK]; a thread that comes later returns at once.  Afterwards
    the completion is as it was, and the invariant of the kernel holds. *)
Theorem completion_handshake (idle : Z) (s : kstate) (t c timeout : Z) (th : rt_thread) :
  kok idle s → caller idle s t th → comp_is s c RT_UNCOMPLETED [] →
  timeout ≠ 0 → timeout < half →
  (∃ s1 s2 s3, rt_completion_wait c timeout s = Ok (Blocked (c, t)) s1 ∧
     threads s1 !! t = Some (th_set_stat RT_THREAD_SUSPEND (th_set_error RT_EOK th)) ∧
     rt_completion_done c s1 = Ok tt s2 ∧
     threads s2 !! t = Some (th_set_stat RT_THREAD_READY (th_set_error RT_EOK th)) ∧
     highest_runs s2 ∧ rt_completion_wait_return (c, t) s2 = Ok RT_EOK s3 ∧
     comp_is s3 c RT_UNCOMPLETED [] ∧ kok idle s3) ∧
  (∃ s1 s2, rt_completion_done c s = Ok tt s1 ∧
     rt_completion_wait c timeout s1 = Ok (Returned RT_EOK) s2 ∧
     comp_is s2 c RT_UNCOMPLETED [] ∧ threads s2 = threads s ∧ kok idle s2).
Proof.
  intros Hk Hc Hi Hz Hti. split.
  - destruct (wait_blocks idle s t th c timeout Hk Hc Hi Hz Hti) as (s1 & E1 & Hw).
    assert (comp_is s1 c RT_UNCOMPLETED [t]) as Hi1.
    { split; [|apply Hw]. rewrite (w_objs _ _ _ _ _ _ _ _ Hw). apply Hi. }
    destruct (done_wakes idle s1 c t (w_ok _ _ _ _ _ _ _ _ Hw) Hi1) as (th1 & ? & s2 & -> & E2 & Hk2 & Hh).
    pose proof (k_was _ _ _ _ _ _ _ Hk2) as [Ht1 _]. cbn in Ht1.
    rewrite (w_thread _ _ _ _ _ _ _ _ Hw) in Ht1. injection Ht1 as <-.
    assert (objs s2 !! c = Some (KCompletion (mk_completion RT_COMPLETED))) as Ho.
    { rewrite (k_objs _ _ _ _ _ _ _ Hk2). apply lookup_insert_eq. }
    exists s1, s2. eexists. split; [exact E1|]. split; [apply Hw|]. split; [exact E2|].
    split; [apply Hk2|]. split; [exact Hh|].
    split; [exact (wait_return s2 c _ t _ Ho (k_thread _ _ _ _ _ _ _ Hk2))|].
    split; [|apply Hk2]. split; [apply lookup_insert_eq|apply Hk2].
  - pose proof (comp_flag_set s c RT_UNCOMPLETED RT_COMPLETED [] Hi) as Hi1.
    do 2 eexists. split; [by apply done_notes|]. split; [by apply wait_completed with []|].
    split; [by eapply comp_flag_set|]. split; [done|exact Hk].
Qed.
End refinement.

(** ** Examples *)
Definition demo_completion (flag : Z) : kobj := KCompletion (mk_completion flag).

Lemma completion_handshake_witness :
  ∃ s1 s2 s3, rt_completion_wait (cfg := gd32_config) 300 50
      (demo [(QSuspend 300, [])] [(300, demo_completion 0)]) = Ok (Blocked (300, 2)) s1 ∧
    rt_completion_done 300 s1 = Ok tt s2 ∧ rt_completion_wait_return (300, 2) s2 = Ok RT_EOK s3.
Proof.
  destruct (completion_handshake (cfg := gd32_config) 1 (demo [(QSuspend 300, [])] [(300, demo_completion 0)]) 2 300 50
    (demo_thread 2 RT_THREAD_READY 10)) as [(s1 & s2 & s3 & E1 & _ & E2 & _ & _ & E3 & _) _].
  - apply kinv_check_spec. vm_compute. reflexivity.
  - by split.
  - by split.
  - done.
  - done.
  - by exists s1, s2, s3.
Defined.

(** The event that comes between the end of the waiting time and the return of
    the call is lost: the call fails, and the flag is cleared. *)
Example late_event :
  let s := demo [(QSuspend 300, [])] [(300, demo_completion 1)] in
  let s := set_threads (alter (th_set_error (- RT_ETIMEOUT)) 2 (threads s)) s in
  wp (rt_completion_wait_return (300, 2))
    (λ r s', r = - RT_ETIMEOUT ∧ objs s' !! 300 = Some (demo_completion 0)) s.
Proof. vm_compute. by split. Qed.

(** A second thread may not wait, but the project has the assertion compiled
    out: it waits behind the first, and an event will wake only that one. *)
Example second_waiter :
  wp (rt_completion_wait (cfg := gd32_config) 300 50)
    (λ r s', r = Blocked (300, 2) ∧ tlists s' !! QSuspend 300 = Some [3; 2])
    (demo [(QSuspend 300, [3])] [(300, demo_completion 0)]).
Proof. vm_compute. by split. Qed.
