(* ===== verification/Heap.v ===== *)
(** * Correctness of the small memory heap

    The chain of headers of [Mem] represents a list of blocks that tile the
    heap.  The file states that representation, the invariant of the heap, and
    what [rt_malloc], [rt_free] and [rt_realloc] do to the list of blocks. *)

From S2P Require Import Prelude RtDef Mem.
Import Mem.

(** ** Blocks

    A block is in use or free, and has a length that includes its header.  A
    list of blocks is laid out from offset 0 without gaps. *)
Abbreviation block := (bool * Z)%type (only parsing).

Fixpoint total (bs : list block) : Z :=
  match bs with [] => 0 | (_, n) :: bs => n + total bs end.

(** The header of a block at [off], with the block before it at [prev]. *)
Definition header (u : bool) (off n prev : Z) : heap_mem :=
  mk_hm HEAP_MAGIC (if u then 1 else 0) (off + n) prev.

Fixpoint seg (hd : gmap Z heap_mem) (prev off : Z) (bs : list block) : Prop :=
  match bs with
  | [] => True
  | (u, n) :: bs => hd !! off = Some (header u off n prev) ∧ seg hd off (off + n) bs
  end.

(** Where the last block of [bs] starts. *)
Fixpoint last_off (prev off : Z) (bs : list block) : Z :=
  match bs with [] => prev | (_, n) :: bs => last_off off (off + n) bs end.

(** The sentinel [heap_end]. *)
Definition sentinel (hd : gmap Z heap_mem) (e : Z) : Prop :=
  ∃ p, hd !! e = Some (mk_hm HEAP_MAGIC 1 e p).

Record rep (hd : gmap Z heap_mem) (e : Z) (bs : list block) : Prop := {
  rep_seg : seg hd 0 0 bs;
  rep_total : total bs = e;
  rep_end : sentinel hd e;
  rep_len : Forall (λ b, SIZEOF_STRUCT_MEM < b.2 ∧ b.2 mod 8 = 0) bs
}.

Lemma total_app bs bs' : total (bs ++ bs') = total bs + total bs'.
Proof. induction bs as [|[u n] bs IH]; simpl; lia. Qed.

Lemma seg_app hd p off bs bs' :
  seg hd p off (bs ++ bs') ↔
  seg hd p off bs ∧ seg hd (last_off p off bs) (off + total bs) bs'.
Proof.
  revert p off. induction bs as [|[u n] bs IH]; intros p off; simpl.
  - rewrite Z.add_0_r. tauto.
  - rewrite IH, Z.add_assoc. tauto.
Qed.

Lemma last_off_snoc p off bs u n : last_off p off (bs ++ [(u, n)]) = off + total bs.
Proof.
  revert p off. induction bs as [|[v m] bs IH]; intros p off; simpl; [lia|].
  rewrite IH. lia.
Qed.

Definition long (bs : list block) : Prop := Forall (λ b, SIZEOF_STRUCT_MEM ≤ b.2) bs.

Lemma total_nonneg bs : long bs → 0 ≤ total bs.
Proof.
  induction 1 as [|[u n] bs H _ IH]; simpl in *; [lia|].
  change SIZEOF_STRUCT_MEM with 16 in *. lia.
Qed.

Lemma rep_long hd e bs : rep hd e bs → long bs.
Proof. intros [_ _ _ H]. eapply Forall_impl; [exact H|]. intros ? []. lia. Qed.

(** A segment only depends on the headers it covers. *)
Lemma seg_frame hd hd' p off bs :
  long bs → (∀ k, off ≤ k < off + total bs → hd' !! k = hd !! k) →
  seg hd p off bs → seg hd' p off bs.
Proof.
  intros Hl. revert p off. induction Hl as [|[u n] bs Hn Hl IH]; intros p off; simpl in *; [done|].
  change SIZEOF_STRUCT_MEM with 16 in *. pose proof (total_nonneg bs Hl).
  intros Heq [H1 H2]. split; [by rewrite Heq by lia|].
  apply IH; [|done]. intros k Hk. apply Heq. lia.
Qed.

Lemma rep_at hd e pre u n post :
  rep hd e (pre ++ (u, n) :: post) →
  hd !! total pre = Some (header u (total pre) n (last_off 0 0 pre)).
Proof. intros H. apply rep_seg in H. apply seg_app in H as [_ [H _]]. exact H. Qed.

Lemma rep_bounds hd e pre u n post :
  rep hd e (pre ++ (u, n) :: post) →
  0 ≤ total pre ∧ 16 < n ∧ n mod 8 = 0 ∧ 0 ≤ total post ∧ total pre + n + total post = e.
Proof.
  intros H. pose proof (rep_long _ _ _ H) as Hl. apply Forall_app in Hl as [Hl1 Hl2].
  inversion_clear Hl2. pose proof (total_nonneg pre Hl1). pose proof (total_nonneg post H1).
  pose proof (rep_total _ _ _ H) as Ht. rewrite total_app in Ht. simpl in Ht.
  pose proof (rep_len _ _ _ H) as Hm. apply Forall_app in Hm as [_ Hm].
  inversion_clear Hm. destruct H4. simpl in *. change SIZEOF_STRUCT_MEM with 16 in *. lia.
Qed.

(** What follows the blocks [pre]: a header, which is that of the next block
    or the sentinel. *)
Lemma rep_next hd e pre post :
  rep hd e (pre ++ post) →
  ∃ m, hd !! total pre = Some m ∧ hm_magic m = HEAP_MAGIC ∧
    match post with
    | [] => hm_used m = 1 ∧ hm_next m = total pre ∧ total pre = e
    | (u, n) :: _ => m = header u (total pre) n (last_off 0 0 pre)
    end.
Proof.
  intros H. destruct post as [|[u n] post].
  - destruct (rep_end _ _ _ H) as [p Hp]. pose proof (rep_total _ _ _ H) as Ht.
    rewrite app_nil_r in Ht. subst e. eexists. split; [exact Hp|done].
  - eexists. split; [by eapply rep_at|done].
Qed.

Definition with_prev (p : Z) (m : heap_mem) : heap_mem :=
  mk_hm (hm_magic m) (hm_used m) (hm_next m) p.

(** Replacing blocks by others of the same total length: the headers inside may
    change, and the next header gets a new [prev]. *)
Lemma rep_replace hd hd' e pre old mid post :
  rep hd e (pre ++ old ++ post) → 0 < total old →
  total mid = total old → Forall (λ b, SIZEOF_STRUCT_MEM < b.2 ∧ b.2 mod 8 = 0) mid →
  seg hd' (last_off 0 0 pre) (total pre) mid →
  (∀ k, k < total pre ∨ total pre + total old < k → hd' !! k = hd !! k) →
  (∀ m, hd !! (total pre + total old) = Some m →
     hd' !! (total pre + total old) =
       Some (with_prev (last_off (last_off 0 0 pre) (total pre) mid) m) ∨
     post = [] ∧ hd' !! (total pre + total old) = Some m) →
  rep hd' e (pre ++ mid ++ post).
Proof.
  intros H Hpos Hm Hlen Hs Hf Hn.
  pose proof (rep_long _ _ _ H) as Hl. unfold long in Hl. rewrite !Forall_app in Hl. destruct Hl as (Hl1 & _ & Hl3).
  pose proof (rep_total _ _ _ H) as Ht. rewrite !total_app in Ht.
  pose proof (rep_seg _ _ _ H) as Hseg. rewrite !seg_app in Hseg. destruct Hseg as (Hs1 & _ & Hs2).
  rewrite !Z.add_0_l in Hs2.
  destruct (rep_next hd e (pre ++ old) post) as (m & Hm1 & _ & Hm2).
  { by rewrite <- app_assoc. }
  rewrite total_app in Hm1. specialize (Hn m Hm1). split.
  - rewrite !seg_app, Z.add_0_l, Hm. split_and!; [|done|].
    + eapply seg_frame; [done| |exact Hs1]. intros k Hk. apply Hf. lia.
    + destruct post as [|[v k] post]; [done|]. destruct Hs2 as [Ha Hs2].
      inversion_clear Hl3 as [|? ? Hk Hl4]. change SIZEOF_STRUCT_MEM with 16 in *. simpl in Hk.
      destruct Hn as [Hn|[? _]]; [|done]. split.
      * rewrite Hn. rewrite Ha in Hm1. by injection Hm1 as <-.
      * eapply seg_frame; [done| |exact Hs2]. intros k' Hk'. apply Hf. lia.
  - rewrite !total_app, Hm. lia.
  - destruct (rep_end _ _ _ H) as [q Hq]. destruct post as [|[v k] post].
    + simpl in Ht. replace e with (total pre + total old) in * by lia.
      rewrite Hm1 in Hq. simplify_eq. destruct Hn as [Hn|[_ Hn]]; by eexists.
    + exists q. rewrite Hf; [done|].
      inversion_clear Hl3 as [|? ? Hk Hl4]. change SIZEOF_STRUCT_MEM with 16 in *. simpl in Hk, Ht.
      pose proof (total_nonneg post Hl4). lia.
  - pose proof (rep_len _ _ _ H) as Hlen'. rewrite !Forall_app in Hlen' |- *. naive_solver.
Qed.

(** ** The abstract heap

    What the operations do to the list of blocks. *)

(** A free block is cut when the rest can hold a block of its own. *)
Definition carve (size n : Z) : list block :=
  if size + SIZEOF_STRUCT_MEM + MIN_SIZE_ALIGNED <=? n - SIZEOF_STRUCT_MEM
  then [(true, size + SIZEOF_STRUCT_MEM); (false, n - (size + SIZEOF_STRUCT_MEM))]
  else [(true, n)].

(** A free block of length [n] at [off] serves a request of [size] bytes.  The
    search stops before [e - SIZEOF_STRUCT_MEM - size]. *)
Definition fits (e size off n : Z) : bool :=
  (size + SIZEOF_STRUCT_MEM <=? n) && (off + SIZEOF_STRUCT_MEM + size <? e).

(** First fit from [lf] on: the offset of the block and the new blocks. *)
Fixpoint alloc (e lf size off : Z) (bs : list block) : option (Z * list block) :=
  match bs with
  | [] => None
  | (u, n) :: bs =>
    if negb u && (lf <=? off) && fits e size off n then Some (off, carve size n ++ bs)
    else match alloc e lf size (off + n) bs with
         | Some (p, bs') => Some (p, (u, n) :: bs')
         | None => None
         end
  end.

(** Adjacent free blocks are merged. *)
Fixpoint coalesce (bs : list block) : list block :=
  match bs with
  | [] => []
  | (true, n) :: bs => (true, n) :: coalesce bs
  | (false, n) :: bs =>
    match coalesce bs with
    | (false, m) :: bs' => (false, n + m) :: bs'
    | bs' => (false, n) :: bs'
    end
  end.

(** The block at [p] is freed. *)
Fixpoint release (p off : Z) (bs : list block) : list block :=
  match bs with
  | [] => []
  | (u, n) :: bs => if off =? p then (false, n) :: bs else (u, n) :: release p (off + n) bs
  end.

Fixpoint first_free (off : Z) (bs : list block) : Z :=
  match bs with
  | [] => off
  | (u, n) :: bs => if u then first_free (off + n) bs else off
  end.

Fixpoint used_total (bs : list block) : Z :=
  match bs with
  | [] => 0
  | (u, n) :: bs => (if u then n else 0) + used_total bs
  end.

(** No two free blocks are adjacent. *)
Fixpoint coalesced (bs : list block) : Prop :=
  match bs with
  | (false, _) :: ((false, _) :: _) => False
  | _ :: bs => coalesced bs
  | [] => True
  end.

(** [p] is where a free block starts, or the end of the heap. *)
Fixpoint free_start (p off : Z) (bs : list block) : Prop :=
  match bs with
  | [] => p = off
  | (u, n) :: bs => (u = false ∧ p = off) ∨ free_start p (off + n) bs
  end.

Definition starts_used (bs : list block) : Prop :=
  match bs with (false, _) :: _ => False | _ => True end.
Definition ends_used (bs : list block) : Prop := starts_used (reverse bs).

#[export] Instance starts_used_dec bs : Decision (starts_used bs).
Proof. destruct bs as [|[[] ?] ?]; simpl; apply _. Defined.
#[export] Instance ends_used_dec bs : Decision (ends_used bs).
Proof. unfold ends_used. apply _. Defined.

Lemma coalesced_cons u n bs :
  coalesced ((u, n) :: bs) ↔ (u = false → starts_used bs) ∧ coalesced bs.
Proof. destruct u, bs as [|[[] m] bs]; simpl; naive_solver. Qed.

Lemma ends_used_cons u n b bs : ends_used ((u, n) :: b :: bs) ↔ ends_used (b :: bs).
Proof.
  unfold ends_used. rewrite !reverse_cons, <- app_assoc. simpl.
  destruct (reverse bs) as [|[[] ?] ?], b as [[] ?]; done.
Qed.

Lemma coalesced_app bs bs' :
  coalesced (bs ++ bs') ↔ coalesced bs ∧ coalesced bs' ∧ (ends_used bs ∨ starts_used bs').
Proof.
  induction bs as [|[u n] bs IH]; [by unfold ends_used; simpl; naive_solver|].
  change (((u, n) :: bs) ++ bs') with ((u, n) :: (bs ++ bs')).
  rewrite !coalesced_cons, IH. destruct bs as [|[v m] bs].
  - unfold ends_used. simpl. destruct u; simpl; naive_solver.
  - rewrite ends_used_cons. destruct v; simpl; naive_solver.
Qed.

Lemma coalesce_id bs : coalesced bs → coalesce bs = bs.
Proof.
  induction bs as [|[u n] bs IH]; [done|]. rewrite coalesced_cons. intros [H1 H2].
  simpl. rewrite (IH H2). destruct u; [done|]. destruct bs as [|[[] m] bs]; [done..|].
  by destruct H1.
Qed.

Lemma coalesce_app bs bs' :
  coalesced bs → ends_used bs → coalesce (bs ++ bs') = bs ++ coalesce bs'.
Proof.
  induction bs as [|[u n] bs IH]; [done|]. rewrite coalesced_cons. intros [H1 H2] He.
  destruct bs as [|[v m] bs].
  - destruct u; [done|]. destruct He.
  - apply ends_used_cons in He. specialize (IH H2 He).
    change (((u, n) :: (v, m) :: bs) ++ bs') with ((u, n) :: (((v, m) :: bs) ++ bs')).
    simpl coalesce. simpl in IH. rewrite IH. destruct u; [done|]. simpl in H1.
    destruct v; [done|by destruct H1].
Qed.

(** Freeing merges with the block behind and with the block before. *)
Definition merge_next (n : Z) (post : list block) : list block :=
  match post with
  | (false, m) :: post => (false, n + m) :: post
  | _ => (false, n) :: post
  end.

Lemma coalesce_merge n post : coalesced post → coalesce ((false, n) :: post) = merge_next n post.
Proof.
  intros H. simpl. rewrite (coalesce_id _ H). by destruct post as [|[[] ?] ?].
Qed.

Lemma coalesce_merge_prev m n post :
  coalesced post → coalesce ((false, m) :: (false, n) :: post) =
    match merge_next n post with (_, k) :: post' => (false, m + k) :: post' | [] => [] end.
Proof.
  intros H. pose proof (coalesce_merge n post H) as Hm.
  change (coalesce ((false, m) :: (false, n) :: post)) with
    (match coalesce ((false, n) :: post) with
     | (false, m') :: bs' => (false, m + m') :: bs'
     | bs' => (false, m) :: bs' end).
  rewrite Hm. by destruct post as [|[[] ?] ?].
Qed.

Lemma coalesce_coalesced bs : coalesced (coalesce bs).
Proof.
  induction bs as [|[u n] bs IH]; [done|]. simpl. destruct u.
  - by destruct (coalesce bs).
  - destruct (coalesce bs) as [|[[] m] bs']; [done..|].
    apply coalesced_cons in IH as [? ?]. by apply coalesced_cons.
Qed.

Lemma coalesce_app_r bs bs' : coalesce (bs ++ coalesce bs') = coalesce (bs ++ bs').
Proof.
  induction bs as [|[u n] bs IH]; simpl; [apply coalesce_id, coalesce_coalesced|].
  by rewrite IH.
Qed.

Lemma coalesce_total bs : total (coalesce bs) = total bs.
Proof.
  induction bs as [|[u n] bs IH]; [done|]. simpl. rewrite <- IH.
  destruct u; [done|]. destruct (coalesce bs) as [|[[] m] bs']; simpl; lia.
Qed.

Lemma coalesce_used bs : used_total (coalesce bs) = used_total bs.
Proof.
  induction bs as [|[u n] bs IH]; [done|]. simpl. rewrite <- IH.
  destruct u; [done|]. destruct (coalesce bs) as [|[[] m] bs']; simpl; lia.
Qed.

Lemma coalesce_first_free off bs : first_free off (coalesce bs) = first_free off bs.
Proof.
  revert off. induction bs as [|[u n] bs IH]; intros off; [done|]. simpl. destruct u; [apply IH|].
  by destruct (coalesce bs) as [|[[] m] bs'].
Qed.

Lemma first_free_start off bs : free_start (first_free off bs) off bs.
Proof.
  revert off. induction bs as [|[u n] bs IH]; intros off; simpl; [done|].
  destruct u; [right; apply IH|by left].
Qed.

Lemma free_start_app p off bs bs' :
  long bs → bs' ≠ [] →
  free_start p off (bs ++ bs') ↔
  (free_start p off bs ∧ p < off + total bs) ∨ free_start p (off + total bs) bs'.
Proof.
  intros Hl Hne. revert off. induction Hl as [|[u n] bs Hn Hl IH]; intros off; simpl in *.
  - rewrite Z.add_0_r. naive_solver lia.
  - rewrite IH, Z.add_assoc. change SIZEOF_STRUCT_MEM with 16 in *.
    pose proof (total_nonneg bs Hl). naive_solver lia.
Qed.

Lemma free_start_ge p off bs : long bs → free_start p off bs → off ≤ p.
Proof.
  intros Hl. revert off. induction Hl as [|[u n] bs Hn Hl IH]; intros off; simpl in *; [lia|].
  change SIZEOF_STRUCT_MEM with 16 in *. intros [[_ ->]|H]; [lia|]. apply IH in H. lia.
Qed.

(** ** The invariant of the heap *)

(** What does not change after [rt_system_heap_init]: an aligned heap of at
    least [MIN_SIZE_ALIGNED] bytes that does not wrap around the address
    space. *)
Record heap_static (h : heap_state) : Prop := {
  hs_end : heap_end h = mem_size_aligned h + SIZEOF_STRUCT_MEM;
  hs_min : MIN_SIZE_ALIGNED ≤ mem_size_aligned h;
  hs_size : mem_size_aligned h mod 8 = 0;
  hs_ptr : heap_ptr h mod 8 = 0;
  hs_pos : 0 < heap_ptr h;
  hs_top : heap_ptr h + heap_end h + SIZEOF_STRUCT_MEM ≤ 2 ^ 32
}.

(** The heap [h] consists of the blocks [bs]. *)
Record heap_is (h : heap_state) (bs : list block) : Prop := {
  hi_static : heap_static h;
  hi_rep : rep (hdrs h) (heap_end h) bs;
  hi_coalesced : coalesced bs;
  hi_lfree : free_start (lfree h) 0 bs;
  hi_used : used_mem h = used_total bs;
  hi_max : used_total bs ≤ max_mem h;
  hi_sem : heap_sem h = 1
}.

(** [lfree] is the lowest free block. *)
Definition lfree_lowest (h : heap_state) (bs : list block) : Prop :=
  lfree h = first_free 0 bs.

Lemma used_total_app bs bs' : used_total (bs ++ bs') = used_total bs + used_total bs'.
Proof. induction bs as [|[u n] bs IH]; simpl; [done|]. rewrite IH. lia. Qed.

Lemma used_total_range bs : long bs → 0 ≤ used_total bs ≤ total bs.
Proof.
  induction 1 as [|[u n] bs H _ IH]; simpl in *; [lia|].
  change SIZEOF_STRUCT_MEM with 16 in *. destruct u; lia.
Qed.

Lemma rep_end_range h bs :
  heap_static h → rep (hdrs h) (heap_end h) bs → 16 < heap_end h < 2 ^ 32 - 16.
Proof.
  intros [He Hm _ _ Hp Ht] _. change SIZEOF_STRUCT_MEM with 16 in *.
  change MIN_SIZE_ALIGNED with 16 in *. lia.
Qed.

(** Every block has its own header, so the fuel of the loops covers the
    blocks. *)
Lemma seg_size hd p off bs :
  long bs → seg hd p off bs → ∃ ks, NoDup ks ∧ length ks = length bs ∧
    ∀ k, k ∈ ks → off ≤ k < off + total bs ∧ is_Some (hd !! k).
Proof.
  intros Hl. revert p off. induction Hl as [|[u n] bs Hn Hl IH]; intros p off; simpl in *.
  - intros _. exists []. split_and!; [constructor|done|set_solver].
  - change SIZEOF_STRUCT_MEM with 16 in *. intros [H1 H2].
    destruct (IH _ _ H2) as (ks & Hnd & Hlen & Hks). pose proof (total_nonneg bs Hl).
    exists (off :: ks). split_and!; [|simpl; congruence|].
    + constructor; [|done]. intros Hin. apply Hks in Hin. lia.
    + intros k [->|Hin]%elem_of_cons; [split; [lia|by eexists]|].
      destruct (Hks _ Hin). split; [lia|done].
Qed.

Lemma rep_size hd e bs : rep hd e bs → (length bs < size hd)%nat.
Proof.
  intros H. destruct (seg_size hd 0 0 bs (rep_long _ _ _ H) (rep_seg _ _ _ H)) as (ks & Hn & Hl & Hk).
  destruct (rep_end _ _ _ H) as [p Hp]. pose proof (rep_total _ _ _ H) as Ht.
  assert (list_to_set (e :: ks) ⊆ dom hd) as Hs.
  { intros k [->|Hin]%elem_of_list_to_set%elem_of_cons; apply elem_of_dom; [by eexists|].
    by apply Hk. }
  apply subseteq_size in Hs. rewrite size_list_to_set, size_dom in Hs.
  - simpl in Hs. rewrite Hl in Hs. lia.
  - constructor; [|done]. intros Hin. apply Hk in Hin. lia.
Qed.

(** ** The operations on headers *)
Definition set_log (v : list heap_call) (h : heap_state) : heap_state :=
  mk_heap (heap_ptr h) (heap_end h) (lfree h) (mem_size_aligned h) (used_mem h) (max_mem h)
    (heap_sem h) (hdrs h) (bytes h) (rt_malloc_hook h) (rt_free_hook h) v.

Ltac hs := cbn [heap_ptr heap_end lfree mem_size_aligned used_mem max_mem heap_sem hdrs bytes
  rt_malloc_hook rt_free_hook hook_log set_lfree set_hdrs set_used_mem set_max_mem set_heap_sem
  set_bytes log_call set_log].
Ltac hrun :=
  unfold get_hdr, put_hdr, RT_ASSERT, heap_sem_take, heap_sem_release, count_used,
    bind, ret, fail, gets, modify, from_option; hs; cbn beta iota.

Section ops.
Context {cfg : RTConfig}.

Lemma set_next_run off v m h :
  hdrs h !! off = Some m →
  set_next off v h =
    Ok tt (set_hdrs (<[off := mk_hm (hm_magic m) (hm_used m) v (hm_prev m)]> (hdrs h)) h).
Proof. intros H. unfold set_next. hrun. by rewrite H. Qed.

Lemma set_prev_run off v m h :
  hdrs h !! off = Some m → set_prev off v h = Ok tt (set_hdrs (<[off := with_prev v m]> (hdrs h)) h).
Proof. intros H. unfold set_prev. hrun. by rewrite H. Qed.

Lemma set_used_run off v m h :
  hdrs h !! off = Some m →
  set_used off v h =
    Ok tt (set_hdrs (<[off := mk_hm (hm_magic m) v (hm_next m) (hm_prev m)]> (hdrs h)) h).
Proof. intros H. unfold set_used. hrun. by rewrite H. Qed.

Lemma set_magic_run off v m h :
  hdrs h !! off = Some m →
  set_magic off v h =
    Ok tt (set_hdrs (<[off := mk_hm v (hm_used m) (hm_next m) (hm_prev m)]> (hdrs h)) h).
Proof. intros H. unfold set_magic. hrun. by rewrite H. Qed.

Lemma sem_take_bind {B} (k : unit → HM B) h :
  heap_sem h = 1 → bind heap_sem_take k h = k tt (set_heap_sem 0 h).
Proof. intros H. unfold heap_sem_take. hrun. by rewrite H. Qed.

Lemma sem_release_bind {B} (k : unit → HM B) h :
  heap_sem h = 0 → bind heap_sem_release k h = k tt (set_heap_sem 1 h).
Proof. intros H. unfold heap_sem_release. hrun. by rewrite H. Qed.

Lemma sem_release_run h : heap_sem h = 0 → heap_sem_release h = Ok tt (set_heap_sem 1 h).
Proof. intros H. unfold heap_sem_release. hrun. by rewrite H. Qed.

(** [RT_ASSERT] of a condition that holds. *)
Lemma assert_run (b : bool) (h : heap_state) : b = true → RT_ASSERT b h = Ok tt h.
Proof. intros ->. unfold RT_ASSERT. by rewrite andb_false_r. Qed.

Lemma assert_bind {A} (b : bool) (k : HM A) (h : heap_state) :
  b = true → (RT_ASSERT b ;;; k) h = k h.
Proof. intros H. by rewrite (bind_ok _ _ _ _ _ (assert_run b h H)). Qed.

Lemma get_hdr_run off m h : hdrs h !! off = Some m → get_hdr off h = Ok m h.
Proof. intros H. hrun. by rewrite H. Qed.

(** [plug_holes] merges the free block at [total pre] forward. *)
Definition plug_forward (mem : Z) (m n : heap_mem) (hend : Z) : HM unit :=
  let nmem := hm_next m in
  if negb (mem =? nmem) && (hm_used n =? 0) && negb (nmem =? hend) then
    let! lf := read lfree in
    (when lf =? nmem then modify (set_lfree mem)) ;;;
    set_next mem (hm_next n) ;;;
    set_prev (hm_next n) mem
  else ret tt.

Definition plug_backward (mem : Z) (m p : heap_mem) : HM unit :=
  let pmem := hm_prev m in
  if negb (pmem =? mem) && (hm_used p =? 0) then
    let! lf := read lfree in
    (when lf =? mem then modify (set_lfree pmem)) ;;;
    set_next pmem (hm_next m) ;;;
    set_prev (hm_next m) pmem
  else ret tt.

Lemma plug_holes_eq mem :
  plug_holes mem =
    (let! hend := read heap_end in
     let! m := get_hdr mem in
     RT_ASSERT (0 <=? mem) ;;;
     RT_ASSERT (mem <? hend) ;;;
     RT_ASSERT (hm_used m =? 0) ;;;
     let! n := get_hdr (hm_next m) in
     plug_forward mem m n hend ;;;
     let! m := get_hdr mem in
     let! p := get_hdr (hm_prev m) in
     plug_backward mem m p).
Proof. reflexivity. Qed.

(** Merging two adjacent free blocks: the first header takes over the second
    one's [next], and the header behind points back to the first. *)
Lemma merge_run h pre n m post :
  rep (hdrs h) (heap_end h) (pre ++ (false, n) :: (false, m) :: post) →
  ∃ hd', (set_next (total pre) (total pre + n + m) ;;;
          set_prev (total pre + n + m) (total pre)) h = Ok tt (set_hdrs hd' h) ∧
    rep hd' (heap_end h) (pre ++ (false, n + m) :: post) ∧
    hd' !! total pre = Some (header false (total pre) (n + m) (last_off 0 0 pre)).
Proof.
  intros H. pose proof (rep_at _ _ _ _ _ _ H) as Hp.
  pose proof (rep_bounds _ _ _ _ _ _ H) as (Hb1 & Hb2 & Hb2' & _).
  pose proof H as H'. rewrite cons_middle, app_assoc in H'.
  pose proof (rep_bounds _ _ _ _ _ _ H') as (Hb3 & Hb4 & Hb4' & _).
  change (pre ++ (false, n) :: (false, m) :: post) with
    (pre ++ [(false, n); (false, m)] ++ post) in H.
  destruct (rep_next (hdrs h) (heap_end h) (pre ++ [(false, n); (false, m)]) post)
    as (q & Hq & _); [by rewrite <- app_assoc|].
  rewrite total_app in Hq. simpl in Hq. rewrite Z.add_0_r, Z.add_assoc in Hq.
  eexists. split_and!.
  - erewrite bind_ok by by apply set_next_run. rewrite (set_prev_run _ _ q); [reflexivity|].
    hs. rewrite lookup_insert_ne by lia. done.
  - change (pre ++ (false, n + m) :: post) with (pre ++ [(false, n + m)] ++ post).
    eapply (rep_replace _ _ _ _ [(false, n); (false, m)]); [exact H|simpl; lia..| | | |].
    + repeat constructor; simpl; [change SIZEOF_STRUCT_MEM with 16; lia|].
      rewrite Z.add_mod, Hb2', Hb4' by lia. done.
    + simpl. split; [|done]. rewrite lookup_insert_ne, lookup_insert_eq by lia.
      unfold header. cbn. do 2 f_equal. lia.
    + simpl. intros k Hk. rewrite !lookup_insert_ne by lia. done.
    + simpl. rewrite Z.add_0_r, Z.add_assoc, Hq. intros ? [= <-]. left. apply lookup_insert_eq.
  - cbn. rewrite lookup_insert_ne, lookup_insert_eq by lia. unfold header. do 2 f_equal. lia.
Qed.

(** A step that only merges free blocks: it changes [lfree] and the headers. *)
Definition merged (bs bs' : list block) (h h' : heap_state) : Prop :=
  ∃ hd' lf', h' = set_lfree lf' (set_hdrs hd' h) ∧ rep hd' (heap_end h) bs' ∧
    free_start lf' 0 bs' ∧ (lfree h = first_free 0 bs → lf' = first_free 0 bs').

Lemma merged_refl h bs :
  rep (hdrs h) (heap_end h) bs → free_start (lfree h) 0 bs → merged bs bs h h.
Proof. intros H1 H2. by exists (hdrs h), (lfree h). Qed.

Lemma merged_trans bs1 bs2 bs3 h1 h2 h3 :
  merged bs1 bs2 h1 h2 → merged bs2 bs3 h2 h3 → merged bs1 bs3 h1 h3.
Proof.
  intros (hd & lf & -> & H1 & H2 & H3) (hd' & lf' & -> & H4 & H5 & H6).
  exists hd', lf'. split_and!; naive_solver.
Qed.

Lemma first_free_app off pre n post :
  long pre → first_free off (pre ++ (false, n) :: post) = 
    first_free off (pre ++ [(false, n)]) ∧ first_free off (pre ++ (false, n) :: post) ≤ off + total pre.
Proof.
  intros Hl. revert off. induction Hl as [|[u k] pre Hk Hl IH]; intros off; simpl in *; [lia|].
  change SIZEOF_STRUCT_MEM with 16 in *. pose proof (total_nonneg pre Hl).
  destruct u; [|lia]. destruct (IH (off + k)). split; [done|lia].
Qed.

Lemma first_free_swap off pre n m post post' :
  first_free off (pre ++ (false, n) :: post) = first_free off (pre ++ (false, m) :: post').
Proof. revert off. induction pre as [|[[] k] pre IH]; intros off; simpl; auto. Qed.

Lemma free_start_merge pre n m post lf :
  long pre → free_start lf 0 (pre ++ (false, n) :: (false, m) :: post) →
  free_start (if lf =? total pre + n then total pre else lf) 0 (pre ++ (false, n + m) :: post).
Proof.
  intros Hl. rewrite !free_start_app by done. simpl. rewrite Z.add_assoc.
  destruct (Z.eqb_spec lf (total pre + n)); naive_solver lia.
Qed.

Lemma merge_step h pre n m post :
  rep (hdrs h) (heap_end h) (pre ++ (false, n) :: (false, m) :: post) →
  free_start (lfree h) 0 (pre ++ (false, n) :: (false, m) :: post) →
  ∃ h', (let! lf := read lfree in
         (when lf =? total pre + n then modify (set_lfree (total pre))) ;;;
         set_next (total pre) (total pre + n + m) ;;;
         set_prev (total pre + n + m) (total pre)) h = Ok tt h' ∧
    merged (pre ++ (false, n) :: (false, m) :: post) (pre ++ (false, n + m) :: post) h h'.
Proof.
  intros H Hlf. pose proof (rep_bounds _ _ _ _ _ _ H) as (Hb1 & Hb2 & _).
  pose proof (rep_long _ _ _ H) as Hl. apply Forall_app in Hl as [Hl _].
  pose proof (free_start_merge _ _ _ _ _ Hl Hlf) as Hlf'.
  set (lf' := if lfree h =? total pre + n then total pre else lfree h) in *.
  destruct (merge_run (set_lfree lf' h) _ _ _ _ H) as (hd' & E & Hrep & Hp).
  exists (set_lfree lf' (set_hdrs hd' h)). split.
  - transitivity ((set_next (total pre) (total pre + n + m) ;;;
      set_prev (total pre + n + m) (total pre)) (set_lfree lf' h)); [|exact E].
    unfold lf'. unfold bind at 1. unfold gets. cbn beta iota.
    by destruct (lfree h =? total pre + n).
  - exists hd', lf'. split_and!; try done. intros Heq.
    rewrite (first_free_swap _ _ _ n _ ((false, m) :: post)), <- Heq.
    destruct (first_free_app 0 pre n ((false, m) :: post) Hl) as [_ Hle]. rewrite <- Heq in Hle.
    unfold lf'. destruct (Z.eqb_spec (lfree h) (total pre + n)); lia.
Qed.

Lemma plug_forward_run h pre n post m p :
  rep (hdrs h) (heap_end h) (pre ++ (false, n) :: post) →
  free_start (lfree h) 0 (pre ++ (false, n) :: post) →
  hdrs h !! (total pre + n) = Some m →
  ∃ h', plug_forward (total pre) (header false (total pre) n p) m (heap_end h) h = Ok tt h' ∧
    merged (pre ++ (false, n) :: post) (pre ++ merge_next n post) h h'.
Proof.
  intros H Hlf Hm. pose proof (rep_bounds _ _ _ _ _ _ H) as (Hb1 & Hb2 & _ & Hb3 & Hb4).
  unfold plug_forward. cbn [hm_next header].
  destruct (rep_next (hdrs h) (heap_end h) (pre ++ [(false, n)]) post) as (m' & Hm1 & _ & Hm2).
  { by rewrite <- app_assoc. }
  rewrite total_app in Hm1, Hm2. simpl in Hm1, Hm2. rewrite Z.add_0_r in Hm1, Hm2.
  rewrite Hm in Hm1. injection Hm1 as <-.
  rewrite (proj2 (Z.eqb_neq _ _)) by lia. cbn [negb andb].
  assert (∀ b, (b = true → False) → ∃ h', (if b then
    (let! lf := read lfree in
         (when lf =? total pre + n then modify (set_lfree (total pre))) ;;;
         set_next (total pre) (hm_next m) ;;;
         set_prev (hm_next m) (total pre)) else ret tt) h = Ok tt h' ∧
    merged (pre ++ (false, n) :: post) (pre ++ (false, n) :: post) h h') as Hno.
  { intros [] Hb; [by destruct Hb|]. exists h. split; [done|]. by apply merged_refl. }
  destruct post as [|[[] k] post].
  - apply Hno. destruct Hm2 as (-> & _). done.
  - apply Hno. by rewrite Hm2.
  - rewrite Hm2. cbn [header hm_used hm_next].
    pose proof H as H'. rewrite cons_middle, app_assoc in H'.
    apply rep_bounds in H' as (_ & ? & _ & ? & _). simpl in Hb4.
    rewrite (proj2 (Z.eqb_neq _ (heap_end h))) by lia. by apply merge_step.
Qed.

Lemma merge_next_cons n post :
  ∃ n' post', merge_next n post = (false, n') :: post' ∧
    (coalesced post → post' = [] ∨ starts_used post').
Proof.
  destruct post as [|[[] k] post]; unfold merge_next; eexists _, _; (split; [done|]).
  - by left.
  - by right.
  - rewrite coalesced_cons. naive_solver.
Qed.

Lemma plug_backward_run h pre n post p :
  rep (hdrs h) (heap_end h) (pre ++ (false, n) :: post) →
  free_start (lfree h) 0 (pre ++ (false, n) :: post) →
  coalesced pre → coalesced ((false, n) :: post) →
  hdrs h !! last_off 0 0 pre = Some p →
  ∃ h', plug_backward (total pre) (header false (total pre) n (last_off 0 0 pre)) p h = Ok tt h' ∧
    merged (pre ++ (false, n) :: post) (coalesce (pre ++ (false, n) :: post)) h h'.
Proof.
  intros H Hlf Hc1 Hc2 Hp. unfold plug_backward. cbn [hm_prev hm_next header].
  destruct (decide (ends_used pre)) as [He|He].
  - rewrite coalesce_id by (apply coalesced_app; tauto).
    exists h. split; [|by apply merged_refl].
    destruct pre as [|[u k] pre _] using rev_ind.
    { reflexivity. }
    rewrite last_off_snoc, Z.add_0_l in *. rewrite <- app_assoc in H.
    rewrite (rep_at _ _ _ _ _ _ H) in Hp. injection Hp as <-.
    unfold ends_used in He. rewrite reverse_snoc in He. destruct u; [|done].
    by rewrite andb_false_r.
  - destruct pre as [|[u k] pre _] using rev_ind; [by destruct He|].
    unfold ends_used in He. rewrite reverse_snoc in He. destruct u; [by destruct He|].
    rewrite last_off_snoc, Z.add_0_l in *. rewrite <- app_assoc in *. simpl app in *.
    apply coalesced_app in Hc1 as (Hc1 & _ & [Hu|[]]).
    rewrite coalesce_app, coalesce_merge_prev by (done || by apply coalesced_cons in Hc2 as []).
    pose proof (rep_bounds _ _ _ _ _ _ H) as (Hb1 & Hb2 & _).
    rewrite (rep_at _ _ _ _ _ _ H) in Hp. injection Hp as <-.
    rewrite total_app. simpl. rewrite Z.add_0_r.
    rewrite (proj2 (Z.eqb_neq _ _)) by lia. cbn [negb andb].
    assert (merge_next n post = (false, n) :: post) as ->.
    { destruct post as [|[[] ?] ?]; [done..|]. by apply coalesced_cons in Hc2 as [[] _]. }
    by apply merge_step.
Qed.

Lemma rep_last hd e pre b post :
  rep hd e (pre ++ b :: post) → is_Some (hd !! last_off 0 0 pre).
Proof.
  intros H. destruct pre as [|[u k] pre _] using rev_ind.
  - destruct b. eexists. exact (rep_at _ _ [] _ _ _ H).
  - rewrite last_off_snoc. rewrite <- app_assoc in H. eexists. by eapply rep_at.
Qed.

(** [plug_holes] merges a free block with its free neighbours. *)
Lemma plug_run h pre n post :
  rep (hdrs h) (heap_end h) (pre ++ (false, n) :: post) →
  free_start (lfree h) 0 (pre ++ (false, n) :: post) →
  coalesced pre → coalesced post →
  ∃ h', plug_holes (total pre) h = Ok tt h' ∧
    merged (pre ++ (false, n) :: post) (coalesce (pre ++ (false, n) :: post)) h h'.
Proof.
  intros H Hlf Hc1 Hc2. pose proof (rep_bounds _ _ _ _ _ _ H) as (Hb1 & Hb2 & _ & Hb3 & Hb4).
  destruct (rep_next (hdrs h) (heap_end h) (pre ++ [(false, n)]) post) as (m & Hm & _).
  { by rewrite <- app_assoc. }
  rewrite total_app in Hm. simpl in Hm. rewrite Z.add_0_r in Hm.
  destruct (plug_forward_run h pre n post m (last_off 0 0 pre) H Hlf Hm) as (h1 & E1 & Hm1).
  pose proof Hm1 as (hd1 & lf1 & -> & Hr1 & Hf1 & _).
  destruct (merge_next_cons n post) as (n' & post' & Emn & Hu).
  assert (coalesced ((false, n') :: post')) as Hc3.
  { rewrite <- Emn, <- coalesce_merge by done. apply coalesce_coalesced. }
  rewrite Emn in *.
  destruct (rep_last _ _ _ _ _ Hr1) as [p Hp].
  destruct (plug_backward_run (set_lfree lf1 (set_hdrs hd1 h)) pre n' post' p Hr1 Hf1 Hc1 Hc3 Hp)
    as (h2 & E2 & Hm2).
  exists h2. split.
  - rewrite plug_holes_eq. unfold gets. unfold bind at 1. cbn beta iota.
    erewrite bind_ok by by eapply get_hdr_run, rep_at.
    rewrite !assert_bind by (cbn; lia).
    rewrite (bind_ok _ _ _ _ _ (get_hdr_run _ _ _ Hm)).
    rewrite (bind_ok _ _ _ _ _ E1).
    erewrite bind_ok by by eapply get_hdr_run, rep_at.
    by rewrite (bind_ok _ _ _ p (set_lfree lf1 (set_hdrs hd1 h))); [|by apply get_hdr_run].
  - eapply merged_trans; [exact Hm1|].
    rewrite <- (coalesce_app_r pre ((false, n) :: post)), (coalesce_merge n post Hc2), Emn. done.
Qed.

(** A block changes hands: its header is rewritten in place. *)
Lemma rep_flip hd e pre u v n post :
  rep hd e (pre ++ (u, n) :: post) →
  rep (<[total pre := header v (total pre) n (last_off 0 0 pre)]> hd) e (pre ++ (v, n) :: post).
Proof.
  intros H. pose proof (rep_bounds _ _ _ _ _ _ H) as (Hb1 & Hb2 & Hb3 & _).
  destruct (rep_next hd e (pre ++ [(u, n)]) post) as (m & Hm & _ & Hm').
  { by rewrite <- app_assoc. }
  rewrite total_app in Hm. simpl in Hm. rewrite Z.add_0_r in Hm.
  change (pre ++ (u, n) :: post) with (pre ++ [(u, n)] ++ post) in H.
  change (pre ++ (v, n) :: post) with (pre ++ [(v, n)] ++ post).
  eapply rep_replace; [exact H|simpl; lia..| | | |]; simpl.
  - by repeat constructor.
  - split; [apply lookup_insert_eq|done].
  - intros k Hk. apply lookup_insert_ne. lia.
  - rewrite Z.add_0_r, lookup_insert_ne by lia. rewrite Hm. intros ? [= <-].
    destruct post as [|[w k] post]; [by right|left]. rewrite Hm', last_off_snoc. done.
Qed.

Lemma free_start_flip lf pre n post :
  long (pre ++ (true, n) :: post) →
  free_start lf 0 (pre ++ (true, n) :: post) →
  free_start (if total pre <? lf then total pre else lf) 0 (pre ++ (false, n) :: post).
Proof.
  intros [Hl [Hn Hl2]%Forall_cons]%Forall_app. rewrite !free_start_app by done. simpl in *.
  change SIZEOF_STRUCT_MEM with 16 in *.
  intros [[H1 H2]|[[? _]|H]]; [|done|].
  - left. destruct (Z.ltb_spec (total pre) lf); [lia|done].
  - apply free_start_ge in H; [|done]. rewrite (proj2 (Z.ltb_lt _ _)) by lia. auto.
Qed.

Lemma first_free_ge off bs : long bs → off ≤ first_free off bs.
Proof. intros H. eapply free_start_ge; [done|apply first_free_start]. Qed.

Lemma first_free_flip off pre n post :
  long (pre ++ (true, n) :: post) →
  first_free off (pre ++ (false, n) :: post) =
    let lf := first_free off (pre ++ (true, n) :: post) in
    if off + total pre <? lf then off + total pre else lf.
Proof.
  revert off. induction pre as [|[u k] pre IH]; intros off Hl; simpl in *.
  - apply Forall_cons in Hl as [Hn Hl]. pose proof (first_free_ge (off + n) _ Hl).
    change SIZEOF_STRUCT_MEM with 16 in *. simpl in Hn.
    rewrite Z.add_0_r, (proj2 (Z.ltb_lt _ _)) by lia. done.
  - apply Forall_cons in Hl as [Hn Hl]. rewrite IH, Z.add_assoc by done.
    assert (long pre) as Hl' by by apply Forall_app in Hl as [].
    pose proof (total_nonneg _ Hl'). change SIZEOF_STRUCT_MEM with 16 in *. simpl in Hn.
    destruct u; [done|]. rewrite (proj2 (Z.ltb_ge _ _)) by lia. done.
Qed.

(** What the operations leave alone. *)
Record heap_frame (h h' : heap_state) : Prop := {
  hf_ptr : heap_ptr h' = heap_ptr h;
  hf_end : heap_end h' = heap_end h;
  hf_size : mem_size_aligned h' = mem_size_aligned h;
  hf_malloc : rt_malloc_hook h' = rt_malloc_hook h;
  hf_free : rt_free_hook h' = rt_free_hook h
}.

Lemma static_frame h h' : heap_frame h h' → heap_static h → heap_static h'.
Proof. intros [E1 E2 E3 _ _] []. split; rewrite ?E1, ?E2, ?E3; done. Qed.

(** The address handed out for the block behind [pre]. *)
Definition addr (h : heap_state) (pre : list block) : Z :=
  heap_ptr h + total pre + SIZEOF_STRUCT_MEM.

Definition free_calls (p : Z) (h : heap_state) : list heap_call :=
  match rt_free_hook h with Some f => [free_hook_call f p] | None => [] end.

Lemma free_hook_run {B} p (k : unit → HM B) h :
  bind (match rt_free_hook h with
        | Some f => modify (log_call (free_hook_call f p))
        | None => ret tt
        end) k h = k tt (set_log (hook_log h ++ free_calls p h) h).
Proof. unfold free_calls. destruct (rt_free_hook h); [done|]. by rewrite app_nil_r. Qed.

Lemma align_land x : 0 ≤ x → x mod 8 = 0 → Z.land x (RT_ALIGN_SIZE - 1) = 0.
Proof. intros H1 H2. change (RT_ALIGN_SIZE - 1) with (Z.ones 3). by rewrite Z.land_ones. Qed.

Lemma total_mod bs : Forall (λ b : block, SIZEOF_STRUCT_MEM < b.2 ∧ b.2 mod 8 = 0) bs → total bs mod 8 = 0.
Proof.
  induction 1 as [|[u n] bs [_ H] _ IH]; [done|]. simpl in *. by rewrite Z.add_mod, H, IH by lia.
Qed.

Lemma rt_free_run h pre n post :
  heap_is h (pre ++ (true, n) :: post) →
  ∃ h', rt_free (addr h pre) h = Ok tt h' ∧
    heap_is h' (coalesce (pre ++ (false, n) :: post)) ∧
    (lfree_lowest h (pre ++ (true, n) :: post) →
       lfree_lowest h' (coalesce (pre ++ (false, n) :: post))) ∧
    heap_frame h h' ∧ bytes h' = bytes h ∧ hook_log h' = hook_log h ++ free_calls (addr h pre) h.
Proof.
  intros [Hst Hrep Hco Hlf Hused Hmax Hsem].
  pose proof (rep_bounds _ _ _ _ _ _ Hrep) as (Hb1 & Hb2 & Hb3 & Hb4 & Hb5).
  pose proof (rep_len _ _ _ Hrep) as Hlen. apply Forall_app in Hlen as [Hlen _].
  apply total_mod in Hlen. pose proof (rep_long _ _ _ Hrep) as Hl.
  pose proof (used_total_range _ Hl) as Hr. rewrite (rep_total _ _ _ Hrep) in Hr.
  assert (n ≤ used_mem h ∧ used_total pre + used_total post = used_mem h - n) as [Hn Hu'].
  { apply Forall_app in Hl as [Hl1 [_ Hl2]%Forall_cons]. rewrite Hused, used_total_app. simpl.
    pose proof (used_total_range _ Hl1). pose proof (used_total_range _ Hl2). lia. }
  destruct Hst as [He Hmin Hsz Hptr Hpos Htop] eqn:Est. clear Est.
  assert (addr h pre mod 8 = 0) as Ha.
  { unfold addr. change SIZEOF_STRUCT_MEM with 16. rewrite Z.add_mod, (Z.add_mod (heap_ptr h)) by lia.
    by rewrite Hptr, Hlen. }
  assert (0 < heap_ptr h ≤ addr h pre ∧ addr h pre < heap_ptr h + heap_end h) as Hap.
  { unfold addr. change SIZEOF_STRUCT_MEM with 16 in *. lia. }
  set (h1 := set_heap_sem 0 (set_log (hook_log h ++ free_calls (addr h pre) h) h)).
  set (hd := <[total pre := header false (total pre) n (last_off 0 0 pre)]> (hdrs h)).
  set (lf := if total pre <? lfree h then total pre else lfree h).
  set (h2 := set_used_mem (used_mem h - n) (set_lfree lf (set_hdrs hd h1))).
  pose proof (rep_flip _ _ _ _ false _ _ Hrep : rep (hdrs h2) (heap_end h2) _) as Hrep2.
  pose proof (free_start_flip _ _ _ _ Hl Hlf : free_start (lfree h2) 0 _) as Hlf2.
  apply coalesced_app in Hco as (Hc1 & Hc2 & _). apply coalesced_cons in Hc2 as [_ Hc2].
  destruct (plug_run h2 pre n post Hrep2 Hlf2 Hc1 Hc2) as (h3 & E3 & Hm3).
  destruct Hm3 as (hd3 & lf3 & -> & Hr3 & Hf3 & Hff3).
  exists (set_heap_sem 1 (set_lfree lf3 (set_hdrs hd3 h2))). split_and!.
  - unfold rt_free. rewrite (proj2 (Z.eqb_neq _ 0)) by lia. rewrite !bind_gets.
    rewrite assert_bind by (rewrite align_land; lia).
    rewrite assert_bind by (rewrite andb_true_iff, Z.leb_le, Z.ltb_lt; lia).
    rewrite bind_gets, free_hook_run.
    rewrite (proj2 (Z.ltb_ge _ _)), (proj2 (Z.leb_gt _ _)) by lia. cbn [orb].
    replace (addr h pre - SIZEOF_STRUCT_MEM - heap_ptr h) with (total pre) by (unfold addr; lia).
    rewrite sem_take_bind by done.
    pose proof (rep_at _ _ _ _ _ _ Hrep) as Hat.
    erewrite bind_ok by by apply get_hdr_run. rewrite !assert_bind by done.
    erewrite bind_ok by by apply set_used_run.
    erewrite bind_ok by by apply set_magic_run; apply lookup_insert_eq.
    rewrite bind_gets. hs. rewrite insert_insert_eq. cbn [hm_magic hm_used hm_next hm_prev header].
    match goal with |- _ ?st = _ => change st with (set_hdrs hd h1) end.
    transitivity ((modify (λ h0, set_used_mem (u32 (used_mem h0 - (total pre + n - total pre))) h0) ;;;
      plug_holes (total pre) ;;; heap_sem_release) (set_lfree lf (set_hdrs hd h1))).
    { unfold lf. change (lfree (set_log _ _)) with (lfree h). destruct (total pre <? lfree h); reflexivity. }
    rewrite bind_modify. cbn beta. hs.
    change (used_mem h1) with (used_mem h). rewrite Z.add_simpl_l. unfold u32. rewrite wrap_small by (change (2 ^ 32) with 4294967296 in *; change SIZEOF_STRUCT_MEM with 16 in *; lia).
    match goal with |- _ ?st = _ => change st with h2 end.
    rewrite (bind_ok _ _ _ _ _ E3). by apply sem_release_run.
  - split; try done.
    + apply coalesce_coalesced.
    + hs. rewrite coalesce_used, used_total_app. simpl. lia.
    + hs. rewrite coalesce_used, used_total_app. simpl. lia.
  - unfold lfree_lowest. intros Hlow. apply Hff3. hs. unfold lf.
    rewrite (first_free_flip 0 pre n post Hl), <- Hlow. done.
  - done.
  - done.
  - done.
Qed.

(** *** Allocation *)
Definition counted (k : Z) (h : heap_state) : heap_state :=
  set_max_mem (Z.max (max_mem h) (used_mem h + k)) (set_used_mem (used_mem h + k) h).

Lemma count_used_run k h :
  0 ≤ used_mem h + k < 2 ^ 32 → count_used k h = Ok tt (counted k h).
Proof.
  intros Hk. unfold counted, u32. hrun. unfold u32. rewrite wrap_small by done.
  destruct (Z.ltb_spec (max_mem h) (used_mem h + k)).
  - by rewrite Z.max_r by lia.
  - by rewrite Z.max_l by lia.
Qed.

(** A request that the heap can serve: at least [MIN_SIZE_ALIGNED], aligned,
    not larger than the heap. *)
Definition request_ok (h : heap_state) (size : Z) : Prop :=
  MIN_SIZE_ALIGNED ≤ size ≤ mem_size_aligned h ∧ size mod 8 = 0.

Lemma carve_total size n : total (carve size n) = n.
Proof. unfold carve. case_match; simpl; lia. Qed.

Lemma carve_len size n :
  MIN_SIZE_ALIGNED ≤ size → size mod 8 = 0 → SIZEOF_STRUCT_MEM < n → n mod 8 = 0 →
  Forall (λ b : block, SIZEOF_STRUCT_MEM < b.2 ∧ b.2 mod 8 = 0) (carve size n).
Proof.
  change SIZEOF_STRUCT_MEM with 16. change MIN_SIZE_ALIGNED with 16. intros Hs Hs8 Hn Hn8.
  unfold carve. change SIZEOF_STRUCT_MEM with 16. change MIN_SIZE_ALIGNED with 16.
  destruct (Z.leb_spec (size + 16 + 16) (n - 16)); repeat constructor; simpl; try lia.
  - by rewrite Z.add_mod, Hs8.
  - rewrite Zminus_mod, (Z.add_mod size), Hs8, Hn8 by lia. done.
Qed.

(** The two ways of taking a block. *)
Lemma take_whole_run h pre n post :
  rep (hdrs h) (heap_end h) (pre ++ (false, n) :: post) →
  0 ≤ used_mem h + n < 2 ^ 32 →
  ∃ hd', ((set_used (total pre) 1 ;;; count_used (total pre + n - total pre)) ;;;
          set_magic (total pre) HEAP_MAGIC) h = Ok tt (set_hdrs hd' (counted n h)) ∧
    rep hd' (heap_end h) (pre ++ (true, n) :: post).
Proof.
  intros H Hu. eexists. split; [|eapply rep_flip; exact H].
  pose proof (rep_at _ _ _ _ _ _ H) as Hp. rewrite bind_assoc.
  erewrite bind_ok by by apply set_used_run.
  rewrite Z.add_simpl_l. erewrite bind_ok by by apply count_used_run.
  erewrite set_magic_run by apply lookup_insert_eq.
  unfold counted. hs. rewrite insert_insert_eq. reflexivity.
Qed.

(** The header behind a block gets a new [prev], unless it is the sentinel. *)
Lemma set_next_prev_run h hd1 pre u n post p :
  rep (hdrs h) (heap_end h) (pre ++ (u, n) :: post) →
  hd1 !! (total pre + n) = hdrs h !! (total pre + n) →
  ∃ hd2, (when negb (total pre + n =? heap_end h) then set_prev (total pre + n) p)
      (set_hdrs hd1 h) = Ok tt (set_hdrs hd2 h) ∧
    (∀ j, j ≠ total pre + n → hd2 !! j = hd1 !! j) ∧
    (∀ m, hdrs h !! (total pre + n) = Some m → hd2 !! (total pre + n) = Some (with_prev p m) ∨
     post = [] ∧ hd2 !! (total pre + n) = Some m).
Proof.
  intros H H1. destruct (rep_next (hdrs h) (heap_end h) (pre ++ [(u, n)]) post) as (m & Hm & _).
  { by rewrite <- app_assoc. }
  rewrite total_app in Hm. simpl in Hm. rewrite Z.add_0_r in Hm.
  pose proof (rep_bounds _ _ _ _ _ _ H) as (Hb1 & Hb2 & Hb3 & Hb4 & Hb5).
  destruct (Z.eqb_spec (total pre + n) (heap_end h)); cbn [negb].
  - exists hd1. split_and!; [done..|]. intros m' Hm'. right. split; [|congruence].
    destruct post as [|[v j] post]; [done|]. apply rep_long in H.
    apply Forall_app in H as [_ [_ [Hj Hl]%Forall_cons]%Forall_cons].
    simpl in *. pose proof (total_nonneg _ Hl). change SIZEOF_STRUCT_MEM with 16 in *. lia.
  - eexists. split_and!.
    + rewrite (set_prev_run _ _ m); [reflexivity|]. hs. congruence.
    + intros j Hj. hs. by apply lookup_insert_ne.
    + intros m' Hm'. left. hs. rewrite lookup_insert_eq. congruence.
Qed.

Lemma take_split_run h pre n k post :
  rep (hdrs h) (heap_end h) (pre ++ (false, n) :: post) → heap_static h →
  16 < k → k mod 8 = 0 → 16 < n - k → 0 ≤ used_mem h + k < 2 ^ 32 →
  ∃ hd', ((put_hdr (total pre + k) (mk_hm HEAP_MAGIC 0 (total pre + n) (total pre)) ;;;
          set_next (total pre) (total pre + k) ;;;
          set_used (total pre) 1 ;;;
          (when negb (total pre + n =? mem_size_aligned h + SIZEOF_STRUCT_MEM)
           then set_prev (total pre + n) (total pre + k)) ;;;
          count_used k) ;;;
          set_magic (total pre) HEAP_MAGIC) h = Ok tt (set_hdrs hd' (counted k h)) ∧
    rep hd' (heap_end h) (pre ++ [(true, k); (false, n - k)] ++ post).
Proof.
  intros H Hst Hk Hk8 Hnk Hu.
  pose proof (rep_at _ _ _ _ _ _ H) as Hp. pose proof (rep_bounds _ _ _ _ _ _ H) as (Hb1 & Hb2 & Hb3 & Hb4 & Hb5).
  unfold put_hdr. rewrite bind_assoc, bind_modify, bind_assoc.
  erewrite bind_ok by (apply set_next_run; hs; rewrite lookup_insert_ne by lia; exact Hp). rewrite bind_assoc.
  erewrite bind_ok by (apply set_used_run; hs; apply lookup_insert_eq).
  hs. rewrite insert_insert_eq, bind_assoc. cbn [hm_magic hm_used hm_next hm_prev header].
  rewrite <- (hs_end _ Hst).
  set (hd1 := <[total pre := _]> _).
  destruct (set_next_prev_run h hd1 _ _ _ _ (total pre + k) H) as (hd2 & E2 & Hf2 & Hn2).
  { unfold hd1. by rewrite !lookup_insert_ne by lia. }
  match goal with |- ∃ hd', bind _ _ ?st = _ ∧ _ => change st with (set_hdrs hd1 h) end.
  rewrite (bind_ok _ _ _ _ _ E2). erewrite bind_ok by by apply count_used_run.
  eexists. split.
  - erewrite set_magic_run; [reflexivity|]. unfold counted. hs. rewrite Hf2 by lia. apply lookup_insert_eq.
  - change ((false, n) :: post) with ([(false, n)] ++ post) in H.
    eapply rep_replace; [exact H|simpl; lia..| | | |]; unfold counted; hs; simpl.
    + repeat constructor; simpl; change SIZEOF_STRUCT_MEM with 16; try lia.
      by rewrite Zminus_mod, Hk8, Hb3.
    + split_and!; [apply lookup_insert_eq| |done]. rewrite lookup_insert_ne, Hf2 by lia.
      unfold hd1. rewrite lookup_insert_ne, lookup_insert_eq by lia. unfold header.
      do 2 f_equal. lia.
    + intros j Hj. rewrite lookup_insert_ne, Hf2 by lia. unfold hd1.
      by rewrite !lookup_insert_ne by lia.
    + rewrite Z.add_0_r, lookup_insert_ne by lia. exact Hn2.
Qed.

Lemma take_block_run h pre n post size :
  rep (hdrs h) (heap_end h) (pre ++ (false, n) :: post) → heap_static h →
  request_ok h size → fits (heap_end h) size (total pre) n = true →
  0 ≤ used_mem h → used_mem h + n < 2 ^ 32 →
  ∃ hd', take_block (total pre) size h =
      Ok tt (set_hdrs hd' (counted (used_total (carve size n)) h)) ∧
    rep hd' (heap_end h) (pre ++ carve size n ++ post).
Proof.
  intros H Hst [[Hs1 Hs2] Hs3] [Hf1%Z.leb_le Hf2%Z.ltb_lt]%andb_true_iff Hu1 Hu2.
  pose proof (rep_bounds _ _ _ _ _ _ H) as (Hb1 & Hb2 & Hb3 & Hb4 & Hb5).
  pose proof (hs_end _ Hst). pose proof (hs_pos _ Hst). pose proof (hs_top _ Hst).
  unfold take_block, carve. change SIZEOF_STRUCT_MEM with 16 in *. change MIN_SIZE_ALIGNED with 16 in *.
  erewrite bind_ok by by eapply get_hdr_run, rep_at. rewrite bind_gets.
  cbn [header hm_next]. rewrite !u32_small by lia.
  replace (total pre + n - (total pre + 16)) with (n - 16) by lia.
  destruct (Z.leb_spec (size + 16 + 16) (n - 16)).
  - simpl used_total. rewrite Z.add_0_r. rewrite <- Z.add_assoc, (Z.add_comm 16).
    apply take_split_run; try done; try lia. by rewrite Z.add_mod, Hs3.
  - simpl used_total. rewrite Z.add_0_r. by apply take_whole_run; [|lia].
Qed.

(** [lfree] moves on to the next free block. *)
Lemma advance_run fuel h pre post :
  rep (hdrs h) (heap_end h) (pre ++ post) → lfree h = total pre → (length post < fuel)%nat →
  advance_lfree fuel h = Ok tt (set_lfree (first_free (total pre) post) h).
Proof.
  revert fuel h pre. induction post as [|[u n] post IH]; intros [|fuel] h pre H Hl Hlen;
    simpl in Hlen; try lia; simpl advance_lfree; rewrite !bind_gets;
    destruct (rep_next _ _ _ _ H) as (m & Hm & _ & Hm'); rewrite Hl;
    rewrite (bind_ok _ _ _ _ _ (get_hdr_run _ _ _ Hm)).
  - destruct Hm' as (Hu & _ & <-). rewrite Hu, Z.eqb_refl. simpl. rewrite <- Hl. reflexivity.
  - pose proof (rep_bounds _ _ _ _ _ _ H) as (Hb1 & Hb2 & Hb3 & Hb4 & Hb5).
    rewrite Hm'. cbn [hm_used hm_next header]. simpl first_free. destruct u.
    + rewrite (proj2 (Z.eqb_neq (total pre) _)) by lia. change (negb (1 =? 0) && negb false) with true. cbn iota.
      rewrite bind_modify. rewrite (IH _ _ (pre ++ [(true, n)])); [|by rewrite <- app_assoc| |lia].
      * rewrite total_app. simpl. by rewrite Z.add_0_r.
      * hs. rewrite total_app. simpl. lia.
    + simpl. rewrite <- Hl. reflexivity.
Qed.

Lemma alloc_app e lf size off pre post :
  long pre → off + total pre ≤ lf →
  alloc e lf size off (pre ++ post) =
    match alloc e lf size (off + total pre) post with
    | Some (p, bs) => Some (p, pre ++ bs)
    | None => None
    end.
Proof.
  intros Hl. revert off. induction Hl as [|[u n] pre Hn Hl IH]; intros off Ho; simpl in *.
  - rewrite Z.add_0_r. by destruct (alloc _ _ _ _ _) as [[]|].
  - change SIZEOF_STRUCT_MEM with 16 in *. pose proof (total_nonneg _ Hl).
    rewrite (proj2 (Z.leb_gt lf off)) by lia. rewrite andb_false_r. simpl.
    rewrite IH, Z.add_assoc by lia. by destruct (alloc _ _ _ _ _) as [[]|].
Qed.

(** No block is found where the search stops. *)
Lemma alloc_beyond e lf size off bs :
  long bs → e ≤ off + SIZEOF_STRUCT_MEM + size → alloc e lf size off bs = None.
Proof.
  intros Hl. revert off. induction Hl as [|[u n] bs Hn Hl IH]; intros off Ho; [done|].
  simpl in *. change SIZEOF_STRUCT_MEM with 16 in *. rewrite IH by lia.
  unfold fits. change SIZEOF_STRUCT_MEM with 16. rewrite (proj2 (Z.ltb_ge _ _)) by lia.
  by rewrite !andb_false_r.
Qed.

(** Where the block that [alloc] finds is. *)
Lemma alloc_some e lf size off bs p bs' :
  alloc e lf size off bs = Some (p, bs') →
  ∃ pre n post, bs = pre ++ (false, n) :: post ∧ p = off + total pre ∧ lf ≤ p ∧
    fits e size p n = true ∧ bs' = pre ++ carve size n ++ post.
Proof.
  revert off bs'. induction bs as [|[u n] bs IH]; intros off bs'; simpl; [done|].
  destruct (negb u && (lf <=? off) && fits e size off n) eqn:E.
  - intros [= <- <-]. rewrite !andb_true_iff, negb_true_iff, Z.leb_le in E.
    destruct E as [[-> ?] ?]. exists [], n, bs. split_and!; simpl; done || lia.
  - destruct (alloc e lf size (off + n) bs) as [[q bs1]|] eqn:E'; [|done].
    intros [= <- <-]. destruct (IH _ _ E') as (pre & k & post & -> & -> & ? & ? & ->).
    exists ((u, n) :: pre), k, post. split_and!; simpl; try done. lia.
Qed.

(** [alloc] fails only when no free block from [lf] on fits. *)
Lemma alloc_none e lf size off bs pre n post :
  alloc e lf size off bs = None → bs = pre ++ (false, n) :: post → lf ≤ off + total pre →
  fits e size (off + total pre) n = false.
Proof.
  revert off pre. induction bs as [|[u k] bs IH]; intros off pre; [by destruct pre|].
  simpl. destruct (negb u && (lf <=? off) && fits e size off k) eqn:E; [done|].
  destruct (alloc e lf size (off + k) bs) as [[]|] eqn:E'; [done|]. intros _.
  destruct pre as [|[v j] pre]; simpl; intros [= -> -> ->] Hle.
  - rewrite Z.add_0_r in *. rewrite (proj2 (Z.leb_le _ _) Hle) in E. done.
  - rewrite Z.add_assoc in *. by eapply IH.
Qed.

(** What [rt_malloc] does once a block is found. *)
Definition found (ptr size : Z) : HM Z :=
  take_block ptr size ;;;
  let! lf := read lfree in
  (if ptr =? lf then
     let! n := gets loop_fuel in
     advance_lfree n ;;;
     let! lf := read lfree in
     let! hend := read heap_end in
     let! m := get_hdr lf in
     RT_ASSERT ((lf =? hend) || (hm_used m =? 0))
   else ret tt) ;;;
  heap_sem_release ;;;
  let! hp := read heap_ptr in
  let! hend := read heap_end in
  RT_ASSERT (ptr + SIZEOF_STRUCT_MEM + size <=? hend) ;;;
  RT_ASSERT ((hp + ptr + SIZEOF_STRUCT_MEM) mod RT_ALIGN_SIZE =? 0) ;;;
  RT_ASSERT (Z.land (hp + ptr) (RT_ALIGN_SIZE - 1) =? 0) ;;;
  let! hk := read rt_malloc_hook in
  (match hk with
   | Some f => modify (log_call (malloc_hook_call f (hp + ptr + SIZEOF_STRUCT_MEM) size))
   | None => ret tt
   end) ;;;
  ret (hp + ptr + SIZEOF_STRUCT_MEM).

Lemma malloc_loop_eq fuel ptr size :
  malloc_loop (S fuel) ptr size =
    (let! msz := read mem_size_aligned in
     if ptr <? u32 (msz - size) then
       let! mem := get_hdr ptr in
       if (hm_used mem =? 0) && (size <=? u32 (hm_next mem - (ptr + SIZEOF_STRUCT_MEM)))
       then found ptr size
       else malloc_loop fuel (hm_next mem) size
     else heap_sem_release ;;; ret 0).
Proof. reflexivity. Qed.

Definition malloc_calls (p size : Z) (h : heap_state) : list heap_call :=
  match rt_malloc_hook h with Some f => [malloc_hook_call f p size] | None => [] end.

Lemma malloc_hook_run {B} p size (k : unit → HM B) h :
  bind (match rt_malloc_hook h with
        | Some f => modify (log_call (malloc_hook_call f p size))
        | None => ret tt
        end) k h = k tt (set_log (hook_log h ++ malloc_calls p size h) h).
Proof. unfold malloc_calls. destruct (rt_malloc_hook h); [done|]. by rewrite app_nil_r. Qed.

Lemma first_free_used off pre post :
  first_free off pre = off + total pre → long pre →
  first_free off (pre ++ post) = first_free (off + total pre) post.
Proof.
  intros H Hl. revert off H. induction Hl as [|[u n] pre Hn Hl IH]; intros off H; simpl in *.
  - by rewrite Z.add_0_r.
  - change SIZEOF_STRUCT_MEM with 16 in *. pose proof (total_nonneg _ Hl).
    destruct u; [|lia]. rewrite IH, Z.add_assoc by lia. done.
Qed.

Lemma first_free_here pre n post :
  long pre → first_free 0 (pre ++ (false, n) :: post) = total pre → first_free 0 pre = total pre.
Proof.
  intros Hl. change (total pre) with (0 + total pre). generalize 0.
  induction Hl as [|[u k] pre Hn Hl IH]; intros off; simpl in *; [lia|].
  change SIZEOF_STRUCT_MEM with 16 in *. pose proof (total_nonneg _ Hl).
  destruct u; [|lia]. rewrite Z.add_assoc. apply IH.
Qed.

Lemma first_free_before pre n post post' :
  long pre → first_free 0 (pre ++ (false, n) :: post) ≠ total pre →
  first_free 0 (pre ++ post') = first_free 0 (pre ++ (false, n) :: post).
Proof.
  intros Hl. change (total pre) with (0 + total pre). generalize 0.
  induction Hl as [|[u k] pre Hn Hl IH]; intros off; simpl in *; [lia|].
  destruct u; [|done]. rewrite Z.add_assoc. apply IH.
Qed.

(** [lfree] after the block behind [pre] is taken. *)
Definition lfree_after (h : heap_state) (pre mid post : list block) : Z :=
  if total pre =? lfree h then first_free (total pre) (mid ++ post) else lfree h.

Lemma lfree_after_start h pre n mid post :
  long (pre ++ (false, n) :: post) → total mid = n → long mid → mid ≠ [] →
  free_start (lfree h) 0 (pre ++ (false, n) :: post) →
  free_start (lfree_after h pre mid post) 0 (pre ++ mid ++ post) ∧
  (lfree h = first_free 0 (pre ++ (false, n) :: post) →
   lfree_after h pre mid post = first_free 0 (pre ++ mid ++ post)).
Proof.
  intros [Hl [Hn Hl2]%Forall_cons]%Forall_app Hm Hlm Hne Hf. unfold lfree_after. split.
  - rewrite free_start_app in Hf |- * by (done || by destruct mid). simpl in *. rewrite ?Z.add_0_l in *.
    destruct (Z.eqb_spec (total pre) (lfree h)) as [He|He].
    + right. apply first_free_start.
    + destruct Hf as [?|[[_ ?]|Hf]]; [by left|lia|right].
      assert (total pre + n = total pre + total mid) as Heq by lia. rewrite Heq in Hf. clear Heq.
      revert Hf. generalize (total pre). clear -Hlm.
      induction mid as [|[u k] mid IH]; intros off; simpl; [by rewrite Z.add_0_r|].
      apply Forall_cons in Hlm as [_ Hlm]. rewrite Z.add_assoc. intros H. right. by apply IH.
  - intros Hlow. destruct (Z.eqb_spec (total pre) (lfree h)) as [He|He].
    + rewrite (first_free_used 0 pre) by (done || apply (first_free_here pre n post Hl); congruence).
      done.
    + rewrite Hlow. symmetry. apply first_free_before; [done|]. congruence.
Qed.

Lemma carve_ne size n : carve size n ≠ [].
Proof. unfold carve. by case_match. Qed.

Lemma carve_coalesced pre n post size :
  coalesced (pre ++ (false, n) :: post) → coalesced (pre ++ carve size n ++ post).
Proof.
  rewrite !coalesced_app, coalesced_cons. intros (H1 & [H2 H3] & [H4|[]]).
  specialize (H2 eq_refl). unfold carve. case_match; simpl; [|tauto].
  split_and!; [done|done|done| |by left].
  by right.
Qed.

Lemma used_carve size n : SIZEOF_STRUCT_MEM < n → 0 ≤ size → 0 ≤ used_total (carve size n) ≤ n.
Proof.
  change SIZEOF_STRUCT_MEM with 16. intros. unfold carve. change SIZEOF_STRUCT_MEM with 16.
  change MIN_SIZE_ALIGNED with 16. destruct (Z.leb_spec (size + 16 + 16) (n - 16)); simpl; lia.
Qed.

(** A place where a free block starts has its header, the end the sentinel. *)
Lemma free_start_header hd e bs lf :
  rep hd e bs → free_start lf 0 bs →
  ∃ m, hd !! lf = Some m ∧ (lf = e ∨ hm_used m = 0).
Proof.
  intros H Hf. assert (∀ p off, seg hd p off bs → free_start lf off bs →
    lf = off + total bs ∨ ∃ m, hd !! lf = Some m ∧ hm_used m = 0) as Hx.
  { clear. induction bs as [|[u n] bs IH]; simpl; intros p off; [intros _ ->; lia|].
    intros [Hp Hs] [[-> ->]|Hf]; [right; by eexists|].
    destruct (IH _ _ Hs Hf) as [->|]; [left; lia|by right]. }
  destruct (Hx _ _ (rep_seg _ _ _ H) Hf) as [->|(m & Hm & Hu)].
  - destruct (rep_end _ _ _ H) as [p Hp]. rewrite Z.add_0_l, (rep_total _ _ _ H).
    eexists. split; [exact Hp|by left].
  - exists m. auto.
Qed.

(** The outcome of a successful allocation of the block behind [pre]. *)
Record allocated (h h' : heap_state) (bs bs' : list block) (p size : Z) : Prop := {
  al_is : heap_is h' bs';
  al_lowest : lfree_lowest h bs → lfree_lowest h' bs';
  al_frame : heap_frame h h';
  al_bytes : bytes h' = bytes h;
  al_log : hook_log h' = hook_log h ++ malloc_calls p size h
}.

Lemma found_run h pre n post size :
  heap_is (set_heap_sem 1 h) (pre ++ (false, n) :: post) → heap_sem h = 0 →
  request_ok h size → fits (heap_end h) size (total pre) n = true →
  ∃ h', found (total pre) size h = Ok (addr h pre) h' ∧
    allocated h h' (pre ++ (false, n) :: post) (pre ++ carve size n ++ post) (addr h pre) size.
Proof.
  intros [Hst Hrep Hco Hlf Hused Hmax _] Hsem Hreq Hfit. hs. cbn in Hst, Hrep, Hlf, Hused, Hmax.
  pose proof (rep_bounds _ _ _ _ _ _ Hrep) as (Hb1 & Hb2 & Hb3 & Hb4 & Hb5).
  pose proof (rep_long _ _ _ Hrep) as Hl. pose proof (used_total_range _ Hl) as Hr.
  rewrite (rep_total _ _ _ Hrep) in Hr.
  assert (heap_static h) as Hst' by by destruct Hst. clear Hst.
  pose proof (hs_end _ Hst') as He. pose proof (hs_pos _ Hst') as Hpos.
  pose proof (hs_top _ Hst') as Htop. destruct Hreq as [[Hs1 Hs2] Hs3] eqn:Ereq. clear Ereq.
  pose proof (used_carve size n) as Hcv.
  pose proof (carve_len size n Hs1 Hs3) as Hclen.
  assert (long (carve size n)) as Hcl.
  { eapply Forall_impl; [apply Hclen; done|]. intros ? []. lia. }
  assert (used_total pre + used_total post = used_mem h ∧ used_total pre + n + used_total post ≤ heap_end h) as [Hu1 Hu2].
  { rewrite Hused, used_total_app. simpl. split; [lia|].
    apply Forall_app in Hl as [Hl1 [_ Hl2]%Forall_cons].
    pose proof (used_total_range _ Hl1). pose proof (used_total_range _ Hl2). lia. }
  change SIZEOF_STRUCT_MEM with 16 in *. change MIN_SIZE_ALIGNED with 16 in *.
  change (2 ^ 32) with 4294967296 in *.
  destruct (take_block_run h pre n post size Hrep Hst' Hreq Hfit) as (hd & E & Hrep').
  { lia. } { apply Forall_app in Hl as [Hl1 [_ Hl2]%Forall_cons].
    pose proof (used_total_range _ Hl1). pose proof (used_total_range _ Hl2). lia. }
  destruct (lfree_after_start h pre n (carve size n) post Hl (carve_total _ _) Hcl (carve_ne _ _) Hlf)
    as [Hlf1 Hlf2].
  set (lf := lfree_after h pre (carve size n) post) in *.
  set (h1 := set_hdrs hd (counted (used_total (carve size n)) h)) in *.
  assert (∀ (k : HM Z), (let! lf := read lfree in
    (if total pre =? lf then
      let! n := gets loop_fuel in
      advance_lfree n ;;;
      let! lf := read lfree in
      let! hend := read heap_end in
      let! m := get_hdr lf in
      RT_ASSERT ((lf =? hend) || (hm_used m =? 0))
     else ret tt) ;;; k) h1 = k (set_lfree lf h1)) as E2.
  { intros k. rewrite bind_gets. unfold lf, lfree_after. change (lfree h1) with (lfree h).
    destruct (Z.eqb_spec (total pre) (lfree h)) as [Hq|Hq]; [|reflexivity].
    rewrite bind_assoc, bind_gets, bind_assoc.
    assert (length (carve size n ++ post) < loop_fuel h1)%nat as Hfuel.
    { pose proof (rep_size _ _ _ Hrep') as Hsz. rewrite length_app in Hsz.
      unfold loop_fuel. change (hdrs h1) with hd. lia. }
    rewrite (bind_ok _ _ _ _ _ (advance_run (loop_fuel h1) h1 pre (carve size n ++ post) Hrep' (eq_sym Hq) Hfuel)).
    rewrite bind_assoc, bind_gets, bind_assoc, bind_gets, bind_assoc.
    unfold lf, lfree_after in Hlf1. rewrite (proj2 (Z.eqb_eq _ _) Hq) in Hlf1.
    destruct (free_start_header _ _ _ _ Hrep' Hlf1) as (m & Hm & Hor).
    rewrite (bind_ok _ _ _ _ _ (get_hdr_run _ _ (set_lfree _ h1) Hm)).
    rewrite assert_bind; [done|]. rewrite orb_true_iff, !Z.eqb_eq. exact Hor. }
  assert (total pre mod 8 = 0) as Hm8.
  { apply total_mod. pose proof (rep_len _ _ _ Hrep) as Hx. by apply Forall_app in Hx as []. }
  pose proof (hs_ptr _ Hst') as Hp8.
  exists (set_log (hook_log h ++ malloc_calls (addr h pre) size h) (set_heap_sem 1 (set_lfree lf h1))).
  assert ((heap_ptr h + total pre) mod 8 = 0) as Hpp by by rewrite Z.add_mod, Hm8, Hp8.
  change (heap_end h) with (heap_end h1) in *. change (heap_ptr h) with (heap_ptr h1) in *.
  split.
  - unfold found. rewrite (bind_ok _ _ _ _ _ E), E2.
    rewrite sem_release_bind by done. rewrite !bind_gets.
    apply andb_true_iff in Hfit as [_ Hfit%Z.ltb_lt].
    rewrite assert_bind by (apply Z.leb_le; hs; change SIZEOF_STRUCT_MEM with 16 in *; lia).
    rewrite assert_bind.
    2:{ apply Z.eqb_eq. hs. change RT_ALIGN_SIZE with 8. change SIZEOF_STRUCT_MEM with 16.
        by rewrite Z.add_mod, Hpp. }
    rewrite assert_bind.
    2:{ apply Z.eqb_eq, align_land; hs; [lia|]. by rewrite Z.add_mod, Hm8, Hp8. }
    rewrite bind_gets. by rewrite malloc_hook_run.
  - split; [split; hs; try done|done|done|done|done].
    + by destruct Hst'.
    + by apply carve_coalesced.
    + hs. change (used_mem h1) with (used_mem h + used_total (carve size n)).
      rewrite !used_total_app. lia.
    + hs. change (max_mem h1) with (Z.max (max_mem h) (used_mem h + used_total (carve size n))).
      rewrite !used_total_app. lia.
Qed.

(** A run of the search loop that finds nothing. *)
Lemma malloc_loop_run fuel h pre post size :
  heap_is (set_heap_sem 1 h) (pre ++ post) → heap_sem h = 0 → request_ok h size →
  (length post < fuel)%nat →
  match alloc (heap_end h) 0 size (total pre) post with
  | None => malloc_loop fuel (total pre) size h = Ok 0 (set_heap_sem 1 h)
  | Some (p, post') => ∃ h',
      malloc_loop fuel (total pre) size h = Ok (heap_ptr h + p + SIZEOF_STRUCT_MEM) h' ∧
      allocated h h' (pre ++ post) (pre ++ post') (heap_ptr h + p + SIZEOF_STRUCT_MEM) size
  end.
Proof.
  revert fuel pre. induction post as [|[u n] post IH]; intros [|fuel] pre Hh Hsem Hreq Hfuel;
    simpl in Hfuel; try lia; rewrite malloc_loop_eq, bind_gets;
    pose proof (hi_static _ _ Hh) as Hst; pose proof (hi_rep _ _ Hh : rep (hdrs h) (heap_end h) _) as Hrep;
    pose proof (hs_end _ Hst : heap_end h = mem_size_aligned h + _) as He;
    pose proof (hs_top _ Hst : heap_ptr h + heap_end h + _ ≤ _) as Htop;
    pose proof (hs_pos _ Hst : 0 < heap_ptr h) as Hpos;
    pose proof Hreq as [[Hs1 Hs2] Hs3]; rewrite u32_small by
      (change SIZEOF_STRUCT_MEM with 16 in *; change MIN_SIZE_ALIGNED with 16 in *; lia);
    change SIZEOF_STRUCT_MEM with 16 in *; change MIN_SIZE_ALIGNED with 16 in *.
  - simpl. pose proof (rep_total _ _ _ Hrep) as Ht. rewrite app_nil_r in Ht.
    rewrite (proj2 (Z.ltb_ge _ _)) by lia. by rewrite sem_release_bind.
  - pose proof (rep_bounds _ _ _ _ _ _ Hrep) as (Hb1 & Hb2 & Hb3 & Hb4 & Hb5).
    pose proof (rep_long _ _ _ Hrep) as Hl.
    destruct (Z.ltb_spec (total pre) (mem_size_aligned h - size)) as [Hlt|Hge].
    2:{ rewrite alloc_beyond; [by rewrite sem_release_bind|..].
        - by apply Forall_app in Hl as [].
        - change SIZEOF_STRUCT_MEM with 16. lia. }
    erewrite bind_ok by by eapply get_hdr_run, rep_at. cbn [hm_used hm_next header].
    rewrite u32_small by lia.
    replace (total pre + n - (total pre + 16)) with (n - 16) by lia.
    simpl alloc. rewrite (proj2 (Z.leb_le 0 _)) by lia. rewrite andb_true_r.
    assert (fits (heap_end h) size (total pre) n = (size <=? n - 16)) as Hfit.
    { unfold fits. change SIZEOF_STRUCT_MEM with 16.
      rewrite (proj2 (Z.ltb_lt _ _)) by lia. rewrite andb_true_r. apply eq_true_iff_eq.
      rewrite !Z.leb_le. lia. }
    rewrite Hfit. destruct (negb u && (size <=? n - 16)) eqn:Etake.
    + apply andb_true_iff in Etake as [->%negb_true_iff Hle]. cbn [Z.eqb andb]. rewrite Hle.
      rewrite Hle in Hfit. replace (heap_ptr h + total pre + 16) with (addr h pre) by done.
      by apply found_run.
    + assert ((((if u then 1 else 0) =? 0) && (size <=? n - 16)) = false) as -> by by destruct u.
      specialize (IH fuel (pre ++ [(u, n)])). rewrite <- app_assoc, total_app in IH. simpl in IH.
      rewrite Z.add_0_r in IH. specialize (IH Hh Hsem Hreq ltac:(lia)).
      destruct (alloc (heap_end h) 0 size (total pre + n) post) as [[p post']|]; [|done].
      by rewrite <- app_assoc in IH.
Qed.

(** *** [rt_malloc] *)
(** The size [rt_malloc] looks for. *)
Definition request (size : Z) : Z :=
  let size := RT_ALIGN size RT_ALIGN_SIZE in
  if size <? MIN_SIZE_ALIGNED then MIN_SIZE_ALIGNED else size.

Lemma request_spec h size :
  heap_static h → RT_ALIGN size RT_ALIGN_SIZE ≤ mem_size_aligned h → request_ok h (request size).
Proof.
  intros Hst Hs. pose proof (hs_min _ Hst). unfold request, request_ok.
  destruct (Z.ltb_spec (RT_ALIGN size RT_ALIGN_SIZE) MIN_SIZE_ALIGNED); split; try done; try lia.
  apply align_mod.
Qed.

Lemma alloc_start e lf lf' size off bs :
  long bs → lf ≤ off → lf' ≤ off → alloc e lf size off bs = alloc e lf' size off bs.
Proof.
  intros Hl. revert off. induction Hl as [|[u n] bs Hn Hl IH]; intros off H1 H2; [done|].
  simpl in *. change SIZEOF_STRUCT_MEM with 16 in *. rewrite IH by lia.
  by rewrite !(proj2 (Z.leb_le _ off)) by lia.
Qed.

Lemma free_start_split p off bs :
  free_start p off bs → ∃ pre post, bs = pre ++ post ∧ p = off + total pre.
Proof.
  revert off. induction bs as [|[u n] bs IH]; simpl; intros off.
  - intros ->. exists [], []. simpl. split; [done|lia].
  - intros [[_ ->]|H]; [exists [], ((u, n) :: bs); simpl; split; [done|lia]|].
    destruct (IH _ H) as (pre & post & -> & ->). exists ((u, n) :: pre), post. simpl. split; [done|lia].
Qed.

Lemma rt_malloc_run h bs size :
  heap_is h bs → size ≠ 0 →
  if mem_size_aligned h <? RT_ALIGN size RT_ALIGN_SIZE then rt_malloc size h = Ok 0 h else
  match alloc (heap_end h) (lfree h) (request size) 0 bs with
  | None => rt_malloc size h = Ok 0 h
  | Some (p, bs') => ∃ h',
      rt_malloc size h = Ok (heap_ptr h + p + SIZEOF_STRUCT_MEM) h' ∧
      allocated h h' bs bs' (heap_ptr h + p + SIZEOF_STRUCT_MEM) (request size)
  end.
Proof.
  intros Hh Hne. unfold rt_malloc. rewrite (proj2 (Z.eqb_neq _ _) Hne), bind_gets.
  destruct (Z.ltb_spec (mem_size_aligned h) (RT_ALIGN size RT_ALIGN_SIZE)) as [|Hle]; [done|].
  fold (request size). pose proof (hi_sem _ _ Hh) as Hsem.
  rewrite sem_take_bind, !bind_gets by done.
  destruct (free_start_split _ _ _ (hi_lfree _ _ Hh)) as (pre & post & -> & Hlf).
  rewrite Z.add_0_l in Hlf. pose proof (rep_long _ _ _ (hi_rep _ _ Hh)) as Hl.
  apply Forall_app in Hl as [Hl1 Hl2].
  rewrite alloc_app, Z.add_0_l by (done || lia).
  rewrite (alloc_start _ _ 0) by (done || lia || by apply total_nonneg).
  assert (set_heap_sem 1 (set_heap_sem 0 h) = h) as Eh by (rewrite <- Hsem; reflexivity).
  pose proof (malloc_loop_run (loop_fuel (set_heap_sem 0 h)) (set_heap_sem 0 h) pre post (request size)) as Hrun.
  rewrite Eh in Hrun. specialize (Hrun Hh eq_refl (request_spec h _ (hi_static _ _ Hh) Hle)).
  change (heap_end (set_heap_sem 0 h)) with (heap_end h) in Hrun.
  change (lfree (set_heap_sem 0 h)) with (lfree h). rewrite Hlf.
  assert (length post < loop_fuel (set_heap_sem 0 h))%nat as Hfuel.
  { pose proof (rep_size _ _ _ (hi_rep _ _ Hh)) as Hsz. rewrite length_app in Hsz.
    unfold loop_fuel. change (hdrs (set_heap_sem 0 h)) with (hdrs h). lia. }
  specialize (Hrun Hfuel).
  destruct (alloc (heap_end h) 0 (request size) (total pre) post) as [[p post']|]; [|done].
  destruct Hrun as (h' & E & [A1 A2 A3 A4 A5]). exists h'. split; [exact E|].
  split; [done|exact A2|by destruct A3|done|done].
Qed.

(** *** [rt_realloc] *)
Lemma free_start_shrink lf pre n k post :
  long (pre ++ (true, n) :: post) → free_start lf 0 (pre ++ (true, n) :: post) →
  free_start lf 0 ((pre ++ [(true, k)]) ++ (false, n - k) :: post).
Proof.
  intros [Hl _]%Forall_app. rewrite <- app_assoc, !free_start_app by done. simpl.
  rewrite ?Z.add_0_l. replace (total pre + k + (n - k)) with (total pre + n) by lia.
  intros [?|[[? _]|?]]; [by left|done|by right; right; right].
Qed.

Lemma first_free_shrink off pre n k m post :
  long (pre ++ (true, n) :: post) → k < n →
  first_free off (pre ++ (true, n) :: post) < off + total pre + k →
  first_free off (pre ++ [(true, k)] ++ (false, m) :: post) = first_free off (pre ++ (true, n) :: post).
Proof.
  revert off. induction pre as [|[u j] pre IH]; intros off Hl Hk; simpl in *.
  - apply Forall_cons in Hl as [_ Hl]. pose proof (first_free_ge (off + n) post Hl). lia.
  - apply Forall_cons in Hl as [_ Hl]. destruct u; [|done]. intros H. apply IH; [done..|lia].
Qed.

(** The branch of [rt_realloc] that shrinks a block in place. *)
Definition shrink (ptr size newsize : Z) (mem : heap_mem) (msz rmem : Z) : HM Z :=
  modify (λ h, set_used_mem (u32 (used_mem h - (size - newsize))) h) ;;;
  put_hdr (ptr + SIZEOF_STRUCT_MEM + newsize) (mk_hm HEAP_MAGIC 0 (hm_next mem) ptr) ;;;
  set_next ptr (ptr + SIZEOF_STRUCT_MEM + newsize) ;;;
  (when negb (hm_next mem =? msz + SIZEOF_STRUCT_MEM)
   then set_prev (hm_next mem) (ptr + SIZEOF_STRUCT_MEM + newsize)) ;;;
  plug_holes (ptr + SIZEOF_STRUCT_MEM + newsize) ;;;
  heap_sem_release ;;;
  ret rmem.

Lemma shrink_run h pre n k post rmem :
  heap_is (set_heap_sem 1 h) (pre ++ (true, n) :: post) → heap_sem h = 0 →
  16 < k → k mod 8 = 0 → 16 < n - k →
  ∃ h', shrink (total pre) (n - 16) (k - 16) (header true (total pre) n (last_off 0 0 pre))
      (mem_size_aligned h) rmem h = Ok rmem h' ∧
    heap_is h' (coalesce ((pre ++ [(true, k)]) ++ (false, n - k) :: post)) ∧
    heap_frame h h' ∧ bytes h' = bytes h ∧ hook_log h' = hook_log h ∧ 
    (lfree h < total pre + k → lfree_lowest h (pre ++ (true, n) :: post) →
     lfree_lowest h' (coalesce ((pre ++ [(true, k)]) ++ (false, n - k) :: post))).
Proof.
  intros [Hst Hrep Hco Hlf Hused Hmax _] Hsem Hk Hk8 Hnk. cbn in Hrep, Hlf, Hused, Hmax.
  assert (heap_static h) as Hst' by by destruct Hst. clear Hst.
  pose proof (rep_at _ _ _ _ _ _ Hrep) as Hp.
  pose proof (rep_bounds _ _ _ _ _ _ Hrep) as (Hb1 & Hb2 & Hb3 & Hb4 & Hb5).
  pose proof (rep_long _ _ _ Hrep) as Hl.
  pose proof (hs_end _ Hst') as He. pose proof (hs_pos _ Hst'). pose proof (hs_top _ Hst').
  assert (n ≤ used_mem h ≤ heap_end h) as Hu.
  { pose proof (used_total_range _ Hl). rewrite (rep_total _ _ _ Hrep) in *.
    rewrite Hused in *. rewrite used_total_app in *. simpl in *.
    apply Forall_app in Hl as [Hl1 [_ Hl2]%Forall_cons].
    pose proof (used_total_range _ Hl1). pose proof (used_total_range _ Hl2). lia. }
  unfold shrink. change SIZEOF_STRUCT_MEM with 16 in *. change (2 ^ 32) with 4294967296 in *.
  replace (total pre + 16 + (k - 16)) with (total pre + k) by lia.
  replace (n - 16 - (k - 16)) with (n - k) by lia.
  rewrite bind_modify. cbn [header hm_next]. rewrite u32_small by (change (2 ^ 32) with 4294967296; lia).
  unfold put_hdr. rewrite bind_modify.
  erewrite bind_ok by (apply set_next_run; hs; rewrite lookup_insert_ne by lia; exact Hp).
  hs. cbn [header hm_magic hm_used hm_prev]. set (hd1 := <[total pre := _]> _).
  set (h1 := set_used_mem (used_mem h - (n - k)) h).
  destruct (set_next_prev_run h1 hd1 _ _ _ _ (total pre + k) Hrep)
    as (hd2 & E2 & Hf2 & Hn2); [unfold hd1; hs; by rewrite !lookup_insert_ne by lia|].
  match goal with |- ∃ h', bind _ _ ?st = _ ∧ _ => change st with (set_hdrs hd1 h1) end.
  rewrite <- He. change (heap_end h) with (heap_end h1). rewrite (bind_ok _ _ _ _ _ E2).
  assert (rep hd2 (heap_end h) ((pre ++ [(true, k)]) ++ (false, n - k) :: post)) as Hrep2.
  { rewrite <- app_assoc.
    change ((true, n) :: post) with ([(true, n)] ++ post) in Hrep.
    change ([(true, k)] ++ (false, n - k) :: post) with ([(true, k); (false, n - k)] ++ post).
    eapply rep_replace; [exact Hrep|simpl; lia..| | | |]; simpl.
    - repeat constructor; simpl; change SIZEOF_STRUCT_MEM with 16; try lia.
      by rewrite Zminus_mod, Hk8, Hb3.
    - rewrite !Hf2 by lia. unfold hd1. rewrite lookup_insert_eq.
      rewrite lookup_insert_ne, lookup_insert_eq by lia. unfold header.
      split_and!; [done|do 2 f_equal; lia|done].
    - intros j Hj. rewrite Hf2 by lia. unfold hd1. by rewrite !lookup_insert_ne by lia.
    - rewrite Z.add_0_r. exact Hn2. }
  pose proof (free_start_shrink _ _ _ k _ Hl Hlf) as Hlf2.
  apply coalesced_app in Hco as (Hc1 & [_ Hc2]%coalesced_cons & _).
  destruct (plug_run (set_hdrs hd2 h1) (pre ++ [(true, k)]) (n - k) post Hrep2 Hlf2) as (h3 & E3 & Hm3);
    [by apply coalesced_app; split_and!; [| |right]|done|].
  rewrite total_app in E3. simpl in E3. rewrite Z.add_0_r in E3.
  rewrite (bind_ok _ _ _ _ _ E3). destruct Hm3 as (hd3 & lf3 & -> & Hr3 & Hf3 & Hff3).
  rewrite sem_release_bind by done. eexists. split_and!; [reflexivity| | | | |]; try done.
  - split; hs; try done.
    + by destruct Hst'.
    + apply coalesce_coalesced.
    + change (used_mem h1) with (used_mem h - (n - k)).
      rewrite coalesce_used, Hused, !used_total_app. simpl. lia.
    + change (max_mem h1) with (max_mem h). rewrite coalesce_used, !used_total_app in *. simpl in *. lia.
  - intros Hlt Hlow. apply Hff3. hs. change (lfree h1) with (lfree h). unfold lfree_lowest in Hlow.
    rewrite <- app_assoc. rewrite Hlow in *. symmetry.
    apply (first_free_shrink 0 pre n k (n - k) post); [done|lia|lia].
Qed.
End ops.
