(* ===== verification/HeapSpec.v ===== *)
(** * What the heap promises to its clients

    The bytes of a block that [rt_malloc] hands out belong to the caller
    alone until [rt_free]; [rt_realloc] keeps the data; freeing restores the
    heap.  The theorems are about [Mem], through the block lists of [Heap]. *)

From S2P Require Import Prelude RtDef Mem Heap.
Import Mem.

(** ** Ownership

    The bytes of the blocks in use, headers excluded. *)
Fixpoint owned (base off : Z) (bs : list block) (a : Z) : Prop :=
  match bs with
  | [] => False
  | (u, n) :: bs =>
    (u = true ∧ base + off + SIZEOF_STRUCT_MEM ≤ a < base + off + n) ∨ owned base (off + n) bs a
  end.

Lemma owned_app base off bs bs' a :
  owned base off (bs ++ bs') a ↔ owned base off bs a ∨ owned base (off + total bs) bs' a.
Proof.
  revert off. induction bs as [|[u n] bs IH]; intros off; simpl.
  - rewrite Z.add_0_r. tauto.
  - rewrite IH, Z.add_assoc. tauto.
Qed.

Lemma owned_range base off bs a :
  long bs → owned base off bs a → base + off + SIZEOF_STRUCT_MEM ≤ a < base + off + total bs.
Proof.
  intros Hl. revert off. induction Hl as [|[u n] bs Hn Hl IH]; intros off; simpl in *; [done|].
  change SIZEOF_STRUCT_MEM with 16 in *. pose proof (total_nonneg _ Hl).
  intros [[_ ?]|H']; [lia|]. apply IH in H'. lia.
Qed.

Lemma owned_coalesce base off bs a : owned base off (coalesce bs) a ↔ owned base off bs a.
Proof.
  revert off. induction bs as [|[u n] bs IH]; intros off; simpl; [done|].
  rewrite <- (IH (off + n)). destruct u; simpl; [done|].
  destruct (coalesce bs) as [|[[] m] bs']; simpl;
    rewrite ?Z.add_assoc; clear; intuition discriminate.
Qed.

(** The address range of a block of length [n] behind [pre]. *)
Definition in_block (h : heap_state) (pre : list block) (n a : Z) : Prop :=
  addr h pre ≤ a < addr h pre + (n - SIZEOF_STRUCT_MEM).

Lemma owned_split h pre n post a :
  long (pre ++ (true, n) :: post) →
  owned (heap_ptr h) 0 (pre ++ (true, n) :: post) a ↔
    in_block h pre n a ∨ owned (heap_ptr h) 0 (pre ++ (false, n) :: post) a.
Proof.
  intros Hl. rewrite !owned_app. simpl. unfold in_block, addr. change SIZEOF_STRUCT_MEM with 16.
  split; [intros [?|[[_ ?]|?]]|intros [?|[?|[[? _]|?]]]]; try tauto.
  - left. lia.
  - right. left. split; [done|lia].
  - done.
Qed.

Lemma owned_disjoint h pre n post a :
  long (pre ++ (false, n) :: post) →
  in_block h pre n a → ¬ owned (heap_ptr h) 0 (pre ++ (false, n) :: post) a.
Proof.
  intros Hl Hb. rewrite owned_app. simpl. unfold in_block, addr in Hb.
  apply Forall_app in Hl as [Hl1 [Hn Hl2]%Forall_cons]. simpl in Hn.
  change SIZEOF_STRUCT_MEM with 16 in *.
  intros [Ho|[[? _]|Ho]]; [|done|]; apply owned_range in Ho; try done;
    change SIZEOF_STRUCT_MEM with 16 in *; lia.
Qed.

Lemma owned_free h pre n post a :
  long (pre ++ (true, n) :: post) →
  owned (heap_ptr h) 0 (coalesce (pre ++ (false, n) :: post)) a ↔
    owned (heap_ptr h) 0 (pre ++ (true, n) :: post) a ∧ ¬ in_block h pre n a.
Proof.
  intros Hl. rewrite owned_coalesce, owned_split by done.
  assert (long (pre ++ (false, n) :: post)) as Hl'.
  { apply Forall_app in Hl as [? [??]%Forall_cons]. apply Forall_app. split; [done|]. by constructor. }
  pose proof (owned_disjoint h pre n post a Hl'). tauto.
Qed.

(** ** Copying user data *)
Lemma copy_bytes_other k dst src b a :
  ¬ (dst ≤ a < dst + Z.of_nat k) → copy_bytes k dst src b !! a = b !! a.
Proof.
  revert dst src b. induction k as [|k IH]; intros dst src b Ha; [done|]. simpl copy_bytes.
  rewrite IH by lia. destruct (b !! src).
  - apply lookup_insert_ne. lia.
  - apply lookup_delete_ne. lia.
Qed.

Lemma copy_bytes_copied k dst src b i :
  (dst + Z.of_nat k ≤ src ∨ src + Z.of_nat k ≤ dst) → 0 ≤ i < Z.of_nat k →
  copy_bytes k dst src b !! (dst + i) = b !! (src + i).
Proof.
  revert dst src b i. induction k as [|k IH]; intros dst src b i Hd Hi; [lia|]. simpl copy_bytes.
  set (b' := match b !! src with Some v => _ | None => _ end).
  assert (∀ a, a ≠ dst → b' !! a = b !! a) as Hb.
  { intros a Ha. unfold b'. destruct (b !! src); [apply lookup_insert_ne|apply lookup_delete_ne]; lia. }
  destruct (Z.eqb_spec i 0) as [->|Hne].
  - rewrite !Z.add_0_r, copy_bytes_other by lia. unfold b'.
    destruct (b !! src); [apply lookup_insert_eq|apply lookup_delete_eq].
  - replace (dst + i) with (dst + 1 + (i - 1)) by lia.
    rewrite IH by lia. rewrite Hb by lia. f_equal. lia.
Qed.

Lemma fill_bytes_other k dst c b a :
  ¬ (dst ≤ a < dst + Z.of_nat k) → fill_bytes k dst c b !! a = b !! a.
Proof.
  revert dst b. induction k as [|k IH]; intros dst b Ha; [done|]. simpl.
  rewrite IH by lia. apply lookup_insert_ne. lia.
Qed.

Lemma fill_bytes_filled k dst c b a :
  dst ≤ a < dst + Z.of_nat k → fill_bytes k dst c b !! a = Some c.
Proof.
  revert dst b. induction k as [|k IH]; intros dst b Ha; [lia|]. simpl.
  destruct (Z.eqb_spec a dst) as [->|]; [|apply IH; lia].
  rewrite fill_bytes_other by lia. apply lookup_insert_eq.
Qed.

(** ** The operations *)
(** The addresses of the blocks in use. *)
Fixpoint used_addrs (base off : Z) (bs : list block) : list Z :=
  match bs with
  | [] => []
  | (u, n) :: bs =>
    if u then base + off + SIZEOF_STRUCT_MEM :: used_addrs base (off + n) bs
    else used_addrs base (off + n) bs
  end.

Lemma used_addrs_app base off bs bs' :
  used_addrs base off (bs ++ bs') = used_addrs base off bs ++ used_addrs base (off + total bs) bs'.
Proof.
  revert off. induction bs as [|[[] n] bs IH]; intros off; simpl.
  - by rewrite Z.add_0_r.
  - by rewrite IH, Z.add_assoc.
  - by rewrite IH, Z.add_assoc.
Qed.

Lemma used_addrs_coalesce base off bs : used_addrs base off (coalesce bs) = used_addrs base off bs.
Proof.
  revert off. induction bs as [|[[] n] bs IH]; intros off; simpl; [done|by rewrite IH|].
  rewrite <- IH. destruct (coalesce bs) as [|[[] m] bs']; simpl; try done. by rewrite Z.add_assoc.
Qed.

Lemma used_addrs_carve base off size n :
  used_addrs base off (carve size n) = [base + off + SIZEOF_STRUCT_MEM].
Proof. unfold carve. by case_match. Qed.

(** Taking the free block behind [pre] adds its address. *)
Lemma used_addrs_take base pre n post size :
  used_addrs base 0 (pre ++ carve size n ++ post) ≡ₚ
    base + total pre + SIZEOF_STRUCT_MEM :: used_addrs base 0 (pre ++ (false, n) :: post).
Proof.
  rewrite !used_addrs_app, used_addrs_carve, carve_total. simpl.
  by rewrite <- Permutation_middle.
Qed.

Lemma used_addrs_drop base pre n post :
  used_addrs base 0 (pre ++ (true, n) :: post) ≡ₚ
    base + total pre + SIZEOF_STRUCT_MEM :: used_addrs base 0 (pre ++ (false, n) :: post).
Proof. rewrite !used_addrs_app. simpl. by rewrite <- Permutation_middle. Qed.

Lemma used_addrs_in base off bs p :
  p ∈ used_addrs base off bs →
  ∃ pre n post, bs = pre ++ (true, n) :: post ∧ p = base + off + total pre + SIZEOF_STRUCT_MEM.
Proof.
  revert off. induction bs as [|[u n] bs IH]; intros off; simpl; [set_solver|].
  assert (p ∈ used_addrs base (off + n) bs → ∃ pre m post, (u, n) :: bs = pre ++ (true, m) :: post ∧
    p = base + off + total pre + SIZEOF_STRUCT_MEM) as Hx.
  { intros (pre & m & post & -> & ->)%IH. exists ((u, n) :: pre), m, post. split; [done|]. simpl. lia. }
  destruct u; [|done]. intros [->|Hin]%elem_of_cons; [|auto].
  exists [], n, bs. split; [done|]. simpl. lia.
Qed.

Lemma used_addrs_ge base off bs p :
  long bs → p ∈ used_addrs base off bs → base + off + SIZEOF_STRUCT_MEM ≤ p.
Proof.
  intros Hl (pre & n & post & -> & ->)%used_addrs_in. apply Forall_app in Hl as [Hl _].
  pose proof (total_nonneg _ Hl). lia.
Qed.

Lemma used_addrs_nodup base off bs : long bs → NoDup (used_addrs base off bs).
Proof.
  intros Hl. revert off. induction Hl as [|[u n] bs Hn Hl IH]; intros off; simpl; [constructor|].
  destruct u; [|done]. constructor; [|done]. intros Hin. apply used_addrs_ge in Hin; [|done].
  simpl in Hn. change SIZEOF_STRUCT_MEM with 16 in *. lia.
Qed.

Section ops.
Context {cfg : RTConfig}.

(** The requested bytes fit into the block that is taken. *)
Lemma carve_owned base off size n a :
  size + SIZEOF_STRUCT_MEM ≤ n →
  base + off + SIZEOF_STRUCT_MEM ≤ a < base + off + SIZEOF_STRUCT_MEM + size →
  owned base off (carve size n) a.
Proof. intros Hn Ha. unfold carve. case_match; simpl; left; split; done || lia. Qed.

Lemma carve_owned_inv base off size n a :
  owned base off (carve size n) a → base + off + SIZEOF_STRUCT_MEM ≤ a < base + off + n.
Proof.
  unfold carve. destruct (Z.leb_spec (size + SIZEOF_STRUCT_MEM + MIN_SIZE_ALIGNED) (n - SIZEOF_STRUCT_MEM));
    simpl; change SIZEOF_STRUCT_MEM with 16 in *; change MIN_SIZE_ALIGNED with 16 in *; intuition (discriminate || lia).
Qed.

Lemma request_ge size : 0 ≤ size ≤ 2 ^ 32 - 8 → size ≤ request size.
Proof.
  intros Hs. pose proof (align_ge size Hs). unfold request. change RT_ALIGN_SIZE with 8.
  destruct (Z.ltb_spec (RT_ALIGN size 8) MIN_SIZE_ALIGNED); lia.
Qed.

Lemma addr_mod h pre u n post :
  heap_is h (pre ++ (u, n) :: post) → addr h pre mod 8 = 0.
Proof.
  intros Hh. pose proof (hs_ptr _ (hi_static _ _ Hh)) as Hp.
  pose proof (rep_len _ _ _ (hi_rep _ _ Hh)) as Hl. apply Forall_app in Hl as [Hl _].
  apply total_mod in Hl. unfold addr. change SIZEOF_STRUCT_MEM with 16.
  by rewrite Z.add_mod, (Z.add_mod (heap_ptr h)), Hp, Hl by lia.
Qed.

Lemma addr_pos h pre post : heap_is h (pre ++ post) → 0 < addr h pre.
Proof.
  intros Hh. pose proof (hs_pos _ (hi_static _ _ Hh)) as Hp.
  pose proof (rep_long _ _ _ (hi_rep _ _ Hh)) as Hl. apply Forall_app in Hl as [Hl _].
  pose proof (total_nonneg _ Hl). unfold addr. change SIZEOF_STRUCT_MEM with 16. lia.
Qed.

(** C31: [rt_malloc] either returns null and changes nothing, or takes a free
    block: it returns an aligned address inside the heap, the requested bytes
    belonged to nobody and belong to the caller now, everything owned before
    is still owned, no byte of user data changes, and the heap stays well
    formed. *)
Theorem malloc_correct (h : heap_state) (bs : list (bool * Z)) (size : Z) :
  heap_is h bs → 0 < size ≤ 2 ^ 32 - 8 →
  rt_malloc size h = Ok 0 h ∨
  ∃ p h' bs', rt_malloc size h = Ok p h' ∧ heap_is h' bs' ∧ p mod 8 = 0 ∧
    heap_ptr h < p ∧ p + size ≤ heap_ptr h + heap_end h ∧
    (∀ a, p ≤ a < p + size → ¬ owned (heap_ptr h) 0 bs a ∧ owned (heap_ptr h) 0 bs' a) ∧
    (∀ a, owned (heap_ptr h) 0 bs a → owned (heap_ptr h) 0 bs' a) ∧
    bytes h' = bytes h ∧ used_mem h < used_mem h' ∧ (lfree_lowest h bs → lfree_lowest h' bs').
Proof.
  intros Hh Hs. pose proof (rt_malloc_run h bs size Hh) as Hrun.
  destruct (mem_size_aligned h <? RT_ALIGN size RT_ALIGN_SIZE); [left; apply Hrun; lia|].
  destruct (alloc (heap_end h) (lfree h) (request size) 0 bs) as [[p bs']|] eqn:E;
    [right|left; apply Hrun; lia].
  destruct Hrun as (h' & E' & [A1 A2 A3 A4 A5]); [lia|].
  apply alloc_some in E as (pre & n & post & -> & -> & _ & Hfit & ->).
  rewrite Z.add_0_l in *. change (heap_ptr h + total pre + SIZEOF_STRUCT_MEM) with (addr h pre) in *.
  apply andb_true_iff in Hfit as [Hf1%Z.leb_le Hf2%Z.ltb_lt].
  pose proof (request_ge size ltac:(lia)) as Hr.
  pose proof (rep_long _ _ _ (hi_rep _ _ Hh)) as Hl.
  exists (addr h pre), h', (pre ++ carve (request size) n ++ post). split_and!; try done.
  - by eapply addr_mod.
  - pose proof (total_nonneg pre) as Ht. apply Forall_app in Hl as [Hl _]. specialize (Ht Hl).
    unfold addr. change SIZEOF_STRUCT_MEM with 16. lia.
  - unfold addr. change SIZEOF_STRUCT_MEM with 16 in *. lia.
  - intros a Ha. split.
    + apply owned_disjoint; [done|]. unfold in_block. change SIZEOF_STRUCT_MEM with 16 in *. lia.
    + rewrite !owned_app. right. left. apply carve_owned; [lia|]. unfold addr in Ha. lia.
  - intros a. rewrite !owned_app. simpl. rewrite carve_total. naive_solver.
  - rewrite (hi_used _ _ Hh), (hi_used _ _ A1), !used_total_app. simpl.
    unfold carve. change SIZEOF_STRUCT_MEM with 16 in *. case_match; simpl; lia.
Qed.

(** C32: [rt_free] of a block in use gives its bytes back, keeps those of every
    other block and all user data, merges the block with its free neighbours
    and keeps the heap well formed. *)
Theorem free_correct (h : heap_state) (pre : list (bool * Z)) (n : Z) (post : list (bool * Z)) :
  heap_is h (pre ++ (true, n) :: post) →
  ∃ h', rt_free (addr h pre) h = Ok tt h' ∧
    heap_is h' (coalesce (pre ++ (false, n) :: post)) ∧
    (∀ a, owned (heap_ptr h) 0 (coalesce (pre ++ (false, n) :: post)) a ↔
          owned (heap_ptr h) 0 (pre ++ (true, n) :: post) a ∧ ¬ in_block h pre n a) ∧
    bytes h' = bytes h ∧ used_mem h' = used_mem h - n ∧
    (lfree_lowest h (pre ++ (true, n) :: post) →
     lfree_lowest h' (coalesce (pre ++ (false, n) :: post))).
Proof.
  intros Hh. destruct (rt_free_run h pre n post Hh) as (h' & E & Hh' & Hlow & _ & Hb & _).
  exists h'. split_and!; try done.
  - intros a. apply owned_free. exact (rep_long _ _ _ (hi_rep _ _ Hh)).
  - rewrite (hi_used _ _ Hh), (hi_used _ _ Hh'), coalesce_used, !used_total_app. simpl. lia.
Qed.

(** while [lfree] is the lowest free block, [rt_malloc] fails only when no
    free block is large enough; the one exception is an exact fit in the last
    block of the heap, which the search never takes. *)
Theorem malloc_complete (h : heap_state) (bs : list (bool * Z)) (size : Z) :
  heap_is h bs → lfree_lowest h bs → 0 < size ≤ 2 ^ 32 - 8 → rt_malloc size h = Ok 0 h →
  ∀ pre n post, bs = pre ++ (false, n) :: post →
    n < request size + SIZEOF_STRUCT_MEM ∨ (n = request size + SIZEOF_STRUCT_MEM ∧ post = []).
Proof.
  intros Hh Hlow Hs E pre n post ->. pose proof (rt_malloc_run h _ size Hh ltac:(lia)) as Hrun.
  pose proof (rep_bounds _ _ _ _ _ _ (hi_rep _ _ Hh)) as (Hb1 & Hb2 & Hb3 & Hb4 & Hb5).
  pose proof (hs_end _ (hi_static _ _ Hh)) as He.
  pose proof (rep_long _ _ _ (hi_rep _ _ Hh)) as Hl. apply Forall_app in Hl as [Hl1 [_ Hl2]%Forall_cons].
  destruct (Z.ltb_spec (mem_size_aligned h) (RT_ALIGN size RT_ALIGN_SIZE)) as [Hlt|Hge].
  { left. assert (RT_ALIGN size RT_ALIGN_SIZE ≤ request size); [|lia].
    unfold request. destruct (Z.ltb_spec (RT_ALIGN size RT_ALIGN_SIZE) MIN_SIZE_ALIGNED); lia. }
  destruct (alloc (heap_end h) (lfree h) (request size) 0 _) as [[p bs']|] eqn:Ea.
  - destruct Hrun as (h' & E' & _). rewrite E in E'. injection E' as Hp _.
    apply alloc_some in Ea as (pre' & n' & post' & Eq & -> & _).
    rewrite Eq in Hh. pose proof (addr_pos h pre' _ Hh) as Ha. unfold addr in Ha. lia.
  - pose proof (alloc_none _ _ _ _ _ pre n post Ea eq_refl) as Hf.
    destruct (first_free_app 0 pre n post Hl1) as [_ Hle]. rewrite <- Hlow in Hle.
    specialize (Hf Hle). unfold fits in Hf. rewrite Z.add_0_l in Hf.
    apply andb_false_iff in Hf as [Hf%Z.leb_gt|Hf%Z.ltb_ge]; [lia|].
    destruct (Z.eqb_spec n (request size + SIZEOF_STRUCT_MEM)) as [Hn|Hn]; [|lia].
    right. split; [done|]. destruct post as [|[v k] post]; [done|]. exfalso.
    apply Forall_cons in Hl2 as [Hk Hl2]. pose proof (total_nonneg _ Hl2). simpl in *.
    change SIZEOF_STRUCT_MEM with 16 in *. lia.
Qed.

(** Freeing what was just allocated undoes the split. *)
Lemma carve_coalesce pre n post size :
  coalesced (pre ++ (false, n) :: post) →
  ∃ k rest, carve size n = (true, k) :: rest ∧
    coalesce (pre ++ (false, k) :: rest ++ post) = pre ++ (false, n) :: post.
Proof.
  intros Hc. pose proof Hc as (H1 & [H2 H3]%coalesced_cons & [H4|[]])%coalesced_app.
  specialize (H2 eq_refl). unfold carve. case_match; eexists _, _; (split; [reflexivity|]).
  - rewrite coalesce_app by done. f_equal. simpl app. rewrite coalesce_merge_prev by done.
    destruct post as [|[[] m] post]; simpl; try done; do 2 f_equal; lia.
  - simpl. by apply coalesce_id.
Qed.

(** freeing a block that [rt_malloc] has just returned restores the list of
    blocks and the amount of memory in use. *)
Theorem malloc_free_roundtrip (h : heap_state) (bs : list (bool * Z)) (size p : Z) (h1 : heap_state) :
  heap_is h bs → size ≠ 0 → rt_malloc size h = Ok p h1 → p ≠ 0 →
  ∃ h2, rt_free p h1 = Ok tt h2 ∧ heap_is h2 bs ∧ used_mem h2 = used_mem h ∧ bytes h2 = bytes h ∧
    (lfree_lowest h bs → lfree_lowest h2 bs).
Proof.
  intros Hh Hs E Hp. pose proof (rt_malloc_run h bs size Hh Hs) as Hrun.
  destruct (mem_size_aligned h <? RT_ALIGN size RT_ALIGN_SIZE); [congruence|].
  destruct (alloc (heap_end h) (lfree h) (request size) 0 bs) as [[q bs']|] eqn:Ea; [|congruence].
  destruct Hrun as (h' & E' & [A1 A2 A3 A4 A5]). rewrite E in E'. injection E' as -> <-.
  apply alloc_some in Ea as (pre & n & post & -> & -> & _ & _ & ->).
  destruct (carve_coalesce pre n post (request size) (hi_coalesced _ _ Hh)) as (k & rest & Ec & Eco).
  rewrite Ec in A1, A2. simpl in A1, A2.
  destruct (rt_free_run h1 pre k (rest ++ post) A1) as (h2 & E2 & Hh2 & Hlow & _ & Hb & _).
  rewrite Eco in Hh2, Hlow. exists h2.
  replace (heap_ptr h + (0 + total pre) + SIZEOF_STRUCT_MEM) with (addr h1 pre).
  2:{ unfold addr. rewrite (hf_ptr _ _ A3). lia. }
  split_and!; try done.
  - by rewrite (hi_used _ _ Hh), (hi_used _ _ Hh2).
  - congruence.
  - auto.
Qed.

Lemma heap_is_bytes h bs b : heap_is h bs → heap_is (set_bytes b h) bs.
Proof. intros [[] ????? ?]. by split. Qed.

(** A block in use stays where it is when a free block is replaced. *)
Lemma used_persist pre n post pre' m post' mid :
  pre ++ (true, n) :: post = pre' ++ (false, m) :: post' → total mid = m →
  ∃ pre2 post2, pre' ++ mid ++ post' = pre2 ++ (true, n) :: post2 ∧ total pre2 = total pre.
Proof.
  intros [(k & -> & Hk)|(k & -> & Hk)]%app_eq_inv Hm.
  - destruct k as [|b k]; simplify_list_eq.
    exists (pre' ++ mid ++ k), post. split; [by simplify_list_eq|].
    rewrite !total_app. simpl. lia.
  - destruct k as [|b k]; simplify_list_eq.
    exists pre, (k ++ mid ++ post'). split; [by simplify_list_eq|done].
Qed.

(** What [rt_realloc] promises about a result that is not null. *)
Definition reallocated (h h' : heap_state) (pre : list (bool * Z)) (n : Z) (post bs' : list (bool * Z))
    (p size : Z) : Prop :=
  heap_is h' bs' ∧ heap_ptr h' = heap_ptr h ∧ 0 < p ∧ p mod 8 = 0 ∧
  used_addrs (heap_ptr h) 0 bs' ≡ₚ p :: used_addrs (heap_ptr h) 0 (pre ++ (false, n) :: post) ∧
  (∀ a, p ≤ a < p + size → owned (heap_ptr h) 0 bs' a) ∧
  (∀ i, 0 ≤ i < Z.min size (n - SIZEOF_STRUCT_MEM) → bytes h' !! (p + i) = bytes h !! (addr h pre + i)) ∧
  (∀ a, owned (heap_ptr h) 0 (pre ++ (false, n) :: post) a →
     owned (heap_ptr h) 0 bs' a ∧ bytes h' !! a = bytes h !! a).

(** [rt_realloc] of a block in use, without the checks it passes. *)
Definition move (pre : list (bool * Z)) (n sz : Z) (h : heap_state) : res heap_state Z :=
  (let! nmem := rt_malloc sz in
   (if negb (nmem =? 0) then
      modify (λ h', set_bytes (copy_bytes (Z.to_nat (if n - 16 <? sz then n - 16 else sz))
                                          nmem (addr h pre) (bytes h')) h') ;;;
      rt_free (addr h pre)
    else ret tt) ;;;
   ret nmem) h.

Lemma realloc_eq h pre n post newsize :
  heap_is h (pre ++ (true, n) :: post) →
  let sz := RT_ALIGN newsize RT_ALIGN_SIZE in
  rt_realloc (addr h pre) newsize h =
    if mem_size_aligned h <? sz then Ok 0 h else
    if n - 16 =? sz then Ok (addr h pre) h else
    if sz + 16 + 12 <? n - 16 then
      shrink (total pre) (n - 16) sz (header true (total pre) n (last_off 0 0 pre))
        (mem_size_aligned h) (addr h pre) (set_heap_sem 0 h)
    else move pre n sz h.
Proof.
  intros Hh sz. pose proof (align_range newsize) as Har.
  change (RT_ALIGN newsize 8) with sz in Har.
  pose proof (rep_bounds _ _ _ _ _ _ (hi_rep _ _ Hh)) as (Hb1 & Hb2 & Hb3 & Hb4 & Hb5).
  pose proof (hi_static _ _ Hh) as Hst. pose proof (hs_end _ Hst) as He. pose proof (hs_pos _ Hst) as Hpos.
  pose proof (hs_top _ Hst) as Htop. change (2 ^ 32) with 4294967296 in *.
  assert (heap_ptr h ≤ addr h pre ∧ addr h pre < heap_ptr h + heap_end h) as Hap.
  { unfold addr. change SIZEOF_STRUCT_MEM with 16 in *. lia. }
  assert (set_heap_sem 1 (set_heap_sem 0 h) = h) as Eh by (rewrite <- (hi_sem _ _ Hh); reflexivity).
  change SIZEOF_STRUCT_MEM with 16 in *.
  unfold rt_realloc. fold sz. rewrite bind_gets.
  destruct (Z.ltb_spec (mem_size_aligned h) sz) as [|Hle]; [done|].
  rewrite (proj2 (Z.eqb_neq _ 0)) by lia.
  rewrite sem_take_bind by apply (hi_sem _ _ Hh). rewrite !bind_gets.
  change (heap_ptr (set_heap_sem 0 h)) with (heap_ptr h).
  change (heap_end (set_heap_sem 0 h)) with (heap_end h).
  rewrite (proj2 (Z.ltb_ge _ _)), (proj2 (Z.leb_gt _ _)) by lia. cbn [orb].
  replace (addr h pre - SIZEOF_STRUCT_MEM - heap_ptr h) with (total pre) by (unfold addr; lia).
  erewrite bind_ok by (apply get_hdr_run; eapply rep_at; exact (hi_rep _ _ Hh)).
  cbn [hm_next header]. change SIZEOF_STRUCT_MEM with 16.
  replace (total pre + n - total pre - 16) with (n - 16) by lia. change MIN_SIZE with 12.
  rewrite !(u32_small (n - 16)), !(u32_small (sz + 16 + 12)) by (change (2 ^ 32) with 4294967296; lia).
  destruct (n - 16 =? sz); [by rewrite sem_release_bind, Eh|].
  destruct (sz + 16 + 12 <? n - 16); [done|]. by rewrite sem_release_bind, Eh.
Qed.

Lemma realloc_shrunk h pre n post sz :
  heap_is h (pre ++ (true, n) :: post) → 0 < sz → sz mod 8 = 0 → sz + 28 < n - 16 →
  ∃ h' bs', shrink (total pre) (n - 16) sz (header true (total pre) n (last_off 0 0 pre))
      (mem_size_aligned h) (addr h pre) (set_heap_sem 0 h) = Ok (addr h pre) h' ∧
    reallocated h h' pre n post bs' (addr h pre) sz.
Proof.
  intros Hh Hs Ham Hsh.
  destruct (shrink_run (set_heap_sem 0 h) pre n (sz + 16) post (addr h pre)) as
    (h' & E & Hh' & Hfr & Hby & _); try done; try lia.
  { replace (set_heap_sem 1 (set_heap_sem 0 h)) with h; [done|].
    rewrite <- (hi_sem _ _ Hh). reflexivity. }
  { by rewrite Z.add_mod, Ham. }
  replace (sz + 16 - 16) with sz in E by lia.
  exists h', (coalesce ((pre ++ [(true, sz + 16)]) ++ (false, n - (sz + 16)) :: post)).
  split; [exact E|]. split_and!;
    [done|apply (hf_ptr _ _ Hfr)|by eapply addr_pos|by eapply addr_mod| | | |].
  - rewrite used_addrs_coalesce, <- app_assoc. simpl. rewrite used_addrs_drop, !used_addrs_app.
    simpl. by replace (0 + total pre + (sz + 16) + (n - (sz + 16))) with (0 + total pre + n) by lia.
  - intros a Hr. rewrite owned_coalesce, <- app_assoc, !owned_app. right. simpl. left. left.
    unfold addr in Hr. change SIZEOF_STRUCT_MEM with 16 in *. split; [done|lia].
  - intros i _. by rewrite Hby.
  - intros a. rewrite Hby, owned_coalesce, <- app_assoc, !owned_app. simpl.
    replace (0 + total pre + (sz + 16 + 0) + (n - (sz + 16))) with (0 + total pre + n) by lia.
    intros [?|[[? _]|?]]; done || (split; [tauto|done]).
Qed.

Lemma realloc_moved h pre n post sz :
  heap_is h (pre ++ (true, n) :: post) → 0 < sz ≤ 2 ^ 32 - 8 →
  move pre n sz h = Ok 0 h ∨
  ∃ p h' bs', move pre n sz h = Ok p h' ∧ reallocated h h' pre n post bs' p sz.
Proof.
  intros Hh Hs. pose proof (rt_malloc_run h _ sz Hh ltac:(lia)) as Hrun. unfold move.
  destruct (mem_size_aligned h <? RT_ALIGN sz RT_ALIGN_SIZE); [left; by rewrite (bind_ok _ _ _ _ _ Hrun)|].
  destruct (alloc _ _ _ _ _) as [[q bs1]|] eqn:Ea; [|left; by rewrite (bind_ok _ _ _ _ _ Hrun)].
  right. destruct Hrun as (h1 & E1 & [A1 A2 A3 A4 A5]).
  apply alloc_some in Ea as (pre' & m & post' & Eb & -> & _ & Hfit & ->).
  rewrite Z.add_0_l in *. change (heap_ptr h + total pre' + SIZEOF_STRUCT_MEM) with (addr h pre') in *.
  apply andb_true_iff in Hfit as [Hf1%Z.leb_le _].
  pose proof (request_ge sz ltac:(lia)) as Hr.
  pose proof (rep_long _ _ _ (hi_rep _ _ Hh)) as Hl. pose proof Hl as Hl'. rewrite Eb in Hl'.
  rewrite Eb in Hh. pose proof (addr_pos h pre' _ Hh) as Hpos. pose proof (addr_mod h pre' _ _ _ Hh) as Hmod.
  rewrite <- Eb in Hh.
  destruct (used_persist _ _ _ _ _ _ _ Eb (carve_total (request sz) m)) as (pre2 & post2 & E2 & Ht2).
  set (k := Z.to_nat (if n - 16 <? sz then n - 16 else sz)).
  set (h2 := set_bytes (copy_bytes k (addr h pre') (addr h pre) (bytes h1)) h1).
  rewrite E2 in A1. pose proof (heap_is_bytes h1 _ (bytes h2) A1 : heap_is h2 _) as A2'.
  assert (addr h2 pre2 = addr h pre) as Ead.
  { unfold addr. rewrite Ht2. change (heap_ptr h2) with (heap_ptr h1). by rewrite (hf_ptr _ _ A3). }
  destruct (rt_free_run h2 pre2 n post2 A2') as (h3 & E3 & Hh3 & _ & Hf3 & Hb3 & _).
  exists (addr h pre'), h3, (coalesce (pre2 ++ (false, n) :: post2)). split.
  - rewrite (bind_ok _ _ _ _ _ E1). rewrite (proj2 (Z.eqb_neq _ 0)) by lia. cbn [negb].
    rewrite bind_assoc, bind_modify. fold k. change (set_bytes _ h1) with h2. rewrite <- Ead.
    by rewrite (bind_ok _ _ _ _ _ E3).
  - assert (heap_ptr h1 = heap_ptr h) as Ehp by apply (hf_ptr _ _ A3).
    assert (∀ a, in_block h2 pre2 n a ↔ in_block h pre n a) as Hib by (intros a; unfold in_block; by rewrite Ead).
    assert (∀ a, in_block h pre' m a → ¬ owned (heap_ptr h) 0 (pre ++ (true, n) :: post) a) as Hdis.
    { intros a Ha. rewrite Eb. apply owned_disjoint; [by rewrite <- Eb|done]. }
    assert (∀ a, in_block h pre n a → owned (heap_ptr h) 0 (pre ++ (true, n) :: post) a) as Hown.
    { intros a Ha. apply owned_split; [done|by left]. }
    assert (∀ a, owned (heap_ptr h) 0 (coalesce (pre2 ++ (false, n) :: post2)) a ↔
      owned (heap_ptr h) 0 (pre' ++ carve (request sz) m ++ post') a ∧ ¬ in_block h pre n a) as Hfree.
    { intros a. pose proof (owned_free h2 pre2 n post2 a (rep_long _ _ _ (hi_rep _ _ A2'))) as Hx.
      change (heap_ptr h2) with (heap_ptr h1) in Hx. rewrite Ehp, <- E2, Hib in Hx. exact Hx. }
    assert (∀ a, addr h pre' ≤ a < addr h pre' + sz → in_block h pre' m a) as Hin.
    { intros a Ha. unfold in_block. lia. }
    assert (Z.of_nat k = Z.min sz (n - 16) ∧ 0 ≤ Z.of_nat k) as [Hk Hk0].
    { pose proof (rep_bounds _ _ _ _ _ _ (hi_rep _ _ Hh)) as (_ & ? & _).
      unfold k. destruct (Z.ltb_spec (n - 16) sz); lia. }
    assert (used_addrs (heap_ptr h) 0 (coalesce (pre2 ++ (false, n) :: post2)) ≡ₚ
      addr h pre' :: used_addrs (heap_ptr h) 0 (pre ++ (false, n) :: post)) as Hperm.
    { rewrite used_addrs_coalesce. pose proof (used_addrs_take (heap_ptr h) pre' m post' (request sz)) as Hp1.
      rewrite E2, <- Eb, !used_addrs_drop, Ht2 in Hp1. unfold addr.
      apply (Permutation_cons_inv (a := heap_ptr h + total pre + SIZEOF_STRUCT_MEM)).
      rewrite Hp1. apply Permutation_swap. }
    change SIZEOF_STRUCT_MEM with 16 in *.
    split_and!; [done|rewrite (hf_ptr _ _ Hf3); exact Ehp|done|done|done| | |].
    + intros a Ha. apply Hfree. split.
      * rewrite !owned_app. right. left. apply carve_owned; change SIZEOF_STRUCT_MEM with 16; [lia|].
        unfold addr in Ha. change SIZEOF_STRUCT_MEM with 16 in *. lia.
      * intros Hb. by eapply Hdis, Hown; [apply Hin|].
    + intros i Hi. rewrite Hb3. change (bytes h2) with (copy_bytes k (addr h pre') (addr h pre) (bytes h1)).
      rewrite <- A4. change SIZEOF_STRUCT_MEM with 16 in Hi. apply copy_bytes_copied; [|lia].
      destruct (Z.le_gt_cases (addr h pre' + Z.of_nat k) (addr h pre)); [by left|right].
      destruct (Z.le_gt_cases (addr h pre + Z.of_nat k) (addr h pre')); [done|exfalso].
      set (a := Z.max (addr h pre) (addr h pre')).
      apply (Hdis a); [apply Hin; lia|]. apply Hown. unfold in_block.
      change SIZEOF_STRUCT_MEM with 16. lia.
    + intros a Ho.
      assert (owned (heap_ptr h) 0 (pre ++ (true, n) :: post) a) as Ho' by (apply owned_split; [done|by right]).
      split.
      * apply Hfree. split.
        -- rewrite Eb, owned_app in Ho'. simpl in Ho'. rewrite !owned_app, carve_total.
           intuition discriminate.
        -- intros Hb. eapply owned_disjoint; [|exact Hb|exact Ho].
           apply Forall_app in Hl as [? [??]%Forall_cons]. apply Forall_app. split; [done|]. by constructor.
      * rewrite Hb3. change (bytes h2) with (copy_bytes k (addr h pre') (addr h pre) (bytes h1)).
        rewrite copy_bytes_other, A4; [done|]. intros Ha. apply (Hdis a); [apply Hin; lia|done].
Qed.

Lemma realloc_run h pre n post newsize :
  heap_is h (pre ++ (true, n) :: post) → 0 < newsize ≤ 2 ^ 32 - 8 →
  rt_realloc (addr h pre) newsize h = Ok 0 h ∨
  ∃ p h' bs', rt_realloc (addr h pre) newsize h = Ok p h' ∧
    reallocated h h' pre n post bs' p (RT_ALIGN newsize RT_ALIGN_SIZE).
Proof.
  intros Hh Hs. pose proof (align_ge newsize ltac:(lia)) as Ha. pose proof (align_mod newsize) as Ham.
  rewrite (realloc_eq _ _ _ _ _ Hh). change RT_ALIGN_SIZE with 8 in *. set (sz := RT_ALIGN newsize 8) in *.
  destruct (mem_size_aligned h <? sz); [by left|].
  pose proof (rep_long _ _ _ (hi_rep _ _ Hh)) as Hl.
  destruct (Z.eqb_spec (n - 16) sz) as [Heq|Hne].
  { right. exists (addr h pre), h, (pre ++ (true, n) :: post). split; [done|]. split_and!; try done.
    - by eapply addr_pos.
    - by eapply addr_mod.
    - by rewrite used_addrs_drop.
    - intros a Hr. apply owned_split; [done|]. left. unfold in_block. change SIZEOF_STRUCT_MEM with 16. lia.
    - intros a Ho. split; [|done]. apply owned_split; [done|by right]. }
  destruct (Z.ltb_spec (sz + 16 + 12) (n - 16)) as [Hsh|Hge].
  - right. destruct (realloc_shrunk h pre n post sz Hh) as (h' & bs' & E & Hr); [lia..|].
    exists (addr h pre), h', bs'. auto.
  - apply realloc_moved; [done|]. pose proof (align_range newsize) as Har. fold sz in Har.
    Z.to_euclidean_division_equations. lia.
Qed.

(** C33: [rt_realloc] of a block in use either returns null and changes
    nothing, or returns an aligned block of the new size that starts with the
    old data, up to the smaller of the two sizes; the other blocks keep their
    bytes and addresses. *)
Theorem realloc_correct (h : heap_state) (pre : list (bool * Z)) (n : Z) (post : list (bool * Z))
    (newsize : Z) :
  heap_is h (pre ++ (true, n) :: post) → 0 < newsize ≤ 2 ^ 32 - 8 →
  rt_realloc (addr h pre) newsize h = Ok 0 h ∨
  ∃ p h' bs', rt_realloc (addr h pre) newsize h = Ok p h' ∧
    reallocated h h' pre n post bs' p newsize.
Proof.
  intros Hh Hs. pose proof (align_ge newsize ltac:(lia)) as Ha. change 8 with RT_ALIGN_SIZE in Ha.
  destruct (realloc_run h pre n post newsize Hh Hs) as [|(p & h' & bs' & E & H1 & H2 & H2' & H2'' & Hp & H3 & H4 & H5)];
    [by left|right].
  exists p, h', bs'. split; [done|]. split_and!; [done..| | |done].
  - intros a ?. apply H3. lia.
  - intros i ?. apply H4. lia.
Qed.

Lemma align_down_eq x : 0 ≤ x < 2 ^ 32 → RT_ALIGN_DOWN x 8 = 8 * (x / 8).
Proof.
  intros Hx. pose proof (align_eq (x - 7)) as H. unfold RT_ALIGN in H. unfold RT_ALIGN_DOWN.
  replace (x - 7 + 8 - 1) with x in H by lia. replace (x - 7 + 7) with x in H by lia.
  rewrite u32_small in H by done. exact H.
Qed.

(** [rt_system_heap_init] on a range that can hold a block makes the whole
    range, aligned, one free block. *)
Theorem heap_init_correct (h : heap_state) (begin_addr end_addr : Z) :
  0 < begin_addr → begin_addr + 64 ≤ end_addr < 2 ^ 32 → used_mem h = 0 → max_mem h = 0 →
  ∃ h', rt_system_heap_init begin_addr end_addr h = Ok tt h' ∧
    heap_is h' [(false, heap_end h')] ∧ lfree_lowest h' [(false, heap_end h')] ∧
    begin_addr ≤ heap_ptr h' < begin_addr + 8 ∧
    end_addr - 8 < heap_ptr h' + heap_end h' + SIZEOF_STRUCT_MEM ≤ end_addr.
Proof.
  intros Hb He Hu Hm. unfold rt_system_heap_init. change RT_ALIGN_SIZE with 8.
  pose proof (align_ge begin_addr) as Ha. pose proof (align_mod begin_addr) as Ham.
  rewrite align_down_eq by lia. set (b := RT_ALIGN begin_addr 8) in *.
  pose proof (Z.div_mod end_addr 8). pose proof (Z.mod_pos_bound end_addr 8).
  assert ((8 * (end_addr / 8)) mod 8 = 0) as Hem by (rewrite Z.mul_comm; apply Z.mod_mul; lia).
  set (e := 8 * (end_addr / 8)) in *. change SIZEOF_STRUCT_MEM with 16.
  change (2 ^ 32) with 4294967296 in *.
  rewrite (proj2 (Z.ltb_lt _ _)), (proj2 (Z.leb_le _ _)) by lia. cbn [andb].
  rewrite bind_modify. unfold modify. eexists. split; [reflexivity|]. hs.
  assert ((e - b - 2 * 16) mod 8 = 0) as Hsz.
  { rewrite Zminus_mod, (Zminus_mod e), Hem, Ham. done. }
  split_and!; try lia; [|reflexivity].
  split; [split| | | | | |]; hs; try done; try lia.
  - change MIN_SIZE_ALIGNED with 16. lia.
  - change SIZEOF_STRUCT_MEM with 16. change (2 ^ 32) with 4294967296. lia.
  - split.
    + split; [|done]. rewrite lookup_insert_ne, lookup_insert_eq by lia. unfold header.
      do 2 f_equal.
    + simpl. lia.
    + eexists. apply lookup_insert_eq.
    + repeat constructor; simpl; change SIZEOF_STRUCT_MEM with 16; [lia|].
      rewrite Z.add_mod, Hsz by lia. done.
  - by left.
  - simpl. lia.
Qed.

(** [rt_calloc] returns null and changes nothing, or returns a block of
    zeroes; the blocks in use keep their bytes. *)
Theorem calloc_correct (h : heap_state) (bs : list (bool * Z)) (count size : Z) :
  heap_is h bs → 0 < count * size ≤ 2 ^ 32 - 8 →
  rt_calloc count size h = Ok 0 h ∨
  ∃ p h' bs', rt_calloc count size h = Ok p h' ∧ heap_is h' bs' ∧ p mod 8 = 0 ∧
    (∀ a, p ≤ a < p + count * size → owned (heap_ptr h) 0 bs' a ∧ bytes h' !! a = Some 0) ∧
    (∀ a, owned (heap_ptr h) 0 bs a → owned (heap_ptr h) 0 bs' a ∧ bytes h' !! a = bytes h !! a).
Proof.
  intros Hh Hs. unfold rt_calloc. rewrite (u32_small (count * size)) by lia.
  set (n := count * size) in *. pose proof (rt_malloc_run h bs n Hh ltac:(lia)) as Hrun.
  destruct (mem_size_aligned h <? RT_ALIGN n RT_ALIGN_SIZE); [left; by rewrite (bind_ok _ _ _ _ _ Hrun)|].
  destruct (alloc (heap_end h) (lfree h) (request n) 0 bs) as [[p bs']|] eqn:E;
    [right|left; by rewrite (bind_ok _ _ _ _ _ Hrun)].
  destruct Hrun as (h' & E' & [A1 A2 A3 A4 A5]).
  apply alloc_some in E as (pre & m & post & -> & -> & _ & Hfit & ->).
  rewrite Z.add_0_l in *. change (heap_ptr h + total pre + SIZEOF_STRUCT_MEM) with (addr h pre) in *.
  apply andb_true_iff in Hfit as [Hf1%Z.leb_le _].
  pose proof (request_ge n ltac:(lia)) as Hr.
  pose proof (rep_long _ _ _ (hi_rep _ _ Hh)) as Hl. pose proof (addr_pos h pre _ Hh) as Hpos.
  rewrite (bind_ok _ _ _ _ _ E'), (proj2 (Z.eqb_neq _ 0)) by lia. cbn [negb].
  rewrite bind_modify. eexists (addr h pre), _, _. split; [reflexivity|].
  split_and!; [by apply heap_is_bytes|by eapply addr_mod| |]; hs; intros a Ha.
  - split; [|apply fill_bytes_filled; lia]. rewrite !owned_app. right. left.
    unfold addr in Ha. apply carve_owned; change SIZEOF_STRUCT_MEM with 16 in *; lia.
  - rewrite fill_bytes_other, A4.
    + split; [|done]. rewrite owned_app in Ha. simpl in Ha. rewrite !owned_app, carve_total.
      intuition discriminate.
    + intros Hb. revert Ha. apply owned_disjoint; [done|]. unfold in_block.
      change SIZEOF_STRUCT_MEM with 16 in *. lia.
Qed.

(** *** A client's view

    A client calls the heap and holds the addresses it got: [live].  It frees
    and reallocates only what it holds. *)
Inductive heap_call_ok : list Z → (HM (option Z)) → (option Z → list Z) → Prop :=
  | call_malloc live size :
      0 < size ≤ 2 ^ 32 - 8 →
      heap_call_ok live (let! p := rt_malloc size in ret (Some p))
        (λ r, match r with Some p => if p =? 0 then live else p :: live | None => live end)
  | call_calloc live count size :
      0 < count * size ≤ 2 ^ 32 - 8 →
      heap_call_ok live (let! p := rt_calloc count size in ret (Some p))
        (λ r, match r with Some p => if p =? 0 then live else p :: live | None => live end)
  | call_realloc live rest p size :
      live ≡ₚ p :: rest → 0 < size ≤ 2 ^ 32 - 8 →
      heap_call_ok live (let! q := rt_realloc p size in ret (Some q))
        (λ r, match r with Some q => if q =? 0 then live else q :: rest | None => live end)
  | call_free live rest p :
      live ≡ₚ p :: rest →
      heap_call_ok live (rt_free p ;;; ret None) (λ _, rest).

Definition heap_step (c c' : heap_state * list Z) : Prop :=
  ∃ m f r, heap_call_ok c.2 m f ∧ m c.1 = Ok r c'.1 ∧ c'.2 = f r.

(** The addresses that the client holds are those of the blocks in use. *)
Definition client_ok (c : heap_state * list Z) : Prop :=
  ∃ bs, heap_is c.1 bs ∧ c.2 ≡ₚ used_addrs (heap_ptr c.1) 0 bs.

Lemma malloc_client h live size :
  client_ok (h, live) → 0 < size ≤ 2 ^ 32 - 8 →
  ∃ p h', rt_malloc size h = Ok p h' ∧ heap_frame h h' ∧
    ∀ b, client_ok (set_bytes b h', if p =? 0 then live else p :: live).
Proof.
  intros (bs & Hh & Hlive) Hs. simpl in Hh, Hlive.
  assert (∀ b, client_ok (set_bytes b h, live)) as Hsame.
  { intros b. exists bs. split; [by apply heap_is_bytes|exact Hlive]. }
  pose proof (rt_malloc_run h bs size Hh ltac:(lia)) as Hrun.
  destruct (mem_size_aligned h <? RT_ALIGN size RT_ALIGN_SIZE); [by exists 0, h|].
  destruct (alloc (heap_end h) (lfree h) (request size) 0 bs) as [[q bs']|] eqn:E; [|by exists 0, h].
  destruct Hrun as (h' & E' & [A1 A2 A3 A4 A5]).
  apply alloc_some in E as (pre & n & post & -> & -> & _ & _ & ->).
  rewrite Z.add_0_l in *. change (heap_ptr h + total pre + SIZEOF_STRUCT_MEM) with (addr h pre) in *.
  pose proof (addr_pos h pre _ Hh) as Hpos.
  exists (addr h pre), h'. split_and!; [done|done|]. intros b.
  rewrite (proj2 (Z.eqb_neq _ 0)) by lia.
  exists (pre ++ carve (request size) n ++ post). split; [by apply heap_is_bytes|].
  simpl. rewrite (hf_ptr _ _ A3), used_addrs_take. by rewrite Hlive.
Qed.

Lemma client_in h live rest p :
  client_ok (h, live) → live ≡ₚ p :: rest →
  ∃ pre n post, heap_is h (pre ++ (true, n) :: post) ∧ p = addr h pre ∧
    rest ≡ₚ used_addrs (heap_ptr h) 0 (pre ++ (false, n) :: post).
Proof.
  intros (bs & Hh & Hlive) Hp. simpl in Hh, Hlive.
  destruct (used_addrs_in (heap_ptr h) 0 bs p) as (pre & n & post & -> & ->).
  { rewrite <- Hlive, Hp. left. }
  rewrite used_addrs_drop, Hp, Z.add_0_r in Hlive. apply Permutation_cons_inv in Hlive.
  exists pre, n, post. split; [done|]. split; [|done]. unfold addr. lia.
Qed.

(** A call of the client runs without a fault and keeps the invariant. *)
Lemma client_step c m f :
  client_ok c → heap_call_ok c.2 m f → ∃ r h', m c.1 = Ok r h' ∧ client_ok (h', f r).
Proof.
  destruct c as [h live]. simpl. intros Hc H. revert Hc.
  destruct H as [live size Hs|live count size Hs|live rest p size Hp Hs|live rest p Hp]; intros Hc.
  - destruct (malloc_client h live size Hc Hs) as (p & h' & E & _ & Hc').
    eexists _, h'. rewrite (bind_ok _ _ _ _ _ E). split; [done|].
    exact (Hc' (bytes h')).
  - destruct (malloc_client h live (count * size) Hc Hs) as (p & h' & E & _ & Hc').
    unfold rt_calloc. rewrite (u32_small (count * size)) by lia.
    rewrite bind_assoc, (bind_ok _ _ _ _ _ E), bind_assoc.
    destruct (Z.eqb_spec p 0) as [->|Hp]; (eexists _, _; split; [reflexivity|]); simpl.
    + exact (Hc' (bytes h')).
    + rewrite (proj2 (Z.eqb_neq p 0) Hp) in *. apply Hc'.
  - destruct (client_in h live rest p Hc Hp) as (pre & n & post & Hh & -> & Hrest).
    destruct (realloc_run h pre n post size Hh Hs) as [E|(q & h' & bs' & E & H1 & H2 & H3 & _ & H4 & _)];
      rewrite (bind_ok _ _ _ _ _ E); (eexists _, _; split; [reflexivity|]); [done|].
    exists bs'. split; [done|]. simpl. rewrite H2, H4, (proj2 (Z.eqb_neq q 0)) by lia. by rewrite Hrest.
  - destruct (client_in h live rest p Hc Hp) as (pre & n & post & Hh & -> & Hrest).
    destruct (rt_free_run h pre n post Hh) as (h' & E & Hh' & _ & Hf & _).
    rewrite (bind_ok _ _ _ _ _ E). eexists _, _. split; [reflexivity|].
    eexists. split; [exact Hh'|]. simpl. rewrite used_addrs_coalesce, (hf_ptr _ _ Hf). exact Hrest.
Qed.

Lemma client_steps c c' : rtc heap_step c c' → client_ok c → client_ok c'.
Proof.
  induction 1 as [c|c c1 c' (m & f & r & Hcall & E & Ef) _ IH]; [done|]. intros Hc. apply IH.
  destruct (client_step c m f Hc Hcall) as (r' & h' & E' & Hc'). rewrite E in E'.
  injection E' as <- <-. rewrite <- Ef in Hc'. by destruct c1.
Qed.

(** C6: starting from a fresh heap, a client that frees and reallocates only
    what it holds never meets a fault, whatever it calls and in whatever
    order: every loop ends, the chain of headers stays well formed and the
    client holds exactly the blocks in use, all at different addresses. *)
Theorem heap_safe (h0 h : heap_state) (n : Z) (live : list Z) :
  heap_is h0 [(false, n)] → rtc heap_step (h0, []) (h, live) →
  (∃ bs, heap_is h bs ∧ live ≡ₚ used_addrs (heap_ptr h) 0 bs) ∧ NoDup live ∧
  (∀ m f, heap_call_ok live m f → ∃ r h', m h = Ok r h' ∧ heap_step (h, live) (h', f r)).
Proof.
  intros H0 Hsteps.
  assert (client_ok (h, live)) as Hc.
  { eapply client_steps; [exact Hsteps|]. by exists [(false, n)]. }
  split; [exact Hc|]. split.
  - destruct Hc as (bs & Hh & Hlive). simpl in Hh, Hlive. rewrite Hlive.
    apply used_addrs_nodup, (rep_long _ _ _ (hi_rep _ _ Hh)).
  - intros m f Hcall. destruct (client_step (h, live) m f Hc Hcall) as (r & h' & E & _).
    exists r, h'. split; [done|]. by exists m, f, r.
Qed.
End ops.

(** ** Examples

    A heap of 512 bytes, and the same heap with blocks of 40 and 24 bytes
    taken. *)
Definition heap_state0 : heap_state := mk_heap 0 0 0 0 0 0 0 ∅ ∅ None None [].
Definition after {A} (m : HM A) (h : heap_state) : heap_state :=
  match m h with Ok _ h' => h' | Fault _ => h end.
Definition heap_demo : heap_state := after (rt_system_heap_init 0x20000000 0x20000200) heap_state0.
Definition heap_demo2 : heap_state :=
  after (rt_malloc (cfg := gd32_config) 24) (after (rt_malloc (cfg := gd32_config) 40) heap_demo).

(** The invariant of a concrete heap, by evaluation. *)
Definition heap_check (h : heap_state) (bs : list block) : bool :=
  bool_decide (heap_end h = mem_size_aligned h + SIZEOF_STRUCT_MEM ∧
    MIN_SIZE_ALIGNED ≤ mem_size_aligned h ∧ mem_size_aligned h mod 8 = 0 ∧ heap_ptr h mod 8 = 0 ∧
    0 < heap_ptr h ∧ heap_ptr h + heap_end h + SIZEOF_STRUCT_MEM ≤ 2 ^ 32) &&
  bool_decide (total bs = heap_end h ∧ lfree h = first_free 0 bs ∧ used_mem h = used_total bs ∧
    used_total bs ≤ max_mem h ∧ heap_sem h = 1 ∧ coalesce bs = bs) &&
  forallb (λ b, bool_decide (SIZEOF_STRUCT_MEM < b.2 ∧ b.2 mod 8 = 0)) bs.

Lemma heap_check_spec h bs :
  heap_check h bs = true → seg (hdrs h) 0 0 bs → sentinel (hdrs h) (heap_end h) →
  heap_is h bs ∧ lfree_lowest h bs.
Proof.
  unfold heap_check. rewrite !andb_true_iff, !bool_decide_eq_true. intros [[H1 H2] H3] Hseg Hs.
  destruct H1 as (?&?&?&?&?&?). destruct H2 as (?&Hlow&?&?&?&Hco).
  split; [|exact Hlow]. split; try done.
  - split; try done. rewrite Forall_forall. rewrite forallb_forall in H3.
    intros b Hb. apply list_elem_of_In, H3, bool_decide_eq_true in Hb. exact Hb.
  - rewrite <- Hco. apply coalesce_coalesced.
  - rewrite Hlow. apply first_free_start.
Qed.

Lemma heap_demo_ok : heap_is heap_demo [(false, 496)] ∧ lfree_lowest heap_demo [(false, 496)].
Proof.
  apply heap_check_spec; [reflexivity| |].
  - repeat split.
  - eexists. vm_compute. reflexivity.
Qed.

Lemma heap_demo2_ok :
  heap_is heap_demo2 [(true, 56); (true, 40); (false, 400)] ∧
  lfree_lowest heap_demo2 [(true, 56); (true, 40); (false, 400)].
Proof.
  apply heap_check_spec; [reflexivity| |].
  - repeat split.
  - eexists. vm_compute. reflexivity.
Qed.

Lemma malloc_correct_witness :
  ∃ p h', rt_malloc (cfg := gd32_config) 100 heap_demo2 = Ok p h' ∧ p = 0x20000070.
Proof.
  destruct (malloc_correct (cfg := gd32_config) heap_demo2 _ 100 (proj1 heap_demo2_ok))
    as [E|(p & h' & bs' & E & _)]; [lia|vm_compute in E; discriminate E|].
  exists p, h'. split; [exact E|]. vm_compute in E. by injection E.
Defined.

Lemma free_correct_witness :
  ∃ h', rt_free (cfg := gd32_config) (addr heap_demo2 []) heap_demo2 = Ok tt h' ∧
    heap_is h' [(false, 56); (true, 40); (false, 400)].
Proof.
  destruct (free_correct (cfg := gd32_config) heap_demo2 [] 56 _ (proj1 heap_demo2_ok)) as (h' & E & Hh & _).
  exists h'. split; [exact E|exact Hh].
Defined.

Lemma malloc_complete_witness :
  rt_malloc (cfg := gd32_config) 384 heap_demo2 = Ok 0 heap_demo2 ∧
  400 = request 384 + SIZEOF_STRUCT_MEM.
Proof.
  assert (rt_malloc (cfg := gd32_config) 384 heap_demo2 = Ok 0 heap_demo2) as E by (vm_compute; reflexivity).
  split; [exact E|].
  destruct (malloc_complete (cfg := gd32_config) heap_demo2 _ 384 (proj1 heap_demo2_ok)
    (proj2 heap_demo2_ok) ltac:(lia) E [(true, 56); (true, 40)] 400 [] eq_refl) as [H|[H _]]; [|exact H].
  vm_compute in H. discriminate H.
Defined.

Lemma malloc_free_roundtrip_witness :
  ∃ h1 h2, rt_malloc (cfg := gd32_config) 10 heap_demo2 = Ok 0x20000070 h1 ∧
    rt_free (cfg := gd32_config) 0x20000070 h1 = Ok tt h2 ∧
    heap_is h2 [(true, 56); (true, 40); (false, 400)].
Proof.
  assert (∃ h1, rt_malloc (cfg := gd32_config) 10 heap_demo2 = Ok 0x20000070 h1) as [h1 E].
  { eexists. vm_compute. reflexivity. }
  destruct (malloc_free_roundtrip (cfg := gd32_config) heap_demo2 _ 10 0x20000070 h1 (proj1 heap_demo2_ok))
    as (h2 & E2 & Hh & _); [lia|exact E|lia|].
  exists h1, h2. split; [exact E|]. split; [exact E2|exact Hh].
Defined.

Lemma realloc_correct_witness :
  ∃ p h' bs', rt_realloc (cfg := gd32_config) (addr heap_demo2 []) 100 heap_demo2 = Ok p h' ∧
    heap_is h' bs' ∧ p = 0x20000070.
Proof.
  destruct (realloc_correct (cfg := gd32_config) heap_demo2 [] 56 _ 100 (proj1 heap_demo2_ok))
    as [E|(p & h' & bs' & E & Hh & _)]; [lia|vm_compute in E; discriminate E|].
  exists p, h', bs'. split; [exact E|]. split; [exact Hh|]. vm_compute in E. by injection E.
Defined.

Lemma heap_init_correct_witness :
  ∃ h', rt_system_heap_init 0x20001234 0x20004321 heap_state0 = Ok tt h' ∧ heap_ptr h' = 0x20001238.
Proof.
  destruct (heap_init_correct heap_state0 0x20001234 0x20004321) as (h' & E & _);
    [lia|lia|reflexivity|reflexivity|].
  exists h'. split; [exact E|]. vm_compute in E. by injection E as <-.
Defined.

Lemma calloc_correct_witness :
  ∃ h' bs', rt_calloc (cfg := gd32_config) 3 8 heap_demo2 = Ok 0x20000070 h' ∧ heap_is h' bs'.
Proof.
  destruct (calloc_correct (cfg := gd32_config) heap_demo2 _ 3 8 (proj1 heap_demo2_ok))
    as [E|(p & h' & bs' & E & Hh & _)]; [lia|vm_compute in E; discriminate E|].
  exists h', bs'. assert (p = 0x20000070) as -> by (vm_compute in E; by injection E).
  split; [exact E|exact Hh].
Defined.

Lemma heap_safe_witness :
  ∃ h live, rtc (heap_step (cfg := gd32_config)) (heap_demo, []) (h, live) ∧ live = [0x20000010] ∧ NoDup live.
Proof.
  set (h := after (rt_malloc (cfg := gd32_config) 40) heap_demo).
  assert (rtc (heap_step (cfg := gd32_config)) (heap_demo, []) (h, [0x20000010])) as Hs.
  { apply rtc_once. exists (let! p := rt_malloc (cfg := gd32_config) 40 in ret (Some p)),
      (λ r, match r with Some p => if p =? 0 then [] else [p] | None => [] end), (Some 0x20000010).
    split_and!; [apply (call_malloc (cfg := gd32_config) [] 40); lia|vm_compute; reflexivity|reflexivity]. }
  exists h, [0x20000010]. split; [exact Hs|]. split; [reflexivity|].
  apply (heap_safe (cfg := gd32_config) heap_demo h 496 _ (proj1 heap_demo_ok) Hs).
Defined.

(** *** Where the heap does not keep its promise *)

(** A request just below [2 ^ 32] wraps to a block of 16 bytes. *)
Example malloc_wraps :
  ∃ h', rt_malloc (cfg := gd32_config) 0xffffffff heap_demo = Ok 0x20000010 h' ∧ used_mem h' = 32.
Proof. eexists. split; vm_compute; reflexivity. Qed.

(** The product in [rt_calloc] wraps as well. *)
Example calloc_wraps :
  ∃ h', rt_calloc (cfg := gd32_config) 0x10000001 16 heap_demo = Ok 0x20000010 h' ∧ used_mem h' = 32.
Proof. eexists. split; vm_compute; reflexivity. Qed.

(** Shrinking a block below [lfree] leaves [lfree] above the new free block:
    the next request fails although a free block is large enough. *)
Definition heap_shrunk : heap_state :=
  after (rt_realloc (cfg := gd32_config) 0x20000010 8)
    (after (rt_malloc (cfg := gd32_config) 200) (after (rt_malloc (cfg := gd32_config) 200) heap_demo)).
Example realloc_hides_block :
  hdrs heap_shrunk !! 24 = Some (mk_hm HEAP_MAGIC 0 216 0) ∧ lfree heap_shrunk = 432 ∧
  rt_malloc (cfg := gd32_config) 100 heap_shrunk = Ok 0 heap_shrunk.
Proof. split_and!; vm_compute; reflexivity. Qed.
