(* ===== verification/FinshDef.v ===== *)
(** * The data of the shell's expression interpreter ([components/finsh])

    The shell evaluates C expressions: a line is parsed into nodes, compiled
    to byte code and run by a stack machine.  This file holds the data these
    steps share ([finsh.h], [finsh_node.h], [finsh_var.h], [finsh_vm.h]), the
    error number ([finsh_error.c]) and the variables ([finsh_var.c]). *)

From S2P Require Import Prelude.

(** ** Limits *)
Definition FINSH_NAME_MAX : nat := 16.
Definition FINSH_NODE_MAX : nat := 16.
Definition FINSH_HEAP_MAX : Z := 128.
Definition FINSH_STRING_MAX : Z := 128.
Definition FINSH_VARIABLE_MAX : nat := 8.
Definition FINSH_STACK_MAX : Z := 64.
Definition FINSH_TEXT_MAX : Z := 128.

(** ** Error numbers *)
Definition FINSH_ERROR_OK : Z := 0.
Definition FINSH_ERROR_INVALID_TOKEN : Z := 1.
Definition FINSH_ERROR_EXPECT_TYPE : Z := 2.
Definition FINSH_ERROR_UNKNOWN_TYPE : Z := 3.
Definition FINSH_ERROR_VARIABLE_EXIST : Z := 4.
Definition FINSH_ERROR_EXPECT_OPERATOR : Z := 5.
Definition FINSH_ERROR_MEMORY_FULL : Z := 6.
Definition FINSH_ERROR_UNKNOWN_NODE : Z := 8.
Definition FINSH_ERROR_EXPECT_CHAR : Z := 9.
Definition FINSH_ERROR_UNEXPECT_END : Z := 10.
Definition FINSH_ERROR_UNKNOWN_TOKEN : Z := 11.
Definition FINSH_ERROR_UNKNOWN_SYMBOL : Z := 13.
Definition FINSH_ERROR_NULL_NODE : Z := 14.

(** ** Types, nodes and symbols *)

(** [enum finsh_type], in the order of the source. *)
Inductive finsh_type : Type :=
  | finsh_type_unknown | finsh_type_void | finsh_type_voidp
  | finsh_type_char | finsh_type_uchar | finsh_type_charp
  | finsh_type_short | finsh_type_ushort | finsh_type_shortp
  | finsh_type_int | finsh_type_uint | finsh_type_intp
  | finsh_type_long | finsh_type_ulong | finsh_type_longp.

#[export] Instance finsh_type_eq_dec : EqDecision finsh_type.
Proof. solve_decision. Defined.

(** The number of an enumerator: a cast node stores it as a data type. *)
Definition finsh_type_code (ty : finsh_type) : Z :=
  match ty with
  | finsh_type_unknown => 0 | finsh_type_void => 1 | finsh_type_voidp => 2
  | finsh_type_char => 3 | finsh_type_uchar => 4 | finsh_type_charp => 5
  | finsh_type_short => 6 | finsh_type_ushort => 7 | finsh_type_shortp => 8
  | finsh_type_int => 9 | finsh_type_uint => 10 | finsh_type_intp => 11
  | finsh_type_long => 12 | finsh_type_ulong => 13 | finsh_type_longp => 14
  end.

(** The [FINSH_NODE_*] constants. *)
Inductive node_type : Type :=
  | FINSH_NODE_UNKNOWN | FINSH_NODE_ID
  | FINSH_NODE_VALUE_CHAR | FINSH_NODE_VALUE_INT | FINSH_NODE_VALUE_LONG
  | FINSH_NODE_VALUE_STRING | FINSH_NODE_VALUE_NULL
  | FINSH_NODE_SYS_ADD | FINSH_NODE_SYS_SUB | FINSH_NODE_SYS_MUL
  | FINSH_NODE_SYS_DIV | FINSH_NODE_SYS_MOD | FINSH_NODE_SYS_AND
  | FINSH_NODE_SYS_OR | FINSH_NODE_SYS_XOR | FINSH_NODE_SYS_BITWISE
  | FINSH_NODE_SYS_SHL | FINSH_NODE_SYS_SHR | FINSH_NODE_SYS_FUNC
  | FINSH_NODE_SYS_ASSIGN | FINSH_NODE_SYS_CAST | FINSH_NODE_SYS_PREINC
  | FINSH_NODE_SYS_PREDEC | FINSH_NODE_SYS_INC | FINSH_NODE_SYS_DEC
  | FINSH_NODE_SYS_GETVALUE | FINSH_NODE_SYS_GETADDR | FINSH_NODE_SYS_NULL.

#[export] Instance node_type_eq_dec : EqDecision node_type.
Proof. solve_decision. Defined.

Definition FINSH_DATA_TYPE_VOID : Z := 0x00.
Definition FINSH_DATA_TYPE_BYTE : Z := 0x01.
Definition FINSH_DATA_TYPE_WORD : Z := 0x02.
Definition FINSH_DATA_TYPE_DWORD : Z := 0x03.

Definition FINSH_NODE_VALUE : Z := 0.

Definition FINSH_IDTYPE_VAR : Z := 0x01.
Definition FINSH_IDTYPE_SYSVAR : Z := 0x02.
Definition FINSH_IDTYPE_SYSCALL : Z := 0x04.
Definition FINSH_IDTYPE_ADDRESS : Z := 0x08.

(** A variable.  Its value is the union of four bytes in memory at
    [var_value_addr]. *)
Record finsh_var := mk_var { var_name : list Z; var_type : finsh_type }.

(** System variables and system calls: entries of the tables that the linker
    collects, or items appended to a list.  They do not change, so a pointer
    to one is the entry itself, with its address. *)
Record finsh_sysvar := mk_sysvar {
  sysvar_addr : Z; sysvar_name : list Z; sysvar_type : finsh_type; sysvar_var : Z
}.
Record finsh_syscall := mk_syscall {
  syscall_addr : Z; syscall_name : list Z; syscall_func : Z
}.

(** The union [id] of a node. *)
Inductive finsh_id : Type :=
  | IdNone
  | IdVar (i : nat)   (* &global_variable[i] *)
  | IdSysvar (v : finsh_sysvar)
  | IdSyscall (c : finsh_syscall).

Record finsh_node := mk_fnode {
  node_type_of : node_type;
  data_type : Z;
  idtype : Z;
  node_value : Z;   (* the union, a 32-bit word *)
  node_id : finsh_id;
  sibling : option nat;   (* an index of global_node_table *)
  child : option nat
}.

Definition empty_node : finsh_node :=
  mk_fnode FINSH_NODE_UNKNOWN 0 0 0 IdNone None None.

Definition set_node_type x n :=
  mk_fnode x (data_type n) (idtype n) (node_value n) (node_id n) (sibling n) (child n).
Definition set_data_type x n :=
  mk_fnode (node_type_of n) x (idtype n) (node_value n) (node_id n) (sibling n) (child n).
Definition set_idtype x n :=
  mk_fnode (node_type_of n) (data_type n) x (node_value n) (node_id n) (sibling n) (child n).
Definition set_node_value x n :=
  mk_fnode (node_type_of n) (data_type n) (idtype n) x (node_id n) (sibling n) (child n).
Definition set_node_id x n :=
  mk_fnode (node_type_of n) (data_type n) (idtype n) (node_value n) x (sibling n) (child n).
Definition set_sibling x n :=
  mk_fnode (node_type_of n) (data_type n) (idtype n) (node_value n) (node_id n) x (child n).
Definition set_child x n :=
  mk_fnode (node_type_of n) (data_type n) (idtype n) (node_value n) (node_id n) (sibling n) x.

(** [struct finsh_block_header] of the heap for strings. *)
Record finsh_block_header := mk_block { block_length : Z; block_next : Z }.

(** [enum finsh_token_type], in the order of the source; 0, which no
    enumerator has, is the value before the first token. *)
Inductive token_type : Type :=
  | finsh_token_type_none
  | finsh_token_type_left_paren | finsh_token_type_right_paren
  | finsh_token_type_comma | finsh_token_type_semicolon
  | finsh_token_type_mul | finsh_token_type_add | finsh_token_type_inc
  | finsh_token_type_sub | finsh_token_type_dec | finsh_token_type_div
  | finsh_token_type_mod | finsh_token_type_assign | finsh_token_type_and
  | finsh_token_type_or | finsh_token_type_xor | finsh_token_type_bitwise
  | finsh_token_type_shl | finsh_token_type_shr | finsh_token_type_comments
  | finsh_token_type_void | finsh_token_type_char | finsh_token_type_short
  | finsh_token_type_int | finsh_token_type_long | finsh_token_type_unsigned
  | finsh_token_type_value_char | finsh_token_type_value_int
  | finsh_token_type_value_long | finsh_token_type_value_string
  | finsh_token_type_value_null
  | finsh_token_type_identifier | finsh_token_type_bad | finsh_token_type_eof.

#[export] Instance token_type_eq_dec : EqDecision token_type.
Proof. solve_decision. Defined.

(** [struct finsh_token]; [line] is a C string without its terminating zero. *)
Record finsh_token := mk_token {
  tk_eof : bool;
  tk_replay : bool;
  tk_position : Z;
  tk_current_token : token_type;
  tk_value : Z;   (* the union, a 32-bit word *)
  tk_string : list Z;   (* 128 bytes *)
  tk_line : list Z
}.

Definition empty_token : finsh_token :=
  mk_token false false 0 finsh_token_type_none 0 (replicate (Z.to_nat FINSH_STRING_MAX) 0) [].

Definition set_eof x t := mk_token x (tk_replay t) (tk_position t) (tk_current_token t)
  (tk_value t) (tk_string t) (tk_line t).
Definition set_replay x t := mk_token (tk_eof t) x (tk_position t) (tk_current_token t)
  (tk_value t) (tk_string t) (tk_line t).
Definition set_position x t := mk_token (tk_eof t) (tk_replay t) x (tk_current_token t)
  (tk_value t) (tk_string t) (tk_line t).
Definition set_current_token x t := mk_token (tk_eof t) (tk_replay t) (tk_position t) x
  (tk_value t) (tk_string t) (tk_line t).
Definition set_tk_value x t := mk_token (tk_eof t) (tk_replay t) (tk_position t)
  (tk_current_token t) x (tk_string t) (tk_line t).
Definition set_string x t := mk_token (tk_eof t) (tk_replay t) (tk_position t)
  (tk_current_token t) (tk_value t) x (tk_line t).

(** ** The state

    The global variables of the interpreter, and the memory that programs of
    the shell read and write through addresses. *)
Record fstate := mk_finsh {
  token : finsh_token;   (* of the parser *)
  root : option nat;   (* of the parser *)
  global_errno : Z;
  global_variable : list finsh_var;
  global_sysvar_list : list finsh_sysvar;   (* latest first *)
  global_syscall_list : list finsh_syscall;
  global_node_table : list finsh_node;
  text_segment : list Z;
  finsh_vm_stack : list Z;   (* 32-bit words *)
  finsh_sp : Z;   (* an index of finsh_vm_stack *)
  finsh_pc : Z;   (* an index of text_segment *)
  finsh_compile_pc : Z;
  free_list : Z;   (* address of a header, 0 for NULL *)
  allocate_list : Z;
  blocks : gmap Z finsh_block_header;
  memory : gmap Z Z   (* bytes *)
}.

Definition F := M fstate.

Definition set_token x s := mk_finsh x (root s) (global_errno s) (global_variable s)
  (global_sysvar_list s) (global_syscall_list s) (global_node_table s) (text_segment s)
  (finsh_vm_stack s) (finsh_sp s) (finsh_pc s) (finsh_compile_pc s) (free_list s)
  (allocate_list s) (blocks s) (memory s).
Definition set_root x s := mk_finsh (token s) x (global_errno s) (global_variable s)
  (global_sysvar_list s) (global_syscall_list s) (global_node_table s) (text_segment s)
  (finsh_vm_stack s) (finsh_sp s) (finsh_pc s) (finsh_compile_pc s) (free_list s)
  (allocate_list s) (blocks s) (memory s).
Definition set_global_errno x s := mk_finsh (token s) (root s) x (global_variable s)
  (global_sysvar_list s) (global_syscall_list s) (global_node_table s) (text_segment s)
  (finsh_vm_stack s) (finsh_sp s) (finsh_pc s) (finsh_compile_pc s) (free_list s)
  (allocate_list s) (blocks s) (memory s).
Definition set_global_variable x s := mk_finsh (token s) (root s) (global_errno s) x
  (global_sysvar_list s) (global_syscall_list s) (global_node_table s) (text_segment s)
  (finsh_vm_stack s) (finsh_sp s) (finsh_pc s) (finsh_compile_pc s) (free_list s)
  (allocate_list s) (blocks s) (memory s).
Definition set_global_sysvar_list x s := mk_finsh (token s) (root s) (global_errno s)
  (global_variable s) x (global_syscall_list s) (global_node_table s) (text_segment s)
  (finsh_vm_stack s) (finsh_sp s) (finsh_pc s) (finsh_compile_pc s) (free_list s)
  (allocate_list s) (blocks s) (memory s).
Definition set_global_syscall_list x s := mk_finsh (token s) (root s) (global_errno s)
  (global_variable s) (global_sysvar_list s) x (global_node_table s) (text_segment s)
  (finsh_vm_stack s) (finsh_sp s) (finsh_pc s) (finsh_compile_pc s) (free_list s)
  (allocate_list s) (blocks s) (memory s).
Definition set_global_node_table x s := mk_finsh (token s) (root s) (global_errno s)
  (global_variable s) (global_sysvar_list s) (global_syscall_list s) x (text_segment s)
  (finsh_vm_stack s) (finsh_sp s) (finsh_pc s) (finsh_compile_pc s) (free_list s)
  (allocate_list s) (blocks s) (memory s).
Definition set_text_segment x s := mk_finsh (token s) (root s) (global_errno s)
  (global_variable s) (global_sysvar_list s) (global_syscall_list s) (global_node_table s) x
  (finsh_vm_stack s) (finsh_sp s) (finsh_pc s) (finsh_compile_pc s) (free_list s)
  (allocate_list s) (blocks s) (memory s).
Definition set_finsh_vm_stack x s := mk_finsh (token s) (root s) (global_errno s)
  (global_variable s) (global_sysvar_list s) (global_syscall_list s) (global_node_table s)
  (text_segment s) x (finsh_sp s) (finsh_pc s) (finsh_compile_pc s) (free_list s)
  (allocate_list s) (blocks s) (memory s).
Definition set_finsh_sp x s := mk_finsh (token s) (root s) (global_errno s) (global_variable s)
  (global_sysvar_list s) (global_syscall_list s) (global_node_table s) (text_segment s)
  (finsh_vm_stack s) x (finsh_pc s) (finsh_compile_pc s) (free_list s) (allocate_list s)
  (blocks s) (memory s).
Definition set_finsh_pc x s := mk_finsh (token s) (root s) (global_errno s) (global_variable s)
  (global_sysvar_list s) (global_syscall_list s) (global_node_table s) (text_segment s)
  (finsh_vm_stack s) (finsh_sp s) x (finsh_compile_pc s) (free_list s) (allocate_list s)
  (blocks s) (memory s).
Definition set_finsh_compile_pc x s := mk_finsh (token s) (root s) (global_errno s)
  (global_variable s) (global_sysvar_list s) (global_syscall_list s) (global_node_table s)
  (text_segment s) (finsh_vm_stack s) (finsh_sp s) (finsh_pc s) x (free_list s) (allocate_list s)
  (blocks s) (memory s).
Definition set_free_list x s := mk_finsh (token s) (root s) (global_errno s) (global_variable s)
  (global_sysvar_list s) (global_syscall_list s) (global_node_table s) (text_segment s)
  (finsh_vm_stack s) (finsh_sp s) (finsh_pc s) (finsh_compile_pc s) x (allocate_list s) (blocks s)
  (memory s).
Definition set_allocate_list x s := mk_finsh (token s) (root s) (global_errno s)
  (global_variable s) (global_sysvar_list s) (global_syscall_list s) (global_node_table s)
  (text_segment s) (finsh_vm_stack s) (finsh_sp s) (finsh_pc s) (finsh_compile_pc s) (free_list s)
  x (blocks s) (memory s).
Definition set_blocks x s := mk_finsh (token s) (root s) (global_errno s) (global_variable s)
  (global_sysvar_list s) (global_syscall_list s) (global_node_table s) (text_segment s)
  (finsh_vm_stack s) (finsh_sp s) (finsh_pc s) (finsh_compile_pc s) (free_list s)
  (allocate_list s) x (memory s).
Definition set_memory x s := mk_finsh (token s) (root s) (global_errno s) (global_variable s)
  (global_sysvar_list s) (global_syscall_list s) (global_node_table s) (text_segment s)
  (finsh_vm_stack s) (finsh_sp s) (finsh_pc s) (finsh_compile_pc s) (free_list s)
  (allocate_list s) (blocks s) x.

(** ** The environment

    What the linker and the rest of the firmware provide: the addresses of the
    arrays, the tables of system variables and calls, and the system calls,
    which read and write memory. *)
Class FinshEnv := {
  global_variable_addr : Z;
  finsh_heap_addr : Z;
  sysvar_table : list finsh_sysvar;
  syscall_table : list finsh_syscall;
  call_function : Z → list Z → gmap Z Z → option (Z * gmap Z Z)
}.

(** [&global_variable[i].value]: the structure has 24 bytes, of which the
    name takes 17 and the type one. *)
Definition sizeof_finsh_var : Z := 24.
Definition offset_of_value : Z := 20.
Definition var_value_addr `{FinshEnv} (i : nat) : Z :=
  global_variable_addr + sizeof_finsh_var * Z.of_nat i + offset_of_value.

(** [&(node->id.var->value)]: for a node that is no variable, the union is
    read as a pointer to one all the same. *)
Definition id_value_addr `{FinshEnv} (x : finsh_id) : Z :=
  match x with
  | IdNone => offset_of_value
  | IdVar i => var_value_addr i
  | IdSysvar v => sysvar_addr v + offset_of_value
  | IdSyscall c => syscall_addr c + offset_of_value
  end.

(** ** Memory *)

(** A store to the low [w] bits of a word: to a member of a union. *)
Definition set_low (w x v : Z) : Z := x - x mod 2 ^ w + v mod 2 ^ w.

Definition load8 (a : Z) : F Z :=
  let! m := gets memory in from_option NullDeref (m !! a).
Definition store8 (a v : Z) : F unit :=
  let! m := gets memory in
  match m !! a with
  | Some _ => modify (set_memory (<[a := u8 v]> m))
  | None => fail NullDeref
  end.

Definition load16 (a : Z) : F Z :=
  let! b0 := load8 a in
  let! b1 := load8 (a + 1) in
  ret (b0 + 2 ^ 8 * b1).
Definition store16 (a v : Z) : F unit :=
  store8 a v ;;; store8 (a + 1) (Z.shiftr v 8).

Definition load32 (a : Z) : F Z :=
  let! h0 := load16 a in
  let! h1 := load16 (a + 2) in
  ret (h0 + 2 ^ 16 * h1).
Definition store32 (a v : Z) : F unit :=
  store16 a v ;;; store16 (a + 2) (Z.shiftr v 16).

Fixpoint memset0 (a : Z) (n : nat) : F unit :=
  match n with
  | O => ret tt
  | S n => store8 a 0 ;;; memset0 (a + 1) n
  end.

(** ** Errors ([finsh_error.c]) *)
Definition finsh_error_init : F unit := modify (set_global_errno FINSH_ERROR_OK).
Definition finsh_error_set (type : Z) : F unit := modify (set_global_errno type).
Definition finsh_errno : F Z := gets global_errno.

(** ** Strings of the C library *)

(** A C string is the list of its characters without the terminating zero.
    [strncmp] compares at most [n] of them. *)
Definition strncmp_eq (a b : list Z) (n : nat) : bool := bool_decide (take n a = take n b).

(** A name as the parser copies it with [strncpy]: of sixteen characters or
    less.  One of sixteen characters is not terminated, so that a function
    that looks for its end reads an uninitialised byte. *)
Definition terminated (name : list Z) : bool := Nat.ltb (length name) FINSH_NAME_MAX.
Definition strcmp_eq (a name : list Z) : F bool :=
  if terminated name then ret (bool_decide (a = name))
  else if bool_decide (take FINSH_NAME_MAX a = name) then fail Undefined
  else ret false.
Definition strlen_name (name : list Z) : F nat :=
  if terminated name then ret (length name) else fail Undefined.

(** ** Variables ([finsh_var.c]) *)
Section vars.
Context `{FinshEnv}.

Fixpoint clear_values (n : nat) : F unit :=
  match n with
  | O => ret tt
  | S n => clear_values n ;;; memset0 (var_value_addr n) 4
  end.
Definition finsh_var_init : F unit :=
  modify (set_global_variable (replicate FINSH_VARIABLE_MAX (mk_var [] finsh_type_unknown))) ;;;
  clear_values FINSH_VARIABLE_MAX.

(** The search of [finsh_var_insert] from entry [i] on: [None] where the name
    exists, else the first empty entry, or -1. *)
Fixpoint insert_search (name : list Z) (vars : list finsh_var) (i empty : Z) : option Z :=
  match vars with
  | [] => Some empty
  | v :: vars =>
    if strncmp_eq (var_name v) name FINSH_NAME_MAX then None
    else insert_search name vars (i + 1)
           (if bool_decide (var_type v = finsh_type_unknown) && (empty =? -1) then i else empty)
  end.

Definition finsh_var_insert (name : list Z) (type : finsh_type) : F Z :=
  let! vars := gets global_variable in
  match insert_search name vars 0 (-1) with
  | None => ret (-1)
  | Some empty =>
    if empty =? -1 then ret (-1)
    else
      modify (set_global_variable
        (<[Z.to_nat empty := mk_var (take FINSH_NAME_MAX name) type]> vars)) ;;;
      ret empty
  end.

Fixpoint var_search (name : list Z) (vars : list finsh_var) (i : nat) : option nat :=
  match vars with
  | [] => None
  | v :: vars =>
    if strncmp_eq (var_name v) name FINSH_NAME_MAX then Some i
    else var_search name vars (S i)
  end.

Definition finsh_var_delete (name : list Z) : F Z :=
  let! vars := gets global_variable in
  match var_search name vars 0 with
  | None => ret (-1)
  | Some i =>
    modify (set_global_variable (<[i := mk_var [] finsh_type_unknown]> vars)) ;;;
    memset0 (var_value_addr i) 4 ;;;
    ret 0
  end.

Definition finsh_var_lookup (name : list Z) : F (option nat) :=
  let! vars := gets global_variable in
  ret (var_search name vars 0).

(** [item] is what [rt_malloc] returned, [name] what [rt_strdup] did. *)
Definition finsh_sysvar_append (item : Z) (name : list Z) (type : finsh_type) (var_addr : Z)
    : F unit :=
  when negb (item =? 0) then
    let! l := gets global_sysvar_list in
    modify (set_global_sysvar_list (mk_sysvar (item + 4) name type var_addr :: l)).

(** The entries are compared with [strcmp], the items of the list with
    [strncmp] up to the length of the name. *)
Fixpoint table_search {A} (key : A → list Z) (name : list Z) (l : list A) : F (option A) :=
  match l with
  | [] => ret None
  | x :: l =>
    let! eq := strcmp_eq (key x) name in
    if (eq : bool) then ret (Some x) else table_search key name l
  end.
Fixpoint list_search {A} (key : A → list Z) (name : list Z) (l : list A) : F (option A) :=
  match l with
  | [] => ret None
  | x :: l =>
    let! n := strlen_name name in
    if strncmp_eq (key x) name n then ret (Some x) else list_search key name l
  end.

Definition finsh_sysvar_lookup (name : list Z) : F (option finsh_sysvar) :=
  let! o := table_search sysvar_name name sysvar_table in
  match o with
  | Some v => ret (Some v)
  | None => let! l := gets global_sysvar_list in list_search sysvar_name name l
  end.

(** ** System calls ([finsh_vm.c]) *)
Definition finsh_syscall_append (item : Z) (name : list Z) (func : Z) : F unit :=
  when negb (item =? 0) then
    let! l := gets global_syscall_list in
    modify (set_global_syscall_list (mk_syscall (item + 4) name func :: l)).

Definition finsh_syscall_lookup (name : list Z) : F (option finsh_syscall) :=
  let! o := table_search syscall_name name syscall_table in
  match o with
  | Some c => ret (Some c)
  | None => let! l := gets global_syscall_list in list_search syscall_name name l
  end.
End vars.
