(* ===== verification/FinshHeap.v ===== *)
(** * The heap for the strings of the shell ([finsh_heap.c])

    Blocks behind headers, in a list of free and a list of allocated blocks;
    blocks that no variable points to are collected when the heap is full. *)

From S2P Require Import Prelude FinshDef.

Definition sizeof_block_header : Z := 8.
Definition HEAP_ALIGNMENT : Z := 4.
Definition HEAP_ALIGN_SIZE (size : Z) : Z :=
  Z.land (u32 (size + HEAP_ALIGNMENT - 1)) (u32 (Z.lnot (HEAP_ALIGNMENT - 1))).

Definition finsh_block_get_header (data : Z) : Z := data - sizeof_block_header.
Definition finsh_block_get_data (header : Z) : Z := header + sizeof_block_header.

(** The two lists, which [finsh_block_insert] and the like get by address. *)
Inductive blist : Type := FreeList | AllocateList.
Definition get_list (l : blist) : F Z :=
  gets (match l with FreeList => free_list | AllocateList => allocate_list end).
Definition put_list (l : blist) (header : Z) : F unit :=
  modify (match l with FreeList => set_free_list | AllocateList => set_allocate_list end header).

Definition get_block (a : Z) : F finsh_block_header :=
  let! b := gets blocks in from_option NullDeref (b !! a).
Definition put_block (a : Z) (h : finsh_block_header) : F unit :=
  let! b := gets blocks in modify (set_blocks (<[a := h]> b)).
Definition set_next (a n : Z) : F unit :=
  let! h := get_block a in put_block a (mk_block (block_length h) n).
Definition set_length (a n : Z) : F unit :=
  let! h := get_block a in put_block a (mk_block n (block_next h)).

(** A list has no more blocks than there are headers. *)
Definition list_fuel : F nat := gets (λ s, S (size (blocks s))).

Section heap.
Context `{FinshEnv}.

Definition finsh_heap_init : F unit :=
  memset0 finsh_heap_addr (Z.to_nat FINSH_HEAP_MAX) ;;;
  modify (set_free_list finsh_heap_addr) ;;;
  put_block finsh_heap_addr (mk_block (FINSH_HEAP_MAX - sizeof_block_header) 0) ;;;
  modify (set_allocate_list 0).
End heap.

(** The loop of [finsh_block_insert]: the block behind which [header] goes. *)
Fixpoint insert_point (fuel : nat) (node header : Z) : F Z :=
  match fuel with
  | O => fail OutOfFuel
  | S fuel =>
    let! h := get_block node in
    if (header <? block_next h) || (block_next h =? 0) then ret node
    else insert_point fuel (block_next h) header
  end.

Definition finsh_block_insert (l : blist) (header : Z) : F unit :=
  let! first := get_list l in
  if first =? 0 then put_list l header
  else if header <? first then
    set_next header first ;;;
    put_list l header
  else
    let! fuel := list_fuel in
    let! node := insert_point fuel first header in
    let! h := get_block node in
    (when negb (block_next h =? 0) then set_next header (block_next h)) ;;;
    set_next node header.

(** The block of the list whose [next] is [header]; 0 where there is none. *)
Fixpoint find_prev (fuel : nat) (node header : Z) : F Z :=
  match fuel with
  | O => fail OutOfFuel
  | S fuel =>
    if node =? 0 then ret 0
    else
      let! h := get_block node in
      if block_next h =? header then ret node else find_prev fuel (block_next h) header
  end.

Definition finsh_block_remove (l : blist) (header : Z) : F unit :=
  let! node := get_list l in
  if node =? header then
    let! h := get_block header in
    put_list l (block_next h) ;;;
    set_next header 0
  else
    let! fuel := list_fuel in
    let! node := find_prev fuel node header in
    when negb (node =? 0) then
      let! h := get_block header in
      set_next node (block_next h).

Definition finsh_block_split (header size : Z) : F unit :=
  let next := header + sizeof_block_header + size in
  let! h := get_block header in
  put_block next (mk_block (u32 (block_length h - sizeof_block_header - size)) (block_next h)) ;;;
  set_length header size ;;;
  set_next header next.

(** [a + a->length + sizeof(struct finsh_block_header) == b] *)
Definition adjacent (a b : Z) : F bool :=
  let! h := get_block a in
  ret (a + block_length h + sizeof_block_header =? b).

Definition finsh_block_merge (l : blist) (header : Z) : F unit :=
  let! h := get_block header in
  let next_node := block_next h in
  let! first := get_list l in
  let! prev_node :=
    (if first =? header then ret 0
     else let! fuel := list_fuel in find_prev fuel first header) in
  let! after_prev := (if prev_node =? 0 then ret false else adjacent prev_node header) in
  let! before_next := (if next_node =? 0 then ret false else adjacent header next_node) in
  if (after_prev : bool) then
    let! p := get_block prev_node in
    if (before_next : bool) then
      let! n := get_block next_node in
      set_length prev_node (u32 (block_length p + (block_length h + block_length n +
        2 * sizeof_block_header))) ;;;
      set_next prev_node (block_next n)
    else
      set_length prev_node (u32 (block_length p + (block_length h + sizeof_block_header))) ;;;
      set_next prev_node (block_next h)
  else if (before_next : bool) then
    let! n := get_block next_node in
    set_length header (u32 (block_length h + (block_length n + sizeof_block_header))) ;;;
    set_next header (block_next n)
  else ret tt.

Definition finsh_heap_free (ptr : Z) : F unit :=
  let header := finsh_block_get_header ptr in
  finsh_block_remove AllocateList header ;;;
  finsh_block_insert FreeList header ;;;
  finsh_block_merge FreeList header.

Section allocate.
Context `{FinshEnv}.

(** Is [data] the value of one of the variables from entry [i] on? *)
Fixpoint referenced (data : Z) (vars : list finsh_var) (i : nat) : F bool :=
  match vars with
  | [] => ret false
  | v :: vars =>
    if bool_decide (var_type v = finsh_type_unknown) then referenced data vars (S i)
    else
      let! p := load32 (var_value_addr i) in
      if p =? data then ret true else referenced data vars (S i)
  end.

Fixpoint gc_loop (fuel : nat) (header : Z) : F unit :=
  match fuel with
  | O => fail OutOfFuel
  | S fuel =>
    if header =? 0 then ret tt
    else
      let! vars := gets global_variable in
      let! used := referenced (finsh_block_get_data header) vars 0 in
      let temp := header in
      let! h := get_block header in
      (when negb used then finsh_heap_free (finsh_block_get_data temp)) ;;;
      gc_loop fuel (block_next h)
  end.
Definition finsh_heap_gc : F unit :=
  let! header := gets allocate_list in
  let! fuel := list_fuel in
  gc_loop fuel header.

(** The first block of the list that [fits]; 0 where there is none. *)
Fixpoint first_fit (fits : Z → bool) (fuel : nat) (header : Z) : F Z :=
  match fuel with
  | O => fail OutOfFuel
  | S fuel =>
    if header =? 0 then ret 0
    else
      let! h := get_block header in
      if fits (block_length h) then ret header else first_fit fits fuel (block_next h)
  end.

Definition take_block (header size : Z) : F Z :=
  finsh_block_split header size ;;;
  finsh_block_remove FreeList header ;;;
  set_next header 0 ;;;
  finsh_block_insert AllocateList header ;;;
  memset0 (finsh_block_get_data header) (Z.to_nat size) ;;;
  ret (finsh_block_get_data header).

Definition finsh_heap_allocate (size : Z) : F Z :=
  let size := HEAP_ALIGN_SIZE size in
  let! fuel := list_fuel in
  let! first := gets free_list in
  let! header := first_fit (λ len, u32 (size + sizeof_block_header) <? len) fuel first in
  if negb (header =? 0) then take_block header size
  else
    finsh_heap_gc ;;;
    let! fuel := list_fuel in
    let! first := gets free_list in
    let! header := first_fit (λ len, u32 (size + sizeof_block_header) <=? len) fuel first in
    if header =? 0 then ret 0 else take_block header size.
End allocate.
