(* ===== verification/FinshNode.v ===== *)
(** * Nodes of the syntax tree ([finsh_node.c]) *)

From S2P Require Import Prelude FinshDef FinshHeap.

Definition finsh_node_init : F unit :=
  modify (set_global_node_table (replicate FINSH_NODE_MAX empty_node)).

Definition get_node (i : nat) : F finsh_node :=
  let! t := gets global_node_table in from_option OutOfBounds (t !! i).
Definition put_node (i : nat) (n : finsh_node) : F unit :=
  let! t := gets global_node_table in modify (set_global_node_table (<[i := n]> t)).
Definition upd_node (i : nat) (f : finsh_node → finsh_node) : F unit :=
  let! n := get_node i in put_node i (f n).

(** The first unused entry. *)
Fixpoint find_unknown (t : list finsh_node) (i : nat) : option nat :=
  match t with
  | [] => None
  | n :: t =>
    if bool_decide (node_type_of n = FINSH_NODE_UNKNOWN) then Some i else find_unknown t (S i)
  end.

Definition finsh_node_allocate (type : node_type) : F (option nat) :=
  let! t := gets global_node_table in
  match find_unknown t 0 with
  | None => ret None
  | Some i => upd_node i (set_node_type type) ;;; ret (Some i)
  end.

(** Allocate a node and fill it. *)
Definition new_node (type : node_type) (fill : nat → F unit) : F (option nat) :=
  let! node := finsh_node_allocate type in
  match node with
  | None => finsh_error_set FINSH_ERROR_MEMORY_FULL ;;; ret None
  | Some i => fill i ;;; ret (Some i)
  end.

Section nodes.
Context `{FinshEnv}.

(** The symbol of a name, with its type. *)
Definition lookup_symbol (name : list Z) : F (option (Z * finsh_id)) :=
  let! v := finsh_var_lookup name in
  match v with
  | Some i => ret (Some (FINSH_IDTYPE_VAR, IdVar i))
  | None =>
    let! v := finsh_sysvar_lookup name in
    match v with
    | Some v => ret (Some (FINSH_IDTYPE_SYSVAR, IdSysvar v))
    | None =>
      let! c := finsh_syscall_lookup name in
      match c with
      | Some c => ret (Some (FINSH_IDTYPE_SYSCALL, IdSyscall c))
      | None => ret None
      end
    end
  end.

Definition finsh_node_new_id (name : list Z) : F (option nat) :=
  let! symbol := lookup_symbol name in
  match symbol with
  | None => finsh_error_set FINSH_ERROR_UNKNOWN_SYMBOL ;;; ret None
  | Some (type, symbol) =>
    new_node FINSH_NODE_ID (λ i, upd_node i (set_node_id symbol) ;;; upd_node i (set_idtype type))
  end.

(** [node->value.char_value = c]: the other bytes of the union stay. *)
Definition finsh_node_new_char (c : Z) : F (option nat) :=
  new_node FINSH_NODE_VALUE_CHAR (λ i,
    upd_node i (λ n, set_node_value (set_low 8 (node_value n) c) n)).
Definition finsh_node_new_int (x : Z) : F (option nat) :=
  new_node FINSH_NODE_VALUE_INT (λ i, upd_node i (set_node_value (u32 x))).
Definition finsh_node_new_long (x : Z) : F (option nat) :=
  new_node FINSH_NODE_VALUE_LONG (λ i, upd_node i (set_node_value (u32 x))).
Definition finsh_node_new_ptr (p : Z) : F (option nat) :=
  new_node FINSH_NODE_VALUE_NULL (λ i, upd_node i (set_node_value (u32 p))).

Fixpoint store_string (a : Z) (l : list Z) : F unit :=
  match l with
  | [] => ret tt
  | c :: l => store8 a c ;;; store_string (a + 1) l
  end.

(** [str] is a C string without its terminating zero. *)
Definition finsh_node_new_string (str : list Z) : F (option nat) :=
  new_node FINSH_NODE_VALUE_STRING (λ i,
    let! p := finsh_heap_allocate (Z.of_nat (length str) + 1) in
    upd_node i (set_node_value p) ;;;
    store_string p str ;;;
    store8 (p + Z.of_nat (length str)) 0).
End nodes.
