(* ===== verification/FinshVm.v ===== *)
(** * The stack machine of the shell ([finsh_ops.c], [finsh_vm.c])

    The machine executes the text segment from its first byte to its last;
    unused bytes are zero, the operation that does nothing.  The stack holds
    unions of four bytes: an operation on a [char] or a [short] changes the
    low bytes of an entry and leaves the others. *)

From S2P Require Import Prelude FinshDef.

(** ** Operation codes ([finsh_ops.h]) *)
Definition FINSH_OP_NOOP : Z := 0x00.
Definition FINSH_OP_ADD_BYTE : Z := 0x01.
Definition FINSH_OP_ADD_WORD : Z := 0x02.
Definition FINSH_OP_ADD_DWORD : Z := 0x03.
Definition FINSH_OP_SUB_BYTE : Z := 0x04.
Definition FINSH_OP_SUB_WORD : Z := 0x05.
Definition FINSH_OP_SUB_DWORD : Z := 0x06.
Definition FINSH_OP_DIV_BYTE : Z := 0x07.
Definition FINSH_OP_DIV_WORD : Z := 0x08.
Definition FINSH_OP_DIV_DWORD : Z := 0x09.
Definition FINSH_OP_MOD_BYTE : Z := 0x0A.
Definition FINSH_OP_MOD_WORD : Z := 0x0B.
Definition FINSH_OP_MOD_DWORD : Z := 0x0C.
Definition FINSH_OP_MUL_BYTE : Z := 0x0D.
Definition FINSH_OP_MUL_WORD : Z := 0x0E.
Definition FINSH_OP_MUL_DWORD : Z := 0x0F.
Definition FINSH_OP_AND_BYTE : Z := 0x10.
Definition FINSH_OP_AND_WORD : Z := 0x11.
Definition FINSH_OP_AND_DWORD : Z := 0x12.
Definition FINSH_OP_OR_BYTE : Z := 0x13.
Definition FINSH_OP_OR_WORD : Z := 0x14.
Definition FINSH_OP_OR_DWORD : Z := 0x15.
Definition FINSH_OP_XOR_BYTE : Z := 0x16.
Definition FINSH_OP_XOR_WORD : Z := 0x17.
Definition FINSH_OP_XOR_DWORD : Z := 0x18.
Definition FINSH_OP_BITWISE_BYTE : Z := 0x19.
Definition FINSH_OP_BITWISE_WORD : Z := 0x1A.
Definition FINSH_OP_BITWISE_DWORD : Z := 0x1B.
Definition FINSH_OP_SHL_BYTE : Z := 0x1C.
Definition FINSH_OP_SHL_WORD : Z := 0x1D.
Definition FINSH_OP_SHL_DWORD : Z := 0x1E.
Definition FINSH_OP_SHR_BYTE : Z := 0x1F.
Definition FINSH_OP_SHR_WORD : Z := 0x20.
Definition FINSH_OP_SHR_DWORD : Z := 0x21.
Definition FINSH_OP_LD_BYTE : Z := 0x22.
Definition FINSH_OP_LD_WORD : Z := 0x23.
Definition FINSH_OP_LD_DWORD : Z := 0x24.
Definition FINSH_OP_LD_VALUE_BYTE : Z := 0x25.
Definition FINSH_OP_LD_VALUE_WORD : Z := 0x26.
Definition FINSH_OP_LD_VALUE_DWORD : Z := 0x27.
Definition FINSH_OP_ST_BYTE : Z := 0x28.
Definition FINSH_OP_ST_WORD : Z := 0x29.
Definition FINSH_OP_ST_DWORD : Z := 0x2A.
Definition FINSH_OP_POP : Z := 0x2B.
Definition FINSH_OP_SYSCALL : Z := 0x2C.
Definition FINSH_OP_LD_VALUE_BYTE_STACK : Z := 0x2D.
Definition FINSH_OP_LD_VALUE_WORD_STACK : Z := 0x2E.
Definition FINSH_OP_LD_VALUE_DWORD_STACK : Z := 0x2F.

(** ** The stack and the text *)
Definition get_slot (i : Z) : F Z :=
  let! l := gets finsh_vm_stack in
  if i <? 0 then fail OutOfBounds else from_option OutOfBounds (l !! Z.to_nat i).
Definition put_slot (i v : Z) : F unit :=
  let! l := gets finsh_vm_stack in
  if (0 <=? i) && (i <? Z.of_nat (length l))
  then modify (set_finsh_vm_stack (<[Z.to_nat i := v]> l)) else fail OutOfBounds.
Definition move_sp (n : Z) : F unit :=
  let! sp := gets finsh_sp in modify (set_finsh_sp (sp + n)).

Definition text_at (i : Z) : F Z :=
  let! l := gets text_segment in
  if i <? 0 then fail OutOfBounds else from_option OutOfBounds (l !! Z.to_nat i).
Definition move_pc (n : Z) : F unit :=
  let! pc := gets finsh_pc in modify (set_finsh_pc (pc + n)).

Definition FINSH_GET16 (pc : Z) : F Z :=
  let! b0 := text_at pc in
  let! b1 := text_at (pc + 1) in
  ret (Z.lor b0 (Z.shiftl b1 8)).
Definition FINSH_GET32 (pc : Z) : F Z :=
  let! b0 := text_at pc in
  let! b1 := text_at (pc + 1) in
  let! b2 := text_at (pc + 2) in
  let! b3 := text_at (pc + 3) in
  ret (Z.lor (Z.lor (Z.lor b0 (Z.shiftl b1 8)) (Z.shiftl b2 16)) (Z.shiftl b3 24)).

(** The members of the union: the compiler of the project makes [char]
    unsigned, [short] and [long] are signed. *)
Definition char_value (w : Z) : Z := u8 w.
Definition short_value (w : Z) : Z := s16 w.
Definition long_value (w : Z) : Z := s32 w.

(** ** Arithmetic of C on [int]

    Overflow wraps around; dividing by zero and shifting by a count out of
    range is undefined. *)
Inductive binop : Type := BAdd | BSub | BMul | BDiv | BMod | BAnd | BOr | BXor | BShl | BShr.

Definition c_binop (op : binop) (x y : Z) : option Z :=
  match op with
  | BAdd => Some (x + y)
  | BSub => Some (x - y)
  | BMul => Some (x * y)
  | BDiv => if y =? 0 then None else Some (Z.quot x y)
  | BMod => if y =? 0 then None else Some (Z.rem x y)
  | BAnd => Some (Z.land x y)
  | BOr => Some (Z.lor x y)
  | BXor => Some (Z.lxor x y)
  | BShl => if (0 <=? y) && (y <? 32) then Some (Z.shiftl x y) else None
  | BShr => if (0 <=? y) && (y <? 32) then Some (Z.shiftr x y) else None
  end.

(** The three macros [OP_BIN_BYTE], [OP_BIN_WORD], [OP_BIN_DWORD] differ in
    the member of the union. *)
Definition OP_BIN (get : Z → Z) (w : Z) (op : binop) : F unit :=
  let! sp := gets finsh_sp in
  let! a := get_slot (sp - 2) in
  let! b := get_slot (sp - 1) in
  let! r := from_option Undefined (c_binop op (get a) (get b)) in
  put_slot (sp - 2) (set_low w a r) ;;;
  move_sp (-1).
Definition OP_BIN_BYTE : binop → F unit := OP_BIN char_value 8.
Definition OP_BIN_WORD : binop → F unit := OP_BIN short_value 16.
Definition OP_BIN_DWORD : binop → F unit := OP_BIN long_value 32.

(** ** The operations *)
Definition OP_no_op : F unit := ret tt.
Definition OP_add_byte : F unit := OP_BIN_BYTE BAdd.
Definition OP_add_word : F unit := OP_BIN_WORD BAdd.
Definition OP_add_dword : F unit := OP_BIN_DWORD BAdd.
Definition OP_sub_byte : F unit := OP_BIN_BYTE BSub.
Definition OP_sub_word : F unit := OP_BIN_WORD BSub.
Definition OP_sub_dword : F unit := OP_BIN_DWORD BSub.
Definition OP_div_byte : F unit := OP_BIN_BYTE BDiv.
Definition OP_div_word : F unit := OP_BIN_WORD BDiv.
Definition OP_div_dword : F unit := OP_BIN_DWORD BDiv.
Definition OP_mod_byte : F unit := OP_BIN_BYTE BMod.
Definition OP_mod_word : F unit := OP_BIN_WORD BMod.
Definition OP_mod_dword : F unit := OP_BIN_DWORD BMod.
Definition OP_mul_byte : F unit := OP_BIN_BYTE BMul.
Definition OP_mul_word : F unit := OP_BIN_WORD BMul.
Definition OP_mul_dword : F unit := OP_BIN_DWORD BMul.
Definition OP_and_byte : F unit := OP_BIN_BYTE BAnd.
Definition OP_and_word : F unit := OP_BIN_WORD BAnd.
Definition OP_and_dword : F unit := OP_BIN_DWORD BAnd.
Definition OP_or_byte : F unit := OP_BIN_BYTE BOr.
Definition OP_or_word : F unit := OP_BIN_WORD BOr.
Definition OP_or_dword : F unit := OP_BIN_DWORD BOr.
Definition OP_xor_byte : F unit := OP_BIN_BYTE BXor.
Definition OP_xor_word : F unit := OP_BIN_WORD BXor.
Definition OP_xor_dword : F unit := OP_BIN_DWORD BXor.

(** [(finsh_sp - 1)->member = ~ ((finsh_sp - 1)->member)] *)
Definition OP_NOT (get : Z → Z) (w : Z) : F unit :=
  let! sp := gets finsh_sp in
  let! a := get_slot (sp - 1) in
  put_slot (sp - 1) (set_low w a (Z.lnot (get a))).
Definition OP_bw_byte : F unit := OP_NOT char_value 8.
Definition OP_bw_word : F unit := OP_NOT short_value 16.
Definition OP_bw_dword : F unit := OP_NOT long_value 32.

Definition OP_shl_byte : F unit := OP_BIN_BYTE BShl.
Definition OP_shl_word : F unit := OP_BIN_WORD BShl.
Definition OP_shl_dword : F unit := OP_BIN_DWORD BShl.
Definition OP_shr_byte : F unit := OP_BIN_BYTE BShr.
Definition OP_shr_word : F unit := OP_BIN_WORD BShr.
Definition OP_shr_dword : F unit := OP_BIN_DWORD BShr.

(** Load a constant of the text. *)
Definition OP_LD (w : Z) (fetch : Z → F Z) (n : Z) : F unit :=
  let! sp := gets finsh_sp in
  let! pc := gets finsh_pc in
  let! x := fetch pc in
  let! a := get_slot sp in
  put_slot sp (set_low w a x) ;;;
  move_sp 1 ;;;
  move_pc n.
Definition OP_ld_byte : F unit := OP_LD 8 text_at 1.
Definition OP_ld_word : F unit := OP_LD 16 FINSH_GET16 2.
Definition OP_ld_dword : F unit := OP_LD 32 FINSH_GET32 4.

(** Load from an address of the text. *)
Definition OP_LD_VALUE (w : Z) (load : Z → F Z) : F unit :=
  let! sp := gets finsh_sp in
  let! pc := gets finsh_pc in
  let! p := FINSH_GET32 pc in
  let! x := load p in
  let! a := get_slot sp in
  put_slot sp (set_low w a x) ;;;
  move_sp 1 ;;;
  move_pc 4.
Definition OP_ld_value_byte : F unit := OP_LD_VALUE 8 load8.
Definition OP_ld_value_word : F unit := OP_LD_VALUE 16 load16.
Definition OP_ld_value_dword : F unit := OP_LD_VALUE 32 load32.

(** Load from the address on the stack. *)
Definition OP_LD_VALUE_STACK (w : Z) (load : Z → F Z) : F unit :=
  let! sp := gets finsh_sp in
  let! p := get_slot (sp - 1) in
  let! x := load p in
  put_slot (sp - 1) (set_low w p x).
Definition OP_ld_value_byte_stack : F unit := OP_LD_VALUE_STACK 8 load8.
Definition OP_ld_value_word_stack : F unit := OP_LD_VALUE_STACK 16 load16.
Definition OP_ld_value_dword_stack : F unit := OP_LD_VALUE_STACK 32 load32.

(** Store to the address below the top. *)
Definition OP_ST (store : Z → Z → F unit) : F unit :=
  let! sp := gets finsh_sp in
  let! p := get_slot (sp - 2) in
  let! x := get_slot (sp - 1) in
  store p x ;;;
  move_sp (-1).
Definition OP_st_byte : F unit := OP_ST store8.
Definition OP_st_word : F unit := OP_ST store16.
Definition OP_st_dword : F unit := OP_ST store32.

Definition OP_pop : F unit := move_sp (-1).

(** The loop of [OP_call]: [n] arguments, the last one on top. *)
Fixpoint pop_args (n : nat) (parameterv : list Z) : F (list Z) :=
  match n with
  | O => ret parameterv
  | S n =>
    let! sp := gets finsh_sp in
    let! x := get_slot sp in
    move_sp (-1) ;;;
    pop_args n (x :: parameterv)
  end.

Section vm.
Context `{FinshEnv}.

(** [parameterv] has sixteen entries. *)
Definition OP_call : F unit :=
  let! pc := gets finsh_pc in
  let! parameters := text_at pc in
  move_pc 1 ;;;
  move_sp (-1) ;;;
  if 16 <? parameters then fail OutOfBounds
  else
    let! parameterv := pop_args (Z.to_nat parameters) [] in
    let! sp := gets finsh_sp in
    let! f := get_slot sp in
    let! m := gets memory in
    (* case 0: r = f(0) *)
    let args := match parameterv with [] => [0] | _ => parameterv end in
    let! r := from_option NullDeref (call_function f args m) in
    modify (set_memory r.2) ;;;
    put_slot sp (u32 r.1) ;;;
    move_sp 1.

Definition op_table : list (F unit) := [
  OP_no_op; OP_add_byte; OP_add_word; OP_add_dword; OP_sub_byte; OP_sub_word;
  OP_sub_dword; OP_div_byte; OP_div_word; OP_div_dword; OP_mod_byte; OP_mod_word;
  OP_mod_dword; OP_mul_byte; OP_mul_word; OP_mul_dword; OP_and_byte; OP_and_word;
  OP_and_dword; OP_or_byte; OP_or_word; OP_or_dword; OP_xor_byte; OP_xor_word;
  OP_xor_dword; OP_bw_byte; OP_bw_word; OP_bw_dword; OP_shl_byte; OP_shl_word;
  OP_shl_dword; OP_shr_byte; OP_shr_word; OP_shr_dword; OP_ld_byte; OP_ld_word;
  OP_ld_dword; OP_ld_value_byte; OP_ld_value_word; OP_ld_value_dword; OP_st_byte; OP_st_word;
  OP_st_dword; OP_pop; OP_call; OP_ld_value_byte_stack; OP_ld_value_word_stack; OP_ld_value_dword_stack
].

(** [op_table[op]()].  The table ends with a null pointer, and bytes above that
    are not operations. *)
Definition run_op (op : Z) : F unit :=
  match op_table !! Z.to_nat op with
  | Some f => f
  | None => fail NullDeref
  end.

(** One round of the loop of [finsh_vm_run]. *)
Definition vm_step : F unit :=
  let! pc := gets finsh_pc in
  let! op := text_at pc in
  move_pc 1 ;;;
  run_op op.

Fixpoint vm_loop (fuel : nat) : F unit :=
  let! pc := gets finsh_pc in
  if (0 <=? pc) && (pc <? FINSH_TEXT_MAX) then
    match fuel with
    | O => fail OutOfFuel
    | S fuel => vm_step ;;; vm_loop fuel
    end
  else ret tt.

(** Every round moves the program counter forward. *)
Definition finsh_vm_run : F unit :=
  modify (set_finsh_sp 0) ;;;
  modify (set_finsh_pc 0) ;;;
  vm_loop (Z.to_nat FINSH_TEXT_MAX).

(** [finsh_stack_bottom] of [finsh_init.c] *)
Definition finsh_stack_bottom : F Z :=
  let! w := get_slot 0 in ret (long_value w).
End vm.
