(* ===== verification/FinshCompiler.v ===== *)
(** * The compiler of the shell ([finsh_compiler.c])

    One pass over the tree gives every node a data type and marks the nodes of
    which the address is wanted; a second one writes the text segment. *)

From S2P Require Import Prelude FinshDef FinshHeap FinshNode FinshVm.

(** ** Code *)
Definition finsh_code_byte (x : Z) : F unit :=
  let! pc := gets finsh_compile_pc in
  let! l := gets text_segment in
  if (0 <=? pc) && (pc <? Z.of_nat (length l)) then
    modify (set_text_segment (<[Z.to_nat pc := u8 x]> l)) ;;;
    modify (set_finsh_compile_pc (pc + 1))
  else fail OutOfBounds.
Definition finsh_code_word (x : Z) : F unit :=
  finsh_code_byte (Z.land x 0xff) ;;;
  finsh_code_byte (Z.shiftr x 8).
Definition finsh_code_dword (x : Z) : F unit :=
  let x := u32 x in
  finsh_code_byte (Z.land x 0xff) ;;;
  finsh_code_byte (Z.land (Z.shiftr x 8) 0xff) ;;;
  finsh_code_byte (Z.land (Z.shiftr x 16) 0xff) ;;;
  finsh_code_byte (Z.shiftr x 24).

(** The operation for the data type of the node. *)
Definition code_typed (dt b w d : Z) : F unit :=
  if dt =? FINSH_DATA_TYPE_BYTE then finsh_code_byte b
  else if dt =? FINSH_DATA_TYPE_WORD then finsh_code_byte w
  else if dt =? FINSH_DATA_TYPE_DWORD then finsh_code_byte d
  else ret tt.

(** Load a variable, or its address.  There is no case for [void] and
    [void *]. *)
Definition code_load (type : finsh_type) (idtype addr : Z) : F unit :=
  let load (op : Z) :=
    finsh_code_byte
      (if negb (Z.land idtype FINSH_IDTYPE_ADDRESS =? 0) then FINSH_OP_LD_DWORD else op) ;;;
    finsh_code_dword addr in
  match type with
  | finsh_type_char | finsh_type_uchar => load FINSH_OP_LD_VALUE_BYTE
  | finsh_type_short | finsh_type_ushort => load FINSH_OP_LD_VALUE_WORD
  | finsh_type_int | finsh_type_uint | finsh_type_long | finsh_type_ulong
  | finsh_type_charp | finsh_type_shortp | finsh_type_intp | finsh_type_longp =>
    load FINSH_OP_LD_VALUE_DWORD
  | finsh_type_unknown | finsh_type_void | finsh_type_voidp => ret tt
  end.

(** Store, and load the value again. *)
Definition code_store (dt : Z) : F unit :=
  if dt =? FINSH_DATA_TYPE_BYTE then
    finsh_code_byte FINSH_OP_ST_BYTE ;;;
    finsh_code_byte FINSH_OP_LD_VALUE_BYTE_STACK
  else if dt =? FINSH_DATA_TYPE_WORD then
    finsh_code_byte FINSH_OP_ST_WORD ;;;
    finsh_code_byte FINSH_OP_LD_VALUE_WORD_STACK
  else if dt =? FINSH_DATA_TYPE_DWORD then
    finsh_code_byte FINSH_OP_ST_DWORD ;;;
    finsh_code_byte FINSH_OP_LD_VALUE_DWORD_STACK
  else finsh_error_set FINSH_ERROR_UNKNOWN_TYPE.

(** Load the value at [addr], a one, and add or subtract: the part that the
    four increments and decrements share. *)
Definition code_step_byte (addr op : Z) : F unit :=
  finsh_code_byte FINSH_OP_LD_VALUE_BYTE ;;; finsh_code_dword addr ;;;
  finsh_code_byte FINSH_OP_LD_BYTE ;;; finsh_code_byte 1 ;;;
  finsh_code_byte op ;;;
  finsh_code_byte FINSH_OP_ST_BYTE.
Definition code_step_word (addr op : Z) : F unit :=
  finsh_code_byte FINSH_OP_LD_VALUE_WORD ;;; finsh_code_dword addr ;;;
  finsh_code_byte FINSH_OP_LD_WORD ;;; finsh_code_word 1 ;;;
  finsh_code_byte op ;;;
  finsh_code_byte FINSH_OP_ST_WORD.
Definition code_step_dword (addr op : Z) : F unit :=
  finsh_code_byte FINSH_OP_LD_VALUE_DWORD ;;; finsh_code_dword addr ;;;
  finsh_code_byte FINSH_OP_LD_DWORD ;;; finsh_code_dword 1 ;;;
  finsh_code_byte op ;;;
  finsh_code_byte FINSH_OP_ST_DWORD.

(** [++x] and [--x]: the address is on the stack already; the value is loaded
    again as a double word, whatever its type. *)
Definition code_pre (dt addr b w d : Z) : F unit :=
  if dt =? FINSH_DATA_TYPE_BYTE then
    code_step_byte addr b ;;; finsh_code_byte FINSH_OP_LD_VALUE_DWORD_STACK
  else if dt =? FINSH_DATA_TYPE_WORD then
    code_step_word addr w ;;; finsh_code_byte FINSH_OP_LD_VALUE_DWORD_STACK
  else if dt =? FINSH_DATA_TYPE_DWORD then
    code_step_dword addr d ;;; finsh_code_byte FINSH_OP_LD_VALUE_DWORD_STACK
  else ret tt.

(** [x++] and [x--]: the value is on the stack already. *)
Definition code_post (dt addr b w d : Z) : F unit :=
  if dt =? FINSH_DATA_TYPE_BYTE then
    finsh_code_byte FINSH_OP_LD_DWORD ;;; finsh_code_dword addr ;;;
    code_step_byte addr b ;;; finsh_code_byte FINSH_OP_POP
  else if dt =? FINSH_DATA_TYPE_WORD then
    finsh_code_byte FINSH_OP_LD_DWORD ;;; finsh_code_dword addr ;;;
    code_step_word addr w ;;; finsh_code_byte FINSH_OP_POP
  else if dt =? FINSH_DATA_TYPE_DWORD then
    finsh_code_byte FINSH_OP_LD_DWORD ;;; finsh_code_dword addr ;;;
    code_step_dword addr d ;;; finsh_code_byte FINSH_OP_POP
  else ret tt.

(** ** Compilation *)
Section compiler.
Context `{FinshEnv}.

Definition get_var (i : nat) : F finsh_var :=
  let! l := gets global_variable in from_option OutOfBounds (l !! i).

Definition compile_id (n : finsh_node) : F unit :=
  if negb (Z.land (idtype n) FINSH_IDTYPE_SYSCALL =? 0) then
    match node_id n with
    | IdSyscall c =>
      finsh_code_byte FINSH_OP_LD_DWORD ;;;
      finsh_code_dword (syscall_func c)
    | _ => fail NullDeref
    end
  else if negb (Z.land (idtype n) FINSH_IDTYPE_SYSVAR =? 0) then
    match node_id n with
    | IdSysvar v => code_load (sysvar_type v) (idtype n) (sysvar_var v)
    | _ => ret tt
    end
  else
    match node_id n with
    | IdVar i => let! v := get_var i in code_load (var_type v) (idtype n) (var_value_addr i)
    | _ => ret tt
    end.

(** The number of nodes behind [node]. *)
Fixpoint count_siblings (fuel : nat) (node : option nat) : F Z :=
  match node with
  | None => ret 0
  | Some i =>
    match fuel with
    | O => fail OutOfFuel
    | S fuel =>
      let! n := get_node i in
      let! k := count_siblings fuel (sibling n) in
      ret (k + 1)
    end
  end.

Definition get_child (n : finsh_node) : F (option finsh_node) :=
  match child n with
  | None => ret None
  | Some i => let! c := get_node i in ret (Some c)
  end.

Definition compile_assign (n : finsh_node) : F unit :=
  let! c := get_child n in
  match c with
  | None => fail NullDeref
  | Some c =>
    match node_type_of c with
    | FINSH_NODE_ID => code_store (data_type c)
    | FINSH_NODE_SYS_GETVALUE => code_store (Z.land (data_type c) 0x0F)
    | _ => ret tt
    end
  end.

(** The increments: only of an identifier. *)
Definition compile_step (n : finsh_node) (code : Z → Z → F unit) : F unit :=
  let! c := get_child n in
  match c with
  | Some c =>
    if bool_decide (node_type_of c = FINSH_NODE_ID)
    then code (data_type n) (id_value_addr (node_id c)) else ret tt
  | None => ret tt
  end.

Definition compile_node (n : finsh_node) : F unit :=
  let dt := data_type n in
  match node_type_of n with
  | FINSH_NODE_ID => compile_id n
  | FINSH_NODE_VALUE_CHAR =>
    finsh_code_byte FINSH_OP_LD_BYTE ;;; finsh_code_byte (char_value (node_value n))
  | FINSH_NODE_VALUE_INT | FINSH_NODE_VALUE_LONG
  | FINSH_NODE_VALUE_NULL | FINSH_NODE_VALUE_STRING =>
    finsh_code_byte FINSH_OP_LD_DWORD ;;; finsh_code_dword (node_value n)
  | FINSH_NODE_SYS_ADD => code_typed dt FINSH_OP_ADD_BYTE FINSH_OP_ADD_WORD FINSH_OP_ADD_DWORD
  | FINSH_NODE_SYS_SUB => code_typed dt FINSH_OP_SUB_BYTE FINSH_OP_SUB_WORD FINSH_OP_SUB_DWORD
  | FINSH_NODE_SYS_MUL => code_typed dt FINSH_OP_MUL_BYTE FINSH_OP_MUL_WORD FINSH_OP_MUL_DWORD
  | FINSH_NODE_SYS_DIV => code_typed dt FINSH_OP_DIV_BYTE FINSH_OP_DIV_WORD FINSH_OP_DIV_DWORD
  | FINSH_NODE_SYS_MOD => code_typed dt FINSH_OP_MOD_BYTE FINSH_OP_MOD_WORD FINSH_OP_MOD_DWORD
  | FINSH_NODE_SYS_AND => code_typed dt FINSH_OP_AND_BYTE FINSH_OP_AND_WORD FINSH_OP_AND_DWORD
  | FINSH_NODE_SYS_OR => code_typed dt FINSH_OP_OR_BYTE FINSH_OP_OR_WORD FINSH_OP_OR_DWORD
  | FINSH_NODE_SYS_XOR => code_typed dt FINSH_OP_XOR_BYTE FINSH_OP_XOR_WORD FINSH_OP_XOR_DWORD
  | FINSH_NODE_SYS_BITWISE =>
    code_typed dt FINSH_OP_BITWISE_BYTE FINSH_OP_BITWISE_WORD FINSH_OP_BITWISE_DWORD
  | FINSH_NODE_SYS_SHL => code_typed dt FINSH_OP_SHL_BYTE FINSH_OP_SHL_WORD FINSH_OP_SHL_DWORD
  | FINSH_NODE_SYS_SHR => code_typed dt FINSH_OP_SHR_BYTE FINSH_OP_SHR_WORD FINSH_OP_SHR_DWORD
  | FINSH_NODE_SYS_FUNC =>
    let! c := get_child n in
    match c with
    | None => ret tt
    | Some c =>
      let! parameters := count_siblings FINSH_NODE_MAX (sibling c) in
      finsh_code_byte FINSH_OP_SYSCALL ;;;
      finsh_code_byte parameters
    end
  | FINSH_NODE_SYS_ASSIGN => compile_assign n
  | FINSH_NODE_SYS_PREINC => compile_step n (λ dt addr,
      code_pre dt addr FINSH_OP_ADD_BYTE FINSH_OP_ADD_WORD FINSH_OP_ADD_DWORD)
  | FINSH_NODE_SYS_PREDEC => compile_step n (λ dt addr,
      code_pre dt addr FINSH_OP_SUB_BYTE FINSH_OP_SUB_WORD FINSH_OP_SUB_DWORD)
  | FINSH_NODE_SYS_INC => compile_step n (λ dt addr,
      code_post dt addr FINSH_OP_ADD_BYTE FINSH_OP_ADD_WORD FINSH_OP_ADD_DWORD)
  | FINSH_NODE_SYS_DEC => compile_step n (λ dt addr,
      code_post dt addr FINSH_OP_SUB_BYTE FINSH_OP_SUB_WORD FINSH_OP_SUB_DWORD)
  | FINSH_NODE_SYS_NULL => finsh_code_dword 0
  | FINSH_NODE_SYS_GETVALUE =>
    if negb (Z.land (idtype n) FINSH_IDTYPE_ADDRESS =? 0) then ret tt
    else code_typed dt FINSH_OP_LD_VALUE_BYTE_STACK FINSH_OP_LD_VALUE_WORD_STACK
           FINSH_OP_LD_VALUE_DWORD_STACK
  | FINSH_NODE_SYS_GETADDR => ret tt
  | FINSH_NODE_UNKNOWN | FINSH_NODE_SYS_CAST => finsh_error_set FINSH_ERROR_UNKNOWN_NODE
  end.

(** The recursion follows the pointers of a tree, whose paths are no longer
    than the table. *)
Fixpoint finsh_compile (fuel : nat) (node : option nat) : F unit :=
  match node with
  | None => ret tt
  | Some i =>
    match fuel with
    | O => fail OutOfFuel
    | S fuel =>
      let! n := get_node i in
      finsh_compile fuel (child n) ;;;
      compile_node n ;;;
      finsh_compile fuel (sibling n)
    end
  end.

(** ** Types *)

(** The data type of a variable; [None] for an unknown type. *)
Definition data_type_of (type : finsh_type) : option Z :=
  match type with
  | finsh_type_unknown => None
  | finsh_type_void => Some FINSH_DATA_TYPE_VOID
  | finsh_type_char | finsh_type_uchar => Some FINSH_DATA_TYPE_BYTE
  | finsh_type_short | finsh_type_ushort => Some FINSH_DATA_TYPE_WORD
  | finsh_type_int | finsh_type_uint | finsh_type_long | finsh_type_ulong
  | finsh_type_charp | finsh_type_voidp | finsh_type_shortp | finsh_type_intp
  | finsh_type_longp => Some FINSH_DATA_TYPE_DWORD
  end.

Definition set_type (i : nat) (type : finsh_type) : F unit :=
  match data_type_of type with
  | Some dt => upd_node i (set_data_type dt)
  | None => finsh_error_set FINSH_ERROR_UNKNOWN_TYPE
  end.

(** The data type of a node without children. *)
Definition type_leaf (i : nat) : F unit :=
  let! n := get_node i in
  match node_type_of n with
  | FINSH_NODE_ID =>
    if negb (Z.land (idtype n) FINSH_IDTYPE_VAR =? 0) then
      match node_id n with
      | IdVar k => let! v := get_var k in set_type i (var_type v)
      | _ => ret tt
      end
    else if negb (Z.land (idtype n) FINSH_IDTYPE_SYSVAR =? 0) then
      match node_id n with
      | IdSysvar v => set_type i (sysvar_type v)
      | _ => ret tt
      end
    else ret tt
  | FINSH_NODE_VALUE_CHAR => upd_node i (set_data_type FINSH_DATA_TYPE_BYTE)
  | FINSH_NODE_VALUE_INT | FINSH_NODE_VALUE_LONG
  | FINSH_NODE_VALUE_STRING | FINSH_NODE_VALUE_NULL =>
    upd_node i (set_data_type FINSH_DATA_TYPE_DWORD)
  | _ => ret tt
  end.

(** What the children of a node are asked for: an address or a value. *)
Definition child_is_addr (type : node_type) (is_addr : Z) : Z :=
  match type with
  | FINSH_NODE_SYS_ASSIGN | FINSH_NODE_SYS_PREINC | FINSH_NODE_SYS_PREDEC
  | FINSH_NODE_SYS_GETADDR => FINSH_IDTYPE_ADDRESS
  | FINSH_NODE_SYS_GETVALUE => if negb (is_addr =? 0) then 0 else is_addr
  | _ => is_addr
  end.

Fixpoint finsh_type_check (fuel : nat) (node : option nat) (is_addr : Z) : F unit :=
  match node with
  | None => ret tt
  | Some i =>
    match fuel with
    | O => fail OutOfFuel
    | S fuel =>
      let! n := get_node i in
      finsh_type_check fuel (child n) (child_is_addr (node_type_of n) is_addr) ;;;
      finsh_type_check fuel (sibling n) FINSH_NODE_VALUE ;;;
      (when negb (idtype n =? FINSH_IDTYPE_SYSCALL) then
         upd_node i (λ n, set_idtype (Z.lor (idtype n) is_addr) n)) ;;;
      match child n with
      | Some c => let! c := get_node c in upd_node i (set_data_type (data_type c))
      | None => type_leaf i
      end
    end
  end.

(** ** Statements *)
Fixpoint compile_statements (fuel : nat) (node : option nat) : F unit :=
  match node with
  | None => ret tt
  | Some i =>
    match fuel with
    | O => fail OutOfFuel
    | S fuel =>
      let! n := get_node i in
      upd_node i (set_sibling None) ;;;
      finsh_compile FINSH_NODE_MAX (Some i) ;;;
      match sibling n with
      | None => ret tt
      | Some next =>
        finsh_code_byte FINSH_OP_POP ;;;
        compile_statements fuel (Some next)
      end
    end
  end.

(** The memset clears the text segment, but only one entry of the stack. *)
Definition finsh_compiler_run (node : option nat) : F unit :=
  finsh_type_check FINSH_NODE_MAX node FINSH_NODE_VALUE ;;;
  modify (set_text_segment (replicate (Z.to_nat FINSH_TEXT_MAX) 0)) ;;;
  put_slot 0 0 ;;;
  modify (set_finsh_compile_pc 0) ;;;
  compile_statements FINSH_NODE_MAX node.
End compiler.
