(* ===== verification/FinshToken.v ===== *)
(** * The tokens of the shell ([finsh_token.c])

    A token is read from the line at [tk_position].  At the end of the line
    the position is set to its beginning and the end is noted. *)

From S2P Require Import Prelude FinshDef.

(** ** Characters *)
Definition ch_nl : Z := 10.
Definition is_digit (ch : Z) : bool := (48 <=? ch) && (ch <=? 57).

(** [((ch | 0x20) - 'a') < n] on unsigned integers *)
Definition letter_below (n ch : Z) : bool :=
  let d := Z.lor ch 0x20 - 97 in (0 <=? d) && (d <? n).
Definition is_alpha (ch : Z) : bool := letter_below 26 ch.
Definition is_xdigit (ch : Z) : bool := is_digit ch || letter_below 6 ch.
Definition is_separator (ch : Z) : bool :=
  negb (((97 <=? ch) && (ch <=? 122)) || ((65 <=? ch) && (ch <=? 90)) || is_digit ch || (ch =? 95)).

(** ** Access to the token *)
Definition upd_token (f : finsh_token → finsh_token) : F unit :=
  let! t := gets token in modify (set_token (f t)).
Definition put_string (i c : Z) : F unit :=
  if (0 <=? i) && (i <? FINSH_STRING_MAX)
  then upd_token (λ t, set_string (<[Z.to_nat i := u8 c]> (tk_string t)) t) else fail OutOfBounds.
Definition is_eof : F bool := gets (λ s, tk_eof (token s)).
Definition finsh_token_position : F Z := gets (λ s, tk_position (token s)).
Definition finsh_token_replay : F unit := upd_token (set_replay true).

(** Every round of a loop over the line reads a character. *)
Definition line_fuel : F nat := gets (λ s, S (length (tk_line (token s)))).

Definition finsh_token_init (line : list Z) : F unit :=
  modify (set_token
    (mk_token false false 0 finsh_token_type_none 0
       (replicate (Z.to_nat FINSH_STRING_MAX) 0) line)).

(** ** Characters of the line *)
Definition token_next_char : F Z :=
  let! t := gets token in
  if tk_eof t then ret 0
  else if (tk_position t =? Z.of_nat (length (tk_line t))) ||
          bool_decide (tk_line t !! Z.to_nat (tk_position t) = Some ch_nl) then
    upd_token (set_eof true) ;;;
    upd_token (set_position 0) ;;;
    ret 0
  else
    let! c := from_option OutOfBounds (tk_line t !! Z.to_nat (tk_position t)) in
    upd_token (set_position (tk_position t + 1)) ;;;
    ret c.

Definition token_prev_char : F unit :=
  let! t := gets token in
  if tk_eof t then ret tt
  else if tk_position t =? 0 then ret tt
  else upd_token (set_position (tk_position t - 1)).

Fixpoint trim_loop (fuel : nat) : F unit :=
  match fuel with
  | O => fail OutOfFuel
  | S fuel =>
    let! ch := token_next_char in
    when (ch =? 32) || (ch =? 9) || (ch =? 13) then trim_loop fuel
  end.
Definition token_trim_space : F unit :=
  let! fuel := line_fuel in
  trim_loop fuel ;;;
  token_prev_char.

(** ** Names and keywords *)

(** The loop of [token_get_string]; the result is the index of the end. *)
Fixpoint get_string_loop (fuel : nat) (ch p : Z) : F Z :=
  match fuel with
  | O => fail OutOfFuel
  | S fuel =>
    let! eof := is_eof in
    if negb (is_separator ch) && negb eof then
      put_string p ch ;;;
      let! ch := token_next_char in
      get_string_loop fuel ch (p + 1)
    else ret p
  end.

Definition token_get_string : F Z :=
  let! ch := token_next_char in
  let! eof := is_eof in
  if (eof : bool) then ret (-1)
  else
    put_string 0 0 ;;;
    if is_digit ch then
      token_prev_char ;;;
      ret (-1)
    else
      let! fuel := line_fuel in
      let! p := get_string_loop (S fuel) ch 0 in
      upd_token (set_eof false) ;;;
      token_prev_char ;;;
      put_string p 0 ;;;
      ret 0.

(** A C string in an array. *)
Fixpoint c_string (l : list Z) : list Z :=
  match l with
  | [] => []
  | c :: l => if c =? 0 then [] else c :: c_string l
  end.

Definition finsh_name_table : list (list Z * token_type) := [
  ([118; 111; 105; 100], finsh_token_type_void);
  ([99; 104; 97; 114], finsh_token_type_char);
  ([115; 104; 111; 114; 116], finsh_token_type_short);
  ([105; 110; 116], finsh_token_type_int);
  ([108; 111; 110; 103], finsh_token_type_long);
  ([117; 110; 115; 105; 103; 110; 101; 100], finsh_token_type_unsigned);
  ([78; 85; 76; 76], finsh_token_type_value_null);
  ([110; 117; 108; 108], finsh_token_type_value_null)
].

Fixpoint match_name (table : list (list Z * token_type)) (str : list Z) : option token_type :=
  match table with
  | [] => None
  | (name, type) :: table => if bool_decide (name = str) then Some type else match_name table str
  end.
Definition token_match_name (str : list Z) : F bool :=
  match match_name finsh_name_table str with
  | Some type => upd_token (set_current_token type) ;;; ret true
  | None => ret false
  end.

(** ** Characters and strings *)

(** The loop for an octal character: it stores every character but the first
    into [buf], of four bytes, from index [p] on. *)
Fixpoint char_digits_loop (fuel : nat) (ch p : Z) : F Z :=
  match fuel with
  | O => fail OutOfFuel
  | S fuel =>
    if is_digit ch then
      let! ch := token_next_char in
      if p <? 4 then char_digits_loop fuel ch (p + 1) else fail OutOfBounds
    else ret p
  end.

Definition token_proc_char : F Z :=
  let! ch := token_next_char in
  let! ch :=
    (if ch =? 92 then
       let! ch := token_next_char in
       if ch =? 110 then ret 10
       else if ch =? 116 then ret 9
       else if ch =? 118 then ret 11
       else if ch =? 98 then ret 8
       else if ch =? 114 then ret 13
       else if ch =? 92 then ret 92
       else if ch =? 39 then ret 39
       else
         let! fuel := line_fuel in
         let! p := char_digits_loop (S fuel) ch 0 in
         token_prev_char ;;;
         (* *p = 0; atoi(p) *)
         if p <? 4 then ret 0 else fail OutOfBounds
     else ret ch) in
  let! c := token_next_char in
  if negb (c =? 39) then
    token_prev_char ;;;
    finsh_error_set FINSH_ERROR_EXPECT_CHAR ;;;
    ret ch
  else ret ch.

Fixpoint escape_loop (fuel : nat) (digit : Z → option Z) (base ch result : Z) : F Z :=
  match fuel with
  | O => fail OutOfFuel
  | S fuel =>
    match digit ch with
    | Some d =>
      let! ch := token_next_char in
      escape_loop fuel digit base ch (s32 (result * base + d))
    | None => ret result
    end
  end.
Definition hex_value (ch : Z) : option Z :=
  if is_xdigit ch then Some (if ch <? 65 then ch - 48 else Z.lor ch 0x20 - 97 + 10) else None.
Definition octal_value (ch : Z) : option Z :=
  if (0 <=? ch - 48) && (ch - 48 <? 8) then Some (ch - 48) else None.

Definition token_proc_escape : F Z :=
  let! ch := token_next_char in
  if ch =? 110 then ret 10
  else if ch =? 116 then ret 9
  else if ch =? 118 then ret 11
  else if ch =? 98 then ret 8
  else if ch =? 114 then ret 13
  else if ch =? 102 then ret 12
  else if ch =? 97 then ret 7
  else if ch =? 34 then ret 34
  else if (ch =? 120) || (ch =? 88) then
    let! ch := token_next_char in
    let! fuel := line_fuel in
    let! result := escape_loop (S fuel) hex_value 16 ch 0 in
    token_prev_char ;;;
    ret result
  else match octal_value ch with
  | Some _ =>
    let! fuel := line_fuel in
    let! result := escape_loop (S fuel) octal_value 8 ch 0 in
    token_prev_char ;;;
    ret result
  | None => ret 0
  end.

(** The loop of [token_proc_string]: the result says whether the closing quote
    was found. *)
Fixpoint proc_string_loop (fuel : nat) (p : Z) : F bool :=
  match fuel with
  | O => ret false   (* p - string = FINSH_STRING_MAX *)
  | S fuel =>
    let! ch := token_next_char in
    let! eof := is_eof in
    if (eof : bool) then
      finsh_error_set FINSH_ERROR_UNEXPECT_END ;;;
      ret false
    else if ch =? 92 then
      let! ch := token_proc_escape in
      put_string p ch ;;;
      proc_string_loop fuel (p + 1)
    else if ch =? 34 then
      put_string p 0 ;;;
      ret true
    else
      put_string p ch ;;;
      proc_string_loop fuel (p + 1)
  end.
Definition token_proc_string : F bool := proc_string_loop (Z.to_nat FINSH_STRING_MAX) 0.

(** ** Numbers *)

(** Shift [t] into the two words of [bn]. *)
Definition bn_shift (shift : Z) (bn : Z * Z) (t : Z) : Z * Z :=
  let t1 := Z.shiftr bn.1 (32 - shift) in
  (Z.lor (u32 (Z.shiftl bn.1 shift)) (u32 t), Z.lor (u32 (Z.shiftl bn.2 shift)) t1).

Definition spec_digit (t : Z) : Z :=
  if (97 <=? t) && (t <=? 102) then t - 97 + 10
  else if (65 <=? t) && (t <=? 70) then t - 65 + 10
  else t - 48.

Definition token_spec_number (string : list Z) (b : Z) : Z :=
  let shift := if b =? 16 then 4 else if b =? 8 then 3 else 1 in
  (foldl (λ bn c, bn_shift shift bn (spec_digit c)) (0, 0) string).1.

(** Collect the characters that [ok] into [buf], of 128 bytes; the result is
    the string and the character behind it. *)
Fixpoint number_loop (fuel : nat) (ok : Z → bool) (ch : Z) (buf : list Z) : F (list Z * Z) :=
  match fuel with
  | O => fail OutOfFuel
  | S fuel =>
    if ok ch then
      if Nat.ltb (length buf) 128 then
        let! ch' := token_next_char in
        number_loop fuel ok ch' (buf ++ [ch])
      else fail OutOfBounds
    else if Nat.ltb (length buf) 128 then ret (buf, ch) else fail OutOfBounds
  end.

Fixpoint decimal_loop (fuel : nat) (ch value : Z) : F (Z * Z) :=
  match fuel with
  | O => fail OutOfFuel
  | S fuel =>
    if is_digit ch then
      let! ch' := token_next_char in
      decimal_loop fuel ch' (s32 (value * 10 + (ch - 48)))
    else ret (value, ch)
  end.

Definition int_token (value : Z) : F unit :=
  upd_token (set_tk_value (u32 value)) ;;;
  upd_token (set_current_token finsh_token_type_value_int).

(** The switch behind a number. *)
Definition number_suffix (ch : Z) : F unit :=
  if (ch =? 108) || (ch =? 76) then upd_token (set_current_token finsh_token_type_value_long)
  else token_prev_char.

Definition spec_number (ok : Z → bool) (b ch : Z) : F unit :=
  let! fuel := line_fuel in
  let! r := number_loop (S fuel) ok ch [] in
  int_token (token_spec_number r.1 b) ;;;
  number_suffix r.2.

Definition token_proc_number : F unit :=
  let! ch := token_next_char in
  if ch =? 48 then
    let! ch := token_next_char in
    if (ch =? 120) || (ch =? 88) then
      let! ch := token_next_char in
      spec_number (λ ch, is_digit ch || is_alpha ch) 16 ch
    else if (ch =? 98) || (ch =? 66) then
      let! ch := token_next_char in
      spec_number (λ ch, (ch =? 48) || (ch =? 49)) 2 ch
    else if (48 <=? ch) && (ch <=? 55) then
      spec_number (λ ch, (48 <=? ch) && (ch <=? 55)) 8 ch
    else
      token_prev_char ;;;
      int_token 0
  else
    let! fuel := line_fuel in
    let! r := decimal_loop (S fuel) ch 0 in
    int_token r.1 ;;;
    number_suffix r.2.

(** ** A token *)
Definition set_current (type : token_type) : F unit := upd_token (set_current_token type).

(** An operator of two equal characters, or [other]. *)
Definition double_char (ch : Z) (double other : token_type) : F unit :=
  let! c := token_next_char in
  if c =? ch then set_current double
  else
    token_prev_char ;;;
    set_current other.

Definition token_operator : F unit :=
  let! ch := token_next_char in
  if ch =? 40 then set_current finsh_token_type_left_paren
  else if ch =? 41 then set_current finsh_token_type_right_paren
  else if ch =? 44 then set_current finsh_token_type_comma
  else if ch =? 59 then set_current finsh_token_type_semicolon
  else if ch =? 38 then set_current finsh_token_type_and
  else if ch =? 42 then set_current finsh_token_type_mul
  else if ch =? 43 then double_char 43 finsh_token_type_inc finsh_token_type_add
  else if ch =? 45 then double_char 45 finsh_token_type_dec finsh_token_type_sub
  else if ch =? 47 then double_char 47 finsh_token_type_eof finsh_token_type_div
  else if ch =? 60 then double_char 60 finsh_token_type_shl finsh_token_type_bad
  else if ch =? 62 then double_char 62 finsh_token_type_shr finsh_token_type_bad
  else if ch =? 124 then set_current finsh_token_type_or
  else if ch =? 37 then set_current finsh_token_type_mod
  else if ch =? 126 then set_current finsh_token_type_bitwise
  else if ch =? 94 then set_current finsh_token_type_xor
  else if ch =? 61 then set_current finsh_token_type_assign
  else if ch =? 39 then
    let! c := token_proc_char in
    upd_token (λ t, set_tk_value (set_low 8 (tk_value t) c) t) ;;;
    set_current finsh_token_type_value_char
  else if ch =? 34 then
    let! _ := token_proc_string in
    set_current finsh_token_type_value_string
  else if is_digit ch then
    token_prev_char ;;;
    token_proc_number
  else
    finsh_error_set FINSH_ERROR_UNKNOWN_TOKEN ;;;
    set_current finsh_token_type_bad.

Definition token_run : F unit :=
  token_trim_space ;;;
  let! _ := token_get_string in
  let! eof := is_eof in
  if (eof : bool) then set_current finsh_token_type_eof
  else
    let! t := gets token in
    let str := c_string (tk_string t) in
    if negb (bool_decide (str = [])) then
      let! keyword := token_match_name str in
      when negb keyword then set_current finsh_token_type_identifier
    else token_operator.

Definition finsh_token_token : F token_type :=
  let! t := gets token in
  (if tk_replay t then upd_token (set_replay false) else token_run) ;;;
  gets (λ s, tk_current_token (token s)).
