(* ===== verification/FinshParser.v ===== *)
(** * The parser of the shell ([finsh_parser.c])

    Recursive descent with one token of look-ahead: a token that is not
    wanted is replayed.  A node is an index of the table, [None] for NULL. *)

From S2P Require Import Prelude FinshDef FinshHeap FinshNode FinshToken.

(** ** Tokens *)
Definition next_token : F token_type := finsh_token_token.
Definition check_token (tok type : token_type) : F unit :=
  when negb (bool_decide (tok = type)) then
    (finsh_error_set FINSH_ERROR_INVALID_TOKEN ;;;
     finsh_token_replay).
Definition match_token (type : token_type) : F unit :=
  let! tok := next_token in check_token tok type.

Definition is_base_type (tok : token_type) : bool :=
  match tok with
  | finsh_token_type_void | finsh_token_type_char | finsh_token_type_short
  | finsh_token_type_int | finsh_token_type_long => true
  | _ => false
  end.

(** Every call of a recursion, and every round of a loop, reads a token. *)
Definition parser_fuel : F nat := gets (λ s, 2 * length (tk_line (token s)) + 8)%nat.

(** ** Types *)
Definition base_type (tok : token_type) : finsh_type :=
  match tok with
  | finsh_token_type_void => finsh_type_void
  | finsh_token_type_char => finsh_type_char
  | finsh_token_type_short => finsh_type_short
  | finsh_token_type_int => finsh_type_int
  | finsh_token_type_long => finsh_type_long
  | _ => finsh_type_unknown
  end.
Definition unsigned_type (tok : token_type) : finsh_type :=
  match tok with
  | finsh_token_type_char => finsh_type_uchar
  | finsh_token_type_short => finsh_type_ushort
  | finsh_token_type_int => finsh_type_uint
  | finsh_token_type_long => finsh_type_ulong
  | _ => finsh_type_unknown
  end.
Definition pointer_type (type : finsh_type) : finsh_type :=
  match type with
  | finsh_type_void => finsh_type_voidp
  | finsh_type_char | finsh_type_uchar => finsh_type_charp
  | finsh_type_short | finsh_type_ushort => finsh_type_shortp
  | finsh_type_int | finsh_type_uint => finsh_type_intp
  | finsh_type_long | finsh_type_ulong => finsh_type_longp
  | _ => finsh_type_voidp
  end.

(** [__return:] of [proc_type] *)
Definition type_fail (type : finsh_type) : F finsh_type :=
  finsh_token_replay ;;;
  finsh_error_set FINSH_ERROR_UNKNOWN_TYPE ;;;
  ret type.

Definition proc_pointer (type : finsh_type) : F finsh_type :=
  let! tok := next_token in
  if bool_decide (tok = finsh_token_type_mul) then ret (pointer_type type)
  else finsh_token_replay ;;; ret type.

Definition proc_type : F finsh_type :=
  let! tok := next_token in
  if is_base_type tok then proc_pointer (base_type tok)
  else if bool_decide (tok = finsh_token_type_unsigned) then
    let! tok := next_token in
    if is_base_type tok then
      if bool_decide (tok = finsh_token_type_void) then type_fail finsh_type_unknown
      else proc_pointer (unsigned_type tok)
    else
      finsh_token_replay ;;;
      finsh_error_set FINSH_ERROR_EXPECT_TYPE ;;;
      proc_pointer finsh_type_unknown
  else type_fail finsh_type_unknown.

(** The name is copied with [strncpy], whatever the token is. *)
Definition proc_identifier : F (list Z) :=
  match_token finsh_token_type_identifier ;;;
  let! t := gets token in
  ret (take FINSH_NAME_MAX (c_string (tk_string t))).

(** ** Nodes *)
Definition make_sys_node (type : node_type) (node1 node2 : option nat) : F (option nat) :=
  let! node := finsh_node_allocate type in
  match node1, node with
  | Some n1, Some n =>
    upd_node n (set_child (Some n1)) ;;;
    upd_node n1 (set_sibling node2) ;;;
    ret node
  | _, _ =>
    finsh_error_set FINSH_ERROR_NULL_NODE ;;;
    ret node
  end.

(** ** Binary operators

    The six functions for the levels of binary operators have one shape: an
    operand of the next level, and a loop over operators of this level. *)
Fixpoint binary_loop (fuel : nat) (operand : F (option nat))
    (operator : token_type → option node_type) (lhs : option nat) : F (option nat) :=
  match fuel with
  | O => fail OutOfFuel
  | S fuel =>
    let! tok := next_token in
    match operator tok with
    | Some type =>
      let! rhs := operand in
      let! lhs :=
        match rhs with
        | None => finsh_error_set FINSH_ERROR_EXPECT_OPERATOR ;;; ret lhs
        | Some _ => make_sys_node type lhs rhs
        end in
      binary_loop fuel operand operator lhs
    | None => finsh_token_replay ;;; ret lhs
    end
  end.

Definition binary_expr (operand : F (option nat)) (operator : token_type → option node_type)
    : F (option nat) :=
  let! lhs := operand in
  let! fuel := parser_fuel in
  binary_loop fuel operand operator lhs.

Definition multiplicative_op (tok : token_type) : option node_type :=
  match tok with
  | finsh_token_type_mul => Some FINSH_NODE_SYS_MUL
  | finsh_token_type_div => Some FINSH_NODE_SYS_DIV
  | finsh_token_type_mod => Some FINSH_NODE_SYS_MOD
  | _ => None
  end.
Definition additive_op (tok : token_type) : option node_type :=
  match tok with
  | finsh_token_type_sub => Some FINSH_NODE_SYS_SUB
  | finsh_token_type_add => Some FINSH_NODE_SYS_ADD
  | _ => None
  end.
Definition shift_op (tok : token_type) : option node_type :=
  match tok with
  | finsh_token_type_shl => Some FINSH_NODE_SYS_SHL
  | finsh_token_type_shr => Some FINSH_NODE_SYS_SHR
  | _ => None
  end.
Definition and_op (tok : token_type) : option node_type :=
  match tok with finsh_token_type_and => Some FINSH_NODE_SYS_AND | _ => None end.
Definition xor_op (tok : token_type) : option node_type :=
  match tok with finsh_token_type_xor => Some FINSH_NODE_SYS_XOR | _ => None end.
Definition or_op (tok : token_type) : option node_type :=
  match tok with finsh_token_type_or => Some FINSH_NODE_SYS_OR | _ => None end.

Definition proc_multiplicative_expr (proc_cast_expr : F (option nat)) : F (option nat) :=
  binary_expr proc_cast_expr multiplicative_op.
Definition proc_additive_expr (proc_cast_expr : F (option nat)) : F (option nat) :=
  binary_expr (proc_multiplicative_expr proc_cast_expr) additive_op.
Definition proc_shift_expr (proc_cast_expr : F (option nat)) : F (option nat) :=
  binary_expr (proc_additive_expr proc_cast_expr) shift_op.
Definition proc_and_expr (proc_cast_expr : F (option nat)) : F (option nat) :=
  binary_expr (proc_shift_expr proc_cast_expr) and_op.
Definition proc_exclusive_or_expr (proc_cast_expr : F (option nat)) : F (option nat) :=
  binary_expr (proc_and_expr proc_cast_expr) xor_op.
Definition proc_inclusive_or_expr (proc_cast_expr : F (option nat)) : F (option nat) :=
  binary_expr (proc_exclusive_or_expr proc_cast_expr) or_op.

(** ** Parameters, primary, postfix and unary expressions

    The calls of the functions that close the recursion are arguments. *)
Fixpoint param_loop (fuel : nat) (proc_assign_expr : F (option nat)) (assign : nat) : F unit :=
  match fuel with
  | O => fail OutOfFuel
  | S fuel =>
    let! tok := next_token in
    if bool_decide (tok = finsh_token_type_comma) then
      let! next := proc_assign_expr in
      upd_node assign (set_sibling next) ;;;
      match next with
      | Some next => param_loop fuel proc_assign_expr next
      | None =>
        finsh_error_set FINSH_ERROR_EXPECT_OPERATOR ;;;
        param_loop fuel proc_assign_expr assign
      end
    else finsh_token_replay
  end.
Definition proc_param_list (proc_assign_expr : F (option nat)) : F (option nat) :=
  let! node := proc_assign_expr in
  match node with
  | None => ret None
  | Some i =>
    let! fuel := parser_fuel in
    param_loop fuel proc_assign_expr i ;;;
    ret node
  end.

Section expressions.
Context `{FinshEnv}.

Definition proc_primary_expr (proc_assign_expr : F (option nat)) : F (option nat) :=
  let! tok := next_token in
  let! t := gets token in
  match tok with
  | finsh_token_type_identifier =>
    finsh_token_replay ;;;
    let! id := proc_identifier in
    finsh_node_new_id id
  | finsh_token_type_left_paren =>
    let! expr := proc_assign_expr in
    match_token finsh_token_type_right_paren ;;;
    ret expr
  | finsh_token_type_value_int => finsh_node_new_int (tk_value t)
  | finsh_token_type_value_long => finsh_node_new_long (tk_value t)
  | finsh_token_type_value_char => finsh_node_new_char (u8 (tk_value t))
  | finsh_token_type_value_string => finsh_node_new_string (c_string (tk_string t))
  | finsh_token_type_value_null => finsh_node_new_ptr 0
  | _ => finsh_error_set FINSH_ERROR_INVALID_TOKEN ;;; ret None
  end.

Fixpoint postfix_loop (fuel : nat) (proc_assign_expr : F (option nat)) (postfix : option nat)
    : F (option nat) :=
  match fuel with
  | O => fail OutOfFuel
  | S fuel =>
    let! tok := next_token in
    match tok with
    | finsh_token_type_inc =>
      let! postfix := make_sys_node FINSH_NODE_SYS_INC postfix None in
      postfix_loop fuel proc_assign_expr postfix
    | finsh_token_type_dec =>
      let! postfix := make_sys_node FINSH_NODE_SYS_DEC postfix None in
      postfix_loop fuel proc_assign_expr postfix
    | finsh_token_type_left_paren =>
      let! tok := next_token in
      let! param_list :=
        (if negb (bool_decide (tok = finsh_token_type_right_paren)) then
           finsh_token_replay ;;;
           let! l := proc_param_list proc_assign_expr in
           match_token finsh_token_type_right_paren ;;;
           ret l
         else ret None) in
      let! postfix := make_sys_node FINSH_NODE_SYS_FUNC postfix param_list in
      postfix_loop fuel proc_assign_expr postfix
    | _ => finsh_token_replay ;;; ret postfix
    end
  end.
Definition proc_postfix_expr (proc_assign_expr : F (option nat)) : F (option nat) :=
  let! postfix := proc_primary_expr proc_assign_expr in
  let! fuel := parser_fuel in
  postfix_loop fuel proc_assign_expr postfix.

Definition proc_unary_expr (proc_cast_expr proc_assign_expr : F (option nat)) : F (option nat) :=
  let! tok := next_token in
  match tok with
  | finsh_token_type_add => proc_cast_expr
  | finsh_token_type_inc =>
    let! cast := proc_cast_expr in make_sys_node FINSH_NODE_SYS_PREINC cast None
  | finsh_token_type_sub =>
    let! cast := proc_cast_expr in
    let! zero := finsh_node_new_long 0 in
    make_sys_node FINSH_NODE_SYS_SUB zero cast
  | finsh_token_type_dec =>
    let! cast := proc_cast_expr in make_sys_node FINSH_NODE_SYS_PREDEC cast None
  | finsh_token_type_bitwise =>
    let! cast := proc_cast_expr in make_sys_node FINSH_NODE_SYS_BITWISE cast None
  | finsh_token_type_mul =>
    let! cast := proc_cast_expr in make_sys_node FINSH_NODE_SYS_GETVALUE cast None
  | finsh_token_type_and =>
    let! cast := proc_cast_expr in make_sys_node FINSH_NODE_SYS_GETADDR cast None
  | _ =>
    finsh_token_replay ;;;
    proc_postfix_expr proc_assign_expr
  end.

(** ** The recursion *)
Fixpoint proc_assign_expr (fuel : nat) : F (option nat) :=
  match fuel with
  | O => fail OutOfFuel
  | S fuel =>
    let! or := proc_inclusive_or_expr (proc_cast_expr fuel) in
    let! tok := next_token in
    if bool_decide (tok = finsh_token_type_assign) then
      let! assign := proc_assign_expr fuel in
      make_sys_node FINSH_NODE_SYS_ASSIGN or assign
    else finsh_token_replay ;;; ret or
  end
with proc_cast_expr (fuel : nat) : F (option nat) :=
  match fuel with
  | O => fail OutOfFuel
  | S fuel =>
    let! tok := next_token in
    let! cast :=
      (if bool_decide (tok = finsh_token_type_left_paren) then
         let! type := proc_type in
         match_token finsh_token_type_right_paren ;;;
         let! cast := proc_cast_expr fuel in
         match cast with
         | Some i => upd_node i (set_data_type (finsh_type_code type)) ;;; ret cast
         | None => ret None
         end
       else ret None) in
    match cast with
    | Some _ => ret cast
    | None =>
      finsh_token_replay ;;;
      proc_unary_expr (proc_cast_expr fuel) (proc_assign_expr fuel)
    end
  end.

Definition proc_expr : F (option nat) :=
  let! fuel := parser_fuel in proc_assign_expr fuel.

(** ** Statements and declarations *)
Definition proc_expr_statement : F (option nat) :=
  let! tok := next_token in
  if negb (bool_decide (tok = finsh_token_type_semicolon)) then
    finsh_token_replay ;;;
    let! expr := proc_expr in
    match_token finsh_token_type_semicolon ;;;
    ret expr
  else ret None.

(** An identifier of a declaration becomes a variable. *)
Definition declare (type : finsh_type) : F (list Z) :=
  let! id := proc_identifier in
  let! r := finsh_var_insert id type in
  (when r <? 0 then finsh_error_set FINSH_ERROR_VARIABLE_EXIST) ;;;
  ret id.

(** The part of a declarator behind the [=]: the assignment is linked behind
    [end_], and the token behind it read.  The result is the list, its last
    node and that token; where there is no expression, the token stays [=]. *)
Definition initializer (id : list Z) (node end_ : option nat)
    : F (option nat * option nat * token_type) :=
  let! assign := proc_expr in
  match assign with
  | None => ret (node, end_, finsh_token_type_assign)
  | Some _ =>
    let! idnode := finsh_node_new_id id in
    let! new := make_sys_node FINSH_NODE_SYS_ASSIGN idnode assign in
    let! node :=
      match node, end_ with
      | Some _, Some e => upd_node e (set_sibling new) ;;; ret node
      | Some _, None => fail NullDeref
      | None, _ => ret new
      end in
    let! tok := next_token in
    ret (node, new, tok)
  end.

(** The loop over the declarators behind a comma. *)
Fixpoint decl_loop (fuel : nat) (type : finsh_type) (node end_ : option nat) (tok : token_type)
    : F (option nat * token_type) :=
  match fuel with
  | O => fail OutOfFuel
  | S fuel =>
    if bool_decide (tok = finsh_token_type_comma) then
      let! id := declare type in
      let! tok := next_token in
      if bool_decide (tok = finsh_token_type_assign) then
        let! r := initializer id node end_ in
        decl_loop fuel type r.1.1 r.1.2 r.2
      else decl_loop fuel type node end_ tok
    else ret (node, tok)
  end.

Definition decl_end (type : finsh_type) (node end_ : option nat) (tok : token_type)
    : F (option nat) :=
  let! fuel := parser_fuel in
  let! r := decl_loop fuel type node end_ tok in
  check_token r.2 finsh_token_type_semicolon ;;;
  ret r.1.

Definition proc_variable_decl : F (option nat) :=
  let! type := proc_type in
  let! id := declare type in
  let! tok := next_token in
  match tok with
  | finsh_token_type_comma =>
    let! id := declare type in
    let! tok := next_token in
    if bool_decide (tok = finsh_token_type_assign) then
      let! r := initializer id None None in
      decl_end type r.1.1 r.1.2 r.2
    else decl_end type None None tok
  | finsh_token_type_assign =>
    let! r := initializer id None None in
    decl_end type r.1.1 r.1.2 r.2
  | finsh_token_type_semicolon => ret None
  | _ =>
    finsh_error_set FINSH_ERROR_EXPECT_TYPE ;;;
    ret None
  end.

(** ** The line *)

(** Link the statement behind [node], or make it the root; the result is the
    new last node, and whether a statement was linked. *)
Definition link_statement (statement : F (option nat)) (node : option nat)
    : F (option nat * bool) :=
  let! r := gets root in
  match r with
  | Some _ =>
    let! next := statement in
    match node with
    | None => fail NullDeref
    | Some i => upd_node i (set_sibling next)
    end ;;;
    ret (match next with Some _ => next | None => node end,
         match next with Some _ => true | None => false end)
  | None =>
    let! node := statement in
    modify (set_root node) ;;;
    ret (node, true)
  end.

Fixpoint parser_loop (fuel : nat) (tok : token_type) (node : option nat) : F unit :=
  match fuel with
  | O => fail OutOfFuel
  | S fuel =>
    if bool_decide (tok = finsh_token_type_eof) || bool_decide (tok = finsh_token_type_bad)
    then ret tt
    else
      finsh_token_replay ;;;
      let! node :=
        (if bool_decide (tok = finsh_token_type_identifier) then
           let! r := link_statement proc_expr_statement node in ret r.1
         else if is_base_type tok || bool_decide (tok = finsh_token_type_unsigned) then
           let! r := link_statement proc_variable_decl node in ret r.1
         else
           let! r := link_statement proc_expr_statement node in
           (if (r.2 : bool) then ret tt else let! _ := next_token in ret tt) ;;;
           ret r.1) in
      let! r := gets root in
      match r with
      | None => ret tt   (* no root found, break out *)
      | Some _ =>
        let! tok := next_token in
        parser_loop fuel tok node
      end
  end.

Definition finsh_parser_run (string : list Z) : F unit :=
  finsh_token_init string ;;;
  let! tok := next_token in
  let! fuel := parser_fuel in
  parser_loop fuel tok None.

Definition finsh_parser_init : F unit :=
  modify (set_token empty_token) ;;;
  modify (set_root None).
End expressions.
