(* ===== verification/FinshRun.v ===== *)
(** * Evaluation of a line ([finsh_init.c], [finsh_run_line] of [shell.c]) *)

From S2P Require Import Prelude FinshDef FinshHeap FinshNode FinshVm FinshCompiler FinshToken.
From S2P Require Import FinshParser.

Section run.
Context `{FinshEnv}.

Definition finsh_init : F unit :=
  finsh_parser_init ;;;
  finsh_node_init ;;;
  finsh_var_init ;;;
  finsh_error_init ;;;
  finsh_heap_init.

Definition finsh_flush : F unit :=
  finsh_parser_init ;;;
  finsh_node_init ;;;
  finsh_error_init.

Definition finsh_reset : F unit :=
  finsh_node_init ;;;
  finsh_var_init ;;;
  finsh_error_init ;;;
  finsh_heap_init.

(** What [finsh_run_line] prints: a value, a message for an error, or nothing
    after an error of the compiler. *)
Inductive run_output : Type :=
  | PrintValue (v : Z)
  | PrintError (e : Z)
  | PrintNothing.

Definition finsh_run_line (line : list Z) : F run_output :=
  finsh_parser_run line ;;;
  let! e := finsh_errno in
  let! parsed :=
    (if e =? 0 then
       let! node := gets root in
       finsh_compiler_run node ;;;
       ret None
     else ret (Some e)) in
  let! e := finsh_errno in
  let! out :=
    (if e =? 0 then
       finsh_vm_run ;;;
       let! v := finsh_stack_bottom in
       ret (PrintValue v)
     else ret (match parsed with Some e => PrintError e | None => PrintNothing end)) in
  finsh_flush ;;;
  ret out.
End run.
