(* ===== verification/FinshDemo.v ===== *)
(** * A small shell

    A firmware with a system variable and two functions, and the shell after
    its initialisation and a declaration, to evaluate the theorems and to show
    what the code does on concrete lines. *)

From S2P Require Import Prelude FinshDef FinshHeap FinshNode FinshVm FinshCompiler FinshToken.
From S2P Require Import FinshParser FinshRun.
From Stdlib Require Import String Ascii.
Open Scope Z_scope.

Definition chars (s : string) : list Z :=
  map (λ c, Z.of_nat (nat_of_ascii c)) (list_ascii_of_string s).

(** [twice] of a number, and [fill], which writes a byte to an address. *)
Definition demo_call (f : Z) (args : list Z) (m : gmap Z Z) : option (Z * gmap Z Z) :=
  if f =? 77 then Some (2 * nth 0 args 0, m)
  else if f =? 88 then
    match m !! nth 0 args 0 with
    | Some _ => Some (0, <[nth 0 args 0 := u8 (nth 1 args 0)]> m)
    | None => None
    end
  else None.

#[export] Instance demo_env : FinshEnv := {
  global_variable_addr := 1000;
  finsh_heap_addr := 2000;
  sysvar_table := [mk_sysvar 500 (chars "level") finsh_type_int 600];
  syscall_table := [mk_syscall 400 (chars "twice") 77; mk_syscall 420 (chars "fill") 88];
  call_function := demo_call
}.

(** The bytes of [n] addresses from [a] on. *)
Definition zeros (a n : Z) : gmap Z Z :=
  list_to_map (map (λ i, (a + Z.of_nat i, 0)) (seq 0 (Z.to_nat n))).

(** After a reset; what the stack holds is arbitrary. *)
Definition reset_state : fstate :=
  mk_finsh empty_token None 0 [] [] [] [] (replicate 128 0) (replicate 64 0xABCD1234) 0 0 0 0 0 ∅
    (zeros 600 4 ∪ zeros 1000 192 ∪ zeros 2000 128).

Definition state_of {A} (r : res fstate A) : fstate :=
  match r with Ok _ s => s | Fault _ => reset_state end.

(** What a line prints. *)
Definition prints (line : string) (s : fstate) : option run_output :=
  match finsh_run_line (chars line) s with Ok out _ => Some out | Fault _ => None end.
Definition after (line : string) (s : fstate) : fstate := state_of (finsh_run_line (chars line) s).

Definition fresh : fstate := state_of (finsh_init reset_state).
Definition demo : fstate := after "char c;" (after "int *p;" (after "int a;" fresh)).

(** ** What the code does *)
Local Open Scope string_scope.

Definition demo_line : list Z := chars "1 + 2 * 3;".
Definition level_name : string := "level".
Definition twice_name : string := "twice".
Definition demo_program_text : string := "level = twice ( 4 ) ; a = 7 ; a + 6 * level ; ".

Example demo_precedence : prints "1 + 2 * 3;" demo = Some (PrintValue 7).
Proof. vm_compute. reflexivity. Qed.

Example demo_variables :
  prints "*p = *p + 1; a++; a;" (after "a = 5; p = &a;" demo) = Some (PrintValue 7).
Proof. vm_compute. reflexivity. Qed.

Example demo_calls : prints "twice(level = 20) ;" demo = Some (PrintValue 40).
Proof. vm_compute. reflexivity. Qed.

(** An open parenthesis is taken for the beginning of a cast. *)
Example parenthesis_rejected :
  prints "(1 + 2) * 3;" demo = Some (PrintError FINSH_ERROR_NULL_NODE).
Proof. vm_compute. reflexivity. Qed.

(** The result of a call has no data type: the operation above it is left out. *)
Example call_loses_operation : prints "twice(4) + 1;" demo = Some (PrintValue 8).
Proof. vm_compute. reflexivity. Qed.

(** Steps of a system variable add 20 to its address. *)
Example step_of_sysvar : prints "++level;" (after "level = 9;" demo) ≠ Some (PrintValue 10).
Proof. vm_compute. discriminate. Qed.

(** Of a value of type [char] only the low byte is printed right. *)
Example char_value_dirty : prints "c = 'a';" demo = Some (PrintValue 1121).
Proof. vm_compute. reflexivity. Qed.

(** The second initialiser is lost when a statement follows. *)
Example second_initialiser_lost : prints "int x = 3, y = 4; y;" demo = Some (PrintValue 0).
Proof. vm_compute. reflexivity. Qed.

(** Casts are parsed and ignored. *)
Example cast_ignored : prints "(char)300;" demo = Some (PrintValue 300).
Proof. vm_compute. reflexivity. Qed.

(** A character in an [int]: three bytes of what the stack held before. *)
Example mixed_width : prints "a = 'A';" demo = Some (PrintValue (s32 0xABCD1241)).
Proof. vm_compute. reflexivity. Qed.

(** The suffix of [0L] is not read. *)
Example zero_long : prints "0L;" demo = Some (PrintError FINSH_ERROR_UNKNOWN_SYMBOL).
Proof. vm_compute. reflexivity. Qed.

(** Six increments need more than the text segment has. *)
Example text_overflow :
  finsh_run_line (chars "a++;a++;a++;a++;a++;a++;") demo = Fault OutOfBounds.
Proof. vm_compute. reflexivity. Qed.

(** Octal character constants are 0. *)
Example octal_char : prints "'\101';" demo = Some (PrintValue 0).
Proof. vm_compute. reflexivity. Qed.

(** Behind a declaration without an initialiser a line is not read on. *)
Example rest_of_line_lost : prints "b;" (after "int a; int b;" fresh) = Some (PrintError 13).
Proof. vm_compute. reflexivity. Qed.

(** A name at the end of a line is read again from the beginning of the line. *)
Example name_at_end :
  finsh_run_line (chars "a") demo = Fault OutOfFuel.
Proof. vm_compute. reflexivity. Qed.
