(* ===== verification/FinshVmSpec.v ===== *)
(** * Properties of the stack machine of the shell

    The program counter only moves forward, so that every text is run to its
    end; and the effect of each instruction, as a step relation. *)

From S2P Require Import Prelude FinshDef FinshVm.

(** ** Progress *)

(** [m] does not move the program counter back and does not run out of fuel. *)
Definition forward {A} (m : F A) : Prop := ∀ s,
  match m s with
  | Ok _ s' => finsh_pc s ≤ finsh_pc s'
  | Fault f => f ≠ OutOfFuel
  end.

Create HintDb forward.

Lemma forward_ret {A} (a : A) : forward (ret a).
Proof. intros s. simpl. lia. Qed.

Lemma forward_fail {A} f : f ≠ OutOfFuel → forward (fail f : F A).
Proof. by intros H s. Qed.

Lemma forward_gets {A} (f : fstate → A) : forward (gets f).
Proof. intros s. simpl. lia. Qed.

Lemma forward_modify f : (∀ s, finsh_pc s ≤ finsh_pc (f s)) → forward (modify f).
Proof. intros H s. apply H. Qed.

Lemma forward_bind {A B} (m : F A) (k : A → F B) :
  forward m → (∀ a, forward (k a)) → forward (bind m k).
Proof.
  intros Hm Hk s. specialize (Hm s). unfold bind. destruct (m s) as [a s'|f]; [|done].
  specialize (Hk a s'). destruct (k a s'); [lia|done].
Qed.

Lemma forward_option {A} f (o : option A) : f ≠ OutOfFuel → forward (from_option f o : F A).
Proof. intros H. destruct o; [apply forward_ret|by apply forward_fail]. Qed.

Lemma forward_if {A} (b : bool) (m n : F A) :
  forward m → forward n → forward (if b then m else n).
Proof. by destruct b. Qed.

(** The set functions of the other fields keep the program counter. *)
Ltac same_pc := apply forward_modify; intros ?; simpl; lia.

#[export] Hint Resolve forward_ret forward_gets forward_bind forward_if : forward.
#[export] Hint Extern 1 (forward (fail _)) => apply forward_fail; discriminate : forward.
#[export] Hint Extern 1 (forward (from_option _ _)) =>
  apply forward_option; discriminate : forward.
#[export] Hint Extern 1 (forward (modify _)) => same_pc : forward.

Lemma forward_get_slot i : forward (get_slot i).
Proof. unfold get_slot. auto with forward. Qed.
Lemma forward_put_slot i v : forward (put_slot i v).
Proof. unfold put_slot. auto with forward. Qed.
Lemma forward_move_sp n : forward (move_sp n).
Proof. unfold move_sp. auto with forward. Qed.
Lemma forward_text_at i : forward (text_at i).
Proof. unfold text_at. auto with forward. Qed.
Lemma forward_load8 a : forward (load8 a).
Proof. unfold load8. auto with forward. Qed.
Lemma forward_store8 a v : forward (store8 a v).
Proof.
  unfold store8. apply forward_bind; [auto with forward|]. intros m.
  destruct (m !! a); auto with forward.
Qed.
Lemma forward_move_pc n : 0 ≤ n → forward (move_pc n).
Proof. intros Hn s. simpl. lia. Qed.

#[export] Hint Resolve forward_get_slot forward_put_slot forward_move_sp forward_text_at
  forward_load8 forward_store8 : forward.
#[export] Hint Extern 1 (forward (move_pc _)) => apply forward_move_pc; lia : forward.

Lemma forward_pop_args n : ∀ l, forward (pop_args n l).
Proof. induction n as [|n IH]; intros l; simpl; auto 8 with forward. Qed.

Section progress.
Context `{FinshEnv}.

Lemma forward_call : forward OP_call.
Proof. unfold OP_call. pose proof forward_pop_args. auto 20 with forward. Qed.

Lemma forward_ops : Forall forward op_table.
Proof.
  pose proof forward_call.
  repeat apply Forall_cons_2; [..|apply Forall_nil_2]; try done;
    cbv delta [OP_no_op OP_add_byte OP_add_word OP_add_dword OP_sub_byte OP_sub_word
      OP_sub_dword OP_div_byte OP_div_word OP_div_dword OP_mod_byte OP_mod_word OP_mod_dword
      OP_mul_byte OP_mul_word OP_mul_dword OP_and_byte OP_and_word OP_and_dword OP_or_byte
      OP_or_word OP_or_dword OP_xor_byte OP_xor_word OP_xor_dword OP_bw_byte OP_bw_word OP_bw_dword
      OP_shl_byte OP_shl_word OP_shl_dword OP_shr_byte OP_shr_word OP_shr_dword OP_ld_byte
      OP_ld_word OP_ld_dword OP_ld_value_byte OP_ld_value_word OP_ld_value_dword OP_st_byte
      OP_st_word OP_st_dword OP_pop OP_ld_value_byte_stack OP_ld_value_word_stack
      OP_ld_value_dword_stack OP_BIN_BYTE OP_BIN_WORD OP_BIN_DWORD OP_BIN OP_NOT OP_LD OP_LD_VALUE
      OP_LD_VALUE_STACK OP_ST FINSH_GET16 FINSH_GET32 load16 load32 store16 store32];
    cbv beta; auto 20 with forward.
Qed.

Lemma forward_run_op op : forward (run_op op).
Proof.
  unfold run_op. destruct (op_table !! Z.to_nat op) as [f|] eqn:E; [|auto with forward].
  by apply (proj1 (Forall_lookup _ _) forward_ops (Z.to_nat op)).
Qed.

(** A round of the loop moves the program counter forward. *)
Lemma vm_step_forward s :
  match vm_step s with
  | Ok _ s' => finsh_pc s < finsh_pc s'
  | Fault f => f ≠ OutOfFuel
  end.
Proof.
  unfold vm_step. rewrite bind_gets. unfold bind at 1.
  pose proof (forward_text_at (finsh_pc s) s) as Ht.
  assert (∀ x s', text_at (finsh_pc s) s = Ok x s' → s' = s) as Hs.
  { intros x s'. unfold text_at. rewrite bind_gets. destruct (finsh_pc s <? 0); [done|].
    destruct (text_segment s !! _); simpl; [|done]. by intros [= _ ->]. }
  destruct (text_at (finsh_pc s) s) as [op s'|f]; [|done].
  specialize (Hs op s' eq_refl) as ->. unfold bind, move_pc at 1. simpl.
  specialize (forward_run_op op (set_finsh_pc (finsh_pc s + 1) s)) as Hf.
  destruct (run_op op _); simpl in *; [lia|done].
Qed.

(** Rounds that the text segment has left. *)
Definition rounds (s : fstate) : nat := Z.to_nat (FINSH_TEXT_MAX - finsh_pc s).

Lemma vm_loop_eq fuel s : vm_loop fuel s =
  if (0 <=? finsh_pc s) && (finsh_pc s <? FINSH_TEXT_MAX) then
    match fuel with
    | O => Fault OutOfFuel
    | S fuel => bind vm_step (λ _, vm_loop fuel) s
    end
  else Ok tt s.
Proof. destruct fuel; simpl; rewrite bind_gets; by destruct (_ && _). Qed.

(** Every amount of fuel from there on has the same result. *)
Lemma vm_loop_fuel n : ∀ s fuel, (rounds s ≤ n)%nat → (rounds s ≤ fuel)%nat →
  vm_loop fuel s = vm_loop n s ∧ vm_loop n s ≠ Fault OutOfFuel.
Proof.
  induction n as [|n IH]; intros s fuel Hn Hf.
  - rewrite (vm_loop_eq fuel s), (vm_loop_eq 0 s).
    destruct ((0 <=? finsh_pc s) && (finsh_pc s <? FINSH_TEXT_MAX)) eqn:E; [|done].
    unfold rounds in *. lia.
  - rewrite (vm_loop_eq fuel s), (vm_loop_eq (S n) s).
    destruct ((0 <=? finsh_pc s) && (finsh_pc s <? FINSH_TEXT_MAX)) eqn:E; [|done].
    unfold rounds in *. destruct fuel as [|fuel]; [lia|].
    unfold bind. pose proof (vm_step_forward s) as Hs.
    destruct (vm_step s) as [[] s'|f]; [|split; congruence].
    apply IH; lia.
Qed.
End progress.

(** ** Integers as bytes *)
Fixpoint le_bytes (n : nat) (x : Z) : list Z :=
  match n with
  | O => []
  | S n => x mod 2 ^ 8 :: le_bytes n (x / 2 ^ 8)
  end.

Lemma le_bytes_length n x : length (le_bytes n x) = n.
Proof. revert x. induction n; intros x; simpl; auto. Qed.

Lemma lor_add w a b : 0 ≤ w → 0 ≤ a < 2 ^ w → Z.lor a (Z.shiftl b w) = a + 2 ^ w * b.
Proof.
  intros Hw Ha. rewrite Z.shiftl_mul_pow2 by done.
  assert (Z.land a (b * 2 ^ w) = 0) as Hl.
  { apply Z.bits_inj'. intros j Hj. rewrite Z.land_spec, Z.bits_0.
    destruct (Z.ltb_spec j w).
    - by rewrite Z.mul_pow2_bits_low, andb_false_r.
    - by rewrite (testbit_high w a). }
  rewrite <- Z.lxor_lor, <- Z.add_nocarry_lxor by done. lia.
Qed.

(** The reads of the machine from the text invert the bytes. *)
Lemma le_bytes_16 x : Z.lor (x mod 2 ^ 8) (Z.shiftl (x / 2 ^ 8 mod 2 ^ 8) 8) = x mod 2 ^ 16.
Proof.
  pose proof (Z.mod_pos_bound x (2 ^ 8) ltac:(lia)). rewrite lor_add by lia.
  Z.to_euclidean_division_equations; lia.
Qed.

Lemma le_bytes_32 x :
  Z.lor (Z.lor (Z.lor (x mod 2 ^ 8) (Z.shiftl (x / 2 ^ 8 mod 2 ^ 8) 8))
    (Z.shiftl (x / 2 ^ 8 / 2 ^ 8 mod 2 ^ 8) 16))
    (Z.shiftl (x / 2 ^ 8 / 2 ^ 8 / 2 ^ 8 mod 2 ^ 8) 24) = x mod 2 ^ 32.
Proof.
  rewrite le_bytes_16. pose proof (Z.mod_pos_bound x (2 ^ 16) ltac:(lia)).
  pose proof (Z.mod_pos_bound (x / 2 ^ 8 / 2 ^ 8) (2 ^ 8) ltac:(lia)).
  rewrite (lor_add 16) by lia. rewrite (lor_add 24) by lia.
  Z.to_euclidean_division_equations; lia.
Qed.

(** ** Operands *)
Inductive size : Type := Byte | Word | Dword.

Definition bits (sz : size) : Z := match sz with Byte => 8 | Word => 16 | Dword => 32 end.
Definition nbytes (sz : size) : nat := match sz with Byte => 1 | Word => 2 | Dword => 4 end.
Definition member (sz : size) : Z → Z :=
  match sz with Byte => char_value | Word => short_value | Dword => long_value end.

Lemma bits_cases sz : bits sz = 8 ∨ bits sz = 16 ∨ bits sz = 32.
Proof. destruct sz; simpl; lia. Qed.

(** A member depends on the low bits of the word. *)
Lemma member_mod sz w : member sz (w mod 2 ^ bits sz) = member sz w.
Proof.
  destruct sz; unfold member, bits, char_value, short_value, long_value, s16, s32, swrap, u8, wrap;
    Z.to_euclidean_division_equations; lia.
Qed.

Lemma set_low_mod w x v : 0 < w → set_low w x v mod 2 ^ w = v mod 2 ^ w.
Proof.
  intros Hw. unfold set_low. pose proof (Z.pow_pos_nonneg 2 w).
  replace (x - x mod 2 ^ w + v mod 2 ^ w) with (v mod 2 ^ w + (x / 2 ^ w) * 2 ^ w)
    by (pose proof (Z.div_mod x (2 ^ w)); lia).
  rewrite Z.mod_add by lia. apply Z.mod_mod. lia.
Qed.

Lemma set_low_word w x v : 0 < w ≤ 32 → 0 ≤ x < 2 ^ 32 → 0 ≤ set_low w x v < 2 ^ 32.
Proof.
  intros Hw Hx. unfold set_low. assert (0 < 2 ^ w) by (apply Z.pow_pos_nonneg; lia).
  pose proof (Z.mod_pos_bound v (2 ^ w)). pose proof (Z.mod_pos_bound x (2 ^ w)).
  pose proof (Z.div_mod x (2 ^ w)). 
  assert (2 ^ 32 = 2 ^ (32 - w) * 2 ^ w) as Hp by (rewrite <- Z.pow_add_r by lia; f_equal; lia).
  assert (x / 2 ^ w < 2 ^ (32 - w)) by (apply Z.div_lt_upper_bound; lia).
  assert (0 ≤ x / 2 ^ w) by (apply Z.div_pos; lia). nia.
Qed.

Lemma set_low_of_mod w x v : 0 < w → set_low w x (v mod 2 ^ w) = set_low w x v.
Proof.
  intros Hw. unfold set_low. rewrite Z.mod_mod; [done|]. pose proof (Z.pow_pos_nonneg 2 w). lia.
Qed.

(** ** Memory *)
Fixpoint mem_load (n : nat) (m : gmap Z Z) (a : Z) : option Z :=
  match n with
  | O => Some 0
  | S n => b ← m !! a; r ← mem_load n m (a + 1); Some (b + 2 ^ 8 * r)
  end.

Fixpoint mem_store (n : nat) (m : gmap Z Z) (a v : Z) : option (gmap Z Z) :=
  match n with
  | O => Some m
  | S n => _ ← m !! a; mem_store n (<[a := u8 v]> m) (a + 1) (Z.shiftr v 8)
  end.

Definition load (sz : size) : Z → F Z :=
  match sz with Byte => load8 | Word => load16 | Dword => load32 end.
Definition store (sz : size) : Z → Z → F unit :=
  match sz with Byte => store8 | Word => store16 | Dword => store32 end.

Lemma finsh_load8_run a s : load8 a s = from_option NullDeref (memory s !! a) s.
Proof. done. Qed.

Lemma load16_run a s : load16 a s =
  match mem_load 2 (memory s) a with Some v => Ok v s | None => Fault NullDeref end.
Proof.
  unfold load16, bind. rewrite finsh_load8_run. simpl. destruct (memory s !! a) as [b0|]; simpl; [|done].
  rewrite finsh_load8_run. destruct (memory s !! (a + 1)) as [b1|]; simpl; [|done].
  unfold ret. do 2 f_equal. lia.
Qed.

Lemma load_run sz a s : load sz a s =
  match mem_load (nbytes sz) (memory s) a with Some v => Ok v s | None => Fault NullDeref end.
Proof.
  destruct sz; [|apply load16_run|]; unfold load, nbytes.
  - rewrite finsh_load8_run. simpl. destruct (memory s !! a); simpl; [|done]. unfold ret. f_equal. lia.
  - unfold load32, bind. rewrite load16_run. simpl.
    destruct (memory s !! a) as [b0|]; simpl; [|done].
    destruct (memory s !! (a + 1)) as [b1|]; simpl; [|done].
    rewrite load16_run. simpl. replace (a + 1 + 1) with (a + 2) by lia.
    destruct (memory s !! (a + 2)) as [b2|]; simpl; [|done].
    destruct (memory s !! (a + 2 + 1)) as [b3|]; simpl; [|done].
    unfold ret. f_equal. lia.
Qed.

Lemma finsh_store8_run a v s : store8 a v s =
  match memory s !! a with
  | Some _ => Ok tt (set_memory (<[a := u8 v]> (memory s)) s)
  | None => Fault NullDeref
  end.
Proof. unfold store8. rewrite bind_gets. by destruct (memory s !! a). Qed.

Lemma store16_run a v s : store16 a v s =
  match mem_store 2 (memory s) a v with
  | Some m => Ok tt (set_memory m s)
  | None => Fault NullDeref
  end.
Proof.
  unfold store16, bind. rewrite finsh_store8_run. simpl. destruct (memory s !! a); simpl; [|done].
  rewrite finsh_store8_run. simpl. destruct (_ !! (a + 1)); done.
Qed.

Lemma store_run sz a v s : store sz a v s =
  match mem_store (nbytes sz) (memory s) a v with
  | Some m => Ok tt (set_memory m s)
  | None => Fault NullDeref
  end.
Proof.
  destruct sz; [|apply store16_run|]; unfold store, nbytes.
  - rewrite finsh_store8_run. simpl. by destruct (memory s !! a).
  - unfold store32, bind. rewrite store16_run. simpl.
    destruct (memory s !! a); simpl; [|done].
    destruct (_ !! (a + 1)); simpl; [|done].
    rewrite store16_run. simpl. replace (a + 1 + 1) with (a + 2) by lia.
    rewrite Z.shiftr_shiftr by lia. change (8 + 8) with 16.
    destruct (_ !! (a + 2)); simpl; [|done].
    destruct (_ !! (a + 2 + 1)); done.
Qed.

(** Bytes of memory, and what is loaded from them. *)
Definition bytes_ok (m : gmap Z Z) : Prop := map_Forall (λ _ b, 0 ≤ b < 2 ^ 8) m.

Lemma mem_load_range n m : ∀ a v, bytes_ok m → mem_load n m a = Some v → 0 ≤ v < 2 ^ (8 * Z.of_nat n).
Proof.
  induction n as [|n IH]; intros a v Hm; simpl; [intros [= <-]; simpl; lia|].
  intros (b & Hb & (r & Hr & [= <-])%bind_Some)%bind_Some.
  pose proof (Hm a b Hb) as Hba. simpl in Hba. specialize (IH _ _ Hm Hr).
  replace (8 * Z.of_nat (S n)) with (8 + 8 * Z.of_nat n) by lia. rewrite Z.pow_add_r by lia. nia.
Qed.

Lemma mem_store_bytes n : ∀ m a v m', bytes_ok m → mem_store n m a v = Some m' → bytes_ok m'.
Proof.
  induction n as [|n IH]; intros m a v m' Hm; simpl; [by intros [= <-]|].
  intros (b & Hb & E)%bind_Some. eapply IH; [|exact E].
  apply map_Forall_insert_2; [|done]. apply wrap_range. lia.
Qed.

(** What was stored is loaded again. *)
Lemma mem_load_store_ne n : ∀ m a b v, b < a → mem_load n (<[b := v]> m) a = mem_load n m a.
Proof.
  induction n as [|n IH]; intros m a b v Hb; simpl; [done|].
  rewrite lookup_insert_ne by lia. by rewrite IH by lia.
Qed.

Lemma mem_store_low n : ∀ m a b v m', b < a → mem_store n m a v = Some m' → m' !! b = m !! b.
Proof.
  induction n as [|n IH]; intros m a b v m' Hb; simpl; [by intros [= <-]|].
  intros (x & Hx & E)%bind_Some. apply (IH _ _ b) in E; [|lia].
  by rewrite E, lookup_insert_ne by lia.
Qed.

Lemma mem_load_store n : ∀ m a v m', mem_store n m a v = Some m' →
  mem_load n m' a = Some (v mod 2 ^ (8 * Z.of_nat n)).
Proof.
  induction n as [|n IH]; intros m a v m'; simpl.
  { intros [= <-]. by rewrite Z.mod_1_r. }
  intros (x & Hx & E)%bind_Some. rewrite (IH _ _ _ _ E).
  rewrite (mem_store_low n _ (a + 1) a _ _ ltac:(lia) E), lookup_insert_eq. simpl. f_equal.
  unfold u8, wrap. rewrite Z.shiftr_div_pow2 by lia.
  replace (8 * Z.of_nat (S n)) with (8 + 8 * Z.of_nat n) by lia. rewrite Z.pow_add_r by lia.
  assert (0 < 2 ^ (8 * Z.of_nat n)) by (apply Z.pow_pos_nonneg; lia).
  rewrite Z.rem_mul_r by lia. done.
Qed.

(** ** States of the machine

    [vm s stk sp pc m]: the state [s], with the stack, the two pointers and
    the memory given. *)
Definition vm (s : fstate) (stk : list Z) (sp pc : nat) (m : gmap Z Z) : fstate :=
  mk_finsh (token s) (root s) (global_errno s) (global_variable s) (global_sysvar_list s)
    (global_syscall_list s) (global_node_table s) (text_segment s) stk (Z.of_nat sp)
    (Z.of_nat pc) (finsh_compile_pc s) (free_list s) (allocate_list s) (blocks s) m.

Lemma get_slot_run i n w s : i = Z.of_nat n → finsh_vm_stack s !! n = Some w →
  get_slot i s = Ok w s.
Proof.
  intros -> Hn. unfold get_slot. rewrite bind_gets.
  destruct (Z.ltb_spec (Z.of_nat n) 0); [lia|]. by rewrite Nat2Z.id, Hn.
Qed.

Lemma put_slot_run i n v s : i = Z.of_nat n → (n < length (finsh_vm_stack s))%nat →
  put_slot i v s = Ok tt (set_finsh_vm_stack (<[n := v]> (finsh_vm_stack s)) s).
Proof.
  intros -> Hn. unfold put_slot. rewrite bind_gets.
  destruct (_ && _) eqn:E; [|lia]. by rewrite Nat2Z.id.
Qed.

Lemma text_at_run i n x s : i = Z.of_nat n → text_segment s !! n = Some x → text_at i s = Ok x s.
Proof.
  intros -> Hn. unfold text_at. rewrite bind_gets.
  destruct (Z.ltb_spec (Z.of_nat n) 0); [lia|]. by rewrite Nat2Z.id, Hn.
Qed.

Lemma move_sp_run d n s : finsh_sp s + d = Z.of_nat n →
  move_sp d s = Ok tt (set_finsh_sp (Z.of_nat n) s).
Proof. by intros <-. Qed.

Lemma move_pc_run d n s : finsh_pc s + d = Z.of_nat n →
  move_pc d s = Ok tt (set_finsh_pc (Z.of_nat n) s).
Proof. by intros <-. Qed.

(** ** Code in the text segment *)
Definition code_at (text : list Z) (pc : nat) (code : list Z) : Prop :=
  ∀ k x, code !! k = Some x → text !! (pc + k)%nat = Some x.

Create HintDb code.

Lemma code_at_head text pc x l : code_at text pc (x :: l) → text !! pc = Some x.
Proof. intros Hc. specialize (Hc 0%nat x eq_refl). by rewrite Nat.add_0_r in Hc. Qed.

Lemma code_at_tail text pc x l : code_at text pc (x :: l) → code_at text (S pc) l.
Proof. intros Hc k y Hk. specialize (Hc (S k) y Hk). by rewrite Nat.add_succ_r in Hc. Qed.

Lemma code_at_app_l text pc l1 l2 : code_at text pc (l1 ++ l2) → code_at text pc l1.
Proof. intros Hc k x Hk. apply Hc. by apply lookup_app_l_Some. Qed.

Lemma code_at_app_r text pc l1 l2 :
  code_at text pc (l1 ++ l2) → code_at text (pc + length l1) l2.
Proof.
  intros Hc k x Hk. rewrite <- Nat.add_assoc. apply Hc.
  rewrite lookup_app_r by lia. by rewrite Nat.add_comm, Nat.add_sub.
Qed.

Lemma code_at_length text pc l : code_at text pc l → (length l ≤ length text)%nat.
Proof.
  intros Hc. destruct l as [|x l _] using rev_ind; [simpl; lia|].
  rewrite length_app. simpl.
  assert (text !! (pc + length l)%nat = Some x) as Hx.
  { apply Hc. by rewrite lookup_app_r, Nat.sub_diag by lia. }
  apply lookup_lt_Some in Hx. lia.
Qed.

#[export] Hint Resolve code_at_head code_at_tail code_at_app_l code_at_app_r : code.

Lemma get16_run pc n x s : pc = Z.of_nat n → code_at (text_segment s) n (le_bytes 2 x) →
  FINSH_GET16 pc s = Ok (x mod 2 ^ 16) s.
Proof.
  intros -> Hc. cbn [le_bytes] in Hc. unfold FINSH_GET16.
  erewrite bind_ok by (eapply text_at_run; [done|eauto with code]).
  erewrite bind_ok by (apply (text_at_run _ (S n)); [lia|eauto with code]).
  unfold ret. f_equal. apply le_bytes_16.
Qed.

Lemma get32_run pc n x s : pc = Z.of_nat n → code_at (text_segment s) n (le_bytes 4 x) →
  FINSH_GET32 pc s = Ok (x mod 2 ^ 32) s.
Proof.
  intros -> Hc. cbn [le_bytes] in Hc. unfold FINSH_GET32.
  erewrite bind_ok by (eapply text_at_run; [done|eauto with code]).
  erewrite bind_ok by (apply (text_at_run _ (S n)); [lia|eauto with code]).
  erewrite bind_ok by (apply (text_at_run _ (S (S n))); [lia|eauto 6 with code]).
  erewrite bind_ok by (apply (text_at_run _ (S (S (S n)))); [lia|eauto 7 with code]).
  unfold ret. f_equal. apply le_bytes_32.
Qed.

(** ** Instructions *)
Definition op_bin (op : binop) (sz : size) : Z :=
  match op, sz with
  | BAdd, Byte => FINSH_OP_ADD_BYTE | BAdd, Word => FINSH_OP_ADD_WORD
  | BAdd, Dword => FINSH_OP_ADD_DWORD
  | BSub, Byte => FINSH_OP_SUB_BYTE | BSub, Word => FINSH_OP_SUB_WORD
  | BSub, Dword => FINSH_OP_SUB_DWORD
  | BMul, Byte => FINSH_OP_MUL_BYTE | BMul, Word => FINSH_OP_MUL_WORD
  | BMul, Dword => FINSH_OP_MUL_DWORD
  | BDiv, Byte => FINSH_OP_DIV_BYTE | BDiv, Word => FINSH_OP_DIV_WORD
  | BDiv, Dword => FINSH_OP_DIV_DWORD
  | BMod, Byte => FINSH_OP_MOD_BYTE | BMod, Word => FINSH_OP_MOD_WORD
  | BMod, Dword => FINSH_OP_MOD_DWORD
  | BAnd, Byte => FINSH_OP_AND_BYTE | BAnd, Word => FINSH_OP_AND_WORD
  | BAnd, Dword => FINSH_OP_AND_DWORD
  | BOr, Byte => FINSH_OP_OR_BYTE | BOr, Word => FINSH_OP_OR_WORD
  | BOr, Dword => FINSH_OP_OR_DWORD
  | BXor, Byte => FINSH_OP_XOR_BYTE | BXor, Word => FINSH_OP_XOR_WORD
  | BXor, Dword => FINSH_OP_XOR_DWORD
  | BShl, Byte => FINSH_OP_SHL_BYTE | BShl, Word => FINSH_OP_SHL_WORD
  | BShl, Dword => FINSH_OP_SHL_DWORD
  | BShr, Byte => FINSH_OP_SHR_BYTE | BShr, Word => FINSH_OP_SHR_WORD
  | BShr, Dword => FINSH_OP_SHR_DWORD
  end.
Definition op_not (sz : size) : Z :=
  match sz with
  | Byte => FINSH_OP_BITWISE_BYTE | Word => FINSH_OP_BITWISE_WORD | Dword => FINSH_OP_BITWISE_DWORD
  end.
Definition op_ld (sz : size) : Z :=
  match sz with Byte => FINSH_OP_LD_BYTE | Word => FINSH_OP_LD_WORD | Dword => FINSH_OP_LD_DWORD end.
Definition op_ld_value (sz : size) : Z :=
  match sz with
  | Byte => FINSH_OP_LD_VALUE_BYTE | Word => FINSH_OP_LD_VALUE_WORD
  | Dword => FINSH_OP_LD_VALUE_DWORD
  end.
Definition op_ld_stack (sz : size) : Z :=
  match sz with
  | Byte => FINSH_OP_LD_VALUE_BYTE_STACK | Word => FINSH_OP_LD_VALUE_WORD_STACK
  | Dword => FINSH_OP_LD_VALUE_DWORD_STACK
  end.
Definition op_st (sz : size) : Z :=
  match sz with Byte => FINSH_OP_ST_BYTE | Word => FINSH_OP_ST_WORD | Dword => FINSH_OP_ST_DWORD end.

(** Run the next primitive of an operation of the machine. *)
Ltac vm_get n := erewrite bind_ok by (apply (get_slot_run _ n); [simpl; lia|done]).
Ltac vm_put n := erewrite bind_ok by
  (apply (put_slot_run _ n); [simpl; lia|simpl; by eapply lookup_lt_Some]).

Section instructions.
Context `{FinshEnv}.

(** A round of the loop of [finsh_vm_run]. *)
Definition vm_round (s s' : fstate) : Prop :=
  0 ≤ finsh_pc s < FINSH_TEXT_MAX ∧ vm_step s = Ok tt s'.

Lemma vm_loop_rounds s s' : rtc vm_round s s' →
  vm_loop (rounds s) s = vm_loop (rounds s') s'.
Proof.
  induction 1 as [|s s1 s' [Hpc Hs] Hr IH]; [done|]. rewrite <- IH, vm_loop_eq.
  destruct (_ && _) eqn:Eb; [|unfold FINSH_TEXT_MAX in *; lia].
  pose proof (vm_step_forward s) as Hf. rewrite Hs in Hf. unfold rounds.
  destruct (Z.to_nat (FINSH_TEXT_MAX - finsh_pc s)) as [|n] eqn:E; [lia|].
  erewrite bind_ok by done. apply (vm_loop_fuel _ s1); unfold rounds; lia.
Qed.

Context (s : fstate).
Hypothesis text_length : length (text_segment s) = Z.to_nat FINSH_TEXT_MAX.
Implicit Types (stk : list Z) (sp pc : nat) (m : gmap Z Z).

Lemma vm_round_intro stk sp pc m op s' : text_segment s !! pc = Some op →
  run_op op (vm s stk sp (S pc) m) = Ok tt s' → vm_round (vm s stk sp pc m) s'.
Proof.
  intros Hop Hr. split.
  - apply lookup_lt_Some in Hop. rewrite text_length in Hop. simpl. lia.
  - unfold vm_step. rewrite bind_gets.
    erewrite bind_ok by (by apply (text_at_run _ pc)).
    erewrite bind_ok by (apply (move_pc_run _ (S pc)); simpl; lia). done.
Qed.

Lemma round_bin stk sp pc m op sz a b r :
  code_at (text_segment s) pc [op_bin op sz] →
  stk !! sp = Some a → stk !! S sp = Some b →
  c_binop op (member sz a) (member sz b) = Some r →
  vm_round (vm s stk (S (S sp)) pc m) (vm s (<[sp := set_low (bits sz) a r]> stk) (S sp) (S pc) m).
Proof.
  intros Hop%code_at_head Ha Hb Hr. eapply vm_round_intro; [exact Hop|].
  replace (run_op _) with (OP_BIN (member sz) (bits sz) op) by (by destruct op, sz).
  unfold OP_BIN. rewrite bind_gets. vm_get sp. vm_get (S sp). rewrite Hr.
  cbn [from_option]. rewrite bind_ret. vm_put sp.
  erewrite (move_sp_run _ (S sp)); [done|simpl; lia].
Qed.

Lemma round_not stk sp pc m sz a :
  code_at (text_segment s) pc [op_not sz] → stk !! sp = Some a →
  vm_round (vm s stk (S sp) pc m)
    (vm s (<[sp := set_low (bits sz) a (Z.lnot (member sz a))]> stk) (S sp) (S pc) m).
Proof.
  intros Hop%code_at_head Ha. eapply vm_round_intro; [exact Hop|].
  replace (run_op _) with (OP_NOT (member sz) (bits sz)) by (by destruct sz).
  unfold OP_NOT. rewrite bind_gets. vm_get sp.
  erewrite (put_slot_run _ sp); [done|simpl; lia|]. simpl. by eapply lookup_lt_Some.
Qed.

Lemma round_ld stk sp pc m sz x w :
  code_at (text_segment s) pc (op_ld sz :: le_bytes (nbytes sz) x) → stk !! sp = Some w →
  vm_round (vm s stk sp pc m)
    (vm s (<[sp := set_low (bits sz) w x]> stk) (S sp) (S pc + nbytes sz) m).
Proof.
  intros Hop Hw. eapply vm_round_intro; [by eapply code_at_head|]. apply code_at_tail in Hop.
  set (fetch := match sz with Byte => text_at | Word => FINSH_GET16 | Dword => FINSH_GET32 end).
  replace (run_op _) with (OP_LD (bits sz) fetch (Z.of_nat (nbytes sz))) by (by destruct sz).
  unfold OP_LD. rewrite !bind_gets.
  erewrite (bind_ok (fetch _) _ _ (x mod 2 ^ bits sz)).
  2: { subst fetch. destruct sz.
       - cbn in Hop. eapply text_at_run; [done|by eapply code_at_head].
       - by eapply get16_run.
       - by eapply get32_run. }
  vm_get sp. rewrite set_low_of_mod by (destruct sz; simpl; lia).
  vm_put sp. erewrite bind_ok by (apply (move_sp_run _ (S sp)); simpl; lia).
  erewrite (move_pc_run _ (S pc + nbytes sz)); [done|simpl; lia].
Qed.

Lemma round_ld_value stk sp pc m sz a v w :
  code_at (text_segment s) pc (op_ld_value sz :: le_bytes 4 a) → stk !! sp = Some w →
  mem_load (nbytes sz) m (a mod 2 ^ 32) = Some v →
  vm_round (vm s stk sp pc m) (vm s (<[sp := set_low (bits sz) w v]> stk) (S sp) (S pc + 4) m).
Proof.
  intros Hop Hw Hv. eapply vm_round_intro; [by eapply code_at_head|]. apply code_at_tail in Hop.
  replace (run_op _) with (OP_LD_VALUE (bits sz) (load sz)) by (by destruct sz).
  unfold OP_LD_VALUE. rewrite !bind_gets.
  erewrite bind_ok by (by eapply get32_run).
  erewrite bind_ok by (rewrite load_run; simpl; by rewrite Hv).
  vm_get sp. vm_put sp. erewrite bind_ok by (apply (move_sp_run _ (S sp)); simpl; lia).
  erewrite (move_pc_run _ (S pc + 4)); [done|simpl; lia].
Qed.

Lemma round_ld_stack stk sp pc m sz a v :
  code_at (text_segment s) pc [op_ld_stack sz] → stk !! sp = Some a →
  mem_load (nbytes sz) m a = Some v →
  vm_round (vm s stk (S sp) pc m)
    (vm s (<[sp := set_low (bits sz) a v]> stk) (S sp) (S pc) m).
Proof.
  intros Hop%code_at_head Ha Hv. eapply vm_round_intro; [exact Hop|].
  replace (run_op _) with (OP_LD_VALUE_STACK (bits sz) (load sz)) by (by destruct sz).
  unfold OP_LD_VALUE_STACK. rewrite bind_gets. vm_get sp.
  erewrite bind_ok by (rewrite load_run; simpl; by rewrite Hv).
  erewrite (put_slot_run _ sp); [done|simpl; lia|]. simpl. by eapply lookup_lt_Some.
Qed.

Lemma round_st stk sp pc m sz a v m' :
  code_at (text_segment s) pc [op_st sz] → stk !! sp = Some a → stk !! S sp = Some v →
  mem_store (nbytes sz) m a v = Some m' →
  vm_round (vm s stk (S (S sp)) pc m) (vm s stk (S sp) (S pc) m').
Proof.
  intros Hop%code_at_head Ha Hv Hm. eapply vm_round_intro; [exact Hop|].
  replace (run_op _) with (OP_ST (store sz)) by (by destruct sz).
  unfold OP_ST. rewrite bind_gets. vm_get sp. vm_get (S sp).
  erewrite bind_ok by (rewrite store_run; simpl; by rewrite Hm).
  erewrite (move_sp_run _ (S sp)); [done|simpl; lia].
Qed.

Lemma round_pop stk sp pc m :
  code_at (text_segment s) pc [FINSH_OP_POP] →
  vm_round (vm s stk (S sp) pc m) (vm s stk sp (S pc) m).
Proof.
  intros Hop%code_at_head. eapply vm_round_intro; [exact Hop|].
  change (run_op _) with OP_pop. unfold OP_pop.
  erewrite (move_sp_run _ sp); [done|simpl; lia].
Qed.

(** The arguments of a call lie above the function, the last one on top. *)
Lemma pop_args_run stk m pc args : ∀ sp acc,
  (∀ k x, args !! k = Some x → stk !! (S sp + k)%nat = Some x) →
  pop_args (length args) acc
    (mk_finsh (token s) (root s) (global_errno s) (global_variable s) (global_sysvar_list s)
       (global_syscall_list s) (global_node_table s) (text_segment s) stk
       (Z.of_nat (sp + length args)) (Z.of_nat pc) (finsh_compile_pc s) (free_list s)
       (allocate_list s) (blocks s) m) =
  Ok (args ++ acc) (vm s stk sp pc m).
Proof.
  induction args as [|x args IH] using rev_ind; intros sp acc Ha; simpl.
  { by rewrite Nat.add_0_r. }
  rewrite length_app, Nat.add_comm. simpl. rewrite bind_gets.
  erewrite bind_ok.
  2: { apply (get_slot_run _ (S sp + length args)); [simpl; lia|]. apply Ha.
       by rewrite lookup_app_r, Nat.sub_diag by lia. }
  erewrite bind_ok by (apply (move_sp_run _ (sp + length args)); simpl; lia).
  rewrite <- app_assoc. simpl. apply IH.
  intros k y Hk. apply Ha. by apply lookup_app_l_Some.
Qed.

Lemma round_call stk sp pc m args f r m' w :
  code_at (text_segment s) pc [FINSH_OP_SYSCALL; Z.of_nat (length args)] →
  (length args ≤ 16)%nat →
  stk !! sp = Some f → (∀ k x, args !! k = Some x → stk !! (S sp + k)%nat = Some x) →
  call_function f (match args with [] => [0] | _ => args end) m = Some (r, m') → w = u32 r →
  vm_round (vm s stk (S sp + length args) pc m) (vm s (<[sp := w]> stk) (S sp) (S (S pc)) m').
Proof.
  intros Hop Hn Hf Ha Hcall ->. eapply vm_round_intro; [by eapply code_at_head|].
  apply code_at_tail in Hop. change (run_op _) with OP_call. unfold OP_call. rewrite bind_gets.
  erewrite bind_ok by (eapply text_at_run; [done|by eapply code_at_head]).
  erewrite bind_ok by (apply (move_pc_run _ (S (S pc))); simpl; lia).
  erewrite bind_ok by (apply (move_sp_run _ (sp + length args)); simpl; lia).
  destruct (Z.ltb_spec 16 (Z.of_nat (length args))); [lia|].
  rewrite Nat2Z.id. erewrite bind_ok by (exact (pop_args_run stk m (S (S pc)) args sp [] Ha)).
  rewrite app_nil_r, bind_gets. vm_get sp. rewrite bind_gets. simpl memory. rewrite Hcall.
  cbn [from_option]. rewrite bind_ret, bind_modify. vm_put sp.
  erewrite (move_sp_run _ (S sp)); [done|simpl; lia].
Qed.

(** Unused bytes of the text are zero: the machine runs over them. *)
Lemma vm_loop_noops stk sp pc m :
  (∀ k, (pc ≤ k < length (text_segment s))%nat → text_segment s !! k = Some FINSH_OP_NOOP) →
  ∃ pc', vm_loop (rounds (vm s stk sp pc m)) (vm s stk sp pc m) = Ok tt (vm s stk sp pc' m).
Proof.
  intros Hz. remember (rounds (vm s stk sp pc m)) as n eqn:Hn.
  revert pc Hz Hn. induction n as [|n IH]; intros pc Hz Hn; rewrite vm_loop_eq;
    destruct (_ && _) eqn:E; try (by exists pc); unfold rounds in Hn; simpl in Hn, E.
  { unfold FINSH_TEXT_MAX in *. lia. }
  destruct (vm_round_intro stk sp pc m FINSH_OP_NOOP (vm s stk sp (S pc) m)) as [_ Hs].
  - apply Hz. rewrite text_length. unfold FINSH_TEXT_MAX in *. lia.
  - done.
  - erewrite bind_ok by done. apply IH; [intros k Hk; apply Hz; lia|].
    unfold rounds. simpl. unfold FINSH_TEXT_MAX in *. lia.
Qed.
End instructions.
