(* ===== verification/FinshTree.v ===== *)
(** * The compiler of the shell on trees

    The nodes of the table that a pointer leads to are a tree.  On trees the
    two passes of [FinshCompiler] are functions: [annotate] and [code]. *)

From S2P Require Import Prelude FinshDef FinshHeap FinshNode FinshVm FinshCompiler FinshVmSpec.

(** ** Trees

    A node with its index, its first child and its next sibling. *)
Inductive ast : Type :=
  | Leaf
  | Node (i : nat) (n : finsh_node) (ch sib : ast).

Definition sib_of (t : ast) : ast := match t with Leaf => Leaf | Node _ _ _ sib => sib end.

Fixpoint indices (t : ast) : list nat :=
  match t with
  | Leaf => []
  | Node i _ ch sib => i :: indices ch ++ indices sib
  end.

Fixpoint height (t : ast) : nat :=
  match t with
  | Leaf => 0
  | Node _ _ ch sib => S (Nat.max (height ch) (height sib))
  end.

(** The pointer [p] leads to [t] in the table. *)
Fixpoint rep (tbl : list finsh_node) (p : option nat) (t : ast) : Prop :=
  match t with
  | Leaf => p = None
  | Node i n ch sib =>
    p = Some i ∧ tbl !! i = Some n ∧ rep tbl (child n) ch ∧ rep tbl (sibling n) sib
  end.

(** The tree that a pointer leads to. *)
Fixpoint tree_from (fuel : nat) (tbl : list finsh_node) (p : option nat) : ast :=
  match fuel, p with
  | S fuel, Some i =>
    match tbl !! i with
    | Some n => Node i n (tree_from fuel tbl (child n)) (tree_from fuel tbl (sibling n))
    | None => Leaf
    end
  | _, _ => Leaf
  end.

Lemma rep_frame tbl tbl' t : ∀ p,
  (∀ i, i ∈ indices t → tbl' !! i = tbl !! i) → rep tbl p t → rep tbl' p t.
Proof.
  induction t as [|i n ch IHc sib IHs]; intros p Hf; simpl in *; [done|].
  intros (-> & Hi & Hc & Hs). split_and!; [done|..].
  - rewrite Hf; [done|]. left.
  - apply IHc; [|done]. intros j Hj. apply Hf. right. apply elem_of_app. by left.
  - apply IHs; [|done]. intros j Hj. apply Hf. right. apply elem_of_app. by right.
Qed.

Lemma rep_insert tbl p t i n : i ∉ indices t → rep tbl p t → rep (<[i := n]> tbl) p t.
Proof.
  intros Hi. apply rep_frame. intros j Hj. apply list_lookup_insert_ne. intros ->. done.
Qed.

Lemma rep_bound tbl t : ∀ p, rep tbl p t → Forall (λ i, (i < length tbl)%nat) (indices t).
Proof.
  induction t as [|i n ch IHc sib IHs]; intros p; simpl; [constructor|].
  intros (-> & Hi & Hc & Hs). constructor; [by eapply lookup_lt_Some|].
  apply Forall_app. eauto.
Qed.

(** A tree is no higher than the table is long. *)
Lemma height_indices t : (height t ≤ length (indices t))%nat.
Proof. induction t; simpl; [lia|]. rewrite length_app. lia. Qed.

Lemma nodup_bound (l : list nat) n : NoDup l → Forall (λ i, (i < n)%nat) l → (length l ≤ n)%nat.
Proof.
  intros Hn Hb. assert (l ⊆+ seq 0 n) as Hs%submseteq_length; [|by rewrite length_seq in Hs].
  apply NoDup_submseteq; [done|]. intros x Hx. rewrite Forall_forall in Hb.
  specialize (Hb x Hx). apply elem_of_seq. lia.
Qed.

Lemma rep_height tbl p t : NoDup (indices t) → rep tbl p t → (height t ≤ length tbl)%nat.
Proof.
  intros Hn Hr. etrans; [apply height_indices|]. apply nodup_bound; [done|]. by eapply rep_bound.
Qed.

Lemma rep_tree_node tbl i n ch sib :
  (i < length tbl)%nat → i ∉ indices ch → i ∉ indices sib →
  rep tbl (child n) ch → rep tbl (sibling n) sib →
  rep (<[i := n]> tbl) (Some i) (Node i n ch sib).
Proof.
  intros Hi Hc Hs Rc Rs. simpl. split_and!; [done|by apply list_lookup_insert_eq|..];
    by apply rep_insert.
Qed.

(** ** Reading and writing nodes *)
Lemma get_node_run i n s : global_node_table s !! i = Some n → get_node i s = Ok n s.
Proof. intros Hi. unfold get_node. rewrite bind_gets. by rewrite Hi. Qed.

Lemma upd_node_run i f n s : global_node_table s !! i = Some n →
  upd_node i f s = Ok tt (set_global_node_table (<[i := f n]> (global_node_table s)) s).
Proof.
  intros Hi. unfold upd_node. erewrite bind_ok by (by apply get_node_run). done.
Qed.

(** ** Data types *)
Section annotate.
Context (vars : list finsh_var).

Definition with_type (type : finsh_type) (n : finsh_node) : finsh_node :=
  match data_type_of type with Some dt => set_data_type dt n | None => n end.

Definition leaf_type (n : finsh_node) : finsh_node :=
  match node_type_of n with
  | FINSH_NODE_ID =>
    if negb (Z.land (idtype n) FINSH_IDTYPE_VAR =? 0) then
      match node_id n with
      | IdVar k => match vars !! k with Some v => with_type (var_type v) n | None => n end
      | _ => n
      end
    else if negb (Z.land (idtype n) FINSH_IDTYPE_SYSVAR =? 0) then
      match node_id n with IdSysvar v => with_type (sysvar_type v) n | _ => n end
    else n
  | FINSH_NODE_VALUE_CHAR => set_data_type FINSH_DATA_TYPE_BYTE n
  | FINSH_NODE_VALUE_INT | FINSH_NODE_VALUE_LONG
  | FINSH_NODE_VALUE_STRING | FINSH_NODE_VALUE_NULL => set_data_type FINSH_DATA_TYPE_DWORD n
  | _ => n
  end.

Definition mark (is_addr : Z) (n : finsh_node) : finsh_node :=
  if idtype n =? FINSH_IDTYPE_SYSCALL then n else set_idtype (Z.lor (idtype n) is_addr) n.

(** A node has the type of its first child. *)
Definition typed_as (ch : ast) (n : finsh_node) : finsh_node :=
  match ch with
  | Node _ c _ _ => set_data_type (data_type c) n
  | Leaf => leaf_type n
  end.

Fixpoint annotate (is_addr : Z) (t : ast) : ast :=
  match t with
  | Leaf => Leaf
  | Node i n ch sib =>
    let ch' := annotate (child_is_addr (node_type_of n) is_addr) ch in
    let sib' := annotate FINSH_NODE_VALUE sib in
    Node i (typed_as ch' (mark is_addr n)) ch' sib'
  end.

(** Every identifier of the tree has a known type. *)
Definition known_id (n : finsh_node) : Prop :=
  node_type_of n = FINSH_NODE_ID →
  match node_id n with
  | IdVar k => ∃ v, vars !! k = Some v ∧ is_Some (data_type_of (var_type v))
  | IdSysvar v => is_Some (data_type_of (sysvar_type v))
  | _ => True
  end.
Fixpoint known (t : ast) : Prop :=
  match t with
  | Leaf => True
  | Node _ n ch sib => known_id n ∧ known ch ∧ known sib
  end.

Lemma annotate_indices t : ∀ a, indices (annotate a t) = indices t.
Proof. induction t as [|i n ch IHc sib IHs]; intros a; simpl; [done|]. by rewrite IHc, IHs. Qed.

Lemma with_type_links type n :
  child (with_type type n) = child n ∧ sibling (with_type type n) = sibling n.
Proof. unfold with_type. by destruct (data_type_of type). Qed.

Lemma leaf_type_links n : child (leaf_type n) = child n ∧ sibling (leaf_type n) = sibling n.
Proof.
  unfold leaf_type. destruct (node_type_of n); try done.
  destruct (negb _); [|destruct (negb _)]; [..|done]; destruct (node_id n) as [|k|v|c]; try done.
  - destruct (vars !! k); [apply with_type_links|done].
  - apply with_type_links.
Qed.

Lemma mark_links a n : child (mark a n) = child n ∧ sibling (mark a n) = sibling n.
Proof. unfold mark. by destruct (_ =? _). Qed.

Lemma type_leaf_run i n s : global_variable s = vars → known_id n →
  global_node_table s !! i = Some n →
  type_leaf i s = Ok tt (set_global_node_table (<[i := leaf_type n]> (global_node_table s)) s).
Proof.
  intros Hv Hk Hi. unfold type_leaf. erewrite bind_ok by (by apply get_node_run).
  assert (Ok tt s = Ok tt (set_global_node_table (<[i := n]> (global_node_table s)) s)) as Hid.
  { f_equal. rewrite list_insert_id by done. by destruct s. }
  assert (∀ type, is_Some (data_type_of type) → set_type i type s =
    Ok tt (set_global_node_table (<[i := with_type type n]> (global_node_table s)) s)) as Hset.
  { intros type [dt Hdt]. unfold set_type, with_type. rewrite Hdt. by apply upd_node_run. }
  unfold leaf_type, known_id in *.
  destruct (node_type_of n); try exact Hid; try (by apply upd_node_run).
  specialize (Hk eq_refl). destruct (negb _); [|destruct (negb _)]; [..|exact Hid];
    destruct (node_id n) as [|k|v|c]; try exact Hid; [|by apply Hset].
  destruct Hk as (v & Hvk & Hdt). unfold get_var. rewrite Hvk.
  erewrite bind_ok by (rewrite bind_gets, Hv, Hvk; done). by apply Hset.
Qed.

Lemma typed_as_links ch n : child (typed_as ch n) = child n ∧ sibling (typed_as ch n) = sibling n.
Proof. destruct ch; simpl; [apply leaf_type_links|done]. Qed.

(** The type of a node, when those of its children are known. *)
Lemma type_node_run i n ch s : global_variable s = vars → known_id n →
  global_node_table s !! i = Some n → rep (global_node_table s) (child n) ch →
  match child n with
  | Some c => let! c := get_node c in upd_node i (set_data_type (data_type c))
  | None => type_leaf i
  end s = Ok tt (set_global_node_table (<[i := typed_as ch n]> (global_node_table s)) s).
Proof.
  intros Hv Hk Hi Hr. destruct ch as [|ic nc chc sibc]; simpl in *.
  - rewrite Hr. by apply type_leaf_run.
  - destruct Hr as (-> & Hic & _). erewrite bind_ok by (by apply get_node_run).
    by apply upd_node_run.
Qed.

Lemma mark_run i n a s : global_node_table s !! i = Some n →
  (when negb (idtype n =? FINSH_IDTYPE_SYSCALL) then
     upd_node i (λ n, set_idtype (Z.lor (idtype n) a) n)) s =
  Ok tt (set_global_node_table (<[i := mark a n]> (global_node_table s)) s).
Proof.
  intros Hi. unfold mark. destruct (idtype n =? _); simpl.
  - rewrite list_insert_id by done. by destruct s.
  - by erewrite upd_node_run.
Qed.

(** The first pass writes the annotated tree, and nothing else. *)
Lemma finsh_type_check_run t : ∀ fuel p a s,
  global_variable s = vars → known t → NoDup (indices t) → (height t ≤ fuel)%nat →
  rep (global_node_table s) p t →
  ∃ tbl, finsh_type_check fuel p a s = Ok tt (set_global_node_table tbl s) ∧
    rep tbl p (annotate a t) ∧ length tbl = length (global_node_table s) ∧
    (∀ j, j ∉ indices t → tbl !! j = global_node_table s !! j).
Proof.
  induction t as [|i n ch IHc sib IHs]; intros fuel p a s Hv Hk Hn Hh; simpl.
  { intros ->. exists (global_node_table s). split; [|done]. destruct fuel; by destruct s. }
  intros (-> & Hi & Hc & Hs). destruct fuel as [|fuel]; simpl in Hh; [lia|].
  destruct Hk as (Hkn & Hkc & Hks).
  apply NoDup_cons in Hn as [[Hic His]%not_elem_of_app (Hnc & Hd & Hns)%NoDup_app].
  cbn [finsh_type_check]. erewrite bind_ok by (by apply get_node_run).
  set (a' := child_is_addr (node_type_of n) a).
  destruct (IHc fuel (child n) a' s) as (t1 & E1 & R1 & L1 & F1); try done; [lia|].
  destruct (IHs fuel (sibling n) FINSH_NODE_VALUE (set_global_node_table t1 s))
    as (t2 & E2 & R2 & L2 & F2); try done; [lia|..].
  { simpl. eapply rep_frame; [|exact Hs]. intros j Hj. apply F1. intros Hj'. by apply (Hd j). }
  simpl in L2, F2, E2.
  assert (t2 !! i = Some n) as Hi2 by (by rewrite F2, F1 by done).
  assert (rep t2 (child n) (annotate a' ch)) as R1'.
  { eapply rep_frame; [|exact R1]. intros j Hj. rewrite annotate_indices in Hj.
    apply F2. intros Hj'. by apply (Hd j). }
  assert (i < length t2)%nat as Hlt by (by eapply lookup_lt_Some).
  rewrite (bind_ok _ _ _ _ _ E1), (bind_ok _ _ _ _ _ E2).
  erewrite bind_ok by (by apply mark_run). simpl.
  destruct (mark_links a n) as [Hmc Hms]. rewrite <- Hmc.
  erewrite (type_node_run i (mark a n) (annotate a' ch)); [|done|..].
  2: { unfold mark, known_id in *. by destruct (_ =? _). }
  2: { simpl. by apply list_lookup_insert_eq. }
  2: { simpl. rewrite Hmc. apply rep_insert; [by rewrite annotate_indices|done]. }
  exists (<[i := typed_as (annotate a' ch) (mark a n)]> t2). rewrite length_insert.
  destruct (typed_as_links (annotate a' ch) (mark a n)) as [Htc Hts].
  split; [simpl; by rewrite list_insert_insert_eq|]. split; [|split; [lia|]].
  - apply rep_tree_node; rewrite ?annotate_indices; [done..| |]; rewrite ?Htc, ?Hts; congruence.
  - simpl. intros j [Hj [Hjc Hjs]%not_elem_of_app]%not_elem_of_cons.
    rewrite list_lookup_insert_ne by done. by rewrite F2, F1.
Qed.
End annotate.

(** ** Code

    [emit l s]: the bytes [l] are written from the compiler's program counter
    on. *)
Definition emit1 (s : fstate) (x : Z) : fstate :=
  set_finsh_compile_pc (finsh_compile_pc s + 1)
    (set_text_segment (<[Z.to_nat (finsh_compile_pc s) := x]> (text_segment s)) s).
Definition emit (l : list Z) (s : fstate) : fstate := foldl emit1 s l.

Lemma emit_app l1 l2 s : emit (l1 ++ l2) s = emit l2 (emit l1 s).
Proof. apply foldl_app. Qed.

Definition room (n : nat) (s : fstate) : Prop :=
  0 ≤ finsh_compile_pc s ∧ finsh_compile_pc s + Z.of_nat n ≤ Z.of_nat (length (text_segment s)).

Lemma emit_pc l s : finsh_compile_pc (emit l s) = finsh_compile_pc s + Z.of_nat (length l).
Proof. revert s. induction l as [|x l IH]; intros s; simpl; [lia|]. rewrite IH. simpl. lia. Qed.

Lemma emit_length l s : length (text_segment (emit l s)) = length (text_segment s).
Proof.
  revert s. induction l as [|x l IH]; intros s; simpl; [done|]. rewrite IH. simpl.
  apply length_insert.
Qed.

Lemma emit_room l n s : room (length l + n) s → room n (emit l s).
Proof. unfold room. rewrite emit_pc, emit_length. lia. Qed.

(** What [emit] leaves as it was. *)
Lemma emit_frame l s : emit l s =
  set_finsh_compile_pc (finsh_compile_pc (emit l s)) (set_text_segment (text_segment (emit l s)) s).
Proof.
  revert s. induction l as [|x l IH]; intros s; simpl; [by destruct s|].
  rewrite IH at 1. by destruct s.
Qed.

(** The text behind [pre] is overwritten. *)
Lemma emit_text l : ∀ pre post s,
  text_segment s = pre ++ post → finsh_compile_pc s = Z.of_nat (length pre) →
  (length l ≤ length post)%nat →
  text_segment (emit l s) = pre ++ l ++ drop (length l) post.
Proof.
  induction l as [|x l IH]; intros pre post s Ht Hpc Hl; simpl.
  { by rewrite drop_0. }
  destruct post as [|y post]; simpl in Hl; [lia|].
  rewrite (IH (pre ++ [x]) post); simpl; [by rewrite <- app_assoc|..|lia].
  - rewrite Ht, Hpc, Nat2Z.id, <- app_assoc. rewrite insert_app_r_alt by lia.
    by rewrite Nat.sub_diag.
  - rewrite length_app. simpl. lia.
Qed.

Section code.
Context `{FinshEnv} (vars : list finsh_var) (tbl : list finsh_node).

(** [m] does nothing but write [l], in a state with these variables and nodes. *)
Definition emits (m : F unit) (l : list Z) : Prop := ∀ s,
  global_variable s = vars → global_node_table s = tbl → room (length l) s →
  m s = Ok tt (emit l s).

Create HintDb emits.

Lemma emits_ret : emits (ret tt) [].
Proof. by intros s. Qed.

Lemma emits_byte x : emits (finsh_code_byte x) [u8 x].
Proof.
  intros s _ _ [Hp Hl]. simpl in Hl. unfold finsh_code_byte. rewrite !bind_gets.
  destruct (_ && _) eqn:E; [done|lia].
Qed.

Lemma emits_bind m k l1 l2 : emits m l1 → emits k l2 → emits (m ;;; k) (l1 ++ l2).
Proof.
  intros Hm Hk s Hv Ht Hr. rewrite length_app in Hr. assert (room (length l1) s) by (unfold room in *; lia).
  erewrite bind_ok by (by apply Hm). rewrite emit_app. apply Hk.
  - by rewrite emit_frame.
  - by rewrite emit_frame.
  - by apply emit_room.
Qed.

Lemma emits_eq m l l' : emits m l' → l = l' → emits m l.
Proof. by intros ? ->. Qed.

Lemma emits_read {A} (m : F A) (k : A → F unit) a l :
  (∀ s, global_variable s = vars → global_node_table s = tbl → m s = Ok a s) →
  emits (k a) l → emits (bind m k) l.
Proof.
  intros Hm Hk s Hv Ht Hr. erewrite bind_ok by (by apply Hm). by apply Hk.
Qed.

Lemma emits_if (b : bool) m n l1 l2 : emits m l1 → emits n l2 →
  emits (if b then m else n) (if b then l1 else l2).
Proof. by destruct b. Qed.

Lemma emits_word x : 0 ≤ x < 2 ^ 16 → emits (finsh_code_word x) (le_bytes 2 x).
Proof.
  intros Hx. eapply emits_eq; [apply emits_bind; apply emits_byte|]. simpl.
  change 0xff with (Z.ones 8). rewrite Z.land_ones, Z.shiftr_div_pow2 by lia.
  unfold u8, wrap. by rewrite Z.mod_mod by lia.
Qed.

Definition dword (x : Z) : list Z := le_bytes 4 (u32 x).

Lemma emits_dword x : emits (finsh_code_dword x) (dword x).
Proof.
  unfold finsh_code_dword, dword. eapply emits_eq; [repeat apply emits_bind; apply emits_byte|].
  simpl. change 0xff with (Z.ones 8). rewrite !Z.land_ones, !Z.shiftr_div_pow2 by lia.
  unfold u8, u32, wrap. rewrite !Z.mod_mod, !Z.div_div by lia. done.
Qed.

(** ** The code of a node *)
Definition size_of (dt : Z) : option size :=
  if dt =? FINSH_DATA_TYPE_BYTE then Some Byte
  else if dt =? FINSH_DATA_TYPE_WORD then Some Word
  else if dt =? FINSH_DATA_TYPE_DWORD then Some Dword
  else None.

Definition typed_code (dt : Z) (op : size → Z) : list Z :=
  match size_of dt with Some sz => [op sz] | None => [] end.

Definition load_code (type : finsh_type) (idtype addr : Z) : list Z :=
  match type, data_type_of type with
  | finsh_type_voidp, _ => []
  | _, Some dt =>
    match size_of dt with
    | Some sz =>
      (if negb (Z.land idtype FINSH_IDTYPE_ADDRESS =? 0) then FINSH_OP_LD_DWORD else op_ld_value sz)
      :: dword addr
    | None => []
    end
  | _, None => []
  end.

Definition store_code (dt : Z) : option (list Z) :=
  sz ← size_of dt; Some [op_st sz; op_ld_stack sz].

Definition step_code (sz : size) (addr : Z) (op : binop) : list Z :=
  (op_ld_value sz :: dword addr) ++ (op_ld sz :: le_bytes (nbytes sz) 1) ++
  [op_bin op sz; op_st sz].

Definition pre_code (dt addr : Z) (op : binop) : list Z :=
  match size_of dt with
  | Some sz => step_code sz addr op ++ [FINSH_OP_LD_VALUE_DWORD_STACK]
  | None => []
  end.
Definition post_code (dt addr : Z) (op : binop) : list Z :=
  match size_of dt with
  | Some sz => (FINSH_OP_LD_DWORD :: dword addr) ++ step_code sz addr op ++ [FINSH_OP_POP]
  | None => []
  end.

Lemma u8_op_bin op sz : u8 (op_bin op sz) = op_bin op sz.
Proof. by destruct op, sz. Qed.
Lemma u8_op_ld sz : u8 (op_ld sz) = op_ld sz.
Proof. by destruct sz. Qed.
Lemma u8_op_ld_value sz : u8 (op_ld_value sz) = op_ld_value sz.
Proof. by destruct sz. Qed.

Lemma emits_typed dt b w d op : b = op Byte → w = op Word → d = op Dword →
  (∀ sz, u8 (op sz) = op sz) → emits (code_typed dt b w d) (typed_code dt op).
Proof.
  intros -> -> -> Ho. unfold code_typed, typed_code, size_of.
  repeat destruct (_ =? _); try apply emits_ret;
    (eapply emits_eq; [apply emits_byte|by rewrite Ho]).
Qed.

Lemma emits_load type it addr : emits (code_load type it addr) (load_code type it addr).
Proof.
  assert (∀ sz, emits
    (finsh_code_byte
      (if negb (Z.land it FINSH_IDTYPE_ADDRESS =? 0) then FINSH_OP_LD_DWORD else op_ld_value sz) ;;;
     finsh_code_dword addr)
    ((if negb (Z.land it FINSH_IDTYPE_ADDRESS =? 0) then FINSH_OP_LD_DWORD else op_ld_value sz)
     :: dword addr)) as Hl.
  { intros sz. eapply emits_eq; [apply emits_bind; [apply emits_byte|apply emits_dword]|].
    simpl. f_equal. destruct (negb _); [done|by rewrite u8_op_ld_value]. }
  destruct type; try apply emits_ret; (apply (Hl Byte) || apply (Hl Word) || apply (Hl Dword)).
Qed.

Lemma emits_store dt l : store_code dt = Some l → emits (code_store dt) l.
Proof.
  unfold store_code, code_store, size_of.
  repeat destruct (_ =? _); intros [= <-]; (eapply emits_eq; [apply emits_bind; apply emits_byte|done]).
Qed.

(** Write the bytes of a sequence one after the other. *)
Ltac emit_all := lazymatch goal with
  | |- emits (finsh_code_byte _) _ => apply emits_byte
  | |- emits (finsh_code_word _) _ => apply emits_word; lia
  | |- emits (finsh_code_dword _) _ => apply emits_dword
  | |- emits (bind _ _) _ => apply emits_bind; emit_all
  end.

Lemma emits_step_byte addr op :
  emits (code_step_byte addr (op_bin op Byte)) (step_code Byte addr op).
Proof. unfold code_step_byte. eapply emits_eq; [emit_all|]. by rewrite u8_op_bin. Qed.
Lemma emits_step_word addr op :
  emits (code_step_word addr (op_bin op Word)) (step_code Word addr op).
Proof. unfold code_step_word. eapply emits_eq; [emit_all|]. by rewrite u8_op_bin. Qed.
Lemma emits_step_dword addr op :
  emits (code_step_dword addr (op_bin op Dword)) (step_code Dword addr op).
Proof. unfold code_step_dword. eapply emits_eq; [emit_all|]. by rewrite u8_op_bin. Qed.

Lemma emits_pre dt addr op :
  emits (code_pre dt addr (op_bin op Byte) (op_bin op Word) (op_bin op Dword))
    (pre_code dt addr op).
Proof.
  unfold code_pre, pre_code, size_of. repeat destruct (_ =? _); try apply emits_ret.
  all: apply emits_bind; [|apply emits_byte].
  - apply emits_step_byte.
  - apply emits_step_word.
  - apply emits_step_dword.
Qed.

Lemma emits_post dt addr op :
  emits (code_post dt addr (op_bin op Byte) (op_bin op Word) (op_bin op Dword))
    (post_code dt addr op).
Proof.
  unfold code_post, post_code, size_of. repeat destruct (_ =? _); try apply emits_ret.
  all: eapply emits_eq; [apply emits_bind; [apply emits_byte|]; apply emits_bind;
    [apply emits_dword|]; apply emits_bind; [|apply emits_byte]|].
  1: apply emits_step_byte.
  2: apply emits_step_word.
  3: apply emits_step_dword.
  all: done.
Qed.

Definition id_code (n : finsh_node) : option (list Z) :=
  if negb (Z.land (idtype n) FINSH_IDTYPE_SYSCALL =? 0) then
    match node_id n with
    | IdSyscall c => Some (FINSH_OP_LD_DWORD :: dword (syscall_func c))
    | _ => None
    end
  else if negb (Z.land (idtype n) FINSH_IDTYPE_SYSVAR =? 0) then
    match node_id n with
    | IdSysvar v => Some (load_code (sysvar_type v) (idtype n) (sysvar_var v))
    | _ => Some []
    end
  else
    match node_id n with
    | IdVar i => v ← vars !! i; Some (load_code (var_type v) (idtype n) (var_value_addr i))
    | _ => Some []
    end.

Lemma emits_id n l : id_code n = Some l → emits (compile_id n) l.
Proof.
  unfold id_code, compile_id. destruct (negb _); [|destruct (negb _)].
  - destruct (node_id n); intros [= <-].
    eapply emits_eq; [apply emits_bind; [apply emits_byte|apply emits_dword]|done].
  - destruct (node_id n); intros [= <-]; (apply emits_ret || apply emits_load).
  - destruct (node_id n) as [|i|v|c]; try (intros [= <-]; apply emits_ret).
    intros (v & Hv & [= <-])%bind_Some. eapply emits_read; [|apply emits_load].
    intros s Hs _. unfold get_var. rewrite bind_gets, Hs, Hv. done.
Qed.

(** The number of trees next to each other. *)
Fixpoint siblings (t : ast) : nat :=
  match t with Leaf => 0 | Node _ _ _ sib => S (siblings sib) end.

(** The code of a node; [None] where the compiler reports an error. *)
Definition node_code (n : finsh_node) (ch : ast) : option (list Z) :=
  let dt := data_type n in
  let step (code : Z → Z → binop → list Z) (op : binop) :=
    match ch with
    | Node _ c _ _ =>
      if bool_decide (node_type_of c = FINSH_NODE_ID)
      then code dt (id_value_addr (node_id c)) op else []
    | Leaf => []
    end in
  match node_type_of n with
  | FINSH_NODE_ID => id_code n
  | FINSH_NODE_VALUE_CHAR => Some [FINSH_OP_LD_BYTE; u8 (node_value n)]
  | FINSH_NODE_VALUE_INT | FINSH_NODE_VALUE_LONG
  | FINSH_NODE_VALUE_NULL | FINSH_NODE_VALUE_STRING =>
    Some (FINSH_OP_LD_DWORD :: dword (node_value n))
  | FINSH_NODE_SYS_ADD => Some (typed_code dt (op_bin BAdd))
  | FINSH_NODE_SYS_SUB => Some (typed_code dt (op_bin BSub))
  | FINSH_NODE_SYS_MUL => Some (typed_code dt (op_bin BMul))
  | FINSH_NODE_SYS_DIV => Some (typed_code dt (op_bin BDiv))
  | FINSH_NODE_SYS_MOD => Some (typed_code dt (op_bin BMod))
  | FINSH_NODE_SYS_AND => Some (typed_code dt (op_bin BAnd))
  | FINSH_NODE_SYS_OR => Some (typed_code dt (op_bin BOr))
  | FINSH_NODE_SYS_XOR => Some (typed_code dt (op_bin BXor))
  | FINSH_NODE_SYS_BITWISE => Some (typed_code dt op_not)
  | FINSH_NODE_SYS_SHL => Some (typed_code dt (op_bin BShl))
  | FINSH_NODE_SYS_SHR => Some (typed_code dt (op_bin BShr))
  | FINSH_NODE_SYS_FUNC =>
    match ch with
    | Leaf => Some []
    | Node _ _ _ args => Some [FINSH_OP_SYSCALL; u8 (Z.of_nat (siblings args))]
    end
  | FINSH_NODE_SYS_ASSIGN =>
    match ch with
    | Leaf => None
    | Node _ c _ _ =>
      match node_type_of c with
      | FINSH_NODE_ID => store_code (data_type c)
      | FINSH_NODE_SYS_GETVALUE => store_code (Z.land (data_type c) 0x0F)
      | _ => Some []
      end
    end
  | FINSH_NODE_SYS_PREINC => Some (step pre_code BAdd)
  | FINSH_NODE_SYS_PREDEC => Some (step pre_code BSub)
  | FINSH_NODE_SYS_INC => Some (step post_code BAdd)
  | FINSH_NODE_SYS_DEC => Some (step post_code BSub)
  | FINSH_NODE_SYS_NULL => Some (dword 0)
  | FINSH_NODE_SYS_GETVALUE =>
    if negb (Z.land (idtype n) FINSH_IDTYPE_ADDRESS =? 0) then Some []
    else Some (typed_code dt op_ld_stack)
  | FINSH_NODE_SYS_GETADDR => Some []
  | FINSH_NODE_UNKNOWN | FINSH_NODE_SYS_CAST => None
  end.

Lemma get_child_run n ch s : global_node_table s = tbl → rep tbl (child n) ch →
  get_child n s = Ok match ch with Leaf => None | Node _ c _ _ => Some c end s.
Proof.
  intros Ht Hr. unfold get_child. destruct ch as [|i c cc cs]; simpl in Hr; [by rewrite Hr|].
  destruct Hr as (-> & Hi & _). erewrite bind_ok by (apply get_node_run; by rewrite Ht). done.
Qed.

Lemma count_siblings_run t : ∀ fuel p s,
  global_node_table s = tbl → rep tbl p t → (height t ≤ fuel)%nat →
  count_siblings fuel p s = Ok (Z.of_nat (siblings t)) s.
Proof.
  induction t as [|i n ch _ sib IH]; intros fuel p s Ht; simpl.
  { intros ->. by destruct fuel. }
  intros (-> & Hi & _ & Hs) Hh. destruct fuel as [|fuel]; [lia|]. simpl.
  erewrite bind_ok by (apply get_node_run; by rewrite Ht).
  erewrite bind_ok by (apply IH; [done|done|lia]). unfold ret. f_equal. lia.
Qed.

Lemma emits_compile_step n ch code l :
  rep tbl (child n) ch →
  match ch with
  | Node _ c _ _ =>
    if bool_decide (node_type_of c = FINSH_NODE_ID)
    then emits (code (data_type n) (id_value_addr (node_id c))) l else l = []
  | Leaf => l = []
  end → emits (compile_step n code) l.
Proof.
  intros Hr Hc. unfold compile_step. eapply emits_read.
  { intros s _ Ht. by eapply get_child_run. }
  destruct ch as [|i c cc cs]; [subst l; apply emits_ret|].
  destruct (bool_decide _); [done|]. subst l. apply emits_ret.
Qed.

Lemma emits_assign n ch l : rep tbl (child n) ch → node_type_of n = FINSH_NODE_SYS_ASSIGN →
  node_code n ch = Some l → emits (compile_assign n) l.
Proof.
  intros Hr Hn. unfold node_code. rewrite Hn. unfold compile_assign. intros Hl.
  eapply emits_read; [intros s _ Ht; by eapply get_child_run|].
  destruct ch as [|i c cc cs]; [done|].
  destruct (node_type_of c); try (injection Hl as <-; apply emits_ret); by apply emits_store.
Qed.

Lemma emits_func n ch l : rep tbl (child n) ch → (height ch ≤ FINSH_NODE_MAX)%nat →
  node_type_of n = FINSH_NODE_SYS_FUNC → node_code n ch = Some l → emits (compile_node n) l.
Proof.
  intros Hr Hh Hn. unfold node_code, compile_node. rewrite Hn. intros Hl.
  eapply emits_read; [intros s _ Ht; by eapply get_child_run|].
  destruct ch as [|i c cc cs]; injection Hl as <-; [apply emits_ret|].
  simpl in Hr, Hh. destruct Hr as (_ & _ & _ & Hs).
  eapply emits_read; [intros s _ Ht; eapply (count_siblings_run cs); [done|done|lia]|].
  eapply emits_eq; [apply emits_bind; apply emits_byte|done].
Qed.

Lemma emits_node n ch l : rep tbl (child n) ch → (height ch ≤ FINSH_NODE_MAX)%nat →
  node_code n ch = Some l → emits (compile_node n) l.
Proof.
  intros Hr Hh. destruct (decide (node_type_of n = FINSH_NODE_SYS_FUNC)); [by apply emits_func|].
  destruct (decide (node_type_of n = FINSH_NODE_SYS_ASSIGN)) as [Ha|].
  { unfold compile_node. rewrite Ha. by apply emits_assign. }
  unfold node_code, compile_node.
  destruct (node_type_of n); try done; try (intros [= <-]; apply emits_typed;
    (done || (intros []; reflexivity) || (intros; apply u8_op_bin))).
  all: try (intros [= <-]; apply emits_ret).
  all: try lazymatch goal with |- Some (FINSH_OP_LD_DWORD :: _) = _ → _ =>
    intros [= <-]; eapply emits_eq; [apply emits_bind; [apply emits_byte|apply emits_dword]|done] end.
  - apply emits_id.
  - intros [= <-]. eapply emits_eq; [apply emits_bind; apply emits_byte|]. simpl.
    unfold char_value, u8, wrap. by rewrite Z.mod_mod.
  - intros [= <-]. eapply emits_compile_step; [done|]. destruct ch; [done|].
    destruct (bool_decide _); [apply (emits_pre _ _ BAdd)|done].
  - intros [= <-]. eapply emits_compile_step; [done|]. destruct ch; [done|].
    destruct (bool_decide _); [apply (emits_pre _ _ BSub)|done].
  - intros [= <-]. eapply emits_compile_step; [done|]. destruct ch; [done|].
    destruct (bool_decide _); [apply (emits_post _ _ BAdd)|done].
  - intros [= <-]. eapply emits_compile_step; [done|]. destruct ch; [done|].
    destruct (bool_decide _); [apply (emits_post _ _ BSub)|done].
  - destruct (negb _); intros [= <-]; [apply emits_ret|apply emits_typed; [done..|by intros []]].
  - intros [= <-]. apply emits_dword.
Qed.

(** ** The code of a tree *)
Fixpoint code (t : ast) : option (list Z) :=
  match t with
  | Leaf => Some []
  | Node _ n ch sib =>
    l1 ← code ch; l2 ← node_code n ch; l3 ← code sib; Some (l1 ++ l2 ++ l3)
  end.

(** The second pass writes the code of the tree. *)
Lemma finsh_compile_run t : ∀ fuel p l,
  rep tbl p t → (height t ≤ fuel)%nat → (fuel ≤ FINSH_NODE_MAX)%nat → code t = Some l →
  emits (finsh_compile fuel p) l.
Proof.
  induction t as [|i n ch IHc sib IHs]; intros fuel p l; simpl.
  { intros -> _ _ [= <-]. destruct fuel; apply emits_ret. }
  intros (-> & Hi & Hc & Hs) Hh Hf. destruct fuel as [|fuel]; [lia|].
  intros (l1 & E1 & (l2 & E2 & (l3 & E3 & [= <-])%bind_Some)%bind_Some)%bind_Some.
  eapply emits_read; [intros s _ Ht; apply get_node_run; by rewrite Ht|].
  apply emits_bind; [apply IHc; [done|lia|lia|done]|].
  apply emits_bind; [eapply emits_node; [done|lia|done]|].
  apply IHs; [done|lia|lia|done].
Qed.
End code.

(** ** Statements *)
Section statements.
Context `{FinshEnv} (vars : list finsh_var).

(** Between two statements the value is popped. *)
Fixpoint statements_code (t : ast) : option (list Z) :=
  match t with
  | Leaf => Some []
  | Node _ n ch sib =>
    l1 ← code vars ch; l2 ← node_code vars n ch;
    match sib with
    | Leaf => Some (l1 ++ l2)
    | _ => r ← statements_code sib; Some (l1 ++ l2 ++ FINSH_OP_POP :: r)
    end
  end.

Lemma emit_table l tbl s :
  emit l (set_global_node_table tbl s) = set_global_node_table tbl (emit l s).
Proof. revert s. induction l as [|x l IH]; intros s; simpl; [done|]. by rewrite <- IH. Qed.

Lemma finsh_compile_alone t i n ch sib l1 l2 s :
  t = Node i n ch sib → global_variable s = vars → NoDup (indices t) →
  rep (global_node_table s) (Some i) t → (height t ≤ FINSH_NODE_MAX)%nat →
  code vars ch = Some l1 → node_code vars n ch = Some l2 → room (length (l1 ++ l2)) s →
  let s' := set_global_node_table (<[i := set_sibling None n]> (global_node_table s)) s in
  finsh_compile FINSH_NODE_MAX (Some i) s' = Ok tt (emit (l1 ++ l2) s').
Proof.
  intros -> Hv Hn (_ & Hi & Hc & Hs) Hh E1 E2 Hr s'. simpl in Hh.
  apply NoDup_cons in Hn as [[Hic His]%not_elem_of_app _].
  apply (finsh_compile_run vars (global_node_table s') (Node i (set_sibling None n) ch Leaf));
    [..|done|done|done].
  - apply rep_tree_node; [by eapply lookup_lt_Some|done|apply not_elem_of_nil|done|done].
  - simpl. lia.
  - done.
  - cbn [code]. rewrite E1. cbn [mbind option_bind].
    change (node_code vars (set_sibling None n) ch) with (node_code vars n ch). rewrite E2.
    simpl. by rewrite app_nil_r.
Qed.

Lemma compile_statements_run t : ∀ fuel p l s,
  global_variable s = vars → NoDup (indices t) → rep (global_node_table s) p t →
  (height t ≤ fuel)%nat → (height t ≤ FINSH_NODE_MAX)%nat →
  statements_code t = Some l → room (length l) s →
  ∃ tbl, compile_statements fuel p s = Ok tt (set_global_node_table tbl (emit l s)).
Proof.
  induction t as [|i n ch _ sib IH]; intros fuel p l s Hv Hn Hr Hf Hh.
  { simpl in Hr. subst p. intros [= <-] _. exists (global_node_table s).
    destruct fuel; by destruct s. }
  cbn [statements_code]. intros (l1 & E1 & (l2 & E2 & E3)%bind_Some)%bind_Some Hroom.
  pose proof Hr as (-> & Hi & Hc & Hs). destruct fuel as [|fuel]; simpl in Hf; [lia|].
  pose proof Hn as [[Hic His]%not_elem_of_app (Hnc & Hd & Hns)%NoDup_app]%NoDup_cons.
  cbn [compile_statements]. erewrite bind_ok by (by apply get_node_run).
  erewrite bind_ok by (by apply upd_node_run).
  set (s1 := set_global_node_table _ s).
  assert (room (length (l1 ++ l2)) s) as Hr12.
  { unfold room in *. rewrite length_app. destruct sib; [simplify_eq/=; by rewrite length_app in Hroom|].
    apply bind_Some in E3 as (r & _ & [= <-]). rewrite !length_app in Hroom. simpl in Hroom. lia. }
  erewrite bind_ok by (by eapply finsh_compile_alone).
  destruct sib as [|i' n' ch' sib'].
  - simpl in Hs. rewrite Hs. injection E3 as <-. eexists. unfold ret. f_equal.
    by rewrite emit_table.
  - pose proof Hs as (Hp & _). rewrite Hp. apply bind_Some in E3 as (r & E3 & [= <-]).
    rewrite app_assoc, length_app in Hroom. simpl in Hroom.
    erewrite bind_ok.
    2: { apply (emits_byte vars (global_node_table s1)); [by rewrite emit_frame|by rewrite emit_frame|].
         apply emit_room. unfold room in *. simpl. lia. }
    rewrite <- emit_app. change (u8 FINSH_OP_POP) with FINSH_OP_POP.
    edestruct (IH fuel (Some i') r (emit ((l1 ++ l2) ++ [FINSH_OP_POP]) s1)) as [tbl' E4].
    + by rewrite emit_frame.
    + done.
    + rewrite emit_frame. cbn [set_finsh_compile_pc set_text_segment global_node_table].
      rewrite <- Hp. by apply rep_insert.
    + simpl in *. lia.
    + simpl in *. lia.
    + done.
    + apply emit_room. unfold room in *. rewrite length_app. simpl. lia.
    + exists tbl'. subst s1. rewrite E4, <- emit_app, emit_table. f_equal.
      by rewrite <- !app_assoc.
Qed.

(** The text segment after a compilation. *)
Definition text_of (l : list Z) : list Z :=
  l ++ replicate (Z.to_nat FINSH_TEXT_MAX - length l) 0.

(** The compiler on a tree of which every symbol has a type. *)
Lemma finsh_compiler_run_run t p l s :
  global_variable s = vars → known vars t → NoDup (indices t) →
  rep (global_node_table s) p t → (length (global_node_table s) ≤ FINSH_NODE_MAX)%nat →
  (0 < length (finsh_vm_stack s))%nat →
  statements_code (annotate vars FINSH_NODE_VALUE t) = Some l →
  Z.of_nat (length l) ≤ FINSH_TEXT_MAX →
  ∃ tbl, finsh_compiler_run p s =
    Ok tt (set_global_node_table tbl (set_finsh_compile_pc (Z.of_nat (length l))
      (set_text_segment (text_of l) (set_finsh_vm_stack (<[0%nat := 0]> (finsh_vm_stack s)) s)))).
Proof.
  intros Hv Hk Hn Hr Hlen Hstk Hc Hl. unfold finsh_compiler_run.
  pose proof (rep_height _ _ _ Hn Hr) as Hh.
  destruct (finsh_type_check_run vars t FINSH_NODE_MAX p FINSH_NODE_VALUE s) as (tbl & E & R & L & _);
    try done; [lia|].
  rewrite (bind_ok _ _ _ _ _ E), bind_modify.
  erewrite bind_ok by (apply (put_slot_run 0 0); done). rewrite bind_modify.
  assert (NoDup (indices (annotate vars FINSH_NODE_VALUE t))) as Hn' by (by rewrite annotate_indices).
  pose proof (rep_height _ _ _ Hn' R) as Hh'.
  set (s1 := set_finsh_compile_pc 0 _).
  destruct (compile_statements_run (annotate vars FINSH_NODE_VALUE t) FINSH_NODE_MAX p l s1)
    as [tbl' E']; try done; try lia.
  exists tbl'. rewrite E'. f_equal. rewrite emit_frame, emit_pc.
  rewrite (emit_text l [] (replicate (Z.to_nat FINSH_TEXT_MAX) 0)); [|done|done|].
  - by rewrite drop_replicate.
  - rewrite length_replicate. lia.
Qed.
End statements.
