(* ===== verification/FinshExpr.v ===== *)
(** * Expressions of the shell: the compiler is correct

    The values of expressions are defined on trees, by recursion and without
    a stack; the code that the compiler writes computes them. *)

From S2P Require Import Prelude FinshDef FinshHeap FinshNode FinshVm FinshCompiler FinshVmSpec.
From S2P Require Import FinshTree.

(** ** Expressions *)
Inductive lit : Type := LInt | LLong | LString | LNull.

Inductive expr : Type :=
  | EChar (c : Z)
  | ELit (k : lit) (x : Z)
  | EId (x : finsh_id)
  | EBin (op : binop) (a b : expr)
  | ENot (a : expr)
  | ECall (f : finsh_syscall) (args : exprs)
  | EAssign (x : finsh_id) (a : expr)
  | EStore (p a : expr)   (* *p = a *)
  | EPre (inc : bool) (k : nat)   (* ++x, --x of a variable *)
  | EPost (inc : bool) (k : nat)   (* x++, x-- *)
  | ELoad (p : expr)   (* *p *)
  | EAddr (x : finsh_id)   (* &x *)
with exprs : Type :=
  | ENil
  | ECons (a : expr) (l : exprs).

Scheme expr_ind2 := Induction for expr Sort Prop
  with exprs_ind2 := Induction for exprs Sort Prop.
Combined Scheme expr_exprs_ind from expr_ind2, exprs_ind2.

Fixpoint elength (l : exprs) : nat := match l with ENil => 0 | ECons _ l => S (elength l) end.

Definition step_op (inc : bool) : binop := if inc then BAdd else BSub.

Section exprs.
Context `{FinshEnv} (vars : list finsh_var).

(** ** Types *)
Definition id_type (x : finsh_id) : option finsh_type :=
  match x with
  | IdVar k => v ← vars !! k; Some (var_type v)
  | IdSysvar v => Some (sysvar_type v)
  | _ => None
  end.
Definition id_addr (x : finsh_id) : Z :=
  match x with
  | IdVar k => var_value_addr k
  | IdSysvar v => sysvar_var v
  | _ => 0
  end.
(** The compiler has no code for variables of type [void] and [void *]. *)
Definition type_size (type : finsh_type) : option size :=
  match type with
  | finsh_type_voidp => None
  | _ => dt ← data_type_of type; size_of dt
  end.
Definition id_size (x : finsh_id) : option size := type ← id_type x; type_size type.

(** The size of the data type of an expression, by which the operation above
    it is selected. *)
Fixpoint esize (e : expr) : option size :=
  match e with
  | EChar _ => Some Byte
  | ELit _ _ => Some Dword
  | EId x => id_size x
  | EBin _ a _ => esize a
  | ENot a => esize a
  | ECall _ _ => None
  | EAssign x _ => id_size x
  | EStore p _ => esize p
  | EPre _ k | EPost _ k => id_size (IdVar k)
  | ELoad p => esize p
  | EAddr x => id_size x
  end.
Definition esz (e : expr) : size := default Dword (esize e).

(** The number of low bits of its stack entry that hold the value of an
    expression; what the others hold depends on the past of the stack. *)
Definition width (e : expr) : size :=
  match e with
  | ELit _ _ | ECall _ _ | EAddr _ => Dword
  | _ => esz e
  end.

Definition typed (e : expr) : Prop := is_Some (esize e).
Definition fits (sz : size) (e : expr) : Prop := bits sz ≤ bits (width e).

(** Operands have at least as many bits as the operation reads. *)
Fixpoint wt (e : expr) : Prop :=
  match e with
  | EChar c => 0 ≤ c < 2 ^ 8
  | ELit _ x => 0 ≤ x < 2 ^ 32
  | EId x => is_Some (id_size x)
  | EBin _ a b => wt a ∧ wt b ∧ typed a ∧ fits (esz a) a ∧ fits (esz a) b
  | ENot a => wt a ∧ typed a ∧ fits (esz a) a
  | ECall _ args => wts args ∧ (elength args ≤ 15)%nat
  | EAssign x a => is_Some (id_size x) ∧ wt a ∧ fits (esz (EId x)) a
  | EStore p a => wt p ∧ wt a ∧ typed p ∧ width p = Dword ∧ fits (esz p) a
  | EPre _ k | EPost _ k => is_Some (id_size (IdVar k))
  | ELoad p => wt p ∧ typed p ∧ width p = Dword
  | EAddr x => is_Some (id_size x)
  end
with wts (l : exprs) : Prop :=
  match l with
  | ENil => True
  | ECons a l => wt a ∧ width a = Dword ∧ wts l
  end.

(** ** Values *)
Definition load_at (sz : size) (m : gmap Z Z) (a : Z) : option Z := mem_load (nbytes sz) m a.
Definition store_at (sz : size) (m : gmap Z Z) (a v : Z) : option (gmap Z Z) :=
  mem_store (nbytes sz) m a v.
Definition low (sz : size) (v : Z) : Z := v mod 2 ^ bits sz.

(** The value before, the value after and the memory after a step of a
    variable. *)
Definition eval_step (inc : bool) (x : finsh_id) (m : gmap Z Z) : option (Z * Z * gmap Z Z) :=
  let sz := esz (EId x) in
  v ← load_at sz m (u32 (id_addr x));
  r ← c_binop (step_op inc) (member sz v) 1;
  m' ← store_at sz m (u32 (id_addr x)) r;
  Some (v, low sz r, m').

(** The value of an expression, of [width] bits, and the memory after it. *)
Fixpoint eval (e : expr) (m : gmap Z Z) : option (Z * gmap Z Z) :=
  match e with
  | EChar c => Some (c, m)
  | ELit _ x => Some (x, m)
  | EId x => v ← load_at (esz e) m (u32 (id_addr x)); Some (v, m)
  | EBin op a b =>
    '(x, m) ← eval a m;
    '(y, m) ← eval b m;
    r ← c_binop op (member (esz a) x) (member (esz a) y);
    Some (low (esz a) r, m)
  | ENot a =>
    '(x, m) ← eval a m;
    Some (low (esz a) (Z.lnot (member (esz a) x)), m)
  | ECall f args =>
    '(l, m) ← evals args m;
    '(r, m) ← call_function (u32 (syscall_func f)) (match l with [] => [0] | _ => l end) m;
    Some (u32 r, m)
  | EAssign x a =>
    '(v, m) ← eval a m;
    m ← store_at (esz (EId x)) m (u32 (id_addr x)) v;
    Some (low (esz (EId x)) v, m)
  | EStore p a =>
    '(q, m) ← eval p m;
    '(v, m) ← eval a m;
    m ← store_at (esz p) m q v;
    Some (low (esz p) v, m)
  | EPre inc k =>
    '(_, v, m) ← eval_step inc (IdVar k) m;
    _ ← load_at Dword m (u32 (id_addr (IdVar k)));
    Some (v, m)
  | EPost inc k =>
    '(v, _, m) ← eval_step inc (IdVar k) m;
    Some (v, m)
  | ELoad p =>
    '(q, m) ← eval p m;
    v ← load_at (esz p) m q;
    Some (v, m)
  | EAddr x => Some (u32 (id_addr x), m)
  end
with evals (l : exprs) (m : gmap Z Z) : option (list Z * gmap Z Z) :=
  match l with
  | ENil => Some ([], m)
  | ECons a l =>
    '(v, m) ← eval a m;
    '(vs, m) ← evals l m;
    Some (v :: vs, m)
  end.

(** ** Code *)
Definition addr_code (a : Z) : list Z := FINSH_OP_LD_DWORD :: dword a.
Definition value_code (sz : size) (a : Z) : list Z := op_ld_value sz :: dword a.

Fixpoint ecode (e : expr) : list Z :=
  match e with
  | EChar c => [FINSH_OP_LD_BYTE; u8 c]
  | ELit _ x => addr_code x
  | EId x => value_code (esz e) (id_addr x)
  | EBin op a b => ecode a ++ ecode b ++ [op_bin op (esz a)]
  | ENot a => ecode a ++ [op_not (esz a)]
  | ECall f args =>
    addr_code (syscall_func f) ++ ecodes args ++ [FINSH_OP_SYSCALL; Z.of_nat (elength args)]
  | EAssign x a =>
    addr_code (id_addr x) ++ ecode a ++ [op_st (esz (EId x)); op_ld_stack (esz (EId x))]
  | EStore p a => ecode p ++ ecode a ++ [op_st (esz p); op_ld_stack (esz p)]
  | EPre inc k =>
    let x := IdVar k in
    addr_code (id_addr x) ++ step_code (esz (EId x)) (id_addr x) (step_op inc) ++
    [FINSH_OP_LD_VALUE_DWORD_STACK]
  | EPost inc k =>
    let x := IdVar k in
    value_code (esz (EId x)) (id_addr x) ++ addr_code (id_addr x) ++
    step_code (esz (EId x)) (id_addr x) (step_op inc) ++ [FINSH_OP_POP]
  | ELoad p => ecode p ++ [op_ld_stack (esz p)]
  | EAddr x => addr_code (id_addr x)
  end
with ecodes (l : exprs) : list Z :=
  match l with
  | ENil => []
  | ECons a l => ecode a ++ ecodes l
  end.

(** The stack entries that the code of an expression uses. *)
Fixpoint depth (e : expr) : nat :=
  match e with
  | EChar _ | ELit _ _ | EId _ | EAddr _ => 1
  | EBin _ a b | EStore a b => Nat.max (depth a) (S (depth b))
  | ENot a | ELoad a => depth a
  | ECall _ args => S (depths args)
  | EAssign _ a => S (depth a)
  | EPre _ _ => 3
  | EPost _ _ => 4
  end
with depths (l : exprs) : nat :=
  match l with
  | ENil => 0
  | ECons a l => Nat.max (depth a) (S (depths l))
  end.

(** ** The tree of an expression *)
Definition idtype_of (x : finsh_id) : Z :=
  match x with
  | IdVar _ => FINSH_IDTYPE_VAR
  | IdSysvar _ => FINSH_IDTYPE_SYSVAR
  | IdSyscall _ => FINSH_IDTYPE_SYSCALL
  | IdNone => 0
  end.

Definition lit_type (k : lit) : node_type :=
  match k with
  | LInt => FINSH_NODE_VALUE_INT | LLong => FINSH_NODE_VALUE_LONG
  | LString => FINSH_NODE_VALUE_STRING | LNull => FINSH_NODE_VALUE_NULL
  end.
Definition bin_type (op : binop) : node_type :=
  match op with
  | BAdd => FINSH_NODE_SYS_ADD | BSub => FINSH_NODE_SYS_SUB | BMul => FINSH_NODE_SYS_MUL
  | BDiv => FINSH_NODE_SYS_DIV | BMod => FINSH_NODE_SYS_MOD | BAnd => FINSH_NODE_SYS_AND
  | BOr => FINSH_NODE_SYS_OR | BXor => FINSH_NODE_SYS_XOR | BShl => FINSH_NODE_SYS_SHL
  | BShr => FINSH_NODE_SYS_SHR
  end.
Definition pre_type (inc : bool) : node_type :=
  if inc then FINSH_NODE_SYS_PREINC else FINSH_NODE_SYS_PREDEC.
Definition post_type (inc : bool) : node_type :=
  if inc then FINSH_NODE_SYS_INC else FINSH_NODE_SYS_DEC.

(** An operator node, an identifier node, and a chain that ends. *)
Definition op_node (type : node_type) (n : finsh_node) : Prop :=
  node_type_of n = type ∧ idtype n = 0.
Definition id_tree (x : finsh_id) (t : ast) : Prop :=
  match t with
  | Node _ n Leaf _ =>
    node_type_of n = FINSH_NODE_ID ∧ node_id n = x ∧ idtype n = idtype_of x ∧ data_type n = 0
  | _ => False
  end.
Definition last_tree (t : ast) : Prop := sib_of t = Leaf.

(** [shape e t]: the first tree of [t], without what follows it, is that of
    [e]. *)
Fixpoint shape (e : expr) (t : ast) : Prop :=
  match e, t with
  | EId x, _ => id_tree x t
  | EChar c, Node _ n ch _ =>
    ch = Leaf ∧ op_node FINSH_NODE_VALUE_CHAR n ∧ u8 (node_value n) = c
  | ELit k x, Node _ n ch _ => ch = Leaf ∧ op_node (lit_type k) n ∧ node_value n = x
  | EBin op a b, Node _ n ch _ =>
    op_node (bin_type op) n ∧ shape a ch ∧ shape b (sib_of ch) ∧ last_tree (sib_of ch)
  | ENot a, Node _ n ch _ => op_node FINSH_NODE_SYS_BITWISE n ∧ shape a ch ∧ last_tree ch
  | ECall f args, Node _ n ch _ =>
    op_node FINSH_NODE_SYS_FUNC n ∧ id_tree (IdSyscall f) ch ∧ shapes args (sib_of ch)
  | EAssign x a, Node _ n ch _ =>
    op_node FINSH_NODE_SYS_ASSIGN n ∧ id_tree x ch ∧ shape a (sib_of ch) ∧ last_tree (sib_of ch)
  | EStore p a, Node _ n ch _ =>
    op_node FINSH_NODE_SYS_ASSIGN n ∧
    match ch with
    | Node _ g gch sib =>
      op_node FINSH_NODE_SYS_GETVALUE g ∧ shape p gch ∧ last_tree gch ∧ shape a sib ∧ last_tree sib
    | Leaf => False
    end
  | EPre inc k, Node _ n ch _ => op_node (pre_type inc) n ∧ id_tree (IdVar k) ch ∧ last_tree ch
  | EPost inc k, Node _ n ch _ => op_node (post_type inc) n ∧ id_tree (IdVar k) ch ∧ last_tree ch
  | ELoad p, Node _ n ch _ => op_node FINSH_NODE_SYS_GETVALUE n ∧ shape p ch ∧ last_tree ch
  | EAddr x, Node _ n ch _ => op_node FINSH_NODE_SYS_GETADDR n ∧ id_tree x ch ∧ last_tree ch
  | _, Leaf => False
  end
with shapes (l : exprs) (t : ast) : Prop :=
  match l with
  | ENil => t = Leaf
  | ECons a l => shape a t ∧ shapes l (sib_of t)
  end.
End exprs.

(** ** The compiler's code for the tree of an expression *)
Section compile.
Context `{FinshEnv} (vars : list finsh_var).

(** The annotated first tree of [t] is the node [n] above [ch], with the code
    [l]. *)
Definition head_is (a : Z) (t : ast) (n : finsh_node) (ch : ast) (l : list Z) : Prop :=
  (∃ i, annotate vars a t = Node i n ch (annotate vars FINSH_NODE_VALUE (sib_of t))) ∧
  ∃ l1 l2, code vars ch = Some l1 ∧ node_code vars n ch = Some l2 ∧ l = l1 ++ l2.

Lemma head_intro a i n ch sib n' l1 l2 l :
  typed_as vars (annotate vars (child_is_addr (node_type_of n) a) ch) (mark a n) = n' →
  code vars (annotate vars (child_is_addr (node_type_of n) a) ch) = Some l1 →
  node_code vars n' (annotate vars (child_is_addr (node_type_of n) a) ch) = Some l2 →
  l = l1 ++ l2 →
  head_is a (Node i n ch sib) n' (annotate vars (child_is_addr (node_type_of n) a) ch) l.
Proof. intros <- E1 E2 ->. split; [by exists i|]. by exists l1, l2. Qed.

(** The code of a chain: its head and the rest. *)
Lemma head_code a t n ch l : head_is a t n ch l →
  code vars (annotate vars a t) =
    (r ← code vars (annotate vars FINSH_NODE_VALUE (sib_of t)); Some (l ++ r)).
Proof.
  intros [[i E] (l1 & l2 & E1 & E2 & ->)]. rewrite E. cbn [code]. rewrite E1, E2. simpl.
  destruct (code vars (annotate vars _ _)) as [r|]; [|done].
  cbn [mbind option_bind]. by rewrite <- app_assoc.
Qed.

Lemma head_code_last a t n ch l : head_is a t n ch l → last_tree t →
  code vars (annotate vars a t) = Some l.
Proof.
  intros Hh Hl. rewrite (head_code _ _ _ _ _ Hh), Hl. simpl. by rewrite app_nil_r.
Qed.

(** Two operands, the second of which is the last. *)
Lemma head_code_two a t n ch l n' ch' l' : head_is a t n ch l →
  head_is FINSH_NODE_VALUE (sib_of t) n' ch' l' → last_tree (sib_of t) →
  code vars (annotate vars a t) = Some (l ++ l').
Proof.
  intros Hh Hs Hl. by rewrite (head_code _ _ _ _ _ Hh), (head_code_last _ _ _ _ _ Hs Hl).
Qed.

Lemma mark_value n : mark 0 n = n.
Proof. unfold mark. destruct (_ =? _); [done|]. rewrite Z.lor_0_r. by destruct n. Qed.

Lemma size_of_type type sz : type_size type = Some sz →
  ∃ dt, data_type_of type = Some dt ∧ size_of dt = Some sz ∧ type ≠ finsh_type_voidp.
Proof.
  unfold type_size. intros Hs.
  assert (type ≠ finsh_type_voidp) by (by intros ->).
  destruct type; try done; apply bind_Some in Hs as (dt & E & Hs); eauto.
Qed.

Lemma load_code_is type it addr sz : type_size type = Some sz →
  load_code type it addr =
  if negb (Z.land it FINSH_IDTYPE_ADDRESS =? 0) then addr_code addr else value_code sz addr.
Proof.
  intros (dt & Hd & Hs & Hv)%size_of_type. unfold load_code.
  destruct type; try done; cbn [data_type_of] in Hd |- *; injection Hd as <-; rewrite Hs;
    by destruct (negb _).
Qed.

(** An identifier: its address or its value. *)
Lemma id_head a x t sz : id_tree x t → id_size vars x = Some sz →
  (a = FINSH_NODE_VALUE ∨ a = FINSH_IDTYPE_ADDRESS) →
  ∃ n, head_is a t n Leaf (if negb (a =? 0) then addr_code (id_addr x) else value_code sz (id_addr x))
    ∧ node_type_of n = FINSH_NODE_ID ∧ node_id n = x ∧ size_of (data_type n) = Some sz.
Proof.
  destruct t as [|i n [] sib]; try done. intros (Hn & Hx & Hi & _) Hsz Ha.
  apply bind_Some in Hsz as (type & Htype & Hsz).
  pose proof (size_of_type _ _ Hsz) as (dt & Hdt & Hsize & _).
  assert (leaf_type vars (mark a n) = set_data_type dt (set_idtype (Z.lor (idtype n) a) n)) as Hl.
  { unfold mark. rewrite Hi. destruct x as [|k|v|c]; try done; simpl in Htype; simpl.
    - apply bind_Some in Htype as (v & Hv & [= <-]). unfold leaf_type. simpl. rewrite Hn.
      rewrite Hx, Hv. unfold with_type. rewrite Hdt. by destruct Ha as [-> | ->].
    - injection Htype as <-. unfold leaf_type. simpl. rewrite Hn, Hx. unfold with_type. rewrite Hdt.
      by destruct Ha as [-> | ->]. }
  exists (set_data_type dt (set_idtype (Z.lor (idtype n) a) n)). split; [|done].
  refine (head_intro a i n Leaf sib _ [] _ _ Hl _ _ _); [done| |done].
  unfold node_code. simpl. rewrite Hn. unfold id_code. simpl. rewrite Hi, Hx.
  destruct x as [|k|v|c]; try done; simpl in Htype.
  - apply bind_Some in Htype as (v & Hv & [= <-]). simpl. rewrite Hv. simpl.
    rewrite (load_code_is _ _ _ sz) by done. by destruct Ha as [-> | ->].
  - injection Htype as <-. simpl. rewrite (load_code_is _ _ _ sz) by done.
    by destruct Ha as [-> | ->].
Qed.
(** A node without children that is no identifier. *)
Lemma leaf_head type i n sib dt l : op_node type n →
  leaf_type vars n = set_data_type dt n →
  node_code vars (set_data_type dt n) Leaf = Some l →
  head_is FINSH_NODE_VALUE (Node i n Leaf sib) (set_data_type dt n) Leaf l.
Proof.
  intros [Hn Hi] Hl Hc. refine (head_intro _ i n Leaf sib _ [] l _ _ _ _ _); [|done..].
  simpl. by rewrite mark_value.
Qed.

(** An operator above a first operand whose head is known. *)
Lemma op_head type a i n ch sib nc cch lc l1 l2 : op_node type n →
  child_is_addr type FINSH_NODE_VALUE = a →
  head_is a ch nc cch lc →
  code vars (annotate vars a ch) = Some l1 →
  node_code vars (set_data_type (data_type nc) n) (annotate vars a ch) = Some l2 →
  head_is FINSH_NODE_VALUE (Node i n ch sib) (set_data_type (data_type nc) n)
    (annotate vars a ch) (l1 ++ l2).
Proof.
  intros [Hn Hi] Ha [[ic Hc] _] E1 E2.
  pose proof (head_intro FINSH_NODE_VALUE i n ch sib (set_data_type (data_type nc) n) l1 l2
    (l1 ++ l2)) as Hh. rewrite Hn, Ha in Hh. apply Hh; [|done..].
  by rewrite Hc, mark_value.
Qed.

Lemma size_land dt sz : size_of dt = Some sz → Z.land dt 0x0F = dt.
Proof.
  unfold size_of, FINSH_DATA_TYPE_BYTE, FINSH_DATA_TYPE_WORD, FINSH_DATA_TYPE_DWORD.
  destruct (Z.eqb_spec dt 1) as [->|]; [done|]. destruct (Z.eqb_spec dt 2) as [->|]; [done|].
  by destruct (Z.eqb_spec dt 3) as [->|].
Qed.

Lemma esz_some e sz : esize vars e = Some sz → esz vars e = sz.
Proof. unfold esz. by intros ->. Qed.

Lemma bin_head op i n ch sib na ca la nb cb lb sz : op_node (bin_type op) n →
  head_is FINSH_NODE_VALUE ch na ca la → head_is FINSH_NODE_VALUE (sib_of ch) nb cb lb →
  last_tree (sib_of ch) → size_of (data_type na) = Some sz →
  head_is FINSH_NODE_VALUE (Node i n ch sib) (set_data_type (data_type na) n)
    (annotate vars FINSH_NODE_VALUE ch) (la ++ lb ++ [op_bin op sz]).
Proof.
  intros Hn Ha Hb Hl Hsz. rewrite app_assoc.
  eapply op_head; [done|by destruct op|done|by eapply head_code_two|].
  destruct Hn as [Hn _]. unfold node_code, typed_code. cbn [set_data_type node_type_of data_type].
  rewrite Hn, Hsz. by destruct op.
Qed.

Lemma step_head type (code' : Z → Z → binop → list Z) op a i n ch sib k sz :
  op_node type n → child_is_addr type FINSH_NODE_VALUE = a →
  (∀ n ch, node_type_of n = type → node_code vars n ch = Some
     match ch with
     | Node _ c _ _ =>
       if bool_decide (node_type_of c = FINSH_NODE_ID)
       then code' (data_type n) (id_value_addr (node_id c)) op else []
     | Leaf => []
     end) →
  id_tree (IdVar k) ch → last_tree ch → id_size vars (IdVar k) = Some sz →
  ∃ dt, size_of dt = Some sz ∧
  head_is FINSH_NODE_VALUE (Node i n ch sib) (set_data_type dt n) (annotate vars a ch)
    ((if negb (a =? 0) then addr_code (var_value_addr k) else value_code sz (var_value_addr k)) ++
     code' dt (var_value_addr k) op).
Proof.
  intros Hn Ha Hcode Hid Hl Hsz.
  destruct (id_head a (IdVar k) ch sz Hid Hsz) as (nc & Hh & Hnt & Hnid & Hns).
  { subst a. unfold child_is_addr. destruct type; try (by left); try (by right). }
  exists (data_type nc). split; [done|].
  eapply op_head; [done|done|done|by eapply head_code_last|].
  rewrite Hcode by apply Hn. destruct Hh as [[ic Hc] _]. rewrite Hc.
  rewrite bool_decide_true by done. by rewrite Hnid.
Qed.

(** The head of an assignment: the store behind the address and the value. *)
Lemma assign_head i n ch sib nc cc lc na ca la sz : op_node FINSH_NODE_SYS_ASSIGN n →
  head_is FINSH_IDTYPE_ADDRESS ch nc cc lc →
  (node_type_of nc = FINSH_NODE_ID ∨ node_type_of nc = FINSH_NODE_SYS_GETVALUE) →
  size_of (data_type nc) = Some sz →
  head_is FINSH_NODE_VALUE (sib_of ch) na ca la → last_tree (sib_of ch) →
  head_is FINSH_NODE_VALUE (Node i n ch sib) (set_data_type (data_type nc) n)
    (annotate vars FINSH_IDTYPE_ADDRESS ch) (lc ++ la ++ [op_st sz; op_ld_stack sz]).
Proof.
  intros Hn Hc Hnc Hsz Ha Hl. rewrite app_assoc.
  eapply op_head; [done|done|done|by eapply head_code_two|].
  destruct Hc as [[ic Hc] _]. rewrite Hc. unfold node_code.
  cbn [set_data_type node_type_of]. destruct Hn as [-> _].
  destruct Hnc as [-> | ->]; [|rewrite (size_land _ _ Hsz)]; unfold store_code; by rewrite Hsz.
Qed.

Lemma func_head i n ch sib f args lf la : op_node FINSH_NODE_SYS_FUNC n →
  id_tree (IdSyscall f) ch → lf = addr_code (syscall_func f) →
  code vars (annotate vars FINSH_NODE_VALUE (sib_of ch)) = Some la →
  siblings (annotate vars FINSH_NODE_VALUE (sib_of ch)) = elength args → (elength args ≤ 15)%nat →
  ∃ n' ch', size_of (data_type n') = None ∧
    head_is FINSH_NODE_VALUE (Node i n ch sib) n' ch'
      (lf ++ la ++ [FINSH_OP_SYSCALL; Z.of_nat (elength args)]).
Proof.
  intros Hn Hid -> Ha Hs Hlen. destruct ch as [|ic nc [] cs]; try done.
  destruct Hid as (Hnt & Hnid & Hidt & Hdt).
  assert (head_is FINSH_NODE_VALUE (Node ic nc Leaf cs) nc Leaf (addr_code (syscall_func f))) as Hh.
  { refine (head_intro _ ic nc Leaf cs _ [] _ _ _ _ _ _); [|done| |done].
    - simpl. rewrite mark_value. unfold leaf_type. by rewrite Hnt, Hidt.
    - unfold node_code, id_code. by rewrite Hnt, Hidt, Hnid. }
  exists (set_data_type (data_type nc) n), (annotate vars FINSH_NODE_VALUE (Node ic nc Leaf cs)).
  split; [simpl; by rewrite Hdt|]. rewrite app_assoc.
  eapply op_head; [done|done|done|..].
  - rewrite (head_code _ _ _ _ _ Hh). simpl in Ha. simpl sib_of. by rewrite Ha.
  - simpl. unfold node_code. cbn [set_data_type node_type_of]. destruct Hn as [-> _].
    simpl in Hs. rewrite Hs. unfold u8. by rewrite wrap_small by lia.
Qed.
(** The left side of [*p = a]: the address alone. *)
Lemma deref_head i g gch sib np cp lp sz : op_node FINSH_NODE_SYS_GETVALUE g →
  head_is FINSH_NODE_VALUE gch np cp lp → last_tree gch → size_of (data_type np) = Some sz →
  ∃ n ch, head_is FINSH_IDTYPE_ADDRESS (Node i g gch sib) n ch lp ∧
    node_type_of n = FINSH_NODE_SYS_GETVALUE ∧ size_of (data_type n) = Some sz.
Proof.
  intros [Hg Hi] Hp Hl Hsz.
  exists (set_data_type (data_type np) (mark FINSH_IDTYPE_ADDRESS g)).
  exists (annotate vars FINSH_NODE_VALUE gch). split_and!; [|by unfold mark; rewrite Hi|done].
  pose proof (head_intro FINSH_IDTYPE_ADDRESS i g gch sib
    (set_data_type (data_type np) (mark FINSH_IDTYPE_ADDRESS g)) lp [] lp) as Hh.
  rewrite Hg in Hh.
  change (child_is_addr FINSH_NODE_SYS_GETVALUE FINSH_IDTYPE_ADDRESS) with FINSH_NODE_VALUE in Hh.
  apply Hh.
  - pose proof Hp as [[ip Ep] _]. simpl. by rewrite Ep.
  - by eapply head_code_last.
  - unfold node_code, mark. rewrite Hi. simpl. by rewrite Hg.
  - by rewrite app_nil_r.
Qed.

(** The compiler writes [ecode] for every tree of the expression. *)
Definition compiled (e : expr) : Prop := ∀ t, shape e t → wt vars e → ∃ n ch,
  head_is FINSH_NODE_VALUE t n ch (ecode vars e) ∧ size_of (data_type n) = esize vars e.
Definition compiled_args (l : exprs) : Prop := ∀ t, shapes l t → wts vars l →
  code vars (annotate vars FINSH_NODE_VALUE t) = Some (ecodes vars l) ∧
  siblings (annotate vars FINSH_NODE_VALUE t) = elength l.

Lemma compiled_char c : compiled (EChar c).
Proof.
  intros [|i n ch sib]; [done|]. intros (-> & Hn & <-) Hw. do 2 eexists.
  split; [eapply (leaf_head _ _ _ _ FINSH_DATA_TYPE_BYTE); [exact Hn|..]|done].
  - unfold leaf_type. by rewrite (proj1 Hn).
  - unfold node_code. cbn [set_data_type node_type_of node_value]. rewrite (proj1 Hn).
    simpl. unfold u8, wrap. by rewrite Z.mod_mod.
Qed.

Lemma compiled_lit k x : compiled (ELit k x).
Proof.
  intros [|i n ch sib]; [done|]. intros (-> & Hn & <-) Hw. do 2 eexists.
  split; [eapply (leaf_head _ _ _ _ FINSH_DATA_TYPE_DWORD); [exact Hn|..]|done].
  - unfold leaf_type. rewrite (proj1 Hn). by destruct k.
  - unfold node_code. cbn [set_data_type node_type_of node_value]. rewrite (proj1 Hn). by destruct k.
Qed.

Lemma compiled_id x : compiled (EId x).
Proof.
  intros t Hid [sz Hsz].
  destruct (id_head FINSH_NODE_VALUE x t sz Hid Hsz ltac:(by left)) as (n & Hh & _ & _ & Hs).
  exists n, Leaf. simpl. rewrite Hs, Hsz. split; [|done]. unfold esz. simpl. by rewrite Hsz.
Qed.

Lemma compiled_bin op a b : compiled a → compiled b → compiled (EBin op a b).
Proof.
  intros IHa IHb [|i n ch sib]; [done|]. intros (Hn & Ha & Hb & Hl) (Wa & Wb & [sz Hsz] & _).
  destruct (IHa _ Ha Wa) as (na & ca & Ha' & Hsa). destruct (IHb _ Hb Wb) as (nb & cb & Hb' & _).
  exists (set_data_type (data_type na) n), (annotate vars FINSH_NODE_VALUE ch).
  split; [|exact Hsa]. simpl. rewrite (esz_some _ _ Hsz).
  eapply bin_head; [done..|congruence].
Qed.

Lemma compiled_not a : compiled a → compiled (ENot a).
Proof.
  intros IHa [|i n ch sib]; [done|]. intros (Hn & Ha & Hl) (Wa & [sz Hsz] & _).
  destruct (IHa _ Ha Wa) as (na & ca & Ha' & Hsa).
  exists (set_data_type (data_type na) n), (annotate vars FINSH_NODE_VALUE ch).
  split; [|exact Hsa]. simpl. rewrite (esz_some _ _ Hsz).
  eapply op_head; [done|done|done|by eapply head_code_last|].
  unfold node_code, typed_code. cbn [set_data_type node_type_of data_type].
  by rewrite (proj1 Hn), Hsa, Hsz.
Qed.

Lemma compiled_call f args : compiled_args args → compiled (ECall f args).
Proof.
  intros IH [|i n ch sib]; [done|]. intros (Hn & Hid & Hs) (Wa & Hlen).
  destruct (IH _ Hs Wa) as [Hc Hsib].
  destruct (func_head i n ch sib f args _ _ Hn Hid eq_refl Hc Hsib Hlen) as (n' & ch' & Hsz & Hh).
  by exists n', ch'.
Qed.

Lemma compiled_assign x a : compiled a → compiled (EAssign x a).
Proof.
  intros IHa [|i n ch sib]; [done|]. intros (Hn & Hid & Ha & Hl) ([sz Hsz] & Wa & _).
  destruct (IHa _ Ha Wa) as (na & ca & Ha' & Hsa).
  destruct (id_head FINSH_IDTYPE_ADDRESS x ch sz Hid Hsz ltac:(by right)) as (nx & Hx & Hnt & _ & Hs).
  exists (set_data_type (data_type nx) n), (annotate vars FINSH_IDTYPE_ADDRESS ch).
  split; [|simpl; by rewrite Hs, Hsz]. cbn [ecode].
  rewrite (esz_some (EId x) sz) by done. eapply assign_head; [done|exact Hx|by left|done..].
Qed.

Lemma compiled_store p a : compiled p → compiled a → compiled (EStore p a).
Proof.
  intros IHp IHa [|i n ch sib]; [done|]. destruct ch as [|ig g gch gs]; [by intros [_ []]|].
  intros (Hn & Hg & Hp & Hl & Ha & Hla) (Wp & Wa & [sz Hsz] & _).
  destruct (IHa _ Ha Wa) as (na & ca & Ha' & Hsa). destruct (IHp _ Hp Wp) as (np & cp & Hp' & Hsp).
  destruct (deref_head ig g gch gs np cp _ sz Hg Hp' Hl ltac:(congruence)) as (ng & cg & Hh & Hnt & Hs).
  exists (set_data_type (data_type ng) n), (annotate vars FINSH_IDTYPE_ADDRESS (Node ig g gch gs)).
  split; [|simpl; by rewrite Hs, Hsz]. cbn [ecode].
  rewrite (esz_some _ _ Hsz). eapply assign_head; [done|exact Hh|by right|done..].
Qed.

Lemma compiled_pre inc k : compiled (EPre inc k).
Proof.
  intros [|i n ch sib]; [done|]. intros (Hn & Hid & Hl) [sz Hsz].
  destruct (step_head (pre_type inc) pre_code (step_op inc) FINSH_IDTYPE_ADDRESS i n ch sib k sz)
    as (dt & Hdt & Hh); try done; [by destruct inc|..].
  { intros n' ch' Hn'. unfold node_code. rewrite Hn'. by destruct inc. }
  exists (set_data_type dt n), (annotate vars FINSH_IDTYPE_ADDRESS ch).
  split; [|simpl; by rewrite Hdt, Hsz]. cbn [ecode].
  rewrite (esz_some (EId (IdVar k)) sz) by done. unfold pre_code in Hh. by rewrite Hdt in Hh.
Qed.

Lemma compiled_post inc k : compiled (EPost inc k).
Proof.
  intros [|i n ch sib]; [done|]. intros (Hn & Hid & Hl) [sz Hsz].
  destruct (step_head (post_type inc) post_code (step_op inc) FINSH_NODE_VALUE i n ch sib k sz)
    as (dt & Hdt & Hh); try done; [by destruct inc|..].
  { intros n' ch' Hn'. unfold node_code. rewrite Hn'. by destruct inc. }
  exists (set_data_type dt n), (annotate vars FINSH_NODE_VALUE ch).
  split; [|simpl; by rewrite Hdt, Hsz]. cbn [ecode].
  rewrite (esz_some (EId (IdVar k)) sz) by done. unfold post_code in Hh. by rewrite Hdt in Hh.
Qed.

Lemma compiled_load p : compiled p → compiled (ELoad p).
Proof.
  intros IHp [|i n ch sib]; [done|]. intros (Hn & Hp & Hl) (Wp & [sz Hsz] & _).
  destruct (IHp _ Hp Wp) as (np & cp & Hp' & Hsp).
  exists (set_data_type (data_type np) n), (annotate vars FINSH_NODE_VALUE ch).
  split; [|exact Hsp]. simpl. rewrite (esz_some _ _ Hsz).
  eapply op_head; [done|done|done|by eapply head_code_last|].
  unfold node_code, typed_code. cbn [set_data_type node_type_of data_type idtype].
  by rewrite (proj1 Hn), (proj2 Hn), Hsp, Hsz.
Qed.

Lemma compiled_addr x : compiled (EAddr x).
Proof.
  intros [|i n ch sib]; [done|]. intros (Hn & Hid & Hl) [sz Hsz].
  destruct (id_head FINSH_IDTYPE_ADDRESS x ch sz Hid Hsz ltac:(by right)) as (nx & Hx & Hnt & _ & Hs).
  exists (set_data_type (data_type nx) n), (annotate vars FINSH_IDTYPE_ADDRESS ch).
  split; [|simpl; by rewrite Hs, Hsz]. cbn [ecode]. rewrite <- (app_nil_r (addr_code _)).
  eapply op_head; [done|done|exact Hx|by eapply head_code_last|].
  unfold node_code. cbn [set_data_type node_type_of]. by rewrite (proj1 Hn).
Qed.

Lemma compiled_cons a l : compiled a → compiled_args l → compiled_args (ECons a l).
Proof.
  intros IHa IHl t (Ha & Hl) (Wa & _ & Wl).
  destruct (IHa _ Ha Wa) as (n & ch & Hh & _). destruct (IHl _ Hl Wl) as [Hc Hs].
  rewrite (head_code _ _ _ _ _ Hh), Hc. split; [done|].
  destruct Hh as [[i ->] _]. simpl. by rewrite Hs.
Qed.

#[local] Hint Resolve compiled_char compiled_lit compiled_id compiled_bin compiled_not compiled_call
  compiled_assign compiled_store compiled_pre compiled_post compiled_load compiled_addr
  compiled_cons : core.

Lemma all_compiled : (∀ e, compiled e) ∧ (∀ l, compiled_args l).
Proof. apply expr_exprs_ind; auto. by intros t ->. Qed.
End compile.
