(* ===== verification/FinshEval.v ===== *)
(** * The code of an expression computes its value

    The simulation between the reference evaluation [FinshExpr.eval] and the
    stack machine. *)

From S2P Require Import Prelude FinshDef FinshHeap FinshNode FinshVm FinshCompiler FinshVmSpec.
From S2P Require Import FinshTree FinshExpr.

(** ** Stacks *)
Definition words (stk : list Z) : Prop := Forall (λ w, 0 ≤ w < 2 ^ 32) stk.

(** [stk'] agrees with [stk] below [sp]. *)
Definition above (stk : list Z) (sp : nat) (stk' : list Z) : Prop :=
  length stk' = length stk ∧ words stk' ∧ ∀ j, (j < sp)%nat → stk' !! j = stk !! j.

(** The low bits of the entry at [sp] are [v]. *)
Definition pushed (stk : list Z) (sp : nat) (sz : size) (v : Z) (stk' : list Z) : Prop :=
  above stk sp stk' ∧ ∃ w, stk' !! sp = Some w ∧ low sz w = v.

Lemma above_refl stk sp : words stk → above stk sp stk.
Proof. done. Qed.

Lemma above_trans stk sp stk1 sp1 stk2 : (sp ≤ sp1)%nat →
  above stk sp stk1 → above stk1 sp1 stk2 → above stk sp stk2.
Proof.
  intros Hle (L1 & _ & F1) (L2 & W2 & F2). split_and!; [lia|done|]. intros j Hj.
  by rewrite F2, F1 by lia.
Qed.

Lemma words_lookup stk i w : words stk → stk !! i = Some w → 0 ≤ w < 2 ^ 32.
Proof. intros Hw. by apply (proj1 (Forall_lookup _ _) Hw). Qed.

Lemma above_insert stk sp stk1 w : above stk sp stk1 → 0 ≤ w < 2 ^ 32 →
  above stk sp (<[sp := w]> stk1).
Proof.
  intros (L & W & Fr) Hw. split_and!.
  - by rewrite length_insert.
  - by apply Forall_insert.
  - intros j Hj. rewrite list_lookup_insert_ne by lia. by apply Fr.
Qed.

Lemma pushed_insert stk sp stk1 sz w v : above stk sp stk1 → (sp < length stk1)%nat →
  0 ≤ w < 2 ^ 32 → low sz w = v → pushed stk sp sz v (<[sp := w]> stk1).
Proof.
  intros Ha Hl Hw Hv. split; [by apply above_insert|]. exists w. split; [|done].
  by apply list_lookup_insert_eq.
Qed.

Lemma bits_pos sz : 0 < bits sz ≤ 32.
Proof. destruct sz; simpl; lia. Qed.

(** An instruction writes the low bits of an entry. *)
Lemma pushed_set stk sp stk1 sz w x : above stk sp stk1 → stk1 !! sp = Some w →
  pushed stk sp sz (low sz x) (<[sp := set_low (bits sz) w x]> stk1).
Proof.
  intros Ha Hw. pose proof (bits_pos sz). apply pushed_insert; [done|by eapply lookup_lt_Some|..].
  - apply set_low_word; [done|]. destruct Ha as (_ & W & _). by eapply words_lookup.
  - apply set_low_mod. lia.
Qed.

Lemma above_slot stk sp stk1 j w : above stk sp stk1 → (j < sp)%nat → stk !! j = Some w →
  stk1 !! j = Some w.
Proof. intros (_ & _ & Fr) Hj. by rewrite Fr. Qed.

Lemma low_dword w : 0 ≤ w < 2 ^ 32 → low Dword w = w.
Proof. apply Z.mod_small. Qed.

Lemma pushed_dword stk sp v stk1 : pushed stk sp Dword v stk1 → stk1 !! sp = Some v.
Proof.
  intros [(_ & W & _) (w & Hw & <-)]. rewrite low_dword; [done|]. by eapply words_lookup.
Qed.

(** Reading fewer bits than are valid. *)
Lemma low_low sz sz' w : bits sz ≤ bits sz' → low sz (low sz' w) = low sz w.
Proof.
  intros Hb. pose proof (bits_pos sz). unfold low.
  replace (bits sz') with (bits sz + (bits sz' - bits sz)) by lia. rewrite Z.pow_add_r by lia.
  assert (0 < 2 ^ bits sz) by (apply Z.pow_pos_nonneg; lia).
  assert (0 < 2 ^ (bits sz' - bits sz)) by (apply Z.pow_pos_nonneg; lia).
  rewrite Z.rem_mul_r by lia. rewrite Z.mul_comm, Z.mod_add by lia. apply Z.mod_mod. lia.
Qed.

Lemma member_low sz sz' w : bits sz ≤ bits sz' → member sz (low sz' w) = member sz w.
Proof.
  intros Hb. rewrite <- (member_mod sz w), <- (member_mod sz (low sz' w)).
  by rewrite (low_low sz sz' w Hb : low sz' w mod 2 ^ bits sz = w mod 2 ^ bits sz).
Qed.

(** ** Memory *)
Lemma bits_nbytes sz : bits sz = 8 * Z.of_nat (nbytes sz).
Proof. by destruct sz. Qed.

Lemma mem_store_mod n : ∀ m a v w,
  v mod 2 ^ (8 * Z.of_nat n) = w mod 2 ^ (8 * Z.of_nat n) → mem_store n m a v = mem_store n m a w.
Proof.
  induction n as [|n IH]; intros m a v w E; [done|]. simpl. destruct (m !! a); [simpl|done].
  replace (8 * Z.of_nat (S n)) with (8 + 8 * Z.of_nat n) in E by lia.
  rewrite Z.pow_add_r in E by lia. assert (0 < 2 ^ (8 * Z.of_nat n)) by (apply Z.pow_pos_nonneg; lia).
  rewrite !Z.rem_mul_r in E by lia.
  assert (v mod 2 ^ 8 = w mod 2 ^ 8) as E8.
  { pose proof (Z.mod_pos_bound v (2 ^ 8) ltac:(lia)). pose proof (Z.mod_pos_bound w (2 ^ 8) ltac:(lia)).
    nia. }
  unfold u8, wrap. rewrite E8. apply IH. rewrite !Z.shiftr_div_pow2 by lia. lia.
Qed.

Lemma store_low sz m a v w : low sz v = low sz w → store_at sz m a v = store_at sz m a w.
Proof. intros E. apply mem_store_mod. by rewrite <- bits_nbytes. Qed.

Lemma load_store sz m a v m' : store_at sz m a v = Some m' → load_at sz m' a = Some (low sz v).
Proof. intros E%mem_load_store. rewrite <- bits_nbytes in E. done. Qed.

Lemma load_low sz m a v : bytes_ok m → load_at sz m a = Some v → low sz v = v.
Proof.
  intros Hm E. apply Z.mod_small. rewrite bits_nbytes. by eapply mem_load_range.
Qed.

(** A dword that is loaded begins with the smaller value at its address. *)
Lemma load_prefix sz m a v w : bytes_ok m → load_at sz m a = Some v →
  load_at Dword m a = Some w → low sz w = v.
Proof.
  intros Hm Hv Hw. assert (low sz v = v) as <- by (by eapply load_low). unfold load_at in *.
  assert (∃ k, w = v + 2 ^ bits sz * k) as [k ->].
  { destruct sz; cbn [nbytes mem_load bits] in *; simplify_option_eq.
    - exists (H1 + 2 ^ 8 * (H0 + 2 ^ 8 * (H2 + 2 ^ 8 * 0))). lia.
    - exists (H0 + 2 ^ 8 * (H2 + 2 ^ 8 * 0)). lia.
    - exists 0. lia. }
  unfold low. rewrite Z.mul_comm. pose proof (bits_pos sz).
  rewrite Z.mod_add; [done|]. assert (0 < 2 ^ bits sz) by (apply Z.pow_pos_nonneg; lia). lia.
Qed.

Lemma store_bytes sz m a v m' : bytes_ok m → store_at sz m a v = Some m' → bytes_ok m'.
Proof. apply mem_store_bytes. Qed.

(** ** Simulation *)
Section simulation.
Context `{FinshEnv} (vars : list finsh_var) (s : fstate).
Hypothesis text_length : length (text_segment s) = Z.to_nat FINSH_TEXT_MAX.
(** Functions that commands call leave bytes in memory. *)
Hypothesis calls_ok : ∀ f args m r m', bytes_ok m → call_function f args m = Some (r, m') → bytes_ok m'.

Notation "σ '-->*' σ'" := (rtc vm_round σ σ') (at level 70).

(** The [code] runs from [pc] on and pushes [v]. *)
Definition pushes (code : list Z) (n : nat) (m : gmap Z Z) (sz : size) (v : Z) (m' : gmap Z Z) : Prop :=
  ∀ stk sp pc, code_at (text_segment s) pc code → words stk → (sp + n ≤ length stk)%nat →
  ∃ stk', vm s stk sp pc m -->* vm s stk' (S sp) (pc + length code) m' ∧ pushed stk sp sz v stk'.

Lemma steps_pc stk sp pc m σ stk' sp' pc' pc'' m' :
  σ = vm s stk sp pc m → vm s stk sp pc m -->* vm s stk' sp' pc' m' → pc' = pc'' →
  σ -->* vm s stk' sp' pc'' m'.
Proof. by intros -> ? ->. Qed.

Lemma slot_some (stk : list Z) sp : (sp < length stk)%nat → ∃ w, stk !! sp = Some w.
Proof. intros Hl. by apply lookup_lt_is_Some_2 in Hl as [w Hw]; exists w. Qed.

Lemma pushes_ld sz x m : pushes (op_ld sz :: le_bytes (nbytes sz) x) 1 m sz (low sz x) m.
Proof.
  intros stk sp pc Hc Hw Hl. destruct (slot_some stk sp) as [w Hsp]; [lia|].
  eexists. split; [|by apply pushed_set].
  eapply steps_pc; [done|by apply rtc_once, (round_ld s text_length stk sp pc m sz x w)|].
  simpl. rewrite le_bytes_length. lia.
Qed.

Lemma pushes_addr a m : pushes (addr_code a) 1 m Dword (u32 a) m.
Proof.
  pose proof (pushes_ld Dword (u32 a) m) as Hp.
  rewrite (low_dword (u32 a)) in Hp by (apply wrap_range; lia). exact Hp.
Qed.

Lemma pushes_value sz a m v : bytes_ok m → load_at sz m (u32 a) = Some v →
  pushes (value_code sz a) 1 m sz v m.
Proof.
  intros Hm Hv stk sp pc Hc Hw Hl. destruct (slot_some stk sp) as [w Hsp]; [lia|].
  rewrite <- (load_low sz m (u32 a) v Hm Hv). eexists. split; [|by apply pushed_set].
  eapply steps_pc; [done|apply rtc_once|].
  - apply (round_ld_value s text_length stk sp pc m sz (u32 a) v w); [done|done|].
    rewrite Z.mod_small by (apply wrap_range; lia). done.
  - simpl. lia.
Qed.

(** Two operands. *)
Lemma pushes_two c1 n1 m sz1 v1 m1 c2 n2 sz2 v2 m2 : pushes c1 n1 m sz1 v1 m1 →
  pushes c2 n2 m1 sz2 v2 m2 → ∀ stk sp pc rest,
  code_at (text_segment s) pc (c1 ++ c2 ++ rest) → words stk →
  (sp + Nat.max n1 (S n2) ≤ length stk)%nat →
  ∃ stk' w1 w2, vm s stk sp pc m -->* vm s stk' (S (S sp)) (pc + length c1 + length c2) m2 ∧
    above stk sp stk' ∧ stk' !! sp = Some w1 ∧ low sz1 w1 = v1 ∧
    stk' !! S sp = Some w2 ∧ low sz2 w2 = v2 ∧
    code_at (text_segment s) (pc + length c1 + length c2) rest.
Proof.
  intros H1 H2 stk sp pc rest Hc Hw Hl.
  destruct (H1 stk sp pc) as (stk1 & R1 & A1 & w1 & E1 & V1); [by eapply code_at_app_l|done|lia|].
  apply code_at_app_r in Hc. pose proof A1 as (L1 & W1 & _).
  destruct (H2 stk1 (S sp) (pc + length c1)%nat) as (stk2 & R2 & A2 & w2 & E2 & V2);
    [by eapply code_at_app_l|done|lia|].
  exists stk2, w1, w2. split_and!; try done.
  - by etrans.
  - eapply above_trans; [|done..]. lia.
  - eapply above_slot; [done|lia|done].
  - by eapply code_at_app_r.
Qed.

(** One operand. *)
Lemma pushes_one c1 n1 m sz1 v1 m1 : pushes c1 n1 m sz1 v1 m1 → ∀ stk sp pc rest,
  code_at (text_segment s) pc (c1 ++ rest) → words stk → (sp + n1 ≤ length stk)%nat →
  ∃ stk' w, vm s stk sp pc m -->* vm s stk' (S sp) (pc + length c1) m1 ∧
    above stk sp stk' ∧ stk' !! sp = Some w ∧ low sz1 w = v1 ∧
    code_at (text_segment s) (pc + length c1) rest.
Proof.
  intros H1 stk sp pc rest Hc Hw Hl.
  destruct (H1 stk sp pc) as (stk1 & R1 & A1 & w1 & E1 & V1); [by eapply code_at_app_l|done|lia|].
  exists stk1, w1. split_and!; try done. by eapply code_at_app_r.
Qed.
Lemma pushes_bin op sz ca na m sza va m1 cb nb szb vb m2 r :
  pushes ca na m sza va m1 → pushes cb nb m1 szb vb m2 →
  bits sz ≤ bits sza → bits sz ≤ bits szb →
  c_binop op (member sz va) (member sz vb) = Some r →
  pushes (ca ++ cb ++ [op_bin op sz]) (Nat.max na (S nb)) m sz (low sz r) m2.
Proof.
  intros Ha Hb Wa Wb Hr stk sp pc Hc Hw Hl.
  destruct (pushes_two _ _ _ _ _ _ _ _ _ _ _ Ha Hb stk sp pc _ Hc Hw Hl)
    as (stk1 & w1 & w2 & R & A & E1 & <- & E2 & <- & C).
  rewrite !member_low in Hr by done. eexists. split; [|by apply pushed_set].
  eapply steps_pc; [done|eapply rtc_r; [exact R|by eapply round_bin]|].
  rewrite !length_app. simpl. lia.
Qed.

Lemma pushes_not sz ca na m sza va m1 : pushes ca na m sza va m1 → bits sz ≤ bits sza →
  pushes (ca ++ [op_not sz]) na m sz (low sz (Z.lnot (member sz va))) m1.
Proof.
  intros Ha Wa stk sp pc Hc Hw Hl.
  destruct (pushes_one _ _ _ _ _ _ Ha stk sp pc _ Hc Hw Hl) as (stk1 & w & R & A & E & <- & C).
  rewrite member_low by done. eexists. split; [|by apply pushed_set].
  eapply steps_pc; [done|eapply rtc_r; [exact R|by eapply round_not]|].
  rewrite !length_app. simpl. lia.
Qed.

Lemma pushes_load sz ca na m q m1 v : pushes ca na m Dword q m1 → bytes_ok m1 →
  load_at sz m1 q = Some v → pushes (ca ++ [op_ld_stack sz]) na m sz v m1.
Proof.
  intros Ha Hm Hv stk sp pc Hc Hw Hl.
  destruct (Ha stk sp pc) as (stk1 & R & A); [by eapply code_at_app_l|done|done|].
  pose proof (pushed_dword _ _ _ _ A) as E. destruct A as [A _].
  rewrite <- (load_low sz m1 q v Hm Hv). eexists. split; [|by apply pushed_set].
  eapply steps_pc; [done|eapply rtc_r; [exact R|eapply round_ld_stack]|];
    [done|by eapply code_at_app_r|done|done|]. rewrite !length_app. simpl. lia.
Qed.

(** Store [v] at [q]: the code behind the store runs with [q] on top. *)
Lemma run_store sz cp np m q m1 ca na sza v m2 m3 : pushes cp np m Dword q m1 →
  pushes ca na m1 sza v m2 → bits sz ≤ bits sza → store_at sz m2 q v = Some m3 →
  ∀ stk sp pc rest, code_at (text_segment s) pc (cp ++ ca ++ op_st sz :: rest) → words stk →
  (sp + Nat.max np (S na) ≤ length stk)%nat →
  ∃ stk', vm s stk sp pc m -->* vm s stk' (S sp) (pc + length cp + length ca + 1) m3 ∧
    above stk sp stk' ∧ stk' !! sp = Some q ∧
    code_at (text_segment s) (pc + length cp + length ca + 1) rest.
Proof.
  intros Hp Ha Wa Hst stk sp pc rest Hc Hw Hl.
  destruct (pushes_two _ _ _ _ _ _ _ _ _ _ _ Hp Ha stk sp pc _ Hc Hw Hl)
    as (stk1 & w1 & w2 & R & A & E1 & V1 & E2 & <- & C).
  rewrite low_dword in V1 by (eapply words_lookup; [apply A|done]). subst w1.
  exists stk1. split_and!; [|done|done|].
  - eapply steps_pc; [done|eapply rtc_r; [exact R|]|].
    + eapply (round_st s text_length stk1 sp _ m2 sz q w2); [|done|done|].
      * intros k x Hk. apply C. by destruct k.
      * rewrite <- Hst. apply store_low. symmetry. by apply low_low.
    + simpl. lia.
  - rewrite Nat.add_1_r. by eapply code_at_tail.
Qed.

Lemma pushes_store sz cp np m q m1 ca na sza v m2 m3 : pushes cp np m Dword q m1 →
  pushes ca na m1 sza v m2 → bits sz ≤ bits sza → store_at sz m2 q v = Some m3 →
  pushes (cp ++ ca ++ [op_st sz; op_ld_stack sz]) (Nat.max np (S na)) m sz (low sz v) m3.
Proof.
  intros Hp Ha Wa Hst stk sp pc Hc Hw Hl.
  destruct (run_store _ _ _ _ _ _ _ _ _ _ _ _ Hp Ha Wa Hst stk sp pc _ Hc Hw Hl)
    as (stk1 & R & A & E & C).
  pose proof (load_store _ _ _ _ _ Hst) as Hv.
  rewrite <- (low_low sz sz v) by lia. eexists. split; [|by apply pushed_set].
  eapply steps_pc; [done|eapply rtc_r; [exact R|by eapply round_ld_stack]|].
  rewrite !length_app. simpl. lia.
Qed.

(** Step the variable at [a], whose address is on top of the stack. *)
Lemma run_step sz a op m v r m' : bytes_ok m → load_at sz m (u32 a) = Some v →
  c_binop op (member sz v) 1 = Some r → store_at sz m (u32 a) r = Some m' →
  ∀ stk sp pc rest, code_at (text_segment s) pc (addr_code a ++ step_code sz a op ++ rest) →
  words stk → (sp + 3 ≤ length stk)%nat →
  ∃ stk', vm s stk sp pc m -->*
      vm s stk' (S sp) (pc + length (addr_code a ++ step_code sz a op)) m' ∧
    above stk sp stk' ∧ stk' !! sp = Some (u32 a) ∧
    code_at (text_segment s) (pc + length (addr_code a ++ step_code sz a op)) rest.
Proof.
  intros Hm Hv Hr Hst stk sp pc rest Hc Hw Hl.
  assert (member sz (low sz 1) = 1) as H1 by (by destruct sz).
  pose proof (pushes_bin op sz _ _ _ _ _ _ _ _ _ _ _ r (pushes_value sz a m v Hm Hv)
    (pushes_ld sz 1 m) ltac:(lia) ltac:(lia)) as Hb. rewrite H1 in Hb. specialize (Hb Hr).
  destruct (run_store sz _ _ _ _ _ _ _ _ _ _ m' (pushes_addr a m) Hb ltac:(lia)) with
    (stk := stk) (sp := sp) (pc := pc) (rest := rest) as (stk1 & R & A & E & C).
  - rewrite <- Hst. apply store_low. by apply low_low.
  - unfold step_code, value_code in *. rewrite <- !app_assoc in *. exact Hc.
  - done.
  - simpl. lia.
  - exists stk1. unfold step_code, value_code in *. rewrite !length_app in *. simpl in *.
    replace (pc + _)%nat with (pc + 5 + S (4 + S (length (le_bytes (nbytes sz) 1) + 1)) + 1)%nat by lia.
    split_and!; try done.
Qed.

(** Increments and decrements. *)
Lemma pushes_pre sz a op m v r m' w : bytes_ok m → load_at sz m (u32 a) = Some v →
  c_binop op (member sz v) 1 = Some r → store_at sz m (u32 a) r = Some m' →
  load_at Dword m' (u32 a) = Some w →
  pushes (addr_code a ++ step_code sz a op ++ [FINSH_OP_LD_VALUE_DWORD_STACK]) 3 m sz (low sz r) m'.
Proof.
  intros Hm Hv Hr Hst Hld stk sp pc Hc Hw Hl.
  destruct (run_step _ _ _ _ _ _ _ Hm Hv Hr Hst stk sp pc _ Hc Hw Hl) as (stk1 & R & A & E & C).
  pose proof (store_bytes _ _ _ _ _ Hm Hst) as Hm'.
  eexists. split.
  - eapply steps_pc; [done|eapply rtc_r; [exact R|]|].
    + by eapply (round_ld_stack s text_length stk1 sp _ m' Dword).
    + rewrite (app_assoc (addr_code a)), (length_app (_ ++ _) [_]). cbn [length]. lia.
  - apply pushed_insert; [done|by eapply lookup_lt_Some|..].
    + apply set_low_word; [simpl; lia|]. by eapply words_lookup; [apply A|].
    + rewrite <- (load_prefix sz m' (u32 a) _ w Hm' (load_store _ _ _ _ _ Hst) Hld).
      rewrite <- (low_low sz Dword (set_low _ _ _)) by (destruct sz; simpl; lia).
      unfold low at 2. rewrite set_low_mod by (simpl; lia). apply low_low. destruct sz; simpl; lia.
Qed.

Lemma pushes_post sz a op m v r m' : bytes_ok m → load_at sz m (u32 a) = Some v →
  c_binop op (member sz v) 1 = Some r → store_at sz m (u32 a) r = Some m' →
  pushes (value_code sz a ++ addr_code a ++ step_code sz a op ++ [FINSH_OP_POP]) 4 m sz v m'.
Proof.
  intros Hm Hv Hr Hst stk sp pc Hc Hw Hl.
  destruct (pushes_value sz a m v Hm Hv stk sp pc) as (stk1 & R1 & A1 & w & E1 & V1);
    [by eapply code_at_app_l|done|lia|].
  apply code_at_app_r in Hc. pose proof A1 as (L1 & W1 & _).
  destruct (run_step _ _ _ _ _ _ _ Hm Hv Hr Hst stk1 (S sp) _ _ Hc W1 ltac:(lia))
    as (stk2 & R2 & A2 & E2 & C).
  exists stk2. split.
  - eapply steps_pc; [done|eapply rtc_r; [by etrans|by apply round_pop]|].
    rewrite !length_app. simpl. lia.
  - split; [eapply above_trans; [|done..]; lia|]. exists w. split; [|done].
    eapply above_slot; [done|lia|done].
Qed.

(** The arguments of a call. *)
Definition pushes_all (code : list Z) (n : nat) (m : gmap Z Z) (vs : list Z) (m' : gmap Z Z) : Prop :=
  ∀ stk sp pc, code_at (text_segment s) pc code → words stk → (sp + n ≤ length stk)%nat →
  ∃ stk', vm s stk sp pc m -->* vm s stk' (sp + length vs) (pc + length code) m' ∧
    above stk sp stk' ∧ ∀ k x, vs !! k = Some x → stk' !! (sp + k)%nat = Some x.

Lemma pushes_nil m : pushes_all [] 0 m [] m.
Proof.
  intros stk sp pc Hc Hw Hl. exists stk. simpl. rewrite !Nat.add_0_r. by split_and!.
Qed.

Lemma pushes_cons c1 n1 m v m1 c2 n2 vs m2 : pushes c1 n1 m Dword v m1 →
  pushes_all c2 n2 m1 vs m2 → pushes_all (c1 ++ c2) (Nat.max n1 (S n2)) m (v :: vs) m2.
Proof.
  intros H1 H2 stk sp pc Hc Hw Hl.
  destruct (H1 stk sp pc) as (stk1 & R1 & A1); [by eapply code_at_app_l|done|lia|].
  pose proof (pushed_dword _ _ _ _ A1) as E1. destruct A1 as [A1 _]. pose proof A1 as (L1 & W1 & _).
  destruct (H2 stk1 (S sp) (pc + length c1)%nat) as (stk2 & R2 & A2 & E2);
    [by eapply code_at_app_r|done|lia|].
  exists stk2. split_and!.
  - replace (sp + length (v :: vs))%nat with (S sp + length vs)%nat by (simpl; lia).
    rewrite length_app, Nat.add_assoc. by etrans.
  - eapply above_trans; [|done..]. lia.
  - intros [|k] x Hk; simpl in Hk.
    + injection Hk as <-. rewrite Nat.add_0_r. eapply above_slot; [done|lia|done].
    + rewrite Nat.add_succ_r. by apply E2.
Qed.

Lemma pushes_call f ca na m vs m1 r m2 : pushes_all ca na m vs m1 → (length vs ≤ 16)%nat →
  call_function (u32 f) (match vs with [] => [0] | _ => vs end) m1 = Some (r, m2) →
  pushes (addr_code f ++ ca ++ [FINSH_OP_SYSCALL; Z.of_nat (length vs)]) (S na) m Dword (u32 r) m2.
Proof.
  intros Ha Hn Hcall stk sp pc Hc Hw Hl.
  destruct (pushes_addr f m stk sp pc) as (stk1 & R1 & A1); [by eapply code_at_app_l|done|lia|].
  pose proof (pushed_dword _ _ _ _ A1) as E1. destruct A1 as [A1 _]. pose proof A1 as (L1 & W1 & _).
  apply code_at_app_r in Hc.
  destruct (Ha stk1 (S sp) (pc + length (addr_code f))%nat) as (stk2 & R2 & A2 & E2);
    [by eapply code_at_app_l|done|lia|].
  eexists. split.
  - eapply steps_pc; [done|eapply rtc_r; [by etrans|]|].
    + eapply round_call; [done|by eapply code_at_app_r|done| |done|done|done].
      by eapply above_slot; [done|lia|].
    + rewrite !length_app. simpl. lia.
  - pose proof (wrap_range 32 r ltac:(lia)) as Hr.
    apply pushed_insert; [eapply above_trans; [|done..]; lia| |done|by apply low_dword].
    destruct A2 as (L2 & _). rewrite L2, L1. lia.
Qed.

(** ** All expressions *)
Definition correct (e : expr) : Prop := ∀ m v m', wt vars e → bytes_ok m →
  eval vars e m = Some (v, m') →
  pushes (ecode vars e) (depth e) m (width vars e) v m' ∧ bytes_ok m'.
Definition correct_args (l : exprs) : Prop := ∀ m vs m', wts vars l → bytes_ok m →
  evals vars l m = Some (vs, m') →
  pushes_all (ecodes vars l) (depths l) m vs m' ∧ bytes_ok m' ∧ length vs = elength l.

Ltac eval_inv := repeat match goal with
  | Hb : mbind _ _ = Some _ |- _ => apply bind_Some in Hb as (? & ? & Hb)
  | x : _ * _ |- _ => destruct x
  | Hs : Some _ = Some _ |- _ => injection Hs as Hs; subst
  | Hp : (_, _) = (_, _) |- _ => injection Hp as Hp; subst
  end.

Lemma correct_char c : correct (EChar c).
Proof.
  intros m v m' Hc Hm [= <- <-]. split; [|done]. pose proof (pushes_ld Byte c m) as Hp.
  replace (low Byte c) with c in Hp by (symmetry; by apply Z.mod_small). exact Hp.
Qed.

Lemma correct_lit k x : correct (ELit k x).
Proof.
  intros m v m' Hx Hm [= <- <-]. split; [|done]. pose proof (pushes_addr x m) as Hp.
  unfold u32 in Hp. by rewrite wrap_small in Hp.
Qed.

Lemma correct_id x : correct (EId x).
Proof.
  intros m v m' Hx Hm (w & Hv & [= <- <-])%bind_Some. split; [|done]. by apply pushes_value.
Qed.

Lemma correct_bin op a b : correct a → correct b → correct (EBin op a b).
Proof.
  intros Ha Hb m v m' (Wa & Wb & Ht & Fa & Fb) Hm He. simpl in He. eval_inv.
  destruct (Ha _ _ _ Wa Hm ltac:(done)) as [Pa Hm1].
  destruct (Hb _ _ _ Wb Hm1 ltac:(done)) as [Pb Hm2].
  split; [|done]. by eapply pushes_bin.
Qed.

Lemma correct_not a : correct a → correct (ENot a).
Proof.
  intros Ha m v m' (Wa & Ht & Fa) Hm He. simpl in He. eval_inv.
  destruct (Ha _ _ _ Wa Hm ltac:(done)) as [Pa Hm1]. split; [|done]. by eapply pushes_not.
Qed.

Lemma correct_call f l : correct_args l → correct (ECall f l).
Proof.
  intros Hl m v m' (Wl & Hlen) Hm He. simpl in He. eval_inv.
  destruct (Hl _ _ _ Wl Hm ltac:(done)) as (Pl & Hm1 & E). split; [|by eapply calls_ok].
  cbn [ecode depth width]. rewrite <- E. eapply pushes_call; [done|lia|done].
Qed.

Lemma correct_assign x a : correct a → correct (EAssign x a).
Proof.
  intros Ha m v m' (Wx & Wa & Fa) Hm He. simpl in He. eval_inv.
  destruct (Ha _ _ _ Wa Hm ltac:(done)) as [Pa Hm1].
  split; [|by eapply store_bytes]. cbn [ecode depth width].
  eapply (pushes_store _ _ 1 _ _ _ _ _ _ _ _ _ (pushes_addr _ _)); [done|exact Fa|done].
Qed.

Lemma correct_store p a : correct p → correct a → correct (EStore p a).
Proof.
  intros Hp Ha m v m' (Wp & Wa & Ht & Ep & Fa) Hm He. simpl in He. eval_inv.
  destruct (Hp _ _ _ Wp Hm ltac:(done)) as [Pp Hm1]. rewrite Ep in Pp.
  destruct (Ha _ _ _ Wa Hm1 ltac:(done)) as [Pa Hm2].
  split; [|by eapply store_bytes]. by eapply pushes_store.
Qed.

Lemma correct_pre inc k : correct (EPre inc k).
Proof.
  intros m v m' Wk Hm He. cbn [eval] in He. unfold eval_step in He. eval_inv.
  split; [|by eapply store_bytes]. by eapply pushes_pre.
Qed.

Lemma correct_post inc k : correct (EPost inc k).
Proof.
  intros m v m' Wk Hm He. cbn [eval] in He. unfold eval_step in He. eval_inv.
  split; [|by eapply store_bytes]. by eapply pushes_post.
Qed.

Lemma correct_load p : correct p → correct (ELoad p).
Proof.
  intros Hp m v m' (Wp & Ht & Ep) Hm He. simpl in He. eval_inv.
  destruct (Hp _ _ _ Wp Hm ltac:(done)) as [Pp Hm1]. rewrite Ep in Pp.
  split; [|done]. by eapply pushes_load.
Qed.

Lemma correct_addr x : correct (EAddr x).
Proof. intros m v m' Wx Hm [= <- <-]. split; [apply pushes_addr|done]. Qed.

Lemma correct_nil : correct_args ENil.
Proof. intros m vs m' _ Hm [= <- <-]. split_and!; [apply pushes_nil|done..]. Qed.

Lemma correct_cons a l : correct a → correct_args l → correct_args (ECons a l).
Proof.
  intros Ha Hl m vs m' (Wa & Ea & Wl) Hm He. simpl in He. eval_inv.
  destruct (Ha _ _ _ Wa Hm ltac:(done)) as [Pa Hm1]. rewrite Ea in Pa.
  destruct (Hl _ _ _ Wl Hm1 ltac:(done)) as (Pl & Hm2 & E).
  split_and!; [by eapply pushes_cons|done|simpl; lia].
Qed.

#[local] Hint Resolve correct_char correct_lit correct_id correct_bin correct_not correct_call
  correct_assign correct_store correct_pre correct_post correct_load correct_addr correct_nil
  correct_cons : core.

Lemma all_correct : (∀ e, correct e) ∧ (∀ l, correct_args l).
Proof. apply expr_exprs_ind; auto. Qed.
End simulation.
