(* ===== verification/FinshProgram.v ===== *)
(** * Programs of the shell

    A line is a list of statements.  Compiled and run, their tree has the
    effect and the value of the statements. *)

From S2P Require Import Prelude FinshDef FinshHeap FinshNode FinshVm FinshCompiler FinshVmSpec.
From S2P Require Import FinshParser FinshDemo FinshTree FinshExpr FinshEval.

Section programs.
Context `{FinshEnv} (vars : list finsh_var).

(** ** Statements *)
Fixpoint tree_of (l : list expr) (t : ast) : Prop :=
  match l with
  | [] => t = Leaf
  | e :: l => shape e t ∧ tree_of l (sib_of t)
  end.

(** The value of the last statement, and the memory. *)
Fixpoint run (l : list expr) (m : gmap Z Z) : option (Z * gmap Z Z) :=
  match l with
  | [] => None
  | [e] => eval vars e m
  | e :: l => '(_, m) ← eval vars e m; run l m
  end.

Fixpoint pcode (l : list expr) : list Z :=
  match l with
  | [] => []
  | [e] => ecode vars e
  | e :: l => ecode vars e ++ FINSH_OP_POP :: pcode l
  end.

Fixpoint pwidth (l : list expr) : size :=
  match l with
  | [] => Dword
  | [e] => width vars e
  | _ :: l => pwidth l
  end.

Definition pdepth (l : list expr) : nat := foldr (λ e n, Nat.max (depth e) n) 0%nat l.

(** ** Trees of expressions have known types *)
Lemma id_known x t : id_tree x t → is_Some (id_size vars x) → known vars (sib_of t) → known vars t.
Proof.
  destruct t as [|i n [] sib]; try done. intros (Hn & <- & _) [sz Hs] Hk. split_and!; [|done..].
  intros _. unfold id_size in Hs. apply bind_Some in Hs as (ty & Ht & Hs).
  apply size_of_type in Hs as (dt & Hd & _). unfold id_type in Ht.
  destruct (node_id n); try done.
  - apply bind_Some in Ht as (v & Hv & [= <-]). by exists v.
  - injection Ht as <-. by exists dt.
Qed.

Lemma op_known type i n ch sib : op_node type n → type ≠ FINSH_NODE_ID →
  known vars ch → known vars sib → known vars (Node i n ch sib).
Proof. intros [Hn _] Ht Hc Hs. split_and!; [|done..]. intros E. congruence. Qed.

Lemma last_known t : last_tree t → known vars (sib_of t).
Proof. by intros ->. Qed.

Definition known_expr (e : expr) : Prop := ∀ t, shape e t → wt vars e →
  known vars (sib_of t) → known vars t.
Definition known_exprs (l : exprs) : Prop := ∀ t, shapes l t → wts vars l → known vars t.

Lemma func_known f t : id_tree (IdSyscall f) t → known vars (sib_of t) → known vars t.
Proof.
  destruct t as [|i n [] sib]; try done. intros (Hn & Hx & _) Hk. split_and!; [|done..].
  intros _. by rewrite Hx.
Qed.

Lemma all_known : (∀ e, known_expr e) ∧ (∀ l, known_exprs l).
Proof.
  apply expr_exprs_ind; [..|by intros t ->|by intros a Ha l Hl t (Sa & Sl) (Wa & _ & Wl); eauto].
  all: intros; intros [|i n ch sib]; try done; cbn [shape wt sib_of]; intros; destruct_and?.
  - subst ch. by eapply op_known.
  - subst ch. eapply op_known; [done|by destruct k|done..].
  - by eapply id_known.
  - eapply op_known; [done|by destruct op| |done]. eauto using last_known.
  - eapply op_known; [done|done| |done]. eauto using last_known.
  - eapply op_known; [done|done| |done]. eauto using func_known.
  - eapply op_known; [done|done| |done]. eauto using last_known, id_known.
  - destruct ch as [|ig g gch gs]; [by destruct_and?|]. destruct_and?.
    eapply op_known; [done|done| |done]. eapply op_known; [done|done|..]; eauto using last_known.
  - eapply op_known; [done|by destruct inc| |done]. eauto using last_known, id_known.
  - eapply op_known; [done|by destruct inc| |done]. eauto using last_known, id_known.
  - eapply op_known; [done|done| |done]. eauto using last_known.
  - eapply op_known; [done|done| |done]. eauto using last_known, id_known.
Qed.

Lemma program_known l : ∀ t, tree_of l t → Forall (wt vars) l → known vars t.
Proof.
  induction l as [|e l IH]; intros t; [by intros ->|]. intros (He & Hl) (We & Wl)%Forall_cons.
  apply (proj1 all_known e); auto.
Qed.

(** ** The code of statements *)
Lemma statements_code_head t n ch l : head_is vars FINSH_NODE_VALUE t n ch l →
  statements_code vars (annotate vars FINSH_NODE_VALUE t) =
  match annotate vars FINSH_NODE_VALUE (sib_of t) with
  | Leaf => Some l
  | _ => r ← statements_code vars (annotate vars FINSH_NODE_VALUE (sib_of t));
         Some (l ++ FINSH_OP_POP :: r)
  end.
Proof.
  intros [[i E] (l1 & l2 & E1 & E2 & ->)]. rewrite E. cbn [statements_code].
  rewrite E1, E2. cbn [mbind option_bind].
  destruct (annotate vars _ (sib_of t)) as [|i' n' ch' sib'] eqn:Es; [done|].
  destruct (statements_code vars _); [|done]. cbn [mbind option_bind]. by rewrite <- app_assoc.
Qed.

Lemma program_code l : ∀ t, l ≠ [] → tree_of l t → Forall (wt vars) l →
  statements_code vars (annotate vars FINSH_NODE_VALUE t) = Some (pcode l).
Proof.
  induction l as [|e l IH]; intros t Hl; [done|]. intros (He & Ht) (We & Wl)%Forall_cons.
  destruct (proj1 (all_compiled vars) e t He We) as (n & ch & Hh & _).
  rewrite (statements_code_head _ _ _ _ Hh). destruct l as [|e' l].
  - simpl in Ht. by rewrite Ht.
  - specialize (IH (sib_of t) ltac:(done) Ht Wl). rewrite IH.
    destruct (sib_of t) as [|]; [|done]. destruct Ht as (Hs & _). by destruct e'.
Qed.

(** ** Running the code *)
Section run.
Context (s : fstate).
Hypothesis text_length : length (text_segment s) = Z.to_nat FINSH_TEXT_MAX.
Hypothesis calls_ok : ∀ f args m r m', bytes_ok m → call_function f args m = Some (r, m') → bytes_ok m'.

Lemma program_pushes l : ∀ m v m', Forall (wt vars) l → bytes_ok m → run l m = Some (v, m') →
  pushes s (pcode l) (pdepth l) m (pwidth l) v m' ∧ bytes_ok m'.
Proof.
  pose proof (proj1 (all_correct vars s text_length calls_ok)) as Hcorrect.
  induction l as [|e l IH]; intros m v m'; [done|]. intros (We & Wl)%Forall_cons Hm Hr.
  destruct l as [|e' l].
  { destruct (Hcorrect e _ _ _ We Hm Hr) as [Hp ?]. split; [|done].
    intros stk sp pc Hc Hw Hl. apply Hp; [done..|]. simpl in Hl. lia. }
  cbn [run] in Hr. apply bind_Some in Hr as ([x m1] & E & Hr).
  destruct (Hcorrect e _ _ _ We Hm E) as [He Hm1].
  destruct (IH _ _ _ Wl Hm1 Hr) as [Hl Hm2]. split; [|done].
  intros stk sp pc Hc Hw Hlen. change (pdepth (e :: e' :: l)) with (Nat.max (depth e) (pdepth (e' :: l))) in Hlen.
  change (pcode (e :: e' :: l)) with (ecode vars e ++ FINSH_OP_POP :: pcode (e' :: l)) in *.
  destruct (pushes_one s text_length _ _ _ _ _ _ He stk sp pc _ Hc Hw ltac:(lia))
    as (stk1 & w & R & A & _ & _ & C). pose proof A as (L & W & _).
  destruct (Hl stk1 sp (S (pc + length (ecode vars e)))) as (stk2 & R2 & A2 & V2);
    [by eapply code_at_tail|done|lia|].
  exists stk2. split.
  - etrans; [eapply rtc_r; [exact R|apply round_pop; [done|]]|].
    { intros k y Hk. apply C. by destruct k. }
    eapply (steps_pc s); [done|exact R2|]. rewrite length_app. simpl. lia.
  - split; [by eapply above_trans|done].
Qed.

(** The state in which a text has been run. *)
Definition ran (l : list expr) (v : Z) (m' : gmap Z Z) (s' : fstate) : Prop :=
  ∃ stk pc w, s' = vm s stk 1 pc m' ∧ length stk = length (finsh_vm_stack s) ∧ words stk ∧
    stk !! 0%nat = Some w ∧ low (pwidth l) w = v.

Lemma finsh_vm_run_program l v m' :
  text_segment s = text_of (pcode l) → words (finsh_vm_stack s) →
  (pdepth l ≤ length (finsh_vm_stack s))%nat → bytes_ok (memory s) →
  Forall (wt vars) l → run l (memory s) = Some (v, m') →
  ∃ s', finsh_vm_run s = Ok tt s' ∧ ran l v m' s'.
Proof.
  intros Ht Hw Hd Hm Hwt Hr. unfold finsh_vm_run. rewrite !bind_modify.
  destruct (program_pushes l _ _ _ Hwt Hm Hr) as [Hp _].
  assert (code_at (text_segment s) 0 (pcode l)) as Hc.
  { intros k x Hk. rewrite Ht. by apply lookup_app_l_Some. }
  destruct (Hp (finsh_vm_stack s) 0%nat 0%nat Hc Hw Hd)
    as (stk & R & (L & W & _) & w & Hs & Hv). simpl in R.
  pose proof (vm_loop_rounds _ _ R) as El.
  destruct (vm_loop_noops s text_length stk 1 (length (pcode l)) m') as [pc Er].
  { intros k Hk. rewrite Ht. unfold text_of. rewrite Ht in Hk. rewrite lookup_app_r by lia.
    apply lookup_replicate. unfold text_of in Hk. rewrite length_app, length_replicate in Hk. split; [done|lia]. }
  rewrite Er in El. exists (vm s stk 1 pc m'). split; [exact El|].
  by exists stk, pc, w.
Qed.
End run.
End programs.

(** ** The properties *)
Section main.
Context `{FinshEnv}.

(** The fuel of the machine is enough for every text: each instruction moves the
    program counter forward. *)
Lemma vm_fuel_enough s : finsh_vm_run s ≠ Fault OutOfFuel.
Proof.
  unfold finsh_vm_run. rewrite !bind_modify.
  refine (proj2 (vm_loop_fuel _ _ (Z.to_nat FINSH_TEXT_MAX) _ _)); unfold rounds; simpl; lia.
Qed.

(** What a firmware function that is called from the shell does to memory. *)
Definition calls_ok : Prop := ∀ f args m r m', bytes_ok m →
  call_function f args m = Some (r, m') → bytes_ok m'.

(** States in which the arrays have their sizes. *)
Definition sized (s : fstate) : Prop :=
  length (text_segment s) = Z.to_nat FINSH_TEXT_MAX ∧
  length (finsh_vm_stack s) = Z.to_nat FINSH_STACK_MAX ∧ words (finsh_vm_stack s) ∧
  bytes_ok (memory s).

(** A program that the node table holds at [p]. *)
Definition holds (s : fstate) (p : option nat) (l : list expr) : Prop :=
  (length (global_node_table s) ≤ FINSH_NODE_MAX)%nat ∧
  ∃ t, rep (global_node_table s) p t ∧ NoDup (indices t) ∧ tree_of l t.

(** A program the text segment and the stack have room for. *)
Definition small (vars : list finsh_var) (l : list expr) : Prop :=
  Z.of_nat (length (pcode vars l)) ≤ FINSH_TEXT_MAX ∧ Z.of_nat (pdepth l) ≤ FINSH_STACK_MAX.

(** The steps of the evaluation. *)
Lemma evaluate_steps p l v m' s : calls_ok → sized s → l ≠ [] → holds s p l →
  Forall (wt (global_variable s)) l → small (global_variable s) l →
  run (global_variable s) l (memory s) = Some (v, m') →
  ∃ w s1 s', finsh_compiler_run p s = Ok tt s1 ∧ global_errno s1 = global_errno s ∧
    finsh_vm_run s1 = Ok tt s' ∧ finsh_stack_bottom s' = Ok (long_value w) s' ∧
    0 ≤ w < 2 ^ 32 ∧ low (pwidth (global_variable s) l) w = v ∧ memory s' = m' ∧ sized s' ∧
    global_errno s' = global_errno s ∧ global_variable s' = global_variable s.
Proof.
  intros Hcalls (Ht & Hstk & Hw & Hm) Hl (Hn & t & Hrep & Hnd & Htree) Hwt [Hlen Hdep] Hr.
  set (vars := global_variable s) in *.
  pose proof (program_known vars l t Htree Hwt) as Hk.
  pose proof (program_code vars l t Hl Htree Hwt) as Hcode.
  destruct (finsh_compiler_run_run vars t p (pcode vars l) s) as [tbl E]; try done;
    [rewrite Hstk; unfold FINSH_STACK_MAX; lia|].
  match type of E with _ = Ok tt ?s0 => set (s1 := s0) in * end.
  assert (length (text_segment s1) = Z.to_nat FINSH_TEXT_MAX) as Ht1.
  { simpl. unfold text_of. rewrite length_app, length_replicate. lia. }
  destruct (program_pushes vars s1 Ht1 Hcalls l (memory s) v m' Hwt Hm Hr) as [_ Hm'].
  destruct (finsh_vm_run_program vars s1) with (l := l) (v := v) (m' := m')
    as (s' & E' & stk & pc & w & -> & L & W & Hb & Hv); try done.
  - simpl. apply Forall_insert; [done|lia].
  - simpl. rewrite length_insert. lia.
  - simpl in L. rewrite length_insert in L.
    exists w, s1, (vm s1 stk 1 pc m'). split_and!; try done; try (by eapply words_lookup).
    + unfold finsh_stack_bottom. erewrite bind_ok by (by apply (get_slot_run 0 0)). done.
    + split_and!; [done|simpl; congruence|done|done].
Qed.

(** C23: The compiler is correct: if the node table holds the trees of statements
    whose operands have as many bits as the operations read, and there is room
    for the code in the text segment and for the operands on the stack, then
    running the compiled text leaves the memory that the evaluation of the
    statements leaves, and the value of the last statement in the low bits of
    the bottom of the stack. *)
Theorem compile_correct p l v m' s : calls_ok → sized s → l ≠ [] → holds s p l →
  Forall (wt (global_variable s)) l → small (global_variable s) l →
  run (global_variable s) l (memory s) = Some (v, m') →
  ∃ w s', (finsh_compiler_run p ;;; finsh_vm_run ;;; finsh_stack_bottom) s = Ok (long_value w) s' ∧
    0 ≤ w < 2 ^ 32 ∧ low (pwidth (global_variable s) l) w = v ∧ memory s' = m'.
Proof.
  intros Hc Hs Hl Hh Hwt Hsm Hr.
  destruct (evaluate_steps p l v m' s) as (w & s1 & s' & E1 & _ & E2 & E3 & Hw & Hv & Hm & _); try done.
  exists w, s'. by rewrite (bind_ok _ _ _ _ _ E1), (bind_ok _ _ _ _ _ E2).
Qed.
End main.

(** ** Types *)
Section types.
Context `{FinshEnv}.

(** The type check computes the propagation rule [esize]: the node of the
    expression gets a data type of the size by which the compiler selects the
    operations on it, and nothing but the node table changes.  (For an address
    or a call this is not the size of the value: [esize] follows the source.) *)
Theorem type_check_correct e s p t :
  rep (global_node_table s) p t → NoDup (indices t) →
  (length (global_node_table s) ≤ FINSH_NODE_MAX)%nat →
  shape e t → last_tree t → wt (global_variable s) e →
  ∃ tbl i n, finsh_type_check FINSH_NODE_MAX p FINSH_NODE_VALUE s = Ok tt (set_global_node_table tbl s) ∧
    p = Some i ∧ tbl !! i = Some n ∧ size_of (data_type n) = esize (global_variable s) e.
Proof.
  intros Hr Hn Hlen Hsh Hl Hw. set (vars := global_variable s).
  assert (known vars t) as Hk.
  { apply (program_known vars [e]); [done|]. by apply Forall_singleton. }
  pose proof (rep_height _ _ _ Hn Hr) as Hh.
  destruct (finsh_type_check_run vars t FINSH_NODE_MAX p FINSH_NODE_VALUE s) as (tbl & E & R & _);
    try done; [lia|].
  destruct (proj1 (all_compiled vars) e t Hsh Hw) as (n & ch & [[i Ei] _] & Hs).
  rewrite Ei in R. destruct R as (-> & Hi & _). by exists tbl, i, n.
Qed.
End types.

(** ** The theorems on the small shell *)
Lemma demo_calls_ok : calls_ok.
Proof.
  intros f args m r m' Hm. simpl. unfold demo_call.
  destruct (f =? 77); [by intros [= _ <-]|]. destruct (f =? 88); [|done].
  destruct (m !! nth 0 args 0); [|done]. intros [= _ <-].
  apply map_Forall_insert_2; [|done]. by apply wrap_range.
Qed.

(** The shell behind the parser, on [1 + 2 * 3]. *)
Definition demo_parsed : fstate := state_of (finsh_parser_run demo_line demo).
Definition demo_expr : expr := EBin BAdd (ELit LInt 1) (EBin BMul (ELit LInt 2) (ELit LInt 3)).
Definition demo_tree : ast := tree_from 5 (global_node_table demo_parsed) (root demo_parsed).

Lemma demo_tree_ok : rep (global_node_table demo_parsed) (root demo_parsed) demo_tree ∧
  NoDup (indices demo_tree) ∧ shape demo_expr demo_tree ∧ last_tree demo_tree.
Proof.
  split; [vm_compute; by split_and!|]. split; [by apply (bool_decide_unpack _); vm_compute|].
  split; [vm_compute; by split_and!|done].
Qed.

Lemma demo_expr_wt vars : wt vars demo_expr.
Proof. unfold demo_expr. simpl. unfold typed, fits. simpl. split_and!; (lia || by eexists). Qed.

Lemma compile_correct_witness : ∃ w s',
  (finsh_compiler_run (root demo_parsed) ;;; finsh_vm_run ;;; finsh_stack_bottom) demo_parsed =
    Ok (long_value w) s' ∧ low Dword w = 7.
Proof.
  destruct demo_tree_ok as (Hr & Hn & Hs & Hl).
  destruct (compile_correct (root demo_parsed) [demo_expr] 7 (memory demo_parsed) demo_parsed)
    as (w & s' & E & _ & Hv & _).
  - exact demo_calls_ok.
  - by apply (bool_decide_unpack _); vm_compute.
  - discriminate.
  - split; [apply Nat.leb_le; reflexivity|]. exists demo_tree.
    split; [exact Hr|]. split; [exact Hn|]. split; [exact Hs|exact Hl].
  - apply Forall_singleton. apply demo_expr_wt.
  - split; apply Z.leb_le; reflexivity.
  - reflexivity.
  - exists w, s'. split; [exact E|exact Hv].
Defined.

Lemma type_check_correct_witness : ∃ tbl i n,
  finsh_type_check FINSH_NODE_MAX (root demo_parsed) FINSH_NODE_VALUE demo_parsed =
    Ok tt (set_global_node_table tbl demo_parsed) ∧
  root demo_parsed = Some i ∧ tbl !! i = Some n ∧ size_of (data_type n) = Some Dword.
Proof.
  destruct demo_tree_ok as (Hr & Hn & Hs & Hl).
  apply (type_check_correct demo_expr demo_parsed (root demo_parsed) demo_tree Hr Hn);
    [apply Nat.leb_le; reflexivity|exact Hs|exact Hl|]. apply demo_expr_wt.
Defined.
