(* ===== verification/FinshText.v ===== *)
(** * Text of the shell: the tokens are read back

    Tokens, their spelling, and the proof that the tokenizer reads from a
    text the tokens it was spelled from. *)

From S2P Require Import Prelude FinshDef FinshHeap FinshNode FinshVm FinshToken FinshParser FinshDemo.
From S2P Require Import FinshVmSpec.

(** ** Tokens *)
Inductive tok : Type :=
  | TOp (type : token_type)
  | TName (name : list Z)
  | TInt (x : Z)
  | TLong (x : Z)
  | TNull
  | TChar (c : Z).

Definition tok_type (t : tok) : token_type :=
  match t with
  | TOp type => type
  | TName _ => finsh_token_type_identifier
  | TInt _ => finsh_token_type_value_int
  | TLong _ => finsh_token_type_value_long
  | TNull => finsh_token_type_value_null
  | TChar _ => finsh_token_type_value_char
  end.

Definition op_spelling (type : token_type) : list Z :=
  match type with
  | finsh_token_type_left_paren => [40]
  | finsh_token_type_right_paren => [41]
  | finsh_token_type_comma => [44]
  | finsh_token_type_semicolon => [59]
  | finsh_token_type_mul => [42]
  | finsh_token_type_add => [43]
  | finsh_token_type_inc => [43; 43]
  | finsh_token_type_sub => [45]
  | finsh_token_type_dec => [45; 45]
  | finsh_token_type_div => [47]
  | finsh_token_type_mod => [37]
  | finsh_token_type_assign => [61]
  | finsh_token_type_and => [38]
  | finsh_token_type_or => [124]
  | finsh_token_type_xor => [94]
  | finsh_token_type_bitwise => [126]
  | finsh_token_type_shl => [60; 60]
  | finsh_token_type_shr => [62; 62]
  | _ => []
  end.

(** The decimal digits of [x], with at most [n] of them. *)
Fixpoint digits (n : nat) (x : Z) : list Z :=
  match n with
  | O => []
  | S n => if x <? 10 then [48 + x] else digits n (x / 10) ++ [48 + x mod 10]
  end.
Definition decimal (x : Z) : list Z := digits 10 x.

Definition spell (t : tok) : list Z :=
  match t with
  | TOp type => op_spelling type
  | TName name => name
  | TInt x => decimal x
  | TLong x => decimal x ++ [76]
  | TNull => [78; 85; 76; 76]
  | TChar c => [39; c; 39]
  end.

(** A name the tokenizer takes for one: it ends where its array does, and is
    no keyword. *)
Definition valid_name (name : list Z) : Prop :=
  Forall (λ c, is_separator c = false) name ∧
  match name with c :: _ => is_digit c = false | [] => False end ∧
  (length name < FINSH_NAME_MAX)%nat ∧ match_name finsh_name_table name = None.

Definition valid_tok (t : tok) : Prop :=
  match t with
  | TOp type => op_spelling type ≠ []
  | TName name => valid_name name
  | TInt x => 0 ≤ x < 2 ^ 31
  | TLong x => 0 < x < 2 ^ 31   (* the suffix of 0L is not read *)
  | TNull => True
  | TChar c => 32 ≤ c < 2 ^ 8 ∧ c ≠ 92
  end.

#[export] Instance valid_name_dec name : Decision (valid_name name).
Proof. unfold valid_name. destruct name; apply _. Defined.
#[export] Instance valid_tok_dec t : Decision (valid_tok t).
Proof. destruct t; unfold valid_tok; apply _. Defined.

(** Each token is followed by a space. *)
Definition text (l : list tok) : list Z := concat (map (λ t, spell t ++ [32]) l).

(** ** Numbers *)
Definition value_of (l : list Z) : Z := foldl (λ v c, v * 10 + (c - 48)) 0 l.

Lemma digits_value n : ∀ x, 0 ≤ x < 10 ^ Z.of_nat n → (0 < n)%nat → value_of (digits n x) = x.
Proof.
  induction n as [|n IH]; intros x Hx Hn; [lia|]. simpl.
  destruct (Z.ltb_spec x 10); [unfold value_of; simpl; lia|].
  replace (Z.of_nat (S n)) with (1 + Z.of_nat n) in Hx by lia. rewrite Z.pow_add_r in Hx by lia.
  unfold value_of. rewrite foldl_app. simpl.
  change (foldl _ 0 (digits n (x / 10))) with (value_of (digits n (x / 10))).
  destruct n as [|n]; [simpl in Hx; lia|].
  rewrite IH; [Z.to_euclidean_division_equations; lia| |lia].
  split; [apply Z.div_pos; lia|]. apply Z.div_lt_upper_bound; lia.
Qed.

Lemma digits_are_digits n : ∀ x, 0 ≤ x → Forall (λ c, is_digit c = true) (digits n x).
Proof.
  induction n as [|n IH]; intros x Hx; simpl; [done|]. destruct (Z.ltb_spec x 10).
  - apply Forall_singleton. unfold is_digit. lia.
  - apply Forall_app. split; [apply IH; apply Z.div_pos; lia|]. apply Forall_singleton.
    unfold is_digit. pose proof (Z.mod_pos_bound x 10). lia.
Qed.

Lemma digits_head n : ∀ x, 0 < x → (0 < n)%nat → ∃ c l, digits n x = c :: l ∧ (x < 10 ^ Z.of_nat n → c ≠ 48).
Proof.
  induction n as [|n IH]; intros x Hx Hn; [lia|]. simpl. destruct (Z.ltb_spec x 10).
  { eexists _, _. split; [done|]. lia. }
  destruct n as [|n].
  { eexists _, _. split; [done|]. simpl. lia. }
  destruct (IH (x / 10)) as (c & l & -> & Hc); [apply Z.div_str_pos; lia|lia|].
  eexists _, _. split; [done|]. intros Hlt. apply Hc. apply Z.div_lt_upper_bound; [lia|].
  replace (Z.of_nat (S (S n))) with (1 + Z.of_nat (S n)) in Hlt by lia.
  rewrite Z.pow_add_r in Hlt by lia. lia.
Qed.

Lemma decimal_value x : 0 ≤ x < 2 ^ 31 → value_of (decimal x) = x.
Proof. intros Hx. apply digits_value; lia. Qed.

Lemma decimal_digits x : 0 ≤ x → Forall (λ c, is_digit c = true) (decimal x).
Proof. apply digits_are_digits. Qed.

Lemma decimal_head x : 0 < x < 2 ^ 31 → ∃ c l, decimal x = c :: l ∧ c ≠ 48.
Proof.
  intros Hx. destruct (digits_head 10 x) as (c & l & E & Hc); [lia..|]. exists c, l. split; [done|].
  apply Hc. lia.
Qed.

(** ** Characters *)

(** The token of a parser that reads [line] on at [n]. *)
Definition goto (n : nat) (t : finsh_token) : finsh_token := set_position (Z.of_nat n) t.

(** The invariant of the tokenizer inside a line. *)
Definition reading (t : finsh_token) : Prop :=
  tk_eof t = false ∧ length (tk_string t) = Z.to_nat FINSH_STRING_MAX.

Lemma upd_token_run f t s : upd_token f (set_token t s) = Ok tt (set_token (f t) s).
Proof. done. Qed.

Lemma is_eof_run t s : is_eof (set_token t s) = Ok (tk_eof t) (set_token t s).
Proof. done. Qed.

Lemma next_char_run n c t s : reading t → tk_line t !! n = Some c → c ≠ ch_nl →
  token_next_char (set_token (goto n t) s) = Ok c (set_token (goto (S n) t) s).
Proof.
  intros [He _] Hc Hnl. unfold token_next_char. rewrite bind_gets.
  change (token _) with (goto n t). change (tk_eof (goto n t)) with (tk_eof t).
  change (tk_position (goto n t)) with (Z.of_nat n). change (tk_line (goto n t)) with (tk_line t).
  rewrite He.
  pose proof (lookup_lt_Some _ _ _ Hc). destruct (Z.eqb_spec (Z.of_nat n) (Z.of_nat (length (tk_line t)))); [lia|].
  rewrite Nat2Z.id, Hc. rewrite bool_decide_false by congruence. cbn [orb from_option].
  rewrite bind_ret. rewrite (bind_ok _ _ _ _ _ (upd_token_run _ _ _)). unfold ret. do 2 f_equal.
  unfold goto, set_position. simpl. f_equal. lia.
Qed.

Lemma prev_char_run n t s : reading t →
  token_prev_char (set_token (goto (S n) t) s) = Ok tt (set_token (goto n t) s).
Proof.
  intros [He _]. unfold token_prev_char. rewrite bind_gets.
  change (token _) with (goto (S n) t). change (tk_eof (goto (S n) t)) with (tk_eof t).
  change (tk_position (goto (S n) t)) with (Z.of_nat (S n)). rewrite He.
  destruct (Z.eqb_spec (Z.of_nat (S n)) 0); [lia|]. rewrite upd_token_run. do 2 f_equal.
  unfold goto, set_position. simpl. f_equal. lia.
Qed.

(** The end of the line: the position is its beginning again. *)
Lemma end_char_run n t s : reading t → n = length (tk_line t) →
  token_next_char (set_token (goto n t) s) = Ok 0 (set_token (goto 0 (set_eof true t)) s).
Proof.
  intros [He _] ->. unfold token_next_char. rewrite bind_gets.
  set (n := length (tk_line t)). change (token _) with (goto n t).
  change (tk_eof (goto n t)) with (tk_eof t). change (tk_position (goto n t)) with (Z.of_nat n).
  change (tk_line (goto n t)) with (tk_line t). rewrite He. fold n. rewrite Z.eqb_refl. cbn [orb].
  rewrite (bind_ok _ _ _ _ _ (upd_token_run _ _ _)).
  by rewrite (bind_ok _ _ _ _ _ (upd_token_run _ _ _)).
Qed.

(** Run the next character of the line. *)
Ltac next_char := erewrite bind_ok by (eapply next_char_run; [done|eauto with code|]; done || lia).
Ltac prev_char := erewrite bind_ok by (by apply prev_char_run).

Lemma reading_goto n t : reading t → reading (goto n t).
Proof. done. Qed.

Lemma line_fuel_run t s : line_fuel (set_token t s) = Ok (S (length (tk_line t))) (set_token t s).
Proof. done. Qed.

(** Spaces before a token are skipped. *)
Definition is_space (c : Z) : Prop := c = 32 ∨ c = 9 ∨ c = 13.

Lemma trim_loop_run ws : ∀ fuel n c t s, reading t → Forall is_space ws →
  code_at (tk_line t) n (ws ++ [c]) → ¬ is_space c → c ≠ ch_nl → (length ws < fuel)%nat →
  trim_loop fuel (set_token (goto n t) s) = Ok tt (set_token (goto (n + length ws + 1) t) s).
Proof.
  induction ws as [|w ws IH]; intros [|fuel] n c t s Ht Hws Hc Hsp Hnl Hf; simpl in Hf; try lia; simpl.
  - next_char. destruct (_ || _) eqn:E; [exfalso; apply Hsp; unfold is_space; lia|].
    simpl. unfold ret. do 3 f_equal. lia.
  - apply Forall_cons in Hws as [Hw Hws]. simpl in Hc.
    erewrite bind_ok by (eapply next_char_run; [done|by eapply code_at_head|];
      unfold is_space, ch_nl in *; lia).
    destruct (_ || _) eqn:E; [|unfold is_space in Hw; lia]. simpl.
    rewrite (IH _ (S n) c); [|done|done|by eapply code_at_tail|done|done|lia]. do 3 f_equal. lia.
Qed.

Lemma trim_space_run ws n c t s : reading t → Forall is_space ws →
  code_at (tk_line t) n (ws ++ [c]) → ¬ is_space c → c ≠ ch_nl →
  token_trim_space (set_token (goto n t) s) = Ok tt (set_token (goto (n + length ws) t) s).
Proof.
  intros Ht Hws Hc Hsp Hnl. unfold token_trim_space.
  rewrite (bind_ok _ _ _ _ _ (line_fuel_run _ _)).
  erewrite bind_ok.
  2: { eapply trim_loop_run; [done|done|exact Hc|done|done|]. cbn [goto set_position tk_line].
       apply code_at_app_l in Hc. pose proof (code_at_length _ _ _ Hc). lia. }
  rewrite Nat.add_1_r. by apply prev_char_run.
Qed.

(** [like t t']: the same line, read on, and the same value. *)
Definition like (t t' : finsh_token) : Prop :=
  reading t' ∧ tk_line t' = tk_line t ∧ tk_replay t' = tk_replay t ∧ tk_value t' = tk_value t.

Lemma like_refl t : reading t → like t t.
Proof. done. Qed.
Lemma like_trans t1 t2 t3 : like t1 t2 → like t2 t3 → like t1 t3.
Proof. intros (_ & L1 & P1 & V1) (R & L2 & P2 & V2). split_and!; congruence. Qed.

Lemma put_string_run p c t s : reading t → 0 ≤ c < 2 ^ 8 → (p < Z.to_nat FINSH_STRING_MAX)%nat →
  put_string (Z.of_nat p) c (set_token t s) =
  Ok tt (set_token (set_string (<[p := c]> (tk_string t)) t) s).
Proof.
  intros Ht Hc Hp. unfold put_string. destruct (_ && _) eqn:E; [|unfold FINSH_STRING_MAX in *; lia].
  rewrite upd_token_run, Nat2Z.id. unfold u8. by rewrite wrap_small.
Qed.

Lemma like_string l t : reading t → length l = Z.to_nat FINSH_STRING_MAX →
  like t (set_string l t).
Proof. by intros [He _]. Qed.

Lemma string_cons t : reading t → ∃ x l, tk_string t = x :: l.
Proof. intros [_ Hl]. destruct (tk_string t) as [|x l]; [done|]. by exists x, l. Qed.

(** A separator or a digit: no name. *)
Lemma get_string_none n c t s : reading t → tk_line t !! n = Some c → c ≠ ch_nl →
  is_separator c = true ∨ is_digit c = true →
  ∃ r t', token_get_string (set_token (goto n t) s) = Ok r (set_token (goto n t') s) ∧
    like t t' ∧ c_string (tk_string t') = [].
Proof.
  intros Ht Hc Hnl Hk. unfold token_get_string.
  erewrite bind_ok by (by eapply next_char_run).
  rewrite (bind_ok _ _ _ _ _ (is_eof_run _ _)). pose proof (proj1 Ht) as He.
  change (tk_eof (goto (S n) t)) with (tk_eof t). rewrite He.
  destruct (string_cons t Ht) as (x & l & El).
  assert (length (0 :: l) = Z.to_nat FINSH_STRING_MAX) as Hlen.
  { destruct Ht as [_ Hl]. by rewrite El in Hl. }
  set (t1 := set_string (0 :: l) t). assert (like t t1) as H1 by (by apply like_string).
  erewrite bind_ok.
  2: { apply (put_string_run 0 0 (goto (S n) t)); [done|lia|unfold FINSH_STRING_MAX; lia]. }
  cbn [goto set_position tk_string]. rewrite El. cbn [insert list_insert].
  change (set_string (0 :: l) _) with (goto (S n) t1).
  destruct (is_digit c) eqn:Hd.
  { erewrite bind_ok by (apply prev_char_run; apply H1). exists (-1), t1. split; [done|]. done. }
  destruct Hk as [Hk|]; [|done].
  rewrite (bind_ok _ _ _ _ _ (line_fuel_run _ _)).
  erewrite (bind_ok (get_string_loop _ _ _)).
  2: { cbn [get_string_loop]. rewrite (bind_ok _ _ _ _ _ (is_eof_run _ _)). by rewrite Hk. }
  rewrite (bind_ok _ _ _ _ _ (upd_token_run _ _ _)).
  change (set_eof false (goto (S n) t1)) with (goto (S n) (set_eof false t1)).
  erewrite bind_ok by (apply prev_char_run; by split).
  erewrite bind_ok.
  2: { apply (put_string_run 0 0 (goto n (set_eof false t1)));
       [by split|lia|unfold FINSH_STRING_MAX; lia]. }
  by exists 0, (set_eof false t1).
Qed.

Lemma get_string_loop_run l : ∀ fuel ch n c' t s pre rest,
  reading t → Forall (λ c, is_separator c = false) (ch :: l) → is_separator c' = true → c' ≠ ch_nl →
  code_at (tk_line t) n (l ++ [c']) → (S (length l) < fuel)%nat →
  tk_string t = pre ++ rest → (S (length l) ≤ length rest)%nat →
  ∃ rest', get_string_loop fuel ch (Z.of_nat (length pre)) (set_token (goto n t) s) =
    Ok (Z.of_nat (length pre + S (length l)))
      (set_token (goto (S (n + length l)) (set_string (pre ++ ch :: l ++ rest') t)) s) ∧
    S (length l + length rest') = length rest.
Proof.
  induction l as [|x l IH]; intros [|fuel] ch n c' t s pre rest Ht [Hch Hl]%Forall_cons Hc' Hnl Hc Hf Es Hr;
    simpl in Hf; try lia; cbn [get_string_loop]; pose proof Ht as [He Hlen].
  all: assert (0 ≤ ch < 2 ^ 8) as Hb by (unfold is_separator, is_digit in Hch; lia).
  all: destruct rest as [|y rest]; [simpl in Hr; lia|].
  all: rewrite (bind_ok _ _ _ _ _ (is_eof_run _ _)).
  all: change (tk_eof (goto n t)) with (tk_eof t); rewrite He, Hch; cbn [negb andb].
  all: set (t1 := set_string ((pre ++ [ch]) ++ rest) t).
  all: assert (reading t1) as Ht1 by (split; [done|]; rewrite <- Hlen, Es; simpl;
    rewrite !length_app; simpl; lia).
  all: erewrite bind_ok by (apply (put_string_run (length pre) ch (goto n t)); [done|done|];
    rewrite <- Hlen, Es, length_app; simpl; lia).
  all: replace (set_string _ (goto n t)) with (goto n t1) by
    (unfold t1, goto, set_position, set_string; cbn [tk_string]; rewrite Es, insert_app_r_alt by lia;
     rewrite Nat.sub_diag, <- app_assoc; done).
  all: replace (Z.of_nat (length pre) + 1) with (Z.of_nat (length (pre ++ [ch])))
    by (rewrite length_app; simpl; lia).
  - erewrite bind_ok by (eapply next_char_run; [done|by eapply code_at_head|done]).
    destruct fuel as [|fuel]; [lia|]. cbn [get_string_loop].
    rewrite (bind_ok _ _ _ _ _ (is_eof_run _ _)). rewrite Hc'. cbn [negb andb].
    exists rest. split; [|simpl; lia]. unfold ret. f_equal; [rewrite length_app; simpl; lia|].
    rewrite Nat.add_0_r. unfold t1. by rewrite <- app_assoc.
  - simpl in Hc. erewrite bind_ok.
    2: { eapply next_char_run; [done|by eapply code_at_head|]. apply Forall_cons in Hl as [Hx _].
         intros ->. done. }
    destruct (IH fuel x (S n) c' t1 s (pre ++ [ch]) rest) as (rest' & E & El); try done;
      [by eapply code_at_tail|lia|simpl in Hr; lia|].
    exists rest'. rewrite E. split; [|simpl; lia]. f_equal; [rewrite length_app; simpl; lia|].
    unfold t1. rewrite <- !app_assoc. simpl. rewrite Nat.add_succ_r. done.
Qed.

Lemma c_string_app l rest : Forall (λ c, c ≠ 0) l → c_string (l ++ 0 :: rest) = l.
Proof.
  induction 1 as [|c l Hc Hl IH]; [done|]. simpl. destruct (Z.eqb_spec c 0); [done|]. by rewrite IH.
Qed.

Lemma separator_nonzero l : Forall (λ c, is_separator c = false) l → Forall (λ c, c ≠ 0) l.
Proof. intros Hl. eapply Forall_impl; [done|]. by intros c Hc ->. Qed.

(** A name is read into the array. *)
Lemma get_string_name name n c' t s : reading t → Forall (λ c, is_separator c = false) name →
  match name with c :: _ => is_digit c = false | [] => False end →
  (length name < FINSH_NAME_MAX)%nat → is_separator c' = true → c' ≠ ch_nl →
  code_at (tk_line t) n (name ++ [c']) →
  ∃ t', token_get_string (set_token (goto n t) s) =
      Ok 0 (set_token (goto (n + length name) t') s) ∧
    like t t' ∧ c_string (tk_string t') = name.
Proof.
  intros Ht Hn Hd Hlen Hc' Hnl Hc. destruct name as [|ch l]; [done|]. unfold token_get_string.
  pose proof (proj1 (Forall_cons _ _ _) Hn) as [Hch _]. pose proof Ht as [He Hstr].
  erewrite bind_ok.
  2: { eapply next_char_run; [done|by eapply code_at_head|]. by intros ->. }
  rewrite (bind_ok _ _ _ _ _ (is_eof_run _ _)).
  change (tk_eof (goto (S n) t)) with (tk_eof t). rewrite He.
  set (t1 := set_string (<[0%nat := 0]> (tk_string t)) t).
  erewrite bind_ok by (apply (put_string_run 0 0 (goto (S n) t)); [done|lia|unfold FINSH_STRING_MAX; lia]).
  change (set_string _ (goto (S n) t)) with (goto (S n) t1). rewrite Hd.
  assert (reading t1) as Ht1 by (split; [done|]; simpl; by rewrite length_insert).
  rewrite (bind_ok _ _ _ _ _ (line_fuel_run _ _)).
  unfold FINSH_NAME_MAX, FINSH_STRING_MAX in *. simpl in Hlen.
  destruct (get_string_loop_run l (S (S (length (tk_line (goto (S n) t1))))) ch (S n) c' t1 s []
    (tk_string t1)) as (rest' & E & El); try done.
  { simpl in Hc. by eapply code_at_tail. }
  { apply code_at_length in Hc. rewrite length_app in Hc. simpl in *. lia. }
  { destruct Ht1 as [_ ->]. unfold FINSH_STRING_MAX. lia. }
  simpl in E. rewrite (bind_ok _ _ _ _ _ E). rewrite (bind_ok _ _ _ _ _ (upd_token_run _ _ _)).
  set (t2 := set_eof false (set_string (ch :: l ++ rest') t1)).
  change (set_eof false _) with (goto (S (S (n + length l))) t2).
  assert (reading t2) as Ht2.
  { split; [done|]. destruct Ht1 as [_ Hl1]. simpl. rewrite length_app, <- Hl1. lia. }
  erewrite bind_ok by (by apply prev_char_run).
  erewrite bind_ok.
  2: { apply (put_string_run (S (length l)) 0 (goto (S (n + length l)) t2));
         [done|lia|unfold FINSH_STRING_MAX; lia]. }
  exists (set_string (<[S (length l) := 0]> (tk_string t2)) t2). split_and!.
  - unfold ret. do 2 f_equal. simpl length. by rewrite Nat.add_succ_r.
  - split_and!; try done. split; [done|]. destruct Ht2 as [_ Hl2].
    change (length (<[S (length l) := 0]> (tk_string t2)) = Z.to_nat FINSH_STRING_MAX).
    by rewrite length_insert.
  - cbn [set_string tk_string t2]. simpl. destruct rest' as [|y rest'].
    { destruct Ht1 as [_ Hl1]. rewrite Hl1 in El. simpl in El. unfold FINSH_STRING_MAX in El. lia. }
    rewrite insert_app_r_alt, Nat.sub_diag by lia. simpl.
    apply (c_string_app (ch :: l)). by apply separator_nonzero.
Qed.

(** ** Operators *)
Lemma double_char_same n ch type other t s : reading t → tk_line t !! n = Some ch → ch ≠ ch_nl →
  double_char ch type other (set_token (goto n t) s) =
  Ok tt (set_token (goto (S n) (set_current_token type t)) s).
Proof.
  intros Ht Hc Hnl. unfold double_char. erewrite bind_ok by (by eapply next_char_run).
  by rewrite Z.eqb_refl.
Qed.

Lemma double_char_other n ch c type other t s : reading t → tk_line t !! n = Some c →
  c ≠ ch_nl → c ≠ ch →
  double_char ch type other (set_token (goto n t) s) =
  Ok tt (set_token (goto n (set_current_token other t)) s).
Proof.
  intros Ht Hc Hnl Hne. unfold double_char. erewrite bind_ok by (by eapply next_char_run).
  destruct (Z.eqb_spec c ch); [done|]. by erewrite bind_ok by (by apply prev_char_run).
Qed.

Lemma operator_run type n t s : reading t → op_spelling type ≠ [] →
  code_at (tk_line t) n (op_spelling type ++ [32]) →
  token_operator (set_token (goto n t) s) =
  Ok tt (set_token (goto (n + length (op_spelling type)) (set_current_token type t)) s).
Proof.
  intros Ht Hne Hc.
  assert (∃ c l, op_spelling type = c :: l ∧ c ≠ ch_nl) as (c & l & E & Hnl)
    by (destruct type; try done; by eexists _, _).
  unfold token_operator. rewrite E in Hc. simpl in Hc.
  erewrite bind_ok by (eapply next_char_run; [done|by eapply code_at_head|done]).
  apply code_at_tail in Hc. rewrite E. simpl length. rewrite Nat.add_comm. simpl Nat.add.
  destruct type; try done; simpl in E; injection E as <- <-; cbv beta; cbn [Z.eqb Pos.eqb];
    try reflexivity; simpl in Hc.
  all: try (erewrite double_char_same by (done || by eapply code_at_head); done).
  all: erewrite double_char_other by (done || by eapply code_at_head); done.
Qed.

Lemma char_run c n t s : reading t → 32 ≤ c < 2 ^ 8 → c ≠ 92 →
  code_at (tk_line t) n ([39; c; 39] ++ [32]) →
  token_operator (set_token (goto n t) s) =
  Ok tt (set_token (goto (n + 3)
    (set_current_token finsh_token_type_value_char (set_tk_value (set_low 8 (tk_value t) c) t))) s).
Proof.
  intros Ht Hc Hb Hcode. cbn [app] in Hcode. unfold token_operator.
  erewrite bind_ok by (eapply next_char_run; [done|by eapply code_at_head|done]).
  cbv beta. cbn [Z.eqb Pos.eqb]. unfold token_proc_char.
  erewrite (bind_ok (bind _ _)).
  2: { erewrite bind_ok by (eapply next_char_run; [done|eauto with code|unfold ch_nl; lia]).
       destruct (Z.eqb_spec c 92); [done|]. rewrite bind_ret.
       by erewrite bind_ok by (eapply next_char_run; [done|eauto with code|done]). }
  rewrite (bind_ok _ _ _ _ _ (upd_token_run _ _ _)). unfold set_current. rewrite upd_token_run.
  by replace (n + 3)%nat with (S (S (S n))) by lia.
Qed.

(** ** Numbers *)
Lemma value_grows l : ∀ v, Forall (λ c, is_digit c = true) l → 0 ≤ v →
  v ≤ foldl (λ v c, v * 10 + (c - 48)) v l.
Proof.
  induction l as [|c l IH]; intros v Hl Hv; simpl; [lia|].
  apply Forall_cons in Hl as [Hc Hl]. unfold is_digit in Hc.
  etrans; [|apply IH; [done|lia]]. lia.
Qed.

Lemma decimal_loop_run l : ∀ fuel ch v n c' t s,
  reading t → Forall (λ c, is_digit c = true) (ch :: l) → is_digit c' = false → c' ≠ ch_nl →
  code_at (tk_line t) n (l ++ [c']) → (S (length l) < fuel)%nat → 0 ≤ v →
  foldl (λ v c, v * 10 + (c - 48)) v (ch :: l) < 2 ^ 31 →
  decimal_loop fuel ch v (set_token (goto n t) s) =
  Ok (foldl (λ v c, v * 10 + (c - 48)) v (ch :: l), c') (set_token (goto (S (n + length l)) t) s).
Proof.
  induction l as [|x l IH]; intros [|fuel] ch v n c' t s Ht [Hch Hl]%Forall_cons Hc' Hnl Hc Hf Hv Hlt;
    simpl in Hf; try lia; cbn [decimal_loop]; rewrite Hch; simpl in Hlt.
  all: assert (0 ≤ ch - 48 ≤ 9) as Hb by (unfold is_digit in Hch; lia).
  - erewrite bind_ok by (eapply next_char_run; [done|by eapply code_at_head|done]).
    destruct fuel as [|fuel]; [lia|]. cbn [decimal_loop]. rewrite Hc'.
    unfold ret. simpl. rewrite s32_small by lia. by rewrite Nat.add_0_r.
  - pose proof (value_grows (x :: l) (v * 10 + (ch - 48)) Hl ltac:(lia)) as Hg. simpl in Hg, Hc.
    apply Forall_cons in Hl as [Hx Hl].
    erewrite bind_ok.
    2: { eapply next_char_run; [done|by eapply code_at_head|]. by intros ->. }
    rewrite s32_small by lia.
    rewrite (IH fuel x _ (S n) c'); [|done|by constructor|done|done|by eapply code_at_tail|lia|lia|done].
    do 3 f_equal. simpl. lia.
Qed.

Lemma int_token_run v t s : int_token v (set_token t s) =
  Ok tt (set_token (set_current_token finsh_token_type_value_int (set_tk_value (u32 v) t)) s).
Proof. done. Qed.

Lemma suffix_none n c t s : reading t → (c =? 108) || (c =? 76) = false →
  number_suffix c (set_token (goto (S n) t) s) = Ok tt (set_token (goto n t) s).
Proof. intros Ht Hc. unfold number_suffix. rewrite Hc. by apply prev_char_run. Qed.

(** A number without a leading zero, and the character behind it. *)
Lemma decimal_run x n c' t s : reading t → 0 < x < 2 ^ 31 → is_digit c' = false → c' ≠ ch_nl →
  code_at (tk_line t) n (decimal x ++ [c']) →
  token_operator (set_token (goto n t) s) =
  (int_token x ;;; number_suffix c') (set_token (goto (S (n + length (decimal x))) t) s).
Proof.
  intros Ht Hx Hc' Hnl Hcode. destruct (decimal_head x Hx) as (ch & l & E & Hne).
  pose proof (decimal_digits x ltac:(lia)) as Hd. pose proof (decimal_value x ltac:(lia)) as Hv.
  unfold value_of in Hv. rewrite E in *. simpl in Hcode.
  pose proof (proj1 (Forall_cons _ _ _) Hd) as [Hch _]. unfold is_digit in Hch.
  unfold token_operator. erewrite bind_ok.
  2: { eapply next_char_run; [done|by eapply code_at_head|unfold ch_nl; lia]. }
  repeat match goal with |- context [ch =? ?k] => destruct (Z.eqb_spec ch k); [lia|] end.
  unfold is_digit at 1. rewrite Hch.
  erewrite bind_ok by (by apply prev_char_run). unfold token_proc_number.
  erewrite bind_ok.
  2: { eapply next_char_run; [done|by eapply code_at_head|unfold ch_nl; lia]. }
  destruct (Z.eqb_spec ch 48); [lia|]. rewrite (bind_ok _ _ _ _ _ (line_fuel_run _ _)).
  erewrite bind_ok.
  2: { apply (decimal_loop_run l _ ch 0 (S n) c'); try done; [by eapply code_at_tail| |lia].
       apply code_at_length in Hcode. simpl in Hcode. rewrite length_app in Hcode. simpl in *. lia. }
  rewrite Hv. simpl length. by rewrite Nat.add_succ_r.
Qed.

Lemma zero_run n t s : reading t → code_at (tk_line t) n [48; 32] →
  token_operator (set_token (goto n t) s) = int_token 0 (set_token (goto (S n) t) s).
Proof.
  intros Ht Hc. unfold token_operator.
  erewrite bind_ok by (eapply next_char_run; [done|by eapply code_at_head|done]).
  cbv beta. cbn [Z.eqb Pos.eqb]. change (is_digit 48) with true. cbv iota.
  erewrite bind_ok by (by apply prev_char_run). unfold token_proc_number.
  erewrite bind_ok by (eapply next_char_run; [done|by eapply code_at_head|done]).
  cbv beta. cbn [Z.eqb Pos.eqb].
  erewrite bind_ok by (eapply next_char_run; [done|by eapply code_at_head, code_at_tail|done]).
  cbv beta. cbn [Z.eqb Pos.eqb orb andb Z.leb Z.compare Pos.compare Pos.compare_cont].
  by erewrite bind_ok by (by apply prev_char_run).
Qed.

(** ** A token *)

(** The token [t] has read [tk]. *)
Definition has (tk : tok) (t : finsh_token) : Prop :=
  tk_current_token t = tok_type tk ∧
  match tk with
  | TName name => c_string (tk_string t) = name
  | TInt x | TLong x => tk_value t = x
  | TChar c => u8 (tk_value t) = c
  | _ => True
  end.

(** From [t], [tk] is read in [n] characters. *)
Definition reads (t : finsh_token) (tk : tok) (t' : finsh_token) : Prop :=
  reading t' ∧ tk_line t' = tk_line t ∧ tk_replay t' = tk_replay t ∧ has tk t'.

Lemma number_tok tk n t s : match tk with TInt _ | TLong _ => True | _ => False end →
  reading t → valid_tok tk → code_at (tk_line t) n (spell tk ++ [32]) →
  ∃ t', token_operator (set_token (goto n t) s) =
    Ok tt (set_token (goto (n + length (spell tk)) t') s) ∧ reads t tk t'.
Proof.
  intros Hk Ht Hv Hc. destruct tk as [| |x|x| |]; try done; clear Hk; simpl in Hv, Hc.
  - destruct (decide (x = 0)) as [->|].
    { eexists (set_current_token finsh_token_type_value_int (set_tk_value (u32 0) t)).
      split; [|done]. rewrite zero_run by done. simpl. by rewrite Nat.add_1_r. }
    rewrite (decimal_run x n 32) by (done || lia). rewrite (bind_ok _ _ _ _ _ (int_token_run _ _ _)).
    set (t' := set_current_token finsh_token_type_value_int (set_tk_value (u32 x) t)).
    exists t'. split; [by apply (suffix_none _ 32 t')|]. split_and!; [done..|]. split; [done|]. apply u32_small. lia.
  - rewrite <- app_assoc in Hc.
    rewrite (decimal_run x n 76); [|done|done|done|done|].
    2: { apply (code_at_app_l _ _ _ [32]). by rewrite <- app_assoc. }
    rewrite (bind_ok _ _ _ _ _ (int_token_run _ _ _)).
    exists (set_current_token finsh_token_type_value_long (set_tk_value (u32 x) t)). split.
    + replace (n + length (spell (TLong x)))%nat with (S (n + length (decimal x)))
        by (simpl; rewrite length_app; simpl; lia). done.
    + split_and!; [done..|]. split; [done|]. apply u32_small. lia.
Qed.

Lemma has_name name t : c_string (tk_string t) = name →
  has (TName name) (set_current_token finsh_token_type_identifier t).
Proof. done. Qed.

(** The branches of [token_run] behind [token_get_string]. *)
Definition token_kind : F unit :=
  let! eof := is_eof in
  if (eof : bool) then set_current finsh_token_type_eof
  else
    let! t := gets token in
    let str := c_string (tk_string t) in
    if negb (bool_decide (str = [])) then
      let! keyword := token_match_name str in
      when negb keyword then set_current finsh_token_type_identifier
    else token_operator.

Lemma kind_operator t s : reading t → c_string (tk_string t) = [] →
  token_kind (set_token t s) = token_operator (set_token t s).
Proof.
  intros [He _] Hs. unfold token_kind. rewrite (bind_ok _ _ _ _ _ (is_eof_run _ _)), He.
  rewrite bind_gets. change (token _) with t. rewrite Hs. by rewrite bool_decide_true.
Qed.

Lemma kind_name t s name : reading t → c_string (tk_string t) = name → name ≠ [] →
  token_kind (set_token t s) = Ok tt (set_token (set_current_token
    (default finsh_token_type_identifier (match_name finsh_name_table name)) t) s).
Proof.
  intros [He _] Hs Hn. unfold token_kind. rewrite (bind_ok _ _ _ _ _ (is_eof_run _ _)), He.
  rewrite bind_gets. change (token _) with t. rewrite Hs, bool_decide_false by done. cbn [negb].
  unfold token_match_name. by destruct (match_name _ name) as [type|].
Qed.

Lemma token_run_eq s :
  token_run s = (token_trim_space ;;; let! _ := token_get_string in token_kind) s.
Proof. done. Qed.

(** A token that begins with no letter. *)
Lemma scan_operator c tk t n s : reading t → c ≠ ch_nl → is_separator c = true ∨ is_digit c = true →
  tk_line t !! n = Some c →
  (∀ t, reading t → tk_line t !! n = Some c → code_at (tk_line t) n (spell tk ++ [32]) →
    ∃ t', token_operator (set_token (goto n t) s) =
      Ok tt (set_token (goto (n + length (spell tk)) t') s) ∧ reads t tk t') →
  code_at (tk_line t) n (spell tk ++ [32]) →
  ∃ t', (let! _ := token_get_string in token_kind) (set_token (goto n t) s) =
    Ok tt (set_token (goto (n + length (spell tk)) t') s) ∧ reads t tk t'.
Proof.
  intros Ht Hnl Hk Hn Hop Hc.
  destruct (get_string_none n c t s Ht Hn Hnl Hk) as (r & t1 & E & (R1 & L1 & P1 & V1) & C1).
  rewrite (bind_ok _ _ _ _ _ E). rewrite kind_operator by done.
  destruct (Hop t1 R1) as (t2 & E2 & R2 & L2 & P2 & H2); [by rewrite L1..|].
  exists t2. split; [exact E2|]. split_and!; [done|congruence|congruence|done].
Qed.

Lemma spell_head tk : valid_tok tk → ∃ c l, spell tk = c :: l ∧ ¬ is_space c ∧ c ≠ ch_nl ∧
  match tk with
  | TName _ | TNull => True
  | _ => is_separator c = true ∨ is_digit c = true
  end.
Proof.
  unfold is_space, ch_nl. destruct tk as [type|name|x|x| |c]; simpl; intros Hv.
  - destruct type; try done; eexists _, _; (split_and!; [done|lia|done|by left]).
  - destruct Hv as (Hn & Hd & _). destruct name as [|c l]; [done|]. exists c, l.
    apply Forall_cons in Hn as [Hc _]. unfold is_separator, is_digit in *. split_and!; [done|lia|lia|done].
  - destruct (decide (x = 0)) as [->|].
    { eexists _, _. split_and!; [done|lia|done|by right]. }
    destruct (decimal_head x ltac:(lia)) as (c & l & E & _).
    pose proof (decimal_digits x ltac:(lia)) as Hd. rewrite E in *. exists c, l.
    apply Forall_cons in Hd as [Hc _]. unfold is_digit in Hc. split_and!; [done|lia|lia|by right].
  - destruct (decimal_head x ltac:(lia)) as (c & l & E & _).
    pose proof (decimal_digits x ltac:(lia)) as Hd. rewrite E in *. exists c, (l ++ [76]).
    apply Forall_cons in Hd as [Hc _]. unfold is_digit in Hc. split_and!; [done|lia|lia|by right].
  - eexists _, _. split_and!; [done|lia|done|done].
  - eexists _, _. split_and!; [done|lia|done|by left].
Qed.

Lemma scan_name name tk t n s : reading t → valid_tok tk → spell tk = name →
  Forall (λ c, is_separator c = false) name →
  match name with c :: _ => is_digit c = false | [] => False end →
  (length name < FINSH_NAME_MAX)%nat →
  default finsh_token_type_identifier (match_name finsh_name_table name) = tok_type tk →
  match tk with TName x => x = name | TNull => True | _ => False end →
  code_at (tk_line t) n (name ++ [32]) →
  ∃ t', (let! _ := token_get_string in token_kind) (set_token (goto n t) s) =
    Ok tt (set_token (goto (n + length name) t') s) ∧ reads t tk t'.
Proof.
  intros Ht Hv Hs Hsep Hd Hl Hm Hk Hc.
  destruct (get_string_name name n 32 t s Ht Hsep Hd Hl eq_refl ltac:(done) Hc)
    as (t1 & E & (R1 & L1 & P1 & V1) & C1).
  rewrite (bind_ok _ _ _ _ _ E). rewrite (kind_name _ _ name); [|done|done|by destruct name].
  rewrite Hm. exists (set_current_token (tok_type tk) t1). split; [done|]. split_and!; [done..|].
  split; [done|]. destruct tk; try done. by rewrite Hk.
Qed.

Lemma scan tk t n s : reading t → valid_tok tk → code_at (tk_line t) n (spell tk ++ [32]) →
  ∃ t', (let! _ := token_get_string in token_kind) (set_token (goto n t) s) =
    Ok tt (set_token (goto (n + length (spell tk)) t') s) ∧ reads t tk t'.
Proof.
  intros Ht Hv Hc. destruct (spell_head tk Hv) as (c & l & E & _ & Hnl & Hk).
  assert (tk_line t !! n = Some c) as Hn by (rewrite E in Hc; by eapply code_at_head).
  destruct tk as [type|name|x|x| |d].
  - eapply scan_operator; [done|exact Hnl|exact Hk|done| |done]. intros t1 R1 _ C1.
    exists (set_current_token type t1). split; [by apply operator_run|done].
  - destruct Hv as (Hs & Hd & Hl & Hm). simpl in Hc |- *.
    eapply scan_name; try done. all: rewrite Hm; done.
  - eapply scan_operator; [done|exact Hnl|exact Hk|done| |done]. intros t1 R1 _ C1.
    by apply (number_tok (TInt x)).
  - eapply scan_operator; [done|exact Hnl|exact Hk|done| |done]. intros t1 R1 _ C1.
    by apply (number_tok (TLong x)).
  - eapply scan_name; try done; [repeat constructor|]. simpl. unfold FINSH_NAME_MAX. lia.
  - eapply scan_operator; [done|exact Hnl|exact Hk|done| |done]. intros t1 R1 _ C1. destruct Hv as [Hv Hd].
    exists (set_current_token finsh_token_type_value_char (set_tk_value (set_low 8 (tk_value t1) d) t1)).
    split; [by apply char_run|]. split_and!; [done..|]. split; [done|]. simpl. unfold u8, wrap.
    rewrite set_low_mod by lia. apply Z.mod_small. lia.
Qed.

(** [token_run] behind spaces. *)
Lemma token_run_tok ws tk t n s : reading t → valid_tok tk → Forall is_space ws →
  code_at (tk_line t) n (ws ++ spell tk ++ [32]) →
  ∃ t', token_run (set_token (goto n t) s) =
    Ok tt (set_token (goto (n + length ws + length (spell tk)) t') s) ∧ reads t tk t'.
Proof.
  intros Ht Hv Hws Hc. rewrite token_run_eq. destruct (spell_head tk Hv) as (c & l & E & Hsp & Hnl & _).
  erewrite bind_ok.
  2: { apply (trim_space_run ws n c); [done|done| |done|done]. rewrite E in Hc.
       apply (code_at_app_l _ _ _ (l ++ [32])). by rewrite <- app_assoc. }
  apply scan; [done|done|]. by eapply code_at_app_r.
Qed.

(** [token_run] behind the last token. *)
Lemma token_run_end ws t n s : reading t → Forall is_space ws →
  (n + length ws = length (tk_line t))%nat → code_at (tk_line t) n ws →
  ∃ t', token_run (set_token (goto n t) s) = Ok tt (set_token t' s) ∧
    tk_current_token t' = finsh_token_type_eof.
Proof.
  intros Ht Hws Hlen Hc. rewrite token_run_eq. unfold token_trim_space.
  assert (∀ ws fuel n, Forall is_space ws → code_at (tk_line t) n ws →
    (n + length ws)%nat = length (tk_line t) → (length ws < fuel)%nat →
    trim_loop fuel (set_token (goto n t) s) = Ok tt (set_token (goto 0 (set_eof true t)) s)) as Htrim.
  { clear -Ht. intros ws. induction ws as [|w ws IH]; intros [|fuel] n Hws Hc Hl Hf; simpl in Hf, Hl; try lia;
      cbn [trim_loop].
    - by erewrite bind_ok by (apply end_char_run; [done|lia]).
    - apply Forall_cons in Hws as [Hw Hws].
      erewrite bind_ok by (eapply next_char_run; [done|by eapply code_at_head|];
        unfold is_space, ch_nl in *; lia).
      destruct (_ || _) eqn:E; [|unfold is_space in Hw; lia]. simpl.
      apply IH; [done|by eapply code_at_tail|lia|lia]. }
  rewrite bind_assoc. rewrite (bind_ok _ _ _ _ _ (line_fuel_run _ _)). rewrite bind_assoc.
  erewrite bind_ok by (apply (Htrim ws); [done|done|done|cbn [goto set_position tk_line]; lia]).
  exists (set_current_token finsh_token_type_eof (goto 0 (set_eof true t))). done.
Qed.

(** ** The tokens of a line *)

(** [r] spells [l]: with a space behind each token, which the semicolon at the
    end may lack. *)
Definition spelled (l : list tok) (r : list Z) : Prop :=
  r = text l ∨ ∃ l', l = l' ++ [TOp finsh_token_type_semicolon] ∧ r = text l' ++ [59].

Lemma spelled_cons x l r : spelled (x :: l) r →
  (∃ r', r = spell x ++ [32] ++ r' ∧ spelled l r') ∨
  (x = TOp finsh_token_type_semicolon ∧ l = [] ∧ r = [59]).
Proof.
  intros [->|([|y l'] & [= -> ->] & ->)].
  - left. exists (text l). split; [by unfold text; simpl; rewrite <- app_assoc|by left].
  - by right.
  - left. exists (text l' ++ [59]). split; [by unfold text; simpl; rewrite <- !app_assoc|].
    right. by exists l'.
Qed.

Lemma spelled_nil r : spelled [] r → r = [].
Proof. intros [->|(l & E & _)]; [done|by destruct l]. Qed.

Lemma spelled_length l r : spelled l r → (length l ≤ length r)%nat.
Proof.
  assert (∀ l, length l ≤ length (text l))%nat as Ht.
  { clear. intros l. induction l as [|x l IH]; [done|]. unfold text in *. simpl. rewrite !length_app. simpl. lia. }
  intros [->|(l' & -> & ->)]; [done|]. rewrite !length_app. specialize (Ht l'). simpl. lia.
Qed.

(** [ahead line t l]: what follows in the line are the tokens [l]. *)
Definition ahead (line : list Z) (t : finsh_token) (l : list tok) : Prop :=
  reading t ∧ tk_replay t = false ∧ tk_line t = line ∧ Forall valid_tok l ∧
  ∃ ws r n, tk_position t = Z.of_nat n ∧ Forall is_space ws ∧ spelled l r ∧
    code_at line n (ws ++ r) ∧ (n + length (ws ++ r) = length line)%nat.

(** The token [x] was read last. *)
Definition passed (line : list Z) (t : finsh_token) (x : tok) (l : list tok) : Prop :=
  valid_tok x ∧ has x t ∧ ahead line t l.

(** What [finsh_token_token] returns one after the other: the first one may be
    replayed. *)
Definition stream (line : list Z) (t : finsh_token) (l : list tok) : Prop :=
  ahead line t l ∨ ∃ t0 x l', t = set_replay true t0 ∧ l = x :: l' ∧ passed line t0 x l'.

Lemma goto_self t n : tk_position t = Z.of_nat n → t = goto n t.
Proof. intros Hn. unfold goto, set_position. rewrite <- Hn. by destruct t. Qed.

(** A semicolon that ends the line. *)
Lemma token_run_last ws t n s : reading t → Forall is_space ws →
  code_at (tk_line t) n (ws ++ [59]) →
  ∃ t', token_run (set_token (goto n t) s) =
    Ok tt (set_token (goto (n + length ws + 1) t') s) ∧ reads t (TOp finsh_token_type_semicolon) t'.
Proof.
  intros Ht Hws Hc. rewrite token_run_eq.
  erewrite bind_ok by (apply (trim_space_run ws n 59); unfold is_space, ch_nl; try done; lia).
  pose proof (code_at_head _ _ _ _ (code_at_app_r _ _ _ _ Hc)) as Hn.
  destruct (get_string_none (n + length ws) 59 t s Ht Hn ltac:(done) ltac:(by left))
    as (r & t1 & E & (R1 & L1 & P1 & V1) & C1).
  rewrite (bind_ok _ _ _ _ _ E), kind_operator by done.
  exists (set_current_token finsh_token_type_semicolon t1). split.
  - unfold token_operator. erewrite bind_ok by (eapply next_char_run; [done|by rewrite L1|done]).
    cbn [Z.eqb]. by rewrite Nat.add_1_r.
  - split_and!; [done|simpl; congruence|simpl; congruence|done].
Qed.

Lemma ahead_next line t x l s : ahead line t (x :: l) →
  ∃ t', token_run (set_token t s) = Ok tt (set_token t' s) ∧ passed line t' x l.
Proof.
  intros (Ht & Hp & Hl & [Hx Hv]%Forall_cons & ws & r & n & Hn & Hws & Hr & Hc & Hlen).
  rewrite (goto_self t n Hn). subst line. rewrite length_app in Hlen.
  destruct (spelled_cons _ _ _ Hr) as [(r' & -> & Hr')|(-> & -> & ->)].
  - destruct (token_run_tok ws x t n s Ht Hx Hws) as (t' & E & R & L & P & Hh).
    { apply (code_at_app_l _ _ _ r'). by rewrite <- !app_assoc. }
    eexists. split; [exact E|]. split; [exact Hx|]. split; [exact Hh|].
    split_and!; [exact R|simpl; congruence|exact L|done|].
    exists [32], r', (n + length ws + length (spell x))%nat.
    split; [done|]. split; [apply Forall_singleton; by left|]. split; [done|]. split.
    + rewrite app_assoc in Hc. apply code_at_app_r in Hc. by rewrite length_app, Nat.add_assoc in Hc.
    + rewrite !length_app in *. simpl in *. lia.
  - destruct (token_run_last ws t n s Ht Hws Hc) as (t' & E & R & L & P & Hh).
    eexists. split; [exact E|]. split; [exact Hx|]. split; [exact Hh|].
    split_and!; [exact R|simpl; congruence|exact L|done|].
    exists [], [], (n + length ws + 1)%nat. split_and!; [done|done|by left|by intros k c Hk|simpl in *; lia].
Qed.

Lemma next_token_run line t x l s : stream line t (x :: l) →
  ∃ t', finsh_token_token (set_token t s) = Ok (tok_type x) (set_token t' s) ∧ passed line t' x l.
Proof.
  unfold finsh_token_token. rewrite bind_gets. change (token (set_token t s)) with t.
  intros [Ha|(t0 & x' & l' & -> & [= <- <-] & Hp)].
  - pose proof Ha as (_ & -> & _). destruct (ahead_next line t x l s Ha) as (t' & E & Hp).
    exists t'. split; [|done]. rewrite (bind_ok _ _ _ _ _ E). destruct Hp as (_ & [Hh _] & _).
    unfold gets. simpl. by rewrite Hh.
  - exists t0. split; [|done]. destruct Hp as (_ & [Hh _] & _ & Hr & _).
    cbn [set_replay tk_replay]. rewrite (bind_ok _ _ _ _ _ (upd_token_run _ _ _)).
    unfold gets. simpl. rewrite Hh. do 2 f_equal. unfold set_replay. simpl. rewrite <- Hr. by destruct t0.
Qed.

Lemma replay_run line t x l s : passed line t x l →
  finsh_token_replay (set_token t s) = Ok tt (set_token (set_replay true t) s) ∧
  stream line (set_replay true t) (x :: l).
Proof. intros Hp. split; [done|]. right. by exists t, x, l. Qed.

Lemma passed_stream line t x l : passed line t x l → stream line t l.
Proof. intros (_ & _ & Ha). by left. Qed.

Lemma end_token_run line t s : stream line t [] →
  ∃ t', finsh_token_token (set_token t s) = Ok finsh_token_type_eof (set_token t' s).
Proof.
  intros [(Ht & Hp & Hl & _ & ws & r & n & Hn & Hws & Hr & Hc & Hlen)|(t0 & x & l' & _ & [=] & _)].
  unfold finsh_token_token. rewrite bind_gets. change (token (set_token t s)) with t. rewrite Hp.
  apply spelled_nil in Hr as ->. rewrite app_nil_r in Hc, Hlen. subst line.
  destruct (token_run_end ws t n s Ht Hws Hlen Hc) as (t' & E & Ht').
  rewrite <- (goto_self t n Hn) in E. exists t'. rewrite (bind_ok _ _ _ _ _ E).
  unfold gets. simpl. by rewrite Ht'.
Qed.

(** [finsh_token_init] on the text of tokens. *)
Lemma init_stream line l s : spelled l line → Forall valid_tok l → ∃ t,
  finsh_token_init line s = Ok tt (set_token t s) ∧ stream line t l.
Proof.
  intros Hr Hv. eexists. split; [done|]. left. split_and!; try done.
  exists [], line, 0%nat. split_and!; try done. by intros k x Hk.
Qed.

(** ** Round trip *)

(** What the tokenizer has read. *)
Definition tok_of (t : finsh_token) : tok :=
  match tk_current_token t with
  | finsh_token_type_identifier => TName (c_string (tk_string t))
  | finsh_token_type_value_int => TInt (tk_value t)
  | finsh_token_type_value_long => TLong (tk_value t)
  | finsh_token_type_value_null => TNull
  | finsh_token_type_value_char => TChar (u8 (tk_value t))
  | type => TOp type
  end.

(** The tokens up to the end of the line. *)
Fixpoint read_tokens (n : nat) : F (list tok) :=
  match n with
  | O => fail OutOfFuel
  | S n =>
    let! type := finsh_token_token in
    if bool_decide (type = finsh_token_type_eof) then ret []
    else
      let! t := gets token in
      let! l := read_tokens n in
      ret (tok_of t :: l)
  end.

Lemma tok_of_has x t : valid_tok x → has x t → tok_of t = x.
Proof.
  unfold tok_of. intros Hv [-> Hx]. destruct x as [type|name|x|x| |c]; simpl in *; try congruence.
  by destruct type.
Qed.

Lemma read_tokens_run line l : ∀ n t s, stream line t l → (length l < n)%nat →
  ∃ t', read_tokens n (set_token t s) = Ok l (set_token t' s).
Proof.
  induction l as [|x l IH]; intros [|n] t s Hs Hn; simpl in Hn; try lia; cbn [read_tokens].
  - destruct (end_token_run line t s Hs) as (t1 & E). rewrite (bind_ok _ _ _ _ _ E). by exists t1.
  - destruct (next_token_run line t x l s Hs) as (t1 & E & H1). rewrite (bind_ok _ _ _ _ _ E).
    pose proof H1 as (Hv & Hx & _). rewrite bool_decide_false.
    2: { intros E'. destruct Hx as [_ Hx]. destruct x; try done. simpl in E'. by subst. }
    rewrite bind_gets. destruct (IH n t1 s (passed_stream _ _ _ _ H1)) as (t2 & E2); [lia|].
    rewrite (bind_ok _ _ _ _ _ E2). exists t2. unfold ret. by rewrite (tok_of_has x).
Qed.

(** The tokenizer reads back every list of tokens that is spelled with a space
    behind each token: names, numbers, characters and operators. *)
Theorem tokens_roundtrip l s : Forall valid_tok l →
  ∃ s', (finsh_token_init (text l) ;;; read_tokens (S (length l))) s = Ok l s'.
Proof.
  intros Hv. destruct (init_stream (text l) l s ltac:(by left) Hv) as (t & E & Hs).
  rewrite (bind_ok _ _ _ _ _ E). destruct (read_tokens_run _ l (S (length l)) t s Hs) as (t' & E'); [lia|]. by exists (set_token t' s).
Qed.

(** [x1 = 7 << 'a' ++ 40L ;] *)
Definition demo_toks : list tok :=
  [TName [120; 49]; TOp finsh_token_type_assign; TInt 7; TOp finsh_token_type_shl; TChar 97;
   TOp finsh_token_type_inc; TLong 40; TNull; TOp finsh_token_type_semicolon].

Lemma demo_toks_valid : Forall valid_tok demo_toks.
Proof. by apply (bool_decide_unpack _); vm_compute. Qed.

Lemma tokens_roundtrip_witness : ∃ s',
  (finsh_token_init (text demo_toks) ;;; read_tokens 10) demo = Ok demo_toks s'.
Proof. exact (tokens_roundtrip demo_toks demo demo_toks_valid). Defined.
