(* ===== verification/FinshGrammar.v ===== *)
(** * Expressions as text: the parser builds their trees

    An expression that needs no parentheses is printed as tokens.  The parser
    reads them back as a tree of the expression. *)

From S2P Require Import Prelude FinshDef FinshHeap FinshNode FinshToken FinshParser FinshVm.
From S2P Require Import FinshVmSpec FinshTree FinshExpr FinshText.

(** ** Printing *)
Definition bin_token (op : binop) : token_type :=
  match op with
  | BAdd => finsh_token_type_add | BSub => finsh_token_type_sub | BMul => finsh_token_type_mul
  | BDiv => finsh_token_type_div | BMod => finsh_token_type_mod | BAnd => finsh_token_type_and
  | BOr => finsh_token_type_or | BXor => finsh_token_type_xor | BShl => finsh_token_type_shl
  | BShr => finsh_token_type_shr
  end.
Definition step_token (inc : bool) : token_type :=
  if inc then finsh_token_type_inc else finsh_token_type_dec.

(** The level of a binary operator: 1 binds least. *)
Definition op_level (op : binop) : nat :=
  match op with
  | BOr => 1 | BXor => 2 | BAnd => 3 | BShl | BShr => 4 | BAdd | BSub => 5
  | BMul | BDiv | BMod => 6
  end.
Definition level (e : expr) : nat :=
  match e with
  | EAssign _ _ | EStore _ _ => 0
  | EBin op _ _ => op_level op
  | _ => 7
  end.

(** The nodes of a tree. *)
Fixpoint nsize (e : expr) : nat :=
  match e with
  | EChar _ | ELit _ _ | EId _ => 1
  | EBin _ a b => nsize a + nsize b + 1
  | ENot a | ELoad a => nsize a + 1
  | ECall _ args => 1 + nsizes args + 1
  | EAssign _ a => 1 + nsize a + 1
  | EStore p a => nsize p + 1 + nsize a + 1
  | EPre _ _ | EPost _ _ | EAddr _ => 2
  end
with nsizes (l : exprs) : nat :=
  match l with
  | ENil => 0
  | ECons a l => nsize a + nsizes l
  end.

Section printing.
Context `{FinshEnv} (vars : list finsh_var).

Definition id_name (x : finsh_id) : list Z :=
  match x with
  | IdVar k => match vars !! k with Some v => var_name v | None => [] end
  | IdSysvar v => sysvar_name v
  | IdSyscall c => syscall_name c
  | IdNone => []
  end.

Fixpoint toks (e : expr) : list tok :=
  match e with
  | EChar c => [TChar c]
  | ELit LInt x => [TInt x]
  | ELit LLong x => [TLong x]
  | ELit _ _ => [TNull]
  | EId x => [TName (id_name x)]
  | EBin op a b => toks a ++ TOp (bin_token op) :: toks b
  | ENot a => TOp finsh_token_type_bitwise :: toks a
  | ECall f args =>
    TName (syscall_name f) :: TOp finsh_token_type_left_paren ::
    args_toks args ++ [TOp finsh_token_type_right_paren]
  | EAssign x a => TName (id_name x) :: TOp finsh_token_type_assign :: toks a
  | EStore p a => (TOp finsh_token_type_mul :: toks p) ++ TOp finsh_token_type_assign :: toks a
  | EPre inc k => [TOp (step_token inc); TName (id_name (IdVar k))]
  | EPost inc k => [TName (id_name (IdVar k)); TOp (step_token inc)]
  | ELoad p => TOp finsh_token_type_mul :: toks p
  | EAddr x => [TOp finsh_token_type_and; TName (id_name x)]
  end
with args_toks (l : exprs) : list tok :=
  match l with
  | ENil => []
  | ECons a l => toks a ++ more_toks l
  end
with more_toks (l : exprs) : list tok :=
  match l with
  | ENil => []
  | ECons a l => TOp finsh_token_type_comma :: toks a ++ more_toks l
  end.

(** Expressions that need no parentheses: the parser takes an open
    parenthesis for the beginning of a cast. *)
Fixpoint plain (e : expr) : Prop :=
  match e with
  | EChar _ | ELit LInt _ | ELit LLong _ | EId _ | EPre _ _ | EPost _ _ | EAddr _ => True
  | ELit LNull x => x = 0
  | ELit LString _ => False   (* its address is that of a block of the heap *)
  | EBin op a b => plain a ∧ plain b ∧ (op_level op ≤ level a)%nat ∧ (op_level op < level b)%nat
  | ENot a | ELoad a => plain a ∧ level a = 7%nat
  | ECall _ args => plains args
  | EAssign _ a => plain a
  | EStore p a => plain p ∧ level p = 7%nat ∧ plain a
  end
with plains (l : exprs) : Prop :=
  match l with
  | ENil => True
  | ECons a l => plain a ∧ plains l
  end.
End printing.

(** ** Node tables

    The table is filled from its beginning. *)
Definition st (s : fstate) (t : finsh_token) (nodes : list finsh_node) : fstate :=
  set_token t (set_global_node_table
    (nodes ++ replicate (FINSH_NODE_MAX - length nodes) empty_node) s).

Definition used (n : finsh_node) : Prop := node_type_of n ≠ FINSH_NODE_UNKNOWN.

Lemma find_unknown_run nodes k : ∀ i, Forall used nodes → (0 < k)%nat →
  find_unknown (nodes ++ replicate k empty_node) i = Some (i + length nodes)%nat.
Proof.
  induction nodes as [|n nodes IH]; intros i Hu Hk; simpl.
  - destruct k; [lia|]. simpl. f_equal. lia.
  - apply Forall_cons in Hu as [Hn Hu]. rewrite bool_decide_false by done. rewrite IH by done.
    f_equal. lia.
Qed.

(** An entry of the table. *)
Lemma st_lookup s t nodes i n : nodes !! i = Some n →
  global_node_table (st s t nodes) !! i = Some n.
Proof. intros Hi. simpl. by apply lookup_app_l_Some. Qed.

Lemma upd_run s t nodes i n f : nodes !! i = Some n →
  upd_node i f (st s t nodes) = Ok tt (st s t (<[i := f n]> nodes)).
Proof.
  intros Hi. rewrite (upd_node_run i f n) by (by apply st_lookup). f_equal. unfold st. simpl.
  rewrite insert_app_l by (by eapply lookup_lt_Some). by rewrite length_insert.
Qed.

Lemma allocate_run s t nodes type : Forall used nodes → (length nodes < FINSH_NODE_MAX)%nat →
  finsh_node_allocate type (st s t nodes) =
  Ok (Some (length nodes)) (st s t (nodes ++ [set_node_type type empty_node])).
Proof.
  intros Hu Hl. unfold finsh_node_allocate. rewrite bind_gets.
  change (global_node_table _) with (nodes ++ replicate (FINSH_NODE_MAX - length nodes) empty_node).
  rewrite find_unknown_run by (done || lia). simpl.
  destruct (FINSH_NODE_MAX - length nodes)%nat as [|k] eqn:E; [lia|].
  erewrite bind_ok.
  2: { apply upd_node_run. simpl. rewrite E. by apply list_lookup_middle. }
  unfold ret. f_equal. unfold st. simpl. rewrite E, length_app. simpl.
  rewrite insert_app_r_alt, Nat.sub_diag by lia. simpl. rewrite <- app_assoc. simpl.
  by replace (FINSH_NODE_MAX - (length nodes + 1))%nat with k by lia.
Qed.

(** A node that is filled after its allocation. *)
Lemma new_node_run s t nodes type fill n :
  Forall used nodes → (length nodes < FINSH_NODE_MAX)%nat →
  fill (length nodes) (st s t (nodes ++ [set_node_type type empty_node])) =
    Ok tt (st s t (nodes ++ [n])) →
  new_node type fill (st s t nodes) = Ok (Some (length nodes)) (st s t (nodes ++ [n])).
Proof.
  intros Hu Hl Hf. unfold new_node. rewrite (bind_ok _ _ _ _ _ (allocate_run _ _ _ _ Hu Hl)).
  by rewrite (bind_ok _ _ _ _ _ Hf).
Qed.

Lemma fill_run s t nodes n f :
  upd_node (length nodes) f (st s t (nodes ++ [n])) = Ok tt (st s t (nodes ++ [f n])).
Proof.
  rewrite (upd_run _ _ _ _ n) by (by apply list_lookup_middle).
  by rewrite insert_app_r_alt, Nat.sub_diag by lia.
Qed.

(** A node for an operator above the node [i]. *)
Definition sys_node (type : node_type) (i : nat) : finsh_node :=
  set_child (Some i) (set_node_type type empty_node).

Lemma make_sys_run s t nodes type i n q : Forall used nodes → (length nodes < FINSH_NODE_MAX)%nat →
  nodes !! i = Some n →
  make_sys_node type (Some i) q (st s t nodes) =
  Ok (Some (length nodes)) (st s t (<[i := set_sibling q n]> nodes ++ [sys_node type i])).
Proof.
  intros Hu Hl Hi. unfold make_sys_node.
  rewrite (bind_ok _ _ _ _ _ (allocate_run _ _ _ _ Hu Hl)).
  rewrite (bind_ok _ _ _ _ _ (fill_run _ _ _ _ _)).
  erewrite bind_ok by (apply upd_run; by apply lookup_app_l_Some). unfold ret. do 2 f_equal.
  by rewrite insert_app_l by (by eapply lookup_lt_Some).
Qed.

(** ** Trees in a part of the table *)

(** The tree at [p], in nodes from [lo] on. *)
Definition seg (nodes : list finsh_node) (lo : nat) (p : option nat) (tr : ast) : Prop :=
  rep nodes p tr ∧ NoDup (indices tr) ∧ Forall (λ j, (lo ≤ j)%nat) (indices tr).

Lemma seg_bound nodes lo p tr j : seg nodes lo p tr → j ∈ indices tr → (lo ≤ j < length nodes)%nat.
Proof.
  intros (Hr & _ & Hl) Hj. split; [by apply (proj1 (Forall_forall _ _) Hl)|].
  by apply (proj1 (Forall_forall _ _) (rep_bound _ _ _ Hr)).
Qed.

Lemma seg_table_frame nodes nodes' lo p tr : (∀ j, j ∈ indices tr → nodes' !! j = nodes !! j) →
  seg nodes lo p tr → seg nodes' lo p tr.
Proof. intros Hf (Hr & Hn & Hl). split_and!; [by eapply rep_frame|done..]. Qed.

Lemma seg_prefix nodes nodes' lo p tr : nodes `prefix_of` nodes' →
  seg nodes lo p tr → seg nodes' lo p tr.
Proof.
  intros [l ->] Hs. apply (seg_table_frame nodes); [|done]. intros j Hj.
  apply lookup_app_l. by eapply seg_bound.
Qed.

Lemma prefix_insert (nodes all : list finsh_node) i n : nodes `prefix_of` all →
  (length nodes ≤ i)%nat → nodes `prefix_of` <[i := n]> all.
Proof. intros [l ->] Hi. rewrite insert_app_r_alt by done. by apply prefix_app_r. Qed.

(** A tree in front of a list of trees. *)
Lemma seg_cons nodes fin mid lo i n ch p trs :
  seg nodes lo (Some i) (Node i n ch Leaf) → (∀ j, j ∈ i :: indices ch → (j < mid)%nat) →
  fin !! i = Some (set_sibling p n) → (∀ j, j ∈ indices ch → fin !! j = nodes !! j) →
  seg fin mid p trs → (lo ≤ mid)%nat →
  seg fin lo (Some i) (Node i (set_sibling p n) ch trs).
Proof.
  intros ((_ & Hi & Hc & _) & Hn & Hl) Hm Hfi Hfc (Hrb & Hnb & Hlb) Hle. simpl in Hn, Hl.
  rewrite app_nil_r in Hn, Hl. apply NoDup_cons in Hn as [Hic Hnc]. apply Forall_cons in Hl as [Hli Hlc].
  assert (∀ j, j ∈ indices trs → j ∉ i :: indices ch) as Hd.
  { intros j Hj Hj'. specialize (Hm j Hj'). apply (proj1 (Forall_forall _ _) Hlb) in Hj. simpl in Hj. lia. }
  split_and!.
  - split; [done|]. split; [done|]. split; [by eapply rep_frame|done].
  - simpl. apply NoDup_cons. split.
    + intros [Hj|Hj]%elem_of_app; [done|]. apply (Hd i Hj). by left.
    + apply NoDup_app. split_and!; [done| |done]. intros j Hj Hj'. apply (Hd j Hj'). by right.
  - simpl. constructor; [done|]. apply Forall_app. split; [done|].
    eapply Forall_impl; [exact Hlb|]. simpl. lia.
Qed.

(** An operator above a list of trees. *)
Lemma seg_top nodes lo i tr type : seg nodes lo (Some i) tr → (lo ≤ length nodes)%nat →
  seg (nodes ++ [sys_node type i]) lo (Some (length nodes))
    (Node (length nodes) (sys_node type i) tr Leaf).
Proof.
  intros Hs Hle. pose proof Hs as (Hr & Hn & Hl). split_and!.
  - split; [done|]. split; [by apply list_lookup_middle|]. split; [|done].
    eapply rep_frame; [|exact Hr]. intros j Hj. apply lookup_app_l. by eapply seg_bound.
  - simpl. rewrite app_nil_r. apply NoDup_cons. split; [|done].
    intros Hj. apply (seg_bound _ _ _ _ _ Hs) in Hj. lia.
  - simpl. rewrite app_nil_r. by constructor.
Qed.

(** The node an operator is parsed to: its operands are next to each other. *)
Lemma seg_join nodes mid lo i n ch p trs type :
  seg nodes lo (Some i) (Node i n ch Leaf) → (∀ j, j ∈ i :: indices ch → (j < mid)%nat) →
  seg nodes mid p trs → (lo ≤ mid)%nat →
  seg (<[i := set_sibling p n]> nodes ++ [sys_node type i]) lo (Some (length nodes))
    (Node (length nodes) (sys_node type i) (Node i (set_sibling p n) ch trs) Leaf).
Proof.
  intros Ha Hm Hb Hle. assert (lo ≤ i < length nodes)%nat as Hil
    by (eapply seg_bound; [exact Ha|by left]).
  assert (i ∉ indices ch) as Hic.
  { destruct Ha as (_ & Hn & _). simpl in Hn. rewrite app_nil_r in Hn. by apply NoDup_cons in Hn as []. }
  rewrite <- (length_insert nodes i (set_sibling p n)). apply seg_top.
  - eapply (seg_cons nodes _ mid); [done|done| | | |done].
    + apply list_lookup_insert_eq. lia.
    + intros j Hj. apply list_lookup_insert_ne. by intros ->.
    + eapply seg_table_frame; [|exact Hb]. intros j Hj. apply list_lookup_insert_ne. intros <-.
      apply (seg_bound _ _ _ _ _ Hb) in Hj. specialize (Hm i ltac:(by left)). lia.
  - rewrite length_insert. lia.
Qed.

Section parsed.
Context `{FinshEnv}.

(** The expression [e] was parsed to the new nodes of the table [all]. *)
Definition parsed (nodes : list finsh_node) (e : expr) (p : option nat) (all : list finsh_node) : Prop :=
  nodes `prefix_of` all ∧ length all = (length nodes + nsize e)%nat ∧ Forall used all ∧
  ∃ i n ch, p = Some i ∧ seg all (length nodes) p (Node i n ch Leaf) ∧ shape e (Node i n ch Leaf).

(** A list of arguments, next to each other. *)
Definition parsed_all (nodes : list finsh_node) (l : exprs) (p : option nat) (all : list finsh_node) : Prop :=
  nodes `prefix_of` all ∧ length all = (length nodes + nsizes l)%nat ∧ Forall used all ∧
  ∃ tr, seg all (length nodes) p tr ∧ shapes l tr.

(** What follows a tree is not part of its shape. *)
Lemma shape_sibling e i n ch sib p sib' : shape e (Node i n ch sib) →
  shape e (Node i (set_sibling p n) ch sib').
Proof. by destruct e. Qed.

Lemma used_sibling nodes i n p : Forall used nodes → nodes !! i = Some n →
  Forall used (<[i := set_sibling p n]> nodes).
Proof.
  intros Hu Hi. apply Forall_insert; [done|]. exact (proj1 (Forall_lookup _ _) Hu i n Hi).
Qed.

Lemma seg_leaf nodes lo : seg nodes lo None Leaf.
Proof. split; [done|]. split; constructor. Qed.

Lemma parsed_leaf nodes e n : Forall used nodes → nsize e = 1%nat → used n →
  sibling n = None → child n = None → shape e (Node (length nodes) n Leaf Leaf) →
  parsed nodes e (Some (length nodes)) (nodes ++ [n]).
Proof.
  intros Hu He Hn Hs Hc Hsh. split_and!.
  - by apply prefix_app_r.
  - rewrite length_app, He. done.
  - apply Forall_app. split; [done|by apply Forall_singleton].
  - eexists _, n, Leaf. split_and!; [done| |done]. split_and!.
    + simpl. split_and!; [done| |done..]. by apply list_lookup_middle.
    + apply NoDup_singleton.
    + by apply Forall_singleton.
Qed.

(** An operator above one operand. *)
Lemma parsed_unary nodes a e i all type n ch : parsed nodes a (Some i) all →
  all !! i = Some n → type ≠ FINSH_NODE_UNKNOWN → nsize e = (nsize a + 1)%nat →
  seg all (length nodes) (Some i) (Node i n ch Leaf) →
  shape e (Node (length all) (sys_node type i) (Node i (set_sibling None n) ch Leaf) Leaf) →
  parsed nodes e (Some (length all)) (<[i := set_sibling None n]> all ++ [sys_node type i]).
Proof.
  intros (Hp & Hl & Hu & _) Hi Ht He Hs Hsh. split_and!.
  - apply prefix_app_r. apply prefix_insert; [done|]. eapply seg_bound; [exact Hs|by left].
  - rewrite length_app, length_insert, Hl, He. simpl. lia.
  - apply Forall_app. split; [by apply used_sibling|by apply Forall_singleton].
  - eexists _, _, _. split_and!; [done| |exact Hsh].
    eapply (seg_join all (length all)); [done| |apply seg_leaf|rewrite Hl; lia].
    intros j Hj. eapply seg_bound; [exact Hs|]. simpl. by rewrite app_nil_r.
Qed.

(** An operator above two operands. *)
Lemma parsed_binary nodes a mid q b all e type i n ch :
  parsed nodes a (Some i) mid → seg mid (length nodes) (Some i) (Node i n ch Leaf) →
  mid `prefix_of` all → Forall used all → type ≠ FINSH_NODE_UNKNOWN →
  seg all (length mid) q b → length all = (length mid + (nsize e - nsize a - 1))%nat →
  (nsize a + 1 ≤ nsize e)%nat →
  shape e (Node (length all) (sys_node type i) (Node i (set_sibling q n) ch b) Leaf) →
  parsed nodes e (Some (length all)) (<[i := set_sibling q n]> all ++ [sys_node type i]).
Proof.
  intros (Hp & Hl & _) Hs Hm Hu Ht Hb Hlen He Hsh.
  assert (all !! i = Some n) as Hi.
  { destruct Hs as [(_ & Hi & _) _]. by eapply prefix_lookup_Some. }
  pose proof (seg_bound _ _ _ _ i Hs ltac:(by left)) as Hib. split_and!.
  - apply prefix_app_r. apply prefix_insert; [by etrans|lia].
  - rewrite length_app, length_insert. simpl. lia.
  - apply Forall_app. split; [by apply used_sibling|by apply Forall_singleton].
  - eexists _, _, _. split_and!; [done| |exact Hsh].
    eapply (seg_join all (length mid)); [by eapply seg_prefix| |done|lia].
    intros j Hj. eapply seg_bound; [exact Hs|]. simpl. by rewrite app_nil_r.
Qed.
End parsed.

(** ** The levels of operators *)
Definition tok_level (type : token_type) : option nat :=
  match type with
  | finsh_token_type_assign => Some 0%nat
  | finsh_token_type_or => Some 1%nat
  | finsh_token_type_xor => Some 2%nat
  | finsh_token_type_and => Some 3%nat
  | finsh_token_type_shl | finsh_token_type_shr => Some 4%nat
  | finsh_token_type_add | finsh_token_type_sub => Some 5%nat
  | finsh_token_type_mul | finsh_token_type_div | finsh_token_type_mod => Some 6%nat
  | _ => None
  end.

(** A token behind which an expression of the level [k] does not go on. *)
Definition follow (k : nat) (type : token_type) : Prop :=
  type ≠ finsh_token_type_inc ∧ type ≠ finsh_token_type_dec ∧ type ≠ finsh_token_type_left_paren ∧
  match tok_level type with Some j => (j < k)%nat | None => True end.
Definition follows (k : nat) (l : list tok) : Prop :=
  match l with x :: _ => follow k (tok_type x) | [] => False end.

Lemma follows_le k k' l : (k ≤ k')%nat → follows k l → follows k' l.
Proof.
  intros Hk. destruct l as [|x l]; [done|]. intros (H1 & H2 & H3 & H4). split_and!; try done.
  destruct (tok_level (tok_type x)); [lia|done].
Qed.

Definition level_op (k : nat) : token_type → option node_type :=
  match k with
  | 1%nat => or_op | 2%nat => xor_op | 3%nat => and_op | 4%nat => shift_op
  | 5%nat => additive_op | 6%nat => multiplicative_op
  | _ => λ _, None
  end.
Definition level_expr (cast : F (option nat)) (k : nat) : F (option nat) :=
  match k with
  | 1%nat => proc_inclusive_or_expr cast | 2%nat => proc_exclusive_or_expr cast
  | 3%nat => proc_and_expr cast | 4%nat => proc_shift_expr cast
  | 5%nat => proc_additive_expr cast | 6%nat => proc_multiplicative_expr cast
  | _ => cast
  end.

Lemma level_expr_eq cast k : (1 ≤ k ≤ 6)%nat →
  level_expr cast k = binary_expr (level_expr cast (S k)) (level_op k).
Proof. intros Hk. do 7 (destruct k as [|k]; [done || lia|]). lia. Qed.

Lemma level_op_none k type : tok_level type ≠ Some k → level_op k type = None.
Proof. intros Hk. do 7 (destruct k as [|k]; [by destruct type|]). done. Qed.

Lemma level_op_bin op : level_op (op_level op) (bin_token op) = Some (bin_type op).
Proof. by destruct op. Qed.

Lemma level_bin op : tok_level (bin_token op) = Some (op_level op) ∧ (1 ≤ op_level op ≤ 6)%nat.
Proof. destruct op; simpl; split; (done || lia). Qed.

(** ** Names *)
Section names.
Context `{FinshEnv}.

Definition or_else {A} (o o' : option A) : option A := match o with Some x => Some x | None => o' end.

(** The first item whose name begins with [name]. *)
Definition prefix_search {A} (key : A → list Z) (name : list Z) : list A → option A :=
  find (λ x, strncmp_eq (key x) name (length name)).
Definition exact_search {A} (key : A → list Z) (name : list Z) : list A → option A :=
  find (λ x, bool_decide (key x = name)).

(** The symbol a name stands for: variables first, then system variables,
    then system calls. *)
Definition symbol_of (s : fstate) (name : list Z) : option finsh_id :=
  or_else (IdVar <$> var_search name (global_variable s) 0)
    (or_else (IdSysvar <$> or_else (exact_search sysvar_name name sysvar_table)
                                   (prefix_search sysvar_name name (global_sysvar_list s)))
      (IdSyscall <$> or_else (exact_search syscall_name name syscall_table)
                             (prefix_search syscall_name name (global_syscall_list s)))).

Lemma table_search_run {A} (key : A → list Z) name l s : terminated name = true →
  table_search key name l s = Ok (exact_search key name l) s.
Proof.
  intros Ht. induction l as [|x l IH]; [done|]. simpl. unfold strcmp_eq. rewrite Ht, bind_ret.
  unfold exact_search. simpl. by destruct (bool_decide (key x = name)).
Qed.

Lemma list_search_run {A} (key : A → list Z) name l s : terminated name = true →
  list_search key name l s = Ok (prefix_search key name l) s.
Proof.
  intros Ht. induction l as [|x l IH]; [done|]. simpl. unfold strlen_name. rewrite Ht, bind_ret.
  unfold prefix_search. simpl. by destruct (strncmp_eq _ _ _).
Qed.

(** The lookup changes nothing, and finds the symbol. *)
Lemma lookup_symbol_run name s : terminated name = true →
  lookup_symbol name s = Ok ((λ x, (idtype_of x, x)) <$> symbol_of s name) s.
Proof.
  intros Ht. unfold lookup_symbol, finsh_var_lookup, symbol_of.
  rewrite bind_assoc, bind_gets, bind_ret.
  destruct (var_search name (global_variable s) 0) as [i|]; [done|]. simpl or_else.
  unfold finsh_sysvar_lookup. rewrite bind_assoc.
  rewrite (bind_ok _ _ _ _ _ (table_search_run _ _ _ _ Ht)).
  destruct (exact_search sysvar_name name sysvar_table) as [v|]; [done|]. simpl or_else.
  rewrite bind_assoc, bind_gets, (bind_ok _ _ _ _ _ (list_search_run _ _ _ _ Ht)).
  destruct (prefix_search sysvar_name name _) as [v|]; [done|]. simpl or_else.
  unfold finsh_syscall_lookup. rewrite bind_assoc.
  rewrite (bind_ok _ _ _ _ _ (table_search_run _ _ _ _ Ht)).
  destruct (exact_search syscall_name name syscall_table) as [v|]; [done|]. simpl or_else.
  rewrite bind_assoc, bind_gets, (bind_ok _ _ _ _ _ (list_search_run _ _ _ _ Ht)).
  by destruct (prefix_search syscall_name name _).
Qed.
End names.

(** ** The parser reads a printed expression *)
Section parsing.
Context `{FinshEnv} (s : fstate) (line : list Z).
Abbreviation vars := (global_variable s).

(** The name of [x] stands for [x]. *)
Definition good_id (x : finsh_id) : Prop :=
  terminated (id_name vars x) = true ∧ symbol_of s (id_name vars x) = Some x.

Fixpoint named (e : expr) : Prop :=
  match e with
  | EChar _ | ELit _ _ => True
  | EId x | EAddr x => good_id x
  | EBin _ a b | EStore a b => named a ∧ named b
  | ENot a | ELoad a => named a
  | ECall f args => good_id (IdSyscall f) ∧ nameds args
  | EAssign x a => good_id x ∧ named a
  | EPre _ k | EPost _ k => good_id (IdVar k)
  end
with nameds (l : exprs) : Prop :=
  match l with
  | ENil => True
  | ECons a l => named a ∧ nameds l
  end.

(** [m] reads [e], printed before a token of [follow k]. *)
Definition parses (m : F (option nat)) (e : expr) (k : nat) : Prop := ∀ t nodes l,
  stream line t (toks vars e ++ l) → follows k l → Forall used nodes →
  (length nodes + nsize e ≤ FINSH_NODE_MAX)%nat →
  ∃ t' all p, m (st s t nodes) = Ok p (st s t' all) ∧ stream line t' l ∧ parsed nodes e p all.

Lemma next_run t nodes x l : stream line t (x :: l) →
  ∃ t', next_token (st s t nodes) = Ok (tok_type x) (st s t' nodes) ∧ passed line t' x l.
Proof. apply next_token_run. Qed.

Lemma again_run t nodes x l : passed line t x l → ∃ t',
  finsh_token_replay (st s t nodes) = Ok tt (st s t' nodes) ∧ stream line t' (x :: l).
Proof. intros Hp. exists (set_replay true t). by apply replay_run. Qed.

Lemma parser_fuel_run t nodes l : stream line t l →
  parser_fuel (st s t nodes) = Ok (2 * length line + 8)%nat (st s t nodes).
Proof.
  intros Hs. unfold parser_fuel, gets. do 2 f_equal. simpl.
  assert (tk_line t = line) as ->; [|lia].
  destruct Hs as [(_ & _ & Hl & _)|(t0 & x & l' & -> & _ & _ & _ & _ & _ & Hl & _)]; done.
Qed.

Lemma stream_length t l : stream line t l → (length l ≤ S (length line))%nat.
Proof.
  assert (∀ t l, ahead line t l → length l ≤ length line)%nat as Ha.
  { intros t0 l0 (_ & _ & _ & _ & ws & r & n & _ & _ & Hr & _ & Hl). rewrite length_app in Hl.
    apply spelled_length in Hr. lia. }
  intros [Hs|(t0 & x & l' & -> & -> & _ & _ & Hs)]; [apply Ha in Hs; lia|]. apply Ha in Hs. simpl. lia.
Qed.

(** Read the next token, or replay it. *)
Ltac next_tok t H' := match goal with
  | Hs : stream _ ?t0 (_ :: _) |- context [bind next_token _ (st _ ?t0 ?nodes)] =>
    let E := fresh in destruct (next_run t0 nodes _ _ Hs) as (t & E & H');
    rewrite (bind_ok _ _ _ _ _ E); clear E
  end.
Ltac again t H' := match goal with
  | Hp : passed _ ?t0 _ _ |- context [bind finsh_token_replay _ (st _ ?t0 ?nodes)] =>
    let E := fresh in destruct (again_run t0 nodes _ _ Hp) as (t & E & H');
    rewrite (bind_ok _ _ _ _ _ E); clear E
  end.

Definition id_node (x : finsh_id) : finsh_node :=
  set_idtype (idtype_of x) (set_node_id x (set_node_type FINSH_NODE_ID empty_node)).

Lemma new_id_run x t nodes : good_id x → Forall used nodes → (length nodes < FINSH_NODE_MAX)%nat →
  finsh_node_new_id (id_name vars x) (st s t nodes) =
  Ok (Some (length nodes)) (st s t (nodes ++ [id_node x])).
Proof.
  intros [Ht Hx] Hu Hl. unfold finsh_node_new_id.
  rewrite (bind_ok _ _ _ _ _ (lookup_symbol_run _ (st s t nodes) Ht)).
  change (symbol_of (st s t nodes)) with (symbol_of s). rewrite Hx. cbn [fmap option_fmap option_map].
  apply new_node_run; [done..|]. rewrite (bind_ok _ _ _ _ _ (fill_run _ _ _ _ _)). apply fill_run.
Qed.

Lemma identifier_run name t nodes l : stream line t (TName name :: l) → ∃ t',
  proc_identifier (st s t nodes) = Ok name (st s t' nodes) ∧ stream line t' l.
Proof.
  intros Hs. unfold proc_identifier, match_token. rewrite bind_assoc. next_tok t1 H1.
  exists t1. split; [|by eapply passed_stream]. unfold check_token. cbn [tok_type].
  rewrite bool_decide_true by done. cbn [negb]. rewrite bind_ret, bind_gets.
  unfold ret. f_equal. simpl. destruct H1 as ((_ & _ & Hl & _) & [_ ->] & _). apply take_ge.
  unfold FINSH_NAME_MAX in *. lia.
Qed.

(** ** Primary expressions *)
Lemma parsed_id nodes x : Forall used nodes →
  parsed nodes (EId x) (Some (length nodes)) (nodes ++ [id_node x]).
Proof. intros Hu. by apply parsed_leaf. Qed.

Definition is_leaf (e : expr) : Prop :=
  match e with EChar _ | ELit _ _ | EId _ => True | _ => False end.

Lemma primary_run e pa t nodes l : is_leaf e → plain e → named e →
  stream line t (toks vars e ++ l) → Forall used nodes → (length nodes < FINSH_NODE_MAX)%nat →
  ∃ t' all p, proc_primary_expr pa (st s t nodes) = Ok p (st s t' all) ∧ stream line t' l ∧
    parsed nodes e p all.
Proof.
  intros Hl He Hn Hs Hu Hlen. unfold proc_primary_expr.
  destruct e as [c|[] x|x| | | | | | | | |]; try done; cbn [toks app] in Hs; next_tok t1 H1;
    rewrite bind_gets; cbn [tok_type].
  - eexists t1, _, _. split_and!; [|by eapply passed_stream|].
    + apply new_node_run; [done..|]. apply fill_run.
    + destruct H1 as ((Hc & _) & [_ Hv] & _). apply parsed_leaf; try done. split_and!; [done..|].
      cbn [set_node_value node_value]. unfold u8 at 1, wrap. rewrite set_low_mod by lia.
      change (token (st s t1 nodes)) with t1. unfold u8, wrap. by rewrite Z.mod_mod by lia.
  - eexists t1, _, _. split_and!; [|by eapply passed_stream|].
    + apply new_node_run; [done..|]. apply fill_run.
    + destruct H1 as (Hv & [_ Hx] & _). simpl in Hv. apply parsed_leaf; try done.
      split_and!; [done..|]. simpl. rewrite Hx. apply u32_small. lia.
  - eexists t1, _, _. split_and!; [|by eapply passed_stream|].
    + apply new_node_run; [done..|]. apply fill_run.
    + destruct H1 as (Hv & [_ Hx] & _). simpl in Hv. apply parsed_leaf; try done.
      split_and!; [done..|]. simpl. rewrite Hx. apply u32_small. lia.
  - eexists t1, _, _. split_and!; [|by eapply passed_stream|].
    + apply new_node_run; [done..|]. apply fill_run.
    + apply parsed_leaf; done.
  - again t2 H2. destruct (identifier_run _ _ nodes _ H2) as (t3 & E & H3).
    rewrite (bind_ok _ _ _ _ _ E). rewrite new_id_run by done.
    eexists t3, _, _. split_and!; [done..|]. by apply parsed_id.
Qed.

(** Behind a postfix expression. *)
Lemma postfix_end fuel pa p t nodes l k : stream line t l → follows k l → ∃ t',
  postfix_loop (S fuel) pa p (st s t nodes) = Ok p (st s t' nodes) ∧ stream line t' l.
Proof.
  intros Hs Hf. destruct l as [|x l]; [done|]. cbn [postfix_loop]. next_tok t1 H1.
  destruct (again_run t1 nodes _ _ H1) as (t2 & E & H2). exists t2. split; [|done].
  destruct Hf as (F1 & F2 & F3 & _). destruct (tok_type x); try done; by rewrite (bind_ok _ _ _ _ _ E).
Qed.

(** ** Unary expressions *)
Lemma cast_unary f t nodes x l : tok_type x ≠ finsh_token_type_left_paren →
  stream line t (x :: l) → ∃ t',
  proc_cast_expr (S f) (st s t nodes) =
    proc_unary_expr (proc_cast_expr f) (proc_assign_expr f) (st s t' nodes) ∧
  stream line t' (x :: l).
Proof.
  intros Hx Hs. cbn [proc_cast_expr]. next_tok t1 H1. rewrite bool_decide_false by done.
  rewrite bind_ret. again t2 H2. by exists t2.
Qed.

Definition prefix_op (type : token_type) : option node_type :=
  match type with
  | finsh_token_type_inc => Some FINSH_NODE_SYS_PREINC
  | finsh_token_type_dec => Some FINSH_NODE_SYS_PREDEC
  | finsh_token_type_bitwise => Some FINSH_NODE_SYS_BITWISE
  | finsh_token_type_mul => Some FINSH_NODE_SYS_GETVALUE
  | finsh_token_type_and => Some FINSH_NODE_SYS_GETADDR
  | _ => None
  end.

(** The tokens that begin no prefix operator and no cast. *)
Definition begins_primary (x : tok) : Prop :=
  match x with TOp _ => False | _ => True end.

Lemma unary_postfix cast assign t nodes x l : begins_primary x → stream line t (x :: l) → ∃ t',
  proc_unary_expr cast assign (st s t nodes) = proc_postfix_expr assign (st s t' nodes) ∧
  stream line t' (x :: l).
Proof.
  intros Hx Hs. unfold proc_unary_expr. next_tok t1 H1.
  destruct (again_run t1 nodes _ _ H1) as (t2 & E & H2). exists t2. split; [|done].
  destruct x; try done; cbn [tok_type]; by rewrite (bind_ok _ _ _ _ _ E).
Qed.

Lemma parses_prefix f type nt a e : prefix_op type = Some nt → parses (proc_cast_expr f) a 7 →
  toks vars e = TOp type :: toks vars a → nsize e = (nsize a + 1)%nat → nt ≠ FINSH_NODE_UNKNOWN →
  (∀ k i n ch, shape a (Node i n ch Leaf) →
    shape e (Node k (sys_node nt i) (Node i (set_sibling None n) ch Leaf) Leaf)) →
  parses (proc_cast_expr (S f)) e 7.
Proof.
  intros Hop Ha Ht Hsz Hnt Hsh t nodes l Hs Hf Hu Hlen. rewrite Ht in Hs. simpl in Hs.
  assert (tok_type (TOp type) ≠ finsh_token_type_left_paren) as Hne by (by destruct type).
  destruct (cast_unary f t nodes _ _ Hne Hs) as (t1 & -> & H1).
  unfold proc_unary_expr. next_tok t2 H2. apply passed_stream in H2. rewrite Hsz in Hlen.
  destruct (Ha t2 nodes l H2 Hf Hu ltac:(lia)) as (t3 & all & p & E & H3 & Hp).
  pose proof Hp as (_ & Hl & Hu' & i & n & ch & -> & Hseg & Hshape).
  assert (all !! i = Some n) as Hi by apply Hseg.
  exists t3, (<[i := set_sibling None n]> all ++ [sys_node nt i]), (Some (length all)).
  assert (make_sys_node nt (Some i) None (st s t3 all) = Ok (Some (length all))
    (st s t3 (<[i := set_sibling None n]> all ++ [sys_node nt i]))) as Em
    by (apply make_sys_run; [done|lia|done]).
  split_and!; [|done|].
  - destruct type; try done; injection Hop as <-; cbn [tok_type]; by rewrite (bind_ok _ _ _ _ _ E).
  - by apply (parsed_unary nodes a e i all nt n ch); [..|apply Hsh].
Qed.

Lemma leaf_token e : is_leaf e → plain e → ∃ x, toks vars e = [x] ∧ begins_primary x ∧ nsize e = 1%nat.
Proof. destruct e as [c|[] x|x| | | | | | | | |]; try done; by eexists. Qed.

(** A primary expression as the beginning of a postfix expression. *)
Lemma postfix_run f e t nodes l : is_leaf e → plain e → named e →
  stream line t (toks vars e ++ l) → Forall used nodes → (length nodes < FINSH_NODE_MAX)%nat →
  ∃ t' all p, proc_cast_expr (S f) (st s t nodes) =
      postfix_loop (2 * length line + 8) (proc_assign_expr f) p (st s t' all) ∧
    stream line t' l ∧ parsed nodes e p all.
Proof.
  intros Hl He Hn Hs Hu Hlen. destruct (leaf_token e Hl He) as (x & Ex & Hx & _).
  rewrite Ex in Hs. simpl in Hs.
  destruct (cast_unary f t nodes x l ltac:(by destruct x) Hs) as (t1 & -> & H1).
  destruct (unary_postfix (proc_cast_expr f) (proc_assign_expr f) t1 nodes x l Hx H1)
    as (t2 & -> & H2).
  unfold proc_postfix_expr.
  destruct (primary_run e (proc_assign_expr f) t2 nodes l) as (t3 & all & p & E & H3 & Hp); try done.
  { by rewrite Ex. }
  rewrite (bind_ok _ _ _ _ _ E), (bind_ok _ _ _ _ _ (parser_fuel_run _ _ _ H3)). by exists t3, all, p.
Qed.

Lemma parses_leaf f e : is_leaf e → plain e → named e → parses (proc_cast_expr (S f)) e 7.
Proof.
  intros Hl He Hn t nodes l Hs Hf Hu Hlen. destruct (leaf_token e Hl He) as (_ & _ & _ & Hsz).
  destruct (postfix_run f e t nodes l) as (t1 & all & p & -> & H1 & Hp); try done; [lia|].
  replace (2 * length line + 8)%nat with (S (2 * length line + 7)) by lia.
  destruct (postfix_end (2 * length line + 7) (proc_assign_expr f) p t1 all l 7 H1 Hf)
    as (t2 & -> & H2). by exists t2, all, p.
Qed.

Definition post_op (inc : bool) : node_type :=
  if inc then FINSH_NODE_SYS_INC else FINSH_NODE_SYS_DEC.

Lemma parses_post f inc k : good_id (IdVar k) → parses (proc_cast_expr (S f)) (EPost inc k) 7.
Proof.
  intros Hk t nodes l Hs Hf Hu Hlen. simpl in Hlen.
  destruct (postfix_run f (EId (IdVar k)) t nodes (TOp (step_token inc) :: l))
    as (t1 & all & p & -> & H1 & Hp); try done; [lia|].
  pose proof Hp as (_ & Hl & Hu' & i & n & ch & -> & Hseg & Hshape). simpl in Hl.
  assert (all !! i = Some n) as Hi by apply Hseg.
  replace (2 * length line + 8)%nat with (S (S (2 * length line + 6))) by lia.
  cbn [postfix_loop]. next_tok t2 H2. apply passed_stream in H2.
  pose proof (make_sys_run s t2 all (post_op inc) i n None Hu' ltac:(lia) Hi) as Em.
  destruct (postfix_end (2 * length line + 6) (proc_assign_expr f) (Some (length all)) t2
    (<[i := set_sibling None n]> all ++ [sys_node (post_op inc) i]) l 7 H2 Hf) as (t3 & E3 & H3).
  eexists t3, _, _. split_and!; [|exact H3|].
  - destruct inc; cbn [tok_type step_token]; by rewrite (bind_ok _ _ _ _ _ Em).
  - eapply parsed_unary; [exact Hp|done|by destruct inc|done|exact Hseg|].
    split; [by destruct inc|]. split; [|done].
    exact (shape_sibling (EId (IdVar k)) i n ch Leaf None Leaf Hshape).
Qed.

(** ** Parameters *)

(** The nodes of [nodes] are those of [fin], with a new sibling of [last]. *)
Definition linked (nodes : list finsh_node) (last : nat) (n : finsh_node) (q : option nat)
    (fin : list finsh_node) : Prop :=
  fin !! last = Some (set_sibling q n) ∧
  (∀ j, (j < length nodes)%nat → j ≠ last → fin !! j = nodes !! j) ∧ Forall used fin.

Lemma linked_self nodes last n : nodes !! last = Some n → sibling n = None → Forall used nodes →
  linked nodes last n None nodes.
Proof.
  intros Hn Hs Hu. split_and!; [|done..]. rewrite Hn. unfold set_sibling. rewrite <- Hs. by destruct n.
Qed.

(** A tree [Node i n1 ch Leaf] behind [last], in [mid], and [trs] behind it. *)
Lemma linked_cons nodes last n mid i n1 ch q fin trs : nodes `prefix_of` mid →
  nodes !! last = Some n → seg mid (length nodes) (Some i) (Node i n1 ch Leaf) →
  linked (<[last := set_sibling (Some i) n]> mid) i n1 q fin →
  seg fin (length mid) q trs →
  linked nodes last n (Some i) fin ∧
  seg fin (length nodes) (Some i) (Node i (set_sibling q n1) ch trs).
Proof.
  intros Hp Hn Hs (Hi & Hf & Hu) Ht. rewrite length_insert in Hf.
  pose proof (lookup_lt_Some _ _ _ Hn) as Hlast. pose proof (prefix_length _ _ Hp) as Hle.
  pose proof (seg_bound _ _ _ _ i Hs ltac:(by left)) as Hib.
  assert (∀ j, j ∈ i :: indices ch → (length nodes ≤ j < length mid)%nat) as Hch.
  { intros j Hj. eapply seg_bound; [exact Hs|]. simpl. by rewrite app_nil_r. }
  assert (i ∉ indices ch) as Hic.
  { destruct Hs as (_ & Hd & _). simpl in Hd. rewrite app_nil_r in Hd. by apply NoDup_cons in Hd as []. }
  split; [split_and!; [|intros j Hj Hne|done]|].
  - rewrite Hf by lia. apply list_lookup_insert_eq. lia.
  - rewrite Hf by lia. rewrite list_lookup_insert_ne by done.
    destruct Hp as [l' ->]. by apply lookup_app_l.
  - eapply (seg_cons mid fin (length mid)); [done| |done| |done|done].
    + intros j Hj. by apply Hch.
    + intros j Hj. specialize (Hch j ltac:(by right)). rewrite Hf; [|lia|by intros ->].
      apply list_lookup_insert_ne. lia.
Qed.

(** A first tree and the trees behind it. *)
Lemma linked_head mid lo i n ch q fin trs : seg mid lo (Some i) (Node i n ch Leaf) →
  linked mid i n q fin → seg fin (length mid) q trs → (lo ≤ length mid)%nat →
  seg fin lo (Some i) (Node i (set_sibling q n) ch trs).
Proof.
  intros Hseg (Hi & Hf & _) Hst Hle.
  assert (∀ j, j ∈ i :: indices ch → (j < length mid)%nat) as Hch.
  { intros j Hj. eapply seg_bound; [exact Hseg|]. simpl. by rewrite app_nil_r. }
  assert (i ∉ indices ch) as Hic.
  { destruct Hseg as (_ & Hd & _). simpl in Hd. rewrite app_nil_r in Hd. by apply NoDup_cons in Hd as []. }
  eapply (seg_cons mid fin (length mid)); [done|done|done| |done|lia].
  intros j Hj. apply Hf; [apply Hch; by right|by intros ->].
Qed.

Definition all_parse (f : nat) (l : exprs) : Prop := ∀ fuel last n t nodes rest,
  stream line t (more_toks vars l ++ TOp finsh_token_type_right_paren :: rest) →
  nodes !! last = Some n → sibling n = None → Forall used nodes →
  (length nodes + nsizes l ≤ FINSH_NODE_MAX)%nat → (elength l < fuel)%nat →
  ∃ t' fin q trs, param_loop fuel (proc_assign_expr f) last (st s t nodes) = Ok tt (st s t' fin) ∧
    stream line t' (TOp finsh_token_type_right_paren :: rest) ∧ linked nodes last n q fin ∧
    length fin = (length nodes + nsizes l)%nat ∧ seg fin (length nodes) q trs ∧ shapes l trs.

Lemma follows_comma l : follows 0 (TOp finsh_token_type_comma :: l).
Proof. done. Qed.
Lemma follows_right_paren k l : follows k (TOp finsh_token_type_right_paren :: l).
Proof. done. Qed.
Lemma follows_more k l rest :
  follows k (more_toks vars l ++ TOp finsh_token_type_right_paren :: rest).
Proof. by destruct l. Qed.

Lemma all_parse_nil f : all_parse f ENil.
Proof.
  intros [|fuel] last n t nodes rest Hs Hn Hsib Hu Hl Hf; [simpl in Hf; lia|].
  simpl in Hs. cbn [param_loop]. next_tok t1 H1.
  destruct (again_run t1 nodes _ _ H1) as (t2 & E & H2).
  exists t2, nodes, None, Leaf. split_and!; [exact E|exact H2|by apply linked_self|simpl; lia| |done].
  apply seg_leaf.
Qed.

Lemma all_parse_cons f a l : parses (proc_assign_expr f) a 0 → all_parse f l → all_parse f (ECons a l).
Proof.
  intros Ha Hl [|fuel] last n t nodes rest Hs Hn Hsib Hu Hlen Hf; simpl in Hf; [lia|].
  simpl in Hs, Hlen. cbn [param_loop]. next_tok t1 H1. apply passed_stream in H1.
  cbn [tok_type]. rewrite bool_decide_true by done. rewrite <- app_assoc in H1.
  destruct (Ha t1 nodes _ H1 (follows_more 0 l rest) Hu ltac:(lia)) as (t2 & mid & p & E & H2 & Hp).
  pose proof Hp as (Hpre & Hlm & Hum & i & n1 & ch & -> & Hseg & Hshape).
  assert (mid !! last = Some n) as Hml by (by eapply prefix_lookup_Some).
  assert (mid !! i = Some n1) as Hmi by apply Hseg.
  pose proof (seg_bound _ _ _ _ i Hseg ltac:(by left)) as Hib.
  pose proof (lookup_lt_Some _ _ _ Hn) as Hlast.
  rewrite (bind_ok _ _ _ _ _ E), (bind_ok _ _ _ _ _ (upd_run _ _ _ _ _ _ Hml)).
  destruct (Hl fuel i n1 t2 (<[last := set_sibling (Some i) n]> mid) rest)
    as (t3 & fin & q & trs & E3 & H3 & Hlk & Hlf & Hst & Hsh); try done.
  - by rewrite list_lookup_insert_ne by lia.
  - by destruct Hseg as ((_ & _ & _ & Hsb) & _).
  - by apply used_sibling.
  - rewrite length_insert. lia.
  - lia.
  - rewrite length_insert in Hlf, Hst.
    destruct (linked_cons _ _ _ _ _ _ _ _ _ _ Hpre Hn Hseg Hlk Hst) as [Hlk' Hseg'].
    exists t3, fin, (Some i), (Node i (set_sibling q n1) ch trs).
    do 3 (split; [done|]). split; [simpl; lia|]. split; [exact Hseg'|].
    split; [by eapply shape_sibling|exact Hsh].
Qed.

Lemma prefix_lookup_all (l1 l2 : list finsh_node) :
  (∀ j, (j < length l1)%nat → l2 !! j = l1 !! j) → l1 `prefix_of` l2.
Proof.
  intros Hl. exists (drop (length l1) l2). rewrite <- (take_drop (length l1) l2) at 1. f_equal.
  apply list_eq. intros j. destruct (decide (j < length l1)%nat) as [Hj|Hj].
  - rewrite lookup_take_lt by done. by apply Hl.
  - rewrite lookup_take_ge by lia. symmetry. apply lookup_ge_None_2. lia.
Qed.

Lemma more_toks_length l : (elength l ≤ length (more_toks vars l))%nat.
Proof.
  induction l as [|a l IH]; simpl; [lia|]. rewrite length_app. lia.
Qed.

Lemma param_list_run f a l t nodes rest : parses (proc_assign_expr f) a 0 → all_parse f l →
  stream line t (args_toks vars (ECons a l) ++ TOp finsh_token_type_right_paren :: rest) →
  Forall used nodes → (length nodes + nsizes (ECons a l) ≤ FINSH_NODE_MAX)%nat →
  ∃ t' fin p, proc_param_list (proc_assign_expr f) (st s t nodes) = Ok p (st s t' fin) ∧
    stream line t' (TOp finsh_token_type_right_paren :: rest) ∧
    parsed_all nodes (ECons a l) p fin.
Proof.
  intros Ha Hl Hs Hu Hlen. simpl in Hlen, Hs. rewrite <- app_assoc in Hs. unfold proc_param_list.
  destruct (Ha t nodes _ Hs (follows_more 0 l rest) Hu ltac:(lia)) as (t1 & mid & p & E & H1 & Hp).
  pose proof Hp as (Hpre & Hlm & Hum & i & n1 & ch & -> & Hseg & Hshape).
  assert (mid !! i = Some n1) as Hmi by apply Hseg.
  pose proof (seg_bound _ _ _ _ i Hseg ltac:(by left)) as Hib.
  rewrite (bind_ok _ _ _ _ _ E), (bind_ok _ _ _ _ _ (parser_fuel_run _ _ _ H1)).
  pose proof (stream_length _ _ H1) as Hsl. rewrite length_app in Hsl. simpl in Hsl.
  pose proof (more_toks_length l).
  destruct (Hl (2 * length line + 8)%nat i n1 t1 mid rest)
    as (t2 & fin & q & trs & E2 & H2 & (Hi & Hf & Huf) & Hlf & Hst & Hsh); try done.
  { by destruct Hseg as ((_ & _ & _ & Hsb) & _). }
  { lia. }
  { lia. }
  rewrite (bind_ok _ _ _ _ _ E2). exists t2, fin, (Some i). split; [done|]. split; [done|].
  split; [|split; [simpl; lia|split; [done|]]].
  - apply prefix_lookup_all. intros j Hj. rewrite Hf by lia.
    destruct Hpre as [l' ->]. by apply lookup_app_l.
  - exists (Node i (set_sibling q n1) ch trs). split; [|split; [by eapply shape_sibling|done]].
    eapply linked_head; [exact Hseg|by split_and!|done|lia].
Qed.

(** The tokens an expression begins with. *)
Definition starts (type : token_type) : Prop :=
  match type with
  | finsh_token_type_identifier | finsh_token_type_value_int | finsh_token_type_value_long
  | finsh_token_type_value_char | finsh_token_type_value_null | finsh_token_type_inc
  | finsh_token_type_dec | finsh_token_type_bitwise | finsh_token_type_mul
  | finsh_token_type_and => True
  | _ => False
  end.

Lemma toks_head e : ∃ x l, toks vars e = x :: l ∧ starts (tok_type x).
Proof.
  induction e as [|[] x| |op a IHa| | | | |[]| | | | |] using expr_ind2 with (P0 := λ _, True);
    try done; try (by eexists _, _).
  destruct IHa as (x & l & Ea & Hx). simpl. rewrite Ea. by eexists _, _.
Qed.

(** A call, up to its closing parenthesis. *)
Definition args_parse (f : nat) (args : exprs) : Prop :=
  match args with
  | ENil => True
  | ECons a l => parses (proc_assign_expr f) a 0 ∧ all_parse f l
  end.

Lemma args_run f args t nodes rest : args_parse f args →
  stream line t (args_toks vars args ++ TOp finsh_token_type_right_paren :: rest) →
  Forall used nodes → (length nodes + nsizes args ≤ FINSH_NODE_MAX)%nat →
  ∃ t' fin p, (let! tok := next_token in
      if negb (bool_decide (tok = finsh_token_type_right_paren)) then
        finsh_token_replay ;;;
        let! l := proc_param_list (proc_assign_expr f) in
        match_token finsh_token_type_right_paren ;;;
        ret l
      else ret None) (st s t nodes) = Ok p (st s t' fin) ∧
    stream line t' rest ∧ parsed_all nodes args p fin.
Proof.
  intros Ha Hs Hu Hlen. destruct args as [|a l].
  - simpl in Hs. next_tok t1 H1. apply passed_stream in H1.
    exists t1, nodes, None. split; [done|]. split; [done|]. split; [done|]. split; [simpl; lia|].
    split; [done|]. exists Leaf. split; [apply seg_leaf|done].
  - destruct (toks_head a) as (x & ta & Ea & Hx). destruct Ha as [Ha Hl].
    pose proof Hs as Hs'. simpl in Hs'. rewrite Ea in Hs'. simpl in Hs'. next_tok t1 H1.
    rewrite bool_decide_false by (by intros E; rewrite E in Hx). cbn [negb]. again t2 H2.
    destruct (param_list_run f a l t2 nodes rest Ha Hl) as (t3 & fin & p & E & H3 & Hp); try done.
    { simpl. by rewrite Ea. }
    rewrite (bind_ok _ _ _ _ _ E). unfold match_token. rewrite bind_assoc. next_tok t4 H4.
    exists t4, fin, p. split; [done|]. split; [by eapply passed_stream|done].
Qed.

Lemma parses_call f g args : good_id (IdSyscall g) → args_parse f args →
  parses (proc_cast_expr (S f)) (ECall g args) 7.
Proof.
  intros Hg Ha t nodes l Hs Hf Hu Hlen. simpl in Hlen, Hs. rewrite <- app_assoc in Hs. simpl in Hs.
  edestruct (postfix_run f (EId (IdSyscall g)) t nodes) as (t1 & mid & p & -> & H1 & Hp);
    [done|done|done|exact Hs|done|lia|].
  pose proof Hp as (Hpre & Hlm & Hum & i & n & ch & -> & Hseg & Hshape). simpl in Hlm.
  replace (2 * length line + 8)%nat with (S (S (2 * length line + 6))) by lia.
  cbn [postfix_loop]. next_tok t2 H2. apply passed_stream in H2. cbn [tok_type].
  destruct (args_run f args t2 mid l Ha H2 Hum ltac:(lia))
    as (t3 & fin & q & E & H3 & Hpre' & Hlf & Huf & trs & Htrs & Hsh).
  assert (fin !! i = Some n) as Hi.
  { eapply prefix_lookup_Some; [|exact Hpre']. by destruct Hseg as ((_ & Hi & _) & _). }
  pose proof (make_sys_run s t3 fin FINSH_NODE_SYS_FUNC i n q Huf ltac:(lia) Hi) as Em.
  destruct (postfix_end (2 * length line + 6) (proc_assign_expr f) (Some (length fin)) t3
    (<[i := set_sibling q n]> fin ++ [sys_node FINSH_NODE_SYS_FUNC i]) l 7 H3 Hf) as (t4 & E4 & H4).
  eexists t4, _, _. split; [|split; [exact H4|]].
  - etrans; [symmetry; exact (bind_assoc next_token _ _ _)|].
    rewrite (bind_ok _ _ _ _ _ E), (bind_ok _ _ _ _ _ Em). exact E4.
  - eapply (parsed_binary _ _ _ _ trs); [exact Hp|exact Hseg|done|done|done|exact Htrs| | |].
    + simpl. lia.
    + simpl. lia.
    + split; [done|]. split; [|exact Hsh].
      exact (shape_sibling (EId (IdSyscall g)) i n ch Leaf q trs Hshape).
Qed.

(** ** Binary operators *)

(** [e] is read up to a round of the loop of its level. *)
Definition loops (cast : F (option nat)) (e : expr) (k : nat) : Prop := ∀ t nodes l,
  stream line t (toks vars e ++ l) → follows (S k) l → Forall used nodes →
  (length nodes + nsize e ≤ FINSH_NODE_MAX)%nat →
  ∃ t' all p r, binary_expr (level_expr cast (S k)) (level_op k) (st s t nodes) =
      binary_loop (2 * length line + 8 - r) (level_expr cast (S k)) (level_op k) p (st s t' all) ∧
    (r ≤ length (toks vars e))%nat ∧ stream line t' l ∧ parsed nodes e p all.

Lemma loops_operand cast e k : parses (level_expr cast (S k)) e (S k) → loops cast e k.
Proof.
  intros He t nodes l Hs Hf Hu Hlen. destruct (He t nodes l Hs Hf Hu Hlen) as (t1 & all & p & E & H1 & Hp).
  exists t1, all, p, 0%nat. unfold binary_expr.
  rewrite (bind_ok _ _ _ _ _ E), (bind_ok _ _ _ _ _ (parser_fuel_run _ _ _ H1)), Nat.sub_0_r.
  split; [done|]. split; [lia|done].
Qed.

Lemma parses_loops cast e k : (1 ≤ k ≤ 6)%nat → loops cast e k → parses (level_expr cast k) e k.
Proof.
  intros Hk Hl t nodes l Hs Hf Hu Hlen.
  pose proof (stream_length _ _ Hs) as Hsl. rewrite length_app in Hsl.
  destruct (Hl t nodes l Hs (follows_le k (S k) l ltac:(lia) Hf) Hu Hlen)
    as (t1 & all & p & r & E & Hr & H1 & Hp).
  rewrite level_expr_eq by done. rewrite E.
  destruct (2 * length line + 8 - r)%nat as [|fuel] eqn:Ef; [lia|].
  destruct l as [|x l]; [done|]. cbn [binary_loop]. next_tok t2 H2.
  rewrite level_op_none.
  2: { destruct Hf as (_ & _ & _ & Hf). intros Ex. rewrite Ex in Hf. lia. }
  destruct (again_run t2 all _ _ H2) as (t3 & E3 & H3). rewrite (bind_ok _ _ _ _ _ E3).
  by exists t3, all, p.
Qed.

Lemma follows_bin op l : follows (S (op_level op)) (TOp (bin_token op) :: l).
Proof. unfold follows, follow. destruct op; split_and!; simpl; (done || lia). Qed.

Lemma loops_bin cast op a b : loops cast a (op_level op) →
  parses (level_expr cast (S (op_level op))) b (S (op_level op)) →
  loops cast (EBin op a b) (op_level op).
Proof.
  intros Ha Hb t nodes l Hs Hf Hu Hlen. simpl in Hs, Hlen.
  pose proof (stream_length _ _ Hs) as Hsl. rewrite !length_app in Hsl. simpl in Hsl.
  rewrite <- app_assoc in Hs. simpl in Hs.
  destruct (Ha t nodes _ Hs (follows_bin op _) Hu ltac:(lia)) as (t1 & mid & p & r & E & Hr & H1 & Hp).
  pose proof Hp as (Hpre & Hlm & Hum & i & n & ch & -> & Hseg & Hshape).
  destruct (2 * length line + 8 - r)%nat as [|fuel] eqn:Ef; [lia|].
  rewrite E. cbn [binary_loop]. next_tok t2 H2. apply passed_stream in H2.
  cbn [tok_type]. rewrite level_op_bin.
  destruct (Hb t2 mid l H2 Hf Hum ltac:(lia)) as (t3 & all & q & E3 & H3 & Hq).
  pose proof Hq as (Hpre' & Hla & Hua & j & m & ch' & -> & Hseg' & Hshape').
  rewrite (bind_ok _ _ _ _ _ E3).
  assert (all !! i = Some n) as Hi.
  { eapply prefix_lookup_Some; [|exact Hpre']. by destruct Hseg as ((_ & Hi & _) & _). }
  assert (bin_type op ≠ FINSH_NODE_UNKNOWN) as Hop by (by destruct op).
  erewrite bind_ok by (apply (make_sys_run _ _ _ _ i n); [done|lia|done]).
  exists t3, (<[i := set_sibling (Some j) n]> all ++ [sys_node (bin_type op) i]), (Some (length all)), (S r).
  replace fuel with (2 * length line + 8 - S r)%nat by lia. split; [done|].
  split; [simpl; rewrite length_app; simpl; lia|]. split; [done|].
  eapply (parsed_binary _ _ _ _ (Node j m ch' Leaf)); [exact Hp|exact Hseg|done|done|done|exact Hseg'|..].
  - simpl. lia.
  - simpl. lia.
  - split; [done|]. split; [by apply (shape_sibling a i n ch Leaf)|]. done.
Qed.

(** Behind an expression of a level, or of one that binds more. *)
Lemma parses_up cast e k : (1 ≤ k ≤ 7)%nat → parses cast e 7 → parses (level_expr cast k) e k.
Proof.
  intros Hk Hc. remember (7 - k)%nat as d eqn:Hd. revert k Hk Hd.
  induction d as [|d IH]; intros k Hk Hd.
  - replace k with 7%nat by lia. exact Hc.
  - apply parses_loops; [lia|]. apply loops_operand. apply IH; lia.
Qed.

Lemma parses_or cast e : parses cast e 7 → parses (proc_inclusive_or_expr cast) e 1.
Proof. apply (parses_up cast e 1). lia. Qed.

(** ** Assignments *)
Lemma assign_end f e : parses (proc_inclusive_or_expr (proc_cast_expr f)) e 1 →
  parses (proc_assign_expr (S f)) e 0.
Proof.
  intros He t nodes l Hs Hf Hu Hlen.
  destruct (He t nodes l Hs (follows_le 0 1 l ltac:(lia) Hf) Hu Hlen) as (t1 & all & p & E & H1 & Hp).
  destruct l as [|x l]; [done|]. cbn [proc_assign_expr]. rewrite (bind_ok _ _ _ _ _ E).
  next_tok t2 H2. rewrite bool_decide_false.
  2: { intros Ex. destruct Hf as (_ & _ & _ & Hf). rewrite Ex in Hf. simpl in Hf. lia. }
  destruct (again_run t2 all _ _ H2) as (t3 & E3 & H3). rewrite (bind_ok _ _ _ _ _ E3).
  by exists t3, all, p.
Qed.

Lemma follows_assign l : follows 1 (TOp finsh_token_type_assign :: l).
Proof. unfold follows, follow. split_and!; simpl; (done || lia). Qed.

Lemma assign_bin f x a e : parses (proc_inclusive_or_expr (proc_cast_expr f)) x 1 →
  parses (proc_assign_expr f) a 0 →
  toks vars e = toks vars x ++ TOp finsh_token_type_assign :: toks vars a →
  nsize e = (nsize x + nsize a + 1)%nat →
  (∀ k i n ch q tr, shape x (Node i n ch Leaf) → shape a tr → last_tree tr →
    shape e (Node k (sys_node FINSH_NODE_SYS_ASSIGN i) (Node i (set_sibling q n) ch tr) Leaf)) →
  parses (proc_assign_expr (S f)) e 0.
Proof.
  intros Hx Ha Ht Hsz Hsh t nodes l Hs Hf Hu Hlen. rewrite Ht, <- app_assoc in Hs. simpl in Hs.
  destruct (Hx t nodes _ Hs (follows_assign _) Hu ltac:(lia)) as (t1 & mid & p & E & H1 & Hp).
  pose proof Hp as (Hpre & Hlm & Hum & i & n & ch & -> & Hseg & Hshape).
  cbn [proc_assign_expr]. rewrite (bind_ok _ _ _ _ _ E). next_tok t2 H2. apply passed_stream in H2.
  cbn [tok_type]. rewrite bool_decide_true by done.
  destruct (Ha t2 mid l H2 Hf Hum ltac:(lia)) as (t3 & all & q & E3 & H3 & Hq).
  pose proof Hq as (Hpre' & Hla & Hua & j & m & ch' & -> & Hseg' & Hshape').
  rewrite (bind_ok _ _ _ _ _ E3).
  assert (all !! i = Some n) as Hi.
  { eapply prefix_lookup_Some; [|exact Hpre']. by destruct Hseg as ((_ & Hi & _) & _). }
  rewrite (make_sys_run _ _ _ _ i n) by (done || lia).
  eexists t3, _, _. split; [done|]. split; [done|].
  eapply (parsed_binary _ _ _ _ (Node j m ch' Leaf)); [exact Hp|exact Hseg|done|done|done|exact Hseg'|lia|lia|].
  by apply Hsh.
Qed.

(** ** All expressions *)

(** With this fuel, [e] is read at every level down to its own. *)
Definition read_with (f : nat) (e : expr) : Prop :=
  (level e = 7%nat → parses (proc_cast_expr f) e 7) ∧
  (∀ k, (1 ≤ k ≤ level e)%nat → parses (level_expr (proc_cast_expr f) k) e k) ∧
  (∀ k, (1 ≤ k ≤ 6)%nat → (k ≤ level e)%nat → loops (proc_cast_expr f) e k) ∧
  parses (proc_assign_expr (S f)) e 0.

Lemma read_cast f e : level e = 7%nat → parses (proc_cast_expr f) e 7 → read_with f e.
Proof.
  intros He Hc. split; [done|]. split; [|split].
  - intros k Hk. apply parses_up; [lia|done].
  - intros k Hk _. apply loops_operand, parses_up; [lia|done].
  - by apply assign_end, parses_or.
Qed.

Lemma read_bin f op a b : read_with f a → read_with f b →
  (op_level op ≤ level a)%nat → (op_level op < level b)%nat → read_with f (EBin op a b).
Proof.
  intros (_ & _ & Ha & _) (_ & Hb & _) La Lb. destruct (level_bin op) as [_ Hop].
  assert (∀ d k, (1 ≤ k)%nat → (op_level op = k + d)%nat →
    loops (proc_cast_expr f) (EBin op a b) k) as Hloops.
  { induction d as [|d IH]; intros k Hk Hd.
    - replace k with (op_level op) by lia. apply loops_bin; [apply Ha; lia|]. apply Hb. lia.
    - apply loops_operand, parses_loops; [lia|]. apply IH; lia. }
  assert (∀ k, (1 ≤ k ≤ op_level op)%nat →
    parses (level_expr (proc_cast_expr f) k) (EBin op a b) k) as Hparses.
  { intros k Hk. apply parses_loops; [lia|]. apply (Hloops (op_level op - k)%nat); lia. }
  split; [simpl; lia|]. split; [exact Hparses|]. split.
  - intros k Hk Hle. simpl in Hle. apply (Hloops (op_level op - k)%nat); lia.
  - apply assign_end. apply (Hparses 1%nat). lia.
Qed.

Lemma read_level0 f e : level e = 0%nat → parses (proc_assign_expr (S f)) e 0 → read_with f e.
Proof. intros He Ha. split; [lia|]. split; [intros; lia|]. split; [intros; lia|done]. Qed.

Definition readable (e : expr) : Prop := plain e → named e → ∀ f,
  (2 * length (toks vars e) ≤ f)%nat → read_with f e.
Definition readable_args (l : exprs) : Prop := plains l → nameds l → ∀ f,
  (2 * length (more_toks vars l) ≤ f)%nat → all_parse f l ∧ args_parse f l.

Lemma more_args_toks l : (length (more_toks vars l) ≤ S (length (args_toks vars l)))%nat.
Proof. destruct l; simpl; lia. Qed.

Lemma readable_prefix type nt a e : prefix_op type = Some nt → nt ≠ FINSH_NODE_UNKNOWN →
  readable a → level e = 7%nat → (plain e → plain a ∧ level a = 7%nat) → (named e → named a) →
  toks vars e = TOp type :: toks vars a → nsize e = (nsize a + 1)%nat →
  (∀ k i n ch, shape a (Node i n ch Leaf) →
    shape e (Node k (sys_node nt i) (Node i (set_sibling None n) ch Leaf) Leaf)) →
  readable e.
Proof.
  intros Hop Hnt Ha He Hp Hn Ht Hsz Hsh Hpe Hne [|f] Hf; rewrite Ht in Hf; simpl in Hf; [lia|].
  destruct (Hp Hpe) as [Hpa Hla]. apply read_cast; [done|].
  eapply parses_prefix; [exact Hop| |exact Ht|exact Hsz|exact Hnt|exact Hsh].
  apply Ha; [done|auto|lia|done].
Qed.

Lemma readable_leaf e : is_leaf e → readable e.
Proof.
  intros Hl Hp Hn f Hf. destruct (leaf_token e Hl Hp) as (x & Ex & _). rewrite Ex in Hf. simpl in Hf.
  destruct f as [|f]; [lia|]. apply read_cast; [by destruct e|]. by apply parses_leaf.
Qed.

Lemma readable_bin op a b : readable a → readable b → readable (EBin op a b).
Proof.
  intros Ha Hb (Pa & Pb & La & Lb) (Na & Nb) f Hf. simpl in Hf. rewrite length_app in Hf. simpl in Hf.
  apply read_bin; [apply Ha; [done|done|lia]|apply Hb; [done|done|lia]|done|done].
Qed.

Lemma readable_call g args : readable_args args → readable (ECall g args).
Proof.
  intros Ha Hp (Hg & Hn) [|f] Hf; simpl in Hf; rewrite length_app in Hf; simpl in Hf; [lia|].
  apply read_cast; [done|]. apply parses_call; [done|]. apply Ha; [done|done|].
  pose proof (more_args_toks args). lia.
Qed.

Lemma readable_assign x a : readable a → readable (EAssign x a).
Proof.
  intros Ha Hp (Hx & Hn) [|f] Hf; simpl in Hf; [lia|]. apply read_level0; [done|].
  eapply (assign_bin (S f) (EId x) a); [| |done|done|].
  - apply parses_or. by apply parses_leaf.
  - apply Ha; [done|done|lia].
  - intros k i n ch q tr Hx' Ha' Hl. split; [done|]. split; [|by split].
    exact (shape_sibling (EId x) i n ch Leaf q tr Hx').
Qed.

Lemma readable_load p : readable p → readable (ELoad p).
Proof.
  intros Hp. apply (readable_prefix finsh_token_type_mul FINSH_NODE_SYS_GETVALUE p); try done.
  intros k i n ch Hs. split; [done|]. split; [by apply (shape_sibling p i n ch Leaf)|done].
Qed.

Lemma readable_store p a : readable p → readable a → readable (EStore p a).
Proof.
  intros Hp Ha (Pp & Lp & Pa) (Np & Na) [|f] Hf; simpl in Hf; rewrite length_app in Hf; simpl in Hf; [lia|].
  apply read_level0; [done|]. destruct (readable_load p Hp (conj Pp Lp) Np (S f)) as (Hc & _);
    [simpl; lia|].
  eapply (assign_bin (S f) (ELoad p) a); [| |done|done|].
  - apply parses_or. by apply Hc.
  - apply Ha; [done|done|lia].
  - intros k i n ch q tr (Hg & Hs & Hl) Ha' Ht. split; [done|]. by split_and!.
Qed.

Lemma readable_post inc k : readable (EPost inc k).
Proof.
  intros Hp Hk [|f] Hf; simpl in Hf; [lia|]. apply read_cast; [done|]. by apply parses_post.
Qed.

Lemma readable_cons a l : readable a → readable_args l → readable_args (ECons a l).
Proof.
  intros Ha Hl (Pa & Pl) (Na & Nl) [|f] Hf; simpl in Hf; [lia|]. rewrite length_app in Hf.
  assert (parses (proc_assign_expr (S f)) a 0) as Hpa by (apply Ha; [done|done|lia]).
  destruct (Hl Pl Nl (S f)) as [Hall _]; [lia|].
  split; [by apply all_parse_cons|by split].
Qed.

Lemma readable_on_id type nt x e : prefix_op type = Some nt → nt ≠ FINSH_NODE_UNKNOWN →
  level e = 7%nat → (named e → good_id x) →
  toks vars e = [TOp type; TName (id_name vars x)] → nsize e = 2%nat →
  (∀ k i n ch, shape (EId x) (Node i n ch Leaf) →
    shape e (Node k (sys_node nt i) (Node i (set_sibling None n) ch Leaf) Leaf)) →
  readable e.
Proof.
  intros Hop Hnt He Hn Ht Hsz Hsh. eapply (readable_prefix type nt (EId x)); try done.
  by apply readable_leaf.
Qed.

Lemma all_readable : (∀ e, readable e) ∧ (∀ l, readable_args l).
Proof.
  apply expr_exprs_ind.
  - intros c. by apply readable_leaf.
  - intros k x. by apply readable_leaf.
  - intros x. by apply readable_leaf.
  - intros op a Ha b Hb. by apply readable_bin.
  - intros a Ha. apply (readable_prefix finsh_token_type_bitwise FINSH_NODE_SYS_BITWISE a); try done.
    intros k i n ch Hs. split; [done|]. split; [by apply (shape_sibling a i n ch Leaf)|done].
  - apply readable_call.
  - apply readable_assign.
  - intros p Hp a Ha. by apply readable_store.
  - intros inc k. apply (readable_on_id (step_token inc) (pre_type inc) (IdVar k)); try done; try by destruct inc.
  - apply readable_post.
  - apply readable_load.
  - intros x. apply (readable_on_id finsh_token_type_and FINSH_NODE_SYS_GETADDR x); try done.
  - intros _ _ f _. split; [apply all_parse_nil|done].
  - intros a Ha l Hl. by apply readable_cons.
Qed.

(** A printed expression before a semicolon. *)
Lemma proc_expr_parses e : plain e → named e → parses proc_expr e 0.
Proof.
  intros Hp Hn t nodes l Hs Hf Hu Hlen. unfold proc_expr.
  rewrite (bind_ok _ _ _ _ _ (parser_fuel_run _ _ _ Hs)).
  pose proof (stream_length _ _ Hs) as Hsl. rewrite length_app in Hsl.
  replace (2 * length line + 8)%nat with (S (2 * length line + 7)) by lia.
  apply (proj1 all_readable e Hp Hn); [lia|done..].
Qed.

End parsing.
