(* ===== verification/FinshLine.v ===== *)
(** * Lines of the shell

    From the text of a line to the value that is printed: the tokenizer, the
    parser, the compiler and the stack machine together. *)

From S2P Require Import Prelude FinshDef FinshHeap FinshNode FinshToken FinshParser FinshVm.
From S2P Require Import FinshCompiler FinshRun FinshVmSpec FinshTree FinshExpr FinshEval.
From S2P Require Import FinshDemo FinshProgram FinshText FinshGrammar.

(** ** Statements *)
Section statements.
Context `{FinshEnv} (line : list Z).

(** Each statement ends with a semicolon. *)
Definition ptoks (vars : list finsh_var) (l : list expr) : list tok :=
  concat (map (λ e, toks vars e ++ [TOp finsh_token_type_semicolon]) l).
Definition psize (l : list expr) : nat := foldr (λ e n, nsize e + n)%nat 0%nat l.

Lemma follows_semicolon k l : follows k (TOp finsh_token_type_semicolon :: l).
Proof. done. Qed.

Lemma statement_run s e t nodes l : plain e → named s e →
  stream line t (toks (global_variable s) e ++ TOp finsh_token_type_semicolon :: l) →
  Forall used nodes → (length nodes + nsize e ≤ FINSH_NODE_MAX)%nat →
  ∃ t' all p, proc_expr_statement (st s t nodes) = Ok p (st s t' all) ∧ stream line t' l ∧
    parsed nodes e p all.
Proof.
  intros Hp Hn Hs Hu Hlen. unfold proc_expr_statement.
  destruct (toks_head s e) as (x & ta & Ea & Hx). pose proof Hs as Hs'. rewrite Ea in Hs'. simpl in Hs'.
  destruct (next_run s line t nodes _ _ Hs') as (t1 & E1 & H1). rewrite (bind_ok _ _ _ _ _ E1).
  rewrite bool_decide_false by (by intros E; rewrite E in Hx). cbn [negb].
  destruct (again_run s line t1 nodes _ _ H1) as (t2 & E2 & H2). rewrite (bind_ok _ _ _ _ _ E2).
  destruct (proc_expr_parses s line e Hp Hn t2 nodes
    (TOp finsh_token_type_semicolon :: l)) as (t3 & all & p & E3 & H3 & Hall);
    [by rewrite Ea|apply follows_semicolon|done|done|].
  rewrite (bind_ok _ _ _ _ _ E3). unfold match_token. rewrite bind_assoc.
  destruct (next_run s line t3 all _ _ H3) as (t4 & E4 & H4). rewrite (bind_ok _ _ _ _ _ E4).
  exists t4, all, p. split; [done|]. split; [by eapply passed_stream|done].
Qed.

(** The statement that begins with the token [tok]. *)
Definition link_by (tok : token_type) (node : option nat) : F (option nat) :=
  if bool_decide (tok = finsh_token_type_identifier) then
    let! r := link_statement proc_expr_statement node in ret r.1
  else if is_base_type tok || bool_decide (tok = finsh_token_type_unsigned) then
    let! r := link_statement proc_variable_decl node in ret r.1
  else
    let! r := link_statement proc_expr_statement node in
    (if (r.2 : bool) then ret tt else let! _ := next_token in ret tt) ;;;
    ret r.1.

Lemma parser_loop_eq fuel tok node : starts tok →
  parser_loop (S fuel) tok node =
  (finsh_token_replay ;;;
   let! node := link_by tok node in
   let! r := gets root in
   match r with
   | None => ret tt
   | Some _ => let! tok := next_token in parser_loop fuel tok node
   end).
Proof. by destruct tok. Qed.

Lemma link_by_expr tok node s i s' : starts tok →
  link_statement proc_expr_statement node s = Ok (Some i, true) s' →
  link_by tok node s = Ok (Some i) s'.
Proof.
  intros Ht E. unfold link_by. destruct (decide (tok = finsh_token_type_identifier)) as [->|Hne].
  - rewrite bool_decide_true by done. by rewrite (bind_ok _ _ _ _ _ E).
  - rewrite bool_decide_false by done.
    replace (is_base_type tok || _) with false by (by destruct tok).
    by rewrite (bind_ok _ _ _ _ _ E).
Qed.

(** The first statement becomes the root. *)
Lemma first_run s e t nodes l tok : starts tok → plain e → named s e → root s = None →
  stream line t (toks (global_variable s) e ++ TOp finsh_token_type_semicolon :: l) →
  Forall used nodes → (length nodes + nsize e ≤ FINSH_NODE_MAX)%nat →
  ∃ t' all i, link_by tok None (st s t nodes) = Ok (Some i) (st (set_root (Some i) s) t' all) ∧
    stream line t' l ∧ parsed nodes e (Some i) all.
Proof.
  intros Ht Hp Hn Hr Hs Hu Hlen.
  destruct (statement_run s e t nodes l Hp Hn Hs Hu Hlen) as (t1 & all & p & E & H1 & Hall).
  pose proof Hall as (_ & _ & _ & i & _ & _ & -> & _).
  exists t1, all, i. split; [|done]. apply link_by_expr; [done|]. unfold link_statement.
  rewrite bind_gets. change (root (st s t nodes)) with (root s). rewrite Hr.
  by rewrite (bind_ok _ _ _ _ _ E).
Qed.

(** The next one is linked behind the last one. *)
Lemma next_statement_run s e t nodes l tok r last n : starts tok → plain e → named s e →
  root s = Some r → nodes !! last = Some n →
  stream line t (toks (global_variable s) e ++ TOp finsh_token_type_semicolon :: l) →
  Forall used nodes → (length nodes + nsize e ≤ FINSH_NODE_MAX)%nat →
  ∃ t' all i, link_by tok (Some last) (st s t nodes) =
      Ok (Some i) (st s t' (<[last := set_sibling (Some i) n]> all)) ∧
    stream line t' l ∧ parsed nodes e (Some i) all.
Proof.
  intros Ht Hp Hn Hr Hlast Hs Hu Hlen.
  destruct (statement_run s e t nodes l Hp Hn Hs Hu Hlen) as (t1 & all & p & E & H1 & Hall).
  pose proof Hall as (Hpre & _ & _ & i & _ & _ & -> & _).
  exists t1, all, i. split; [|done]. apply link_by_expr; [done|]. unfold link_statement.
  rewrite bind_gets. change (root (st s t nodes)) with (root s). rewrite Hr.
  rewrite (bind_ok _ _ _ _ _ E). erewrite bind_ok.
  2: { apply (upd_run _ _ _ _ n). by eapply prefix_lookup_Some. }
  done.
Qed.

(** ** The loop over the statements *)
Definition names (s : fstate) (l : list expr) : Prop := Forall (λ e, plain e ∧ named s e) l.

Lemma rest_run l : ∀ fuel s t nodes r last n, names s l → root s = Some r →
  stream line t (ptoks (global_variable s) l) → nodes !! last = Some n → sibling n = None →
  Forall used nodes → (length nodes + psize l ≤ FINSH_NODE_MAX)%nat → (length l < fuel)%nat →
  ∃ t' fin q trs, (let! tok := next_token in parser_loop fuel tok (Some last)) (st s t nodes) =
      Ok tt (st s t' fin) ∧
    linked nodes last n q fin ∧ length fin = (length nodes + psize l)%nat ∧
    seg fin (length nodes) q trs ∧ tree_of l trs.
Proof.
  induction l as [|e l IH]; intros [|fuel] s t nodes r last n Hnames Hr Hs Hn Hsib Hu Hlen Hf;
    simpl in Hf; try lia.
  - destruct (end_token_run line t (st s t nodes) Hs) as (t1 & E1).
    exists t1, nodes, None, Leaf.
    split; [|split; [by apply linked_self|split; [simpl; lia|split; [apply seg_leaf|done]]]].
    unfold next_token. change (set_token t (st s t nodes)) with (st s t nodes) in E1.
    by rewrite (bind_ok _ _ _ _ _ E1).
  - apply Forall_cons in Hnames as [[Hp Hne] Hnames]. simpl in Hlen.
    unfold ptoks in Hs. simpl in Hs. rewrite <- app_assoc in Hs. simpl in Hs.
    destruct (toks_head s e) as (x & ta & Ea & Hx). pose proof Hs as Hs'. rewrite Ea in Hs'. simpl in Hs'.
    destruct (next_run s line t nodes _ _ Hs') as (t1 & E1 & H1). rewrite (bind_ok _ _ _ _ _ E1).
    rewrite parser_loop_eq by done.
    destruct (again_run s line t1 nodes _ _ H1) as (t2 & E2 & H2). rewrite (bind_ok _ _ _ _ _ E2).
    destruct (next_statement_run s e t2 nodes (ptoks (global_variable s) l) (tok_type x) r last n)
      as (t3 & mid & i & E3 & H3 & Hpre & Hlm & Hum & i' & n1 & ch & [= <-] & Hseg & Hshape);
      try done; [by rewrite Ea|lia|].
    rewrite (bind_ok _ _ _ _ _ E3), bind_gets.
    change (root (st s t3 _)) with (root s). rewrite Hr.
    pose proof (seg_bound _ _ _ _ i Hseg ltac:(by left)) as Hib.
    pose proof (lookup_lt_Some _ _ _ Hn) as Hlast.
    destruct (IH fuel s t3 (<[last := set_sibling (Some i) n]> mid) r i n1)
      as (t4 & fin & q & trs & E4 & Hlk & Hlf & Hst & Htree); try done.
    + rewrite list_lookup_insert_ne by lia. apply Hseg.
    + by destruct Hseg as ((_ & _ & _ & Hsb) & _).
    + apply used_sibling; [done|]. by eapply prefix_lookup_Some.
    + rewrite length_insert. lia.
    + lia.
    + rewrite length_insert in Hst, Hlf.
      destruct (linked_cons _ _ _ _ _ _ _ _ _ _ Hpre Hn Hseg Hlk Hst) as [Hlk' Hseg'].
      exists t4, fin, (Some i), (Node i (set_sibling q n1) ch trs).
      split; [done|]. split; [done|]. split; [simpl; lia|]. split; [done|].
      split; [by eapply shape_sibling|done].
Qed.

Lemma st_empty s t : global_node_table s = replicate FINSH_NODE_MAX empty_node →
  set_token t s = st s t [].
Proof.
  intros Ht. unfold st.
  change ([] ++ replicate (FINSH_NODE_MAX - length []) empty_node)
    with (replicate FINSH_NODE_MAX empty_node).
  rewrite <- Ht. by destruct s.
Qed.

Lemma ptoks_length vars l : (length l ≤ length (ptoks vars l))%nat.
Proof.
  unfold ptoks. induction l as [|e l IH]; simpl; [lia|]. rewrite !length_app. simpl. lia.
Qed.

(** The whole line. *)
Lemma parser_run s e l : spelled (ptoks (global_variable s) (e :: l)) line →
  Forall valid_tok (ptoks (global_variable s) (e :: l)) → names s (e :: l) → root s = None →
  global_node_table s = replicate FINSH_NODE_MAX empty_node → (psize (e :: l) ≤ FINSH_NODE_MAX)%nat →
  ∃ t fin p, finsh_parser_run line s = Ok tt (st (set_root p s) t fin) ∧
    length fin = psize (e :: l) ∧ ∃ tr, seg fin 0 p tr ∧ tree_of (e :: l) tr.
Proof.
  intros Hline Hv Hnames Hr Ht Hlen. unfold finsh_parser_run.
  destruct (init_stream _ _ s Hline Hv) as (t & E & Hs). rewrite (bind_ok _ _ _ _ _ E).
  rewrite (st_empty s t Ht).
  unfold names in Hnames. apply Forall_cons in Hnames as [[Hp Hne] Hnames].
  pose proof (stream_length _ _ _ Hs) as Hlines.
  destruct (toks_head s e) as (x & ta & Ea & Hx).
  pose proof Hs as Hs'. unfold ptoks in Hs'. simpl in Hs'. rewrite Ea in Hs'. simpl in Hs'.
  destruct (next_run s _ t [] _ _ Hs') as (t1 & E1 & H1). rewrite (bind_ok _ _ _ _ _ E1).
  rewrite (bind_ok _ _ _ _ _ (parser_fuel_run _ _ _ _ _ (passed_stream _ _ _ _ H1))).
  replace (2 * length line + 8)%nat with (S (2 * length line + 7)) by lia.
  rewrite parser_loop_eq by done.
  destruct (again_run s _ t1 [] _ _ H1) as (t2 & E2 & H2). rewrite (bind_ok _ _ _ _ _ E2).
  simpl in Hlen. destruct (first_run s e t2 [] (ptoks (global_variable s) l) (tok_type x))
    as (t3 & mid & i & E3 & H3 & Hpre & Hlm & Hum & i' & n1 & ch & [= <-] & Hseg & Hshape);
    try done; [|simpl; lia|].
  { rewrite Ea. by rewrite <- app_assoc in H2. }
  rewrite (bind_ok _ _ _ _ _ E3), bind_gets. cbn [root st set_root set_token set_global_node_table].
  simpl in Hlm.
  destruct (rest_run l (2 * length line + 7)
    (set_root (Some i) s) t3 mid i i n1) as (t4 & fin & q & trs & E4 & Hlk & Hlf & Hst & Htree); try done.
  - by destruct Hseg as ((_ & Hi & _) & _).
  - by destruct Hseg as ((_ & _ & _ & Hsb) & _).
  - lia.
  - pose proof (ptoks_length (global_variable s) (e :: l)). simpl in *. lia.
  - exists t4, fin, (Some i). split; [exact E4|]. split; [simpl; lia|].
    exists (Node i (set_sibling q n1) ch trs). split; [|split; [by eapply shape_sibling|done]].
    eapply linked_head; [exact Hseg|done|done|lia].
Qed.
End statements.

(** ** Lines *)
Section lines.
Context `{FinshEnv}.

(** The state in which the shell waits for a line. *)
Definition ready (s : fstate) : Prop :=
  sized s ∧ root s = None ∧ global_errno s = FINSH_ERROR_OK ∧
  global_node_table s = replicate FINSH_NODE_MAX empty_node.

(** The text of a line of statements, and the texts that spell them: the last
    semicolon may have a space behind it. *)
Definition line_of (vars : list finsh_var) (l : list expr) : list Z := text (ptoks vars l).
Definition spells (vars : list finsh_var) (l : list expr) (line : list Z) : Prop :=
  spelled (ptoks vars l) line.

(** Statements that can be written on a line: their names stand for their
    symbols, the tokens can be spelled, and nothing needs parentheses. *)
Definition writable (s : fstate) (l : list expr) : Prop :=
  names s l ∧ Forall valid_tok (ptoks (global_variable s) l).

(** Statements that fit into the tables of the interpreter. *)
Definition fitting (vars : list finsh_var) (l : list expr) : Prop :=
  (psize l ≤ FINSH_NODE_MAX)%nat ∧ small vars l.

Lemma flush_ready s : sized s → ∃ s', finsh_flush s = Ok tt s' ∧ ready s' ∧
  memory s' = memory s ∧ global_variable s' = global_variable s.
Proof. intros Hs. by eexists. Qed.

Lemma low_long sz w : low sz (long_value w) = low sz w.
Proof.
  unfold low, long_value, s32, swrap. pose proof (bits_pos sz).
  assert (2 ^ 32 = 2 ^ bits sz * 2 ^ (32 - bits sz)) as E by (rewrite <- Z.pow_add_r by lia; f_equal; lia).
  assert (0 < 2 ^ bits sz) by (apply Z.pow_pos_nonneg; lia).
  assert (0 < 2 ^ (32 - bits sz)) by (apply Z.pow_pos_nonneg; lia).
  rewrite E, Zminus_mod, Z.rem_mul_r by lia. rewrite (Z.mul_comm (2 ^ bits sz)), Z.mod_add by lia.
  rewrite Z.mod_mod by lia. rewrite <- Zminus_mod. f_equal. lia.
Qed.

Lemma seg_holds s l t fin p tr : seg fin 0 p tr → tree_of l tr → (length fin ≤ FINSH_NODE_MAX)%nat →
  holds (st s t fin) p l.
Proof.
  intros Hseg Ht Hl. split.
  { simpl. rewrite length_app, length_replicate. lia. }
  exists tr. destruct Hseg as (Hr & Hn & _). split; [|done]. eapply rep_frame; [|exact Hr].
  intros j Hj. simpl. apply lookup_app_l. by apply (proj1 (Forall_forall _ _) (rep_bound _ _ _ Hr)).
Qed.

(** C24: The parser inverts printing: on the text of statements that need no
    parentheses and at most [FINSH_NODE_MAX] nodes it builds trees of the statements, in fresh nodes, links them
    in order, and reports no error. *)
Theorem parse_print s l line : ready s → l ≠ [] → writable s l →
  spells (global_variable s) l line → (psize l ≤ FINSH_NODE_MAX)%nat →
  ∃ p s', finsh_parser_run line s = Ok tt s' ∧ root s' = p ∧
    holds s' p l ∧ global_errno s' = FINSH_ERROR_OK ∧ memory s' = memory s ∧
    global_variable s' = global_variable s.
Proof.
  intros (_ & Hroot & He & Ht) Hl [Hn Hv] Hline Hsz. destruct l as [|e l]; [done|].
  destruct (parser_run line s e l) as (t & fin & p & E & Hlf & tr & Hseg & Htree);
    try done.
  exists p, (st (set_root p s) t fin). split; [exact E|]. split; [done|].
  split; [eapply seg_holds; [exact Hseg|done|lia]|done].
Qed.

(** What [finsh_run_line] does with the text of statements. *)
Lemma line_value s l line v m' : calls_ok → ready s → l ≠ [] →
  writable s l → spells (global_variable s) l line →
  fitting (global_variable s) l → Forall (wt (global_variable s)) l →
  run (global_variable s) l (memory s) = Some (v, m') →
  ∃ x s', finsh_run_line line s = Ok (PrintValue x) s' ∧
    low (pwidth (global_variable s) l) x = v ∧
    (pwidth (global_variable s) l = Dword → x = long_value v) ∧
    memory s' = m' ∧ global_variable s' = global_variable s ∧ ready s'.
Proof.
  intros Hcalls (Hs & Hroot & He & Ht) Hl [Hn Hv] Hline [Hsz Hsm] Hwt Hr. destruct l as [|e l]; [done|].
  destruct (parser_run line s e l) as (t & fin & p & E & Hlf & tr & Hseg & Htree);
    try done.
  unfold finsh_run_line. rewrite (bind_ok _ _ _ _ _ E).
  set (s0 := st (set_root p s) t fin).
  destruct (evaluate_steps p (e :: l) v m' s0)
    as (w & s1 & s2 & E1 & Hw1 & E2 & E3 & Hw & Hlow & Hm & Hs2 & He2 & Hvars); try done.
  { eapply seg_holds; [exact Hseg|done|lia]. }
  unfold finsh_errno. rewrite bind_gets. change (global_errno s0) with (global_errno s) in *. rewrite He.
  cbn [Z.eqb FINSH_ERROR_OK]. rewrite bind_assoc, bind_gets. change (root s0) with p.
  rewrite bind_assoc, (bind_ok _ _ _ _ _ E1), bind_ret, bind_gets, Hw1, He.
  cbn [Z.eqb FINSH_ERROR_OK].
  rewrite bind_assoc, (bind_ok _ _ _ _ _ E2), bind_assoc, (bind_ok _ _ _ _ _ E3), bind_ret.
  destruct (flush_ready s2 Hs2) as (s3 & E4 & Hready & Hm3 & Hv3). rewrite (bind_ok _ _ _ _ _ E4).
  exists (long_value w), s3. split; [done|]. split; [by rewrite low_long|]. split; [|split; [congruence|split; [by rewrite Hv3, Hvars|done]]].
  intros Hd. change (pwidth (global_variable s0)) with (pwidth (global_variable s)) in Hlow.
  rewrite Hd, low_dword in Hlow by done. congruence.
Qed.

(** The shell evaluates a line: for statements that can be written without
    parentheses and have a value, [finsh_run_line] on their text prints the
    value of the last one and leaves the memory that the evaluation leaves;
    and the shell is ready for the next line.  Of a value of fewer than 32
    bits the low bits are printed right; what is above them is left over on
    the stack. *)
Theorem line_evaluated s l line v m' : calls_ok → ready s → l ≠ [] →
  writable s l → spells (global_variable s) l line →
  fitting (global_variable s) l → Forall (wt (global_variable s)) l →
  run (global_variable s) l (memory s) = Some (v, m') →
  ∃ x s', finsh_run_line line s = Ok (PrintValue x) s' ∧
    low (pwidth (global_variable s) l) x = v ∧
    (pwidth (global_variable s) l = Dword → x = long_value v) ∧
    memory s' = m' ∧ global_variable s' = global_variable s ∧ ready s'.
Proof. apply line_value. Qed.
End lines.

(** ** The theorems on the small shell *)

(** [level = twice ( 4 ) ; a = 7 ; a + 6 * level ;] *)
Definition demo_level : finsh_id := IdSysvar (mk_sysvar 500 (chars level_name) finsh_type_int 600).
Definition demo_twice : finsh_syscall := mk_syscall 400 (chars twice_name) 77.
Definition demo_program : list expr :=
  [EAssign demo_level (ECall demo_twice (ECons (ELit LInt 4) ENil));
   EAssign (IdVar 0) (ELit LInt 7);
   EBin BAdd (EId (IdVar 0)) (EBin BMul (ELit LInt 6) (EId demo_level))].

Lemma demo_ready : ready demo.
Proof.
  split; [by apply (bool_decide_unpack _); vm_compute|].
  split; [reflexivity|]. split; reflexivity.
Qed.

Lemma demo_text : line_of (global_variable demo) demo_program = chars demo_program_text.
Proof. reflexivity. Qed.

Lemma demo_writable : writable demo demo_program.
Proof.
  split.
  - repeat apply Forall_cons_2; [..|by apply Forall_nil_2]; vm_compute; repeat (split || constructor).
  - by apply (bool_decide_unpack _); vm_compute.
Qed.

Lemma demo_fitting : fitting (global_variable demo) demo_program.
Proof. split; [apply Nat.leb_le; reflexivity|]. split; apply Z.leb_le; reflexivity. Qed.

Lemma demo_wt : Forall (wt (global_variable demo)) demo_program.
Proof.
  repeat apply Forall_cons_2; [..|by apply Forall_nil_2]; vm_compute;
    repeat first [discriminate | split | constructor | eexists].
Qed.

Lemma parse_print_witness : ∃ p s', finsh_parser_run (chars demo_program_text) demo = Ok tt s' ∧
  root s' = p ∧ holds s' p demo_program.
Proof.
  destruct (parse_print demo demo_program (chars demo_program_text) demo_ready) as (p & s' & E & Hr & Hh & _).
  - discriminate.
  - exact demo_writable.
  - left. reflexivity.
  - apply Nat.leb_le. reflexivity.
  - exists p, s'. split; [exact E|]. split; [exact Hr|exact Hh].
Defined.

Lemma line_evaluated_witness : ∃ s',
  finsh_run_line (chars demo_program_text) demo = Ok (PrintValue 55) s' ∧ ready s'.
Proof.
  destruct (line_evaluated demo demo_program (chars demo_program_text) 55 (default ∅ (snd <$> run (global_variable demo) demo_program (memory demo))))
    as (x & s' & E & _ & Hx & _ & _ & Hr).
  - exact demo_calls_ok.
  - exact demo_ready.
  - discriminate.
  - exact demo_writable.
  - left. reflexivity.
  - exact demo_fitting.
  - exact demo_wt.
  - reflexivity.
  - exists s'. rewrite (Hx eq_refl) in E. split; [exact E|exact Hr].
Defined.
