(* ===== verification/Shell.v ===== *)
(** * The line editor of the shell ([shell.c], completion of [cmd.c])

    The shell reads characters from its device and edits a line of 80 bytes
    with a cursor, a history of five lines and completion of names; a line
    end passes the line to the interpreter.  The device is the list of the
    characters that it has received; what the shell prints is a list of
    texts, results and symbols. *)

From S2P Require Import Prelude FinshDef FinshHeap FinshNode FinshVm FinshCompiler FinshToken.
From S2P Require Import FinshParser FinshRun.

(** ** Data *)
Definition FINSH_CMD_SIZE : Z := 80.
Definition FINSH_HISTORY_LINES : Z := 5.

(** ["finsh>>"] *)
Definition FINSH_PROMPT : list Z := [102; 105; 110; 115; 104; 62; 62].

Inductive input_stat : Type := WAIT_NORMAL | WAIT_SPEC_KEY | WAIT_FUNC_KEY.

Record finsh_shell := mk_shell {
  stat : input_stat;
  echo_mode : Z;   (* a bit *)
  current_history : Z;
  history_count : Z;
  cmd_history : list (list Z);   (* 5 arrays of 80 bytes *)
  line : list Z;   (* 80 bytes *)
  line_position : Z;
  line_curpos : Z
}.

(** What is printed: characters, the result of a line, or a symbol, on a line
    with its description. *)
Inductive output : Type :=
  | Text (l : list Z)
  | Result (r : run_output)
  | Symbol (name : list Z).

(** The shell with its interpreter, the characters that the device holds, and
    what was printed. *)
Record sstate := mk_sstate {
  shell : finsh_shell;
  interp : fstate;
  input : list Z;
  console : list output
}.

Definition SM := M sstate.

Definition set_shell x s := mk_sstate x (interp s) (input s) (console s).
Definition set_interp x s := mk_sstate (shell s) x (input s) (console s).
Definition set_input x s := mk_sstate (shell s) (interp s) x (console s).
Definition set_console x s := mk_sstate (shell s) (interp s) (input s) x.

Definition upd_shell (f : finsh_shell → finsh_shell) : SM unit :=
  modify (λ s, set_shell (f (shell s)) s).

Definition set_stat x h := mk_shell x (echo_mode h) (current_history h) (history_count h)
  (cmd_history h) (line h) (line_position h) (line_curpos h).
Definition set_echo_mode x h := mk_shell (stat h) x (current_history h) (history_count h)
  (cmd_history h) (line h) (line_position h) (line_curpos h).
Definition set_current_history x h := mk_shell (stat h) (echo_mode h) x (history_count h)
  (cmd_history h) (line h) (line_position h) (line_curpos h).
Definition set_history_count x h := mk_shell (stat h) (echo_mode h) (current_history h) x
  (cmd_history h) (line h) (line_position h) (line_curpos h).
Definition set_cmd_history x h := mk_shell (stat h) (echo_mode h) (current_history h)
  (history_count h) x (line h) (line_position h) (line_curpos h).
Definition set_line x h := mk_shell (stat h) (echo_mode h) (current_history h) (history_count h)
  (cmd_history h) x (line_position h) (line_curpos h).
Definition set_line_position x h := mk_shell (stat h) (echo_mode h) (current_history h)
  (history_count h) (cmd_history h) (line h) x (line_curpos h).
Definition set_line_curpos x h := mk_shell (stat h) (echo_mode h) (current_history h)
  (history_count h) (cmd_history h) (line h) (line_position h) x.

(** ** The device, the console, the interpreter *)
Definition rt_device_read : SM (option Z) :=
  let! l := gets input in
  match l with
  | [] => ret None
  | c :: l => modify (set_input l) ;;; ret (Some c)
  end.

Definition put_out (o : output) : SM unit := modify (λ s, set_console (console s ++ [o]) s).
Definition rt_kprintf (l : list Z) : SM unit := put_out (Text l).

Definition lift {A} (m : F A) : SM A := λ s,
  match m (interp s) with
  | Ok a i => Ok a (set_interp i s)
  | Fault f => Fault f
  end.

(** ** The line *)
Definition put_line (i c : Z) : SM unit :=
  let! h := gets shell in
  if (0 <=? i) && (i <? Z.of_nat (length (line h)))
  then upd_shell (set_line (<[Z.to_nat i := c]> (line h))) else fail OutOfBounds.

(** [rt_memmove(&line[dst], &line[src], n)] *)
Definition move_line (dst src n : Z) : SM unit :=
  let! h := gets shell in
  let size := Z.of_nat (length (line h)) in
  if (0 <=? dst) && (0 <=? src) && (0 <=? n) && (dst + n <=? size) && (src + n <=? size) then
    upd_shell (set_line
      (list_inserts (Z.to_nat dst) (take (Z.to_nat n) (drop (Z.to_nat src) (line h))) (line h)))
  else fail OutOfBounds.

(** The C string in the array from index [i] on. *)
Definition string_at (i : Z) : SM (list Z) :=
  let! h := gets shell in
  let l := drop (Z.to_nat i) (line h) in
  if bool_decide (0 ∈ l) then ret (c_string l) else fail OutOfBounds.

(** [memset(shell->line, 0, sizeof(shell->line))] *)
Definition clear_line : SM unit :=
  upd_shell (set_line (replicate (Z.to_nat FINSH_CMD_SIZE) 0)).

(** [shell->line_curpos = shell->line_position = strlen(shell->line)] *)
Definition line_length : SM unit :=
  let! str := string_at 0 in
  let n := u8 (Z.of_nat (length str)) in
  upd_shell (set_line_position n) ;;;
  upd_shell (set_line_curpos n).

(** [n] times ["\b"] *)
Definition back (n : Z) : SM unit := rt_kprintf (replicate (Z.to_nat n) 8).

(** ** History *)

(** ["\033[2K\r"], the prompt and the line *)
Definition shell_handle_history : SM unit :=
  rt_kprintf [27; 91; 50; 75; 13] ;;;
  let! str := string_at 0 in
  rt_kprintf (FINSH_PROMPT ++ str).

Definition get_history (i : Z) : SM (list Z) :=
  let! h := gets shell in
  if i <? 0 then fail OutOfBounds else from_option OutOfBounds (cmd_history h !! Z.to_nat i).
Definition put_history (i : Z) (row : list Z) : SM unit :=
  let! h := gets shell in
  if (0 <=? i) && (i <? Z.of_nat (length (cmd_history h)))
  then upd_shell (set_cmd_history (<[Z.to_nat i := row]> (cmd_history h))) else fail OutOfBounds.

(** Clear row [i] and copy [n] bytes of the line into it. *)
Definition save_line (i n : Z) : SM unit :=
  let! h := gets shell in
  if (n <=? Z.of_nat (length (line h))) && (n <=? FINSH_CMD_SIZE) then
    put_history i (take (Z.to_nat n) (line h) ++
                   replicate (Z.to_nat FINSH_CMD_SIZE - Z.to_nat n) 0)
  else fail OutOfBounds.

Fixpoint move_history (n : nat) (index : Z) : SM unit :=
  match n with
  | O => ret tt
  | S n =>
    let! row := get_history (index + 1) in
    put_history index row ;;;
    move_history n (index + 1)
  end.

Definition shell_push_history : SM unit :=
  let! h := gets shell in
  (when negb (line_position h =? 0) then
     if FINSH_HISTORY_LINES <=? history_count h then
       move_history (Z.to_nat (FINSH_HISTORY_LINES - 1)) 0 ;;;
       save_line (FINSH_HISTORY_LINES - 1) (line_position h) ;;;
       upd_shell (set_history_count FINSH_HISTORY_LINES)
     else
       save_line (history_count h) (line_position h) ;;;
       upd_shell (set_history_count (u16 (history_count h + 1)))) ;;;
  let! h := gets shell in
  upd_shell (set_current_history (history_count h)).

(** Copy the current line of the history. *)
Definition recall : SM unit :=
  let! h := gets shell in
  let! row := get_history (current_history h) in
  upd_shell (set_line row) ;;;
  line_length ;;;
  shell_handle_history.

Definition up_key : SM unit :=
  let! h := gets shell in
  if 0 <? current_history h then
    upd_shell (set_current_history (current_history h - 1)) ;;;
    recall
  else upd_shell (set_current_history 0).

Definition down_key : SM unit :=
  let! h := gets shell in
  if current_history h <? history_count h - 1 then
    upd_shell (set_current_history (u16 (current_history h + 1))) ;;;
    recall
  else if negb (history_count h =? 0) then
    upd_shell (set_current_history (history_count h - 1)) ;;;
    recall
  else ret tt.

(** ** Keys *)
Definition left_key : SM unit :=
  let! h := gets shell in
  when negb (line_curpos h =? 0) then
    (rt_kprintf [8] ;;;
     upd_shell (set_line_curpos (line_curpos h - 1))).

Definition right_key : SM unit :=
  let! h := gets shell in
  when line_curpos h <? line_position h then
    (let! c := from_option OutOfBounds (line h !! Z.to_nat (line_curpos h)) in
     rt_kprintf [c] ;;;
     upd_shell (set_line_curpos (u8 (line_curpos h + 1)))).

(** The escape sequences; whether the character is part of one. *)
Definition special_key (ch : Z) : SM bool :=
  let! h := gets shell in
  if ch =? 0x1b then upd_shell (set_stat WAIT_SPEC_KEY) ;;; ret true
  else
    match stat h with
    | WAIT_SPEC_KEY =>
      if ch =? 0x5b then upd_shell (set_stat WAIT_FUNC_KEY) ;;; ret true
      else upd_shell (set_stat WAIT_NORMAL) ;;; ret false
    | WAIT_FUNC_KEY =>
      upd_shell (set_stat WAIT_NORMAL) ;;;
      if ch =? 0x41 then up_key ;;; ret true
      else if ch =? 0x42 then down_key ;;; ret true
      else if ch =? 0x44 then left_key ;;; ret true
      else if ch =? 0x43 then right_key ;;; ret true
      else ret false
    | WAIT_NORMAL => ret false
    end.

Definition backspace_key : SM unit :=
  let! h := gets shell in
  when negb (line_curpos h =? 0) then
    (upd_shell (set_line_position (u8 (line_position h - 1))) ;;;
     upd_shell (set_line_curpos (line_curpos h - 1)) ;;;
     let! h := gets shell in
     if line_curpos h <? line_position h then
       move_line (line_curpos h) (line_curpos h + 1) (line_position h - line_curpos h) ;;;
       put_line (line_position h) 0 ;;;
       let! str := string_at (line_curpos h) in
       rt_kprintf ([8] ++ str ++ [32; 32; 8]) ;;;
       back (line_position h - line_curpos h + 1)
     else
       rt_kprintf [8; 32; 8] ;;;
       put_line (line_position h) 0).

(** The cursor moves on; a line that fills the array is given up. *)
Definition advance : SM unit :=
  let! h := gets shell in
  upd_shell (set_line_position (u8 (line_position h + 1))) ;;;
  upd_shell (set_line_curpos (u8 (line_curpos h + 1))) ;;;
  let! h := gets shell in
  when FINSH_CMD_SIZE <=? line_position h then
    (upd_shell (set_line_position 0) ;;;
     upd_shell (set_line_curpos 0)).

Definition normal_key (ch : Z) : SM unit :=
  let! h := gets shell in
  (when FINSH_CMD_SIZE <=? line_position h then upd_shell (set_line_position 0)) ;;;
  let! h := gets shell in
  (if line_curpos h <? line_position h then
     move_line (line_curpos h + 1) (line_curpos h) (line_position h - line_curpos h) ;;;
     put_line (line_curpos h) ch ;;;
     (when negb (echo_mode h =? 0) then
        (let! str := string_at (line_curpos h) in rt_kprintf str)) ;;;
     back (line_position h - line_curpos h)
   else
     put_line (line_position h) ch ;;;
     (when negb (echo_mode h =? 0) then rt_kprintf [ch])) ;;;
  advance.

(** ** Completion ([list_prefix] of [cmd.c]) *)

(** [str_is_prefix]: 0 where [prefix] is one of [str], else -1. *)
Fixpoint str_is_prefix (prefix str : list Z) : Z :=
  match prefix, str with
  | [], _ => 0
  | p :: prefix, c :: str => if p =? c then str_is_prefix prefix str else -1
  | _ :: _, [] => -1
  end.

Fixpoint str_common (str1 str2 : list Z) : Z :=
  match str1, str2 with
  | a :: str1, b :: str2 => if a =? b then 1 + str_common str1 str2 else 0
  | _, _ => 0
  end.

(** The local variables [name_ptr] and [min_length]. *)
Record matching := mk_matching { name_ptr : option (list Z); min_length : Z }.

Definition header_function : list Z := [45; 45; 102; 117; 110; 99; 116; 105; 111; 110; 58; 10].
Definition header_variable : list Z := [45; 45; 118; 97; 114; 105; 97; 98; 108; 101; 58; 10].

(** One round of the four loops: [again] says whether a first match sets
    [name_ptr] also where it is set. *)
Definition list_symbol (prefix header : list Z) (again : bool) (name : list Z)
    (cnt : Z) (m : matching) : SM (Z * matching) :=
  if str_is_prefix prefix name =? 0 then
    (when cnt =? 0 then rt_kprintf header) ;;;
    let m :=
      if (cnt =? 0) && bool_decide (prefix ≠ []) && (again || bool_decide (name_ptr m = None))
      then mk_matching (Some name) (Z.of_nat (length name)) else m in
    let! m :=
      (if bool_decide (prefix ≠ []) then
         match name_ptr m with
         | None => fail NullDeref
         | Some p =>
           let n := str_common p name in
           ret (if n <? min_length m then mk_matching (name_ptr m) n else m)
         end
       else ret m) in
    put_out (Symbol name) ;;;
    ret (u16 (cnt + 1), m)
  else ret (cnt, m).

Fixpoint list_symbols (prefix header : list Z) (again : bool) (skip : list Z → bool)
    (names : list (list Z)) (cnt : Z) (m : matching) : SM (Z * matching) :=
  match names with
  | [] => ret (cnt, m)
  | name :: names =>
    if skip name then list_symbols prefix header again skip names cnt m
    else
      let! r := list_symbol prefix header again name cnt m in
      list_symbols prefix header again skip names r.1 r.2
  end.

(** [rt_strncpy(prefix, name, n)] at the beginning of the line *)
Definition copy_name (name : list Z) (n : Z) : SM unit :=
  let! h := gets shell in
  if n <=? Z.of_nat (length (line h)) then
    upd_shell (set_line (list_inserts 0
      (take (Z.to_nat n) (name ++ replicate (Z.to_nat n) 0)) (line h)))
  else fail OutOfBounds.

Section shell.
Context `{FinshEnv}.

(** Is [name] an internal command, ["__..."]? *)
Definition internal (name : list Z) : bool := str_is_prefix [95; 95] name =? 0.

Definition list_prefix (prefix : list Z) : SM unit :=
  let! i := gets interp in
  let skip_none (_ : list Z) := false in
  let! r := list_symbols prefix header_function true internal
              (syscall_name <$> syscall_table) 0 (mk_matching None 0) in
  let! r := list_symbols prefix header_function false skip_none
              (syscall_name <$> global_syscall_list i) r.1 r.2 in
  let! r := list_symbols prefix header_variable false skip_none
              (sysvar_name <$> sysvar_table) 0 r.2 in
  let! r := list_symbols prefix header_variable false skip_none
              (sysvar_name <$> global_sysvar_list i) r.1 r.2 in
  match name_ptr r.2 with
  | Some name => copy_name name (min_length r.2)
  | None => ret tt
  end.

Definition shell_auto_complete : SM unit :=
  rt_kprintf [10] ;;;
  let! prefix := string_at 0 in
  list_prefix prefix ;;;
  let! str := string_at 0 in
  rt_kprintf (FINSH_PROMPT ++ str).

Definition tab_key : SM unit :=
  let! h := gets shell in
  back (line_curpos h) ;;;
  shell_auto_complete ;;;
  line_length.

(** ** The end of a line *)

(** [finsh_run_line]: a new line where there is an echo, then the result. *)
Definition run_line (str : list Z) : SM unit :=
  let! h := gets shell in
  (when negb (echo_mode h =? 0) then rt_kprintf [10]) ;;;
  let! r := lift (finsh_run_line str) in
  put_out (Result r).

Definition end_of_line : SM unit :=
  shell_push_history ;;;
  let! h := gets shell in
  put_line (line_position h) 59 ;;;
  (if negb (line_position h =? 0) then
     let! str := string_at 0 in run_line str
   else when negb (echo_mode h =? 0) then rt_kprintf [10]) ;;;
  rt_kprintf FINSH_PROMPT ;;;
  clear_line ;;;
  upd_shell (set_line_position 0) ;;;
  upd_shell (set_line_curpos 0).

(** ** The loop *)

(** The end of the body: whether the loop goes on. *)
Definition line_key (ch : Z) : SM bool :=
  if (ch =? 13) || (ch =? 10) then end_of_line ;;; ret false
  else normal_key ch ;;; ret true.

(** A character that is no part of an escape sequence. *)
Definition plain_char (ch : Z) : SM bool :=
  if ch =? 13 then
    (* linux telnet sends a zero behind a carriage return *)
    let! next := rt_device_read in
    line_key (match next with Some c => if c =? 0 then 13 else c | None => 13 end)
  else if ch =? 9 then tab_key ;;; ret true
  else if (ch =? 0x7f) || (ch =? 0x08) then backspace_key ;;; ret true
  else line_key ch.

Definition shell_char (ch : Z) : SM bool :=
  let! special := special_key ch in
  if (special : bool) then ret true else plain_char ch.

(** The inner loop of [finsh_thread_entry]: until the device has no character,
    or a line is done. *)
Fixpoint read_loop (fuel : nat) : SM unit :=
  let! c := rt_device_read in
  match c with
  | None => ret tt
  | Some ch =>
    match fuel with
    | O => fail OutOfFuel
    | S fuel =>
      let! go := shell_char ch in
      if (go : bool) then read_loop fuel else ret tt
    end
  end.
Definition shell_read : SM unit :=
  let! l := gets input in read_loop (length l).

(** The start of the thread: the shell was cleared by [finsh_system_init]. *)
Definition new_shell : finsh_shell :=
  mk_shell WAIT_NORMAL 0 0 0 (replicate 5 (replicate (Z.to_nat FINSH_CMD_SIZE) 0))
    (replicate (Z.to_nat FINSH_CMD_SIZE) 0) 0 0.
Definition finsh_thread_start : SM unit :=
  upd_shell (set_echo_mode 1) ;;;
  lift finsh_init ;;;
  rt_kprintf FINSH_PROMPT.

(** The calls of applications; the echo mode has one bit. *)
Definition finsh_set_echo (echo : Z) : SM unit := upd_shell (set_echo_mode (Z.land echo 1)).
Definition finsh_get_echo : SM Z := gets (λ s, echo_mode (shell s)).
End shell.
