(* ===== verification/ShellEditor.v ===== *)
(** * What the line editor does

    The editor as it is meant: a text with a cursor, and the lines entered
    before.  The keys of [Shell] implement it, and the terminal shows it. *)

From S2P Require Import Prelude FinshDef FinshToken FinshRun Shell.

(** ** The abstract editor *)

(** The text around the cursor, that before it in reverse; the lines of the
    history, oldest first; the line of the history that is shown. *)
Record editor := mk_editor {
  before : list Z;
  after_ : list Z;
  lines : list (list Z);
  place : nat;
  mode : input_stat
}.

Definition text_of (e : editor) : list Z := reverse (before e) ++ after_ e.
Definition around (b a : list Z) (e : editor) : editor := mk_editor b a (lines e) (place e) (mode e).
Definition with_mode (m : input_stat) (e : editor) : editor :=
  mk_editor (before e) (after_ e) (lines e) (place e) m.

Definition ed_insert (c : Z) (e : editor) : editor := around (c :: before e) (after_ e) e.
Definition ed_delete (e : editor) : editor :=
  match before e with [] => e | _ :: b => around b (after_ e) e end.
Definition ed_left (e : editor) : editor :=
  match before e with [] => e | c :: b => around b (c :: after_ e) e end.
Definition ed_right (e : editor) : editor :=
  match after_ e with [] => e | c :: a => around (c :: before e) a e end.

(** Show line [i] of the history. *)
Definition ed_recall (i : nat) (e : editor) : editor :=
  match lines e !! i with
  | Some l => mk_editor (reverse l) [] (lines e) i (mode e)
  | None => e
  end.
Definition ed_up (e : editor) : editor :=
  match place e with O => e | S i => ed_recall i e end.
Definition ed_down (e : editor) : editor :=
  ed_recall (Nat.min (S (place e)) (length (lines e) - 1)) e.

Definition printable (c : Z) : bool := (32 <=? c) && (c <? 127).

(** A character that begins no escape sequence: [None] where it ends the
    line, is no printable one, or does not fit any more. *)
Definition ed_plain (ch : Z) (e : editor) : option editor :=
  if (ch =? 127) || (ch =? 8) then Some (ed_delete e)
  else if printable ch && Nat.ltb (length (text_of e)) 79 then Some (ed_insert ch e)
  else None.

Definition ed_char (e : editor) (ch : Z) : option editor :=
  if ch =? 27 then Some (with_mode WAIT_SPEC_KEY e)
  else
    match mode e with
    | WAIT_NORMAL => ed_plain ch e
    | WAIT_SPEC_KEY =>
      if ch =? 91 then Some (with_mode WAIT_FUNC_KEY e) else ed_plain ch (with_mode WAIT_NORMAL e)
    | WAIT_FUNC_KEY =>
      let e := with_mode WAIT_NORMAL e in
      if ch =? 65 then Some (ed_up e)
      else if ch =? 66 then Some (ed_down e)
      else if ch =? 68 then Some (ed_left e)
      else if ch =? 67 then Some (ed_right e)
      else ed_plain ch e
    end.

Fixpoint ed_chars (e : editor) (l : list Z) : option editor :=
  match l with
  | [] => Some e
  | ch :: l => match ed_char e ch with Some e => ed_chars e l | None => None end
  end.

(** The end of a line: it joins the history, of which five lines are kept. *)
Definition ed_enter (e : editor) : editor :=
  let ls := if bool_decide (text_of e = []) then lines e
            else drop (length (lines e) + 1 - 5) (lines e ++ [text_of e]) in
  mk_editor [] [] ls (length ls) (mode e).

(** ** The terminal

    One row of characters with a cursor; it knows backspace, carriage return,
    new line and the sequence that erases the row. *)
Record screen := mk_screen { cells : list Z; col : nat; esc : nat }.

Definition show_char (t : screen) (c : Z) : screen :=
  match esc t with
  | O =>
    if c =? 27 then mk_screen (cells t) (col t) 1
    else if c =? 8 then mk_screen (cells t) (pred (col t)) 0
    else if c =? 13 then mk_screen (cells t) 0 0
    else if c =? 10 then mk_screen [] 0 0
    else mk_screen (take (col t) (cells t) ++ [c] ++ drop (S (col t)) (cells t)) (S (col t)) 0
  | 1%nat => mk_screen (cells t) (col t) (if c =? 91 then 2 else 0)
  | 2%nat => mk_screen (cells t) (col t) (if c =? 50 then 3 else 0)
  | _ => mk_screen (if c =? 75 then [] else cells t) (col t) 0
  end.

(** A result and a symbol are followed by a new line. *)
Definition show_out (t : screen) (o : output) : screen :=
  match o with
  | Text l => foldl show_char t l
  | Result _ | Symbol _ => mk_screen [] 0 0
  end.
Definition display (l : list output) : screen := foldl show_out (mk_screen [] 0 0) l.

(** The terminal shows [l] before the cursor, and [r] and blanks behind it. *)
Definition showing (t : screen) (l r : list Z) : Prop :=
  esc t = 0%nat ∧ col t = length l ∧ ∃ n, cells t = l ++ r ++ replicate n 32.
Definition shows (t : screen) (e : editor) : Prop :=
  showing t (FINSH_PROMPT ++ reverse (before e)) (after_ e).

(** ** The state of the shell *)

(** A line in an array of 80 bytes. *)
Definition pad (l : list Z) : list Z := l ++ replicate (80 - length l) 0.
Definition line_ok (l : list Z) : Prop := Forall printable l ∧ (length l < 80)%nat.

Record edits (h : finsh_shell) (e : editor) : Prop := {
  ed_stat : stat h = mode e;
  ed_echo : echo_mode h = 1;
  ed_line : line h = pad (text_of e);
  ed_position : line_position h = Z.of_nat (length (text_of e));
  ed_curpos : line_curpos h = Z.of_nat (length (before e));
  ed_text : line_ok (text_of e);
  ed_count : history_count h = Z.of_nat (length (lines e));
  ed_current : current_history h = Z.of_nat (place e);
  ed_place : (place e ≤ length (lines e))%nat;
  ed_few : (length (lines e) ≤ 5)%nat;
  ed_lines : Forall line_ok (lines e);
  ed_rows : length (cmd_history h) = 5%nat;
  ed_saved : ∀ i l, lines e !! i = Some l → cmd_history h !! i = Some (pad l)
}.

(** The shell in state [s] edits [e], and its terminal shows it. *)
Definition shown (s : sstate) (e : editor) : Prop :=
  edits (shell s) e ∧ shows (display (console s)) e.
