(* ===== verification/ShellSpec.v ===== *)
(** * The line editor implements the abstract one

    Every key changes the shell as it changes the abstract editor, and the
    terminal shows the line; a line end runs the text. *)

From S2P Require Import Prelude FinshDef FinshToken FinshRun Shell ShellEditor.

(** [lia] behind comparisons of lengths. *)
Ltac compare := repeat match goal with
  | H : (_ && _) = true |- _ => apply andb_true_iff in H as [? ?]
  | H : (_ && _) = false |- _ => apply andb_false_iff in H as [H|H]
  | H : (_ <? _) = true |- _ => apply Z.ltb_lt in H
  | H : (_ <? _) = false |- _ => apply Z.ltb_ge in H
  | H : (_ <=? _) = true |- _ => apply Z.leb_le in H
  | H : (_ <=? _) = false |- _ => apply Z.leb_gt in H
  | H : (_ =? _) = true |- _ => apply Z.eqb_eq in H
  | H : (_ =? _) = false |- _ => apply Z.eqb_neq in H
  end; lia.

(** ** Lines in arrays *)
Lemma inserts_app {A} (l1 l2 l3 k : list A) : length k = length l2 →
  list_inserts (length l1) k (l1 ++ l2 ++ l3) = l1 ++ k ++ l3.
Proof.
  intros Hk. rewrite <- (Nat.add_0_r (length l1)), list_inserts_app_r. f_equal. by apply list_inserts_0_r.
Qed.

Lemma printable_range c : printable c → 32 ≤ c < 127.
Proof. unfold printable. intros Hc%Is_true_true. lia. Qed.

Lemma insert_middle {A} (l r : list A) n x y : n = length l →
  <[n := x]> (l ++ y :: r) = l ++ x :: r.
Proof. intros ->. rewrite <- (Nat.add_0_r (length l)). by rewrite insert_app_r. Qed.

Lemma line_string l r : Forall printable l → c_string (l ++ 0 :: r) = l.
Proof.
  induction 1 as [|c l Hc _ IH]; simpl; [done|]. destruct (c =? 0) eqn:E; [|by f_equal].
  apply printable_range in Hc. lia.
Qed.

Lemma pad_eq l : line_ok l → pad l = l ++ 0 :: replicate (79 - length l) 0.
Proof.
  intros [_ Hl]. unfold pad. by replace (80 - length l)%nat with (S (79 - length l)) by lia.
Qed.

Lemma pad_length l : line_ok l → length (pad l) = 80%nat.
Proof. intros [_ Hl]. unfold pad. rewrite length_app, length_replicate. lia. Qed.

Lemma line_ok_app l1 l2 : line_ok (l1 ++ l2) → line_ok l1 ∧ line_ok l2.
Proof. unfold line_ok. rewrite Forall_app, length_app. intros [[? ?] ?]. split; split; try done; lia. Qed.

(** ** The terminal *)
Lemma show_plain l : ∀ a r, Forall printable l →
  foldl show_char (mk_screen (a ++ r) (length a) 0) l =
  mk_screen (a ++ l ++ drop (length l) r) (length a + length l) 0.
Proof.
  induction l as [|c l IH]; intros a r Hl; [by rewrite Nat.add_0_r|].
  apply Forall_cons in Hl as [Hc Hl]. cbn [foldl]. unfold show_char at 2. cbn [esc cells col].
  apply printable_range in Hc. rewrite !(proj2 (Z.eqb_neq c _)) by lia.
  rewrite take_app_length, <- Nat.add_1_r, drop_app_add, app_assoc.
  replace (length a + 1)%nat with (length (a ++ [c])) by by rewrite length_app.
  rewrite IH, drop_drop, length_app, <- app_assoc by done. simpl. f_equal. lia.
Qed.

Lemma show_back n : ∀ l k, foldl show_char (mk_screen l k 0) (replicate n 8) = mk_screen l (k - n) 0.
Proof.
  induction n as [|n IH]; intros l k; [simpl; by rewrite Nat.sub_0_r|].
  cbn [replicate foldl]. change (show_char _ 8) with (mk_screen l (pred k) 0). rewrite IH. f_equal. lia.
Qed.

Lemma replicate_add_blank m n : replicate m 32 ++ replicate n 32 = replicate (m + n) 32.
Proof. by rewrite replicate_add. Qed.

Lemma drop_blanks k r n : drop k (r ++ replicate n 32) =
  drop k r ++ replicate (n - (k - length r)) 32.
Proof.
  rewrite drop_app. f_equal. revert n. induction (k - length r)%nat as [|m IH]; intros [|n]; simpl; try done.
Qed.

Lemma showing_plain t a r l : showing t a r → Forall printable l →
  showing (foldl show_char t l) (a ++ l) (drop (length l) r).
Proof.
  destruct t as [cs k m]. intros (He & Hc & n & Hn) Hl. simpl in *. subst.
  rewrite show_plain by done. split_and!; simpl; [done|by rewrite length_app|].
  rewrite drop_blanks. eexists. by rewrite <- !app_assoc.
Qed.

Lemma showing_back t a b r : showing t (a ++ b) r →
  showing (foldl show_char t (replicate (length b) 8)) a (b ++ r).
Proof.
  destruct t as [cs k m]. intros (He & Hc & n & Hn). simpl in *. subst.
  rewrite show_back. split_and!; simpl; [done|rewrite length_app; lia|].
  exists n. by rewrite <- !app_assoc.
Qed.

Lemma showing_blank t a r n : showing t a (r ++ replicate n 32) → showing t a r.
Proof.
  intros (He & Hc & k & Hk). split_and!; [done..|]. exists (n + k)%nat.
  by rewrite <- replicate_add_blank, Hk, <- !app_assoc.
Qed.

Lemma printable_char c : printable c → Forall printable [c].
Proof. intros. by apply Forall_singleton. Qed.

Lemma display_app l o : display (l ++ [o]) = show_out (display l) o.
Proof. unfold display. by rewrite foldl_app. Qed.

(** ** The operations of the shell *)
Definition with_out (o : list output) (h : finsh_shell) (s : sstate) : sstate :=
  mk_sstate h (interp s) (input s) (console s ++ o).

Lemma string_at_run s k l r : line (shell s) = l ++ 0 :: r → Forall printable l →
  (k ≤ length l)%nat → string_at (Z.of_nat k) s = Ok (drop k l) s.
Proof.
  intros Hl Hp Hk. unfold string_at. rewrite bind_gets, Hl, Nat2Z.id.
  rewrite drop_app_le by done. rewrite bool_decide_true by set_solver.
  by rewrite line_string by by apply Forall_drop.
Qed.

Lemma set_shell_out h s : set_shell h s = with_out [] h s.
Proof. unfold with_out. by rewrite app_nil_r. Qed.

Lemma shown_mode s e m : shown s e → shown (set_shell (set_stat m (shell s)) s) (with_mode m e).
Proof. intros [[] Hs]. by split. Qed.

(** The operation changes the editor to [e]. *)
Definition does (m : SM unit) (s : sstate) (e : editor) : Prop :=
  ∃ h o, m s = Ok tt (with_out o h s) ∧ shown (with_out o h s) e.

Lemma with_out_self s : s = with_out [] (shell s) s.
Proof. rewrite <- set_shell_out. by destruct s. Qed.

Lemma does_intro m s e :
  (∃ h o, m (with_out [] (shell s) s) = Ok tt (with_out o h s) ∧ shown (with_out o h s) e) → does m s e.
Proof. unfold does. by rewrite <- with_out_self. Qed.

Lemma does_ret s e : shown s e → does (ret tt) s e.
Proof. intros Hs. exists (shell s), []. by rewrite <- with_out_self. Qed.

Lemma text_move c b a e : text_of (around b (c :: a) e) = text_of (around (c :: b) a e).
Proof. unfold text_of. simpl. by rewrite reverse_cons, <- app_assoc. Qed.

Lemma text_around e b a : before e = b → after_ e = a → text_of e = text_of (around b a e).
Proof. by intros <- <-. Qed.

Lemma text_length e : length (text_of e) = (length (before e) + length (after_ e))%nat.
Proof. unfold text_of. by rewrite length_app, length_reverse. Qed.

(** The terminal after one more text. *)
Lemma shows_out s h o l e : showing (foldl show_char (display (console s ++ o)) l)
    (FINSH_PROMPT ++ reverse (before e)) (after_ e) →
  shows (display (console (with_out (o ++ [Text l]) h s))) e.
Proof. simpl. by rewrite app_assoc, display_app. Qed.

Lemma left_run s e : shown s e → does left_key s (ed_left e).
Proof.
  intros Hs. pose proof Hs as [[] Ht]. unfold left_key, ed_left, does.
  rewrite bind_gets, ed_curpos. destruct (before e) as [|c b] eqn:Eb; [by apply does_ret|].
  destruct (_ =? 0) eqn:E; [simpl in E; lia|]. eexists _, _. split; [reflexivity|].
  pose proof (text_move c b (after_ e) e) as Hte. rewrite <- (text_around e _ _ Eb eq_refl) in Hte. split.
  - split; rewrite ?Hte; simpl; try done. lia.
  - apply (shows_out _ _ []). rewrite app_nil_r. apply (showing_back _ _ [c]).
    unfold shows in Ht. rewrite Eb, reverse_cons, app_assoc in Ht. done.
Qed.

Lemma right_run s e : shown s e → does right_key s (ed_right e).
Proof.
  intros Hs. pose proof Hs as [[] Ht]. unfold right_key, ed_right, does.
  rewrite bind_gets, ed_curpos, ed_position. pose proof (text_length e) as Hlen.
  destruct (after_ e) as [|c a] eqn:Ea; simpl in Hlen.
  { destruct (_ <? _) eqn:E; [lia|]. by apply does_ret. }
  destruct (_ <? _) eqn:E; [|lia].
  pose proof (text_move c (before e) a e) as Hte. rewrite <- (text_around e _ _ eq_refl Ea) in Hte.
  assert (line (shell s) !! length (before e) = Some c) as Hl.
  { rewrite ed_line. unfold pad, text_of. rewrite Ea, <- app_assoc, <- (length_reverse (before e)).
    by apply list_lookup_middle. }
  rewrite Nat2Z.id, Hl. pose proof ed_text as [Hp Hlt]. unfold text_of in Hp. rewrite Ea in Hp.
  apply Forall_app in Hp as [_ [Hpc _]%Forall_cons]. eexists _, _. split; [reflexivity|]. split.
  - split; rewrite <- ?Hte; simpl; try done. unfold u8. rewrite wrap_small; lia.
  - apply (shows_out _ _ []). rewrite app_nil_r. simpl before. rewrite reverse_cons, app_assoc.
    apply (showing_plain _ _ (c :: a)); [|by apply printable_char]. unfold shows in Ht. by rewrite Ea in Ht.
Qed.

(** Execution of the primitives. *)
Lemma shell_upd_run f o h s : upd_shell f (with_out o h s) = Ok tt (with_out o (f h) s).
Proof. done. Qed.
Lemma bind_out {A} x (k : unit → SM A) o h s :
  bind (put_out x) k (with_out o h s) = k tt (with_out (o ++ [x]) h s).
Proof. unfold with_out, put_out. rewrite bind_modify. simpl. by rewrite app_assoc. Qed.
Lemma kprintf_run l o h s : rt_kprintf l (with_out o h s) = Ok tt (with_out (o ++ [Text l]) h s).
Proof. unfold with_out, rt_kprintf, put_out, modify. simpl. by rewrite app_assoc. Qed.
Lemma bind_upd {A} f (k : unit → SM A) o h s :
  bind (upd_shell f) k (with_out o h s) = k tt (with_out o (f h) s).
Proof. done. Qed.
Lemma bind_kprintf {A} l (k : unit → SM A) o h s :
  bind (rt_kprintf l) k (with_out o h s) = k tt (with_out (o ++ [Text l]) h s).
Proof. by erewrite bind_ok by apply kprintf_run. Qed.
Lemma bind_shell {A} (k : finsh_shell → SM A) o h s :
  bind (gets shell) k (with_out o h s) = k h (with_out o h s).
Proof. done. Qed.

Lemma move_run {A} (k : unit → SM A) o h s (dst src n : nat) :
  (dst + n ≤ length (line h))%nat → (src + n ≤ length (line h))%nat →
  bind (move_line (Z.of_nat dst) (Z.of_nat src) (Z.of_nat n)) k (with_out o h s) =
  k tt (with_out o (set_line (list_inserts dst (take n (drop src (line h))) (line h)) h) s).
Proof.
  intros Hd Hs. unfold move_line. rewrite bind_assoc, bind_shell, !Nat2Z.id.
  destruct (_ && _) eqn:E; [done|lia].
Qed.
Lemma put_line_run o h s (i : nat) c : (i < length (line h))%nat →
  put_line (Z.of_nat i) c (with_out o h s) = Ok tt (with_out o (set_line (<[i := c]> (line h)) h) s).
Proof.
  intros Hi. unfold put_line. rewrite bind_shell, Nat2Z.id. destruct (_ && _) eqn:E; [done|lia].
Qed.
Lemma line_put_run {A} (k : unit → SM A) o h s (i : nat) c : (i < length (line h))%nat →
  bind (put_line (Z.of_nat i) c) k (with_out o h s) =
  k tt (with_out o (set_line (<[i := c]> (line h)) h) s).
Proof. intros Hi. by erewrite bind_ok by by apply put_line_run. Qed.
Lemma string_run {A} (k : list Z → SM A) o h s (i : nat) l r : line h = l ++ 0 :: r →
  Forall printable l → (i ≤ length l)%nat →
  bind (string_at (Z.of_nat i)) k (with_out o h s) = k (drop i l) (with_out o h s).
Proof.
  intros Hl Hp Hi. apply bind_ok. eapply string_at_run; [exact Hl|done..].
Qed.

Ltac run := rewrite ?bind_upd, ?bind_kprintf, ?bind_shell, ?bind_assoc;
  cbn [line_position line_curpos line set_line set_line_position set_line_curpos].

(** Removing a character: the text behind it moves down. *)
Lemma delete_line (a t r : list Z) c :
  <[(length a + length t)%nat := 0]> (list_inserts (length a)
    (take (length t) (drop (S (length a)) (a ++ c :: t ++ r))) (a ++ c :: t ++ r)) =
  a ++ t ++ 0 :: r.
Proof.
  rewrite <- (Nat.add_1_r (length a)), drop_app_add. cbn [drop]. rewrite drop_0, take_app_length.
  rewrite app_comm_cons. destruct (exists_last (l := c :: t)) as (u & d & E); [done|]. rewrite E.
  assert (length t = length u) as Hl.
  { apply (f_equal length) in E. rewrite length_app in E. simpl in E. lia. }
  rewrite <- app_assoc, inserts_app, app_assoc by done.
  replace (length a + length t)%nat with (length (a ++ t) + 0)%nat by (rewrite length_app; lia).
  by rewrite insert_app_r, <- app_assoc.
Qed.

Lemma text_before e c b : before e = c :: b →
  text_of e = reverse b ++ c :: after_ e ∧ text_of (around b (after_ e) e) = reverse b ++ after_ e.
Proof. unfold text_of. simpl. intros ->. by rewrite reverse_cons, <- app_assoc. Qed.

Lemma line_ok_delete l1 l2 c : line_ok (l1 ++ c :: l2) → line_ok (l1 ++ l2).
Proof.
  unfold line_ok. rewrite !Forall_app, Forall_cons, !length_app. simpl. intros [(? & ? & ?) ?].
  split; [done|lia].
Qed.

Lemma edits_around h e b a ln : edits h e → line_ok (reverse b ++ a) → ln = pad (reverse b ++ a) →
  edits (set_line_curpos (Z.of_nat (length b)) (set_line_position (Z.of_nat (length b + length a))
    (set_line ln h))) (around b a e).
Proof.
  intros [] Hok ->. split; try done. simpl. unfold text_of. simpl. by rewrite length_app, length_reverse.
Qed.

Lemma pad_around b a : line_ok (reverse b ++ a) →
  pad (reverse b ++ a) = reverse b ++ a ++ 0 :: replicate (79 - (length b + length a)) 0.
Proof. intros Hok. by rewrite pad_eq, <- app_assoc, length_app, length_reverse by done. Qed.

Lemma pad_before c b a : line_ok (reverse b ++ c :: a) →
  pad (reverse b ++ c :: a) = reverse b ++ c :: a ++ 0 :: replicate (78 - (length b + length a)) 0.
Proof.
  intros Hok. rewrite pad_around by done. simpl. by replace (79 - _)%nat with (78 - (length b + length a))%nat by lia.
Qed.

Lemma pad_delete b a : (length b + length a < 79)%nat → line_ok (reverse b ++ a) →
  reverse b ++ a ++ 0 :: 0 :: replicate (78 - (length b + length a)) 0 = pad (reverse b ++ a).
Proof.
  intros Hl Hok. rewrite pad_around by done. by replace (79 - _)%nat with (S (78 - (length b + length a))) by lia.
Qed.

Lemma showing_deleted t p c a : showing t (p ++ [c]) a → Forall printable a →
  showing (foldl show_char (foldl show_char t ([8] ++ a ++ [32; 32; 8])) (replicate (length a + 1) 8)) p a.
Proof.
  intros Ht Ha. rewrite !foldl_app. apply (showing_back _ p [c]) in Ht.
  apply (showing_plain _ _ _ a) in Ht; [|done].
  apply (showing_plain _ _ _ [32; 32]) in Ht; [|by repeat constructor].
  rewrite drop_drop, drop_ge in Ht by (simpl; lia).
  replace ((p ++ a) ++ [32; 32]) with ((p ++ a ++ [32]) ++ [32]) in Ht by by rewrite <- !app_assoc.
  apply (showing_back _ _ [32]) in Ht. apply (showing_back _ _ (a ++ [32])) in Ht.
  rewrite length_app in Ht. apply (showing_blank _ _ _ 2). by rewrite <- app_assoc in Ht.
Qed.

Lemma showing_last t p c : showing t (p ++ [c]) [] →
  showing (foldl show_char t [8; 32; 8]) p [].
Proof.
  intros Ht. apply (showing_back _ p [c]) in Ht. apply (showing_plain _ _ _ [32]) in Ht; [|by repeat constructor].
  apply (showing_back _ p [32]) in Ht. by apply (showing_blank _ _ _ 1).
Qed.

Lemma backspace_run s e : shown s e → does backspace_key s (ed_delete e).
Proof.
  intros Hs. pose proof Hs as [Hed Ht]. pose proof Hed as []. unfold backspace_key, ed_delete.
  destruct (before e) as [|c b] eqn:Eb.
  { unfold does. rewrite bind_gets, ed_curpos. by apply does_ret. }
  destruct (text_before e c b Eb) as [Hte _]. pose proof (text_length e) as Hlen.
  rewrite Eb in Hlen. simpl in Hlen. rewrite Hte in ed_text, ed_line.
  pose proof (line_ok_delete _ _ _ ed_text) as Hok. rewrite pad_before in ed_line by done.
  pose proof ed_text as [Hp Hlt]. rewrite <- Hte in Hlt. apply Forall_app in Hp as [_ [_ Hp]%Forall_cons].
  apply does_intro. run.
  rewrite ed_curpos, ed_position. destruct (_ =? 0) eqn:E; [simpl in E; lia|]. clear E. cbn [negb]. run.
  replace (u8 (_ - 1)) with (Z.of_nat (length b + length (after_ e)))
    by (unfold u8; rewrite wrap_small; lia).
  replace (Z.of_nat (length (c :: b)) - 1) with (Z.of_nat (length b)) by (simpl; lia).
  unfold shows in Ht. rewrite Eb, reverse_cons, app_assoc in Ht. run.
  destruct (_ <? _) eqn:E.
  - replace (Z.of_nat (length b) + 1) with (Z.of_nat (S (length b))) by lia.
    replace (Z.of_nat (length b + length (after_ e)) - Z.of_nat (length b)) with (Z.of_nat (length (after_ e))) by lia.
    assert (length (line (shell s)) = 80%nat) as Hsz.
    { rewrite ed_line, !length_app, length_reverse. simpl. rewrite length_app. simpl. rewrite length_replicate. lia. }
    rewrite move_run by (simpl; lia). rewrite line_put_run by (simpl; rewrite length_inserts; lia). cbn [line set_line set_line_curpos set_line_position].
    rewrite ed_line, <- (length_reverse b), delete_line.
    erewrite (string_run _ _ _ _ (length (reverse b)) (reverse b ++ after_ e));
      [|simpl; by rewrite <- app_assoc|by destruct Hok|rewrite length_app; lia].
    run. rewrite drop_app_length. unfold back. rewrite kprintf_run, <- !app_assoc.
    eexists _, _. split; [reflexivity|]. rewrite length_reverse. split.
    + simpl. rewrite (pad_delete b) by (done || lia).
      exact (edits_around _ e b (after_ e) _ Hed Hok eq_refl).
    + apply (shows_out _ _ [_]). rewrite display_app. simpl show_out.
      replace (Z.to_nat _) with (length (after_ e) + 1)%nat by lia. by apply (showing_deleted _ _ c).
  - apply Z.ltb_ge in E. assert (after_ e = []) as Ea by (apply nil_length_inv; lia). rewrite Ea in *.
    rewrite bind_kprintf, Nat.add_0_r, put_line_run.
    2: { simpl. rewrite ed_line, length_app, length_reverse. simpl. lia. }
    eexists _, _. split; [reflexivity|]. split.
    + simpl. rewrite ed_line, insert_middle by by rewrite length_reverse. simpl.
      change (0 :: 0 :: _) with ([] ++ 0 :: 0 :: replicate (78 - (length b + length (@nil Z))) 0).
      rewrite pad_delete by (done || simpl; lia).
      pose proof (edits_around _ e b [] _ Hed Hok eq_refl) as Hed'. by rewrite Nat.add_0_r in Hed'.
    + apply (shows_out _ _ []). rewrite app_nil_r. by apply (showing_last _ _ c).
Qed.

(** Inserting a character: the text behind the cursor moves up. *)
Lemma insert_line (a t r : list Z) c :
  <[length a := c]> (list_inserts (S (length a)) (take (length t) (drop (length a) (a ++ t ++ 0 :: r)))
    (a ++ t ++ 0 :: r)) = a ++ c :: t ++ r.
Proof.
  rewrite drop_app_length, take_app_length. destruct (t ++ [0]) as [|x u] eqn:E; [by destruct t|].
  assert (length t = length u) as Hl.
  { apply (f_equal length) in E. rewrite length_app in E. simpl in E. lia. }
  replace (a ++ t ++ 0 :: r) with ((a ++ [x]) ++ u ++ r).
  2: { rewrite <- app_assoc. f_equal. change (x :: u ++ r = t ++ [0] ++ r). by rewrite app_assoc, E. }
  replace (S (length a)) with (length (a ++ [x])) by (rewrite length_app; simpl; lia).
  rewrite inserts_app by done. rewrite <- app_assoc. by apply insert_middle.
Qed.

Lemma line_ok_insert b c a : printable c → (length (reverse b ++ a) < 79)%nat →
  line_ok (reverse b ++ a) → line_ok (reverse b ++ c :: a).
Proof.
  unfold line_ok. rewrite !Forall_app, Forall_cons, !length_app. simpl. intros ? ? [[? ?] ?]. split; [done|lia].
Qed.

Lemma showing_inserted t p a c : showing t p a → Forall printable (c :: a) →
  showing (foldl show_char (foldl show_char t (c :: a)) (replicate (length a) 8)) (p ++ [c]) a.
Proof.
  intros Ht Hp. apply (showing_plain _ _ _ (c :: a)) in Ht; [|done].
  rewrite drop_ge in Ht by (simpl; lia). rewrite <- (app_nil_r a) at 3. apply showing_back.
  by rewrite <- app_assoc.
Qed.

Lemma text_insert c e : text_of (ed_insert c e) = reverse (before e) ++ c :: after_ e.
Proof. unfold text_of. simpl. by rewrite reverse_cons, <- app_assoc. Qed.

Lemma cursor_advance_run o h s p c : line_position h = Z.of_nat p → line_curpos h = Z.of_nat c →
  (c ≤ p < 79)%nat →
  advance (with_out o h s) =
  Ok tt (with_out o (set_line_curpos (Z.of_nat (S c)) (set_line_position (Z.of_nat (S p)) h)) s).
Proof.
  intros Hp Hc Hl. unfold advance. run. rewrite Hp, Hc.
  replace (u8 (Z.of_nat p + 1)) with (Z.of_nat (S p)) by (unfold u8; rewrite wrap_small; lia).
  replace (u8 (Z.of_nat c + 1)) with (Z.of_nat (S c)) by (unfold u8; rewrite wrap_small; lia).
  run. destruct (_ <=? _) eqn:E; [|done]. apply Z.leb_le in E. unfold FINSH_CMD_SIZE in E. simpl in E. lia.
Qed.

Lemma insert_run s e c : shown s e → printable c → (length (text_of e) < 79)%nat →
  does (normal_key c) s (ed_insert c e).
Proof.
  intros Hs Hpc Hlt. pose proof Hs as [Hed Ht]. pose proof Hed as []. unfold normal_key.
  pose proof (text_length e) as Hlen. pose proof ed_text as [Hp _].
  assert (line_ok (reverse (before e) ++ c :: after_ e)) as Hok by by apply line_ok_insert.
  apply does_intro. run. rewrite ed_position. destruct (_ <=? _) eqn:E; [unfold FINSH_CMD_SIZE in E; lia|].
  rewrite bind_ret. run. rewrite ed_curpos, ed_position, ed_echo. cbn [Z.eqb negb].
  assert (line (shell s) = reverse (before e) ++ after_ e ++
    0 :: replicate (79 - (length (before e) + length (after_ e))) 0) as Hl.
  { rewrite ed_line. by apply pad_around. }
  unfold shows in Ht.
  assert (edits (set_line_curpos (Z.of_nat (S (length (before e)))) (set_line_position
    (Z.of_nat (S (length (text_of e)))) (set_line (pad (reverse (before e) ++ c :: after_ e)) (shell s))))
    (ed_insert c e)) as Hed'.
  { pose proof (λ Hok, edits_around _ e (c :: before e) (after_ e) _ Hed Hok eq_refl) as Hed'.
    rewrite reverse_cons, <- app_assoc in Hed'. rewrite Hlen. exact (Hed' Hok). }
  destruct (Z.of_nat (length (before e)) <? _) eqn:E2.
  - rewrite !bind_assoc. replace (Z.of_nat (length (before e)) + 1) with (Z.of_nat (S (length (before e)))) by lia.
    replace (Z.of_nat (length (text_of e)) - _) with (Z.of_nat (length (after_ e))) by lia.
    assert (length (line (shell s)) = 80%nat) as Hsz by (rewrite ed_line; by apply pad_length).
    rewrite move_run by lia. rewrite bind_assoc, line_put_run by (simpl; rewrite length_inserts; lia).
    cbn [line set_line]. rewrite Hl, <- (length_reverse (before e)), insert_line, length_reverse.
    replace (79 - _)%nat with (S (78 - (length (before e) + length (after_ e)))) by lia.
    rewrite <- (pad_before c) by done.
    rewrite !bind_assoc, (string_run _ _ _ _ _ (reverse (before e) ++ c :: after_ e)
      (replicate (79 - length (reverse (before e) ++ c :: after_ e)) 0));
      [|by apply pad_eq|by destruct Hok|rewrite length_app, length_reverse; lia].
    rewrite bind_kprintf. unfold back. rewrite bind_kprintf, Nat2Z.id.
    rewrite (cursor_advance_run _ _ _ (length (text_of e)) (length (before e))) by (done || lia).
    eexists _, _. split; [reflexivity|]. split; [exact Hed'|].
    apply (shows_out _ _ [_]). rewrite display_app. simpl show_out. simpl before. rewrite reverse_cons, app_assoc.
    rewrite drop_app_length' by by rewrite length_reverse.
    apply showing_inserted; [done|]. destruct Hok as [Hok _]. by apply Forall_app in Hok as [_ Hok].
  - apply Z.ltb_ge in E2. assert (after_ e = []) as Ea by (apply nil_length_inv; lia). rewrite Ea in *.
    rewrite bind_assoc, line_put_run by (rewrite ed_line, pad_length; done || lia).
    rewrite bind_kprintf. rewrite (cursor_advance_run _ _ _ (length (text_of e)) (length (before e))) by (done || lia).
    eexists _, _. split; [reflexivity|]. split.
    + simpl. rewrite Hl. simpl. rewrite insert_middle by (rewrite length_reverse, Hlen; simpl; lia).
      replace (79 - _)%nat with (S (78 - (length (before e) + length (@nil Z)))) by lia.
      pose proof (pad_before c _ _ Hok) as Hpad. simpl in Hpad |- *. by rewrite <- Hpad.
    + apply (shows_out _ _ []). rewrite app_nil_r. simpl before. simpl after_. rewrite reverse_cons, app_assoc, Ea.
      apply (showing_plain _ _ _ [c]) in Ht; [|by apply printable_char]. by rewrite drop_nil in Ht.
Qed.

(** ** History *)
Lemma showing_erase t a r l : showing t a r → Forall printable l →
  showing (foldl show_char (foldl show_char t [27; 91; 50; 75; 13]) l) l [].
Proof.
  destruct t as [cs k m]. intros (He & _ & _) Hl. simpl in He. subst.
  change (foldl show_char (mk_screen cs k 0) _) with (mk_screen ([] ++ []) (length (@nil Z)) 0).
  rewrite (show_plain l [] []) by done. split_and!; [done|done|]. exists 0%nat. by rewrite drop_nil.
Qed.

Lemma prompt_printable : Forall printable FINSH_PROMPT.
Proof. repeat constructor. Qed.

Lemma string_start_run {A} (k : list Z → SM A) o h s l r : line h = l ++ 0 :: r →
  Forall printable l → bind (string_at 0) k (with_out o h s) = k l (with_out o h s).
Proof.
  intros Hl Hp. change 0 with (Z.of_nat 0). erewrite string_run; [by rewrite drop_0|exact Hl|done|lia].
Qed.

Lemma string_0_run {A} (k : list Z → SM A) o h s l : line h = pad l → line_ok l →
  bind (string_at 0) k (with_out o h s) = k l (with_out o h s).
Proof.
  intros Hl Hok. eapply string_start_run; [rewrite Hl; by apply pad_eq|by destruct Hok].
Qed.

Lemma line_length_run {A} (k : unit → SM A) o h s l : line h = pad l → line_ok l →
  bind line_length k (with_out o h s) =
  k tt (with_out o (set_line_curpos (Z.of_nat (length l)) (set_line_position (Z.of_nat (length l)) h)) s).
Proof.
  intros Hl Hok. unfold line_length. rewrite !bind_assoc, (string_0_run _ _ _ _ l) by done. run.
  unfold u8. rewrite wrap_small by (destruct Hok; lia). done.
Qed.

Lemma recall_run s e i l : shown s e → lines e !! i = Some l →
  ∃ h o, recall (with_out [] (set_current_history (Z.of_nat i) (shell s)) s) = Ok tt (with_out o h s) ∧
    shown (with_out o h s) (ed_recall i e).
Proof.
  intros [[] Ht] Hl. unfold recall. run. simpl current_history. unfold get_history. rewrite bind_assoc, bind_shell.
  destruct (_ <? 0) eqn:E; [compare|]. simpl cmd_history. rewrite Nat2Z.id, (ed_saved _ _ Hl). cbn [from_option]. rewrite bind_ret. run.
  pose proof (proj1 (Forall_lookup _ _) ed_lines _ _ Hl) as Hok.
  rewrite (line_length_run _ _ _ _ l) by done. unfold shell_handle_history. run.
  rewrite (string_0_run _ _ _ _ l) by done. rewrite kprintf_run. eexists _, _. split; [reflexivity|].
  unfold ed_recall. rewrite Hl. pose proof (lookup_lt_Some _ _ _ Hl) as Hi. split.
  - assert (text_of (mk_editor (reverse l) [] (lines e) i (mode e)) = l) as Htl.
    { unfold text_of. simpl. by rewrite reverse_involutive, app_nil_r. }
    split; rewrite ?Htl; simpl; try done; [by rewrite length_reverse|lia].
  - apply (shows_out _ _ [_]). rewrite display_app. simpl show_out. simpl before. rewrite reverse_involutive.
    eapply showing_erase; [exact Ht|]. apply Forall_app. split; [apply prompt_printable|by destruct Hok].
Qed.

Lemma up_run s e : shown s e → does up_key s (ed_up e).
Proof.
  intros Hs. pose proof Hs as [[] _]. apply does_intro. unfold up_key, ed_up. run. rewrite ed_current.
  destruct (place e) as [|i] eqn:Ei.
  - destruct (0 <? _) eqn:E; [compare|]. eexists _, _. split; [reflexivity|].
    destruct Hs as [[] Ht]. split; [|by rewrite set_shell_out in Ht || by rewrite <- set_shell_out].
    split; simpl; try done. lia.
  - destruct (0 <? _) eqn:E; [|compare]. run. replace (Z.of_nat (S i) - 1) with (Z.of_nat i) by lia.
    destruct (lookup_lt_is_Some_2 (lines e) i) as [l Hl]; [lia|]. by eapply recall_run.
Qed.

Lemma down_run s e : shown s e → does down_key s (ed_down e).
Proof.
  intros Hs. pose proof Hs as [[] _]. apply does_intro. unfold down_key, ed_down. run.
  rewrite ed_current, ed_count. destruct (_ <? _) eqn:E.
  - run. replace (u16 _) with (Z.of_nat (S (place e))) by (unfold u16; rewrite wrap_small; lia).
    rewrite Nat.min_l by compare. destruct (lookup_lt_is_Some_2 (lines e) (S (place e))) as [l Hl]; [compare|].
    by eapply recall_run.
  - apply Z.ltb_ge in E. destruct (decide (lines e = [])) as [El|Hne].
    + rewrite El. simpl. exists (shell s), []. split; [done|]. rewrite <- with_out_self.
      unfold ed_recall. by rewrite El.
    + assert (length (lines e) ≠ 0%nat) by by intros ?%nil_length_inv.
      destruct (_ =? 0) eqn:E2; [compare|]. cbn [negb]. run.
      rewrite Nat.min_r by lia. replace (Z.of_nat (length (lines e)) - 1) with (Z.of_nat (length (lines e) - 1)) by lia.
      destruct (lookup_lt_is_Some_2 (lines e) (length (lines e) - 1)) as [l Hl]; [lia|]. by eapply recall_run.
Qed.

(** ** Characters *)
Section chars.
Context `{FinshEnv}.

(** [does], of an operation with a result. *)
Definition gives {A} (m : SM A) (a : A) (s : sstate) (e : editor) : Prop :=
  ∃ h o, m s = Ok a (with_out o h s) ∧ shown (with_out o h s) e.

Lemma does_gives {A} m (a : A) s e : does m s e → gives (m ;;; ret a) a s e.
Proof. intros (h & o & E & Hs). exists h, o. by rewrite (bind_ok _ _ _ _ _ E). Qed.

Lemma gives_ret {A} (a : A) s e : shown s e → gives (ret a) a s e.
Proof. intros Hs. exists (shell s), []. by rewrite <- with_out_self. Qed.

(** Behind a change of the mode. *)
Lemma gives_mode {A} (m : SM A) (a : A) s e i :
  gives m a (with_out [] (set_stat i (shell s)) s) e →
  gives (upd_shell (set_stat i) ;;; m) a s e.
Proof.
  intros (h & o & E & Hs). exists h, o. rewrite (with_out_self s) at 1. rewrite bind_upd, E. split.
  - f_equal. unfold with_out. simpl. by rewrite app_nil_r.
  - revert Hs. unfold with_out. simpl. by rewrite app_nil_r.
Qed.

Lemma mode_shown s e i : shown s e → shown (with_out [] (set_stat i (shell s)) s) (with_mode i e).
Proof. rewrite <- set_shell_out. apply shown_mode. Qed.

Lemma plain_run s e ch e' : shown s e → ed_plain ch e = Some e' → gives (plain_char ch) true s e'.
Proof.
  intros Hs. unfold ed_plain, plain_char. destruct ((ch =? 127) || (ch =? 8)) eqn:E1.
  - intros [= <-]. destruct (ch =? 13) eqn:E2; [lia|]. destruct (ch =? 9) eqn:E3; [lia|].
    by apply does_gives, backspace_run.
  - destruct (printable ch && _) eqn:E4; [|done]. intros [= <-].
    apply andb_true_iff in E4 as [Hp%Is_true_true Hl%Nat.ltb_lt]. pose proof (printable_range _ Hp).
    destruct (ch =? 13) eqn:E2; [lia|]. destruct (ch =? 9) eqn:E3; [lia|].
    unfold line_key. destruct (ch =? 10) eqn:E5; [lia|]. rewrite E2. by apply does_gives, insert_run.
Qed.
(** A key of an escape sequence ends the treatment of the character. *)
Lemma key_run key (k : SM bool) s e : does key s e →
  gives (let! special := (key ;;; ret true) in if (special : bool) then ret true else k) true s e.
Proof.
  intros (h & o & E & Hs). exists h, o. split; [|done]. by rewrite bind_assoc, (bind_ok _ _ _ _ _ E).
Qed.

Lemma key_char_run s e ch e' : shown s e → ed_char e ch = Some e' → gives (shell_char ch) true s e'.
Proof.
  intros Hs. pose proof Hs as [[] _]. unfold ed_char, shell_char, special_key.
  unfold gives. rewrite bind_assoc, bind_gets, ed_stat.
  destruct (ch =? 27) eqn:E1.
  { intros [= <-]. rewrite bind_assoc. apply gives_mode. by apply gives_ret, mode_shown. }
  destruct (mode e) eqn:Em; [by apply plain_run|..].
  - destruct (ch =? 91) eqn:E2.
    + intros [= <-]. rewrite bind_assoc. apply gives_mode. by apply gives_ret, mode_shown.
    + intros He. rewrite bind_assoc. apply gives_mode. eapply plain_run; [by apply mode_shown|exact He].
  - pose proof (mode_shown s e WAIT_NORMAL Hs) as Hs'. intros He. rewrite bind_assoc. apply gives_mode.
    destruct (ch =? 65); [injection He as <-; by apply key_run, up_run|].
    destruct (ch =? 66); [injection He as <-; by apply key_run, down_run|].
    destruct (ch =? 68); [injection He as <-; by apply key_run, left_run|].
    destruct (ch =? 67); [injection He as <-; by apply key_run, right_run|].
    eapply plain_run; [exact Hs'|exact He].
Qed.

(** ** Typing *)
Lemma read_run {A} c l s (k : option Z → SM A) : input s = c :: l →
  bind rt_device_read k s = k (Some c) (set_input l s).
Proof. intros Hl. unfold rt_device_read. by rewrite bind_assoc, bind_gets, Hl. Qed.

Lemma chars_run l : ∀ fuel s e e' rest, shown s e → input s = l ++ rest → ed_chars e l = Some e' →
  ∃ h o, read_loop (length l + fuel) s =
      read_loop fuel (mk_sstate h (interp s) rest (console s ++ o)) ∧
    shown (mk_sstate h (interp s) rest (console s ++ o)) e'.
Proof.
  induction l as [|c l IH]; intros fuel s e e' rest Hs Hi He.
  - injection He as <-. exists (shell s), []. rewrite app_nil_r. simpl in Hi. subst. by destruct s.
  - simpl in He. destruct (ed_char e c) as [e1|] eqn:Ec; [|done]. simpl length. cbn [Nat.add read_loop].
    rewrite (read_run c (l ++ rest)) by done.
    assert (shown (set_input (l ++ rest) s) e) as Hs1 by done.
    destruct (key_char_run _ _ _ _ Hs1 Ec) as (h & o & E & Hs2).
    rewrite (bind_ok _ _ _ _ _ E). destruct (IH fuel _ _ _ rest Hs2 eq_refl He) as (h' & o' & E' & Hs3).
    exists h', (o ++ o'). rewrite E'. unfold with_out. simpl in *. by rewrite app_assoc.
Qed.

(** ** The end of a line *)
Definition remembered (e : editor) : list (list Z) :=
  if bool_decide (text_of e = []) then lines e
  else drop (length (lines e) + 1 - 5) (lines e ++ [text_of e]).
Definition with_lines (ls : list (list Z)) (e : editor) : editor :=
  mk_editor (before e) (after_ e) ls (length ls) (mode e).

Lemma save_row l : line_ok l → take (length l) (pad l) ++ replicate (80 - length l) 0 = pad l.
Proof. intros _. unfold pad. by rewrite take_app_length. Qed.

Lemma edits_lines h e rows ls : edits h e → Forall line_ok ls → (length ls ≤ 5)%nat →
  length rows = 5%nat → (∀ i l, ls !! i = Some l → rows !! i = Some (pad l)) →
  edits (set_current_history (Z.of_nat (length ls)) (set_history_count (Z.of_nat (length ls))
    (set_cmd_history rows h))) (with_lines ls e).
Proof. intros []. by split. Qed.

(** The first row goes, the others move up, and [row] is the last one. *)
Lemma push_full rows l0 ls row : length rows = 5%nat → length ls = 4%nat →
  (∀ i l, (l0 :: ls) !! i = Some l → rows !! i = Some (pad l)) →
  ∀ i l, (ls ++ [row]) !! i = Some l →
    (drop 1 rows ++ [pad row]) !! i = Some (pad l).
Proof.
  intros Hr Hls Hs i l Hl. destruct (decide (i < 4)%nat).
  - rewrite lookup_app_l in Hl |- * by (rewrite ?length_drop; lia). rewrite lookup_drop. by apply Hs.
  - rewrite lookup_app_r in Hl |- * by (rewrite ?length_drop; lia). rewrite length_drop, Hr.
    rewrite Hls in Hl. replace (i - (5 - 1))%nat with (i - 4)%nat by lia.
    destruct (i - 4)%nat; [by injection Hl as ->|done].
Qed.

Lemma save_line_run o h s t i : line_ok t → line h = pad t → (i < length (cmd_history h))%nat →
  save_line (Z.of_nat i) (Z.of_nat (length t)) (with_out o h s) =
  Ok tt (with_out o (set_cmd_history (<[i := pad t]> (cmd_history h)) h) s).
Proof.
  intros Ht Hl Hi. pose proof Ht as [_ Hlt]. unfold save_line. run. rewrite Hl. destruct (_ && _) eqn:E.
  2: { rewrite pad_length in E by done. unfold FINSH_CMD_SIZE in E. compare. }
  unfold put_history. run. destruct ((0 <=? _) && _) eqn:E2; [|compare].
  rewrite !Nat2Z.id. change (Z.to_nat FINSH_CMD_SIZE) with 80%nat. by rewrite save_row.
Qed.

Lemma move_history_run o h s r0 r1 r2 r3 r4 : cmd_history h = [r0; r1; r2; r3; r4] →
  move_history (Z.to_nat (FINSH_HISTORY_LINES - 1)) 0 (with_out o h s) =
  Ok tt (with_out o (set_cmd_history [r1; r2; r3; r4; r4] h) s).
Proof. intros Hr. destruct h. simpl in Hr. by subst. Qed.

Lemma push_full_run o h s e : edits h e → FINSH_HISTORY_LINES <= history_count h →
  ∃ h', (move_history (Z.to_nat (FINSH_HISTORY_LINES - 1)) 0 ;;;
         save_line (FINSH_HISTORY_LINES - 1) (Z.of_nat (length (text_of e))) ;;;
         upd_shell (set_history_count FINSH_HISTORY_LINES)) (with_out o h s) = Ok tt (with_out o h' s) ∧
    let ls := drop (length (lines e) + 1 - 5) (lines e ++ [text_of e]) in
    edits (set_current_history (history_count h') h') (with_lines ls e).
Proof.
  intros Hed Hc. pose proof Hed as []. rewrite ed_count in Hc. unfold FINSH_HISTORY_LINES in Hc.
  destruct (lines e) as [|l0 ls] eqn:El; [simpl in Hc; lia|]. simpl in ed_few, Hc.
  assert (length ls = 4%nat) as Hls by lia. simpl length. rewrite Hls. simpl drop.
  destruct (cmd_history h) as [|r0 [|r1 [|r2 [|r3 [|r4 [|]]]]]] eqn:Er; try discriminate ed_rows.
  rewrite (bind_ok _ _ _ _ _ (move_history_run _ _ _ _ _ _ _ _ Er)).
  change (FINSH_HISTORY_LINES - 1) with (Z.of_nat 4).
  erewrite bind_ok by (apply save_line_run; [done|done|simpl; lia]). rewrite shell_upd_run.
  eexists. split; [reflexivity|]. rewrite drop_0.
  pose proof (edits_lines h e ([r1; r2; r3; r4] ++ [pad (text_of e)]) (ls ++ [text_of e]) Hed) as H'.
  rewrite length_app, Hls in H'. apply H'; [|simpl; lia|done|].
  - apply Forall_cons in ed_lines as [_ ?]. apply Forall_app. split; [done|by apply Forall_singleton].
  - apply (push_full [r0; r1; r2; r3; r4] l0); done.
Qed.

Lemma push_more_run o h s e : edits h e → history_count h < FINSH_HISTORY_LINES →
  ∃ h', (save_line (history_count h) (Z.of_nat (length (text_of e))) ;;;
         upd_shell (set_history_count (u16 (history_count h + 1)))) (with_out o h s) =
      Ok tt (with_out o h' s) ∧
    let ls := drop (length (lines e) + 1 - 5) (lines e ++ [text_of e]) in
    edits (set_current_history (history_count h') h') (with_lines ls e).
Proof.
  intros Hed Hc. pose proof Hed as []. rewrite ed_count in Hc |- *. unfold FINSH_HISTORY_LINES in Hc.
  erewrite bind_ok by (apply save_line_run; [done|done|lia]). rewrite shell_upd_run.
  eexists. split; [reflexivity|]. replace (length (lines e) + 1 - 5)%nat with 0%nat by lia. rewrite drop_0.
  pose proof (edits_lines h e (<[length (lines e) := pad (text_of e)]> (cmd_history h))
    (lines e ++ [text_of e]) Hed) as H'.
  replace (u16 _) with (Z.of_nat (length (lines e ++ [text_of e])))
    by (rewrite length_app; unfold u16; rewrite wrap_small; simpl; lia).
  apply H'; [|rewrite length_app; simpl; lia|by rewrite length_insert|].
  - apply Forall_app. split; [done|by apply Forall_singleton].
  - intros i l Hi. apply lookup_snoc_Some in Hi as [[Hi Hl]|[-> ->]].
    + rewrite list_lookup_insert_ne by lia. by apply ed_saved.
    + apply list_lookup_insert_eq. lia.
Qed.

Lemma push_history_run o h s e : edits h e →
  ∃ h', shell_push_history (with_out o h s) = Ok tt (with_out o h' s) ∧
    edits h' (with_lines (remembered e) e).
Proof.
  intros Hed. pose proof Hed as []. unfold shell_push_history, remembered. run. rewrite ed_position.
  destruct (decide (text_of e = [])) as [Et|Hne].
  { rewrite Et, bool_decide_true by done. cbn [length]. change (Z.of_nat 0 =? 0) with true. cbn [negb]. rewrite bind_ret. run.
    exists (set_current_history (Z.of_nat (length (lines e))) (set_history_count (Z.of_nat (length (lines e)))
      (set_cmd_history (cmd_history h) h))). split; [|by apply edits_lines].
    rewrite shell_upd_run, <- ed_count. by destruct h. }
  rewrite bool_decide_false by done.
  assert (length (text_of e) ≠ 0%nat) by by intros ?%nil_length_inv.
  destruct (_ =? 0) eqn:E; [compare|]. cbn [negb]. clear E.
  destruct (FINSH_HISTORY_LINES <=? _) eqn:E.
  - apply Z.leb_le in E. destruct (push_full_run o h s e Hed E) as (h' & E' & He').
    rewrite (bind_ok _ _ _ _ _ E'). run. by eexists.
  - apply Z.leb_gt in E. destruct (push_more_run o h s e Hed E) as (h' & E' & He').
    rewrite (bind_ok _ _ _ _ _ E'). run. by eexists.
Qed.

(** The line with the semicolon that the shell adds. *)
Lemma closed_line t : line_ok t → (length t < 79)%nat →
  <[length t := 59]> (pad t) = t ++ 59 :: 0 :: replicate (78 - length t) 0.
Proof.
  intros Hok Hl. rewrite pad_eq, insert_middle by done.
  by replace (79 - length t)%nat with (S (78 - length t)) by lia.
Qed.

Lemma edits_enter h e p c : edits h (with_lines (remembered e) e) →
  edits (set_line_curpos 0 (set_line_position 0 (set_line (replicate (Z.to_nat FINSH_CMD_SIZE) 0)
    (set_line_position p (set_line_curpos c h))))) (ed_enter e).
Proof.
  intros []. unfold with_lines in *. simpl in *. split; try done. by split; simpl; [constructor|lia].
Qed.

Lemma showing_prompt t : esc t = 0%nat → cells t = [] → col t = 0%nat →
  showing (foldl show_char t FINSH_PROMPT) (FINSH_PROMPT ++ reverse []) [].
Proof.
  intros He Hc Hk. rewrite app_nil_r. apply (showing_plain t [] []); [|apply prompt_printable].
  split_and!; [done|done|]. exists 0%nat. by rewrite Hc.
Qed.

Lemma end_of_line_run s e r i : shown s e → text_of e ≠ [] → (length (text_of e) < 79)%nat →
  finsh_run_line (text_of e ++ [59]) (interp s) = Ok r i →
  let out := [Text [10]; Result r; Text FINSH_PROMPT] in
  ∃ h, end_of_line (with_out [] (shell s) s) = Ok tt (mk_sstate h i (input s) (console s ++ out)) ∧
    shown (mk_sstate h i (input s) (console s ++ out)) (ed_enter e).
Proof.
  intros [Hed Ht] Hne Hlt Hr. unfold end_of_line.
  destruct (push_history_run [] (shell s) s e Hed) as (h & E & Hh). rewrite (bind_ok _ _ _ _ _ E).
  pose proof Hh as []. change (text_of (with_lines _ e)) with (text_of e) in *. run. rewrite ed_position.
  rewrite line_put_run by (rewrite ed_line, pad_length; done || lia). rewrite ed_line, closed_line by done.
  assert (length (text_of e) ≠ 0%nat) by by intros ?%nil_length_inv.
  destruct (_ =? 0) eqn:E2; [compare|]. cbn [negb]. rewrite bind_assoc.
  rewrite (string_start_run _ _ _ _ (text_of e ++ [59]) (replicate (78 - length (text_of e)) 0)).
  2: { simpl. by rewrite <- app_assoc. }
  2: { apply Forall_app. split; [by destruct ed_text|by apply Forall_singleton]. }
  unfold run_line. run. run. simpl echo_mode. rewrite ed_echo. cbn [Z.eqb negb]. run. run.
  set (h1 := set_line _ h). set (s1 := set_interp i s).
  assert (lift (finsh_run_line (text_of e ++ [59])) (with_out ([] ++ [Text [10]]) h1 s) =
    Ok r (with_out ([] ++ [Text [10]]) h1 s1)) as Hlift.
  { unfold lift. change (interp (with_out _ _ s)) with (interp s). by rewrite Hr. }
  rewrite (bind_ok _ _ _ _ _ Hlift), bind_out. unfold clear_line. run. run. rewrite shell_upd_run.
  eexists. split; [reflexivity|]. split.
  - by apply (edits_enter h e).
  - change (console s ++ _) with (console s ++ ([Text [10]; Result r] ++ [Text FINSH_PROMPT])).
    apply (shows_out s1 h). simpl console. change [_; _] with ([Text [10]] ++ [Result r]).
    rewrite app_assoc, display_app. by apply showing_prompt.
Qed.

(** The line end of a terminal: a line feed, or a carriage return that a line
    feed, a zero or nothing follows. *)
Definition line_end (nl rest : list Z) : Prop :=
  nl = [10] ∨ nl = [13] ∧ rest = [] ∨ nl = [13; 0] ∨ nl = [13; 10].

Lemma special_key_none s ch : ch = 10 ∨ ch = 13 ∨ ch = 9 →
  special_key ch s = Ok false (with_out [] (set_stat WAIT_NORMAL (shell s)) s).
Proof.
  intros Hch. unfold special_key. rewrite bind_gets. rewrite (with_out_self s) at 2.
  destruct (ch =? 27) eqn:E; [lia|]. destruct (stat (shell s)) eqn:Es.
  - unfold ret. do 2 f_equal. destruct (shell s). simpl in *. by subst.
  - destruct (ch =? 91) eqn:E2; [lia|]. rewrite bind_upd. done.
  - rewrite bind_upd. rewrite !(proj2 (Z.eqb_neq ch _)) by lia. done.
Qed.
Lemma line_end_run nl rest fuel s e r i : line_end nl rest → input s = nl ++ rest → shown s e →
  text_of e ≠ [] → (length (text_of e) < 79)%nat →
  finsh_run_line (text_of e ++ [59]) (interp s) = Ok r i →
  let out := [Text [10]; Result r; Text FINSH_PROMPT] in
  ∃ h, read_loop (S fuel) s = Ok tt (mk_sstate h i rest (console s ++ out)) ∧
    shown (mk_sstate h i rest (console s ++ out)) (ed_enter (with_mode WAIT_NORMAL e)).
Proof.
  intros Hnl Hi Hs Hne Hlt Hr out. cbn [read_loop].
  set (s2 := mk_sstate (set_stat WAIT_NORMAL (shell s)) (interp s) rest (console s)).
  assert (shown s2 (with_mode WAIT_NORMAL e)) as Hs2.
  { apply (shown_mode s e WAIT_NORMAL) in Hs. exact Hs. }
  destruct (end_of_line_run s2 (with_mode WAIT_NORMAL e) r i Hs2 Hne Hlt Hr) as (h & E & Hsh).
  exists h. split; [|exact Hsh].
  assert (∀ c l, (c = 10 ∧ l = rest) ∨
    c = 13 ∧ (l = [] ∧ rest = [] ∨ l = 0 :: rest ∨ l = 10 :: rest) →
    shell_char c (set_input l s) = Ok false (mk_sstate h i rest (console s ++ out))) as Hend.
  { intros c l Hc. unfold shell_char. erewrite bind_ok by (apply special_key_none; naive_solver).
    change (shell (set_input l s)) with (shell s). cbv iota.
    assert (plain_char c (with_out [] (set_stat WAIT_NORMAL (shell s)) (set_input l s)) =
      (end_of_line ;;; ret false) (with_out [] (shell s2) s2)) as ->.
    { unfold plain_char, rt_device_read.
      by destruct Hc as [[-> ->] | [-> [[-> ->] | [-> | ->]]]]. }
    by rewrite (bind_ok _ _ _ _ _ E). }
  destruct Hnl as [-> | [[-> ->] | [-> | ->]]]; simpl in Hi;
    (erewrite read_run by exact Hi; erewrite bind_ok by (apply Hend; naive_solver); done).
Qed.
End chars.
