(* ===== verification/ShellLine.v ===== *)
(** * Typing lines

    What the shell does with the characters that it receives: the keys edit
    the line, the line end evaluates it. *)

From S2P Require Import Prelude FinshDef FinshVm FinshToken FinshParser FinshRun FinshVmSpec FinshExpr.
From S2P Require Import FinshDemo FinshProgram FinshText FinshGrammar FinshLine.
From S2P Require Import Shell ShellEditor ShellSpec.

Section typing.
Context `{FinshEnv}.

(** C8: The editor is correct: while the keys that the shell receives stay on one
    line, the shell treats them all, its state is that of the edited text, the
    terminal shows the prompt and the text with the cursor in its place, and
    the interpreter is left alone. *)
Theorem keys_edit s e e' : shown s e → ed_chars e (input s) = Some e' →
  ∃ s', shell_read s = Ok tt s' ∧ shown s' e' ∧ interp s' = interp s ∧ input s' = [].
Proof.
  intros Hs He. unfold shell_read. rewrite bind_gets.
  destruct (chars_run (input s) 0 s e e' [] Hs) as (h & o & E & Hs'); [by rewrite app_nil_r|done|].
  rewrite Nat.add_0_r in E. rewrite E. by eexists.
Qed.

Lemma spells_text s l t : l ≠ [] → spells (global_variable s) l (t ++ [59]) → t ≠ [].
Proof.
  intros Hl Hs ->. destruct l as [|e l]; [done|]. apply spelled_length in Hs. unfold ptoks in Hs. simpl in Hs.
  destruct (toks_head s e) as (x & ta & Ea & _). rewrite Ea, !length_app in Hs. simpl in Hs. lia.
Qed.

(** C7: Typing a line evaluates it: when the keys edit the text, of less than 79
    characters, of well-typed statements that need no parentheses, have a value
    and fit into the tables of the interpreter, and a line end follows, the shell
    prints the value of the last statement and the prompt (the value in the low
    bits of its type: whole for a double word, while the upper bits that are
    printed for a byte or a word are what the machine left there), leaves the memory
    that the evaluation leaves, keeps the line in its history, and waits for
    the next line with an empty one; it reads nothing behind the line end. *)
Theorem typed_line_evaluated s e keys e' nl rest l v m' :
  calls_ok → ready (interp s) → shown s e → input s = keys ++ nl ++ rest → line_end nl rest →
  ed_chars e keys = Some e' → (length (text_of e') < 79)%nat →
  let vars := global_variable (interp s) in
  l ≠ [] → writable (interp s) l → spells vars l (text_of e' ++ [59]) →
  fitting vars l → Forall (wt vars) l → run vars l (memory (interp s)) = Some (v, m') →
  ∃ x s' o, shell_read s = Ok tt s' ∧
    console s' = console s ++ o ++ [Text [10]; Result (PrintValue x); Text FINSH_PROMPT] ∧
    low (pwidth vars l) x = v ∧ (pwidth vars l = Dword → x = long_value v) ∧
    memory (interp s') = m' ∧ ready (interp s') ∧ input s' = rest ∧
    shown s' (ed_enter (with_mode WAIT_NORMAL e')).
Proof.
  intros Hc Hr Hs Hi Hnl He Hlt vars Hl Hw Hsp Hf Hwt Hrun.
  destruct (line_value (interp s) l _ v m' Hc Hr Hl Hw Hsp Hf Hwt Hrun)
    as (x & i & E & Hx & Hd & Hm & _ & Hready).
  pose proof (spells_text _ _ _ Hl Hsp) as Hne. unfold shell_read. rewrite bind_gets, Hi, length_app.
  destruct (chars_run keys (length (nl ++ rest)) s e e' (nl ++ rest) Hs Hi He) as (h & o & E1 & Hs1).
  rewrite E1. assert (∃ k, length (nl ++ rest) = S k) as [k ->].
  { destruct Hnl as [-> | [[-> _] | [-> | ->]]]; by eexists. }
  destruct (line_end_run nl rest k (mk_sstate h (interp s) (nl ++ rest) (console s ++ o)) e' _ i Hnl eq_refl Hs1 Hne Hlt E) as (h' & E2 & Hs2).
  rewrite E2. exists x. eexists. exists o. split; [reflexivity|]. simpl.
  simpl in Hs2. rewrite <- app_assoc in Hs2 |- *. repeat (split; [first [reflexivity|assumption]|]). exact Hs2.
Qed.
End typing.

(** ** On the small shell *)

(** The shell waits behind its prompt. *)
Definition demo_shell (keys : list Z) : sstate :=
  mk_sstate (set_echo_mode 1 new_shell) demo keys [Text FINSH_PROMPT].
Definition no_line : editor := mk_editor [] [] [] 0 WAIT_NORMAL.

Lemma demo_shown keys : shown (demo_shell keys) no_line.
Proof.
  split.
  - split; try done; simpl; try lia. split; [constructor|simpl; lia].
  - split; [done|]. split; [done|]. by exists 0%nat.
Qed.

(** [1 + 2 * 4 ], left, delete, 3, right. *)
Definition demo_keys : list Z :=
  [49; 32; 43; 32; 50; 32; 42; 32; 52; 32; 27; 91; 68; 127; 51; 27; 91; 67].
Definition demo_text_typed : list Z := [49; 32; 43; 32; 50; 32; 42; 32; 51; 32].
Definition demo_sum : list expr := [EBin BAdd (ELit LInt 1) (EBin BMul (ELit LInt 2) (ELit LInt 3))].

Example demo_keys_text : text_of <$> ed_chars no_line demo_keys = Some demo_text_typed.
Proof. reflexivity. Qed.

Definition demo_edited : editor := Eval vm_compute in default no_line (ed_chars no_line demo_keys).
Lemma demo_keys_edited : ed_chars no_line demo_keys = Some demo_edited.
Proof. vm_compute. reflexivity. Qed.

Lemma keys_edit_witness : ∃ s' e', shell_read (demo_shell demo_keys) = Ok tt s' ∧ shown s' e' ∧
  text_of e' = demo_text_typed ∧ input s' = [].
Proof.
  destruct (keys_edit (demo_shell demo_keys) no_line demo_edited (demo_shown demo_keys) demo_keys_edited)
    as (s' & E & Hs & _ & Hi).
  exists s', demo_edited. repeat split; try assumption; apply Hs.
Defined.

Lemma demo_sum_ok : fitting (global_variable demo) demo_sum ∧ writable demo demo_sum ∧
  Forall (wt (global_variable demo)) demo_sum.
Proof.
  split; [split; [apply Nat.leb_le; reflexivity|split; apply Z.leb_le; reflexivity]|].
  split.
  - split; [|by apply (bool_decide_unpack _); vm_compute].
    repeat apply Forall_cons_2; [..|by apply Forall_nil_2]; vm_compute; repeat (split || constructor).
  - repeat apply Forall_cons_2; [..|by apply Forall_nil_2]; vm_compute;
      repeat first [discriminate | split | constructor | eexists].
Qed.

Lemma typed_line_evaluated_witness : ∃ s' o, shell_read (demo_shell (demo_keys ++ [13; 10] ++ [50])) = Ok tt s' ∧
  console s' = [Text FINSH_PROMPT] ++ o ++ [Text [10]; Result (PrintValue 7); Text FINSH_PROMPT] ∧
  input s' = [50] ∧ ready (interp s').
Proof.
  destruct (typed_line_evaluated (demo_shell (demo_keys ++ [13; 10] ++ [50])) no_line demo_keys
    demo_edited [13; 10] [50] demo_sum 7 (memory demo))
    as (x & s' & o & E & Hc & _ & Hx & _ & Hr & Hi & _).
  - exact demo_calls_ok.
  - exact demo_ready.
  - exact (demo_shown _).
  - reflexivity.
  - right. right. right. reflexivity.
  - exact demo_keys_edited.
  - apply Nat.ltb_lt. reflexivity.
  - discriminate.
  - exact (proj1 (proj2 demo_sum_ok)).
  - right. exists (removelast (ptoks (global_variable demo) demo_sum)). split; reflexivity.
  - exact (proj1 demo_sum_ok).
  - exact (proj2 (proj2 demo_sum_ok)).
  - reflexivity.
  - exists s', o. rewrite (Hx eq_refl) in Hc. split; [exact E|]. split; [exact Hc|]. split; [exact Hi|exact Hr].
Defined.

(** ** What the code does with long lines *)

(** A line of 80 characters is given up: the positions are reset, but the
    array is not cleared.  The line [9] that follows has the old text behind
    it, and no zero. *)
Example long_line_left : shell_read (demo_shell (replicate 80 32 ++ [57; 10])) = Fault OutOfBounds.
Proof. vm_compute. reflexivity. Qed.

(** A line of 79 characters fills the array with the semicolon: there is no
    zero behind it, and the parser reads behind the array. *)
Example full_line_unterminated :
  shell_read (demo_shell (replicate 79 49 ++ [10])) = Fault OutOfBounds.
Proof. vm_compute. reflexivity. Qed.

(** A character in the middle of a line of 79 characters leaves no zero either. *)
Example full_insert_unterminated :
  shell_read (demo_shell (replicate 79 49 ++ [27; 91; 68; 50])) = Fault OutOfBounds.
Proof. vm_compute. reflexivity. Qed.

(** The echo mode has one bit: 3, which is no echo mode, turns the echo on. *)
Example echo_three s : bind (finsh_set_echo 3) (λ _, finsh_get_echo) s = bind (finsh_set_echo 1) (λ _, finsh_get_echo) s.
Proof. reflexivity. Qed.
