(* ===== verification/ShellComplete.v ===== *)
(** * Completion of names

    The tabulator key completes the line to the longest text that all symbols
    that begin with it share, and lists these symbols. *)

From Stdlib Require Import String.
From S2P Require Import Prelude FinshDef FinshToken FinshRun FinshDemo Shell ShellEditor ShellSpec.

(** [l] is the longest common prefix of the names [M]. *)
Definition common (l : list Z) (M : list (list Z)) : Prop := Forall (λ n, l `prefix_of` n) M.
Definition longest (l : list Z) (M : list (list Z)) : Prop :=
  common l M ∧ ∀ l', common l' M → l' `prefix_of` l.

Lemma is_prefix_spec p l : str_is_prefix p l = 0 ↔ p `prefix_of` l.
Proof.
  revert l. induction p as [|c p IH]; intros [|d l]; simpl.
  - by split; [intros _; apply prefix_nil|].
  - by split; [intros _; apply prefix_nil|].
  - split; [done|]. by intros ?%prefix_nil_inv.
  - destruct (c =? d) eqn:E.
    + apply Z.eqb_eq in E as ->. rewrite IH. split; [apply prefix_cons|apply prefix_cons_inv_2].
    + split; [done|]. intros ->%prefix_cons_inv_1. lia.
Qed.

Lemma common_range a b : 0 ≤ str_common a b ≤ Z.of_nat (length a).
Proof.
  revert b. induction a as [|c a IH]; intros [|d b]; simpl; try lia. destruct (c =? d); [|lia].
  specialize (IH b). lia.
Qed.

Lemma common_take a b : take (Z.to_nat (str_common a b)) a `prefix_of` b.
Proof.
  revert b. induction a as [|c a IH]; intros [|d b]; simpl; try apply prefix_nil.
  destruct (c =? d) eqn:E; [|apply prefix_nil]. apply Z.eqb_eq in E as ->. pose proof (common_range a b).
  replace (Z.to_nat (1 + str_common a b)) with (S (Z.to_nat (str_common a b))) by lia.
  simpl. apply prefix_cons, IH.
Qed.

Lemma common_longest l a b : l `prefix_of` a → l `prefix_of` b → Z.of_nat (length l) ≤ str_common a b.
Proof.
  revert a b. induction l as [|c l IH]; intros a b [ka ->] [kb ->]; simpl.
  { apply common_range. }
  rewrite Z.eqb_refl. assert (Z.of_nat (length l) ≤ str_common (l ++ ka) (l ++ kb)); [|lia].
  apply IH; by apply prefix_app_r.
Qed.

Lemma common_self a : str_common a a = Z.of_nat (length a).
Proof. induction a as [|c a IH]; simpl; [done|]. rewrite Z.eqb_refl, IH. lia. Qed.

Lemma longest_one n : longest (take (length n) n) [n].
Proof.
  rewrite take_ge by done. split; [by apply Forall_singleton|].
  intros l' Hl. inversion Hl; subst. assumption.
Qed.

Lemma longest_unique l1 l2 M : longest l1 M → longest l2 M → l1 = l2.
Proof. intros [Hc1 Hl1] [Hc2 Hl2]. apply (anti_symm prefix); auto. Qed.

Lemma prefix_take_le (l p : list Z) k : l `prefix_of` p → (length l ≤ k)%nat → l `prefix_of` take k p.
Proof. intros [r ->] Hk. rewrite take_app_ge by done. by eexists. Qed.

Lemma take_prefix_le (p : list Z) i j : (i ≤ j)%nat → take i p `prefix_of` take j p.
Proof.
  intros Hij. exists (drop i (take j p)).
  rewrite <- (take_drop i (take j p)) at 1. f_equal. rewrite take_take. f_equal. lia.
Qed.

(** ** The loops of [list_prefix] *)

(** After the matching names [M]: [name_ptr] is one of them, and [min_length]
    the length of their longest common prefix. *)
Definition tracks (p : list Z) (M : list (list Z)) (m : matching) : Prop :=
  match name_ptr m with
  | None => p = [] ∨ M = []
  | Some q => p ≠ [] ∧ q ∈ M ∧ 0 ≤ min_length m ≤ Z.of_nat (length q) ∧
      longest (take (Z.to_nat (min_length m)) q) M
  end.

(** The names that begin with [p], and the symbols that were printed. *)
Definition matching_names (p : list Z) (names : list (list Z)) : list (list Z) :=
  filter (λ n, p `prefix_of` n) names.
Definition listed (o : list output) : list (list Z) :=
  omap (λ x, match x with Symbol n => Some n | _ => None end) o.

(** Outputs that leave an empty row. *)
Definition full_rows (o : list output) : Prop :=
  foldl show_out (mk_screen [] 0 0) o = mk_screen [] 0 0.

Lemma full_rows_app o1 o2 : full_rows o1 → full_rows o2 → full_rows (o1 ++ o2).
Proof. unfold full_rows. rewrite foldl_app. by intros ->. Qed.

Lemma longest_snoc q k M n : 0 ≤ k ≤ Z.of_nat (length q) → longest (take (Z.to_nat k) q) M → q ∈ M →
  longest (take (Z.to_nat (Z.min k (str_common q n))) q) (M ++ [n]).
Proof.
  intros Hk [Hc Hl] Hq. pose proof (common_range q n). split.
  - apply Forall_app. split.
    + eapply Forall_impl; [exact Hc|]. intros x Hx. simpl. etrans; [|exact Hx]. apply take_prefix_le. lia.
    + apply Forall_singleton. etrans; [|apply common_take]. apply take_prefix_le. lia.
  - intros l' [Hl1 Hl2]%Forall_app. apply Forall_cons in Hl2 as [Hl2 _].
    pose proof (proj1 (Forall_forall _ _) Hl1 _ Hq) as Hp. apply prefix_take_le; [done|].
    pose proof (common_longest _ _ _ Hp Hl2). apply Hl in Hl1. apply prefix_length in Hl1.
    rewrite length_take in Hl1. lia.
Qed.

(** A new name, where [name_ptr] is set or set to it now. *)
Lemma tracks_snoc p q k M n : p ≠ [] → q ∈ M ∨ M = [] ∧ q = n ∧ k = Z.of_nat (length q) →
  0 ≤ k ≤ Z.of_nat (length q) → (q ∈ M → longest (take (Z.to_nat k) q) M) →
  tracks p (M ++ [n]) (let c := str_common q n in
    if c <? k then mk_matching (Some q) c else mk_matching (Some q) k).
Proof.
  intros Hp Hq Hk Hl. pose proof (common_range q n). cbv zeta.
  assert (longest (take (Z.to_nat (Z.min k (str_common q n))) q) (M ++ [n])) as Hm.
  { destruct Hq as [Hq|(-> & -> & ->)]; [by apply longest_snoc; auto|].
    rewrite common_self, Z.min_id, Nat2Z.id. apply longest_one. }
  assert (q ∈ M ++ [n]) by set_solver. unfold tracks.
  destruct (Z.ltb_spec (str_common q n) k); simpl; split_and!; try done; try lia.
  - by rewrite Z.min_r in Hm by lia.
  - by rewrite Z.min_l in Hm by lia.
Qed.

(** The first match of a kind prints a header; [name_ptr] is set then, unless
    it was set for the other kind. *)
Definition counts (p : list Z) (again : bool) (cnt : Z) (m : matching) (size : nat) : Prop :=
  0 ≤ cnt ∧ cnt + Z.of_nat size < 65536 ∧ (p ≠ [] → 0 < cnt → name_ptr m ≠ None) ∧
  (again → cnt = 0 → name_ptr m = None).

Definition header_ok (header : list Z) : Prop :=
  header = header_function ∨ header = header_variable.

Lemma symbol_rows (b : bool) header n : header_ok header →
  full_rows ((if b then [Text header] else []) ++ [Symbol n]).
Proof. by intros [-> | ->]; destruct b. Qed.

(** The choice of [name_ptr]. *)
Definition chosen (p : list Z) (again : bool) (cnt : Z) (n : list Z) (m : matching) : matching :=
  if (cnt =? 0) && bool_decide (p ≠ []) && (again || bool_decide (name_ptr m = None))
  then mk_matching (Some n) (Z.of_nat (length n)) else m.

Lemma chosen_some p again cnt m M n size : p ≠ [] → tracks p M m → counts p again cnt m size →
  ∃ q k, chosen p again cnt n m = mk_matching (Some q) k ∧
    (q ∈ M ∨ M = [] ∧ q = n ∧ k = Z.of_nat (length q)) ∧ 0 ≤ k ≤ Z.of_nat (length q) ∧
    (q ∈ M → longest (take (Z.to_nat k) q) M).
Proof.
  intros Hp Ht (Hc0 & _ & Hset & Hag). unfold chosen. rewrite (bool_decide_true (p ≠ [])), andb_true_r by done.
  unfold tracks in Ht. destruct m as [[q|] k]; simpl in *.
  - exists q, k. destruct Ht as (_ & Hq & Hk & Hl). split; [|by auto].
    destruct (Z.eqb_spec cnt 0) as [E|E]; [|done]. destruct again; [by specialize (Hag I E)|done].
  - destruct (Z.eqb_spec cnt 0) as [E|E]; [|by specialize (Hset Hp ltac:(lia))].
    rewrite orb_true_r. destruct Ht as [->| ->]; [done|]. exists n, (Z.of_nat (length n)).
    split_and!; try done; [by right|lia|]. by intros ?%not_elem_of_nil.
Qed.

Lemma list_symbol_run p header again n cnt m M size o h s : header_ok header →
  tracks p M m → counts p again cnt m (S size) →
  ∃ cnt' m' o', list_symbol p header again n cnt m (with_out o h s) =
      Ok (cnt', m') (with_out (o ++ o') h s) ∧
    tracks p (M ++ matching_names p [n]) m' ∧ counts p again cnt' m' size ∧
    listed o' = matching_names p [n] ∧ full_rows o'.
Proof.
  intros Hh Ht Hc. pose proof Hc as (Hc0 & Hc1 & Hset & Hag). unfold list_symbol, matching_names.
  destruct (Z.eqb_spec (str_is_prefix p n) 0) as [E|E]; rewrite is_prefix_spec in E.
  2: { rewrite filter_cons_False, filter_nil, app_nil_r by done.
       exists cnt, m, []. rewrite app_nil_r. split_and!; try done. split_and!; [done|lia|done|done]. }
  rewrite filter_cons_True, filter_nil by done. fold (chosen p again cnt n m).
  set (o' := (if cnt =? 0 then [Text header] else []) ++ [Symbol n]).
  assert (∀ k : unit → SM (Z * matching), bind (when cnt =? 0 then rt_kprintf header) k (with_out o h s) =
    k tt (with_out (o ++ if cnt =? 0 then [Text header] else []) h s)) as ->.
  { intros k. destruct (cnt =? 0); [by rewrite bind_kprintf|]. by rewrite app_nil_r. }
  assert (listed o' = [n]) as Hlist by (unfold o'; by destruct (cnt =? 0)).
  assert (full_rows o') as Hrows by by apply symbol_rows.
  assert (u16 (cnt + 1) = cnt + 1) as Hu by (unfold u16; rewrite wrap_small; lia).
  destruct (decide (p = [])) as [->|Hp].
  - rewrite (bool_decide_false ([] ≠ [])) by naive_solver. rewrite bind_ret, bind_out, <- app_assoc, Hu.
    unfold chosen. rewrite (bool_decide_false ([] ≠ [])), andb_false_r, andb_false_l by naive_solver.
    eexists _, _, o'. split; [reflexivity|]. split_and!; [|split_and!|done|done]; try done; try lia.
    unfold tracks in *. destruct (name_ptr m); [naive_solver|by left].
  - destruct (chosen_some p again cnt m M n _ Hp Ht Hc) as (q & k & -> & Hq & Hk & Hl).
    rewrite bool_decide_true by done. cbn [name_ptr]. rewrite bind_ret, bind_out, <- app_assoc, Hu.
    eexists _, _, o'. split; [reflexivity|]. split_and!; [by apply tracks_snoc| |done|done].
    split_and!; try lia. intros _ _. by destruct (_ <? _).
Qed.

Lemma matching_cons p n l : matching_names p (n :: l) = matching_names p [n] ++ matching_names p l.
Proof. unfold matching_names. by rewrite <- filter_app. Qed.

Lemma list_symbols_run p header again skip names : header_ok header → ∀ cnt m M size o h s,
  tracks p M m → counts p again cnt m (length names + size) →
  ∃ cnt' m' o', list_symbols p header again skip names cnt m (with_out o h s) =
      Ok (cnt', m') (with_out (o ++ o') h s) ∧
    tracks p (M ++ matching_names p (filter (λ n, negb (skip n)) names)) m' ∧ counts p again cnt' m' size ∧
    listed o' = matching_names p (filter (λ n, negb (skip n)) names) ∧ full_rows o'.
Proof.
  intros Hh. induction names as [|n names IH]; intros cnt m M size o h s Ht Hc; simpl.
  { exists cnt, m, []. unfold matching_names. rewrite filter_nil, !app_nil_r. by split_and!. }
  destruct (skip n) eqn:E.
  - rewrite filter_cons_False by (rewrite E; naive_solver). apply IH; [done|].
    destruct Hc as (? & ? & ? & ?). split_and!; try done. simpl in *. lia.
  - rewrite filter_cons_True by by rewrite E.
    destruct (list_symbol_run p header again n cnt m M (length names + size) o h s Hh Ht Hc)
      as (cnt1 & m1 & o1 & E1 & Ht1 & Hc1 & Hl1 & Hr1).
    rewrite (bind_ok _ _ _ _ _ E1). simpl fst. simpl snd.
    destruct (IH cnt1 m1 _ size (o ++ o1) h s Ht1 Hc1) as (cnt2 & m2 & o2 & -> & Ht2 & Hc2 & Hl2 & Hr2).
    exists cnt2, m2, (o1 ++ o2). rewrite matching_cons, !app_assoc. split_and!; try done.
    + unfold listed in *. by rewrite omap_app, Hl1, Hl2.
    + by apply full_rows_app.
Qed.

(** ** The tabulator key *)
Section completion.
Context `{FinshEnv}.

(** The names that are completed: the functions of the table that are not
    internal, the functions that were appended, the variables of both kinds. *)
Definition functions (i : fstate) : list (list Z) :=
  filter (λ n, negb (internal n)) (syscall_name <$> syscall_table) ++
  (syscall_name <$> global_syscall_list i).
Definition variables (i : fstate) : list (list Z) :=
  (sysvar_name <$> sysvar_table) ++ (sysvar_name <$> global_sysvar_list i).
Definition symbols (i : fstate) : list (list Z) := functions i ++ variables i.

(** The counters of [list_prefix] have 16 bits. *)
Definition few_symbols (i : fstate) : Prop :=
  Z.of_nat (length (syscall_table ++ global_syscall_list i)) < 65536 ∧
  Z.of_nat (length (sysvar_table ++ global_sysvar_list i)) < 65536.

Lemma filter_all {A} (l : list A) : filter (λ n, negb ((λ _ : A, false) n)) l = l.
Proof. induction l as [|x l IH]; [done|]. rewrite filter_cons_True by done. by f_equal. Qed.

Lemma names_run p header (names1 names2 : list (list Z)) (again : bool) skip m M o h s : header_ok header →
  tracks p M m → (again → name_ptr m = None) → Z.of_nat (length (names1 ++ names2)) < 65536 →
  ∃ cnt' m' o',
    (∀ A (k : Z * matching → SM A), bind (list_symbols p header again skip names1 0 m) (λ r,
      bind (list_symbols p header false (λ _, false) names2 r.1 r.2) k) (with_out o h s) =
      k (cnt', m') (with_out (o ++ o') h s)) ∧
    let names := matching_names p (filter (λ n, negb (skip n)) names1 ++ names2) in
    tracks p (M ++ names) m' ∧ listed o' = names ∧ full_rows o'.
Proof.
  intros Hh Ht Hag Hlen. rewrite length_app in Hlen.
  destruct (list_symbols_run p header again skip names1 Hh 0 m M (length names2) o h s Ht)
    as (c1 & m1 & o1 & E1 & Ht1 & Hc1 & Hl1 & Hr1). { split_and!; try lia. by auto. }
  destruct (list_symbols_run p header false (λ _, false) names2 Hh c1 m1 _ 0 (o ++ o1) h s Ht1)
    as (c2 & m2 & o2 & E2 & Ht2 & _ & Hl2 & Hr2). { destruct Hc1 as (? & ? & ? & ?). split_and!; try done. lia. }
  rewrite filter_all in *. exists c2, m2, (o1 ++ o2). split.
  { intros A k. by rewrite (bind_ok _ _ _ _ _ E1), (bind_ok _ _ _ _ _ E2), app_assoc. }
  unfold matching_names, listed in *. cbv zeta. rewrite filter_app, omap_app, Hl1, Hl2.
  split_and!; [by rewrite app_assoc|done|by apply full_rows_app].
Qed.
Lemma list_prefix_run p o h s : few_symbols (interp s) →
  ∃ r o', list_prefix p (with_out o h s) =
      match name_ptr r with
      | Some name => copy_name name (min_length r)
      | None => ret tt
      end (with_out (o ++ o') h s) ∧
    tracks p (matching_names p (symbols (interp s))) r ∧
    listed o' = matching_names p (symbols (interp s)) ∧ full_rows o'.
Proof.
  intros [Hf Hv]. unfold list_prefix. change (bind (gets interp)) with (λ (k : fstate → SM unit) t, k (interp t) t).
  cbv beta. change (interp (with_out o h s)) with (interp s). cbv zeta.
  destruct (names_run p header_function (syscall_name <$> syscall_table)
    (syscall_name <$> global_syscall_list (interp s)) true internal (mk_matching None 0) [] o h s)
    as (c1 & m1 & o1 & E1 & Ht1 & Hl1 & Hr1); [by left|by right|done|by rewrite <- fmap_app, length_fmap|].
  rewrite E1. cbn [fst snd].
  destruct (names_run p header_variable (sysvar_name <$> sysvar_table)
    (sysvar_name <$> global_sysvar_list (interp s)) false (λ _, false) m1
    (matching_names p (functions (interp s))) (o ++ o1) h s)
    as (c2 & m2 & o2 & E2 & Ht2 & Hl2 & Hr2); [by right|exact Ht1|done|by rewrite <- fmap_app, length_fmap|].
  rewrite E2. cbn [fst snd]. rewrite filter_all in *. exists m2, (o1 ++ o2). rewrite app_assoc. split; [done|].
  unfold matching_names, listed, symbols, functions, variables in *. rewrite filter_app, omap_app, Hl1, Hl2.
  split_and!; [exact Ht2|done|by apply full_rows_app].
Qed.

(** The text behind the completion. *)
Definition completed (p : list Z) (M : list (list Z)) (l : list Z) : Prop :=
  if bool_decide (p = [] ∨ M = []) then l = p else longest l M.

Lemma matching_common p names : common p (matching_names p names).
Proof. apply Forall_forall. intros n. unfold matching_names. rewrite list_elem_of_filter. by intros []. Qed.

Lemma copy_run p M r o h s : line_ok p → line h = pad p → Forall line_ok M → common p M → tracks p M r →
  ∃ l, match name_ptr r with
      | Some name => copy_name name (min_length r)
      | None => ret tt
      end (with_out o h s) = Ok tt (with_out o (set_line (pad l) h) s) ∧
    completed p M l ∧ line_ok l.
Proof.
  intros Hp Hl HM Hc Ht. unfold tracks in Ht. destruct (name_ptr r) as [q|].
  2: { exists p. rewrite <- Hl. unfold completed. rewrite bool_decide_true by done. split_and!; try done.
       by destruct h. }
  destruct Ht as (Hne & Hq & Hk & Hlong). set (k := Z.to_nat (min_length r)) in *.
  pose proof (proj1 (Forall_forall _ _) HM _ Hq) as Hqok. exists (take k q).
  assert (p `prefix_of` take k q) as Hpre by by apply Hlong. apply prefix_length in Hpre as Hlen.
  rewrite length_take in Hlen. destruct Hqok as [Hqp Hql]. split_and!.
  - unfold copy_name. run. rewrite Hl, pad_length by done. destruct (Z.leb_spec (min_length r) (Z.of_nat 80)); [|lia].
    rewrite shell_upd_run. do 3 f_equal. fold k. rewrite take_app_le by lia.
    rewrite <- (take_drop (length (take k q)) (pad p)) at 1.
    rewrite list_inserts_0_r by (rewrite !length_take, pad_length by done; lia). unfold pad. f_equal.
    rewrite length_take, drop_app_ge, drop_replicate by lia. f_equal. lia.
  - unfold completed. rewrite bool_decide_false; [done|]. intros [?| ->]; [done|]. by apply not_elem_of_nil in Hq.
  - split; [by apply Forall_take|]. rewrite length_take. lia.
Qed.

Lemma blank_row t n : esc t = 0%nat →
  foldl show_char (foldl show_char t (replicate n 8)) [10] = mk_screen [] 0 0.
Proof. destruct t as [cs k m]. simpl. intros ->. by rewrite show_back. Qed.

Lemma symbols_common p i : Forall line_ok (symbols i) → Forall line_ok (matching_names p (symbols i)).
Proof.
  rewrite !Forall_forall. unfold matching_names. intros Hok n. rewrite list_elem_of_filter. naive_solver.
Qed.

Lemma tab_run s e : shown s e → few_symbols (interp s) → Forall line_ok (symbols (interp s)) →
  let M := matching_names (text_of e) (symbols (interp s)) in
  ∃ l h o, tab_key (with_out [] (shell s) s) = Ok tt (with_out o h s) ∧
    shown (with_out o h s) (around (reverse l) [] e) ∧ completed (text_of e) M l ∧ listed o = M.
Proof.
  intros [Hed Ht] Hfew Hok M. pose proof Hed as []. unfold tab_key, shell_auto_complete, back. run. run. run.
  rewrite ed_curpos, Nat2Z.id. set (o0 := (_ ++ [Text [10]])).
  rewrite (string_0_run _ _ _ _ (text_of e)) by done. rewrite bind_assoc.
  destruct (list_prefix_run (text_of e) o0 (shell s) s Hfew) as (r & o & E & Htr & Hlist & Hrows).
  destruct (copy_run _ _ r (o0 ++ o) (shell s) s ed_text ed_line (symbols_common _ _ Hok)
    (matching_common _ _) Htr) as (l & E2 & Hl & Hlok).
  rewrite E2 in E. rewrite (bind_ok _ _ _ _ _ E), bind_assoc, (string_0_run _ _ _ _ l) by done.
  run. unfold line_length. rewrite (string_0_run _ _ _ _ l) by done. run. rewrite shell_upd_run.
  replace (u8 _) with (Z.of_nat (length l)) by (unfold u8; rewrite wrap_small; destruct Hlok; lia).
  exists l. eexists _, _. split; [reflexivity|].
  split; [|split; [done|by unfold listed in *; rewrite !omap_app, Hlist; simpl; rewrite app_nil_r]].
  split.
  - assert (text_of (around (reverse l) [] e) = l) as Htl.
    { unfold text_of. simpl. by rewrite reverse_involutive, app_nil_r. }
    split; rewrite ?Htl; simpl; try done. by rewrite length_reverse.
  - apply (shows_out _ _ (o0 ++ o)). simpl before. simpl after_. rewrite reverse_involutive.
    assert (display (console s ++ o0 ++ o) = mk_screen [] 0 0) as ->.
    { unfold display. rewrite !foldl_app. fold (display (console s)).
      change (foldl show_out _ o0) with
        (foldl show_char (foldl show_char (display (console s)) (replicate (length (before e)) 8)) [10]).
      destruct Ht as (He & _). rewrite blank_row by done. exact Hrows. }
    apply (showing_plain _ [] []); [by split_and!; [..|by exists 0%nat]|].
    apply Forall_app. split; [apply prompt_printable|by destruct Hlok].
Qed.

(** C9: Completion is correct: the tabulator key, in every mode, replaces the line
    by the longest text that all symbols beginning with it share (where there
    is no such symbol, or the line is empty, it stays), lists exactly these
    symbols, and leaves the prompt, the line and the cursor behind it on the
    terminal; the interpreter and the device are left alone. *)
Theorem tab_completes s e : shown s e → few_symbols (interp s) → Forall line_ok (symbols (interp s)) →
  let M := matching_names (text_of e) (symbols (interp s)) in
  ∃ l s' o, shell_char 9 s = Ok true s' ∧
    shown s' (around (reverse l) [] (with_mode WAIT_NORMAL e)) ∧
    completed (text_of e) M l ∧ text_of e `prefix_of` l ∧
    console s' = console s ++ o ∧ listed o = M ∧ interp s' = interp s ∧ input s' = input s.
Proof.
  intros Hs Hfew Hok M. unfold shell_char. rewrite (bind_ok _ _ _ _ _ (special_key_none _ 9 ltac:(auto))).
  set (s1 := with_out _ _ _). assert (shown s1 (with_mode WAIT_NORMAL e)) as Hs1 by by apply mode_shown.
  destruct (tab_run s1 _ Hs1 Hfew Hok) as (l & h & o & E & Hsh & Hl & Hlist).
  rewrite <- with_out_self in E. exists l, (with_out o h s1), o.
  unfold plain_char. simpl. rewrite (bind_ok _ _ _ _ _ E). split; [done|]. split; [exact Hsh|].
  split; [exact Hl|]. split; [|by rewrite app_nil_r].
  unfold completed in Hl. destruct (bool_decide _); [by rewrite Hl|]. apply Hl, matching_common.
Qed.
End completion.

(** ** On the small shell *)

(** The functions [twice] and [twin] begin with ["t"]; the line is ["t"]. *)
Definition demo_two : fstate := set_global_syscall_list [mk_syscall 700 (chars "twin"%string) 99] demo.
Definition demo_t : sstate :=
  mk_sstate (set_line_curpos 1 (set_line_position 1 (set_line (pad [116]) (set_echo_mode 1 new_shell))))
    demo_two [9] [Text FINSH_PROMPT; Text [116]].
Definition line_t : editor := mk_editor [116] [] [] 0 WAIT_NORMAL.

Lemma demo_t_shown : shown demo_t line_t.
Proof.
  split.
  - split; try done; simpl; try lia. split; [by repeat constructor|simpl; lia].
  - split; [done|]. split; [done|]. by exists 0%nat.
Qed.

#[local] Instance line_ok_dec l : Decision (line_ok l).
Proof. unfold line_ok. apply _. Defined.

Lemma demo_symbols_ok : Forall line_ok (symbols demo_two) ∧ few_symbols demo_two.
Proof.
  split; [|by split; apply Z.ltb_lt].
  apply (bool_decide_unpack _). vm_compute. exact I.
Qed.

Lemma demo_longest : longest (chars "twi"%string) [chars "twice"%string; chars "twin"%string].
Proof.
  apply (longest_snoc (chars "twice"%string) 5 [chars "twice"%string] (chars "twin"%string)).
  - split; apply Z.leb_le; reflexivity.
  - apply (longest_one (chars "twice"%string)).
  - by apply list_elem_of_singleton.
Qed.

Lemma tab_completes_witness : ∃ s' o, shell_char 9 demo_t = Ok true s' ∧
  line (shell s') = pad (chars "twi"%string) ∧ console s' = console demo_t ++ o ∧
  listed o = [chars "twice"%string; chars "twin"%string].
Proof.
  destruct (tab_completes demo_t line_t demo_t_shown (proj2 demo_symbols_ok) (proj1 demo_symbols_ok))
    as (l & s' & o & E & Hs & Hl & _ & Hc & Ho & _).
  assert (l = chars "twi"%string) as ->.
  { exact (longest_unique _ _ _ Hl demo_longest). }
  exists s', o. split; [exact E|]. split; [exact (ed_line _ _ (proj1 Hs))|]. split; [exact Hc|]. exact Ho.
Defined.
