(* ===== verification/Rtc.v ===== *)
(** * The clock of the board ([components/rtc/ds1302z_rtc.c])

    The driver talks to the DS1302 by setting and reading three pins.  The
    chip is a class, [Ds1302]: a world that the pins change. *)

From S2P Require Import Prelude KPrintf.

(** ** The pins *)
Inductive gpio_pin : Type := DS1302CLK | DS1302DAT | DS1302RST.

(** What the driver does to a pin: make it an output or an input, set its level. *)
Inductive pin_event : Type :=
  | Init (p : gpio_pin) (output : bool)
  | Level (p : gpio_pin) (b : bool).

Class Ds1302 : Type := {
  chip : Type;
  on_pin : pin_event → chip → chip;
  dat_level : chip → bool   (* what the chip drives the data line to *)
}.

(** ** The driver *)
Section driver.
Context `{Ds1302}.

Record board : Type := mk_board { the_chip : chip; rt_interrupt_nest : Z }.
Definition R := M board.

Definition pin (e : pin_event) : R unit :=
  modify (λ s, mk_board (on_pin e (the_chip s)) (rt_interrupt_nest s)).
Definition gpio_init (p : gpio_pin) (output : bool) : R unit := pin (Init p output).
Definition gpio_input_bit_get : R bool := gets (λ s, dat_level (the_chip s)).

Definition my_gpio_bit_reset (p : gpio_pin) : R unit := pin (Level p false).
Definition my_gpio_bit_set (p : gpio_pin) : R unit := pin (Level p true).

Definition rt_interrupt_enter : R unit :=
  modify (λ s, mk_board (the_chip s) (u8 (rt_interrupt_nest s + 1))).
Definition rt_interrupt_leave : R unit :=
  modify (λ s, mk_board (the_chip s) (u8 (rt_interrupt_nest s - 1))).

Fixpoint write_bits (n : nat) (dat : Z) : R unit :=
  match n with
  | O => ret tt
  | S n =>
    (if negb (Z.land dat 1 =? 0) then my_gpio_bit_set DS1302DAT
     else my_gpio_bit_reset DS1302DAT) ;;;
    my_gpio_bit_set DS1302CLK ;;;
    my_gpio_bit_reset DS1302CLK ;;;
    write_bits n (Z.shiftr dat 1)
  end.
Definition ds1302_writebyte (dat : Z) : R unit :=
  gpio_init DS1302DAT true ;;;
  my_gpio_bit_reset DS1302CLK ;;;
  write_bits 8 dat.

Fixpoint read_bits (n : nat) (dat : Z) : R Z :=
  match n with
  | O => ret dat
  | S n =>
    let! b := gpio_input_bit_get in
    let dat := if (b : bool) then Z.lor (Z.shiftr dat 1) 0x80 else Z.shiftr dat 1 in
    my_gpio_bit_set DS1302CLK ;;;
    my_gpio_bit_reset DS1302CLK ;;;
    read_bits n dat
  end.
Definition ds1302_readbyte : R Z :=
  gpio_init DS1302DAT false ;;;
  read_bits 8 0.

Definition ds1302_read (cmd : Z) : R Z :=
  my_gpio_bit_reset DS1302RST ;;;
  my_gpio_bit_reset DS1302CLK ;;;
  my_gpio_bit_set DS1302RST ;;;
  ds1302_writebyte cmd ;;;
  let! data := ds1302_readbyte in
  my_gpio_bit_set DS1302CLK ;;;
  my_gpio_bit_reset DS1302RST ;;;
  ret data.

Definition ds1302_write (cmd data : Z) : R unit :=
  my_gpio_bit_reset DS1302RST ;;;
  my_gpio_bit_reset DS1302CLK ;;;
  my_gpio_bit_set DS1302RST ;;;
  ds1302_writebyte cmd ;;;
  ds1302_writebyte data ;;;
  my_gpio_bit_set DS1302CLK ;;;
  my_gpio_bit_reset DS1302RST.

(** [strcat] on an array of [size] bytes that holds the string [dst]. *)
Definition strcat (size : Z) (dst src : list Z) : R (list Z) :=
  if Z.of_nat (length dst + length src) <? size then ret (dst ++ src) else fail OutOfBounds.

(** [rt_sprintf(temp, "%d", n); strcat(datetime, temp)] with the 20 bytes of
    [datetime]; [decimal] is what the formatter writes. *)
Definition put_number (datetime : list Z) (n : Z) : R (list Z) := strcat 20 datetime (decimal n).

(** The two digits of a register. *)
Definition high (v : Z) : Z := Z.land (Z.shiftr v 4) 0x0f.
Definition low (v : Z) : Z := Z.land v 0x0f.
Definition put_register (datetime : list Z) (tens ones : Z) : R (list Z) :=
  let! datetime := put_number datetime tens in
  put_number datetime ones.

(** The 14 bytes that are stored in [buffer]. *)
Definition rt_rtc_read : R (list Z) :=
  rt_interrupt_enter ;;;
  let! year := ds1302_read 0x8D in
  let! month := ds1302_read 0x89 in
  let! day := ds1302_read 0x87 in
  let! hour := ds1302_read 0x85 in
  let! minute := ds1302_read 0x83 in
  let! second := ds1302_read 0x81 in
  let! datetime := strcat 20 [] [50; 48] in
  let! datetime := put_register datetime (high year) (low year) in
  let! datetime := put_register datetime (high month) (low month) in
  let! datetime := put_register datetime (high day) (low day) in
  let! datetime := put_register datetime (Z.land (Z.shiftr hour 4) 0x07) (low hour) in
  let! datetime := put_register datetime (high minute) (low minute) in
  let! datetime := put_register datetime (high second) (low second) in
  rt_interrupt_leave ;;;
  ret (take 14 (datetime ++ replicate 20 0)).

(** [((datetime[i] - 0x30) << 4) | (datetime[i + 1] - 0x30)], as a byte *)
Definition bcd_at (datetime : list Z) (i : nat) : R Z :=
  let! a := from_option OutOfBounds (datetime !! i) in
  let! b := from_option OutOfBounds (datetime !! S i) in
  ret (u8 (Z.lor (Z.shiftl (a - 0x30) 4) (b - 0x30))).

Definition rt_rtc_write (buffer : list Z) (size : Z) : R unit :=
  rt_interrupt_enter ;;;
  (if (size <=? 20) && (size <=? Z.of_nat (length buffer)) then ret tt else fail OutOfBounds) ;;;
  let datetime := take (Z.to_nat size) buffer ++ replicate (20 - Z.to_nat size) 0 in
  let! year := bcd_at datetime 2 in
  let! month := bcd_at datetime 4 in
  let! day := bcd_at datetime 6 in
  let! hour := bcd_at datetime 8 in
  let! minute := bcd_at datetime 10 in
  let! second := bcd_at datetime 12 in
  ds1302_write 0x8C year ;;;
  ds1302_write 0x88 month ;;;
  ds1302_write 0x86 day ;;;
  ds1302_write 0x84 hour ;;;
  ds1302_write 0x82 minute ;;;
  ds1302_write 0x80 second ;;;
  rt_interrupt_leave.

Definition RTC_Configuration : R Z :=
  gpio_init DS1302CLK true ;;;
  gpio_init DS1302RST true ;;;
  my_gpio_bit_set DS1302CLK ;;;
  my_gpio_bit_set DS1302RST ;;;
  ds1302_write 0x8e 0x00 ;;;
  ret 0.

Definition rt_hw_rtc_init : R unit :=
  let! r := RTC_Configuration in
  ret tt.

(** [time] is a string without its zero. *)
Definition set_time (time : list Z) : R Z :=
  if negb (Z.of_nat (length time) =? 14) then ret (-1)
  else
    rt_rtc_write time 14 ;;;
    ret 0.

(** The result, and the 14 bytes that are stored where [currenttime] points. *)
Definition apstime (currenttime : option Z) : R (Z * list Z) :=
  match currenttime with
  | None => ret (-1, [])
  | Some _ =>
    let! time := rt_rtc_read in
    ret (0, time)
  end.

(** ** The check of a time *)
Definition isspace (c : Z) : bool := (c =? 32) || ((9 <=? c) && (c <=? 13)).
Fixpoint atoi_digits (l : list Z) (n : Z) : Z :=
  match l with
  | c :: l => if (48 <=? c) && (c <=? 57) then atoi_digits l (s32 (n * 10 + (c - 48))) else n
  | [] => n
  end.
Fixpoint atoi (l : list Z) : Z :=
  match l with
  | [] => 0
  | c :: l' =>
    if isspace c then atoi l'
    else if c =? 45 then s32 (- atoi_digits l' 0)
    else if c =? 43 then atoi_digits l' 0
    else atoi_digits l 0
  end.

(** [n] bytes of the time from [i] on, as a number *)
Definition field (currenttime : list Z) (i n : nat) : R Z :=
  if Nat.leb (i + n) (length currenttime) then ret (atoi (take n (drop i currenttime)))
  else fail OutOfBounds.

Definition checktime (currenttime : list Z) : R Z :=
  let! year := field currenttime 0 4 in
  let! month := field currenttime 4 2 in
  let! day := field currenttime 6 2 in
  let! hour := field currenttime 8 2 in
  let! minute := field currenttime 10 2 in
  let! second := field currenttime 12 2 in
  if year <? 2019 then ret (-1)
  else if (month <? 1) || (12 <? month) then ret (-1)
  else if (day <? 1) || (31 <? day) then ret (-1)
  else if (hour <? 0) || (23 <? hour) then ret (-1)
  else if (minute <? 0) || (59 <? minute) then ret (-1)
  else if (second <? 0) || (59 <? second) then ret (-1)
  else ret 1.
End driver.
