(* ===== verification/RtcSpec.v ===== *)
(** * The clock keeps the time that was set

    What the chip promises about the transfers on its pins, that the driver
    makes these transfers, and that a time goes through the registers
    unchanged.  A simulated chip shows that the promises can be kept. *)

From S2P Require Import Prelude KPrintf Rtc.

(** ** Transfers *)

(** The bits of a byte in the order in which they are sent. *)
Definition bits (n : nat) (v : Z) : list bool := (λ i, Z.testbit v (Z.of_nat i)) <$> seq 0 n.

Definition clock : list pin_event := [Level DS1302CLK true; Level DS1302CLK false].
Definition send_bit (b : bool) : list pin_event := Level DS1302DAT b :: clock.
Definition send_bits (l : list bool) : list pin_event := concat (send_bit <$> l).
Definition send (v : Z) : list pin_event :=
  Init DS1302DAT true :: Level DS1302CLK false :: send_bits (bits 8 v).
Definition select : list pin_event :=
  [Level DS1302RST false; Level DS1302CLK false; Level DS1302RST true].
Definition deselect : list pin_event := [Level DS1302CLK true; Level DS1302RST false].

Definition write_cycle (cmd v : Z) : list pin_event := select ++ send cmd ++ send v ++ deselect.
(** A command to read, and [n] clock pulses. *)
Definition read_cycle (cmd : Z) (n : nat) : list pin_event :=
  select ++ send cmd ++ [Init DS1302DAT false] ++ concat (replicate n clock).

(** The bits that a register has; the register of the write protection. *)
Definition mask (cmd : Z) : Z :=
  if cmd =? 0x84 then 0x3f else if cmd =? 0x86 then 0x3f else if cmd =? 0x88 then 0x1f
  else if cmd =? 0x8c then 0xff else if cmd =? 0x8e then 0x80 else 0x7f.
Definition registers : list Z := [0x80; 0x82; 0x84; 0x86; 0x88; 0x8c; 0x8e].

Definition after `{Ds1302} (l : list pin_event) (c : chip) : chip := foldl (λ c e, on_pin e c) c l.

(** What the data sheet says: [register c cmd] is what the command [cmd]
    writes and [cmd + 1] reads.  The clock runs: at the end of each second it
    counts, which changes the registers of the time by itself.  [calm c] is a
    number of transfers that are over before the next second ends; a transfer
    takes some microseconds, and writing the seconds restarts the count of the
    second. *)
Class Ds1302Ok `{Ds1302} : Type := {
  register : chip → Z → Z;
  calm : chip → nat;
  register_byte c cmd : cmd ∈ registers → 0 ≤ register c cmd < 256;
  chip_write c cmd v a : cmd ∈ registers → 0 ≤ v < 256 → Z.land v (mask cmd) = v →
    cmd = 0x8e ∨ Z.testbit (register c 0x8e) 7 = false → a ∈ registers →
    (0 < calm c)%nat ∨ a = 0x8e →
    register (after (write_cycle cmd v) c) a = if a =? cmd then v else register c a;
  chip_read c cmd n : cmd ∈ registers → (n < 8)%nat → (0 < calm c)%nat →
    dat_level (after (read_cycle (cmd + 1) n) c) = Z.testbit (register c cmd) (Z.of_nat n);
  chip_keeps c cmd a : cmd ∈ registers → a ∈ registers → (0 < calm c)%nat →
    register (after (read_cycle (cmd + 1) 8 ++ deselect) c) a = register c a;
  write_calm c cmd v : cmd ∈ registers → 0 ≤ v < 256 →
    (calm c ≤ S (calm (after (write_cycle cmd v) c)))%nat;
  read_calm c cmd : cmd ∈ registers →
    (calm c ≤ S (calm (after (read_cycle (cmd + 1) 8 ++ deselect) c)))%nat;
  seconds_calm c v : 0 ≤ v < 0x80 → Z.testbit (register c 0x8e) 7 = false →
    (6 ≤ calm (after (write_cycle 0x80 v) c))%nat
}.

(** ** The driver makes these transfers *)
Section transfers.
Context `{Ds1302}.

Lemma after_app l1 l2 c : after (l1 ++ l2) c = after l2 (after l1 c).
Proof. unfold after. apply foldl_app. Qed.

Definition sends (m : R unit) (l : list pin_event) : Prop :=
  ∀ s, m s = Ok tt (mk_board (after l (the_chip s)) (rt_interrupt_nest s)).

Lemma sends_bind m1 m2 l1 l2 : sends m1 l1 → sends m2 l2 → sends (m1 ;;; m2) (l1 ++ l2).
Proof. intros H1 H2 s. rewrite (bind_ok _ _ _ _ _ (H1 s)), H2. by rewrite after_app. Qed.
Lemma sends_ret : sends (ret tt) [].
Proof. by intros []. Qed.
Lemma sends_pin e : sends (pin e) [e].
Proof. done. Qed.

Lemma bits_cons n v : bits (S n) v = Z.testbit v 0 :: bits n (Z.shiftr v 1).
Proof.
  unfold bits. cbn [seq fmap list_fmap]. f_equal. rewrite <- fmap_S_seq, <- list_fmap_compose.
  apply list_fmap_ext. intros i j _. unfold compose. rewrite Z.shiftr_spec by lia. f_equal. lia.
Qed.

Lemma low_bit v : negb (Z.land v 1 =? 0) = Z.testbit v 0.
Proof.
  change 1 with (Z.ones 1). rewrite Z.land_ones, Z.bit0_odd by lia. change (2 ^ 1) with 2.
  rewrite Zmod_odd. by destruct (Z.odd v).
Qed.

Lemma write_bits_sends n v : sends (write_bits n v) (send_bits (bits n v)).
Proof.
  revert v. induction n as [|n IH]; intros v; [apply sends_ret|]. rewrite bits_cons.
  unfold send_bits. cbn [fmap list_fmap concat write_bits]. rewrite low_bit.
  change (send_bit (Z.testbit v 0) ++ ?l) with
    ([Level DS1302DAT (Z.testbit v 0)] ++ [Level DS1302CLK true] ++ [Level DS1302CLK false] ++ l).
  repeat apply sends_bind; [by destruct (Z.testbit v 0)|done|done|apply IH].
Qed.

Lemma writebyte_sends v : sends (ds1302_writebyte v) (send v).
Proof.
  apply (sends_bind _ _ [_]); [done|]. apply (sends_bind _ _ [_]); [done|]. apply write_bits_sends.
Qed.

Lemma write_sends cmd v : sends (ds1302_write cmd v) (write_cycle cmd v).
Proof.
  do 3 (apply (sends_bind _ _ [_]); [done|]). apply sends_bind; [apply writebyte_sends|].
  apply sends_bind; [apply writebyte_sends|]. apply (sends_bind _ _ [_]); done.
Qed.

(** ** Reading *)
Lemma pin_run {A} e (k : unit → R A) s :
  bind (pin e) k s = k tt (mk_board (on_pin e (the_chip s)) (rt_interrupt_nest s)).
Proof. done. Qed.

(** The byte that the loop puts together. *)
Definition assemble (l : list bool) (dat : Z) : Z :=
  foldl (λ dat b, if (b : bool) then Z.lor (Z.shiftr dat 1) 0x80 else Z.shiftr dat 1) dat l.

Lemma assemble_byte r : 0 ≤ r < 256 → assemble (bits 8 r) 0 = r.
Proof.
  intros Hr. assert (Forall (λ n, assemble (bits 8 (Z.of_nat n)) 0 = Z.of_nat n) (seq 0 256)) as H1.
  { apply (bool_decide_unpack _). vm_compute. exact I. }
  rewrite Forall_forall in H1. specialize (H1 (Z.to_nat r)). rewrite Z2Nat.id in H1 by lia.
  apply H1, elem_of_seq. lia.
Qed.

Lemma read_bits_run n : ∀ c nest dat,
  read_bits n dat (mk_board c nest) =
    Ok (assemble ((λ i, dat_level (after (concat (replicate i clock)) c)) <$> seq 0 n) dat)
       (mk_board (after (concat (replicate n clock)) c) nest).
Proof.
  induction n as [|n IH]; intros c nest dat; [done|]. cbn [read_bits].
  unfold gpio_input_bit_get. rewrite bind_gets. unfold my_gpio_bit_set, my_gpio_bit_reset.
  rewrite !pin_run. rewrite IH. cbn [seq fmap list_fmap]. rewrite <- fmap_S_seq, <- list_fmap_compose. done.
Qed.
End transfers.

Section reads.
Context `{Ds1302Ok}.

(** The board with the same registers, after at most [k] transfers. *)
Definition same (k : nat) (s s' : board) : Prop :=
  rt_interrupt_nest s' = rt_interrupt_nest s ∧
  (∀ a, a ∈ registers → register (the_chip s') a = register (the_chip s) a) ∧
  (calm (the_chip s) ≤ k + calm (the_chip s'))%nat.

Lemma register_run s cmd : cmd ∈ registers → (0 < calm (the_chip s))%nat → ∃ s',
  ds1302_read (cmd + 1) s = Ok (register (the_chip s) cmd) s' ∧ same 1 s s'.
Proof.
  intros Hc Hq. unfold ds1302_read, my_gpio_bit_set, my_gpio_bit_reset, ds1302_readbyte, gpio_init.
  rewrite !pin_run, (bind_ok _ _ _ _ _ (writebyte_sends _ _)), bind_assoc, pin_run. cbn [the_chip rt_interrupt_nest].
  set (c := on_pin (Init DS1302DAT false) _).
  assert (∀ n, after (concat (replicate n clock)) c = after (read_cycle (cmd + 1) n) (the_chip s)) as Hn.
  { intros n. unfold read_cycle. by rewrite !after_app. }
  rewrite (bind_ok _ _ _ _ _ (read_bits_run _ _ _ _)). rewrite !pin_run.
  eexists. split.
  - unfold ret. f_equal. rewrite <- (assemble_byte (register (the_chip s) cmd)) by by apply register_byte.
    unfold bits. f_equal. apply list_fmap_ext. intros i j Hi. apply lookup_seq in Hi as [-> Hi].
    rewrite Hn. apply chip_read; [done|lia|done].
  - split; [done|]. cbn [the_chip]. rewrite Hn. split.
    + intros a Ha. rewrite <- (chip_keeps (the_chip s) cmd a Hc Ha Hq), after_app. done.
    + pose proof (read_calm (the_chip s) cmd Hc) as Hk. by rewrite after_app in Hk.
Qed.

Definition unlocked (s : board) : Prop := Z.testbit (register (the_chip s) 0x8e) 7 = false.

Lemma write_run s cmd v : cmd ∈ registers → 0 ≤ v < 256 → Z.land v (mask cmd) = v →
  cmd = 0x8e ∨ unlocked s → ∃ s', ds1302_write cmd v s = Ok tt s' ∧
    rt_interrupt_nest s' = rt_interrupt_nest s ∧
    (∀ a, a ∈ registers → (0 < calm (the_chip s))%nat ∨ a = 0x8e →
      register (the_chip s') a = if a =? cmd then v else register (the_chip s) a) ∧
    (calm (the_chip s) ≤ S (calm (the_chip s')))%nat ∧
    (cmd = 0x80 → v < 0x80 → unlocked s → (6 ≤ calm (the_chip s'))%nat).
Proof.
  intros Hc Hv Hm Hu. eexists. split; [apply write_sends|]. split; [done|]. split.
  { intros a Ha Hq. by apply chip_write. }
  split; [by apply write_calm|]. intros -> Hs Hul. apply seconds_calm; [lia|done].
Qed.

(** ** Digits *)
Definition digit (c : Z) : Prop := 48 ≤ c < 58.

Lemma decimal_digit d : 0 ≤ d < 10 → decimal d = [48 + d].
Proof.
  intros Hd. assert (d ∈ seqZ 0 10) as H1 by (apply elem_of_seqZ; lia).
  assert (Forall (λ d, decimal d = [48 + d]) (seqZ 0 10)) as Hall.
  { apply (bool_decide_unpack _). vm_compute. exact I. }
  by apply (proj1 (Forall_forall _ _) Hall).
Qed.

(** The register for two digits. *)
Definition bcd (a b : Z) : Z := Z.lor (Z.shiftl (a - 48) 4) (b - 48).

Lemma bcd_digits a b : digit a → digit b →
  0 ≤ bcd a b < 256 ∧ high (bcd a b) = a - 48 ∧ low (bcd a b) = b - 48.
Proof.
  unfold digit. intros Ha Hb. assert (a ∈ seqZ 48 10) as H1 by (apply elem_of_seqZ; lia).
  assert (b ∈ seqZ 48 10) as H2 by (apply elem_of_seqZ; lia). clear Ha Hb. revert b H2. revert a H1.
  change (seqZ 48 10) with [48;49;50;51;52;53;54;55;56;57].
  assert (Forall (λ a, Forall (λ b, 0 ≤ bcd a b < 256 ∧ high (bcd a b) = a - 48 ∧ low (bcd a b) = b - 48)
    [48;49;50;51;52;53;54;55;56;57]) [48;49;50;51;52;53;54;55;56;57]) as Hall.
  { apply (bool_decide_unpack _). vm_compute. exact I. }
  intros a H1 b H2. by apply (proj1 (Forall_forall _ _) (proj1 (Forall_forall _ _) Hall _ H1)).
Qed.

(** The number that two digits stand for. *)
Definition number (a b : Z) : Z := (a - 48) * 10 + (b - 48).

Lemma atoi_two a b : digit a → digit b → atoi [a; b] = number a b.
Proof.
  unfold digit. intros Ha Hb. unfold atoi, isspace. unfold number.
  replace (a =? 32) with false by lia. replace (a <=? 13) with false by lia. rewrite andb_false_r.
  replace (a =? 45) with false by lia. replace (a =? 43) with false by lia. cbn [orb atoi_digits].
  replace (48 <=? a) with true by lia. replace (a <=? 57) with true by lia.
  replace (48 <=? b) with true by lia. replace (b <=? 57) with true by lia. cbn [andb].
  rewrite (s32_small (0 * 10 + _)) by lia. rewrite s32_small; lia.
Qed.

(** Which bits the registers of two digits need. *)
Lemma bcd_mask a b : digit a → digit b →
  (number a b < 20 → Z.land (bcd a b) 0x1f = bcd a b) ∧
  (number a b < 40 → Z.land (bcd a b) 0x3f = bcd a b) ∧
  (number a b < 80 → Z.land (bcd a b) 0x7f = bcd a b ∧ Z.land (Z.shiftr (bcd a b) 4) 7 = a - 48) ∧
  Z.land (bcd a b) 0xff = bcd a b.
Proof.
  unfold digit. intros Ha Hb. assert (a ∈ seqZ 48 10) as H1 by (apply elem_of_seqZ; lia).
  assert (b ∈ seqZ 48 10) as H2 by (apply elem_of_seqZ; lia). clear Ha Hb. revert b H2. revert a H1.
  assert (Forall (λ a, Forall (λ b, (number a b < 20 → Z.land (bcd a b) 0x1f = bcd a b) ∧
    (number a b < 40 → Z.land (bcd a b) 0x3f = bcd a b) ∧
    (number a b < 80 → Z.land (bcd a b) 0x7f = bcd a b ∧ Z.land (Z.shiftr (bcd a b) 4) 7 = a - 48) ∧
    Z.land (bcd a b) 0xff = bcd a b) (seqZ 48 10)) (seqZ 48 10)) as Hall.
  { apply (bool_decide_unpack _). vm_compute. exact I. }
  intros a H1 b H2. by apply (proj1 (Forall_forall _ _) (proj1 (Forall_forall _ _) Hall _ H1)).
Qed.

Lemma same_refl s : same 0 s s.
Proof. done. Qed.
Lemma same_trans k n s1 s2 s3 : same k s1 s2 → same n s2 s3 → same (n + k) s1 s3.
Proof.
  intros (H1 & H2 & H3) (H4 & H5 & H6). split; [congruence|]. split; [|lia]. intros a Ha. rewrite H5, H2; done.
Qed.

(** ** A time in the registers *)

(** The digits of a time; the century is not stored. *)
Record time := mk_time {
  y1 : Z; y2 : Z; mo1 : Z; mo2 : Z; d1 : Z; d2 : Z;
  h1 : Z; h2 : Z; mi1 : Z; mi2 : Z; s1 : Z; s2 : Z
}.
Definition chars (x y : Z) (t : time) : list Z :=
  [x; y; y1 t; y2 t; mo1 t; mo2 t; d1 t; d2 t; h1 t; h2 t; mi1 t; mi2 t; s1 t; s2 t].
Record proper (t : time) : Prop := {
  year_digits : digit (y1 t) ∧ digit (y2 t);
  month_digits : digit (mo1 t) ∧ digit (mo2 t) ∧ number (mo1 t) (mo2 t) < 20;
  day_digits : digit (d1 t) ∧ digit (d2 t) ∧ number (d1 t) (d2 t) < 40;
  hour_digits : digit (h1 t) ∧ digit (h2 t) ∧ number (h1 t) (h2 t) < 40;
  minute_digits : digit (mi1 t) ∧ digit (mi2 t) ∧ number (mi1 t) (mi2 t) < 80;
  second_digits : digit (s1 t) ∧ digit (s2 t) ∧ number (s1 t) (s2 t) < 80
}.

(** The registers hold the time. *)
Definition stores (s : board) (t : time) : Prop :=
  Forall (λ p, register (the_chip s) p.1 = p.2)
    [(0x8c, bcd (y1 t) (y2 t)); (0x88, bcd (mo1 t) (mo2 t)); (0x86, bcd (d1 t) (d2 t));
     (0x84, bcd (h1 t) (h2 t)); (0x82, bcd (mi1 t) (mi2 t)); (0x80, bcd (s1 t) (s2 t))].

Lemma put_register_run l a b v s : digit a → digit b → v = bcd a b → (length l < 18)%nat →
  put_register l (high v) (low v) s = Ok (l ++ [a; b]) s.
Proof.
  intros Ha Hb -> Hl. destruct (bcd_digits a b Ha Hb) as (_ & Hh & Hlo). unfold digit in *.
  unfold put_register, put_number, strcat. rewrite Hh, Hlo, !decimal_digit by lia.
  replace (48 + (a - 48)) with a by lia. replace (48 + (b - 48)) with b by lia. simpl length.
  destruct (Z.ltb_spec (Z.of_nat (length l + 1)) 20); [|lia]. rewrite bind_ret, length_app. cbn [length].
  destruct (Z.ltb_spec (Z.of_nat (length l + 1 + 1)) 20); [|lia]. by rewrite <- app_assoc.
Qed.

Lemma put_register_bind {A} l a b s (k : list Z → R A) : digit a → digit b → (length l < 18)%nat →
  bind (put_register l (high (bcd a b)) (low (bcd a b))) k s = k (l ++ [a; b]) s.
Proof. intros Ha Hb Hl. apply bind_ok. by apply put_register_run. Qed.

Lemma bcd_at_run l i a b s : l !! i = Some a → l !! S i = Some b → digit a → digit b →
  bcd_at l i s = Ok (bcd a b) s.
Proof.
  intros Ea Eb Ha Hb. destruct (bcd_digits a b Ha Hb) as (Hr & _). unfold bcd_at. rewrite Ea, Eb. cbn [from_option].
  rewrite !bind_ret. fold (bcd a b). unfold u8. by rewrite wrap_small by (change (2 ^ 8) with 256; lia).
Qed.

Ltac reg := unfold registers; repeat first [left | right].

Lemma nest_run n : 0 ≤ n < 256 → u8 (u8 (n + 1) - 1) = n.
Proof. unfold u8, wrap. intros Hn. change (2 ^ 8) with 256. rewrite Zminus_mod_idemp_l, Z.mod_small; lia. Qed.

(** The registers that are read, one after the other. *)
Lemma reads_run k c cmd v s t : c = cmd + 1 → cmd ∈ registers → register (the_chip s) cmd = v →
  (k < calm (the_chip s))%nat → same k s t →
  ∃ t', (∀ A (k : Z → R A), bind (ds1302_read c) k t = k v t') ∧ same (S k) s t'.
Proof.
  intros -> Hc Hv Hk Hst. destruct (register_run t cmd Hc) as (t' & E & Ht); [destruct Hst as (_ & _ & ?); lia|].
  exists t'. split; [|by eapply (same_trans k 1)]. intros A f.
  by rewrite (bind_ok _ _ _ _ _ E), (proj1 (proj2 Hst)), Hv.
Qed.

Lemma rtc_read_run s t : proper t → stores s t → 0 ≤ rt_interrupt_nest s < 256 → (6 ≤ calm (the_chip s))%nat →
  ∃ s', rt_rtc_read s = Ok (chars 50 48 t) s' ∧ same 6 s s'.
Proof.
  intros [[? ?] (? & ? & ?) (? & ? & ?) (? & ? & Hh) (? & ? & ?) (? & ? & ?)] Hst Hn Hq.
  repeat (apply Forall_cons in Hst as [? Hst]). cbn [fst snd] in *. unfold rt_rtc_read.
  unfold rt_interrupt_enter. rewrite bind_modify. set (sa := mk_board _ _).
  destruct (reads_run 0 0x8D 0x8c _ sa sa eq_refl ltac:(reg) ltac:(eassumption) ltac:(simpl; lia) (same_refl sa)) as (sb & -> & Hb).
  destruct (reads_run 1 0x89 0x88 _ sa sb eq_refl ltac:(reg) ltac:(eassumption) ltac:(simpl; lia) Hb) as (sc & -> & Hc).
  destruct (reads_run 2 0x87 0x86 _ sa sc eq_refl ltac:(reg) ltac:(eassumption) ltac:(simpl; lia) Hc) as (sd & -> & Hd).
  destruct (reads_run 3 0x85 0x84 _ sa sd eq_refl ltac:(reg) ltac:(eassumption) ltac:(simpl; lia) Hd) as (se & -> & He).
  destruct (reads_run 4 0x83 0x82 _ sa se eq_refl ltac:(reg) ltac:(eassumption) ltac:(simpl; lia) He) as (sf & -> & Hf).
  destruct (reads_run 5 0x81 0x80 _ sa sf eq_refl ltac:(reg) ltac:(eassumption) ltac:(simpl; lia) Hf) as (sg & -> & (Hg1 & Hg2 & Hg3)).
  change (strcat 20 [] [50; 48]) with (ret (S := board) [50; 48]). rewrite bind_ret.
  assert (Z.land (Z.shiftr (bcd (h1 t) (h2 t)) 4) 7 = high (bcd (h1 t) (h2 t))) as ->.
  { destruct (bcd_digits (h1 t) (h2 t)) as (_ & -> & _); [done..|].
    by apply (bcd_mask (h1 t) (h2 t)); [done..|lia]. }
  rewrite !put_register_bind by first [done | simpl; lia].
  unfold rt_interrupt_leave. rewrite bind_modify. eexists. split; [reflexivity|]. split; [|done]. simpl. rewrite Hg1.
  by apply nest_run.
Qed.

Lemma bcd_bind {A} l i a b s (k : Z → R A) : l !! i = Some a → l !! S i = Some b → digit a → digit b →
  bind (bcd_at l i) k s = k (bcd a b) s.
Proof. intros Ea Eb Ha Hb. apply bind_ok. by apply bcd_at_run. Qed.

(** The contents of the registers while [k] transfers are over in time, and how
    a write changes them. *)
Definition holds (k : nat) (n : Z) (f : Z → Z) (s : board) : Prop :=
  rt_interrupt_nest s = n ∧ Z.testbit (f 0x8e) 7 = false ∧ (k ≤ calm (the_chip s))%nat ∧
  ∀ a, a ∈ registers → register (the_chip s) a = f a.
Definition storable (cmd v : Z) : Prop :=
  cmd ∈ registers ∧ cmd ≠ 0x8e ∧ 0 ≤ v < 256 ∧ Z.land v (mask cmd) = v.

Lemma writes_run k n f s cmd v : storable cmd v → holds (S k) n f s →
  ∃ s', (∀ A (k : unit → R A), bind (ds1302_write cmd v) k s = k tt s') ∧
    holds k n (λ a, if a =? cmd then v else f a) s' ∧ (cmd = 0x80 → (6 ≤ calm (the_chip s'))%nat).
Proof.
  intros (Hc & Hne & Hv & Hm) (Hn & Hu & Hq & Hf).
  assert (unlocked s) as Hul by (unfold unlocked; rewrite Hf by (unfold registers; set_solver); done).
  destruct (write_run s cmd v Hc Hv Hm) as (s' & E & Hn' & Hr & Hq' & Hs); [by right|].
  exists s'. split; [intros A h; by rewrite (bind_ok _ _ _ _ _ E)|]. split.
  - split; [congruence|]. split; [by destruct (Z.eqb_spec 0x8e cmd)|]. split; [lia|].
    intros a Ha. rewrite Hr by (done || left; lia). destruct (a =? cmd); [done|]. by apply Hf.
  - intros ->. apply Hs; [done| |done]. change (mask 0x80) with (Z.ones 7) in Hm.
    rewrite Z.land_ones in Hm by lia. pose proof (Z.mod_pos_bound v (2 ^ 7) ltac:(done)). lia.
Qed.

Lemma storable_digits cmd a b k : cmd ∈ registers → cmd ≠ 0x8e → digit a → digit b → number a b < k →
  (cmd, k) ∈ [(0x8c, 100); (0x88, 20); (0x86, 40); (0x84, 40); (0x82, 80); (0x80, 80)] →
  storable cmd (bcd a b).
Proof.
  intros Hc Hne Ha Hb Hk Hin. split; [done|]. split; [done|]. split; [by apply bcd_digits|].
  destruct (bcd_mask a b Ha Hb) as (H1 & H2 & H3 & H4).
  repeat (apply elem_of_cons in Hin as [[= -> ->]|Hin]; [by auto || by apply H3|]).
  by apply not_elem_of_nil in Hin.
Qed.

Lemma rtc_write_run s x y t : proper t → unlocked s → 0 ≤ rt_interrupt_nest s < 256 → (6 ≤ calm (the_chip s))%nat →
  ∃ s', rt_rtc_write (chars x y t) 14 s = Ok tt s' ∧ stores s' t ∧
    rt_interrupt_nest s' = rt_interrupt_nest s ∧ (6 ≤ calm (the_chip s'))%nat.
Proof.
  intros [[? ?] (? & ? & ?) (? & ? & ?) (? & ? & Hh) (? & ? & ?) (? & ? & ?)] Hu Hn Hq.
  unfold rt_rtc_write, rt_interrupt_enter. rewrite bind_modify. set (sa := mk_board _ _).
  change (14 <=? 20) with true. cbn [chars length]. change (14 <=? Z.of_nat 14) with true. cbn [andb].
  rewrite bind_ret. cbv zeta.
  rewrite (bcd_bind _ 2 (y1 t) (y2 t)), (bcd_bind _ 4 (mo1 t) (mo2 t)), (bcd_bind _ 6 (d1 t) (d2 t)),
    (bcd_bind _ 8 (h1 t) (h2 t)), (bcd_bind _ 10 (mi1 t) (mi2 t)), (bcd_bind _ 12 (s1 t) (s2 t)) by done.
  assert (holds 6 (u8 (rt_interrupt_nest s + 1)) (register (the_chip s)) sa) as Ha by done.
  destruct (writes_run 5 _ _ sa 0x8C (bcd (y1 t) (y2 t))
    ltac:(apply (storable_digits _ _ _ 100); [reg|done|done|done|unfold number, digit in *; lia|reg]) Ha) as (sb & -> & Hb & _).
  destruct (writes_run 4 _ _ sb 0x88 (bcd (mo1 t) (mo2 t))
    ltac:(apply (storable_digits _ _ _ 20); [reg|done|done|done|done|reg]) Hb) as (sc & -> & Hc & _).
  destruct (writes_run 3 _ _ sc 0x86 (bcd (d1 t) (d2 t))
    ltac:(apply (storable_digits _ _ _ 40); [reg|done|done|done|done|reg]) Hc) as (sd & -> & Hd & _).
  destruct (writes_run 2 _ _ sd 0x84 (bcd (h1 t) (h2 t))
    ltac:(apply (storable_digits _ _ _ 40); [reg|done|done|done|done|reg]) Hd) as (se & -> & He & _).
  destruct (writes_run 1 _ _ se 0x82 (bcd (mi1 t) (mi2 t))
    ltac:(apply (storable_digits _ _ _ 80); [reg|done|done|done|done|reg]) He) as (sf & -> & Hf & _).
  destruct (writes_run 0 _ _ sf 0x80 (bcd (s1 t) (s2 t))
    ltac:(apply (storable_digits _ _ _ 80); [reg|done|done|done|done|reg]) Hf) as (sg & -> & (Hg & _ & _ & Hr) & Hs).
  eexists. split; [reflexivity|]. split; [|split; [simpl; rewrite Hg; by apply nest_run|by apply Hs]].
  unfold stores. repeat apply Forall_cons_2; [..|by apply Forall_nil_2]; cbn [fst snd]; (rewrite Hr by reg; reflexivity).
Qed.

(** ** Valid times *)
Lemma chars_of l : length l = 14%nat → ∃ x y t, l = chars x y t.
Proof.
  intros Hl. destruct l as [|x [|y [|a [|b [|c [|d [|e [|f [|g [|h [|i [|j [|k [|m l]]]]]]]]]]]]]]; try done.
  destruct l; [|done]. by exists x, y, (mk_time a b c d e f g h i j k m).
Qed.

Lemma field_two l i a b s : take 2 (drop i l) = [a; b] → (i + 2 ≤ length l)%nat → digit a → digit b →
  field l i 2 s = Ok (number a b) s.
Proof.
  intros Ht Hl Ha Hb. unfold field. rewrite (proj2 (Nat.leb_le _ _)) by done. by rewrite Ht, atoi_two.
Qed.
Lemma field_bind {A} l i a b s (k : Z → R A) : take 2 (drop i l) = [a; b] → (i + 2 ≤ length l)%nat →
  digit a → digit b → bind (field l i 2) k s = k (number a b) s.
Proof. intros Ht Hl Ha Hb. apply bind_ok. by apply field_two. Qed.

(** The months have 1 to 12, the days 1 to 31, and so on. *)
Lemma checktime_proper x y t s : Forall digit (chars x y t) → checktime (chars x y t) s = Ok 1 s → proper t.
Proof.
  unfold chars at 1. intros Hd. do 2 apply Forall_inv_tail in Hd.
  repeat (apply Forall_cons in Hd as [? Hd]). unfold checktime.
  rewrite (bind_ok (field _ 0 4) _ _ (atoi [x; y; y1 t; y2 t]) s) by done.
  rewrite (field_bind _ 4 (mo1 t) (mo2 t)), (field_bind _ 6 (d1 t) (d2 t)), (field_bind _ 8 (h1 t) (h2 t)),
    (field_bind _ 10 (mi1 t) (mi2 t)), (field_bind _ 12 (s1 t) (s2 t)) by first [done | cbn; lia].
  destruct (_ <? 2019); [done|]. destruct (_ || _) eqn:E1; [done|]. destruct (_ || _) eqn:E2 in |- *; [done|].
  destruct (_ || _) eqn:E3 in |- *; [done|]. destruct (_ || _) eqn:E4 in |- *; [done|].
  destruct (_ || _) eqn:E5 in |- *; [done|]. intros _.
  apply orb_false_iff in E1 as [_ E1%Z.ltb_ge], E2 as [_ E2%Z.ltb_ge], E3 as [_ E3%Z.ltb_ge],
    E4 as [_ E4%Z.ltb_ge], E5 as [_ E5%Z.ltb_ge]. split; split_and!; done || lia.
Qed.

Lemma hw_init_run s : ∃ s', rt_hw_rtc_init s = Ok tt s' ∧ unlocked s' ∧
  rt_interrupt_nest s' = rt_interrupt_nest s.
Proof.
  unfold rt_hw_rtc_init, RTC_Configuration, gpio_init, my_gpio_bit_set. rewrite !bind_assoc, pin_run, !bind_assoc, pin_run.
  rewrite !bind_assoc, pin_run, !bind_assoc, pin_run, bind_assoc. set (sa := mk_board _ _).
  destruct (write_run sa 0x8e 0) as (s' & E & Hn & Hr & _); [reg|done|done|by left|].
  rewrite (bind_ok _ _ _ _ _ E). exists s'. split; [done|]. split; [|done].
  unfold unlocked. rewrite Hr; [done|reg|by right].
Qed.

(** C22: The clock of the board keeps the time.  The start takes the write
    protection away.  Then a time of 14 digits of this century that [checktime]
    accepts is set, and [apstime] reads the same digits back directly after it,
    provided that the clock does not count a second during the six transfers of
    [set_time] ([minute_lost] shows what happens when it does); the transfers of
    [apstime] are in the second that [set_time] has begun.  The century is not
    stored: what is read begins with 20. *)
Theorem set_time_reads_back time p :
  length time = 14%nat → Forall digit time → take 2 time = [50; 48] →
  (∀ s, checktime time s = Ok 1 s) →
  (∀ s, ∃ s', rt_hw_rtc_init s = Ok tt s' ∧ unlocked s' ∧ rt_interrupt_nest s' = rt_interrupt_nest s) ∧
  (∀ s, unlocked s → 0 ≤ rt_interrupt_nest s < 256 → (6 ≤ calm (the_chip s))%nat →
    ∃ s1 s2, set_time time s = Ok 0 s1 ∧ apstime (Some p) s1 = Ok (0, time) s2 ∧
      rt_interrupt_nest s2 = rt_interrupt_nest s).
Proof.
  intros Hl Hd Hc Hv. split; [exact hw_init_run|]. intros s Hu Hn Hq.
  destruct (chars_of time Hl) as (x & y & t & ->). cbn [chars take] in Hc. simplify_eq.
  pose proof (checktime_proper _ _ _ s Hd (Hv s)) as Ht.
  destruct (rtc_write_run s 50 48 t Ht Hu Hn Hq) as (sb & Eb & Hst & Hnb & Hqb).
  destruct (rtc_read_run sb t Ht Hst) as (sc & Ec & [Hnc _]); [by rewrite Hnb|done|].
  exists sb, sc. split; [|split].
  - unfold set_time. cbn [chars length]. change (negb (Z.of_nat 14 =? 14)) with false. cbv iota.
    fold (chars 50 48 t). by rewrite (bind_ok _ _ _ _ _ Eb).
  - unfold apstime. by rewrite (bind_ok _ _ _ _ _ Ec).
  - congruence.
Qed.
End reads.

(** ** A simulated chip *)

(** The registers, the pins, the bits received since the chip was selected,
    the bit that it sends, and how many transfers are left in this second. *)
Record sim := mk_sim {
  sim_register : Z → Z;
  sim_rst : bool;
  sim_dat : bool;
  received : list bool;
  sending : bool;
  left_over : nat
}.
Definition value (l : list bool) : Z := foldr (λ b v, 2 * v + Z.b2z b) 0 l.

Definition sim_store (c : sim) (cmd v : Z) : Z → Z :=
  if (cmd =? 0x8e) || negb (Z.testbit (sim_register c 0x8e) 7)
  then (λ a, if a =? cmd then v else sim_register c a) else sim_register c.

(** The next number of two digits, and whether it begins again at 0. *)
Definition count (last v : Z) : Z * bool :=
  if v =? last then (0, true) else if Z.land v 0x0f =? 9 then (v + 7, false) else (v + 1, false).
(** A second is over (the day does not end here). *)
Definition tick (r : Z → Z) : Z → Z :=
  let s := count 0x59 (r 0x80) in
  let m := if s.2 then count 0x59 (r 0x82) else (r 0x82, false) in
  let h := if m.2 then count 0x23 (r 0x84) else (r 0x84, false) in
  λ a, if a =? 0x80 then s.1 else if a =? 0x82 then m.1 else if a =? 0x84 then h.1 else r a.

(** A second takes ten transfers of this chip. *)
Definition sim_pin (e : pin_event) (c : sim) : sim :=
  match e with
  | Init _ _ => c
  | Level DS1302RST true =>
    if sim_rst c then c
    else match left_over c with
         | O => mk_sim (tick (sim_register c)) true (sim_dat c) [] (sending c) 9
         | S n => mk_sim (sim_register c) true (sim_dat c) [] (sending c) n
         end
  | Level DS1302RST false => mk_sim (sim_register c) false (sim_dat c) [] (sending c) (left_over c)
  | Level DS1302DAT b => mk_sim (sim_register c) (sim_rst c) b (received c) (sending c) (left_over c)
  | Level DS1302CLK true =>
    if sim_rst c then
      let l := received c ++ [sim_dat c] in
      let cmd := value (take 8 l) in
      let store := bool_decide (length l = 16%nat) && Z.even cmd in
      mk_sim (if store then sim_store c cmd (value (drop 8 l)) else sim_register c) true (sim_dat c) l (sending c)
        (if store && (cmd =? 0x80) then 9 else left_over c)
    else c
  | Level DS1302CLK false =>
    let n := length (received c) in
    if sim_rst c && Nat.leb 8 n then
      mk_sim (sim_register c) true (sim_dat c) (received c)
        (Z.testbit (u8 (sim_register c (value (take 8 (received c)) - 1))) (Z.of_nat (n - 8))) (left_over c)
    else c
  end.

#[export] Instance sim_chip : Ds1302 := {
  chip := sim; on_pin := sim_pin; dat_level := sending
}.

Lemma value_byte v : 0 ≤ v < 256 → value (bits 8 v) = v.
Proof.
  intros Hv. assert (Forall (λ n, value (bits 8 n) = n) (seqZ 0 256)) as Hall.
  { apply (bool_decide_unpack _). vm_compute. exact I. }
  apply (proj1 (Forall_forall _ _) Hall). apply elem_of_seqZ. lia.
Qed.

(** The registers when the chip is selected. *)
Definition begun (c : sim) : sim :=
  match left_over c with
  | O => mk_sim (tick (sim_register c)) false (sim_dat c) (received c) (sending c) 9
  | S n => mk_sim (sim_register c) false (sim_dat c) (received c) (sending c) n
  end.

Lemma sim_write cmd v c : cmd ∈ registers → 0 ≤ v < 256 →
  let c' := after (write_cycle cmd v) c in
  (∀ a, sim_register c' a = sim_store (begun c) cmd v a) ∧
  left_over c' = if cmd =? 0x80 then 9%nat else left_over (begun c).
Proof.
  intros Hc Hv c'. rewrite <- (value_byte v Hv). unfold c', write_cycle, send.
  change (bits 8 v) with ((λ i, Z.testbit v (Z.of_nat i)) <$> seq 0 8).
  repeat (apply elem_of_cons in Hc as [->|Hc]; [destruct c as [r rst dat l b [|n]]; by split|]).
  by apply not_elem_of_nil in Hc.
Qed.

Lemma sim_read cmd n c : cmd ∈ registers → (n < 8)%nat →
  sending (after (read_cycle (cmd + 1) n) c) = Z.testbit (u8 (sim_register (begun c) cmd)) (Z.of_nat n).
Proof.
  intros Hc Hn. do 8 (destruct n as [|n];
    [repeat (apply elem_of_cons in Hc as [->|Hc]; [destruct c as [r rst dat l b [|k]]; reflexivity|]); by apply not_elem_of_nil in Hc|]).
  lia.
Qed.

Lemma sim_keeps cmd c : cmd ∈ registers →
  let c' := after (read_cycle (cmd + 1) 8 ++ deselect) c in
  sim_register c' = sim_register (begun c) ∧ left_over c' = left_over (begun c).
Proof.
  intros Hc. repeat (apply elem_of_cons in Hc as [->|Hc]; [destruct c as [r rst dat l b [|n]]; by split|]).
  by apply not_elem_of_nil in Hc.
Qed.

(** While transfers are left, selecting the chip changes no register, and never
    that of the write protection. *)
Lemma begun_register c a : (0 < left_over c)%nat ∨ a = 0x8e → sim_register (begun c) a = sim_register c a.
Proof. unfold begun. destruct (left_over c); [|done]. intros [?| ->]; [lia|done]. Qed.
Lemma begun_left c : (left_over c ≤ S (left_over (begun c)))%nat.
Proof. unfold begun. destruct (left_over c); simpl; lia. Qed.

#[export] Instance sim_ok : Ds1302Ok.
Proof.
  refine {| register := λ c cmd, u8 (sim_register c cmd); calm := λ c, (left_over c `min` 9)%nat |}.
  - intros c cmd _. apply (wrap_range 8). lia.
  - intros c cmd v a Hc Hv _ Hu _ Hq. destruct (sim_write cmd v c Hc Hv) as [-> _]. unfold sim_store.
    rewrite (begun_register c 0x8e) by by right.
    assert ((cmd =? 0x8e) || negb (Z.testbit (sim_register c 0x8e) 7) = true) as ->.
    { destruct Hu as [-> | Hu]; [done|]. unfold u8, wrap in Hu.
      rewrite Z.mod_pow2_bits_low in Hu by lia. rewrite Hu. apply orb_true_r. }
    destruct (a =? cmd); [unfold u8; by rewrite wrap_small|]. rewrite begun_register; [done|]. destruct Hq; [left; lia|by right].
  - intros c cmd n Hc Hn Hq. rewrite <- begun_register by (left; lia). by apply sim_read.
  - intros c cmd a Hc _ Hq. destruct (sim_keeps cmd c Hc) as [-> _]. by rewrite begun_register by (left; lia).
  - intros c cmd v Hc Hv. destruct (sim_write cmd v c Hc Hv) as [_ ->]. pose proof (begun_left c). case_match; lia.
  - intros c cmd Hc. destruct (sim_keeps cmd c Hc) as [_ ->]. pose proof (begun_left c). lia.
  - intros c v Hv _. destruct (sim_write 0x80 v c) as [_ ->]; [by left|lia|]. simpl. lia.
Defined.

(** A fresh chip, whose registers and bits are arbitrary. *)
Definition demo_board : board (H := sim_chip) := mk_board (mk_sim (λ _, 0xff) true true [] false 9) 0.
Definition demo_ready : board (H := sim_chip) :=
  match rt_hw_rtc_init demo_board with Ok _ s => s | Fault _ => demo_board end.

(** ["20231231235958"] *)
Definition demo_time : list Z := [50; 48; 50; 51; 49; 50; 51; 49; 50; 51; 53; 57; 53; 56].

Lemma set_time_reads_back_witness : ∃ s1 s2,
  set_time demo_time demo_ready = Ok 0 s1 ∧ apstime (Some 1) s1 = Ok (0, demo_time) s2.
Proof.
  destruct (set_time_reads_back (H0 := sim_ok) demo_time 1) as [_ Hset].
  - reflexivity.
  - unfold digit. repeat constructor; lia.
  - reflexivity.
  - intros s. reflexivity.
  - destruct (Hset demo_ready) as (s1 & s2 & H1 & H2 & _).
    + reflexivity.
    + split; [discriminate|reflexivity].
    + apply (bool_decide_unpack _). vm_compute. exact I.
    + exists s1, s2. split; [exact H1|exact H2].
Defined.

(** ** What the code does *)

(** What is read after a time was set on a chip whose registers are [r] and in
    whose second [n] transfers are left. *)
Definition set_and_read (r : Z → Z) (n : nat) (time : list Z) : option (Z * list Z) :=
  match (set_time time ;;; apstime (Some 1)) (mk_board (mk_sim r false false [] false n) 0) with
  | Ok r _ => Some r
  | Fault _ => None
  end.

(** The century is lost: 1999 is read back as 2099. *)
Example century_lost :
  set_and_read (λ _, 0) 9 [49; 57; 57; 57; 49; 50; 51; 49; 50; 51; 53; 57; 53; 56] =
  Some (0, [50; 48; 57; 57; 49; 50; 51; 49; 50; 51; 53; 57; 53; 56]).
Proof. vm_compute. reflexivity. Qed.

(** The seconds are written last, while the clock runs: when its old seconds are
    59 and the second ends after the minutes are written, they are counted up.
    10:20:30 becomes 10:21:30. *)
Example minute_lost :
  let old a := if a =? 0x80 then 0x59 else 0 in
  let time := [50; 48; 50; 51; 49; 50; 51; 49; 49; 48; 50; 48; 51; 48] in
  set_and_read old 9 time = Some (0, time) ∧
  set_and_read old 5 time = Some (0, [50; 48; 50; 51; 49; 50; 51; 49; 49; 48; 50; 49; 51; 48]).
Proof. vm_compute. done. Qed.

(** A data line that nobody drives reads as ones, because of its pull-up: the
    text is longer than the array. *)
#[local] Instance no_chip : Ds1302 := {| chip := unit; on_pin := λ _ c, c; dat_level := λ _, true |}.
Example no_chip_overflows : rt_rtc_read (mk_board (tt : chip) 0) = Fault OutOfBounds.
Proof. vm_compute. reflexivity. Qed.

(** [set_time] takes characters that are no digits, and [checktime] the 31st
    of February. *)
Example february_31 : ∀ s : board, checktime [50; 48; 50; 51; 48; 50; 51; 49; 48; 48; 48; 48; 48; 48] s = Ok 1 s.
Proof. reflexivity. Qed.
