(* ===== verification/DfsPath.v ===== *)
(** * Paths ([dfs_normalize_path] and [dfs_subdir] of [components/dfs/src/dfs.c])

    The path is rewritten in its buffer: [src] reads it, [dst] writes the
    normalised path into the part that was read.  The second half says what a
    path stands for, and proves that the code computes it. *)

From S2P Require Import Prelude.

(** ** The buffer *)

(** The buffer from [fullpath] on, and the two pointers as offsets. *)
Record walk := mk_walk { buf : list Z; src : Z; dst : Z }.
Definition N := M walk.

Definition load (i : Z) : N Z :=
  let! b := gets buf in
  if i <? 0 then fail OutOfBounds else from_option OutOfBounds (b !! Z.to_nat i).
Definition store (i c : Z) : N unit :=
  let! b := gets buf in
  if (0 <=? i) && (i <? Z.of_nat (length b))
  then modify (λ s, mk_walk (<[Z.to_nat i := c]> b) (src s) (dst s)) else fail OutOfBounds.
Definition src_add (n : Z) : N unit := modify (λ s, mk_walk (buf s) (src s + n) (dst s)).
Definition dst_add (n : Z) : N unit := modify (λ s, mk_walk (buf s) (src s) (dst s + n)).

Definition slash : Z := 47.
Definition dot : Z := 46.

(** [src[n]] *)
Definition peek (n : Z) : N Z := let! i := gets src in load (i + n).
(** [*src++], [*dst++ = c] *)
Definition next_char : N Z := let! c := peek 0 in src_add 1 ;;; ret c.
Definition put_char (c : Z) : N unit := let! i := gets dst in store i c ;;; dst_add 1.

(** [while (src[0] == '/') src++;]: the second test of the loop, for the zero,
    is implied *)
Fixpoint skip_slashes (fuel : nat) : N unit :=
  match fuel with
  | O => fail OutOfFuel
  | S fuel =>
    let! c := peek 0 in
    when c =? slash then (src_add 1 ;;; skip_slashes fuel)
  end.

(** [while (c = *src++, c != '\0' && c != '/') *dst++ = c;]: the last [c] *)
Fixpoint copy_component (fuel : nat) : N Z :=
  match fuel with
  | O => fail OutOfFuel
  | S fuel =>
    let! c := next_char in
    if negb (c =? 0) && negb (c =? slash) then put_char c ;;; copy_component fuel else ret c
  end.

(** [while (c == '/') c = *src++;] *)
Fixpoint eat_slashes (fuel : nat) (c : Z) : N unit :=
  match fuel with
  | O => fail OutOfFuel
  | S fuel => when c =? slash then (let! c := next_char in eat_slashes fuel c)
  end.

(** [while (dst0 < dst && dst[-1] != '/') dst--;] *)
Fixpoint back_component (fuel : nat) : N unit :=
  match fuel with
  | O => fail OutOfFuel
  | S fuel =>
    let! d := gets dst in
    when 0 <? d then
      (let! c := load (d - 1) in
       when negb (c =? slash) then (dst_add (-1) ;;; back_component fuel))
  end.

(** The label [up_one]; whether the path is still below the root. *)
Definition up_one (fuel : nat) : N bool :=
  dst_add (-1) ;;;
  let! d := gets dst in
  if d <? 0 then ret false
  else
    back_component fuel ;;;
    ret true.

(** What the first part of the loop finds at [src]. *)
Inductive at_dot : Type := DotEnd | DotSlash | UpEnd | UpSlash | Name.
Definition look : N at_dot :=
  let! c := peek 0 in
  if c =? dot then
    let! c1 := peek 1 in
    if c1 =? 0 then ret DotEnd
    else if c1 =? slash then ret DotSlash
    else if c1 =? dot then
      let! c2 := peek 2 in
      if c2 =? 0 then ret UpEnd else if c2 =? slash then ret UpSlash else ret Name
    else ret Name
  else ret Name.

(** The second part: a component and the slashes behind it; whether the loop
    goes on. *)
Definition component (fuel : nat) : N bool :=
  let! c := copy_component fuel in
  if c =? slash then
    put_char slash ;;;
    eat_slashes fuel c ;;;
    src_add (-1) ;;;
    ret true
  else ret false.

(** The loop, [fuel] being enough for the loops inside; [false] where the path
    leaves the root. *)
Fixpoint normalize_loop (fuel n : nat) : N bool :=
  match n with
  | O => fail OutOfFuel
  | S n =>
    let! found := look in
    match found with
    | DotSlash =>
      src_add 2 ;;;
      skip_slashes fuel ;;;
      normalize_loop fuel n
    | UpEnd =>
      src_add 2 ;;;
      let! ok := up_one fuel in
      if (ok : bool) then normalize_loop fuel n else ret false
    | UpSlash =>
      src_add 3 ;;;
      skip_slashes fuel ;;;
      let! ok := up_one fuel in
      if (ok : bool) then normalize_loop fuel n else ret false
    | DotEnd | Name =>
      (match found with DotEnd => src_add 1 | _ => ret tt end) ;;;
      let! more := component fuel in
      if (more : bool) then normalize_loop fuel n else ret true
    end
  end.

(** What follows the loop. *)
Definition finish : N unit :=
  let! d := gets dst in
  store d 0 ;;;
  dst_add (-1) ;;;
  let! d := gets dst in
  (when negb (d =? 0) then
     (let! c := load d in
      when c =? slash then store d 0)) ;;;
  let! c := load 0 in
  when c =? 0 then
    (store 0 slash ;;;
     store 1 0).

(** A string up to its zero. *)
Fixpoint c_str (l : list Z) : list Z :=
  match l with
  | c :: l => if c =? 0 then [] else c :: c_str l
  | [] => []
  end.

(** The normalisation of the string [path]; [None] where the code returns a
    null pointer. *)
Definition normalize (path : list Z) : res walk (option (list Z)) :=
  let fuel := S (S (length path)) in
  (let! ok := normalize_loop fuel fuel in
   if (ok : bool) then
     finish ;;;
     let! b := gets buf in
     ret (Some (c_str b))
   else ret None) (mk_walk (path ++ [0]) 0 0).

(** [dfs_subdir]: the offset in [filename], or none. *)
Definition dfs_subdir (directory filename : list Z) : res unit (option Z) :=
  if Z.of_nat (length directory) =? Z.of_nat (length filename) then Ok None tt
  else
    let dir := Z.of_nat (length directory) in
    if Z.of_nat (length filename) <? dir then Fault OutOfBounds
    else
      match (filename ++ [0]) !! Z.to_nat dir with
      | Some c => Ok (Some (if negb (c =? slash) && negb (dir =? 0) then dir - 1 else dir)) tt
      | None => Fault OutOfBounds
      end.

(** ** What a path stands for *)

(** The components of a path. *)
Fixpoint pieces (l : list Z) : list (list Z) :=
  match l with
  | [] => [[]]
  | c :: l =>
    if c =? slash then [] :: pieces l
    else match pieces l with p :: ps => (c :: p) :: ps | [] => [[c]] end
  end.
Definition components (l : list Z) : list (list Z) := filter (λ p, p ≠ []) (pieces l).

(** The directory that they lead to, below the one whose components are [st],
    the last one first; none where they leave the root. *)
Fixpoint resolve (st : list (list Z)) (cs : list (list Z)) : option (list (list Z)) :=
  match cs with
  | [] => Some (reverse st)
  | c :: cs =>
    if decide (c = [dot]) then resolve st cs
    else if decide (c = [dot; dot]) then
      match st with [] => None | _ :: st => resolve st cs end
    else resolve (c :: st) cs
  end.

Definition render (cs : list (list Z)) : list Z :=
  match cs with [] => [slash] | _ => concat (cons slash <$> cs) end.

(** ** Components *)
Lemma pieces_ne l : ∃ p ps, pieces l = p :: ps.
Proof.
  induction l as [|c l (p & ps & IH)]; simpl; [by eexists _, _|].
  destruct (c =? slash); [by eexists _, _|]. rewrite IH. by eexists _, _.
Qed.

Lemma pieces_app c r : slash ∉ c → pieces (c ++ slash :: r) = c :: pieces r.
Proof.
  induction c as [|x c IH]; [done|]. intros [Hx Hc]%not_elem_of_cons. simpl.
  destruct (Z.eqb_spec x slash); [by subst|]. by rewrite IH.
Qed.
Lemma pieces_one c : slash ∉ c → pieces c = [c].
Proof.
  induction c as [|x c IH]; [done|]. intros [Hx Hc]%not_elem_of_cons. simpl.
  destruct (Z.eqb_spec x slash); [by subst|]. by rewrite IH.
Qed.

Lemma components_slashes k r : components (replicate k slash ++ r) = components r.
Proof.
  induction k as [|k IH]; [done|]. unfold components in *. simpl. by rewrite filter_cons_False by naive_solver.
Qed.
Lemma components_app c r : slash ∉ c → c ≠ [] → components (c ++ slash :: r) = c :: components r.
Proof. intros Hc Hne. unfold components. rewrite pieces_app by done. by rewrite filter_cons_True. Qed.
Lemma components_one c : slash ∉ c → c ≠ [] → components c = [c].
Proof. intros Hc Hne. unfold components. rewrite pieces_one by done. by rewrite filter_cons_True. Qed.

(** A path that begins with no slash: nothing, a last component, or a
    component and slashes. *)
Lemma path_cases r : head r ≠ Some slash → r = [] ∨ (r ≠ [] ∧ slash ∉ r) ∨
  ∃ c k r', r = c ++ slash :: replicate k slash ++ r' ∧ slash ∉ c ∧ c ≠ [] ∧ head r' ≠ Some slash.
Proof.
  intros Hr. assert (∀ r, ∃ k r', r = replicate k slash ++ r' ∧ head r' ≠ Some slash) as Hs.
  { induction r0 as [|x r0 (k & r' & -> & Hh)]; [by exists 0%nat, []|].
    destruct (decide (x = slash)) as [->|]; [by exists (S k), r'|].
    exists 0%nat, (x :: replicate k slash ++ r'). naive_solver. }
  destruct (decide (slash ∈ r)) as [Hin|]; [|destruct r; [by left|right; left; done]].
  right. right. apply list_elem_of_split_l in Hin as (c & r1 & -> & Hc). destruct (Hs r1) as (k & r' & -> & Hh).
  exists c, k, r'. split_and!; [done|done| |done]. by intros ->.
Qed.

(** ** The loops *)

(** [dst] is behind the text [out], and [src] at [rest], [g] bytes further. *)
Definition at_ (out : list Z) (g : nat) (rest : list Z) (s : walk) : Prop :=
  ∃ junk, length junk = g ∧ buf s = out ++ junk ++ rest ∧
    dst s = Z.of_nat (length out) ∧ src s = Z.of_nat (length out + g).

Lemma wp_load i c Q s : buf s !! Z.to_nat i = Some c → 0 ≤ i → Q c s → wp (load i) Q s.
Proof.
  intros Hi H0 HQ. unfold load. rewrite wp_bind, wp_gets. replace (i <? 0) with false by lia. by rewrite Hi.
Qed.

Lemma at_lookup out g rest s n c : at_ out g rest s → rest !! n = Some c →
  buf s !! Z.to_nat (src s + Z.of_nat n) = Some c.
Proof.
  intros (junk & <- & -> & _ & ->) Hc. rewrite lookup_app_r by lia. rewrite lookup_app_r by lia.
  rewrite <- Hc. f_equal. lia.
Qed.

Lemma wp_peek out g rest n c Q s : at_ out g rest s → 0 ≤ n → rest !! Z.to_nat n = Some c → Q c s →
  wp (peek n) Q s.
Proof.
  intros Hat Hn Hc HQ. unfold peek. rewrite wp_bind, wp_gets. pose proof (at_lookup _ _ _ _ _ _ Hat Hc) as Hl.
  rewrite Z2Nat.id in Hl by done. eapply wp_load; [exact Hl| |done]. destruct Hat as (? & _ & _ & _ & ->). lia.
Qed.

Lemma at_skip out g a rest s Q : at_ out g (a ++ rest) s →
  (∀ s', at_ out (g + length a) rest s' → Q tt s') → wp (src_add (Z.of_nat (length a))) Q s.
Proof.
  intros (junk & <- & Hb & Hd & Hs) HQ. apply HQ. exists (junk ++ a). rewrite length_app. split; [done|].
  simpl. rewrite Hb, Hs, <- app_assoc. split_and!; [done|done|lia].
Qed.

(** [c] was read last. *)
Definition read_last (c : Z) (s : walk) : Prop := buf s !! Z.to_nat (src s - 1) = Some c.

Lemma wp_next out g c rest Q s : at_ out g (c :: rest) s →
  (∀ s', at_ out (S g) rest s' → read_last c s' → Q c s') → wp next_char Q s.
Proof.
  intros Hat HQ. unfold next_char. rewrite wp_bind. eapply wp_peek; [exact Hat|done|done|].
  rewrite wp_bind. unfold src_add. rewrite wp_modify, wp_ret. apply HQ.
  - assert (wp (src_add 1) (λ _, at_ out (S g) rest) s) as H1; [|exact H1].
    apply (at_skip _ _ [c] _ _ _ Hat). intros s' Hs'. by rewrite Nat.add_1_r in Hs'.
  - unfold read_last. simpl. replace (src s + 1 - 1) with (src s + Z.of_nat 0) by lia.
    by eapply at_lookup.
Qed.

Lemma wp_put out g c rest Q s : at_ out (S g) rest s →
  (∀ s', at_ (out ++ [c]) g rest s' → Q tt s') → wp (put_char c) Q s.
Proof.
  intros (junk & Hj & Hb & Hd & Hs) HQ. destruct junk as [|x junk]; [done|]. injection Hj as Hj.
  unfold put_char. rewrite wp_bind, wp_gets, wp_bind. unfold store. rewrite wp_bind, wp_gets, Hd.
  rewrite Hb, length_app. cbn [length app]. rewrite length_app.
  rewrite (proj2 (Z.leb_le _ _)), (proj2 (Z.ltb_lt _ _)) by lia. cbn [andb]. rewrite wp_modify. unfold dst_add. rewrite wp_modify. apply HQ.
  exists junk. simpl. rewrite Nat2Z.id, length_app. cbn [length].
  split_and!; [done| |lia|rewrite Hs; lia].
  rewrite <- app_assoc. rewrite <- (Nat.add_0_r (length out)), insert_app_r. done.
Qed.

Lemma wp_skip fuel k : ∀ out g y r Q s, (k < fuel)%nat → y ≠ slash →
  at_ out g (replicate k slash ++ y :: r) s →
  (∀ s', at_ out (g + k) (y :: r) s' → Q tt s') → wp (skip_slashes fuel) Q s.
Proof.
  revert k. induction fuel as [|fuel IH]; intros k out g y r Q s Hf Hy Hat HQ; [lia|].
  cbn [skip_slashes]. rewrite wp_bind. destruct k as [|k]; cbn [replicate app] in Hat.
  - eapply wp_peek; [exact Hat|done|done|]. replace (y =? slash) with false by lia. apply HQ. by rewrite Nat.add_0_r.
  - eapply wp_peek; [exact Hat|done|done|]. cbn [Z.eqb slash Pos.eqb]. rewrite wp_bind.
    apply (at_skip _ _ [slash] _ _ _ Hat). intros s' Hs'. eapply (IH k); [lia|exact Hy|exact Hs'|].
    intros s2 H2. apply HQ. by replace (g + S k)%nat with (g + length [slash] + k)%nat by (simpl; lia).
Qed.

Lemma wp_eat fuel k : ∀ out g y r Q s, (S k < fuel)%nat → y ≠ slash →
  at_ out g (replicate k slash ++ y :: r) s →
  (∀ s', at_ out (S (g + k)) r s' → read_last y s' → Q tt s') → wp (eat_slashes fuel slash) Q s.
Proof.
  revert k. induction fuel as [|fuel IH]; intros k out g y r Q s Hf Hy Hat HQ; [lia|].
  cbn [eat_slashes]. cbn [Z.eqb slash Pos.eqb]. rewrite wp_bind. destruct k as [|k]; cbn [replicate app] in Hat.
  - eapply wp_next; [exact Hat|]. intros s' Hs' Hl. destruct fuel as [|fuel]; [lia|]. cbn [eat_slashes].
    replace (y =? slash) with false by lia. rewrite wp_ret. apply HQ; [by rewrite Nat.add_0_r|done].
  - eapply wp_next; [exact Hat|]. intros s' Hs' _. eapply (IH k); [lia|exact Hy|exact Hs'|].
    intros s2 H2 Hl. apply HQ; [|done]. by replace (S (g + S k)) with (S (S g + k))%nat by lia.
Qed.

(** The pointer goes back by one. *)
Lemma wp_unread out g y r Q s : at_ out (S g) r s → read_last y s →
  (∀ s', at_ out g (y :: r) s' → Q tt s') → wp (src_add (-1)) Q s.
Proof.
  intros (junk & Hj & Hb & Hd & Hs) Hy HQ. destruct (exists_last (l := junk)) as (j & z & ->); [by destruct junk|].
  rewrite length_app in Hj. simpl in Hj. assert (z = y) as ->.
  { unfold read_last in Hy. rewrite Hb, Hs in Hy. rewrite lookup_app_r in Hy by lia. rewrite <- app_assoc in Hy.
    rewrite lookup_app_r in Hy by lia. replace (_ - _ - _)%nat with 0%nat in Hy by lia. by injection Hy. }
  apply HQ. exists j. simpl. rewrite Hb, <- app_assoc. split_and!; [lia|done|done|lia].
Qed.

(** Characters of a path. *)
Definition plain (l : list Z) : Prop := slash ∉ l ∧ 0 ∉ l.

Lemma wp_copy fuel c : ∀ out g x r Q s, (length c < fuel)%nat → plain c → x = 0 ∨ x = slash →
  at_ out g (c ++ x :: r) s →
  (∀ s', at_ (out ++ c) (S g) r s' → Q x s') → wp (copy_component fuel) Q s.
Proof.
  revert c. induction fuel as [|fuel IH]; intros c out g x r Q s Hf [Hc1 Hc2] Hx Hat HQ; [lia|].
  cbn [copy_component]. rewrite wp_bind. destruct c as [|y c]; cbn [app] in Hat.
  - eapply wp_next; [exact Hat|]. intros s' Hs' _.
    assert (negb (x =? 0) && negb (x =? slash) = false) as -> by (by destruct Hx as [-> | ->]).
    rewrite wp_ret. apply HQ. by rewrite app_nil_r.
  - apply not_elem_of_cons in Hc1 as [Hy1 Hc1], Hc2 as [Hy2 Hc2].
    eapply wp_next; [exact Hat|]. intros s' Hs' _.
    assert (negb (y =? 0) && negb (y =? slash) = true) as -> by (rewrite !(proj2 (Z.eqb_neq _ _)); done).
    rewrite wp_bind. eapply wp_put; [exact Hs'|]. intros s2 H2.
    eapply (IH c); [simpl in Hf; lia|done|exact Hx|exact H2|].
    intros s3 H3. apply HQ. by rewrite <- app_assoc in H3.
Qed.

Lemma wp_component fuel c k out g y r (Q : bool → walk → Prop) s :
  (length c < fuel)%nat → (S k < fuel)%nat → plain c → y ≠ slash →
  at_ out g (c ++ slash :: replicate k slash ++ y :: r) s →
  (∀ s', at_ (out ++ c ++ [slash]) (g + k) (y :: r) s' → Q true s') → wp (component fuel) Q s.
Proof.
  intros Hf Hk Hc Hy Hat HQ. unfold component. rewrite wp_bind.
  eapply wp_copy; [exact Hf|exact Hc|by right|exact Hat|]. intros s1 H1. cbn [Z.eqb slash Pos.eqb].
  rewrite wp_bind. eapply wp_put; [exact H1|]. intros s2 H2. rewrite wp_bind.
  eapply wp_eat; [exact Hk|exact Hy|exact H2|]. intros s3 H3 Hl. rewrite wp_bind.
  eapply wp_unread; [exact H3|exact Hl|]. intros s4 H4. rewrite wp_ret. apply HQ. by rewrite <- app_assoc in H4.
Qed.

Lemma wp_last fuel c out g (Q : bool → walk → Prop) s : (length c < fuel)%nat → plain c →
  at_ out g (c ++ [0]) s → (∀ s', at_ (out ++ c) (S g) [] s' → Q false s') → wp (component fuel) Q s.
Proof.
  intros Hf Hc Hat HQ. unfold component. rewrite wp_bind.
  eapply wp_copy; [exact Hf|exact Hc|by left|exact Hat|]. intros s1 H1. apply HQ. exact H1.
Qed.

(** Back over a component. *)
Lemma wp_back fuel c : ∀ out g r Q s, (length c < fuel)%nat → slash ∉ c →
  at_ (out ++ [slash] ++ c) g r s →
  (∀ s', at_ (out ++ [slash]) (length c + g) r s' → Q tt s') → wp (back_component fuel) Q s.
Proof.
  revert c. induction fuel as [|fuel IH]; intros c out g r Q s Hf Hc Hat HQ; [lia|].
  cbn [back_component]. rewrite wp_bind, wp_gets. destruct Hat as (junk & Hj & Hb & Hd & Hs).
  rewrite Hd, !length_app. cbn [length]. rewrite (proj2 (Z.ltb_lt _ _)) by lia. rewrite wp_bind.
  destruct c as [|y c _] using rev_ind.
  - eapply wp_load; [|lia|].
    + rewrite Hb, app_nil_r, <- !app_assoc. rewrite lookup_app_r by (simpl; lia).
      replace (_ - _)%nat with 0%nat by (simpl; lia). done.
    + cbn. apply HQ. rewrite app_nil_r in *. by exists junk.
  - rewrite length_app in *. simpl in Hf. apply not_elem_of_app in Hc as [Hc Hy]. apply not_elem_of_cons in Hy as [Hy _].
    eapply wp_load; [|lia|].
    + rewrite Hb, <- !app_assoc. rewrite lookup_app_r by (simpl; lia). rewrite lookup_app_r by (simpl; lia).
      rewrite lookup_app_r by (simpl; lia). replace (_ - _ - _ - _)%nat with 0%nat by (simpl; lia). done.
    + rewrite (proj2 (Z.eqb_neq _ _)) by done. cbn [negb]. rewrite wp_bind. unfold dst_add. rewrite wp_modify.
      eapply (IH c out (S g)); [lia|done| |].
      * exists (y :: junk). simpl. rewrite Hb, Hd, Hs, !length_app. cbn [length].
        split_and!; [lia|by rewrite <- !app_assoc|simpl; lia|simpl; lia].
      * intros s' H'. apply HQ. by replace (length c + length [y] + g)%nat with (length c + S g)%nat by (simpl; lia).
Qed.

(** ** The main loop *)

(** The output in front of the next component. *)
Definition top (st : list (list Z)) : list Z := slash :: concat ((λ c, c ++ [slash]) <$> reverse st).

Lemma top_cons c st : top (c :: st) = top st ++ c ++ [slash].
Proof.
  unfold top. rewrite reverse_cons, fmap_app, concat_app. simpl. by rewrite app_nil_r.
Qed.
Lemma top_end st : ∃ t, top st = t ++ [slash].
Proof.
  destruct st as [|c st]; [by exists []|]. rewrite top_cons. exists (top st ++ c). by rewrite app_assoc.
Qed.
Lemma top_render st : st ≠ [] → top st = render (reverse st) ++ [slash].
Proof.
  assert (∀ l, slash :: concat ((λ c, c ++ [slash]) <$> l) = concat (cons slash <$> l) ++ [slash]) as H1.
  { induction l as [|c l IH]; [done|]. simpl. f_equal. rewrite <- !app_assoc. f_equal. simpl. apply IH. }
  intros Hst. unfold top. rewrite H1. f_equal. unfold render.
  destruct (reverse st) eqn:E; [|done]. apply (f_equal reverse) in E. by rewrite reverse_involutive in E.
Qed.
Lemma render_last c st : render (reverse (c :: st)) = top st ++ c.
Proof.
  apply (app_inj_2 _ _ [slash] [slash]); [done|]. rewrite <- top_render by done.
  by rewrite top_cons, <- app_assoc.
Qed.

Lemma wp_up fuel c st g r (Q : bool → walk → Prop) s : (length c < fuel)%nat → slash ∉ c →
  at_ (top (c :: st)) g r s →
  (∀ s', at_ (top st) (length c + S g) r s' → Q true s') → wp (up_one fuel) Q s.
Proof.
  intros Hf Hc (junk & Hj & Hb & Hd & Hs) HQ. unfold up_one. rewrite wp_bind. unfold dst_add. rewrite wp_modify.
  rewrite wp_bind, wp_gets. cbn [dst]. rewrite Hd, top_cons, !length_app. change (length [slash]) with 1%nat.
  rewrite (proj2 (Z.ltb_ge _ _)) by lia. rewrite wp_bind. destruct (top_end st) as [t Et].
  eapply (wp_back fuel c t (S g) r); [done|done| |].
  - exists (slash :: junk). cbn [buf src dst]. rewrite Hb, Hs, top_cons, Et, !length_app. simpl.
    split_and!; [lia| |lia|lia]. by rewrite <- !app_assoc.
  - intros s' H'. rewrite wp_ret. apply HQ. by rewrite Et.
Qed.

Definition view (r : list Z) : at_dot :=
  match r with
  | c :: r =>
    if c =? dot then
      match r with
      | [] => DotEnd
      | c1 :: r => if c1 =? slash then DotSlash else if c1 =? dot then
          match r with [] => UpEnd | c2 :: _ => if c2 =? slash then UpSlash else Name end
        else Name
      end
    else Name
  | [] => Name
  end.

Lemma wp_look out g r Q s : 0 ∉ r → at_ out g (r ++ [0]) s → Q (view r) s → wp look Q s.
Proof.
  intros Hr Hat HQ. unfold look. rewrite wp_bind. destruct r as [|c r].
  { eapply wp_peek; [exact Hat|done|done|]. done. }
  apply not_elem_of_cons in Hr as [_ Hr]. eapply wp_peek; [exact Hat|done|done|]. cbn [view] in HQ.
  destruct (c =? dot); [|done]. rewrite wp_bind. destruct r as [|c1 r].
  { eapply wp_peek; [exact Hat|done|done|]. done. }
  apply not_elem_of_cons in Hr as [Hc1 Hr]. eapply wp_peek; [exact Hat|done|done|].
  replace (c1 =? 0) with false by lia. destruct (c1 =? slash); [done|]. destruct (c1 =? dot); [|done].
  rewrite wp_bind. destruct r as [|c2 r].
  { eapply wp_peek; [exact Hat|done|done|]. done. }
  apply not_elem_of_cons in Hr as [Hc2 Hr]. eapply wp_peek; [exact Hat|done|done|].
  replace (c2 =? 0) with false by lia. by destruct (c2 =? slash).
Qed.

(** What the first characters of a component tell. *)
Lemma view_name c r : slash ∉ c → c ≠ [] → c ≠ [dot] → c ≠ [dot; dot] → r = [] ∨ head r = Some slash →
  view (c ++ r) = Name.
Proof.
  intros Hc Hne H1 H2 Hr. destruct c as [|x c]; [done|]. cbn [app view].
  destruct (Z.eqb_spec x dot) as [->|]; [|done]. apply not_elem_of_cons in Hc as [_ Hc].
  destruct c as [|y c]; [done|]. cbn [app]. apply not_elem_of_cons in Hc as [Hy Hc].
  rewrite (proj2 (Z.eqb_neq y slash)) by done. destruct (Z.eqb_spec y dot) as [->|]; [|done].
  destruct c as [|z c]; [done|]. cbn [app]. apply not_elem_of_cons in Hc as [Hz Hc].
  by rewrite (proj2 (Z.eqb_neq z slash)).
Qed.

Lemma head_end r : head r ≠ Some slash → ∃ y l, r ++ [0] = y :: l ∧ y ≠ slash.
Proof. destruct r as [|y r]; [by exists 0, []|]. intros Hy. exists y, (r ++ [0]). naive_solver. Qed.

(** The components of a path are not empty, and have no slash and no zero. *)
Definition comp_ok (c : list Z) : Prop := c ≠ [] ∧ plain c.

(** It fits into the fuel. *)
Definition fits (fuel : nat) (c : list Z) : Prop := comp_ok c ∧ (length c < fuel)%nat.

(** Behind the loop: the path of [cs], perhaps with a slash behind it, and room
    for the zero. *)
Definition looped (cs : list (list Z)) (s : walk) : Prop :=
  ∃ out g rest, at_ out g rest s ∧ (0 < g + length rest)%nat ∧
    (out = render cs ∨ cs ≠ [] ∧ out = render cs ++ [slash]).

Lemma looped_top st g rest s : at_ (top st) g rest s → (0 < g + length rest)%nat → looped (reverse st) s.
Proof.
  intros Hat Hg. exists (top st), g, rest. split; [done|]. split; [done|].
  destruct (decide (st = [])) as [->|Hne]; [by left|]. right. split; [|by apply top_render].
  intros E. apply (f_equal reverse) in E. by rewrite reverse_involutive in E.
Qed.

Lemma view_dots r : (r = [] → view r = Name) ∧ view [dot] = DotEnd ∧ view [dot; dot] = UpEnd ∧
  view (dot :: slash :: r) = DotSlash ∧ view (dot :: dot :: slash :: r) = UpSlash.
Proof. split_and!; [by intros ->|done..]. Qed.

(** The end of the path at [src]. *)
Lemma wp_end fuel n st g (Q : bool → walk → Prop) s : (0 < fuel)%nat → at_ (top st) g [0] s →
  (∀ s', looped (reverse st) s' → Q true s') → wp (normalize_loop fuel (S n)) Q s.
Proof.
  intros Hf Hat HQ. cbn [normalize_loop]. rewrite wp_bind.
  eapply (wp_look _ _ []); [apply not_elem_of_nil|exact Hat|]. cbn [view]. rewrite wp_bind, wp_ret; cbv beta; rewrite wp_bind.
  eapply (wp_last _ []); [simpl; lia|by split; apply not_elem_of_nil|exact Hat|]. intros s' H'. rewrite app_nil_r in H'.
  rewrite wp_ret. apply HQ. eapply looped_top; [exact H'|simpl; lia].
Qed.

(** A last component. *)
Lemma wp_final fuel n st g c cs (Q : bool → walk → Prop) s : comp_ok c → (length c < fuel)%nat →
  (0 < n)%nat → Forall (fits fuel) st →
  at_ (top st) g (c ++ [0]) s → resolve st [c] = Some cs →
  (∀ s', looped cs s' → Q true s') → wp (normalize_loop fuel (S n)) Q s.
Proof.
  intros (Hne & Hsl & Hz) Hf Hn Hst Hat Hr HQ. cbn [normalize_loop]. rewrite wp_bind.
  eapply wp_look; [exact Hz|exact Hat|]. cbn [resolve] in Hr.
  destruct (decide (c = [dot])) as [->|H1].
  { injection Hr as <-. change (view [dot]) with DotEnd. cbv iota. rewrite wp_bind. change 1 with (Z.of_nat (length [dot])).
    eapply at_skip; [exact Hat|]. intros s1 Hs1. cbv beta. rewrite wp_bind.
    eapply (wp_last _ []); [simpl; lia|by split; apply not_elem_of_nil|exact Hs1|]. intros s' H'.
    rewrite app_nil_r in H'. rewrite wp_ret. apply HQ. eapply looped_top; [exact H'|simpl; lia]. }
  destruct (decide (c = [dot; dot])) as [->|H2].
  - destruct st as [|c st]; [done|]. injection Hr as <-. change (view [dot; dot]) with UpEnd. cbv iota. rewrite wp_bind.
    change 2 with (Z.of_nat (length [dot; dot])). eapply at_skip; [exact Hat|]. intros s1 Hs1. cbv beta.
    apply Forall_cons in Hst as [((_ & Hc & _) & Hlc) Hst]. rewrite wp_bind.
    eapply wp_up; [exact Hlc|exact Hc|exact Hs1|]. intros s2 Hs2. cbv beta. destruct n as [|n]; [lia|].
    eapply wp_end; [lia|exact Hs2|exact HQ].
  - injection Hr as <-. assert (view c = Name) as ->.
    { rewrite <- (app_nil_r c). by apply view_name; auto. }
    rewrite wp_bind, wp_ret; cbv beta; rewrite wp_bind. eapply wp_last; [exact Hf|done|exact Hat|]. intros s' H'.
    rewrite wp_ret. apply HQ. exists (top st ++ c), (S g), []. split; [exact H'|]. split; [simpl; lia|].
    left. by rewrite render_last.
Qed.

Lemma wp_loop fuel n : ∀ st r g cs (Q : bool → walk → Prop) s,
  (length r + 1 < n)%nat → (length r + 2 < fuel)%nat → head r ≠ Some slash → 0 ∉ r →
  Forall (fits fuel) st → at_ (top st) g (r ++ [0]) s → resolve st (components r) = Some cs →
  (∀ s', looped cs s' → Q true s') → wp (normalize_loop fuel n) Q s.
Proof.
  induction n as [|n IH]; intros st r g cs Q s Hn Hf Hh Hz Hst Hat Hr HQ; [lia|].
  destruct (path_cases r Hh) as [->|[[Hne Hs]|(c & k & r' & -> & Hs & Hne & Hh')]].
  - cbn in Hr. injection Hr as <-. eapply wp_end; [lia|exact Hat|exact HQ].
  - rewrite components_one in Hr by done. eapply wp_final; try done; lia.
  - apply not_elem_of_app in Hz as [Hzc Hz]. apply not_elem_of_cons in Hz as [_ Hz].
    apply not_elem_of_app in Hz as [_ Hz']. rewrite components_app, components_slashes in Hr by done.
    rewrite !length_app in Hn, Hf. cbn [length] in Hn, Hf. rewrite length_app, length_replicate in Hn, Hf.
    destruct (head_end r' Hh') as (y & l & El & Hy).
    rewrite <- app_assoc in Hat. cbn [app] in Hat. rewrite <- app_assoc, El in Hat.
    assert (0 ∉ c ++ slash :: replicate k slash ++ r') as Hz.
    { rewrite not_elem_of_app, not_elem_of_cons, not_elem_of_app. split_and!; try done.
      by intros Hi%elem_of_replicate_inv. }
    cbn [normalize_loop]. rewrite wp_bind. eapply (wp_look _ _ (c ++ slash :: replicate k slash ++ r')); [exact Hz| |].
    { rewrite <- app_assoc. cbn [app]. rewrite <- app_assoc, El. exact Hat. }
    cbn [resolve] in Hr. destruct (decide (c = [dot])) as [->|H1].
    { change (view _) with DotSlash. cbv iota. rewrite wp_bind.
      change 2 with (Z.of_nat (length [dot; slash])). eapply at_skip; [exact Hat|]. intros s1 Hs1. cbv beta.
      rewrite wp_bind. eapply wp_skip; [|exact Hy|exact Hs1|]; [lia|]. intros s2 Hs2. cbv beta. rewrite <- El in Hs2.
      eapply IH; [| |exact Hh'|exact Hz'|exact Hst|exact Hs2|exact Hr|exact HQ]; simpl in *; lia. }
    destruct (decide (c = [dot; dot])) as [->|H2].
    + destruct st as [|c st]; [done|]. apply Forall_cons in Hst as [((_ & Hc & _) & Hlc) Hst].
      change (view _) with UpSlash. cbv iota. rewrite wp_bind.
      change 3 with (Z.of_nat (length [dot; dot; slash])). eapply at_skip; [exact Hat|]. intros s1 Hs1. cbv beta.
      rewrite wp_bind. eapply wp_skip; [|exact Hy|exact Hs1|]; [lia|]. intros s2 Hs2. cbv beta. rewrite wp_bind.
      eapply wp_up; [exact Hlc|exact Hc|exact Hs2|]. intros s3 Hs3. cbv beta. rewrite <- El in Hs3.
      eapply IH; [| |exact Hh'|exact Hz'|exact Hst|exact Hs3|exact Hr|exact HQ]; simpl in *; lia.
    + rewrite view_name by auto. cbv iota. rewrite wp_bind, wp_ret; cbv beta; rewrite wp_bind.
      eapply (wp_component _ c k); [lia|lia|done|exact Hy|exact Hat|]. intros s1 Hs1. cbv beta iota.
      rewrite <- El, <- top_cons in Hs1.
      eapply IH; [| |exact Hh'|exact Hz'| |exact Hs1|exact Hr|exact HQ]; [lia|lia|].
      constructor; [|done]. split; [done|lia].
Qed.

(** ** The end of the normalisation *)
Lemma c_str_zero l r : 0 ∉ l → c_str (l ++ 0 :: r) = l.
Proof.
  induction l as [|c l IH]; [done|]. intros [Hc Hl]%not_elem_of_cons. simpl.
  rewrite (proj2 (Z.eqb_neq c 0)) by done. by rewrite IH.
Qed.

Lemma pieces_ok l : 0 ∉ l → Forall plain (pieces l).
Proof.
  induction l as [|c l IH]; simpl.
  { intros _. constructor; [|done]. split; apply not_elem_of_nil. }
  intros [Hc Hl]%not_elem_of_cons. specialize (IH Hl). destruct (Z.eqb_spec c slash) as [->|Hne].
  { constructor; [|done]. split; apply not_elem_of_nil. }
  destruct (pieces_ne l) as (p & ps & E). rewrite E in *. apply Forall_cons in IH as [[H1 H2] Hps].
  constructor; [|done]. split; apply not_elem_of_cons; split; congruence.
Qed.
Lemma components_ok l : 0 ∉ l → Forall comp_ok (components l).
Proof.
  intros Hl%pieces_ok. rewrite Forall_forall in Hl |- *. unfold components. intros c.
  rewrite list_elem_of_filter. intros [Hne Hc]. split; [done|by apply Hl].
Qed.
Lemma resolve_ok cs : ∀ st l, Forall comp_ok st → Forall comp_ok cs → resolve st cs = Some l → Forall comp_ok l.
Proof.
  induction cs as [|c cs IH]; intros st l Hst Hcs; cbn [resolve].
  { intros [= <-]. by apply Forall_reverse. }
  apply Forall_cons in Hcs as [Hc Hcs]. destruct (decide _); [by apply IH|].
  destruct (decide _); [|apply IH; [by constructor|done]].
  destruct st as [|d st]; [done|]. apply Forall_cons in Hst as [_ Hst]. by apply IH.
Qed.

Lemma render_ok cs : Forall comp_ok cs → 0 ∉ render cs ∧
  (cs ≠ [] → ∃ o z, render cs = slash :: o ++ [z] ∧ z ≠ slash).
Proof.
  intros Hcs. split.
  - destruct cs as [|c cs]; [by apply not_elem_of_cons; split; [done|apply not_elem_of_nil]|]. unfold render.
    induction Hcs as [|d ds (_ & _ & Hd) _ IH]; [apply not_elem_of_nil|]. simpl.
    apply not_elem_of_cons. split; [done|]. rewrite not_elem_of_app. done.
  - intros Hne. destruct (exists_last Hne) as (ds & d & ->). apply Forall_app in Hcs as [_ Hd].
    apply Forall_cons in Hd as [(Hn & Hs & _) _]. destruct (exists_last Hn) as (d' & z & ->).
    assert (z ≠ slash) as Hz by (intros ->; apply Hs; set_solver).
    destruct ds as [|e ds].
    + exists d', z. split; [|done]. unfold render. simpl. by rewrite app_nil_r.
    + exists (e ++ concat (cons slash <$> ds) ++ slash :: d'), z. split; [|done].
      unfold render. simpl. f_equal. rewrite fmap_app, concat_app. simpl. rewrite app_nil_r, <- !app_assoc. done.
Qed.

Lemma wp_store i c l x r (Q : unit → walk → Prop) s : buf s = l ++ x :: r → i = Z.of_nat (length l) →
  Q tt (mk_walk (l ++ c :: r) (src s) (dst s)) → wp (store i c) Q s.
Proof.
  intros Hb -> HQ. unfold store. rewrite wp_bind, wp_gets, Hb, length_app. cbn [length].
  rewrite (proj2 (Z.leb_le _ _)), (proj2 (Z.ltb_lt _ _)) by lia. cbn [andb]. rewrite wp_modify, Nat2Z.id.
  by rewrite <- (Nat.add_0_r (length l)), insert_app_r.
Qed.

Lemma wp_finish cs s : Forall comp_ok cs → looped cs s →
  wp finish (λ _ s', c_str (buf s') = render cs) s.
Proof.
  intros Hcs (out & g & rest & (junk & Hj & Hb & Hd & _) & Hg & Hout).
  destruct (render_ok cs Hcs) as [Hz Hshape].
  assert (∃ x tl, buf s = out ++ x :: tl) as (x & tl & Hb').
  { rewrite Hb. destruct junk as [|x junk]; [|by eexists _, _]. destruct rest; [simpl in *; lia|by eexists _, _]. }
  clear Hb Hj Hg junk g rest. unfold finish. rewrite wp_bind, wp_gets. cbv beta. rewrite wp_bind.
  eapply wp_store; [exact Hb'|exact Hd|]. rewrite wp_bind. unfold dst_add. rewrite wp_modify. cbn [buf src dst].
  rewrite wp_bind, wp_gets. cbv beta. cbn [dst]. rewrite Hd.
  destruct (decide (cs = [])) as [->|Hne].
  { destruct Hout as [-> |[? _]]; [|done]. cbn. reflexivity. }
  destruct (Hshape Hne) as (o & z & Er & Hzs).
  destruct Hout as [-> | [_ ->]].
  - rewrite Er. cbn [length]. rewrite length_app. cbn [length].
    rewrite (proj2 (Z.eqb_neq _ 0)) by lia. cbn [negb]. rewrite wp_bind, wp_bind.
    eapply (wp_load _ z); [|lia|].
    { cbn [buf]. replace (Z.to_nat _) with (S (length o)) by lia. cbn [app]. simpl.
      rewrite <- app_assoc. cbn [app]. by rewrite list_lookup_middle. }
    rewrite (proj2 (Z.eqb_neq z slash)) by done. rewrite wp_ret. cbv beta. rewrite wp_bind.
    eapply (wp_load 0 slash); [done|lia|]. cbn [Z.eqb slash Pos.eqb]. rewrite wp_ret. cbn [buf].
    rewrite <- Er. by apply c_str_zero.
  - rewrite length_app. cbn [length]. rewrite Er. cbn [length]. rewrite length_app. cbn [length].
    rewrite (proj2 (Z.eqb_neq _ 0)) by lia. cbn [negb]. rewrite wp_bind, wp_bind.
    eapply (wp_load _ slash); [|lia|].
    { cbn [buf]. rewrite <- Er, <- app_assoc. cbn [app]. replace (Z.to_nat _) with (length (render cs));
        [by rewrite list_lookup_middle|rewrite Er; cbn [length]; rewrite length_app; cbn [length]; lia]. }
    cbn [Z.eqb slash Pos.eqb]. eapply (wp_store _ _ (render cs) slash (0 :: tl)).
    { cbn [buf]. rewrite <- Er, <- app_assoc. done. }
    { rewrite Er. cbn [length]. rewrite length_app. cbn [length]. lia. }
    cbn [buf src dst]. rewrite wp_bind. eapply (wp_load 0 slash); [by rewrite Er|lia|].
    cbn [Z.eqb slash Pos.eqb]. rewrite wp_ret. cbn [buf]. rewrite <- Er. by apply c_str_zero.
Qed.

(** The code computes what the path stands for. *)
Lemma normalize_run p cs : 0 ∉ p → resolve [] (components p) = Some cs →
  ∃ s, normalize (slash :: p) = Ok (Some (render cs)) s.
Proof.
  intros Hz Hr. set (s0 := mk_walk ((slash :: p) ++ [0]) 0 0).
  assert (∃ k r, p = replicate k slash ++ r ∧ head r ≠ Some slash) as (k & r & -> & Hh).
  { clear. induction p as [|x p (k & r & -> & Hh)]; [by exists 0%nat, []|].
    destruct (decide (x = slash)) as [->|]; [by exists (S k), r|].
    exists 0%nat, (x :: replicate k slash ++ r). naive_solver. }
  assert (0 ∉ r) as Hzr by (by apply not_elem_of_app in Hz as [_ ?]). rewrite components_slashes in Hr.
  destruct (head_end r Hh) as (y & l & El & Hy). unfold normalize. fold s0.
  set (fuel := S (S (length (slash :: replicate k slash ++ r)))).
  assert (length r + k + 3 = fuel)%nat as Hfuel.
  { unfold fuel. cbn [length]. rewrite length_app, length_replicate. lia. }
  assert (wp (normalize_loop fuel fuel) (λ ok s, ok = true ∧ looped cs s) s0) as Hw.
  { clearbody fuel. destruct fuel as [|n]; [lia|].
    assert (at_ [] 0 ([] ++ slash :: replicate k slash ++ y :: l) s0) as Hat.
    { exists []. unfold s0. cbn [app buf]. by rewrite <- El, app_assoc. }
    cbn [normalize_loop]. rewrite wp_bind.
    eapply (wp_look _ _ (slash :: replicate k slash ++ r)); [by apply not_elem_of_cons|cbn [app]; rewrite <- app_assoc, El; exact Hat|].
    cbn [view Z.eqb slash dot Pos.eqb]. rewrite wp_bind, wp_ret; cbv beta; rewrite wp_bind.
    eapply (wp_component _ [] k); [simpl; lia|lia|by split; apply not_elem_of_nil|exact Hy|exact Hat|].
    intros s1 Hs1. cbv beta iota. rewrite <- El in Hs1. cbn [app] in Hs1.
    eapply (wp_loop _ _ [] r); [| |done|done|done|exact Hs1|exact Hr|by split]; lia. }
  apply wp_run in Hw as (ok & s1 & E1 & -> & Hl). rewrite (bind_ok _ _ _ _ _ E1).
  pose proof (wp_finish cs s1 (resolve_ok _ _ _ (Forall_nil_2 _) (components_ok _ Hzr) Hr) Hl) as Hf.
  apply wp_run in Hf as ([] & s2 & E2 & Hc). rewrite (bind_ok _ _ _ _ _ E2), bind_gets, Hc. by eexists.
Qed.

(** ** Normalised paths *)

(** A path without ["."], [".."], doubled slashes or a slash at its end. *)
Definition normal (cs : list (list Z)) : Prop :=
  Forall (λ c, comp_ok c ∧ c ≠ [dot] ∧ c ≠ [dot; dot]) cs.

Lemma resolve_normal cs : ∀ st l, normal st → Forall comp_ok cs → resolve st cs = Some l → normal l.
Proof.
  induction cs as [|c cs IH]; intros st l Hst Hcs; cbn [resolve].
  { intros [= <-]. by apply Forall_reverse. }
  apply Forall_cons in Hcs as [Hc Hcs]. destruct (decide _); [by apply IH|].
  destruct (decide _); [|apply IH; [by constructor|done]].
  destruct st as [|d st]; [done|]. apply Forall_cons in Hst as [_ Hst]. by apply IH.
Qed.

Lemma resolve_self cs : ∀ st, normal cs → resolve st cs = Some (reverse st ++ cs).
Proof.
  induction cs as [|c cs IH]; intros st Hcs; cbn [resolve]; [by rewrite app_nil_r|].
  apply Forall_cons in Hcs as [(_ & H1 & H2) Hcs]. rewrite !decide_False by done.
  rewrite IH by done. by rewrite reverse_cons, <- app_assoc.
Qed.

Lemma components_render cs : Forall comp_ok cs → components (render cs) = cs.
Proof.
  destruct cs as [|c cs]; [done|]. unfold render. generalize (c :: cs). clear c cs. intros cs Hcs.
  induction Hcs as [|c cs (Hne & Hs & _) _ IH]; [done|]. cbn [fmap list_fmap concat app].
  change (components (replicate 1 slash ++ c ++ concat (cons slash <$> cs)) = c :: cs).
  rewrite components_slashes. destruct cs as [|d ds]; [by rewrite app_nil_r, components_one|].
  cbn [fmap list_fmap concat app] in *. rewrite components_app by done. f_equal. rewrite <- IH.
  by rewrite <- (components_slashes 1 (d ++ _)).
Qed.

(** The whole function: [directory] is none for a null pointer, [full] tells
    that no memory is left for the path. *)
Definition dfs_normalize_path (full : bool) (directory : option (list Z)) (filename : list Z)
  : res walk (option (list Z)) :=
  let absolute := match filename with c :: _ => c =? slash | [] => false end in
  match directory with
  | None => if negb absolute || full then Ok None (mk_walk [] 0 0) else normalize filename
  | Some d =>
    if full then Ok None (mk_walk [] 0 0)
    else if absolute then normalize filename else normalize (d ++ slash :: filename)
  end.

(** What [filename] means in [directory]. *)
Definition meant (directory : option (list Z)) (filename : list Z) : option (list (list Z)) :=
  match filename, directory with
  | c :: _, None => if c =? slash then resolve [] (components filename) else None
  | [], None => None
  | _, Some d =>
    if match filename with c :: _ => c =? slash | [] => false end
    then resolve [] (components filename)
    else resolve [] (components d ++ components filename)
  end.

Lemma pieces_slash d r : pieces (d ++ slash :: r) = pieces d ++ pieces r.
Proof.
  induction d as [|c d IH]; [done|]. simpl. rewrite IH. destruct (c =? slash); [done|].
  destruct (pieces_ne d) as (p & ps & ->). done.
Qed.
Lemma components_join d r : components (d ++ slash :: r) = components d ++ components r.
Proof. unfold components. by rewrite pieces_slash, filter_app. Qed.

Lemma normalize_meant directory filename cs :
  (∀ d, directory = Some d → head d = Some slash ∧ 0 ∉ d) → 0 ∉ filename →
  meant directory filename = Some cs →
  normal cs ∧ ∃ s, dfs_normalize_path false directory filename = Ok (Some (render cs)) s.
Proof.
  intros Hd Hf Hm.
  assert (∀ p, head p = Some slash → 0 ∉ p → resolve [] (components p) = Some cs →
    normal cs ∧ ∃ s, normalize p = Ok (Some (render cs)) s) as Hone.
  { intros [|x p] Hx Hz Hr; [done|]. injection Hx as ->. split.
    - eapply resolve_normal; [constructor|by apply components_ok|exact Hr].
    - apply not_elem_of_cons in Hz as [_ Hz]. apply normalize_run; [done|].
      by rewrite <- (components_slashes 1 p). }
  assert (∀ c l, filename = c :: l → c =? slash = true → head filename = Some slash) as Habs.
  { intros c l -> ->%Z.eqb_eq. done. }
  unfold dfs_normalize_path, meant in *. destruct directory as [d|].
  - destruct (Hd d eq_refl) as [Hh Hz]. destruct filename as [|c l].
    + apply Hone; [by destruct d| |by rewrite components_join, app_nil_r in *].
      rewrite not_elem_of_app, not_elem_of_cons. auto.
    + destruct (c =? slash) eqn:Ec; [by apply Hone; eauto|].
      apply Hone; [by destruct d| |by rewrite components_join].
      rewrite not_elem_of_app, not_elem_of_cons. auto.
  - destruct filename as [|c l]; [done|]. destruct (c =? slash) eqn:Ec; [|done]. apply Hone; eauto.
Qed.

Lemma normal_ok cs : normal cs → Forall comp_ok cs.
Proof. intros Hn. eapply Forall_impl; [exact Hn|]. by intros c [Hc _]. Qed.

(** A normal path, given again. *)
Lemma normalize_again directory cs : normal cs →
  ∃ s, dfs_normalize_path false directory (render cs) = Ok (Some (render cs)) s.
Proof.
  intros Hn. pose proof (normal_ok _ Hn) as Hok. destruct (render_ok _ Hok) as [Hz _].
  assert (∃ p, render cs = slash :: p) as (p & E) by (destruct cs; by eexists).
  assert (resolve [] (components p) = Some cs) as Hr.
  { rewrite <- (components_slashes 1 p). cbn [replicate app]. rewrite <- E, components_render by done.
    by rewrite resolve_self. }
  assert (∃ s, normalize (render cs) = Ok (Some (render cs)) s) as [s Es].
  { rewrite E in Hz |- *. apply not_elem_of_cons in Hz as [_ Hz].
    destruct (normalize_run p cs Hz Hr) as [s Es]. exists s. by rewrite Es, E. }
  exists s. unfold dfs_normalize_path. rewrite E in *. by destruct directory.
Qed.

(** C14: The path that [dfs_normalize_path] builds is the one that the name means
    in its directory, written in the one normal way: for every directory and
    file name (a name may be absolute, and both may have [.], [..] and repeated
    slashes), where the memory suffices and the [..] do not leave the root, the
    in-place loop ends within the buffer and leaves the components that the
    directory and the name lead to, each behind one slash, and these contain
    neither [.] nor [..]. *)
Theorem normalize_path_correct directory filename cs :
  (∀ d, directory = Some d → head d = Some slash ∧ 0 ∉ d) → 0 ∉ filename →
  meant directory filename = Some cs →
  normal cs ∧ ∃ s, dfs_normalize_path false directory filename = Ok (Some (render cs)) s.
Proof. apply normalize_meant. Qed.

(** ** Concrete paths *)
From Stdlib Require Import String Ascii.
Open Scope Z_scope.
Definition chars (s : string) : list Z :=
  map (λ c, Z.of_nat (nat_of_ascii c)) (list_ascii_of_string s).

Lemma normalize_path_correct_witness :
  meant (Some (chars "/mnt//sd/")) (chars "./log/../a.txt/") = Some [chars "mnt"; chars "sd"; chars "a.txt"] ∧
  ∃ s, dfs_normalize_path false (Some (chars "/mnt//sd/")) (chars "./log/../a.txt/")
    = Ok (Some (chars "/mnt/sd/a.txt")) s.
Proof.
  split; [vm_compute; reflexivity|].
  apply (normalize_path_correct (Some (chars "/mnt//sd/")) (chars "./log/../a.txt/")
    [chars "mnt"; chars "sd"; chars "a.txt"]).
  - intros d [= <-]. split; [reflexivity|]. by apply (bool_decide_unpack _); vm_compute.
  - by apply (bool_decide_unpack _); vm_compute.
  - vm_compute. reflexivity.
Defined.

(** Normalisation is idempotent: a path that the function has built, given
    to it again in any directory, comes back unchanged. *)
Theorem normalize_path_idempotent directory directory' filename path s :
  (∀ d, directory = Some d → head d = Some slash ∧ 0 ∉ d) → 0 ∉ filename →
  is_Some (meant directory filename) →
  dfs_normalize_path false directory filename = Ok (Some path) s →
  ∃ s', dfs_normalize_path false directory' path = Ok (Some path) s'.
Proof.
  intros Hd Hf [cs Hm] E. destruct (normalize_meant _ _ _ Hd Hf Hm) as (Hn & s1 & E1).
  rewrite E1 in E. injection E as <- <-. by apply normalize_again.
Qed.

Lemma normalize_path_idempotent_witness :
  ∃ s, dfs_normalize_path false None (chars "/mnt/sd/a.txt") = Ok (Some (chars "/mnt/sd/a.txt")) s.
Proof.
  eapply (normalize_path_idempotent (Some (chars "/mnt//sd/")) None (chars "./log/../a.txt/")).
  - intros d [= <-]. split; [reflexivity|]. by apply (bool_decide_unpack _); vm_compute.
  - by apply (bool_decide_unpack _); vm_compute.
  - vm_compute. by eexists.
  - vm_compute. reflexivity.
Defined.

(** ** Paths that leave the root *)

(** The first [..] takes the slash of the root itself away, and the path that
    comes back is not absolute. *)
Example above_root :
  ∃ s, dfs_normalize_path false None (chars "/../x") = Ok (Some (chars "x")) s.
Proof. eexists. vm_compute. reflexivity. Qed.

(** Where nothing follows, the byte before the buffer is read. *)
Example above_root_end : dfs_normalize_path false None (chars "/..") = Fault OutOfBounds.
Proof. vm_compute. reflexivity. Qed.

(** A second one is refused. *)
Example above_root_twice :
  ∃ s, dfs_normalize_path false None (chars "/../..") = Ok None s.
Proof. eexists. vm_compute. reflexivity. Qed.
