(* ===== verification/Dfs.v ===== *)
(** * The file system layer: its tables ([components/dfs/src/dfs.c] and the
    first half of [dfs_fs.c])

    The state is the table of file system types, the table of mounted file
    systems and the table of file descriptors, whose entries are objects of the
    heap.  A file system driver, a device and the allocator are outside; the
    class [Drivers] has what the layer calls. *)

From S2P Require Import Prelude DfsPath.

(** ** Constants of [dfs.h], [dfs_file.h], [libc_errno.h] and [libc_fcntl.h] *)
Definition DFS_FILESYSTEMS_MAX : nat := 2.
Definition DFS_FILESYSTEM_TYPES_MAX : nat := 2.
Definition DFS_FD_MAX : Z := 4.
Definition DFS_FD_OFFSET : Z := 3.
Definition DFS_FS_FLAG_FULLPATH : Z := 1.
Definition DFS_FD_MAGIC : Z := 0xfdfd.
Definition FT_REGULAR : Z := 0.
Definition FT_DIRECTORY : Z := 2.
Definition DFS_F_OPEN : Z := 0x01000000.
Definition DFS_F_DIRECTORY : Z := 0x02000000.
Definition DFS_F_EOF : Z := 0x04000000.

(** The project is built by armcc, whose own [errno.h] has [EINVAL] and
    [ENOMEM]. *)
Definition ERROR_BASE_NO : Z := 7.
Definition EINVAL : Z := 5.
Definition ENOMEM : Z := 6.
Definition ENOENT : Z := ERROR_BASE_NO + 2.
Definition EIO : Z := ERROR_BASE_NO + 5.
Definition ENXIO : Z := ERROR_BASE_NO + 6.
Definition EBADF : Z := ERROR_BASE_NO + 9.
Definition EBUSY : Z := ERROR_BASE_NO + 16.
Definition EEXIST : Z := ERROR_BASE_NO + 17.
Definition EXDEV : Z := ERROR_BASE_NO + 18.
Definition ENODEV : Z := ERROR_BASE_NO + 19.
Definition ENOTDIR : Z := ERROR_BASE_NO + 20.
Definition ENOSPC : Z := ERROR_BASE_NO + 28.
Definition ENOSYS : Z := ERROR_BASE_NO + 38.

Definition O_RDONLY : Z := 0.
Definition O_CREAT : Z := 0x40.
Definition O_APPEND : Z := 0x400.
Definition O_NONBLOCK : Z := 0x800.
Definition O_DIRECTORY : Z := 0x10000.
Definition F_GETFL : Z := 3.
Definition F_SETFL : Z := 4.
Definition RT_FIOFTRUNCATE : Z := 0x52540000.

(** ** Data *)

(** [fd->data]: the file system that [dfs_file_open] puts there, or what the
    driver has put. *)
Inductive fd_data : Type := FsData (slot : nat) | OwnData (p : Z).

(** [struct dfs_fd]; [fs] is a place of the table of file systems, [fops] the
    address of a table of operations, and a null pointer none or 0. *)
Record dfs_fd := mk_fd {
  magic : Z;
  type : Z;
  path : option (list Z);
  ref_count : Z;
  fs : option nat;
  fops : Z;
  flags : Z;
  size : Z;
  pos : Z;
  data : fd_data
}.

(** The part of it that belongs to the driver. *)
Record cursor := mk_cursor { c_flags : Z; c_size : Z; c_pos : Z; c_data : fd_data }.
Definition set_cursor (c : cursor) (d : dfs_fd) : dfs_fd :=
  mk_fd (magic d) (type d) (path d) (ref_count d) (fs d) (fops d)
    (c_flags c) (c_size c) (c_pos c) (c_data c).
Definition set_ref (n : Z) (d : dfs_fd) : dfs_fd :=
  mk_fd (magic d) (type d) (path d) n (fs d) (fops d) (flags d) (size d) (pos d) (data d).
Definition set_magic (n : Z) (d : dfs_fd) : dfs_fd :=
  mk_fd n (type d) (path d) (ref_count d) (fs d) (fops d) (flags d) (size d) (pos d) (data d).
Definition set_path (p : option (list Z)) (d : dfs_fd) : dfs_fd :=
  mk_fd (magic d) (type d) p (ref_count d) (fs d) (fops d) (flags d) (size d) (pos d) (data d).
Definition set_type (n : Z) (d : dfs_fd) : dfs_fd :=
  mk_fd (magic d) n (path d) (ref_count d) (fs d) (fops d) (flags d) (size d) (pos d) (data d).
Definition set_flags (n : Z) (d : dfs_fd) : dfs_fd :=
  mk_fd (magic d) (type d) (path d) (ref_count d) (fs d) (fops d) n (size d) (pos d) (data d).
Definition set_size (n : Z) (d : dfs_fd) : dfs_fd :=
  mk_fd (magic d) (type d) (path d) (ref_count d) (fs d) (fops d) (flags d) n (pos d) (data d).
Definition set_pos (n : Z) (d : dfs_fd) : dfs_fd :=
  mk_fd (magic d) (type d) (path d) (ref_count d) (fs d) (fops d) (flags d) (size d) n (data d).

(** What [rt_calloc] and [memset] leave. *)
Definition fd_zero : dfs_fd := mk_fd 0 0 None 0 None 0 0 0 0 (OwnData 0).

(** [struct dfs_filesystem]; [ops] is the address of a table of operations. *)
Record dfs_filesystem := mk_fs {
  dev_id : Z;
  fs_path : option (list Z);
  ops : Z;
  fs_data : Z
}.
Definition fs_zero : dfs_filesystem := mk_fs 0 None 0 0.

(** [struct statfs], [struct stat] *)
Record statfs_buf := mk_statfs { f_bsize : Z; f_blocks : Z; f_bfree : Z }.
Record stat_buf := mk_stat { st_dev : Z; st_mode : Z; st_size : Z; st_mtime : Z }.

(** ** The world outside

    [W] is what the drivers, the devices and the allocator keep.  An operation
    of a driver is none where its pointer is null; it may change the driver's
    part of the descriptor, and the [data] of a file system. *)
Class Drivers := {
  W : Type;
  (* rt_malloc, rt_calloc, rt_realloc, rt_strdup: whether there is memory, and
     where a descriptor is placed *)
  grant : W → bool * W;
  place : W → gmap Z dfs_fd → Z;
  rt_device_find : W → list Z → Z;
  rt_device_open : Z → W → Z * W;
  rt_device_close : Z → W → Z * W;
  (* struct dfs_filesystem_ops *)
  ops_name : Z → list Z;
  ops_flags : Z → Z;
  ops_fops : Z → Z;
  op_mount : Z → option (dfs_filesystem → Z → Z → W → (Z * Z) * W);
  op_unmount : Z → option (dfs_filesystem → W → (Z * Z) * W);
  op_mkfs : Z → option (Z → W → Z * W);
  op_statfs : Z → option (dfs_filesystem → W → (Z * statfs_buf) * W);
  op_unlink : Z → option (dfs_filesystem → list Z → W → Z * W);
  op_stat : Z → option (dfs_filesystem → list Z → W → (Z * stat_buf) * W);
  op_rename : Z → option (dfs_filesystem → option (list Z) → option (list Z) → W → Z * W);
  (* struct dfs_file_ops; a driver's read and getdents also return the bytes
     that they put into the buffer *)
  f_open : Z → option (dfs_fd → W → (Z * cursor) * W);
  f_close : Z → option (dfs_fd → W → (Z * cursor) * W);
  f_ioctl : Z → option (dfs_fd → Z → Z → W → (Z * cursor) * W);
  f_read : Z → option (dfs_fd → Z → W → (Z * list Z * cursor) * W);
  f_write : Z → option (dfs_fd → list Z → W → (Z * cursor) * W);
  f_flush : Z → option (dfs_fd → W → (Z * cursor) * W);
  f_lseek : Z → option (dfs_fd → Z → W → (Z * cursor) * W);
  f_getdents : Z → option (dfs_fd → Z → W → (Z * list Z * cursor) * W)
}.

(** The allocator gives memory that is not in use. *)
Class DriversOk `{Drivers} := {
  place_fresh : ∀ w h, place w h ≠ 0 ∧ h !! place w h = None
}.

(** ** State

    [filesystem_operation_table], [filesystem_table], [_fdtab.fds] (its length
    is [_fdtab.maxfd]) and the descriptors, how many path strings and directory
    streams are allocated, how often the lock is held, [errno], and the world
    outside. *)
Record dfs `{Drivers} := mk_dfs {
  init_ok : bool;
  filesystem_operation_table : list Z;
  filesystem_table : list dfs_filesystem;
  fds : list Z;
  objs : gmap Z dfs_fd;
  strings : Z;
  streams : Z;
  fslock : Z;
  errno : Z;
  world : W
}.

Section dfs.
Context `{Drivers}.
Definition D := M dfs.

Definition set_types (t : list Z) (s : dfs) : dfs :=
  mk_dfs _ (init_ok s) t (filesystem_table s) (fds s) (objs s) (strings s) (streams s) (fslock s) (errno s) (world s).
Definition set_table (t : list dfs_filesystem) (s : dfs) : dfs :=
  mk_dfs _ (init_ok s) (filesystem_operation_table s) t (fds s) (objs s) (strings s) (streams s) (fslock s) (errno s)
    (world s).
Definition set_fds (l : list Z) (s : dfs) : dfs :=
  mk_dfs _ (init_ok s) (filesystem_operation_table s) (filesystem_table s) l (objs s) (strings s) (streams s) (fslock s)
    (errno s) (world s).
Definition set_objs (o : gmap Z dfs_fd) (s : dfs) : dfs :=
  mk_dfs _ (init_ok s) (filesystem_operation_table s) (filesystem_table s) (fds s) o (strings s) (streams s) (fslock s)
    (errno s) (world s).
Definition set_strings (n : Z) (s : dfs) : dfs :=
  mk_dfs _ (init_ok s) (filesystem_operation_table s) (filesystem_table s) (fds s) (objs s) n (streams s) (fslock s)
    (errno s) (world s).
Definition set_streams (n : Z) (s : dfs) : dfs :=
  mk_dfs _ (init_ok s) (filesystem_operation_table s) (filesystem_table s) (fds s) (objs s) (strings s) n (fslock s)
    (errno s) (world s).
Definition set_lock (n : Z) (s : dfs) : dfs :=
  mk_dfs _ (init_ok s) (filesystem_operation_table s) (filesystem_table s) (fds s) (objs s) (strings s) (streams s) n
    (errno s) (world s).
Definition set_errno (n : Z) (s : dfs) : dfs :=
  mk_dfs _ (init_ok s) (filesystem_operation_table s) (filesystem_table s) (fds s) (objs s) (strings s) (streams s)
    (fslock s) n (world s).
Definition set_world (w : W) (s : dfs) : dfs :=
  mk_dfs _ (init_ok s) (filesystem_operation_table s) (filesystem_table s) (fds s) (objs s) (strings s) (streams s)
    (fslock s) (errno s) w.

(** A call into the world. *)
Definition call {A} (f : W → A * W) : D A :=
  let! w := read world in
  modify (set_world (f w).2) ;;;
  ret (f w).1.

Definition rt_set_errno (e : Z) : D unit := modify (set_errno e).

(** The fslock is a mutex that one thread may take again. *)
Definition dfs_lock : D unit := modify (λ s, set_lock (fslock s + 1) s).
Definition dfs_unlock : D unit := modify (λ s, set_lock (fslock s - 1) s).

(** Memory for a path. *)
Definition new_string : D bool :=
  let! ok := call grant in
  (when ok then modify (λ s, set_strings (strings s + 1) s)) ;;;
  ret ok.
Definition free_string : D unit := modify (λ s, set_strings (strings s - 1) s).

(** [dfs_normalize_path], in the heap. *)
Definition normalize_path (directory : option (list Z)) (filename : list Z) : D (option (list Z)) :=
  if match directory with None => negb (bool_decide (head filename = Some slash)) | _ => false end
  then ret None
  else
    let! ok := new_string in
    if (ok : bool) then
      match dfs_normalize_path false directory filename with
      | Ok (Some p) _ => ret (Some p)
      | Ok None _ => free_string ;;; ret None
      | Fault f => fail f
      end
    else ret None.

(** [dfs_subdir], as the string that its result points at. *)
Definition subdir (directory filename : list Z) : D (option (list Z)) :=
  match dfs_subdir directory filename with
  | Ok (Some i) _ => ret (Some (drop (Z.to_nat i) filename))
  | Ok None _ => ret None
  | Fault f => fail f
  end.

(** ** [dfs_init] (without [RT_USING_DFS_DEVFS]) *)
Definition dfs_init : D Z :=
  let! ok := read init_ok in
  if (ok : bool) then ret 0
  else
    modify (λ s, mk_dfs _ true (replicate DFS_FILESYSTEM_TYPES_MAX 0) (replicate DFS_FILESYSTEMS_MAX fs_zero)
      [] (objs s) (strings s) (streams s) 0 (errno s) (world s)) ;;;
    ret 0.

(** ** Types of file systems *)

(** The loop of [dfs_register] from place [i] on: the empty place and whether
    the name is new. *)
Fixpoint register_loop (name : list Z) (l : list Z) (i : nat) (empty : option nat) : option nat * bool :=
  match l with
  | [] => (empty, true)
  | o :: l =>
    if o =? 0 then register_loop name l (S i) (match empty with None => Some i | _ => empty end)
    else if bool_decide (ops_name o = name) then (empty, false)
    else register_loop name l (S i) empty
  end.

Definition dfs_register (o : Z) : D Z :=
  dfs_lock ;;;
  let! t := read filesystem_operation_table in
  let (empty, fresh) := register_loop (ops_name o) t 0 None in
  (when negb fresh then rt_set_errno (- EEXIST)) ;;;
  let! r :=
    match empty with
    | None => rt_set_errno (- ENOSPC) ;;; ret (-1)
    | Some i => if fresh then modify (set_types (<[i := o]> t)) ;;; ret 0 else ret (-1)
    end in
  dfs_unlock ;;;
  ret r.

(** The loop that [dfs_mount] and [dfs_mkfs] share. *)
Fixpoint find_type (name : list Z) (l : list Z) : option Z :=
  match l with
  | [] => None
  | o :: l => if negb (o =? 0) && bool_decide (ops_name o = name) then Some o else find_type name l
  end.

(** ** Mounted file systems *)

(** What the loop of [dfs_filesystem_lookup] asks of an entry. *)
Definition matches (path : list Z) (prefixlen : Z) (f : dfs_filesystem) : option Z :=
  match fs_path f with
  | None => None
  | Some p =>
    let fspath := Z.of_nat (length p) in
    if ops f =? 0 then None
    else if (fspath <? prefixlen) || negb (bool_decide (take (length p) path = p)) then None
    else if (1 <? fspath) && (fspath <? Z.of_nat (length path)) &&
            negb (bool_decide (path !! length p = Some slash)) then None
    else Some fspath
  end.

Fixpoint lookup_loop (path : list Z) (l : list dfs_filesystem) (i : nat) (found : option nat) (prefixlen : Z)
  : option nat :=
  match l with
  | [] => found
  | f :: l =>
    match matches path prefixlen f with
    | None => lookup_loop path l (S i) found prefixlen
    | Some fspath => lookup_loop path l (S i) (Some i) fspath
    end
  end.

(** The place of the file system in the table. *)
Definition dfs_filesystem_lookup (path : list Z) : D (option nat) :=
  dfs_lock ;;;
  let! t := read filesystem_table in
  let r := lookup_loop path t 0 None 0 in
  dfs_unlock ;;;
  ret r.

Definition dfs_filesystem_get_mounted_path (device : Z) : D (option (list Z)) :=
  dfs_lock ;;;
  let! t := read filesystem_table in
  let r := match list_find (λ f, ops f ≠ 0 ∧ dev_id f = device) t with
           | Some (_, f) => fs_path f
           | None => None
           end in
  dfs_unlock ;;;
  ret r.

(** [fs->...], through a place of the table. *)
Definition fs_at (i : nat) : D dfs_filesystem :=
  let! t := read filesystem_table in
  from_option NullDeref (t !! i).
Definition fs_update (i : nat) (g : dfs_filesystem → dfs_filesystem) : D unit :=
  modify (λ s, set_table (alter g i (filesystem_table s)) s).
(** The path, where the code uses it. *)
Definition fs_path_at (i : nat) : D (list Z) :=
  let! f := fs_at i in
  from_option NullDeref (fs_path f).

(** [struct dfs_partition], without the lock. *)
Record dfs_partition := mk_part { part_type : Z; part_offset : Z; part_size : Z }.

Definition DPT_ADDRESS : Z := 0x1be.
Definition DPT_ITEM_SIZE : Z := 16.

(** A partition of the table in a boot sector. *)
Definition dfs_filesystem_get_partition (buf : list Z) (pindex : Z) : D (Z * option dfs_partition) :=
  let dpt := u32 (DPT_ADDRESS + u32 (pindex * DPT_ITEM_SIZE)) in
  let byte (i : Z) : D Z := from_option OutOfBounds (buf !! Z.to_nat (dpt + i)) in
  let word (i : Z) : D Z :=
    let! b0 := byte i in
    let! b1 := byte (i + 1) in
    let! b2 := byte (i + 2) in
    let! b3 := byte (i + 3) in
    ret (s32 (Z.lor (Z.lor (Z.lor b0 (Z.shiftl b1 8)) (Z.shiftl b2 16)) (Z.shiftl b3 24))) in
  let! first := byte 0 in
  if negb (first =? 0x80) && negb (first =? 0) then ret (- EIO, None)
  else
    let! t := byte 4 in
    if t =? 0 then ret (- EIO, None)
    else
      let! offset := word 8 in
      let! size := word 12 in
      ret (0, Some (mk_part t offset (u32 size))).

(** ** The table of descriptors *)

(** [*d] *)
Definition fd_at (d : Z) : D dfs_fd :=
  let! o := read objs in
  from_option NullDeref (o !! d).
Definition fd_set (d : Z) (f : dfs_fd) : D unit := modify (λ s, set_objs (<[d := f]> (objs s)) s).

Definition maxfd : D Z := let! l := read fds in ret (Z.of_nat (length l)).

(** The first entry of the table that is free: the loop of [fd_alloc]. *)
Fixpoint find_free (l : list Z) : D Z :=
  match l with
  | [] => ret 0
  | d :: l =>
    if d =? 0 then ret 0
    else
      let! f := fd_at d in
      if ref_count f =? 0 then ret 0
      else
        let! i := find_free l in
        ret (1 + i)
  end.

(** The larger container; whether there was memory. *)
Definition grow : D bool :=
  let! l := read fds in
  let cnt := Z.of_nat (length l) + 4 in
  let cnt := if DFS_FD_MAX <? cnt then DFS_FD_MAX else cnt in
  let! ok := call grant in
  (when ok then modify (set_fds (l ++ replicate (Z.to_nat cnt - length l) 0))) ;;;
  ret ok.

(** The descriptor of the entry [idx], where it has none: the end of
    [fd_alloc]. *)
Definition fill_entry (idx : Z) : D Z :=
  let! max := maxfd in
  let! l := read fds in
  if (idx <? max) && (bool_decide (l !! Z.to_nat idx = Some 0)) then
    let! ok := call grant in
    if (ok : bool) then
      let! w := read world in
      let! o := read objs in
      let d := place w o in
      fd_set d fd_zero ;;;
      modify (set_fds (<[Z.to_nat idx := d]> l)) ;;;
      ret idx
    else ret max
  else ret idx.

Definition fd_alloc (startfd : Z) : D Z :=
  let! l := read fds in
  let! i := find_free (drop (Z.to_nat startfd) l) in
  let idx := startfd + i in
  let! max := maxfd in
  let! ok := if (idx =? max) && (max <? DFS_FD_MAX) then grow else ret true in
  if negb ok then ret idx else fill_entry idx.

Definition fd_new : D Z :=
  dfs_lock ;;;
  let! idx := fd_alloc 0 in
  let! max := maxfd in
  let! idx :=
    if idx =? max then ret (- (1 + DFS_FD_OFFSET))
    else
      let! l := read fds in
      let! d := from_option OutOfBounds (l !! Z.to_nat idx) in
      let! f := fd_at d in
      fd_set d (set_magic DFS_FD_MAGIC (set_ref 1 f)) ;;;
      ret idx in
  dfs_unlock ;;;
  ret (idx + DFS_FD_OFFSET).

(** The address of the descriptor, or 0. *)
Definition fd_get (fd : Z) : D Z :=
  let fd := fd - DFS_FD_OFFSET in
  let! max := maxfd in
  if (fd <? 0) || (max <=? fd) then ret 0
  else
    dfs_lock ;;;
    let! l := read fds in
    let! d := from_option OutOfBounds (l !! Z.to_nat fd) in
    if d =? 0 then dfs_unlock ;;; ret 0
    else
      let! f := fd_at d in
      if negb (magic f =? DFS_FD_MAGIC) then dfs_unlock ;;; ret 0
      else
        fd_set d (set_ref (s32 (ref_count f + 1)) f) ;;;
        dfs_unlock ;;;
        ret d.

(** The loop of [fd_put]. *)
Fixpoint clear_entry (d : Z) (l : list Z) : option (list Z) :=
  match l with
  | [] => None
  | p :: l => if p =? d then Some (0 :: l) else cons p <$> clear_entry d l
  end.

Definition fd_put (d : Z) : D unit :=
  if d =? 0 then fail AssertFailed
  else
    dfs_lock ;;;
    let! f := fd_at d in
    let n := s32 (ref_count f - 1) in
    fd_set d (set_ref n f) ;;;
    (when n =? 0 then
      (let! l := read fds in
       match clear_entry d l with
       | Some l' =>
         modify (λ s, set_objs (delete d (objs s)) s) ;;;
         modify (set_fds l')
       | None => ret tt
       end)) ;;;
    dfs_unlock.

(** The loop of [fd_is_open]. *)
Fixpoint open_loop (i : nat) (mountpath : list Z) (l : list Z) : D bool :=
  match l with
  | [] => ret false
  | d :: l =>
    if d =? 0 then open_loop i mountpath l
    else
      let! f := fd_at d in
      if (fops f =? 0) || bool_decide (path f = None) then open_loop i mountpath l
      else if bool_decide (fs f = Some i) && bool_decide (path f = Some mountpath) then ret true
      else open_loop i mountpath l
  end.

Definition fd_is_open (pathname : list Z) : D Z :=
  let! fullpath := normalize_path None pathname in
  match fullpath with
  | None => ret (-1)
  | Some fullpath =>
    let! found := dfs_filesystem_lookup fullpath in
    match found with
    | None => free_string ;;; ret (-1)
    | Some i =>
      let! p := fs_path_at i in
      let mountpath := if bool_decide (p = [slash]) then fullpath else drop (length p) fullpath in
      dfs_lock ;;;
      let! l := read fds in
      let! b := open_loop i mountpath l in
      if (b : bool) then free_string ;;; dfs_unlock ;;; ret 0
      else dfs_unlock ;;; free_string ;;; ret (-1)
    end
  end.
End dfs.
