(* ===== verification/DfsFile.v ===== *)
(** * The file system layer: files ([components/dfs/src/dfs_file.c])

    An operation takes the descriptor's contents and returns them with the
    result; [with_fd] is the call of one through a pointer. *)

From S2P Require Import Prelude DfsPath Dfs.

Section file.
Context `{Drivers}.

(** A call with the descriptor that [d] points at; [null] is the result for a
    null pointer. *)
Definition with_fd {A} (d : Z) (null : A) (m : dfs_fd → D (A * dfs_fd)) : D A :=
  if d =? 0 then ret null
  else
    let! f := fd_at d in
    let! r := m f in
    fd_set d r.2 ;;;
    ret r.1.

(** [rt_free] of a path that may be null. *)
Definition free_path (p : option (list Z)) : D unit :=
  match p with Some _ => free_string | None => ret tt end.

(** [rt_strdup] *)
Definition rt_strdup (p : list Z) : D (option (list Z)) :=
  let! ok := new_string in
  ret (if (ok : bool) then Some p else None).

(** The flag of the type of the file system at [i]. *)
Definition fullpath_flag (f : dfs_filesystem) : bool :=
  negb (Z.land (ops_flags (ops f)) DFS_FS_FLAG_FULLPATH =? 0).

(** The path below the mount point. *)
Definition below (f : dfs_filesystem) (fullpath : list Z) : D (option (list Z)) :=
  let! p := from_option NullDeref (fs_path f) in
  subdir p fullpath.

(** [fd->path] of a file that is opened, in place of [fullpath]. *)
Definition file_path (f : dfs_filesystem) (fullpath : list Z) : D (option (list Z)) :=
  if fullpath_flag f then ret (Some fullpath)
  else
    let! sub := below f fullpath in
    let! p := rt_strdup (match sub with None => [slash] | Some sub => sub end) in
    free_string ;;;
    ret p.

Definition dfs_file_open (fd : dfs_fd) (pathname : list Z) (flags : Z) : D (Z * dfs_fd) :=
  let! fullpath := normalize_path None pathname in
  match fullpath with
  | None => ret (- ENOMEM, fd)
  | Some fullpath =>
    let! found := dfs_filesystem_lookup fullpath in
    match found with
    | None => free_string ;;; ret (- ENOENT, fd)
    | Some i =>
      let! f := fs_at i in
      let fo := ops_fops (ops f) in
      let! p := file_path f fullpath in
      let fd := mk_fd (magic fd) FT_REGULAR p (ref_count fd) (Some i) fo (u32 flags) 0 0 (FsData i) in
      if fo =? 0 then fail NullDeref
      else
        match f_open fo with
        | None => free_path p ;;; ret (- ENOSYS, set_path None fd)
        | Some o =>
          let! r := call (o fd) in
          let fd := set_cursor r.2 fd in
          if r.1 <? 0 then free_path p ;;; ret (r.1, set_path None fd)
          else
            let fd := set_flags (Z.lor (Dfs.flags fd) DFS_F_OPEN) fd in
            ret (0, if negb (Z.land flags O_DIRECTORY =? 0)
                    then set_flags (Z.lor (Dfs.flags fd) DFS_F_DIRECTORY) (set_type FT_DIRECTORY fd)
                    else fd)
        end
    end
  end.

(** [fd->fops->...], the operation that [f] looks up, with its pointer checked. *)
Definition fop {A} (f : Z → option A) (fd : dfs_fd) : D (option A) :=
  if fops fd =? 0 then fail NullDeref else ret (f (fops fd)).

Definition dfs_file_close (fd : dfs_fd) : D (Z * dfs_fd) :=
  let! o := fop f_close fd in
  let! r := match o with
            | Some o => let! r := call (o fd) in ret (r.1, set_cursor r.2 fd)
            | None => ret (0, fd)
            end in
  if r.1 <? 0 then ret r
  else free_path (path r.2) ;;; ret (r.1, set_path None r.2).

Definition dfs_file_ioctl (fd : dfs_fd) (cmd args : Z) : D (Z * dfs_fd) :=
  let mask := Z.lor O_NONBLOCK O_APPEND in
  if (type fd =? FT_REGULAR) && (cmd =? F_GETFL) then ret (s32 (flags fd), fd)
  else if (type fd =? FT_REGULAR) && (cmd =? F_SETFL) then
    ret (0, set_flags (Z.lor (Z.land (flags fd) (u32 (Z.lnot mask))) (Z.land args mask)) fd)
  else
    let! o := fop f_ioctl fd in
    match o with
    | Some o => let! r := call (o fd cmd args) in ret (r.1, set_cursor r.2 fd)
    | None => ret (- ENOSYS, fd)
    end.

(** The result is with the bytes that the driver put into the buffer. *)
Definition dfs_file_read (fd : dfs_fd) (len : Z) : D (Z * list Z * dfs_fd) :=
  let! o := fop f_read fd in
  match o with
  | None => ret (- ENOSYS, [], fd)
  | Some o =>
    let! r := call (o fd len) in
    let fd := set_cursor r.2 fd in
    ret (r.1, if r.1.1 <? 0 then set_flags (Z.lor (flags fd) DFS_F_EOF) fd else fd)
  end.

Definition dfs_file_getdents (fd : dfs_fd) (nbytes : Z) : D (Z * list Z * dfs_fd) :=
  if negb (type fd =? FT_DIRECTORY) then ret (- EINVAL, [], fd)
  else
    let! o := fop f_getdents fd in
    match o with
    | None => ret (- ENOSYS, [], fd)
    | Some o => let! r := call (o fd nbytes) in ret (r.1, set_cursor r.2 fd)
    end.

Definition dfs_file_write (fd : dfs_fd) (buf : list Z) : D (Z * dfs_fd) :=
  let! o := fop f_write fd in
  match o with
  | None => ret (- ENOSYS, fd)
  | Some o => let! r := call (o fd buf) in ret (r.1, set_cursor r.2 fd)
  end.

Definition dfs_file_flush (fd : dfs_fd) : D (Z * dfs_fd) :=
  let! o := fop f_flush fd in
  match o with
  | None => ret (- ENOSYS, fd)
  | Some o => let! r := call (o fd) in ret (r.1, set_cursor r.2 fd)
  end.

Definition dfs_file_lseek (fd : dfs_fd) (offset : Z) : D (Z * dfs_fd) :=
  let! o := fop f_lseek fd in
  match o with
  | None => ret (- ENOSYS, fd)
  | Some o =>
    let! r := call (o fd offset) in
    let fd := set_cursor r.2 fd in
    ret (r.1, if 0 <=? r.1 then set_pos r.1 fd else fd)
  end.

(** [length] is what the last argument of the driver's [ioctl] points at. *)
Definition dfs_file_ftruncate (fd : dfs_fd) (length : Z) : D (Z * dfs_fd) :=
  if negb (type fd =? FT_REGULAR) || (length <? 0) then ret (- EINVAL, fd)
  else
    let! o := fop f_ioctl fd in
    match o with
    | None => ret (- ENOSYS, fd)
    | Some o =>
      let! r := call (o fd RT_FIOFTRUNCATE length) in
      let fd := set_cursor r.2 fd in
      ret (r.1, if r.1 =? 0 then set_size length fd else fd)
    end.

(** ** Operations on names *)

(** The name that a driver is given for [fullpath]. *)
Definition driver_path (f : dfs_filesystem) (fullpath : list Z) : D (option (list Z)) :=
  if fullpath_flag f then ret (Some fullpath) else below f fullpath.

Definition dfs_file_unlink (pathname : list Z) : D Z :=
  let! fullpath := normalize_path None pathname in
  match fullpath with
  | None => ret (- EINVAL)
  | Some fullpath =>
    let! found := dfs_filesystem_lookup fullpath in
    let! result :=
      match found with
      | None => ret (- ENOENT)
      | Some i =>
        let! open := fd_is_open fullpath in
        if open =? 0 then ret (- EBUSY)
        else
          let! f := fs_at i in
          match op_unlink (ops f) with
          | None => ret (- ENOSYS)
          | Some o =>
            let! p := driver_path f fullpath in
            call (o f (match p with Some p => p | None => [slash] end))
          end
      end in
    free_string ;;;
    ret result
  end.

(** The mode of a mount point: a directory with all permissions. *)
Definition S_IFDIR : Z := 0x4000.
Definition S_IFREG : Z := 0x8000.
Definition mode_rw : Z := 0x1b6.   (* S_IRUSR | S_IRGRP | S_IROTH | S_IWUSR | S_IWGRP | S_IWOTH *)
Definition mode_x : Z := 0x49.     (* S_IXUSR | S_IXGRP | S_IXOTH *)

(** The buffer is none where it is not written. *)
Definition dfs_file_stat (pathname : list Z) : D (Z * option stat_buf) :=
  let! fullpath := normalize_path None pathname in
  match fullpath with
  | None => ret (-1, None)
  | Some fullpath =>
    let! found := dfs_filesystem_lookup fullpath in
    match found with
    | None => free_string ;;; ret (- ENOENT, None)
    | Some i =>
      let! f := fs_at i in
      let! sub := if bool_decide (fullpath = [slash]) then ret None else below f fullpath in
      match sub with
      | None =>
        free_string ;;;
        ret (0, Some (mk_stat 0 (Z.lor mode_rw (Z.lor S_IFDIR mode_x)) 0 0))
      | Some sub =>
        match op_stat (ops f) with
        | None => free_string ;;; ret (- ENOSYS, None)
        | Some o =>
          let! r := call (o f (if fullpath_flag f then fullpath else sub)) in
          free_string ;;;
          ret (r.1, Some r.2)
        end
      end
    end
  end.

Definition dfs_file_rename (oldpath newpath : list Z) : D Z :=
  let! oldfullpath := normalize_path None oldpath in
  match oldfullpath with
  | None => ret (- ENOENT)
  | Some old =>
    let! newfullpath := normalize_path None newpath in
    match newfullpath with
    | None => free_string ;;; ret (- ENOENT)
    | Some new =>
      let! oldfs := dfs_filesystem_lookup old in
      let! newfs := dfs_filesystem_lookup new in
      let! result :=
        if bool_decide (oldfs = newfs) then
          let! i := from_option NullDeref oldfs in
          let! f := fs_at i in
          match op_rename (ops f) with
          | None => ret (- ENOSYS)
          | Some o =>
            let! p := driver_path f old in
            let! q := driver_path f new in
            call (o f p q)
          end
        else ret (- EXDEV) in
      free_string ;;;
      free_string ;;;
      ret result
    end
  end.
End file.
