(* ===== verification/DfsMount.v ===== *)
(** * The file system layer: mounting ([dfs_mount] and what follows it in
    [components/dfs/src/dfs_fs.c]) *)

From S2P Require Import Prelude DfsPath Dfs DfsFile.

Section mount.
Context `{Drivers}.

(** The device of a name; 0 for a null pointer. *)
Definition find_device (device_name : option (list Z)) : D (option Z) :=
  match device_name with
  | None => ret (Some 0)
  | Some n =>
    let! w := read world in
    let d := rt_device_find w n in
    ret (if d =? 0 then None else Some d)
  end.

(** The directory must exist below what is mounted; the descriptor is on the
    stack. *)
Definition directory_exists (fullpath : list Z) : D bool :=
  if bool_decide (fullpath = [slash]) || bool_decide (fullpath = [slash; 100; 101; 118]) then ret true
  else
    let! r := dfs_file_open fd_zero fullpath (Z.lor O_RDONLY O_DIRECTORY) in
    if r.1 <? 0 then ret false
    else
      dfs_file_close r.2 ;;;
      ret true.

(** What the loop of [dfs_mount] finds. *)
Inductive entry : Type := Mounted | Full | Empty (i : nat).

Fixpoint entry_loop (path : list Z) (l : list dfs_filesystem) (i : nat) (found : option nat) : D entry :=
  match l with
  | [] => ret (match found with Some i => Empty i | None => Full end)
  | f :: l =>
    if ops f =? 0 then entry_loop path l (S i) (match found with None => Some i | _ => found end)
    else
      let! p := from_option NullDeref (fs_path f) in
      if bool_decide (p = path) then ret Mounted else entry_loop path l (S i) found
  end.

(** The label [err1]. *)
Definition err1 : D Z := dfs_unlock ;;; free_string ;;; ret (-1).

(** The end of [dfs_mount], with the entry [i] that is filled; [o] is the
    driver's mount. *)
Definition start (i : nat) (dev : Z)
    (o : dfs_filesystem → Z → Z → W → (Z * Z) * W) (rwflag data : Z) : D Z :=
  let! e := if dev =? 0 then ret 0 else call (rt_device_open dev) in
  if negb (e =? 0) then
    dfs_lock ;;;
    fs_update i (λ _, fs_zero) ;;;
    err1
  else
    let! f := fs_at i in
    let! r := call (o f rwflag data) in
    fs_update i (λ f, mk_fs (dev_id f) (fs_path f) (ops f) r.2) ;;;
    if r.1 <? 0 then
      (when negb (dev =? 0) then (call (rt_device_close dev) ;;; ret tt)) ;;;
      dfs_lock ;;;
      fs_update i (λ _, fs_zero) ;;;
      err1
    else ret 0.

(** The part with the table: an entry for [fullpath]. *)
Definition mount_entry (path fullpath : list Z) (dev o : Z)
    (mount : dfs_filesystem → Z → Z → W → (Z * Z) * W) (rwflag data : Z) : D Z :=
  dfs_lock ;;;
  let! l := read filesystem_table in
  let! e := entry_loop path l 0 None in
  match e with
  | Mounted => rt_set_errno (- EINVAL) ;;; err1
  | Full => rt_set_errno (- ENOSPC) ;;; err1
  | Empty i =>
    fs_update i (λ f, mk_fs dev (Some fullpath) o (fs_data f)) ;;;
    dfs_unlock ;;;
    start i dev mount rwflag data
  end.

(** From the search for the type of the file system on. *)
Definition mount_device (dev : Z) (path filesystemtype : list Z) (rwflag data : Z) : D Z :=
  dfs_lock ;;;
  let! t := read filesystem_operation_table in
  dfs_unlock ;;;
  match find_type filesystemtype t with
  | None => rt_set_errno (- ENODEV) ;;; ret (-1)
  | Some o =>
    match op_mount o with
    | None => rt_set_errno (- ENOSYS) ;;; ret (-1)
    | Some mount =>
      let! fullpath := normalize_path None path in
      match fullpath with
      | None => rt_set_errno (- ENOTDIR) ;;; ret (-1)
      | Some fullpath =>
        let! ok := directory_exists fullpath in
        if negb ok then free_string ;;; rt_set_errno (- ENOTDIR) ;;; ret (-1)
        else mount_entry path fullpath dev o mount rwflag data
      end
    end
  end.

Definition dfs_mount (device_name : option (list Z)) (path filesystemtype : list Z) (rwflag data : Z) : D Z :=
  let! dev := find_device device_name in
  match dev with
  | None => rt_set_errno (- ENODEV) ;;; ret (-1)
  | Some dev => mount_device dev path filesystemtype rwflag data
  end.

Definition dfs_unmount (specialfile : list Z) : D Z :=
  let! fullpath := normalize_path None specialfile in
  match fullpath with
  | None => rt_set_errno (- ENOTDIR) ;;; ret (-1)
  | Some fullpath =>
    dfs_lock ;;;
    let! t := read filesystem_table in
    match list_find (λ f, fs_path f = Some fullpath) t with
    | None => err1
    | Some (i, f) =>
      if ops f =? 0 then fail NullDeref
      else
        match op_unmount (ops f) with
        | None => err1
        | Some o =>
          let! r := call (o f) in
          fs_update i (λ f, mk_fs (dev_id f) (fs_path f) (ops f) r.2) ;;;
          if r.1 <? 0 then err1
          else
            (when negb (dev_id f =? 0) then (call (rt_device_close (dev_id f)) ;;; ret tt)) ;;;
            free_string ;;;
            fs_update i (λ _, fs_zero) ;;;
            dfs_unlock ;;;
            free_string ;;;
            ret 0
        end
    end
  end.

Definition dfs_mkfs (fs_name : list Z) (device_name : option (list Z)) : D Z :=
  let! dev := match device_name with Some _ => find_device device_name | None => ret None end in
  match dev with
  | None => rt_set_errno (- ENODEV) ;;; ret (-1)
  | Some dev =>
    dfs_lock ;;;
    let! t := read filesystem_operation_table in
    dfs_unlock ;;;
    match find_type fs_name t with
    | None => ret (-1)
    | Some o =>
      match op_mkfs o with
      | None => rt_set_errno (- ENOSYS) ;;; ret (-1)
      | Some mkfs => call (mkfs dev)
      end
    end
  end.

Definition dfs_statfs (path : list Z) : D (Z * option statfs_buf) :=
  let! found := dfs_filesystem_lookup path in
  match found with
  | None => ret (-1, None)
  | Some i =>
    let! f := fs_at i in
    match op_statfs (ops f) with
    | None => ret (-1, None)
    | Some o =>
      let! r := call (o f) in
      ret (r.1, Some r.2)
    end
  end.
End mount.
