(* ===== verification/DfsPosix.v ===== *)
(** * The file system layer: the calls of a program ([dfs_posix.c])

    A call that fails returns -1 and sets [errno]; a call that reads into a
    buffer returns the bytes with its result. *)

From S2P Require Import Prelude DfsPath Dfs DfsFile DfsMount.

Section posix.
Context `{Drivers}.

(** [rt_set_errno(result); return -1;] where the result is negative. *)
Definition error (result : Z) : D Z := rt_set_errno result ;;; ret (-1).

Definition open (file : list Z) (flags : Z) : D Z :=
  let! fd := fd_new in
  if fd <? 0 then error (- ENOMEM)
  else
    let! d := fd_get fd in
    let! result := with_fd d (- EINVAL) (λ f, dfs_file_open f file flags) in
    if result <? 0 then
      fd_put d ;;;
      fd_put d ;;;
      error result
    else
      fd_put d ;;;
      ret fd.

Definition close (fd : Z) : D Z :=
  let! d := fd_get fd in
  if d =? 0 then error (- EBADF)
  else
    let! result := with_fd d (- ENXIO) dfs_file_close in
    fd_put d ;;;
    if result <? 0 then error result
    else
      fd_put d ;;;
      ret 0.

(** What [read], [write] and the others share: the descriptor is held for the
    operation [m]; a negative result is an error. *)
Definition read_ (fd len : Z) : D (Z * list Z) :=
  let! d := fd_get fd in
  if d =? 0 then let! r := error (- EBADF) in ret (r, [])
  else
    let! r := with_fd d (- EINVAL, []) (λ f, dfs_file_read f len) in
    fd_put d ;;;
    if r.1 <? 0 then let! e := error r.1 in ret (e, r.2) else ret r.

Definition write (fd : Z) (buf : list Z) : D Z :=
  let! d := fd_get fd in
  if d =? 0 then error (- EBADF)
  else
    let! r := with_fd d (- EINVAL) (λ f, dfs_file_write f buf) in
    fd_put d ;;;
    if r <? 0 then error r else ret r.

(** The place that [lseek] asks for, from [SEEK_SET], [SEEK_CUR] and
    [SEEK_END]. *)
Definition seek_target (f : dfs_fd) (offset whence : Z) : option Z :=
  if whence =? 0 then Some offset
  else if whence =? 1 then Some (s32 (offset + pos f))
  else if whence =? 2 then Some (s32 (offset + size f))
  else None.

Definition lseek (fd offset whence : Z) : D Z :=
  let! d := fd_get fd in
  if d =? 0 then error (- EBADF)
  else
    let! f := fd_at d in
    match seek_target f offset whence with
    | None => fd_put d ;;; error (- EINVAL)
    | Some offset =>
      if offset <? 0 then fd_put d ;;; error (- EINVAL)
      else
        let! r := with_fd d (- EINVAL) (λ f, dfs_file_lseek f offset) in
        fd_put d ;;;
        if r <? 0 then error r else ret offset
    end.

Definition rename (old_file new_file : list Z) : D Z :=
  let! r := dfs_file_rename old_file new_file in
  if r <? 0 then error r else ret 0.

Definition unlink (pathname : list Z) : D Z :=
  let! r := dfs_file_unlink pathname in
  if r <? 0 then error r else ret 0.

Definition stat (file : list Z) : D (Z * option stat_buf) :=
  let! r := dfs_file_stat file in
  if r.1 <? 0 then let! e := error r.1 in ret (e, r.2) else ret r.

Definition fstat (fildes : Z) : D (Z * option stat_buf) :=
  let! d := fd_get fildes in
  if d =? 0 then let! e := error (- EBADF) in ret (e, None)
  else
    let! f := fd_at d in
    let mode := Z.lor S_IFREG mode_rw in
    let mode := if type f =? FT_DIRECTORY
                then Z.lor (Z.land mode (Z.lnot S_IFREG)) (Z.lor S_IFDIR mode_x) else mode in
    fd_put d ;;;
    ret (0, Some (mk_stat 0 mode (size f) 0)).

(** The result of the driver as it is, and no [errno]. *)
Definition fsync (fildes : Z) : D Z :=
  let! d := fd_get fildes in
  if d =? 0 then error (- EBADF)
  else
    let! r := with_fd d (- EINVAL) dfs_file_flush in
    fd_put d ;;;
    ret r.

Definition fcntl (fildes cmd arg : Z) : D Z :=
  let! d := fd_get fildes in
  let! r := if d =? 0 then ret (- EBADF)
            else
              let! r := with_fd d (- EINVAL) (λ f, dfs_file_ioctl f cmd arg) in
              fd_put d ;;;
              ret r in
  if r <? 0 then error r else ret r.

Definition ioctl (fildes cmd arg : Z) : D Z := fcntl fildes cmd arg.

Definition ftruncate (fd length : Z) : D Z :=
  let! d := fd_get fd in
  if d =? 0 then error (- EBADF)
  else if length <? 0 then fd_put d ;;; error (- EINVAL)
  else
    let! r := with_fd d (- EINVAL) (λ f, dfs_file_ftruncate f length) in
    fd_put d ;;;
    if r <? 0 then error r else ret 0.

Definition statfs (path : list Z) : D (Z * option statfs_buf) :=
  let! r := dfs_statfs path in
  if r.1 <? 0 then let! e := error r.1 in ret (e, r.2) else ret r.

(** The result of the close is not looked at. *)
Definition mkdir (path : list Z) : D Z :=
  let! fd := fd_new in
  if fd =? -1 then error (- ENOMEM)
  else
    let! d := fd_get fd in
    let! result := with_fd d (- EINVAL) (λ f, dfs_file_open f path (Z.lor O_DIRECTORY O_CREAT)) in
    if result <? 0 then
      fd_put d ;;;
      fd_put d ;;;
      error result
    else
      with_fd d (- ENXIO) dfs_file_close ;;;
      fd_put d ;;;
      fd_put d ;;;
      ret 0.

Definition rmdir (pathname : list Z) : D Z :=
  let! r := dfs_file_unlink pathname in
  if r <? 0 then error r else ret 0.

(** ** Directory streams *)

(** [DIR]; [dbuf] are the bytes of the buffer that are known. *)
Record DIR := mk_dir { dfd : Z; dbuf : list Z; num : Z; cur : Z }.
Definition sizeof_buf : Z := 512.

Definition opendir (name : list Z) : D (option DIR) :=
  let! fd := fd_new in
  if fd =? -1 then rt_set_errno (- ENOMEM) ;;; ret None
  else
    let! d := fd_get fd in
    let! result := with_fd d (- EINVAL) (λ f, dfs_file_open f name (Z.lor O_RDONLY O_DIRECTORY)) in
    if 0 <=? result then
      let! ok := call grant in
      let! t := if (ok : bool) then
                  modify (λ s, set_streams (streams s + 1) s) ;;;
                  ret (Some (mk_dir fd (replicate (Z.to_nat sizeof_buf) 0) 0 0))
                else
                  with_fd d (- ENXIO) dfs_file_close ;;;
                  fd_put d ;;;
                  ret None in
      fd_put d ;;;
      ret t
    else
      fd_put d ;;;
      fd_put d ;;;
      rt_set_errno result ;;;
      ret None.

(** The bytes [bs] at the start of the buffer. *)
Definition fill_buf (bs buf : list Z) : D (list Z) :=
  if Z.of_nat (length bs) <=? sizeof_buf then ret (bs ++ drop (length bs) buf) else fail OutOfBounds.

(** [dirent_ptr->d_reclen]: the half word at offset 2 of the entry. *)
Definition d_reclen (d : DIR) : D Z :=
  if cur d <? 0 then fail OutOfBounds
  else
    let! lo := from_option OutOfBounds (dbuf d !! Z.to_nat (cur d + 2)) in
    let! hi := from_option OutOfBounds (dbuf d !! Z.to_nat (cur d + 3)) in
    ret (lo + 256 * hi).

(** The entry is the offset in the buffer. *)
Definition readdir (d : DIR) : D (option Z * DIR) :=
  let! f := fd_get (dfd d) in
  if f =? 0 then rt_set_errno (- EBADF) ;;; ret (None, d)
  else
    let! d := if negb (num d =? 0) then
                let! n := d_reclen d in
                ret (mk_dir (dfd d) (dbuf d) (num d) (s32 (cur d + n)))
              else ret d in
    if (num d =? 0) || (num d <=? cur d) then
      let! r := with_fd f (- EINVAL, []) (λ fd, dfs_file_getdents fd (sizeof_buf - 1)) in
      let! buf := fill_buf r.2 (dbuf d) in
      if r.1 <=? 0 then
        fd_put f ;;;
        rt_set_errno r.1 ;;;
        ret (None, mk_dir (dfd d) buf (num d) (cur d))
      else
        fd_put f ;;;
        ret (Some 0, mk_dir (dfd d) buf r.1 0)
    else
      fd_put f ;;;
      ret (Some (cur d), d).

Definition telldir (d : DIR) : D Z :=
  let! f := fd_get (dfd d) in
  if f =? 0 then rt_set_errno (- EBADF) ;;; ret 0
  else
    let! fd := fd_at f in
    fd_put f ;;;
    ret (s32 (pos fd - num d + cur d)).

Definition seekdir (d : DIR) (offset : Z) : D DIR :=
  let! f := fd_get (dfd d) in
  if f =? 0 then rt_set_errno (- EBADF) ;;; ret d
  else
    let! r := with_fd f (- EINVAL) (λ fd, dfs_file_lseek fd offset) in
    fd_put f ;;;
    ret (if 0 <=? r then mk_dir (dfd d) (dbuf d) 0 0 else d).

Definition rewinddir (d : DIR) : D DIR :=
  let! f := fd_get (dfd d) in
  if f =? 0 then rt_set_errno (- EBADF) ;;; ret d
  else
    let! r := with_fd f (- EINVAL) (λ fd, dfs_file_lseek fd 0) in
    fd_put f ;;;
    ret (if 0 <=? r then mk_dir (dfd d) (dbuf d) 0 0 else d).

(** The descriptor is freed even where the close failed. *)
Definition closedir (d : DIR) : D Z :=
  let! f := fd_get (dfd d) in
  if f =? 0 then error (- EBADF)
  else
    let! result := with_fd f (- ENXIO) dfs_file_close in
    fd_put f ;;;
    fd_put f ;;;
    modify (λ s, set_streams (streams s - 1) s) ;;;
    if result <? 0 then error result else ret 0.

Definition access (path : list Z) : D Z :=
  let! r := stat path in
  ret (if r.1 <? 0 then -1 else 0).
End posix.
