(* ===== verification/DfsLookup.v ===== *)
(** * Looking up a file system

    [dfs_filesystem_lookup] compares strings; this file says what that means
    for the components of the paths: the file system found is the one that is
    mounted deepest above the path. *)

From S2P Require Import Prelude DfsPath Dfs.

(** ** Prefixes of rendered paths *)
Lemma render_length cs : Forall comp_ok cs → cs ≠ [] → (1 < length (render cs))%nat.
Proof.
  intros Hcs Hne. destruct cs as [|c cs]; [done|]. apply Forall_cons in Hcs as [(Hc & _) _].
  unfold render. simpl. rewrite length_app. destruct c; [done|simpl; lia].
Qed.
Lemma render_app ms ks : ms ≠ [] → render (ms ++ ks) = render ms ++ concat (cons slash <$> ks).
Proof.
  intros Hne. destruct ms as [|c ms]; [done|]. unfold render at 1 2. cbn [app].
  by rewrite app_comm_cons, fmap_app, concat_app.
Qed.
Lemma concat_head ks : ks ≠ [] → ∃ r, concat (cons slash <$> ks) = slash :: r.
Proof. destruct ks as [|k ks]; [done|]. simpl. by eexists. Qed.

(** The test of the code, on the strings. *)
Definition string_prefix (p path : list Z) : Prop :=
  take (length p) path = p ∧
  ((1 < length p < length path)%nat → path !! length p = Some slash).

Lemma render_prefix ms cs : Forall comp_ok ms → Forall comp_ok cs →
  string_prefix (render ms) (render cs) ↔ ms `prefix_of` cs.
Proof.
  intros Hms Hcs. split.
  - intros [Ht Hs]. destruct (decide (ms = [])) as [->|Hne]; [apply prefix_nil|].
    pose proof (render_length _ Hms Hne) as Hl. set (n := length (render ms)) in *.
    assert (render cs = render ms ++ drop n (render cs)) as E by (by rewrite <- Ht at 1; rewrite take_drop).
    apply (f_equal components) in E. rewrite components_render in E by done.
    destruct (drop n (render cs)) as [|x r] eqn:Ed.
    + rewrite app_nil_r, components_render in E by done. by subst.
    + assert (n < length (render cs))%nat as Hn.
      { apply (f_equal length) in Ed. rewrite length_drop in Ed. simpl in Ed. lia. }
      specialize (Hs (conj Hl Hn)). rewrite <- (Nat.add_0_r n), <- lookup_drop, Ed in Hs. injection Hs as ->.
      rewrite components_join, components_render in E by done. by exists (components r).
  - intros [ks ->]. unfold string_prefix. destruct (decide (ms = [])) as [->|Hne].
    + split; [|simpl; lia]. cbn [app]. destruct ks; [done|]. unfold render. simpl. by rewrite take_0.
    + rewrite render_app by done. split; [by rewrite take_app_length|]. intros [_ Hn].
      destruct (decide (ks = [])) as [->|Hk]; [simpl in Hn; rewrite app_nil_r in Hn; lia|].
      destruct (concat_head _ Hk) as [r ->]. by rewrite list_lookup_middle.
Qed.

Lemma render_mono ms ks : Forall comp_ok ms → Forall comp_ok ks →
  (length (render ms) ≤ length (render (ms ++ ks)))%nat ∧
  (ks ≠ [] → (length (render ms) < length (render (ms ++ ks)))%nat).
Proof.
  intros Hms Hks. destruct (decide (ms = [])) as [->|Hne].
  - cbn [app]. destruct (decide (ks = [])) as [->|Hk]; [done|]. pose proof (render_length _ Hks Hk). simpl. lia.
  - rewrite render_app, length_app by done. split; [lia|]. intros Hk. destruct (concat_head _ Hk) as [r ->]. simpl. lia.
Qed.

(** ** The loop *)
Section lookup.
Context `{Drivers}.

(** The entry [f] is a mounted file system above [path]. *)
Definition above (path : list Z) (f : dfs_filesystem) : Prop :=
  ∃ p, fs_path f = Some p ∧ ops f ≠ 0 ∧ string_prefix p path.

Lemma matches_some path n f m : 0 ≤ n →
  matches path n f = Some m ↔
  ∃ p, fs_path f = Some p ∧ ops f ≠ 0 ∧ string_prefix p path ∧ n ≤ m ∧ m = Z.of_nat (length p).
Proof.
  intros Hn. unfold matches, string_prefix. destruct (fs_path f) as [p|]; [|naive_solver].
  destruct (Z.eqb_spec (ops f) 0) as [E|E]; [naive_solver|].
  destruct (Z.ltb_spec (Z.of_nat (length p)) n) as [L|L]; cbn [orb].
  { split; [done|]. intros (? & [= <-] & _ & _ & ? & ->). lia. }
  destruct (bool_decide_reflect (take (length p) path = p)) as [T|T]; cbn [negb orb].
  2:{ split; [done|]. intros (? & [= <-] & _ & [? _] & _). done. }
  destruct (Z.ltb_spec 1 (Z.of_nat (length p))); cbn [andb];
    [destruct (Z.ltb_spec (Z.of_nat (length p)) (Z.of_nat (length path))); cbn [andb];
     [destruct (bool_decide_reflect (path !! length p = Some slash)); cbn [negb]|]|].
  - split; [intros [= <-]; exists p; auto 10|]. intros (? & [= <-] & _ & _ & _ & ->). done.
  - split; [done|]. intros (? & [= <-] & _ & [_ Hs] & _). destruct n0. apply Hs. lia.
  - split; [intros [= <-]; exists p; split_and!; try done; lia|]. intros (? & [= <-] & _ & _ & _ & ->). done.
  - split; [intros [= <-]; exists p; split_and!; try done; lia|]. intros (? & [= <-] & _ & _ & _ & ->). done.
Qed.

(** The best entry of a table: the last of the longest. *)
Definition best (path : list Z) (t : list dfs_filesystem) (r : option nat) (n : Z) : Prop :=
  match r with
  | None => n = 0 ∧ ∀ i f, t !! i = Some f → ¬ above path f
  | Some i => ∃ f p, t !! i = Some f ∧ fs_path f = Some p ∧ ops f ≠ 0 ∧ string_prefix p path ∧ n = Z.of_nat (length p)
      ∧ ∀ j g q, t !! j = Some g → fs_path g = Some q → above path g → (length q ≤ length p)%nat
  end.

Lemma best_nonneg path t r n : best path t r n → 0 ≤ n.
Proof. destruct r; simpl; [intros (? & ? & _ & _ & _ & _ & -> & _); lia|lia]. Qed.

Lemma best_snoc path t f r n : best path t r n →
  best path (t ++ [f]) (match matches path n f with None => r | Some _ => Some (length t) end)
    (match matches path n f with None => n | Some m => m end).
Proof.
  intros Hb. pose proof (best_nonneg _ _ _ _ Hb) as Hn. destruct (matches path n f) as [m|] eqn:E.
  - apply matches_some in E as (p & Hp & Ho & Hs & Hle & ->); [|done]. exists f, p.
    split_and!; try done; [by rewrite list_lookup_middle|]. intros j g q Hj Hq Ha.
    apply lookup_app_Some in Hj as [Hj|[_ Hj]].
    + destruct r as [i|]; simpl in Hb; [|destruct Hb as [_ Hb]; by destruct (Hb _ _ Hj)].
      destruct Hb as (f' & p' & _ & _ & _ & _ & -> & Hmax). specialize (Hmax _ _ _ Hj Hq Ha). lia.
    + apply list_lookup_singleton_Some in Hj as [_ <-]. by replace q with p by congruence.
  - assert (∀ g p, g = f → fs_path g = Some p → above path g → Z.of_nat (length p) < n) as Hf.
    { intros g p -> Hp (p' & Hp' & Ho & Hs). rewrite Hp in Hp'. injection Hp' as <-.
      destruct (Z.ltb_spec (Z.of_nat (length p)) n); [done|].
      assert (matches path n f = Some (Z.of_nat (length p))) as E'; [|congruence].
      apply matches_some; [done|]. exists p. auto 10. }
    destruct r as [i|]; simpl in *.
    + destruct Hb as (f' & p' & Hi & Hp & Ho & Hs & -> & Hmax). exists f', p'.
      split_and!; try done; [by apply lookup_app_l_Some|]. intros j g q Hj Hq Ha.
      apply lookup_app_Some in Hj as [Hj|[_ Hj]]; [by eapply Hmax|].
      apply list_lookup_singleton_Some in Hj as [_ <-]. pose proof (Hf f q eq_refl Hq Ha). lia.
    + destruct Hb as [-> Hb]. split; [done|]. intros j g Hj Ha. apply lookup_app_Some in Hj as [Hj|[_ Hj]].
      { by destruct (Hb _ _ Hj). }
      apply list_lookup_singleton_Some in Hj as [_ <-]. destruct Ha as (p & Hp & Ho & Hs).
      pose proof (Hf f p eq_refl Hp ltac:(by exists p)). lia.
Qed.

Lemma lookup_loop_best path l : ∀ t r n, best path t r n →
  ∃ m, best path (t ++ l) (lookup_loop path l (length t) r n) m.
Proof.
  induction l as [|f l IH]; intros t r n Hb; cbn [lookup_loop]; [rewrite app_nil_r; by eexists|].
  pose proof (best_snoc _ _ f _ _ Hb) as Hs. replace (t ++ f :: l) with ((t ++ [f]) ++ l) by by rewrite <- app_assoc.
  replace (S (length t)) with (length (t ++ [f])) by (rewrite length_app; simpl; lia).
  destruct (matches path n f); by eapply IH.
Qed.

(** ** The lookup *)
Lemma set_lock_same n s : n = fslock s → set_lock n s = s.
Proof. intros ->. by destruct s. Qed.

(** The place that the lookup finds in [t]. *)
Definition found_at (t : list dfs_filesystem) (path : list Z) : option nat := lookup_loop path t 0 None 0.

Lemma lookup_run path s : dfs_filesystem_lookup path s = Ok (found_at (filesystem_table s) path) s.
Proof.
  unfold dfs_filesystem_lookup, dfs_lock, dfs_unlock. rewrite bind_modify, bind_gets, bind_modify. unfold ret.
  f_equal. destruct s. unfold set_lock. simpl. f_equal. lia.
Qed.

Lemma lookup_best path s : ∃ r n, dfs_filesystem_lookup path s = Ok r s ∧ best path (filesystem_table s) r n.
Proof.
  rewrite lookup_run. destruct (lookup_loop_best path (filesystem_table s) [] None 0) as [m Hm].
  { split; [done|]. intros i f. by rewrite lookup_nil. }
  by eexists _, m.
Qed.

(** The file system [f] is mounted at the directory of [ms]. *)
Definition mounted_at (f : dfs_filesystem) (ms : list (list Z)) : Prop :=
  fs_path f = Some (render ms) ∧ ops f ≠ 0 ∧ normal ms.

(** The mounted paths of a table are normal. *)
Definition normal_table (t : list dfs_filesystem) : Prop :=
  ∀ i f p, t !! i = Some f → fs_path f = Some p → ∃ ms, normal ms ∧ p = render ms.

End lookup.
