(* ===== verification/DfsFdSpec.v ===== *)
(** * The table of descriptors

    Its invariant, what the operations of [dfs.c] do to it, and what the
    operations of [dfs_file.c] leave alone. *)

From S2P Require Import Prelude DfsPath Dfs DfsFile DfsLookup.

Section fdtable.
Context {drivers : Drivers}.

(** ** The invariant *)

(** The path strings that a descriptor, or all of them, own. *)
Definition owns (f : dfs_fd) : Z := match path f with Some _ => 1 | None => 0 end.
Definition owned (o : gmap Z dfs_fd) : Z := map_fold (λ _ f n, owns f + n) 0 o.

(** The file systems that are mounted. *)
Definition mounted (t : list dfs_filesystem) : Z :=
  Z.of_nat (length (filter (λ f, ops f ≠ 0) t)).

(** An entry is empty, or has a path and operations. *)
Definition entry_ok (f : dfs_filesystem) : Prop :=
  if decide (ops f = 0) then f = fs_zero
  else is_Some (fs_path f) ∧ ops_fops (ops f) ≠ 0.

Record tables (s : dfs) : Prop := {
  tb_size : Z.of_nat (length (fds s)) ≤ DFS_FD_MAX;
  tb_live : ∀ d, d ∈ fds s → d ≠ 0 → is_Some (objs s !! d);
  tb_used : ∀ d, is_Some (objs s !! d) → d ≠ 0 ∧ d ∈ fds s;
  tb_once : ∀ i j d, fds s !! i = Some d → fds s !! j = Some d → d ≠ 0 → i = j;
  tb_magic : ∀ d f, objs s !! d = Some f → magic f = DFS_FD_MAGIC;
  tb_entries : Forall entry_ok (filesystem_table s);
  tb_types : Forall (λ o, o ≠ 0 → ops_fops o ≠ 0) (filesystem_operation_table s)
}.

(** While the descriptor at [d] is in use, the others have one reference and
    operations; the lock is free, and the path strings are those of the mounted
    file systems and of the descriptors.  Between two calls [d] is 0. *)
Record during (d : Z) (s : dfs) : Prop := {
  du_tables : tables s;
  du_others : ∀ e f, e ≠ d → objs s !! e = Some f → ref_count f = 1 ∧ fops f ≠ 0;
  du_lock : fslock s = 0;
  du_strings : strings s = mounted (filesystem_table s) + owned (objs s)
}.
Definition settled : dfs → Prop := during 0.

Lemma owned_insert o d f : o !! d = None → owned (<[d := f]> o) = owns f + owned o.
Proof.
  intros Hd. unfold owned. rewrite map_fold_insert_L; [done| |done]. intros. lia.
Qed.
Lemma owned_delete o d f : o !! d = Some f → owned o = owns f + owned (delete d o).
Proof.
  intros Hd. rewrite <- (insert_delete_id o d f Hd) at 1. apply owned_insert, lookup_delete_eq.
Qed.
Lemma owned_update o d f g : o !! d = Some f → owned (<[d := g]> o) = owned o - owns f + owns g.
Proof.
  intros Hd. rewrite <- (insert_delete_eq o d g), owned_insert by apply lookup_delete_eq.
  rewrite (owned_delete _ _ _ Hd). lia.
Qed.

(** ** What an operation leaves alone *)

(** The tables, the descriptors and the lock; [n] more strings. *)
Record kept (n : Z) (s s' : dfs) : Prop := {
  kp_types : filesystem_operation_table s' = filesystem_operation_table s;
  kp_table : filesystem_table s' = filesystem_table s;
  kp_fds : fds s' = fds s;
  kp_objs : objs s' = objs s;
  kp_streams : streams s' = streams s;
  kp_lock : fslock s' = fslock s;
  kp_strings : strings s' = strings s + n
}.

Lemma kept_refl s : kept 0 s s.
Proof. split; try done. lia. Qed.
Lemma kept_trans a b c s t u : kept a s t → kept b t u → c = a + b → kept c s u.
Proof. intros [] [] ->. split; try congruence. lia. Qed.

Lemma wp_call {A} (f : W → A * W) Q s : wp (call f) Q s ↔ Q (f (world s)).1 (set_world (f (world s)).2 s).
Proof. done. Qed.
Lemma kept_world n s s' w : kept n s s' → kept n s (set_world w s').
Proof. by intros []. Qed.
Lemma kept_errno n s s' e : kept n s s' → kept n s (set_errno e s').
Proof. by intros []. Qed.
Lemma kept_strings_set n m k s s' : kept n s s' → k = strings s' + m → kept (n + m) s (set_strings k s').
Proof. intros [] ->. split; try done. simpl. lia. Qed.

Lemma wp_new_string Q s : ((grant (world s)).1 = false → ∀ s', kept 0 s s' → Q false s') → (∀ s', kept 1 s s' → Q true s') →
  wp new_string Q s.
Proof.
  intros H0 H1. unfold new_string. rewrite wp_bind, wp_call, wp_bind.
  destruct (grant (world s)).1 eqn:Eg; cbn beta iota.
  - rewrite wp_modify, wp_ret. apply H1. apply (kept_strings_set 0 1); [apply kept_world, kept_refl|done].
  - rewrite wp_ret. cbv beta. rewrite wp_ret. apply (H0 eq_refl), kept_world, kept_refl.
Qed.
Lemma wp_free_string (Q : unit → dfs → Prop) s : (∀ s', kept (-1) s s' → Q tt s') → wp free_string Q s.
Proof. intros HQ. apply HQ, (kept_strings_set 0 (-1)); [apply kept_refl|lia]. Qed.

(** The name can be made into a path: it is not one that [dfs_normalize_path]
    reads before its buffer for. *)
Definition safe_name (name : list Z) : Prop :=
  ∀ f, dfs_normalize_path false None name ≠ Fault f.

Lemma safe_meant name : 0 ∉ name → is_Some (meant None name) → safe_name name.
Proof.
  intros Hz [cs Hm] f E. destruct (normalize_meant None name cs) as [_ [s E']]; [done..|]. congruence.
Qed.

(** What [dfs_normalize_path] gives. *)
Definition full_path (name path : list Z) : Prop := ∃ w, dfs_normalize_path false None name = Ok (Some path) w.

Lemma wp_normalize name (Q : option (list Z) → dfs → Prop) s : safe_name name →
  (∀ s', kept 0 s s' → Q None s') →
  (∀ p s', full_path name p → kept 1 s s' → Q (Some p) s') →
  wp (normalize_path None name) Q s.
Proof.
  intros Hs H0 H1. unfold normalize_path. destruct (negb _); [apply H0, kept_refl|].
  rewrite wp_bind. apply wp_new_string; [intros _|]; intros s' Hk; cbv iota; [by apply H0|].
  unfold safe_name in Hs. destruct (dfs_normalize_path false None name) as [[p|] w|f] eqn:E.
  - apply H1; [by exists w|done].
  - rewrite wp_bind. apply wp_free_string. intros s2 H2. apply H0. by eapply kept_trans.
  - by destruct (Hs f).
Qed.

Lemma wp_lookup path (Q : option nat → dfs → Prop) s :
  (∀ r n, r = found_at (filesystem_table s) path → best path (filesystem_table s) r n → Q r s) →
  wp (dfs_filesystem_lookup path) Q s.
Proof.
  intros HQ. destruct (lookup_best path s) as (r & n & E & Hb). eapply wp_eq; [exact E|]. eapply HQ; [|exact Hb].
  rewrite lookup_run in E. by injection E as <-.
Qed.

(** ** Requests for memory

    The world moves on with each request; [reached n w w'] is that from [w] to
    [w'] it was asked for memory at most [n] times, and for nothing else. *)
Definition asked (n : nat) (w : W) : W := Nat.iter n (λ w, (grant w).2) w.
Definition reached (n : nat) (w w' : W) : Prop := ∃ k, (k ≤ n)%nat ∧ w' = asked k w.
(** One of the four requests after [w] is refused. *)
Definition refused (w : W) : Prop := ∃ k, (k < 4)%nat ∧ (grant (asked k w)).1 = false.

Lemma reached_refl n w : reached n w w.
Proof. exists 0%nat. split; [lia|done]. Qed.
Lemma reached_trans a b u v w : reached a u v → reached b v w → reached (a + b) u w.
Proof.
  intros (n & Hn & ->) (k & Hk & ->). exists (k + n)%nat. split; [lia|]. unfold asked. by rewrite Nat.iter_add.
Qed.

(** An operation that asks the world for memory at most [n] times, and for
    nothing else. *)
Definition requests {A} (n : nat) (m : D A) : Prop :=
  ∀ s r s', m s = Ok r s' → reached n (world s) (world s').

Lemma requests_bind {A B} a b (m : D A) (k : A → D B) :
  requests a m → (∀ x, requests b (k x)) → requests (a + b) (bind m k).
Proof.
  intros Hm Hk s r s' E. unfold bind in E. destruct (m s) as [x s1|] eqn:E1; [|done].
  eapply reached_trans; [by eapply Hm|by eapply Hk].
Qed.
Lemma requests_still {A} n (m : D A) : (∀ s r s', m s = Ok r s' → world s' = world s) → requests n m.
Proof. intros Hm s r s' E. rewrite (Hm _ _ _ E). apply reached_refl. Qed.
Lemma requests_ret {A} n (a : A) : requests n (ret a).
Proof. apply requests_still. by intros s r s' [= <- <-]. Qed.
Lemma requests_gets {A} n (f : dfs → A) : requests n (gets f).
Proof. apply requests_still. by intros s r s' [= <- <-]. Qed.
Lemma requests_fail {A} n f : requests n (fail f : D A).
Proof. by intros s r s' E. Qed.
Lemma requests_option {A} n f (o : option A) : requests n (from_option f o : D A).
Proof. destruct o; [apply requests_ret|apply requests_fail]. Qed.
Lemma requests_modify n f : (∀ s, world (f s) = world s) → requests n (modify f).
Proof. intros Hf. apply requests_still. by intros s r s' [= <- <-]. Qed.
Lemma requests_grant : requests 1 (call grant).
Proof. intros s r s' [= <- <-]. by exists 1%nat. Qed.

#[local] Hint Resolve requests_ret requests_gets requests_fail requests_option requests_grant : core.
#[local] Hint Extern 1 (requests _ (modify _)) => by apply requests_modify : core.
(** Along the structure of an operation: the first step asks for nothing, once,
    or for everything. *)
Ltac requests := intros; first
  [ solve [auto]
  | lazymatch goal with
    | |- requests ?n (bind _ _) =>
      first [ apply (requests_bind 0 n); [solve [requests]|solve [requests]]
            | apply (requests_bind 1 (pred n)); [solve [requests]|solve [requests]]
            | apply (requests_bind n 0); [solve [requests]|solve [requests]] ]
    | |- requests _ (match ?x with _ => _ end) => destruct x; requests
    end ].

Lemma requests_find_free n l : requests n (find_free l).
Proof.
  revert n. induction l as [|d l IH]; intros n; cbn [find_free]; unfold fd_at; requests.
Qed.
Lemma requests_fd_new : requests 2 fd_new.
Proof.
  unfold fd_new, fd_alloc, fill_entry, grow, maxfd, fd_at, fd_set, dfs_lock, dfs_unlock.
  pose proof requests_find_free. cbv zeta. requests.
Qed.
Lemma requests_normalize name : requests 1 (normalize_path None name).
Proof. unfold normalize_path, new_string, free_string. requests. Qed.

Lemma wp_requests {A} n (m : D A) (Q : A → dfs → Prop) s : requests n m →
  wp m (λ r s', reached n (world s) (world s') → Q r s') s → wp m Q s.
Proof.
  intros Hm Hw. apply wp_run in Hw as (r & s' & E & HQ). eapply wp_eq; [exact E|]. apply HQ. by eapply Hm.
Qed.

(** ** The operations of a file

    They do not touch the part of the descriptor that the table uses, and they
    account for the string of its path. *)
Definition same_fd (f g : dfs_fd) : Prop := magic g = magic f ∧ ref_count g = ref_count f.

Definition file_op {A} (P : dfs_fd → Prop) (R : A → dfs_fd → Prop) (m : dfs_fd → D (A * dfs_fd)) : Prop :=
  ∀ f s (Q : A * dfs_fd → dfs → Prop), P f → Forall entry_ok (filesystem_table s) →
    (∀ r g s', kept (owns g - owns f) s s' → same_fd f g → R r g → Q (r, g) s') → wp (m f) Q s.

(** For an operation that leaves the path. *)
Definition plain_op {A} (m : dfs_fd → D (A * dfs_fd)) : Prop :=
  file_op (λ f, fops f ≠ 0) (λ _ g, fops g ≠ 0) m.

Lemma wp_fop {A} (o : Z → option A) f (Q : option A → dfs → Prop) s : fops f ≠ 0 → Q (o (fops f)) s → wp (fop o f) Q s.
Proof. intros Hf HQ. unfold fop. by rewrite (proj2 (Z.eqb_neq _ 0)). Qed.

Lemma keep_path c f : kept (owns (set_cursor c f) - owns f) = kept 0.
Proof. f_equal. unfold owns. simpl. lia. Qed.

Ltac fop_done :=
  match goal with
  | H : ∀ r g s', kept _ ?s s' → _ |- _ =>
    apply H; [first [apply kept_world|idtac];
              match goal with |- kept ?n _ _ => replace n with 0 by (unfold owns; simpl; lia); apply kept_refl end
             |done|try done; by simpl]
  end.

Lemma ioctl_plain cmd args : plain_op (λ f, dfs_file_ioctl f cmd args).
Proof.
  intros f s Q Hf _ HQ. unfold dfs_file_ioctl.
  destruct (_ && _); [rewrite wp_ret; fop_done|]. destruct (_ && _); [rewrite wp_ret; fop_done|].
  rewrite wp_bind. apply wp_fop; [done|]. destruct (f_ioctl (fops f)); [|rewrite wp_ret; fop_done].
  rewrite wp_bind, wp_call, wp_ret. fop_done.
Qed.
Lemma read_plain len : plain_op (λ f, dfs_file_read f len).
Proof.
  intros f s Q Hf _ HQ. unfold dfs_file_read.
  rewrite wp_bind. apply wp_fop; [done|]. destruct (f_read (fops f)); [|rewrite wp_ret; fop_done].
  rewrite wp_bind, wp_call. cbv zeta. rewrite wp_ret. destruct (_ <? _); fop_done.
Qed.
Lemma getdents_plain len : plain_op (λ f, dfs_file_getdents f len).
Proof.
  intros f s Q Hf _ HQ. unfold dfs_file_getdents. destruct (negb _); [rewrite wp_ret; fop_done|].
  rewrite wp_bind. apply wp_fop; [done|]. destruct (f_getdents (fops f)); [|rewrite wp_ret; fop_done].
  rewrite wp_bind, wp_call, wp_ret. fop_done.
Qed.
Lemma write_plain buf : plain_op (λ f, dfs_file_write f buf).
Proof.
  intros f s Q Hf _ HQ. unfold dfs_file_write.
  rewrite wp_bind. apply wp_fop; [done|]. destruct (f_write (fops f)); [|rewrite wp_ret; fop_done].
  rewrite wp_bind, wp_call, wp_ret. fop_done.
Qed.
Lemma flush_plain : plain_op dfs_file_flush.
Proof.
  intros f s Q Hf _ HQ. unfold dfs_file_flush.
  rewrite wp_bind. apply wp_fop; [done|]. destruct (f_flush (fops f)); [|rewrite wp_ret; fop_done].
  rewrite wp_bind, wp_call, wp_ret. fop_done.
Qed.
Lemma lseek_plain offset : plain_op (λ f, dfs_file_lseek f offset).
Proof.
  intros f s Q Hf _ HQ. unfold dfs_file_lseek.
  rewrite wp_bind. apply wp_fop; [done|]. destruct (f_lseek (fops f)); [|rewrite wp_ret; fop_done].
  rewrite wp_bind, wp_call. cbv zeta. rewrite wp_ret. destruct (_ <=? _); fop_done.
Qed.
Lemma ftruncate_plain length : plain_op (λ f, dfs_file_ftruncate f length).
Proof.
  intros f s Q Hf _ HQ. unfold dfs_file_ftruncate. destruct (_ || _); [rewrite wp_ret; fop_done|].
  rewrite wp_bind. apply wp_fop; [done|]. destruct (f_ioctl (fops f)); [|rewrite wp_ret; fop_done].
  rewrite wp_bind, wp_call. cbv zeta. rewrite wp_ret. destruct (_ =? _); fop_done.
Qed.

Lemma wp_free_path p (Q : unit → dfs → Prop) s :
  (∀ s', kept (- match p with Some _ => 1 | None => 0 end) s s' → Q tt s') → wp (free_path p) Q s.
Proof. intros HQ. destruct p; [apply wp_free_string, HQ|apply HQ, kept_refl]. Qed.

(** Closing frees the path, except where the driver refuses. *)
Lemma close_op : file_op (λ f, fops f ≠ 0) (λ r g, fops g ≠ 0 ∧ (0 ≤ r → path g = None)) dfs_file_close.
Proof.
  intros f s Q Hf _ HQ. unfold dfs_file_close. rewrite wp_bind. apply wp_fop; [done|]. rewrite wp_bind.
  assert (∀ r g s', kept 0 s s' → same_fd f g → fops g ≠ 0 → path g = path f →
    wp (if r <? 0 then ret (r, g) else free_path (path g) ;;; ret (r, set_path None g)) Q s') as Hend.
  { intros r g s' Hk Hg Hfo Hp. destruct (Z.ltb_spec r 0).
    - rewrite wp_ret. apply HQ; [|done|split; [done|lia]].
      by replace (owns g - owns f) with 0 by (unfold owns; rewrite Hp; lia).
    - rewrite wp_bind. apply wp_free_path. intros s2 H2. rewrite wp_ret. apply HQ; [|done..].
      eapply kept_trans; [exact Hk|exact H2|]. rewrite Hp. unfold owns. simpl. destruct (path f); lia. }
  destruct (f_close (fops f)); [|rewrite wp_ret; apply Hend; [apply kept_refl|done..]].
  rewrite wp_bind, wp_call, wp_ret. apply Hend; [apply kept_world, kept_refl|done..].
Qed.

(** ** Opening a file *)

(** What [dfs_subdir] leaves of [full] below [p]. *)
Definition sub_of (p full : list Z) : option (list Z) :=
  if decide (length p = length full) then None
  else Some (if decide (full !! length p = Some slash ∨ p = []) then drop (length p) full
             else drop (length p - 1) full).

Lemma subdir_run p full s : (length p ≤ length full)%nat → subdir p full s = Ok (sub_of p full) s.
Proof.
  intros Hl. unfold subdir, dfs_subdir, sub_of. destruct (decide (length p = length full)) as [E|E].
  { by rewrite (proj2 (Z.eqb_eq _ _)) by lia. }
  rewrite (proj2 (Z.eqb_neq _ _)) by lia. rewrite (proj2 (Z.ltb_ge _ _)) by lia. rewrite Nat2Z.id.
  destruct (lookup_lt_is_Some_2 full (length p)) as [c Hc]; [lia|].
  rewrite lookup_app_l by lia. rewrite Hc. unfold ret. f_equal. f_equal.
  destruct (Z.eqb_spec c slash) as [->|Hs]; cbn [negb andb].
  { rewrite decide_True by auto. by rewrite Nat2Z.id. }
  destruct (Z.eqb_spec (Z.of_nat (length p)) 0) as [E0|E0]; cbn [negb].
  - rewrite decide_True by (right; apply length_zero_iff_nil; lia). by rewrite Nat2Z.id.
  - rewrite decide_False by (intros [[= ->]| ->]; done). f_equal. lia.
Qed.

Lemma prefix_length_le p full : string_prefix p full → (length p ≤ length full)%nat.
Proof. intros [Ht _]. rewrite <- Ht at 1. rewrite length_take. lia. Qed.

(** The name below the mount point of [e] that the driver is given for the file. *)
Definition driver_name (e : dfs_filesystem) (full : list Z) : list Z :=
  if fullpath_flag e then full
  else match fs_path e with
       | Some p => match sub_of p full with Some q => q | None => [slash] end
       | None => full
       end.

(** The descriptor [g] is of the file [name]; it has no path only where one of
    the four requests for memory after [w] was refused. *)
Definition of_file (w : W) (t : list dfs_filesystem) (name : list Z) (g : dfs_fd) : Prop :=
  fops g ≠ 0 ∧ ∃ full i e, full_path name full ∧ found_at t full = Some i ∧ t !! i = Some e ∧
    fs g = Some i ∧ (path g = Some (driver_name e full) ∨ path g = None ∧ refused w).

Definition opened (w : W) (t : list dfs_filesystem) (name : list Z) (r : Z) (g : dfs_fd) : Prop :=
  r < 0 ∧ path g = None ∨ r = 0 ∧ of_file w t name g.

Lemma best_entry full t i n : best full t (Some i) n →
  ∃ e p, t !! i = Some e ∧ fs_path e = Some p ∧ ops e ≠ 0 ∧ string_prefix p full.
Proof. intros (e & p & Hi & Hp & Ho & Hs & _). by exists e, p. Qed.

Lemma wp_file_path e p full (Q : option (list Z) → dfs → Prop) s : fs_path e = Some p → string_prefix p full →
  (∀ q s', q = Some (driver_name e full) ∨ q = None ∧ (grant (world s)).1 = false →
    kept (match q with Some _ => 0 | None => -1 end) s s' → Q q s') → wp (file_path e full) Q s.
Proof.
  intros Hp Hs HQ. unfold file_path. unfold driver_name in HQ. rewrite Hp in HQ.
  destruct (fullpath_flag e).
  { rewrite wp_ret. apply HQ; [by left|apply kept_refl]. }
  unfold below. rewrite Hp. cbn [Prelude.from_option]. rewrite wp_bind.
  rewrite wp_bind, wp_ret. cbv beta. eapply wp_eq; [apply subdir_run, prefix_length_le, Hs|].
  unfold rt_strdup. rewrite wp_bind. rewrite wp_bind.
  apply wp_new_string; [intros Hg|]; intros s1 H1; rewrite wp_ret; cbv beta iota; rewrite wp_bind; apply wp_free_string;
    intros s2 H2; rewrite wp_ret; apply HQ; auto; eapply kept_trans; eauto.
Qed.

Lemma wp_file_open w f name flags (Q : Z * dfs_fd → dfs → Prop) s : safe_name name → path f = None →
  Forall entry_ok (filesystem_table s) → reached 2 w (world s) →
  (∀ r g s', kept (owns g) s s' → same_fd f g → opened w (filesystem_table s) name r g → Q (r, g) s') →
  wp (dfs_file_open f name flags) Q s.
Proof.
  intros Hn Hf Ht Hw HQ. unfold dfs_file_open. rewrite wp_bind.
  assert (owns f = 0) as Ho by (unfold owns; by rewrite Hf).
  apply (wp_requests 1); [apply requests_normalize|].
  apply wp_normalize; [done|intros s' Hk _; rewrite wp_ret; apply HQ; [by rewrite Ho|done|by left; rewrite Hf]|].
  intros full s1 Hfull H1 Hw1. rewrite wp_bind. apply wp_lookup. intros found n Hl Hb. destruct found as [i|].
  2:{ rewrite wp_bind. apply wp_free_string. intros s2 H2. rewrite wp_ret. apply HQ; [|done|by left; rewrite Hf].
      rewrite Ho. by eapply kept_trans. }
  rewrite (kp_table _ _ _ H1) in Hb, Hl. destruct (best_entry _ _ _ _ Hb) as (e & p & Hi & Hp & Heo & Hs).
  pose proof (Forall_lookup_1 _ _ _ _ Ht Hi) as He. unfold entry_ok in He. rewrite decide_False in He by done.
  destruct He as [_ Hfo]. rewrite wp_bind. unfold fs_at. rewrite wp_bind, wp_gets, (kp_table _ _ _ H1), Hi.
  cbn [Prelude.from_option]. rewrite wp_ret. cbv zeta beta. rewrite wp_bind. eapply wp_file_path; [done..|].
  intros q s2 Hq H2. rewrite (proj2 (Z.eqb_neq _ 0)) by done.
  assert (kept (match q with Some _ => 1 | None => 0 end) s s2) as H12 by (eapply kept_trans; [done..|by destruct q]).
  assert (∀ r g s3, r < 0 → kept 0 s2 s3 → same_fd f g →
    wp (free_path q ;;; ret (r, set_path None g)) Q s3) as Hfail.
  { intros r g s3 Hr H3 Hg. rewrite wp_bind. apply wp_free_path. intros s4 H4. rewrite wp_ret.
    apply HQ; [|done|by left]. eapply kept_trans; [exact H12|eapply kept_trans; [exact H3|exact H4|done]|].
    unfold owns. simpl. destruct q; lia. }
  destruct (f_open (ops_fops (ops e))) as [o|]; [|apply Hfail; [done|apply kept_refl|done]].
  rewrite wp_bind, wp_call. cbv zeta beta.
  match goal with |- context [set_cursor ?c ?d] => set (g := set_cursor c d) end.
  match goal with |- context [?a <? 0] => destruct (Z.ltb_spec a 0) as [Hr|Hr] end.
  { apply Hfail; [done|apply kept_world, kept_refl|done]. }
  rewrite wp_ret.
  assert (∀ g', path g' = q → fs g' = Some i → fops g' = ops_fops (ops e) → same_fd f g' →
    Q (0, g') (set_world (o (mk_fd (magic f) FT_REGULAR q (ref_count f) (Some i) (ops_fops (ops e)) (u32 flags) 0 0
      (FsData i)) (world s2)).2 s2)) as Hok.
  { intros g' Hgp Hgf Hgo Hg. apply HQ; [|done|].
    - apply kept_world. unfold owns. by rewrite Hgp.
    - right. split; [done|]. split; [by rewrite Hgo|]. exists full, i, e. rewrite Hgp. split_and!; try done.
      destruct Hq as [?|[? Hg2]]; [by left|right]. split; [done|].
      destruct (reached_trans _ _ _ _ _ Hw Hw1) as (k & Hk & Ek). exists k. split; [lia|]. by rewrite <- Ek. }
  by destruct (negb _); apply Hok.
Qed.
End fdtable.
