(* ===== verification/DfsPosixSpec.v ===== *)
(** * The calls of a program

    What [fd_get], [fd_put] and [fd_new] do to the table, and from it the
    theorems on [open] and on runs of calls. *)

From S2P Require Import Prelude DfsPath Dfs DfsFile DfsMount DfsLookup DfsFdSpec DfsPosix.

Section posix.
Context {drivers : Drivers}.

(** ** The state after a change of a descriptor *)

(** The rest of the state; [errno] and the world may change. *)
Record rest_same (s s' : dfs) : Prop := {
  rs_types : filesystem_operation_table s' = filesystem_operation_table s;
  rs_table : filesystem_table s' = filesystem_table s;
  rs_fds : fds s' = fds s;
  rs_streams : streams s' = streams s
}.
Lemma rest_refl s : rest_same s s.
Proof. done. Qed.
Lemma rest_trans s t u : rest_same s t → rest_same t u → rest_same s u.
Proof. intros [] []. split; congruence. Qed.
Lemma rest_kept n s s' : kept n s s' → rest_same s s'.
Proof. by intros []. Qed.

Lemma tables_update s s' d f g : tables s → rest_same s s' → objs s !! d = Some f →
  objs s' = <[d := g]> (objs s) → magic g = DFS_FD_MAGIC → tables s'.
Proof.
  intros [] [] Hd Ho Hm. split; rewrite ?rs_types0, ?rs_table0, ?rs_fds0; try done.
  - intros e He H0. rewrite Ho. destruct (decide (d = e)) as [->|Hne]; [rewrite lookup_insert_eq; eauto|].
    rewrite lookup_insert_ne by done. eauto.
  - intros e. rewrite Ho. destruct (decide (d = e)) as [->|Hne]; [intros _; eauto|].
    rewrite lookup_insert_ne by done. eauto.
  - intros e h. rewrite Ho, lookup_insert_Some. intros [[_ <-]|[_ He]]; eauto.
Qed.

(** The descriptor [d] was [f], and is [g]. *)
Lemma during_update s s' d f g : during d s → rest_same s s' → objs s !! d = Some f →
  objs s' = <[d := g]> (objs s) → same_fd f g → fslock s' = 0 →
  strings s' = strings s + (owns g - owns f) → during d s'.
Proof.
  intros [Ht Hot Hl Hs] Hr Hd Ho [Hm _] Hl' Hs'. split.
  - eapply tables_update; try done. rewrite Hm. by eapply tb_magic.
  - intros e h He. rewrite Ho, lookup_insert_ne by done. eauto.
  - done.
  - rewrite (rs_table _ _ Hr), Ho, (owned_update _ _ f) by done. lia.
Qed.

Lemma during_settled d s f : during d s → objs s !! d = Some f → ref_count f = 1 → fops f ≠ 0 → settled s.
Proof.
  intros [Ht Hot Hl Hs] Hd Hr Hf. split; try done. intros e g He Hg.
  destruct (decide (e = d)) as [->|]; [|by eapply Hot]. by replace g with f by congruence.
Qed.
Lemma settled_during d s : settled s → during d s.
Proof.
  intros [Ht Hot Hl Hs]. split; try done. intros e f He Hf. eapply Hot; [|exact Hf].
  intros ->. by destruct (tb_used _ Ht 0 ltac:(by eexists)).
Qed.

(** ** [fd_get] *)

(** The address of an open descriptor. *)
Definition address (s : dfs) (fd : Z) : option Z :=
  if bool_decide (3 ≤ fd) then
    match fds s !! Z.to_nat (fd - 3) with
    | Some d => if decide (d = 0) then None else Some d
    | None => None
    end
  else None.
Definition descriptor (s : dfs) (fd : Z) : option dfs_fd :=
  match address s fd with Some d => objs s !! d | None => None end.

Lemma address_some s fd d : address s fd = Some d ↔ 3 ≤ fd ∧ fds s !! Z.to_nat (fd - 3) = Some d ∧ d ≠ 0.
Proof.
  unfold address. case_bool_decide; [|naive_solver]. destruct (fds s !! _) as [e|]; [|naive_solver].
  destruct (decide (e = 0)); naive_solver.
Qed.
Lemma address_live s fd d : tables s → address s fd = Some d → ∃ f, objs s !! d = Some f.
Proof. intros Ht (_ & Hd & H0)%address_some. eapply tb_live; [done| |done]. by eapply list_elem_of_lookup_2. Qed.
Lemma address_fun s fd fd' d : tables s → address s fd = Some d → address s fd' = Some d → fd = fd'.
Proof.
  intros Ht (? & Hd & H0)%address_some (? & Hd' & _)%address_some.
  pose proof (tb_once _ Ht _ _ _ Hd Hd' H0). lia.
Qed.

Definition hold (d : Z) (f : dfs_fd) (s : dfs) : dfs := set_objs (<[d := set_ref 2 f]> (objs s)) s.

Lemma fd_get_none s fd : tables s → address s fd = None → fd_get fd s = Ok 0 s.
Proof.
  intros Ht Ha. unfold fd_get, maxfd. rewrite bind_assoc, bind_gets, bind_ret.
  destruct (Z.ltb_spec (fd - DFS_FD_OFFSET) 0) as [|Hge]; [done|]. cbn [orb]. unfold DFS_FD_OFFSET in *.
  destruct (Z.leb_spec (Z.of_nat (length (fds s))) (fd - 3)) as [|Hlt]; [done|].
  destruct (lookup_lt_is_Some_2 (fds s) (Z.to_nat (fd - 3))) as [d Hd]; [lia|].
  unfold address in Ha. rewrite bool_decide_true, Hd in Ha by lia. destruct (decide (d = 0)) as [->|]; [|done].
  unfold dfs_lock. rewrite bind_modify, bind_gets. change (fds (set_lock _ s)) with (fds s). rewrite Hd.
  cbn [Prelude.from_option]. rewrite bind_ret. cbn [Z.eqb]. unfold dfs_unlock. rewrite bind_modify. unfold ret.
  f_equal. destruct s. unfold set_lock. simpl. f_equal. lia.
Qed.

Lemma fd_get_some s fd d f : tables s → address s fd = Some d → objs s !! d = Some f → ref_count f = 1 →
  fd_get fd s = Ok d (hold d f s).
Proof.
  intros Ht Ha Hf Hr. apply address_some in Ha as (H3 & Hd & H0). pose proof (lookup_lt_Some _ _ _ Hd) as Hlt.
  unfold fd_get, maxfd. rewrite bind_assoc, bind_gets, bind_ret. unfold DFS_FD_OFFSET.
  rewrite (proj2 (Z.ltb_ge _ _)), (proj2 (Z.leb_gt _ _)) by lia. cbn [orb].
  unfold dfs_lock. rewrite bind_modify, bind_gets. change (fds (set_lock _ s)) with (fds s). rewrite Hd.
  cbn [Prelude.from_option]. rewrite bind_ret, (proj2 (Z.eqb_neq _ _)) by done.
  unfold fd_at. rewrite bind_assoc, bind_gets. change (objs (set_lock _ s)) with (objs s). rewrite Hf.
  cbn [Prelude.from_option]. rewrite bind_ret, (tb_magic _ Ht _ _ Hf), Z.eqb_refl. cbn [negb].
  unfold fd_set, dfs_unlock. rewrite !bind_modify, Hr. unfold ret, hold. f_equal.
  destruct s. unfold set_lock, set_objs. simpl. f_equal. lia.
Qed.

(** The descriptor is taken. *)
Lemma wp_get_at fd d f (Q : Z → dfs → Prop) s : during d s → address s fd = Some d → objs s !! d = Some f →
  ref_count f = 1 → (during d (hold d f s) → Q d (hold d f s)) → wp (fd_get fd) Q s.
Proof.
  intros [Ht Hot Hl Hst] Ha Hf Hr HQ. eapply wp_eq; [by apply (fd_get_some s fd d f)|]. apply HQ. split; try done.
  - eapply (tables_update s _ d f); try done. exact (tb_magic _ Ht _ _ Hf).
  - intros e g He. unfold hold. simpl. rewrite lookup_insert_ne by done. by apply Hot.
  - unfold hold. simpl. rewrite (owned_update _ _ f) by done. rewrite Hst. unfold owns. simpl. lia.
Qed.

(** It is taken, or there is none. *)
Lemma wp_get fd (Q : Z → dfs → Prop) s : settled s →
  (address s fd = None → Q 0 s) →
  (∀ d f, address s fd = Some d → objs s !! d = Some f → d ≠ 0 → fops f ≠ 0 → ref_count f = 1 →
    during d (hold d f s) → Q d (hold d f s)) →
  wp (fd_get fd) Q s.
Proof.
  intros Hs H0 H1. pose proof (du_tables _ _ Hs) as Ht. destruct (address s fd) as [d|] eqn:Ha.
  - destruct (address_live _ _ _ Ht Ha) as [f Hf]. pose proof (proj1 (address_some _ _ _) Ha) as (_ & _ & Hd).
    destruct (du_others _ _ Hs d f Hd Hf) as [Hr Hfo].
    apply (wp_get_at fd d f); try done; [by apply settled_during|]. by apply H1.
  - eapply wp_eq; [by apply fd_get_none|]. by apply H0.
Qed.

(** ** An operation on the descriptor that is held *)
Lemma wp_with_fd {A} d (null : A) m R f (Q : A → dfs → Prop) s :
  (∀ Q' : A * dfs_fd → dfs → Prop, (∀ r g s', kept (owns g - owns f) s s' → same_fd f g → R r g → Q' (r, g) s') →
    wp (m f) Q' s) →
  d ≠ 0 → during d s → objs s !! d = Some f →
  (∀ r g s', during d s' → rest_same s s' → objs s' = <[d := g]> (objs s) → same_fd f g → R r g → Q r s') →
  wp (with_fd d null m) Q s.
Proof.
  intros Hm Hd Hs Hf HQ. unfold with_fd. rewrite (proj2 (Z.eqb_neq _ _)) by done.
  rewrite wp_bind. unfold fd_at. rewrite wp_bind, wp_gets, Hf. cbn [Prelude.from_option]. rewrite wp_ret.
  cbv beta. rewrite wp_bind. apply Hm. intros r g s' Hk Hg Hr.
  rewrite wp_bind. unfold fd_set. rewrite wp_modify, wp_ret. simpl. apply (HQ r g); try done.
  - eapply (during_update s _ d f g); try done; destruct Hk; simpl; [done|by f_equal| |done].
    rewrite kp_lock. apply (du_lock _ _ Hs).
  - by destruct Hk.
  - simpl. by rewrite (kp_objs _ _ _ Hk).
Qed.

(** ** [fd_put] *)
Lemma clear_entry_run d l i : l !! i = Some d → (∀ j, l !! j = Some d → j = i) →
  clear_entry d l = Some (<[i := 0]> l).
Proof.
  revert i. induction l as [|e l IH]; intros i Hi Hu; [done|]. cbn [clear_entry].
  destruct (Z.eqb_spec e d) as [->|Hne]; [by rewrite <- (Hu 0%nat eq_refl)|].
  destruct i as [|i]; [simpl in Hi; congruence|]. rewrite (IH i Hi); [done|].
  intros j Hj. by injection (Hu (S j) Hj).
Qed.

Lemma put_frame s d f : d ≠ 0 → objs s !! d = Some f → ref_count f = 2 →
  fd_put d s = Ok tt (set_objs (<[d := set_ref 1 f]> (objs s)) s).
Proof.
  intros Hd Hf Hr. unfold fd_put. rewrite (proj2 (Z.eqb_neq _ _)) by done.
  unfold dfs_lock. rewrite bind_modify. unfold fd_at. rewrite bind_assoc, bind_gets.
  change (objs (set_lock _ s)) with (objs s). rewrite Hf. cbn [Prelude.from_option]. rewrite bind_ret. cbv zeta.
  rewrite Hr. change (s32 (2 - 1)) with 1. cbn [Z.eqb]. unfold fd_set, dfs_unlock. rewrite bind_modify, bind_ret.
  unfold modify. f_equal. destruct s. unfold set_lock, set_objs. simpl. f_equal. lia.
Qed.

(** One of two references is given back. *)
Lemma wp_put_back d f (Q : unit → dfs → Prop) s : d ≠ 0 → during d s → objs s !! d = Some f → ref_count f = 2 →
  (∀ s', during d s' → rest_same s s' → objs s' = <[d := set_ref 1 f]> (objs s) →
    errno s' = errno s → world s' = world s → Q tt s') → wp (fd_put d) Q s.
Proof.
  intros Hd Hs Hf Hr HQ. eapply wp_eq; [by apply put_frame|]. apply HQ; try done.
  destruct Hs as [Ht Hot Hl Hst]. split; try done.
  - eapply (tables_update s _ d f); try done. exact (tb_magic _ Ht _ _ Hf).
  - intros e g He. simpl. rewrite lookup_insert_ne by done. by apply Hot.
  - simpl. rewrite (owned_update _ _ f) by done. rewrite Hst. unfold owns. simpl. lia.
Qed.

(** The last reference is given back, and the descriptor freed. *)
Lemma wp_free d f i (Q : unit → dfs → Prop) s : d ≠ 0 → during d s → objs s !! d = Some f → ref_count f = 1 →
  path f = None → fds s !! i = Some d →
  (∀ s', settled s' → filesystem_table s' = filesystem_table s → fds s' = <[i := 0]> (fds s) →
    objs s' = delete d (objs s) → errno s' = errno s → world s' = world s → Q tt s') → wp (fd_put d) Q s.
Proof.
  intros Hd [Ht Hot Hl Hst] Hf Hr Hp Hi HQ. unfold fd_put. rewrite (proj2 (Z.eqb_neq _ _)) by done.
  rewrite wp_bind. unfold dfs_lock. rewrite wp_modify, wp_bind. unfold fd_at. rewrite wp_bind, wp_gets.
  change (objs (set_lock _ s)) with (objs s). rewrite Hf. cbn [Prelude.from_option]. rewrite wp_ret. cbv zeta beta.
  rewrite Hr. change (s32 (1 - 1)) with 0. cbn [Z.eqb]. rewrite wp_bind. unfold fd_set. rewrite wp_modify, wp_bind.
  rewrite wp_bind, wp_gets. change (fds _) with (fds s).
  rewrite (clear_entry_run d (fds s) i Hi) by (intros j Hj; by eapply tb_once).
  rewrite wp_bind, !wp_modify. unfold dfs_unlock. rewrite wp_modify. apply HQ; try done.
  2:{ simpl. apply delete_insert_eq. }
  destruct Ht. assert (delete d (<[d := set_ref 0 f]> (objs s)) = delete d (objs s)) as Edel by apply delete_insert_eq.
  assert (∀ j e, <[i := 0]> (fds s) !! j = Some e → e ≠ 0 → fds s !! j = Some e ∧ e ≠ d) as Hold.
  { intros j e Hj He. destruct (decide (i = j)) as [->|Hne].
    { rewrite list_lookup_insert_eq in Hj by (by eapply lookup_lt_Some). congruence. }
    rewrite list_lookup_insert_ne in Hj by done. split; [done|]. intros ->. by destruct (Hne (tb_once _ _ _ Hi Hj He)). }
  split; simpl; rewrite ?Edel; try done.
  - split; simpl; rewrite ?Edel; try done.
    + by rewrite length_insert.
    + intros e (j & Hj)%list_elem_of_lookup_1 He. destruct (Hold _ _ Hj He) as [Hj' Hne].
      rewrite lookup_delete_ne by done. apply tb_live; [by eapply list_elem_of_lookup_2|done].
    + intros e [g Hg]. apply lookup_delete_Some in Hg as [Hne Hg]. destruct (tb_used e (ex_intro _ _ Hg)) as [He Hin].
      split; [done|]. apply list_elem_of_lookup_1 in Hin as [j Hj]. apply (list_elem_of_lookup_2 _ j).
      rewrite list_lookup_insert_ne; [done|]. intros ->. congruence.
    + intros j k e Hj Hk He. destruct (Hold _ _ Hj He), (Hold _ _ Hk He). eauto.
    + intros e g [_ Hg]%lookup_delete_Some. eauto.
  - intros e g _ [Hne Hg]%lookup_delete_Some. by apply (Hot e).
  - lia.
  - rewrite Hst, (owned_delete _ _ _ Hf). unfold owns at 1. rewrite Hp. lia.
Qed.

(** ** [fd_new] *)

(** The first empty place of the table, or its length. *)
Fixpoint first_zero (l : list Z) : nat :=
  match l with
  | [] => O
  | d :: l => if d =? 0 then O else S (first_zero l)
  end.
Lemma first_zero_spec l : (first_zero l ≤ length l)%nat ∧
  ((first_zero l < length l)%nat → l !! first_zero l = Some 0) ∧
  ∀ j, (j < first_zero l)%nat → ∃ d, l !! j = Some d ∧ d ≠ 0.
Proof.
  induction l as [|d l (H1 & H2 & H3)]; simpl; [split_and!; lia|].
  destruct (Z.eqb_spec d 0) as [->|Hd]; [split_and!; [lia|done|lia]|]. split_and!; [lia|simpl; intros; apply H2; lia|].
  intros [|j] Hj; [by exists d|]. simpl. apply H3. lia.
Qed.

Lemma find_free_run l s : (∀ d, d ∈ l → d ≠ 0 → ∃ f, objs s !! d = Some f ∧ ref_count f = 1) →
  find_free l s = Ok (Z.of_nat (first_zero l)) s.
Proof.
  induction l as [|d l IH]; intros Hl; [done|]. cbn [find_free first_zero].
  destruct (Z.eqb_spec d 0) as [->|Hd]; [done|]. destruct (Hl d ltac:(left) Hd) as (f & Hf & Hr).
  unfold fd_at. rewrite bind_assoc, bind_gets, Hf. cbn [Prelude.from_option]. rewrite bind_ret, Hr. cbn [Z.eqb].
  erewrite bind_ok; [|apply IH; intros e He; apply Hl; by right]. unfold ret. f_equal. lia.
Qed.

(** The state with the descriptor [d] at the place [n]. *)
Definition with_entry (n : nat) (d : Z) (f : dfs_fd) (s : dfs) : dfs :=
  set_fds (<[n := d]> (fds s)) (set_objs (<[d := f]> (objs s)) s).

Lemma wp_fill_entry `{!DriversOk} n (Q : Z → dfs → Prop) s : fds s !! n = Some 0 →
  (∀ w, Q (Z.of_nat (length (fds s))) (set_world w s)) →
  (∀ w d, d ≠ 0 → objs s !! d = None → Q (Z.of_nat n) (with_entry n d fd_zero (set_world w s))) →
  wp (fill_entry (Z.of_nat n)) Q s.
Proof.
  intros Hn H0 H1. unfold fill_entry, maxfd. rewrite wp_bind, wp_bind, wp_gets, wp_ret, wp_bind, wp_gets.
  rewrite (proj2 (Z.ltb_lt _ _)) by (apply lookup_lt_Some in Hn; lia). cbn [andb].
  rewrite Nat2Z.id, bool_decide_true by done. rewrite wp_bind, wp_call. destruct (grant (world s)).1; cbv iota.
  - rewrite wp_bind, wp_gets, wp_bind, wp_gets. cbv zeta beta.
    destruct (place_fresh (world (set_world (grant (world s)).2 s)) (objs (set_world (grant (world s)).2 s))) as [Hd Hf].
    rewrite wp_bind. unfold fd_set. rewrite wp_modify, wp_bind, wp_modify, wp_ret. by apply H1.
  - rewrite wp_ret. apply H0.
Qed.

(** A new descriptor, before the file is opened. *)
Definition fd_fresh : dfs_fd := set_magic DFS_FD_MAGIC (set_ref 1 fd_zero).

Lemma during_entry s n d : settled s → fds s !! n = Some 0 → d ≠ 0 → objs s !! d = None →
  during d (with_entry n d fd_fresh s).
Proof.
  intros [[] Hot Hl Hs] Hn Hd Hf.
  assert (d ∉ fds s) as Hnot by (intros Hin; destruct (tb_live d Hin Hd); congruence).
  assert (∀ i e, <[n := d]> (fds s) !! i = Some e → e ≠ 0 → i = n ∧ e = d ∨ i ≠ n ∧ e ≠ d ∧ fds s !! i = Some e) as Hl'.
  { intros i e Hi He. apply list_lookup_insert_Some in Hi as [(-> & -> & _)|[Hne Hi]]; [by left|right].
    split_and!; try done. intros ->. by apply Hnot, list_elem_of_lookup_2 with i. }
  split; [split|..]; simpl; try done.
  - by rewrite length_insert.
  - intros e [i Hi]%list_elem_of_lookup_1 He. destruct (Hl' _ _ Hi He) as [[-> ->]|(_ & Hne & Hi')].
    { rewrite lookup_insert_eq. by eexists. }
    rewrite lookup_insert_ne by done. apply tb_live; [by eapply list_elem_of_lookup_2|done].
  - intros e [g Hg]. apply lookup_insert_Some in Hg as [[<- _]|[Hne Hg]].
    + split; [done|]. apply list_elem_of_lookup_2 with n. apply list_lookup_insert_eq. by eapply lookup_lt_Some.
    + destruct (tb_used e (ex_intro _ _ Hg)) as [He [i Hi]%list_elem_of_lookup_1]. split; [done|].
      apply list_elem_of_lookup_2 with i. rewrite list_lookup_insert_ne; [done|]. intros ->. congruence.
  - intros i j e Hi Hj He. destruct (Hl' _ _ Hi He) as [[-> ->]|(? & ? & ?)], (Hl' _ _ Hj He) as [[-> ?]|(? & ? & ?)];
      [done|congruence|congruence|eauto].
  - intros e g. rewrite lookup_insert_Some. intros [[_ <-]|[_ Hg]]; [done|eauto].
  - intros e g He. rewrite lookup_insert_ne by done. intros Hg. apply (Hot e); [|done]. intros ->.
    by destruct (tb_used 0 (ex_intro _ _ Hg)).
  - rewrite Hs, owned_insert by done. unfold owns. simpl. lia.
Qed.

Lemma settled_world w s : settled s → settled (set_world w s).
Proof. by intros [[] ???]. Qed.

(** The table with more empty places. *)
Lemma settled_grown k s : settled s → Z.of_nat (length (fds s) + k) ≤ DFS_FD_MAX →
  settled (set_fds (fds s ++ replicate k 0) s).
Proof.
  intros [[] Hot Hl Hs] Hk. split; [split|..]; simpl; try done.
  - by rewrite length_app, length_replicate.
  - intros d [Hd|Hd]%elem_of_app H0; [eauto|]. by apply elem_of_replicate in Hd as [-> _].
  - intros d Hd. destruct (tb_used d Hd). split; [done|]. rewrite elem_of_app. by left.
  - intros i j d Hi Hj H0. assert (∀ i, (fds s ++ replicate k 0) !! i = Some d → fds s !! i = Some d) as Hin.
    { intros m [Hm|[_ Hm]]%lookup_app_Some; [done|]. by apply lookup_replicate in Hm as [-> _]. }
    eauto.
Qed.
Lemma address_grown k s fd : address (set_fds (fds s ++ replicate k 0) s) fd = address s fd.
Proof.
  unfold address. case_bool_decide; [|done]. simpl. destruct (fds s !! Z.to_nat (fd - 3)) as [d|] eqn:E.
  - by rewrite (lookup_app_l_Some _ _ _ _ E).
  - rewrite lookup_app_r by by apply lookup_ge_None. destruct (replicate k 0 !! _) eqn:E2; [|done].
    by apply lookup_replicate in E2 as [-> _].
Qed.

Lemma settled_kept s t : settled s → kept 0 s t → settled t.
Proof.
  intros [Ht Hot Hl Hs] [Ety Eta Efd Eob _ Elo Est].
  split; [destruct Ht; split; rewrite ?Ety, ?Eta, ?Efd, ?Eob; done|rewrite Eob; done|congruence|].
  rewrite Eta, Eob. lia.
Qed.
(** The two ends of [fd_new]: no descriptor, or the first that is free. *)
Definition none_new (s s' : dfs) : Prop :=
  settled s' ∧ objs s' = objs s ∧ filesystem_table s' = filesystem_table s ∧ ∀ k, address s' k = address s k.
Definition one_new (s : dfs) (fd d : Z) (s' : dfs) : Prop :=
  during d s' ∧ d ≠ 0 ∧ objs s !! d = None ∧ objs s' = <[d := fd_fresh]> (objs s) ∧
  filesystem_table s' = filesystem_table s ∧ address s' fd = Some d ∧ (∀ k, k ≠ fd → address s' k = address s k) ∧
  address s fd = None ∧ (3 ≤ fd < 3 + DFS_FD_MAX) ∧ ∀ k, 3 ≤ k < fd → is_Some (address s k).

Lemma none_kept s t : settled s → kept 0 s t → none_new s t.
Proof.
  intros Hs Hk. split; [by eapply settled_kept|]. destruct Hk. split_and!; try done.
  intros k. unfold address. by rewrite kp_fds.
Qed.

Lemma address_entry s n d f k : d ≠ 0 → (n < length (fds s))%nat →
  address (with_entry n d f s) k = if decide (k = Z.of_nat n + 3) then Some d else address s k.
Proof.
  intros Hd Hn. unfold address. simpl. case_bool_decide as H3; [|by rewrite decide_False by lia].
  destruct (decide (k = Z.of_nat n + 3)) as [->|Hne].
  - replace (Z.to_nat _) with n by lia. rewrite list_lookup_insert_eq by done. by rewrite decide_False.
  - by rewrite list_lookup_insert_ne by lia.
Qed.

Lemma wp_fd_new_end `{!DriversOk} s n (Q : Z → dfs → Prop) : settled s → fds s !! n = Some 0 → Z.of_nat n < DFS_FD_MAX →
  (∀ k, (k < n)%nat → ∃ d, fds s !! k = Some d ∧ d ≠ 0) →
  (∀ s', none_new s s' → Q (-1) s') → (∀ fd d s', one_new s fd d s' → Q fd s') →
  wp (let! idx := fill_entry (Z.of_nat n) in
      let! max := maxfd in
      let! idx := if idx =? max then ret (- (1 + DFS_FD_OFFSET))
                  else let! l := read fds in
                       let! d := from_option OutOfBounds (l !! Z.to_nat idx) in
                       let! f := fd_at d in
                       fd_set d (set_magic DFS_FD_MAGIC (set_ref 1 f)) ;;; ret idx in
      dfs_unlock ;;; ret (idx + DFS_FD_OFFSET)) Q (set_lock (fslock s + 1) s).
Proof.
  intros Hs Hn Hmax Hlow H0 H1. pose proof (lookup_lt_Some _ _ _ Hn) as Hlt. rewrite wp_bind.
  apply wp_fill_entry; [done|..].
  - intros w. unfold maxfd. rewrite wp_bind, wp_bind, wp_gets, wp_ret. cbv beta. simpl fds. rewrite Z.eqb_refl.
    rewrite wp_bind, wp_ret. cbv beta. unfold dfs_unlock. rewrite wp_bind, wp_modify, wp_ret. apply H0.
    apply none_kept; [done|]. split; simpl; try done; lia.
  - intros w d Hd Hf. unfold maxfd. rewrite wp_bind, wp_bind, wp_gets, wp_ret. cbv beta. simpl fds.
    rewrite length_insert, (proj2 (Z.eqb_neq _ _)) by lia.
    rewrite wp_bind, wp_bind, wp_gets, wp_bind. simpl fds. rewrite Nat2Z.id, list_lookup_insert_eq by done.
    cbn [Prelude.from_option]. rewrite wp_ret. cbv beta. rewrite wp_bind. unfold fd_at. rewrite wp_bind, wp_gets.
    simpl objs. rewrite lookup_insert_eq. cbn [Prelude.from_option]. rewrite wp_ret. cbv beta.
    rewrite wp_bind. unfold fd_set. rewrite wp_modify, wp_ret. unfold dfs_unlock. rewrite wp_bind, wp_modify, wp_ret.
    apply (H1 _ d). match goal with |- one_new _ _ _ ?t => assert (t = with_entry n d fd_fresh (set_world w s)) as -> end.
    { unfold with_entry, set_lock, set_objs, set_fds, set_world. simpl. f_equal; [apply insert_insert_eq|lia]. }
    pose proof (settled_world w s Hs) as Hw. split; [by apply during_entry|]. split_and!; try done.
    + rewrite address_entry by done. by rewrite decide_True.
    + intros k Hk. rewrite address_entry by done. by rewrite decide_False.
    + unfold address. rewrite bool_decide_true by (unfold DFS_FD_OFFSET; lia). unfold DFS_FD_OFFSET.
      replace (Z.to_nat _) with n by lia. by rewrite Hn, decide_True.
    + unfold DFS_FD_OFFSET. lia.
    + unfold DFS_FD_OFFSET. lia.
    + intros k Hk. unfold DFS_FD_OFFSET in Hk. destruct (Hlow (Z.to_nat (k - 3)) ltac:(lia)) as (e & He & Hne).
      exists e. apply address_some. split_and!; [lia|done|done].
Qed.

Lemma set_world_same s : set_world (world s) s = s.
Proof. by destruct s. Qed.

Lemma wp_fd_new `{!DriversOk} s (Q : Z → dfs → Prop) : settled s →
  (∀ s', none_new s s' → Q (-1) s') → (∀ fd d s', one_new s fd d s' → Q fd s') → wp fd_new Q s.
Proof.
  intros Hs H0 H1. pose proof Hs as [Ht Hot Hl Hst]. unfold fd_new. rewrite wp_bind. unfold dfs_lock. rewrite wp_modify.
  rewrite wp_bind. unfold fd_alloc. rewrite wp_bind, wp_gets, wp_bind. change (drop _ _) with (fds s).
  set (n := first_zero (fds s)). destruct (first_zero_spec (fds s)) as (Hle & Hz & Hlow). fold n in Hle, Hz, Hlow.
  eapply wp_eq; [apply find_free_run|].
  { intros d Hd Hd0. destruct (tb_live _ Ht d Hd Hd0) as [f Hf]. exists f. split; [done|]. by eapply Hot. }
  fold n. cbv zeta. rewrite Z.add_0_l. unfold maxfd at 1. rewrite wp_bind, wp_bind, wp_gets, wp_ret. simpl fds.
  pose proof (tb_size _ Ht) as Hsz.
  destruct (Z.eqb_spec (Z.of_nat n) (Z.of_nat (length (fds s)))) as [E|E]; cbn [andb].
  2:{ rewrite wp_bind, wp_ret. cbv beta. cbn [negb]. rewrite <- wp_bind. apply wp_fd_new_end; try done; [apply Hz; lia|lia]. }
  assert (none_new s s) as Hnone by done.
  assert (∀ w, wp (let! max := maxfd in
      let! idx := if Z.of_nat n =? max then ret (- (1 + DFS_FD_OFFSET))
                  else let! l := read fds in
                       let! d := from_option OutOfBounds (l !! Z.to_nat (Z.of_nat n)) in
                       let! f := fd_at d in
                       fd_set d (set_magic DFS_FD_MAGIC (set_ref 1 f)) ;;; ret (Z.of_nat n) in
      dfs_unlock ;;; ret (idx + DFS_FD_OFFSET)) Q (set_world w (set_lock (fslock s + 1) s))) as Hfull.
  { intros w. unfold maxfd. rewrite wp_bind, wp_bind, wp_gets, wp_ret. cbv beta. simpl fds. rewrite (proj2 (Z.eqb_eq _ _)) by done.
    rewrite wp_bind, wp_ret. cbv beta. unfold dfs_unlock. rewrite wp_bind, wp_modify, wp_ret. apply H0.
    apply none_kept; [done|]. split; simpl; try done; lia. }
  destruct (Z.ltb_spec (Z.of_nat (length (fds s))) DFS_FD_MAX) as [Hlt|Hge].
  - rewrite wp_bind. unfold grow. rewrite wp_bind, wp_gets. cbv zeta. rewrite wp_bind, wp_call.
    destruct (grant (world s)).1 eqn:Eg; cbv iota; simpl world; rewrite Eg.
    + rewrite wp_bind, wp_modify, wp_ret. cbn [negb]. unfold DFS_FD_MAX in *. simpl fds.
      replace (Z.to_nat _ - length (fds s))%nat with (4 - length (fds s))%nat by (destruct (_ <? _) eqn:?; lia).
      rewrite <- wp_bind. set (k := (4 - length (fds s))%nat). set (w := (grant (world s)).2).
      assert (settled (set_fds (fds s ++ replicate k 0) (set_world w s))) as Hg.
      { apply (settled_grown k (set_world w s)); [by apply settled_world|]. simpl. unfold DFS_FD_MAX. lia. }
      assert (∀ j, address (set_fds (fds s ++ replicate k 0) (set_world w s)) j = address s j) as Ha.
      { intros j. apply (address_grown k (set_world w s)). }
      apply (wp_fd_new_end (set_fds (fds s ++ replicate k 0) (set_world w s))); [done|..].
      * simpl. rewrite lookup_app_r by lia. apply lookup_replicate. lia.
      * unfold DFS_FD_MAX. lia.
      * intros j Hj. destruct (Hlow j Hj) as (d & Hd & Hd0). exists d. simpl.
        split; [by apply lookup_app_l_Some|done].
      * intros s' (G1 & G2 & G3 & G4). apply H0. split_and!; try done. intros j. by rewrite G4, Ha.
      * intros fd d s' (G1 & G2 & G3 & G4 & G5 & G6 & G7 & G8 & G9 & G10). apply (H1 fd d).
        split_and!; try done; [by intros j Hj; rewrite G7, Ha|by rewrite <- Ha|tauto..|].
        intros j Hj. rewrite <- Ha. by apply G10.
    + rewrite wp_bind, wp_ret. cbv beta. rewrite wp_ret. cbn [negb]. apply Hfull.
  - rewrite wp_bind, wp_ret. cbv beta. cbn [negb]. unfold fill_entry.
    unfold maxfd at 1. rewrite wp_bind, wp_bind, wp_gets, wp_ret. cbv beta. rewrite wp_bind, wp_gets. simpl fds.
    rewrite (proj2 (Z.ltb_ge _ _)) by lia. cbn [andb]. rewrite wp_ret. cbv beta.
    rewrite <- (set_world_same (set_lock _ _)). apply Hfull.
Qed.

(** ** [open] *)

(** The descriptors that were open are the same. *)
Lemma others_same s s' d k : tables s → address s' k = address s k →
  (∀ e, e ≠ d → objs s' !! e = objs s !! e) → (objs s !! d = None ∨ address s k ≠ Some d) → descriptor s' k = descriptor s k.
Proof.
  intros Ht Ha Ho Hd. unfold descriptor. rewrite Ha. destruct (address s k) as [e|] eqn:E; [|done].
  apply Ho. intros ->. destruct Hd as [Hd|Hd]; [|done]. destruct (address_live _ _ _ Ht E). congruence.
Qed.

Lemma descriptor_none s k : tables s → address s k = None ↔ descriptor s k = None.
Proof.
  intros Ht. unfold descriptor. destruct (address s k) as [d|] eqn:E; [|done].
  destruct (address_live _ _ _ Ht E) as [f ->]. done.
Qed.

(** What [open] leaves. *)
Definition open_result (name : list Z) (s : dfs) (r : Z) (s' : dfs) : Prop :=
  r = -1 ∧ (∀ k, descriptor s' k = descriptor s k) ∨
  3 ≤ r < 3 + DFS_FD_MAX ∧ descriptor s r = None ∧ (∀ k, 3 ≤ k < r → is_Some (descriptor s k)) ∧
  (∃ g, descriptor s' r = Some g ∧ of_file (world s) (filesystem_table s) name g) ∧
  ∀ k, k ≠ r → descriptor s' k = descriptor s k.

Lemma wp_error e (Q : Z → dfs → Prop) s : Q (-1) (set_errno e s) → wp (error e) Q s.
Proof. done. Qed.
Lemma settled_errno e s : settled s → settled (set_errno e s).
Proof. intros Hs. eapply settled_kept; [exact Hs|by apply kept_errno, kept_refl]. Qed.

(** The new descriptor is given back after a failure. *)
Lemma wp_undo s fd d sa sb f (Q : unit → dfs → Prop) : tables s → one_new s fd d sa → during d sb → rest_same sa sb →
  objs sb = <[d := f]> (objs s) → ref_count f = 2 → path f = None →
  (∀ s', settled s' → filesystem_table s' = filesystem_table s → (∀ k, descriptor s' k = descriptor s k) → Q tt s') →
  wp (fd_put d ;;; fd_put d) Q sb.
Proof.
  intros Ht (_ & Hd & Hno & Hoa & Hta & Haf & Hak & Hfree & Hfd & _) Hdu Hr Ho Hrc Hp HQ. rewrite wp_bind.
  apply (wp_put_back d f); try done; [by rewrite Ho, lookup_insert_eq|]. intros sc Hdc Hrb Hoc _ _.
  apply address_some in Haf as (H3 & Hi & _).
  assert (fds sc = fds sa) as Efd by by rewrite (rs_fds _ _ Hrb), (rs_fds _ _ Hr).
  apply (wp_free d (set_ref 1 f) (Z.to_nat (fd - 3))); try done; [by rewrite Hoc, lookup_insert_eq|by rewrite Efd|].
  intros s' Hs' Hts Hfs Hos _ _. apply HQ; [done| |].
  - by rewrite Hts, (rs_table _ _ Hrb), (rs_table _ _ Hr).
  - assert (objs s' = objs s) as Hobj.
    { by rewrite Hos, Hoc, delete_insert_eq, Ho, delete_insert_id by (try done; by rewrite lookup_insert_eq). }
    intros k. apply (others_same s s' d); try done; [|by intros; rewrite Hobj|by left].
    destruct (decide (k = fd)) as [->|Hne].
    + rewrite Hfree. unfold address. rewrite bool_decide_true, Hfs, Efd by done.
      rewrite list_lookup_insert_eq by (by eapply lookup_lt_Some). by rewrite decide_True.
    + rewrite <- Hak by done. unfold address. case_bool_decide; [|done].
      rewrite Hfs, Efd, list_lookup_insert_ne by lia. done.
Qed.

Lemma wp_open `{!DriversOk} name flags s : settled s → safe_name name →
  wp (open name flags) (λ r s', settled s' ∧ filesystem_table s' = filesystem_table s ∧ open_result name s r s') s.
Proof.
  intros Hs Hn. pose proof (du_tables _ _ Hs) as Ht. unfold open. rewrite wp_bind.
  apply (wp_requests 2); [apply requests_fd_new|]. apply wp_fd_new; [done|..].
  { intros s' (Hs' & Ho & Htb & Ha) _. cbn [Z.ltb Z.compare]. apply wp_error. split_and!; [by apply settled_errno|done|].
    left. split; [done|]. intros k. apply (others_same s _ 0); [done|exact (Ha k)|by intros; simpl; rewrite Ho|].
    right. intros (_ & _ & ?)%address_some. done. }
  intros fd d sa Hnew Hasked. pose proof Hnew as (Hdu & Hd & Hno & Hoa & Hta & Haf & Hak & Hfree & Hfd & Hlow).
  rewrite (proj2 (Z.ltb_ge _ _)) by lia. rewrite wp_bind.
  apply (wp_get_at fd d fd_fresh); try done; [by rewrite Hoa, lookup_insert_eq|]. intros Hh. rewrite wp_bind.
  apply (wp_with_fd d _ _ (opened (world s) (filesystem_table s) name) (set_ref 2 fd_fresh)); try done.
  { intros Q' HQ'. apply (wp_file_open (world s)); try done; [apply (tb_entries _ (du_tables _ _ Hh))|].
    intros r g s' Hk Hg Hr. apply HQ'; [|done|by unfold hold in Hr; simpl in Hr; rewrite Hta in Hr].
    by replace (owns g - _) with (owns g) by (unfold owns; simpl; lia). }
  { unfold hold. simpl. by rewrite lookup_insert_eq. }
  intros r g sb Hdb Hrb Hob [Hm Hr2] Hop. cbv beta.
  assert (objs sb = <[d := g]> (objs s)) as Hob' by by rewrite Hob; unfold hold; simpl; rewrite !insert_insert_eq, Hoa, insert_insert_eq.
  assert (rest_same sa sb) as Hrs by (eapply rest_trans; [|exact Hrb]; done).
  destruct Hop as [[Hr Hp]|[-> Hof]].
  - rewrite (proj2 (Z.ltb_lt _ _)) by done.
    assert (wp (fd_put d ;;; fd_put d) (λ _, wp (error r) (λ r s', settled s' ∧ filesystem_table s' = filesystem_table s ∧ open_result name s r s')) sb) as Hu.
    { apply (wp_undo s fd d sa sb g); try done. intros s' Hs' Hts Hds. apply wp_error.
      split_and!; [by apply settled_errno|done|]. left. split; [done|]. exact Hds. }
    rewrite wp_bind in Hu. rewrite wp_bind. eapply wp_mono; [exact Hu|]. intros [] s1 H1. by rewrite wp_bind.
  - cbn [Z.ltb Z.compare]. rewrite wp_bind. apply (wp_put_back d g); try done; [by rewrite Hob', lookup_insert_eq|].
    intros sc Hdc Hrc Hoc _ _. rewrite wp_ret.
    assert (objs sc = <[d := set_ref 1 g]> (objs s)) as Hoc' by by rewrite Hoc, Hob', insert_insert_eq.
    assert (∀ k, address sc k = address sa k) as Hac.
    { intros k. unfold address. by rewrite (rs_fds _ _ Hrc), (rs_fds _ _ Hrs). }
    split_and!.
    + apply (during_settled d _ (set_ref 1 g)); try done; [by rewrite Hoc', lookup_insert_eq|apply Hof].
    + by rewrite (rs_table _ _ Hrc), (rs_table _ _ Hrs).
    + right. split_and!; try lia; [by apply descriptor_none|..].
      * intros k Hk. destruct (Hlow k Hk) as [e He]. unfold descriptor. rewrite He. by eapply address_live.
      * exists (set_ref 1 g). unfold descriptor. rewrite Hac, Haf, Hoc', lookup_insert_eq. split; [done|].
        destruct Hof as (Hfo & full & i & e & Hof). split; [done|]. by exists full, i, e.
      * intros k Hk. apply (others_same s sc d); try done; [by rewrite Hac, Hak| |by left].
        intros e He. by rewrite Hoc', lookup_insert_ne.
Qed.
End posix.
