(* ===== verification/DfsCalls.v ===== *)
(** * Runs of calls

    Every call on files keeps the table of descriptors settled, and changes at
    most the descriptor that it is given. *)

From S2P Require Import Prelude DfsPath Dfs DfsFile DfsMount DfsLookup DfsFdSpec DfsPosix DfsPosixSpec.

Section calls.
Context {drivers : Drivers}.

(** ** Calls on one descriptor *)

(** The other descriptors are the same, and [fd] is open as it was. *)
Record only (fd : Z) (s s' : dfs) : Prop := {
  on_settled : settled s';
  on_table : filesystem_table s' = filesystem_table s;
  on_types : filesystem_operation_table s' = filesystem_operation_table s;
  on_fd : is_Some (descriptor s' fd) ↔ is_Some (descriptor s fd);
  on_others : ∀ k, k ≠ fd → descriptor s' k = descriptor s k
}.

Lemma only_self fd s : settled s → only fd s s.
Proof. done. Qed.
Lemma only_errno fd s s' e : only fd s s' → only fd s (set_errno e s').
Proof. intros []. split; try done. by apply settled_errno. Qed.

Lemma wp_error_only fd e (Q : Z → dfs → Prop) s s' : only fd s s' → (∀ t, only fd s t → Q (-1) t) → wp (error e) Q s'.
Proof. intros Ho HQ. apply wp_error, HQ. by apply only_errno. Qed.

(** The reference that a call has taken is given back. *)
Lemma wp_put_only fd d g (Q : unit → dfs → Prop) s t : settled s → address s fd = Some d → during d t → rest_same s t →
  objs t = <[d := g]> (objs s) → ref_count g = 2 → fops g ≠ 0 →
  (∀ t', only fd s t' → Q tt t') → wp (fd_put d) Q t.
Proof.
  intros Hs Ha Hd Hr Ho Hrc Hf HQ. pose proof (du_tables _ _ Hs) as Ht.
  pose proof (proj1 (address_some _ _ _) Ha) as (_ & _ & H0). apply (wp_put_back d g); try done.
  { by rewrite Ho, lookup_insert_eq. }
  intros t' Hd' Hr' Ho' _ _. apply HQ. rewrite Ho, insert_insert_eq in Ho'.
  assert (∀ k, address t' k = address s k) as Hak.
  { intros k. unfold address. by rewrite (rs_fds _ _ Hr'), (rs_fds _ _ Hr). }
  split.
  - apply (during_settled d _ (set_ref 1 g)); try done. by rewrite Ho', lookup_insert_eq.
  - by rewrite (rs_table _ _ Hr'), (rs_table _ _ Hr).
  - by rewrite (rs_types _ _ Hr'), (rs_types _ _ Hr).
  - destruct (address_live _ _ _ Ht Ha) as [f Hf']. unfold descriptor. rewrite Hak, Ha, Ho', lookup_insert_eq, Hf'.
    split; by eexists.
  - intros k Hk. apply (others_same s t' d); try done.
    + intros e He. by rewrite Ho', lookup_insert_ne.
    + right. intros E. by destruct (Hk (address_fun _ _ _ _ Ht E Ha)).
Qed.

(** What the calls share. *)
Lemma wp_use {A B} fd (null : A) m (k0 : D B) (k : A → D B) (Q : B → dfs → Prop) s : plain_op m → settled s →
  (address s fd = None → wp k0 Q s) →
  (∀ r t, only fd s t → wp (k r) Q t) →
  wp (let! d := fd_get fd in
      if d =? 0 then k0
      else let! r := with_fd d null m in fd_put d ;;; k r) Q s.
Proof.
  intros Hm Hs H0 H1. rewrite wp_bind. apply wp_get; [done|done|]. intros d f Ha Hf Hd Hfo Hr Hdu.
  rewrite (proj2 (Z.eqb_neq _ _)) by done. rewrite wp_bind.
  apply (wp_with_fd d _ _ (λ _ g, fops g ≠ 0) (set_ref 2 f)); try done.
  - intros Q' HQ'. apply Hm; try done. apply (tb_entries _ (du_tables _ _ Hdu)).
  - unfold hold. simpl. by rewrite lookup_insert_eq.
  - intros r g t Hdt Hrt Hot [_ Hg] Hgo. rewrite wp_bind.
    apply (wp_put_only fd d g _ s); try done.
    + by eapply rest_trans; [|exact Hrt].
    + rewrite Hot. unfold hold. simpl. by rewrite insert_insert_eq.
    + apply H1.
Qed.

(** A reference that is only taken and given back. *)
Lemma wp_put_held fd d f (Q : unit → dfs → Prop) s : settled s → address s fd = Some d → objs s !! d = Some f →
  fops f ≠ 0 → during d (hold d f s) → (∀ t, only fd s t → Q tt t) → wp (fd_put d) Q (hold d f s).
Proof. intros. by apply (wp_put_only fd d (set_ref 2 f) _ s). Qed.

Lemma wp_read fd len s : settled s → wp (read_ fd len) (λ _ t, only fd s t) s.
Proof.
  intros Hs. unfold read_. apply wp_use; [apply read_plain|done|..].
  - intros _. rewrite wp_bind. by apply (wp_error_only fd _ _ s).
  - intros [r bs] t Ht. destruct (_ <? _); [|done]. rewrite wp_bind. by apply (wp_error_only fd _ _ s).
Qed.
Lemma wp_write fd buf s : settled s → wp (write fd buf) (λ _ t, only fd s t) s.
Proof.
  intros Hs. unfold write. apply wp_use; [apply write_plain|done|..].
  - intros _. by apply (wp_error_only fd _ _ s).
  - intros r t Ht. destruct (r <? 0); [|done]. by apply (wp_error_only fd _ _ s).
Qed.
Lemma wp_fsync fd s : settled s → wp (fsync fd) (λ _ t, only fd s t) s.
Proof.
  intros Hs. unfold fsync. apply wp_use; [apply flush_plain|done|..]; [|done].
  intros _. by apply (wp_error_only fd _ _ s).
Qed.
Lemma wp_fcntl fd cmd arg s : settled s → wp (fcntl fd cmd arg) (λ _ t, only fd s t) s.
Proof.
  intros Hs. assert (∀ r t, only fd s t → wp (if r <? 0 then error r else ret r) (λ _ t, only fd s t) t) as Hend.
  { intros r t Ht. destruct (r <? 0); [|done]. by apply (wp_error_only fd _ _ s). }
  unfold fcntl. pose proof (wp_use fd (- EINVAL) (λ f, dfs_file_ioctl f cmd arg) (ret (- EBADF)) ret
    (λ r t, only fd s t) s (ioctl_plain cmd arg) Hs ltac:(done) ltac:(done)) as Hu.
  rewrite wp_bind in Hu. rewrite wp_bind. eapply wp_mono; [exact Hu|]. intros d t Hdt. rewrite wp_bind.
  eapply wp_mono; [exact Hdt|]. apply Hend.
Qed.
Lemma wp_lseek fd offset whence s : settled s → wp (lseek fd offset whence) (λ _ t, only fd s t) s.
Proof.
  intros Hs. unfold lseek. rewrite wp_bind. apply wp_get; [done|intros _; by apply (wp_error_only fd _ _ s)|].
  intros d f Ha Hf Hd Hfo Hr Hdu. rewrite (proj2 (Z.eqb_neq _ _)) by done. rewrite wp_bind. unfold fd_at.
  rewrite wp_bind, wp_gets. unfold hold at 1. simpl objs. rewrite lookup_insert_eq. cbn [Prelude.from_option].
  rewrite wp_ret. cbv beta.
  assert (wp (fd_put d ;;; error (- EINVAL)) (λ _ t, only fd s t) (hold d f s)) as Herr.
  { rewrite wp_bind. apply (wp_put_held fd); try done. intros t Ht. by apply (wp_error_only fd _ _ s). }
  destruct (seek_target _ _ _) as [o|]; [|exact Herr]. destruct (o <? 0); [exact Herr|].
  rewrite wp_bind. apply (wp_with_fd d _ _ (λ _ g, fops g ≠ 0) (set_ref 2 f)); try done.
  - intros Q' HQ'. apply lseek_plain; try done. apply (tb_entries _ (du_tables _ _ Hdu)).
  - unfold hold. simpl. by rewrite lookup_insert_eq.
  - intros r g t Hdt Hrt Hot [_ Hg] Hgo. rewrite wp_bind. apply (wp_put_only fd d g _ s); try done.
    + by eapply rest_trans; [|exact Hrt].
    + rewrite Hot. unfold hold. simpl. by rewrite insert_insert_eq.
    + intros t' Ht'. destruct (r <? 0); [by apply (wp_error_only fd _ _ s)|done].
Qed.
Lemma wp_fstat fd s : settled s → wp (fstat fd) (λ _ t, only fd s t) s.
Proof.
  intros Hs. unfold fstat. rewrite wp_bind.
  apply wp_get; [done|intros _; cbn [Z.eqb]; rewrite wp_bind; by apply (wp_error_only fd _ _ s)|].
  intros d f Ha Hf Hd Hfo Hr Hdu. rewrite (proj2 (Z.eqb_neq _ _)) by done. rewrite wp_bind. unfold fd_at.
  rewrite wp_bind, wp_gets. unfold hold at 1. simpl objs. rewrite lookup_insert_eq. cbn [Prelude.from_option].
  rewrite wp_ret. cbv beta zeta. rewrite wp_bind. by apply (wp_put_held fd).
Qed.
Lemma wp_ftruncate fd length s : settled s → wp (ftruncate fd length) (λ _ t, only fd s t) s.
Proof.
  intros Hs. unfold ftruncate. destruct (length <? 0) eqn:El.
  - rewrite wp_bind. apply wp_get; [done|intros _; by apply (wp_error_only fd _ _ s)|].
    intros d f Ha Hf Hd Hfo Hr Hdu. rewrite (proj2 (Z.eqb_neq _ _)) by done. rewrite wp_bind.
    apply (wp_put_held fd); try done. intros t Ht. by apply (wp_error_only fd _ _ s).
  - apply wp_use; [apply ftruncate_plain|done|intros _; by apply (wp_error_only fd _ _ s)|].
    intros r t Ht. destruct (r <? 0); [by apply (wp_error_only fd _ _ s)|done].
Qed.

(** ** [close] *)

(** What [close] leaves: the descriptor is free, or the call has failed. *)
Definition close_result (fd : Z) (s : dfs) (r : Z) (t : dfs) : Prop :=
  settled t ∧ filesystem_table t = filesystem_table s ∧ (∀ k, k ≠ fd → descriptor t k = descriptor s k) ∧
  (r = 0 ∧ is_Some (descriptor s fd) ∧ descriptor t fd = None ∨
   r = -1 ∧ (is_Some (descriptor t fd) ↔ is_Some (descriptor s fd))).

Lemma wp_close fd s : settled s → wp (close fd) (close_result fd s) s.
Proof.
  intros Hs. pose proof (du_tables _ _ Hs) as Ht.
  assert (∀ t, only fd s t → close_result fd s (-1) t) as Herr by (intros t []; split_and!; auto).
  unfold close. rewrite wp_bind. apply wp_get; [done|intros _; apply (wp_error_only fd _ _ s); by auto|].
  intros d f Ha Hf Hd Hfo Hr Hdu. rewrite (proj2 (Z.eqb_neq _ _)) by done. rewrite wp_bind.
  apply (wp_with_fd d _ _ (λ r g, fops g ≠ 0 ∧ (0 ≤ r → path g = None)) (set_ref 2 f)); try done.
  { intros Q' HQ'. apply close_op; try done. apply (tb_entries _ (du_tables _ _ Hdu)). }
  { unfold hold. simpl. by rewrite lookup_insert_eq. }
  intros r g t Hdt Hrt Hot [_ Hg] [Hgo Hp]. simpl in Hg.
  assert (objs t = <[d := g]> (objs s)) as Hot' by by rewrite Hot; unfold hold; simpl; rewrite insert_insert_eq.
  assert (rest_same s t) as Hst by (eapply rest_trans; [|exact Hrt]; done).
  rewrite wp_bind. destruct (Z.ltb_spec r 0) as [Hlt|Hge].
  { apply (wp_put_only fd d g _ s); try done. intros t' Ht'. by apply (wp_error_only fd _ _ s); auto. }
  apply (wp_put_back d g); try done; [by rewrite Hot', lookup_insert_eq|]. intros t1 Hd1 Hr1 Ho1 _ _.
  apply address_some in Ha as Ha'. destruct Ha' as (H3 & Hi & _).
  assert (fds t1 = fds s) as Efd by by rewrite (rs_fds _ _ Hr1), (rs_fds _ _ Hst).
  rewrite wp_bind. apply (wp_free d (set_ref 1 g) (Z.to_nat (fd - 3))); try done.
  { by rewrite Ho1, lookup_insert_eq. }
  { by apply Hp. }
  { by rewrite Efd. }
  intros t2 Hs2 Ht2 Hf2 Ho2 _ _. rewrite wp_ret. split; [done|].
  split; [by rewrite Ht2, (rs_table _ _ Hr1), (rs_table _ _ Hst)|].
  assert (∀ k, address t2 k = if decide (k = fd) then None else address s k) as Hak.
  { intros k. unfold address. rewrite Hf2, Efd. destruct (decide (k = fd)) as [->|Hne].
    - rewrite bool_decide_true, list_lookup_insert_eq by (done || by eapply lookup_lt_Some). by rewrite decide_True.
    - case_bool_decide; [|done]. by rewrite list_lookup_insert_ne by lia. }
  split.
  - intros k Hk. apply (others_same s t2 d); try done.
    + by rewrite Hak, decide_False.
    + intros e He. by rewrite Ho2, lookup_delete_ne, Ho1, lookup_insert_ne, Hot', lookup_insert_ne.
    + right. intros E. by destruct (Hk (address_fun _ _ _ _ Ht E Ha)).
  - left. split; [done|]. unfold descriptor. rewrite Ha, Hf, Hak, decide_True by done. by split; [eexists|].
Qed.
End calls.
