(* ===== verification/DfsDemo.v ===== *)
(** * A small file system driver

    A driver whose files all hold the same bytes and whose name is [ram], to
    evaluate the theorems and to show what the code does on concrete names.
    Its world counts what it and the allocator were asked for; [memory] tells
    which requests for memory are granted, and [close] is the result of its
    close. *)

From S2P Require Import Prelude DfsPath Dfs DfsFile DfsMount DfsLookup DfsFdSpec DfsPosix.
From Stdlib Require Import String.
Open Scope Z_scope.

(** An operation that succeeds with [r]. *)
Definition demo_op (r : Z) (f : dfs_fd) (w : nat) : (Z * cursor) * nat :=
  ((r, mk_cursor (flags f) (size f) (pos f) (data f)), S w).

Definition demo_open (f : dfs_fd) (w : nat) : (Z * cursor) * nat :=
  if bool_decide (path f = Some (chars "/missing")) then demo_op (- ENOENT) f w
  else ((0, mk_cursor (flags f) 5 0 (OwnData 1)), S w).

Definition demo_place (h : gmap Z dfs_fd) : Z := 1 + map_fold (λ k _ m, Z.max k m) 0 h.

Definition demo (memory : nat → bool) (close : Z) : Drivers := {|
  W := nat;
  grant w := (memory w, S w);
  place _ h := demo_place h;
  rt_device_find _ n := if bool_decide (n = chars "sd0") then 9 else 0;
  rt_device_open d w := (0, w);
  rt_device_close d w := (0, w);
  ops_name o := if o =? 100 then chars "ram" else chars "lfs";
  ops_flags _ := 0;
  ops_fops o := o + 100;
  op_mount _ := Some (λ _ _ _ w, ((0, 7), S w));
  op_unmount _ := Some (λ _ w, ((0, 0), S w));
  op_mkfs _ := None;
  op_statfs _ := None;
  op_unlink _ := Some (λ _ _ w, (0, S w));
  op_stat _ := Some (λ _ _ w, ((0, mk_stat 0 S_IFREG 5 0), S w));
  op_rename _ := Some (λ _ _ _ w, (0, S w));
  f_open _ := Some demo_open;
  f_close _ := Some (demo_op close);
  f_ioctl _ := Some (λ f _ _ w, demo_op 0 f w);
  f_read _ := Some (λ f len w,
    let bs := take (Z.to_nat len) (chars "hello") in
    ((Z.of_nat (List.length bs), bs, mk_cursor (flags f) (size f) (Z.of_nat (List.length bs)) (data f)), S w));
  f_write _ := Some (λ f b w, demo_op (Z.of_nat (List.length b)) f w);
  f_flush _ := None;
  f_lseek _ := Some (λ f o w, demo_op o f w);
  f_getdents _ := None
|}.

#[export] Instance demo_drivers : Drivers := demo (λ _, true) 0.

Lemma demo_place_above h d : is_Some (h !! d) → d < demo_place h.
Proof.
  unfold demo_place. assert (∀ d, is_Some (h !! d) → d ≤ map_fold (λ k _ m, Z.max k m) 0 h) as Hle.
  { clear d. induction h as [|k x m Hm Hf IH] using map_first_key_ind; [by intros d [? ?]|].
    intros d Hd. rewrite map_fold_insert_first_key by done.
    destruct (decide (d = k)) as [->|Hne]; [lia|]. rewrite lookup_insert_ne in Hd by done. specialize (IH d Hd). lia. }
  intros Hd. specialize (Hle d Hd). lia.
Qed.
Lemma demo_place_pos h : 0 < demo_place h.
Proof.
  unfold demo_place. enough (0 ≤ map_fold (λ k _ m, Z.max k m) 0 h) by lia.
  induction h as [|k x m Hm Hf IH] using map_first_key_ind; [done|]. rewrite map_fold_insert_first_key by done. lia.
Qed.

#[export] Instance demo_ok : DriversOk.
Proof.
  split. intros w h. simpl. pose proof (demo_place_pos h). split; [lia|].
  destruct (h !! demo_place h) eqn:E; [|done]. pose proof (demo_place_above h (demo_place h) ltac:(by eexists)). lia.
Qed.

(** The firmware after its start: nothing is in the tables before. *)
Definition demo_start {d : Drivers} (w : W) : dfs :=
  mk_dfs _ false [] [] [] ∅ 0 0 0 0 w.
Definition demo_setup {d : Drivers} : D Z :=
  dfs_init ;;;
  dfs_register 100 ;;;
  dfs_mount None (chars "/") (chars "ram") 0 0.
Definition demo_state : dfs :=
  mk_dfs _ true [100; 0] [mk_fs 0 (Some (chars "/")) 100 7; fs_zero] [] ∅ 1 0 0 0 2%nat.

Example demo_setup_run : demo_setup (demo_start 0%nat) = Ok 0 demo_state.
Proof. vm_compute. reflexivity. Qed.

Lemma demo_settled : settled demo_state.
Proof.
  split; [split|..]; simpl; try done.
  - intros d Hd. by apply not_elem_of_nil in Hd.
  - intros d [f Hf]. by rewrite lookup_empty in Hf.
  - constructor; [by split; [eexists|]|]. constructor; [done|constructor].
  - constructor; [done|]. constructor; [done|constructor].
Qed.

(** The state that a call leaves. *)
Definition after {d : Drivers} {A} (m : D A) (s : dfs) : dfs :=
  match m s with Ok _ t => t | Fault _ => s end.
Definition result_of {d : Drivers} {A} (m : D A) (s : dfs) : option A :=
  match m s with Ok r _ => Some r | Fault _ => None end.
