(* ===== verification/DfsNames.v ===== *)
(** * Calls on names, and runs of calls

    [stat], [unlink] and [rename] leave the tables alone; a run of calls on
    files keeps the table of descriptors settled; a file that is open is not
    unlinked. *)

From S2P Require Import Prelude DfsPath Dfs DfsFile DfsMount DfsLookup DfsFdSpec DfsPosix DfsPosixSpec DfsCalls DfsDemo.

Section names.
Context {drivers : Drivers}.

(** ** Names *)

(** The name of a path below the root. *)
Definition proper (name : list Z) : Prop := 0 ∉ name ∧ is_Some (meant None name).

Lemma proper_safe name : proper name → safe_name name.
Proof. intros [Hz Hm]. by apply safe_meant. Qed.

Lemma proper_full name full : proper name → full_path name full →
  ∃ cs, meant None name = Some cs ∧ normal cs ∧ full = render cs.
Proof.
  intros [Hz [cs Hm]] [w E]. destruct (normalize_meant None name cs) as [Hn [s E']]; [done..|].
  exists cs. split_and!; try done. congruence.
Qed.

Lemma meant_render cs : normal cs → meant None (render cs) = Some cs.
Proof.
  intros Hn. unfold meant. assert (∃ p, render cs = slash :: p) as (p & E) by (destruct cs; by eexists).
  rewrite E. cbn [Z.eqb slash Pos.eqb]. rewrite <- E, components_render by by apply normal_ok.
  by rewrite resolve_self.
Qed.
Lemma proper_render cs : normal cs → proper (render cs).
Proof.
  intros Hn. split; [by apply render_ok, normal_ok|]. rewrite meant_render by done. by eexists.
Qed.
Lemma render_full cs full : normal cs → full_path (render cs) full → full = render cs.
Proof.
  intros Hn Hf. destruct (proper_full _ _ (proper_render _ Hn) Hf) as (ds & Hm & _ & ->).
  rewrite meant_render in Hm by done. by injection Hm as ->.
Qed.

(** ** The open files *)

(** Some descriptor is of the file [mp] of the file system at [i]. *)
Definition in_use (s : dfs) (l : list Z) (i : nat) (mp : list Z) : Prop :=
  ∃ d f, d ∈ l ∧ d ≠ 0 ∧ objs s !! d = Some f ∧ fops f ≠ 0 ∧ fs f = Some i ∧ path f = Some mp.

Lemma open_loop_run i mp l s : (∀ d, d ∈ l → d ≠ 0 → is_Some (objs s !! d)) →
  ∃ b : bool, open_loop i mp l s = Ok b s ∧ (b = true ↔ in_use s l i mp).
Proof.
  induction l as [|d l IH]; intros Hl; cbn [open_loop].
  { exists false. split; [done|]. split; [done|]. intros (? & ? & Hin & _). by apply not_elem_of_nil in Hin. }
  destruct IH as (b & E & Hb); [intros e He; apply Hl; by right|].
  assert (∀ b', (b' = true ↔ in_use s l i mp) → (∀ f, d ≠ 0 → objs s !! d = Some f →
    fops f = 0 ∨ path f = None ∨ fs f ≠ Some i ∨ path f ≠ Some mp) → (b' = true ↔ in_use s (d :: l) i mp)) as Hskip.
  { intros b' -> Hno. split; intros (e & f & He & H0 & Hf & H3 & H4 & H5); exists e, f; split_and!; try done; [by right|].
    apply elem_of_cons in He as [->|He]; [|done]. destruct (Hno f H0 Hf) as [?|[?|[?|?]]]; congruence. }
  destruct (Z.eqb_spec d 0) as [->|Hd]; [exists b; split; [done|by apply Hskip]|].
  destruct (Hl d ltac:(left) Hd) as [f Hf]. unfold fd_at. rewrite bind_assoc, bind_gets, Hf.
  cbn [Prelude.from_option]. rewrite bind_ret.
  destruct (Z.eqb_spec (fops f) 0) as [H0|H0]; cbn [orb].
  { exists b. split; [done|]. apply Hskip; [done|]. intros g _ Hg. left. congruence. }
  case_bool_decide as Hp; [exists b; split; [done|]; apply Hskip; [done|]; intros g _ Hg; right; left; congruence|].
  case_bool_decide as Hfs; cbn [andb]; [case_bool_decide as Hmp|].
  - exists true. split; [done|]. split; [intros _|done]. exists d, f. split_and!; try done. left.
  - exists b. split; [done|]. apply Hskip; [done|]. intros g _ Hg. right. right. right. congruence.
  - exists b. split; [done|]. apply Hskip; [done|]. intros g _ Hg. right. right. left. congruence.
Qed.

(** The name that [fd_is_open] looks for. *)
Definition mount_path (p full : list Z) : list Z :=
  if bool_decide (p = [slash]) then full else drop (length p) full.

(** It is the name that the driver was given, below a mount point. *)
Lemma mount_path_name e p cs : fs_path e = Some p → fullpath_flag e = false → normal cs →
  string_prefix p (render cs) → p ≠ render cs → mount_path p (render cs) = driver_name e (render cs).
Proof.
  intros Hp Hfl Hn [Ht Hs] Hne. unfold mount_path, driver_name. rewrite Hfl, Hp.
  assert (length p ≤ length (render cs))%nat as Hle by (rewrite <- Ht at 1; rewrite length_take; lia).
  assert (length p ≠ length (render cs)) as Hlen.
  { intros E. apply Hne. rewrite <- Ht. apply take_ge. lia. }
  unfold sub_of. rewrite decide_False by done. case_bool_decide as Hroot.
  - subst p. destruct (decide (cs = [])) as [->|Hcs]; [done|].
    destruct (render_ok cs (normal_ok _ Hn)) as [_ Hshape].
    destruct cs as [|c cs]; [done|]. apply Forall_cons in Hn as [((Hc & Hsl & _) & _) _].
    destruct c as [|x c]; [done|]. unfold render. cbn. rewrite decide_False; [done|].
    intros [[= ->]|]; [|done]. apply Hsl. left.
  - destruct (decide (p = [])) as [->|Hpn]; [rewrite decide_True by auto; done|].
    destruct (decide (length p = 1%nat)) as [H1|H1].
    { destruct p as [|x [|]]; try done. destruct cs; cbn in Ht; congruence. }
    rewrite decide_True; [done|]. left. apply Hs. destruct p; simpl in *; [done|lia].
Qed.

Lemma wp_fd_is_open cs (Q : Z → dfs → Prop) s : tables s → normal cs →
  (∀ r s', kept 0 s s' → Q r s') → wp (fd_is_open (render cs)) Q s.
Proof.
  intros Ht Hn HQ. unfold fd_is_open. rewrite wp_bind.
  apply wp_normalize; [apply proper_safe, proper_render, Hn|intros s' Hk; rewrite wp_ret; by apply HQ|].
  intros full s1 Hf H1. rewrite wp_bind. apply wp_lookup. intros r n _ Hb. destruct r as [i|].
  2:{ rewrite wp_bind. apply wp_free_string. intros s2 H2. rewrite wp_ret. apply HQ. by eapply kept_trans. }
  destruct (best_entry _ _ _ _ Hb) as (e & p & Hi & Hp & Heo & Hs).
  rewrite wp_bind. unfold fs_path_at, fs_at. rewrite wp_bind, wp_bind, wp_gets, Hi.
  cbn [Prelude.from_option]. rewrite wp_ret. cbv beta. rewrite Hp. cbn [Prelude.from_option]. rewrite wp_ret.
  cbv beta zeta. unfold dfs_lock, dfs_unlock. rewrite wp_bind, wp_modify, wp_bind, wp_gets, wp_bind.
  destruct (open_loop_run i (if bool_decide (p = [slash]) then full else drop (length p) full) (fds s1)
    (set_lock (fslock s1 + 1) s1)) as (b & E & _).
  { intros d Hd H0. simpl. rewrite (kp_objs _ _ _ H1). rewrite (kp_fds _ _ _ H1) in Hd. by eapply tb_live. }
  eapply wp_eq; [exact E|]. assert (kept 0 s (set_lock (fslock s1 + 1 - 1) (set_strings (strings s1 - 1) s1))) as Hk.
  { destruct H1. split; simpl; try done; lia. }
  destruct b; exact (HQ _ _ Hk).
Qed.

(** ** [stat], [unlink] and [rename] *)

Lemma wp_below e p full (Q : option (list Z) → dfs → Prop) s : fs_path e = Some p → string_prefix p full →
  (∀ q, Q q s) → wp (below e full) Q s.
Proof.
  intros Hp Hs HQ. unfold below. rewrite Hp. cbn [Prelude.from_option]. rewrite wp_bind, wp_ret. cbv beta.
  eapply wp_eq; [apply subdir_run, prefix_length_le, Hs|apply HQ].
Qed.
Lemma wp_driver_path e p full (Q : option (list Z) → dfs → Prop) s : fs_path e = Some p → string_prefix p full →
  (∀ q, Q q s) → wp (driver_path e full) Q s.
Proof. intros Hp Hs HQ. unfold driver_path. destruct (fullpath_flag e); [apply HQ|by eapply wp_below]. Qed.

Lemma wp_fs_at i e (Q : dfs_filesystem → dfs → Prop) s : filesystem_table s !! i = Some e → Q e s → wp (fs_at i) Q s.
Proof. intros Hi HQ. unfold fs_at. by rewrite wp_bind, wp_gets, Hi. Qed.

Lemma wp_free_end {A} (r : A) (Q : A → dfs → Prop) s t : kept 1 s t → (∀ r s', kept 0 s s' → Q r s') →
  wp (free_string ;;; ret r) Q t.
Proof. intros Hk HQ. rewrite wp_bind. apply wp_free_string. intros s2 H2. rewrite wp_ret. apply HQ. by eapply kept_trans. Qed.

Lemma wp_file_stat name (Q : Z * option stat_buf → dfs → Prop) s : proper name →
  (∀ r s', kept 0 s s' → Q r s') → wp (dfs_file_stat name) Q s.
Proof.
  intros Hn HQ. unfold dfs_file_stat. rewrite wp_bind.
  apply wp_normalize; [by apply proper_safe|intros s' Hk; rewrite wp_ret; by apply HQ|].
  intros full s1 Hf H1. rewrite wp_bind. apply wp_lookup. intros r n _ Hb. destruct r as [i|]; [|by eapply wp_free_end].
  destruct (best_entry _ _ _ _ Hb) as (e & p & Hi & Hp & Heo & Hs).
  rewrite wp_bind. eapply wp_fs_at; [exact Hi|]. cbv beta. rewrite wp_bind.
  assert (∀ sub, wp (match sub with
    | None => free_string ;;; ret (0, Some (mk_stat 0 (Z.lor mode_rw (Z.lor S_IFDIR mode_x)) 0 0))
    | Some sub => match op_stat (ops e) with
        | None => free_string ;;; ret (- ENOSYS, None)
        | Some o => let! r := call (o e (if fullpath_flag e then full else sub)) in free_string ;;; ret (r.1, Some r.2)
        end
    end) Q s1) as Hend.
  { intros [sub|]; [|by eapply wp_free_end]. destruct (op_stat (ops e)); [|by eapply wp_free_end].
    rewrite wp_bind, wp_call. eapply wp_free_end; [by apply kept_world|done]. }
  case_bool_decide; [rewrite wp_ret; apply (Hend None)|]. by eapply wp_below.
Qed.

Lemma wp_file_unlink name (Q : Z → dfs → Prop) s : tables s → proper name →
  (∀ r s', kept 0 s s' → Q r s') → wp (dfs_file_unlink name) Q s.
Proof.
  intros Ht Hn HQ. unfold dfs_file_unlink. rewrite wp_bind.
  apply wp_normalize; [by apply proper_safe|intros s' Hk; rewrite wp_ret; by apply HQ|].
  intros full s1 Hf H1. rewrite wp_bind. apply wp_lookup. intros r n _ Hb. rewrite wp_bind.
  destruct (proper_full _ _ Hn Hf) as (cs & _ & Hcs & ->).
  destruct r as [i|]; [|rewrite wp_ret; by eapply wp_free_end].
  destruct (best_entry _ _ _ _ Hb) as (e & p & Hi & Hp & Heo & Hs). rewrite wp_bind.
  assert (tables s1) as Ht1.
  { destruct H1, Ht. split; by rewrite ?kp_types, ?kp_table, ?kp_fds, ?kp_objs. }
  apply wp_fd_is_open; [done|done|]. intros r s2 H2. assert (kept 1 s s2) as H12 by by eapply kept_trans.
  destruct (r =? 0); [rewrite wp_ret; by eapply wp_free_end|]. rewrite wp_bind.
  eapply wp_fs_at; [by rewrite (kp_table _ _ _ H2)|]. cbv beta.
  destruct (op_unlink (ops e)); [|rewrite wp_ret; by eapply wp_free_end].
  rewrite wp_bind. eapply wp_driver_path; [done..|]. intros q. rewrite wp_call. eapply wp_free_end; [apply kept_world; exact H12|done].
Qed.

(** A file system is mounted at the root. *)
Definition rooted (s : dfs) : Prop :=
  ∃ i f, filesystem_table s !! i = Some f ∧ fs_path f = Some [slash] ∧ ops f ≠ 0.

Lemma rooted_best s cs r n : rooted s → normal cs → best (render cs) (filesystem_table s) r n → ∃ i, r = Some i.
Proof.
  intros (i & f & Hi & Hp & Ho) Hn Hb. destruct r as [j|]; [by exists j|]. destruct Hb as [_ Hb].
  destruct (Hb i f Hi). exists [slash]. split_and!; try done.
  change [slash] with (render []). apply render_prefix; [constructor|by apply normal_ok|apply prefix_nil].
Qed.

Lemma wp_file_rename old new (Q : Z → dfs → Prop) s : proper old → proper new → rooted s →
  (∀ r s', kept 0 s s' → Q r s') → wp (dfs_file_rename old new) Q s.
Proof.
  intros Ho Hw Hroot HQ. unfold dfs_file_rename. rewrite wp_bind.
  apply wp_normalize; [by apply proper_safe|intros s' Hk; rewrite wp_ret; by apply HQ|].
  intros full s1 Hf H1. rewrite wp_bind.
  apply wp_normalize; [by apply proper_safe|intros s' Hk; eapply wp_free_end;
    [exact (kept_trans _ _ _ _ _ _ H1 Hk eq_refl)|done]|].
  intros full' s2 Hf' H2. rewrite wp_bind. apply wp_lookup. intros r n _ Hb. rewrite wp_bind. apply wp_lookup.
  intros r' n' _ Hb'. rewrite wp_bind. assert (kept 2 s s2) as H12 by by eapply kept_trans.
  assert (∀ (r : Z) t, kept 2 s t → wp (free_string ;;; free_string ;;; ret r) Q t) as Hend.
  { intros r0 t Ht. rewrite wp_bind. apply wp_free_string. intros t1 Ht1.
    apply (wp_free_end r0 _ s); [by eapply kept_trans|done]. }
  destruct (proper_full _ _ Ho Hf) as (cs & _ & Hcs & ->). destruct (proper_full _ _ Hw Hf') as (cs' & _ & Hcs' & ->).
  rewrite (kp_table _ _ _ H12) in Hb, Hb'. destruct (rooted_best s cs r n) as [i ->]; [done..|].
  case_bool_decide as Er; [|rewrite wp_ret; by apply Hend]. subst r'.
  cbn [Prelude.from_option]. rewrite wp_bind, wp_ret. cbv beta. rewrite wp_bind.
  destruct (best_entry _ _ _ _ Hb) as (e & p & Hi & Hp & Heo & Hs).
  destruct (best_entry _ _ _ _ Hb') as (e' & p' & Hi' & Hp' & _ & Hs').
  assert (e' = e) as -> by congruence. eapply wp_fs_at; [by rewrite (kp_table _ _ _ H12)|]. cbv beta.
  destruct (op_rename (ops e)) as [o|]; [|rewrite wp_ret; by apply Hend].
  rewrite wp_bind. eapply wp_driver_path; [exact Hp|exact Hs|]. intros q. rewrite wp_bind.
  eapply wp_driver_path; [exact Hp'|exact Hs'|]. intros q'. rewrite wp_call. by apply Hend, kept_world.
Qed.

(** ** Runs of calls *)

Inductive request : Type :=
  | Open (name : list Z) (flags : Z) | Close (fd : Z) | Read (fd len : Z) | Write (fd : Z) (buf : list Z)
  | Lseek (fd offset whence : Z) | Fstat (fd : Z) | Fsync (fd : Z) | Fcntl (fd cmd arg : Z) | Ftruncate (fd length : Z)
  | Stat (name : list Z) | Access (name : list Z) | Unlink (name : list Z) | Rmdir (name : list Z)
  | Rename (old new : list Z).

Definition perform (q : request) : D unit :=
  match q with
  | Open name flags => open name flags ;;; ret tt
  | Close fd => close fd ;;; ret tt
  | Read fd len => read_ fd len ;;; ret tt
  | Write fd buf => write fd buf ;;; ret tt
  | Lseek fd offset whence => lseek fd offset whence ;;; ret tt
  | Fstat fd => fstat fd ;;; ret tt
  | Fsync fd => fsync fd ;;; ret tt
  | Fcntl fd cmd arg => fcntl fd cmd arg ;;; ret tt
  | Ftruncate fd length => ftruncate fd length ;;; ret tt
  | Stat name => stat name ;;; ret tt
  | Access name => access name ;;; ret tt
  | Unlink name => unlink name ;;; ret tt
  | Rmdir name => rmdir name ;;; ret tt
  | Rename old new => rename old new ;;; ret tt
  end.
Fixpoint perform_all (l : list request) : D unit :=
  match l with
  | [] => ret tt
  | q :: l => perform q ;;; perform_all l
  end.

(** The names of a request are proper. *)
Definition request_ok (q : request) : Prop :=
  match q with
  | Open name _ | Stat name | Access name | Unlink name | Rmdir name => proper name
  | Rename old new => proper old ∧ proper new
  | _ => True
  end.

(** What one request keeps. *)
Definition keeps (s s' : dfs) : Prop := settled s' ∧ filesystem_table s' = filesystem_table s.

Lemma kept_keeps s s' : settled s → kept 0 s s' → keeps s s'.
Proof. intros Hs Hk. split; [by eapply settled_kept|by destruct Hk]. Qed.
Lemma wp_only_keeps {A} (m : D A) fd s : wp m (λ _ t, only fd s t) s → wp (m ;;; ret tt) (λ _, keeps s) s.
Proof. intros Hm. rewrite wp_bind. eapply wp_mono; [exact Hm|]. by intros _ t []. Qed.

(** A call on names: [errno] is set where the result is negative. *)
Lemma wp_named (m : D Z) s : settled s →
  (∀ Q : Z → dfs → Prop, (∀ r s', kept 0 s s' → Q r s') → wp m Q s) →
  wp (let! r := m in if r <? 0 then error r else ret 0) (λ _, keeps s) s.
Proof.
  intros Hs Hm. rewrite wp_bind. apply Hm. intros r t Ht. destruct (r <? 0).
  - apply wp_error, kept_keeps; [done|by apply kept_errno].
  - by apply kept_keeps.
Qed.

Lemma wp_stat name s : settled s → proper name → wp (stat name) (λ _, keeps s) s.
Proof.
  intros Hs Hn. unfold stat. rewrite wp_bind. apply wp_file_stat; [done|]. intros r t Ht. destruct (_ <? _).
  - rewrite wp_bind. apply wp_error. rewrite wp_ret. apply kept_keeps; [done|by apply kept_errno].
  - by apply kept_keeps.
Qed.

Lemma wp_unit {A} (m : D A) s : wp m (λ _, keeps s) s → wp (m ;;; ret tt) (λ _, keeps s) s.
Proof. intros Hm. by rewrite wp_bind. Qed.

Lemma perform_run `{!DriversOk} q s : settled s → rooted s → request_ok q → wp (perform q) (λ _, keeps s) s.
Proof.
  intros Hs Hr Hq. pose proof (du_tables _ _ Hs) as Ht. destruct q; cbn [perform request_ok] in *.
  - rewrite wp_bind. eapply wp_mono; [apply wp_open; [done|by apply proper_safe]|]. by intros _ t (? & ? & _).
  - rewrite wp_bind. eapply wp_mono; [by apply wp_close|]. by intros _ t (? & ? & _).
  - by eapply wp_only_keeps, wp_read.
  - by eapply wp_only_keeps, wp_write.
  - by eapply wp_only_keeps, wp_lseek.
  - by eapply wp_only_keeps, wp_fstat.
  - by eapply wp_only_keeps, wp_fsync.
  - by eapply wp_only_keeps, wp_fcntl.
  - by eapply wp_only_keeps, wp_ftruncate.
  - by apply wp_unit, wp_stat.
  - apply wp_unit. unfold access. rewrite wp_bind. eapply wp_mono; [by apply wp_stat|]. done.
  - apply wp_unit. unfold unlink. apply wp_named; [done|]. intros Q HQ. by apply wp_file_unlink.
  - apply wp_unit. unfold rmdir. apply wp_named; [done|]. intros Q HQ. by apply wp_file_unlink.
  - apply wp_unit. unfold rename. apply wp_named; [done|]. intros Q HQ. destruct Hq. by apply wp_file_rename.
Qed.

Lemma rooted_keeps s t : rooted s → keeps s t → rooted t.
Proof. intros Hr [_ E]. unfold rooted. by rewrite E. Qed.

(** ** A file that is open *)

Lemma proper_head name : proper name → head name = Some slash.
Proof.
  intros [_ [cs Hm]]. unfold meant in Hm. destruct name as [|c name]; [done|].
  destruct (Z.eqb_spec c slash) as [->|]; done.
Qed.

Lemma normalize_path_run name full s : proper name → full_path name full → (grant (world s)).1 = true →
  normalize_path None name s = Ok (Some full) (set_strings (strings s + 1) (set_world (grant (world s)).2 s)).
Proof.
  intros Hn [w E] Hg. unfold normalize_path. rewrite bool_decide_true by by apply proper_head. cbn [negb].
  unfold new_string, call. rewrite !bind_assoc, bind_gets, bind_assoc, bind_modify, bind_ret, Hg.
  rewrite bind_assoc, bind_modify, bind_ret, E. done.
Qed.

Lemma fd_is_open_run cs i e p s : tables s → normal cs → found_at (filesystem_table s) (render cs) = Some i →
  filesystem_table s !! i = Some e → fs_path e = Some p → (grant (world s)).1 = true →
  in_use s (fds s) i (mount_path p (render cs)) →
  fd_is_open (render cs) s = Ok 0 (set_world (grant (world s)).2 s).
Proof.
  intros Ht Hn Hl Hi Hp Hg Huse. unfold fd_is_open.
  destruct (normalize_meant None (render cs) cs) as (_ & w & Ew);
    [done|apply (proper_render _ Hn)|by apply meant_render|].
  rewrite (bind_ok _ _ _ _ _ (normalize_path_run (render cs) (render cs) s (proper_render _ Hn) (ex_intro _ w Ew) Hg)).
  match goal with |- context [set_strings ?a ?b] => set (s1 := set_strings a b) end.
  rewrite (bind_ok _ _ _ _ _ (lookup_run (render cs) s1)). change (filesystem_table s1) with (filesystem_table s).
  rewrite Hl. unfold fs_path_at, fs_at. rewrite !bind_assoc, bind_gets. change (filesystem_table s1) with (filesystem_table s).
  rewrite Hi. cbn [Prelude.from_option]. rewrite bind_ret, Hp. cbn [Prelude.from_option]. rewrite bind_ret. cbv zeta.
  unfold dfs_lock. rewrite bind_modify, bind_gets.
  destruct (open_loop_run i (mount_path p (render cs)) (fds s) (set_lock (fslock s1 + 1) s1)) as (b & E & Hb).
  { intros d Hd H0. by apply (tb_live _ Ht). }
  unfold mount_path in E. rewrite (bind_ok _ _ _ _ _ E). rewrite (proj2 Hb) by done.
  unfold free_string, dfs_unlock. rewrite !bind_modify. unfold ret. f_equal.
  unfold s1, set_lock, set_strings, set_world. destruct s. simpl. f_equal; lia.
Qed.

(** A descriptor of the file is in use. *)
Lemma descriptor_in_use s fd g i mp : descriptor s fd = Some g → fops g ≠ 0 → fs g = Some i → path g = Some mp →
  in_use s (fds s) i mp.
Proof.
  unfold descriptor. intros Hg Hfo Hfs Hp. destruct (address s fd) as [d|] eqn:Ha; [|done].
  apply address_some in Ha as (_ & Hd & H0). exists d, g. split_and!; try done. by eapply list_elem_of_lookup_2.
Qed.

Lemma unlink_busy name cs i e p s : tables s → proper name → full_path name (render cs) → normal cs →
  found_at (filesystem_table s) (render cs) = Some i → filesystem_table s !! i = Some e → fs_path e = Some p →
  in_use s (fds s) i (mount_path p (render cs)) →
  (grant (world s)).1 = true → (grant (grant (world s)).2).1 = true →
  unlink name s = Ok (-1) (set_errno (- EBUSY) (set_world (grant (grant (world s)).2).2 s)).
Proof.
  intros Ht Hn Hf Hcs Hl Hi Hp Huse Hg Hg2. unfold unlink, dfs_file_unlink. rewrite bind_assoc.
  rewrite (bind_ok _ _ _ _ _ (normalize_path_run name _ s Hn Hf Hg)).
  match goal with |- context [set_strings ?a ?b] => set (s1 := set_strings a b) end.
  rewrite bind_assoc, (bind_ok _ _ _ _ _ (lookup_run (render cs) s1)). change (filesystem_table s1) with (filesystem_table s).
  rewrite Hl, !bind_assoc. assert (tables s1) as Ht1 by (by destruct Ht).
  rewrite (bind_ok _ _ _ _ _ (fd_is_open_run cs i e p s1 Ht1 Hcs Hl Hi Hp Hg2 Huse)).
  cbn [Z.eqb]. rewrite bind_ret. unfold free_string. rewrite bind_assoc, bind_modify, bind_ret.
  change (- EBUSY <? 0) with true. unfold error, rt_set_errno. rewrite bind_modify. unfold ret, set_errno, set_world. f_equal.
  unfold s1, set_strings. destruct s. simpl. f_equal. lia.
Qed.

(** C11: [open] of a name that has a meaning below the root gives the lowest
    descriptor that is free, or none: it returns -1 and leaves every descriptor as
    it was, or a number from 3 that was free while all lower ones were in use, now
    open on the file with its normalised name, below the mount point, in the file
    system found for it, with every other descriptor as it was.  The descriptor
    has the path, except when the allocator refused one of the (at most four)
    requests that [open] made before it called the driver.  In both
    cases, for whatever the driver and the allocator answer, the tables are
    settled: a failed [open] leaves no descriptor, no path and no lock behind. *)
Theorem open_lowest `{!DriversOk} name flags s : settled s → proper name →
  ∃ r s', open name flags s = Ok r s' ∧ settled s' ∧ filesystem_table s' = filesystem_table s ∧
  open_result name s r s'.
Proof.
  intros Hs Hn. pose proof (wp_open name flags s Hs (proper_safe _ Hn)) as Hw.
  apply wp_run in Hw as (r & s' & E & Hr). by exists r, s'.
Qed.

(** C10: No sequence of calls on files disturbs the table of descriptors: from a
    settled state with a file system at the root, any sequence of [open],
    [close], [read], [write], [lseek], [fstat], [fsync], [fcntl], [ftruncate],
    [stat], [access], [unlink], [rmdir] and [rename], with whatever descriptors,
    lengths and flags, with whatever results of the drivers and of the
    allocator, and with names that have a meaning below the root, runs without
    a fault and ends in a settled state, in which every entry of the table is
    empty or has its own live descriptor with one reference, the lock is free, the
    mounted file systems are the same, and exactly the paths of these and of the
    open descriptors are allocated. *)
Theorem calls_keep_tables `{!DriversOk} l s : settled s → rooted s → Forall request_ok l →
  ∃ s', perform_all l s = Ok tt s' ∧ settled s' ∧ filesystem_table s' = filesystem_table s.
Proof.
  intros Hs Hr Hl. assert (wp (perform_all l) (λ _, keeps s) s) as Hw.
  { revert s Hs Hr. induction Hl as [|q l Hq _ IH]; intros s Hs Hr; cbn [perform_all]; [done|].
    rewrite wp_bind. eapply wp_mono; [by apply perform_run|]. intros [] t Hk. cbv beta.
    eapply wp_mono; [apply IH; [apply Hk|by eapply rooted_keeps]|]. intros _ u [H1 H2]. split; [done|].
    by rewrite H2, (proj2 Hk). }
  apply wp_run in Hw as ([] & s' & E & Hk). by exists s'.
Qed.

(** C15: A file that is open is not unlinked: where [open] has given a descriptor
    and recorded its path, the file is below its mount point in a file system
    that does not take full paths ([DFS_FS_FLAG_FULLPATH]), both names have a
    meaning below the root, and the two requests for memory of [unlink] are
    granted, [unlink] of any name of the same file returns -1 with [errno] -EBUSY, and has
    called no operation of a driver and changed nothing else. *)
Theorem unlink_open_busy `{!DriversOk} name name' flags fd g s s1 : settled s → proper name → proper name' →
  meant None name' = meant None name →
  open name flags s = Ok fd s1 → descriptor s1 fd = Some g → fd ≠ -1 → path g ≠ None →
  (∀ i e p, fs g = Some i → filesystem_table s !! i = Some e → fs_path e = Some p →
    fullpath_flag e = false ∧ ¬ full_path name p) →
  (grant (world s1)).1 = true → (grant (grant (world s1)).2).1 = true →
  unlink name' s1 = Ok (-1) (set_errno (- EBUSY) (set_world (grant (grant (world s1)).2).2 s1)).
Proof.
  intros Hs Hn Hn' Hsame Hop Hg Hfd Hp Hbelow Hg1 Hg2.
  pose proof (wp_open name flags s Hs (proper_safe _ Hn)) as Hw. unfold wp in Hw. rewrite Hop in Hw.
  destruct Hw as (Hs1 & Ht1 & [[-> _]|(_ & _ & _ & (g' & Hg' & Hof) & _)]); [done|].
  rewrite Hg in Hg'. injection Hg' as <-. destruct Hof as (Hfo & full & i & e & Hf & Hl & Hi & Hfs & Hpath).
  destruct Hpath as [Hpath|[? _]]; [|done]. destruct (proper_full _ _ Hn Hf) as (cs & Hm & Hcs & ->).
  assert (full_path name' (render cs)) as Hf'.
  { destruct Hn' as [Hz _]. rewrite Hm in Hsame. by destruct (normalize_meant None name' cs) as [_ ?]. }
  destruct (lookup_loop_best (render cs) (filesystem_table s) [] None 0) as [n Hb].
  { split; [done|]. intros j f. by rewrite lookup_nil. }
  cbn [app length] in Hb. unfold found_at in Hl. rewrite Hl in Hb.
  destruct (best_entry _ _ _ _ Hb) as (e' & p & Hi' & He & _ & Hpre). assert (e' = e) as -> by congruence.
  destruct (Hbelow i e p Hfs Hi He) as [Hfl Hne].
  apply (unlink_busy name' cs i e p); try done; [apply (du_tables _ _ Hs1)|by rewrite Ht1|by rewrite Ht1|].
  eapply descriptor_in_use; [done..|]. rewrite Hpath. f_equal. symmetry. apply mount_path_name; try done.
  intros ->. done.
Qed.
End names.

(** ** On the small driver *)
From Stdlib Require Import String.
Open Scope Z_scope.

Lemma demo_rooted : rooted demo_state.
Proof. by exists 0%nat, (mk_fs 0 (Some (chars "/")) 100 7). Qed.

Ltac concrete_name := split; [by apply (bool_decide_unpack _); vm_compute|vm_compute; by eexists].

Lemma open_lowest_witness : ∃ r s', open (chars "/log/../a.txt") 0 demo_state = Ok r s' ∧ settled s' ∧
  filesystem_table s' = filesystem_table demo_state ∧ open_result (chars "/log/../a.txt") demo_state r s'.
Proof. apply open_lowest; [exact demo_settled|concrete_name]. Defined.

Definition demo_calls : list request :=
  [Open (chars "/a") 0; Open (chars "/missing") 0; Open (chars "//b/") 0; Read 4 3; Close 3; Unlink (chars "/b");
   Open (chars "/c") 0; Lseek 3 7 1; Close 9; Rename (chars "/a") (chars "/d"); Fsync 4; Close 4; Close 4].

Lemma calls_keep_tables_witness : ∃ s', perform_all demo_calls demo_state = Ok tt s' ∧ settled s' ∧
  filesystem_table s' = filesystem_table demo_state.
Proof.
  apply calls_keep_tables; [exact demo_settled|exact demo_rooted|].
  unfold demo_calls. repeat constructor; try (apply (bool_decide_unpack _); by vm_compute); vm_compute; by eexists.
Defined.

Definition demo_open_a : dfs := after (open (chars "/a") 0) demo_state.

Lemma unlink_open_busy_witness :
  unlink (chars "/log/../a") demo_open_a = Ok (-1) (set_errno (- EBUSY) (set_world 9%nat demo_open_a)).
Proof.
  apply (unlink_open_busy (chars "/a") (chars "/log/../a") 0 3
    (mk_fd DFS_FD_MAGIC FT_REGULAR (Some (chars "/a")) 1 (Some 0%nat) 200 DFS_F_OPEN 5 0 (OwnData 1)) demo_state).
  - exact demo_settled.
  - concrete_name.
  - concrete_name.
  - vm_compute. reflexivity.
  - vm_compute. reflexivity.
  - vm_compute. reflexivity.
  - done.
  - done.
  - intros i e p [= <-] [= <-] [= <-]. split; [reflexivity|]. intros [w Hw]. vm_compute in Hw. discriminate Hw.
  - reflexivity.
  - reflexivity.
Defined.

(** ** What the code does at its edges *)

(** [dfs_file_rename] dereferences a null pointer where no file system is
    mounted. *)
Example rename_unmounted :
  rename (chars "/a") (chars "/b") (after dfs_init (demo_start 0%nat)) = Fault NullDeref.
Proof. vm_compute. reflexivity. Qed.

(** Where the memory ends between the two paths, an open file counts as not
    open, and the driver unlinks it: the request for memory that fails is the
    second of [unlink]. *)
Example unlink_no_memory :
  let d := demo (λ w, negb (w =? 8)%nat) 0 in
  let s := after (open (chars "/a") 0) (after demo_setup (demo_start (d := d) 0%nat)) in
  is_Some (descriptor s 3) ∧ result_of (unlink (chars "/a")) s = Some 0.
Proof. vm_compute. split; [by eexists|reflexivity]. Qed.

(** [mkdir] frees the descriptor also where the driver's close failed, and the
    path of the descriptor is lost: two strings are allocated, one is used. *)
Example mkdir_leak :
  let d := demo (λ _, true) (-1) in
  let s := after (mkdir (chars "/dir")) (after demo_setup (demo_start (d := d) 0%nat)) in
  fds s = [0; 0; 0; 0] ∧ strings s = 2 ∧ mounted (filesystem_table s) = 1.
Proof. vm_compute. done. Qed.
