(* ===== verification/DfsMountSpec.v ===== *)
(** * Mounting

    What [dfs_mount], [dfs_unmount] and [dfs_register] do to the tables, on
    every path through them. *)

From S2P Require Import Prelude DfsPath Dfs DfsFile DfsMount DfsLookup DfsFdSpec DfsPosix DfsPosixSpec DfsCalls DfsNames.
From S2P Require Import DfsDemo.

Section mount.
Context {drivers : Drivers}.

(** ** The loops *)
Lemma find_type_some name l o : find_type name l = Some o → o ∈ l ∧ o ≠ 0 ∧ ops_name o = name.
Proof.
  induction l as [|x l IH]; [done|]. cbn [find_type]. destruct (Z.eqb_spec x 0) as [|Hx]; cbn [negb andb].
  { intros H. destruct (IH H) as (? & ? & ?). split_and!; try done. by right. }
  case_bool_decide as Hn; [intros [= ->]; split_and!; try done; left|].
  intros H. destruct (IH H) as (? & ? & ?). split_and!; try done. by right.
Qed.

(** The first empty entry. *)
Definition first_empty (t : list dfs_filesystem) (i : nat) : Prop :=
  (∃ f, t !! i = Some f ∧ ops f = 0) ∧ ∀ j f, (j < i)%nat → t !! j = Some f → ops f ≠ 0.
Definition not_mounted (path : list Z) (t : list dfs_filesystem) : Prop :=
  ∀ f, f ∈ t → ops f ≠ 0 → fs_path f ≠ Some path.

(** What the loop finds in [t], when it is at [i]; [found] is the first empty
    entry before. *)
Definition found_in (t : list dfs_filesystem) (i : nat) (found : option nat) : Prop :=
  match found with
  | Some j => first_empty t j
  | None => ∀ j f, (j < i)%nat → t !! j = Some f → ops f ≠ 0
  end.

Lemma entry_loop_run path s l : ∀ t found, Forall entry_ok (t ++ l) → found_in (t ++ l) (length t) found →
  not_mounted path t →
  ∃ e, entry_loop path l (length t) found s = Ok e s ∧
  match e with
  | Mounted => ∃ f, f ∈ t ++ l ∧ ops f ≠ 0 ∧ fs_path f = Some path
  | Full => (∀ f, f ∈ t ++ l → ops f ≠ 0) ∧ not_mounted path (t ++ l)
  | Empty i => first_empty (t ++ l) i ∧ not_mounted path (t ++ l)
  end.
Proof.
  induction l as [|f l IH]; intros t found Ht Hf Hn; cbn [entry_loop].
  { destruct found as [j|]; eexists; (split; [done|]); rewrite app_nil_r in *; [done|]. split; [|done].
    intros f [i Hi]%list_elem_of_lookup_1. eapply Hf; [|exact Hi]. by eapply lookup_lt_Some. }
  assert (t ++ f :: l = (t ++ [f]) ++ l) as E by by rewrite <- app_assoc.
  assert (S (length t) = length (t ++ [f])) as El by (rewrite length_app; simpl; lia).
  assert ((t ++ f :: l) !! length t = Some f) as Hi by by rewrite list_lookup_middle.
  assert (∀ j g, (j < length (t ++ [f]))%nat → (t ++ f :: l) !! j = Some g →
    (j < length t)%nat ∨ j = length t ∧ g = f) as Hlt.
  { intros j g Hj Hg. rewrite <- El in Hj. destruct (decide (j = length t)) as [->|]; [right; split; [done|congruence]|].
    left. lia. }
  destruct (Z.eqb_spec (ops f) 0) as [H0|H0].
  - rewrite El. rewrite E in *. apply IH; [done| |].
    + destruct found as [j|]; [done|]. split; [by exists f|]. intros j g Hj Hg. by eapply Hf.
    + intros g [Hg| ->%list_elem_of_singleton]%elem_of_app; [by apply Hn|done].
  - pose proof (Forall_lookup_1 _ _ _ _ Ht Hi) as He. unfold entry_ok in He. rewrite decide_False in He by done.
    destruct He as [[p Hp] _]. rewrite Hp. cbn [Prelude.from_option]. rewrite bind_ret. case_bool_decide as Hpp.
    + exists Mounted. split; [done|]. exists f. split_and!; [|done|congruence]. apply elem_of_app. right. left.
    + rewrite El. rewrite E in *. apply IH; [done| |].
      * destruct found as [j|]; [done|]. intros j g Hj Hg. destruct (Hlt j g Hj Hg) as [?|[_ ->]]; [by eapply Hf|done].
      * intros g [Hg| ->%list_elem_of_singleton]%elem_of_app; [by apply Hn|]. intros _. congruence.
Qed.

(** ** The table of file systems *)
Lemma mounted_insert t i f g : t !! i = Some f → ops f = 0 → ops g ≠ 0 → mounted (<[i := g]> t) = mounted t + 1.
Proof.
  intros Hi Hf Hg. unfold mounted. rewrite insert_take_drop by by eapply lookup_lt_Some.
  rewrite <- (take_drop_middle t i f Hi) at 3. rewrite !filter_app, !length_app.
  rewrite filter_cons_True by done. rewrite filter_cons_False by naive_solver. simpl. lia.
Qed.

(** The state with another table of file systems, and [n] more strings. *)
Record retabled (t : list dfs_filesystem) (n : Z) (s s' : dfs) : Prop := {
  rt_types : filesystem_operation_table s' = filesystem_operation_table s;
  rt_table : filesystem_table s' = t;
  rt_fds : fds s' = fds s;
  rt_objs : objs s' = objs s;
  rt_lock : fslock s' = fslock s;
  rt_strings : strings s' = strings s + n
}.

Lemma settled_retabled t n s s' : settled s → retabled t n s s' → Forall entry_ok t →
  mounted t = mounted (filesystem_table s) + n → settled s'.
Proof.
  intros [Ht Hot Hl Hs] [Ety Eta Efd Eob Elo Est] He Hm.
  split; [destruct Ht; split; rewrite ?Ety, ?Eta, ?Efd, ?Eob; done|rewrite Eob; done|congruence|].
  rewrite Eta, Eob. lia.
Qed.
Lemma kept_retabled n s s' : kept n s s' → retabled (filesystem_table s) n s s'.
Proof. by intros []. Qed.

(** ** The directory below the new file system *)

(** The file system has opened the directory at [path] for the check and refuses
    to close it. *)
Definition close_refused (path : list Z) (s : dfs) : Prop := ∃ full s1 f s2 r f' s3,
  normalize_path None path s = Ok (Some full) s1 ∧
  dfs_file_open fd_zero full (Z.lor O_RDONLY O_DIRECTORY) s1 = Ok (0, f) s2 ∧
  dfs_file_close f s2 = Ok (r, f') s3 ∧ r < 0.
(** Then the path of its descriptor, which was on the stack, is lost. *)
Definition lost (path : list Z) (s : dfs) (n : Z) : Prop := n = 0 ∨ n = 1 ∧ close_refused path s.

Lemma wp_directory path cs (Q : bool → dfs → Prop) s s1 : Forall entry_ok (filesystem_table s1) → normal cs →
  normalize_path None path s = Ok (Some (render cs)) s1 →
  (∀ b n s', kept n s1 s' → lost path s n → Q b s') → wp (directory_exists (render cs)) Q s1.
Proof.
  intros Ht Hn En HQ. unfold directory_exists.
  destruct (_ || _); [apply (HQ _ 0); [apply kept_refl|by left]|].
  assert (wp (dfs_file_open fd_zero (render cs) (Z.lor O_RDONLY O_DIRECTORY)) (λ x s',
    kept (owns x.2) s1 s' ∧ opened (world s1) (filesystem_table s1) (render cs) x.1 x.2) s1) as Ho.
  { apply (wp_file_open (world s1)); [apply proper_safe, proper_render, Hn|done|done|apply reached_refl|].
    by intros r f s' Hk _ Ho. }
  apply wp_run in Ho as ([r f] & s2 & Eo & H2 & Ho). rewrite wp_bind. eapply wp_eq; [exact Eo|]. cbn [fst snd] in *.
  destruct Ho as [[Hr Hp]|[-> [Hf _]]].
  { rewrite (proj2 (Z.ltb_lt _ _)) by done. rewrite wp_ret. apply (HQ _ 0); [|by left].
    unfold owns in H2. by rewrite Hp in H2. }
  cbn [Z.ltb Z.compare]. rewrite wp_bind.
  assert (wp (dfs_file_close f) (λ x s', kept (owns x.2 - owns f) s2 s' ∧ (0 ≤ x.1 → Dfs.path x.2 = None)) s2) as Hc.
  { apply close_op; [done|by rewrite (kp_table _ _ _ H2)|]. intros r g s' Hk _ [_ Hp]. done. }
  apply wp_run in Hc as ([r g] & s3 & Ec & H3 & Hp). eapply wp_eq; [exact Ec|]. cbn [fst snd] in *.
  rewrite wp_ret. apply (HQ _ (owns g)).
  - eapply kept_trans; [exact H2|exact H3|lia].
  - unfold lost, owns. destruct (Dfs.path g) eqn:Eg; [|by left]. right. split; [done|].
    assert (r < 0) as Hr by (destruct (Z.lt_ge_cases r 0) as [|H0]; [done|by discriminate (Hp H0)]).
    by exists (render cs), s1, f, s2, r, g, s3.
Qed.

(** ** [dfs_mount] *)

Lemma wp_fs_update i g (Q : unit → dfs → Prop) s : Q tt (set_table (alter g i (filesystem_table s)) s) → wp (fs_update i g) Q s.
Proof. done. Qed.

Lemma retabled_intro t n s s' : filesystem_operation_table s' = filesystem_operation_table s → filesystem_table s' = t →
  fds s' = fds s → objs s' = objs s → fslock s' = fslock s → strings s' = strings s + n → retabled t n s s'.
Proof. by split. Qed.

Lemma alter_zero (t : list dfs_filesystem) i f : t !! i = Some fs_zero → alter (λ _, fs_zero) i (<[i := f]> t) = t.
Proof.
  intros Hi. apply list_eq. intros j. destruct (decide (j = i)) as [->|Hne].
  - rewrite list_lookup_alter_eq, list_lookup_insert_eq by by eapply lookup_lt_Some. by rewrite Hi.
  - by rewrite list_lookup_alter_ne, list_lookup_insert_ne.
Qed.
Lemma alter_insert (t : list dfs_filesystem) i (f : dfs_filesystem) g : (i < length t)%nat → alter g i (<[i := f]> t) = <[i := g f]> t.
Proof.
  intros Hi. apply list_eq. intros j. destruct (decide (j = i)) as [->|Hne].
  - by rewrite list_lookup_alter_eq, !list_lookup_insert_eq.
  - by rewrite list_lookup_alter_ne, !list_lookup_insert_ne.
Qed.

(** The end of the mount: the device and the driver agree, or the entry is
    cleared. *)
Lemma wp_start n i dev o full rw dat mo (Q : Z → dfs → Prop) t s s0 : t !! i = Some fs_zero →
  retabled (<[i := mk_fs dev (Some full) o 0]> t) (1 + n) s0 s →
  (∀ s', retabled t n s0 s' → Q (-1) s') →
  (∀ x s', retabled (<[i := mk_fs dev (Some full) o x]> t) (1 + n) s0 s' → Q 0 s') →
  wp (start i dev mo rw dat) Q s.
Proof.
  intros Hi Hs0 H0 H1. pose proof (lookup_lt_Some _ _ _ Hi) as Hlt. set (e := mk_fs dev (Some full) o 0) in *.
  assert (∀ u f, retabled (<[i := f]> t) (1 + n) s0 u →
    wp (dfs_lock ;;; fs_update i (λ _, fs_zero) ;;; err1) Q u) as Hclear.
  { intros u f []. unfold dfs_lock. rewrite wp_bind, wp_modify, wp_bind. apply wp_fs_update.
    unfold err1, dfs_unlock, free_string. rewrite wp_bind, wp_modify, wp_bind, wp_modify, wp_ret. apply H0.
    apply retabled_intro; simpl; try done; [|lia|lia]. rewrite rt_table0. by apply alter_zero. }
  unfold start. rewrite wp_bind.
  assert (∀ r u, retabled (<[i := e]> t) (1 + n) s0 u → wp (if negb (r =? 0) then
      dfs_lock ;;; fs_update i (λ _, fs_zero) ;;; err1
    else
      let! f := fs_at i in
      let! r := call (mo f rw dat) in
      fs_update i (λ f, mk_fs (dev_id f) (fs_path f) (ops f) r.2) ;;;
      if r.1 <? 0 then
        (when negb (dev =? 0) then (call (rt_device_close dev) ;;; ret tt)) ;;;
        dfs_lock ;;;
        fs_update i (λ _, fs_zero) ;;;
        err1
      else ret 0) Q u) as Hrest.
  { intros r u Hu. destruct (negb (r =? 0)); [by eapply Hclear|]. rewrite wp_bind. eapply wp_fs_at.
    { rewrite (rt_table _ _ _ _ Hu). by apply list_lookup_insert_eq. }
    cbv beta. rewrite wp_bind, wp_call, wp_bind. apply wp_fs_update.
    match goal with |- context [set_table _ ?v] => set (w := v) end.
    match goal with |- context [mk_fs _ _ _ ?y] => set (x := y) end.
    assert (∀ v, retabled (<[i := mk_fs dev (Some full) o x]> t) (1 + n) s0 (set_world v (set_table
      (alter (λ f, mk_fs (dev_id f) (fs_path f) (ops f) x) i (filesystem_table w)) w))) as Hx.
    { intros v. destruct Hu. apply retabled_intro; simpl; try done. by rewrite rt_table0, alter_insert. }
    destruct (_ <? 0); [|rewrite wp_ret; apply (H1 x), (Hx (world w))].
    rewrite wp_bind. destruct (negb (dev =? 0)).
    - rewrite wp_bind, wp_call, wp_ret. eapply Hclear, Hx.
    - rewrite wp_ret. eapply Hclear, (Hx (world w)). }
  destruct (dev =? 0); [rewrite wp_ret; by apply Hrest|]. rewrite wp_call. apply Hrest. by destruct Hs0.
Qed.

(** What [dfs_mount] leaves: settled tables, but for [n] paths that are lost. *)
Definition mount_left (n : Z) (path fstype : list Z) (s : dfs) (r : Z) (s' : dfs) : Prop :=
  settled (set_strings (strings s' - n) s') ∧ objs s' = objs s ∧ fds s' = fds s ∧
  (r = -1 ∧ filesystem_table s' = filesystem_table s ∨
   r = 0 ∧ ∃ i full dev o x, full_path path full ∧ first_empty (filesystem_table s) i ∧
     not_mounted path (filesystem_table s) ∧ o ∈ filesystem_operation_table s ∧ ops_name o = fstype ∧
     filesystem_table s' = <[i := mk_fs dev (Some full) o x]> (filesystem_table s)).
Definition mount_result (path fstype : list Z) (s : dfs) (r : Z) (s' : dfs) : Prop :=
  ∃ n, lost path s n ∧ mount_left n path fstype s r s'.

Lemma mount_failed n path fstype s s' : settled s → retabled (filesystem_table s) n s s' →
  mount_left n path fstype s (-1) s'.
Proof.
  intros Hs Hr. split; [|by destruct Hr; auto]. apply (settled_retabled (filesystem_table s) 0 s); [done| |..].
  - destruct Hr. apply retabled_intro; simpl; try done. lia.
  - apply (tb_entries _ (du_tables _ _ Hs)).
  - lia.
Qed.
Lemma wp_mount_error n e path fstype s s' : settled s → kept n s s' →
  wp (rt_set_errno e ;;; ret (-1)) (mount_left n path fstype s) s'.
Proof. intros Hs Hk. apply mount_failed; [done|]. by apply kept_retabled, kept_errno. Qed.

Lemma wp_mount_entry n path fstype full dev o mo rw dat s s1 : settled s → kept (1 + n) s s1 → full_path path full →
  o ∈ filesystem_operation_table s → o ≠ 0 → ops_name o = fstype →
  wp (mount_entry path full dev o mo rw dat) (mount_left n path fstype s) s1.
Proof.
  intros Hs Hk Hf Ho Ho0 Hnm. unfold mount_entry. pose proof (du_tables _ _ Hs) as Ht. pose proof (tb_entries _ Ht) as He.
  unfold dfs_lock. rewrite wp_bind, wp_modify, wp_bind, wp_gets, wp_bind. simpl filesystem_table.
  rewrite (kp_table _ _ _ Hk).
  destruct (entry_loop_run path (set_lock (fslock s1 + 1) s1) (filesystem_table s) [] None) as (e & E & Hspec);
    [done|by intros ? ? ?%Nat.nlt_0_r|by intros ? ?%not_elem_of_nil|]. cbn [app length] in E, Hspec.
  eapply wp_eq; [exact E|].
  assert (∀ e, wp (rt_set_errno e ;;; err1) (mount_left n path fstype s) (set_lock (fslock s1 + 1) s1)) as Herr.
  { intros er. apply mount_failed; [done|]. destruct Hk. apply retabled_intro; simpl; try done; lia. }
  destruct e as [| |i]; [apply Herr..|]. destruct Hspec as [Hfirst Hnot].
  pose proof Hfirst as [(f & Hi & H0) _]. pose proof (Forall_lookup_1 _ _ _ _ He Hi) as Hz. unfold entry_ok in Hz.
  rewrite decide_True in Hz by done. subst f. rewrite wp_bind. apply wp_fs_update. unfold dfs_unlock.
  rewrite wp_bind, wp_modify.
  eapply (wp_start n i dev o full _ _ _ _ (filesystem_table s) _ s); [done|..].
  - destruct Hk. apply retabled_intro; simpl; try done; [|lia]. rewrite kp_table. apply list_eq. intros j.
    destruct (decide (j = i)) as [->|Hne].
    + by rewrite list_lookup_alter_eq, list_lookup_insert_eq, Hi by by eapply lookup_lt_Some.
    + by rewrite list_lookup_alter_ne, list_lookup_insert_ne.
  - intros s' Hr. by apply mount_failed.
  - intros x s' Hr. split; [|split_and!; [by destruct Hr..|]].
    + apply (settled_retabled (<[i := mk_fs dev (Some full) o x]> (filesystem_table s)) 1 s); [done| |..].
      * destruct Hr. apply retabled_intro; simpl; try done. lia.
      * apply Forall_insert; [done|]. unfold entry_ok. rewrite decide_False by done. simpl.
        split; [by eexists|]. pose proof (tb_types _ Ht) as Hty. rewrite Forall_forall in Hty. by apply Hty.
      * by apply (mounted_insert _ _ fs_zero).
    + right. split; [done|]. exists i, full, dev, o, x. by destruct Hr.
Qed.

Lemma wp_mount device path fstype rw dat s : settled s → proper path →
  wp (dfs_mount device path fstype rw dat) (mount_result path fstype s) s.
Proof.
  intros Hs Hp. unfold dfs_mount. rewrite wp_bind.
  assert (∀ e s', kept 0 s s' → wp (rt_set_errno e ;;; ret (-1)) (mount_result path fstype s) s') as Herr.
  { intros e s' Hk. eapply wp_mono; [by apply (wp_mount_error 0)|]. intros r u Hu. exists 0. split; [by left|done]. }
  assert (∀ dev, wp (mount_device dev path fstype rw dat) (mount_result path fstype s) s) as Hrest.
  2:{ destruct device as [n|]; cbn [find_device]; [|apply (Hrest 0)]. rewrite wp_bind, wp_gets, wp_ret.
      destruct (_ =? 0); [apply Herr, kept_refl|apply Hrest]. }
  intros dev. unfold mount_device.
  unfold dfs_lock at 1, dfs_unlock at 1. rewrite wp_bind, wp_modify, wp_bind, wp_gets, wp_bind, wp_modify.
  assert (set_lock (fslock (set_lock (fslock s + 1) s) - 1) (set_lock (fslock s + 1) s) = s) as ->.
  { destruct s. unfold set_lock. simpl. f_equal. lia. }
  simpl filesystem_operation_table. destruct (find_type fstype _) as [o|] eqn:Eo;
    [|apply Herr, kept_refl].
  apply find_type_some in Eo as (Ho & Ho0 & Hnm).
  destruct (op_mount o) as [mo|]; [|apply Herr, kept_refl].
  assert (wp (normalize_path None path) (λ p s', match p with
    | Some full => full_path path full ∧ kept 1 s s' | None => kept 0 s s' end) s) as Hn.
  { by apply wp_normalize; [apply proper_safe|..]. }
  apply wp_run in Hn as ([full|] & s1 & En & Hn); rewrite wp_bind; (eapply wp_eq; [exact En|]);
    [|by apply Herr]. destruct Hn as [Hf H1].
  destruct (proper_full _ _ Hp Hf) as (cs & _ & Hcs & ->). rewrite wp_bind.
  pose proof (tb_entries _ (du_tables _ _ Hs)) as He.
  apply (wp_directory path cs _ s); [by rewrite (kp_table _ _ _ H1)|done|done|]. intros b n s2 H2 Hlost.
  assert (kept (1 + n) s s2) as H12 by by eapply kept_trans.
  apply (wp_mono _ (mount_left n path fstype s)); [|intros r u Hu; by exists n]. destruct b; cbn [negb].
  - by apply wp_mount_entry.
  - rewrite wp_bind. apply wp_free_string. intros s3 H3. apply wp_mount_error; [done|].
    eapply kept_trans; [exact H12|exact H3|lia].
Qed.
(** C13: The file system that [dfs_filesystem_lookup] finds for a normal path is
    the one mounted deepest above it: no file system is found exactly where none
    is mounted at a directory above the path, and the one that is found is above
    the path, by whole components, and none of the others that are above it has a
    mount point with more components.  The lookup changes nothing, and gives the
    lock back. *)
Theorem lookup_deepest cs s : normal cs → normal_table (filesystem_table s) →
  ∃ r, dfs_filesystem_lookup (render cs) s = Ok r s ∧
  match r with
  | None => ∀ i f ms, filesystem_table s !! i = Some f → mounted_at f ms → ¬ ms `prefix_of` cs
  | Some i => ∃ f ms, filesystem_table s !! i = Some f ∧ mounted_at f ms ∧ ms `prefix_of` cs ∧
      ∀ j g ks, filesystem_table s !! j = Some g → mounted_at g ks → ks `prefix_of` cs →
        (length ks ≤ length ms)%nat
  end.
Proof.
  intros Hcs Ht. pose proof (normal_ok _ Hcs) as Hok.
  destruct (lookup_best (render cs) s) as (r & n & E & Hb). exists r. split; [done|].
  assert (∀ f ms, mounted_at f ms → ms `prefix_of` cs → above (render cs) f) as Habove.
  { intros f ms (Hp & Ho & Hms) Hpre. exists (render ms). split_and!; try done.
    apply render_prefix; auto using normal_ok. }
  destruct r as [i|]; simpl in Hb.
  - destruct Hb as (f & p & Hi & Hp & Ho & Hs & _ & Hmax). destruct (Ht _ _ _ Hi Hp) as (ms & Hms & ->).
    apply render_prefix in Hs as Hpre; [|auto using normal_ok..].
    exists f, ms. split_and!; try done. intros j g ks Hj Hg Hks.
    pose proof (Hmax j g (render ks) Hj (proj1 Hg) (Habove _ _ Hg Hks)) as Hlen.
    destruct (decide (length ks ≤ length ms)%nat) as [|Hlt]; [done|].
    destruct (prefix_weak_total ms ks cs Hpre Hks) as [[k ->]|Hk]; [|apply prefix_length in Hk; lia].
    destruct Hg as (_ & _ & Hks'). apply normal_ok, Forall_app in Hks' as [H1 H2].
    destruct (render_mono ms k H1 H2) as [_ Hm]. rewrite length_app in Hlt.
    destruct k; [simpl in Hlt; lia|]. specialize (Hm ltac:(done)). lia.
  - destruct Hb as [_ Hb]. intros i f ms Hi Hm Hpre. eapply Hb; [exact Hi|by eapply Habove].
Qed.
(** C12: [dfs_mount] either mounts or leaves the tables as they were: on every
    path through it (no device, no type, no mount operation, no memory, a missing
    directory, a mounted path, a full table, a device or a driver that refuses)
    with a name that has a meaning below the root, it returns -1 with the table of
    file systems, the descriptors and the lock unchanged and the path that it had
    built freed, or it returns 0 and the first empty entry of the table, and only
    it, holds the normalised path and the operations registered under the type's
    name.  Nothing else stays allocated, but for one path in one case: when the
    file system of the directory has opened it for the check and refuses to close
    it. *)
Theorem mount_all_or_nothing device path fstype rwflag data s : settled s → proper path →
  ∃ r s', dfs_mount device path fstype rwflag data s = Ok r s' ∧ mount_result path fstype s r s'.
Proof. intros Hs Hp. by apply wp_run, wp_mount. Qed.
End mount.

(** ** On the small driver *)
From Stdlib Require Import String.
Open Scope Z_scope.

Lemma mount_all_or_nothing_witness : ∃ r s',
  dfs_mount (Some (chars "sd0")) (chars "/mnt") (chars "ram") 0 0 demo_state = Ok r s' ∧
  mount_result (chars "/mnt") (chars "ram") demo_state r s'.
Proof.
  apply mount_all_or_nothing; [exact demo_settled|concrete_name].
Defined.

Definition demo_mounted : dfs :=
  after (dfs_mount (Some (chars "sd0")) (chars "/mnt") (chars "ram") 0 0) demo_state.

Lemma lookup_deepest_witness :
  ∃ r, dfs_filesystem_lookup (render [chars "mnt"; chars "a"]) demo_mounted = Ok r demo_mounted ∧
  match r with
  | None => ∀ i f ms, filesystem_table demo_mounted !! i = Some f → mounted_at f ms → ¬ ms `prefix_of` [chars "mnt"; chars "a"]
  | Some i => ∃ f ms, filesystem_table demo_mounted !! i = Some f ∧ mounted_at f ms ∧ ms `prefix_of` [chars "mnt"; chars "a"] ∧
      ∀ j g ks, filesystem_table demo_mounted !! j = Some g → mounted_at g ks → ks `prefix_of` [chars "mnt"; chars "a"] →
        (List.length ks ≤ List.length ms)%nat
  end.
Proof.
  apply lookup_deepest.
  - repeat constructor; by apply (bool_decide_unpack _); vm_compute.
  - intros [|[|i]] f p Hf Hp; vm_compute in Hf; [injection Hf as <-|injection Hf as <-|discriminate Hf];
      injection Hp as <-.
    + exists []. split; [constructor|reflexivity].
    + exists [chars "mnt"]. split; [|reflexivity]. repeat constructor; by apply (bool_decide_unpack _); vm_compute.
Defined.

(** A path inside the second file system, one whose name only begins like its
    mount point, and the mount point itself. *)
Example lookup_mnt : result_of (dfs_filesystem_lookup (chars "/mnt/a")) demo_mounted = Some (Some 1%nat) ∧
  result_of (dfs_filesystem_lookup (chars "/mntx")) demo_mounted = Some (Some 0%nat) ∧
  result_of (dfs_filesystem_lookup (chars "/mnt")) demo_mounted = Some (Some 1%nat).
Proof. vm_compute. done. Qed.

(** ** What the code does at its edges *)

(** The path is compared as it was given with the normalised ones of the table:
    the root is mounted a second time under another name for it. *)
Example double_mount :
  let s := after (dfs_mount None (chars "//") (chars "ram") 0 0) demo_state in
  fs_path <$> filesystem_table s = [Some (chars "/"); Some (chars "/")].
Proof. vm_compute. reflexivity. Qed.
Example same_mount :
  result_of (dfs_mount None (chars "/") (chars "ram") 0 0) demo_state = Some (-1).
Proof. vm_compute. reflexivity. Qed.

(** A driver that refuses to close the directory: after the mount three paths
    are allocated for two file systems and no descriptor. *)
Definition refusing : Drivers := demo (λ _, true) (-5).
Example mount_loses_path :
  let s := after (d := refusing) (demo_setup (d := refusing) ;;;
    dfs_mount (H := refusing) (Some (chars "sd0")) (chars "/mnt") (chars "ram") 0 0) (demo_start (d := refusing) 0%nat) in
  fs_path <$> filesystem_table s = [Some (chars "/"); Some (chars "/mnt")] ∧ objs s = ∅ ∧ strings s = 3.
Proof. vm_compute. done. Qed.

(** Registering a type that is in the first entry: the loop ends before it has
    seen the empty entry, and [errno] is for a full table. *)
Example register_twice :
  let s := after (dfs_register 100) demo_state in
  errno s = - ENOSPC ∧ filesystem_operation_table s = [100; 0].
Proof. vm_compute. done. Qed.
(** The same for a type in the second entry of a table whose first is free. *)
Example register_twice_second :
  errno (after (dfs_register 100) (set_types [0; 100] demo_state)) = - EEXIST.
Proof. vm_compute. reflexivity. Qed.
