(* ===== verification/Serial.v ===== *)
(** * Serial devices ([components/drivers/serial.c])

    A serial device with its receive buffer, the characters that wait in the
    receiver and those that were sent.  All receiving modes, sending by polling
    and the operations of the device are modelled; sending by interrupt and by
    DMA, which wait for a completion and for a data queue, are not. *)

From S2P Require Import Prelude.

(** ** Constants of [rtdef.h] *)
Definition RT_DEVICE_FLAG_SUSPENDED : Z := 0x020.
Definition RT_DEVICE_FLAG_STREAM : Z := 0x040.
Definition RT_DEVICE_FLAG_INT_RX : Z := 0x100.
Definition RT_DEVICE_FLAG_DMA_RX : Z := 0x200.
Definition RT_DEVICE_FLAG_INT_TX : Z := 0x400.
Definition RT_DEVICE_FLAG_DMA_TX : Z := 0x800.
Definition RT_DEVICE_CTRL_RESUME : Z := 0x01.
Definition RT_DEVICE_CTRL_SUSPEND : Z := 0x02.
Definition RT_DEVICE_CTRL_CONFIG : Z := 0x03.
Definition RT_DEVICE_CTRL_SET_INT : Z := 0x10.
Definition RT_DEVICE_CTRL_CLR_INT : Z := 0x11.
Definition RT_SERIAL_DMA_RX : Z := 1.
Definition RT_EOK : Z := 0.
Definition RT_EBUSY : Z := 7.
Definition RT_EIO : Z := 8.
Definition newline : Z := 10.
Definition carriage_return : Z := 13.

(** ** Data *)

(** [struct rt_serial_rx_fifo] *)
Record rt_serial_rx_fifo := mk_fifo { buffer : list Z; put_index : Z; get_index : Z }.

(** What [serial_rx] and [serial_tx] point at; the completion and the queue of a
    sender are kernel objects. *)
Inductive rx_state : Type := RxFifo (f : rt_serial_rx_fifo) | RxDma (activated : bool).
Inductive tx_state : Type := TxFifo | TxDma (activated : bool).

(** What the layer asks the driver for. *)
Inductive action : Type :=
  | Control (cmd arg : Z)
  | Configure (bufsz other : Z)
  | Transmit (len direction : Z).

(** [struct rt_serial_device]: the flags and the count of its device,
    [config.bufsz] and the rest of [config], [serial_rx] and [serial_tx] (none
    for a null pointer), what the receiver has, what was sent, whether
    [rx_indicate] is set and the lengths it was called with, [errno], and the
    calls of the driver. *)
Record rt_serial_device := mk_serial {
  flag : Z;
  open_flag : Z;
  ref_count : Z;
  bufsz : Z;
  other_config : Z;
  serial_rx : option rx_state;
  serial_tx : option tx_state;
  receiver : list Z;
  sent : list Z;
  has_indicate : bool;
  indications : list Z;
  errno : Z;
  actions : list action
}.
Definition SD := M rt_serial_device.

Definition set_rx (f : option rx_state) (s : rt_serial_device) : rt_serial_device :=
  mk_serial (flag s) (open_flag s) (ref_count s) (bufsz s) (other_config s) f (serial_tx s) (receiver s) (sent s) (has_indicate s) (indications s) (errno s) (actions s).
Definition set_tx (f : option tx_state) (s : rt_serial_device) : rt_serial_device :=
  mk_serial (flag s) (open_flag s) (ref_count s) (bufsz s) (other_config s) (serial_rx s) f (receiver s) (sent s) (has_indicate s) (indications s) (errno s) (actions s).
Definition set_open_flag (n : Z) (s : rt_serial_device) : rt_serial_device :=
  mk_serial (flag s) n (ref_count s) (bufsz s) (other_config s) (serial_rx s) (serial_tx s) (receiver s) (sent s) (has_indicate s) (indications s) (errno s) (actions s).
Definition set_flag (n : Z) (s : rt_serial_device) : rt_serial_device :=
  mk_serial n (open_flag s) (ref_count s) (bufsz s) (other_config s) (serial_rx s) (serial_tx s) (receiver s) (sent s) (has_indicate s) (indications s) (errno s) (actions s).
Definition set_bufsz (n : Z) (s : rt_serial_device) : rt_serial_device :=
  mk_serial (flag s) (open_flag s) (ref_count s) n (other_config s) (serial_rx s) (serial_tx s) (receiver s) (sent s) (has_indicate s) (indications s) (errno s) (actions s).
Definition set_other (n : Z) (s : rt_serial_device) : rt_serial_device :=
  mk_serial (flag s) (open_flag s) (ref_count s) (bufsz s) n (serial_rx s) (serial_tx s) (receiver s) (sent s) (has_indicate s) (indications s) (errno s) (actions s).
Definition set_receiver (l : list Z) (s : rt_serial_device) : rt_serial_device :=
  mk_serial (flag s) (open_flag s) (ref_count s) (bufsz s) (other_config s) (serial_rx s) (serial_tx s) l (sent s) (has_indicate s) (indications s) (errno s) (actions s).
Definition set_sent (l : list Z) (s : rt_serial_device) : rt_serial_device :=
  mk_serial (flag s) (open_flag s) (ref_count s) (bufsz s) (other_config s) (serial_rx s) (serial_tx s) (receiver s) l (has_indicate s) (indications s) (errno s) (actions s).
Definition set_indications (l : list Z) (s : rt_serial_device) : rt_serial_device :=
  mk_serial (flag s) (open_flag s) (ref_count s) (bufsz s) (other_config s) (serial_rx s) (serial_tx s) (receiver s) (sent s) (has_indicate s) l (errno s) (actions s).
Definition set_errno (n : Z) (s : rt_serial_device) : rt_serial_device :=
  mk_serial (flag s) (open_flag s) (ref_count s) (bufsz s) (other_config s) (serial_rx s) (serial_tx s) (receiver s) (sent s) (has_indicate s) (indications s) n (actions s).
Definition set_actions (l : list action) (s : rt_serial_device) : rt_serial_device :=
  mk_serial (flag s) (open_flag s) (ref_count s) (bufsz s) (other_config s) (serial_rx s) (serial_tx s) (receiver s) (sent s) (has_indicate s) (indications s) (errno s) l.

Definition has_flag (x f : Z) : bool := negb (Z.land x f =? 0).

(** ** The hardware *)

(** [serial->ops->getc]: a character, or -1. *)
Definition getc : SD Z :=
  let! l := read receiver in
  match l with
  | [] => ret (-1)
  | c :: l => modify (set_receiver l) ;;; ret c
  end.
(** [serial->ops->putc], when sending is not by interrupt. *)
Definition putc (c : Z) : SD unit := modify (λ s, set_sent (sent s ++ [c]) s).
(** [serial->ops->control], [configure] and [dma_transmit]. *)
Definition ask (a : action) : SD unit := modify (λ s, set_actions (actions s ++ [a]) s).

(** ** Polling *)

(** The loop of [_serial_poll_rx]; [length] is what is left to read. *)
Fixpoint _serial_poll_rx (length : nat) : SD (list Z) :=
  match length with
  | O => ret []
  | S length =>
    let! ch := getc in
    if ch =? -1 then ret []
    else if ch =? newline then ret [u8 ch]
    else
      let! l := _serial_poll_rx length in
      ret (u8 ch :: l)
  end.

Fixpoint _serial_poll_tx (data : list Z) : SD unit :=
  match data with
  | [] => ret tt
  | c :: data =>
    let! f := read open_flag in
    (when (c =? newline) && has_flag f RT_DEVICE_FLAG_STREAM then putc carriage_return) ;;;
    putc c ;;;
    _serial_poll_tx data
  end.

(** ** The ring buffer *)

(** [serial_rx] as a FIFO, where it is not null. *)
Definition fifo : SD rt_serial_rx_fifo :=
  let! f := read serial_rx in
  match f with
  | Some (RxFifo f) => ret f
  | Some (RxDma _) => fail Undefined
  | None => fail AssertFailed
  end.
Definition set_fifo (f : rt_serial_rx_fifo) : SD unit := modify (set_rx (Some (RxFifo f))).

(** [x += 1; if (x >= bufsz) x = 0;] on a 16-bit index. *)
Definition advance (bufsz x : Z) : Z :=
  let x := u16 (x + 1) in
  if bufsz <=? x then 0 else x.

(** The body of the loop of [_serial_int_rx]: a character of the buffer. *)
Definition take_char : SD (option Z) :=
  let! f := fifo in
  let! n := read bufsz in
  if negb (get_index f =? put_index f) then
    let! ch := from_option OutOfBounds (buffer f !! Z.to_nat (get_index f)) in
    set_fifo (mk_fifo (buffer f) (put_index f) (advance n (get_index f))) ;;;
    ret (Some ch)
  else ret None.

Fixpoint _serial_int_rx (length : nat) : SD (list Z) :=
  match length with
  | O => fifo ;;; ret []
  | S length =>
    let! ch := take_char in
    match ch with
    | None => ret []
    | Some ch =>
      let! l := _serial_int_rx length in
      ret (Z.land ch 0xff :: l)
    end
  end.

(** A character received: the body of the loop of [rt_hw_serial_isr]. *)
Definition put_received (ch : Z) : SD unit :=
  let! f := fifo in
  let! n := read bufsz in
  if Z.of_nat (length (buffer f)) <=? put_index f then fail OutOfBounds
  else
    let b := <[Z.to_nat (put_index f) := u8 ch]> (buffer f) in
    let put := advance n (put_index f) in
    let get := if put =? get_index f then advance n (get_index f) else get_index f in
    set_fifo (mk_fifo b put get).

(** The number of characters in the buffer; [rt_dma_calc_recved_len] is the
    same. *)
Definition fifo_length (n : Z) (f : rt_serial_rx_fifo) : Z :=
  if get_index f <=? put_index f then put_index f - get_index f
  else n - (get_index f - put_index f).

(** [rx_indicate(&serial->parent, length)] *)
Definition indicate : SD unit :=
  let! set := read has_indicate in
  when set then
    (let! f := fifo in
     let! n := read bufsz in
     modify (λ s, set_indications (indications s ++ [fifo_length n f]) s)).

(** The case [RT_SERIAL_EVENT_RX_IND] of [rt_hw_serial_isr]; the loop ends with
    the receiver. *)
Fixpoint rx_loop (fuel : nat) : SD unit :=
  match fuel with
  | O => fail OutOfFuel
  | S fuel =>
    let! ch := getc in
    if ch =? -1 then ret tt
    else put_received ch ;;; rx_loop fuel
  end.
Definition rx_ind : SD unit :=
  fifo ;;;
  let! l := read receiver in
  rx_loop (1 + length l) ;;;
  indicate.

(** ** DMA into the ring buffer *)

Definition rt_dma_recv_update_get_index (len : Z) : SD unit :=
  let! f := fifo in
  let! n := read bufsz in
  if fifo_length n f <? len then fail AssertFailed
  else
    let get := u16 (get_index f + len) in
    set_fifo (mk_fifo (buffer f) (put_index f) (if n <? get then u16 (get - n) else get)).

(** [for (i = 0; i <= len / bufsz; i++) put_index -= bufsz;] *)
Fixpoint sub_loop (count : nat) (n put : Z) : Z :=
  match count with
  | O => put
  | S count => sub_loop count n (u16 (put - n))
  end.

Definition rt_dma_recv_update_put_index (len : Z) : SD unit :=
  let! f := fifo in
  let! n := read bufsz in
  let put := u16 (put_index f + len) in
  let wrapped := sub_loop (S (Z.to_nat (len / n))) n put in
  set_fifo (
    if get_index f <=? put_index f then
      if n <=? put then
        mk_fifo (buffer f) wrapped (if get_index f <=? wrapped then u16 (wrapped + 1) else get_index f)
      else mk_fifo (buffer f) put (get_index f)
    else if get_index f <=? put then
      let put := if n <=? put then wrapped else put in
      mk_fifo (buffer f) put (u16 (put + 1))
    else mk_fifo (buffer f) put (get_index f)).

(** [rt_memcpy] out of the buffer. *)
Definition copy (f : rt_serial_rx_fifo) (from len : Z) : SD (list Z) :=
  if (0 <=? len) && (from + len <=? Z.of_nat (length (buffer f)))
  then ret (take (Z.to_nat len) (drop (Z.to_nat from) (buffer f))) else fail OutOfBounds.

(** [_serial_dma_rx]: the count that is returned, and the bytes that are in the
    buffer of the caller then.  Without a ring buffer the hardware fills it
    later. *)
Definition _serial_dma_rx (length : Z) : SD (Z * list Z) :=
  let! n := read bufsz in
  if n =? 0 then
    let! rx := read serial_rx in
    match rx with
    | None => fail AssertFailed
    | Some (RxFifo _) => fail Undefined
    | Some (RxDma activated) =>
      if (activated : bool) then modify (set_errno (- RT_EBUSY)) ;;; ret (0, [])
      else
        modify (set_rx (Some (RxDma true))) ;;;
        ask (Transmit length RT_SERIAL_DMA_RX) ;;;
        ret (length, [])
    end
  else
    let! f := fifo in
    let have := fifo_length n f in
    let recv_len := if length <? have then length else have in
    let! data :=
      if get_index f + recv_len <? n then copy f (get_index f) recv_len
      else
        let! a := copy f (get_index f) (n - get_index f) in
        let! b := copy f 0 (recv_len + get_index f - n) in
        ret (a ++ b) in
    rt_dma_recv_update_get_index recv_len ;;;
    ret (recv_len, data).

(** The case [RT_SERIAL_EVENT_RX_DMADONE] of [rt_hw_serial_isr]. *)
Definition rx_dmadone (len : Z) : SD unit :=
  let! n := read bufsz in
  if n =? 0 then
    let! rx := read serial_rx in
    match rx with
    | None => fail AssertFailed
    | Some (RxFifo _) => fail Undefined
    | Some (RxDma _) =>
      let! set := read has_indicate in
      if negb set then fail AssertFailed
      else
        modify (λ s, set_indications (indications s ++ [len]) s) ;;;
        modify (set_rx (Some (RxDma false)))
    end
  else
    rt_dma_recv_update_put_index len ;;;
    indicate.

(** ** The operations of the device *)

Definition rt_serial_init : SD Z :=
  modify (set_rx None) ;;;
  modify (set_tx None) ;;;
  let! n := read bufsz in
  let! o := read other_config in
  ask (Configure n o) ;;;
  ret RT_EOK.

(** A new FIFO; the memory is there ([RT_ASSERT]). *)
Definition new_fifo (n : Z) : rt_serial_rx_fifo := mk_fifo (replicate (Z.to_nat n) 0) 0 0.

Definition add_open_flag (n : Z) : SD unit := modify (λ s, set_open_flag (Z.lor (open_flag s) n) s).
Definition clear_open_flag (n : Z) : SD unit := modify (λ s, set_open_flag (Z.land (open_flag s) (Z.lnot n)) s).

(** The receiving half of [rt_serial_open]. *)
Definition open_rx (oflag : Z) : SD unit :=
  let! rx := read serial_rx in
  let! n := read bufsz in
  match rx with
  | Some _ => ret tt
  | None =>
    if has_flag oflag RT_DEVICE_FLAG_DMA_RX then
      (if n =? 0 then modify (set_rx (Some (RxDma false)))
       else
         set_fifo (new_fifo n) ;;;
         ask (Control RT_DEVICE_CTRL_CONFIG RT_DEVICE_FLAG_DMA_RX)) ;;;
      add_open_flag RT_DEVICE_FLAG_DMA_RX
    else if has_flag oflag RT_DEVICE_FLAG_INT_RX then
      set_fifo (new_fifo n) ;;;
      add_open_flag RT_DEVICE_FLAG_INT_RX ;;;
      ask (Control RT_DEVICE_CTRL_SET_INT RT_DEVICE_FLAG_INT_RX)
    else ret tt
  end.

(** The sending half. *)
Definition open_tx (oflag : Z) : SD unit :=
  let! tx := read serial_tx in
  match tx with
  | Some _ => ret tt
  | None =>
    if has_flag oflag RT_DEVICE_FLAG_DMA_TX then
      modify (set_tx (Some (TxDma false))) ;;;
      add_open_flag RT_DEVICE_FLAG_DMA_TX
    else if has_flag oflag RT_DEVICE_FLAG_INT_TX then
      modify (set_tx (Some TxFifo)) ;;;
      add_open_flag RT_DEVICE_FLAG_INT_TX ;;;
      ask (Control RT_DEVICE_CTRL_SET_INT RT_DEVICE_FLAG_INT_TX)
    else ret tt
  end.

Definition rt_serial_open (oflag : Z) : SD Z :=
  let! f := read flag in
  if existsb (λ m, has_flag oflag m && negb (has_flag f m))
       [RT_DEVICE_FLAG_DMA_RX; RT_DEVICE_FLAG_DMA_TX; RT_DEVICE_FLAG_INT_RX; RT_DEVICE_FLAG_INT_TX]
  then ret (- RT_EIO)
  else
    modify (set_open_flag (Z.land oflag 0xff)) ;;;
    open_rx oflag ;;;
    open_tx oflag ;;;
    ret RT_EOK.

(** The pointer that is freed may not be null. *)
Definition not_null {A} (o : option A) : SD unit :=
  match o with Some _ => ret tt | None => fail AssertFailed end.

Definition close_rx : SD unit :=
  let! f := read open_flag in
  let! rx := read serial_rx in
  if has_flag f RT_DEVICE_FLAG_INT_RX then
    not_null rx ;;;
    modify (set_rx None) ;;;
    clear_open_flag RT_DEVICE_FLAG_INT_RX ;;;
    ask (Control RT_DEVICE_CTRL_CLR_INT RT_DEVICE_FLAG_INT_RX)
  else when has_flag f RT_DEVICE_FLAG_DMA_RX then
    (not_null rx ;;;
     ask (Control RT_DEVICE_CTRL_CLR_INT RT_DEVICE_FLAG_DMA_RX) ;;;
     modify (set_rx None) ;;;
     clear_open_flag RT_DEVICE_FLAG_DMA_RX).

Definition close_tx : SD unit :=
  let! f := read open_flag in
  let! tx := read serial_tx in
  if has_flag f RT_DEVICE_FLAG_INT_TX then
    not_null tx ;;;
    modify (set_tx None) ;;;
    clear_open_flag RT_DEVICE_FLAG_INT_TX ;;;
    ask (Control RT_DEVICE_CTRL_CLR_INT RT_DEVICE_FLAG_INT_TX)
  else when has_flag f RT_DEVICE_FLAG_DMA_TX then
    (not_null tx ;;;
     modify (set_tx None) ;;;
     clear_open_flag RT_DEVICE_FLAG_DMA_TX).

Definition rt_serial_close : SD Z :=
  let! n := read ref_count in
  if 1 <? n then ret RT_EOK
  else
    close_rx ;;;
    close_tx ;;;
    ret RT_EOK.

Definition rt_serial_read (size : Z) : SD (Z * list Z) :=
  if size =? 0 then ret (0, [])
  else
    let! f := read open_flag in
    if has_flag f RT_DEVICE_FLAG_DMA_RX && negb (has_flag f RT_DEVICE_FLAG_INT_RX) then _serial_dma_rx size
    else
      let! l := if has_flag f RT_DEVICE_FLAG_INT_RX then _serial_int_rx (Z.to_nat size)
                else _serial_poll_rx (Z.to_nat size) in
      ret (Z.of_nat (length l), l).

(** [args] is none for a null pointer, else the [bufsz] of the configuration and
    the rest of it; for the other commands it is passed on. *)
Definition rt_serial_control (cmd : Z) (args : option (Z * Z)) (arg : Z) : SD Z :=
  if cmd =? RT_DEVICE_CTRL_SUSPEND then
    modify (λ s, set_flag (Z.lor (flag s) RT_DEVICE_FLAG_SUSPENDED) s) ;;; ret RT_EOK
  else if cmd =? RT_DEVICE_CTRL_RESUME then
    modify (λ s, set_flag (Z.land (flag s) (Z.lnot RT_DEVICE_FLAG_SUSPENDED)) s) ;;; ret RT_EOK
  else if cmd =? RT_DEVICE_CTRL_CONFIG then
    match args with
    | None => ret RT_EOK
    | Some (n, o) =>
      let! now := read bufsz in
      let! count := read ref_count in
      if negb (n =? now) && negb (count =? 0) then ret RT_EBUSY
      else
        modify (set_bufsz n) ;;;
        modify (set_other o) ;;;
        (when negb (count =? 0) then ask (Configure n o)) ;;;
        ret RT_EOK
    end
  else ask (Control cmd arg) ;;; ret RT_EOK.
