(* ===== verification/SerialSpec.v ===== *)
(** * The receive buffer of a serial device

    The ring buffer is a queue that forgets its oldest characters: what the
    interrupt stores and the reader takes is proved to be that. *)

From S2P Require Import Prelude Serial.

(** ** The specification *)

(** The last [k] elements. *)
Definition keep_last {A} (k : nat) (l : list A) : list A := drop (length l - k) l.

Lemma keep_last_short {A} k (l : list A) : (length l ≤ k)%nat → keep_last k l = l.
Proof. intros Hl. unfold keep_last. by replace (length l - k)%nat with 0%nat by lia. Qed.
Lemma keep_last_length {A} k (l : list A) : (length (keep_last k l) ≤ k)%nat.
Proof. unfold keep_last. rewrite length_drop. lia. Qed.
Lemma keep_last_app {A} k (a b : list A) : keep_last k (keep_last k a ++ b) = keep_last k (a ++ b).
Proof.
  unfold keep_last. rewrite !length_app, length_drop.
  destruct (decide (length a ≤ k)%nat) as [Hle|Hgt].
  - replace (length a - k)%nat with 0%nat by lia. rewrite drop_0. do 2 f_equal. lia.
  - replace (length a + length b - k)%nat with (length a - k + length b)%nat by lia. rewrite <- drop_drop.
    replace (length a - (length a - k) + length b - k)%nat with (length b) by lia. f_equal.
    by rewrite drop_app_le by lia.
Qed.

(** What happens to a device: characters arrive, and the interrupt runs; a
    thread reads up to [size] characters. *)
Inductive event : Type := Arrive (l : list Z) | Take (size : Z).

(** The queue of capacity [k]: what a reader gets, and what is left. *)
Definition queue_step (k : nat) (e : event) (q : list Z) : list Z * list Z :=
  match e with
  | Arrive l => ([], keep_last k (q ++ l))
  | Take size => (take (Z.to_nat size) q, drop (Z.to_nat size) q)
  end.
Fixpoint queue_run (k : nat) (es : list event) (q : list Z) : list (list Z) * list Z :=
  match es with
  | [] => ([], q)
  | e :: es =>
    let (out, q) := queue_step k e q in
    let (outs, q) := queue_run k es q in
    (out :: outs, q)
  end.

(** The same events on the device. *)
Definition device_step (e : event) : SD (list Z) :=
  match e with
  | Arrive l => modify (λ s, set_receiver (receiver s ++ l) s) ;;; rx_ind ;;; ret []
  | Take size => let! r := rt_serial_read size in ret r.2
  end.
Fixpoint device_run (es : list event) : SD (list (list Z)) :=
  match es with
  | [] => ret []
  | e :: es =>
    let! out := device_step e in
    let! outs := device_run es in
    ret (out :: outs)
  end.

(** ** The contents of the buffer *)

Definition byte (c : Z) : Prop := 0 ≤ c < 256.

(** [n] is the size of the buffer, a bit field of 16 bits. *)
Record fifo_ok (n : Z) (f : rt_serial_rx_fifo) : Prop := {
  fo_size : 1 ≤ n < 65536;
  fo_buffer : Z.of_nat (length (buffer f)) = n;
  fo_put : 0 ≤ put_index f < n;
  fo_get : 0 ≤ get_index f < n;
  fo_bytes : Forall byte (buffer f)
}.

(** The [m] characters from [get] on, around the end of the buffer. *)
Definition ring (n : Z) (b : list Z) (get : Z) (m : nat) : list Z :=
  (λ i, default 0 (b !! Z.to_nat ((get + Z.of_nat i) mod n))) <$> seq 0 m.
Definition contents (n : Z) (f : rt_serial_rx_fifo) : list Z :=
  ring n (buffer f) (get_index f) (Z.to_nat (fifo_length n f)).

Lemma advance_mod n x : 0 ≤ x < n → n < 65536 → advance n x = (x + 1) mod n.
Proof.
  intros Hx Hn. unfold advance, u16, wrap. change (2 ^ 16) with 65536. rewrite (Z.mod_small (x + 1)) by lia.
  destruct (Z.leb_spec n (x + 1)); [|by rewrite Z.mod_small by lia].
  replace (x + 1) with n by lia. by rewrite Z.mod_same by lia.
Qed.
Lemma length_mod n f : fifo_ok n f → fifo_length n f = (put_index f - get_index f) mod n.
Proof.
  intros []. unfold fifo_length. destruct (Z.leb_spec (get_index f) (put_index f)).
  - by rewrite Z.mod_small by lia.
  - apply (Z.mod_unique_pos _ _ (-1)); lia.
Qed.

Lemma ring_length n b get m : length (ring n b get m) = m.
Proof. unfold ring. by rewrite length_fmap, length_seq. Qed.
Lemma ring_cons n b get m : 0 < n → ring n b get (S m) =
  default 0 (b !! Z.to_nat (get mod n)) :: ring n b ((get + 1) mod n) m.
Proof.
  intros Hn. unfold ring. cbn [seq fmap list_fmap]. rewrite Z.add_0_r. f_equal. rewrite <- fmap_S_seq, <- list_fmap_compose.
  apply list_fmap_ext. intros _ i _. simpl. do 3 f_equal.
  rewrite Z.add_mod_idemp_l by lia. f_equal. lia.
Qed.
Lemma ring_snoc n b get m : ring n b get (S m) = ring n b get m ++ [default 0 (b !! Z.to_nat ((get + Z.of_nat m) mod n))].
Proof. unfold ring. by rewrite seq_S, fmap_app. Qed.

(** A character at a place outside the queue does not matter. *)
Lemma ring_insert n b get m p c : 0 < n → 0 ≤ p < n → 0 ≤ get < n → (p - get) mod n = Z.of_nat m →
  ring n (<[Z.to_nat p := c]> b) get m = ring n b get m.
Proof.
  intros Hn Hp Hg Hm. unfold ring. apply list_fmap_ext. intros i ? [-> Hi]%lookup_seq.
  simpl. f_equal. apply list_lookup_insert_ne. intros E. apply Z2Nat.inj in E; [|lia|apply Z.mod_pos_bound; lia].
  assert (Z.of_nat i = Z.of_nat m); [|lia]. rewrite <- Hm, E, Zminus_mod_idemp_l.
  replace (get + Z.of_nat i - get) with (Z.of_nat i) by lia. symmetry. apply Z.mod_small.
  pose proof (Z.mod_pos_bound (p - get) n Hn). lia.
Qed.

(** A new character behind the queue, before the oldest is given up. *)
Lemma ring_put n f c : fifo_ok n f →
  ring n (<[Z.to_nat (put_index f) := c]> (buffer f)) (get_index f) (S (Z.to_nat (fifo_length n f))) = contents n f ++ [c].
Proof.
  intros Hf. pose proof (length_mod n f Hf) as Hl. destruct Hf as [Hn Hb Hp Hg _].
  pose proof (Z.mod_pos_bound (put_index f - get_index f) n ltac:(lia)) as Hm. rewrite ring_snoc. f_equal.
  - apply ring_insert; lia.
  - rewrite Z2Nat.id, Hl by lia. rewrite Zplus_mod_idemp_r.
    replace (get_index f + (put_index f - get_index f)) with (put_index f) by lia. rewrite Z.mod_small by lia.
    rewrite list_lookup_insert_eq by lia. done.
Qed.

(** ** One character *)
Lemma ring_bytes n b get m : Forall byte b → Forall byte (ring n b get m).
Proof.
  intros Hb. apply Forall_fmap, Forall_true. intros i. simpl. destruct (b !! _) eqn:E; [|done].
  by eapply Forall_lookup_1 in E.
Qed.

Lemma take_char_run s n f : serial_rx s = Some (RxFifo f) → bufsz s = n → fifo_ok n f →
  match contents n f with
  | [] => take_char s = Ok None s
  | c :: q => ∃ f', take_char s = Ok (Some c) (set_rx (Some (RxFifo f')) s) ∧ fifo_ok n f' ∧ contents n f' = q
  end.
Proof.
  intros Hs Hn Hf. pose proof (length_mod n f Hf) as Hl. pose proof Hf as [Hn' Hb Hp Hg Hbs].
  unfold take_char, fifo. rewrite bind_assoc, bind_gets, Hs, bind_ret, bind_gets, Hn.
  unfold contents. destruct (Z.eqb_spec (get_index f) (put_index f)) as [E|E]; cbn [negb].
  { rewrite Hl, E, Z.sub_diag, Z.mod_0_l by lia. done. }
  pose proof (Z.mod_pos_bound (put_index f - get_index f) n ltac:(lia)) as Hm.
  assert ((put_index f - get_index f) mod n ≠ 0) as H0.
  { intros H0. apply E. apply Z.mod_divide in H0 as [k Hk]; [|lia]. assert (k = 0) by nia. lia. }
  destruct (Z.to_nat (fifo_length n f)) as [|m] eqn:Em; [lia|]. rewrite ring_cons by lia.
  destruct (lookup_lt_is_Some_2 (buffer f) (Z.to_nat (get_index f))) as [c Hc]; [lia|].
  rewrite Z.mod_small, Hc by lia. cbn [default from_option id].
  set (f' := mk_fifo (buffer f) (put_index f) (advance n (get_index f))). exists f'.
  cbn [Prelude.from_option]. unfold set_fifo. rewrite bind_ret, bind_modify. split; [done|].
  assert (fifo_ok n f') as Hf'.
  { split; try done. simpl. rewrite advance_mod by lia. apply Z.mod_pos_bound. lia. }
  split; [done|]. rewrite (length_mod n f' Hf'). simpl. rewrite advance_mod by lia. f_equal.
  rewrite Zminus_mod_idemp_r. replace (put_index f - (get_index f + 1)) with (put_index f - get_index f - 1) by lia.
  rewrite <- Zminus_mod_idemp_l, <- Hl. rewrite Z.mod_small by lia. lia.
Qed.

Lemma put_received_run s n f c : serial_rx s = Some (RxFifo f) → bufsz s = n → fifo_ok n f →
  ∃ f', put_received c s = Ok tt (set_rx (Some (RxFifo f')) s) ∧ fifo_ok n f' ∧
    contents n f' = keep_last (Z.to_nat (n - 1)) (contents n f ++ [u8 c]).
Proof.
  intros Hs Hn Hf. pose proof (length_mod n f Hf) as Hl. pose proof Hf as [Hn' Hb Hp Hg Hbs].
  pose proof (Z.mod_pos_bound (put_index f - get_index f) n ltac:(lia)) as Hm.
  unfold put_received, fifo. rewrite bind_assoc, bind_gets, Hs, bind_ret, bind_gets, Hn.
  rewrite (proj2 (Z.leb_gt _ _)) by lia. rewrite (advance_mod n (put_index f)) by lia.
  pose proof (ring_put n f (u8 c) Hf) as Hput. set (b := <[_ := u8 c]> (buffer f)) in *.
  set (put := (put_index f + 1) mod n) in *. pose proof (Z.mod_pos_bound (put_index f + 1) n ltac:(lia)) as Hpb.
  assert (Forall byte b) as Hbb.
  { apply Forall_insert; [done|]. unfold u8, wrap, byte. apply Z.mod_pos_bound. lia. }
  assert (∀ get, 0 ≤ get < n → fifo_ok n (mk_fifo b put get)) as Hok.
  { intros get Hget. split; try done. simpl. unfold b. by rewrite length_insert. }
  assert ((put - get_index f) mod n = (fifo_length n f + 1) mod n) as Hlen.
  { unfold put. rewrite Zminus_mod_idemp_l, Hl, Zplus_mod_idemp_l. f_equal. lia. }
  assert (length (contents n f ++ [u8 c]) = S (Z.to_nat (fifo_length n f))) as Hlc.
  { rewrite length_app. unfold contents. rewrite ring_length. simpl. lia. }
  destruct (Z.eqb_spec put (get_index f)) as [E|E].
  - exists (mk_fifo b put (advance n (get_index f))). split; [done|].
    assert (fifo_ok n (mk_fifo b put (advance n (get_index f)))) as Hf'.
    { apply Hok. rewrite advance_mod by lia. apply Z.mod_pos_bound. lia. }
    split; [done|]. rewrite E, Z.sub_diag, Z.mod_0_l in Hlen by lia.
    assert (fifo_length n f = n - 1) as Hfull.
    { destruct (decide (fifo_length n f + 1 < n)); [rewrite Z.mod_small in Hlen by lia; lia|lia]. }
    unfold keep_last. rewrite Hlc, Hfull. replace (S _ - _)%nat with 1%nat by lia. rewrite <- Hput.
    unfold contents. rewrite (length_mod _ _ Hf'). cbn [put_index get_index buffer]. rewrite ring_cons by lia.
    cbn [drop]. rewrite drop_0, E, advance_mod by lia. f_equal. rewrite Zminus_mod_idemp_r, Hfull.
    replace (get_index f - (get_index f + 1)) with (-1) by lia.
    rewrite <- (Z.mod_unique_pos (-1) n (-1) (n - 1)) by lia. done.
  - exists (mk_fifo b put (get_index f)). split; [done|]. assert (fifo_ok n (mk_fifo b put (get_index f))) as Hf' by auto.
    split; [done|].
    assert (fifo_length n f + 1 < n) as Hroom.
    { destruct (decide (fifo_length n f + 1 < n)); [done|]. destruct E.
      assert ((put - get_index f) mod n = 0) as H0.
      { rewrite Hlen. replace (fifo_length n f + 1) with n by lia. apply Z.mod_same. lia. }
      apply Z.mod_divide in H0 as [k Hk]; [|lia]. assert (k = 0) by nia. lia. }
    rewrite keep_last_short by lia. rewrite <- Hput. unfold contents. rewrite (length_mod _ _ Hf').
    cbn [put_index get_index buffer]. rewrite Hlen, Z.mod_small by lia. f_equal. lia.
Qed.

(** ** The interrupt and the reader *)

(** The device receives by interrupt, and its buffer holds the queue [q]. *)
Record holds (n : Z) (q : list Z) (s : rt_serial_device) : Prop := {
  ho_fifo : ∃ f, serial_rx s = Some (RxFifo f) ∧ fifo_ok n f ∧ contents n f = q;
  ho_size : bufsz s = n;
  ho_mode : has_flag (open_flag s) RT_DEVICE_FLAG_INT_RX = true;
  ho_empty : receiver s = []
}.

Lemma u8_byte c : byte c → u8 c = c.
Proof. intros Hc. by apply Z.mod_small. Qed.

Lemma rx_loop_run n l : ∀ fuel s f, (length l < fuel)%nat → Forall byte l → receiver s = l → serial_rx s = Some (RxFifo f) →
  bufsz s = n → fifo_ok n f → ∃ f', fifo_ok n f' ∧ contents n f' = keep_last (Z.to_nat (n - 1)) (contents n f ++ l) ∧
    rx_loop fuel s = Ok tt (set_receiver [] (set_rx (Some (RxFifo f')) s)).
Proof.
  induction l as [|c l IH]; intros fuel s f Hfuel Hl Hr Hs Hn Hf; (destruct fuel as [|fuel]; [simpl in Hfuel; lia|]);
    cbn [rx_loop]; unfold getc; rewrite bind_assoc, bind_gets, Hr.
  - rewrite bind_ret. cbn [Z.eqb]. exists f. split; [done|]. split.
    + rewrite app_nil_r. symmetry. apply keep_last_short. unfold contents. rewrite ring_length, (length_mod n f Hf).
      destruct Hf. pose proof (Z.mod_pos_bound (put_index f - get_index f) n ltac:(lia)). lia.
    + unfold ret. f_equal. destruct s. unfold set_receiver, set_rx. simpl in *. by subst.
  - apply Forall_cons in Hl as [Hc Hl]. rewrite bind_assoc, bind_modify, bind_ret.
    rewrite (proj2 (Z.eqb_neq _ _)) by (unfold byte in Hc; lia).
    destruct (put_received_run (set_receiver l s) n f c) as (f1 & E1 & Hf1 & Hc1); [done..|].
    rewrite (bind_ok _ _ _ _ _ E1). simpl in Hfuel.
    destruct (IH fuel (set_rx (Some (RxFifo f1)) (set_receiver l s)) f1) as (f2 & Hf2 & Hc2 & E2); [lia|done..|].
    exists f2. split; [done|]. split; [|by rewrite E2].
    by rewrite Hc2, Hc1, (u8_byte c Hc), keep_last_app, <- app_assoc.
Qed.

Lemma indicate_holds n q s : holds n q s → ∃ s', indicate s = Ok tt s' ∧ holds n q s' ∧
  indications s' = indications s ++ (if has_indicate s then [Z.of_nat (length q)] else []).
Proof.
  intros [(f & Hs & Hf & Hq) Hn Hm He]. unfold indicate. rewrite bind_gets. destruct (has_indicate s).
  - unfold fifo. rewrite bind_assoc, bind_gets, Hs, bind_ret, bind_gets.
    eexists. split; [done|]. split; [split; try done; by exists f|]. simpl. do 2 f_equal.
    rewrite <- Hq. unfold contents. rewrite ring_length, Hn, (length_mod n f Hf). destruct Hf.
    pose proof (Z.mod_pos_bound (put_index f - get_index f) n ltac:(lia)). lia.
  - exists s. rewrite app_nil_r. split; [done|]. split; [|done]. split; try done. by exists f.
Qed.

Lemma arrive_run n q l s : holds n q s → Forall byte l →
  ∃ s', device_step (Arrive l) s = Ok [] s' ∧ holds n (keep_last (Z.to_nat (n - 1)) (q ++ l)) s'.
Proof.
  intros [(f & Hs & Hf & Hq) Hn Hm He] Hl. cbn [device_step]. rewrite bind_modify, He. cbn [app].
  unfold rx_ind. rewrite !bind_assoc. unfold fifo. rewrite bind_assoc, bind_gets.
  change (serial_rx (set_receiver l s)) with (serial_rx s). rewrite Hs, bind_ret.
  rewrite !bind_assoc, bind_gets. change (receiver (set_receiver l s)) with l. rewrite !bind_assoc.
  destruct (rx_loop_run n l (1 + length l) (set_receiver l s) f) as (f' & Hf' & Hc & E); [lia|done..|].
  rewrite (bind_ok _ _ _ _ _ E).
  destruct (indicate_holds n (keep_last (Z.to_nat (n - 1)) (q ++ l))
    (set_receiver [] (set_rx (Some (RxFifo f')) (set_receiver l s)))) as (s' & E' & Hs' & _).
  { split; try done. exists f'. by rewrite Hc, Hq. }
  rewrite (bind_ok _ _ _ _ _ E'). by exists s'.
Qed.

Lemma int_rx_run n k : ∀ q s, holds n q s →
  ∃ s', _serial_int_rx k s = Ok (take k q) s' ∧ holds n (drop k q) s'.
Proof.
  induction k as [|k IH]; intros q s Hh; cbn [_serial_int_rx].
  { exists s. destruct Hh as [(f & Hs & Hf & Hq) Hn Hm He]. unfold fifo.
    rewrite bind_assoc, bind_gets, Hs. split; [done|]. split; try done. by exists f. }
  pose proof Hh as [(f & Hs & Hf & Hq) Hn Hm He]. pose proof (take_char_run s n f Hs Hn Hf) as Ht.
  assert (Forall byte q) as Hb by (rewrite <- Hq; apply ring_bytes, Hf).
  rewrite Hq in Ht. destruct q as [|c q].
  - rewrite (bind_ok _ _ _ _ _ Ht). exists s. done.
  - destruct Ht as (f' & E & Hf' & Hq'). rewrite (bind_ok _ _ _ _ _ E).
    destruct (IH q (set_rx (Some (RxFifo f')) s)) as (s' & E' & Hs'); [split; try done; by exists f'|].
    exists s'. rewrite (bind_ok _ _ _ _ _ E'). cbn [take drop]. split; [|done]. unfold ret. f_equal. f_equal.
    apply Forall_cons in Hb as [Hc _]. change 0xff with (Z.ones 8). rewrite Z.land_ones by lia. by apply Z.mod_small.
Qed.

Lemma take_run n q size s : holds n q s →
  ∃ s', device_step (Take size) s = Ok (take (Z.to_nat size) q) s' ∧ holds n (drop (Z.to_nat size) q) s'.
Proof.
  intros Hh. cbn [device_step]. unfold rt_serial_read. destruct (Z.eqb_spec size 0) as [->|H0].
  { exists s. by rewrite take_0, drop_0. }
  rewrite bind_assoc, bind_gets, (ho_mode _ _ _ Hh). rewrite andb_false_r, bind_assoc.
  destruct (int_rx_run n (Z.to_nat size) q s Hh) as (s' & E & Hs'). rewrite (bind_ok _ _ _ _ _ E). by exists s'.
Qed.

(** ** A device in use *)

Lemma device_run_holds n es : ∀ q s, holds n q s → (∀ l, Arrive l ∈ es → Forall byte l) →
  ∃ s', device_run es s = Ok (queue_run (Z.to_nat (n - 1)) es q).1 s' ∧
    holds n (queue_run (Z.to_nat (n - 1)) es q).2 s'.
Proof.
  induction es as [|e es IH]; intros q s Hh Hl; [by exists s|]. cbn [device_run queue_run].
  assert (∃ s', device_step e s = Ok (queue_step (Z.to_nat (n - 1)) e q).1 s' ∧
    holds n (queue_step (Z.to_nat (n - 1)) e q).2 s') as (s1 & E1 & H1).
  { destruct e as [l|size]; [apply arrive_run; [done|apply Hl; left]|by apply take_run]. }
  rewrite (bind_ok _ _ _ _ _ E1). destruct (queue_step _ e q) as [out q1].
  destruct (IH q1 s1 H1) as (s2 & E2 & H2); [intros l Hin; apply Hl; by right|].
  rewrite (bind_ok _ _ _ _ _ E2). destruct (queue_run _ es q1) as [outs q2]. by exists s2.
Qed.

Lemma open_holds n s f : bufsz s = n → 1 ≤ n < 65536 → flag s = f → has_flag f RT_DEVICE_FLAG_INT_RX = true →
  serial_rx s = None → receiver s = [] →
  ∃ s', rt_serial_open RT_DEVICE_FLAG_INT_RX s = Ok RT_EOK s' ∧ holds n [] s'.
Proof.
  intros Hn Hn' Hf Hm Hr He. unfold rt_serial_open. rewrite bind_gets, Hf. cbn [existsb]. rewrite Hm.
  change (has_flag RT_DEVICE_FLAG_INT_RX RT_DEVICE_FLAG_DMA_RX) with false.
  change (has_flag RT_DEVICE_FLAG_INT_RX RT_DEVICE_FLAG_DMA_TX) with false.
  change (has_flag RT_DEVICE_FLAG_INT_RX RT_DEVICE_FLAG_INT_TX) with false.
  change (has_flag RT_DEVICE_FLAG_INT_RX RT_DEVICE_FLAG_INT_RX) with true. cbn [negb andb orb].
  rewrite bind_modify. set (s1 := set_open_flag _ s).
  assert (∃ s2, open_rx RT_DEVICE_FLAG_INT_RX s1 = Ok tt s2 ∧ holds n [] s2) as (s2 & E2 & H2).
  { unfold open_rx. rewrite bind_gets. change (serial_rx s1) with (serial_rx s). rewrite Hr, bind_gets. cbv iota.
    eexists. split; [reflexivity|]. split; try done. exists (new_fifo n). rewrite <- Hn at 1. split; [done|].
    assert (fifo_ok n (new_fifo n)) as Hok; [|split; [done|]].
    - split; simpl; try lia; [rewrite length_replicate; lia|]. by apply Forall_replicate.
    - unfold contents. by rewrite (length_mod _ _ Hok). }
  rewrite (bind_ok _ _ _ _ _ E2).
  assert (∃ s3, open_tx RT_DEVICE_FLAG_INT_RX s2 = Ok tt s3 ∧ holds n [] s3) as (s3 & E3 & H3).
  { unfold open_tx. rewrite bind_gets. by destruct (serial_tx s2); exists s2. }
  rewrite (bind_ok _ _ _ _ _ E3). by exists s3.
Qed.

(** C21: A serial device that is opened for receiving by interrupt is a queue that
    forgets its oldest characters: for every size of the ring buffer and every
    sequence of arrivals and reads, with arrivals of any length between two reads,
    a read gives the next characters in the order of their arrival, at most as
    many as were asked for, out of a queue that holds the last [bufsz - 1]
    characters that were not read; nothing is invented, repeated or reordered
    where the indices wrap around, and no access is outside the buffer. *)
Theorem serial_receives n s es : bufsz s = n → 1 ≤ n < 65536 →
  has_flag (flag s) RT_DEVICE_FLAG_INT_RX = true → serial_rx s = None → receiver s = [] →
  (∀ l, Arrive l ∈ es → Forall byte l) →
  ∃ s', (rt_serial_open RT_DEVICE_FLAG_INT_RX ;;; device_run es) s =
    Ok (queue_run (Z.to_nat (n - 1)) es []).1 s'.
Proof.
  intros Hn Hn' Hf Hr He Hl. destruct (open_holds n s (flag s)) as (s1 & E1 & H1); [done..|].
  destruct (device_run_holds n es [] s1 H1 Hl) as (s2 & E2 & _). rewrite (bind_ok _ _ _ _ _ E1). by exists s2.
Qed.

(** A device with a buffer of 4 bytes, before it is opened. *)
Definition demo_serial : rt_serial_device :=
  mk_serial (Z.lor RT_DEVICE_FLAG_INT_RX RT_DEVICE_FLAG_DMA_RX) 0 1 4 0 None None [] [] true [] 0 [].
Definition demo_events : list event :=
  [Arrive [1; 2]; Take 1; Arrive [3; 4; 5]; Take 2; Take 5; Take 1; Arrive [6]; Take 3].

Lemma serial_receives_witness :
  ∃ s', (rt_serial_open RT_DEVICE_FLAG_INT_RX ;;; device_run demo_events) demo_serial =
    Ok [[]; [1]; []; [3; 4]; [5]; []; []; [6]] s'.
Proof.
  apply (serial_receives 4 demo_serial demo_events); [reflexivity|lia|reflexivity|reflexivity|reflexivity|].
  intros l Hl. unfold demo_events in Hl.
  repeat (apply elem_of_cons in Hl as [E|Hl];
    [try discriminate E; injection E as ->; repeat constructor; unfold byte; lia|]).
  by apply not_elem_of_nil in Hl.
Defined.

(** ** Sending *)

(** What goes over the line for a text. *)
Definition line_text (stream : bool) (l : list Z) : list Z :=
  l ≫= λ c, if (c =? newline) && stream then [carriage_return; c] else [c].

Lemma poll_tx_run l : ∀ s, _serial_poll_tx l s =
  Ok tt (set_sent (sent s ++ line_text (has_flag (open_flag s) RT_DEVICE_FLAG_STREAM) l) s).
Proof.
  induction l as [|c l IH]; intros s; cbn [_serial_poll_tx].
  - unfold line_text. simpl. rewrite app_nil_r. by destruct s.
  - rewrite bind_gets. unfold line_text. cbn [mbind list_bind]. fold (line_text (has_flag (open_flag s) RT_DEVICE_FLAG_STREAM) l).
    unfold putc. destruct (_ && _); rewrite bind_modify || rewrite bind_ret; [rewrite bind_modify|rewrite bind_modify];
      rewrite IH; unfold set_sent; simpl; by rewrite <- !app_assoc.
Qed.

(** ** What the code does at its edges *)

(** A DMA transfer as long as the buffer: the loop subtracts the size once too
    often, and the index is outside the buffer. *)
Example dma_full_buffer :
  let s := mk_serial 0 RT_DEVICE_FLAG_DMA_RX 1 4 0 (Some (RxFifo (mk_fifo [0; 0; 0; 0] 0 0))) None [] [] false [] 0 [] in
  match rx_dmadone 4 s with
  | Ok _ t => serial_rx t
  | Fault _ => None
  end = Some (RxFifo (mk_fifo [0; 0; 0; 0] 65532 65533)).
Proof. vm_compute. reflexivity. Qed.

(** One byte less is as it should be. *)
Example dma_three :
  let s := mk_serial 0 RT_DEVICE_FLAG_DMA_RX 1 4 0 (Some (RxFifo (mk_fifo [7; 8; 9; 0] 0 0))) None [] [] true [] 0 [] in
  match (rx_dmadone 3 ;;; rt_serial_read 5) s with
  | Ok l t => Some (l, indications t)
  | Fault _ => None
  end = Some ((3, [7; 8; 9]), [3]).
Proof. vm_compute. reflexivity. Qed.

(** A second opening without the flag of the interrupt mode: the first reader's
    data stay in the buffer, and reading polls the receiver. *)
Example opened_twice :
  match (rt_serial_open RT_DEVICE_FLAG_INT_RX ;;; device_step (Arrive [1; 2]) ;;;
         rt_serial_open 0 ;;; rt_serial_read 5) demo_serial with
  | Ok r t => Some (r.2, serial_rx t)
  | Fault _ => None
  end = Some ([], Some (RxFifo (mk_fifo [1; 2; 0; 0] 2 0))).
Proof. vm_compute. reflexivity. Qed.

(** Without a buffer the first character is written outside it. *)
Example no_buffer :
  (rt_serial_open RT_DEVICE_FLAG_INT_RX ;;; device_step (Arrive [1])) (set_bufsz 0 demo_serial) = Fault OutOfBounds.
Proof. vm_compute. reflexivity. Qed.
