(* ===== verification/Sfud.v ===== *)
(** * The flash memory behind SPI ([components/drivers/sfud.c])

    Reading, writing and erasing of a flash memory by commands on a serial bus.
    The port that transfers bytes and waits is the class [FlashPort].  As the
    project configures it, a flash is found in the table of known chips;
    tables read from the flash and four data lines are not compiled in. *)

From S2P Require Import Prelude DfsPath.
From Stdlib Require Import String.
Open Scope Z_scope.

(** ** Constants of [sfud_def.h] and [sfud_flash_def.h] *)
Definition SFUD_CMD_WRITE_ENABLE : Z := 0x06.
Definition SFUD_CMD_WRITE_DISABLE : Z := 0x04.
Definition SFUD_CMD_READ_STATUS_REGISTER : Z := 0x05.
Definition SFUD_VOLATILE_SR_WRITE_ENABLE : Z := 0x50.
Definition SFUD_CMD_WRITE_STATUS_REGISTER : Z := 0x01.
Definition SFUD_CMD_PAGE_PROGRAM : Z := 0x02.
Definition SFUD_CMD_AAI_WORD_PROGRAM : Z := 0xAD.
Definition SFUD_CMD_ERASE_CHIP : Z := 0xC7.
Definition SFUD_CMD_READ_DATA : Z := 0x03.
Definition SFUD_CMD_JEDEC_ID : Z := 0x9F.
Definition SFUD_CMD_ENABLE_RESET : Z := 0x66.
Definition SFUD_CMD_RESET : Z := 0x99.
Definition SFUD_CMD_ENTER_4B_ADDRESS_MODE : Z := 0xB7.
Definition SFUD_CMD_EXIT_4B_ADDRESS_MODE : Z := 0xE9.
Definition SFUD_STATUS_REGISTER_BUSY : Z := 1.
Definition SFUD_STATUS_REGISTER_WEL : Z := 2.

Definition SFUD_SUCCESS : Z := 0.
Definition SFUD_ERR_NOT_FOUND : Z := 1.
Definition SFUD_ERR_WRITE : Z := 2.
Definition SFUD_ERR_TIMEOUT : Z := 4.
Definition SFUD_ERR_ADDR_OUT_OF_BOUND : Z := 5.

Definition SFUD_WM_PAGE_256B : Z := 1.
Definition SFUD_WM_BYTE : Z := 2.
Definition SFUD_WM_AAI : Z := 4.
Definition SFUD_WM_DUAL_BUFFER : Z := 8.

(** ** Data *)

(** [sfud_flash_chip] *)
Record sfud_flash_chip := mk_chip {
  chip_name : list Z;
  mf_id : Z;
  type_id : Z;
  capacity_id : Z;
  capacity : Z;
  write_mode : Z;
  erase_gran : Z;
  erase_gran_cmd : Z
}.

(** [sfud_flash]; of the pointers [retry.delay], [spi.lock] and [spi.unlock],
    whether they are not null. *)
Record sfud_flash := mk_flash {
  chip : sfud_flash_chip;
  init_ok : bool;
  addr_in_4_byte : bool;
  retry_times : Z;
  retry_delay : bool;
  spi_locks : bool
}.

(** [SFUD_FLASH_CHIP_TABLE] *)
Definition flash_chip_table : list sfud_flash_chip := [
  mk_chip (chars "AT45DB161E") 0x1F 0x26 0x00 (2*1024*1024) (Z.lor SFUD_WM_BYTE SFUD_WM_DUAL_BUFFER) 512 0x81;
  mk_chip (chars "W25Q40BV") 0xEF 0x40 0x13 (512*1024) SFUD_WM_PAGE_256B 4096 0x20;
  mk_chip (chars "W25Q16BV") 0xEF 0x40 0x15 (2*1024*1024) SFUD_WM_PAGE_256B 4096 0x20;
  mk_chip (chars "W25Q64DW") 0xEF 0x40 0x17 (8*1024*1024) SFUD_WM_PAGE_256B 4096 0x20;
  mk_chip (chars "W25Q128BV") 0xEF 0x40 0x18 (16*1024*1024) SFUD_WM_PAGE_256B 4096 0x20;
  mk_chip (chars "W25Q256FV") 0xEF 0x40 0x19 (32*1024*1024) SFUD_WM_PAGE_256B 4096 0x20;
  mk_chip (chars "SST25VF016B") 0xBF 0x25 0x41 (2*1024*1024) (Z.lor SFUD_WM_BYTE SFUD_WM_AAI) 4096 0x20;
  mk_chip (chars "M25P32") 0x20 0x20 0x16 (4*1024*1024) SFUD_WM_PAGE_256B (64*1024) 0xD8;
  mk_chip (chars "M25P80") 0x20 0x20 0x14 (1*1024*1024) SFUD_WM_PAGE_256B (64*1024) 0xD8;
  mk_chip (chars "M25P40") 0x20 0x20 0x13 (512*1024) SFUD_WM_PAGE_256B (64*1024) 0xD8;
  mk_chip (chars "EN25Q32B") 0x1C 0x30 0x16 (4*1024*1024) SFUD_WM_PAGE_256B 4096 0x20;
  mk_chip (chars "GD25Q64B") 0xC8 0x40 0x17 (8*1024*1024) SFUD_WM_PAGE_256B 4096 0x20;
  mk_chip (chars "GD25Q16B") 0xC8 0x40 0x15 (2*1024*1024) SFUD_WM_PAGE_256B 4096 0x20;
  mk_chip (chars "S25FL216K") 0x01 0x40 0x15 (2*1024*1024) SFUD_WM_PAGE_256B 4096 0x20;
  mk_chip (chars "S25FL032P") 0x01 0x02 0x15 (4*1024*1024) SFUD_WM_PAGE_256B 4096 0x20;
  mk_chip (chars "A25L080") 0x37 0x30 0x14 (1*1024*1024) SFUD_WM_PAGE_256B 4096 0x20;
  mk_chip (chars "F25L004") 0x8C 0x20 0x13 (512*1024) (Z.lor SFUD_WM_BYTE SFUD_WM_AAI) 4096 0x20;
  mk_chip (chars "PCT25VF016B") 0xBF 0x25 0x41 (2*1024*1024) (Z.lor SFUD_WM_BYTE SFUD_WM_AAI) 4096 0x20].

(** The port: [wr] sends bytes and then receives a number of bytes; its result
    is an error code and what was received. *)
Class FlashPort : Type := {
  bus : Type;
  wr : list Z → Z → bus → (Z * list Z) * bus;
  delay : bus → bus
}.

Section sfud.
Context `{FlashPort}.

(** The flash, how often [spi.lock] is held, and what is behind the port. *)
Record sfud := mk_sfud { flash : sfud_flash; spi_held : Z; the_bus : bus }.
Definition SF := M sfud.

Definition set_flash (f : sfud_flash) (s : sfud) : sfud := mk_sfud f (spi_held s) (the_bus s).
Definition set_held (n : Z) (s : sfud) : sfud := mk_sfud (flash s) n (the_bus s).
Definition set_bus (b : bus) (s : sfud) : sfud := mk_sfud (flash s) (spi_held s) b.

Definition spi_wr (write_buf : list Z) (read_size : Z) : SF (Z * list Z) :=
  let! b := read the_bus in
  modify (set_bus (wr write_buf read_size b).2) ;;;
  ret (wr write_buf read_size b).1.

(** A transfer of which only the result is used. *)
Definition command (write_buf : list Z) : SF Z :=
  let! r := spi_wr write_buf 0 in ret r.1.

Definition lock : SF unit :=
  let! f := read flash in when spi_locks f then modify (λ s, set_held (spi_held s + 1) s).
Definition unlock : SF unit :=
  let! f := read flash in when spi_locks f then modify (λ s, set_held (spi_held s - 1) s).

(** ** Status *)

(** The status is none where it was not received. *)
Definition sfud_read_status : SF (Z * option Z) :=
  let! r := spi_wr [SFUD_CMD_READ_STATUS_REGISTER] 1 in
  ret (r.1, if r.1 =? SFUD_SUCCESS then head r.2 else None).

Definition busy_bit (status : Z) : bool := negb (Z.land status SFUD_STATUS_REGISTER_BUSY =? 0).

Fixpoint wait_loop (retry_times : nat) : SF Z :=
  let! r := sfud_read_status in
  let! ready :=
    if r.1 =? SFUD_SUCCESS then
      let! status := from_option Undefined r.2 in ret (negb (busy_bit status))
    else ret false in
  if ready then ret r.1
  else
    match retry_times with
    | O => ret SFUD_ERR_TIMEOUT
    | S retry_times =>
      let! f := read flash in
      (when retry_delay f then modify (λ s, set_bus (delay (the_bus s)) s)) ;;;
      wait_loop retry_times
    end.

Definition wait_busy : SF Z :=
  let! f := read flash in
  wait_loop (Z.to_nat (retry_times f)).

Definition set_write_enabled (enabled : bool) : SF Z :=
  let! result := command [if enabled then SFUD_CMD_WRITE_ENABLE else SFUD_CMD_WRITE_DISABLE] in
  if result =? SFUD_SUCCESS then
    let! r := sfud_read_status in
    if r.1 =? SFUD_SUCCESS then
      let! register_status := from_option Undefined r.2 in
      let wel := Z.land register_status SFUD_STATUS_REGISTER_WEL in
      if enabled && (wel =? 0) then ret SFUD_ERR_WRITE
      else if negb enabled && (wel =? 1) then ret SFUD_ERR_WRITE
      else ret SFUD_SUCCESS
    else ret r.1
  else ret result.

Definition sfud_write_status (is_volatile : bool) (status : Z) : SF Z :=
  let! result := if is_volatile then command [SFUD_VOLATILE_SR_WRITE_ENABLE] else set_write_enabled true in
  if result =? SFUD_SUCCESS then command [SFUD_CMD_WRITE_STATUS_REGISTER; u8 status] else ret result.

(** The bytes of an address, the highest first. *)
Definition address_bytes (wide : bool) (addr : Z) : list Z :=
  let len := if wide then 4 else 3 in
  (λ i, Z.land (Z.shiftr addr ((len - (i + 1)) * 8)) 0xFF) <$> seqZ 0 len.
Definition make_adress_byte_array (addr : Z) : SF (list Z) :=
  let! f := read flash in
  ret (address_bytes (addr_in_4_byte f) addr).

(** ** Reading *)

(** [addr + size > flash->chip.capacity], in 32 bits. *)
Definition out_of_bound (addr size : Z) : SF bool :=
  let! f := read flash in
  ret (capacity (chip f) <? u32 (addr + size)).

(** The buffer is none where it is not written as a whole. *)
Definition sfud_read (addr size : Z) : SF (Z * option (list Z)) :=
  let! bad := out_of_bound addr size in
  if (bad : bool) then ret (SFUD_ERR_ADDR_OUT_OF_BOUND, None)
  else
    lock ;;;
    let! result := wait_busy in
    let! r :=
      if result =? SFUD_SUCCESS then
        let! a := make_adress_byte_array addr in
        let! r := spi_wr (SFUD_CMD_READ_DATA :: a) size in
        ret (r.1, if r.1 =? SFUD_SUCCESS then Some r.2 else None)
      else ret (result, None) in
    unlock ;;;
    ret r.

(** ** Erasing *)

(** The label [__exit] of the operations that change the flash. *)
Definition exit_write (result : Z) : SF Z :=
  set_write_enabled false ;;;
  unlock ;;;
  ret result.

Definition sfud_chip_erase : SF Z :=
  lock ;;;
  let! result := set_write_enabled true in
  if negb (result =? SFUD_SUCCESS) then exit_write result
  else
    let! f := read flash in
    let! result := command (if negb (Z.land (write_mode (chip f)) SFUD_WM_DUAL_BUFFER =? 0)
      then [SFUD_CMD_ERASE_CHIP; 0x94; 0x80; 0x9A] else [SFUD_CMD_ERASE_CHIP]) in
    if negb (result =? SFUD_SUCCESS) then exit_write result
    else
      let! result := wait_busy in
      exit_write result.

(** The loop of [sfud_erase]; its result is that of the whole function up to
    [__exit]. *)
Fixpoint erase_loop (fuel : nat) (addr size result : Z) : SF Z :=
  match fuel with
  | O => fail OutOfFuel
  | S fuel =>
    if size =? 0 then ret result
    else
      let! f := read flash in
      let cur_erase_size := erase_gran (chip f) in
      let! result := set_write_enabled true in
      if negb (result =? SFUD_SUCCESS) then ret result
      else
        let! a := make_adress_byte_array addr in
        let! result := command (erase_gran_cmd (chip f) :: a) in
        if negb (result =? SFUD_SUCCESS) then ret result
        else
          let! result := wait_busy in
          if negb (result =? SFUD_SUCCESS) then ret result
          else if cur_erase_size =? 0 then fail Undefined
          else
            let step := if negb (addr mod cur_erase_size =? 0)
                        then cur_erase_size - addr mod cur_erase_size else cur_erase_size in
            if step <? size then erase_loop fuel (u32 (addr + step)) (size - step) result
            else ret result
  end.

Definition sfud_erase (addr size : Z) : SF Z :=
  let! bad := out_of_bound addr size in
  if (bad : bool) then ret SFUD_ERR_ADDR_OUT_OF_BOUND
  else
    let! f := read flash in
    if (addr =? 0) && (size =? capacity (chip f)) then sfud_chip_erase
    else
      lock ;;;
      let! result := erase_loop (Z.to_nat (size / erase_gran (chip f)) + 3) addr size SFUD_SUCCESS in
      exit_write result.

(** ** Writing *)

(** How many bytes the next command writes. *)
Definition write_size (write_gran addr size : Z) : Z :=
  let room := if negb (addr mod write_gran =? 0) then write_gran - addr mod write_gran else write_gran in
  if room <? size then room else size.

(** [memcpy] of [n] bytes from [data]. *)
Definition bytes_of (data : list Z) (n : Z) : SF (list Z) :=
  if n <=? Z.of_nat (List.length data) then ret (take (Z.to_nat n) data) else fail OutOfBounds.

Fixpoint write_loop (fuel : nat) (addr size write_gran : Z) (data : list Z) (result : Z) : SF Z :=
  match fuel with
  | O => fail OutOfFuel
  | S fuel =>
    if size =? 0 then ret result
    else
      let! result := set_write_enabled true in
      if negb (result =? SFUD_SUCCESS) then ret result
      else
        let! a := make_adress_byte_array addr in
        let data_size := write_size write_gran addr size in
        let! d := bytes_of data data_size in
        let! result := command (SFUD_CMD_PAGE_PROGRAM :: a ++ d) in
        if negb (result =? SFUD_SUCCESS) then ret result
        else
          let! result := wait_busy in
          if negb (result =? SFUD_SUCCESS) then ret result
          else write_loop fuel (u32 (addr + data_size)) (size - data_size) write_gran
                 (drop (Z.to_nat data_size) data) result
  end.

Definition page256_or_1_byte_write (addr size write_gran : Z) (data : list Z) : SF Z :=
  let! bad := out_of_bound addr size in
  if (bad : bool) then ret SFUD_ERR_ADDR_OUT_OF_BOUND
  else
    lock ;;;
    let! result := write_loop (Z.to_nat (size / write_gran) + 3) addr size write_gran data SFUD_SUCCESS in
    exit_write result.

(** The loop of [aai_write]: the result, and what is left of [addr], [size]
    and [data]. *)
Fixpoint aai_loop (fuel : nat) (first_write : bool) (addr size : Z) (data : list Z) (result : Z)
    : SF (Z * (Z * Z * list Z)) :=
  match fuel with
  | O => fail OutOfFuel
  | S fuel =>
    if size <? 2 then ret (result, (addr, size, data))
    else
      let! a := if first_write then make_adress_byte_array addr else ret [] in
      let! d := bytes_of data 2 in
      let! result := command (SFUD_CMD_AAI_WORD_PROGRAM :: a ++ d) in
      if negb (result =? SFUD_SUCCESS) then ret (result, (addr, size, data))
      else
        let! result := wait_busy in
        if negb (result =? SFUD_SUCCESS) then ret (result, (addr, size, data))
        else aai_loop fuel false (u32 (addr + 2)) (size - 2) (drop 2 data) result
  end.

(** The byte at an odd address, which is written first. *)
Definition aai_odd (addr size : Z) (data : list Z) : SF (Z * (Z * Z * list Z)) :=
  if negb (addr mod 2 =? 0) then
    let! result := page256_or_1_byte_write addr 1 1 data in
    if negb (result =? SFUD_SUCCESS) then ret (result, (addr, size, data))
    else ret (result, (u32 (addr + 1), u32 (size - 1), tail data))
  else ret (SFUD_SUCCESS, (addr, size, data)).

(** From the lock to [__exit]. *)
Definition aai_body (addr size : Z) (data : list Z) : SF Z :=
  let! (result, (addr, size, data)) := aai_odd addr size data in
  if negb (result =? SFUD_SUCCESS) then ret result
  else
    let! result := set_write_enabled true in
    if negb (result =? SFUD_SUCCESS) then ret result
    else
      let! (result, (addr, size, data)) := aai_loop (Z.to_nat (size / 2) + 1) true addr size data result in
      if negb (result =? SFUD_SUCCESS) then ret result
      else
        let! result := set_write_enabled false in
        if (result =? SFUD_SUCCESS) && (size =? 1) then page256_or_1_byte_write addr 1 1 data
        else ret result.

Definition aai_write (addr size : Z) (data : list Z) : SF Z :=
  let! bad := out_of_bound addr size in
  if (bad : bool) then ret SFUD_ERR_ADDR_OUT_OF_BOUND
  else
    lock ;;;
    let! result := aai_body addr size data in
    (when negb (result =? SFUD_SUCCESS) then (set_write_enabled false ;;; ret tt)) ;;;
    unlock ;;;
    ret result.

Definition sfud_write (addr size : Z) (data : list Z) : SF Z :=
  let! f := read flash in
  if negb (Z.land (write_mode (chip f)) SFUD_WM_PAGE_256B =? 0) then
    page256_or_1_byte_write addr size 256 data
  else if negb (Z.land (write_mode (chip f)) SFUD_WM_AAI =? 0) then aai_write addr size data
  else ret SFUD_SUCCESS.

Definition sfud_erase_write (addr size : Z) (data : list Z) : SF Z :=
  let! result := sfud_erase addr size in
  if result =? SFUD_SUCCESS then sfud_write addr size data else ret result.

(** ** Start *)
Definition reset : SF Z :=
  let! result := command [SFUD_CMD_ENABLE_RESET] in
  if result =? SFUD_SUCCESS then
    wait_busy ;;;
    let! result := command [SFUD_CMD_RESET] in
    if result =? SFUD_SUCCESS then wait_busy else ret result
  else ret result.

Definition upd_chip (c : sfud_flash_chip) : SF unit :=
  modify (λ s, set_flash (mk_flash c (init_ok (flash s)) (addr_in_4_byte (flash s)) (retry_times (flash s))
    (retry_delay (flash s)) (spi_locks (flash s))) s).
Definition set_addr_in_4_byte (b : bool) : SF unit :=
  modify (λ s, set_flash (mk_flash (chip (flash s)) (init_ok (flash s)) b (retry_times (flash s))
    (retry_delay (flash s)) (spi_locks (flash s))) s).
Definition set_init_ok (b : bool) : SF unit :=
  modify (λ s, set_flash (mk_flash (chip (flash s)) b (addr_in_4_byte (flash s)) (retry_times (flash s))
    (retry_delay (flash s)) (spi_locks (flash s))) s).

Definition read_jedec_id : SF Z :=
  let! r := spi_wr [SFUD_CMD_JEDEC_ID] 3 in
  if r.1 =? SFUD_SUCCESS then
    match r.2 with
    | [mf; type; cap] =>
      let! f := read flash in
      let c := chip f in
      upd_chip (mk_chip (chip_name c) mf type cap (capacity c) (write_mode c) (erase_gran c) (erase_gran_cmd c)) ;;;
      ret r.1
    | _ => fail Undefined
    end
  else ret r.1.

Definition set_4_byte_address_mode (enabled : bool) : SF Z :=
  let! result := set_write_enabled true in
  if negb (result =? SFUD_SUCCESS) then ret result
  else
    let! result := command [if enabled then SFUD_CMD_ENTER_4B_ADDRESS_MODE else SFUD_CMD_EXIT_4B_ADDRESS_MODE] in
    (when result =? SFUD_SUCCESS then set_addr_in_4_byte enabled) ;;;
    ret result.

(** Is a part of the information on the chip missing? *)
Definition unknown (c : sfud_flash_chip) : bool :=
  (capacity c =? 0) || (write_mode c =? 0) || (erase_gran c =? 0) || (erase_gran_cmd c =? 0).

(** The loop over the table of chips. *)
Definition find_chip (mf type cap : Z) : option sfud_flash_chip :=
  snd <$> list_find (λ c, mf_id c = mf ∧ type_id c = type ∧ capacity_id c = cap) flash_chip_table.

(** [sfud_spi_port_init] of [spi_flash_sfud.c] *)
Definition sfud_spi_port_init : SF Z :=
  modify (λ s, set_flash (mk_flash (chip (flash s)) (init_ok (flash s)) (addr_in_4_byte (flash s)) 600000
    true true) s) ;;;
  ret SFUD_SUCCESS.

(** Where the information is missing, it is taken from the table. *)
Definition identify : SF Z :=
  let! f := read flash in
  if unknown (chip f) then
    let! result := read_jedec_id in
    if negb (result =? SFUD_SUCCESS) then ret result
    else
      let! f := read flash in
      let c := chip f in
      (match find_chip (mf_id c) (type_id c) (capacity_id c) with
       | Some e => upd_chip (mk_chip (chip_name e) (mf_id c) (type_id c) (capacity_id c) (capacity e) (write_mode e)
                     (erase_gran e) (erase_gran_cmd e))
       | None => ret tt
       end) ;;;
      ret result
  else ret SFUD_SUCCESS.

(** From the reset of the flash on. *)
Definition start_flash : SF Z :=
  let! result := reset in
  if negb (result =? SFUD_SUCCESS) then ret result
  else
    let! f := read flash in
    let! result := if negb (Z.land (write_mode (chip f)) SFUD_WM_AAI =? 0)
                   then sfud_write_status true 0x00 else ret result in
    if negb (result =? SFUD_SUCCESS) then ret result
    else if 2 ^ 24 <? capacity (chip f) then set_4_byte_address_mode true
    else
      set_addr_in_4_byte false ;;;
      ret result.

Definition hardware_init : SF Z :=
  let! result := sfud_spi_port_init in
  if negb (result =? SFUD_SUCCESS) then ret result
  else
    let! result := identify in
    if negb (result =? SFUD_SUCCESS) then ret result
    else
      let! f := read flash in
      if unknown (chip f) then ret SFUD_ERR_NOT_FOUND else start_flash.

Definition software_init : SF Z := ret SFUD_SUCCESS.

Definition sfud_device_init : SF Z :=
  let! result := hardware_init in
  let! result := if result =? SFUD_SUCCESS then software_init else ret result in
  set_init_ok (result =? SFUD_SUCCESS) ;;;
  ret result.
(** ** The block device ([spi_flash_sfud.c]) *)

(** [struct rt_device_blk_geometry] *)
Record rt_device_blk_geometry := mk_geometry {
  sector_count : Z; bytes_per_sector : Z; block_size : Z }.

(** The geometry that [rt_sfud_flash_probe] takes from the flash. *)
Definition geometry_of (c : sfud_flash_chip) : rt_device_blk_geometry :=
  mk_geometry (Z.quot (capacity c) (erase_gran c)) (erase_gran c) (erase_gran c).

Definition rt_sfud_read (g : rt_device_blk_geometry) (pos size : Z) : SF (Z * option (list Z)) :=
  let! r := sfud_read (u32 (pos * bytes_per_sector g)) (u32 (size * bytes_per_sector g)) in
  ret (if negb (r.1 =? SFUD_SUCCESS) then 0 else size, r.2).

Definition rt_sfud_write (g : rt_device_blk_geometry) (pos : Z) (buffer : list Z) (size : Z) : SF Z :=
  let! r := sfud_erase_write (u32 (pos * bytes_per_sector g)) (u32 (size * bytes_per_sector g)) buffer in
  ret (if negb (r =? SFUD_SUCCESS) then 0 else size).

(** The case [RT_DEVICE_CTRL_BLK_ERASE] of [rt_sfud_control], with the two
    words of its argument. *)
Definition rt_sfud_erase (g : rt_device_blk_geometry) (start_addr end_addr : Z) : SF Z :=
  if end_addr <? start_addr then ret (-1)
  else
    let end_addr := if end_addr =? start_addr then u32 (end_addr + 1) else end_addr in
    let! r := sfud_erase (u32 (start_addr * bytes_per_sector g))
                (u32 (u32 (end_addr - start_addr) * bytes_per_sector g)) in
    ret (if negb (r =? SFUD_SUCCESS) then -1 else 0).
End sfud.
