(* ===== verification/SfudSpec.v ===== *)
(** * What the flash memory and its driver promise

    What a flash memory promises about its commands, and from it what the
    driver promises: an erase sets the blocks that it touches to ones, a write
    stores the bytes, and a read returns them. *)

From S2P Require Import Prelude DfsPath Sfud.

(** ** What the chip promises

    [mem] is its contents, [wel] its write enable latch, [busy] for how many
    polls it is busy yet, and [wide] whether addresses have four bytes.  While
    it is busy it answers nothing but its status. *)
Class NorFlash `{FlashPort} : Type := {
  cap : Z;
  gran : Z;
  gran_cmd : Z;
  polls : nat;
  mem : bus → Z → Z;
  wel : bus → bool;
  busy : bus → nat;
  wide : bus → bool
}.

(** The contents after [d] is programmed at [a]: a cell can only lose ones. *)
Definition programmed (m : Z → Z) (a : Z) (d : list Z) (x : Z) : Z :=
  if (a <=? x) && (x <? a + Z.of_nat (length d)) then Z.land (m x) (d !!! Z.to_nat (x - a)) else m x.
(** The contents after the blocks of [g] bytes from that of [a] to that of [b]
    are erased. *)
Definition erased (g : Z) (m : Z → Z) (a b x : Z) : Z :=
  if (a / g <=? x / g) && (x / g <=? b / g) then 0xFF else m x.

Definition same `{NorFlash} (b b' : bus) : Prop :=
  (∀ x, mem b' x = mem b x) ∧ wide b' = wide b.

Class NorFlashOk `{NorFlash} : Prop := {
  geometry_ok : 0 < gran ∧ 0 < cap < 2 ^ 32 ∧ (gran | cap);
  read_status_ok : ∀ b, ∃ st b',
    wr [SFUD_CMD_READ_STATUS_REGISTER] 1 b = ((SFUD_SUCCESS, [st]), b') ∧
    same b b' ∧ wel b' = wel b ∧ busy b' = pred (busy b) ∧
    busy_bit st = negb (busy b =? 0)%nat ∧
    (busy b = 0%nat → Z.testbit st 1 = wel b);
  delay_ok : ∀ b, same b (delay b) ∧ wel (delay b) = wel b ∧ (busy (delay b) ≤ busy b)%nat;
  write_enable_ok : ∀ b (e : bool), busy b = 0%nat → ∃ l b',
    wr [if e then SFUD_CMD_WRITE_ENABLE else SFUD_CMD_WRITE_DISABLE] 0 b = ((SFUD_SUCCESS, l), b') ∧
    same b b' ∧ wel b' = e ∧ busy b' = 0%nat;
  program_ok : ∀ b a d, busy b = 0%nat → wel b = true → d ≠ [] →
    0 ≤ a → a + Z.of_nat (length d) ≤ cap → a mod 256 + Z.of_nat (length d) ≤ 256 → ∃ l b',
    wr (SFUD_CMD_PAGE_PROGRAM :: address_bytes (wide b) a ++ d) 0 b = ((SFUD_SUCCESS, l), b') ∧
    (∀ x, mem b' x = programmed (mem b) a d x) ∧ wide b' = wide b ∧ (busy b' ≤ polls)%nat;
  erase_ok : ∀ b a, busy b = 0%nat → wel b = true → 0 ≤ a < cap → ∃ l b',
    wr (gran_cmd :: address_bytes (wide b) a) 0 b = ((SFUD_SUCCESS, l), b') ∧
    (∀ x, mem b' x = erased gran (mem b) a a x) ∧ wide b' = wide b ∧ (busy b' ≤ polls)%nat;
  chip_erase_ok : ∀ b, busy b = 0%nat → wel b = true → ∃ l b',
    wr [SFUD_CMD_ERASE_CHIP] 0 b = ((SFUD_SUCCESS, l), b') ∧
    (∀ x, mem b' x = erased gran (mem b) 0 (cap - 1) x) ∧ wide b' = wide b ∧ (busy b' ≤ polls)%nat;
  read_ok : ∀ b a n, busy b = 0%nat → 0 ≤ a → 0 ≤ n → a + n ≤ cap → ∃ b',
    wr (SFUD_CMD_READ_DATA :: address_bytes (wide b) a) n b = ((SFUD_SUCCESS, mem b <$> seqZ a n), b') ∧
    same b b' ∧ wel b' = wel b ∧ busy b' = 0%nat
}.

Section contents.
Implicit Types (m : Z → Z) (d : list Z).

Lemma programmed_ext m m' a d : (∀ x, m x = m' x) → ∀ x, programmed m a d x = programmed m' a d x.
Proof. intros E x. unfold programmed. by rewrite E. Qed.

Lemma programmed_nil m a x : programmed m a [] x = m x.
Proof.
  unfold programmed. change (Z.of_nat (length [])) with 0.
  destruct (Z.leb_spec a x), (Z.ltb_spec x (a + 0)); simpl; (lia || done).
Qed.

Lemma programmed_app m a d1 d2 x :
  programmed (programmed m a d1) (a + Z.of_nat (length d1)) d2 x = programmed m a (d1 ++ d2) x.
Proof.
  unfold programmed. rewrite length_app, Nat2Z.inj_add.
  destruct (Z.leb_spec a x), (Z.ltb_spec x (a + Z.of_nat (length d1))),
    (Z.leb_spec (a + Z.of_nat (length d1)) x),
    (Z.ltb_spec x (a + Z.of_nat (length d1) + Z.of_nat (length d2))),
    (Z.ltb_spec x (a + (Z.of_nat (length d1) + Z.of_nat (length d2)))); simpl; try lia; try done.
  - by rewrite lookup_total_app_l by lia.
  - rewrite lookup_total_app_r by lia. do 2 f_equal. lia.
Qed.

Lemma erased_join g m a b c x : 0 < g → a ≤ b → (b + 1) mod g = 0 → b + 1 ≤ c →
  erased g (erased g m a b) (b + 1) c x = erased g m a c x.
Proof.
  intros Hg Hab Hb Hc. unfold erased.
  assert ((b + 1) / g = b / g + 1) as E.
  { pose proof (Z.div_mod (b + 1) g ltac:(lia)) as Ed. rewrite Hb in Ed.
    set (q := (b + 1) / g) in *. replace b with ((q - 1) * g + (g - 1)) by lia.
    rewrite Z.div_add_l, Z.div_small by lia. lia. }
  pose proof (Z.div_le_mono a b g ltac:(lia) Hab).
  pose proof (Z.div_le_mono (b + 1) c g ltac:(lia) Hc). rewrite E in *.
  destruct (Z.leb_spec (a / g) (x / g)), (Z.leb_spec (x / g) (b / g)), (Z.leb_spec (b / g + 1) (x / g)),
    (Z.leb_spec (x / g) (c / g)); simpl; try lia; done.
Qed.

Lemma erased_ext g m m' a b : (∀ x, m x = m' x) → ∀ x, erased g m a b x = erased g m' a b x.
Proof. intros E x. unfold erased. by rewrite E. Qed.
End contents.

(** Runs the operations of the monad and the tests of a successful result. *)
Lemma success_eq : (SFUD_SUCCESS =? SFUD_SUCCESS) = true.
Proof. done. Qed.
Ltac frun := unfold from_option; autorewrite with run; cbn [fst snd negb]; rewrite ?success_eq; cbn [negb];
  autorewrite with run.

(** ** Ranges cut at the multiples of [g] *)

(** How many blocks of [g] bytes a range touches. *)
Definition blocks (g a n : Z) : Z := if n <=? 0 then 0 else (a + n - 1) / g - a / g + 1.

(** From [a] to the end of its block. *)
Lemma room_eq g a : 0 < g →
  (if negb (a mod g =? 0) then g - a mod g else g) = g - a mod g.
Proof. intros Hg. destruct (Z.eqb_spec (a mod g) 0) as [->|]; simpl; lia. Qed.

Lemma room_end g a : 0 < g → a + (g - a mod g) = (a / g + 1) * g.
Proof. intros Hg. pose proof (Z.div_mod a g ltac:(lia)). lia. Qed.

Lemma blocks_bound g a n : 0 < g → 0 ≤ n → blocks g a n ≤ n / g + 2.
Proof.
  intros Hg Hn. pose proof (Z.div_pos n g ltac:(lia) ltac:(lia)). unfold blocks. case_match; [lia|].
  enough ((a + n - 1) / g ≤ a / g + n / g + 1) by lia.
  apply Z.lt_succ_r, Z.div_lt_upper_bound; [lia|].
  pose proof (Z.div_mod a g ltac:(lia)). pose proof (Z.mod_pos_bound a g ltac:(lia)).
  pose proof (Z.div_mod n g ltac:(lia)). pose proof (Z.mod_pos_bound n g ltac:(lia)). lia.
Qed.

(** One step: to the end of the block, or of the range. *)
Lemma blocks_step g a n : 0 < g → 0 < n → g - a mod g < n →
  blocks g (a + (g - a mod g)) (n - (g - a mod g)) = blocks g a n - 1.
Proof.
  intros Hg Hn Hr. pose proof (Z.mod_pos_bound a g ltac:(lia)). unfold blocks.
  rewrite !(proj2 (Z.leb_gt _ _)) by lia. rewrite (room_end g a) by done. rewrite Z.div_mul by lia.
  rewrite <- (room_end g a) by done. replace (a + (g - a mod g) + (n - (g - a mod g)) - 1) with (a + n - 1) by lia.
  lia.
Qed.

Lemma blocks_last g a n : 0 < g → 0 < n → n ≤ g - a mod g → blocks g a n = 1.
Proof.
  intros Hg Hn Hr. unfold blocks. rewrite (proj2 (Z.leb_gt _ _)) by lia.
  pose proof (Z.div_mod a g ltac:(lia)). pose proof (Z.mod_pos_bound a g ltac:(lia)).
  replace (a + n - 1) with ((a / g) * g + (a mod g + n - 1)) by lia.
  rewrite Z.div_add_l, (Z.div_small (a mod g + n - 1)) by lia. lia.
Qed.

Section driver.
Context `{NorFlashOk}.

Lemma same_chip_refl b : same b b.
Proof. done. Qed.
Lemma same_chip_trans b1 b2 b3 : same b1 b2 → same b2 b3 → same b1 b3.
Proof. intros [A1 A2] [A3 A4]. split; [intros x; by rewrite A3|congruence]. Qed.

(** ** Polling and the write enable latch *)
Lemma read_status_run s : ∃ st b', sfud_read_status s = Ok (SFUD_SUCCESS, Some st) (set_bus b' s) ∧
  same (the_bus s) b' ∧ wel b' = wel (the_bus s) ∧ busy b' = pred (busy (the_bus s)) ∧
  busy_bit st = negb (busy (the_bus s) =? 0)%nat ∧
  (busy (the_bus s) = 0%nat → Z.testbit st 1 = wel (the_bus s)).
Proof.
  destruct (read_status_ok (the_bus s)) as (st & b' & E & Hs & Hw & Hb & Hst & Hl).
  exists st, b'. split; [|done]. unfold sfud_read_status, spi_wr, bind, gets, modify, ret.
  by rewrite E.
Qed.

Lemma wait_loop_run n : ∀ s, (busy (the_bus s) ≤ n)%nat →
  ∃ b', wait_loop n s = Ok SFUD_SUCCESS (set_bus b' s) ∧ same (the_bus s) b' ∧
    wel b' = wel (the_bus s) ∧ busy b' = 0%nat.
Proof.
  induction n as [|n IH]; intros s Hn;
    destruct (read_status_run s) as (st & b' & E & Hs & Hw & Hb & Hst & _);
    cbn [wait_loop]; rewrite (bind_ok _ _ _ _ _ E); frun; rewrite Hst.
  - replace (busy (the_bus s)) with 0%nat in * by lia. by exists b'.
  - destruct (busy (the_bus s)) as [|k] eqn:Ek; simpl in *; [by exists b'|].
    set (b2 := if retry_delay (flash s) then delay b' else b').
    assert (same (the_bus s) b2 ∧ wel b2 = wel (the_bus s) ∧ (busy b2 ≤ n)%nat) as (Hs2 & Hw2 & Hb2).
    { unfold b2. destruct (delay_ok b') as (? & ? & ?). destruct (retry_delay (flash s)).
      - split_and!; [by eapply same_chip_trans|congruence|lia].
      - split_and!; [done|done|lia]. }
    destruct (IH (set_bus b2 s) Hb2) as (b3 & E3 & Hs3 & Hw3 & Hb3).
    exists b3. split_and!; [|by eapply same_chip_trans|by rewrite Hw3|done].
    unfold b2 in E3. unfold bind, gets, modify, ret. simpl.
    destruct (retry_delay (flash s)); exact E3.
Qed.

(** What the driver knows of the flash fits the chip. *)
Record good (s : sfud) : Prop := {
  g_cap : capacity (chip (flash s)) = cap;
  g_gran : erase_gran (chip (flash s)) = gran;
  g_cmd : erase_gran_cmd (chip (flash s)) = gran_cmd;
  g_wide : addr_in_4_byte (flash s) = wide (the_bus s);
  g_polls : (polls ≤ Z.to_nat (retry_times (flash s)))%nat
}.

Lemma good_bus s b : good s → wide b = wide (the_bus s) → good (set_bus b s).
Proof. intros []. split; try done. simpl. congruence. Qed.

Lemma wait_busy_run s : good s → (busy (the_bus s) ≤ polls)%nat →
  ∃ b', wait_busy s = Ok SFUD_SUCCESS (set_bus b' s) ∧ same (the_bus s) b' ∧
    wel b' = wel (the_bus s) ∧ busy b' = 0%nat.
Proof. intros Hg Hb. apply wait_loop_run. pose proof (g_polls _ Hg). lia. Qed.

Lemma land_wel st : Z.land st SFUD_STATUS_REGISTER_WEL = if Z.testbit st 1 then 2 else 0.
Proof.
  apply Z.bits_inj'. intros n Hn. rewrite Z.land_spec. change SFUD_STATUS_REGISTER_WEL with (2 ^ 1).
  rewrite Z.pow2_bits_eqb by lia. destruct (Z.eqb_spec 1 n) as [<-|Hne].
  - rewrite andb_true_r. by destruct (Z.testbit st 1).
  - rewrite andb_false_r. destruct (Z.testbit st 1); [|by rewrite Z.bits_0].
    change 2 with (2 ^ 1). rewrite Z.pow2_bits_eqb by lia. lia.
Qed.

Lemma set_write_enabled_run e s : busy (the_bus s) = 0%nat →
  ∃ b', set_write_enabled e s = Ok SFUD_SUCCESS (set_bus b' s) ∧ same (the_bus s) b' ∧
    wel b' = e ∧ busy b' = 0%nat.
Proof.
  intros Hb. destruct (write_enable_ok (the_bus s) e Hb) as (l & b1 & E1 & Hs1 & Hw1 & Hb1).
  destruct (read_status_run (set_bus b1 s)) as (st & b2 & E2 & Hs2 & Hw2 & Hb2 & _ & Hst).
  exists b2. split_and!; [|by eapply same_chip_trans|by rewrite Hw2|rewrite Hb2; simpl; by rewrite Hb1].
  unfold set_write_enabled, command, spi_wr. frun. rewrite E1. frun. rewrite (bind_ok _ _ _ _ _ E2). frun.
  rewrite land_wel, (Hst Hb1). simpl. rewrite Hw1. by destruct e.
Qed.

Lemma command_run w l b' s : wr w 0 (the_bus s) = ((SFUD_SUCCESS, l), b') →
  command w s = Ok SFUD_SUCCESS (set_bus b' s).
Proof. intros E. unfold command, spi_wr. frun. by rewrite E. Qed.

(** ** Writing *)
Lemma write_size_room g a n : 0 < g → 0 < n →
  write_size g a n = Z.min (g - a mod g) n ∧ 0 < write_size g a n ≤ n.
Proof.
  intros Hg Hn. pose proof (Z.mod_pos_bound a g ltac:(lia)). unfold write_size.
  rewrite room_eq by done. destruct (Z.ltb_spec (g - a mod g) n); lia.
Qed.

Lemma blocks_write g a n : 0 < g → 0 < n →
  blocks g (a + write_size g a n) (n - write_size g a n) = blocks g a n - 1.
Proof.
  intros Hg Hn. destruct (write_size_room g a n Hg Hn) as [E _]. rewrite E.
  destruct (Z.le_gt_cases n (g - a mod g)).
  - rewrite Z.min_r, (blocks_last g a n) by lia. unfold blocks. by rewrite (proj2 (Z.leb_le _ _)) by lia.
  - rewrite Z.min_l by lia. apply blocks_step; lia.
Qed.

Lemma in_page g a n : g = 1 ∨ g = 256 → 0 < n → a mod 256 + write_size g a n ≤ 256.
Proof.
  intros Hg Hn. destruct (write_size_room g a n ltac:(lia) Hn) as [E _]. rewrite E.
  pose proof (Z.mod_pos_bound a 256 ltac:(lia)). pose proof (Z.mod_pos_bound a 1 ltac:(lia)).
  destruct Hg; subst g; lia.
Qed.

Lemma write_loop_run g : g = 1 ∨ g = 256 → ∀ fuel a n data s,
  good s → busy (the_bus s) = 0%nat → 0 ≤ a → 0 ≤ n → a + n ≤ cap → n ≤ Z.of_nat (length data) →
  blocks g a n < Z.of_nat fuel →
  ∃ b', write_loop fuel a n g data SFUD_SUCCESS s = Ok SFUD_SUCCESS (set_bus b' s) ∧
    (∀ x, mem b' x = programmed (mem (the_bus s)) a (take (Z.to_nat n) data) x) ∧
    wide b' = wide (the_bus s) ∧ busy b' = 0%nat.
Proof.
  intros Hgr. induction fuel as [|fuel IH]; intros a n data s Hg Hb Ha Hn Hc Hd Hf.
  { unfold blocks in Hf. case_match; [lia|].
    pose proof (Z.div_le_mono a (a + n - 1) g ltac:(lia) ltac:(lia)). lia. }
  cbn [write_loop]. destruct (Z.eqb_spec n 0) as [->|Hne].
  { exists (the_bus s). split_and!; [by destruct s|intros x; by rewrite programmed_nil|done|done]. }
  set (w := write_size g a n). destruct (write_size_room g a n ltac:(lia) ltac:(lia)) as [_ Hw].
  pose proof (in_page g a n Hgr ltac:(lia)) as Hpage. pose proof (blocks_write g a n ltac:(lia) ltac:(lia)) as Hbl.
  fold w in Hw, Hpage, Hbl. destruct geometry_ok as (_ & Hcap & _).
  destruct (set_write_enabled_run true s Hb) as (b1 & E1 & [Hm1 Hw1] & Hl1 & Hb1).
  set (d := take (Z.to_nat w) data). assert (Z.of_nat (length d) = w) as Hld by (unfold d; rewrite length_take; lia).
  destruct (program_ok b1 a d) as (l & b2 & E2 & Hm2 & Hw2 & Hb2);
    [done|done|by intros E; rewrite E in Hld; simpl in Hld; lia|lia|lia|lia|].
  destruct (wait_busy_run (set_bus b2 s)) as (b3 & E3 & [Hm3 Hw3] & _ & Hb3);
    [by apply good_bus; [done|congruence]|done|]. simpl in Hm3, Hw3.
  destruct (IH (a + w) (n - w) (drop (Z.to_nat w) data) (set_bus b3 s)) as (b4 & E4 & Hm4 & Hw4 & Hb4);
    [by apply good_bus; [done|congruence]|done|lia|lia|lia|rewrite length_drop; lia|lia|].
  exists b4. split_and!; [|intros x|simpl in Hw4; congruence|done].
  - rewrite (bind_ok _ _ _ _ _ E1). frun. unfold make_adress_byte_array, bytes_of. frun.
    rewrite (proj2 (Z.leb_le _ _)) by lia. frun. fold w d.
    assert (command (SFUD_CMD_PAGE_PROGRAM :: address_bytes (addr_in_4_byte (flash (set_bus b1 s))) a ++ d)
      (set_bus b1 s) = Ok SFUD_SUCCESS (set_bus b2 s)) as Ec.
    { eapply (command_run _ l b2 (set_bus b1 s)). simpl.
      rewrite (g_wide _ Hg), <- Hw1. exact E2. }
    rewrite (bind_ok _ _ _ _ _ Ec). frun. rewrite (bind_ok _ _ _ _ _ E3). frun.
    unfold u32. rewrite wrap_small by lia. exact E4.
  - rewrite Hm4. cbn [the_bus set_bus].
    transitivity (programmed (programmed (mem (the_bus s)) a d) (a + Z.of_nat (length d))
      (take (Z.to_nat (n - w)) (drop (Z.to_nat w) data)) x).
    + rewrite Hld. apply programmed_ext. intros y. rewrite Hm3, Hm2. by apply programmed_ext.
    + rewrite programmed_app. f_equal. unfold d. rewrite take_take_drop. f_equal. lia.
Qed.

(** ** The lock *)
Definition locked (s : sfud) : sfud := if spi_locks (flash s) then set_held (spi_held s + 1) s else s.

Lemma lock_run s : lock s = Ok tt (locked s).
Proof. unfold lock, locked. frun. by destruct (spi_locks (flash s)). Qed.

Lemma flash_locked s : flash (locked s) = flash s ∧ the_bus (locked s) = the_bus s.
Proof. unfold locked. by destruct (spi_locks (flash s)). Qed.

Lemma unlock_run s b : unlock (set_bus b (locked s)) = Ok tt (set_bus b s).
Proof.
  unfold unlock, locked. frun. destruct s as [f h b0]. simpl.
  destruct (spi_locks f) eqn:E; simpl; rewrite E; [|done]. unfold modify, set_held. simpl.
  by replace (h + 1 - 1) with h by lia.
Qed.

Lemma good_locked s : good s → good (locked s).
Proof. intros []. destruct (flash_locked s) as [Ef Eb]. split; by rewrite ?Ef, ?Eb. Qed.

(** The flash is known and waits for a command. *)
Record ready (s : sfud) : Prop := { r_good : good s; r_idle : busy (the_bus s) = 0%nat }.

Lemma ready_bus s b : good s → wide b = wide (the_bus s) → busy b = 0%nat → ready (set_bus b s).
Proof. intros Hg Hw Hb. split; [by apply good_bus|done]. Qed.
Lemma ready_locked s : ready s → ready (locked s).
Proof. intros [Hg Hb]. split; [by apply good_locked|]. by destruct (flash_locked s) as [_ ->]. Qed.

Lemma exit_write_run r s b : busy b = 0%nat →
  ∃ b', exit_write r (set_bus b (locked s)) = Ok r (set_bus b' s) ∧ same b b' ∧ busy b' = 0%nat.
Proof.
  intros Hb. destruct (set_write_enabled_run false (set_bus b (locked s)) Hb) as (b' & E & Hs & _ & Hb').
  exists b'. split; [|done]. unfold exit_write. rewrite (bind_ok _ _ _ _ _ E).
  by rewrite (bind_ok _ _ _ _ _ (unlock_run s b')).
Qed.

Lemma in_bound s a n : good s → 0 ≤ a → 0 ≤ n → a + n ≤ cap → out_of_bound a n s = Ok false s.
Proof.
  intros Hg Ha Hn Hc. destruct geometry_ok as (_ & Hcap & _). unfold out_of_bound. frun.
  rewrite (g_cap _ Hg). unfold u32. rewrite wrap_small by lia. by rewrite (proj2 (Z.ltb_ge _ _)) by lia.
Qed.

(** ** Operations that succeed *)
Lemma page_write_run s a n g data : g = 1 ∨ g = 256 → ready s → 0 ≤ a → 0 ≤ n → a + n ≤ cap →
  n ≤ Z.of_nat (length data) →
  ∃ b', page256_or_1_byte_write a n g data s = Ok SFUD_SUCCESS (set_bus b' s) ∧
    (∀ x, mem b' x = programmed (mem (the_bus s)) a (take (Z.to_nat n) data) x) ∧
    wide b' = wide (the_bus s) ∧ busy b' = 0%nat.
Proof.
  intros Hgr Hr Ha Hn Hc Hd. destruct (flash_locked s) as [_ Eb].
  destruct (ready_locked s Hr) as [Hg Hb]. pose proof (blocks_bound g a n ltac:(lia) Hn) as Hbl.
  pose proof (Z.div_pos n g Hn ltac:(lia)).
  destruct (write_loop_run g Hgr (Z.to_nat (n / g) + 3) a n data (locked s)) as (b1 & E1 & Hm1 & Hw1 & Hb1);
    [done|done|done|done|done|done|lia|]. rewrite Eb in *.
  destruct (exit_write_run SFUD_SUCCESS s b1 Hb1) as (b2 & E2 & [Hm2 Hw2] & Hb2).
  exists b2. split_and!; [|intros x; by rewrite Hm2|congruence|done].
  unfold page256_or_1_byte_write. rewrite (bind_ok _ _ _ _ _ (in_bound s a n (r_good _ Hr) Ha Hn Hc)).
  rewrite (bind_ok _ _ _ _ _ (lock_run s)). by rewrite (bind_ok _ _ _ _ _ E1).
Qed.

Lemma flash_read_run s a n : ready s → 0 ≤ a → 0 ≤ n → a + n ≤ cap →
  ∃ b', sfud_read a n s = Ok (SFUD_SUCCESS, Some (mem (the_bus s) <$> seqZ a n)) (set_bus b' s) ∧
    same (the_bus s) b' ∧ busy b' = 0%nat.
Proof.
  intros Hr Ha Hn Hc. destruct (flash_locked s) as [Ef Eb]. destruct (ready_locked s Hr) as [Hg Hb].
  destruct (wait_busy_run (locked s) Hg ltac:(lia)) as (b1 & E1 & Hs1 & _ & Hb1).
  destruct (read_ok b1 a n Hb1 Ha Hn Hc) as (b2 & E2 & Hs2 & _ & Hb2). rewrite Eb in *.
  exists b2. split_and!; [|by eapply same_chip_trans|done].
  unfold sfud_read. rewrite (bind_ok _ _ _ _ _ (in_bound s a n (r_good _ Hr) Ha Hn Hc)).
  rewrite (bind_ok _ _ _ _ _ (lock_run s)), (bind_ok _ _ _ _ _ E1). frun.
  unfold make_adress_byte_array, spi_wr. frun. cbn [flash the_bus set_bus].
  rewrite (g_wide _ Hg), Eb, <- (proj2 Hs1), E2. frun.
  rewrite (bind_ok _ _ _ _ _ (unlock_run s b2)). unfold ret. do 3 f_equal.
  apply list_fmap_ext. intros i x _. apply Hs1.
Qed.

(** ** Erasing *)
Lemma erased_same_block g m a b x : a / g = b / g → erased g m a a x = erased g m a b x.
Proof. intros E. unfold erased. by rewrite <- E. Qed.

Lemma erase_loop_run fuel : ∀ a n r s,
  good s → busy (the_bus s) = 0%nat → 0 ≤ a → 0 < n → a + n ≤ cap → blocks gran a n ≤ Z.of_nat fuel →
  ∃ b', erase_loop fuel a n r s = Ok SFUD_SUCCESS (set_bus b' s) ∧
    (∀ x, mem b' x = erased gran (mem (the_bus s)) a (a + n - 1) x) ∧
    wide b' = wide (the_bus s) ∧ busy b' = 0%nat.
Proof.
  destruct geometry_ok as (Hgr & Hcap & _). assert (gran ≠ 0) as Hgz by lia.
  induction fuel as [|fuel IH]; intros a n r s Hg Hb Ha Hn Hc Hf.
  { unfold blocks in Hf. rewrite (proj2 (Z.leb_gt _ _)) in Hf by lia.
    pose proof (Z.div_le_mono a (a + n - 1) _ Hgr ltac:(lia)). lia. }
  cbn [erase_loop]. rewrite (proj2 (Z.eqb_neq n 0)) by lia.
  pose proof (Z.mod_pos_bound a _ Hgr) as Hmod.
  destruct (set_write_enabled_run true s Hb) as (b1 & E1 & [Hm1 Hw1] & Hl1 & Hb1).
  destruct (erase_ok b1 a) as (l & b2 & E2 & Hm2 & Hw2 & Hb2); [done|done|lia|].
  destruct (wait_busy_run (set_bus b2 s)) as (b3 & E3 & [Hm3 Hw3] & _ & Hb3);
    [by apply good_bus; [done|congruence]|done|]. simpl in Hm3, Hw3.
  assert (∀ x, mem b3 x = erased gran (mem (the_bus s)) a a x) as Hm.
  { intros x. rewrite Hm3, Hm2. by apply erased_ext. }
  assert (command (erase_gran_cmd (chip (flash (set_bus b1 s))) ::
    address_bytes (addr_in_4_byte (flash (set_bus b1 s))) a) (set_bus b1 s) =
    Ok SFUD_SUCCESS (set_bus b2 s)) as Ec.
  { eapply (command_run _ l b2 (set_bus b1 s)). simpl. rewrite (g_cmd _ Hg), (g_wide _ Hg), <- Hw1. exact E2. }
  frun. rewrite (bind_ok _ _ _ _ _ E1). frun. unfold make_adress_byte_array. frun.
  rewrite (bind_ok _ _ _ _ _ Ec). frun. rewrite (bind_ok _ _ _ _ _ E3). frun.
  rewrite (g_gran _ Hg), (proj2 (Z.eqb_neq gran 0)), room_eq by lia.
  set (w := gran - a mod gran) in *. destruct (Z.ltb_spec w n).
  - pose proof (blocks_step gran a n Hgr ltac:(lia) ltac:(lia)) as Hbl. fold w in Hbl.
    destruct (IH (a + w) (n - w) SFUD_SUCCESS (set_bus b3 s)) as (b4 & E4 & Hm4 & Hw4 & Hb4);
      [by apply good_bus; [done|congruence]|done|lia|lia|lia|lia|].
    exists b4. split_and!; [|intros x|simpl in Hw4; congruence|done].
    + unfold u32. rewrite wrap_small by lia. exact E4.
    + rewrite Hm4. cbn [the_bus set_bus]. rewrite <- (erased_join gran _ a (a + w - 1)) by
        (try lia; replace (a + w - 1 + 1) with (a + w) by lia; unfold w; rewrite room_end by done; by rewrite Z.mod_mul by lia).
      replace (a + w - 1 + 1) with (a + w) by lia. replace (a + w + (n - w) - 1) with (a + n - 1) by lia.
      apply erased_ext. intros y. rewrite Hm. apply erased_same_block.
      pose proof (Z.div_mod a _ Hgz).
      replace (a + w - 1) with (a / gran * gran + (gran - 1)) by (unfold w; lia).
      by rewrite Z.div_add_l, (Z.div_small (gran - 1)), Z.add_0_r by lia.
  - exists b3. split_and!; [done|intros x|congruence|done]. rewrite Hm. apply erased_same_block.
    pose proof (Z.div_mod a _ Hgz).
    replace (a + n - 1) with (a / gran * gran + (a mod gran + n - 1)) by lia.
    by rewrite Z.div_add_l, (Z.div_small (a mod gran + n - 1)), Z.add_0_r by (unfold w in *; lia).
Qed.

Lemma chip_erase_run s : ready s → Z.land (write_mode (chip (flash s))) SFUD_WM_DUAL_BUFFER = 0 →
  ∃ b', sfud_chip_erase s = Ok SFUD_SUCCESS (set_bus b' s) ∧
    (∀ x, mem b' x = erased gran (mem (the_bus s)) 0 (cap - 1) x) ∧
    wide b' = wide (the_bus s) ∧ busy b' = 0%nat.
Proof.
  intros Hr Hwm. destruct (flash_locked s) as [Ef Eb]. destruct (ready_locked s Hr) as [Hg Hb].
  destruct (set_write_enabled_run true (locked s) Hb) as (b1 & E1 & [Hm1 Hw1] & Hl1 & Hb1).
  destruct (chip_erase_ok b1 Hb1 Hl1) as (l & b2 & E2 & Hm2 & Hw2 & Hb2).
  destruct (wait_busy_run (set_bus b2 (locked s))) as (b3 & E3 & [Hm3 Hw3] & _ & Hb3);
    [by apply good_bus; [done|congruence]|done|]. simpl in Hm3, Hw3. rewrite Eb in *.
  destruct (exit_write_run SFUD_SUCCESS s b3 Hb3) as (b4 & E4 & [Hm4 Hw4] & Hb4).
  exists b4. split_and!; [|intros x|congruence|done].
  - unfold sfud_chip_erase. rewrite (bind_ok _ _ _ _ _ (lock_run s)), (bind_ok _ _ _ _ _ E1). frun.
    cbn [flash set_bus]. rewrite Ef, Hwm. change (negb (0 =? 0)) with false. cbn iota.
    rewrite (bind_ok _ _ _ _ _ (command_run _ l b2 (set_bus b1 (locked s)) E2)). frun.
    by rewrite (bind_ok _ _ _ _ _ E3).
  - rewrite Hm4, Hm3, Hm2. by apply erased_ext.
Qed.

(** A chip with two buffers is not erased as a whole by the command of the
    others. *)
Lemma erase_run s a n : ready s → Z.land (write_mode (chip (flash s))) SFUD_WM_DUAL_BUFFER = 0 →
  0 ≤ a → 0 < n → a + n ≤ cap →
  ∃ b', sfud_erase a n s = Ok SFUD_SUCCESS (set_bus b' s) ∧
    (∀ x, mem b' x = erased gran (mem (the_bus s)) a (a + n - 1) x) ∧
    wide b' = wide (the_bus s) ∧ busy b' = 0%nat.
Proof.
  intros Hr Hwm Ha Hn Hc. unfold sfud_erase.
  rewrite (bind_ok _ _ _ _ _ (in_bound s a n (r_good _ Hr) Ha ltac:(lia) Hc)). frun.
  rewrite (g_cap _ (r_good _ Hr)). destruct (Z.eqb_spec a 0) as [->|], (Z.eqb_spec n cap) as [->|]; cbn [andb].
  { destruct (chip_erase_run s Hr Hwm) as (b' & ? & ? & ? & ?). by exists b'. }
  all: destruct geometry_ok as (Hgr & Hcap & _); destruct (flash_locked s) as [Ef Eb];
    destruct (ready_locked s Hr) as [Hg Hb].
  all: match goal with |- context [erase_loop _ ?a ?n _] =>
    pose proof (blocks_bound gran a n Hgr ltac:(lia));
    pose proof (Z.div_pos n _ ltac:(lia) Hgr);
    destruct (erase_loop_run (Z.to_nat (n / gran) + 3) a n SFUD_SUCCESS (locked s)) as (b1 & E1 & Hm1 & Hw1 & Hb1);
      [done|done|lia|lia|lia|lia|] end; rewrite Eb in *;
    destruct (exit_write_run SFUD_SUCCESS s b1 Hb1) as (b2 & E2 & [Hm2 Hw2] & Hb2);
    (exists b2; split_and!; [|intros x; by rewrite Hm2|congruence|done]);
    rewrite (bind_ok _ _ _ _ _ (lock_run s)), (g_gran _ (r_good _ Hr)); by rewrite (bind_ok _ _ _ _ _ E1).
Qed.
End driver.
