(* ===== verification/SfudBlock.v ===== *)
(** * The flash memory as a block device

    A simulated flash memory shows that the promises of [SfudSpec] can be kept.
    The block device on top of the driver is an array of sectors. *)

From S2P Require Import Prelude DfsPath Sfud SfudSpec.
From Stdlib Require Import String.
Open Scope Z_scope.

(** ** A simulated flash memory

    A W25Q40BV: 512 KiB in blocks of 4 KiB.  After a command that changes it,
    the flash is busy for two polls. *)
Record nor : Type := mk_nor { cells : Z → Z; latch : bool; rest : nat }.

Definition nor_address (h m l : Z) : Z := h * 65536 + m * 256 + l.
Definition nor_status (b : nor) : Z :=
  (if (rest b =? 0)%nat then 0 else 1) + (if latch b then 2 else 0).
Definition nor_done (c : Z → Z) : nor := mk_nor c false 2.

(** A command to the flash while it is not busy. *)
Definition nor_command (w : list Z) (n : Z) (b : nor) : (Z * list Z) * nor :=
  match w with
  | c :: args =>
    if c =? SFUD_CMD_WRITE_ENABLE then ((SFUD_SUCCESS, []), mk_nor (cells b) true (rest b))
    else if c =? SFUD_CMD_WRITE_DISABLE then ((SFUD_SUCCESS, []), mk_nor (cells b) false (rest b))
    else if c =? SFUD_CMD_JEDEC_ID then ((SFUD_SUCCESS, [0xEF; 0x40; 0x13]), b)
    else if (c =? SFUD_CMD_ERASE_CHIP) && latch b then
      ((SFUD_SUCCESS, []), nor_done (erased 4096 (cells b) 0 (512 * 1024 - 1)))
    else
      match args with
      | h :: m :: l :: d =>
        let a := nor_address h m l in
        if c =? SFUD_CMD_READ_DATA then ((SFUD_SUCCESS, cells b <$> seqZ a n), b)
        else if (c =? 0x20) && latch b then ((SFUD_SUCCESS, []), nor_done (erased 4096 (cells b) a a))
        else if (c =? SFUD_CMD_PAGE_PROGRAM) && latch b then
          ((SFUD_SUCCESS, []), nor_done (programmed (cells b) a d))
        else ((SFUD_SUCCESS, []), b)
      | _ => ((SFUD_SUCCESS, []), b)
      end
  | [] => ((SFUD_SUCCESS, []), b)
  end.

Definition nor_wr (w : list Z) (n : Z) (b : nor) : (Z * list Z) * nor :=
  if bool_decide (w = [SFUD_CMD_READ_STATUS_REGISTER]) then
    ((SFUD_SUCCESS, [nor_status b]), mk_nor (cells b) (latch b) (pred (rest b)))
  else if (rest b =? 0)%nat then nor_command w n b
  else ((SFUD_SUCCESS, []), b).

#[export] Instance nor_port : FlashPort := {| bus := nor; wr := nor_wr; delay b := b |}.
#[export] Instance nor_flash : NorFlash := {|
  cap := 512 * 1024; gran := 4096; gran_cmd := 0x20; polls := 2;
  mem := cells; wel := latch; busy := rest; wide _ := false |}.

Lemma address_back a : 0 ≤ a < 2 ^ 24 →
  nor_address (Z.land (Z.shiftr a 16) 0xFF) (Z.land (Z.shiftr a 8) 0xFF) (Z.land (Z.shiftr a 0) 0xFF) = a.
Proof.
  intros Ha. unfold nor_address. change 0xFF with (Z.ones 8). rewrite !Z.land_ones, !Z.shiftr_div_pow2 by lia.
  change (2 ^ 0) with 1. rewrite Z.div_1_r. change (2 ^ 16) with 65536. change (2 ^ 8) with 256.
  pose proof (Z.div_mod a 256 ltac:(lia)). pose proof (Z.div_mod (a / 256) 256 ltac:(lia)).
  rewrite Z.div_div in * by lia. change (256 * 256) with 65536 in *.
  rewrite (Z.mod_small (a / 65536)); [lia|]. split; [apply Z.div_pos; lia|].
  apply Z.div_lt_upper_bound; lia.
Qed.

Lemma nor_wr_idle w n b : rest b = 0%nat → w ≠ [SFUD_CMD_READ_STATUS_REGISTER] → nor_wr w n b = nor_command w n b.
Proof. intros Hr Hw. unfold nor_wr. by rewrite bool_decide_eq_false_2, Hr by done. Qed.

#[export] Instance nor_ok : NorFlashOk.
Proof.
  split.
  - split; [done|]. split; [done|]. by exists 128.
  - intros b. exists (nor_status b). eexists. split; [reflexivity|]. split; [done|]. split; [done|].
    split; [done|]. unfold nor_status. simpl. split; [by destruct (rest b), (latch b)|].
    intros ->. by destruct (latch b).
  - intros b. split; [done|]. split; [done|]. simpl. lia.
  - intros b e Hb. do 2 eexists. simpl. split.
    + rewrite nor_wr_idle by (done || by destruct e). by destruct e.
    + by destruct e.
  - intros b a d Hb Hw Hd Ha Hc Hp. do 2 eexists. simpl in *. split.
    + rewrite nor_wr_idle by done. unfold nor_command. simpl. rewrite Hw. reflexivity.
    + simpl. rewrite address_back by (destruct d; simpl in *; lia). split; [done|]. split; [done|lia].
  - intros b a Hb Hw Ha. do 2 eexists. simpl in *. split.
    + rewrite nor_wr_idle by done. unfold nor_command. simpl. rewrite Hw. reflexivity.
    + simpl. rewrite address_back by lia. split; [done|]. split; [done|lia].
  - intros b Hb Hw. do 2 eexists. simpl in *. split.
    + rewrite nor_wr_idle by done. unfold nor_command. simpl. rewrite Hw. reflexivity.
    + split; [done|]. split; [done|simpl; lia].
  - intros b a n Hb Ha Hn Hc. eexists. simpl in *. split.
    + rewrite nor_wr_idle by done. unfold nor_command. simpl. rewrite address_back by lia. reflexivity.
    + done.
Qed.

(** The flash is found: from an empty description, the initialisation fills in
    what the driver has to know. *)
Definition nor_blank : sfud :=
  mk_sfud (mk_flash (mk_chip [] 0 0 0 0 0 0 0) false false 0 false false) 0 (mk_nor (λ _, 0) false 0).
Definition nor_known : sfud_flash :=
  mk_flash (mk_chip (chars "W25Q40BV") 0xEF 0x40 0x13 (512 * 1024) SFUD_WM_PAGE_256B 4096 0x20)
    true false 600000 true true.

Example nor_found :
  wp sfud_device_init (λ r s, r = SFUD_SUCCESS ∧ flash s = nor_known ∧ spi_held s = 0) nor_blank.
Proof. vm_compute. done. Qed.

Definition nor_state : sfud := mk_sfud nor_known 0 (mk_nor (λ _, 0) false 0).
Lemma nor_ready : ready nor_state.
Proof. split; [split|]; try reflexivity. apply Nat.leb_le. vm_compute. reflexivity. Qed.

(** ** The block device *)
Definition is_byte (x : Z) : Prop := 0 ≤ x < 256.

Section block_device.
Context `{NorFlashOk}.

Lemma erase_write_run s a n data : ready s → write_mode (chip (flash s)) = SFUD_WM_PAGE_256B →
  0 ≤ a → 0 < n → a + n ≤ cap → n = Z.of_nat (List.length data) →
  ∃ b', sfud_erase_write a n data s = Ok SFUD_SUCCESS (set_bus b' s) ∧
    (∀ x, mem b' x = programmed (erased gran (mem (the_bus s)) a (a + n - 1)) a data x) ∧
    ready (set_bus b' s).
Proof.
  intros Hr Hwm Ha Hn Hc Hd.
  destruct (erase_run s a n Hr) as (b1 & E1 & Hm1 & Hw1 & Hb1); [by rewrite Hwm|done..|].
  pose proof (ready_bus s b1 (r_good _ Hr) Hw1 Hb1) as Hr1.
  destruct (page_write_run (set_bus b1 s) a n 256 data) as (b2 & E2 & Hm2 & Hw2 & Hb2);
    [by right|done|done|lia|done|lia|].
  exists b2. split_and!.
  - unfold sfud_erase_write. rewrite (bind_ok _ _ _ _ _ E1). frun. unfold sfud_write. frun. cbn [flash set_bus].
    rewrite Hwm. exact E2.
  - intros x. rewrite Hm2. rewrite take_ge by lia. by apply programmed_ext.
  - apply ready_bus; [apply Hr| |done]. simpl in Hw2. congruence.
Qed.

(** What is programmed into erased cells. *)
Lemma programmed_erased m a d x : Forall is_byte d → a ≤ x < a + Z.of_nat (List.length d) → m x = 0xFF →
  programmed m a d x = d !!! Z.to_nat (x - a).
Proof.
  intros Hd Hx Hm. unfold programmed. rewrite (proj2 (Z.leb_le _ _)), (proj2 (Z.ltb_lt _ _)) by lia. simpl.
  rewrite Hm, Z.land_comm. change 0xFF with (Z.ones 8). rewrite Z.land_ones by lia. apply Z.mod_small.
  rewrite Forall_forall in Hd. apply Hd. apply list_elem_of_lookup_total_2. lia.
Qed.

(** The range of whole sectors is what is erased. *)
Lemma erased_sectors g m pos size x : 0 < g → 0 < size →
  erased g m (pos * g) (pos * g + size * g - 1) x =
    if (pos * g <=? x) && (x <? (pos + size) * g) then 0xFF else m x.
Proof.
  intros Hg Hs. unfold erased. rewrite Z.div_mul by lia.
  replace (pos * g + size * g - 1) with ((pos + size - 1) * g + (g - 1)) by lia.
  rewrite Z.div_add_l, (Z.div_small (g - 1)) by lia.
  pose proof (Z.div_mod x g ltac:(lia)). pose proof (Z.mod_pos_bound x g Hg).
  destruct (Z.leb_spec pos (x / g)), (Z.leb_spec (x / g) (pos + size - 1 + 0)),
    (Z.leb_spec (pos * g) x), (Z.ltb_spec x ((pos + size) * g)); cbn [andb]; try done; nia.
Qed.

Lemma read_data m a (d : list Z) : (∀ x, a ≤ x < a + Z.of_nat (List.length d) → m x = d !!! Z.to_nat (x - a)) →
  m <$> seqZ a (Z.of_nat (List.length d)) = d.
Proof.
  intros Hm. apply list_eq. intros i. rewrite list_lookup_fmap.
  destruct (decide (i < List.length d)%nat) as [Hi|Hi].
  - rewrite (lookup_seqZ_lt a) by lia. simpl. rewrite Hm by lia.
    replace (Z.to_nat (a + Z.of_nat i - a)) with i by lia. symmetry. by apply list_lookup_lookup_total_lt.
  - rewrite (lookup_seqZ_ge a) by lia. simpl. symmetry. apply lookup_ge_None. lia.
Qed.

(** The block device is an array of sectors.  Writing whole sectors succeeds,
    changes these sectors and no other byte of the flash, and reading them
    afterwards gives the bytes that were written; the flash is ready for the
    next command after each call. *)
Lemma block_device_run (s : sfud) (pos size : Z) (data : list Z) :
  ready s → write_mode (chip (flash s)) = SFUD_WM_PAGE_256B →
  0 ≤ pos → 0 < size → (pos + size) * gran ≤ cap →
  Z.of_nat (List.length data) = size * gran → Forall is_byte data →
  let g := geometry_of (chip (flash s)) in
  ∃ b', rt_sfud_write g pos data size s = Ok size (set_bus b' s) ∧ ready (set_bus b' s) ∧
    (∀ x, ¬ (pos * gran ≤ x < (pos + size) * gran) → mem b' x = mem (the_bus s) x) ∧
    ∃ b'', rt_sfud_read g pos size (set_bus b' s) = Ok (size, Some data) (set_bus b'' s) ∧
      ready (set_bus b'' s) ∧ ∀ x, mem b'' x = mem b' x.
Proof.
  intros Hr Hwm Hp Hs Hc Hl Hd g. destruct geometry_ok as (Hgr & Hcap & _).
  assert (bytes_per_sector g = gran) as Eg by exact (g_gran _ (r_good _ Hr)).
  assert (0 ≤ pos * gran ∧ 0 < size * gran ∧ pos * gran + size * gran ≤ cap) as (Hpg & Hsg & Hps) by nia.
  destruct (erase_write_run s (pos * gran) (size * gran) data) as (b1 & E1 & Hm1 & Hr1); [done..|].
  destruct (flash_read_run (set_bus b1 s) (pos * gran) (size * gran)) as (b2 & E2 & [Hm2 Hw2] & Hb2); [done|lia..|].
  exists b1. split; [|split; [done|split]].
  - unfold rt_sfud_write. rewrite Eg. unfold u32. rewrite !wrap_small by lia.
    by rewrite (bind_ok _ _ _ _ _ E1).
  - intros x Hx. rewrite Hm1. unfold programmed. rewrite Hl.
    assert ((pos * gran <=? x) && (x <? pos * gran + size * gran) = false) as ->.
    { destruct (Z.leb_spec (pos * gran) x), (Z.ltb_spec x (pos * gran + size * gran)); simpl; try done; lia. }
    rewrite erased_sectors by done.
    destruct (Z.leb_spec (pos * gran) x), (Z.ltb_spec x ((pos + size) * gran)); simpl; try done; lia.
  - exists b2. split; [|split; [by apply (ready_bus (set_bus b1 s)); [apply Hr1|..]|exact Hm2]].
    unfold rt_sfud_read. rewrite Eg. unfold u32. rewrite !wrap_small by lia. rewrite (bind_ok _ _ _ _ _ E2).
    frun. unfold ret. do 3 f_equal. rewrite <- Hl. apply read_data. intros x Hx. cbn [the_bus set_bus].
    rewrite Hm1. apply programmed_erased; [done|done|]. rewrite erased_sectors by done.
    destruct (Z.leb_spec (pos * gran) x), (Z.ltb_spec x ((pos + size) * gran)); simpl; try done; lia.
Qed.
End block_device.
