(* ===== verification/SfudErrors.v ===== *)
(** * The flash driver when the bus fails

    Transfers may fail, the flash may stay busy or refuse to be written: the
    calls return all the same, give the lock back and leave what is known of
    the flash alone.  The examples show what the code does at the edges. *)

From S2P Require Import Prelude DfsPath Sfud SfudSpec SfudBlock.

Create HintDb returns.

(** ** Runs that return

    [moves d P m]: with a description of the flash that [fits], the run [m]
    returns a result that satisfies [P], takes the lock [d] times more than it
    gives it back, and leaves the description alone.  [returns]: it takes it as
    often as it gives it back. *)
Section returns.
Context `{FlashPort} (fits : sfud_flash → Prop).

Definition moved (d : Z) (s s' : sfud) : Prop :=
  spi_held s' = spi_held s + (if spi_locks (flash s) then d else 0) ∧ flash s' = flash s.
Definition moves {A} (d : Z) (P : A → Prop) (m : SF A) : Prop :=
  ∀ s, fits (flash s) → wp m (λ a s', P a ∧ moved d s s') s.
Definition returns {A} (m : SF A) : Prop := moves 0 (λ _, True) m.
Definition returns_with {A} (P : A → Prop) (m : SF A) : Prop := moves 0 P m.

Lemma moves_bind {A B} d1 d2 (P : A → Prop) (Q : B → Prop) (m : SF A) (k : A → SF B) :
  moves d1 P m → (∀ a, P a → moves d2 Q (k a)) → moves (d1 + d2) Q (bind m k).
Proof.
  intros Hm Hk s Hs. apply wp_bind. eapply wp_mono; [apply (Hm s Hs)|]. intros a s1 [Ha [H1 H2]].
  eapply wp_mono; [apply (Hk a Ha s1); by rewrite H2|]. intros b s2 [Hb [H3 H4]].
  split; [done|]. split; [|congruence]. rewrite H3, H1, H2. destruct (spi_locks (flash s)); lia.
Qed.
Lemma with_bind {A B} (P : A → Prop) (Q : B → Prop) (m : SF A) (k : A → SF B) :
  returns_with P m → (∀ a, P a → returns_with Q (k a)) → returns_with Q (bind m k).
Proof. apply (moves_bind 0 0). Qed.
Lemma then_bind {A B} (Q : B → Prop) (m : SF A) (k : A → SF B) :
  returns m → (∀ a, returns_with Q (k a)) → returns_with Q (bind m k).
Proof. intros Hm Hk. apply (with_bind (λ _, True)); [done|]. intros a _. apply Hk. Qed.
Lemma with_ret {A} (P : A → Prop) (a : A) : P a → returns_with P (ret a).
Proof. intros Ha s _. split; [done|]. split; [|done]. destruct (spi_locks (flash s)); lia. Qed.
Lemma returns_bind_with {A B} (P : A → Prop) (m : SF A) (k : A → SF B) :
  returns_with P m → (∀ a, P a → returns (k a)) → returns (bind m k).
Proof. apply with_bind. Qed.
Lemma returns_bind {A B} (m : SF A) (k : A → SF B) :
  returns m → (∀ a, returns (k a)) → returns (bind m k).
Proof. intros Hm Hk. apply (with_bind (λ _, True)); [done|]. intros a _. apply Hk. Qed.
Lemma returns_ret {A} (a : A) : returns (ret a).
Proof. by apply with_ret. Qed.
Lemma moves_flash {A} d (P : A → Prop) (k : sfud_flash → SF A) :
  (∀ f, fits f → moves d P (k f)) → moves d P (let! f := read flash in k f).
Proof. intros Hk s Hs. by apply Hk. Qed.
Lemma returns_flash {A} (k : sfud_flash → SF A) :
  (∀ f, fits f → returns (k f)) → returns (let! f := read flash in k f).
Proof. apply moves_flash. Qed.
Lemma returns_if {A} (b : bool) (m1 m2 : SF A) : returns m1 → returns m2 → returns (if b then m1 else m2).
Proof. by destruct b. Qed.
Lemma returns_same {A} (f : sfud → sfud) (k : SF A) :
  (∀ s, spi_held (f s) = spi_held s ∧ flash (f s) = flash s) → returns k → returns (modify f ;;; k).
Proof.
  intros Hf Hk. apply returns_bind; [|done]. intros s Hs. destruct (Hf s) as [H1 H2]. split; [done|].
  split; [rewrite H1; destruct (spi_locks (flash s)); lia|done].
Qed.

(** Between [lock] and [unlock]. *)
Lemma lock_moves : moves 1 (λ _, True) lock.
Proof.
  intros s _. unfold lock. rewrite wp_bind, wp_gets.
  destruct (spi_locks (flash s)) eqn:E; (split; [done|]); split; simpl; rewrite ?E; (lia || done).
Qed.
Lemma unlock_moves {A} (r : A) : moves (-1) (λ _, True) (unlock ;;; ret r).
Proof.
  intros s _. unfold unlock. rewrite wp_bind, wp_bind, wp_gets.
  destruct (spi_locks (flash s)) eqn:E; (split; [done|]); split; simpl; rewrite ?E; (lia || done).
Qed.
Lemma returns_locked {A B} (m : SF A) (k : A → SF B) :
  returns m → (∀ a, moves (-1) (λ _, True) (k a)) → returns (lock ;;; let! r := m in k r).
Proof.
  intros Hm Hk. apply (moves_bind 1 (-1) (λ _, True)); [apply lock_moves|]. intros _ _.
  apply (moves_bind 0 (-1) (λ _, True)); [done|]. intros a _. apply Hk.
Qed.
Lemma moves_after {A B} (m : SF A) (k : A → SF B) :
  returns m → (∀ a, moves (-1) (λ _, True) (k a)) → moves (-1) (λ _, True) (bind m k).
Proof. intros Hm Hk. apply (moves_bind 0 (-1) (λ _, True)); [done|]. intros a _. apply Hk. Qed.
End returns.
#[export] Hint Resolve returns_ret returns_if returns_bind : returns.

(** The bus: a transfer that succeeds receives as many bytes as were asked for. *)
Class Answers `{FlashPort} : Prop := {
  answers : ∀ w n b, 0 ≤ n → (wr w n b).1.1 = SFUD_SUCCESS → Z.of_nat (length (wr w n b).1.2) = n
}.

(** ** Single commands *)
Section any_bus.
Context `{Answers} (fits : sfud_flash → Prop).
Abbreviation returns := (returns fits).
Abbreviation returns_with := (returns_with fits).

Lemma spi_wr_returns w n :
  0 ≤ n → returns_with (λ r, r.1 = SFUD_SUCCESS → Z.of_nat (length r.2) = n) (spi_wr w n).
Proof.
  intros Hn s _. unfold spi_wr. rewrite wp_bind, wp_gets, wp_bind, wp_modify, wp_ret. split; [by apply answers|].
  split; [|done]. simpl. destruct (spi_locks (flash s)); lia.
Qed.

Lemma command_returns w : returns (command w).
Proof. eapply returns_bind_with; [by apply spi_wr_returns|]. auto with returns. Qed.

Lemma read_status_returns : returns_with (λ r, r.1 = SFUD_SUCCESS → is_Some r.2) sfud_read_status.
Proof.
  intros s Hs. unfold sfud_read_status. rewrite wp_bind. eapply wp_mono; [by apply spi_wr_returns|].
  intros [r l] s' [Hl Hk]. rewrite wp_ret. split; [|done]. simpl in *. intros ->. specialize (Hl eq_refl).
  simpl. destruct l; [done|by eexists].
Qed.

Lemma status_use {A} (r : Z * option Z) (k : Z → SF A) (e : SF A) :
  (r.1 = SFUD_SUCCESS → is_Some r.2) → (∀ st, returns (k st)) → returns e →
  returns (if r.1 =? SFUD_SUCCESS then let! st := from_option Undefined r.2 in k st else e).
Proof.
  intros Hr Hk He. destruct (Z.eqb_spec r.1 SFUD_SUCCESS) as [E|]; [|done].
  destruct (Hr E) as [st ->]. intros s. apply (Hk st s).
Qed.

Lemma wait_loop_returns n : returns (wait_loop n).
Proof.
  induction n as [|n IH]; cbn [wait_loop];
    (eapply returns_bind_with; [apply read_status_returns|]); intros r Hr;
    (apply returns_bind; [apply status_use; auto with returns|]); intros ready;
    (apply returns_if; [auto with returns|]); [auto with returns|].
  apply returns_flash. intros f _. destruct (retry_delay f); [by apply returns_same|exact IH].
Qed.
Lemma wait_busy_returns : returns wait_busy.
Proof. apply returns_flash. intros f _. apply wait_loop_returns. Qed.

Lemma set_write_enabled_returns e : returns (set_write_enabled e).
Proof.
  unfold set_write_enabled. apply returns_bind; [apply command_returns|]. intros r.
  apply returns_if; [|apply returns_ret]. eapply returns_bind_with; [apply read_status_returns|]. intros st Hst.
  apply status_use; auto with returns.
Qed.
Lemma address_returns a : returns (make_adress_byte_array a).
Proof. apply returns_flash. auto with returns. Qed.
Lemma out_of_bound_returns a n : returns (out_of_bound a n).
Proof. apply returns_flash. auto with returns. Qed.
Lemma bytes_of_returns d n : n ≤ Z.of_nat (length d) → returns (bytes_of d n).
Proof. intros Hn. unfold bytes_of. rewrite (proj2 (Z.leb_le _ _)) by done. apply returns_ret. Qed.

(** A run that ends by disabling the write, and gives the lock back. *)
Lemma returns_exit (m : SF Z) : returns m → returns (lock ;;; let! r := m in exit_write r).
Proof.
  intros Hm. apply returns_locked; [done|]. intros r. apply moves_after; [apply set_write_enabled_returns|].
  intros _. apply unlock_moves.
Qed.
End any_bus.
#[export] Hint Resolve command_returns wait_busy_returns set_write_enabled_returns address_returns
  out_of_bound_returns : returns.

(** ** The loops *)

(** An address that wraps around lies in its block where it did before. *)
Lemma blocks_wrap g a n : 0 < g → (g | 2 ^ 32) → blocks g (u32 a) n = blocks g a n.
Proof.
  intros Hg [k Hk]. unfold blocks, u32, wrap. case_match; [done|].
  pose proof (Z.div_mod a (2 ^ 32) ltac:(lia)) as Ea. rewrite Hk in *.
  replace (a + n - 1) with (a / (k * g) * k * g + (a mod (k * g) + n - 1)) by lia.
  rewrite Z.div_add_l by lia. replace (a / g) with (a / (k * g) * k + a mod (k * g) / g); [lia|].
  rewrite <- Z.div_add_l by lia. f_equal. lia.
Qed.

Lemma blocks_pos g a n : 0 < g → 0 < n → 1 ≤ blocks g a n.
Proof.
  intros Hg Hn. unfold blocks. rewrite (proj2 (Z.leb_gt _ _)) by lia.
  pose proof (Z.div_le_mono a (a + n - 1) g ltac:(lia) ltac:(lia)). lia.
Qed.

Section loops.
Context `{Answers} (fits : sfud_flash → Prop).
Abbreviation returns := (returns fits).

Lemma write_loop_returns g : 0 < g → (g | 2 ^ 32) → ∀ fuel a n data r,
  0 ≤ n → n ≤ Z.of_nat (length data) → blocks g a n < Z.of_nat fuel → returns (write_loop fuel a n g data r).
Proof.
  intros Hg Hd. induction fuel as [|fuel IH]; intros a n data r Hn Hl Hf.
  { destruct (Z.eq_dec n 0) as [->|]; [unfold blocks in Hf; simpl in Hf; lia|].
    pose proof (blocks_pos g a n Hg ltac:(lia)). lia. }
  cbn [write_loop]. destruct (Z.eqb_spec n 0) as [->|Hne]; [auto with returns|].
  destruct (write_size_room g a n Hg ltac:(lia)) as [_ Hw]. pose proof (blocks_write g a n Hg ltac:(lia)).
  apply returns_bind; [auto with returns|]. intros r1. apply returns_if; [auto with returns|].
  apply returns_bind; [auto with returns|]. intros adr.
  apply returns_bind; [apply bytes_of_returns; lia|]. intros d.
  apply returns_bind; [auto with returns|]. intros r2. apply returns_if; [auto with returns|].
  apply returns_bind; [auto with returns|]. intros r3. apply returns_if; [auto with returns|].
  apply IH; [lia|rewrite length_drop; lia|]. rewrite blocks_wrap by done. lia.
Qed.

Lemma page_write_returns a n g data : 0 < g → (g | 2 ^ 32) → 0 ≤ n → n ≤ Z.of_nat (length data) →
  returns (page256_or_1_byte_write a n g data).
Proof.
  intros Hg Hd Hn Hl. unfold page256_or_1_byte_write. apply returns_bind; [auto with returns|]. intros bad.
  apply returns_if; [auto with returns|]. apply returns_exit, write_loop_returns; try done.
  pose proof (blocks_bound g a n Hg Hn). pose proof (Z.div_pos n g Hn Hg). lia.
Qed.

Lemma erase_loop_returns g : 0 < g → (g | 2 ^ 32) → (∀ f, fits f → erase_gran (chip f) = g) →
  ∀ fuel a n r, 0 ≤ n → blocks g a n < Z.of_nat fuel → returns (erase_loop fuel a n r).
Proof.
  intros Hg Hd Hfits. induction fuel as [|fuel IH]; intros a n r Hn Hf.
  { destruct (Z.eq_dec n 0) as [->|]; [unfold blocks in Hf; simpl in Hf; lia|].
    pose proof (blocks_pos g a n Hg ltac:(lia)). lia. }
  cbn [erase_loop]. destruct (Z.eqb_spec n 0) as [->|Hne]; [auto with returns|].
  apply returns_flash. intros f Hff. rewrite (Hfits f Hff), room_eq, (proj2 (Z.eqb_neq g 0)) by lia.
  apply returns_bind; [auto with returns|]. intros r1. apply returns_if; [auto with returns|].
  apply returns_bind; [auto with returns|]. intros adr.
  apply returns_bind; [auto with returns|]. intros r2. apply returns_if; [auto with returns|].
  apply returns_bind; [auto with returns|]. intros r3. apply returns_if; [auto with returns|].
  pose proof (Z.mod_pos_bound a g Hg). destruct (Z.ltb_spec (g - a mod g) n); [|auto with returns].
  apply IH; [lia|]. rewrite blocks_wrap, blocks_step by (done || lia). lia.
Qed.

(** What is left in an operation of two bytes at a time. *)
Definition left_over (x : Z * (Z * Z * list Z)) : Prop := 0 ≤ x.2.1.2 ≤ Z.of_nat (length x.2.2).

Lemma aai_loop_returns fuel : ∀ first a n data r, n / 2 < Z.of_nat fuel → 0 ≤ n ≤ Z.of_nat (length data) →
  returns_with fits left_over (aai_loop fuel first a n data r).
Proof.
  induction fuel as [|fuel IH]; intros first a n data r Hf Hn.
  { pose proof (Z.div_pos n 2 ltac:(lia) ltac:(lia)). lia. }
  cbn [aai_loop]. destruct (Z.ltb_spec n 2); [by apply with_ret|].
  assert (n / 2 = (n - 2) / 2 + 1) as Eh.
  { replace n with ((n - 2) + 1 * 2) at 1 by lia. rewrite Z.div_add by lia. lia. }
  apply then_bind; [destruct first; auto with returns|]. intros adr.
  apply then_bind; [apply bytes_of_returns; lia|]. intros d.
  apply then_bind; [auto with returns|]. intros r1.
  destruct (negb (r1 =? SFUD_SUCCESS)); [by apply with_ret|].
  apply then_bind; [auto with returns|]. intros r2.
  destruct (negb (r2 =? SFUD_SUCCESS)); [by apply with_ret|].
  apply IH; [lia|]. rewrite length_drop. lia.
Qed.

(** There is a byte for the odd address. *)
Definition has_odd (a n : Z) : Prop := 0 < n ∨ n = 0 ∧ a mod 2 = 0.

Lemma aai_odd_returns a n data : has_odd a n → n ≤ Z.of_nat (length data) → n < 2 ^ 32 →
  returns_with fits left_over (aai_odd a n data).
Proof.
  intros Hn Hl Hb. unfold aai_odd. destruct (Z.eqb_spec (a mod 2) 0) as [He|He]; cbn [negb].
  2:{ destruct Hn as [Hn|[_ ?]]; [|done]. apply then_bind.
    + apply page_write_returns; [lia|by exists (2 ^ 32)|lia|lia].
    + intros r. destruct (negb (r =? SFUD_SUCCESS)); apply with_ret; unfold left_over; simpl; [lia|].
      unfold u32. rewrite wrap_small by lia. destruct data; simpl in *; lia. }
  apply with_ret. unfold left_over, has_odd in *. simpl. lia.
Qed.

Lemma aai_body_returns a n data : has_odd a n → n ≤ Z.of_nat (length data) → n < 2 ^ 32 → returns (aai_body a n data).
Proof.
  intros Hn Hl Hb. unfold aai_body. eapply returns_bind_with; [by apply aai_odd_returns|].
  intros [r1 [[a1 n1] d1]] Hleft. unfold left_over in Hleft. simpl in Hleft. apply returns_if; [auto with returns|].
  apply returns_bind; [auto with returns|]. intros r2. apply returns_if; [auto with returns|].
  pose proof (Z.div_pos n1 2 ltac:(lia) ltac:(lia)).
  eapply returns_bind_with; [apply aai_loop_returns; [lia|done]|].
  intros [r3 [[a2 n2] d2]] Hleft2. unfold left_over in Hleft2. simpl in Hleft2. apply returns_if; [auto with returns|].
  apply returns_bind; [auto with returns|]. intros r4. destruct (Z.eqb_spec n2 1) as [->|]; rewrite ?andb_false_r;
    [|auto with returns]. apply returns_if; [|auto with returns].
  apply page_write_returns; [lia|by exists (2 ^ 32)|lia|lia].
Qed.
End loops.

(** ** The calls *)
Section calls.
Context `{Answers} (fits : sfud_flash → Prop).
Abbreviation returns := (returns fits).

Lemma aai_write_returns a n data : has_odd a n → n ≤ Z.of_nat (length data) → n < 2 ^ 32 → returns (aai_write a n data).
Proof.
  intros Hn Hl Hb. unfold aai_write. apply returns_bind; [auto with returns|]. intros bad.
  apply returns_if; [auto with returns|].
  apply returns_locked; [by apply aai_body_returns|]. intros r.
  apply moves_after; [auto with returns|]. intros _. apply unlock_moves.
Qed.

Lemma write_returns a n data : has_odd a n → n ≤ Z.of_nat (length data) → n < 2 ^ 32 → returns (sfud_write a n data).
Proof.
  intros Hn Hl Hb. assert (0 ≤ n) by (unfold has_odd in Hn; lia). apply returns_flash. intros f _.
  apply returns_if; [apply page_write_returns; [lia|by exists (2 ^ 24)|lia|lia]|].
  apply returns_if; [by apply aai_write_returns|auto with returns].
Qed.

Lemma read_returns a n : 0 ≤ n → returns (sfud_read a n).
Proof.
  intros Hn. unfold sfud_read. apply returns_bind; [auto with returns|]. intros bad. apply returns_if; [auto with returns|].
  apply returns_locked; [auto with returns|]. intros r. apply moves_after; [|intros ?; apply unlock_moves].
  apply returns_if; [|auto with returns]. apply returns_bind; [auto with returns|]. intros x.
  eapply returns_bind_with; [by apply spi_wr_returns|]. auto with returns.
Qed.

Lemma chip_erase_returns : returns sfud_chip_erase.
Proof.
  assert (∀ r, moves fits (-1) (λ _, True) (exit_write r)) as Hexit.
  { intros r. apply moves_after; [auto with returns|]. intros _. apply unlock_moves. }
  apply returns_locked; [auto with returns|]. intros r. destruct (negb (r =? SFUD_SUCCESS)); [done|].
  apply moves_flash. intros f _. apply moves_after; [auto with returns|]. intros r2.
  destruct (negb (r2 =? SFUD_SUCCESS)); [done|]. apply moves_after; auto with returns.
Qed.

Lemma erase_returns g a n : 0 < g → (g | 2 ^ 32) → (∀ f, fits f → erase_gran (chip f) = g) → 0 ≤ n →
  returns (sfud_erase a n).
Proof.
  intros Hg Hd Hf Hn. unfold sfud_erase. apply returns_bind; [auto with returns|]. intros bad.
  apply returns_if; [auto with returns|]. apply returns_flash. intros f Hff.
  apply returns_if; [apply chip_erase_returns|]. apply returns_exit.
  rewrite (Hf f Hff). pose proof (blocks_bound g a n Hg Hn). pose proof (Z.div_pos n g Hn Hg).
  apply (erase_loop_returns fits g Hg Hd Hf); [done|lia].
Qed.
End calls.

(** C19: Reading, erasing and writing end on every bus, also where transfers fail,
    the flash stays busy or refuses to be written, for a chip whose erase
    granularity is positive and divides [2^32]: with an error or without, the
    lock is given back as often as it was taken, and what the driver knows of the
    flash is as before.  Erasing and reading take any 32-bit size, also 0;
    writing takes at least one byte, or none at an even address ([aai_nothing]
    shows why not at an odd one). *)
Theorem sfud_calls_return `{Answers} (s : sfud) (a n : Z) (data : list Z) :
  0 ≤ n < 2 ^ 32 → 0 < erase_gran (chip (flash s)) → (erase_gran (chip (flash s)) | 2 ^ 32) →
  (∃ r s', sfud_read a n s = Ok r s' ∧ spi_held s' = spi_held s ∧ flash s' = flash s) ∧
  (∃ r s', sfud_erase a n s = Ok r s' ∧ spi_held s' = spi_held s ∧ flash s' = flash s) ∧
  (has_odd a n → n ≤ Z.of_nat (length data) →
   (∃ r s', sfud_write a n data s = Ok r s' ∧ spi_held s' = spi_held s ∧ flash s' = flash s) ∧
   (∃ r s', sfud_erase_write a n data s = Ok r s' ∧ spi_held s' = spi_held s ∧ flash s' = flash s)).
Proof.
  intros Hn Hg Hd. set (fits f := f = flash s).
  assert (∀ A (m : SF A), returns fits m →
    ∃ r s', m s = Ok r s' ∧ spi_held s' = spi_held s ∧ flash s' = flash s) as Hrun.
  { intros A m Hm. destruct (wp_run _ _ _ (Hm s eq_refl)) as (r & s' & E & _ & H1 & H2).
    exists r, s'. split; [done|]. split; [|done]. rewrite H1. destruct (spi_locks (flash s)); lia. }
  assert (∀ f, fits f → erase_gran (chip f) = erase_gran (chip (flash s))) as Hf by by intros f ->.
  pose proof (erase_returns fits _ a n Hg Hd Hf ltac:(lia)) as He.
  split; [apply Hrun, read_returns; lia|]. split; [by apply Hrun|]. intros Ho Hl.
  pose proof (write_returns fits a n data Ho Hl ltac:(lia)) as Hw. split; apply Hrun; [done|].
  apply returns_bind; [done|]. intros r. apply returns_if; [done|apply returns_ret].
Qed.

(** A bus on which one of the transfers fails; the flash always says that it
    can be written and is not busy. *)
Definition flaky (bad : nat) : FlashPort := {|
  bus := nat;
  wr w n k := ((if (k =? bad)%nat then SFUD_ERR_TIMEOUT else SFUD_SUCCESS, replicate (Z.to_nat n) 2), S k);
  delay k := k |}.

#[export] Instance flaky_answers bad : @Answers (flaky bad).
Proof. split. intros w n b Hn _. simpl. rewrite length_replicate. lia. Qed.

Definition flaky_state (bad : nat) (mode : Z) : @sfud (flaky bad) :=
  @mk_sfud (flaky bad) (mk_flash (mk_chip [] 0 0 0 (512 * 1024) mode 4096 0x20) true false 3 true true) 0 0%nat.

Lemma sfud_calls_return_witness :
  ∃ r s', @sfud_write (flaky 2) 254 4 [1; 2; 3; 4] (flaky_state 2 SFUD_WM_PAGE_256B) = Ok r s' ∧ spi_held s' = 0.
Proof.
  destruct (@sfud_calls_return (flaky 2) _ (flaky_state 2 SFUD_WM_PAGE_256B) 254 4 [1; 2; 3; 4])
    as (_ & _ & Hw).
  - lia.
  - simpl. lia.
  - by exists (2 ^ 20).
  - destruct Hw as [(r & s' & E & Hh & _) _]; [left; lia|simpl; lia|]. by exists r, s'.
Defined.

(** ** Edges *)

(** The bound is tested after the sum of address and size wraps around. *)
Example bound_wraps : out_of_bound 4096 (2 ^ 32 - 4096) nor_state = Ok false nor_state.
Proof. reflexivity. Qed.

(** A chip that is written byte by byte, or through its two buffers, is not
    written at all, and the call succeeds. *)
Example no_write_mode :
  let s := flaky_state 9 (Z.lor SFUD_WM_BYTE SFUD_WM_DUAL_BUFFER) in
  sfud_write 0 2 [1; 2] s = Ok SFUD_SUCCESS s.
Proof. reflexivity. Qed.

(** The flash says that it can still be written after the command that
    disables it: the test is for the wrong bit, and the call succeeds. *)
Example disable_unseen :
  wp (set_write_enabled false) (λ r _, r = SFUD_SUCCESS) (flaky_state 9 SFUD_WM_PAGE_256B).
Proof. reflexivity. Qed.

(** Writing nothing at an odd address of a chip that counts its address up:
    one byte is written, and the size wraps around. *)
Example aai_nothing :
  wp (aai_odd 1 0 [7]) (λ r _, r = (SFUD_SUCCESS, (2, 2 ^ 32 - 1, []))) (flaky_state 99 SFUD_WM_AAI).
Proof. vm_compute. reflexivity. Qed.
