(* ===== verification/Spi.v ===== *)
(** * SPI buses ([components/drivers/spi_core.c], [rt_gd32f20x_spi.c])

    Devices share a bus; the one whose configuration is in the controller owns
    it.  A transfer is a message or two, and a message exchanges as many words
    as it sends or receives.  The controller's flags, on which the driver waits,
    are left out: [exchange] is the whole exchange of a word with the device
    behind the chip select pin.  The project does not use DMA. *)

From S2P Require Import Prelude.

(** ** Constants of [spi.h] and [rtdef.h] *)
Definition RT_SPI_CPHA : Z := 1.
Definition RT_SPI_CPOL : Z := 2.
Definition RT_SPI_MSB : Z := 4.
Definition RT_SPI_MODE_MASK : Z := Z.lor (Z.lor RT_SPI_CPHA RT_SPI_CPOL) RT_SPI_MSB.
Definition RT_EOK : Z := 0.
Definition RT_EBUSY : Z := 7.
Definition RT_EIO : Z := 8.

(** ** Data *)

(** [struct rt_spi_configuration] *)
Record rt_spi_configuration := mk_config { mode : Z; data_width : Z; max_hz : Z }.

(** [struct rt_spi_message]: the words to send (none for a null pointer), and
    whether there is a buffer for what is received. *)
Record rt_spi_message := mk_message {
  send_buf : option (list Z); recv_buf : bool; length_ : Z; cs_take : bool; cs_release : bool }.

(** The parameters that [configure] gives the controller. *)
Record spi_parameter := mk_parameter {
  frame_16bit : bool; prescale : Z; polarity : bool; phase : bool; msb : bool }.

(** The device behind the pin: [select] sets the chip select, low for true. *)
Class SpiSlave : Type := {
  slave : Type;
  select : bool → slave → slave;
  exchange : Z → slave → Z * slave;
  wait : slave → slave;
  SystemCoreClock : Z
}.

Section spi.
Context `{SpiSlave}.

(** The bus: its owner (0 for none), how often its lock is held and what
    [rt_mutex_take] returns, the configurations of the devices, the parameters
    in the controller, [errno], and the device. *)
Record spi := mk_spi {
  owner : Z;
  bus_held : Z;
  take_result : Z;
  devices : gmap Z rt_spi_configuration;
  controller : option spi_parameter;
  errno : Z;
  the_slave : slave
}.
Definition SP := M spi.

Definition set_owner (n : Z) (s : spi) : spi :=
  mk_spi n (bus_held s) (take_result s) (devices s) (controller s) (errno s) (the_slave s).
Definition set_bus_held (n : Z) (s : spi) : spi :=
  mk_spi (owner s) n (take_result s) (devices s) (controller s) (errno s) (the_slave s).
Definition set_devices (m : gmap Z rt_spi_configuration) (s : spi) : spi :=
  mk_spi (owner s) (bus_held s) (take_result s) m (controller s) (errno s) (the_slave s).
Definition set_controller (p : option spi_parameter) (s : spi) : spi :=
  mk_spi (owner s) (bus_held s) (take_result s) (devices s) p (errno s) (the_slave s).
Definition set_errno (n : Z) (s : spi) : spi :=
  mk_spi (owner s) (bus_held s) (take_result s) (devices s) (controller s) n (the_slave s).
Definition set_slave (c : slave) (s : spi) : spi :=
  mk_spi (owner s) (bus_held s) (take_result s) (devices s) (controller s) (errno s) c.

Definition rt_set_errno (e : Z) : SP unit := modify (set_errno e).
Definition config_of (device : Z) : SP rt_spi_configuration :=
  let! m := read devices in from_option NullDeref (m !! device).

Definition take_lock : SP Z :=
  let! r := read take_result in
  (when r =? RT_EOK then modify (λ s, set_bus_held (bus_held s + 1) s)) ;;;
  ret r.
Definition release_lock : SP unit := modify (λ s, set_bus_held (bus_held s - 1) s).

(** ** The controller ([rt_gd32f20x_spi.c]) *)

(** The divisor of the clock; the code has the constants of the registers. *)
Definition get_spi_BaudRatePrescaler (max_hz : Z) : Z :=
  if (SystemCoreClock / 2 <=? max_hz) && (SystemCoreClock / 2 <=? 18000000) then 2
  else if SystemCoreClock / 4 <=? max_hz then 4
  else if SystemCoreClock / 8 <=? max_hz then 8
  else if SystemCoreClock / 16 <=? max_hz then 16
  else if SystemCoreClock / 32 <=? max_hz then 32
  else if SystemCoreClock / 64 <=? max_hz then 64
  else if SystemCoreClock / 128 <=? max_hz then 128
  else 256.

Definition configure (configuration : rt_spi_configuration) : SP Z :=
  if 16 <? data_width configuration then ret RT_EIO
  else
    modify (set_controller (Some (mk_parameter
      (negb (data_width configuration <=? 8))
      (get_spi_BaudRatePrescaler (max_hz configuration))
      (negb (Z.land (mode configuration) RT_SPI_CPOL =? 0))
      (negb (Z.land (mode configuration) RT_SPI_CPHA =? 0))
      (negb (Z.land (mode configuration) RT_SPI_MSB =? 0))))) ;;;
    ret RT_EOK.

Definition chip_select (b : bool) : SP unit := modify (λ s, set_slave (select b (the_slave s)) s).
Definition exchange_word (data : Z) : SP Z :=
  let! c := read the_slave in
  modify (set_slave (exchange data c).2) ;;;
  ret (exchange data c).1.

(** The next word to send: ones without a buffer. *)
Definition next_word (send_ptr : option (list Z)) : SP (Z * option (list Z)) :=
  match send_ptr with
  | None => ret (0xFF, None)
  | Some (d :: l) => ret (d, Some l)
  | Some [] => fail OutOfBounds
  end.

(** [while (size--)]; the words that were received. *)
Fixpoint exchange_loop (size : nat) (send_ptr : option (list Z)) : SP (list Z) :=
  match size with
  | O => ret []
  | S size =>
    let! (data, send_ptr) := next_word send_ptr in
    let! data := exchange_word data in
    let! l := exchange_loop size send_ptr in
    ret (data :: l)
  end.

(** The length, and what was written to the buffer. *)
Definition xfer (device : Z) (message : rt_spi_message) : SP (Z * list Z) :=
  let! config := config_of device in
  (when cs_take message then chip_select true) ;;;
  let! l := if data_width config <=? 16 then exchange_loop (Z.to_nat (length_ message)) (send_buf message)
            else ret [] in
  (when cs_release message then chip_select false) ;;;
  ret (length_ message, if recv_buf message then l else []).

(** ** The bus ([spi_core.c]) *)
Definition rt_spi_configure (device : Z) (cfg : rt_spi_configuration) : SP Z :=
  let c := mk_config (Z.land (mode cfg) RT_SPI_MODE_MASK) (data_width cfg) (max_hz cfg) in
  config_of device ;;;
  modify (λ s, set_devices (<[device := c]> (devices s)) s) ;;;
  let! result := take_lock in
  (when result =? RT_EOK then
    (let! o := read owner in
     (when o =? device then (configure c ;;; ret tt)) ;;;
     release_lock)) ;;;
  ret RT_EOK.

(** The part that the transfers share: whether the device owns the bus. *)
Definition own (device : Z) : SP bool :=
  let! o := read owner in
  if negb (o =? device) then
    let! config := config_of device in
    let! result := configure config in
    if result =? RT_EOK then modify (set_owner device) ;;; ret true
    else ret false
  else ret true.

(** The label [__exit]. *)
Definition spi_exit {A} (result : A) : SP A := release_lock ;;; ret result.

Definition rt_spi_send_then_send (device : Z) (send_buf1 : list Z) (send_length1 : Z)
    (send_buf2 : list Z) (send_length2 : Z) : SP Z :=
  let! result := take_lock in
  if negb (result =? RT_EOK) then ret (- RT_EIO)
  else
    let! ok := own device in
    if negb ok then spi_exit (- RT_EIO)
    else
      let! r := xfer device (mk_message (Some send_buf1) false send_length1 true false) in
      if r.1 =? 0 then spi_exit (- RT_EIO)
      else
        let! r := xfer device (mk_message (Some send_buf2) false send_length2 false true) in
        if r.1 =? 0 then spi_exit (- RT_EIO) else spi_exit RT_EOK.

(** The result, and what was received. *)
Definition rt_spi_send_then_recv (device : Z) (send_buf : list Z) (send_length recv_length : Z)
    : SP (Z * list Z) :=
  let! result := take_lock in
  if negb (result =? RT_EOK) then ret (- RT_EIO, [])
  else
    let! ok := own device in
    if negb ok then spi_exit (- RT_EIO, [])
    else
      let! r := xfer device (mk_message (Some send_buf) false send_length true false) in
      if r.1 =? 0 then spi_exit (- RT_EIO, [])
      else
        let! r := xfer device (mk_message None true recv_length false true) in
        if r.1 =? 0 then spi_exit (- RT_EIO, r.2) else spi_exit (RT_EOK, r.2).

Definition rt_spi_transfer (device : Z) (send_buf : option (list Z)) (recv_buf : bool) (length : Z)
    : SP (Z * list Z) :=
  let! result := take_lock in
  if negb (result =? RT_EOK) then rt_set_errno (- RT_EIO) ;;; ret (0, [])
  else
    let! ok := own device in
    if negb ok then rt_set_errno (- RT_EIO) ;;; spi_exit (0, [])
    else
      let! r := xfer device (mk_message send_buf recv_buf length true true) in
      (when r.1 =? 0 then rt_set_errno (- RT_EIO)) ;;;
      spi_exit r.

(** The loop over a list of messages: those that are left, and what each one
    received. *)
Fixpoint message_loop (device : Z) (index : list rt_spi_message)
    : SP (list rt_spi_message * list (list Z)) :=
  match index with
  | [] => ret ([], [])
  | m :: next =>
    let! r := xfer device m in
    if r.1 =? 0 then rt_set_errno (- RT_EIO) ;;; ret (index, [r.2])
    else
      let! (rest, ls) := message_loop device next in
      ret (rest, r.2 :: ls)
  end.

Definition rt_spi_transfer_message (device : Z) (message : list rt_spi_message)
    : SP (list rt_spi_message * list (list Z)) :=
  match message with
  | [] => ret ([], [])
  | _ =>
    let! result := take_lock in
    if negb (result =? RT_EOK) then rt_set_errno (- RT_EBUSY) ;;; ret (message, [])
    else
      rt_set_errno RT_EOK ;;;
      let! ok := own device in
      if negb ok then rt_set_errno (- RT_EIO) ;;; spi_exit (message, [])
      else
        let! r := message_loop device message in
        spi_exit r
  end.

Definition rt_spi_take_bus (device : Z) : SP Z :=
  let! result := take_lock in
  if negb (result =? RT_EOK) then rt_set_errno (- RT_EBUSY) ;;; ret (- RT_EBUSY)
  else
    rt_set_errno RT_EOK ;;;
    let! ok := own device in
    if negb ok then rt_set_errno (- RT_EIO) ;;; spi_exit (- RT_EIO) else ret result.

Definition rt_spi_release_bus (device : Z) : SP Z :=
  let! o := read owner in
  if negb (o =? device) then fail AssertFailed else spi_exit RT_EOK.

Definition rt_spi_take (device : Z) : SP Z :=
  let! r := xfer device (mk_message None false 0 true false) in ret r.1.
Definition rt_spi_release (device : Z) : SP Z :=
  let! r := xfer device (mk_message None false 0 false true) in ret r.1.

(** [spi.h] *)
Definition rt_spi_recv (device length : Z) : SP (Z * list Z) := rt_spi_transfer device None true length.
Definition rt_spi_send (device : Z) (send_buf : list Z) (length : Z) : SP Z :=
  let! r := rt_spi_transfer device (Some send_buf) false length in ret r.1.
Definition rt_spi_sendrecv8 (device data : Z) : SP (list Z) :=
  let! r := rt_spi_send_then_recv device [data] 1 1 in ret r.2.
End spi.
