(* ===== verification/SpiSpec.v ===== *)
(** * A transfer is one frame

    Between the fall and the rise of the chip select pin the device sees one
    frame: the bytes that were sent, and then as many as it answers.  Whatever
    device owned the bus before, a transfer configures the controller for its
    own device unless that one owns the bus, makes one frame, and gives the lock
    back. *)

From S2P Require Import Prelude Spi.

Section frames.
Context `{SpiSlave}.

(** ** Frames *)
Fixpoint push (w : list Z) (c : slave) : slave :=
  match w with
  | [] => c
  | d :: w => push w (exchange d c).2
  end.
Fixpoint pull (n : nat) (c : slave) : list Z * slave :=
  match n with
  | O => ([], c)
  | S n =>
    let r := exchange 0xFF c in
    let l := pull n r.2 in
    (r.1 :: l.1, l.2)
  end.
Definition frame (w : list Z) (n : nat) (c : slave) : list Z * slave :=
  let r := pull n (push w (select true c)) in
  (r.1, select false r.2).

Lemma pull_length n : ∀ c, length (pull n c).1 = n.
Proof. induction n as [|n IH]; intros c; simpl; [done|]. by rewrite IH. Qed.

(** ** Runs *)
Lemma exchange_send_run l : ∀ rest s, ∃ r,
  exchange_loop (length l) (Some (l ++ rest)) s = Ok r (set_slave (push l (the_slave s)) s).
Proof.
  induction l as [|d l IH]; intros rest s; simpl; [exists []; by destruct s|].
  destruct (IH rest (set_slave (exchange d (the_slave s)).2 s)) as [r E].
  exists ((exchange d (the_slave s)).1 :: r). unfold exchange_word. autorewrite with run.
  rewrite (bind_ok _ _ _ _ _ E). done.
Qed.

Lemma receive_loop_run n : ∀ s,
  exchange_loop n None s = Ok (pull n (the_slave s)).1 (set_slave (pull n (the_slave s)).2 s).
Proof.
  induction n as [|n IH]; intros s; simpl; [by destruct s|].
  unfold exchange_word. autorewrite with run.
  by rewrite (bind_ok _ _ _ _ _ (IH (set_slave (exchange 0xFF (the_slave s)).2 s))).
Qed.

(** The device is on the bus, its words are bytes or double bytes, and the
    lock can be taken. *)
Record linked (device : Z) (s : spi) : Prop := {
  l_config : ∃ c, devices s !! device = Some c ∧ data_width c ≤ 16;
  l_lock : take_result s = RT_EOK
}.

Lemma config_run device s c : devices s !! device = Some c → config_of device s = Ok c s.
Proof. intros Hc. unfold config_of. autorewrite with run. by rewrite Hc. Qed.

Lemma xfer_send_run device m l s : linked device s → send_buf m = Some l → length_ m = Z.of_nat (length l) →
  recv_buf m = false →
  let c0 := if cs_take m then select true (the_slave s) else the_slave s in
  let c1 := if cs_release m then select false (push l c0) else push l c0 in
  xfer device m s = Ok (length_ m, []) (set_slave c1 s).
Proof.
  intros [(c & Hc & Hw) _] Hs Hn Hr. unfold xfer. rewrite (bind_ok _ _ _ _ _ (config_run _ _ _ Hc)), Hs, Hn, Hr.
  rewrite (proj2 (Z.leb_le _ _)), Nat2Z.id by done.
  set (s0 := if cs_take m then set_slave (select true (the_slave s)) s else s).
  destruct (exchange_send_run l [] s0) as [r E]. rewrite app_nil_r in E. unfold s0 in E.
  unfold chip_select. destruct (cs_take m); autorewrite with run; rewrite (bind_ok _ _ _ _ _ E);
    destruct (cs_release m); done.
Qed.

Lemma xfer_receive_run device m s : linked device s → send_buf m = None → recv_buf m = true → 0 ≤ length_ m →
  let c0 := if cs_take m then select true (the_slave s) else the_slave s in
  let r := pull (Z.to_nat (length_ m)) c0 in
  let c1 := if cs_release m then select false r.2 else r.2 in
  xfer device m s = Ok (length_ m, r.1) (set_slave c1 s).
Proof.
  intros [(c & Hc & Hw) _] Hs Hr Hn. unfold xfer. rewrite (bind_ok _ _ _ _ _ (config_run _ _ _ Hc)), Hs, Hr.
  rewrite (proj2 (Z.leb_le _ _)) by done.
  set (s0 := if cs_take m then set_slave (select true (the_slave s)) s else s).
  pose proof (receive_loop_run (Z.to_nat (length_ m)) s0) as E. unfold s0 in E.
  unfold chip_select. destruct (cs_take m); autorewrite with run; rewrite (bind_ok _ _ _ _ _ E);
    destruct (cs_release m); done.
Qed.

(** The device owns the bus, and the parameters of its configuration are in
    the controller. *)
Definition parameters (c : rt_spi_configuration) : spi_parameter :=
  mk_parameter (negb (data_width c <=? 8)) (get_spi_BaudRatePrescaler (max_hz c))
    (negb (Z.land (mode c) RT_SPI_CPOL =? 0)) (negb (Z.land (mode c) RT_SPI_CPHA =? 0))
    (negb (Z.land (mode c) RT_SPI_MSB =? 0)).

(** The state with the device as the owner of the bus. *)
Definition owned (device : Z) (s : spi) : spi :=
  if owner s =? device then s
  else
    match devices s !! device with
    | Some c => set_owner device (set_controller (Some (parameters c)) s)
    | None => s
    end.

Lemma own_run device s : linked device s → own device s = Ok true (owned device s).
Proof.
  intros [(c & Hc & Hw) _]. unfold own, owned. autorewrite with run.
  destruct (owner s =? device); simpl; [done|]. rewrite (bind_ok _ _ _ _ _ (config_run _ _ _ Hc)), Hc.
  unfold configure. rewrite (proj2 (Z.ltb_ge _ _)) by done. by autorewrite with run.
Qed.

Lemma owned_linked device s c : linked device s → linked device (set_slave c (owned device s)).
Proof.
  intros [(f & Hc & Hw) Hl]. unfold owned. rewrite Hc. destruct (owner s =? device); (split; [by exists f|done]).
Qed.

(** The state after a transfer by which the device becomes [c]. *)
Definition transferred (device : Z) (c : slave) (s : spi) : spi := set_slave c (owned device s).

(** With the lock held once more. *)
Definition holding (s : spi) : spi := set_bus_held (bus_held s + 1) s.

Lemma take_lock_run device s : linked device s → take_lock s = Ok RT_EOK (holding s).
Proof. intros [_ Hl]. unfold take_lock. autorewrite with run. by rewrite Hl. Qed.

Lemma owned_holding device s : owned device (holding s) = holding (owned device s).
Proof. unfold owned. cbn. destruct (owner s =? device); [done|]. by destruct (devices s !! device). Qed.

Lemma the_slave_owned device s : the_slave (owned device s) = the_slave s.
Proof. unfold owned. destruct (owner s =? device); [done|]. by destruct (devices s !! device). Qed.

Lemma release_run {A} device c (r : A) s :
  spi_exit r (set_slave c (holding (owned device s))) = Ok r (transferred device c s).
Proof.
  unfold spi_exit, release_lock. autorewrite with run. unfold ret, transferred, holding, set_bus_held, set_slave. simpl.
  do 2 f_equal. lia.
Qed.

Lemma linked_holding device s : linked device s → linked device (holding s).
Proof. intros [(c & Hc & Hw) Hl]. split; [by exists c|done]. Qed.

(** The start that the transfers share. *)
Lemma transfer_start_run {A} device (k : SP A) (e1 e2 : SP A) s : linked device s →
  (let! result := take_lock in
   if negb (result =? RT_EOK) then e1
   else
     let! ok := own device in
     if negb ok then e2 else k) s = k (holding (owned device s)).
Proof.
  intros Hl. rewrite (bind_ok _ _ _ _ _ (take_lock_run _ _ Hl)). change (negb (RT_EOK =? RT_EOK)) with false.
  cbn iota. rewrite (bind_ok _ _ _ _ _ (own_run _ _ (linked_holding _ _ Hl))). by rewrite owned_holding.
Qed.

Lemma of_nat_zero {A} (l : list A) : l ≠ [] → (Z.of_nat (length l) =? 0) = false.
Proof. destruct l; [done|]. intros _. simpl. lia. Qed.

Lemma linked_owned device s c : linked device s → linked device (set_slave c (holding (owned device s))).
Proof. intros Hl. apply (linked_holding _ _ (owned_linked _ _ c Hl)). Qed.

Lemma linked_start device s : linked device s → linked device (holding (owned device s)).
Proof. intros Hl. destruct (linked_owned device s (the_slave s) Hl). by split. Qed.

Lemma send_then_recv_run device w n s : linked device s → w ≠ [] → 0 < n →
  rt_spi_send_then_recv device w (Z.of_nat (length w)) n s =
    Ok (RT_EOK, (frame w (Z.to_nat n) (the_slave s)).1)
      (transferred device (frame w (Z.to_nat n) (the_slave s)).2 s).
Proof.
  intros Hl Hw Hn. unfold rt_spi_send_then_recv. rewrite transfer_start_run by done.
  pose proof (linked_start device s Hl) as Hl1.
  rewrite (bind_ok _ _ _ _ _ (xfer_send_run device (mk_message (Some w) false (Z.of_nat (length w)) true false) w _ Hl1
    eq_refl eq_refl eq_refl)). cbn [length_ cs_take cs_release fst]. rewrite of_nat_zero by done.
  rewrite (bind_ok _ _ _ _ _ (xfer_receive_run device (mk_message None true n false true) _
    (linked_owned device s _ Hl) eq_refl eq_refl ltac:(simpl; lia))). cbn [length_ cs_take cs_release fst snd].
  rewrite (proj2 (Z.eqb_neq n 0)) by lia. cbn [the_slave set_slave holding set_bus_held].
  rewrite the_slave_owned. exact (release_run device _ _ s).
Qed.

Lemma send_run device w s : linked device s → w ≠ [] →
  rt_spi_send device w (Z.of_nat (length w)) s =
    Ok (Z.of_nat (length w)) (transferred device (frame w 0 (the_slave s)).2 s).
Proof.
  intros Hl Hw. unfold rt_spi_send, rt_spi_transfer.
  pose proof (linked_start device s Hl) as Hl1.
  rewrite (bind_ok _ (λ r, ret r.1) s (Z.of_nat (length w), []) (transferred device (frame w 0 (the_slave s)).2 s)); [done|].
  rewrite transfer_start_run by done.
  rewrite (bind_ok _ _ _ _ _ (xfer_send_run device (mk_message (Some w) false (Z.of_nat (length w)) true true) w _ Hl1
    eq_refl eq_refl eq_refl)). cbn [length_ cs_take cs_release fst]. rewrite of_nat_zero by done.
  rewrite bind_ret. cbn [the_slave holding set_bus_held]. rewrite the_slave_owned.
  exact (release_run device _ _ s).
Qed.

Lemma recv_run device n s : linked device s → 0 < n →
  rt_spi_recv device n s =
    Ok (n, (frame [] (Z.to_nat n) (the_slave s)).1) (transferred device (frame [] (Z.to_nat n) (the_slave s)).2 s).
Proof.
  intros Hl Hn. unfold rt_spi_recv, rt_spi_transfer.
  pose proof (linked_start device s Hl) as Hl1.
  rewrite transfer_start_run by done.
  rewrite (bind_ok _ _ _ _ _ (xfer_receive_run device (mk_message None true n true true) _
    Hl1 eq_refl eq_refl ltac:(simpl; lia))). cbn [length_ cs_take cs_release fst snd].
  rewrite (proj2 (Z.eqb_neq n 0)) by lia. rewrite bind_ret. cbn [the_slave holding set_bus_held].
  rewrite the_slave_owned. exact (release_run device _ _ s).
Qed.

(** The parameters of the owner are in the controller. *)
Definition tuned (s : spi) : Prop := ∀ f,
  devices s !! owner s = Some f → data_width f ≤ 16 → controller s = Some (parameters f).

(** A new configuration is given to the controller where its device owns the
    bus. *)
Lemma configure_tuned device cfg s : linked device s → tuned s →
  ∃ s', rt_spi_configure device cfg s = Ok RT_EOK s' ∧ tuned s' ∧ bus_held s' = bus_held s.
Proof.
  intros [(c & Hc & _) Hl] Ht. unfold rt_spi_configure. set (c' := mk_config _ _ _).
  rewrite (bind_ok _ _ _ _ _ (config_run _ _ _ Hc)).
  unfold take_lock, release_lock, configure, bind, gets, modify, ret, tuned in *. cbn. rewrite Hl. cbn.
  destruct (Z.eqb_spec (owner s) device) as [E|E]; [destruct (Z.ltb_spec 16 (data_width cfg)) as [Hw|Hw]|];
    (eexists; split; [reflexivity|]); cbn; (split; [|lia]); intros f;
    rewrite ?E, ?lookup_insert_eq; rewrite ?lookup_insert_ne by done.
  - intros [= <-] ?. cbn in *. lia.
  - by intros [= <-].
  - apply Ht.
Qed.

(** From [s] to [s'] the device becomes the owner of the bus, with its
    parameters in the controller, the lock is held as often as before, and what
    is behind the pin becomes [c]. *)
Record after_transfer (device : Z) (c : slave) (s s' : spi) : Prop := {
  at_slave : the_slave s' = c;
  at_owner : owner s' = device;
  at_held : bus_held s' = bus_held s;
  at_controller : ∃ f, devices s !! device = Some f ∧ controller s' = Some (parameters f);
  at_linked : linked device s';
  at_tuned : tuned s'
}.

Lemma transferred_after device c s : linked device s → tuned s →
  after_transfer device c s (transferred device c s).
Proof.
  intros Hl Ht. pose proof (owned_linked device s c Hl) as Hl2. destruct Hl as [(f & Hc & Hw) Hl].
  unfold transferred, owned, tuned in *. rewrite Hc in *. destruct (Z.eqb_spec (owner s) device) as [E|E].
  - split; try done. exists f. split; [done|]. apply Ht; [by rewrite E|done].
  - split; try done; [by exists f|]. intros g Hg _. cbn in Hg. rewrite Hc in Hg. by injection Hg as <-.
Qed.

(** C20: Sending at least one word and then receiving at least one is one frame to
    a device with words of at most 16 bits, when the lock can be taken: the pin
    falls once and rises once, and the device sees the words that are sent and
    then a word of ones for each that it answers.  So is sending, and so is
    receiving.  The result is success, or the length; the lock is given back.
    When the parameters of the owner of the bus were in the controller before,
    those of the device, which is the owner then, are in it. *)
Theorem spi_transfers_framed (device : Z) (w : list Z) (n : Z) (s : spi) :
  linked device s → tuned s → w ≠ [] → 0 < n →
  let m := Z.to_nat n in
  let c := the_slave s in
  (∃ s', rt_spi_send_then_recv device w (Z.of_nat (length w)) n s = Ok (RT_EOK, (frame w m c).1) s' ∧
     length (frame w m c).1 = m ∧ after_transfer device (frame w m c).2 s s') ∧
  (∃ s', rt_spi_send device w (Z.of_nat (length w)) s = Ok (Z.of_nat (length w)) s' ∧
     after_transfer device (frame w 0 c).2 s s') ∧
  (∃ s', rt_spi_recv device n s = Ok (n, (frame [] m c).1) s' ∧ after_transfer device (frame [] m c).2 s s').
Proof.
  intros Hl Ht Hw Hn m c. split_and!; eexists.
  - split; [by apply send_then_recv_run|]. split; [apply pull_length|by apply transferred_after].
  - split; [by apply send_run|by apply transferred_after].
  - split; [by apply recv_run|by apply transferred_after].
Qed.
End frames.

(** ** A simulated device

    It has the bytes of the frame that is open, and the frames before it; its
    answer is the number of the bytes that it has got. *)
#[export] Instance echo_slave : SpiSlave := {|
  slave := list (list Z) * option (list Z);
  select b c := if b then (c.1, Some []) else (match c.2 with Some l => c.1 ++ [l] | None => c.1 end, None);
  exchange d c := match c.2 with
                  | Some l => (Z.of_nat (length l), (c.1, Some (l ++ [d])))
                  | None => (0xFF, c)
                  end;
  wait c := c;
  SystemCoreClock := 120000000
|}.

(** Two devices of different speed on one bus. *)
Definition demo_config (hz : Z) : rt_spi_configuration := mk_config RT_SPI_MSB 8 hz.
Definition demo_spi : spi :=
  mk_spi 1 0 RT_EOK (<[1 := demo_config 1000000]> (<[2 := demo_config 50000000]> ∅))
    (Some (parameters (demo_config 1000000))) 0 ([], None).

Lemma demo_linked : linked 2 demo_spi.
Proof. split; [exists (demo_config 50000000); by split|done]. Qed.

Lemma demo_tuned : tuned demo_spi.
Proof. by intros f [= <-]. Qed.

Lemma spi_transfers_framed_witness :
  ∃ s', rt_spi_send_then_recv 2 [0x9F] 1 3 demo_spi = Ok (RT_EOK, [1; 2; 3]) s' ∧ owner s' = 2.
Proof.
  destruct (spi_transfers_framed 2 [0x9F] 3 demo_spi) as [(s' & E & _ & Ha) _].
  - apply demo_linked.
  - apply demo_tuned.
  - done.
  - lia.
  - exists s'. split; [exact E|]. apply Ha.
Defined.

(** The other owner's parameters are replaced: the clock of 120 MHz is divided
    by four. *)
Example parameters_replaced :
  wp (rt_spi_send 2 [1] 1) (λ r s', r = 1 ∧ controller s' = Some (mk_parameter false 4 false false true)) demo_spi.
Proof. by split. Qed.

(** Without a byte to send, the call fails and leaves the device selected. *)
Example left_selected :
  wp (rt_spi_send_then_recv 2 [] 0 1) (λ r s', r = (- RT_EIO, []) ∧ the_slave s' = ([], Some [])) demo_spi.
Proof. by split. Qed.

(** Words of more than 16 bits are not transferred, and the length is returned
    all the same, once the bus is owned. *)
Example wide_words :
  let s := set_owner 1 (set_devices (<[1 := mk_config RT_SPI_MSB 32 1000000]> ∅) demo_spi) in
  wp (rt_spi_send 1 [1; 2] 2) (λ r s', r = 2 ∧ the_slave s' = ([[]], None)) s.
Proof. by split. Qed.
