(* ===== verification/FlashStack.v ===== *)
(** * The whole stack: block device, flash driver, bus and chip
      ([spi_flash_sfud.c])

    [spi_write_read] is the port of the flash driver: a transfer of it is one
    frame to the chip.  A chip that keeps the promises of [NorFlash] frame by
    frame therefore keeps them behind the bus, and the block device over flash
    driver, bus and controller is an array of sectors.  A simulated serial
    flash shows that a chip can keep these promises: it collects the bytes of a
    frame, answers by their number, and carries the command out when it is
    deselected. *)

From S2P Require Import Prelude DfsPath Sfud SfudSpec SfudBlock Spi SpiSpec.
Open Scope Z_scope.

Create HintDb keeps.

Section port.
Context `{SpiSlave} (device : Z).

(** The error, and what was received. *)
Definition spi_write_read (write_buf : list Z) (read_size : Z) : SP (Z * list Z) :=
  let write_size := Z.of_nat (length write_buf) in
  if negb (write_size =? 0) && negb (read_size =? 0) then
    let! r := rt_spi_send_then_recv device write_buf write_size read_size in
    ret (if negb (r.1 =? RT_EOK) then SFUD_ERR_TIMEOUT else SFUD_SUCCESS, r.2)
  else if negb (write_size =? 0) then
    let! r := rt_spi_send device write_buf write_size in
    ret (if r =? 0 then SFUD_ERR_TIMEOUT else SFUD_SUCCESS, [])
  else
    let! r := rt_spi_recv device read_size in
    ret (if r.1 =? 0 then SFUD_ERR_TIMEOUT else SFUD_SUCCESS, r.2).

(** A transfer that sends something is one frame, whatever device owned the
    bus before; afterwards the device owns it, with its own parameters in the
    controller. *)
Lemma write_read_run w n s : linked device s → w ≠ [] → 0 ≤ n →
  spi_write_read w n s =
    Ok (SFUD_SUCCESS, (frame w (Z.to_nat n) (the_slave s)).1)
      (transferred device (frame w (Z.to_nat n) (the_slave s)).2 s).
Proof.
  intros Hl Hw Hn. unfold spi_write_read. rewrite of_nat_zero by done. cbn [negb andb].
  destruct (Z.eqb_spec n 0) as [->|Hne]; cbn [negb].
  - rewrite (bind_ok _ _ _ _ _ (send_run device w s Hl Hw)). rewrite of_nat_zero by done. done.
  - by rewrite (bind_ok _ _ _ _ _ (send_then_recv_run device w n s Hl Hw ltac:(lia))).
Qed.

(** ** No operation unlinks the device *)
Definition keeps {A} (m : SP A) : Prop :=
  ∀ s a s', m s = Ok a s' → devices s' = devices s ∧ take_result s' = take_result s.

Lemma keeps_bind {A B} (m : SP A) (k : A → SP B) : keeps m → (∀ a, keeps (k a)) → keeps (bind m k).
Proof.
  intros Hm Hk s b s'. unfold bind. destruct (m s) as [a s1|] eqn:E; [|done]. intros E2.
  destruct (Hm _ _ _ E), (Hk _ _ _ _ E2). split; congruence.
Qed.
Lemma keeps_ret {A} (a : A) : keeps (ret a).
Proof. by intros s b s' [= _ <-]. Qed.
Lemma keeps_fail {A} f : keeps (A := A) (fail f).
Proof. done. Qed.
Lemma keeps_gets {A} (f : spi → A) : keeps (gets f).
Proof. by intros s b s' [= _ <-]. Qed.
Lemma keeps_modify f : (∀ s, devices (f s) = devices s ∧ take_result (f s) = take_result s) → keeps (modify f).
Proof. by intros Hf s b s' [= _ <-]. Qed.
Lemma keeps_option {A} f (o : option A) : keeps (from_option f o).
Proof. destruct o; [apply keeps_ret|apply keeps_fail]. Qed.
Hint Resolve keeps_bind keeps_ret keeps_fail keeps_gets keeps_modify keeps_option : keeps.

Lemma keeps_if {A} (b : bool) (m1 m2 : SP A) : keeps m1 → keeps m2 → keeps (if b then m1 else m2).
Proof. by destruct b. Qed.
Hint Resolve keeps_if : keeps.

Lemma exchange_loop_keeps n : ∀ p, keeps (exchange_loop n p).
Proof.
  induction n as [|n IH]; intros p; cbn [exchange_loop]; [auto with keeps|].
  apply keeps_bind; [destruct p as [[|]|]; cbn [next_word]; auto with keeps|]. intros [d q].
  apply keeps_bind; [unfold exchange_word; auto 8 with keeps|]. intros x. auto with keeps.
Qed.
Hint Resolve exchange_loop_keeps : keeps.

Lemma xfer_keeps m : keeps (xfer device m).
Proof. unfold xfer, config_of, chip_select. auto 12 with keeps. Qed.
Lemma take_lock_keeps : keeps take_lock.
Proof. unfold take_lock. auto 10 with keeps. Qed.
Lemma own_keeps : keeps (own device).
Proof. unfold own, config_of, configure. auto 14 with keeps. Qed.
Lemma spi_exit_keeps {A} (r : A) : keeps (spi_exit r).
Proof. unfold spi_exit, release_lock. auto with keeps. Qed.
Hint Resolve xfer_keeps take_lock_keeps own_keeps spi_exit_keeps : keeps.

Lemma transfer_keeps p b n : keeps (rt_spi_transfer device p b n).
Proof. unfold rt_spi_transfer, rt_set_errno. auto 14 with keeps. Qed.
Hint Resolve transfer_keeps : keeps.

Lemma write_read_keeps w n : keeps (spi_write_read w n).
Proof. unfold spi_write_read, rt_spi_send, rt_spi_recv, rt_spi_send_then_recv. auto 16 with keeps. Qed.

Lemma keeps_linked {A} (m : SP A) s a s' : keeps m → linked device s → m s = Ok a s' → linked device s'.
Proof.
  intros Hm [(c & Hc & Hw) Hl] E. destruct (Hm _ _ _ E) as [Ed Et].
  split; [exists c; by rewrite Ed|by rewrite Et].
Qed.
End port.

(** ** The chip behind the bus *)
Section stack.
Context `{SpiSlave} (device : Z).

(** The port of a chip to which a transfer is one frame. *)
Definition frame_port : FlashPort := {|
  bus := slave;
  wr w n c := ((SFUD_SUCCESS, (frame w (Z.to_nat n) c).1), (frame w (Z.to_nat n) c).2);
  delay := wait |}.

(** The port of the driver: the bus, with the device linked to it.  A run that
    ends in a fault, which [link_wr_run] rules out, would count as a failure. *)
Definition link : Type := { s : spi | linked device s }.
Definition link_wr (w : list Z) (n : Z) (b : link) : (Z * list Z) * link :=
  match spi_write_read device w n (`b) as r return spi_write_read device w n (`b) = r → _ with
  | Ok a s' => λ E, (a, s' ↾ keeps_linked device _ _ _ _ (write_read_keeps device w n) (proj2_sig b) E)
  | Fault _ => λ _, ((SFUD_ERR_TIMEOUT, []), b)
  end eq_refl.
Lemma linked_wait (s : spi) : linked device s → linked device (set_slave (wait (the_slave s)) s).
Proof. intros [Hc Hl]. by split. Qed.
Definition link_port : FlashPort := {|
  bus := link;
  wr := link_wr;
  delay b := set_slave (wait (the_slave (`b))) (`b) ↾ linked_wait _ (proj2_sig b) |}.

Lemma link_wr_ok w n b a s' : spi_write_read device w n (`b) = Ok a s' →
  ∃ b', link_wr w n b = (a, b') ∧ `b' = s'.
Proof.
  intros E. unfold link_wr.
  generalize (keeps_linked device (spi_write_read device w n) (`b)). intros K.
  set (K' := λ a s' E, K a s' (write_read_keeps device w n) (proj2_sig b) E).
  change (∃ b', match spi_write_read device w n (`b) as r return spi_write_read device w n (`b) = r → (Z * list Z) * link with
    | Ok a s' => λ E, (a, s' ↾ K' a s' E) | Fault _ => λ _, ((SFUD_ERR_TIMEOUT, []), b) end eq_refl = (a, b') ∧ `b' = s').
  generalize K'. clear K' K. rewrite E. intros K'. by eexists.
Qed.

Lemma link_wr_run w n (b : link) : w ≠ [] → 0 ≤ n →
  ∃ b', link_wr w n b = ((SFUD_SUCCESS, (frame w (Z.to_nat n) (the_slave (`b))).1), b') ∧
    the_slave (`b') = (frame w (Z.to_nat n) (the_slave (`b))).2.
Proof.
  intros Hw Hn. destruct (link_wr_ok w n b _ _ (write_read_run device w n (`b) (proj2_sig b) Hw Hn)) as (b' & E & Eb).
  exists b'. split; [exact E|]. by rewrite Eb.
Qed.

Lemma link_frame w n (b : link) a c' : w ≠ [] → 0 ≤ n → @wr frame_port w n (the_slave (`b)) = (a, c') →
  ∃ b', link_wr w n b = (a, b') ∧ the_slave (`b') = c'.
Proof. intros Hw Hn E. injection E as <- <-. by apply link_wr_run. Qed.

Context (chip : @NorFlash frame_port) (chip_ok : @NorFlashOk frame_port chip).
Definition link_flash : @NorFlash link_port := @Build_NorFlash link_port
  (@cap _ chip) (@gran _ chip) (@gran_cmd _ chip) (@polls _ chip)
  (λ b, @mem _ chip (the_slave (`b))) (λ b, @wel _ chip (the_slave (`b)))
  (λ b, @busy _ chip (the_slave (`b))) (λ b, @wide _ chip (the_slave (`b))).

(** The promises of the chip hold behind the bus. *)
Lemma link_ok : @NorFlashOk link_port link_flash.
Proof.
  destruct chip_ok as [Hgeo Hstatus Hdelay Henable Hprog Herase Hchip Hread]. split.
  - exact Hgeo.
  - intros b. destruct (Hstatus (the_slave (`b))) as (st & c' & E & Hrest).
    eapply (link_frame _ _ b) in E as (b' & E' & Eb); [|done|done].
    exists st, b'. split; [exact E'|]. unfold same in *. cbn. rewrite Eb. exact Hrest.
  - intros b. exact (Hdelay (the_slave (`b))).
  - intros b e Hb. destruct (Henable (the_slave (`b)) e Hb) as (l & c' & E & Hrest).
    eapply (link_frame _ _ b) in E as (b' & E' & Eb); [|done|done].
    exists l, b'. split; [exact E'|]. unfold same in *. cbn. rewrite Eb. exact Hrest.
  - intros b a d Hb Hw Hd Ha Hc Hp. destruct (Hprog (the_slave (`b)) a d Hb Hw Hd Ha Hc Hp) as (l & c' & E & Hrest).
    eapply (link_frame _ _ b) in E as (b' & E' & Eb); [|done|done].
    exists l, b'. split; [exact E'|]. cbn. rewrite Eb. exact Hrest.
  - intros b a Hb Hw Ha. destruct (Herase (the_slave (`b)) a Hb Hw Ha) as (l & c' & E & Hrest).
    eapply (link_frame _ _ b) in E as (b' & E' & Eb); [|done|done].
    exists l, b'. split; [exact E'|]. cbn. rewrite Eb. exact Hrest.
  - intros b Hb Hw. destruct (Hchip (the_slave (`b)) Hb Hw) as (l & c' & E & Hrest).
    eapply (link_frame _ _ b) in E as (b' & E' & Eb); [|done|done].
    exists l, b'. split; [exact E'|]. cbn. rewrite Eb. exact Hrest.
  - intros b a n Hb Ha Hn Hc. destruct (Hread (the_slave (`b)) a n Hb Ha Hn Hc) as (c' & E & Hrest).
    eapply (link_frame _ _ b) in E as (b' & E' & Eb); [|done|exact Hn].
    exists b'. split; [exact E'|]. unfold same in *. cbn. rewrite Eb. exact Hrest.
Qed.
End stack.

(** ** The serial flash *)

(** A flash memory, and the bytes of the frame that is open. *)
Definition serial : Type := nor * option (list Z).

(** The command of a frame, at its end. *)
Definition serial_done (l : list Z) (b : nor) : nor :=
  match l with
  | c :: _ =>
    if c =? SFUD_CMD_READ_STATUS_REGISTER then mk_nor (cells b) (latch b) (pred (rest b))
    else if (rest b =? 0)%nat then (nor_command l 0 b).2 else b
  | [] => b
  end.

(** The answer after the bytes [l]. *)
Definition serial_answer (l : list Z) (b : nor) : Z :=
  match l with
  | c :: args =>
    if c =? SFUD_CMD_READ_STATUS_REGISTER then nor_status b
    else if negb (rest b =? 0)%nat then 0xFF
    else if c =? SFUD_CMD_JEDEC_ID then [0xEF; 0x40; 0x13] !!! length args
    else if c =? SFUD_CMD_READ_DATA then
      match args with
      | h :: m :: l :: d => cells b (nor_address h m l + Z.of_nat (length d))
      | _ => 0xFF
      end
    else 0xFF
  | [] => 0xFF
  end.

#[export] Instance serial_slave : SpiSlave := {|
  slave := serial;
  select e c := if e then (c.1, Some [])
                else (match c.2 with Some l => serial_done l c.1 | None => c.1 end, None);
  exchange d c := match c.2 with
                  | Some l => (serial_answer l c.1, (c.1, Some (l ++ [d])))
                  | None => (0xFF, c)
                  end;
  wait c := c;
  SystemCoreClock := 120000000
|}.

Lemma push_serial w : ∀ l (b : nor), @push serial_slave w (b, Some l) = (b, Some (l ++ w)).
Proof.
  induction w as [|d w IH]; intros l b; simpl; [by rewrite app_nil_r|]. by rewrite IH, <- app_assoc.
Qed.

Lemma frame_command w (c : serial) : @frame serial_slave w 0 c = ([], (serial_done w c.1, None)).
Proof. unfold frame. simpl. by rewrite push_serial. Qed.

(** The bytes of a read come in order. *)
Lemma pull_serial n : ∀ h m l d (b : nor), rest b = 0%nat →
  @pull serial_slave n (b, Some (SFUD_CMD_READ_DATA :: h :: m :: l :: d)) =
    (cells b <$> seqZ (nor_address h m l + Z.of_nat (length d)) (Z.of_nat n),
     (b, Some (SFUD_CMD_READ_DATA :: h :: m :: l :: d ++ replicate n 0xFF))).
Proof.
  induction n as [|n IH]; intros h m l d b Hb; [by rewrite app_nil_r|].
  cbn [pull]. cbn -[seqZ Z.of_nat]. rewrite Hb. rewrite (IH h m l (d ++ [0xFF]) b Hb). cbn [fst snd].
  f_equal.
  - rewrite (seqZ_cons _ (Z.of_nat (S n))) by lia. rewrite fmap_cons. do 3 f_equal.
    + rewrite length_app. simpl. lia.
    + lia.
  - by rewrite <- app_assoc.
Qed.

Lemma frame_read h m l n (c : serial) : rest c.1 = 0%nat →
  @frame serial_slave [SFUD_CMD_READ_DATA; h; m; l] n c =
    (cells c.1 <$> seqZ (nor_address h m l) (Z.of_nat n), (c.1, None)).
Proof.
  intros Hr. unfold frame. change (@select serial_slave true c) with (c.1, Some ([] : list Z)).
  rewrite push_serial. change ([] ++ ?l) with l. rewrite pull_serial by done.
  change (Z.of_nat (length [])) with 0. rewrite Z.add_0_r. cbn -[seqZ Z.of_nat]. by rewrite Hr.
Qed.

#[export] Instance serial_flash : @NorFlash (@frame_port serial_slave) := @Build_NorFlash (@frame_port serial_slave)
  (512 * 1024) 4096 0x20 2 (λ c : serial, cells c.1) (λ c, latch c.1) (λ c, rest c.1) (λ _, false).

#[export] Instance serial_ok : @NorFlashOk (@frame_port serial_slave) serial_flash.
Proof.
  split.
  - split; [done|]. split; [done|]. by exists 128.
  - intros [b o]. exists (nor_status b). eexists. split; [reflexivity|]. split; [done|]. split; [done|].
    split; [done|]. unfold nor_status. simpl. split; [by destruct (rest b), (latch b)|].
    intros ->. by destruct (latch b).
  - intros c. split; [done|]. split; [done|]. simpl. lia.
  - intros [b o] e Hb. do 2 eexists. cbn [wr frame_port]. split; [by rewrite frame_command|].
    simpl in *. rewrite Hb. by destruct e.
  - intros [b o] a d Hb Hw Hd Ha Hc Hp. do 2 eexists. cbn [wr frame_port]. split; [by rewrite frame_command|].
    simpl in *. rewrite Hb. unfold nor_command. simpl. rewrite Hw. simpl.
    rewrite address_back by (destruct d; simpl in *; lia). split; [done|]. split; [done|lia].
  - intros [b o] a Hb Hw Ha. do 2 eexists. cbn [wr frame_port]. split; [by rewrite frame_command|].
    simpl in *. rewrite Hb. unfold nor_command. simpl. rewrite Hw. simpl.
    rewrite address_back by lia. split; [done|]. split; [done|lia].
  - intros [b o] Hb Hw. do 2 eexists. cbn [wr frame_port]. split; [by rewrite frame_command|].
    simpl in *. rewrite Hb. unfold nor_command. simpl. rewrite Hw. split; [done|]. split; [done|simpl; lia].
  - intros [b o] a n Hb Ha Hn Hc. simpl in Hb, Hc.
    pose proof (frame_read (Z.land (Z.shiftr a 16) 0xFF) (Z.land (Z.shiftr a 8) 0xFF) (Z.land (Z.shiftr a 0) 0xFF)
      (Z.to_nat n) (b, o) Hb) as E. rewrite address_back, Z2Nat.id in E by lia. exists (b, None).
    split; [|done]. cbn [wr frame_port].
    change (SFUD_CMD_READ_DATA :: address_bytes _ a) with [SFUD_CMD_READ_DATA; Z.land (Z.shiftr a 16) 0xFF;
      Z.land (Z.shiftr a 8) 0xFF; Z.land (Z.shiftr a 0) 0xFF].
    by rewrite E.
Qed.

(** ** The stack *)
Section stack.
Context `{SpiSlave} (device : Z).
Context (serial_chip : @NorFlash frame_port) (serial_chip_ok : @NorFlashOk frame_port serial_chip).

#[local] Instance stack_port : FlashPort := link_port device.
#[local] Instance stack_flash : NorFlash := link_flash device serial_chip.
#[local] Instance stack_ok : NorFlashOk := link_ok device serial_chip serial_chip_ok.

(** The contents of the chip behind the bus. *)
Definition contents (s : sfud) (x : Z) : Z := @mem _ serial_chip (the_slave (proj1_sig (the_bus s))) x.

(** C18: The block device over the bus is an array of sectors, whatever chip is
    behind it that keeps the promises of a flash memory frame by frame, and
    whatever devices share the bus.  Writing whole sectors succeeds, changes
    these sectors and no other byte of the chip, and reading them afterwards
    gives the bytes that were written. *)
Theorem flash_stack_correct (s : sfud) (pos size : Z) (data : list Z) :
  ready s → write_mode (chip (flash s)) = SFUD_WM_PAGE_256B →
  0 ≤ pos → 0 < size → (pos + size) * gran ≤ cap →
  Z.of_nat (List.length data) = size * gran → Forall is_byte data →
  let g := geometry_of (chip (flash s)) in
  ∃ s1, rt_sfud_write g pos data size s = Ok size s1 ∧ ready s1 ∧
    (∀ x, ¬ (pos * gran ≤ x < (pos + size) * gran) → contents s1 x = contents s x) ∧
    ∃ s2, rt_sfud_read g pos size s1 = Ok (size, Some data) s2 ∧ ready s2 ∧ ∀ x, contents s2 x = contents s1 x.
Proof.
  intros Hr Hm Hp Hs Hc Hl Hd g.
  destruct (block_device_run s pos size data Hr Hm Hp Hs Hc Hl Hd) as (b1 & E1 & Hr1 & Ho & b2 & E2 & Hr2 & Hsame).
  exists (set_bus b1 s). split; [exact E1|]. split; [exact Hr1|]. split; [exact Ho|].
  exists (set_bus b2 s). split; [exact E2|]. by split.
Qed.
End stack.

(** Device 2 of a bus that device 1 owns is the serial flash. *)
Definition stack_spi : @spi serial_slave :=
  mk_spi 1 0 RT_EOK (<[1 := demo_config 1000000]> (<[2 := demo_config 50000000]> ∅)) None 0
    (mk_nor (λ _, 0) false 0, None).
Lemma stack_linked : linked 2 stack_spi.
Proof. split; [exists (demo_config 50000000); by split|done]. Qed.
Definition stack_state : @sfud (@link_port serial_slave 2) :=
  @mk_sfud (@link_port serial_slave 2) nor_known 0 (stack_spi ↾ stack_linked).

Lemma flash_stack_correct_witness :
  ∃ s1 s2, rt_sfud_write (geometry_of (chip nor_known)) 3 (replicate 4096 0x5A) 1 stack_state = Ok 1 s1 ∧
    rt_sfud_read (geometry_of (chip nor_known)) 3 1 s1 = Ok (1, Some (replicate 4096 0x5A)) s2.
Proof.
  destruct (@flash_stack_correct serial_slave 2 serial_flash serial_ok stack_state 3 1 (replicate 4096 0x5A))
    as (s1 & E1 & _ & _ & s2 & E2 & _).
  - split; [split|]; try reflexivity. apply Nat.leb_le. vm_compute. reflexivity.
  - reflexivity.
  - lia.
  - lia.
  - apply Z.leb_le. reflexivity.
  - reflexivity.
  - apply Forall_replicate. split; lia.
  - exists s1, s2. split; [exact E1|exact E2].
Defined.

(** The driver finds the flash over the bus. *)
Example stack_found :
  wp sfud_device_init (λ r s, r = SFUD_SUCCESS ∧ flash s = nor_known)
    (@mk_sfud (@link_port serial_slave 2) (flash nor_blank) 0 (stack_spi ↾ stack_linked)).
Proof. vm_compute. by split. Qed.
