(* ===== verification/DfsLfs.v ===== *)
(** * The littlefs driver of the file system layer
      ([components/littlefs-v2.1.4/dfs_lfs.c])

    The operations that the file system layer calls for the type [lfs].  They
    keep a table of mounted devices, a structure for each mounted file system
    and one for each open file, and translate errors and descriptions.  The
    file system itself (lfs.c, third-party code), the allocator and the flash
    device are the class [Littlefs]. *)

From S2P Require Import Prelude DfsPath Dfs.
From Stdlib Require Import String.
Open Scope Z_scope.

(** ** Constants

    Of the driver, with the values of [rtconfig.h], and of [lfs.h], [rtdef.h],
    [libc_errno.h], [libc_fcntl.h], [libc_stat.h] and [libc_dirent.h]. *)
Definition RT_DEF_LFS_DRIVERS : nat := 1.
Definition LFS_READ_SIZE : Z := 4096.
Definition LFS_PROG_SIZE : Z := 4096.
Definition LFS_BLOCK_SIZE : Z := 4096.
Definition LFS_CACHE_SIZE : Z := 4096.
Definition LFS_BLOCK_CYCLES : Z := 100.
Definition LFS_LOOKAHEAD_MAX : Z := 128.

Definition LFS_ERR_OK : Z := 0.
Definition LFS_ERR_IO : Z := -5.
Definition LFS_ERR_CORRUPT : Z := -84.
Definition LFS_ERR_NOENT : Z := -2.
Definition LFS_ERR_EXIST : Z := -17.
Definition LFS_ERR_NOTDIR : Z := -20.
Definition LFS_ERR_ISDIR : Z := -21.
Definition LFS_ERR_NOTEMPTY : Z := -39.
Definition LFS_ERR_BADF : Z := -9.
Definition LFS_ERR_INVAL : Z := -22.
Definition LFS_ERR_NOSPC : Z := -28.
Definition LFS_ERR_NOMEM : Z := -12.
Definition LFS_TYPE_REG : Z := 1.
Definition LFS_TYPE_DIR : Z := 2.
Definition LFS_O_RDONLY : Z := 1.
Definition LFS_O_WRONLY : Z := 2.
Definition LFS_O_RDWR : Z := 3.
Definition LFS_O_CREAT : Z := 0x100.
Definition LFS_O_EXCL : Z := 0x200.
Definition LFS_O_TRUNC : Z := 0x400.
Definition LFS_O_APPEND : Z := 0x800.

Definition RT_Device_Class_MTD : Z := 3.
Definition EISDIR : Z := ERROR_BASE_NO + 21.
Definition ENOTEMPTY : Z := ERROR_BASE_NO + 39.
Definition O_WRONLY : Z := 1.
Definition O_RDWR : Z := 2.
Definition O_EXCL : Z := 0x80.
Definition O_TRUNC : Z := 0x200.
Definition S_IRWXU : Z := 0x1C0.
Definition S_IRWXG : Z := 0x38.
Definition S_IRWXO : Z := 0x7.
Definition S_IFDIR : Z := 0x4000.
Definition S_IFREG : Z := 0x8000.
Definition DT_UNKNOWN : Z := 0.
Definition DT_REG : Z := 1.
Definition DT_DIR : Z := 2.
Definition sizeof_dirent : Z := 260.

(** ** Data *)

(** [struct lfs_config]; the four operations are those of this file. *)
Record lfs_config := mk_cfg {
  context : Z;
  read_size : Z;
  prog_size : Z;
  block_size : Z;
  cache_size : Z;
  block_cycles : Z;
  block_count : Z;
  lookahead_size : Z
}.

(** [struct rt_mtd_nor_device] *)
Record rt_mtd_nor_device := mk_mtd { mtd_type : Z; mtd_block_size : Z; block_start : Z; block_end : Z }.

(** [struct lfs_info], whose name is the text without its end *)
Record lfs_info := mk_info { info_type : Z; info_size : Z; info_name : list Z }.

(** [struct dirent] *)
Record dirent := mk_dirent { d_type : Z; d_namlen : Z; d_reclen : Z; d_name : list Z }.

(** What the driver calls.  A mounted file system and an open file are the
    addresses of their structures; [used] are those that the driver has
    allocated. *)
Class Littlefs : Type := {
  world : Type;
  rt_malloc : gset Z → world → Z * world;
  device : Z → option rt_mtd_nor_device;
  rt_mtd_nor_read : Z → Z → Z → world → (Z * list Z) * world;
  rt_mtd_nor_write : Z → Z → list Z → world → Z * world;
  rt_mtd_nor_erase_block : Z → Z → Z → world → Z * world;
  lfs_mount : Z → lfs_config → world → Z * world;
  lfs_unmount : Z → world → Z * world;
  lfs_format : Z → lfs_config → world → Z * world;
  (* the result, and for how many blocks the function was called *)
  lfs_fs_traverse : Z → world → (Z * nat) * world;
  lfs_remove : Z → list Z → world → Z * world;
  lfs_stat : Z → list Z → world → (Z * lfs_info) * world;
  lfs_rename : Z → list Z → list Z → world → Z * world;
  lfs_mkdir : Z → list Z → world → Z * world;
  lfs_dir_open : Z → Z → list Z → world → Z * world;
  lfs_dir_close : Z → Z → world → Z * world;
  lfs_dir_read : Z → Z → world → (Z * lfs_info) * world;
  lfs_dir_seek : Z → Z → Z → world → Z * world;
  lfs_file_open : Z → Z → list Z → Z → world → Z * world;
  lfs_file_close : Z → Z → world → Z * world;
  lfs_file_read : Z → Z → Z → world → (Z * list Z) * world;
  lfs_file_write : Z → Z → list Z → world → Z * world;
  lfs_file_sync : Z → Z → world → Z * world;
  lfs_file_seek : Z → Z → Z → world → Z * world;
  (* the fields [pos] and [ctz.size] of a file and [pos] of a directory *)
  file_pos : Z → world → Z;
  file_size : Z → world → Z;
  dir_pos : Z → world → Z
}.

Section driver.
Context `{Littlefs}.

(** [_lfs_mount_tbl], the structures [dfs_lfs_t] (of each its [cfg]) and
    [dfs_lfs_fd_t] (its [lfs]) that are allocated, how often [_lfs_lock] is
    held, and what is outside. *)
Record lfs_state := mk_state {
  lfs_mount_tbl : list Z;
  handles : gmap Z lfs_config;
  lfs_fds : gmap Z Z;
  lfs_held : Z;
  outside : world
}.
Definition LM := M lfs_state.

Definition set_tbl (t : list Z) (s : lfs_state) : lfs_state :=
  mk_state t (handles s) (lfs_fds s) (lfs_held s) (outside s).
Definition set_handles (h : gmap Z lfs_config) (s : lfs_state) : lfs_state :=
  mk_state (lfs_mount_tbl s) h (lfs_fds s) (lfs_held s) (outside s).
Definition set_lfs_fds (h : gmap Z Z) (s : lfs_state) : lfs_state :=
  mk_state (lfs_mount_tbl s) (handles s) h (lfs_held s) (outside s).
Definition set_lfs_held (n : Z) (s : lfs_state) : lfs_state :=
  mk_state (lfs_mount_tbl s) (handles s) (lfs_fds s) n (outside s).
Definition set_outside (w : world) (s : lfs_state) : lfs_state :=
  mk_state (lfs_mount_tbl s) (handles s) (lfs_fds s) (lfs_held s) w.

Definition outer {A} (f : world → A * world) : LM A :=
  let! w := read outside in
  modify (set_outside (f w).2) ;;;
  ret (f w).1.

Definition lfs_dfs_lock : LM unit := modify (λ s, set_lfs_held (lfs_held s + 1) s).
Definition lfs_dfs_unlock : LM unit := modify (λ s, set_lfs_held (lfs_held s - 1) s).
(** The end of a path through a function. *)
Definition unlock_ret {A} (r : A) : LM A := lfs_dfs_unlock ;;; ret r.

Definition device_at (dev_id : Z) : LM rt_mtd_nor_device := from_option NullDeref (device dev_id).
Definition handle_at (p : Z) : LM lfs_config :=
  let! h := read handles in from_option NullDeref (h !! p).
Definition file_at (q : Z) : LM Z :=
  let! h := read lfs_fds in from_option NullDeref (h !! q).

Definition used (s : lfs_state) : gset Z := dom (handles s) ∪ dom (lfs_fds s).
Definition malloc : LM Z :=
  let! u := read used in outer (rt_malloc u).
Definition free_handle (p : Z) : LM unit :=
  handle_at p ;;; modify (λ s, set_handles (delete p (handles s)) s).
Definition free_fd (q : Z) : LM unit :=
  file_at q ;;; modify (λ s, set_lfs_fds (delete q (lfs_fds s)) s).

(** ** The flash below *)
Definition _lfs_flash_read (c : lfs_config) (block off size : Z) : LM (Z * list Z) :=
  let! r := outer (rt_mtd_nor_read (context c) (s32 (u32 (block * block_size c + off))) size) in
  ret (if r.1 =? size then LFS_ERR_OK else LFS_ERR_IO, r.2).
Definition _lfs_flash_prog (c : lfs_config) (block off : Z) (buffer : list Z) : LM Z :=
  let! r := outer (rt_mtd_nor_write (context c) (s32 (u32 (block * block_size c + off))) buffer) in
  ret (if r =? Z.of_nat (List.length buffer) then LFS_ERR_OK else LFS_ERR_IO).
Definition _lfs_flash_erase (c : lfs_config) (block : Z) : LM Z :=
  let! r := outer (rt_mtd_nor_erase_block (context c) (s32 (u32 (block * block_size c))) (block_size c)) in
  ret (if r =? 0 then LFS_ERR_OK else LFS_ERR_IO).
Definition _lfs_flash_sync (c : lfs_config) : LM Z := ret LFS_ERR_OK.

(** ** Table, errors and configuration *)

(** The loops over the table: the first empty entry for the null device, or
    that of a device. *)
Fixpoint disk_loop (dev_id : Z) (index : Z) (tbl : list Z) : LM Z :=
  match tbl with
  | [] => ret (-1)
  | p :: tbl =>
    let! found :=
      if dev_id =? 0 then ret (p =? 0)
      else if p =? 0 then ret false
      else let! c := handle_at p in ret (context c =? dev_id) in
    if (found : bool) then ret index else disk_loop dev_id (index + 1) tbl
  end.
Definition _get_disk (dev_id : Z) : LM Z :=
  let! tbl := read lfs_mount_tbl in disk_loop dev_id 0 tbl.
Definition set_entry (index p : Z) : LM unit :=
  modify (λ s, set_tbl (<[Z.to_nat index := p]> (lfs_mount_tbl s)) s).

Definition _lfs_result_to_dfs (result : Z) : Z :=
  if result =? LFS_ERR_OK then 0
  else if result =? LFS_ERR_IO then - EIO
  else if result =? LFS_ERR_NOENT then - ENOENT
  else if result =? LFS_ERR_EXIST then - EEXIST
  else if result =? LFS_ERR_NOTDIR then - ENOTDIR
  else if result =? LFS_ERR_ISDIR then - EISDIR
  else if result =? LFS_ERR_NOTEMPTY then - ENOTEMPTY
  else if result =? LFS_ERR_BADF then - EBADF
  else if result =? LFS_ERR_INVAL then - EINVAL
  else if result =? LFS_ERR_NOSPC then - ENOSPC
  else if result =? LFS_ERR_NOMEM then - ENOMEM
  else if result =? LFS_ERR_CORRUPT then -52
  else - EIO.

Definition _lfs_load_config (dev_id : Z) (mtd_nor : rt_mtd_nor_device) : lfs_config :=
  let block_size := if mtd_block_size mtd_nor <? LFS_BLOCK_SIZE then LFS_BLOCK_SIZE else mtd_block_size mtd_nor in
  let block_count := u32 (block_end mtd_nor - block_start mtd_nor) in
  let lookahead_size := u32 (32 * (u32 (block_count + 31) / 32)) in
  mk_cfg dev_id LFS_READ_SIZE LFS_PROG_SIZE block_size LFS_CACHE_SIZE LFS_BLOCK_CYCLES block_count
    (if LFS_LOOKAHEAD_MAX <? lookahead_size then LFS_LOOKAHEAD_MAX else lookahead_size).

(** ** File systems *)

(** The result, and [dfs->data]. *)
Definition _dfs_lfs_mount (dfs : dfs_filesystem) : LM (Z * Z) :=
  let! dev := device_at (dev_id dfs) in
  if negb (mtd_type dev =? RT_Device_Class_MTD) then ret (- EINVAL, fs_data dfs)
  else
    lfs_dfs_lock ;;;
    let! index := _get_disk 0 in
    if index =? -1 then unlock_ret (- EIO, fs_data dfs)
    else
      let! dfs_lfs := malloc in
      if dfs_lfs =? 0 then unlock_ret (- ENOMEM, fs_data dfs)
      else
        let cfg := _lfs_load_config (dev_id dfs) dev in
        modify (λ s, set_handles (<[dfs_lfs := cfg]> (handles s)) s) ;;;
        let! result := outer (lfs_mount dfs_lfs cfg) in
        if negb (result =? LFS_ERR_OK) then
          lfs_dfs_unlock ;;;
          free_handle dfs_lfs ;;;
          ret (- EIO, fs_data dfs)
        else
          set_entry index dfs_lfs ;;;
          unlock_ret (0, dfs_lfs).

Definition _dfs_lfs_unmount (dfs : dfs_filesystem) : LM (Z * Z) :=
  lfs_dfs_lock ;;;
  let! index := _get_disk (dev_id dfs) in
  if index =? -1 then unlock_ret (- ENOENT, fs_data dfs)
  else
    set_entry index 0 ;;;
    let dfs_lfs := fs_data dfs in
    handle_at dfs_lfs ;;;
    let! result := outer (lfs_unmount dfs_lfs) in
    lfs_dfs_unlock ;;;
    free_handle dfs_lfs ;;;
    ret (_lfs_result_to_dfs result, 0).

(** A device that is not mounted. *)
Definition mkfs_new (dev_id : Z) (dev : rt_mtd_nor_device) : LM Z :=
  let! index := _get_disk 0 in
  if index =? -1 then unlock_ret (- ENOSPC)
  else
    let! dfs_lfs := malloc in
    if dfs_lfs =? 0 then
      set_entry index 0 ;;;
      unlock_ret (- ENOMEM)
    else
      let cfg := _lfs_load_config dev_id dev in
      modify (λ s, set_handles (<[dfs_lfs := cfg]> (handles s)) s) ;;;
      let! result := outer (lfs_format dfs_lfs cfg) in
      unlock_ret (_lfs_result_to_dfs result).

(** One that is mounted at [index]. *)
Definition mkfs_mounted (index dev_id : Z) (dev : rt_mtd_nor_device) : LM Z :=
  let! tbl := read lfs_mount_tbl in
  let! dfs_lfs := from_option OutOfBounds (tbl !! Z.to_nat index) in
  let! cfg := handle_at dfs_lfs in
  let! result := outer (lfs_unmount dfs_lfs) in
  if negb (result =? LFS_ERR_OK) then unlock_ret (_lfs_result_to_dfs result)
  else
    set_entry index 0 ;;;
    let! result := outer (lfs_format dfs_lfs cfg) in
    if negb (result =? LFS_ERR_OK) then unlock_ret (_lfs_result_to_dfs result)
    else
      let cfg := _lfs_load_config dev_id dev in
      modify (λ s, set_handles (<[dfs_lfs := cfg]> (handles s)) s) ;;;
      let! result := outer (lfs_mount dfs_lfs cfg) in
      (when result =? LFS_ERR_OK then set_entry index dfs_lfs) ;;;
      unlock_ret (_lfs_result_to_dfs result).

Definition _dfs_lfs_mkfs (dev_id : Z) : LM Z :=
  if dev_id =? 0 then ret (- EINVAL)
  else
    lfs_dfs_lock ;;;
    let! dev := device_at dev_id in
    if negb (mtd_type dev =? RT_Device_Class_MTD) then unlock_ret (- EINVAL)
    else
      let! index := _get_disk dev_id in
      if index =? -1 then mkfs_new dev_id dev else mkfs_mounted index dev_id dev.

(** The function that is called for each block. *)
Definition _dfs_lfs_statfs_count (p : Z) : Z := u32 (p + 1).

Definition _dfs_lfs_statfs (dfs : dfs_filesystem) (buf : statfs_buf) : LM (Z * statfs_buf) :=
  lfs_dfs_lock ;;;
  let! cfg := handle_at (fs_data dfs) in
  let! r := outer (lfs_fs_traverse (fs_data dfs)) in
  if negb (r.1 =? LFS_ERR_OK) then unlock_ret (_lfs_result_to_dfs r.1, buf)
  else
    unlock_ret (0, mk_statfs (block_size cfg) (block_count cfg)
      (u32 (block_count cfg - Nat.iter r.2 _dfs_lfs_statfs_count 0))).

(** A call of littlefs for a path, under the lock. *)
Definition path_call {A} (dfs : dfs_filesystem) (f : Z → world → A * world) : LM A :=
  lfs_dfs_lock ;;;
  handle_at (fs_data dfs) ;;;
  let! r := outer (f (fs_data dfs)) in
  unlock_ret r.

Definition _dfs_lfs_unlink (dfs : dfs_filesystem) (path : list Z) : LM Z :=
  let! result := path_call dfs (λ p, lfs_remove p path) in
  ret (_lfs_result_to_dfs result).

Definition _dfs_lfs_tostat (info : lfs_info) : stat_buf :=
  let mode := Z.lor (Z.lor S_IRWXU S_IRWXG) S_IRWXO in
  mk_stat 0
    (if info_type info =? LFS_TYPE_DIR then Z.lor mode S_IFDIR
     else if info_type info =? LFS_TYPE_REG then Z.lor mode S_IFREG
     else mode)
    (info_size info) 0.

Definition _dfs_lfs_stat (dfs : dfs_filesystem) (path : list Z) (st : stat_buf) : LM (Z * stat_buf) :=
  let! r := path_call dfs (λ p, lfs_stat p path) in
  ret (if negb (r.1 =? LFS_ERR_OK) then (_lfs_result_to_dfs r.1, st) else (0, _dfs_lfs_tostat r.2)).

Definition _dfs_lfs_rename (dfs : dfs_filesystem) (from to : list Z) : LM Z :=
  let! result := path_call dfs (λ p, lfs_rename p from to) in
  ret (_lfs_result_to_dfs result).

(** ** Files *)

(** [rt_malloc] and the fields of a new [dfs_lfs_fd_t]. *)
Definition new_fd (dfs_lfs : Z) : LM Z :=
  let! q := malloc in
  (when negb (q =? 0) then modify (λ s, set_lfs_fds (<[q := dfs_lfs]> (lfs_fds s)) s)) ;;;
  ret q.

(** The labels [_error_dir] and [_error_file]. *)
Definition open_error (q result : Z) (file : dfs_fd) : LM (Z * dfs_fd) :=
  (when negb (q =? 0) then free_fd q) ;;;
  unlock_ret (_lfs_result_to_dfs result, file).

Definition set_data (q : Z) (file : dfs_fd) : dfs_fd :=
  set_cursor (mk_cursor (flags file) (size file) (pos file) (OwnData q)) file.

Definition open_dir (dfs_lfs : Z) (file : dfs_fd) : LM (Z * dfs_fd) :=
  let! q := new_fd dfs_lfs in
  if q =? 0 then open_error q (- ENOMEM) file
  else
    let! p := from_option NullDeref (path file) in
    handle_at dfs_lfs ;;;
    let! result := if negb (Z.land (flags file) O_CREAT =? 0) then outer (lfs_mkdir dfs_lfs p)
                   else ret LFS_ERR_OK in
    if negb (result =? LFS_ERR_OK) then open_error q result file
    else
      let! result := outer (lfs_dir_open dfs_lfs q p) in
      if negb (result =? LFS_ERR_OK) then open_error q result file
      else unlock_ret (0, set_data q file).

(** The flags of littlefs for those of a descriptor. *)
Definition lfs_flags (fl : Z) : Z :=
  let acc := Z.land fl 3 in
  let add (b : bool) (f x : Z) := if b then Z.lor x f else x in
  let has f := negb (Z.land fl f =? 0) in
  add (has O_APPEND) LFS_O_APPEND
    (add (has O_TRUNC) LFS_O_TRUNC
      (add (has O_EXCL) LFS_O_EXCL
        (add (has O_CREAT) LFS_O_CREAT
          (add (acc =? O_RDWR) LFS_O_RDWR
            (add (acc =? O_WRONLY) LFS_O_WRONLY
              (add (acc =? O_RDONLY) LFS_O_RDONLY 0)))))).

Definition open_file (dfs_lfs : Z) (file : dfs_fd) : LM (Z * dfs_fd) :=
  let! q := new_fd dfs_lfs in
  if q =? 0 then open_error q (- ENOMEM) file
  else
    let! p := from_option NullDeref (path file) in
    handle_at dfs_lfs ;;;
    let! result := outer (lfs_file_open dfs_lfs q p (lfs_flags (flags file))) in
    if negb (result =? LFS_ERR_OK) then open_error q result file
    else
      let! w := read outside in
      unlock_ret (0, set_size (file_size q w) (set_pos (s32 (file_pos q w)) (set_data q file))).

(** [dfs] is what [file->data] points at. *)
Definition _dfs_lfs_open (dfs : dfs_filesystem) (file : dfs_fd) : LM (Z * dfs_fd) :=
  lfs_dfs_lock ;;;
  if negb (Z.land (flags file) O_DIRECTORY =? 0) then open_dir (fs_data dfs) file
  else open_file (fs_data dfs) file.

(** [file->data] of a file that was opened. *)
Definition fd_of (file : dfs_fd) : LM Z :=
  match data file with OwnData q => ret q | FsData _ => fail NullDeref end.
(** It and its [lfs], which littlefs reads. *)
Definition opened (file : dfs_fd) : LM (Z * Z) :=
  let! q := fd_of file in
  let! p := file_at q in
  handle_at p ;;;
  ret (p, q).

Definition _dfs_lfs_close (file : dfs_fd) : LM Z :=
  lfs_dfs_lock ;;;
  let! (p, q) := opened file in
  let! result := if type file =? FT_DIRECTORY then outer (lfs_dir_close p q) else outer (lfs_file_close p q) in
  free_fd q ;;;
  unlock_ret (_lfs_result_to_dfs result).

Definition _dfs_lfs_ioctl (file : dfs_fd) (cmd args : Z) : LM Z := ret (- ENOSYS).

Definition _dfs_lfs_read (file : dfs_fd) (len : Z) : LM (Z * list Z * dfs_fd) :=
  lfs_dfs_lock ;;;
  if type file =? FT_DIRECTORY then unlock_ret (- EISDIR, [], file)
  else
    let! (p, q) := opened file in
    let! r := outer (lfs_file_read p q len) in
    if r.1 <? 0 then unlock_ret (_lfs_result_to_dfs r.1, r.2, file)
    else
      let! w := read outside in
      unlock_ret (r.1, r.2, set_pos (s32 (file_pos q w)) file).

Definition _dfs_lfs_write (file : dfs_fd) (buf : list Z) : LM (Z * dfs_fd) :=
  lfs_dfs_lock ;;;
  if type file =? FT_DIRECTORY then unlock_ret (- EISDIR, file)
  else
    let! (p, q) := opened file in
    let! ssize := outer (lfs_file_write p q buf) in
    if ssize <? 0 then unlock_ret (_lfs_result_to_dfs ssize, file)
    else
      let! w := read outside in
      unlock_ret (ssize, set_size (file_size q w) (set_pos (s32 (file_pos q w)) file)).

Definition _dfs_lfs_flush (file : dfs_fd) : LM Z :=
  lfs_dfs_lock ;;;
  let! (p, q) := opened file in
  let! result := outer (lfs_file_sync p q) in
  unlock_ret (_lfs_result_to_dfs result).

Definition _dfs_lfs_lseek (file : dfs_fd) (offset : Z) : LM (Z * dfs_fd) :=
  lfs_dfs_lock ;;;
  let! (p, q) := opened file in
  if type file =? FT_REGULAR then
    let! soff := outer (lfs_file_seek p q offset) in
    if soff <? 0 then unlock_ret (_lfs_result_to_dfs soff, file)
    else
      let! w := read outside in
      unlock_ret (s32 (file_pos q w), set_pos (s32 (file_pos q w)) file)
  else if type file =? FT_DIRECTORY then
    let! soff := outer (lfs_dir_seek p q (u32 offset)) in
    if soff <? 0 then unlock_ret (_lfs_result_to_dfs soff, file)
    else
      let! w := read outside in
      unlock_ret (s32 (dir_pos q w), set_pos (s32 (dir_pos q w)) file)
  else unlock_ret (pos file, file).

Definition dot (name : list Z) : bool := bool_decide (name = chars ".") || bool_decide (name = chars "..").

Definition to_dirent (info : lfs_info) : dirent :=
  mk_dirent (if info_type info =? LFS_TYPE_DIR then Z.lor DT_UNKNOWN DT_DIR
             else if info_type info =? LFS_TYPE_REG then Z.lor DT_UNKNOWN DT_REG
             else DT_UNKNOWN)
    (u8 (Z.of_nat (List.length (info_name info)))) (u16 sizeof_dirent) (info_name info).

(** The loop of [_dfs_lfs_getdents]: the last result and the entries that are
    written; [index] is their number so far. *)
Fixpoint getdents_loop (fuel : nat) (p q count index : Z) : LM (Z * list dirent) :=
  match fuel with
  | O => fail OutOfFuel
  | S fuel =>
    let! (result, info) := outer (lfs_dir_read p q) in
    if negb (result =? 1) || bool_decide (info_name info = []) then ret (result, [])
    else if dot (info_name info) then getdents_loop fuel p q count index
    else if count <=? (index + 1) * sizeof_dirent then ret (result, [to_dirent info])
    else
      let! r := getdents_loop fuel p q count (index + 1) in
      ret (r.1, to_dirent info :: r.2)
  end.

Definition _dfs_lfs_getdents (fuel : nat) (file : dfs_fd) (count : Z) : LM (Z * list dirent * dfs_fd) :=
  lfs_dfs_lock ;;;
  let! (p, q) := opened file in
  let count := count / sizeof_dirent * sizeof_dirent in
  if count =? 0 then unlock_ret (- EINVAL, [], file)
  else
    let! (result, ds) := getdents_loop fuel p q count 0 in
    let n := Z.of_nat (List.length ds) * sizeof_dirent in
    if n =? 0 then unlock_ret (_lfs_result_to_dfs result, ds, file)
    else unlock_ret (n, ds, set_pos (pos file + n) file).
End driver.
