(* ===== verification/DfsLfsSpec.v ===== *)
(** * The littlefs driver accounts for its structures

    What each call of the file system layer does with the structures that the
    driver allocates, whatever littlefs, the flash and the allocator answer. *)

From S2P Require Import Prelude DfsPath Dfs DfsLfs.
From Stdlib Require Import String.
Open Scope Z_scope.

(** ** What the driver relies on

    The allocator returns null or memory that is not in use; a directory has
    finitely many entries left, of which a successful read takes one. *)
Class LittlefsOk `{Littlefs} : Type := {
  malloc_fresh : ∀ u w, (rt_malloc u w).1 = 0 ∨ (rt_malloc u w).1 ≠ 0 ∧ (rt_malloc u w).1 ∉ u;
  dir_left : Z → world → nat;
  dir_read_less : ∀ p q w, (lfs_dir_read p q w).1.1 = 1 →
    (dir_left q (lfs_dir_read p q w).2 < dir_left q w)%nat
}.

Section account.
Context `{LittlefsOk}.
Implicit Types (H F : gmap Z Z).

(** ** The invariant

    With the one entry of the table, the structures of the file systems and
    those of the open files. *)
Record lfs_good (e : Z) (hs : gmap Z lfs_config) (fs : gmap Z Z) : Prop := {
  g_entry : e = 0 ∨ is_Some (hs !! e);
  g_files : ∀ q p, fs !! q = Some p → is_Some (hs !! p);
  g_null : hs !! 0 = None ∧ fs !! 0 = None
}.
Definition lfs_ok (s : lfs_state) : Prop :=
  ∃ e, lfs_mount_tbl s = [e] ∧ lfs_good e (handles s) (lfs_fds s).

(** ** Runs *)
Section runs.
Context (t : list Z) (hs : gmap Z lfs_config) (fs : gmap Z Z) (n : Z) (w : world).
Abbreviation st := (mk_state t hs fs n w).

Lemma wp_outer {A} (f : world → A * world) Q :
  wp (outer f) Q st ↔ Q (f w).1 (mk_state t hs fs n (f w).2).
Proof. done. Qed.
Lemma wp_lock Q : wp lfs_dfs_lock Q st ↔ Q tt (mk_state t hs fs (n + 1) w).
Proof. done. Qed.
Lemma wp_unlock Q : wp lfs_dfs_unlock Q st ↔ Q tt (mk_state t hs fs (n - 1) w).
Proof. done. Qed.
Lemma wp_unlock_ret {A} (r : A) Q : wp (unlock_ret r) Q st ↔ Q r (mk_state t hs fs (n - 1) w).
Proof. done. Qed.
Lemma wp_set_entry i p Q : wp (set_entry i p) Q st ↔ Q tt (mk_state (<[Z.to_nat i := p]> t) hs fs n w).
Proof. done. Qed.
Lemma wp_set_handles (g : gmap Z lfs_config → gmap Z lfs_config) Q :
  wp (modify (λ s, set_handles (g (handles s)) s)) Q st ↔ Q tt (mk_state t (g hs) fs n w).
Proof. done. Qed.
Lemma wp_set_fds (g : gmap Z Z → gmap Z Z) Q :
  wp (modify (λ s, set_lfs_fds (g (lfs_fds s)) s)) Q st ↔ Q tt (mk_state t hs (g fs) n w).
Proof. done. Qed.
Lemma wp_malloc Q :
  wp malloc Q st ↔ Q (rt_malloc (used st) w).1 (mk_state t hs fs n (rt_malloc (used st) w).2).
Proof. done. Qed.
Lemma wp_handle_at p Q : wp (handle_at p) Q st ↔ ∃ c, hs !! p = Some c ∧ Q c st.
Proof.
  unfold wp, handle_at, bind, gets. simpl. unfold from_option. destruct (hs !! p); simpl; naive_solver.
Qed.
Lemma wp_file_at q Q : wp (file_at q) Q st ↔ ∃ p, fs !! q = Some p ∧ Q p st.
Proof.
  unfold wp, file_at, bind, gets. simpl. unfold from_option. destruct (fs !! q); simpl; naive_solver.
Qed.
End runs.

Section more_runs.
Context (t : list Z) (hs : gmap Z lfs_config) (fs : gmap Z Z) (n : Z) (w : world).
Abbreviation st := (mk_state t hs fs n w).

Lemma wp_free_handle p Q :
  wp (free_handle p) Q st ↔ is_Some (hs !! p) ∧ Q tt (mk_state t (delete p hs) fs n w).
Proof. unfold free_handle. rewrite wp_bind, wp_handle_at. split; [intros (c & ? & ?)|intros [[c ?] ?]]; eauto. Qed.
Lemma wp_free_fd q Q : wp (free_fd q) Q st ↔ is_Some (fs !! q) ∧ Q tt (mk_state t hs (delete q fs) n w).
Proof. unfold free_fd. rewrite wp_bind, wp_file_at. split; [intros (c & ? & ?)|intros [[c ?] ?]]; eauto. Qed.
Lemma wp_outside {A} (f : world → A) Q : wp (read outside) (λ w, Q (f w)) st ↔ Q (f w) st.
Proof. done. Qed.
Lemma wp_device d Q : wp (device_at d) Q st ↔ ∃ dev, device d = Some dev ∧ Q dev st.
Proof. unfold wp, device_at, from_option. destruct (device d); simpl; naive_solver. Qed.

End more_runs.

(** The device that the entry of the table is for, or whether it is empty. *)
Definition found (hs : gmap Z lfs_config) (e dev : Z) : bool :=
  if dev =? 0 then e =? 0
  else if e =? 0 then false
  else match hs !! e with Some c => context c =? dev | None => false end.
Lemma wp_get_disk e dev hs fs n w Q : lfs_good e hs fs →
  wp (_get_disk dev) Q (mk_state [e] hs fs n w) ↔ Q (if found hs e dev then 0 else -1) (mk_state [e] hs fs n w).
Proof.
  intros [He _ _]. unfold _get_disk, found. rewrite wp_bind, wp_gets. cbn [lfs_mount_tbl disk_loop].
  rewrite wp_bind. destruct (dev =? 0); [rewrite wp_ret; by destruct (e =? 0)|].
  destruct (Z.eqb_spec e 0) as [->|Hne]; [by rewrite wp_ret|].
  destruct He as [?|[c Hc]]; [done|]. rewrite wp_bind, wp_handle_at, Hc. split.
  - intros (? & [= <-] & HQ). rewrite wp_ret in HQ. by destruct (context c =? dev).
  - intros HQ. exists c. split; [done|]. rewrite wp_ret. by destruct (context c =? dev).
Qed.

(** ** The calls *)

(** A call has ended with the lock as before; [Q] holds of its result, the entry
    of the table and the structures. *)
Definition ended {A} (n : Z) (Q : A → Z → gmap Z lfs_config → gmap Z Z → Prop) (r : A) (s : lfs_state) : Prop :=
  ∃ e hs fs w, s = mk_state [e] hs fs n w ∧ lfs_good e hs fs ∧ Q r e hs fs.

Lemma ended_intro {A} m n (Q : A → Z → gmap Z lfs_config → gmap Z Z → Prop) r e hs fs w :
  m = n → lfs_good e hs fs → Q r e hs fs → ended n Q r (mk_state [e] hs fs m w).
Proof. intros -> Hg HQ. by exists e, hs, fs, w. Qed.

Lemma ended_mono {A B} n (Q : A → _ → _ → _ → Prop) (Q' : B → _ → _ → _ → Prop) r r' s :
  ended n Q r s → (∀ e hs fs, Q r e hs fs → Q' r' e hs fs) → ended n Q' r' s.
Proof. intros (e & hs & fs & w & -> & Hg & HQ) HQQ. exists e, hs, fs, w. auto. Qed.

Definition unchanged {A} (e : Z) (hs : gmap Z lfs_config) (fs : gmap Z Z) (r : A) (e' : Z)
    (hs' : gmap Z lfs_config) (fs' : gmap Z Z) : Prop := e' = e ∧ hs' = hs ∧ fs' = fs.

Ltac lfs_run := repeat first
  [ rewrite wp_bind | rewrite wp_ret | rewrite wp_gets | rewrite wp_lock | rewrite wp_unlock | rewrite wp_unlock_ret
  | rewrite wp_outer | rewrite wp_malloc | rewrite wp_device | rewrite wp_set_entry
  | rewrite wp_set_handles | rewrite wp_set_fds | progress cbn [lfs_mount_tbl handles lfs_fds lfs_held outside] ].
(** The end of a call that changes nothing. *)
Ltac same := apply ended_intro; [lia|assumption|by split].

Lemma index_found (b : bool) : ((if b then 0 else -1) =? -1) = negb b.
Proof. by destruct b. Qed.

(** A new structure for a file system. *)
Lemma good_handle e hs fs p c : lfs_good e hs fs → p ≠ 0 → lfs_good e (<[p := c]> hs) fs.
Proof.
  intros [He Hf [Hz Hy]] Hp. split.
  - destruct He as [?|He]; [by left|]. right. rewrite lookup_insert_is_Some. destruct (decide (p = e)); auto.
  - intros q p' Hq. rewrite lookup_insert_is_Some. destruct (decide (p = p')); [by left|right; eauto].
  - by rewrite lookup_insert_ne.
Qed.
Lemma good_entry e e' hs fs : lfs_good e hs fs → e' = 0 ∨ is_Some (hs !! e') → lfs_good e' hs fs.
Proof. intros [_ Hf Hz] He. by split. Qed.
Lemma fresh_not_used t hs fs n w w' :
  let p := (rt_malloc (used (mk_state t hs fs n w)) w').1 in
  p = 0 ∨ p ≠ 0 ∧ hs !! p = None ∧ fs !! p = None.
Proof.
  intros p. destruct (malloc_fresh (used (mk_state t hs fs n w)) w') as [E|[Hp Hn]]; [by left|]. right.
  unfold used in Hn. cbn in Hn. split; [done|].
  split; apply not_elem_of_dom; set_solver.
Qed.

Lemma result_negative r : r ≠ LFS_ERR_OK → _lfs_result_to_dfs r < 0.
Proof.
  intros Hr. unfold _lfs_result_to_dfs. rewrite (proj2 (Z.eqb_neq _ _) Hr).
  repeat (case_match; [by compute|]). by compute.
Qed.
Lemma result_zero r : _lfs_result_to_dfs r = 0 ↔ r = LFS_ERR_OK.
Proof.
  split; [|by intros ->]. intros E. destruct (decide (r = LFS_ERR_OK)) as [|Hr]; [done|].
  pose proof (result_negative r Hr). lia.
Qed.
Lemma good_file e hs fs q p : lfs_good e hs fs → q ≠ 0 → is_Some (hs !! p) → lfs_good e hs (<[q := p]> fs).
Proof.
  intros [He Hf [Hz Hy]] Hq Hp. split; [done| |].
  - intros q' p' [[_ <-]|[_ E]]%lookup_insert_Some; [done|by eapply Hf].
  - split; [done|]. by rewrite lookup_insert_ne.
Qed.
Lemma good_closed e hs fs q : lfs_good e hs fs → lfs_good e hs (delete q fs).
Proof.
  intros [He Hf [Hz Hy]]. split; [done| |].
  - intros q' p' [_ E]%lookup_delete_Some. by eapply Hf.
  - split; [done|]. by rewrite lookup_delete_None; right.
Qed.

Section calls.
Context (e : Z) (hs : gmap Z lfs_config) (fs : gmap Z Z) (n : Z) (w : world) (Hg : lfs_good e hs fs).
Abbreviation st := (mk_state [e] hs fs n w).
Abbreviation same_after := (ended n (unchanged e hs fs)).

Lemma path_call_run {A} d (f : Z → world → A * world) : is_Some (hs !! fs_data d) → wp (path_call d f) same_after st.
Proof.
  intros [c Hc]. unfold path_call. lfs_run. rewrite wp_handle_at. exists c. split; [done|]. lfs_run. same.
Qed.

Lemma statfs_run d buf : is_Some (hs !! fs_data d) → wp (_dfs_lfs_statfs d buf) same_after st.
Proof.
  intros [c Hc]. unfold _dfs_lfs_statfs. lfs_run. rewrite wp_handle_at. exists c. split; [done|]. lfs_run.
  case_match; lfs_run; same.
Qed.

(** [dfs->data] becomes a new structure, or nothing happens. *)
Lemma mount_run d : is_Some (device (dev_id d)) →
  wp (_dfs_lfs_mount d) (ended n (λ r e' hs' fs', fs' = fs ∧
    (r = (r.1, fs_data d) ∧ r.1 < 0 ∧ e' = e ∧ hs' = hs ∨
     ∃ p c, r = (0, p) ∧ e' = p ∧ hs !! p = None ∧ p ≠ 0 ∧ hs' = <[p := c]> hs))) st.
Proof.
  intros [dev Hd]. unfold _dfs_lfs_mount. lfs_run. exists dev. split; [done|].
  case_match; lfs_run; [apply ended_intro; [lia|done|by split; [|left]]|].
  rewrite wp_get_disk, index_found by done.
  destruct (found hs e 0); cbn [negb]; lfs_run; [|apply ended_intro; [lia|done|by split; [|left]]].
  pose proof (fresh_not_used [e] hs fs (n + 1) w w) as Hp. cbv zeta in Hp.
  set (p := (rt_malloc _ w).1) in *. destruct (Z.eqb_spec p 0) as [E|E]; lfs_run.
  { apply ended_intro; [lia|done|by split; [|left]]. }
  destruct Hp as [?|(_ & Hh & Hf)]; [done|]. case_match; lfs_run.
  - rewrite wp_free_handle, lookup_insert_eq. split; [done|]. lfs_run. rewrite delete_insert_id by done.
    apply ended_intro; [lia|done|by split; [|left]].
  - change (<[Z.to_nat 0:=p]> [e]) with [p]. apply ended_intro; [lia| |].
    + apply good_entry with e; [by apply good_handle|]. right. by rewrite lookup_insert_eq.
    + split; [done|]. right. by do 2 eexists.
Qed.

(** The structure is given back, and the file system is no longer in the table. *)
Lemma unmount_run d : is_Some (hs !! fs_data d) → (∀ q, fs !! q ≠ Some (fs_data d)) →
  wp (_dfs_lfs_unmount d) (ended n (λ r e' hs' fs', fs' = fs ∧
    (r = (- ENOENT, fs_data d) ∧ e' = e ∧ hs' = hs ∨
     r.2 = 0 ∧ e' = 0 ∧ hs' = delete (fs_data d) hs))) st.
Proof.
  intros [c Hc] Hno. unfold _dfs_lfs_unmount. lfs_run. rewrite wp_get_disk, index_found by done.
  destruct (found hs e (dev_id d)); cbn [negb]; lfs_run; [|apply ended_intro; [lia|done|by split; [|left]]].
  change (<[Z.to_nat 0:=0]> [e]) with [0]. rewrite wp_handle_at. exists c. split; [done|]. lfs_run.
  rewrite wp_free_handle. split; [by eexists|]. lfs_run. apply ended_intro; [lia| |split; [done|by right]].
  destruct Hg as [_ Hf [Hz Hy]]. split; [by left| |].
  - intros q p Hq. rewrite lookup_delete_is_Some. split; [|by eapply Hf]. intros <-. by apply (Hno q).
  - split; [|done]. by rewrite lookup_delete_None; right.
Qed.

Lemma mkfs_new_run m dev mtd : m = n + 1 →
  wp (mkfs_new dev mtd) (ended n (λ _ e' hs' fs', fs' = fs ∧
    (e' = e ∧ hs' = hs ∨ e' = 0 ∧ hs' = hs ∨ ∃ p c, p ≠ 0 ∧ hs !! p = None ∧ e' = e ∧ hs' = <[p := c]> hs)))
    (mk_state [e] hs fs m w).
Proof.
  intros ->. unfold mkfs_new. lfs_run. rewrite wp_get_disk, index_found by done.
  destruct (found hs e 0); cbn [negb]; lfs_run; [|apply ended_intro; [lia|done|by split; [|left]]].
  pose proof (fresh_not_used [e] hs fs (n + 1) w w) as Hp. cbv zeta in Hp.
  set (p := (rt_malloc _ w).1) in *. destruct (Z.eqb_spec p 0) as [E|E]; lfs_run.
  { change (<[Z.to_nat 0:=0]> [e]) with [0]. apply ended_intro; [lia|by eapply good_entry; [done|left]|].
    split; [done|]. right. by left. }
  destruct Hp as [?|(_ & Hh & Hf)]; [done|].
  apply ended_intro; [lia|by apply good_handle|]. split; [done|]. do 2 right. by do 2 eexists.
Qed.

Lemma mkfs_mounted_run m dev mtd : m = n + 1 → is_Some (hs !! e) →
  wp (mkfs_mounted 0 dev mtd) (ended n (λ _ e' hs' fs', fs' = fs ∧ (hs' = hs ∨ ∃ c, hs' = <[e := c]> hs)))
    (mk_state [e] hs fs m w).
Proof.
  intros -> [c Hc]. assert (e ≠ 0) as Hne by (destruct Hg as [_ _ [Hz _]]; congruence).
  unfold mkfs_mounted. lfs_run. change ([e] !! Z.to_nat 0) with (Some e). cbn [from_option]. lfs_run.
  rewrite wp_handle_at. exists c. split; [done|]. lfs_run. case_match; lfs_run.
  { apply ended_intro; [lia|done|by split; [|left]]. }
  change (<[Z.to_nat 0:=0]> [e]) with [0]. case_match; lfs_run.
  { apply ended_intro; [lia|by eapply good_entry; [done|left]|by split; [|left]]. }
  assert (∀ c, lfs_good 0 (<[e := c]> hs) fs) as Hg0.
  { intros c'. apply good_entry with e; [by apply good_handle|by left]. }
  case_match; lfs_run.
  - change (<[Z.to_nat 0:=e]> [0]) with [e]. apply ended_intro; [lia|by apply good_handle|].
    split; [done|]. right. by eexists.
  - apply ended_intro; [lia|done|]. split; [done|]. right. by eexists.
Qed.

(** Formatting a device keeps all structures. *)
Lemma mkfs_run dev : dev = 0 ∨ is_Some (device dev) →
  wp (_dfs_lfs_mkfs dev) (ended n (λ _ _ hs' fs', fs' = fs ∧ dom hs ⊆ dom hs')) st.
Proof.
  intros Hd. unfold _dfs_lfs_mkfs. destruct (Z.eqb_spec dev 0) as [->|Hne]; lfs_run.
  { apply ended_intro; [lia|done|by split]. }
  destruct Hd as [?|[mtd Hd]]; [done|]. exists mtd. split; [done|]. case_match; lfs_run.
  { apply ended_intro; [lia|done|by split]. }
  rewrite wp_get_disk, index_found by done. destruct (found hs e dev) eqn:Ef; cbn [negb].
  - assert (is_Some (hs !! e)) as He.
    { unfold found in Ef. rewrite (proj2 (Z.eqb_neq _ _) Hne) in Ef. destruct (e =? 0); [done|].
      destruct (hs !! e); [by eexists|done]. }
    eapply wp_mono; [by apply mkfs_mounted_run|]. intros r s' Hs. eapply ended_mono; [exact Hs|].
    intros ??? [-> [->|[c ->]]]; (split; [done|]); [done|]. rewrite dom_insert. set_solver.
  - eapply wp_mono; [by apply mkfs_new_run|]. intros r s' Hs. eapply ended_mono; [exact Hs|].
    intros ??? [-> [[-> ->]|[[-> ->]|(p & c & _ & _ & -> & ->)]]]; (split; [done|]); [done|done|].
    rewrite dom_insert. set_solver.
Qed.

(** ** Files *)

(** A file is opened, and there is a new structure for it, or nothing happens. *)
Definition open_post (p : Z) (file : dfs_fd) (r : Z * dfs_fd) (e' : Z) (hs' : gmap Z lfs_config) (fs' : gmap Z Z) : Prop :=
  e' = e ∧ hs' = hs ∧
  (r = (r.1, file) ∧ r.1 < 0 ∧ fs' = fs ∨
   ∃ q, r.1 = 0 ∧ data r.2 = OwnData q ∧ q ≠ 0 ∧ fs !! q = None ∧ fs' = <[q := p]> fs).

Lemma open_error_run q p result file w' : q ≠ 0 → fs !! q = None → result ≠ LFS_ERR_OK →
  wp (open_error q result file) (ended n (open_post p file)) (mk_state [e] hs (<[q := p]> fs) (n + 1) w').
Proof.
  intros Hq Hf Hr. unfold open_error. rewrite (proj2 (Z.eqb_neq _ _) Hq). lfs_run. cbn [negb].
  rewrite wp_free_fd, lookup_insert_eq. split; [done|]. lfs_run. rewrite delete_insert_id by done.
  apply ended_intro; [lia|done|]. split_and!; [done..|]. left. by split; [|split; [apply result_negative|]].
Qed.

(** What follows the allocation of the structure of a file. *)
Lemma new_fd_run p file (k : Z → LM (Z * dfs_fd)) : is_Some (hs !! p) → k 0 = open_error 0 (- ENOMEM) file →
  (∀ q w', q ≠ 0 → fs !! q = None →
    wp (k q) (ended n (open_post p file)) (mk_state [e] hs (<[q := p]> fs) (n + 1) w')) →
  wp (let! q := new_fd p in k q) (ended n (open_post p file)) (mk_state [e] hs fs (n + 1) w).
Proof.
  intros Hp H0' Hk. unfold new_fd. lfs_run.
  pose proof (fresh_not_used [e] hs fs (n + 1) w w) as Hq. cbv zeta in Hq.
  set (q := (rt_malloc _ w).1) in *. destruct (Z.eqb_spec q 0) as [E|E]; cbn [negb]; lfs_run.
  - rewrite E, H0'. unfold open_error. change (negb (0 =? 0)) with false. cbn iota. lfs_run. apply ended_intro; [lia|done|]. split_and!; [done..|]. by left.
  - destruct Hq as [?|(_ & Hh & Hf)]; [done|]. by apply Hk.
Qed.

Lemma open_dir_run p file : is_Some (hs !! p) → is_Some (path file) →
  wp (open_dir p file) (ended n (open_post p file)) (mk_state [e] hs fs (n + 1) w).
Proof.
  intros Hp [x Hx]. apply (new_fd_run p file (λ q, _) Hp); [done|]. intros q w' Hq Hf.
  rewrite (proj2 (Z.eqb_neq _ _) Hq). rewrite wp_bind, Hx. cbn [from_option]. lfs_run.
  destruct Hp as [c Hc]. rewrite wp_handle_at. exists c. split; [done|]. lfs_run.
  assert (∀ w'', wp (let! result := outer (lfs_dir_open p q x) in
    if negb (result =? LFS_ERR_OK) then open_error q result file else unlock_ret (0, set_data q file))
    (ended n (open_post p file)) (mk_state [e] hs (<[q := p]> fs) (n + 1) w'')) as Hopen.
  { intros w''. lfs_run. destruct (Z.eqb_spec (lfs_dir_open p q x w'').1 LFS_ERR_OK); cbn [negb].
    - lfs_run. apply ended_intro; [lia|by apply good_file|]. split_and!; [done..|]. right. by exists q.
    - by apply open_error_run. }
  destruct (negb (Z.land (flags file) O_CREAT =? 0)); lfs_run; [|apply Hopen].
  destruct (Z.eqb_spec (lfs_mkdir p x w').1 LFS_ERR_OK); cbn [negb]; [apply Hopen|by apply open_error_run].
Qed.

Lemma open_file_run p file : is_Some (hs !! p) → is_Some (path file) →
  wp (open_file p file) (ended n (open_post p file)) (mk_state [e] hs fs (n + 1) w).
Proof.
  intros Hp [x Hx]. apply (new_fd_run p file (λ q, _) Hp); [done|]. intros q w' Hq Hf.
  rewrite (proj2 (Z.eqb_neq _ _) Hq). rewrite wp_bind, Hx. cbn [from_option]. lfs_run.
  destruct Hp as [c Hc]. rewrite wp_handle_at. exists c. split; [done|]. lfs_run.
  destruct (Z.eqb_spec (lfs_file_open p q x (lfs_flags (flags file)) w').1 LFS_ERR_OK); cbn [negb].
  - lfs_run. apply ended_intro; [lia|by apply good_file|]. split_and!; [done..|]. right. by exists q.
  - by apply open_error_run.
Qed.

Lemma open_run d file : is_Some (hs !! fs_data d) → is_Some (path file) →
  wp (_dfs_lfs_open d file) (ended n (open_post (fs_data d) file)) st.
Proof.
  intros Hp Hx. unfold _dfs_lfs_open. lfs_run. case_match; [by apply open_dir_run|by apply open_file_run].
Qed.

(** The file was opened by the driver. *)
Definition is_open (fs : gmap Z Z) (file : dfs_fd) : Prop := ∃ q, data file = OwnData q ∧ is_Some (fs !! q).

Lemma opened_run file m w' Q : is_open fs file →
  (∀ p q, data file = OwnData q → fs !! q = Some p → Q (p, q) (mk_state [e] hs fs m w')) →
  wp (opened file) Q (mk_state [e] hs fs m w').
Proof.
  intros (q & Hq & p & Hp) HQ. unfold opened, fd_of. rewrite wp_bind, Hq, wp_ret. lfs_run.
  rewrite wp_file_at. exists p. split; [done|]. lfs_run. rewrite wp_handle_at.
  destruct (g_files _ _ _ Hg q p Hp) as [c Hc]. exists c. split; [done|]. lfs_run. by apply HQ.
Qed.

(** Runs a call on a file up to its end. *)
Ltac file_run Ho := lfs_run; apply opened_run; [exact Ho|]; intros p q Hq Hp; lfs_run.

Lemma close_run file : is_open fs file →
  wp (_dfs_lfs_close file) (ended n (λ _ e' hs' fs', ∃ q, data file = OwnData q ∧ is_Some (fs !! q) ∧
    e' = e ∧ hs' = hs ∧ fs' = delete q fs)) st.
Proof.
  intros Ho. unfold _dfs_lfs_close. file_run Ho.
  assert (∀ w' r, wp (free_fd q ;;; unlock_ret (_lfs_result_to_dfs r)) (ended n (λ _ e' hs' fs', ∃ q,
    data file = OwnData q ∧ is_Some (fs !! q) ∧ e' = e ∧ hs' = hs ∧ fs' = delete q fs))
    (mk_state [e] hs fs (n + 1) w')) as Hend.
  { intros w' r. lfs_run. rewrite wp_free_fd. split; [by eexists|]. lfs_run.
    apply ended_intro; [lia|by apply good_closed|]. exists q. split_and!; by (done || eexists). }
  case_match; rewrite wp_outer; apply Hend.
Qed.

Lemma file_read_run file len : is_open fs file → wp (_dfs_lfs_read file len) same_after st.
Proof.
  intros Ho. unfold _dfs_lfs_read. lfs_run. case_match; lfs_run; [same|]. file_run Ho. case_match; lfs_run; same.
Qed.
Lemma file_write_run file buf : is_open fs file → wp (_dfs_lfs_write file buf) same_after st.
Proof.
  intros Ho. unfold _dfs_lfs_write. lfs_run. case_match; lfs_run; [same|]. file_run Ho. case_match; lfs_run; same.
Qed.
Lemma flush_run file : is_open fs file → wp (_dfs_lfs_flush file) same_after st.
Proof. intros Ho. unfold _dfs_lfs_flush. file_run Ho. same. Qed.
Lemma lseek_run file offset : is_open fs file → wp (_dfs_lfs_lseek file offset) same_after st.
Proof.
  intros Ho. unfold _dfs_lfs_lseek. file_run Ho. repeat (case_match; lfs_run); same.
Qed.

(** A directory is read to its end or until the buffer is full. *)
Lemma getdents_loop_run p q count : ∀ fuel index w' Q, (dir_left q w' < fuel)%nat →
  (∀ r w'', Q r (mk_state [e] hs fs (n + 1) w'')) →
  wp (getdents_loop fuel p q count index) Q (mk_state [e] hs fs (n + 1) w').
Proof.
  induction fuel as [|fuel IH]; intros index w' Q Hf HQ; [lia|].
  cbn [getdents_loop]. lfs_run. pose proof (dir_read_less p q w') as Hless.
  destruct (lfs_dir_read p q w') as [[r info] w1] eqn:E. cbn in *.
  destruct (negb (r =? 1) || bool_decide (info_name info = [])) eqn:Er; lfs_run; [apply HQ|].
  apply orb_false_elim in Er as [Er _]. apply negb_false_iff, Z.eqb_eq in Er. specialize (Hless Er).
  destruct (dot (info_name info)); [by apply IH; [lia|]|].
  case_match; lfs_run; [apply HQ|]. apply IH; [lia|]. intros r' w''. lfs_run. apply HQ.
Qed.

Lemma getdents_run fuel file count : is_open fs file →
  (∀ q, data file = OwnData q → (dir_left q w < fuel)%nat) →
  wp (_dfs_lfs_getdents fuel file count) same_after st.
Proof.
  intros Ho Hf. unfold _dfs_lfs_getdents. file_run Ho. case_match; lfs_run; [same|].
  apply getdents_loop_run; [by apply Hf|]. intros [r ds] w''. cbn. case_match; lfs_run; same.
Qed.
End calls.

(** ** Sequences of calls

    The calls of the file system layer, with the descriptions that it passes. *)
Inductive lfs_call : Type :=
  | CMount (d : dfs_filesystem)
  | CUnmount (d : dfs_filesystem)
  | CMkfs (dev : Z)
  | CStatfs (d : dfs_filesystem) (buf : statfs_buf)
  | CUnlink (d : dfs_filesystem) (path : list Z)
  | CStat (d : dfs_filesystem) (path : list Z) (st : stat_buf)
  | CRename (d : dfs_filesystem) (from to : list Z)
  | COpen (d : dfs_filesystem) (file : dfs_fd)
  | CClose (file : dfs_fd)
  | CIoctl (file : dfs_fd) (cmd args : Z)
  | CRead (file : dfs_fd) (len : Z)
  | CWrite (file : dfs_fd) (buf : list Z)
  | CFlush (file : dfs_fd)
  | CLseek (file : dfs_fd) (offset : Z)
  | CGetdents (fuel : nat) (file : dfs_fd) (count : Z).

(** The structure of a file, which the driver keeps in the descriptor. *)
Definition own_data (file : dfs_fd) : Z := match data file with OwnData q => q | FsData _ => 0 end.
(** A call, with its result, an error code or a count, and the structure of the
    file that it opens. *)
Definition exec (c : lfs_call) : LM (Z * Z) :=
  match c with
  | CMount d => let! r := _dfs_lfs_mount d in ret (r.1, 0)
  | CUnmount d => let! r := _dfs_lfs_unmount d in ret (r.1, 0)
  | CMkfs dev => let! r := _dfs_lfs_mkfs dev in ret (r, 0)
  | CStatfs d buf => let! r := _dfs_lfs_statfs d buf in ret (r.1, 0)
  | CUnlink d path => let! r := _dfs_lfs_unlink d path in ret (r, 0)
  | CStat d path st => let! r := _dfs_lfs_stat d path st in ret (r.1, 0)
  | CRename d from to => let! r := _dfs_lfs_rename d from to in ret (r, 0)
  | COpen d file => let! r := _dfs_lfs_open d file in ret (r.1, own_data r.2)
  | CClose file => let! r := _dfs_lfs_close file in ret (r, 0)
  | CIoctl file cmd args => let! r := _dfs_lfs_ioctl file cmd args in ret (r, 0)
  | CRead file len => let! r := _dfs_lfs_read file len in ret (r.1.1, 0)
  | CWrite file buf => let! r := _dfs_lfs_write file buf in ret (r.1, 0)
  | CFlush file => let! r := _dfs_lfs_flush file in ret (r, 0)
  | CLseek file offset => let! r := _dfs_lfs_lseek file offset in ret (r.1, 0)
  | CGetdents fuel file count => let! r := _dfs_lfs_getdents fuel file count in ret (r.1.1, 0)
  end.

(** What the file system layer respects: devices exist, file systems are
    mounted and files are open; a file system is unmounted when none of its
    files is open. *)
Definition mounted (d : dfs_filesystem) (s : lfs_state) : Prop := is_Some (handles s !! fs_data d).
Definition legal (c : lfs_call) (s : lfs_state) : Prop :=
  match c with
  | CMount d => is_Some (device (dev_id d))
  | CUnmount d => mounted d s ∧ ∀ q, lfs_fds s !! q ≠ Some (fs_data d)
  | CMkfs dev => dev = 0 ∨ is_Some (device dev)
  | CStatfs d _ | CUnlink d _ | CStat d _ _ | CRename d _ _ => mounted d s
  | COpen d file => mounted d s ∧ is_Some (path file)
  | CIoctl _ _ _ => True
  | CClose file | CRead file _ | CWrite file _ | CFlush file | CLseek file _ => is_open (lfs_fds s) file
  | CGetdents fuel file _ => is_open (lfs_fds s) file ∧
      ∀ q, data file = OwnData q → (dir_left q (outside s) < fuel)%nat
  end.

(** The call opens a file, with the structure [r.2]. *)
Definition opens (c : lfs_call) (r : Z * Z) : bool :=
  match c with COpen _ _ => r.1 =? 0 | _ => false end.
(** The structures of open files after a call: a file that is opened gets one
    for its file system, and a file that is closed gives its own back. *)
Definition files_after (c : lfs_call) (r : Z * Z) (fs : gmap Z Z) : gmap Z Z :=
  match c with
  | COpen d _ => if r.1 =? 0 then <[r.2 := fs_data d]> fs else fs
  | CClose file => delete (own_data file) fs
  | _ => fs
  end.
Definition unmounts (p : Z) (c : lfs_call) : Prop :=
  match c with CUnmount d => fs_data d = p | _ => False end.

Definition call_post (c : lfs_call) (hs : gmap Z lfs_config) (fs : gmap Z Z) (r : Z * Z) (_ : Z)
    (hs' : gmap Z lfs_config) (fs' : gmap Z Z) : Prop :=
  fs' = files_after c r fs ∧ (opens c r → r.2 ≠ 0 ∧ fs !! r.2 = None) ∧
  ∀ p, is_Some (hs !! p) → ¬ unmounts p c → is_Some (hs' !! p).

Lemma post_same {A} c e hs fs (r : A) r' e' hs' fs' : unchanged e hs fs r e' hs' fs' →
  files_after c r' fs = fs → opens c r' = false → call_post c hs fs r' e' hs' fs'.
Proof. intros (-> & -> & ->) E Eo. split; [done|]. by rewrite Eo. Qed.

(** From the run of a function to the result that [exec] takes of it. *)
Lemma exec_of {A B} (m : LM A) (f : A → B) n Q Q' s : wp m (ended n Q) s →
  (∀ r e hs fs, Q r e hs fs → Q' (f r) e hs fs) → wp (let! r := m in ret (f r)) (ended n Q') s.
Proof.
  intros Hm HQ. rewrite wp_bind. eapply wp_mono; [exact Hm|]. intros r s' He. rewrite wp_ret.
  eapply ended_mono; [exact He|]. apply HQ.
Qed.
Lemma exec_run c e hs fs n w : lfs_good e hs fs → legal c (mk_state [e] hs fs n w) →
  wp (exec c) (ended n (call_post c hs fs)) (mk_state [e] hs fs n w).
Proof.
  intros Hg Hc. destruct c; simpl in Hc; unfold exec.
  - eapply exec_of; [by apply mount_run|]. intros r e' hs' fs' [-> [(_ & _ & -> & ->)|(p & c & -> & -> & Hf & Hp & ->)]];
      (split; [done|]); (split; [done|]); [done|].
    intros p' Hp' _. rewrite lookup_insert_is_Some. destruct (decide (p = p')); auto.
  - destruct Hc as [Hm Hno]. eapply exec_of; [by apply unmount_run|].
    intros r e' hs' fs' [-> [(_ & -> & ->)|(_ & -> & ->)]]; (split; [done|]); (split; [done|]); [done|].
    intros p Hp Hne. by rewrite lookup_delete_is_Some.
  - eapply exec_of; [by apply mkfs_run|]. intros r e' hs' fs' [-> Hd]. split; [done|]. split; [done|].
    intros p Hp _. apply elem_of_dom, Hd. by apply elem_of_dom.
  - eapply exec_of; [by apply statfs_run|]. intros. by eapply post_same.
  - unfold _dfs_lfs_unlink. eapply (exec_of _ _ n (unchanged e hs fs)); [|intros; by eapply post_same].
    eapply exec_of; [by apply path_call_run|done].
  - unfold _dfs_lfs_stat. eapply (exec_of _ _ n (unchanged e hs fs)); [|intros; by eapply post_same].
    eapply exec_of; [by apply path_call_run|done].
  - unfold _dfs_lfs_rename. eapply (exec_of _ _ n (unchanged e hs fs)); [|intros; by eapply post_same].
    eapply exec_of; [by apply path_call_run|done].
  - destruct Hc as [Hm Hp]. eapply exec_of; [by apply open_run|].
    intros r e' hs' fs' (-> & -> & [(_ & Hr & ->)|(q & Hr & Hd & Hq0 & Hq & ->)]); unfold call_post; simpl.
    + by rewrite (proj2 (Z.eqb_neq _ _)) by lia.
    + unfold own_data. by rewrite Hr, Hd.
  - eapply exec_of; [by apply close_run|]. intros r e' hs' fs' (q & Hd & _ & -> & -> & ->).
    split; [|done]. simpl. unfold own_data. by rewrite Hd.
  - unfold _dfs_lfs_ioctl. rewrite wp_bind, wp_ret, wp_ret. apply ended_intro; [done|done|].
    by apply (post_same _ e hs fs 0).
  - eapply exec_of; [by apply file_read_run|]. intros. by eapply post_same.
  - eapply exec_of; [by apply file_write_run|]. intros. by eapply post_same.
  - eapply exec_of; [by apply flush_run|]. intros. by eapply post_same.
  - eapply exec_of; [by apply lseek_run|]. intros. by eapply post_same.
  - destruct Hc as [Ho Hf]. eapply exec_of; [by apply getdents_run|]. intros. by eapply post_same.
Qed.
Lemma exec_safe c s : lfs_ok s → legal c s → ∃ r s', exec c s = Ok r s' ∧ lfs_ok s' ∧ lfs_held s' = lfs_held s ∧
  call_post c (handles s) (lfs_fds s) r 0 (handles s') (lfs_fds s').
Proof.
  intros (e & Ht & Hg) Hc. destruct s as [t hs fs n w]. simpl in Ht, Hg. subst t.
  destruct (wp_run _ _ _ (exec_run c e hs fs n w Hg Hc)) as (r & s' & E & e' & hs' & fs' & w' & -> & Hg' & HQ).
  exists r. eexists. split; [exact E|]. split; [by exists e'|]. by split.
Qed.
End account.
