(* ===== verification/DfsLfsCalls.v ===== *)
(** * Sequences of calls of the littlefs driver, and directories

    In every sequence of legal calls the driver returns, gives its lock back, and
    has a structure for each open file and no other.  [getdents] lists a directory
    completely and in order.  A small littlefs shows that the laws of
    [DfsLfsSpec] and of this file can be kept, and what the driver does at its
    edges. *)

From S2P Require Import Prelude DfsPath Dfs DfsLfs DfsLfsSpec.
From Stdlib Require Import String.
Open Scope Z_scope.

(** ** Sequences of calls *)
Section calls.
Context `{LittlefsOk}.

(** A sequence of calls, with their results. *)
Inductive lfs_run_of : lfs_state → list (lfs_call * (Z * Z)) → lfs_state → Prop :=
  | run_none s : lfs_run_of s [] s
  | run_call c r s s1 l s2 : legal c s → exec c s = Ok r s1 → lfs_run_of s1 l s2 →
      lfs_run_of s ((c, r) :: l) s2.
(** The structures of the files that are open after the calls. *)
Definition open_files (l : list (lfs_call * (Z * Z))) (fs : gmap Z Z) : gmap Z Z :=
  foldl (λ fs c, files_after c.1 c.2 fs) fs l.
(** Each file that is opened gets a structure that no open file has. *)
Fixpoint own_structures (l : list (lfs_call * (Z * Z))) (fs : gmap Z Z) : Prop :=
  match l with
  | [] => True
  | (c, r) :: l => (opens c r → r.2 ≠ 0 ∧ fs !! r.2 = None) ∧ own_structures l (files_after c r fs)
  end.

(** C16: Whatever littlefs, the flash and the allocator answer, in every sequence of
    calls that respects what is mounted and what is open (no file system is
    unmounted while one of its files is open), each call returns with the lock
    given back; the structures of files are exactly those of the files that were
    opened and not closed, each with the file system of its file, and no two
    open files share one; a file system keeps its structure until it is
    unmounted. *)
Theorem lfs_calls_accounted (s s' : lfs_state) (l : list (lfs_call * (Z * Z))) :
  lfs_ok s → lfs_run_of s l s' →
  lfs_ok s' ∧ lfs_held s' = lfs_held s ∧
  lfs_fds s' = open_files l (lfs_fds s) ∧ own_structures l (lfs_fds s) ∧
  (∀ p, is_Some (handles s !! p) → Forall (λ c, ¬ unmounts p c.1) l → is_Some (handles s' !! p)) ∧
  (∀ c, legal c s' → ∃ r s'', exec c s' = Ok r s'').
Proof.
  intros Hok Hrun. induction Hrun as [s|c r s s1 l s2 Hc E Hrun IH].
  - split_and!; [done..|]. intros c Hc. destruct (exec_safe c s Hok Hc) as (r & s' & E & _). by exists r, s'.
  - destruct (exec_safe c s Hok Hc) as (r' & s1' & E' & Hok1 & Hheld & Hfiles & Hown & Hkept).
    rewrite E in E'. injection E' as <- <-.
    destruct (IH Hok1) as (Hok2 & Hheld2 & Hfiles2 & Hown2 & Hkept2 & Hnext). rewrite Hfiles in Hfiles2, Hown2.
    split_and!; [done|congruence|done|done| |done].
    intros p Hp [Hn Hl]%Forall_cons. by apply Hkept2; [apply Hkept|].
Qed.
End calls.

(** ** Directories *)

(** What littlefs promises of [lfs_dir_read] while the flash works: it gives the
    entries one after the other, and 0 at the end. *)
Class LfsDirOk `{Littlefs} : Type := {
  entries : Z → world → list lfs_info;
  dir_read_entries : ∀ p q w,
    match entries q w with
    | [] => (lfs_dir_read p q w).1.1 = 0 ∧ entries q (lfs_dir_read p q w).2 = []
    | i :: l => (lfs_dir_read p q w).1 = (1, i) ∧ entries q (lfs_dir_read p q w).2 = l
    end
}.

Section dir.
Context `{LfsDirOk}.

(** The entries that a program sees. *)
Definition visible (l : list lfs_info) : list lfs_info := List.filter (λ i, negb (dot (info_name i))) l.

Lemma getdents_loop_lists p q k : ∀ fuel index t hs fs n w,
  (List.length (entries q w) < fuel)%nat → 0 ≤ index < k → Forall (λ i, info_name i ≠ []) (entries q w) →
  ∃ r ds w', getdents_loop fuel p q (k * sizeof_dirent) index (mk_state t hs fs n w) =
      Ok (r, ds) (mk_state t hs fs n w') ∧
    ds = to_dirent <$> take (Z.to_nat (k - index)) (visible (entries q w)) ∧
    visible (entries q w') = drop (Z.to_nat (k - index)) (visible (entries q w)) ∧
    Forall (λ i, info_name i ≠ []) (entries q w') ∧ (ds = [] → r = 0).
Proof.
  induction fuel as [|fuel IH]; intros index t hs fs n w Hf Hi Hn; [lia|].
  pose proof (dir_read_entries p q w) as Hr. cbn [getdents_loop].
  rewrite (bind_ok _ _ _ (lfs_dir_read p q w).1 (mk_state t hs fs n (lfs_dir_read p q w).2)) by done.
  set (w1 := (lfs_dir_read p q w).2) in *. destruct (entries q w) as [|i l] eqn:E.
  - destruct Hr as [Hr E1]. destruct (lfs_dir_read p q w).1 as [r info]. simpl in Hr. subst r. cbn.
    do 3 eexists. split; [done|]. rewrite take_nil, drop_nil, E1. by split_and!.
  - destruct Hr as [Hr El]. rewrite Hr. apply Forall_cons in Hn as [Hi' Hn].
    change (negb (1 =? 1)) with false. rewrite (bool_decide_eq_false_2 _ Hi'). cbn [orb].
    change (visible (i :: l)) with (if negb (dot (info_name i)) then i :: visible l else visible l).
    simpl in Hf. rewrite <- El in Hf, Hn |- *.
    destruct (dot (info_name i)) eqn:Ed; cbn [negb]; [apply (IH index); [lia|done|done]|].
    assert (k * sizeof_dirent <=? (index + 1) * sizeof_dirent = (k <=? index + 1)) as ->.
    { unfold sizeof_dirent. destruct (Z.leb_spec (k * 260) ((index + 1) * 260)), (Z.leb_spec k (index + 1)); lia. }
    destruct (Z.leb_spec k (index + 1)).
    + replace (k - index) with 1 by lia. do 3 eexists. split; [done|]. by split_and!.
    + destruct (IH (index + 1) t hs fs n w1) as (r & ds & w' & Er & -> & Hv & Hn' & _); [lia|lia|done|].
      exists r. do 2 eexists. split; [by rewrite (bind_ok _ _ _ _ _ Er)|].
      replace (Z.to_nat (k - index)) with (S (Z.to_nat (k - (index + 1)))) by lia. by split_and!.
Qed.

(** C17: Reading a directory into a buffer of [count] bytes gives the next entries
    in order, as many as fit, without the directory itself and its parent; what
    the next call will give goes on behind them.  The result is the number of
    bytes, by which the position grows, and 0 at the end; the lock is given
    back. *)
Theorem getdents_lists (s : lfs_state) (file : dfs_fd) (p q count : Z) (fuel : nat) :
  data file = OwnData q → lfs_fds s !! q = Some p → is_Some (handles s !! p) → sizeof_dirent ≤ count →
  Forall (λ i, info_name i ≠ []) (entries q (outside s)) → (List.length (entries q (outside s)) < fuel)%nat →
  let k := Z.to_nat (count / sizeof_dirent) in
  ∃ s' file', _dfs_lfs_getdents fuel file count s =
      Ok (Z.of_nat (List.length (take k (visible (entries q (outside s))))) * sizeof_dirent,
          to_dirent <$> take k (visible (entries q (outside s))), file') s' ∧
    pos file' = pos file + Z.of_nat (List.length (take k (visible (entries q (outside s))))) * sizeof_dirent ∧
    visible (entries q (outside s')) = drop k (visible (entries q (outside s))) ∧
    lfs_held s' = lfs_held s ∧ lfs_fds s' = lfs_fds s ∧ handles s' = handles s.
Proof.
  intros Hq Hp [c Hc] Hcount Hn Hf k. destruct s as [t hs fs n w]. simpl in *.
  pose proof (Z.div_le_mono sizeof_dirent count sizeof_dirent ltac:(done) Hcount) as Hk.
  rewrite Z.div_same in Hk by done.
  destruct (getdents_loop_lists p q (count / sizeof_dirent) fuel 0 t hs fs (n + 1) w Hf ltac:(lia) Hn)
    as (r & ds & w' & E & Eds & Hv & _ & Hr). rewrite Z.sub_0_r in Eds, Hv. fold k in Eds, Hv.
  assert (Z.of_nat (List.length ds) = Z.of_nat (List.length (take k (visible (entries q w))))) as El
    by (subst ds; by rewrite length_fmap).
  assert (opened file (mk_state t hs fs (n + 1) w) = Ok (p, q) (mk_state t hs fs (n + 1) w)) as Eo.
  { unfold opened, fd_of, file_at, handle_at, bind, gets. rewrite Hq. simpl. rewrite Hp. simpl. by rewrite Hc. }
  set (m := Z.of_nat (List.length (take k _)) * sizeof_dirent) in *.
  exists (mk_state t hs fs n w'), (if m =? 0 then file else set_pos (pos file + m) file).
  split_and!; [|by destruct (Z.eqb_spec m 0) as [->|]; simpl; lia|done|done|done|done].
  unfold _dfs_lfs_getdents, lfs_dfs_lock. rewrite bind_modify.
  change (set_lfs_held _ _) with (mk_state t hs fs (n + 1) w). rewrite (bind_ok _ _ _ _ _ Eo).
  assert (count / sizeof_dirent * sizeof_dirent =? 0 = false) as -> by (unfold sizeof_dirent in *; lia).
  rewrite (bind_ok _ _ _ _ _ E), El, <- Eds. fold m. unfold unlock_ret, lfs_dfs_unlock, set_lfs_held.
  destruct (Z.eqb_spec m 0) as [Em|Em]; rewrite bind_modify; simpl; rewrite Z.add_simpl_r; [|done].
  rewrite Hr; [by rewrite Em|]. apply length_zero_iff_nil. unfold m, sizeof_dirent in Em. lia.
Qed.
End dir.

(** ** A small littlefs

    Its files are empty, and there is one directory.  [memory] tells whether
    there is memory, and [format_result] is the result of formatting. *)
Record small := mk_small { memory : bool; format_result : Z; listing : list lfs_info }.

Definition largest (u : gset Z) : Z := foldr Z.max 0 (elements u).
Lemma largest_above u : 0 ≤ largest u ∧ ∀ x, x ∈ u → x ≤ largest u.
Proof.
  assert (∀ l, 0 ≤ foldr Z.max 0 l ∧ ∀ x, x ∈ l → x ≤ foldr Z.max 0 l) as Hl.
  { induction l as [|y l [IH0 IH]]; simpl; [split; [lia|by intros x ?%not_elem_of_nil]|].
    split; [lia|]. intros x [->|Hx]%elem_of_cons; [lia|]. specialize (IH x Hx). lia. }
  destruct (Hl (elements u)) as [H0 H]. split; [done|]. intros x Hx. apply H. by apply elem_of_elements.
Qed.

#[export] Instance small_lfs : Littlefs := {|
  world := small;
  rt_malloc u w := (if memory w then largest u + 1 else 0, w);
  device d := if d =? 9 then Some (mk_mtd RT_Device_Class_MTD 4096 0 128) else None;
  rt_mtd_nor_read _ _ n w := ((n, replicate (Z.to_nat n) 0xFF), w);
  rt_mtd_nor_write _ _ d w := (Z.of_nat (List.length d), w);
  rt_mtd_nor_erase_block _ _ _ w := (0, w);
  lfs_mount _ _ w := (0, w);
  lfs_unmount _ w := (0, w);
  lfs_format _ _ w := (format_result w, w);
  lfs_fs_traverse _ w := ((0, 2%nat), w);
  lfs_remove _ _ w := (LFS_ERR_NOENT, w);
  lfs_stat _ _ w := ((LFS_ERR_NOENT, mk_info 0 0 []), w);
  lfs_rename _ _ _ w := (LFS_ERR_NOENT, w);
  lfs_mkdir _ _ w := (LFS_ERR_EXIST, w);
  lfs_dir_open _ _ _ w := (0, w);
  lfs_dir_close _ _ w := (0, w);
  lfs_dir_read _ _ w := match listing w with
                        | [] => ((0, mk_info 0 0 []), w)
                        | i :: l => ((1, i), mk_small (memory w) (format_result w) l)
                        end;
  lfs_dir_seek _ _ _ w := (0, w);
  lfs_file_open _ _ _ _ w := (0, w);
  lfs_file_close _ _ w := (0, w);
  lfs_file_read _ _ _ w := ((0, []), w);
  lfs_file_write _ _ _ w := (LFS_ERR_NOSPC, w);
  lfs_file_sync _ _ w := (0, w);
  lfs_file_seek _ _ _ w := (0, w);
  file_pos _ _ := 0;
  file_size _ _ := 0;
  dir_pos _ _ := 0
|}.

#[export] Instance small_ok : LittlefsOk.
Proof.
  unshelve refine (@Build_LittlefsOk small_lfs _ (λ _ (w : small), List.length (listing w)) _).
  - intros u w. simpl. destruct (memory w); [right|by left]. destruct (largest_above u) as [H0 Hl].
    split; [lia|]. intros Hu. specialize (Hl _ Hu). lia.
  - intros p q w. simpl. destruct (listing w); simpl; [done|lia].
Defined.

#[export] Instance small_dir : LfsDirOk.
Proof.
  unshelve refine (@Build_LfsDirOk small_lfs (λ _ (w : small), listing w) _).
  intros p q w. simpl. by destruct (listing w) eqn:E; simpl.
Defined.

Definition small_world (mem : bool) (fmt : Z) : small :=
  mk_small mem fmt [mk_info LFS_TYPE_DIR 0 (chars "."); mk_info LFS_TYPE_DIR 0 (chars "..");
    mk_info LFS_TYPE_REG 5 (chars "a.txt"); mk_info LFS_TYPE_DIR 0 (chars "log")].
Definition small_start (mem : bool) (fmt : Z) : lfs_state :=
  mk_state [0] ∅ ∅ 0 (small_world mem fmt).
Definition small_cfg : lfs_config := _lfs_load_config 9 (mk_mtd RT_Device_Class_MTD 4096 0 128).
(** The device is mounted, and the root directory is open. *)
Definition small_state (mem : bool) (fmt : Z) : lfs_state :=
  mk_state [1] {[1 := small_cfg]} {[2 := 1]} 0 (small_world mem fmt).
Definition small_fs (p : Z) : dfs_filesystem := mk_fs 9 (Some (chars "/")) 0 p.
Definition small_file (ty fl : Z) (d : fd_data) : dfs_fd :=
  mk_fd DFS_FD_MAGIC ty (Some (chars "/")) 1 (Some 0%nat) 0 fl 0 0 d.

Lemma getdents_lists_witness : ∃ s' file',
  _dfs_lfs_getdents 5 (small_file FT_DIRECTORY O_DIRECTORY (OwnData 2)) 300 (small_state true 0) =
    Ok (260, [mk_dirent DT_REG 5 260 (chars "a.txt")], file') s' ∧ pos file' = 260.
Proof.
  destruct (getdents_lists (small_state true 0) (small_file FT_DIRECTORY O_DIRECTORY (OwnData 2)) 1 2 300 5)
    as (s' & file' & E & Hpos & _).
  - reflexivity.
  - reflexivity.
  - by eexists.
  - by apply Z.leb_le.
  - repeat constructor; done.
  - simpl. lia.
  - exists s', file'. split; [exact E|exact Hpos].
Defined.

(** A program that mounts, reads the root directory, and unmounts. *)
Definition small_calls : list (lfs_call * (Z * Z)) := [
  (CMount (small_fs 0), (0, 0));
  (COpen (small_fs 1) (small_file FT_REGULAR O_DIRECTORY (FsData 0)), (0, 2));
  (CGetdents 5 (small_file FT_DIRECTORY O_DIRECTORY (OwnData 2)) 2600, (520, 0));
  (CClose (small_file FT_DIRECTORY O_DIRECTORY (OwnData 2)), (0, 0));
  (CUnmount (small_fs 1), (0, 0))].

Lemma small_run : ∃ s', lfs_run_of (small_start true 0) small_calls s' ∧ handles s' = ∅.
Proof.
  eexists. split.
  - eapply run_call; [by eexists|vm_compute; reflexivity|].
    eapply run_call; [split; by eexists|vm_compute; reflexivity|].
    eapply run_call; [split; [exists 2; split; [done|by eexists]|intros q _; simpl; lia]|vm_compute; reflexivity|].
    eapply run_call; [exists 2; split; [done|by eexists]|vm_compute; reflexivity|].
    eapply run_call; [split; [by eexists|by intros q]|vm_compute; reflexivity|].
    apply run_none.
  - reflexivity.
Qed.

Lemma lfs_calls_accounted_witness :
  ∃ s', lfs_run_of (small_start true 0) small_calls s' ∧ lfs_held s' = 0 ∧ lfs_fds s' = ∅ ∧
    open_files (take 3 small_calls) ∅ = {[2 := 1]}.
Proof.
  destruct small_run as (s' & Hrun & _). exists s'. split; [exact Hrun|].
  destruct (lfs_calls_accounted (small_start true 0) s' small_calls) as (_ & Hheld & Hfiles & _).
  - exists 0. split; [reflexivity|]. split; [by left|by intros q p|by split].
  - exact Hrun.
  - split; [exact Hheld|]. split; [rewrite Hfiles; reflexivity|reflexivity].
Defined.

(** ** Edges *)

(** Formatting a device that is not mounted leaves a structure behind that
    nothing points at. *)
Example mkfs_leaks :
  wp (_dfs_lfs_mkfs 9) (λ r s', r = 0 ∧ lfs_mount_tbl s' = [0] ∧ handles s' = {[1 := small_cfg]}) (small_start true 0).
Proof. vm_compute. done. Qed.

(** Without memory, opening a file reports an error of the device: the error
    of the C library is translated as if it were one of littlefs. *)
Example open_no_memory :
  wp (_dfs_lfs_open (small_fs 1) (small_file FT_REGULAR 0 (FsData 0)))
    (λ r _, r.1 = - EIO ∧ r.1 ≠ - ENOMEM) (small_state false 0).
Proof. vm_compute. done. Qed.

(** Where formatting a mounted device fails, the device is no longer in the
    table, and unmounting it fails for ever. *)
Example mkfs_fails :
  wp (_dfs_lfs_mkfs 9 ;;; _dfs_lfs_unmount (small_fs 1))
    (λ r s', r = (- ENOENT, 1) ∧ lfs_mount_tbl s' = [0] ∧ handles s' = {[1 := small_cfg]})
    (small_state true LFS_ERR_IO).
Proof. vm_compute. done. Qed.

(** Nothing keeps a file system with open files from being unmounted: a call
    on the file then uses the structure that was freed. *)
Example unmount_open_file :
  (_dfs_lfs_unmount (small_fs 1) ;;;
   _dfs_lfs_flush (small_file FT_REGULAR 0 (OwnData 2))) (small_state true 0) = Fault NullDeref.
Proof. vm_compute. reflexivity. Qed.
